(* ===== verification/_CoqProject ===== *)
-Q . S2P
Prelude.v
S3Errors.v
Policy.v
Types.v
SqlTable.v
Text.v
Preconditions.v
MetadataStore.v
MetadataRows.v
MetadataInvariant.v
MetadataSteps.v
MetadataOps.v
MetadataListing.v
MetadataReplication.v
MetadataTrait.v
MetadataKeyed.v
MetadataCache.v
MetadataCacheSafety.v
MetadataCacheRace.v
MetadataCacheRuns.v
Delimited.v
DelimitedStore.v
Authorize.v
ControlMerge.v
IdentityStore.v
IdentityMerge.v
BlobRead.v
BlobGc.v
FsBlob.v
FsBlobPaths.v
FsBlobFrame.v
FsBlobSafety.v
FsBlobGc.v
FsBlobRuns.v
Encryption.v
EncryptionFormat.v
EncryptionStream.v
EncryptedBlob.v
EncryptedBlobSafety.v
EncryptionRuns.v
ClusterState.v
ClusterMeta.v
ClusterMetaSafety.v
ClusterControl.v
ClusterControlSafety.v
AntiEntropy.v
AntiEntropySync.v
AntiEntropyRepair.v
Sigv4.v
Sigv4Safety.v
Sigv4Sample.v
Membership.v
MembershipSafety.v
ClusterRuns.v
Middleware.v
MiddlewareAdmin.v
MiddlewareSafety.v
MiddlewareRoutes.v
MiddlewareRuns.v
ChunkedBody.v
ChunkedBodySafety.v
ChunkedBodySigned.v
ChunkedBodyRoundtrip.v
UploadIntegrity.v
UploadRuns.v
MultipartChecksum.v
ReplicationRules.v
ReplicationJournal.v
AppState.v
Replicator.v
ReplicatorSafety.v
ReplicatorRuns.v
ObjectLock.v
Lifecycle.v
LifecycleSafety.v
ObjectWrites.v
HandlerBlobs.v
Worm.v
WriteRuns.v
ObjectReads.v
