(* ===== verification/Prelude.v ===== *)
(** Arca: a verification development for the S3-compatible object store under
    [src/crates].

    ** The program

    Arca answers S3 requests ([arca-proto]) after checking their signature
    ([arca-auth]).  A request is authorized by policy documents attached to
    users and teams ([arca-core/src/policy.rs], [arca-proto/src/authorize.rs]).
    Object rows, buckets, tags, configuration and multipart uploads live in the
    metadata store and users, teams, grants and credentials in the identity
    store, both tables of one SQLite or PostgreSQL database ([arca-storage]).
    The bytes are blob files with JSON sidecars, encrypted if configured; a
    garbage collector reclaims the files that nothing refers to
    ([arca-server/src/blob_gc.rs]).  Workers apply lifecycle rules and deliver
    replicated objects to other servers ([arca-server/src/worker.rs],
    [.../replicator]).  In a cluster every node keeps a full copy: a write is
    sent to the live peers and acknowledged with a quorum
    ([.../cluster/cluster_meta.rs]), object rows that were missed are pulled as
    a change manifest and resolved row by row ([.../cluster/anti_entropy.rs],
    [arca-core/src/types.rs]), and the control plane (identities, buckets and
    their configuration, uploads) travels in snapshots that are merged with
    tombstones ([arca-core/src/cluster.rs]).

    ** The files

    Ground:
    - [Prelude] (this file): results with panics, state-passing actions, the
      generic lemmas, tactics and hints.
    - [S3Errors] ([error.rs]), [Types] ([types.rs]: the records, and
      [resolve_replicated], which merges a row received from a peer).
    - [SqlTable]: tables as maps from a row identifier to a row, the statements
      on them, [ORDER BY] and [LIMIT].  [Text]: UTF-8, prefix ranges.
    - [Preconditions] ([store/metadata.rs], [s3/etag.rs], [s3/bucket_name.rs]).

    Metadata ([arca-storage/src/sqlite/metadata.rs]):
    - [MetadataStore]: the state [MetaStore], one field per table, and one
      definition per operation, with the SQL statements in the order of the
      source.  [MetadataRows], [MetadataInvariant]: the operations as functions
      on the rows of the [objects] table, and the invariant of the rows.
    - [MetadataSteps] (a step relation and its invariant), [MetadataOps] (writes,
      deletes, reads), [MetadataListing] (listings, expiry, uploads),
      [MetadataReplication] (convergence of the rows of two nodes).
    - [MetadataTrait], [MetadataKeyed]: the calls of the store trait as data, and
      the interface the decorators rely on.  [MetadataCache], [..Safety],
      [..Race], [..Runs] ([caching.rs]): the read cache.
    - [Delimited], [DelimitedStore] ([handlers/delimited.rs]): listings with a
      delimiter and their pages.

    Identities and access:
    - [Policy], [Authorize] ([policy.rs], [authorize.rs]).
    - [ControlMerge] ([plan_control_merge]), [IdentityStore] ([sqlite/user.rs] and
      its siblings), [IdentityMerge]: the control-plane tables and their merge.
    - [Sigv4], [Sigv4Safety], [Sigv4Sample] ([arca-auth]): signatures.
    - [Middleware], [MiddlewareAdmin], [MiddlewareSafety], [MiddlewareRoutes],
      [MiddlewareRuns] ([arca-proto/src/middleware], [router.rs]): what runs
      before a handler.

    Blobs ([arca-storage/src/fs], [encryption], [encrypted_blob.rs]):
    - [BlobRead], [FsBlob], [FsBlobPaths], [FsBlobFrame], [FsBlobSafety],
      [FsBlobGc], [FsBlobRuns]: files, sidecars and composites on a disk with
      faults and power loss.  [BlobGc]: garbage collection against the interface
      [RawBlobOps].
    - [Encryption], [EncryptionFormat], [EncryptionStream], [EncryptedBlob],
      [EncryptedBlobSafety], [EncryptionRuns]: the file format, the encrypting
      pipeline and the store over [FsBlob].

    Cluster ([arca-server/src/cluster], [arca-core/src/cluster.rs]):
    - [ClusterState] (quorum, gate, leader), [Membership], [MembershipSafety] (the
      probe loop), [ClusterMeta], [ClusterMetaSafety] (writes with a quorum),
      [ClusterControl], [ClusterControlSafety] (control-plane messages),
      [AntiEntropy], [AntiEntropySync], [AntiEntropyRepair] (pulls and repair),
      [ClusterRuns].

    Requests and workers ([arca-proto/src/handlers], [arca-server/src]):
    - [ChunkedBody], [ChunkedBodySafety], [ChunkedBodySigned],
      [ChunkedBodyRoundtrip], [UploadIntegrity], [UploadRuns] ([body.rs],
      [integrity.rs]), [MultipartChecksum] ([multipart_checksum.rs]).
    - [AppState] (the state handlers share), [ReplicationRules],
      [ReplicationJournal], [Replicator], [ReplicatorSafety], [ReplicatorRuns]
      ([s3/replication.rs], [replication.rs], [replicator/]).
    - [ObjectLock] ([s3/object_lock.rs], the delete, retention, legal-hold and
      bucket handlers), [Lifecycle], [LifecycleSafety] ([s3/lifecycle.rs],
      [worker.rs]), [ObjectWrites] ([object.rs], [multipart.rs], [sidecar.rs],
      [ssec.rs]: uploads, copies, multipart uploads, tags).
    - [HandlerBlobs], [Worm], [WriteRuns]: what sequences of requests and
      lifecycle actions guarantee together.
    - [ObjectReads] ([object.rs], [object_parts.rs]): downloads, ranges, parts of
      an object, attributes.

    ** What the theorems show

    - Metadata: every reachable store keeps one row per version and exactly one
      live latest row per key ([metadata_store_invariant]); reads see the last
      write and deletes hide ([put_then_get], [delete_hides]); the cache answers
      as the store does, and under races within a bound ([cache_transparent],
      [cached_read_bounded]); delimited listings end with the right page and
      the pages add up ([list_delimited_exact], [delimited_pages_complete]).
    - Replication of rows: manifests miss no change ([changed_since_complete]);
      nodes that got the same rows agree ([object_replication_converges]); mutual
      pulls converge, past rows that can not be applied ([mutual_pulls_converge],
      [stuck_entries_skipped]); merges of the control plane converge
      ([control_merge_converges], [control_calls_keep_step]).
    - Cluster: an acknowledged write outlives the loss of fewer nodes than the
      quorum ([acknowledged_write_survives]); a closed gate refuses client writes
      and changes nothing ([closed_gate_refuses]); peers that count proved themselves, and failures
      are detected ([eligible_peers_proved], [failure_detector]); the repair
      sweep completes ([repair_sweep_completes]).
    - Blobs: durability, round trips, atomic failures, authenticity
      ([blob_survives_power_loss], [multipart_reads_back],
      [failed_writes_leave_nothing], [encrypted_put_reads_back],
      [encrypted_reads_authentic], [encrypting_stream_writes_blob]); garbage
      collection keeps what is needed or young, removes the other files, and is
      invisible to reads ([reclaim_blobs_exact], [gc_preserves_reads]).
    - Requests: who passes the middlewares and for how long ([identities_agree],
      [replay_bounded]); signed bodies decode to the client's data and can not be
      forged ([signed_body_roundtrip], [signed_body_unforgeable]); a verified
      upload matches its digests, a combined checksum is the checksum of the
      whole ([verified_upload], [full_object_checksum]); a download is the upload
      and a range request gets the bytes it names ([uploaded_object_downloads],
      [range_request_exact]).
    - Handlers and workers together: no request and no lifecycle action deletes
      a file that a row still needs ([blobs_never_lost]); a version under
      COMPLIANCE retention stays as it is until its date
      ([compliance_retention_holds]); a lifecycle cycle expires exactly what its
      rule selects ([expiration_exact]); the replication journal is well formed,
      gets exactly the entries the rules ask for, and drains
      ([journal_well_formed], [journal_emission], [journal_drains],
      [replication_rules_validated]).

    Some theorems state where the code falls short: [virtual_host_confusion],
    [authorize_deny_bypass], [glob_match_misses_star_text],
    [credential_outlives_deleted_user], [redelivery_undoes_delete],
    [null_version_lock_missed], [tombstone_keeps_bucket_nonempty],
    [recreated_bucket_keeps_config], [stale_read_after_write],
    [interrupted_delivery_stuck], [recrypted_tie_order_matters],
    [inverted_range_wraps], [empty_part_reads_all], and [completion_race], in
    which a part uploaded again while its upload completes takes a file of the
    object away.

    ** Conventions

    Strings are byte strings (UTF-8, as in Rust and SQLite); timestamps are
    nanoseconds in [Z], ordered as their RFC 3339 texts are; sizes, counters
    and sequence numbers are [Z], below 2^63 where SQLite stores them, and wrap
    at 2^64 where the code computes with [u64].  Clock readings, random
    identifiers and keys, and what the network answers are arguments.  Functions
    of other crates are type classes, what the code relies on of them a second
    class of laws, with an instance in the file that ends in [Runs] or [Sample].
    Errors keep their S3 code and resource; the text of an internal error is
    reduced to the name of the operation.  A failing transaction leaves the
    store unchanged.  A handler is one step; where an interleaving inside it
    matters it is given in parts ([assemble] and [commit_assembled], the
    segments of [MetadataCacheRace]).

    Fuels, and why they are enough: [glob_fuel] bounds the backtracking of
    [glob_match] ([glob_loop_total]); [drain_fuel] counts the items and bytes of
    a body; a loop over pages gets one unit per page, and the theorems say how
    many pages suffice ([list_delimited], [reconcile_peer_objects]) or take one
    more than the rows there are ([pages] of [Lifecycle]); decoders get the
    length of their input; [combine_loop] the bits of a 64-bit length.

    ** Not modelled

    Disk faults of the database (a statement fails only on a constraint); HTTP
    and TLS; XML and JSON syntax; compression and re-encryption of blobs; the
    PostgreSQL dialect; the remaining sub-resources of buckets and the archive
    download; notifications, audit, metrics and the offline tools.  These are
    calls into other libraries or drivers of the modelled parts. *)

From stdpp Require Export base list strings gmap sets fin_maps sorting.
From Stdlib Require Export ZArith Lia.

(** ** Results *)

(** What a fallible Rust call does: it returns [Ok], returns [Err], or
    unwinds ([Panic]: a slice out of bounds, an arithmetic overflow, an
    [expect]). *)
Inductive outcome (E A : Type) : Type :=
  | Ok (a : A)
  | Err (e : E)
  | Panic.
Arguments Ok {E A} a.
Arguments Err {E A} e.
Arguments Panic {E A}.

Declare Scope outcome_scope.
Delimit Scope outcome_scope with outcome.

(** The [?] operator: early return on [Err] (and unwinding on [Panic]). *)
Definition obind {E A B : Type} (m : outcome E A) (k : A -> outcome E B) : outcome E B :=
  match m with
  | Ok a => k a
  | Err e => Err e
  | Panic => Panic
  end.

Notation "'let?' x ':=' m 'in' k" := (obind m (fun x => k))
  (at level 10, x pattern, m at level 100, k at level 200)
  : outcome_scope.

Definition is_ok {E A : Type} (m : outcome E A) : bool :=
  match m with Ok _ => true | _ => false end.

Lemma obind_ok {E A B : Type} (m : outcome E A) (k : A -> outcome E B) (b : B) :
  obind m k = Ok b <-> exists a, m = Ok a /\ k a = Ok b.
Proof. destruct m; naive_solver. Qed.

(** A [for] loop whose body may return early: the body runs on each element
    in order, threading the loop state. *)
Fixpoint for_each {E A S : Type} (body : S -> A -> outcome E S) (s : S) (l : list A)
  : outcome E S :=
  match l with
  | [] => Ok s
  | x :: l' => obind (body s x) (fun s' => for_each body s' l')
  end.

(** [Option::is_some]. *)
Definition is_some {A : Type} (o : option A) : bool :=
  match o with Some _ => true | None => false end.

(** ** Lists *)

Definition is_nil {A : Type} (l : list A) : bool :=
  match l with [] => true | _ => false end.

Lemma list_filter_all {A : Type} (P : A -> Prop) `{!forall x, Decision (P x)} (l : list A) :
  (forall x, x ∈ l -> P x) -> filter P l = l.
Proof.
  induction l as [|x l IH]; intros Hl; [done|]. rewrite filter_cons_True.
  - f_equal. apply IH. intros; apply Hl; by right.
  - apply Hl. by left.
Qed.

Lemma list_filter_none {A : Type} (P : A -> Prop) `{!forall x, Decision (P x)} (l : list A) :
  (forall x, x ∈ l -> ~ P x) -> filter P l = [].
Proof.
  induction l as [|x l IH]; intros Hl; [done|]. rewrite filter_cons_False.
  - apply IH. intros; apply Hl; by right.
  - apply Hl. by left.
Qed.

Lemma list_filter_fmap {A B : Type} (f : A -> B) (P : B -> Prop) `{!forall x, Decision (P x)} (l : list A) :
  filter P (f <$> l) = f <$> filter (fun x => P (f x)) l.
Proof.
  induction l as [|x l IH]; [done|]. cbn [fmap list_fmap]. rewrite !filter_cons.
  case_decide; [|done]. cbn [fmap list_fmap]. by f_equal.
Qed.

(** ** Strings

    A Rust [&str] or [String] is its UTF-8 byte string; [string] is a list of
    bytes, compared bytewise, which is how Rust and SQLite compare text. *)

(** [str::chars]: the Unicode scalar values of a UTF-8 string. *)
Fixpoint chars (s : string) : list N :=
  match s with
  | EmptyString => []
  | String b0 s1 =>
      let n := Ascii.N_of_ascii b0 in
      if (n <? 128)%N then n :: chars s1
      else if (n <? 224)%N then
        match s1 with
        | String b1 s2 =>
            ((n - 192) * 64 + (Ascii.N_of_ascii b1 - 128))%N :: chars s2
        | EmptyString => []
        end
      else if (n <? 240)%N then
        match s1 with
        | String b1 (String b2 s3) =>
            ((n - 224) * 4096 + (Ascii.N_of_ascii b1 - 128) * 64
             + (Ascii.N_of_ascii b2 - 128))%N :: chars s3
        | _ => []
        end
      else
        match s1 with
        | String b1 (String b2 (String b3 s4)) =>
            ((n - 240) * 262144 + (Ascii.N_of_ascii b1 - 128) * 4096
             + (Ascii.N_of_ascii b2 - 128) * 64 + (Ascii.N_of_ascii b3 - 128))%N :: chars s4
        | _ => []
        end
  end.

(** [str::starts_with], [str::strip_prefix]. *)
Fixpoint strip_prefix (p s : string) : option string :=
  match p, s with
  | EmptyString, _ => Some s
  | String a p', String b s' =>
      if bool_decide (a = b) then strip_prefix p' s' else None
  | String _ _, EmptyString => None
  end.

Definition starts_with (s p : string) : bool :=
  match strip_prefix p s with Some _ => true | None => false end.

Lemma strip_prefix_Some p s r : strip_prefix p s = Some r <-> s = (p +:+ r).
Proof.
  revert s; induction p as [|a p IH]; intros s; simpl.
  - naive_solver.
  - destruct s as [|b s]; [naive_solver|].
    case_bool_decide as E; [subst; rewrite IH|]; simpl.
    + split; [intros ->|intros [= ->]]; done.
    + split; [done|intros [= -> _]; done].
Qed.

Lemma starts_with_spec s p : starts_with s p = true <-> exists r, s = (p +:+ r).
Proof.
  unfold starts_with. destruct (strip_prefix p s) as [r|] eqn:E.
  - apply strip_prefix_Some in E. naive_solver.
  - split; [done|]. intros [r ->].
    enough (strip_prefix p (p +:+ r) = Some r) by congruence.
    by apply strip_prefix_Some.
Qed.

(** [str::strip_suffix(c)] for a one-byte character. *)
Fixpoint strip_suffix_char (c : Ascii.ascii) (s : string) : option string :=
  match s with
  | EmptyString => None
  | String a EmptyString => if bool_decide (a = c) then Some EmptyString else None
  | String a s' => String a <$> strip_suffix_char c s'
  end.

Lemma strip_suffix_char_Some c s r :
  strip_suffix_char c s = Some r <-> s = (r +:+ String c EmptyString).
Proof.
  revert r; induction s as [|a s IH]; intros r; simpl.
  - split; [done|]. by destruct r.
  - destruct s as [|b s].
    + case_bool_decide as E; [subst|].
      * split; [naive_solver|]. destruct r as [|x r]; simpl; [done|].
        intros [= <- H]. by destruct r.
      * split; [done|]. destruct r as [|x r]; simpl; [by intros [= ->]|].
        intros [= <- H]. by destruct r.
    + rewrite fmap_Some. setoid_rewrite IH. split.
      * intros (x & Hx & ->). simpl. by rewrite Hx.
      * destruct r as [|x r]; simpl; [done|]. intros [= <- H]. eauto.
Qed.

(** The double-quote character as a string, for messages that quote a value. *)
Definition dquote : string := String (Ascii.ascii_of_nat 34) EmptyString.

Definition quoted (s : string) : string := dquote +:+ s +:+ dquote.

(** ** Orders *)

(** [Option]'s [PartialOrd] on timestamps: [None < Some _]. *)
Definition opt_gtb (a b : option Z) : bool :=
  match a, b with
  | Some x, Some y => (y <? x)%Z
  | Some _, None => true
  | None, _ => false
  end.

Lemma opt_gtb_irrefl a : opt_gtb a a = false.
Proof. destruct a; simpl; lia. Qed.

Lemma opt_gtb_trans a b c : opt_gtb a b = true -> opt_gtb b c = true -> opt_gtb a c = true.
Proof. destruct a, b, c; simpl; first [done|lia]. Qed.

Lemma opt_gtb_asym a b : opt_gtb a b = true -> opt_gtb b a = false.
Proof. destruct a, b; simpl; first [done|lia]. Qed.

Lemma opt_gtb_tie a b : opt_gtb a b = false -> opt_gtb b a = false -> a = b.
Proof. destruct a, b; simpl; intros; try done. f_equal; lia. Qed.

Lemma opt_gtb_ge_trans a b c :
  opt_gtb a b = false -> opt_gtb b c = false -> opt_gtb a c = false.
Proof. destruct a, b, c; simpl; first [done|lia]. Qed.

(** Bytewise order of strings. *)
Lemma string_ltb_irrefl s : String.ltb s s = false.
Proof.
  unfold String.ltb. destruct (String.compare s s) eqn:E; try done.
  pose proof (String.compare_antisym s s) as H. rewrite E in H. done.
Qed.

Lemma string_ltb_asym s t : String.ltb s t = true -> String.ltb t s = false.
Proof.
  unfold String.ltb. rewrite (String.compare_antisym t s).
  by destruct (String.compare s t).
Qed.

Lemma string_ltb_tie s t : String.ltb s t = false -> String.ltb t s = false -> s = t.
Proof.
  unfold String.ltb. rewrite (String.compare_antisym t s).
  destruct (String.compare s t) eqn:E; try done. by apply String.compare_eq_iff in E.
Qed.

Lemma string_ltb_leb s t : String.ltb s t = negb (String.leb t s).
Proof.
  unfold String.ltb, String.leb. rewrite (String.compare_antisym t s).
  by destruct (String.compare s t).
Qed.

Lemma string_ltb_trans s t u :
  String.ltb s t = true -> String.ltb t u = true -> String.ltb s u = true.
Proof.
  rewrite !string_ltb_leb, !negb_true_iff. intros H1 H2.
  apply not_true_iff_false. intros H3.
  assert (String.leb u s = true) as Hus by done.
  assert (String.leb s t = true) as Hst by (destruct (String.leb_total s t); congruence).
  assert (String.le u t) as Hut.
  { unfold String.le. etrans; [apply Is_true_true, Hus|apply Is_true_true, Hst]. }
  apply Is_true_true in Hut. congruence.
Qed.

(** [ORDER BY] an integer or a text column. *)
Definition order_by_Z {A : Type} (k : A -> Z) : relation A := fun a b => (k a <= k b)%Z.
Definition order_by_text {A : Type} (k : A -> string) : relation A :=
  fun a b => String.leb (k a) (k b) = true.

#[export] Instance order_by_Z_dec {A} (k : A -> Z) : RelDecision (order_by_Z k).
Proof. intros a b. unfold order_by_Z. apply _. Defined.
#[export] Instance order_by_text_dec {A} (k : A -> string) : RelDecision (order_by_text k).
Proof. intros a b. unfold order_by_text. apply _. Defined.

(** ** Stateful actions

    A fallible call on a store.  The state is returned on every exit: what an
    earlier statement committed stays committed when a later one fails. *)
Definition act (S E A : Type) : Type := S -> S * outcome E A.

Definition act_ret {S E A : Type} (a : A) : act S E A := fun s => (s, Ok a).

Definition act_fail {S E A : Type} (e : E) : act S E A := fun s => (s, Err e).

Definition act_bind {S E A B : Type} (m : act S E A) (k : A -> act S E B) : act S E B :=
  fun s =>
    match m s with
    | (s', Ok a) => k a s'
    | (s', Err e) => (s', Err e)
    | (s', Panic) => (s', Panic)
    end.

Declare Scope act_scope.
Delimit Scope act_scope with act.

Notation "'let!' x ':=' m 'in' k" := (act_bind m (fun x => k))
  (at level 10, x pattern, m at level 100, k at level 200)
  : act_scope.

(** [for x in l { f(x)?; }] *)
Fixpoint act_for {S E A : Type} (f : A -> act S E unit) (l : list A) : act S E unit :=
  match l with
  | [] => act_ret tt
  | x :: l' => act_bind (f x) (fun _ => act_for f l')
  end.

Lemma act_bind_ok {S E A B : Type} (m : act S E A) (k : A -> act S E B) s s' b :
  act_bind m k s = (s', Ok b) <-> exists s1 a, m s = (s1, Ok a) /\ k a s1 = (s', Ok b).
Proof.
  unfold act_bind. destruct (m s) as [s1 [a|e|]]; split.
  - eauto.
  - by intros (? & ? & [= -> ->] & ?).
  - done.
  - by intros (? & ? & [=] & _).
  - done.
  - by intros (? & ? & [=] & _).
Qed.

(** What a loop of successful actions does to a part of the state. *)
Lemma act_for_fold {S E A P : Type} (f : A -> act S E unit) (proj : S -> P) (g : P -> A -> P)
    (l : list A) s s' :
  (forall x s1 s2, x ∈ l -> f x s1 = (s2, Ok tt) -> proj s2 = g (proj s1) x) ->
  act_for f l s = (s', Ok tt) -> proj s' = foldl g (proj s) l.
Proof.
  revert s. induction l as [|x l IH]; simpl; intros s Hf H.
  - by injection H as <-.
  - apply act_bind_ok in H as (s1 & [] & H1 & H2).
    rewrite (IH s1); [|intros; apply Hf; [by right|done]|done].
    f_equal. apply Hf; [by left|done].
Qed.

(** A property every step keeps holds after the loop, however it ends. *)
Lemma act_for_inv {S E A : Type} (f : A -> act S E unit) (P : S -> Prop) (l : list A) s :
  (forall x s1, x ∈ l -> P s1 -> P (f x s1).1) -> P s -> P (act_for f l s).1.
Proof.
  revert s. induction l as [|x l IH]; simpl; intros s Hf Hs; [done|].
  unfold act_bind. pose proof (Hf x s ltac:(by left) Hs) as H1.
  destruct (f x s) as [s1 [a|e|]]; simpl in *; [|done..].
  apply IH; [|done]. intros; apply Hf; [by right|done].
Qed.
