(* ===== verification/S3Errors.v ===== *)
(** S3 error codes and error values: [crates/arca-core/src/error.rs].

    The code enumeration with its HTTP status, wire name and default message,
    and the error value the S3 layer returns.  The random [request_id] of an
    error is not modelled (it is only echoed in the XML body). *)

From S2P Require Import Prelude.

Inductive S3ErrorCode : Type :=
  | AccessDenied
  | BadDigest
  | BucketAlreadyExists
  | BucketAlreadyOwnedByYou
  | BucketNotEmpty
  | EntityTooLarge
  | EntityTooSmall
  | InternalError
  | InvalidAccessKeyId
  | InvalidArgument
  | InvalidBucketName
  | InvalidDigest
  | InvalidPart
  | InvalidPartOrder
  | InvalidRange
  | InvalidRequest
  | MethodNotAllowed
  | NotModified
  | NoSuchBucket
  | NoSuchKey
  | NoSuchVersion
  | MalformedXML
  | PreconditionFailed
  | NoSuchLifecycleConfiguration
  | NoSuchObjectLockConfiguration
  | NoSuchTagSet
  | ObjectLocked
  | NoSuchUpload
  | NotImplemented
  | InvalidTag
  | ServerSideEncryptionConfigurationNotFoundError
  | SignatureDoesNotMatch
  | SlowDown
  | XAmzContentSHA256Mismatch
  | InvalidRetentionPeriod
  | InvalidBucketState
  | ReplicationConfigurationNotFoundError
  | ServiceUnavailable
  | InsufficientStorage.

#[export] Instance S3ErrorCode_eq_dec : EqDecision S3ErrorCode.
Proof. solve_decision. Defined.

(** [S3ErrorCode::http_status]. *)
Definition http_status (c : S3ErrorCode) : Z :=
  match c with
  | AccessDenied => 403
  | BadDigest => 400
  | BucketAlreadyExists => 409
  | BucketAlreadyOwnedByYou => 200
  | BucketNotEmpty => 409
  | EntityTooLarge => 400
  | EntityTooSmall => 400
  | InternalError => 500
  | InvalidAccessKeyId => 403
  | InvalidArgument => 400
  | InvalidBucketName => 400
  | InvalidDigest => 400
  | InvalidPart => 400
  | InvalidPartOrder => 400
  | InvalidRange => 416
  | InvalidRequest => 400
  | MethodNotAllowed => 405
  | NotModified => 304
  | NoSuchBucket => 404
  | NoSuchKey => 404
  | NoSuchVersion => 404
  | MalformedXML => 400
  | PreconditionFailed => 412
  | NoSuchLifecycleConfiguration => 404
  | NoSuchObjectLockConfiguration => 404
  | NoSuchTagSet => 404
  | ObjectLocked => 403
  | NoSuchUpload => 404
  | NotImplemented => 501
  | InvalidTag => 400
  | ServerSideEncryptionConfigurationNotFoundError => 400
  | SignatureDoesNotMatch => 403
  | SlowDown => 503
  | XAmzContentSHA256Mismatch => 400
  | InvalidRetentionPeriod => 400
  | InvalidBucketState => 409
  | ReplicationConfigurationNotFoundError => 404
  | ServiceUnavailable => 503
  | InsufficientStorage => 507
  end.

(** [S3ErrorCode::as_str]. *)
Definition as_str (c : S3ErrorCode) : string :=
  match c with
  | AccessDenied => "AccessDenied"
  | BadDigest => "BadDigest"
  | BucketAlreadyExists => "BucketAlreadyExists"
  | BucketAlreadyOwnedByYou => "BucketAlreadyOwnedByYou"
  | BucketNotEmpty => "BucketNotEmpty"
  | EntityTooLarge => "EntityTooLarge"
  | EntityTooSmall => "EntityTooSmall"
  | InternalError => "InternalError"
  | InvalidAccessKeyId => "InvalidAccessKeyId"
  | InvalidArgument => "InvalidArgument"
  | InvalidBucketName => "InvalidBucketName"
  | InvalidDigest => "InvalidDigest"
  | InvalidPart => "InvalidPart"
  | InvalidPartOrder => "InvalidPartOrder"
  | InvalidRange => "InvalidRange"
  | InvalidRequest => "InvalidRequest"
  | MethodNotAllowed => "MethodNotAllowed"
  | NotModified => "NotModified"
  | NoSuchBucket => "NoSuchBucket"
  | NoSuchKey => "NoSuchKey"
  | NoSuchVersion => "NoSuchVersion"
  | MalformedXML => "MalformedXML"
  | PreconditionFailed => "PreconditionFailed"
  | NoSuchLifecycleConfiguration => "NoSuchLifecycleConfiguration"
  | NoSuchObjectLockConfiguration => "ObjectLockConfigurationNotFoundError"
  | NoSuchTagSet => "NoSuchTagSet"
  | ObjectLocked => "AccessDenied"
  | NoSuchUpload => "NoSuchUpload"
  | NotImplemented => "NotImplemented"
  | InvalidTag => "InvalidTag"
  | ServerSideEncryptionConfigurationNotFoundError => "ServerSideEncryptionConfigurationNotFoundError"
  | SignatureDoesNotMatch => "SignatureDoesNotMatch"
  | SlowDown => "SlowDown"
  | XAmzContentSHA256Mismatch => "XAmzContentSHA256Mismatch"
  | InvalidRetentionPeriod => "InvalidRetentionPeriod"
  | InvalidBucketState => "InvalidBucketState"
  | ReplicationConfigurationNotFoundError => "ReplicationConfigurationNotFoundError"
  | ServiceUnavailable => "ServiceUnavailable"
  | InsufficientStorage => "InsufficientStorage"
  end.

(** [S3ErrorCode::default_message]. *)
Definition default_message (c : S3ErrorCode) : string :=
  match c with
  | AccessDenied => "Access Denied"
  | BadDigest => "The Content-MD5 you specified did not match what we received."
  | BucketAlreadyExists => "The requested bucket name is not available."
  | BucketAlreadyOwnedByYou => "The bucket you tried to create already exists, and you own it."
  | BucketNotEmpty => "The bucket you tried to delete is not empty."
  | EntityTooLarge => "Your proposed upload exceeds the maximum allowed object size."
  | EntityTooSmall => "Your proposed upload is smaller than the minimum allowed object size."
  | InternalError => "We encountered an internal error. Please try again."
  | InvalidAccessKeyId => "The AWS access key ID you provided does not exist in our records."
  | InvalidArgument => "Invalid Argument"
  | InvalidBucketName => "The specified bucket is not valid."
  | InvalidDigest => "The Content-MD5 you specified is not valid."
  | InvalidPart => "One or more of the specified parts could not be found."
  | InvalidPartOrder => "The list of parts was not in ascending order."
  | InvalidRange => "The requested range is not satisfiable."
  | InvalidRequest => "Invalid Request"
  | MethodNotAllowed => "The specified method is not allowed against this resource."
  | NotModified => "Not Modified"
  | NoSuchBucket => "The specified bucket does not exist."
  | NoSuchKey => "The specified key does not exist."
  | NoSuchVersion => "The specified version does not exist."
  | MalformedXML => "The XML you provided was not well-formed or did not validate against our published schema."
  | PreconditionFailed => "At least one of the pre-conditions you specified did not hold."
  | NoSuchLifecycleConfiguration => "The lifecycle configuration does not exist."
  | NoSuchObjectLockConfiguration => "Object Lock configuration does not exist for this bucket."
  | NoSuchTagSet => "The TagSet does not exist."
  | ObjectLocked => "Object is protected by Object Lock and cannot be deleted."
  | NoSuchUpload => "The specified multipart upload does not exist."
  | NotImplemented => "A header you provided implies functionality that is not implemented."
  | InvalidTag => "The tag provided was not valid."
  | ServerSideEncryptionConfigurationNotFoundError => "The server side encryption configuration was not found."
  | SignatureDoesNotMatch => "The request signature we calculated does not match the signature you provided."
  | SlowDown => "Please reduce your request rate."
  | XAmzContentSHA256Mismatch => "The provided 'x-amz-content-sha256' header does not match what was computed."
  | InvalidRetentionPeriod => "The retention period specified is not valid."
  | InvalidBucketState => "The request is not valid for the current state of the bucket."
  | ReplicationConfigurationNotFoundError => "The replication configuration was not found."
  | ServiceUnavailable => "The service is unable to accept the write right now; please retry."
  | InsufficientStorage => "Insufficient storage: a node in the cluster lacks the disk space to store this object."
  end.

(** [S3Error], without the random request id. *)
Record S3Error : Type := {
  err_code : S3ErrorCode;
  err_message : string;
  err_resource : string;
}.

(** [S3Error::with_message]. *)
Definition with_message (c : S3ErrorCode) (msg res : string) : S3Error :=
  {| err_code := c; err_message := msg; err_resource := res |}.

(** [S3Error::new]: the default message of the code. *)
Definition S3Error_new (c : S3ErrorCode) (res : string) : S3Error :=
  {| err_code := c; err_message := default_message c; err_resource := res |}.

(** [ArcaError]. *)
Inductive ArcaError : Type :=
  | S3 (e : S3Error)
  | DecryptionFailed (msg : string)
  | Internal (msg : string).
