(* ===== verification/Policy.v ===== *)
(** IAM policies: [crates/arca-core/src/policy.rs].

    The policy document, the action and resource matchers (with the
    backtracking glob loop written index by index as in the source), the
    deny-overrides evaluation and the document validation.  The glob loop is
    proved equivalent to a declarative matching relation for texts without
    [*]; for texts with a [*] it is shown to miss matches. *)

From stdpp Require Import pretty.
From S2P Require Import Prelude S3Errors.

(** ** Actions *)

Definition ALL_KNOWN : list string := [
  "s3:CreateBucket";
  "s3:DeleteBucket";
  "s3:ListBucket";
  "s3:ListAllMyBuckets";
  "s3:GetBucketLocation";
  "s3:GetBucketEncryption";
  "s3:PutBucketEncryption";
  "s3:DeleteBucketEncryption";
  "s3:GetObject";
  "s3:PutObject";
  "s3:DeleteObject";
  "s3:GetBucketObjectLockConfiguration";
  "s3:PutBucketObjectLockConfiguration";
  "s3:GetObjectRetention";
  "s3:PutObjectRetention";
  "s3:GetObjectLegalHold";
  "s3:PutObjectLegalHold";
  "s3:BypassGovernanceRetention";
  "arca:ViewServerInfo";
  "arca:ManageUsers";
  "arca:ManageTeams";
  "arca:ManageGrants";
  "arca:ManageCredentials";
  "arca:CreatePresignedUrl";
  "arca:CreateArchive"
].

Definition is_valid_action (action : string) : bool :=
  if bool_decide (action = "*") || bool_decide (action = "s3:*")
     || bool_decide (action = "arca:*")
  then true
  else bool_decide (action ∈ ALL_KNOWN).

(** ** Documents *)

Inductive Effect : Type := EffAllow | EffDeny.

Record Statement : Type := {
  st_sid : option string;
  st_effect : Effect;
  st_action : list string;
  st_resource : list string;
}.

Record PolicyDocument : Type := {
  doc_version : string;
  doc_statement : list Statement;
}.

Inductive Evaluation : Type := Allow | Deny | NoMatch.

#[export] Instance Effect_eq_dec : EqDecision Effect.
Proof. solve_decision. Defined.
#[export] Instance Statement_eq_dec : EqDecision Statement.
Proof. solve_decision. Defined.
#[export] Instance PolicyDocument_eq_dec : EqDecision PolicyDocument.
Proof. solve_decision. Defined.
#[export] Instance Evaluation_eq_dec : EqDecision Evaluation.
Proof. solve_decision. Defined.

(** ** Matching *)

(** The byte of [*]. *)
Definition star_byte : Ascii.ascii := Ascii.ascii_of_nat 42.

Definition matches_action (pattern act : string) : bool :=
  if bool_decide (pattern = "*") then true
  else
    match strip_suffix_char star_byte pattern with
    | Some prefix => starts_with act prefix
    | None => bool_decide (pattern = act)
    end.

(** The characters [*] and [?]. *)
Definition star : N := 42.
Definition qmark : N := 63.

(** The main [while ti < tlen] loop of [glob_match], one iteration per unit of
    fuel.  [star_pi] is [None] for the sentinel [usize::MAX].  The result is
    the pattern index on normal exit of the loop, [Some None] for the early
    [return false], and [None] when the fuel is exhausted. *)
Fixpoint glob_loop (fuel : nat) (pat txt : list N) (pi ti : nat)
    (star_pi : option nat) (star_ti : nat) : option (option nat) :=
  match fuel with
  | O => None
  | S fuel' =>
      match txt !! ti with
      | None => Some (Some pi)
      | Some c =>
          let backtrack :=
            match star_pi with
            | Some sp => glob_loop fuel' pat txt (S sp) (S star_ti) star_pi (S star_ti)
            | None => Some None
            end in
          match pat !! pi with
          | Some p =>
              if bool_decide (p = qmark) || bool_decide (p = c)
              then glob_loop fuel' pat txt (S pi) (S ti) star_pi star_ti
              else if bool_decide (p = star)
              then glob_loop fuel' pat txt (S pi) ti (Some pi) ti
              else backtrack
          | None => backtrack
          end
      end
  end.

(** The trailing [while pi < plen && pat[pi] == '*'] loop. *)
Fixpoint skip_stars (pi : nat) (rest : list N) : nat :=
  match rest with
  | p :: rest' => if bool_decide (p = star) then skip_stars (S pi) rest' else pi
  | [] => pi
  end.

(** Iterations that always suffice for [glob_loop] (see [glob_loop_total]). *)
Definition glob_fuel (pat txt : list N) : nat :=
  S (S (length txt) * S (length pat + length txt)).

Definition glob_match (pattern text : string) : bool :=
  let pat := chars pattern in
  let txt := chars text in
  match glob_loop (glob_fuel pat txt) pat txt 0 0 None 0 with
  | Some (Some pi) => bool_decide (skip_stars pi (drop pi pat) = length pat)
  | Some None => false
  | None => false
  end.

Definition matches_resource (pattern res : string) : bool :=
  if bool_decide (pattern = "*") then true else glob_match pattern res.

(** ** Evaluation *)

Definition evaluate_statement (stmt : Statement) (act res : string) : Evaluation :=
  if negb (existsb (fun p => matches_action p act) (st_action stmt)) then NoMatch
  else if negb (existsb (fun p => matches_resource p res) (st_resource stmt)) then NoMatch
  else match st_effect stmt with
       | EffAllow => Allow
       | EffDeny => Deny
       end.

(** The loop [evaluate_policy] and [evaluate_grants] share: return [Deny] at
    the first deny, remember whether an allow was seen. *)
Fixpoint deny_overrides {A : Type} (eval : A -> Evaluation) (found_allow : bool)
    (l : list A) : Evaluation :=
  match l with
  | [] => if found_allow then Allow else NoMatch
  | x :: l' =>
      match eval x with
      | Deny => Deny
      | Allow => deny_overrides eval true l'
      | NoMatch => deny_overrides eval found_allow l'
      end
  end.

Definition evaluate_policy (doc : PolicyDocument) (act res : string) : Evaluation :=
  deny_overrides (fun stmt => evaluate_statement stmt act res) false (doc_statement doc).

Definition evaluate_grants (grants : list PolicyDocument) (act res : string) : Evaluation :=
  deny_overrides (fun doc => evaluate_policy doc act res) false grants.

(** ** Validation *)

Definition is_valid_resource (res : string) : bool :=
  if bool_decide (res = "*") then true else starts_with res "arn:aws:s3:::".

Definition statement_label (i : nat) (stmt : Statement) : string :=
  match st_sid stmt with
  | Some s => "Statement " +:+ quoted s
  | None => "Statement[" +:+ pretty i +:+ "]"
  end.

Definition validate_statement (i : nat) (stmt : Statement) : list string :=
  let label := statement_label i stmt in
  (match st_action stmt with
   | [] => [label +:+ ": Action must not be empty"]
   | _ => []
   end)
  ++ ((fun a => label +:+ ": Unknown action " +:+ quoted a)
        <$> List.filter (fun a => negb (is_valid_action a)) (st_action stmt))
  ++ (match st_resource stmt with
      | [] => [label +:+ ": Resource must not be empty"]
      | _ => []
      end)
  ++ ((fun r => label +:+ ": Invalid resource " +:+ quoted r)
        <$> List.filter (fun r => negb (is_valid_resource r)) (st_resource stmt)).

Definition validate_policy_document (doc : PolicyDocument) : list string :=
  (if bool_decide (doc_version doc = "2012-10-17") then []
   else ["Unsupported policy version " +:+ quoted (doc_version doc)
         +:+ ", expected " +:+ quoted "2012-10-17"])
  ++ (match doc_statement doc with
      | [] => ["Policy must contain at least one statement"]
      | _ => []
      end)
  ++ concat (imap validate_statement (doc_statement doc)).

(** ** What a glob pattern means *)

(** [glob p t]: the text [t] matches the pattern [p], where [*] stands for any
    sequence of characters and [?] for exactly one. *)
Inductive glob : list N -> list N -> Prop :=
  | glob_nil : glob [] []
  | glob_star p t1 t2 : glob p t2 -> glob (star :: p) (t1 ++ t2)
  | glob_qmark p c t : glob p t -> glob (qmark :: p) (c :: t)
  | glob_char p c t : c <> star -> glob p t -> glob (c :: p) (c :: t).

Create HintDb policy.
#[export] Hint Constructors glob : policy.

(** One non-star pattern character against one text character. *)
Definition char_match (p c : N) : Prop := p <> star /\ (p = qmark \/ p = c).

Lemma glob_app_seg seg u rest t :
  Forall2 char_match seg u -> glob rest t -> glob (seg ++ rest) (u ++ t).
Proof.
  intros Hs Hg. induction Hs as [|p c seg u [Hp [->| ->]] _ IH]; simpl; auto with policy.
Qed.

(** Inverting a match on its first pattern character. *)
Lemma glob_cons_inv p rest t :
  p <> star -> glob (p :: rest) t ->
  exists c t', t = c :: t' /\ char_match p c /\ glob rest t'.
Proof. intros Hp Hg. inversion Hg; subst; unfold char_match; naive_solver. Qed.

Lemma glob_star_inv rest t :
  glob (star :: rest) t -> exists t1 t2, t = t1 ++ t2 /\ glob rest t2.
Proof. intros Hg. inversion Hg; subst; naive_solver. Qed.

Lemma glob_app_seg_inv seg u rest t :
  Forall2 char_match seg u -> glob (seg ++ rest) t ->
  exists v t', t = v ++ t' /\ length v = length seg /\ glob rest t'.
Proof.
  intros Hs. revert t. induction Hs as [|p c seg u [Hp _] _ IH]; simpl; intros t Hg.
  - by exists [], t.
  - apply glob_cons_inv in Hg as (c' & t' & -> & _ & Hg); [|done].
    apply IH in Hg as (v & t'' & -> & Hl & Hg).
    exists (c' :: v), t''. simpl. auto.
Qed.

(** A leading [*] may absorb more text. *)
Lemma glob_star_extend rest t1 t2 : glob (star :: rest) t2 -> glob (star :: rest) (t1 ++ t2).
Proof.
  intros (a & b & -> & Hg)%glob_star_inv. rewrite app_assoc. auto with policy.
Qed.

Lemma glob_all_stars rest : glob rest [] <-> Forall (fun p => p = star) rest.
Proof.
  split.
  - intros Hg. remember [] as t eqn:Et. induction Hg as [|p t1 t2 _ IH| |]; try done.
    destruct t1, t2; try done. auto.
  - induction 1; subst; [constructor|]. by apply (glob_star _ [] []).
Qed.

Lemma skip_stars_spec pi rest :
  skip_stars pi rest = pi + length rest <-> Forall (fun p => p = star) rest.
Proof.
  revert pi. induction rest as [|p rest IH]; intros pi; simpl.
  - split; [constructor|lia].
  - rewrite Forall_cons. case_bool_decide as Hp.
    + rewrite <- (IH (S pi)). split; [intros; split; [done|lia]|intros [_ ->]; lia].
    + split; [lia|naive_solver].
Qed.

(** ** The glob loop terminates *)

(** Work left: every iteration decreases it (backtracking advances [star_ti]). *)
Definition glob_measure (pat txt : list N) (pi ti star_ti : nat) : nat :=
  (length txt - star_ti) * S (length pat + length txt) + (length pat + length txt - (pi + ti)).

Lemma glob_loop_total fuel pat txt pi ti star_pi star_ti :
  pi <= length pat -> ti <= length txt -> star_ti <= ti ->
  (forall sp, star_pi = Some sp -> sp < length pat) ->
  glob_measure pat txt pi ti star_ti < fuel ->
  exists r, glob_loop fuel pat txt pi ti star_pi star_ti = Some r.
Proof.
  revert pi ti star_pi star_ti.
  induction fuel as [|fuel IH]; intros pi ti star_pi star_ti Hpi Hti Hst Hsp Hf; [lia|].
  unfold glob_measure in *. simpl.
  destruct (txt !! ti) as [c|] eqn:Ec; [|by eauto].
  apply lookup_lt_Some in Ec.
  assert (Hback : exists r, match star_pi with
      | Some sp => glob_loop fuel pat txt (S sp) (S star_ti) star_pi (S star_ti)
      | None => Some None
      end = Some r).
  { destruct star_pi as [sp|]; [|by eauto].
    specialize (Hsp sp eq_refl).
    apply IH; try lia; [naive_solver|].
    replace (length txt - star_ti) with (S (length txt - S star_ti)) in Hf by lia. lia. }
  destruct (pat !! pi) as [p|] eqn:Ep; [|done].
  apply lookup_lt_Some in Ep.
  destruct (_ || _); [|case_bool_decide; [|done]].
  - apply IH; try lia. done.
  - apply IH; try lia; [naive_solver|].
    assert ((length txt - ti) * S (length pat + length txt)
            <= (length txt - star_ti) * S (length pat + length txt))
      by (apply Nat.mul_le_mono_r; lia).
    lia.
Qed.

(** ** The glob loop computes [glob] *)

(** The loop invariant.  Before the first [*] the consumed pattern and text
    match character by character; after it, [seg] is the part of the pattern
    consumed since the last [*], matched against [u], and the whole problem is
    equivalent to matching from that [*] on. *)
Definition glob_inv (pat txt : list N) (pi ti : nat) (star_pi : option nat) (star_ti : nat)
    (rest trest : list N) : Prop :=
  match star_pi with
  | None => exists seg u,
      pat = seg ++ rest /\ pi = length seg /\ txt = u ++ trest /\ ti = length u
      /\ Forall2 char_match seg u
  | Some sp => exists pre seg w u,
      pat = pre ++ star :: seg ++ rest /\ sp = length pre /\ pi = S (sp + length seg)
      /\ txt = w ++ u ++ trest /\ star_ti = length w /\ ti = star_ti + length u
      /\ Forall2 char_match seg u
      /\ (glob pat txt <-> glob (star :: seg ++ rest) (u ++ trest))
  end.

Lemma glob_inv_shape pat txt pi ti star_pi star_ti rest trest :
  glob_inv pat txt pi ti star_pi star_ti rest trest ->
  pat !! pi = head rest /\ txt !! ti = head trest /\ drop pi pat = rest
  /\ length pat = pi + length rest.
Proof.
  assert (Hsplit : forall (l a b : list N) i, l = a ++ b -> i = length a ->
    l !! i = head b /\ drop i l = b /\ length l = i + length b).
  { intros l a b i -> ->. rewrite lookup_app_r, Nat.sub_diag by lia.
    rewrite drop_app_length, length_app. by destruct b. }
  unfold glob_inv. destruct star_pi as [sp|].
  - intros (pre & seg & w & u & Hp & -> & -> & Ht & -> & -> & _).
    destruct (Hsplit pat (pre ++ star :: seg) rest (S (length pre + length seg)))
      as (? & ? & ?); [by rewrite Hp, <- app_assoc|rewrite length_app; simpl; lia|].
    destruct (Hsplit txt (w ++ u) trest (length w + length u)) as (? & ? & ?);
      [by rewrite Ht, <- app_assoc|by rewrite length_app|]. auto.
  - intros (seg & u & Hp & -> & Ht & -> & _).
    destruct (Hsplit pat seg rest (length seg)) as (? & ? & ?); [done..|].
    destruct (Hsplit txt u trest (length u)) as (? & ? & ?); [done..|]. auto.
Qed.

Lemma glob_seg_iff seg u rest t :
  Forall2 char_match seg u -> glob (seg ++ rest) (u ++ t) <-> glob rest t.
Proof.
  intros Hs. split; [|by apply glob_app_seg].
  intros (v & t' & Heq & Hl & Hg)%(glob_app_seg_inv seg u); [|done].
  apply app_inj_1 in Heq as [_ ->]; [done|].
  rewrite Hl. symmetry. by eapply Forall2_length.
Qed.

Lemma glob_inv_char pat txt pi ti star_pi star_ti p rest c trest :
  glob_inv pat txt pi ti star_pi star_ti (p :: rest) (c :: trest) -> char_match p c ->
  glob_inv pat txt (S pi) (S ti) star_pi star_ti rest trest.
Proof.
  unfold glob_inv. intros Hinv Hpc. destruct star_pi as [sp|].
  - destruct Hinv as (pre & seg & w & u & Hp & -> & -> & Ht & -> & -> & Hm & Hiff).
    exists pre, (seg ++ [p]), w, (u ++ [c]). rewrite <- !app_assoc, !length_app. simpl.
    split_and!; auto; try lia. apply Forall2_app; [done|by apply Forall2_cons].
  - destruct Hinv as (seg & u & Hp & -> & Ht & -> & Hm).
    exists (seg ++ [p]), (u ++ [c]). rewrite <- !app_assoc, !length_app. simpl.
    split_and!; auto; try lia. apply Forall2_app; [done|by apply Forall2_cons].
Qed.

(** Meeting a new [*]: the earlier one need not be reconsidered, since what
    it could still absorb the new one can absorb too. *)
Lemma glob_inv_star pat txt pi ti star_pi star_ti rest trest :
  glob_inv pat txt pi ti star_pi star_ti (star :: rest) trest ->
  glob_inv pat txt (S pi) ti (Some pi) ti rest trest.
Proof.
  unfold glob_inv. intros Hinv. destruct star_pi as [sp|].
  - destruct Hinv as (pre & seg & w & u & Hp & -> & -> & Ht & -> & -> & Hm & Hiff).
    exists (pre ++ star :: seg), [], (w ++ u), []. simpl.
    rewrite <- !app_assoc, !length_app. simpl. split_and!; auto; try lia.
    rewrite Hiff. split.
    + intros (a & b & Heq & Hg)%glob_star_inv.
      apply (glob_app_seg_inv _ _ _ _ Hm) in Hg as (v & t' & -> & Hl & Hg).
      assert (length u = length seg) as Hlu by (symmetry; by eapply Forall2_length).
      assert (exists x, trest = x ++ t') as [x ->].
      { exists (drop (length u) (a ++ v)).
        rewrite app_assoc in Heq. apply (f_equal (drop (length u))) in Heq.
        rewrite drop_app_length in Heq. rewrite Heq, drop_app_le; [done|].
        rewrite length_app. lia. }
      by apply glob_star_extend.
    + intros Hg. apply (glob_star _ [] (u ++ trest)). by apply glob_app_seg.
  - destruct Hinv as (seg & u & Hp & -> & Ht & -> & Hm).
    exists seg, [], u, []. simpl. split_and!; auto; try lia.
    rewrite Hp at 1. rewrite Ht at 1. by apply glob_seg_iff.
Qed.

(** Backtracking: the character after the consumed part cannot match here, so
    the last [*] must absorb one more character. *)
Lemma glob_inv_backtrack pat txt pi ti sp star_ti rest c trest :
  glob_inv pat txt pi ti (Some sp) star_ti rest (c :: trest) -> ~ glob rest (c :: trest) ->
  exists rest' trest', glob_inv pat txt (S sp) (S star_ti) (Some sp) (S star_ti) rest' trest'.
Proof.
  intros (pre & seg & w & u & Hp & -> & -> & Ht & -> & -> & Hm & Hiff) Hno.
  assert (exists x xs, u ++ c :: trest = x :: xs) as (x & xs & Hx)
    by (destruct u; simpl; eauto).
  exists (seg ++ rest), xs, pre, [], (w ++ [x]), []. simpl.
  rewrite <- app_assoc, length_app. simpl. split_and!; auto; try lia; try (by rewrite <- Hx).
  rewrite Hiff. split.
  - intros (a & b & Heq & Hg)%glob_star_inv. destruct a as [|y a]; simpl in Heq.
    + subst b. apply glob_seg_iff in Hg; done.
    + rewrite Hx in Heq. injection Heq as -> ->. by constructor.
  - intros Hg. rewrite Hx. by apply (glob_star_extend _ [x]).
Qed.

Lemma glob_inv_fail pat txt pi ti star_ti rest c trest :
  glob_inv pat txt pi ti None star_ti rest (c :: trest) -> ~ glob rest (c :: trest) ->
  ~ glob pat txt.
Proof.
  intros (seg & u & -> & _ & -> & _ & Hm) Hno. by rewrite (glob_seg_iff _ _ _ _ Hm).
Qed.

Lemma glob_inv_exit pat txt pi ti star_pi star_ti rest :
  glob_inv pat txt pi ti star_pi star_ti rest [] ->
  glob pat txt <-> Forall (fun p => p = star) rest.
Proof.
  unfold glob_inv. destruct star_pi as [sp|].
  - intros (pre & seg & w & u & _ & _ & _ & _ & _ & _ & Hm & ->).
    rewrite <- glob_all_stars, app_nil_r. split.
    + intros (a & b & Heq & Hg)%glob_star_inv.
      apply (glob_app_seg_inv _ _ _ _ Hm) in Hg as (v & t' & -> & Hl & Hg).
      apply Forall2_length in Hm. apply (f_equal length) in Heq.
      rewrite !length_app in Heq. by destruct t'; [|simpl in Heq; lia].
    + intros Hg. apply (glob_star _ [] u). rewrite <- (app_nil_r u). by apply glob_app_seg.
  - intros (seg & u & -> & _ & -> & _ & Hm). by rewrite (glob_seg_iff _ _ _ _ Hm), glob_all_stars.
Qed.

(** Why the current characters do not match when the loop backtracks. *)
Lemma glob_stuck p rest c trest :
  p <> qmark -> p <> c -> p <> star -> ~ glob (p :: rest) (c :: trest).
Proof.
  intros Hq Hc Hs (c' & t' & [= -> ->] & [_ [|]] & _)%glob_cons_inv; done.
Qed.

Lemma glob_loop_sound fuel pat txt pi ti star_pi star_ti rest trest r :
  star ∉ txt -> glob_inv pat txt pi ti star_pi star_ti rest trest ->
  glob_loop fuel pat txt pi ti star_pi star_ti = Some r ->
  glob pat txt <->
    match r with
    | Some pi' => skip_stars pi' (drop pi' pat) = length pat
    | None => False
    end.
Proof.
  intros Hns. revert pi ti star_pi star_ti rest trest.
  induction fuel as [|fuel IH]; intros pi ti star_pi star_ti rest trest Hinv; [done|].
  destruct (glob_inv_shape _ _ _ _ _ _ _ _ Hinv) as (Epi & Eti & Ed & El).
  simpl. rewrite Epi, Eti. destruct trest as [|c trest]; simpl.
  { intros [= <-]. rewrite Ed, El, skip_stars_spec. by eapply glob_inv_exit. }
  assert (Hc : c <> star).
  { intros ->. apply Hns. eapply list_elem_of_lookup_2. by rewrite Eti. }
  assert (Hback : ~ glob rest (c :: trest) ->
    match star_pi with
    | Some sp => glob_loop fuel pat txt (S sp) (S star_ti) star_pi (S star_ti)
    | None => Some None
    end = Some r ->
    glob pat txt <-> match r with
    | Some pi' => skip_stars pi' (drop pi' pat) = length pat
    | None => False end).
  { intros Hno. destruct star_pi as [sp|].
    - destruct (glob_inv_backtrack _ _ _ _ _ _ _ _ _ Hinv Hno) as (rest' & trest' & Hinv').
      by apply (IH _ _ _ _ _ _ Hinv').
    - intros [= <-]. split; [|done]. by apply (glob_inv_fail _ _ _ _ _ _ _ _ Hinv Hno). }
  destruct rest as [|p rest]; simpl.
  { apply Hback. by inversion 1. }
  destruct (bool_decide (p = qmark) || bool_decide (p = c)) eqn:Em.
  - assert (char_match p c).
    { rewrite orb_true_iff, !bool_decide_eq_true in Em. split; [|done].
      by destruct Em as [->| ->]. }
    apply (IH _ _ _ _ rest trest). by eapply glob_inv_char.
  - rewrite orb_false_iff, !bool_decide_eq_false in Em. destruct Em as [Hq Hpc].
    case_bool_decide as Hs.
    + subst p. apply (IH _ _ _ _ rest (c :: trest)). by eapply glob_inv_star.
    + apply Hback. by apply glob_stuck.
Qed.

Lemma glob_inv_init pat txt : glob_inv pat txt 0 0 None 0 pat txt.
Proof. by exists [], []. Qed.

Lemma glob_loop_result pat txt :
  exists r, glob_loop (glob_fuel pat txt) pat txt 0 0 None 0 = Some r.
Proof.
  apply glob_loop_total; try done; [lia..|]. unfold glob_fuel, glob_measure. lia.
Qed.

(** [glob_match] computes glob matching: for a text without the character
    [*], the index-and-backtrack loop returns [true] exactly when the text
    matches the pattern ([*] any sequence, [?] one character). *)
Theorem glob_match_correct (pattern text : string) :
  star ∉ chars text ->
  (glob_match pattern text = true <-> glob (chars pattern) (chars text)).
Proof.
  intros Hns. unfold glob_match.
  destruct (glob_loop_result (chars pattern) (chars text)) as [r Hr]. rewrite Hr.
  rewrite (glob_loop_sound _ _ _ _ _ _ _ _ _ r Hns (glob_inv_init _ _) Hr).
  destruct r as [pi|]; [by rewrite bool_decide_eq_true|done].
Qed.

Lemma glob_match_correct_witness :
  (star ∉ chars "arn:aws:s3:::b/x.log")
  /\ (glob_match "arn:aws:s3:::b/*.lo?" "arn:aws:s3:::b/x.log" = true
      <-> glob (chars "arn:aws:s3:::b/*.lo?") (chars "arn:aws:s3:::b/x.log")).
Proof.
  assert (star ∉ chars "arn:aws:s3:::b/x.log") as H
    by (apply (bool_decide_unpack _); vm_compute; exact I).
  split; [exact H|exact (glob_match_correct _ _ H)].
Defined.

(** ** Texts that contain a star *)

Definition is_ascii (s : string) : bool :=
  forallb (fun b => (Ascii.N_of_ascii b <? 128)%N) (String.list_ascii_of_string s).

Lemma chars_ascii_app s t : is_ascii s = true -> chars (s +:+ t) = chars s ++ chars t.
Proof.
  unfold is_ascii. induction s as [|b s IH]; simpl; [done|].
  intros [Hb Hs]%andb_true_iff. rewrite Hb. simpl. by rewrite IH.
Qed.

(** On its own literal prefix the loop just advances. *)
Lemma glob_loop_literal fuel pre seg rest upre trest star_ti :
  star ∉ seg -> length pre = length upre ->
  glob_loop (length seg + fuel) (pre ++ seg ++ rest) (upre ++ seg ++ trest)
    (length pre) (length upre) None star_ti
  = glob_loop fuel (pre ++ seg ++ rest) (upre ++ seg ++ trest)
      (length pre + length seg) (length upre + length seg) None star_ti.
Proof.
  revert pre upre. induction seg as [|c seg IH]; intros pre upre Hns Hl; simpl.
  - by rewrite !Nat.add_0_r.
  - rewrite !lookup_app_r, Hl, !Nat.sub_diag by lia. simpl.
    rewrite (bool_decide_eq_true_2 (c = c)), orb_true_r by done.
    specialize (IH (pre ++ [c]) (upre ++ [c])).
    rewrite <- !app_assoc, !length_app, Hl in IH. simpl in IH.
    rewrite !Nat.add_1_r in IH. rewrite IH; [f_equal; lia|set_solver|lia].
Qed.

(** A [*] in the text defeats the pattern's own [*]: for a literal prefix
    [s] and any non-empty [x], the pattern [s*] matches the text [s*x], but
    [glob_match] returns [false] (the loop takes the text's [*] for a literal
    match and has no star left to backtrack to). *)
Theorem glob_match_misses_star_text (s x : string) :
  is_ascii s = true -> star ∉ chars s -> chars x <> [] ->
  glob (chars (s +:+ "*")) (chars (s +:+ "*" +:+ x))
  /\ glob_match (s +:+ "*") (s +:+ "*" +:+ x) = false.
Proof.
  intros Ha Hns Hx. unfold glob_match. rewrite !chars_ascii_app by done.
  change (chars "*") with [star]. cbn [app].
  set (p := chars s) in *. set (t := chars x) in *. split.
  - clear. induction p as [|c p IH]; simpl.
    + rewrite <- (app_nil_r (star :: t)). apply glob_star. constructor.
    + destruct (decide (c = star)) as [->|]; [|by constructor].
      by apply (glob_star _ [star]).
  - assert (exists fuel, glob_fuel (p ++ [star]) (p ++ star :: t) = length p + S (S fuel))
      as [fuel ->].
    { exists (glob_fuel (p ++ [star]) (p ++ star :: t) - length p - 2).
      unfold glob_fuel. rewrite !length_app. simpl. nia. }
    rewrite (glob_loop_literal _ [] p [star] [] (star :: t)) by done.
    simpl. rewrite !lookup_app_r, !Nat.sub_diag by lia. simpl.
    replace (S (length p) - length p) with 1 by lia. simpl.
    by destruct t.
Qed.

Lemma glob_match_misses_star_text_witness :
  glob (chars ("arn:aws:s3:::secret/" +:+ "*")) (chars ("arn:aws:s3:::secret/" +:+ "*" +:+ "report"))
  /\ glob_match ("arn:aws:s3:::secret/" +:+ "*") ("arn:aws:s3:::secret/" +:+ "*" +:+ "report") = false.
Proof.
  apply (glob_match_misses_star_text "arn:aws:s3:::secret/" "report").
  - reflexivity.
  - apply (bool_decide_unpack _); vm_compute; exact I.
  - discriminate.
Defined.

(** ** Deny overrides *)

Lemma deny_overrides_Deny {A} (f : A -> Evaluation) b l :
  deny_overrides f b l = Deny <-> exists x, x ∈ l /\ f x = Deny.
Proof.
  revert b. induction l as [|y l IH]; intros b; simpl.
  - split; [by destruct b|]. set_solver.
  - setoid_rewrite elem_of_cons.
    assert (f y <> Deny -> (exists x, x ∈ l /\ f x = Deny) <->
            exists x, (x = y \/ x ∈ l) /\ f x = Deny) as Hy.
    { intros Hn. split; [intros (x & ? & ?); eauto|intros (x & [->|?] & ?); [done|eauto]]. }
    destruct (f y) eqn:E; rewrite ?IH; auto. split; [eauto|done].
Qed.

Lemma deny_overrides_Allow {A} (f : A -> Evaluation) b l :
  deny_overrides f b l = Allow <->
  (forall x, x ∈ l -> f x <> Deny) /\ (b = true \/ exists x, x ∈ l /\ f x = Allow).
Proof.
  revert b. induction l as [|y l IH]; intros b; simpl.
  - destruct b; set_solver.
  - setoid_rewrite elem_of_cons. destruct (f y) eqn:E; rewrite ?IH.
    + split; [intros [H _]|intros [H _]]; split; eauto. intros x [->|?]; [congruence|eauto].
    + split; [done|]. intros [H _]. by destruct (H y (or_introl eq_refl)).
    + split; intros [H Hb]; (split; [|destruct Hb as [?|(x & Hx & ?)]; eauto]); eauto.
      * intros x [->|?]; [congruence|eauto].
      * destruct Hx as [->|?]; [congruence|eauto].
Qed.

(** A statement of some grant that evaluates to [e]. *)
Definition some_statement (grants : list PolicyDocument) (act res : string) (e : Evaluation) : Prop :=
  exists doc stmt, doc ∈ grants /\ stmt ∈ doc_statement doc
    /\ evaluate_statement stmt act res = e.

Lemma evaluate_grants_Deny grants act res :
  evaluate_grants grants act res = Deny <-> some_statement grants act res Deny.
Proof.
  unfold evaluate_grants, evaluate_policy, some_statement.
  rewrite deny_overrides_Deny. setoid_rewrite deny_overrides_Deny. naive_solver.
Qed.

Lemma evaluate_grants_Allow grants act res :
  evaluate_grants grants act res = Allow <->
  ~ some_statement grants act res Deny /\ some_statement grants act res Allow.
Proof.
  rewrite <- evaluate_grants_Deny. unfold evaluate_grants at 1. rewrite deny_overrides_Allow.
  unfold evaluate_grants, evaluate_policy, some_statement.
  rewrite deny_overrides_Deny. setoid_rewrite deny_overrides_Allow. split.
  - intros [Hn [?|(doc & Hd & Hs & [?|(stmt & ? & ?)])]]; try done.
    split; [intros (d & ? & ?); by apply (Hn d)|by exists doc, stmt].
  - intros [Hn (doc & stmt & Hd & Hs & Ha)].
    split; [intros d Hin Hden; by apply Hn; exists d|]. right. exists doc. split; [done|].
    split; [|right; by exists stmt].
    intros stmt' Hs' Hden. apply Hn. exists doc. split; [done|].
    apply deny_overrides_Deny. by exists stmt'.
Qed.

(** Deny overrides: [evaluate_grants] answers [Deny] exactly when some
    statement of some grant denies, [Allow] exactly when none denies and some
    allows, and [NoMatch] (implicit deny) when no statement applies. *)
Theorem evaluate_grants_spec (grants : list PolicyDocument) (act res : string) :
  (evaluate_grants grants act res = Deny <-> some_statement grants act res Deny)
  /\ (evaluate_grants grants act res = Allow <->
       ~ some_statement grants act res Deny /\ some_statement grants act res Allow)
  /\ (evaluate_grants grants act res = NoMatch <->
       ~ some_statement grants act res Deny /\ ~ some_statement grants act res Allow).
Proof.
  pose proof (evaluate_grants_Deny grants act res) as HD.
  pose proof (evaluate_grants_Allow grants act res) as HA.
  split_and!; [done..|]. rewrite <- HD. split.
  - intros E. rewrite E. split; [done|]. intros Hs. rewrite E in HA.
    assert (NoMatch = Allow) by (apply HA; split; [by rewrite <- HD, E|done]). done.
  - intros [Hd Ha]. destruct (evaluate_grants grants act res); try done.
    by destruct Ha, HA as [[]].
Qed.

(** ** Validation *)

Lemma filter_negb_nil {A} (f : A -> bool) (g : A -> string) l :
  g <$> List.filter (fun a => negb (f a)) l = [] <-> forall a, a ∈ l -> f a = true.
Proof.
  induction l as [|x l IH]; simpl; [set_solver|].
  setoid_rewrite elem_of_cons. destruct (f x) eqn:E; simpl.
  - rewrite IH. split; [intros H a [->|?]; auto|auto].
  - split; [done|]. intros H. specialize (H x (or_introl eq_refl)). congruence.
Qed.

Lemma validate_statement_nil i stmt :
  validate_statement i stmt = [] <->
  st_action stmt <> [] /\ (forall a, a ∈ st_action stmt -> is_valid_action a = true)
  /\ st_resource stmt <> [] /\ (forall r, r ∈ st_resource stmt -> is_valid_resource r = true).
Proof.
  unfold validate_statement. rewrite !app_nil, !filter_negb_nil.
  split.
  - intros (Ha & Hav & Hr & Hrv). split_and!; try done;
      [by destruct (st_action stmt)|by destruct (st_resource stmt)].
  - intros (Ha & Hav & Hr & Hrv). split_and!; try done;
      [by destruct (st_action stmt)|by destruct (st_resource stmt)].
Qed.

Lemma concat_imap_nil {A B} (f : nat -> A -> list B) l :
  concat (imap f l) = [] <-> forall i x, l !! i = Some x -> f i x = [].
Proof.
  revert f. induction l as [|y l IH]; intros f; simpl; [done|].
  rewrite app_nil, IH. split.
  - intros [H0 Hs] [|i] x; simpl; [by intros [= ->]|]. apply Hs.
  - intros H. split; [by apply (H 0)|]. intros i x Hx. by apply (H (S i)).
Qed.

(** [validate_policy_document] reports no error exactly when the version is
    [2012-10-17], there is at least one statement, and every statement has a
    non-empty list of known actions and a non-empty list of valid resources. *)
Theorem validate_policy_document_nil (doc : PolicyDocument) :
  validate_policy_document doc = [] <->
  doc_version doc = "2012-10-17" /\ doc_statement doc <> []
  /\ forall stmt, stmt ∈ doc_statement doc ->
       st_action stmt <> [] /\ (forall a, a ∈ st_action stmt -> is_valid_action a = true)
       /\ st_resource stmt <> [] /\ (forall r, r ∈ st_resource stmt -> is_valid_resource r = true).
Proof.
  unfold validate_policy_document. rewrite !app_nil, concat_imap_nil.
  setoid_rewrite validate_statement_nil. setoid_rewrite list_elem_of_lookup.
  split.
  - intros (Hv & Hs & Hall). split_and!; [by case_bool_decide|by destruct (doc_statement doc)|].
    intros stmt [i Hi]. by apply (Hall i).
  - intros (Hv & Hs & Hall). split_and!;
      [by rewrite bool_decide_eq_true_2|by destruct (doc_statement doc)|].
    intros i stmt Hi. apply Hall. by exists i.
Qed.
