(* ===== verification/Types.v ===== *)
(** The domain types of [crates/arca-core/src/types.rs] and the resolution of
    a replicated object row.

    [ObjectRecord] is the row of the object table.  In a cluster the same
    row travels between nodes; [resolve_replicated] decides what a node keeps
    when a peer sends its copy.  The theorems show that redelivery is a no-op,
    that a re-encryption never drops a lock change, and that nodes which
    receive the same rows in any order end with the same row. *)

From S2P Require Import Prelude Policy.

(** ** Records

    A [DateTime<Utc>] is its offset from the epoch in nanoseconds; a [u64] or
    [u32] is a [Z]; a [HashMap<String, String>] is a finite map. *)

Record BucketInfo : Type := {
  b_name : string;
  b_created_at : Z;
  b_owner : string;
}.

Record ObjectPart : Type := {
  op_part_number : Z;
  op_size : Z;
  op_checksum : option string;
}.

Record ObjectRecord : Type := MkObject {
  o_bucket : string;
  o_key : string;
  o_blob_id : string;
  o_size : Z;
  o_etag : string;
  o_content_type : option string;
  o_last_modified : Z;
  o_metadata : gmap string string;
  o_encryption_algorithm : option string;
  o_encryption_key_id : option string;
  o_owner : string;
  o_version_id : option string;
  o_is_latest : bool;
  o_is_delete_marker : bool;
  o_is_tombstone : bool;
  o_retention_mode : option string;
  o_retain_until_date : option Z;
  o_legal_hold_status : option string;
  o_storage_class : string;
  o_checksum_algorithm : option string;
  o_checksum_value : option string;
  o_parts : option (list ObjectPart);
  o_replication_status : option string;
  o_lock_updated_at : option Z;
  o_content_updated_at : option Z;
}.

Inductive VersioningState : Type := Unversioned | Enabled | Suspended.

Record MultipartUploadRecord : Type := {
  mu_upload_id : string;
  mu_bucket : string;
  mu_key : string;
  mu_content_type : option string;
  mu_initiated_at : Z;
  mu_metadata : gmap string string;
  mu_checksum_algorithm : option string;
  mu_checksum_type : option string;
  mu_initiator : string;
}.

Record PartRecord : Type := {
  pt_upload_id : string;
  pt_part_number : Z;
  pt_blob_id : string;
  pt_size : Z;
  pt_etag : string;
  pt_checksum_value : option string;
  pt_last_modified : option Z;
}.

Record StorageStats : Type := {
  bucket_count : Z;
  object_count : Z;
  total_size_bytes : Z;
}.

Record Credential : Type := {
  cr_access_key_id : string;
  cr_secret_access_key : string;
  cr_description : string;
  cr_created_at : Z;
  cr_active : bool;
  cr_user_id : string;
}.

Record User : Type := {
  u_user_id : string;
  u_username : string;
  u_description : string;
  u_is_root : bool;
  u_created_at : Z;
}.

Record Team : Type := {
  tm_team_id : string;
  tm_name : string;
  tm_description : string;
  tm_created_at : Z;
}.

Record Grant : Type := {
  gr_grant_id : string;
  gr_name : string;
  gr_description : string;
  gr_document : PolicyDocument;
  gr_created_at : Z;
  gr_updated_at : Z;
}.

#[export] Instance ObjectPart_eq_dec : EqDecision ObjectPart.
Proof. solve_decision. Defined.

#[export] Instance ObjectRecord_eq_dec : EqDecision ObjectRecord.
Proof. solve_decision. Defined.

#[export] Instance VersioningState_eq_dec : EqDecision VersioningState.
Proof. solve_decision. Defined.

(** ** Field updates *)

Definition set_latest (b : bool) (r : ObjectRecord) : ObjectRecord :=
  let '(MkObject bu ke bl si et ct lm md ea ek ow vi _ dm ts rm rd lh sc ca cv pa rs lu cu) := r in
  MkObject bu ke bl si et ct lm md ea ek ow vi b dm ts rm rd lh sc ca cv pa rs lu cu.

Definition set_lock (mode : option string) (until : option Z) (hold : option string)
    (at_ : option Z) (r : ObjectRecord) : ObjectRecord :=
  let '(MkObject bu ke bl si et ct lm md ea ek ow vi la dm ts _ _ _ sc ca cv pa rs _ cu) := r in
  MkObject bu ke bl si et ct lm md ea ek ow vi la dm ts mode until hold sc ca cv pa rs at_ cu.

Definition set_content (blob : string) (alg kid : option string)
    (at_ : option Z) (r : ObjectRecord) : ObjectRecord :=
  let '(MkObject bu ke _ si et ct lm md _ _ ow vi la dm ts rm rd lh sc ca cv pa rs lu _) := r in
  MkObject bu ke blob si et ct lm md alg kid ow vi la dm ts rm rd lh sc ca cv pa rs lu at_.

(** ** [ObjectRecord::same_replicated_content] *)

Definition same_replicated_content (self other : ObjectRecord) : bool :=
  bool_decide (set_latest false self = set_latest false other).

(** ** [ObjectRecord::resolve_replicated] *)

Definition merge_lock (self local merged : ObjectRecord) : ObjectRecord :=
  if opt_gtb (o_lock_updated_at self) (o_lock_updated_at local)
  then set_lock (o_retention_mode self) (o_retain_until_date self)
         (o_legal_hold_status self) (o_lock_updated_at self) merged
  else merged.

Definition merge_content (self local merged : ObjectRecord) : ObjectRecord :=
  if opt_gtb (o_content_updated_at self) (o_content_updated_at local)
  then set_content (o_blob_id self) (o_encryption_algorithm self)
         (o_encryption_key_id self) (o_content_updated_at self) merged
  else merged.

Definition resolve_replicated (self local : ObjectRecord) : option ObjectRecord :=
  match Z.compare (o_last_modified self) (o_last_modified local) with
  | Gt => Some self
  | Lt => None
  | Eq =>
      if negb (bool_decide (o_etag self = o_etag local)) then
        if String.ltb (o_blob_id local) (o_blob_id self) then Some self else None
      else
        let merged := merge_content self local (merge_lock self local local) in
        if same_replicated_content merged local then None else Some merged
  end.

(** ** What a node holds after receiving a row *)

(** The row the node stores afterwards: the resolved one, or its own. *)
Definition absorb (local incoming : ObjectRecord) : ObjectRecord :=
  default local (resolve_replicated incoming local).

(** Rows equal up to the locally derived [is_latest]. *)
Definition row_equiv (a b : ObjectRecord) : Prop := set_latest false a = set_latest false b.

#[export] Instance row_equiv_equivalence : Equivalence row_equiv.
Proof. unfold row_equiv. split; [done| by intros ?? | intros ???; congruence]. Qed.

(** The two registers with their clocks, and the rest of the row. *)
Definition lock_register (r : ObjectRecord) : option Z * (option string * option Z * option string) :=
  (o_lock_updated_at r, (o_retention_mode r, o_retain_until_date r, o_legal_hold_status r)).

Definition content_register (r : ObjectRecord) : option Z * (string * option string * option string) :=
  (o_content_updated_at r, (o_blob_id r, o_encryption_algorithm r, o_encryption_key_id r)).

Definition lineage (r : ObjectRecord) : ObjectRecord :=
  set_lock None None None None (set_content EmptyString None None None (set_latest false r)).

(** Copies of one version with the same modification time.  With the same
    etag they come from the same PUT: they agree outside the registers, and
    one register change has one clock value.  With different etags they come
    from concurrent PUTs, told apart by their blobs, and neither has been
    re-encrypted (a re-encryption changes the blob the tie-break compares). *)
Definition coherent (a b : ObjectRecord) : Prop :=
  o_last_modified a = o_last_modified b ->
  (o_etag a = o_etag b ->
     lineage a = lineage b
     /\ (o_lock_updated_at a = o_lock_updated_at b -> lock_register a = lock_register b)
     /\ (o_content_updated_at a = o_content_updated_at b -> content_register a = content_register b))
  /\ (o_etag a <> o_etag b ->
     o_blob_id a <> o_blob_id b
     /\ o_content_updated_at a = None /\ o_content_updated_at b = None).

(** The row that wins over the other as a whole, and the rows that merge. *)
Definition over (a b : ObjectRecord) : Prop :=
  (o_last_modified b < o_last_modified a)%Z
  \/ o_last_modified a = o_last_modified b /\ o_etag a <> o_etag b
     /\ String.ltb (o_blob_id b) (o_blob_id a) = true.

Definition tied (a b : ObjectRecord) : Prop :=
  o_last_modified a = o_last_modified b /\ o_etag a = o_etag b.

Lemma row_equiv_registers a b :
  row_equiv a b <->
  lineage a = lineage b /\ lock_register a = lock_register b
  /\ content_register a = content_register b.
Proof.
  destruct a, b; unfold row_equiv, lineage, lock_register, content_register; simpl. split.
  - intros [=]; subst; done.
  - intros ([=] & [=] & [=]); subst; done.
Qed.

(** A register keeps the value with the larger clock, the local one on a tie. *)
Definition newer {A : Type} (incoming local : option Z * A) : option Z * A :=
  if opt_gtb incoming.1 local.1 then incoming else local.

Lemma lineage_fields a b :
  lineage a = lineage b -> o_last_modified a = o_last_modified b /\ o_etag a = o_etag b.
Proof. destruct a, b. by intros [=]. Qed.

Lemma absorb_over l i : over i l -> absorb l i = i.
Proof.
  intros [H|(H & He & Hb)]; unfold absorb, resolve_replicated.
  - by rewrite (proj2 (Z.compare_gt_iff _ _) H).
  - by rewrite H, Z.compare_refl, bool_decide_false, Hb by done.
Qed.

Lemma absorb_under l i : over l i -> absorb l i = l.
Proof.
  intros [H|(H & He & Hb)]; unfold absorb, resolve_replicated.
  - by rewrite (proj2 (Z.compare_lt_iff _ _) H).
  - by rewrite H, Z.compare_refl, bool_decide_false, (string_ltb_asym _ _ Hb) by done.
Qed.

Lemma same_row_latest a b :
  o_is_latest a = o_is_latest b -> row_equiv a b -> a = b.
Proof. destruct a, b; unfold row_equiv; simpl. intros -> [=]; subst. done. Qed.

Lemma merge_latest i l :
  o_is_latest (merge_content i l (merge_lock i l l)) = o_is_latest l.
Proof. unfold merge_content, merge_lock. destruct i, l; repeat case_match; done. Qed.

(** On a tie within one lineage the node keeps the merge of the registers. *)
Lemma absorb_tie l i :
  o_last_modified i = o_last_modified l -> o_etag i = o_etag l ->
  absorb l i = merge_content i l (merge_lock i l l).
Proof.
  intros Hm He. unfold absorb, resolve_replicated.
  rewrite Hm, Z.compare_refl, bool_decide_true by done. simpl.
  unfold same_replicated_content. case_bool_decide as E; [simpl|done].
  symmetry. apply same_row_latest; [apply merge_latest|done].
Qed.

Lemma absorb_tie_registers l i :
  o_last_modified i = o_last_modified l -> o_etag i = o_etag l ->
  lineage (absorb l i) = lineage l
  /\ lock_register (absorb l i) = newer (lock_register i) (lock_register l)
  /\ content_register (absorb l i) = newer (content_register i) (content_register l).
Proof.
  intros Hm He. rewrite absorb_tie by done.
  unfold merge_content, merge_lock, newer, lock_register, content_register, lineage; simpl.
  destruct i, l; simpl in *. repeat case_match; done.
Qed.

(** ** Laws of the registers *)

Definition reg_agree {A : Type} (a b : option Z * A) : Prop := a.1 = b.1 -> a = b.

Lemma newer_comm {A} (a b : option Z * A) : reg_agree a b -> newer a b = newer b a.
Proof.
  intros H. unfold newer.
  destruct (opt_gtb a.1 b.1) eqn:E1, (opt_gtb b.1 a.1) eqn:E2; try done.
  - apply opt_gtb_asym in E1. congruence.
  - symmetry. apply H, opt_gtb_tie; done.
Qed.

Lemma newer_swap {A} (a b c : option Z * A) :
  reg_agree a b -> newer a (newer b c) = newer b (newer a c).
Proof.
  intros H. unfold newer.
  destruct (opt_gtb a.1 c.1) eqn:Hac, (opt_gtb b.1 c.1) eqn:Hbc; rewrite ?Hac, ?Hbc;
    try done.
  - apply newer_comm, H.
  - case_match eqn:Hba; [|done].
    pose proof (opt_gtb_trans _ _ _ Hba Hac). congruence.
  - case_match eqn:Hab; [|done].
    pose proof (opt_gtb_trans _ _ _ Hab Hbc). congruence.
Qed.

Lemma newer_idem {A} (a b : option Z * A) : newer a (newer a b) = newer a b.
Proof.
  unfold newer. destruct (opt_gtb a.1 b.1) eqn:E; rewrite ?E; [|done].
  by rewrite opt_gtb_irrefl.
Qed.

Lemma newer_either {A} (a b : option Z * A) : newer a b = a \/ newer a b = b.
Proof. unfold newer. case_match; eauto. Qed.

(** ** Coherent rows *)

Lemma coherent_sym a b : coherent a b -> coherent b a.
Proof.
  unfold coherent. intros H E. destruct (H (eq_sym E)) as (H1 & H2). split.
  - intros Et. destruct (H1 (eq_sym Et)) as (? & H3 & H4). split; [done|]. split; intros; symmetry; eauto.
  - intros Et. destruct (H2 (not_eq_sym Et)) as (? & ? & ?). auto using not_eq_sym.
Qed.

Lemma coherent_refl a : coherent a a.
Proof. done. Qed.

Lemma tied_sym a b : tied a b -> tied b a.
Proof. unfold tied. intros []. split; congruence. Qed.

Lemma tied_trans a b c : tied a b -> tied b c -> tied a c.
Proof. unfold tied. intros [] []. split; congruence. Qed.

Lemma over_or_tied a b : coherent a b -> over a b \/ tied a b \/ over b a.
Proof.
  intros H. unfold over, tied.
  destruct (Z.lt_trichotomy (o_last_modified a) (o_last_modified b)) as [?|[E|?]]; [by eauto| |by eauto].
  destruct (decide (o_etag a = o_etag b)) as [|Ne]; [by eauto|].
  destruct (proj2 (H E) Ne) as (Hb & _).
  destruct (String.ltb (o_blob_id a) (o_blob_id b)) eqn:L1; [by eauto 8 using not_eq_sym|].
  destruct (String.ltb (o_blob_id b) (o_blob_id a)) eqn:L2; [by eauto 8|].
  by destruct Hb; apply string_ltb_tie.
Qed.

(** Where a third PUT has the same time, the copies of one PUT keep its blob. *)
Lemma tied_blob a b c :
  tied a b -> coherent a b -> coherent a c -> coherent b c ->
  o_last_modified a = o_last_modified c -> o_etag a <> o_etag c -> o_blob_id a = o_blob_id b.
Proof.
  intros [Hm He] Hab Hac Hbc Em Ee.
  destruct (proj2 (Hac Em) Ee) as (_ & Ha & _).
  destruct (proj2 (Hbc (eq_trans (eq_sym Hm) Em)) ltac:(congruence)) as (_ & Hb & _).
  destruct (proj1 (Hab Hm) He) as (_ & _ & Hr). by injection (Hr ltac:(congruence)).
Qed.

Section coherent_triple.
  Context (a b c : ObjectRecord).
  Context (Hab : coherent a b) (Hac : coherent a c) (Hbc : coherent b c).

Lemma over_trans : over a b -> over b c -> over a c.
Proof.
  unfold over. intros [H|(H & He & Hb)] [G|(G & Ge & Gb)]; [left; lia..|]. right.
  pose proof (string_ltb_trans _ _ _ Gb Hb) as Ht.
  split; [congruence|]. split; [|done]. intros Ee.
  rewrite (tied_blob a c b), string_ltb_irrefl in Ht; try done; auto using coherent_sym; by split; congruence.
Qed.

Lemma tied_over : tied a b -> over b c -> over a c.
Proof.
  unfold over. intros Ht [G|(G & Ge & Gb)]; pose proof Ht as [Hm He]; [left; lia|]. right.
  rewrite (tied_blob a b c) by (done || congruence). split; [congruence|]. split; congruence.
Qed.

Lemma over_tied : over a b -> tied b c -> over a c.
Proof.
  unfold over. intros [G|(G & Ge & Gb)] Ht; pose proof Ht as [Hm He]; [left; lia|]. right.
  rewrite <- (tied_blob b c a) by (auto using coherent_sym || congruence).
  split; [congruence|]. split; congruence.
Qed.
End coherent_triple.

(** What a tie leaves: the local row's lineage and the newer registers. *)
Lemma absorb_tied l i :
  tied i l ->
  lineage (absorb l i) = lineage l
  /\ lock_register (absorb l i) = newer (lock_register i) (lock_register l)
  /\ content_register (absorb l i) = newer (content_register i) (content_register l).
Proof. intros []. by apply absorb_tie_registers. Qed.

Lemma absorb_tied_tied l i : tied i l -> tied (absorb l i) l.
Proof. intros (H & _)%absorb_tied. by apply lineage_fields in H. Qed.

Lemma coherent_of_registers a b c x :
  coherent a c -> coherent b c -> tied a x -> tied b x ->
  lineage x = lineage a ->
  lock_register x = lock_register a \/ lock_register x = lock_register b ->
  content_register x = content_register a \/ content_register x = content_register b ->
  coherent x c.
Proof.
  intros Ha Hb [Ma Ea] [Mb Eb] Hl Hlock Hcont E.
  destruct (Ha ltac:(congruence)) as (Ha1 & Ha2). destruct (Hb ltac:(congruence)) as (Hb1 & Hb2).
  split; intros Et.
  - destruct (Ha1 ltac:(congruence)) as (L1 & L2 & L3). destruct (Hb1 ltac:(congruence)) as (K1 & K2 & K3).
    split; [congruence|]. split; intros Ex.
    + destruct Hlock as [Hk|Hk]; rewrite Hk; [apply L2|apply K2];
        (apply (f_equal fst) in Hk; simpl in Hk; congruence).
    + destruct Hcont as [Hk|Hk]; rewrite Hk; [apply L3|apply K3];
        (apply (f_equal fst) in Hk; simpl in Hk; congruence).
  - destruct (Ha2 ltac:(congruence)) as (? & ? & ?). destruct (Hb2 ltac:(congruence)) as (? & ? & ?).
    unfold content_register in Hcont. destruct Hcont as [[=]|[=]]; split_and!; congruence.
Qed.

(** Coherence survives absorption. *)
Lemma absorb_coherent l i c :
  coherent l i -> coherent l c -> coherent i c -> coherent (absorb l i) c.
Proof.
  intros Hli Hlc Hic. destruct (over_or_tied l i Hli) as [H|[H|H]].
  - by rewrite absorb_under.
  - apply tied_sym in H. destruct (absorb_tied l i H) as (H1 & H2 & H3).
    pose proof (absorb_tied_tied l i H) as Ht.
    apply (coherent_of_registers l i c); try done; [by apply tied_sym|by eapply tied_trans, tied_sym|..].
    + rewrite H2. destruct (newer_either (lock_register i) (lock_register l)); eauto.
    + rewrite H3. destruct (newer_either (content_register i) (content_register l)); eauto.
  - by rewrite absorb_over.
Qed.

Lemma row_equiv_over l l' i : row_equiv l l' -> (over l i <-> over l' i) /\ (over i l <-> over i l') /\ (tied i l <-> tied i l').
Proof. destruct l, l'. unfold row_equiv, over, tied. simpl. intros [=]; subst. done. Qed.

Lemma absorb_proper l l' i :
  coherent l i -> coherent l' i -> row_equiv l l' -> row_equiv (absorb l i) (absorb l' i).
Proof.
  intros Hc Hc' He. pose proof He as (Hl & Hk & Ht)%row_equiv_registers.
  destruct (row_equiv_over l l' i He) as (O1 & O2 & O3).
  destruct (over_or_tied l i Hc) as [H|[H%tied_sym|H]].
  - by rewrite !absorb_under by tauto.
  - destruct (absorb_tied l i H) as (H1 & H2 & H3).
    destruct (absorb_tied l' i) as (H1' & H2' & H3'); [tauto|].
    apply row_equiv_registers. rewrite H1, H2, H3, H1', H2', H3', Hk, Ht. done.
  - by rewrite !absorb_over by tauto.
Qed.

Lemma coherent_agree a b :
  coherent a b -> tied a b ->
  lineage a = lineage b /\ reg_agree (lock_register a) (lock_register b)
  /\ reg_agree (content_register a) (content_register b).
Proof. intros H [E Et]. destruct (proj1 (H E) Et) as (H1 & H2 & H3). done. Qed.

(** Without a local row the first one is kept, and the order does not matter. *)
Lemma absorb_comm a b : coherent a b -> row_equiv (absorb a b) (absorb b a).
Proof.
  intros Hc. destruct (over_or_tied a b Hc) as [H|[H|H]].
  - by rewrite absorb_under, absorb_over.
  - destruct (absorb_tied a b (tied_sym _ _ H)) as (H1 & H2 & H3).
    destruct (absorb_tied b a H) as (H1' & H2' & H3').
    destruct (coherent_agree a b Hc H) as (Hl & Hk & Ht).
    apply row_equiv_registers. rewrite H1, H2, H3, H1', H2', H3'.
    rewrite (newer_comm _ _ Hk), (newer_comm _ _ Ht). done.
  - by rewrite absorb_over, absorb_under.
Qed.

(** A row that wins over both rows wins over what one absorbs from the other,
    and what absorbs a winning row wins. *)
Lemma over_absorb l a b :
  coherent l a -> coherent l b -> coherent a b -> over b l -> over b a -> over b (absorb l a).
Proof.
  intros Hla Hlb Hab Hl Ha. destruct (over_or_tied l a Hla) as [H|[H|H]].
  - by rewrite absorb_under.
  - apply (over_tied b l); [by apply coherent_sym|..|done|].
    + by apply coherent_sym, absorb_coherent.
    + apply coherent_sym, absorb_coherent; auto using coherent_refl, coherent_sym.
    + by apply tied_sym, absorb_tied_tied, tied_sym.
  - by rewrite absorb_over.
Qed.

(** Two incoming rows may be absorbed in either order. *)
Lemma absorb_swap_over l a b :
  coherent l a -> coherent l b -> coherent a b -> over b a ->
  absorb (absorb l a) b = absorb (absorb l b) a.
Proof.
  intros Hla Hlb Hab H. destruct (over_or_tied l b Hlb) as [H'|[H'|H']].
  - assert (over l a) by (apply (over_trans l b); auto using coherent_sym).
    by rewrite (absorb_under l a), (absorb_under l b), absorb_under.
  - assert (over l a) as Ho by (apply (tied_over l b); auto using coherent_sym).
    rewrite (absorb_under l a) by done. symmetry. apply absorb_under.
    apply (tied_over _ l); [by apply absorb_coherent; auto using coherent_refl, coherent_sym| |done| |done].
    + by apply absorb_coherent; auto using coherent_sym.
    + by apply absorb_tied_tied, tied_sym.
  - by rewrite (absorb_over l b), (absorb_under b a), absorb_over by auto using over_absorb.
Qed.

Lemma absorb_swap_tied l a b :
  coherent a b -> tied a b -> tied l a ->
  row_equiv (absorb (absorb l a) b) (absorb (absorb l b) a).
Proof.
  intros Hab H H'. destruct (coherent_agree a b Hab H) as (_ & Hk & Ht).
  assert (tied a l) as Ha by (by apply tied_sym).
  assert (tied b l) as Hb by (eapply tied_trans; [by apply tied_sym|done]).
  pose proof (absorb_tied_tied l a Ha) as Ta. pose proof (absorb_tied_tied l b Hb) as Tb.
  destruct (absorb_tied l a Ha) as (A1 & A2 & A3). destruct (absorb_tied l b Hb) as (B1 & B2 & B3).
  destruct (absorb_tied (absorb l a) b) as (H1 & H2 & H3); [by eapply tied_trans, tied_sym|].
  destruct (absorb_tied (absorb l b) a) as (H1' & H2' & H3'); [by eapply tied_trans, tied_sym|].
  apply row_equiv_registers. rewrite H1, H2, H3, H1', H2', H3', A1, A2, A3, B1, B2, B3.
  rewrite (newer_swap _ _ _ Hk), (newer_swap _ _ _ Ht). done.
Qed.

Lemma absorb_swap l a b :
  coherent l a -> coherent l b -> coherent a b ->
  row_equiv (absorb (absorb l a) b) (absorb (absorb l b) a).
Proof.
  intros Hla Hlb Hab. destruct (over_or_tied a b Hab) as [H|[H|H]].
  - by rewrite (absorb_swap_over l b a) by auto using coherent_sym.
  - destruct (over_or_tied l a Hla) as [H'|[H'|H']].
    + assert (over l b) by (by apply (over_tied l a)).
      by rewrite (absorb_under l a), (absorb_under l b), absorb_under.
    + by apply absorb_swap_tied.
    + assert (over b l) by (apply (tied_over b a); auto using coherent_sym, tied_sym).
      rewrite (absorb_over l a), (absorb_over l b) by done. by apply absorb_comm.
  - by rewrite absorb_swap_over.
Qed.

Definition all_coherent (rows : list ObjectRecord) : Prop :=
  forall a b, a ∈ rows -> b ∈ rows -> coherent a b.

Lemma all_coherent_absorb l x xs :
  all_coherent (l :: x :: xs) -> all_coherent (absorb l x :: xs).
Proof.
  intros H a b Ha Hb. rewrite elem_of_cons in Ha, Hb.
  assert (forall c, c ∈ xs -> coherent (absorb l x) c) as Habs.
  { intros c Hc. apply absorb_coherent; apply H; set_solver. }
  destruct Ha as [->|Ha], Hb as [->|Hb]; eauto using coherent_refl, coherent_sym.
  apply H; set_solver.
Qed.

Lemma absorb_all_proper xs l l' :
  all_coherent (l :: xs) -> all_coherent (l' :: xs) -> row_equiv l l' ->
  row_equiv (foldl absorb l xs) (foldl absorb l' xs).
Proof.
  revert l l'; induction xs as [|x xs IH]; intros l l' H H' He; [done|]. simpl.
  apply IH; eauto using all_coherent_absorb.
  apply absorb_proper; [apply H|apply H'|]; set_solver.
Qed.

Lemma absorb_order_independent (local : ObjectRecord) (xs ys : list ObjectRecord) :
  xs ≡ₚ ys -> all_coherent (local :: xs) ->
  row_equiv (foldl absorb local xs) (foldl absorb local ys).
Proof.
  intros Hp. revert local. induction Hp as [|x xs ys Hp IH|x y xs|xs ys zs H1 IH1 H2 IH2];
    intros local Hc; simpl; [done|..].
  - by apply IH, all_coherent_absorb.
  - apply absorb_all_proper; [do 2 apply all_coherent_absorb; done|..].
    + do 2 apply all_coherent_absorb. intros a b Ha Hb. apply Hc; set_solver.
    + apply absorb_swap; apply Hc; set_solver.
  - etrans; [by apply IH1|]. apply IH2. intros a b Ha Hb.
    apply Hc; by rewrite H1.
Qed.

Lemma resolve_stored_again (incoming local stored : ObjectRecord) :
  resolve_replicated incoming local = Some stored ->
  resolve_replicated incoming stored = None.
Proof.
  assert (forall a b, o_last_modified a = o_last_modified b -> o_etag a = o_etag b ->
            row_equiv (merge_content a b (merge_lock a b b)) b ->
            resolve_replicated a b = None) as Hnone.
  { intros a b Hm He Hr. unfold resolve_replicated, same_replicated_content.
    rewrite Hm, Z.compare_refl, (bool_decide_true (_ = _)), bool_decide_true; done. }
  assert (resolve_replicated incoming incoming = None) as Hself.
  { apply Hnone; [done..|]. unfold merge_content, merge_lock. by rewrite !opt_gtb_irrefl. }
  unfold resolve_replicated at 1. destruct (Z.compare_spec (o_last_modified incoming)
    (o_last_modified local)) as [Hm|_|_]; [|done|by intros [= <-]].
  case_bool_decide as He; simpl; [|case_match; [by intros [= <-]|done]].
  case_match; [done|]. intros [= <-].
  destruct (absorb_tie_registers local incoming Hm He) as (H1 & H2 & H3).
  rewrite absorb_tie in H1, H2, H3 by done.
  pose proof (lineage_fields _ _ H1) as [Hm' He']. 
  rewrite <- Hm in Hm'. rewrite <- He in He'.
  apply Hnone; [done..|]. rewrite <- absorb_tie by done. apply row_equiv_registers.
  destruct (absorb_tie_registers (merge_content incoming local (merge_lock incoming local local))
    incoming) as (G1 & G2 & G3); [done..|].
  rewrite G1, G2, G3, H2, H3, !newer_idem. done.
Qed.

Lemma absorb_again l x : absorb (absorb l x) x = absorb l x.
Proof.
  unfold absorb at 2 3. destruct (resolve_replicated x l) as [r|] eqn:E; simpl; unfold absorb.
  - by rewrite (resolve_stored_again _ _ _ E).
  - by rewrite E.
Qed.

Lemma absorb_self x : absorb x x = x.
Proof.
  rewrite absorb_tie by done. unfold merge_content, merge_lock. by rewrite !opt_gtb_irrefl.
Qed.

(** ** Properties *)

(** Redelivery is a no-op: once a node has stored what a replicated row
    resolves to, receiving the same row again changes nothing (so two
    caught-up nodes stop exchanging rows). *)
Theorem resolve_replicated_idempotent (incoming local stored : ObjectRecord) :
  resolve_replicated incoming local = Some stored ->
  resolve_replicated incoming stored = None.
Proof. apply resolve_stored_again. Qed.

(** Order independence: nodes that start from copies of the same version
    and receive the same rows, in any order, hold the same row (up to the
    locally derived [is_latest]). *)
Theorem resolve_replicated_order_independent (local : ObjectRecord) (xs ys : list ObjectRecord) :
  xs ≡ₚ ys -> all_coherent (local :: xs) ->
  row_equiv (foldl absorb local xs) (foldl absorb local ys).
Proof. apply absorb_order_independent. Qed.

(** A row that ties on [last_modified] and [etag] merges register by
    register: the result keeps the local row outside the registers, takes the
    lock columns of the row with the later lock change and the content columns
    of the row with the later re-encryption.  In particular a legal hold the
    peer never saw survives the peer's re-encryption, which is adopted. *)
Theorem resolve_replicated_merges_registers (incoming local : ObjectRecord) :
  o_last_modified incoming = o_last_modified local -> o_etag incoming = o_etag local ->
  let stored := default local (resolve_replicated incoming local) in
  lineage stored = lineage local
  /\ o_is_latest stored = o_is_latest local
  /\ lock_register stored = newer (lock_register incoming) (lock_register local)
  /\ content_register stored = newer (content_register incoming) (content_register local).
Proof.
  intros Hm He stored. destruct (absorb_tie_registers local incoming Hm He) as (H1 & H2 & H3).
  split; [done|]. split; [|done].
  change stored with (absorb local incoming). rewrite absorb_tie by done. apply merge_latest.
Qed.

(** *** Concrete rows *)

Definition sample_row (blob : string) (lm : Z) (lock content : option Z) (hold : option string)
  : ObjectRecord :=
  MkObject "bucket" "key" blob 3 "etag" None lm ∅ None None "root" (Some "v1") true false false
    None None hold "STANDARD" None None None None lock content.

Lemma resolve_replicated_idempotent_witness :
  resolve_replicated (sample_row "b2" 10 None (Some 12%Z) None)
    (sample_row "b1" 10 (Some 11%Z) None (Some "ON"))
  = Some (sample_row "b2" 10 (Some 11%Z) (Some 12%Z) (Some "ON"))
  /\ resolve_replicated (sample_row "b2" 10 None (Some 12%Z) None)
       (sample_row "b2" 10 (Some 11%Z) (Some 12%Z) (Some "ON")) = None.
Proof.
  split; [vm_compute; reflexivity|].
  apply (resolve_replicated_idempotent _ (sample_row "b1" 10 (Some 11%Z) None (Some "ON"))).
  vm_compute; reflexivity.
Defined.

Lemma all_coherent_sample :
  all_coherent [sample_row "b1" 10 None None None;
                sample_row "b1" 10 (Some 11%Z) None (Some "ON");
                sample_row "b2" 10 None (Some 12%Z) None;
                sample_row "b3" 20 None None None].
Proof.
  intros a b Ha Hb. rewrite !elem_of_cons, elem_of_nil in Ha, Hb.
  destruct Ha as [->|[->|[->|[->|[]]]]], Hb as [->|[->|[->|[->|[]]]]]; intros E;
    first [discriminate E | split; [|done]; intros _; split; [done|split; intros E'; first [discriminate E'|done]]].
Qed.

Lemma resolve_replicated_order_independent_witness :
  row_equiv
    (foldl absorb (sample_row "b1" 10 None None None)
       [sample_row "b1" 10 (Some 11%Z) None (Some "ON");
        sample_row "b2" 10 None (Some 12%Z) None; sample_row "b3" 20 None None None])
    (foldl absorb (sample_row "b1" 10 None None None)
       [sample_row "b3" 20 None None None; sample_row "b2" 10 None (Some 12%Z) None;
        sample_row "b1" 10 (Some 11%Z) None (Some "ON")]).
Proof.
  apply resolve_replicated_order_independent; [|apply all_coherent_sample].
  apply (Permutation_rev [_; _; _]).
Defined.

Lemma resolve_replicated_merges_registers_witness :
  o_legal_hold_status (default (sample_row "b1" 10 (Some 11%Z) None (Some "ON"))
    (resolve_replicated (sample_row "b2" 10 None (Some 12%Z) None)
       (sample_row "b1" 10 (Some 11%Z) None (Some "ON")))) = Some "ON".
Proof.
  destruct (resolve_replicated_merges_registers (sample_row "b2" 10 None (Some 12%Z) None)
    (sample_row "b1" 10 (Some 11%Z) None (Some "ON"))) as (_ & _ & H & _); [reflexivity..|].
  apply (f_equal (fun p => p.2.2)) in H. exact H.
Defined.

(** A concurrent PUT of other content with the same time. *)
Definition sample_rival : ObjectRecord :=
  MkObject "bucket" "key" "b15" 4 "etag2" None 10 ∅ None None "root" (Some "v1") true false false
    None None None "STANDARD" None None None None None None.

(** The tie-break of concurrent PUTs compares blobs, and a re-encryption
    changes the blob: with a re-encrypted copy of a PUT that another one rivals,
    the order of delivery decides whether the legal hold survives. *)
Lemma recrypted_tie_order_matters :
  let held := sample_row "b1" 10 (Some 11%Z) None (Some "ON") in
  let recrypted := sample_row "b2" 10 None (Some 12%Z) None in
  o_legal_hold_status (foldl absorb held [recrypted; sample_rival]) = Some "ON" /\
  o_legal_hold_status (foldl absorb held [sample_rival; recrypted]) = None.
Proof. by vm_compute. Qed.
