(* ===== verification/SqlTable.v ===== *)
(** Tables and the SQL statements the stores run on them.

    A table is a finite map from [rowid] to the row.  [SELECT], [UPDATE],
    [DELETE] and [INSERT] are total functions on it; a [WHERE] clause is a
    decidable predicate on the row.  [ORDER BY] sorts by a three-way
    comparison built from the compared columns ([ASC], [DESC], [NULL] first),
    and the laws of these comparisons give the sortedness of a listing and
    the correctness of resuming it at a page boundary. *)

From S2P Require Import Prelude.

(** ** Comparisons *)

Class CmpOrder {A : Type} (cmp : A -> A -> comparison) : Prop := {
  cmp_antisym : forall x y, cmp y x = CompOpp (cmp x y);
  cmp_trans : forall x y z, cmp x y <> Gt -> cmp y z <> Gt -> cmp x z <> Gt;
}.
Arguments cmp_antisym {A} cmp {_} x y.
Arguments cmp_trans {A} cmp {_} x y z.
#[export] Hint Mode CmpOrder ! ! : typeclass_instances.

Definition cmp_on {A B : Type} (f : A -> B) (cmp : B -> B -> comparison) : A -> A -> comparison :=
  fun a b => cmp (f a) (f b).

Definition cmp_desc {A : Type} (cmp : A -> A -> comparison) : A -> A -> comparison :=
  fun a b => cmp b a.

Definition cmp_then {A : Type} (c1 c2 : A -> A -> comparison) : A -> A -> comparison :=
  fun a b => match c1 a b with Eq => c2 a b | c => c end.

(** [NULL] sorts before every value. *)
Definition cmp_null {A : Type} (cmp : A -> A -> comparison) : option A -> option A -> comparison :=
  fun a b =>
    match a, b with
    | None, None => Eq
    | None, Some _ => Lt
    | Some _, None => Gt
    | Some x, Some y => cmp x y
    end.

#[export] Typeclasses Opaque cmp_on cmp_desc cmp_then cmp_null.

Definition order_by {A : Type} (cmp : A -> A -> comparison) : relation A := fun a b => cmp a b <> Gt.

#[export] Instance order_by_dec {A} (cmp : A -> A -> comparison) : RelDecision (order_by cmp).
Proof. intros a b. unfold order_by. destruct (cmp a b); [left|left|right]; congruence. Defined.

Section laws.
Context {A : Type} (cmp : A -> A -> comparison) `{!CmpOrder cmp}.

Lemma cmp_refl x : cmp x x = Eq.
Proof. pose proof (cmp_antisym cmp x x) as H. by destruct (cmp x x). Qed.

Lemma cmp_Eq_sym x y : cmp x y = Eq -> cmp y x = Eq.
Proof. intros H. by rewrite (cmp_antisym cmp x y), H. Qed.

Lemma cmp_Lt_Gt x y : cmp x y = Lt <-> cmp y x = Gt.
Proof. rewrite (cmp_antisym cmp x y). by destruct (cmp x y). Qed.

Lemma cmp_Lt_le x y z : cmp x y = Lt -> cmp y z <> Gt -> cmp x z = Lt.
Proof.
  intros H1 H2. destruct (cmp x z) eqn:E; [|done|].
  - exfalso. apply (cmp_trans cmp y z x); [done|by rewrite (cmp_Eq_sym _ _ E)|].
    by apply cmp_Lt_Gt.
  - exfalso. apply (cmp_trans cmp x y z); congruence.
Qed.

Lemma cmp_le_Lt x y z : cmp x y <> Gt -> cmp y z = Lt -> cmp x z = Lt.
Proof.
  intros H1 H2. destruct (cmp x z) eqn:E; [|done|].
  - exfalso. apply (cmp_trans cmp z x y); [by rewrite (cmp_Eq_sym _ _ E)|done|].
    by apply cmp_Lt_Gt.
  - exfalso. apply (cmp_trans cmp x y z); congruence.
Qed.

Lemma cmp_Lt_trans x y z : cmp x y = Lt -> cmp y z = Lt -> cmp x z = Lt.
Proof. intros H1 H2. apply (cmp_Lt_le x y z); congruence. Qed.

Lemma cmp_Eq_trans x y z : cmp x y = Eq -> cmp y z = Eq -> cmp x z = Eq.
Proof.
  intros H1 H2. destruct (cmp x z) eqn:E; [done| |].
  - pose proof (cmp_Eq_sym _ _ H2) as H2'.
    assert (cmp x y = Lt) by (apply (cmp_Lt_le x z y); congruence). congruence.
  - exfalso. apply (cmp_trans cmp x y z); congruence.
Qed.

#[export] Instance order_by_trans : Transitive (order_by cmp).
Proof. intros x y z. apply (cmp_trans cmp). Qed.

#[export] Instance order_by_total : Total (order_by cmp).
Proof.
  intros x y. unfold order_by. rewrite (cmp_antisym cmp x y).
  destruct (cmp x y); [left|left|right]; done.
Qed.
End laws.

#[export] Instance Zcompare_order : CmpOrder Z.compare.
Proof.
  split.
  - intros x y. apply Z.compare_antisym.
  - intros x y z. rewrite !Z.compare_le_iff. lia.
Qed.

Lemma string_compare_le s t : String.compare s t <> Gt <-> String.ltb t s = false.
Proof.
  unfold String.ltb. rewrite (String.compare_antisym t s).
  by destruct (String.compare s t).
Qed.

#[export] Instance string_compare_order : CmpOrder String.compare.
Proof.
  split.
  - intros x y. apply String.compare_antisym.
  - intros x y z. rewrite !string_compare_le. intros H1 H2.
    apply not_true_iff_false. intros H3.
    destruct (String.ltb x y) eqn:E.
    + by rewrite (string_ltb_trans z x y) in H2.
    + by rewrite (string_ltb_tie x y) in H3 by done; rewrite H3 in H2.
Qed.

#[export] Instance cmp_on_order {A B} (f : A -> B) cmp : CmpOrder cmp -> CmpOrder (cmp_on f cmp).
Proof. intros H. split; intros; [apply (cmp_antisym cmp)|by eapply (cmp_trans cmp)]. Qed.

#[export] Instance cmp_desc_order {A} (cmp : A -> A -> comparison) : CmpOrder cmp -> CmpOrder (cmp_desc cmp).
Proof.
  intros H. split; unfold cmp_desc; intros; [apply (cmp_antisym cmp)|by eapply (cmp_trans cmp)].
Qed.

#[export] Instance cmp_then_order {A} (c1 c2 : A -> A -> comparison) :
  CmpOrder c1 -> CmpOrder c2 -> CmpOrder (cmp_then c1 c2).
Proof.
  intros H1 H2. split; unfold cmp_then.
  - intros x y. rewrite (cmp_antisym c1 x y). destruct (c1 x y); simpl; [apply (cmp_antisym c2)|done..].
  - intros x y z. destruct (c1 x y) eqn:E1, (c1 y z) eqn:E2; try done.
    + rewrite (cmp_Eq_trans c1 x y z E1 E2). apply (cmp_trans c2).
    + intros _ _. by rewrite (cmp_le_Lt c1 x y z) by congruence.
    + intros _ _. by rewrite (cmp_Lt_le c1 x y z) by congruence.
    + intros _ _. by rewrite (cmp_Lt_trans c1 x y z).
Qed.

#[export] Instance cmp_null_order {A} (cmp : A -> A -> comparison) : CmpOrder cmp -> CmpOrder (cmp_null cmp).
Proof.
  intros H. split.
  - intros [x|] [y|]; simpl; [apply (cmp_antisym cmp)|done..].
  - intros [x|] [y|] [z|]; simpl; try done. apply (cmp_trans cmp).
Qed.

Lemma string_compare_Eq s t : String.compare s t = Eq <-> s = t.
Proof. split; [apply String.compare_eq_iff|intros ->; apply (cmp_refl String.compare)]. Qed.

Lemma string_compare_Lt s t : String.compare s t = Lt <-> String.ltb s t = true.
Proof. unfold String.ltb. by destruct (String.compare s t). Qed.

Lemma cmp_then_Eq {A} (c1 c2 : A -> A -> comparison) a b :
  cmp_then c1 c2 a b = Eq <-> c1 a b = Eq /\ c2 a b = Eq.
Proof. unfold cmp_then. destruct (c1 a b); split; [done|by intros []|done|by intros []|done|by intros []]. Qed.

Lemma cmp_null_text_Eq a b : cmp_null String.compare a b = Eq <-> a = b.
Proof.
  destruct a, b; simpl; [rewrite string_compare_Eq|..]; split; intros; congruence.
Qed.

(** ** Ordered and limited result sets *)

Definition sorted_by {A : Type} (cmp : A -> A -> comparison) (l : list A) : list A :=
  merge_sort (order_by cmp) l.

Definition limit {A : Type} (n : Z) (l : list A) : list A := take (Z.to_nat n) l.

Section sorted.
Context {A : Type} (cmp : A -> A -> comparison) `{!CmpOrder cmp}.

Lemma sorted_by_perm l : sorted_by cmp l ≡ₚ l.
Proof. apply merge_sort_Permutation. Qed.

Lemma elem_of_sorted_by x l : x ∈ sorted_by cmp l <-> x ∈ l.
Proof. by rewrite sorted_by_perm. Qed.

Lemma sorted_by_sorted l : StronglySorted (order_by cmp) (sorted_by cmp l).
Proof. apply StronglySorted_merge_sort; apply _. Qed.

(** The first row of an ordered query is a greatest one. *)
Lemma head_sorted_by l x :
  head (sorted_by cmp l) = Some x -> x ∈ l /\ forall y, y ∈ l -> cmp x y <> Gt.
Proof.
  intros Hx. pose proof (sorted_by_sorted l) as Hs.
  pose proof (fun y => elem_of_sorted_by y l) as He.
  destruct (sorted_by cmp l) as [|a l']; [done|]. injection Hx as ->.
  apply StronglySorted_inv in Hs as [_ Hs]. rewrite Forall_forall in Hs. split.
  - apply He. by left.
  - intros y Hy. apply He in Hy. apply elem_of_cons in Hy as [->|Hy].
    + by rewrite cmp_refl.
    + by apply Hs.
Qed.

Lemma head_sorted_by_None l : head (sorted_by cmp l) = None <-> l = [].
Proof.
  split.
  - intros H. pose proof (sorted_by_perm l) as Hp.
    destruct (sorted_by cmp l); [|done]. by apply Permutation_nil_l in Hp.
  - by intros ->.
Qed.

Lemma StronglySorted_filter (Q : relation A) (P : A -> Prop) `{!forall x, Decision (P x)} l :
  StronglySorted Q l -> StronglySorted Q (filter P l).
Proof.
  induction 1 as [|x l Hl IH Hx]; [by constructor|]. rewrite filter_cons.
  case_decide; [|done]. constructor; [done|]. apply Forall_forall. intros y Hy.
  apply list_elem_of_filter in Hy as [_ Hy]. by eapply Forall_forall in Hx.
Qed.

(** A listing without ties. *)
Definition strictly (l : list A) : Prop :=
  forall x y, x ∈ l -> y ∈ l -> cmp x y = Eq -> x = y.

Lemma sorted_by_filter (P : A -> Prop) `{!forall x, Decision (P x)} l :
  strictly l -> sorted_by cmp (filter P l) = filter P (sorted_by cmp l).
Proof.
  intros Hs. apply (StronglySorted_unique_strong (order_by cmp)).
  - intros x y Hx Hy Hxy Hyx. apply elem_of_sorted_by, list_elem_of_filter in Hx as [_ Hx].
    apply list_elem_of_filter in Hy as [_ Hy]. rewrite elem_of_sorted_by in Hy.
    apply Hs; [done..|]. unfold order_by in *. rewrite (cmp_antisym cmp x y) in Hyx.
    by destruct (cmp x y).
  - apply sorted_by_sorted.
  - apply StronglySorted_filter, sorted_by_sorted.
  - by rewrite !sorted_by_perm.
Qed.

(** The rows strictly after the last one of a page are the rest. *)
Lemma filter_after l1 x l2 :
  NoDup (l1 ++ x :: l2) -> strictly (l1 ++ x :: l2) -> StronglySorted (order_by cmp) (l1 ++ x :: l2) ->
  filter (fun y => cmp x y = Lt) (l1 ++ x :: l2) = l2.
Proof.
  intros Hnd Hst Hs. apply NoDup_app in Hnd as (_ & _ & Hnd). apply NoDup_cons in Hnd as [Hx _].
  rewrite filter_app, filter_cons, decide_False by (rewrite cmp_refl; done).
  apply StronglySorted_app in Hs as (Hb & _ & Ha). apply StronglySorted_inv in Ha as [_ Ha].
  replace (filter _ l1) with (@nil A).
  - simpl. apply list_filter_all. intros y Hy.
    eapply Forall_forall in Ha; [|done]. unfold order_by in Ha.
    destruct (cmp x y) eqn:E; [|done..]. exfalso. apply Hx.
    rewrite (Hst x y); [done|..|done]; rewrite elem_of_app, elem_of_cons; auto.
  - symmetry. apply list_filter_none. intros y Hy E.
    apply (cmp_Lt_Gt cmp) in E. apply (Hb y x); [done|by left|done].
Qed.

(** Paging: a page of [n] rows followed by a page of [k] rows resumed strictly
    after the last row of the first one is the page of [n + k] rows. *)
Lemma page_append l n k x :
  NoDup l -> strictly l -> last (take n (sorted_by cmp l)) = Some x ->
  take (n + k) (sorted_by cmp l) =
  take n (sorted_by cmp l) ++ take k (sorted_by cmp (filter (fun y => cmp x y = Lt) l)).
Proof.
  intros Hnd Hst Hx. rewrite sorted_by_filter by done.
  pose proof (sorted_by_sorted l) as Hs. pose proof (sorted_by_perm l) as Hp.
  apply last_Some in Hx as [l1 Hl1].
  assert (sorted_by cmp l = l1 ++ x :: drop n (sorted_by cmp l)) as Hsplit.
  { rewrite <- (take_drop n (sorted_by cmp l)) at 1. by rewrite Hl1, <- app_assoc. }
  replace (filter _ (sorted_by cmp l)) with (drop n (sorted_by cmp l)).
  - by rewrite take_take_drop.
  - symmetry. rewrite Hsplit at 1. apply filter_after; rewrite <- Hsplit.
    + by rewrite Hp.
    + intros y z Hy Hz. rewrite elem_of_sorted_by in Hy, Hz. by apply Hst.
    + done.
Qed.
End sorted.

Lemma StronglySorted_weaken {A : Type} (R R' : relation A) (l : list A) :
  (forall a b, R a b -> R' a b) -> StronglySorted R l -> StronglySorted R' l.
Proof. intros HR. induction 1 as [|x l Hl IH Hx]; constructor; [done|]. eapply Forall_impl; [exact Hx|auto]. Qed.

(** A sorted listing without ties or repetitions is strictly sorted. *)
Lemma sorted_strict {A : Type} (cmp : A -> A -> comparison) `{!CmpOrder cmp} (l : list A) :
  NoDup l -> strictly cmp l -> StronglySorted (fun a b => cmp a b = Lt) (sorted_by cmp l).
Proof.
  intros Hnd Hst. assert (NoDup (sorted_by cmp l)) as Hnd' by by rewrite sorted_by_perm.
  assert (forall a b, a ∈ sorted_by cmp l -> b ∈ sorted_by cmp l -> cmp a b = Eq -> a = b) as Hinj.
  { intros a b. rewrite !elem_of_sorted_by. apply Hst. }
  pose proof (sorted_by_sorted cmp l) as Hs. revert Hs Hnd' Hinj. generalize (sorted_by cmp l) as l'.
  induction l' as [|r l' IH]; intros Hs Hnd' Hinj; [constructor|].
  apply StronglySorted_inv in Hs as [Hl Hall]. apply NoDup_cons in Hnd' as [Hr Hnd'].
  constructor; [apply IH; [done..|]; intros; apply Hinj; try right; done|].
  apply Forall_forall. intros x Hx. rewrite Forall_forall in Hall. specialize (Hall x Hx). unfold order_by in Hall.
  destruct (cmp r x) eqn:E; [|done..]. exfalso. apply Hr. rewrite (Hinj r x); [done|by left|by right|done].
Qed.

(** Sorting depends on the rows only. *)
Lemma sorted_by_unique {A : Type} (cmp : A -> A -> comparison) `{!CmpOrder cmp} l l' :
  strictly cmp l -> l ≡ₚ l' -> sorted_by cmp l = sorted_by cmp l'.
Proof.
  intros Hs Hp. apply (StronglySorted_unique_strong (order_by cmp)).
  - intros x y Hx Hy Hxy Hyx. rewrite elem_of_sorted_by in Hx, Hy. rewrite <- Hp in Hy. apply Hs; [done..|].
    unfold order_by in *. rewrite (cmp_antisym cmp x y) in Hyx. by destruct (cmp x y).
  - by apply (sorted_by_sorted cmp).
  - by apply (sorted_by_sorted cmp).
  - by rewrite !sorted_by_perm.
Qed.

(** ** Statements *)

Section statements.
Context {R : Type}.
Implicit Types (m : gmap N R) (P : R -> Prop) (f : R -> R).

Definition rows_where P `{!forall r, Decision (P r)} m : list R :=
  filter P (map_to_list m).*2.

(** [query_row]: the first row, if any. *)
Definition query_row P `{!forall r, Decision (P r)} m : option R := head (rows_where P m).

Definition update_where P `{!forall r, Decision (P r)} f m : gmap N R :=
  (fun r => if decide (P r) then f r else r) <$> m.

Definition delete_where P `{!forall r, Decision (P r)} m : gmap N R :=
  filter (fun e => ~ P e.2) m.

(** The number of rows a statement affects. *)
Definition affected P `{!forall r, Decision (P r)} m : Z := Z.of_nat (length (rows_where P m)).

Definition insert_row (r : R) m : gmap N R := <[fresh (dom m) := r]> m.

Section where_clause.
Context P `{Pdec : !forall r, Decision (P r)}.

Lemma elem_of_rows_where m r : r ∈ rows_where P m <-> P r /\ exists i, m !! i = Some r.
Proof.
  unfold rows_where. rewrite list_elem_of_filter, list_elem_of_fmap.
  split; intros [HP H]; (split; [done|]).
  - destruct H as ([i r'] & -> & H). apply elem_of_map_to_list in H. eauto.
  - destruct H as [i H]. exists (i, r). by rewrite elem_of_map_to_list.
Qed.

Lemma query_row_Some m r : query_row P m = Some r -> P r /\ exists i, m !! i = Some r.
Proof. intros H. apply elem_of_rows_where. by apply head_Some_elem_of. Qed.

Lemma query_row_None m : query_row P m = None <-> forall i r, m !! i = Some r -> ~ P r.
Proof.
  unfold query_row. split.
  - intros H i r Hi HP. destruct (rows_where P m) eqn:E; [|done].
    enough (r ∈ rows_where P m) as Hr by (rewrite E in Hr; by apply elem_of_nil in Hr).
    apply elem_of_rows_where. eauto.
  - intros H. destruct (head _) as [r|] eqn:E; [|done].
    apply query_row_Some in E as [HP [i Hi]]. naive_solver.
Qed.

(** A [WHERE] clause at most one row satisfies has one answer. *)
Lemma query_row_unique m i r :
  (forall j r', m !! j = Some r' -> P r' -> r' = r) -> m !! i = Some r -> P r ->
  query_row P m = Some r.
Proof.
  intros Hu Hi HP. destruct (query_row P m) as [r'|] eqn:E.
  - apply query_row_Some in E as [HP' [j Hj]]. f_equal. by apply (Hu j).
  - by destruct (proj1 (query_row_None m) E i r).
Qed.

Lemma lookup_update_where f m i :
  update_where P f m !! i = (fun r => if decide (P r) then f r else r) <$> m !! i.
Proof. unfold update_where. by rewrite lookup_fmap. Qed.

Lemma lookup_delete_where m i r :
  delete_where P m !! i = Some r <-> m !! i = Some r /\ ~ P r.
Proof. unfold delete_where. by rewrite map_lookup_filter_Some. Qed.

Lemma affected_pos m : (0 <? affected P m)%Z = true <-> exists i r, m !! i = Some r /\ P r.
Proof.
  unfold affected. rewrite Z.ltb_lt. split.
  - intros H. destruct (rows_where P m) as [|r l] eqn:E; [simpl in H; lia|].
    assert (r ∈ rows_where P m) as Hr by (rewrite E; by left).
    apply elem_of_rows_where in Hr as [? [i ?]]. eauto.
  - intros (i & r & Hi & HP). assert (r ∈ rows_where P m) as Hr by (apply elem_of_rows_where; eauto).
    destruct (rows_where P m); [by apply elem_of_nil in Hr|simpl; lia].
Qed.
End where_clause.

Lemma lookup_insert_row m r i r' :
  insert_row r m !! i = Some r' <->
  (i = fresh (dom m) /\ r' = r) \/ (i <> fresh (dom m) /\ m !! i = Some r').
Proof.
  unfold insert_row. rewrite lookup_insert_Some. naive_solver.
Qed.

Lemma insert_row_fresh m : m !! fresh (dom m) = None.
Proof. apply not_elem_of_dom, is_fresh. Qed.
End statements.
