(* ===== verification/Text.v ===== *)
(** UTF-8 text: encoding of characters, [str] methods, and the key ranges
    that select a prefix ([prefix_upper_bound] and [push_prefix_filter] of
    [crates/arca-storage/src/sqlite/metadata.rs]).

    [chars] of the prelude decodes; [of_chars] encodes.  SQLite compares text
    bytewise and the byte order of UTF-8 is the code point order, which is
    what makes a prefix a range of keys. *)

From S2P Require Import Prelude SqlTable.

Local Open Scope N_scope.

(** ** Encoding *)

Definition scalar (c : N) : bool := (c <? 55296) || ((57344 <=? c) && (c <? 1114112)).

(** [char::from_u32]. *)
Definition char_from_u32 (c : N) : option N := if scalar c then Some c else None.

Definition byte (n : N) : Ascii.ascii := Ascii.ascii_of_N n.

(** The bytes of a character followed by the text [s]. *)
Definition push_char (c : N) (s : string) : string :=
  if c <? 128 then String (byte c) s
  else if c <? 2048 then
    String (byte (192 + c / 64)) (String (byte (128 + c mod 64)) s)
  else if c <? 65536 then
    String (byte (224 + c / 4096))
      (String (byte (128 + (c / 64) mod 64)) (String (byte (128 + c mod 64)) s))
  else
    String (byte (240 + c / 262144))
      (String (byte (128 + (c / 4096) mod 64))
        (String (byte (128 + (c / 64) mod 64)) (String (byte (128 + c mod 64)) s))).

Fixpoint of_chars (cs : list N) : string :=
  match cs with
  | [] => EmptyString
  | c :: cs' => push_char c (of_chars cs')
  end.

(** A text: the encoding of a list of characters. *)
Definition valid_text (s : string) : Prop :=
  exists cs, Forall (fun c => scalar c = true) cs /\ s = of_chars cs.

(** ** [str] methods *)

(** [char::is_whitespace]. *)
Definition is_whitespace (c : N) : bool :=
  ((9 <=? c) && (c <=? 13)) || (c =? 32) || (c =? 133) || (c =? 160) || (c =? 5760)
  || ((8192 <=? c) && (c <=? 8202)) || (c =? 8232) || (c =? 8233) || (c =? 8239)
  || (c =? 8287) || (c =? 12288).

Fixpoint drop_while (f : N -> bool) (cs : list N) : list N :=
  match cs with
  | [] => []
  | c :: cs' => if f c then drop_while f cs' else cs
  end.

Definition trim_chars (f : N -> bool) (cs : list N) : list N :=
  rev (drop_while f (rev (drop_while f cs))).

(** [str::trim] and [str::trim_matches]. *)
Definition trim (s : string) : string := of_chars (trim_chars is_whitespace (chars s)).
Definition trim_matches (c : N) (s : string) : string := of_chars (trim_chars (N.eqb c) (chars s)).

(** [str::split] at a one-byte character. *)
Fixpoint split (c : Ascii.ascii) (s : string) : list string :=
  match s with
  | EmptyString => [EmptyString]
  | String a s' =>
      if bool_decide (a = c) then EmptyString :: split c s'
      else match split c s' with
           | p :: ps => String a p :: ps
           | [] => [String a EmptyString]
           end
  end.

(** [str::contains] and [str::ends_with]. *)
Fixpoint contains (s p : string) : bool :=
  starts_with s p || match s with EmptyString => false | String _ s' => contains s' p end.

Fixpoint ends_with (s p : string) : bool :=
  bool_decide (s = p) || match s with EmptyString => false | String _ s' => ends_with s' p end.

(** [str::strip_suffix]. *)
Fixpoint strip_suffix (p s : string) : option string :=
  if bool_decide (s = p) then Some EmptyString
  else match s with EmptyString => None | String a s' => String a <$> strip_suffix p s' end.

(** The first bytes, and the others. *)
Fixpoint take_bytes (n : nat) (s : string) : string :=
  match n, s with
  | S n', String c s' => String c (take_bytes n' s')
  | _, _ => EmptyString
  end.

Fixpoint drop_bytes (n : nat) (s : string) : string :=
  match n, s with
  | S n', String _ s' => drop_bytes n' s'
  | _, _ => s
  end.

(** ** Prefix ranges *)

Definition next_char (c : N) : option N :=
  if c =? 55295 then Some 57344 else char_from_u32 (c + 1).

(** The loop of [prefix_upper_bound], on the characters last first. *)
Fixpoint pop_and_bump (rcs : list N) : option (list N) :=
  match rcs with
  | [] => None
  | last :: rest =>
      match next_char last with
      | Some next => Some (rev (next :: rest))
      | None => pop_and_bump rest
      end
  end.

Definition prefix_upper_bound (prefix : string) : option string :=
  of_chars <$> pop_and_bump (rev (chars prefix)).

(** The filter [push_prefix_filter] adds: [key >= prefix AND key < bound]. *)
Definition in_prefix_range (prefix key : string) : bool :=
  negb (String.ltb key prefix)
  && match prefix_upper_bound prefix with
     | Some bound => String.ltb key bound
     | None => true
     end.

(** ** Byte order and decoding *)

Lemma N_of_byte n : n < 256 -> Ascii.N_of_ascii (byte n) = n.
Proof. apply Ascii.N_ascii_embedding. Qed.

Lemma compare_byte x y s t :
  x < 256 -> y < 256 ->
  String.compare (String (byte x) s) (String (byte y) t) =
  match x ?= y with Eq => String.compare s t | c => c end.
Proof. intros Hx Hy. simpl. unfold Ascii.compare. by rewrite !N_of_byte. Qed.

Lemma scalar_bound c : scalar c = true -> c < 1114112.
Proof.
  unfold scalar. rewrite orb_true_iff, andb_true_iff, !N.ltb_lt, N.leb_le. lia.
Qed.

(** The base-64 digits of a character. *)
Lemma digits c :
  exists a b d e, c / 262144 = a /\ (c / 4096) mod 64 = b /\ (c / 64) mod 64 = d /\ c mod 64 = e /\
    c / 4096 = 64 * a + b /\ c / 64 = 4096 * a + 64 * b + d /\
    c = 262144 * a + 4096 * b + 64 * d + e /\ b < 64 /\ d < 64 /\ e < 64.
Proof.
  assert (forall n, n = 64 * (n / 64) + n mod 64 /\ n mod 64 < 64) as Hdm.
  { intros n. split; [apply N.Div0.div_mod|by apply N.mod_lt]. }
  replace (c / 4096) with (c / 64 / 64) by (by rewrite N.Div0.div_div).
  replace (c / 262144) with (c / 64 / 64 / 64) by (by rewrite !N.Div0.div_div).
  destruct (Hdm c) as [H1 ?], (Hdm (c / 64)) as [H2 ?], (Hdm (c / 64 / 64)) as [H3 ?].
  eexists _, _, _, _. do 4 (split; [reflexivity|]).
  revert H1 H2 H3. generalize dependent (c / 64 / 64 / 64). intros a.
  generalize dependent ((c / 64 / 64) mod 64). intros b.
  generalize dependent (c / 64 / 64). intros ?.
  generalize dependent ((c / 64) mod 64). intros d.
  generalize dependent (c / 64). intros ?.
  generalize dependent (c mod 64). intros e. lia.
Qed.

Ltac use_digits c :=
  let a := fresh "a" in let b := fresh "b" in let d := fresh "d" in let e := fresh "e" in
  destruct (digits c) as (a & b & d & e & -> & -> & -> & -> & -> & -> & ? & ? & ? & ?).

Lemma compare_push_same c s t :
  scalar c = true -> String.compare (push_char c s) (push_char c t) = String.compare s t.
Proof.
  intros Hc%scalar_bound. unfold push_char. use_digits c.
  repeat case_match; rewrite ?N.ltb_lt, ?N.ltb_ge in *;
    repeat (rewrite compare_byte by lia; rewrite N.compare_refl); done.
Qed.

(** One byte of the comparison of two encodings. *)
Ltac compare_step :=
  rewrite compare_byte by lia;
  match goal with
  | |- context [?x ?= ?y] => destruct (N.compare_spec x y); [|done|exfalso; lia]
  end.

Lemma compare_push_lt c d s t :
  scalar c = true -> scalar d = true -> c < d ->
  String.compare (push_char c s) (push_char d t) = Lt.
Proof.
  intros Hc%scalar_bound Hd%scalar_bound Hlt. unfold push_char.
  use_digits c. use_digits d.
  repeat case_match; rewrite ?N.ltb_lt, ?N.ltb_ge in *; try lia;
    repeat compare_step; exfalso; lia.
Qed.

Lemma chars_push c s : scalar c = true -> chars (push_char c s) = c :: chars s.
Proof.
  intros Hc%scalar_bound. unfold push_char. use_digits c.
  repeat case_match; rewrite ?N.ltb_lt, ?N.ltb_ge in *; cbn [chars]; rewrite !N_of_byte by lia.
  - by rewrite (proj2 (N.ltb_lt _ _)).
  - rewrite (proj2 (N.ltb_ge _ _)) by lia. rewrite (proj2 (N.ltb_lt _ _)) by lia. f_equal. lia.
  - rewrite (proj2 (N.ltb_ge _ _)), (proj2 (N.ltb_ge _ _)) by lia.
    rewrite (proj2 (N.ltb_lt _ _)) by lia. f_equal. lia.
  - rewrite !(proj2 (N.ltb_ge _ _)) by lia. f_equal. lia.
Qed.

Abbreviation scalars := (Forall (fun c => scalar c = true)).

(** Code point order of texts. *)
Fixpoint lex (a b : list N) : comparison :=
  match a, b with
  | [], [] => Eq
  | [], _ => Lt
  | _, [] => Gt
  | x :: a', y :: b' => match x ?= y with Eq => lex a' b' | c => c end
  end.

Lemma push_char_nonempty c s : exists b t, push_char c s = String b t.
Proof. unfold push_char. repeat case_match; eauto. Qed.

Lemma compare_of_chars a b :
  scalars a -> scalars b -> String.compare (of_chars a) (of_chars b) = lex a b.
Proof.
  intros Ha. revert b. induction Ha as [|x a Hx Ha IH]; intros b Hb.
  - destruct Hb as [|y b Hy Hb]; [done|]. cbn [of_chars lex].
    by destruct (push_char_nonempty y (of_chars b)) as (? & ? & ->).
  - destruct Hb as [|y b Hy Hb]; cbn [of_chars lex].
    { by destruct (push_char_nonempty x (of_chars a)) as (? & ? & ->). }
    destruct (N.compare_spec x y) as [->|Hlt|Hgt].
    + rewrite compare_push_same by done. by apply IH.
    + by apply compare_push_lt.
    + rewrite String.compare_antisym, compare_push_lt by done. done.
Qed.

Lemma of_chars_app cs s : (of_chars cs +:+ s)%string = foldr push_char s cs.
Proof.
  induction cs as [|c cs IH]; [done|]. cbn [of_chars foldr]. rewrite <- IH.
  unfold push_char. by repeat case_match.
Qed.

Lemma chars_app cs s : scalars cs -> chars (of_chars cs +:+ s) = cs ++ chars s.
Proof.
  rewrite of_chars_app. induction 1 as [|c cs Hc Hcs IH]; [done|].
  cbn [foldr app]. by rewrite chars_push, IH.
Qed.

Lemma string_app_empty s : (s +:+ EmptyString)%string = s.
Proof. induction s as [|a s IH]; [done|]. exact (f_equal (String a) IH). Qed.

Lemma string_length_app a b : (String.length (a +:+ b) = String.length a + String.length b)%nat.
Proof. induction a as [|c a IH]; simpl; [done|]. by rewrite IH. Qed.

Lemma string_app_assoc (a b c : string) : ((a +:+ b) +:+ c = a +:+ (b +:+ c))%string.
Proof.
  induction a as [|x a IH]; [done|]. change (String x ((a +:+ b) +:+ c) = String x (a +:+ (b +:+ c)))%string. by rewrite IH.
Qed.

Lemma ends_with_spec s p : ends_with s p = true <-> exists r, s = (r +:+ p)%string.
Proof.
  induction s as [|c s IH]; cbn [ends_with].
  - rewrite orb_false_r, bool_decide_eq_true. split; [intros <-; by exists EmptyString|].
    intros [[|? r] H]; [exact H|done].
  - rewrite orb_true_iff, bool_decide_eq_true, IH. split.
    + intros [<-|[r ->]]; [by exists EmptyString|by exists (String c r)].
    + intros [[|x r] H]; [by left|]. injection H as -> ->. right. by exists r.
Qed.

Lemma strip_suffix_spec p s r : strip_suffix p s = Some r -> s = (r +:+ p)%string.
Proof.
  revert r. induction s as [|c s IH]; intros r; cbn [strip_suffix]; case_bool_decide as E.
  - intros [= <-]. done.
  - done.
  - intros [= <-]. done.
  - intros (r' & ->%IH & ->)%fmap_Some. done.
Qed.

Lemma strip_suffix_app p r : strip_suffix p (r +:+ p)%string = Some r.
Proof.
  induction r as [|c r IH].
  - change (EmptyString +:+ p)%string with p. destruct p; cbn [strip_suffix]; by rewrite bool_decide_eq_true_2.
  - change (String c r +:+ p)%string with (String c (r +:+ p)%string). cbn [strip_suffix].
    rewrite bool_decide_eq_false_2, IH; [done|].
    intros H%(f_equal String.length). cbn [String.length] in H. rewrite string_length_app in H. lia.
Qed.

Lemma chars_of_chars cs : scalars cs -> chars (of_chars cs) = cs.
Proof.
  intros H. rewrite <- (app_nil_r cs) at 2. change (@nil N) with (chars EmptyString).
  rewrite <- chars_app by done. by rewrite string_app_empty.
Qed.

(** A key starts with a prefix when its characters do. *)
Lemma starts_with_chars ks cs :
  scalars ks -> scalars cs ->
  starts_with (of_chars ks) (of_chars cs) = true <-> cs `prefix_of` ks.
Proof.
  intros Hk Hc. rewrite starts_with_spec. split.
  - intros [r Hr]. exists (chars r). by rewrite <- chars_app, <- Hr, chars_of_chars.
  - intros [r ->]. exists (of_chars r). rewrite !of_chars_app. clear.
    induction cs as [|c cs IH]; cbn; [done|]. by rewrite IH.
Qed.

(** ** The range of a prefix *)

Lemma next_char_None c : scalar c = true -> next_char c = None -> c = 1114111.
Proof.
  unfold next_char, char_from_u32, scalar. repeat case_match; intros; try done.
  rewrite ?orb_true_iff, ?orb_false_iff, ?andb_true_iff, ?andb_false_iff, ?N.ltb_lt, ?N.ltb_ge,
    ?N.leb_le, ?N.leb_gt, ?N.eqb_eq, ?N.eqb_neq in *. lia.
Qed.

Lemma next_char_Some c n :
  scalar c = true -> next_char c = Some n ->
  scalar n = true /\ c < n /\ forall x, scalar x = true -> x < n -> x <= c.
Proof.
  unfold next_char, char_from_u32, scalar. repeat case_match; intros ? [= <-].
  all: rewrite ?orb_true_iff, ?andb_true_iff, ?N.ltb_lt, ?N.leb_le, ?N.eqb_eq, ?N.eqb_neq in *.
  all: split; [lia|split; [lia|]]; intros x.
  all: rewrite ?orb_true_iff, ?andb_true_iff, ?N.ltb_lt, ?N.leb_le; lia.
Qed.

Lemma pop_and_bump_spec rcs :
  scalars rcs ->
  match pop_and_bump rcs with
  | Some b => exists i c m n, rev rcs = i ++ c :: m /\ Forall (eq 1114111) m /\
      scalar c = true /\ next_char c = Some n /\ b = i ++ [n]
  | None => Forall (eq 1114111) (rev rcs)
  end.
Proof.
  induction 1 as [|c rcs Hc Hrcs IH]; cbn [pop_and_bump]; [constructor|].
  destruct (next_char c) as [n|] eqn:En.
  - exists (rev rcs), c, [], n. cbn. by repeat split.
  - apply next_char_None in En as ->; [|done].
    destruct (pop_and_bump rcs) as [b|].
    + destruct IH as (i & c & m & n & E & Hm & Hcs & Hn & ->). exists i, c, (m ++ [1114111]), n.
      cbn [rev]. rewrite E, <- app_assoc. repeat split; try done.
      apply Forall_app. split; [done|by constructor].
    + cbn [rev]. apply Forall_app. split; [done|by constructor].
Qed.

(** Texts at or above a run of [char::MAX] start with it. *)
Lemma lex_max m ks :
  scalars ks -> Forall (eq 1114111) m -> lex ks m <> Lt -> m `prefix_of` ks.
Proof.
  intros Hk Hm. revert ks Hk. induction Hm as [|x m <- Hm IH]; intros ks Hk; [intros; apply prefix_nil|].
  destruct Hk as [|y ks Hy Hk]; cbn [lex]; [done|]. apply scalar_bound in Hy.
  destruct (N.compare_spec y 1114111) as [->| |]; [|done|lia].
  intros H. by apply prefix_cons, IH.
Qed.

Lemma lex_prefix cs ks : cs `prefix_of` ks -> lex ks cs <> Lt.
Proof.
  intros [r ->]. induction cs as [|c cs IH]; cbn; [by destruct r|]. by rewrite N.compare_refl.
Qed.

Lemma lex_range i c m n ks :
  scalars ks -> Forall (eq 1114111) m -> scalar c = true -> next_char c = Some n ->
  lex ks (i ++ c :: m) <> Lt /\ lex ks (i ++ [n]) = Lt <-> (i ++ c :: m) `prefix_of` ks.
Proof.
  intros Hk Hm Hc Hn. destruct (next_char_Some c n Hc Hn) as (_ & Hcn & Hgap). split.
  - revert ks Hk. induction i as [|x i IH]; intros ks Hk [H1 H2]; (destruct Hk as [|y ks Hy Hk]; [done|]).
    + cbn [app lex] in H1, H2. destruct (N.compare_spec y n) as [->| |]; [by destruct ks| |done].
      destruct (N.compare_spec y c) as [->| |]; [|done|].
      * by apply prefix_cons, lex_max.
      * pose proof (Hgap y Hy). lia.
    + cbn [app lex] in H1, H2. destruct (N.compare_spec y x) as [->| |]; [|done..].
      apply prefix_cons, IH; [done|]. by split.
  - intros Hp. split; [by apply lex_prefix|]. destruct Hp as [r ->]. clear Hk.
    induction i as [|x i IH]; cbn.
    + destruct (N.compare_spec c n); [lia|done|lia].
    + by rewrite N.compare_refl.
Qed.

Lemma ltb_of_chars a b :
  scalars a -> scalars b -> String.ltb (of_chars a) (of_chars b) = true <-> lex a b = Lt.
Proof. intros Ha Hb. rewrite <- string_compare_Lt. by rewrite compare_of_chars. Qed.

Lemma in_prefix_range_chars cs ks :
  scalars cs -> scalars ks ->
  in_prefix_range (of_chars cs) (of_chars ks) = true <-> cs `prefix_of` ks.
Proof.
  intros Hc Hk. unfold in_prefix_range, prefix_upper_bound. rewrite chars_of_chars by done.
  pose proof (pop_and_bump_spec (rev cs)) as Hb. rewrite rev_involutive in Hb.
  specialize (Hb ltac:(by apply List.Forall_rev)).
  rewrite andb_true_iff, negb_true_iff, <- not_true_iff_false, ltb_of_chars by done.
  destruct (pop_and_bump (rev cs)) as [b|]; cbn [fmap option_fmap option_map].
  - destruct Hb as (i & c & m & n & -> & Hm & Hcs & Hn & ->).
    apply Forall_app in Hc as [Hi _]. destruct (next_char_Some c n Hcs Hn) as [Hns _].
    rewrite ltb_of_chars; [|done|by apply Forall_app; split; [|constructor]].
    by apply lex_range.
  - split; [intros [H _]; by apply lex_max|]. intros H. split; [by apply lex_prefix|done].
Qed.

(** The key range a listing with a prefix scans ([key >= prefix AND key <
    prefix_upper_bound(prefix)], or no upper bound when there is none) holds
    exactly the keys that start with the prefix, for every prefix and key that
    are UTF-8 text: no key is lost at a surrogate gap, at [char::MAX] or at
    the empty prefix. *)
Theorem prefix_filter_exact (prefix key : string) :
  valid_text prefix -> valid_text key -> in_prefix_range prefix key = starts_with key prefix.
Proof.
  intros (cs & Hc & ->) (ks & Hk & ->). apply eq_true_iff_eq.
  by rewrite in_prefix_range_chars, starts_with_chars.
Qed.

Lemma prefix_filter_exact_witness :
  in_prefix_range (of_chars [97; 55295]) (of_chars [97; 55295; 1114111]) =
  starts_with (of_chars [97; 55295; 1114111]) (of_chars [97; 55295]).
Proof.
  apply prefix_filter_exact.
  - exists [97; 55295]. by repeat constructor.
  - exists [97; 55295; 1114111]. by repeat constructor.
Defined.
