(* ===== verification/Preconditions.v ===== *)
(** Bucket names, ETag comparison and the preconditions of conditional writes:
    [crates/arca-core/src/s3/bucket_name.rs], [crates/arca-core/src/s3/etag.rs]
    and the precondition types of [crates/arca-core/src/store/metadata.rs]. *)

From Stdlib Require Import Ascii.
From S2P Require Import Prelude S3Errors Policy Types SqlTable Text.

(** ** [validate_bucket_name] *)

Definition is_ascii_lowercase (a : Ascii.ascii) : bool :=
  let n := Ascii.N_of_ascii a in (97 <=? n)%N && (n <=? 122)%N.

Definition is_ascii_digit (a : Ascii.ascii) : bool :=
  let n := Ascii.N_of_ascii a in (48 <=? n)%N && (n <=? 57)%N.

Definition looks_like_ip (name : string) : bool :=
  let parts := split "."%char name in
  if negb (length parts =? 4)%nat then false
  else forallb (fun p => negb (bool_decide (p = EmptyString)) && (String.length p <=? 3)%nat
                         && forallb is_ascii_digit (String.list_ascii_of_string p)) parts.

Definition validate_bucket_name (name : string) : outcome S3Error unit :=
  let make_err := with_message InvalidBucketName ("Invalid bucket name: " +:+ name) ("/" +:+ name) in
  let len := String.length name in
  let bytes := String.list_ascii_of_string name in
  let alnum b := is_ascii_lowercase b || is_ascii_digit b in
  if (len <? 3)%nat || (63 <? len)%nat then Err make_err
  else
    match bytes !! 0, bytes !! (len - 1) with
    | Some first, Some last =>
        if negb (alnum first) then Err make_err
        else if negb (alnum last) then Err make_err
        else if negb (forallb (fun b => alnum b || bool_decide (b = "-"%char) || bool_decide (b = "."%char)) bytes)
        then Err make_err
        else if contains name ".." || contains name ".-" || contains name "-." then Err make_err
        else if looks_like_ip name then Err make_err
        else if starts_with name "xn--" then Err make_err
        else if ends_with name "-s3alias" || ends_with name "--ol-s3" then Err make_err
        else Ok tt
    | _, _ => Panic
    end.

(** ** [etag_matches] *)

Definition etag_matches (header_val etag : string) : bool :=
  let trimmed := trim header_val in
  if bool_decide (trimmed = "*") then true
  else existsb (fun v => bool_decide (trim_matches 34 (trim v) = trim_matches 34 etag)) (split ","%char trimmed).

(** ** Preconditions *)

Record WritePrecondition : Type := {
  w_if_match : option string;
  w_if_none_match : option string;
}.

Record DeletePrecondition : Type := {
  d_if_match : option string;
  d_if_match_last_modified : option Z;
  d_if_match_size : option Z;
  d_if_match_blob_id : option string;
}.

Definition no_write_precondition : WritePrecondition :=
  {| w_if_match := None; w_if_none_match := None |}.

Definition no_delete_precondition : DeletePrecondition :=
  {| d_if_match := None; d_if_match_last_modified := None; d_if_match_size := None;
     d_if_match_blob_id := None |}.

Definition w_is_empty (p : WritePrecondition) : bool :=
  negb (is_some (w_if_match p)) && negb (is_some (w_if_none_match p)).

Definition write_evaluate (p : WritePrecondition) (current : option ObjectRecord)
  : outcome S3ErrorCode unit :=
  obind
    (match w_if_match p with
     | Some expected =>
         match current with
         | Some obj =>
             if etag_matches expected (quoted (o_etag obj)) then Ok tt else Err PreconditionFailed
         | None => Err NoSuchKey
         end
     | None => Ok tt
     end)
    (fun _ =>
       match w_if_none_match p, current with
       | Some expected, Some obj =>
           if etag_matches expected (quoted (o_etag obj)) then Err PreconditionFailed else Ok tt
       | _, _ => Ok tt
       end).

Definition d_is_empty (p : DeletePrecondition) : bool :=
  negb (is_some (d_if_match p)) && negb (is_some (d_if_match_last_modified p))
  && negb (is_some (d_if_match_size p)) && negb (is_some (d_if_match_blob_id p)).

(** [DateTime::timestamp]: whole seconds, rounded down. *)
Definition timestamp (t : Z) : Z := (t / 1000000000)%Z.

(** A condition that, when given, must hold. *)
Definition check {A : Type} (given : option A) (holds : A -> bool) : outcome S3ErrorCode unit :=
  match given with
  | Some v => if holds v then Ok tt else Err PreconditionFailed
  | None => Ok tt
  end.

Definition delete_evaluate (p : DeletePrecondition) (current : option ObjectRecord)
  : outcome S3ErrorCode unit :=
  match current with
  | None => Ok tt
  | Some obj =>
      obind (check (d_if_match p) (fun e => etag_matches e (quoted (o_etag obj)))) (fun _ =>
      obind (check (d_if_match_last_modified p)
               (fun t => (timestamp (o_last_modified obj) =? timestamp t)%Z)) (fun _ =>
      obind (check (d_if_match_size p) (fun n => (o_size obj =? n)%Z)) (fun _ =>
      check (d_if_match_blob_id p) (fun b => bool_decide (o_blob_id obj = b)))))
  end.

Record BatchDeleteEntry : Type := {
  bd_key : string;
  bd_version_id : option string;
  bd_pre : DeletePrecondition;
}.

(** ** Properties *)

(** The empty precondition refuses nothing, so skipping it is sound. *)
Lemma write_evaluate_empty p cur : w_is_empty p = true -> write_evaluate p cur = Ok tt.
Proof. unfold w_is_empty, write_evaluate. by destruct p as [[] []]. Qed.

Lemma delete_evaluate_empty p cur : d_is_empty p = true -> delete_evaluate p cur = Ok tt.
Proof.
  unfold d_is_empty, delete_evaluate. destruct p as [[] [] [] []]; try done. by destruct cur.
Qed.

Lemma etag_matches_star e : etag_matches "*" e = true.
Proof. unfold etag_matches. by rewrite bool_decide_true by (vm_compute; reflexivity). Qed.

Lemma write_evaluate_total p cur : write_evaluate p cur <> Panic.
Proof. unfold write_evaluate. destruct (w_if_match p), cur; simpl; repeat case_match; done. Qed.

Lemma delete_evaluate_total p cur : delete_evaluate p cur <> Panic.
Proof.
  unfold delete_evaluate, check. destruct cur; [|done].
  destruct p as [[] [] [] []]; simpl; repeat case_match; done.
Qed.

(** [If-None-Match: *] lets a write through only when there is no object. *)
Lemma write_evaluate_create cur :
  write_evaluate {| w_if_match := None; w_if_none_match := Some "*" |} cur = Ok tt <-> cur = None.
Proof.
  unfold write_evaluate. cbn [w_if_match w_if_none_match obind]. destruct cur as [o|]; [|done].
  rewrite etag_matches_star. split; done.
Qed.
