(* ===== verification/MetadataStore.v ===== *)
(** The metadata store on SQLite: [crates/arca-storage/src/sqlite/metadata.rs]
    (and [set_object_replication_status] of [sqlite/replication.rs]).

    [MetaStore] has one field per table.  The table [objects] has no primary
    key: it is a map from [rowid] to the row, and the only constraint is the
    partial unique index on the latest row of a key, so an [INSERT] that would
    break it fails.  The other tables are maps keyed by their primary key.  A
    grouped write or a transaction that fails leaves the store unchanged.  The
    clock ([now]) and the random version ids ([uuid]) are inputs; a timestamp
    is compared as the time it denotes, which is the order of its RFC 3339
    text; [metadata] and [parts] are the values their JSON columns encode;
    sizes and sequence numbers are below 2^63. *)

From S2P Require Import Prelude S3Errors Policy Types SqlTable Text Preconditions.

Open Scope act_scope.

(** ** Tables *)

Record ObjRow : Type := MkRow {
  row_rec : ObjectRecord;
  row_seq : Z;
}.

(** [(bucket, key, version_id, tag_key)]; [version_id] is empty for the null version. *)
Abbreviation tag_id := (string * string * string * string)%type.

Record MetaStore : Type := MkMeta {
  ms_buckets : gmap string BucketInfo;
  ms_objects : gmap N ObjRow;
  ms_object_seq : Z;
  ms_bucket_config : gmap (string * string) (string * Z);
  ms_bucket_tags : gmap (string * string) (string * Z);
  ms_object_tags : gmap tag_id string;
  ms_uploads : gmap string MultipartUploadRecord;
  ms_parts : gmap (string * Z) PartRecord;
}.

Definition empty_meta : MetaStore := MkMeta ∅ ∅ 0 ∅ ∅ ∅ ∅ ∅.

Definition with_buckets t s :=
  let '(MkMeta _ ob sq bc bt ot up pa) := s in MkMeta t ob sq bc bt ot up pa.
Definition with_objects t s :=
  let '(MkMeta bu _ sq bc bt ot up pa) := s in MkMeta bu t sq bc bt ot up pa.
Definition with_object_seq t s :=
  let '(MkMeta bu ob _ bc bt ot up pa) := s in MkMeta bu ob t bc bt ot up pa.
Definition with_bucket_config t s :=
  let '(MkMeta bu ob sq _ bt ot up pa) := s in MkMeta bu ob sq t bt ot up pa.
Definition with_bucket_tags t s :=
  let '(MkMeta bu ob sq bc _ ot up pa) := s in MkMeta bu ob sq bc t ot up pa.
Definition with_object_tags t s :=
  let '(MkMeta bu ob sq bc bt _ up pa) := s in MkMeta bu ob sq bc bt t up pa.
Definition with_uploads t s :=
  let '(MkMeta bu ob sq bc bt ot _ pa) := s in MkMeta bu ob sq bc bt ot t pa.
Definition with_parts t s :=
  let '(MkMeta bu ob sq bc bt ot up _) := s in MkMeta bu ob sq bc bt ot up t.

(** ** Errors and transactions *)

(** The [rusqlite::Error] a statement can return: a constraint violation. *)
Inductive DbError : Type := UniqueViolation.

Inductive CasError : Type :=
  | Precondition (code : S3ErrorCode)
  | Db (e : DbError).

Abbreviation mact := (act MetaStore).

Definition map_err {S E E' A : Type} (f : E -> E') (m : act S E A) : act S E' A := fun s =>
  match m s with
  | (s', Ok a) => (s', Ok a)
  | (s', Err e) => (s', Err (f e))
  | (s', Panic) => (s', Panic)
  end.

(** A grouped write runs under a savepoint and a transaction is dropped
    without commit on an early return: both roll back. *)
Definition atomically {S E A : Type} (m : act S E A) : act S E A := fun s =>
  match m s with
  | (s', Ok a) => (s', Ok a)
  | (_, r) => (s, r)
  end.

Definition gets {E A : Type} (f : MetaStore -> A) : mact E A := fun s => (s, Ok (f s)).

Definition modify {E : Type} (f : MetaStore -> MetaStore) : mact E unit := fun s => (f s, Ok tt).

Definition when {E : Type} (b : bool) (m : mact E unit) : mact E unit :=
  if b then m else act_ret tt.

Definition cas_error (op resource : string) (e : CasError) : ArcaError :=
  match e with
  | Precondition code => S3 (S3Error_new code resource)
  | Db _ => Internal op
  end.

Definition map_cas_result {A : Type} (op resource : string) (m : mact CasError A) : mact ArcaError A :=
  map_err (cas_error op resource) m.

Definition internal {A : Type} (op : string) (m : mact DbError A) : mact ArcaError A :=
  map_err (fun _ => Internal op) m.

(** ** Columns *)

(** [SELECT {OBJECT_COLUMNS}] leaves the part layout out. *)
Definition without_parts (r : ObjectRecord) : ObjectRecord :=
  let '(MkObject bu ke bl si et ct lm md ea ek ow vi la dm ts rm rd lh sc ca cv _ rs lu cu) := r in
  MkObject bu ke bl si et ct lm md ea ek ow vi la dm ts rm rd lh sc ca cv None rs lu cu.

(** The columns [insert_object_row] writes: all but [replication_status]. *)
Definition inserted_columns (r : ObjectRecord) : ObjectRecord :=
  let '(MkObject bu ke bl si et ct lm md ea ek ow vi la dm ts rm rd lh sc ca cv pa _ lu cu) := r in
  MkObject bu ke bl si et ct lm md ea ek ow vi la dm ts rm rd lh sc ca cv pa None lu cu.

(** [version_id = vid; is_latest = true; is_delete_marker = false]. *)
Definition as_current (vid : option string) (r : ObjectRecord) : ObjectRecord :=
  let '(MkObject bu ke bl si et ct lm md ea ek ow _ _ _ ts rm rd lh sc ca cv pa rs lu cu) := r in
  MkObject bu ke bl si et ct lm md ea ek ow vid true false ts rm rd lh sc ca cv pa rs lu cu.

(** [is_tombstone = 1, is_delete_marker = 0, blob_id = '', size = 0, last_modified = now]. *)
Definition as_tombstone (now : Z) (r : ObjectRecord) : ObjectRecord :=
  let '(MkObject bu ke _ _ et ct _ md ea ek ow vi la _ _ rm rd lh sc ca cv pa rs lu cu) := r in
  MkObject bu ke EmptyString 0 et ct now md ea ek ow vi la false true rm rd lh sc ca cv pa rs lu cu.

Definition set_replication_status (st : option string) (r : ObjectRecord) : ObjectRecord :=
  let '(MkObject bu ke bl si et ct lm md ea ek ow vi la dm ts rm rd lh sc ca cv pa _ lu cu) := r in
  MkObject bu ke bl si et ct lm md ea ek ow vi la dm ts rm rd lh sc ca cv pa st lu cu.

(** The row of a delete marker. *)
Definition delete_marker (bucket key owner : string) (vid : option string) (now : Z) : ObjectRecord :=
  MkObject bucket key EmptyString 0 EmptyString None now ∅ None None owner vid true true false
    None None None "STANDARD" None None None None None None.

Definition map_row (f : ObjectRecord -> ObjectRecord) (x : ObjRow) : ObjRow :=
  MkRow (f (row_rec x)) (row_seq x).

(** [..., seq = ?]. *)
Definition map_row_at (seq : Z) (f : ObjectRecord -> ObjectRecord) (x : ObjRow) : ObjRow :=
  MkRow (f (row_rec x)) seq.

(** [WHERE] clauses. *)
Abbreviation at_key b k x := (o_bucket (row_rec x) = b /\ o_key (row_rec x) = k).
Abbreviation version_is v x := (o_version_id (row_rec x) = v).
Abbreviation latest x := (o_is_latest (row_rec x) = true).
Abbreviation not_marker x := (o_is_delete_marker (row_rec x) = false).
Abbreviation live x := (o_is_tombstone (row_rec x) = false).

(** [versionId=null] names the null version. *)
Definition version_ref (version_id : string) : option string :=
  if bool_decide (version_id = "null") then None else Some version_id.

(** [COALESCE(version_id, '')]. *)
Definition coalesce_version (r : ObjectRecord) : string := default EmptyString (o_version_id r).

(** ** Statements on [objects] *)

Definition update_objects {E : Type} (P : ObjRow -> Prop) `{!forall x, Decision (P x)}
    (f : ObjRow -> ObjRow) : mact E Z := fun s =>
  (with_objects (update_where P f (ms_objects s)) s, Ok (affected P (ms_objects s))).

Definition delete_objects {E : Type} (P : ObjRow -> Prop) `{!forall x, Decision (P x)} : mact E Z := fun s =>
  (with_objects (delete_where P (ms_objects s)) s, Ok (affected P (ms_objects s))).

(** [idx_objects_latest]: one latest row per key. *)
Definition insert_object (x : ObjRow) : mact DbError unit := fun s =>
  if o_is_latest (row_rec x)
     && (0 <? affected (fun y => at_key (o_bucket (row_rec x)) (o_key (row_rec x)) y /\ latest y)
               (ms_objects s))%Z
  then (s, Err UniqueViolation)
  else (with_objects (insert_row x (ms_objects s)) s, Ok tt).

Definition next_object_seq {E : Type} : mact E Z := fun s =>
  (with_object_seq (ms_object_seq s + 1) s, Ok (ms_object_seq s + 1)%Z).

Definition delete_object_tags_where {E : Type} (P : tag_id -> Prop) `{!forall t, Decision (P t)} : mact E Z :=
  fun s => (with_object_tags (filter (fun e => ~ P e.1) (ms_object_tags s)) s,
            Ok (Z.of_nat (size (filter (fun e => P e.1) (ms_object_tags s))))).

Abbreviation tag_of_key b k t := (t.1.1.1 = b /\ t.1.1.2 = k).
Abbreviation tag_of_version b k v t := (t.1.1.1 = b /\ t.1.1.2 = k /\ t.1.2 = v).

Definition insert_object_row (record : ObjectRecord) : mact DbError unit :=
  let! seq := next_object_seq in
  insert_object (MkRow (inserted_columns record) seq).

Definition insert_replicated_row (record : ObjectRecord) : mact DbError unit :=
  let! seq := next_object_seq in
  insert_object (MkRow (set_latest false record) seq).

(** [ORDER BY last_modified DESC, version_id DESC, blob_id DESC] *)
Definition newest_first : ObjectRecord -> ObjectRecord -> comparison :=
  cmp_then (cmp_on o_last_modified (cmp_desc Z.compare))
    (cmp_then (cmp_on o_version_id (cmp_desc (cmp_null String.compare)))
              (cmp_on o_blob_id (cmp_desc String.compare))).

Definition winner (bucket key : string) (m : gmap N ObjRow) : option N :=
  fst <$> head (sorted_by (cmp_on (fun e => row_rec e.2) newest_first)
                 (filter (fun e => at_key bucket key e.2 /\ live e.2) (map_to_list m))).

Definition recompute_is_latest {E : Type} (bucket key : string) : mact E unit :=
  let! _ := update_objects (fun x => at_key bucket key x /\ latest x) (map_row (set_latest false)) in
  modify (fun s =>
    match winner bucket key (ms_objects s) with
    | Some i => with_objects (alter (map_row (set_latest true)) i (ms_objects s)) s
    | None => s
    end).

Definition fetch_latest_object (bucket key : string) (s : MetaStore) : option ObjectRecord :=
  without_parts ∘ row_rec <$> query_row (fun x => at_key bucket key x /\ latest x) (ms_objects s).

Definition fetch_current_object (bucket key : string) (s : MetaStore) : option ObjectRecord :=
  without_parts ∘ row_rec
    <$> query_row (fun x => at_key bucket key x /\ latest x /\ not_marker x) (ms_objects s).

Definition fetch_null_version (bucket key : string) (s : MetaStore) : option ObjectRecord :=
  without_parts ∘ row_rec
    <$> query_row (fun x => at_key bucket key x /\ version_is None x /\ live x) (ms_objects s).

Definition get_versioning_state (bucket : string) (s : MetaStore) : VersioningState :=
  match ms_bucket_config s !! (bucket, "versioning") with
  | Some (v, _) =>
      if bool_decide (v = "Enabled") then Enabled
      else if bool_decide (v = "Suspended") then Suspended else Unversioned
  | None => Unversioned
  end.

(** ** Writes of objects *)

(** [install_object]: the record as installed and the overwritten object. *)
Definition install_object (uuid : string) (record : ObjectRecord) (pre : WritePrecondition)
  : mact CasError (ObjectRecord * option ObjectRecord) :=
  let bucket := o_bucket record in
  let key := o_key record in
  let! current := gets (fetch_current_object bucket key) in
  let! _ := fun s => (s, if w_is_empty pre then Ok tt
                         else match write_evaluate pre current with
                              | Ok _ => Ok tt
                              | Err code => Err (Precondition code)
                              | Panic => Panic
                              end) in
  let! versioning := gets (get_versioning_state bucket) in
  map_err Db
    match versioning with
    | Unversioned =>
        let! old := gets (fetch_latest_object bucket key) in
        let! _ := delete_objects (fun x => at_key bucket key x) in
        let! _ := delete_object_tags_where (fun t => tag_of_key bucket key t) in
        let record := as_current None record in
        let! _ := insert_object_row record in
        let! _ := when (o_is_tombstone record) (recompute_is_latest bucket key) in
        act_ret (record, old)
    | Enabled =>
        let! _ := update_objects (fun x => at_key bucket key x /\ latest x) (map_row (set_latest false)) in
        let record := as_current (Some uuid) record in
        let! _ := insert_object_row record in
        let! _ := recompute_is_latest bucket key in
        act_ret (record, None)
    | Suspended =>
        let! old_null := gets (fetch_null_version bucket key) in
        let! _ := delete_objects (fun x => at_key bucket key x /\ version_is None x) in
        let! _ := delete_object_tags_where (fun t => tag_of_version bucket key EmptyString t) in
        let! _ := update_objects (fun x => at_key bucket key x /\ latest x) (map_row (set_latest false)) in
        let record := as_current None record in
        let! _ := insert_object_row record in
        let! _ := recompute_is_latest bucket key in
        act_ret (record, old_null)
    end.

Definition insert_tag (bucket key version_id : string) (tag : string * string) : mact DbError unit := fun s =>
  match ms_object_tags s !! (bucket, key, version_id, tag.1) with
  | Some _ => (s, Err UniqueViolation)
  | None => (with_object_tags (<[(bucket, key, version_id, tag.1) := tag.2]> (ms_object_tags s)) s, Ok tt)
  end.

Definition write_object_tags (bucket key version_id : string) (tags : list (string * string))
  : mact DbError unit :=
  let! _ := delete_object_tags_where (fun t => tag_of_version bucket key version_id t) in
  act_for (insert_tag bucket key version_id) tags.

Definition object_resource (bucket key : string) : string := "/" +:+ bucket +:+ "/" +:+ key.

Definition version_resource (bucket key version_id : string) : string :=
  object_resource bucket key +:+ "?versionId=" +:+ version_id.

Definition put_object_tagged_if (uuid : string) (record : ObjectRecord) (pre : WritePrecondition)
    (tags : list (string * string)) : mact ArcaError (option ObjectRecord * option string) :=
  map_cas_result "put_object_if" (object_resource (o_bucket record) (o_key record))
    (atomically
      (let! installed := install_object uuid record pre in
       let record := installed.1 in
       let! _ := when (negb (bool_decide (tags = [])))
                   (map_err Db (write_object_tags (o_bucket record) (o_key record)
                                  (coalesce_version record) tags)) in
       act_ret (installed.2, o_version_id record))).

Definition put_object_if (uuid : string) (record : ObjectRecord) (pre : WritePrecondition)
  : mact ArcaError (option ObjectRecord * option string) :=
  put_object_tagged_if uuid record pre [].

(** ** Deletes of objects *)

Definition evaluate_delete (pre : DeletePrecondition) (current : option ObjectRecord)
  : mact CasError unit := fun s =>
  (s, if d_is_empty pre then Ok tt
      else match delete_evaluate pre current with
           | Ok _ => Ok tt
           | Err code => Err (Precondition code)
           | Panic => Panic
           end).

Definition insert_marker (bucket key owner : string) (vid : option string) (now : Z)
  : mact DbError unit :=
  let! seq := next_object_seq in
  insert_object (MkRow (delete_marker bucket key owner vid now) seq).

Definition delete_latest_in_tx (cluster_mode : bool) (now : Z) (uuid : string) (bucket key : string)
    (pre : DeletePrecondition) (marker_owner : string) : mact CasError (option ObjectRecord) :=
  let! current := gets (fetch_latest_object bucket key) in
  let! _ := evaluate_delete pre current in
  let! versioning := gets (get_versioning_state bucket) in
  map_err Db
    match versioning with
    | Unversioned =>
        let! old := gets (fetch_latest_object bucket key) in
        let! _ := when (is_some old)
          (let! _ := if cluster_mode then
               let! seq := next_object_seq in
               update_objects (fun x => at_key bucket key x) (map_row_at seq (as_tombstone now))
             else delete_objects (fun x => at_key bucket key x) in
           let! _ := delete_object_tags_where (fun t => tag_of_key bucket key t) in
           when cluster_mode (recompute_is_latest bucket key)) in
        act_ret old
    | Enabled =>
        let! _ := update_objects (fun x => at_key bucket key x /\ latest x) (map_row (set_latest false)) in
        let! _ := insert_marker bucket key marker_owner (Some uuid) now in
        act_ret (Some (delete_marker bucket key marker_owner (Some uuid) now))
    | Suspended =>
        let! old_null := gets (fetch_null_version bucket key) in
        let! _ := delete_objects (fun x => at_key bucket key x /\ version_is None x) in
        let! _ := delete_object_tags_where (fun t => tag_of_version bucket key EmptyString t) in
        let! _ := update_objects (fun x => at_key bucket key x /\ latest x) (map_row (set_latest false)) in
        let! _ := insert_marker bucket key marker_owner None now in
        act_ret old_null
    end.

Definition fetch_version (bucket key version_id : string) (s : MetaStore) : option ObjectRecord :=
  without_parts ∘ row_rec
    <$> query_row (fun x => at_key bucket key x /\ version_is (version_ref version_id) x /\ live x)
          (ms_objects s).

Definition delete_version_in_tx (cluster_mode : bool) (now : Z) (bucket key version_id : string)
    (pre : DeletePrecondition) : mact CasError (option ObjectRecord) :=
  let! deleted := gets (fetch_version bucket key version_id) in
  let! _ := match deleted with
            | Some rec => if o_is_delete_marker rec then act_ret tt else evaluate_delete pre deleted
            | None => evaluate_delete pre deleted
            end in
  let! _ := when (is_some deleted)
    (let! _ := if cluster_mode then
         let! seq := next_object_seq in
         update_objects (fun x => at_key bucket key x /\ version_is (version_ref version_id) x)
           (map_row_at seq (as_tombstone now))
       else delete_objects (fun x => at_key bucket key x /\ version_is (version_ref version_id) x) in
     let! _ := delete_object_tags_where
                 (fun t => tag_of_version bucket key (default EmptyString (version_ref version_id)) t) in
     recompute_is_latest bucket key) in
  act_ret deleted.

Definition delete_object_if (cluster_mode : bool) (now : Z) (uuid : string) (bucket key : string)
    (pre : DeletePrecondition) (marker_owner : string) : mact ArcaError (option ObjectRecord) :=
  map_cas_result "delete_object_if" (object_resource bucket key)
    (atomically (delete_latest_in_tx cluster_mode now uuid bucket key pre marker_owner)).

Definition delete_object_version_if (cluster_mode : bool) (now : Z) (bucket key version_id : string)
    (pre : DeletePrecondition) : mact ArcaError (option ObjectRecord) :=
  map_cas_result "delete_object_version_if" (version_resource bucket key version_id)
    (atomically (delete_version_in_tx cluster_mode now bucket key version_id pre)).

(** One entry of the batch, under its own savepoint; its clock and version id. *)
Definition delete_entry (cluster_mode : bool) (bucket marker_owner : string)
    (e : BatchDeleteEntry * (Z * string)) (s : MetaStore) : MetaStore * outcome ArcaError (option ObjectRecord) :=
  let '(entry, (now, uuid)) := e in
  match bd_version_id entry with
  | Some version_id =>
      map_cas_result "delete_objects_if" (version_resource bucket (bd_key entry) version_id)
        (atomically (delete_version_in_tx cluster_mode now bucket (bd_key entry) version_id (bd_pre entry))) s
  | None =>
      map_cas_result "delete_objects_if" (object_resource bucket (bd_key entry))
        (atomically (delete_latest_in_tx cluster_mode now uuid bucket (bd_key entry) (bd_pre entry)
                       marker_owner)) s
  end.

Fixpoint delete_objects_if (cluster_mode : bool) (bucket marker_owner : string)
    (entries : list (BatchDeleteEntry * (Z * string))) (s : MetaStore)
  : MetaStore * list (outcome ArcaError (option ObjectRecord)) :=
  match entries with
  | [] => (s, [])
  | e :: entries' =>
      let '(s1, r) := delete_entry cluster_mode bucket marker_owner e s in
      let '(s2, rs) := delete_objects_if cluster_mode bucket marker_owner entries' s1 in
      (s2, r :: rs)
  end.

(** ** Replicated rows *)

Definition apply_remote_object (record : ObjectRecord) : mact ArcaError unit :=
  let bucket := o_bucket record in
  let key := o_key record in
  internal "apply_remote_object"
    (atomically
      (let! existing := gets (fun s => row_rec <$> query_row
           (fun x => at_key bucket key x /\ version_is (o_version_id record) x) (ms_objects s)) in
       let to_write := match existing with
                       | None => Some record
                       | Some ex => resolve_replicated record ex
                       end in
       let! _ := match to_write with
                 | Some row =>
                     let! _ := delete_objects
                       (fun x => at_key bucket key x /\ version_is (o_version_id record) x) in
                     insert_replicated_row row
                 | None => act_ret tt
                 end in
       recompute_is_latest bucket key)).

Definition apply_remote_version_delete (now : Z) (bucket key version_id : string) : mact ArcaError unit :=
  internal "apply_remote_version_delete"
    (atomically
      (let! seq := next_object_seq in
       let! _ := update_objects
         (fun x => at_key bucket key x /\ version_is (version_ref version_id) x /\ live x)
         (map_row_at seq (as_tombstone now)) in
       let! _ := delete_object_tags_where
         (fun t => tag_of_version bucket key (default EmptyString (version_ref version_id)) t) in
       recompute_is_latest bucket key)).

Definition apply_remote_bucket (info : BucketInfo) : mact ArcaError unit :=
  modify (fun s => with_buckets (<[b_name info := info]> (ms_buckets s)) s).

Definition apply_remote_multipart_upload (record : MultipartUploadRecord) : mact ArcaError unit :=
  modify (fun s =>
    match ms_uploads s !! mu_upload_id record with
    | Some _ => s
    | None => with_uploads (<[mu_upload_id record := record]> (ms_uploads s)) s
    end).

(** [as i64] of a [u64]. *)
Definition as_i64 (n : Z) : Z := if (n <? 2 ^ 63)%Z then n else (n - 2 ^ 64)%Z.

Definition list_rows_changed_since (since max : Z) (s : MetaStore) : list (Z * ObjectRecord) :=
  limit max
    ((fun x => (row_seq x, row_rec x))
       <$> sorted_by (cmp_on row_seq Z.compare)
             (rows_where (fun x => (as_i64 since < row_seq x)%Z) (ms_objects s))).

Definition purge_tombstones (before : Z) : mact ArcaError Z :=
  delete_objects (fun x => o_is_tombstone (row_rec x) = true /\ (o_last_modified (row_rec x) < before)%Z).

Definition current_object_seq (s : MetaStore) : Z := ms_object_seq s.

(** [COALESCE(MAX(seq), 0)] *)
Definition max_seq (m : gmap N ObjRow) : Z :=
  match (map_to_list m).*2 with
  | [] => 0
  | x :: xs => foldr (fun y acc => Z.max (row_seq y) acc) (row_seq x) xs
  end.

Definition seed_object_seq_to_max : mact ArcaError Z := fun s =>
  let v := Z.max (ms_object_seq s) (max_seq (ms_objects s)) in
  (with_object_seq v s, Ok v).

Definition list_referenced_blob_ids (s : MetaStore) : list string :=
  elements (list_to_set
    ((o_blob_id ∘ row_rec
        <$> rows_where (fun x => live x /\ o_blob_id (row_rec x) <> EmptyString) (ms_objects s))
     ++ ((fun e => pt_blob_id e.2) <$> map_to_list (ms_parts s))) : gset string).

Definition set_object_replication_status (bucket key : string) (version_id status : option string)
  : mact ArcaError unit :=
  let! _ := match version_id with
            | Some vid => update_objects (fun x => at_key bucket key x /\ version_is (Some vid) x)
                            (map_row (set_replication_status status))
            | None => update_objects (fun x => at_key bucket key x /\ version_is None x /\ latest x)
                        (map_row (set_replication_status status))
            end in
  act_ret tt.

(** ** Updates of one row *)

(** [WHERE bucket = ? AND key = ? AND version_id = ?] or [... AND is_latest = 1]. *)
Definition target (bucket key : string) (version_id : option string) (x : ObjRow) : Prop :=
  at_key bucket key x
  /\ match version_id with Some vid => version_is (Some vid) x | None => latest x end.

#[export] Instance target_dec bucket key version_id x : Decision (target bucket key version_id x).
Proof. unfold target. destruct version_id; apply _. Defined.

Definition update_target (bucket key : string) (version_id : option string)
    (f : ObjectRecord -> ObjectRecord) : mact ArcaError bool :=
  let! seq := next_object_seq in
  let! rows := update_objects (target bucket key version_id) (map_row_at seq f) in
  act_ret (0 <? rows)%Z.

Definition set_object_retention (now : Z) (bucket key : string) (version_id : option string)
    (retention_mode : option string) (retain_until_date : option Z) : mact ArcaError bool :=
  update_target bucket key version_id
    (fun r => set_lock retention_mode retain_until_date (o_legal_hold_status r) (Some now) r).

Definition set_object_legal_hold (now : Z) (bucket key : string) (version_id status : option string)
  : mact ArcaError bool :=
  update_target bucket key version_id
    (fun r => set_lock (o_retention_mode r) (o_retain_until_date r) status (Some now) r).

Definition update_object_encryption (now : Z) (bucket key : string)
    (version_id algorithm key_id : option string) : mact ArcaError bool :=
  update_target bucket key version_id
    (fun r => set_content (o_blob_id r) algorithm key_id (Some now) r).

Definition update_object_encryption_cas (now : Z) (bucket key : string) (version_id : option string)
    (old_blob_id new_blob_id : string) (algorithm key_id : option string) : mact ArcaError bool :=
  let! seq := next_object_seq in
  let! rows := update_objects
    (fun x => target bucket key version_id x /\ o_blob_id (row_rec x) = old_blob_id)
    (map_row_at seq (set_content new_blob_id algorithm key_id (Some now))) in
  act_ret (0 <? rows)%Z.

(** ** Buckets, bucket configuration, tags *)

Definition list_buckets (s : MetaStore) : list BucketInfo :=
  sorted_by (cmp_on b_name String.compare) (map_to_list (ms_buckets s)).*2.

Definition create_bucket_owned (now : Z) (name owner : string) : mact ArcaError unit := fun s =>
  match ms_buckets s !! name with
  | Some _ => (s, Err (S3 (S3Error_new BucketAlreadyOwnedByYou ("/" +:+ name))))
  | None =>
      (with_buckets (<[name := {| b_name := name; b_created_at := now; b_owner := owner |}]> (ms_buckets s)) s,
       Ok tt)
  end.

Definition head_bucket (name : string) (s : MetaStore) : option BucketInfo := ms_buckets s !! name.

Definition delete_bucket (name : string) : mact ArcaError bool := fun s =>
  (with_bucket_tags (filter (fun e => e.1.1 <> name) (ms_bucket_tags s))
    (with_object_tags (filter (fun e => e.1.1.1.1 <> name) (ms_object_tags s))
      (with_buckets (delete name (ms_buckets s)) s)),
   Ok (is_some (ms_buckets s !! name))).

Definition bucket_is_empty (name : string) (s : MetaStore) : bool :=
  negb (0 <? affected (fun x => o_bucket (row_rec x) = name) (ms_objects s))%Z.

Definition get_bucket_config (bucket config_key : string) (s : MetaStore) : option string :=
  fst <$> ms_bucket_config s !! (bucket, config_key).

Definition apply_bucket_config_at (bucket config_key config_value : string) (updated_at : Z)
  : mact ArcaError unit :=
  modify (fun s => with_bucket_config
    (<[(bucket, config_key) := (config_value, updated_at)]> (ms_bucket_config s)) s).

Definition set_bucket_config (now : Z) (bucket config_key config_value : string) : mact ArcaError unit :=
  modify (fun s => with_bucket_config
    (<[(bucket, config_key) := (config_value, now)]> (ms_bucket_config s)) s).

Definition delete_bucket_config (bucket config_key : string) : mact ArcaError bool := fun s =>
  (with_bucket_config (delete (bucket, config_key) (ms_bucket_config s)) s,
   Ok (is_some (ms_bucket_config s !! (bucket, config_key)))).

Definition insert_bucket_tag (bucket : string) (ts : Z) (tag : string * string) : mact DbError unit := fun s =>
  match ms_bucket_tags s !! (bucket, tag.1) with
  | Some _ => (s, Err UniqueViolation)
  | None => (with_bucket_tags (<[(bucket, tag.1) := (tag.2, ts)]> (ms_bucket_tags s)) s, Ok tt)
  end.

Definition replace_bucket_tags (bucket : string) (tags : list (string * string)) (ts : Z)
  : mact DbError unit :=
  let! _ := modify (fun s => with_bucket_tags (filter (fun e => e.1.1 <> bucket) (ms_bucket_tags s)) s) in
  act_for (insert_bucket_tag bucket ts) tags.

Definition apply_bucket_tags_at (bucket : string) (tags : list (string * string)) (updated_at : Z)
  : mact ArcaError unit :=
  internal "apply_bucket_tags_at" (atomically (replace_bucket_tags bucket tags updated_at)).

Definition put_bucket_tags (now : Z) (bucket : string) (tags : list (string * string))
  : mact ArcaError unit :=
  internal "put_bucket_tags" (atomically (replace_bucket_tags bucket tags now)).

Definition delete_bucket_tags (bucket : string) : mact ArcaError bool := fun s =>
  (with_bucket_tags (filter (fun e => e.1.1 <> bucket) (ms_bucket_tags s)) s,
   Ok (negb (bool_decide (filter (fun e => e.1.1 = bucket) (ms_bucket_tags s) = ∅)))).

Definition get_bucket_tags (bucket : string) (s : MetaStore) : list (string * string) :=
  sorted_by (cmp_on fst String.compare)
    ((fun e => (e.1.2, e.2.1))
       <$> map_to_list (filter (fun e => e.1.1 = bucket) (ms_bucket_tags s))).

Definition get_object_tags (bucket key version_id : string) (s : MetaStore) : list (string * string) :=
  sorted_by (cmp_on fst String.compare)
    ((fun e => (e.1.2, e.2))
       <$> map_to_list (filter (fun e => tag_of_version bucket key version_id e.1) (ms_object_tags s))).

Definition put_object_tags (bucket key version_id : string) (tags : list (string * string))
  : mact ArcaError unit :=
  internal "put_object_tags" (atomically (write_object_tags bucket key version_id tags)).

Definition delete_object_tags (bucket key version_id : string) : mact ArcaError bool :=
  let! n := delete_object_tags_where (fun t => tag_of_version bucket key version_id t) in
  act_ret (0 <? n)%Z.

(** ** Reads *)

Definition get_object (bucket key : string) (s : MetaStore) : option ObjectRecord :=
  without_parts ∘ row_rec
    <$> query_row (fun x => at_key bucket key x /\ latest x /\ not_marker x) (ms_objects s).

Definition get_latest_object (bucket key : string) (s : MetaStore) : option ObjectRecord :=
  without_parts ∘ row_rec <$> query_row (fun x => at_key bucket key x /\ latest x) (ms_objects s).

Definition get_object_version (bucket key version_id : string) (s : MetaStore) : option ObjectRecord :=
  without_parts ∘ row_rec
    <$> query_row (fun x => at_key bucket key x /\ version_is (version_ref version_id) x /\ live x)
          (ms_objects s).

Definition get_object_parts (bucket key : string) (version_id : option string) (s : MetaStore)
  : option (list ObjectPart) :=
  query_row (fun x => at_key bucket key x /\ version_is version_id x /\ live x) (ms_objects s)
    ≫= (fun x => o_parts (row_rec x)).

(** [TAG_COUNT_COLUMN] *)
Definition tag_count (r : ObjectRecord) (s : MetaStore) : nat :=
  size (filter (fun e : tag_id * string => tag_of_version (o_bucket r) (o_key r) (coalesce_version r) e.1)
          (ms_object_tags s)).

Definition get_object_with_tag_count (bucket key : string) (s : MetaStore) : option (ObjectRecord * nat) :=
  (fun r => (r, tag_count r s)) <$> get_object bucket key s.

Definition get_object_version_with_tag_count (bucket key version_id : string) (s : MetaStore)
  : option (ObjectRecord * nat) :=
  (fun r => (r, tag_count r s)) <$> get_object_version bucket key version_id s.

Definition get_stats (s : MetaStore) : StorageStats :=
  let current := rows_where (fun x => latest x /\ not_marker x) (ms_objects s) in
  {| bucket_count := Z.of_nat (size (ms_buckets s));
     object_count := Z.of_nat (length current);
     total_size_bytes := foldr (fun x acc => (o_size (row_rec x) + acc)%Z) 0%Z current |}.

(** ** Listings *)

(** An optional condition of a dynamic [WHERE] clause. *)
Definition if_given {A : Type} (o : option A) (P : A -> bool) : bool :=
  match o with Some a => P a | None => true end.

Definition list_objects (bucket : string) (prefix start_after : option string) (max_keys : Z)
    (s : MetaStore) : list ObjectRecord :=
  limit max_keys
    (sorted_by (cmp_on o_key String.compare)
      (without_parts ∘ row_rec
        <$> rows_where (fun x => o_bucket (row_rec x) = bucket /\ latest x /\ not_marker x
              /\ if_given prefix (fun p => in_prefix_range p (o_key (row_rec x))) = true
              /\ if_given start_after (fun sa => String.ltb sa (o_key (row_rec x))) = true)
            (ms_objects s))).

(** [ORDER BY key ASC, last_modified DESC, COALESCE(version_id, '') DESC] *)
Definition version_order : ObjectRecord -> ObjectRecord -> comparison :=
  cmp_then (cmp_on o_key String.compare)
    (cmp_then (cmp_on o_last_modified (cmp_desc Z.compare))
              (cmp_on coalesce_version (cmp_desc String.compare))).

Record VersionPosition : Type := {
  vp_last_modified : Z;
  vp_version_id : string;
}.

(** [VersionPosition::key_start] and [VersionPosition::of]. *)
Definition key_start : VersionPosition :=
  {| vp_last_modified := 253402300799 * 1000000000; vp_version_id := EmptyString |}.

Definition position_of (r : ObjectRecord) : VersionPosition :=
  {| vp_last_modified := o_last_modified r; vp_version_id := coalesce_version r |}.

(** [key > ?k OR (key = ?k AND (last_modified < ?l OR (last_modified = ?l AND
    COALESCE(version_id, '') < ?v)))] *)
Definition after_position (k : string) (p : VersionPosition) (r : ObjectRecord) : bool :=
  String.ltb k (o_key r)
  || (bool_decide (o_key r = k)
      && ((o_last_modified r <? vp_last_modified p)%Z
          || ((o_last_modified r =? vp_last_modified p)%Z
              && String.ltb (coalesce_version r) (vp_version_id p)))).

Definition list_object_versions_from (bucket : string) (prefix key_marker : option string)
    (after : option VersionPosition) (max_keys : Z) (s : MetaStore) : list ObjectRecord :=
  let key_marker := key_marker ≫= (fun km => if bool_decide (km = EmptyString) then None else Some km) in
  limit max_keys
    (sorted_by version_order
      (without_parts ∘ row_rec
        <$> rows_where (fun x => o_bucket (row_rec x) = bucket /\ live x
              /\ if_given prefix (fun p => in_prefix_range p (o_key (row_rec x))) = true
              /\ if_given key_marker (fun k =>
                   match after with
                   | Some p => after_position k p (row_rec x)
                   | None => String.ltb k (o_key (row_rec x))
                   end) = true)
            (ms_objects s))).

(** [EXISTS (SELECT 1 FROM object_tags WHERE ...)], one per tag of the rule. *)
Definition has_tags (tags : list (string * string)) (r : ObjectRecord) (s : MetaStore) : bool :=
  forallb (fun t => bool_decide
    (ms_object_tags s !! (o_bucket r, o_key r, coalesce_version r, t.1) = Some t.2)) tags.

Definition list_expired_objects (bucket : string) (prefix : option string) (tags : list (string * string))
    (cutoff : Z) (start_after : option string) (max_keys : Z) (s : MetaStore) : list ObjectRecord :=
  limit max_keys
    (sorted_by (cmp_on o_key String.compare)
      (without_parts ∘ row_rec
        <$> rows_where (fun x => o_bucket (row_rec x) = bucket /\ latest x /\ not_marker x
              /\ (o_last_modified (row_rec x) < cutoff)%Z
              /\ if_given prefix (fun p => in_prefix_range p (o_key (row_rec x))) = true
              /\ if_given start_after (fun sa => String.ltb sa (o_key (row_rec x))) = true
              /\ has_tags tags (row_rec x) s = true)
            (ms_objects s))).

Record NoncurrentExpiry : Type := {
  ne_prefix : option string;
  ne_tags : list (string * string);
  ne_cutoff : Z;
  ne_keep_newer : Z;
}.

(** The two windows of the inner query, over the rows in version order:
    [LAG(last_modified)] in the partition of the key, and [ROW_NUMBER()] in
    the partition of the key, [is_latest] and [is_delete_marker]. *)
Fixpoint windows (seen rows : list ObjectRecord) : list (ObjectRecord * option Z * Z) :=
  match rows with
  | [] => []
  | r :: rows' =>
      (r, o_last_modified <$> last (filter (fun q => o_key q = o_key r) seen),
       (1 + Z.of_nat (length (filter (fun q => o_key q = o_key r /\ o_is_latest q = o_is_latest r
              /\ o_is_delete_marker q = o_is_delete_marker r) seen)))%Z)
      :: windows (seen ++ [r]) rows'
  end.

Definition list_noncurrent_expired_versions (bucket : string) (rule : NoncurrentExpiry)
    (after : option (string * VersionPosition)) (max_keys : Z) (s : MetaStore) : list ObjectRecord :=
  let inner := sorted_by version_order
    (row_rec <$> rows_where (fun x => o_bucket (row_rec x) = bucket /\ live x
        /\ if_given (ne_prefix rule) (fun p => in_prefix_range p (o_key (row_rec x))) = true
        /\ if_given after (fun a => negb (String.ltb (o_key (row_rec x)) a.1)) = true)
      (ms_objects s)) in
  limit max_keys
    (without_parts ∘ fst ∘ fst
      <$> filter (fun w => o_is_latest w.1.1 = false /\ o_is_delete_marker w.1.1 = false
            /\ from_option (fun since => (since <? ne_cutoff rule)%Z) false w.1.2 = true
            /\ (ne_keep_newer rule < w.2)%Z
            /\ if_given after (fun a => after_position a.1 a.2 w.1.1) = true
            /\ has_tags (ne_tags rule) w.1.1 s = true)
          (windows [] inner)).

(** ** Multipart uploads *)

Definition create_multipart_upload (record : MultipartUploadRecord) : mact ArcaError unit := fun s =>
  match ms_uploads s !! mu_upload_id record with
  | Some _ => (s, Err (Internal "create_multipart_upload"))
  | None => (with_uploads (<[mu_upload_id record := record]> (ms_uploads s)) s, Ok tt)
  end.

Definition get_multipart_upload (upload_id : string) (s : MetaStore) : option MultipartUploadRecord :=
  ms_uploads s !! upload_id.

Definition put_part (part : PartRecord) : mact ArcaError (option PartRecord) := fun s =>
  let id := (pt_upload_id part, pt_part_number part) in
  (with_parts (<[id := part]> (ms_parts s)) s, Ok (ms_parts s !! id)).

Definition upload_parts (upload_id : string) (s : MetaStore) : list PartRecord :=
  (map_to_list (filter (fun e => e.1.1 = upload_id) (ms_parts s))).*2.

Definition list_parts (upload_id : string) (s : MetaStore) : list PartRecord :=
  sorted_by (cmp_on pt_part_number Z.compare) (upload_parts upload_id s).

Definition take_upload {E : Type} (upload_id : string) : mact E (list PartRecord) := fun s =>
  (with_parts (filter (fun e => e.1.1 <> upload_id) (ms_parts s))
    (with_uploads (delete upload_id (ms_uploads s)) s),
   Ok (upload_parts upload_id s)).

Record CompletedUpload : Type := {
  cu_old : option ObjectRecord;
  cu_version_id : option string;
  cu_parts : list PartRecord;
}.

Definition complete_multipart_object_tagged (uuid upload_id : string) (record : ObjectRecord)
    (pre : WritePrecondition) (tags : list (string * string)) : mact ArcaError CompletedUpload :=
  map_cas_result "complete_multipart_object" (object_resource (o_bucket record) (o_key record))
    (atomically
      (let! upload := gets (get_multipart_upload upload_id) in
       let! _ := match upload with
                 | Some _ => act_ret tt
                 | None => act_fail (Precondition NoSuchUpload)
                 end in
       let! installed := install_object uuid record pre in
       let record := installed.1 in
       let! _ := when (negb (bool_decide (tags = [])))
                   (map_err Db (write_object_tags (o_bucket record) (o_key record)
                                  (coalesce_version record) tags)) in
       let! parts := take_upload upload_id in
       act_ret {| cu_old := installed.2; cu_version_id := o_version_id record; cu_parts := parts |})).

Definition complete_multipart_object (uuid upload_id : string) (record : ObjectRecord)
    (pre : WritePrecondition) : mact ArcaError CompletedUpload :=
  complete_multipart_object_tagged uuid upload_id record pre [].

Definition delete_multipart_upload (upload_id : string) : mact ArcaError (list PartRecord) :=
  take_upload upload_id.

(** [ORDER BY key, upload_id] *)
Definition upload_order : MultipartUploadRecord -> MultipartUploadRecord -> comparison :=
  cmp_then (cmp_on mu_key String.compare) (cmp_on mu_upload_id String.compare).

Definition after_upload (k u : string) (r : MultipartUploadRecord) : bool :=
  String.ltb k (mu_key r) || (bool_decide (mu_key r = k) && String.ltb u (mu_upload_id r)).

Definition list_multipart_uploads (bucket : string) (prefix key_marker upload_id_marker : option string)
    (max_uploads : Z) (s : MetaStore) : list MultipartUploadRecord :=
  let after_key km r :=
    if bool_decide (km = EmptyString) then true else String.ltb km (mu_key r) in
  limit max_uploads
    (sorted_by upload_order
      (filter (fun r => mu_bucket r = bucket
         /\ if_given prefix (fun p => in_prefix_range p (mu_key r)) = true
         /\ if_given key_marker (fun km =>
              match upload_id_marker with
              | Some uim => if bool_decide (uim = EmptyString) then after_key km r else after_upload km uim r
              | None => after_key km r
              end) = true)
        (map_to_list (ms_uploads s)).*2)).

Definition list_stale_multipart_uploads (bucket : string) (prefix : option string) (cutoff : Z)
    (after : option (string * string)) (max_uploads : Z) (s : MetaStore) : list MultipartUploadRecord :=
  limit max_uploads
    (sorted_by upload_order
      (filter (fun r => mu_bucket r = bucket /\ (mu_initiated_at r < cutoff)%Z
         /\ if_given prefix (fun p => in_prefix_range p (mu_key r)) = true
         /\ if_given after (fun a => after_upload a.1 a.2 r) = true)
        (map_to_list (ms_uploads s)).*2)).
