(* ===== verification/MetadataRows.v ===== *)
(** What the operations of the metadata store do to the table [objects].

    The writes and deletes of [MetadataStore] run a sequence of statements in
    a transaction.  Here each of them is shown to compute a pure function of
    the table ([installed_rows], [deleted_rows], [version_deleted_rows],
    [replicated_rows]); in particular the [INSERT]s never hit the unique index
    of the latest row, so these operations never fail with a database error. *)

From S2P Require Import Prelude S3Errors Policy Types SqlTable Text Preconditions MetadataStore.

(** ** Row functions *)

Definition unlatest (bucket key : string) (m : gmap N ObjRow) : gmap N ObjRow :=
  update_where (fun x => at_key bucket key x /\ latest x) (map_row (set_latest false)) m.

Definition recompute (bucket key : string) (m : gmap N ObjRow) : gmap N ObjRow :=
  let m1 := unlatest bucket key m in
  match winner bucket key m1 with
  | Some i => alter (map_row (set_latest true)) i m1
  | None => m1
  end.

Lemma recompute_is_latest_eq {E} bucket key s :
  recompute_is_latest (E:=E) bucket key s = (with_objects (recompute bucket key (ms_objects s)) s, Ok tt).
Proof.
  unfold recompute_is_latest, act_bind, update_objects, modify, recompute, unlatest.
  destruct s as [bu ob sq bc bt ot up pa]; cbn [ms_objects with_objects].
  by destruct (winner _ _ _).
Qed.

Definition installed_rows (v : VersioningState) (uuid : string) (seq : Z) (r : ObjectRecord)
    (m : gmap N ObjRow) : gmap N ObjRow :=
  let b := o_bucket r in
  let k := o_key r in
  match v with
  | Unversioned =>
      let m1 := insert_row (MkRow (inserted_columns (as_current None r)) seq)
                  (delete_where (fun x => at_key b k x) m) in
      if o_is_tombstone r then recompute b k m1 else m1
  | Enabled =>
      recompute b k (insert_row (MkRow (inserted_columns (as_current (Some uuid) r)) seq) (unlatest b k m))
  | Suspended =>
      recompute b k (insert_row (MkRow (inserted_columns (as_current None r)) seq)
        (unlatest b k (delete_where (fun x => at_key b k x /\ version_is None x) m)))
  end.

Definition deleted_rows (v : VersioningState) (cluster_mode : bool) (now : Z) (uuid : string) (seq : Z)
    (b k owner : string) (m : gmap N ObjRow) : gmap N ObjRow :=
  match v with
  | Unversioned =>
      if is_some (query_row (fun x => at_key b k x /\ latest x) m) then
        if cluster_mode
        then recompute b k (update_where (fun x => at_key b k x) (map_row_at seq (as_tombstone now)) m)
        else delete_where (fun x => at_key b k x) m
      else m
  | Enabled => insert_row (MkRow (delete_marker b k owner (Some uuid) now) seq) (unlatest b k m)
  | Suspended =>
      insert_row (MkRow (delete_marker b k owner None now) seq)
        (unlatest b k (delete_where (fun x => at_key b k x /\ version_is None x) m))
  end.

Definition version_deleted_rows (cluster_mode : bool) (now seq : Z) (b k : string) (v : option string)
    (m : gmap N ObjRow) : gmap N ObjRow :=
  recompute b k
    (if cluster_mode
     then update_where (fun x => at_key b k x /\ version_is v x) (map_row_at seq (as_tombstone now)) m
     else delete_where (fun x => at_key b k x /\ version_is v x) m).

Definition replicated_rows (seq : Z) (r : ObjectRecord) (m : gmap N ObjRow) : gmap N ObjRow :=
  let b := o_bucket r in
  let k := o_key r in
  let v := o_version_id r in
  recompute b k
    (match (match query_row (fun x => at_key b k x /\ version_is v x) m with
            | None => Some r
            | Some ex => resolve_replicated r (row_rec ex)
            end) with
     | Some row => insert_row (MkRow (set_latest false row) seq)
                     (delete_where (fun x => at_key b k x /\ version_is v x) m)
     | None => m
     end).

(** ** Fields of updated rows *)

Lemma fields_set_latest b r :
  o_bucket (set_latest b r) = o_bucket r /\ o_key (set_latest b r) = o_key r /\
  o_version_id (set_latest b r) = o_version_id r /\ o_is_latest (set_latest b r) = b /\
  o_is_tombstone (set_latest b r) = o_is_tombstone r /\
  o_last_modified (set_latest b r) = o_last_modified r /\ o_blob_id (set_latest b r) = o_blob_id r /\
  o_is_delete_marker (set_latest b r) = o_is_delete_marker r.
Proof. by destruct r. Qed.

Lemma fields_as_current v r :
  o_bucket (inserted_columns (as_current v r)) = o_bucket r /\
  o_key (inserted_columns (as_current v r)) = o_key r /\
  o_version_id (inserted_columns (as_current v r)) = v /\
  o_is_latest (inserted_columns (as_current v r)) = true /\
  o_is_tombstone (inserted_columns (as_current v r)) = o_is_tombstone r /\
  o_is_delete_marker (inserted_columns (as_current v r)) = false /\
  o_last_modified (inserted_columns (as_current v r)) = o_last_modified r.
Proof. by destruct r. Qed.

Lemma fields_as_tombstone now r :
  o_bucket (as_tombstone now r) = o_bucket r /\ o_key (as_tombstone now r) = o_key r /\
  o_version_id (as_tombstone now r) = o_version_id r /\
  o_is_latest (as_tombstone now r) = o_is_latest r /\ o_is_tombstone (as_tombstone now r) = true.
Proof. by destruct r. Qed.

(** ** The statements never fail *)

(** No latest row at the key. *)
Definition no_latest (b k : string) (m : gmap N ObjRow) : Prop :=
  forall i x, m !! i = Some x -> at_key b k x -> o_is_latest (row_rec x) = false.

Lemma unlatest_no_latest b k m : no_latest b k (unlatest b k m).
Proof.
  intros i x Hi Hk. unfold unlatest in Hi. rewrite lookup_update_where in Hi.
  destruct (m !! i) as [y|]; [|done]. injection Hi as <-. case_decide as Hd; simpl in *.
  - by destruct (row_rec y).
  - destruct (o_is_latest (row_rec y)) eqn:E; [|done]. by destruct Hd.
Qed.

Lemma delete_key_no_latest b k m : no_latest b k (delete_where (fun x => at_key b k x) m).
Proof. intros i x [_ Hx]%lookup_delete_where Hk. done. Qed.

Lemma insert_object_ok x s :
  no_latest (o_bucket (row_rec x)) (o_key (row_rec x)) (ms_objects s) ->
  insert_object x s = (with_objects (insert_row x (ms_objects s)) s, Ok tt).
Proof.
  intros Hn. unfold insert_object. destruct (0 <? affected _ _)%Z eqn:E; [|by rewrite andb_false_r].
  apply affected_pos in E as (i & y & Hi & Hk & Hl). by rewrite (Hn i y) in Hl.
Qed.

Lemma insert_not_latest_ok x s :
  o_is_latest (row_rec x) = false ->
  insert_object x s = (with_objects (insert_row x (ms_objects s)) s, Ok tt).
Proof. intros Hl. unfold insert_object. by rewrite Hl. Qed.

(** ** The operations as functions of the table *)

(** The version id a write gets. *)
Definition new_version (v : VersioningState) (uuid : string) : option string :=
  match v with Enabled => Some uuid | _ => None end.

(** The object a write returns for the cleanup of its blob. *)
Definition overwritten (v : VersioningState) (bucket key : string) (s : MetaStore) : option ObjectRecord :=
  match v with
  | Unversioned => get_latest_object bucket key s
  | Enabled => None
  | Suspended => fetch_null_version bucket key s
  end.

(** [s'] has the given object rows and sequence number; the other tables but
    the object tags are those of [s]. *)
Definition objects_become (s : MetaStore) (m : gmap N ObjRow) (seq : Z) (s' : MetaStore) : Prop :=
  s' = with_object_tags (ms_object_tags s') (with_object_seq seq (with_objects m s)).

Lemma act_bind_run {S E A B : Type} (m : act S E A) (k : A -> act S E B) s s1 a :
  m s = (s1, Ok a) -> act_bind m k s = k a s1.
Proof. unfold act_bind. by intros ->. Qed.

Lemma insert_object_row_ok r s :
  no_latest (o_bucket r) (o_key r) (ms_objects s) ->
  insert_object_row r s =
  (with_object_seq (ms_object_seq s + 1)
     (with_objects (insert_row (MkRow (inserted_columns r) (ms_object_seq s + 1)) (ms_objects s)) s), Ok tt).
Proof.
  intros Hn. unfold insert_object_row. erewrite act_bind_run by reflexivity.
  rewrite insert_object_ok; destruct s, r; done.
Qed.

Lemma insert_replicated_row_ok r s :
  insert_replicated_row r s =
  (with_object_seq (ms_object_seq s + 1)
     (with_objects (insert_row (MkRow (set_latest false r) (ms_object_seq s + 1)) (ms_objects s)) s), Ok tt).
Proof.
  unfold insert_replicated_row. erewrite act_bind_run by reflexivity.
  rewrite insert_not_latest_ok; destruct s, r; done.
Qed.

Lemma insert_marker_ok bucket key owner vid now s :
  no_latest bucket key (ms_objects s) ->
  insert_marker bucket key owner vid now s =
  (with_object_seq (ms_object_seq s + 1)
     (with_objects (insert_row (MkRow (delete_marker bucket key owner vid now) (ms_object_seq s + 1))
        (ms_objects s)) s), Ok tt).
Proof.
  intros Hn. unfold insert_marker. erewrite act_bind_run by reflexivity.
  rewrite insert_object_ok; destruct s; done.
Qed.

Lemma as_current_no_latest v r m :
  no_latest (o_bucket r) (o_key r) m ->
  no_latest (o_bucket (as_current v r)) (o_key (as_current v r)) m.
Proof. by destruct r. Qed.

Create HintDb rows.
#[local] Hint Resolve unlatest_no_latest delete_key_no_latest as_current_no_latest : rows.

Lemma map_err_run {S E E' A : Type} (f : E -> E') (m : act S E A) s s' a :
  m s = (s', Ok a) -> map_err f m s = (s', Ok a).
Proof. unfold map_err. by intros ->. Qed.

Lemma when_recompute {E} c bucket key s :
  when (E:=E) c (recompute_is_latest bucket key) s =
  (with_objects (if c then recompute bucket key (ms_objects s) else ms_objects s) s, Ok tt).
Proof. destruct c; [apply recompute_is_latest_eq|by destruct s]. Qed.

(** Runs the statement at the head of an operation. *)
Ltac run_stmt :=
  erewrite act_bind_run;
    [|lazymatch goal with
      | |- recompute_is_latest _ _ _ = _ => apply recompute_is_latest_eq
      | |- when _ (recompute_is_latest _ _) _ = _ => apply when_recompute
      | |- insert_object_row _ _ = _ => apply insert_object_row_ok; cbn [ms_objects]; by eauto with rows
      | |- insert_replicated_row _ _ = _ => apply insert_replicated_row_ok
      | |- insert_marker _ _ _ _ _ _ = _ => apply insert_marker_ok; cbn [ms_objects]; by eauto with rows
      | |- _ => reflexivity
      end];
  cbv beta zeta;
  cbn [ms_buckets ms_objects ms_object_seq ms_bucket_config ms_bucket_tags ms_object_tags ms_uploads
       ms_parts with_objects with_object_seq with_object_tags].

Lemma install_object_err uuid r pre s c :
  write_evaluate pre (get_object (o_bucket r) (o_key r) s) = Err c ->
  install_object uuid r pre s = (s, Err (Precondition c)).
Proof.
  intros H. unfold install_object. change fetch_current_object with get_object.
  unfold act_bind at 1. cbn [gets]. unfold act_bind at 1. rewrite H.
  destruct (w_is_empty pre) eqn:E; [|done].
  by rewrite (write_evaluate_empty _ _ E) in H.
Qed.

Lemma install_object_ok uuid r pre s v :
  get_versioning_state (o_bucket r) s = v ->
  write_evaluate pre (get_object (o_bucket r) (o_key r) s) = Ok tt ->
  exists s',
    install_object uuid r pre s =
    (s', Ok (as_current (new_version v uuid) r, overwritten v (o_bucket r) (o_key r) s)) /\
    objects_become s (installed_rows v uuid (ms_object_seq s + 1) r (ms_objects s)) (ms_object_seq s + 1) s'.
Proof.
  intros Hv H. unfold install_object. change fetch_current_object with get_object.
  unfold act_bind at 1. cbn [gets]. unfold act_bind at 1. rewrite H.
  replace (if w_is_empty pre then _ else _) with (Ok tt : outcome CasError unit)
    by (by destruct (w_is_empty pre)).
  unfold act_bind at 1. cbn [gets]. rewrite Hv. clear Hv H.
  destruct s as [bu ob sq bc bt ot up pa], v; eexists; (split; [apply map_err_run|]).
  - do 5 run_stmt. reflexivity.
  - unfold objects_become. destruct r. reflexivity.
  - do 3 run_stmt. reflexivity.
  - reflexivity.
  - do 6 run_stmt. reflexivity.
  - reflexivity.
Qed.

Lemma evaluate_delete_eq pre cur s :
  evaluate_delete pre cur s =
  (s, match delete_evaluate pre cur with
      | Ok _ => Ok tt
      | Err code => Err (Precondition code)
      | Panic => Panic
      end).
Proof.
  unfold evaluate_delete. destruct (d_is_empty pre) eqn:E; [|done].
  by rewrite (delete_evaluate_empty _ _ E).
Qed.

Lemma delete_latest_err cluster_mode now uuid b k pre owner s c :
  delete_evaluate pre (get_latest_object b k s) = Err c ->
  delete_latest_in_tx cluster_mode now uuid b k pre owner s = (s, Err (Precondition c)).
Proof.
  intros H. unfold delete_latest_in_tx. change fetch_latest_object with get_latest_object.
  run_stmt. unfold act_bind. by rewrite evaluate_delete_eq, H.
Qed.

(** The sequence number after a delete. *)
Definition deleted_seq (v : VersioningState) (cluster_mode : bool) (b k : string) (s : MetaStore) : Z :=
  match v with
  | Unversioned =>
      if is_some (get_latest_object b k s) && cluster_mode then ms_object_seq s + 1 else ms_object_seq s
  | _ => ms_object_seq s + 1
  end.

(** The record a delete returns. *)
Definition delete_result (v : VersioningState) (now : Z) (uuid b k owner : string) (s : MetaStore)
  : option ObjectRecord :=
  match v with
  | Unversioned => get_latest_object b k s
  | Enabled => Some (delete_marker b k owner (Some uuid) now)
  | Suspended => fetch_null_version b k s
  end.

Lemma delete_latest_ok cluster_mode now uuid b k pre owner s v :
  get_versioning_state b s = v ->
  delete_evaluate pre (get_latest_object b k s) = Ok tt ->
  exists s',
    delete_latest_in_tx cluster_mode now uuid b k pre owner s =
    (s', Ok (delete_result v now uuid b k owner s)) /\
    objects_become s (deleted_rows v cluster_mode now uuid (ms_object_seq s + 1) b k owner (ms_objects s))
      (deleted_seq v cluster_mode b k s) s'.
Proof.
  intros Hv H. unfold delete_latest_in_tx. change fetch_latest_object with get_latest_object.
  run_stmt. erewrite act_bind_run; [|rewrite evaluate_delete_eq, H; reflexivity].
  run_stmt. rewrite Hv. clear Hv H.
  unfold deleted_seq, deleted_rows, delete_result.
  replace (is_some (query_row _ (ms_objects s))) with (is_some (get_latest_object b k s))
    by (unfold get_latest_object; by destruct (query_row _ _)).
  destruct s as [bu ob sq bc bt ot up pa], v; [destruct (is_some (get_latest_object _ _ _)) eqn:E;
    [destruct cluster_mode|]|..]; eexists; (split; [apply map_err_run|]).
  - run_stmt. rewrite E. erewrite act_bind_run; [reflexivity|].
    unfold when. do 2 run_stmt. apply recompute_is_latest_eq.
  - reflexivity.
  - run_stmt. rewrite E. reflexivity.
  - reflexivity.
  - run_stmt. rewrite E. reflexivity.
  - reflexivity.
  - do 2 run_stmt. reflexivity.
  - reflexivity.
  - do 5 run_stmt. reflexivity.
  - reflexivity.
Qed.

(** The precondition of a version delete: not evaluated on a delete marker. *)
Definition version_delete_check (pre : DeletePrecondition) (deleted : option ObjectRecord)
  : outcome S3ErrorCode unit :=
  if from_option o_is_delete_marker false deleted then Ok tt else delete_evaluate pre deleted.

(** The state after a version delete that goes ahead. *)
Definition version_deleted (cluster_mode : bool) (now : Z) (b k : string) (v : option string)
    (s : MetaStore) : MetaStore :=
  with_object_tags (filter (fun e => ~ tag_of_version b k (default EmptyString v) e.1) (ms_object_tags s))
    (with_object_seq (if cluster_mode then ms_object_seq s + 1 else ms_object_seq s)
      (with_objects (version_deleted_rows cluster_mode now (ms_object_seq s + 1) b k v (ms_objects s)) s)).

Lemma delete_version_eq cluster_mode now b k version_id pre s deleted :
  get_object_version b k version_id s = deleted ->
  delete_version_in_tx cluster_mode now b k version_id pre s =
  match version_delete_check pre deleted with
  | Ok _ => (if is_some deleted then version_deleted cluster_mode now b k (version_ref version_id) s else s,
             Ok deleted)
  | Err c => (s, Err (Precondition c))
  | Panic => (s, Panic)
  end.
Proof.
  intros <-. unfold delete_version_in_tx. change fetch_version with get_object_version.
  run_stmt. destruct (get_object_version b k version_id s) as [rec|]; unfold version_delete_check;
    cbn [from_option is_some when].
  - destruct (o_is_delete_marker rec); unfold act_bind at 1;
      [|rewrite evaluate_delete_eq; destruct (delete_evaluate pre _) as [[]| |]; [|done..]];
      cbv [act_ret]; (erewrite act_bind_run; [reflexivity|]); destruct s, cluster_mode;
      do 2 run_stmt; apply recompute_is_latest_eq.
  - unfold act_bind at 1. rewrite evaluate_delete_eq.
    by destruct (delete_evaluate pre _) as [[]| |].
Qed.

Lemma apply_remote_object_eq r s :
  apply_remote_object r s =
  (with_object_seq
     (match (match query_row (fun x => at_key (o_bucket r) (o_key r) x /\ version_is (o_version_id r) x)
                     (ms_objects s) with
             | None => Some r
             | Some ex => resolve_replicated r (row_rec ex)
             end) with Some _ => ms_object_seq s + 1 | None => ms_object_seq s end)
     (with_objects (replicated_rows (ms_object_seq s + 1) r (ms_objects s)) s), Ok tt).
Proof.
  unfold apply_remote_object, internal, atomically, map_err. run_stmt. unfold replicated_rows.
  destruct s as [bu ob sq bc bt ot up pa]. cbn [ms_objects].
  destruct (query_row _ ob) as [ex|]; cbn [fmap option_fmap option_map].
  - destruct (resolve_replicated r (row_rec ex)) as [row|].
    + erewrite act_bind_run; [|run_stmt; rewrite insert_replicated_row_ok; reflexivity].
      by rewrite recompute_is_latest_eq.
    + run_stmt. by rewrite recompute_is_latest_eq.
  - erewrite act_bind_run; [|run_stmt; rewrite insert_replicated_row_ok; reflexivity].
    by rewrite recompute_is_latest_eq.
Qed.

Lemma apply_remote_version_delete_eq now b k version_id s :
  apply_remote_version_delete now b k version_id s =
  (with_object_tags (filter (fun e => ~ tag_of_version b k (default EmptyString (version_ref version_id)) e.1)
     (ms_object_tags s))
    (with_object_seq (ms_object_seq s + 1)
      (with_objects (recompute b k
         (update_where (fun x => at_key b k x /\ version_is (version_ref version_id) x /\ live x)
            (map_row_at (ms_object_seq s + 1) (as_tombstone now)) (ms_objects s))) s)), Ok tt).
Proof.
  unfold apply_remote_version_delete, internal, atomically, map_err. destruct s.
  do 3 run_stmt. by rewrite recompute_is_latest_eq.
Qed.
