(* ===== verification/MetadataInvariant.v ===== *)
(** The invariant of the metadata store.

    The schema alone allows duplicate versions of a key (the table [objects]
    has no primary key) and keys without a latest row.  The operations keep a
    stronger invariant: a version of a key has one row; a key has exactly one
    latest row when it has a row that is not a tombstone and none otherwise;
    the latest row is never a tombstone; every row's sequence number is at
    most the counter; and the keyed tables hold their rows under their key. *)

From S2P Require Import Prelude S3Errors Policy Types SqlTable Text Preconditions MetadataStore MetadataRows.

#[export] Instance newest_first_order : CmpOrder newest_first.
Proof. unfold newest_first. apply _. Qed.

(** ** Per-key conditions *)

Section key.
Variables (b k : string).
Implicit Types (m : gmap N ObjRow) (i j : N) (x y : ObjRow).

Definition unique_at m : Prop :=
  forall i j x y, m !! i = Some x -> m !! j = Some y -> at_key b k x -> at_key b k y ->
    o_version_id (row_rec x) = o_version_id (row_rec y) -> i = j.

Definition one_latest m : Prop :=
  forall i j x y, m !! i = Some x -> m !! j = Some y -> at_key b k x -> at_key b k y ->
    latest x -> latest y -> i = j.

Definition latest_live m : Prop :=
  forall i x, m !! i = Some x -> at_key b k x -> latest x -> live x.

Definition live_has_latest m : Prop :=
  forall i x, m !! i = Some x -> at_key b k x -> live x ->
    exists j y, m !! j = Some y /\ at_key b k y /\ latest y.

Definition latest_ok m : Prop := one_latest m /\ latest_live m /\ live_has_latest m.

(** Only rows of the key change. *)
Definition frame m m' : Prop :=
  forall i x, ~ at_key b k x -> (m !! i = Some x <-> m' !! i = Some x).

Lemma frame_refl m : frame m m.
Proof. done. Qed.

Lemma frame_trans m1 m2 m3 : frame m1 m2 -> frame m2 m3 -> frame m1 m3.
Proof. intros H1 H2 i x Hx. rewrite (H1 i x Hx). by apply H2. Qed.

(** A function on rows that keeps the key and the version. *)
Definition keeps_id (f : ObjRow -> ObjRow) : Prop :=
  forall x, o_bucket (row_rec (f x)) = o_bucket (row_rec x) /\
    o_key (row_rec (f x)) = o_key (row_rec x) /\
    o_version_id (row_rec (f x)) = o_version_id (row_rec x).

Section update.
Context (P : ObjRow -> Prop) `{Pdec : !forall x, Decision (P x)} (f : ObjRow -> ObjRow).
Hypothesis Hf : keeps_id f.

Lemma update_origin m i x :
  update_where P f m !! i = Some x ->
  exists y, m !! i = Some y /\ (P y /\ x = f y \/ ~ P y /\ x = y).
Proof.
  rewrite lookup_update_where. destruct (m !! i) as [y|]; [|done].
  intros [= <-]. exists y. split; [done|]. case_decide; auto.
Qed.

Lemma frame_update m : (forall x, P x -> at_key b k x) -> frame m (update_where P f m).
Proof.
  intros HP i x Hx. rewrite lookup_update_where. split.
  - intros ->. simpl. rewrite decide_False; [done|]. intros H. by apply Hx, HP.
  - destruct (m !! i) as [y|]; simpl; [|done]. case_decide as Hy; intros [= <-]; [|done].
    destruct (Hf y) as (E1 & E2 & _). rewrite E1, E2 in Hx. by destruct (Hx (HP y Hy)).
Qed.

Lemma unique_update m : unique_at m -> unique_at (update_where P f m).
Proof.
  intros Hu i j x y Hi Hj. 
  apply update_origin in Hi as (x0 & Hi & Hx), Hj as (y0 & Hj & Hy).
  destruct (Hf x0) as (Hx1 & Hx2 & Hx3), (Hf y0) as (Hy1 & Hy2 & Hy3).
  destruct Hx as [[_ ->]|[_ ->]], Hy as [[_ ->]|[_ ->]];
    rewrite ?Hx1, ?Hx2, ?Hx3, ?Hy1, ?Hy2, ?Hy3; by apply Hu.
Qed.
End update.

Lemma frame_delete (P : ObjRow -> Prop) `{!forall x, Decision (P x)} m :
  (forall x, P x -> at_key b k x) -> frame m (delete_where P m).
Proof.
  intros HP i x Hx. rewrite lookup_delete_where. split; [|by intros []].
  intros Hi. split; [done|]. intros H1. by apply Hx, HP.
Qed.

Lemma unique_delete (P : ObjRow -> Prop) `{!forall x, Decision (P x)} m :
  unique_at m -> unique_at (delete_where P m).
Proof. intros Hu i j x y [Hi _]%lookup_delete_where [Hj _]%lookup_delete_where. by apply Hu. Qed.

Lemma frame_insert x m : at_key b k x -> frame m (insert_row x m).
Proof.
  intros Hk i y Hy. rewrite lookup_insert_row. split.
  - intros Hi. right. split; [|done]. intros ->. by rewrite insert_row_fresh in Hi.
  - intros [[_ ->]|[_ Hi]]; done.
Qed.

Lemma unique_insert x m :
  (forall i y, m !! i = Some y -> at_key b k y -> o_version_id (row_rec y) <> o_version_id (row_rec x)) ->
  unique_at m -> unique_at (insert_row x m).
Proof.
  intros Hn Hu i j y z [[-> ->]|[_ Hi]]%lookup_insert_row [[-> ->]|[_ Hj]]%lookup_insert_row Hy Hz Hv.
  - done.
  - by destruct (Hn j z).
  - by destruct (Hn i y).
  - by eapply Hu.
Qed.

(** ** The latest row *)

Lemma winner_Some m i :
  winner b k m = Some i ->
  exists x, m !! i = Some x /\ at_key b k x /\ live x /\
    forall j y, m !! j = Some y -> at_key b k y -> live y ->
      newest_first (row_rec x) (row_rec y) <> Gt.
Proof.
  unfold winner. rewrite fmap_Some. intros ([i' x] & Hh & ->).
  apply (head_sorted_by (cmp_on (fun e : N * ObjRow => row_rec e.2) newest_first)) in Hh as [Hin Hmax].
  apply list_elem_of_filter in Hin as [[Hk Hl] Hin%elem_of_map_to_list].
  exists x. split; [done|]. split; [done|]. split; [done|].
  intros j y Hj Hy Hly. apply (Hmax (j, y)). apply list_elem_of_filter.
  split; [done|]. by apply elem_of_map_to_list.
Qed.

Lemma winner_None m :
  winner b k m = None -> forall i x, m !! i = Some x -> at_key b k x -> ~ live x.
Proof.
  unfold winner. rewrite fmap_None, head_sorted_by_None. intros H i x Hi Hk Hl.
  assert ((i, x) ∈ filter (fun e : N * ObjRow => at_key b k e.2 /\ live e.2) (map_to_list m)) as Hin.
  { apply list_elem_of_filter. split; [done|]. by apply elem_of_map_to_list. }
  rewrite H in Hin. by apply elem_of_nil in Hin.
Qed.

Lemma lookup_unlatest m i :
  unlatest b k m !! i =
  (fun x => if decide (at_key b k x) then map_row (set_latest false) x else x) <$> m !! i.
Proof.
  unfold unlatest. rewrite lookup_update_where. destruct (m !! i) as [x|]; [|done]. simpl. f_equal.
  repeat case_decide; try done; [by exfalso; apply H0, H|].
  destruct x as [r sq]. unfold map_row. simpl in *. f_equal.
  destruct (o_is_latest r) eqn:E; [by destruct H|]. by destruct r; simpl in *; subst.
Qed.

(** The row [recompute] makes the latest one. *)
Definition new_latest m : option N := winner b k (unlatest b k m).

Lemma lookup_recompute m i :
  recompute b k m !! i =
  (fun x => if decide (at_key b k x)
            then map_row (set_latest (bool_decide (new_latest m = Some i))) x else x) <$> m !! i.
Proof.
  unfold recompute. fold (new_latest m). pose proof (lookup_unlatest m i) as Hu.
  destruct (new_latest m) as [w|] eqn:Ew.
  - rewrite lookup_alter. case_decide as Hw.
    + subst w. rewrite bool_decide_true by done. rewrite Hu.
      apply winner_Some in Ew as (x & Hx & Hk & _). rewrite Hu in Hx.
      destruct (m !! i) as [y|]; [|done]. simpl in *. f_equal. injection Hx as <-.
      case_decide as Hd; [|done]. by destruct y as [[] ?].
    + rewrite bool_decide_false by congruence. done.
  - rewrite bool_decide_false by done. done.
Qed.

(** The winner in terms of the rows before the flags are cleared. *)
Lemma new_latest_Some m i :
  new_latest m = Some i ->
  exists x, m !! i = Some x /\ at_key b k x /\ live x /\
    forall j y, m !! j = Some y -> at_key b k y -> live y ->
      newest_first (row_rec x) (row_rec y) <> Gt.
Proof.
  intros (x & Hx & Hk & Hl & Hmax)%winner_Some. rewrite lookup_unlatest in Hx.
  destruct (m !! i) as [x0|] eqn:Hi; [|done]. injection Hx as <-. exists x0.
  destruct (decide (at_key b k x0)) as [Hd|]; [|done].
  split; [done|]. split; [done|]. split; [by destruct x0 as [[] ?]|].
  intros j y Hj Hky Hly. specialize (Hmax j (map_row (set_latest false) y)).
  rewrite lookup_unlatest, Hj in Hmax. simpl in Hmax. rewrite decide_True in Hmax by done.
  destruct x0 as [[] ?], y as [[] ?]. by apply Hmax.
Qed.

Lemma new_latest_None m :
  new_latest m = None -> forall i x, m !! i = Some x -> at_key b k x -> ~ live x.
Proof.
  intros H i x Hi Hk Hl. apply (winner_None _ H i (map_row (set_latest false) x)).
  - rewrite lookup_unlatest, Hi. simpl. by rewrite decide_True.
  - by destruct x as [[] ?].
  - by destruct x as [[] ?].
Qed.

Lemma recompute_origin m i y :
  recompute b k m !! i = Some y ->
  exists x, m !! i = Some x /\
    (at_key b k x /\ y = map_row (set_latest (bool_decide (new_latest m = Some i))) x \/
     ~ at_key b k x /\ y = x).
Proof.
  rewrite lookup_recompute. destruct (m !! i) as [x|]; [|done]. intros [= <-]. exists x.
  split; [done|]. case_decide; auto.
Qed.

Lemma keeps_id_set_latest c : keeps_id (map_row (set_latest c)).
Proof. intros [[] ?]. done. Qed.

Lemma frame_unlatest m : frame m (unlatest b k m).
Proof. apply frame_update; [apply keeps_id_set_latest|]. by intros x []. Qed.

Lemma unique_unlatest m : unique_at m -> unique_at (unlatest b k m).
Proof. apply unique_update, keeps_id_set_latest. Qed.

Lemma frame_recompute m : frame m (recompute b k m).
Proof.
  intros i x Hx. split.
  - intros Hi. rewrite lookup_recompute, Hi. simpl. by rewrite decide_False.
  - intros (y & Hy & [[Hk ->]|[_ ->]])%recompute_origin; [|done].
    destruct y as [[] ?]. by destruct Hx.
Qed.

Lemma unique_recompute m : unique_at m -> unique_at (recompute b k m).
Proof.
  intros Hu i j x y (x0 & Hx0 & Hx)%recompute_origin (y0 & Hy0 & Hy)%recompute_origin.
  destruct Hx as [[_ ->]|[_ ->]], Hy as [[_ ->]|[_ ->]]; intros;
    apply (Hu i j x0 y0); try done; destruct x0 as [[] ?], y0 as [[] ?]; done.
Qed.

Lemma latest_ok_recompute m : latest_ok (recompute b k m).
Proof.
  assert (forall i y, recompute b k m !! i = Some y -> at_key b k y -> latest y -> new_latest m = Some i)
    as Hlat.
  { intros i y (x & Hx & [[_ ->]|[Hn ->]])%recompute_origin Hk Hl; [|done].
    destruct x as [[] ?]. simpl in Hl. by apply bool_decide_eq_true in Hl. }
  split; [|split].
  - intros i j x y Hi Hj Hx Hy Hlx Hly. apply Hlat in Hi, Hj; try done. congruence.
  - intros i x Hi Hk Hl. pose proof (Hlat _ _ Hi Hk Hl) as (y & Hy & _ & Hly & _)%new_latest_Some.
    apply recompute_origin in Hi as (x0 & Hx0 & [[_ ->]|[_ ->]]); [|congruence].
    rewrite Hx0 in Hy. injection Hy as ->. by destruct y as [[] ?].
  - intros i x Hi Hk Hl. apply recompute_origin in Hi as (x0 & Hx0 & Hx).
    assert (at_key b k x0 /\ live x0) as [Hk0 Hl0].
    { destruct Hx as [[? ->]|[_ ->]]; [|done]. split; [done|]. by destruct x0 as [[] ?]. }
    destruct (new_latest m) as [w|] eqn:Ew; [|by destruct (new_latest_None _ Ew i x0)].
    pose proof (new_latest_Some _ _ Ew) as (z & Hz & Hkz & _).
    exists w, (map_row (set_latest true) z). rewrite lookup_recompute, Hz, Ew. simpl.
    rewrite decide_True, bool_decide_true by done. split; [done|]. by destruct z as [[] ?].
Qed.
End key.

(** ** All keys *)

Definition rows_ok (m : gmap N ObjRow) : Prop := forall b k, unique_at b k m /\ latest_ok b k m.

Lemma rows_ok_frame b k m m' :
  rows_ok m -> frame b k m m' -> unique_at b k m' -> latest_ok b k m' -> rows_ok m'.
Proof.
  intros Hm Hf Hu Hl b' k'. destruct (decide ((b', k') = (b, k))) as [[= -> ->]|Hne]; [done|].
  assert (forall i x, at_key b' k' x -> m' !! i = Some x -> m !! i = Some x) as Hback.
  { intros i x [<- <-]. apply Hf. intros [E1 E2]. by subst. }
  assert (forall i x, at_key b' k' x -> m !! i = Some x -> m' !! i = Some x) as Hforth.
  { intros i x [<- <-]. apply Hf. intros [E1 E2]. by subst. }
  destruct (Hm b' k') as (Hu' & H1 & H2 & H3). split; [|split; [|split]].
  - intros i j x y Hi Hj Hx Hy. apply (Hu' i j x y); auto.
  - intros i j x y Hi Hj Hx Hy. apply (H1 i j x y); auto.
  - intros i x Hi Hx. apply (H2 i x); auto.
  - intros i x Hi Hx Hlx. destruct (H3 i x) as (j & y & Hj & Hy & Hly); [auto..|].
    exists j, y. auto.
Qed.

Lemma rows_ok_recompute b k m m' :
  rows_ok m -> frame b k m m' -> unique_at b k m' -> rows_ok (recompute b k m').
Proof.
  intros Hm Hf Hu. eapply rows_ok_frame; [done|..].
  - eapply frame_trans; [done|apply frame_recompute].
  - by apply unique_recompute.
  - apply latest_ok_recompute.
Qed.

Lemma latest_ok_insert b k x m :
  no_latest b k m -> at_key b k x -> latest x -> live x -> latest_ok b k (insert_row x m).
Proof.
  intros Hn Hk Hl Hlive. split; [|split].
  - intros i j y z [[-> ->]|[_ Hi]]%lookup_insert_row [[-> ->]|[_ Hj]]%lookup_insert_row Hy Hz Hly Hlz.
    + done.
    + by rewrite (Hn j z) in Hlz.
    + by rewrite (Hn i y) in Hly.
    + by rewrite (Hn i y) in Hly.
  - intros i y [[-> ->]|[_ Hi]]%lookup_insert_row Hy Hly; [done|]. by rewrite (Hn i y) in Hly.
  - intros i y _ _ _. exists (fresh (dom m)), x. split; [|done]. apply lookup_insert_row. auto.
Qed.

Lemma latest_ok_no_rows b k m :
  (forall i x, m !! i = Some x -> ~ at_key b k x) -> latest_ok b k m.
Proof.
  intros H. split; [|split].
  - intros i j x y Hi _ Hx. by destruct (H i x).
  - intros i x Hi Hx. by destruct (H i x).
  - intros i x Hi Hx. by destruct (H i x).
Qed.

(** An id no row of the key has: what [Uuid::new_v4] is relied on for. *)
Definition fresh_version (b k uuid : string) (m : gmap N ObjRow) : Prop :=
  forall i x, m !! i = Some x -> at_key b k x -> o_version_id (row_rec x) <> Some uuid.

Lemma no_version_after_delete b k v
    `{!forall x : ObjRow, Decision (at_key b k x /\ version_is v x)} m i x :
  delete_where (fun x => at_key b k x /\ version_is v x) m !! i = Some x -> at_key b k x ->
  o_version_id (row_rec x) <> v.
Proof. intros [_ Hx]%lookup_delete_where Hk E. by apply Hx. Qed.

(** An update of rows of one key that keeps versions and flags. *)
Lemma no_version_unlatest b k v m :
  (forall i x, m !! i = Some x -> at_key b k x -> o_version_id (row_rec x) <> v) ->
  forall i x, unlatest b k m !! i = Some x -> at_key b k x -> o_version_id (row_rec x) <> v.
Proof.
  intros H i x Hi Hk. unfold unlatest in Hi.
  apply update_origin in Hi as (y & Hy & [[_ ->]|[_ ->]]); [|by eapply H].
  destruct (keeps_id_set_latest false y) as (E1 & E2 & ->). apply (H i y Hy). by rewrite E1, E2 in Hk.
Qed.

Section installs.
Variables (b k : string) (m : gmap N ObjRow).
Hypothesis Hm : rows_ok m.

Lemma rows_ok_installed v uuid seq r :
  o_bucket r = b -> o_key r = k -> fresh_version b k uuid m -> rows_ok (installed_rows v uuid seq r m).
Proof.
  intros Hb Hk Hf. destruct (Hm b k) as [Hu _]. unfold installed_rows. rewrite Hb, Hk.
  destruct v.
  - destruct (fields_as_current None r) as (Eb & Ek & Ev & El & Et & _).
    assert (frame b k m (insert_row (MkRow (inserted_columns (as_current None r)) seq)
              (delete_where (fun x => at_key b k x) m))) as Hfr.
    { eapply frame_trans; [by apply (frame_delete b k (fun x => at_key b k x))|].
      apply frame_insert. simpl. by rewrite Eb, Ek, Hb, Hk. }
    assert (unique_at b k (insert_row (MkRow (inserted_columns (as_current None r)) seq)
              (delete_where (fun x => at_key b k x) m))) as Hun.
    { apply unique_insert; [|by apply unique_delete].
      by intros i y [_ Hy]%lookup_delete_where Hky. }
    destruct (o_is_tombstone r) eqn:Er; [by eapply rows_ok_recompute|].
    eapply rows_ok_frame; [done..|]. apply latest_ok_insert.
    + apply delete_key_no_latest.
    + simpl. by rewrite Eb, Ek, Hb, Hk.
    + simpl. by rewrite El.
    + simpl. congruence.
  - destruct (fields_as_current (Some uuid) r) as (Eb & Ek & Ev & _).
    apply rows_ok_recompute with m; [done|..].
    + eapply frame_trans; [apply frame_unlatest|]. apply frame_insert. simpl. by rewrite Eb, Ek, Hb, Hk.
    + apply unique_insert; [|by apply unique_unlatest]. simpl. rewrite Ev.
      by apply no_version_unlatest.
  - destruct (fields_as_current None r) as (Eb & Ek & Ev & _).
    apply rows_ok_recompute with m; [done|..].
    + eapply frame_trans; [by apply (frame_delete b k (fun x => at_key b k x /\ version_is None x)); intros ? []|].
      eapply frame_trans; [apply frame_unlatest|]. apply frame_insert. simpl. by rewrite Eb, Ek, Hb, Hk.
    + apply unique_insert; [|by apply unique_unlatest, unique_delete]. simpl. rewrite Ev.
      apply no_version_unlatest. intros i x. apply no_version_after_delete.
Qed.

Lemma keeps_id_tombstone seq now : keeps_id (map_row_at seq (as_tombstone now)).
Proof. intros [[] ?]. done. Qed.

Lemma rows_ok_marker owner vid now seq m' :
  frame b k m m' -> unique_at b k m' ->
  (forall i x, m' !! i = Some x -> at_key b k x -> o_version_id (row_rec x) <> vid) ->
  rows_ok (insert_row (MkRow (delete_marker b k owner vid now) seq) (unlatest b k m')).
Proof.
  intros Hf Hu Hv. eapply rows_ok_frame; [done|..].
  - eapply frame_trans; [done|]. eapply frame_trans; [apply frame_unlatest|]. by apply frame_insert.
  - apply unique_insert; [|by apply unique_unlatest]. simpl. by apply no_version_unlatest.
  - apply latest_ok_insert; [apply unlatest_no_latest|done..].
Qed.

Lemma rows_ok_deleted v cluster_mode now uuid seq owner :
  fresh_version b k uuid m -> rows_ok (deleted_rows v cluster_mode now uuid seq b k owner m).
Proof.
  intros Hf. destruct (Hm b k) as [Hu _]. unfold deleted_rows. destruct v.
  - destruct (is_some _); [|done]. destruct cluster_mode.
    + apply rows_ok_recompute with m; [done|..].
      * apply frame_update; [apply keeps_id_tombstone|done].
      * apply unique_update; [apply keeps_id_tombstone|done].
    + eapply rows_ok_frame; [done|by apply (frame_delete b k (fun x => at_key b k x))|by apply unique_delete|].
      apply latest_ok_no_rows. by intros i x [_ Hx]%lookup_delete_where.
  - by apply rows_ok_marker.
  - apply rows_ok_marker.
    + apply (frame_delete b k (fun x => at_key b k x /\ version_is None x)). by intros ? [].
    + by apply unique_delete.
    + intros i x. apply no_version_after_delete.
Qed.

Lemma rows_ok_version_deleted cluster_mode now seq v :
  rows_ok (version_deleted_rows cluster_mode now seq b k v m).
Proof.
  destruct (Hm b k) as [Hu _]. unfold version_deleted_rows.
  apply rows_ok_recompute with m; [done|..]; destruct cluster_mode.
  - apply frame_update; [apply keeps_id_tombstone|by intros ? []].
  - apply (frame_delete b k (fun x => at_key b k x /\ version_is v x)). by intros ? [].
  - apply unique_update; [apply keeps_id_tombstone|done].
  - by apply unique_delete.
Qed.

Lemma rows_ok_remote_deleted now seq v :
  rows_ok (recompute b k (update_where (fun x => at_key b k x /\ version_is v x /\ live x)
    (map_row_at seq (as_tombstone now)) m)).
Proof.
  destruct (Hm b k) as [Hu _]. apply rows_ok_recompute with m; [done|..].
  - apply frame_update; [apply keeps_id_tombstone|by intros ? []].
  - apply unique_update; [apply keeps_id_tombstone|done].
Qed.
End installs.

Lemma resolve_replicated_id r ex row :
  resolve_replicated r ex = Some row ->
  o_bucket r = o_bucket ex -> o_key r = o_key ex -> o_version_id r = o_version_id ex ->
  o_bucket row = o_bucket r /\ o_key row = o_key r /\ o_version_id row = o_version_id r.
Proof.
  intros H Eb Ek Ev. unfold resolve_replicated in H.
  assert (o_bucket (merge_content r ex (merge_lock r ex ex)) = o_bucket ex /\
          o_key (merge_content r ex (merge_lock r ex ex)) = o_key ex /\
          o_version_id (merge_content r ex (merge_lock r ex ex)) = o_version_id ex) as (? & ? & ?).
  { unfold merge_content, merge_lock. destruct ex; repeat case_match; done. }
  repeat case_match; try done; injection H as <-; try done; repeat split; congruence.
Qed.

Lemma query_version_None b k v `{!forall x : ObjRow, Decision (at_key b k x /\ version_is v x)} m :
  query_row (fun x => at_key b k x /\ version_is v x) m = None ->
  forall i x, m !! i = Some x -> at_key b k x -> o_version_id (row_rec x) <> v.
Proof. intros Hq i x Hi Hk Hv. by apply (proj1 (query_row_None _ m) Hq i x Hi). Qed.

(** The row a delivery writes, if any. *)
Definition to_write (r : ObjectRecord) (m : gmap N ObjRow) : option ObjectRecord :=
  match query_row (fun x => at_key (o_bucket r) (o_key r) x /\ version_is (o_version_id r) x) m with
  | None => Some r
  | Some ex => resolve_replicated r (row_rec ex)
  end.

Lemma to_write_id r m row :
  to_write r m = Some row ->
  o_bucket row = o_bucket r /\ o_key row = o_key r /\ o_version_id row = o_version_id r.
Proof.
  unfold to_write. destruct (query_row _ m) as [ex|] eqn:E; [|by intros [= <-]].
  apply query_row_Some in E as [[[Eb Ek] Ev] _]. intros H. by apply (resolve_replicated_id r (row_rec ex)).
Qed.

Lemma rows_ok_replicated seq r m : rows_ok m -> rows_ok (replicated_rows seq r m).
Proof.
  intros Hm. destruct (Hm (o_bucket r) (o_key r)) as [Hu _]. unfold replicated_rows.
  fold (to_write r m). destruct (to_write r m) as [row|] eqn:E; [|by apply rows_ok_recompute with m].
  destruct (to_write_id _ _ _ E) as (Eb & Ek & Ev).
  destruct (fields_set_latest false row) as (Fb & Fk & Fv & _).
  apply rows_ok_recompute with m; [done|..].
  - eapply frame_trans; [by apply (frame_delete (o_bucket r) (o_key r)
      (fun x => at_key (o_bucket r) (o_key r) x /\ version_is (o_version_id r) x)); intros ? []|].
    apply frame_insert. simpl. split; congruence.
  - apply unique_insert; [|by apply unique_delete]. simpl. rewrite Fv, Ev.
    intros i x. apply no_version_after_delete.
Qed.

(** Updates that keep the identity and the flags of a row. *)
Definition keeps_flags (f : ObjectRecord -> ObjectRecord) : Prop :=
  forall r, o_bucket (f r) = o_bucket r /\ o_key (f r) = o_key r /\ o_version_id (f r) = o_version_id r /\
    o_is_latest (f r) = o_is_latest r /\ o_is_tombstone (f r) = o_is_tombstone r.

Lemma rows_ok_update (P : ObjRow -> Prop) `{!forall x, Decision (P x)} (g : ObjRow -> ObjRow) f m :
  (forall x, row_rec (g x) = f (row_rec x)) -> keeps_flags f -> rows_ok m -> rows_ok (update_where P g m).
Proof.
  intros Hg Hf Hm b k. destruct (Hm b k) as (Hu & H1 & H2 & H3).
  assert (forall i x, update_where P g m !! i = Some x -> exists y, m !! i = Some y /\
    o_bucket (row_rec x) = o_bucket (row_rec y) /\ o_key (row_rec x) = o_key (row_rec y) /\
    o_version_id (row_rec x) = o_version_id (row_rec y) /\
    o_is_latest (row_rec x) = o_is_latest (row_rec y) /\
    o_is_tombstone (row_rec x) = o_is_tombstone (row_rec y)) as Ho.
  { intros i x (y & Hy & [[_ ->]|[_ ->]])%update_origin; exists y; [|done].
    split; [done|]. rewrite Hg. by apply Hf. }
  split; [|split; [|split]].
  - intros i j x y (x0 & Hi & -> & -> & -> & _)%Ho (y0 & Hj & -> & -> & -> & _)%Ho. by apply Hu.
  - intros i j x y (x0 & Hi & -> & -> & _ & -> & _)%Ho (y0 & Hj & -> & -> & _ & -> & _)%Ho. by apply H1.
  - intros i x (x0 & Hi & -> & -> & _ & -> & ->)%Ho. by apply (H2 i).
  - intros i x (x0 & Hi & -> & -> & _ & _ & ->)%Ho Hk Hl.
    destruct (H3 i x0 Hi Hk Hl) as (j & y & Hj & Hky & Hly).
    exists j. rewrite lookup_update_where, Hj. simpl. eexists. split; [done|].
    case_decide; [|done]. rewrite Hg. destruct (Hf (row_rec y)) as (-> & -> & _ & -> & _). done.
Qed.

Lemma rows_ok_purge (P : ObjRow -> Prop) `{!forall x, Decision (P x)} m :
  (forall x, P x -> o_is_tombstone (row_rec x) = true) -> rows_ok m -> rows_ok (delete_where P m).
Proof.
  intros HP Hm b k. destruct (Hm b k) as (Hu & H1 & H2 & H3). split; [|split; [|split]].
  - by apply unique_delete.
  - intros i j x y [Hi _]%lookup_delete_where [Hj _]%lookup_delete_where. by apply H1.
  - intros i x [Hi _]%lookup_delete_where. by apply (H2 i).
  - intros i x [Hi _]%lookup_delete_where Hk Hl.
    destruct (H3 i x Hi Hk Hl) as (j & y & Hj & Hky & Hly). exists j, y.
    split; [|done]. apply lookup_delete_where. split; [done|]. intros Hy%HP.
    pose proof (H2 j y Hj Hky Hly). congruence.
Qed.

(** ** Sequence numbers and visible changes *)

Definition seq_bound (z : Z) (m : gmap N ObjRow) : Prop :=
  forall i x, m !! i = Some x -> (row_seq x <= z)%Z.

(** The content of a row that a peer is sent: everything but the derived
    [is_latest] and the node's own [replication_status]. *)
Definition content (x : ObjRow) : Z * ObjectRecord :=
  (row_seq x, set_latest false (set_replication_status None (row_rec x))).

(** Every row of [m'] is an unchanged row of [m] or has a number in [S]. *)
Definition changes (S : Z -> Prop) (m m' : gmap N ObjRow) : Prop :=
  forall i x, m' !! i = Some x ->
    S (row_seq x) \/ exists j y, m !! j = Some y /\ content y = content x.

Lemma changes_refl S m : changes S m m.
Proof. intros i x Hi. right. eauto. Qed.

Lemma changes_trans S m1 m2 m3 : changes S m1 m2 -> changes S m2 m3 -> changes S m1 m3.
Proof.
  intros H1 H2 i x Hi. destruct (H2 i x Hi) as [?|(j & y & Hj & E)]; [by left|].
  destruct (H1 j y Hj) as [Hs|(l & w & Hl & E')]; [left|right].
  - assert (row_seq y = row_seq x) as <- by (unfold content in E; congruence). done.
  - exists l, w. split; [done|congruence].
Qed.

Lemma content_set_latest c x : content (map_row (set_latest c) x) = content x.
Proof. by destruct x as [[] ?]. Qed.

Lemma content_set_replication_status st x :
  content (map_row (set_replication_status st) x) = content x.
Proof. by destruct x as [[] ?]. Qed.

Lemma changes_update S (P : ObjRow -> Prop) `{!forall x, Decision (P x)} f m :
  (forall x, content (f x) = content x) -> changes S m (update_where P f m).
Proof.
  intros Hf i x (y & Hy & [[_ ->]|[_ ->]])%update_origin; right; exists i, y; by rewrite ?Hf.
Qed.

Lemma changes_update_at S (P : ObjRow -> Prop) `{!forall x, Decision (P x)} seq f m :
  S seq -> changes S m (update_where P (map_row_at seq f) m).
Proof.
  intros Hs i x (y & Hy & [[_ ->]|[_ ->]])%update_origin; [by left|right; eauto].
Qed.

Lemma changes_delete S (P : ObjRow -> Prop) `{!forall x, Decision (P x)} m : changes S m (delete_where P m).
Proof. intros i x [Hi _]%lookup_delete_where. right. eauto. Qed.

Lemma changes_insert S x m : S (row_seq x) -> changes S m (insert_row x m).
Proof. intros Hs i y [[_ ->]|[_ Hi]]%lookup_insert_row; [by left|right; eauto]. Qed.

Lemma changes_unlatest S b k m : changes S m (unlatest b k m).
Proof. apply changes_update. intros; apply content_set_latest. Qed.

Lemma changes_recompute S b k m : changes S m (recompute b k m).
Proof.
  intros i y (x & Hx & [[_ ->]|[_ ->]])%recompute_origin; right; exists i, x;
    by rewrite ?content_set_latest.
Qed.

(** Peels the outermost statement. *)
Ltac changes_step :=
  lazymatch goal with
  | |- changes _ _ (recompute _ _ _) => eapply changes_trans; [|apply changes_recompute]
  | |- changes _ _ (insert_row _ _) => eapply changes_trans; [|by apply changes_insert]
  | |- changes _ _ (unlatest _ _ _) => eapply changes_trans; [|apply changes_unlatest]
  | |- changes _ _ (delete_where _ _) => apply changes_delete
  | |- changes _ _ (update_where _ _ _) => by apply changes_update_at
  | |- changes _ ?m ?m => apply changes_refl
  end.

Lemma changes_installed S v uuid seq r m : S seq -> changes S m (installed_rows v uuid seq r m).
Proof.
  intros Hs. unfold installed_rows. destruct v; [destruct (o_is_tombstone r)|..]; repeat changes_step.
Qed.

Lemma changes_deleted S v cluster_mode now uuid seq b k owner m :
  S seq -> changes S m (deleted_rows v cluster_mode now uuid seq b k owner m).
Proof.
  intros Hs. unfold deleted_rows.
  destruct v; [destruct (is_some _); [destruct cluster_mode|]|..]; repeat changes_step.
Qed.

Lemma changes_version_deleted S cluster_mode now seq b k v m :
  S seq -> changes S m (version_deleted_rows cluster_mode now seq b k v m).
Proof. intros Hs. unfold version_deleted_rows. destruct cluster_mode; repeat changes_step. Qed.

Lemma changes_replicated S seq r m : S seq -> changes S m (replicated_rows seq r m).
Proof.
  intros Hs. unfold replicated_rows. fold (to_write r m). destruct (to_write r m); repeat changes_step.
Qed.

(** The changes of one operation carry its number, which is above the counter. *)
Lemma changes_mono (S S' : Z -> Prop) m m' : (forall z, S z -> S' z) -> changes S m m' -> changes S' m m'.
Proof. intros HS H i x Hi. destruct (H i x Hi); [left|right]; auto. Qed.

Lemma seq_bound_changes z q m m' : (z <= q)%Z -> seq_bound z m -> changes (eq q) m m' -> seq_bound q m'.
Proof.
  intros Hq Hz H i x Hi. destruct (H i x Hi) as [<-|(j & y & Hj & E)]; [done|].
  assert (row_seq y = row_seq x) as <- by (unfold content in E; congruence).
  pose proof (Hz j y Hj). lia.
Qed.
