(* ===== verification/MetadataSteps.v ===== *)
(** The metadata store as a state machine: one step per operation that
    changes a table, the invariant over all reachable stores, and the
    completeness of the change manifest that anti-entropy pulls. *)

From S2P Require Import Prelude S3Errors Policy Types SqlTable Text Preconditions MetadataStore MetadataRows.
From S2P Require Import MetadataInvariant.

(** ** Steps *)

Section steps.
Variable cluster_mode : bool.

(** A version id that is minted is one no row of the key has. *)
Inductive meta_step : MetaStore -> MetaStore -> Prop :=
  | step_put uuid r pre tags s :
      fresh_version (o_bucket r) (o_key r) uuid (ms_objects s) ->
      meta_step s (put_object_tagged_if uuid r pre tags s).1
  | step_complete uuid upload_id r pre tags s :
      fresh_version (o_bucket r) (o_key r) uuid (ms_objects s) ->
      meta_step s (complete_multipart_object_tagged uuid upload_id r pre tags s).1
  | step_delete now uuid b k pre owner s :
      fresh_version b k uuid (ms_objects s) ->
      meta_step s (delete_object_if cluster_mode now uuid b k pre owner s).1
  | step_delete_version now b k version_id pre s :
      meta_step s (delete_object_version_if cluster_mode now b k version_id pre s).1
  | step_delete_entry b owner e now uuid s :
      fresh_version b (bd_key e) uuid (ms_objects s) ->
      meta_step s (delete_entry cluster_mode b owner (e, (now, uuid)) s).1
  | step_remote_object r s : meta_step s (apply_remote_object r s).1
  | step_remote_version_delete now b k version_id s :
      meta_step s (apply_remote_version_delete now b k version_id s).1
  | step_remote_bucket info s : meta_step s (apply_remote_bucket info s).1
  | step_remote_upload r s : meta_step s (apply_remote_multipart_upload r s).1
  | step_purge before s : meta_step s (purge_tombstones before s).1
  | step_seed s : meta_step s (seed_object_seq_to_max s).1
  | step_replication_status b k v st s : meta_step s (set_object_replication_status b k v st s).1
  | step_retention now b k v mode until s : meta_step s (set_object_retention now b k v mode until s).1
  | step_legal_hold now b k v st s : meta_step s (set_object_legal_hold now b k v st s).1
  | step_encryption now b k v alg kid s : meta_step s (update_object_encryption now b k v alg kid s).1
  | step_encryption_cas now b k v old new alg kid s :
      meta_step s (update_object_encryption_cas now b k v old new alg kid s).1
  | step_create_bucket now name owner s : meta_step s (create_bucket_owned now name owner s).1
  | step_delete_bucket name s : meta_step s (delete_bucket name s).1
  | step_bucket_config b ck cv ts s : meta_step s (apply_bucket_config_at b ck cv ts s).1
  | step_set_bucket_config now b ck cv s : meta_step s (set_bucket_config now b ck cv s).1
  | step_delete_bucket_config b ck s : meta_step s (delete_bucket_config b ck s).1
  | step_bucket_tags_at b tags ts s : meta_step s (apply_bucket_tags_at b tags ts s).1
  | step_put_bucket_tags now b tags s : meta_step s (put_bucket_tags now b tags s).1
  | step_delete_bucket_tags b s : meta_step s (delete_bucket_tags b s).1
  | step_put_object_tags b k v tags s : meta_step s (put_object_tags b k v tags s).1
  | step_delete_object_tags b k v s : meta_step s (delete_object_tags b k v s).1
  | step_create_upload r s : meta_step s (create_multipart_upload r s).1
  | step_put_part p s : meta_step s (put_part p s).1
  | step_delete_upload u s : meta_step s (delete_multipart_upload u s).1.
End steps.

(** ** What one step does to the object rows *)

Record advance (s s' : MetaStore) : Prop := {
  adv_rows : rows_ok (ms_objects s) -> rows_ok (ms_objects s');
  adv_seq : (ms_object_seq s <= ms_object_seq s')%Z;
  adv_changes : changes (fun q => (ms_object_seq s < q <= ms_object_seq s')%Z)
                  (ms_objects s) (ms_objects s');
}.

Lemma advance_same s s' :
  ms_objects s' = ms_objects s -> ms_object_seq s' = ms_object_seq s -> advance s s'.
Proof. intros Ho Hs. split; rewrite ?Ho, ?Hs; [done|lia|apply changes_refl]. Qed.

Lemma advance_refl s : advance s s.
Proof. by apply advance_same. Qed.

Lemma advance_trans s1 s2 s3 : advance s1 s2 -> advance s2 s3 -> advance s1 s3.
Proof.
  intros [R1 Q1 C1] [R2 Q2 C2]. split; [auto|lia|].
  apply changes_trans with (ms_objects s2); (eapply changes_mono; [|eassumption]); simpl; lia.
Qed.

(** One more number, given to every changed row. *)
Lemma advance_stamp s s' m :
  ms_objects s' = m -> ms_object_seq s' = (ms_object_seq s + 1)%Z ->
  (rows_ok (ms_objects s) -> rows_ok m) -> changes (eq (ms_object_seq s + 1)%Z) (ms_objects s) m ->
  advance s s'.
Proof.
  intros <- Hq Hr Hc. split; [done|lia|]. eapply changes_mono; [|done]. simpl. lia.
Qed.

(** No new number: rows are only removed. *)
Lemma advance_remove s s' m :
  ms_objects s' = m -> ms_object_seq s' = ms_object_seq s ->
  (rows_ok (ms_objects s) -> rows_ok m) -> changes (fun _ => False) (ms_objects s) m -> advance s s'.
Proof. intros <- Hq Hr Hc. split; [done|lia|]. by eapply changes_mono; [|done]. Qed.

Lemma objects_become_fields s m q s' :
  objects_become s m q s' ->
  ms_objects s' = m /\ ms_object_seq s' = q /\ ms_buckets s' = ms_buckets s /\
  ms_bucket_config s' = ms_bucket_config s /\ ms_bucket_tags s' = ms_bucket_tags s /\
  ms_uploads s' = ms_uploads s /\ ms_parts s' = ms_parts s.
Proof. unfold objects_become. intros ->. by destruct s. Qed.

(** The tables other than [objects], [object_seq] and [object_tags]. *)
Definition same_tables (s s' : MetaStore) : Prop :=
  ms_buckets s' = ms_buckets s /\ ms_bucket_config s' = ms_bucket_config s /\
  ms_bucket_tags s' = ms_bucket_tags s /\ ms_uploads s' = ms_uploads s /\ ms_parts s' = ms_parts s.

Lemma same_tables_refl s : same_tables s s.
Proof. by repeat split. Qed.

Lemma same_tables_trans s1 s2 s3 : same_tables s1 s2 -> same_tables s2 s3 -> same_tables s1 s3.
Proof. unfold same_tables. intuition congruence. Qed.

(** A write of objects: [advance] and nothing else touched. *)
Definition object_write (s s' : MetaStore) : Prop := advance s s' /\ same_tables s s'.

Lemma object_write_refl s : object_write s s.
Proof. split; [apply advance_refl|apply same_tables_refl]. Qed.

Lemma object_write_trans s1 s2 s3 : object_write s1 s2 -> object_write s2 s3 -> object_write s1 s3.
Proof.
  intros [A1 T1] [A2 T2]. split; [by eapply advance_trans|by eapply same_tables_trans].
Qed.

Lemma install_write uuid r pre s :
  fresh_version (o_bucket r) (o_key r) uuid (ms_objects s) ->
  object_write s (install_object uuid r pre s).1.
Proof.
  intros Hf. destruct (write_evaluate pre (get_object (o_bucket r) (o_key r) s)) as [[]|c|] eqn:E.
  - destruct (install_object_ok uuid r pre s _ eq_refl E) as (s' & -> & Hb). simpl.
    apply objects_become_fields in Hb as (Ho & Hq & Hrest).
    split; [|done]. eapply advance_stamp; [done..| |].
    + intros Hr. by eapply rows_ok_installed.
    + by apply changes_installed.
  - rewrite (install_object_err _ _ _ _ _ E). apply object_write_refl.
  - by destruct (write_evaluate_total pre (get_object (o_bucket r) (o_key r) s)).
Qed.

Lemma delete_latest_write cluster_mode now uuid b k pre owner s :
  fresh_version b k uuid (ms_objects s) ->
  object_write s (delete_latest_in_tx cluster_mode now uuid b k pre owner s).1.
Proof.
  intros Hf. destruct (delete_evaluate pre (get_latest_object b k s)) as [[]|c|] eqn:E.
  - destruct (delete_latest_ok cluster_mode now uuid b k pre owner s _ eq_refl E) as (s' & -> & Hb). simpl.
    apply objects_become_fields in Hb as (Ho & Hq & Hrest). split; [|done].
    set (v := get_versioning_state b s) in *.
    assert (rows_ok (ms_objects s) -> rows_ok (ms_objects s')) as Hr.
    { rewrite Ho. intros Hr. by apply rows_ok_deleted. }
    destruct (decide (ms_object_seq s' = ms_object_seq s)) as [Hs|Hs].
    + eapply advance_remove; [reflexivity|done..|]. rewrite Ho. clear Hr Ho Hrest.
      unfold deleted_seq in Hq. unfold deleted_rows. rewrite Hs in Hq.
      destruct v; [|lia..]. unfold get_latest_object in Hq.
      destruct (query_row _ _); [|apply changes_refl]. simpl in *.
      destruct cluster_mode; [lia|]. apply changes_delete.
    + eapply advance_stamp; [reflexivity| |done|].
      * rewrite Hq in *. unfold deleted_seq in *. repeat case_match; try lia; done.
      * rewrite Ho. by apply changes_deleted.
  - rewrite (delete_latest_err _ _ _ _ _ _ _ _ _ E). apply object_write_refl.
  - by destruct (delete_evaluate_total pre (get_latest_object b k s)).
Qed.

Lemma delete_version_write cluster_mode now b k version_id pre s :
  object_write s (delete_version_in_tx cluster_mode now b k version_id pre s).1.
Proof.
  rewrite (delete_version_eq _ _ _ _ _ _ _ _ eq_refl).
  destruct (version_delete_check _ _); [|apply object_write_refl..].
  destruct (is_some _); [|apply object_write_refl]. unfold version_deleted. simpl.
  split; [|by destruct s].
  assert (rows_ok (ms_objects s) ->
          rows_ok (version_deleted_rows cluster_mode now (ms_object_seq s + 1) b k (version_ref version_id)
                     (ms_objects s))) as Hr by (intros; by apply rows_ok_version_deleted).
  destruct cluster_mode.
  - apply (advance_stamp s _ (version_deleted_rows true now (ms_object_seq s + 1) b k
      (version_ref version_id) (ms_objects s))); [by destruct s|by destruct s|done|].
    by apply changes_version_deleted.
  - apply (advance_remove s _ (version_deleted_rows false now (ms_object_seq s + 1) b k
      (version_ref version_id) (ms_objects s))); [by destruct s|by destruct s|done|].
    unfold version_deleted_rows. repeat changes_step.
Qed.

Lemma apply_remote_object_write r s : object_write s (apply_remote_object r s).1.
Proof.
  rewrite apply_remote_object_eq. fold (to_write r (ms_objects s)). simpl. split; [|by destruct s].
  assert (rows_ok (ms_objects s) -> rows_ok (replicated_rows (ms_object_seq s + 1) r (ms_objects s)))
    as Hr by apply rows_ok_replicated.
  destruct (to_write r (ms_objects s)) eqn:E.
  - apply (advance_stamp s _ (replicated_rows (ms_object_seq s + 1) r (ms_objects s)));
      [by destruct s|by destruct s|done|]. by apply changes_replicated.
  - apply (advance_remove s _ (replicated_rows (ms_object_seq s + 1) r (ms_objects s)));
      [by destruct s|by destruct s|done|].
    unfold replicated_rows. fold (to_write r (ms_objects s)). rewrite E. repeat changes_step.
Qed.

(** ** Composition of statements *)

Lemma map_err_state {S E E' A : Type} (f : E -> E') (m : act S E A) s : (map_err f m s).1 = (m s).1.
Proof. unfold map_err. by destruct (m s) as [? []]. Qed.

Lemma atomically_state {S E A : Type} (P : S -> Prop) (m : act S E A) s :
  P s -> P (m s).1 -> P (atomically m s).1.
Proof. unfold atomically. by destruct (m s) as [? []]. Qed.

Lemma atomically_ok_inv {S E A : Type} (m : act S E A) s s' a : atomically m s = (s', Ok a) -> m s = (s', Ok a).
Proof. unfold atomically. by destruct (m s) as [? []]. Qed.

Lemma map_err_ok_inv {S E E' A : Type} (f : E -> E') (m : act S E A) s s' a :
  map_err f m s = (s', Ok a) -> m s = (s', Ok a).
Proof. unfold map_err. destruct (m s) as [? []]; by intros [= <- <-]. Qed.

Lemma bind_write {E A B : Type} (R : MetaStore -> MetaStore -> Prop) (m : mact E A) (f : A -> mact E B) s :
  (forall s1 s2 s3, R s1 s2 -> R s2 s3 -> R s1 s3) ->
  R s (m s).1 -> (forall a s1, m s = (s1, Ok a) -> R s1 (f a s1).1) -> R s (act_bind m f s).1.
Proof.
  intros Ht Hm Hf. unfold act_bind. destruct (m s) as [s1 [a| |]]; [|done..].
  by apply (Ht s s1 _ Hm), Hf.
Qed.

Lemma object_write_same s s' :
  ms_objects s' = ms_objects s -> ms_object_seq s' = ms_object_seq s -> same_tables s s' -> object_write s s'.
Proof. intros Ho Hq Ht. split; [by apply advance_same|done]. Qed.

Lemma write_object_tags_write b k v tags s : object_write s (write_object_tags b k v tags s).1.
Proof.
  unfold write_object_tags. apply bind_write; [apply object_write_trans|by apply object_write_same; destruct s|].
  intros n s1 _. apply (act_for_inv _ (object_write s1)); [|apply object_write_refl].
  intros t s2 _ Hs. unfold insert_tag. destruct (ms_object_tags s2 !! _); [done|].
  eapply object_write_trans; [done|]. by apply object_write_same; destruct s2.
Qed.

Lemma put_write uuid r pre tags s :
  fresh_version (o_bucket r) (o_key r) uuid (ms_objects s) ->
  object_write s (put_object_tagged_if uuid r pre tags s).1.
Proof.
  intros Hf. unfold put_object_tagged_if, map_cas_result. rewrite map_err_state.
  apply atomically_state; [apply object_write_refl|].
  apply bind_write; [apply object_write_trans|by apply install_write|].
  intros [r' old] s1 _. apply bind_write; [apply object_write_trans| |intros; apply object_write_refl].
  unfold when. destruct (negb _); [|apply object_write_refl].
  rewrite map_err_state. apply write_object_tags_write.
Qed.

Lemma take_upload_advance {E} u s : advance s (take_upload (E:=E) u s).1.
Proof. by apply advance_same; destruct s. Qed.

Lemma complete_advance uuid u r pre tags s :
  fresh_version (o_bucket r) (o_key r) uuid (ms_objects s) ->
  advance s (complete_multipart_object_tagged uuid u r pre tags s).1.
Proof.
  intros Hf. unfold complete_multipart_object_tagged, map_cas_result. rewrite map_err_state.
  apply atomically_state; [apply advance_refl|].
  apply bind_write; [apply advance_trans|apply advance_refl|]. intros up s0 [= <- <-].
  apply bind_write; [apply advance_trans|destruct (get_multipart_upload u s); apply advance_refl|].
  intros t s1 H1. assert (s1 = s) as -> by (destruct (get_multipart_upload u s); [by injection H1|done]).
  apply bind_write; [apply advance_trans|by apply install_write|].
  intros [r' old] s2 _. apply bind_write; [apply advance_trans|..].
  - unfold when. destruct (negb _); [|apply advance_refl].
    rewrite map_err_state. apply write_object_tags_write.
  - intros _ s3 _. apply bind_write; [apply advance_trans|apply take_upload_advance|].
    intros; apply advance_refl.
Qed.

Lemma update_target_write b k v f s :
  keeps_flags f -> object_write s (update_target b k v f s).1.
Proof.
  intros Hf. unfold update_target, act_bind, next_object_seq, update_objects, act_ret. simpl.
  split; [|by destruct s].
  apply (advance_stamp s _ (update_where (target b k v) (map_row_at (ms_object_seq s + 1) f) (ms_objects s)));
    [by destruct s|by destruct s| |by apply changes_update_at].
  by apply (rows_ok_update _ _ f).
Qed.

Lemma keeps_flags_set_lock mode until hold at_ : keeps_flags (set_lock mode until hold at_).
Proof. by intros []. Qed.

Lemma keeps_flags_set_content blob alg kid at_ : keeps_flags (set_content blob alg kid at_).
Proof. by intros []. Qed.

(** ** Each operation advances the store *)

Lemma delete_latest_advance c now uuid b k pre owner op res s :
  fresh_version b k uuid (ms_objects s) ->
  advance s (map_cas_result op res (atomically (delete_latest_in_tx c now uuid b k pre owner)) s).1.
Proof.
  intros Hf. unfold map_cas_result. rewrite map_err_state.
  apply atomically_state; [apply advance_refl|by apply delete_latest_write].
Qed.

Lemma delete_version_advance c now b k version_id pre op res s :
  advance s (map_cas_result op res (atomically (delete_version_in_tx c now b k version_id pre)) s).1.
Proof.
  unfold map_cas_result. rewrite map_err_state.
  apply atomically_state; [apply advance_refl|apply delete_version_write].
Qed.

Lemma remote_version_delete_advance now b k version_id s :
  advance s (apply_remote_version_delete now b k version_id s).1.
Proof.
  rewrite apply_remote_version_delete_eq. simpl.
  apply (advance_stamp s _ (recompute b k
    (update_where (fun x => at_key b k x /\ version_is (version_ref version_id) x /\ live x)
       (map_row_at (ms_object_seq s + 1) (as_tombstone now)) (ms_objects s))));
    [by destruct s|by destruct s|intros; by apply rows_ok_remote_deleted|repeat changes_step].
Qed.

Lemma purge_advance before s : advance s (purge_tombstones before s).1.
Proof.
  apply (advance_remove s _ (delete_where (fun x => o_is_tombstone (row_rec x) = true /\
    (o_last_modified (row_rec x) < before)%Z) (ms_objects s)));
    [by destruct s|by destruct s| |apply changes_delete].
  apply rows_ok_purge. by intros x [].
Qed.

Lemma seed_advance s : advance s (seed_object_seq_to_max s).1.
Proof.
  unfold seed_object_seq_to_max. destruct s; split; simpl; [done|lia|apply changes_refl].
Qed.

Lemma replication_status_advance b k v st s :
  advance s (set_object_replication_status b k v st s).1.
Proof.
  assert (forall (P : ObjRow -> Prop) `{!forall x, Decision (P x)},
    advance s (with_objects (update_where P (map_row (set_replication_status st)) (ms_objects s)) s)) as H.
  { intros P ?. apply (advance_remove s _ (update_where P (map_row (set_replication_status st)) (ms_objects s)));
      [by destruct s|by destruct s|..].
    - apply (rows_ok_update _ _ (set_replication_status st)); [done|by intros []].
    - apply changes_update. intros; apply content_set_replication_status. }
  unfold set_object_replication_status, act_bind. destruct v; apply H.
Qed.

Lemma encryption_cas_advance now b k v old new alg kid s :
  advance s (update_object_encryption_cas now b k v old new alg kid s).1.
Proof.
  unfold update_object_encryption_cas, act_bind, next_object_seq, update_objects, act_ret. simpl.
  apply (advance_stamp s _ (update_where (fun x => target b k v x /\ o_blob_id (row_rec x) = old)
    (map_row_at (ms_object_seq s + 1) (set_content new alg kid (Some now))) (ms_objects s)));
    [by destruct s|by destruct s| |by apply changes_update_at].
  apply (rows_ok_update _ _ (set_content new alg kid (Some now))); [done|apply keeps_flags_set_content].
Qed.

Lemma update_target_advance b k v f s : keeps_flags f -> advance s (update_target b k v f s).1.
Proof. intros. by apply update_target_write. Qed.

Lemma bucket_tags_advance op b tags ts s :
  advance s (internal op (atomically (replace_bucket_tags b tags ts)) s).1.
Proof.
  unfold internal. rewrite map_err_state. apply atomically_state; [apply advance_refl|].
  unfold replace_bucket_tags. apply bind_write; [apply advance_trans|by apply advance_same; destruct s|].
  intros n s1 _. apply (act_for_inv _ (advance s1)); [|apply advance_refl].
  intros t s2 _ Hs. unfold insert_bucket_tag. destruct (ms_bucket_tags s2 !! _); [done|].
  eapply advance_trans; [done|]. by apply advance_same; destruct s2.
Qed.

Lemma object_tags_advance op b k v tags s :
  advance s (internal op (atomically (write_object_tags b k v tags)) s).1.
Proof.
  unfold internal. rewrite map_err_state.
  apply atomically_state; [apply advance_refl|apply write_object_tags_write].
Qed.

Create HintDb advance.
#[local] Hint Resolve advance_refl delete_latest_advance delete_version_advance
  remote_version_delete_advance purge_advance seed_advance replication_status_advance
  encryption_cas_advance update_target_advance bucket_tags_advance object_tags_advance
  complete_advance take_upload_advance : advance.

Lemma step_advance c s s' : meta_step c s s' -> advance s s'.
Proof.
  destruct 1; try solve [by eauto with advance | by apply advance_same; destruct s].
  - by apply put_write.
  - unfold delete_entry. destruct (bd_version_id e); by eauto with advance.
  - apply apply_remote_object_write.
  - by apply advance_same; unfold apply_remote_multipart_upload, modify; simpl;
      destruct (ms_uploads s !! _), s.
  - apply update_target_write. intros r. apply keeps_flags_set_lock.
  - apply update_target_write. intros r. apply keeps_flags_set_lock.
  - apply update_target_write. intros r. apply keeps_flags_set_content.
  - unfold create_bucket_owned. destruct (ms_buckets s !! name); [apply advance_refl|].
    by apply advance_same; destruct s.
  - unfold create_multipart_upload. destruct (ms_uploads s !! _); [apply advance_refl|].
    by apply advance_same; destruct s.
Qed.

(** ** Keyed tables *)

Definition tables_keyed (s : MetaStore) : Prop :=
  map_Forall (fun n b => b_name b = n) (ms_buckets s) /\
  map_Forall (fun u r => mu_upload_id r = u) (ms_uploads s) /\
  map_Forall (fun id p => (pt_upload_id p, pt_part_number p) = id) (ms_parts s).

Definition keeps_keyed (s s' : MetaStore) : Prop := tables_keyed s -> tables_keyed s'.

Lemma keeps_keyed_refl s : keeps_keyed s s.
Proof. by unfold keeps_keyed. Qed.
#[local] Hint Resolve keeps_keyed_refl : core.

(** Closes the case of an operation on other tables. *)
Ltac keyed_same s := destruct s; exact (fun H => H).

Lemma keeps_keyed_trans s1 s2 s3 : keeps_keyed s1 s2 -> keeps_keyed s2 s3 -> keeps_keyed s1 s3.
Proof. unfold keeps_keyed. auto. Qed.

Lemma keeps_keyed_write s s' : object_write s s' -> keeps_keyed s s'.
Proof.
  intros [_ (Hb & _ & _ & Hu & Hp)]. unfold keeps_keyed, tables_keyed. by rewrite Hb, Hu, Hp.
Qed.

Lemma take_upload_keyed {E} u s : keeps_keyed s (take_upload (E:=E) u s).1.
Proof.
  intros (Hb & Hu & Hp). destruct s. simpl in *. split; [done|]. split.
  - by apply map_Forall_delete.
  - intros id p [Hid _]%map_lookup_filter_Some. by apply Hp.
Qed.

Lemma complete_keyed uuid u r pre tags s :
  fresh_version (o_bucket r) (o_key r) uuid (ms_objects s) ->
  keeps_keyed s (complete_multipart_object_tagged uuid u r pre tags s).1.
Proof.
  intros Hf. unfold complete_multipart_object_tagged, map_cas_result. rewrite map_err_state.
  apply atomically_state; [apply keeps_keyed_refl|].
  apply bind_write; [apply keeps_keyed_trans|done|]. intros up s0 [= <- <-].
  apply bind_write; [apply keeps_keyed_trans|by destruct (get_multipart_upload u s)|].
  intros t s1 H1. assert (s1 = s) as -> by (destruct (get_multipart_upload u s); [by injection H1|done]).
  apply bind_write; [apply keeps_keyed_trans|by apply keeps_keyed_write, install_write|].
  intros [r' old] s2 _. apply bind_write; [apply keeps_keyed_trans|..].
  - unfold when. destruct (negb _); [|apply keeps_keyed_refl].
    rewrite map_err_state. apply keeps_keyed_write, write_object_tags_write.
  - intros _ s3 _. apply bind_write; [apply keeps_keyed_trans|apply take_upload_keyed|done].
Qed.

Lemma bucket_tags_keyed op b tags ts s :
  keeps_keyed s (internal op (atomically (replace_bucket_tags b tags ts)) s).1.
Proof.
  unfold internal. rewrite map_err_state. apply atomically_state; [apply keeps_keyed_refl|].
  unfold replace_bucket_tags. apply bind_write; [apply keeps_keyed_trans|keyed_same s|].
  intros n s1 _. apply (act_for_inv _ (keeps_keyed s1)); [|apply keeps_keyed_refl].
  intros t s2 _ Hs. unfold insert_bucket_tag. destruct (ms_bucket_tags s2 !! _); [done|].
  eapply keeps_keyed_trans; [done|]. keyed_same s2.
Qed.

(** A call that runs an object write in a transaction. *)
Lemma atomic_keyed {E E' A : Type} (f : E -> E') (m : mact E A) s :
  object_write s (m s).1 -> keeps_keyed s (map_err f (atomically m) s).1.
Proof.
  intros H. rewrite map_err_state. apply atomically_state; [apply keeps_keyed_refl|].
  by apply keeps_keyed_write.
Qed.

Lemma insert_keyed {A} (m : gmap string A) (id : A -> string) x :
  map_Forall (fun n b => id b = n) m -> map_Forall (fun n b => id b = n) (<[id x := x]> m).
Proof. intros Hm. by apply map_Forall_insert_2. Qed.

Lemma step_keyed c s s' : meta_step c s s' -> keeps_keyed s s'.
Proof.
  destruct 1; try solve [keyed_same s | by apply bucket_tags_keyed].
  - by apply keeps_keyed_write, put_write.
  - by apply complete_keyed.
  - by apply atomic_keyed, delete_latest_write.
  - by apply atomic_keyed, delete_version_write.
  - unfold delete_entry. destruct (bd_version_id e); apply atomic_keyed;
      [apply delete_version_write|by apply delete_latest_write].
  - apply keeps_keyed_write, apply_remote_object_write.
  - rewrite apply_remote_version_delete_eq. keyed_same s.
  - destruct s. intros (Hb & Hup & Hpa). split; [by apply insert_keyed|done].
  - unfold apply_remote_multipart_upload, modify. simpl. destruct (ms_uploads s !! _); [done|].
    destruct s. intros (Hb & Hup & Hpa). split; [done|split; [by apply insert_keyed|done]].
  - destruct v; keyed_same s.
  - unfold create_bucket_owned. destruct (ms_buckets s !! name); [done|].
    destruct s. intros (Hb & Hup & Hpa). split; [|done]. simpl in *. by apply map_Forall_insert_2.
  - destruct s. intros (Hb & Hup & Hpa). split; [by apply map_Forall_delete|done].
  - unfold put_object_tags, internal. apply atomic_keyed, write_object_tags_write.
  - unfold create_multipart_upload. destruct (ms_uploads s !! _); [done|].
    destruct s. intros (Hb & Hup & Hpa). split; [done|split; [by apply insert_keyed|done]].
  - destruct s. intros (Hb & Hup & Hpa). split; [done|split; [done|]]. by apply map_Forall_insert_2.
  - apply take_upload_keyed.
Qed.

(** ** The invariant *)

Record meta_ok (s : MetaStore) : Prop := {
  mo_rows : rows_ok (ms_objects s);
  mo_seq : seq_bound (ms_object_seq s) (ms_objects s);
  mo_keyed : tables_keyed s;
}.

Lemma seq_bound_advance s s' :
  advance s s' -> seq_bound (ms_object_seq s) (ms_objects s) -> seq_bound (ms_object_seq s') (ms_objects s').
Proof.
  intros [_ Hq Hc] Hb i x Hi. destruct (Hc i x Hi) as [?|(j & y & Hj & E)]; [lia|].
  assert (row_seq y = row_seq x) as <- by (unfold content in E; congruence).
  pose proof (Hb j y Hj). lia.
Qed.

Lemma step_meta_ok c s s' : meta_step c s s' -> meta_ok s -> meta_ok s'.
Proof.
  intros H [Hr Hq Hk]. pose proof (step_advance _ _ _ H) as Ha. split.
  - by apply (adv_rows _ _ Ha).
  - by apply (seq_bound_advance s).
  - by apply (step_keyed c s).
Qed.

Lemma empty_meta_ok : meta_ok empty_meta.
Proof.
  assert (forall i : N, (∅ : gmap N ObjRow) !! i = None) as He by (intros; apply lookup_empty).
  split; [|by intros i x Hi; simpl in Hi; rewrite He in Hi|by repeat split; apply map_Forall_empty].
  intros b k. split; [|apply latest_ok_no_rows]; simpl.
  - intros i j x y Hi. by rewrite He in Hi.
  - intros i x Hi. by rewrite He in Hi.
Qed.

Lemma steps_advance c s s' : rtc (meta_step c) s s' -> advance s s'.
Proof.
  induction 1 as [s|s1 s2 s3 H _ IH]; [apply advance_refl|].
  eapply advance_trans; [by eapply step_advance|done].
Qed.

Lemma steps_meta_ok c s s' : rtc (meta_step c) s s' -> meta_ok s -> meta_ok s'.
Proof. induction 1 as [|s1 s2 s3 H _ IH]; [done|]. intros Hs. by eapply IH, step_meta_ok. Qed.

(** C1. Every store reachable from the empty one by the operations of the
    metadata store (writes, conditional writes and deletes, multipart
    completion, batch deletes, replicated rows, tombstone purge, lock,
    encryption, tag, configuration and upload changes; single-node or
    clustered) satisfies the invariant: one row per version of a key, exactly
    one latest row for a key with a row that is not a tombstone and none
    otherwise, no tombstone marked latest, sequence numbers bounded by the
    counter, and every keyed table keyed by its rows. *)
Theorem metadata_store_invariant (cluster_mode : bool) (s : MetaStore) :
  rtc (meta_step cluster_mode) empty_meta s -> meta_ok s.
Proof. intros H. by eapply steps_meta_ok, empty_meta_ok. Qed.

(** A store with one versioned object, then its delete marker. *)
Definition sample_versioned : MetaStore := (set_bucket_config 5 "bucket" "versioning" "Enabled" empty_meta).1.
Definition sample_put : MetaStore :=
  (put_object_tagged_if "v1" (sample_row "blob" 10 None None None) no_write_precondition [] sample_versioned).1.
Definition sample_deleted : MetaStore :=
  (delete_object_if true 20 "v2" "bucket" "key" no_delete_precondition "root" sample_put).1.

Lemma sample_put_step : meta_step true sample_versioned sample_put.
Proof.
  apply step_put. intros i x Hi. unfold sample_versioned in Hi. simpl in Hi. by rewrite lookup_empty in Hi.
Qed.

Lemma sample_put_fresh : fresh_version "bucket" "key" "v2" (ms_objects sample_put).
Proof.
  assert (Forall (fun e : N * ObjRow => at_key "bucket" "key" e.2 -> o_version_id (row_rec e.2) <> Some "v2")
            (map_to_list (ms_objects sample_put))) as H by (vm_compute; repeat constructor; congruence).
  intros i x Hi. rewrite Forall_forall in H. apply (H (i, x)). by apply elem_of_map_to_list.
Qed.

Lemma sample_deleted_step : meta_step true sample_put sample_deleted.
Proof. apply step_delete, sample_put_fresh. Qed.

Lemma metadata_store_invariant_witness : meta_ok sample_deleted.
Proof.
  apply (metadata_store_invariant true).
  eapply rtc_l; [apply (step_set_bucket_config _ 5 "bucket" "versioning" "Enabled")|].
  eapply rtc_l; [apply sample_put_step|]. apply rtc_once, sample_deleted_step.
Defined.

(** ** The change manifest *)

(** A row above the cursor is in the page, or the page is full of rows that come
    no later. *)
Lemma elem_of_changed_since since max s x i :
  (0 <= since < 2 ^ 63)%Z -> ms_objects s !! i = Some x -> (since < row_seq x)%Z ->
  let page := list_rows_changed_since since max s in
  (row_seq x, row_rec x) ∈ page \/
  length page = Z.to_nat max /\ forall e, e ∈ page -> (e.1 <= row_seq x)%Z.
Proof.
  intros Hs Hi Hx page. unfold page, list_rows_changed_since, limit.
  set (rows := rows_where _ _). pose proof (sorted_by_sorted (cmp_on row_seq Z.compare) rows) as Hsort.
  assert (x ∈ sorted_by (cmp_on row_seq Z.compare) rows) as Hin.
  { apply elem_of_sorted_by, elem_of_rows_where. split; [|eauto].
    unfold as_i64. destruct (since <? 2 ^ 63)%Z eqn:E; lia. }
  rewrite <- fmap_take. set (l := sorted_by _ rows) in *. set (n := Z.to_nat max).
  rewrite <- (take_drop n l), elem_of_app in Hin. destruct Hin as [Hin|Hin].
  - left. apply list_elem_of_fmap. by exists x.
  - right. split.
    + rewrite length_fmap, length_take. apply list_elem_of_lookup in Hin as [k Hk%lookup_lt_Some].
      rewrite length_drop in Hk. lia.
    + intros e (y & -> & Hy)%list_elem_of_fmap. cbn [fst].
      rewrite <- (take_drop n l) in Hsort. apply StronglySorted_app in Hsort as (Hc & _ & _).
      specialize (Hc y x Hy Hin). unfold order_by, cmp_on in Hc. by apply Z.compare_le_iff.
Qed.

Lemma changed_since_sound since max s e :
  (0 <= since < 2 ^ 63)%Z -> e ∈ list_rows_changed_since since max s ->
  (since < e.1)%Z /\ exists i x, ms_objects s !! i = Some x /\ e = (row_seq x, row_rec x).
Proof.
  intros Hs He. unfold list_rows_changed_since, limit in He. rewrite <- fmap_take in He.
  apply list_elem_of_fmap in He as (x & -> & Hx). apply elem_of_take in Hx as (k & Hk%list_elem_of_lookup_2 & _).
  apply elem_of_sorted_by, elem_of_rows_where in Hk as [Hq [i Hi]].
  split; [|eauto]. unfold as_i64 in Hq. cbn [fst]. destruct (since <? 2 ^ 63)%Z eqn:E; lia.
Qed.

(** C19. The change manifest is complete: whatever operations run between two
    visits of a peer, each row of the later store was already there unchanged
    (up to the derived latest flag and the node's own replication status) when
    the cursor was read, or is in the page of rows changed since that cursor,
    or the page is full and each row of it has a sequence number at most the
    row's, so that the row comes in a later page (or shares the number of the
    last row of this one).  The page has only rows of the store that are past
    the cursor. *)
Theorem changed_since_complete (cluster_mode : bool) (s s' : MetaStore) (max : Z) :
  rtc (meta_step cluster_mode) s s' ->
  (0 <= current_object_seq s)%Z -> (current_object_seq s < 2 ^ 63)%Z ->
  let page := list_rows_changed_since (current_object_seq s) max s' in
  (forall i x, ms_objects s' !! i = Some x ->
    (exists j y, ms_objects s !! j = Some y /\ content y = content x) \/
    (row_seq x, row_rec x) ∈ page \/
    length page = Z.to_nat max /\ forall e, e ∈ page -> (e.1 <= row_seq x)%Z) /\
  (forall e, e ∈ page -> (current_object_seq s < e.1)%Z /\
    exists i x, ms_objects s' !! i = Some x /\ e = (row_seq x, row_rec x)).
Proof.
  intros Hs H0 H1 page. split; [|intros e; by apply changed_since_sound].
  intros i x Hi. apply steps_advance in Hs as [_ _ Hc].
  destruct (Hc i x Hi) as [[Hq _]|]; [right|by left]. by apply (elem_of_changed_since _ _ _ _ i).
Qed.

Lemma changed_since_complete_witness :
  let page := list_rows_changed_since (current_object_seq sample_put) 100 sample_deleted in
  let marker := MkRow (delete_marker "bucket" "key" "root" (Some "v2") 20) 2 in
  (exists j y, ms_objects sample_put !! j = Some y /\ content y = content marker) \/
  (2%Z, delete_marker "bucket" "key" "root" (Some "v2") 20) ∈ page \/
  length page = Z.to_nat 100 /\ forall e, e ∈ page -> (e.1 <= row_seq marker)%Z.
Proof.
  apply (changed_since_complete true sample_put sample_deleted 100) with (i := 1%N).
  - apply rtc_once, sample_deleted_step.
  - by vm_compute.
  - by vm_compute.
  - by vm_compute.
Defined.
