(* ===== verification/MetadataOps.v ===== *)
(** What the metadata store promises to its clients: a write is read back, a
    conditional write is decided on the object it replaces, deletes hide an
    object and keep what the bucket's versioning keeps, a version delete
    promotes the newest remaining version, and other keys are untouched. *)

From S2P Require Import Prelude S3Errors Policy Types SqlTable Text Preconditions MetadataStore MetadataRows.
From S2P Require Import MetadataInvariant MetadataSteps.

(** ** Reads in terms of rows *)

Section reads.
Context (s : MetaStore).
Hypothesis Hs : rows_ok (ms_objects s).
Implicit Types (b k : string) (r : ObjectRecord).

Lemma get_object_Some b k r :
  get_object b k s = Some r <->
  exists i x, ms_objects s !! i = Some x /\ at_key b k x /\ latest x /\ not_marker x /\
    r = without_parts (row_rec x).
Proof.
  destruct (Hs b k) as (_ & Hone & _). unfold get_object. rewrite fmap_Some. split.
  - intros (x & [Hx [i Hi]]%query_row_Some & ->). exists i, x. by destruct_and! Hx.
  - intros (i & x & Hi & Hk & Hl & Hm & ->). exists x. split; [|done].
    apply (query_row_unique _ _ i); [|done..]. intros j y Hj (Hky & Hly & _).
    assert (j = i) as -> by by apply (Hone j i y x). congruence.
Qed.

Lemma get_latest_object_Some b k r :
  get_latest_object b k s = Some r <->
  exists i x, ms_objects s !! i = Some x /\ at_key b k x /\ latest x /\ r = without_parts (row_rec x).
Proof.
  destruct (Hs b k) as (_ & Hone & _). unfold get_latest_object. rewrite fmap_Some. split.
  - intros (x & [Hx [i Hi]]%query_row_Some & ->). exists i, x. by destruct_and! Hx.
  - intros (i & x & Hi & Hk & Hl & ->). exists x. split; [|done].
    apply (query_row_unique _ _ i); [|done..]. intros j y Hj (Hky & Hly).
    assert (j = i) as -> by by apply (Hone j i y x). congruence.
Qed.

Lemma get_object_version_Some b k v r :
  get_object_version b k v s = Some r <->
  exists i x, ms_objects s !! i = Some x /\ at_key b k x /\ version_is (version_ref v) x /\ live x /\
    r = without_parts (row_rec x).
Proof.
  destruct (Hs b k) as (Hu & _). unfold get_object_version. rewrite fmap_Some. split.
  - intros (x & [Hx [i Hi]]%query_row_Some & ->). exists i, x. by destruct_and! Hx.
  - intros (i & x & Hi & Hk & Hv & Hl & ->). exists x. split; [|done].
    apply (query_row_unique _ _ i); [|done..]. intros j y Hj (Hky & Hvy & _).
    assert (j = i) as -> by (apply (Hu j i y x); congruence). congruence.
Qed.
End reads.

Lemma option_ext {A : Type} (o1 o2 : option A) : (forall a, o1 = Some a <-> o2 = Some a) -> o1 = o2.
Proof.
  intros H. destruct o1 as [a|]; [symmetry; by apply H|]. destruct o2 as [a|]; [by apply H|done].
Qed.

(** Keys an operation does not name read the same. *)
Lemma frame_reads b k b' k' s s' :
  rows_ok (ms_objects s) -> rows_ok (ms_objects s') -> frame b k (ms_objects s) (ms_objects s') ->
  (b', k') <> (b, k) ->
  get_object b' k' s' = get_object b' k' s /\ get_latest_object b' k' s' = get_latest_object b' k' s /\
  forall v, get_object_version b' k' v s' = get_object_version b' k' v s.
Proof.
  intros Hs Hs' Hf Hne.
  assert (forall i x, at_key b' k' x -> (ms_objects s !! i = Some x <-> ms_objects s' !! i = Some x)) as H.
  { intros i x [<- <-]. apply Hf. intros [E1 E2]. apply Hne. by rewrite E1, E2. }
  split; [|split; [|intros v]]; apply option_ext; intros r.
  - rewrite !get_object_Some by done.
    split; intros (i & x & Hi & Hk & Hr); exists i, x; (split; [by apply H|done]).
  - rewrite !get_latest_object_Some by done.
    split; intros (i & x & Hi & Hk & Hr); exists i, x; (split; [by apply H|done]).
  - rewrite !get_object_version_Some by done.
    split; intros (i & x & Hi & Hk & Hr); exists i, x; (split; [by apply H|done]).
Qed.

(** ** The frame of a write *)

Lemma frame_installed v uuid seq r m :
  frame (o_bucket r) (o_key r) m (installed_rows v uuid seq r m).
Proof.
  assert (forall vid m', frame (o_bucket r) (o_key r) m' (insert_row
    (MkRow (inserted_columns (as_current vid r)) seq) m')) as Hins.
  { intros vid m'. apply frame_insert. simpl. by destruct (fields_as_current vid r) as (-> & -> & _). }
  unfold installed_rows. destruct v; [destruct (o_is_tombstone r)|..].
  - eapply frame_trans; [|apply frame_recompute]. eapply frame_trans; [|apply Hins].
    by apply (frame_delete _ _ (fun x => at_key (o_bucket r) (o_key r) x)).
  - eapply frame_trans; [|apply Hins]. by apply (frame_delete _ _ (fun x => at_key (o_bucket r) (o_key r) x)).
  - eapply frame_trans; [|apply frame_recompute]. eapply frame_trans; [|apply Hins]. apply frame_unlatest.
  - eapply frame_trans; [|apply frame_recompute]. eapply frame_trans; [|apply Hins].
    eapply frame_trans; [|apply frame_unlatest].
    apply (frame_delete _ _ (fun x => at_key (o_bucket r) (o_key r) x /\ version_is None x)). by intros ? [].
Qed.

Lemma frame_deleted v c now uuid seq b k owner m :
  frame b k m (deleted_rows v c now uuid seq b k owner m).
Proof.
  unfold deleted_rows. destruct v; [destruct (is_some _); [destruct c|]|..].
  - eapply frame_trans; [|apply frame_recompute]. apply frame_update; [apply keeps_id_tombstone|done].
  - by apply (frame_delete _ _ (fun x => at_key b k x)).
  - apply frame_refl.
  - eapply frame_trans; [|by apply frame_insert]. apply frame_unlatest.
  - eapply frame_trans; [|by apply frame_insert]. eapply frame_trans; [|apply frame_unlatest].
    apply (frame_delete _ _ (fun x => at_key b k x /\ version_is None x)). by intros ? [].
Qed.

Lemma frame_version_deleted c now seq b k v m : frame b k m (version_deleted_rows c now seq b k v m).
Proof.
  unfold version_deleted_rows. eapply frame_trans; [|apply frame_recompute]. destruct c.
  - apply frame_update; [apply keeps_id_tombstone|by intros ? []].
  - apply (frame_delete _ _ (fun x => at_key b k x /\ version_is v x)). by intros ? [].
Qed.

(** ** Conditional writes *)

Lemma insert_tags_ok b k v tags s :
  NoDup tags.*1 -> (forall t, t ∈ tags -> ms_object_tags s !! (b, k, v, t.1) = None) ->
  exists ot, act_for (insert_tag b k v) tags s = (with_object_tags ot s, Ok tt).
Proof.
  revert s. induction tags as [|t tags IH]; intros s Hnd Hn.
  - exists (ms_object_tags s). by destruct s.
  - simpl in Hnd. apply NoDup_cons in Hnd as [Hnt Hnd]. simpl. unfold act_bind, insert_tag at 1.
    rewrite Hn by (by left). destruct (IH (with_object_tags (<[(b, k, v, t.1) := t.2]> (ms_object_tags s)) s))
      as [ot Hot]; [done| |].
    + intros u Hu. replace (ms_object_tags (with_object_tags _ s)) with
        (<[(b, k, v, t.1) := t.2]> (ms_object_tags s)) by (by destruct s).
      rewrite lookup_insert_ne; [apply Hn; by right|]. intros [= E]. apply Hnt. rewrite E.
      by apply list_elem_of_fmap_2.
    + exists ot. simpl. rewrite Hot. by destruct s.
Qed.

Lemma write_object_tags_ok b k v tags s :
  NoDup tags.*1 -> exists ot, write_object_tags b k v tags s = (with_object_tags ot s, Ok tt).
Proof.
  intros Hnd. unfold write_object_tags. erewrite act_bind_run by reflexivity.
  destruct (insert_tags_ok b k v tags
    (with_object_tags (filter (fun e => ~ tag_of_version b k v e.1) (ms_object_tags s)) s) Hnd) as [ot Hot].
  - intros t _. destruct s. simpl. apply map_lookup_filter_None. right. intros x _ Hx. by apply Hx.
  - exists ot. rewrite Hot. by destruct s.
Qed.

Lemma put_ok uuid r pre tags s v :
  NoDup tags.*1 -> get_versioning_state (o_bucket r) s = v ->
  write_evaluate pre (get_object (o_bucket r) (o_key r) s) = Ok tt ->
  exists s',
    put_object_tagged_if uuid r pre tags s =
    (s', Ok (overwritten v (o_bucket r) (o_key r) s, new_version v uuid)) /\
    objects_become s (installed_rows v uuid (ms_object_seq s + 1) r (ms_objects s)) (ms_object_seq s + 1) s'.
Proof.
  intros Hnd Hv Hpre. destruct (install_object_ok uuid r pre s v Hv Hpre) as (s1 & Hi & Hb).
  unfold put_object_tagged_if, map_cas_result, map_err, atomically.
  rewrite (act_bind_run _ _ _ _ _ Hi). cbn [fst snd].
  replace (o_version_id (as_current (new_version v uuid) r)) with (new_version v uuid) by (by destruct r).
  unfold when. destruct (negb (bool_decide (tags = []))).
  - destruct (write_object_tags_ok (o_bucket (as_current (new_version v uuid) r))
      (o_key (as_current (new_version v uuid) r)) (coalesce_version (as_current (new_version v uuid) r))
      tags s1 Hnd) as [ot Hot].
    erewrite act_bind_run; [|by rewrite Hot]. eexists. split; [done|].
    unfold objects_become in *. rewrite Hb. by destruct s.
  - exists s1. done.
Qed.

Lemma put_err uuid r pre tags s c :
  write_evaluate pre (get_object (o_bucket r) (o_key r) s) = Err c ->
  put_object_tagged_if uuid r pre tags s =
  (s, Err (S3 (S3Error_new c (object_resource (o_bucket r) (o_key r))))).
Proof.
  intros H. unfold put_object_tagged_if, map_cas_result, map_err, atomically, act_bind.
  by rewrite (install_object_err _ _ _ _ _ H).
Qed.

(** A conditional write is decided inside its transaction, on the object
    that [get_object] returns: with tag keys that are distinct it succeeds
    exactly when the precondition holds on that object, then returns the
    overwritten object and the new version id and the rows are the installed
    ones; otherwise it returns the S3 error of the precondition and the store
    is unchanged.  It never fails with a database error. *)
Theorem put_object_decides (uuid : string) (r : ObjectRecord) (pre : WritePrecondition)
    (tags : list (string * string)) (s : MetaStore) :
  NoDup tags.*1 ->
  let v := get_versioning_state (o_bucket r) s in
  match write_evaluate pre (get_object (o_bucket r) (o_key r) s) with
  | Ok _ =>
      exists s', put_object_tagged_if uuid r pre tags s =
        (s', Ok (overwritten v (o_bucket r) (o_key r) s, new_version v uuid)) /\
        ms_objects s' = installed_rows v uuid (ms_object_seq s + 1) r (ms_objects s) /\ same_tables s s'
  | Err c =>
      put_object_tagged_if uuid r pre tags s =
      (s, Err (S3 (S3Error_new c (object_resource (o_bucket r) (o_key r)))))
  | Panic => False
  end.
Proof.
  intros Hnd v. destruct (write_evaluate _ _) as [[]|c|] eqn:E.
  - destruct (put_ok uuid r pre tags s v Hnd eq_refl E) as (s' & Hput & Hb). exists s'.
    apply objects_become_fields in Hb as (Ho & _ & Ht). done.
  - by apply put_err.
  - by apply (write_evaluate_total _ _ E).
Qed.

Lemma put_object_decides_witness :
  let pre := {| w_if_match := None; w_if_none_match := Some "*" |} in
  put_object_tagged_if "v3" (sample_row "blob" 30 None None None) pre [("a", "1"); ("b", "2")] sample_put =
  (sample_put, Err (S3 (S3Error_new PreconditionFailed "/bucket/key"))).
Proof.
  intros pre. pose proof (put_object_decides "v3" (sample_row "blob" 30 None None None) pre
    [("a", "1"); ("b", "2")] sample_put) as H.
  apply H. apply (bool_decide_unpack _). by vm_compute.
Defined.

(** ** Read after write *)

(** A live row later than every other live row of its key becomes the latest. *)
Lemma newest_wins b k m i x :
  m !! i = Some x -> at_key b k x -> live x ->
  (forall j y, m !! j = Some y -> j <> i -> at_key b k y -> live y ->
     (o_last_modified (row_rec y) < o_last_modified (row_rec x))%Z) ->
  new_latest b k m = Some i.
Proof.
  intros Hi Hk Hl Hmax. destruct (new_latest b k m) as [w|] eqn:E.
  - apply new_latest_Some in E as (z & Hz & Hkz & Hlz & Hnew).
    destruct (decide (w = i)) as [->|Hne]; [done|]. exfalso.
    specialize (Hmax w z Hz Hne Hkz Hlz). apply (Hnew i x Hi Hk Hl).
    unfold newest_first, cmp_then, cmp_on, cmp_desc. by rewrite (proj2 (Z.compare_gt_iff _ _)).
  - by destruct (new_latest_None b k m E i x).
Qed.

(** The rows under the new one. *)
Definition under (v : VersioningState) (b k : string) (m : gmap N ObjRow) : gmap N ObjRow :=
  match v with
  | Unversioned => delete_where (fun x => at_key b k x) m
  | Enabled => unlatest b k m
  | Suspended => unlatest b k (delete_where (fun x => at_key b k x /\ version_is None x) m)
  end.

Lemma under_origin v b k m i x :
  under v b k m !! i = Some x -> at_key b k x ->
  exists y, m !! i = Some y /\ at_key b k y /\ o_last_modified (row_rec x) = o_last_modified (row_rec y) /\
    (live x -> live y).
Proof.
  assert (forall m' i x, unlatest b k m' !! i = Some x -> at_key b k x ->
    exists y, m' !! i = Some y /\ at_key b k y /\ o_last_modified (row_rec x) = o_last_modified (row_rec y) /\
      (live x -> live y)) as Hun.
  { intros m' i' x'. rewrite lookup_unlatest. destruct (m' !! i') as [y|]; [|done]. intros [= <-] Hk.
    exists y. split; [done|]. case_decide; [|done]. by destruct y as [[] ?]. }
  destruct v; simpl.
  - intros [Hi Hn]%lookup_delete_where Hk. done.
  - apply Hun.
  - intros Hi Hk. destruct (Hun _ _ _ Hi Hk) as (y & [Hy _]%lookup_delete_where & Hrest). eauto.
Qed.

Lemma installed_rows_eq v uuid seq r m :
  installed_rows v uuid seq r m =
  let m1 := insert_row (MkRow (inserted_columns (as_current (new_version v uuid) r)) seq)
              (under v (o_bucket r) (o_key r) m) in
  match v with
  | Unversioned => if o_is_tombstone r then recompute (o_bucket r) (o_key r) m1 else m1
  | _ => recompute (o_bucket r) (o_key r) m1
  end.
Proof. by destruct v. Qed.

(** The new row is the latest one, at the index it was inserted at. *)
Lemma installed_latest v uuid seq r m :
  let b := o_bucket r in
  let k := o_key r in
  let m1 := insert_row (MkRow (inserted_columns (as_current (new_version v uuid) r)) seq) (under v b k m) in
  o_is_tombstone r = false ->
  (v = Unversioned \/ forall i y, m !! i = Some y -> at_key b k y -> live y ->
     (o_last_modified (row_rec y) < o_last_modified r)%Z) ->
  new_latest b k m1 = Some (fresh (dom (under v b k m))).
Proof.
  intros b k m1 Ht Hold.
  destruct (fields_as_current (new_version v uuid) r) as (Eb & Ek & Ev & El & Et & _ & Em).
  apply (newest_wins _ _ _ _ (MkRow (inserted_columns (as_current (new_version v uuid) r)) seq)).
  - unfold m1, insert_row. apply lookup_insert_eq.
  - simpl. by rewrite Eb, Ek.
  - simpl. by rewrite Et.
  - intros j y [[? _]|[_ Hj]]%lookup_insert_row Hne Hky Hly; [done|]. simpl. rewrite Em.
    destruct Hold as [->|Hold]; [by apply lookup_delete_where in Hj as [_ []]|].
    apply under_origin in Hj as (z & Hz & Hkz & -> & Hlz); [|done]. by eapply Hold; eauto.
Qed.

Lemma lookup_installed_new v uuid seq r m :
  o_is_tombstone r = false ->
  (v = Unversioned \/ forall i y, m !! i = Some y -> at_key (o_bucket r) (o_key r) y -> live y ->
     (o_last_modified (row_rec y) < o_last_modified r)%Z) ->
  installed_rows v uuid seq r m !! fresh (dom (under v (o_bucket r) (o_key r) m)) =
  Some (MkRow (inserted_columns (as_current (new_version v uuid) r)) seq).
Proof.
  intros Ht Hold. pose proof (installed_latest v uuid seq r m Ht Hold) as Hw.
  destruct (fields_as_current (new_version v uuid) r) as (Eb & Ek & Ev & El & Et & _ & Em).
  rewrite installed_rows_eq. cbv zeta. rewrite Ht.
  assert (forall x, latest x -> map_row (set_latest true) x = x) as Hid.
  { intros [[] ?]. simpl. by intros ->. }
  destruct v; [apply lookup_insert_eq|..]; rewrite lookup_recompute, Hw; unfold insert_row at 1;
    rewrite lookup_insert_eq; cbn [fmap option_fmap option_map];
    rewrite decide_True by (cbn [row_rec]; by rewrite Eb, Ek); rewrite bool_decide_true by done;
    f_equal; by apply Hid.
Qed.

(** The rows of the other versions keep everything but the latest flag. *)
Lemma lookup_installed_old v uuid seq r m i x :
  o_is_tombstone r = false ->
  (forall i y, m !! i = Some y -> at_key (o_bucket r) (o_key r) y -> live y ->
     (o_last_modified (row_rec y) < o_last_modified r)%Z) ->
  v = Enabled -> m !! i = Some x -> at_key (o_bucket r) (o_key r) x ->
  installed_rows v uuid seq r m !! i = Some (map_row (set_latest false) x).
Proof.
  intros Ht Hold -> Hi Hk. pose proof (installed_latest Enabled uuid seq r m Ht (or_intror Hold)) as Hw.
  simpl in Hw. set (b := o_bucket r) in *. set (k := o_key r) in *. unfold installed_rows. fold b k.
  assert (unlatest b k m !! i = Some (map_row (set_latest false) x)) as Hu.
  { rewrite lookup_unlatest, Hi. simpl. by rewrite decide_True. }
  assert (i <> fresh (dom (unlatest b k m))) as Hne.
  { intros ->. by rewrite insert_row_fresh in Hu. }
  rewrite lookup_recompute, Hw. rewrite (proj2 (lookup_insert_row _ _ i (map_row (set_latest false) x))) by auto.
  cbn [fmap option_fmap option_map]. rewrite bool_decide_false by congruence.
  destruct x as [[] ?]. simpl in *. by rewrite decide_True.
Qed.

Lemma without_parts_set_latest c r : without_parts (set_latest c r) = set_latest c (without_parts r).
Proof. by destruct r. Qed.

(** A write is what the next read returns, and the rows stay well formed. *)
Lemma put_reads_back uuid r pre tags s s' old vid :
  rows_ok (ms_objects s) -> NoDup tags.*1 ->
  fresh_version (o_bucket r) (o_key r) uuid (ms_objects s) -> o_is_tombstone r = false ->
  (get_versioning_state (o_bucket r) s = Unversioned \/
   forall i y, ms_objects s !! i = Some y -> at_key (o_bucket r) (o_key r) y -> live y ->
     (o_last_modified (row_rec y) < o_last_modified r)%Z) ->
  put_object_tagged_if uuid r pre tags s = (s', Ok (old, vid)) ->
  get_object (o_bucket r) (o_key r) s' = Some (without_parts (inserted_columns (as_current vid r))) /\
  rows_ok (ms_objects s') /\ ms_buckets s' = ms_buckets s.
Proof.
  intros Hs Hnd Hf Ht Hold Hput.
  destruct (write_evaluate pre (get_object (o_bucket r) (o_key r) s)) as [[]|c|] eqn:E;
    [|by rewrite (put_err _ _ _ _ _ _ E) in Hput|by destruct (write_evaluate_total _ _ E)].
  destruct (put_ok uuid r pre tags s _ Hnd eq_refl E) as (s1 & Hput' & Hb).
  rewrite Hput in Hput'. injection Hput' as <- -> ->. apply objects_become_fields in Hb as (Ho & _ & Hbu & _).
  assert (rows_ok (ms_objects s')) as Hs' by (rewrite Ho; by eapply rows_ok_installed). split; [|done].
  set (v := get_versioning_state (o_bucket r) s) in *. apply get_object_Some; [done|]. rewrite Ho.
  eexists _, _. split; [by apply lookup_installed_new|].
  destruct (fields_as_current (new_version v uuid) r) as (Eb & Ek & Ev & El & Et & Ed & Em). simpl. by rewrite Eb, Ek, El, Ed.
Qed.

(** C15. Read after write: in a store that satisfies the invariant, when a
    write of a record succeeds (its tag keys distinct, its version id fresh and,
    unless the bucket is unversioned, its time strictly later than that of every
    live version of the key), a read of the key returns exactly that record
    under its new version id, without its part layout; with versioning enabled
    every earlier version stays readable with only its latest flag cleared; and
    every other key reads as before. *)
Theorem put_then_get (uuid : string) (r : ObjectRecord) (pre : WritePrecondition)
    (tags : list (string * string)) (s s' : MetaStore) (old : option ObjectRecord) (vid : option string) :
  rows_ok (ms_objects s) -> NoDup tags.*1 ->
  fresh_version (o_bucket r) (o_key r) uuid (ms_objects s) -> o_is_tombstone r = false ->
  (get_versioning_state (o_bucket r) s = Unversioned \/
   forall i y, ms_objects s !! i = Some y -> at_key (o_bucket r) (o_key r) y -> live y ->
     (o_last_modified (row_rec y) < o_last_modified r)%Z) ->
  put_object_tagged_if uuid r pre tags s = (s', Ok (old, vid)) ->
  get_object (o_bucket r) (o_key r) s' = Some (without_parts (inserted_columns (as_current vid r))) /\
  (get_versioning_state (o_bucket r) s = Enabled -> forall v o,
     get_object_version (o_bucket r) (o_key r) v s = Some o ->
     get_object_version (o_bucket r) (o_key r) v s' = Some (set_latest false o)) /\
  (forall b k, (b, k) <> (o_bucket r, o_key r) -> get_object b k s' = get_object b k s).
Proof.
  intros Hs Hnd Hf Ht Hold Hput. destruct (put_reads_back _ _ _ _ _ _ _ _ Hs Hnd Hf Ht Hold Hput) as (Hg & Hs' & _).
  destruct (write_evaluate pre (get_object (o_bucket r) (o_key r) s)) as [[]|c|] eqn:E;
    [|by rewrite (put_err _ _ _ _ _ _ E) in Hput|by destruct (write_evaluate_total _ _ E)].
  destruct (put_ok uuid r pre tags s _ Hnd eq_refl E) as (s1 & Hput' & Hb).
  rewrite Hput in Hput'. injection Hput' as <- -> ->. apply objects_become_fields in Hb as (Ho & _).
  set (v := get_versioning_state (o_bucket r) s) in *. split; [done|split].
  - intros Hv w o. rewrite !get_object_version_Some by done. intros (i & x & Hi & Hk & Hvx & Hl & ->).
    destruct Hold as [?|Hold]; [congruence|]. exists i, (map_row (set_latest false) x).
    rewrite Ho. split; [by apply lookup_installed_old|]. simpl.
    destruct (fields_set_latest false (row_rec x)) as (-> & -> & -> & _ & -> & _).
    by rewrite without_parts_set_latest.
  - intros b k Hne. apply (frame_reads (o_bucket r) (o_key r)); [done..| |done].
    rewrite Ho. apply frame_installed.
Qed.

Lemma put_then_get_witness :
  get_object "bucket" "key" sample_put = Some (sample_row "blob" 10 None None None).
Proof.
  apply (put_then_get "v1" (sample_row "blob" 10 None None None) no_write_precondition []
           sample_versioned sample_put None (Some "v1")).
  - apply empty_meta_ok.
  - constructor.
  - intros i x Hi. unfold sample_versioned in Hi. simpl in Hi. by rewrite lookup_empty in Hi.
  - done.
  - right. intros i y Hi. unfold sample_versioned in Hi. simpl in Hi. by rewrite lookup_empty in Hi.
  - by vm_compute.
Defined.

(** ** Deletes *)

Lemma delete_object_ok c now uuid b k pre owner s v :
  get_versioning_state b s = v -> delete_evaluate pre (get_latest_object b k s) = Ok tt ->
  exists s',
    delete_object_if c now uuid b k pre owner s = (s', Ok (delete_result v now uuid b k owner s)) /\
    objects_become s (deleted_rows v c now uuid (ms_object_seq s + 1) b k owner (ms_objects s))
      (deleted_seq v c b k s) s'.
Proof.
  intros Hv H. destruct (delete_latest_ok c now uuid b k pre owner s v Hv H) as (s' & Hd & Hb).
  exists s'. split; [|done]. unfold delete_object_if, map_cas_result, map_err, atomically. by rewrite Hd.
Qed.

Lemma delete_object_err c now uuid b k pre owner s e :
  delete_evaluate pre (get_latest_object b k s) = Err e ->
  delete_object_if c now uuid b k pre owner s = (s, Err (S3 (S3Error_new e (object_resource b k)))).
Proof.
  intros H. unfold delete_object_if, map_cas_result, map_err, atomically.
  by rewrite (delete_latest_err _ _ _ _ _ _ _ _ _ H).
Qed.

(** After a delete no latest row of the key is an object. *)
Lemma deleted_no_current v c now uuid seq b k owner m i x :
  deleted_rows v c now uuid seq b k owner m !! i = Some x -> at_key b k x -> latest x -> ~ not_marker x.
Proof.
  unfold deleted_rows. intros Hi Hk Hl Hnm. destruct v.
  - destruct (is_some (query_row _ m)) eqn:Eq.
    + destruct c.
      * destruct (latest_ok_recompute b k
          (update_where (fun x => at_key b k x) (map_row_at seq (as_tombstone now)) m)) as (_ & Hll & _).
        specialize (Hll i x Hi Hk Hl).
        apply recompute_origin in Hi as (y & Hy & [[Hky ->]|[Hky ->]]); [|done].
        apply update_origin in Hy as (z & Hz & [[_ ->]|[Hn ->]]); [by destruct z as [[] ?]|done].
      * by apply lookup_delete_where in Hi as [_ []].
    + destruct (query_row _ m) eqn:E; [done|]. by apply (proj1 (query_row_None _ m) E i x Hi).
  - apply lookup_insert_row in Hi as [[_ ->]|[_ Hi]]; [done|].
    by rewrite (unlatest_no_latest b k m i x Hi Hk) in Hl.
  - apply lookup_insert_row in Hi as [[_ ->]|[_ Hi]]; [done|].
    by rewrite (unlatest_no_latest _ _ _ i x Hi Hk) in Hl.
Qed.

(** The versions of the key after a delete, by the bucket's versioning: a delete
    marker is the latest row of a versioned bucket, and the earlier versions
    (in a suspended bucket, those other than the null version) keep all but
    their latest flag. *)
Definition versions_after (v : VersioningState) (now : Z) (uuid b k owner : string) (s s' : MetaStore) : Prop :=
  match v with
  | Unversioned => get_latest_object b k s <> None -> forall w, get_object_version b k w s' = None
  | Enabled =>
      get_latest_object b k s' = Some (delete_marker b k owner (Some uuid) now) /\
      forall w o, get_object_version b k w s = Some o -> get_object_version b k w s' = Some (set_latest false o)
  | Suspended =>
      get_latest_object b k s' = Some (delete_marker b k owner None now) /\
      forall w o, version_ref w <> None -> get_object_version b k w s = Some o ->
        get_object_version b k w s' = Some (set_latest false o)
  end.

Lemma marker_is_latest b k owner vid now seq m s' :
  rows_ok (ms_objects s') -> ms_objects s' = insert_row (MkRow (delete_marker b k owner vid now) seq) m ->
  get_latest_object b k s' = Some (delete_marker b k owner vid now).
Proof.
  intros Hs' Ho. apply get_latest_object_Some; [done|]. rewrite Ho. eexists _, _.
  split; [apply lookup_insert_eq|]. done.
Qed.

Lemma version_kept b k x i m r w s' :
  rows_ok (ms_objects s') -> ms_objects s' = insert_row r (unlatest b k m) ->
  m !! i = Some x -> at_key b k x -> version_is (version_ref w) x -> live x ->
  get_object_version b k w s' = Some (set_latest false (without_parts (row_rec x))).
Proof.
  intros Hs' Ho Hi Hk Hvx Hl. rewrite get_object_version_Some by done.
  exists i, (map_row (set_latest false) x). simpl.
  destruct (fields_set_latest false (row_rec x)) as (-> & -> & -> & _ & -> & _).
  rewrite without_parts_set_latest. split; [|done]. rewrite Ho. apply lookup_insert_row. right.
  assert (unlatest b k m !! i = Some (map_row (set_latest false) x)) as Hu.
  { rewrite lookup_unlatest, Hi. simpl. by rewrite decide_True. }
  split; [|done]. intros ->. by rewrite insert_row_fresh in Hu.
Qed.

Lemma deleted_versions v c now uuid seq b k owner s s' :
  rows_ok (ms_objects s) -> rows_ok (ms_objects s') ->
  ms_objects s' = deleted_rows v c now uuid seq b k owner (ms_objects s) ->
  versions_after v now uuid b k owner s s'.
Proof.
  intros Hs Hs' Ho. unfold deleted_rows in Ho. destruct v; simpl.
  - intros Hg w. destruct (get_object_version b k w s') as [o|] eqn:E; [exfalso|done].
    apply get_object_version_Some in E as (i & x & Hi & Hk & _ & Hl & _); [|done]. rewrite Ho in Hi.
    destruct (query_row _ (ms_objects s)) as [y|] eqn:Eq.
    + destruct c; simpl in Hi; [|by apply lookup_delete_where in Hi as [_ []]].
      apply recompute_origin in Hi as (y' & Hy & [[Hky ->]|[Hky ->]]); [|done].
      apply update_origin in Hy as (z & Hz & [[_ ->]|[Hn ->]]); [by destruct z as [[] ?]|done].
    + apply Hg. destruct (get_latest_object b k s) as [o'|] eqn:Eg; [|done].
      apply get_latest_object_Some in Eg as (j & y & Hj & Hky & Hly & _); [|done].
      by destruct (proj1 (query_row_None _ _) Eq j y Hj).
  - split; [by eapply marker_is_latest|]. intros w o.
    rewrite (get_object_version_Some s) by done. intros (i & x & Hi & Hk & Hvx & Hl & ->). by eapply version_kept.
  - split; [by eapply marker_is_latest|]. intros w o Hw.
    rewrite (get_object_version_Some s) by done. intros (i & x & Hi & Hk & Hvx & Hl & ->).
    eapply version_kept; [done|done| |done..]. apply lookup_delete_where. split; [done|].
    intros [_ Hn]. by rewrite Hn in Hvx.
Qed.

(** C16. A delete that succeeds hides the object: a read of the key then finds
    nothing, whatever the bucket's versioning and in either mode.  In a
    versioned bucket it adds a delete marker and every version stays readable
    with only its latest flag cleared; in an unversioned bucket of a cluster
    every row of the key becomes a tombstone with a fresh sequence number, so
    the deletion reaches the peers.  Other keys read as before. *)
Theorem delete_hides (c : bool) (now : Z) (uuid b k : string) (pre : DeletePrecondition) (owner : string)
    (s s' : MetaStore) (res : option ObjectRecord) :
  rows_ok (ms_objects s) -> fresh_version b k uuid (ms_objects s) ->
  delete_object_if c now uuid b k pre owner s = (s', Ok res) ->
  get_object b k s' = None /\
  (get_versioning_state b s = Enabled ->
     get_latest_object b k s' = Some (delete_marker b k owner (Some uuid) now) /\
     forall v o, get_object_version b k v s = Some o ->
       get_object_version b k v s' = Some (set_latest false o)) /\
  (get_versioning_state b s = Unversioned -> c = true -> get_object b k s <> None ->
     forall i x, ms_objects s' !! i = Some x -> at_key b k x ->
       o_is_tombstone (row_rec x) = true /\ row_seq x = (ms_object_seq s + 1)%Z) /\
  (forall b' k', (b', k') <> (b, k) -> get_object b' k' s' = get_object b' k' s).
Proof.
  intros Hs Hf Hdel.
  destruct (delete_evaluate pre (get_latest_object b k s)) as [[]|e|] eqn:E;
    [|by rewrite (delete_object_err _ _ _ _ _ _ _ _ _ E) in Hdel|by destruct (delete_evaluate_total _ _ E)].
  destruct (delete_object_ok c now uuid b k pre owner s _ eq_refl E) as (s1 & Hdel' & Hb).
  rewrite Hdel in Hdel'. injection Hdel' as <- _. apply objects_become_fields in Hb as (Ho & _).
  assert (rows_ok (ms_objects s')) as Hs' by (rewrite Ho; by apply rows_ok_deleted).
  split; [|split; [|split]].
  - destruct (get_object b k s') as [o|] eqn:Eg; [|done].
    apply get_object_Some in Eg as (i & x & Hi & Hk & Hl & Hm & _); [|done].
    rewrite Ho in Hi. by destruct (deleted_no_current _ _ _ _ _ _ _ _ _ _ _ Hi Hk Hl).
  - intros Hv. rewrite Hv in Ho. exact (deleted_versions Enabled _ _ _ _ _ _ _ _ _ Hs Hs' Ho).
  - intros Hv -> Hg i x Hi Hk. rewrite Ho, Hv in Hi. unfold deleted_rows in Hi.
    destruct (query_row _ (ms_objects s)) as [y|] eqn:Eq.
    + simpl in Hi. apply recompute_origin in Hi as (y' & Hy & [[Hky ->]|[Hky ->]]); [|done].
      apply update_origin in Hy as (z & Hz & [[_ ->]|[Hn ->]]); [by destruct z as [[] ?]|done].
    + destruct Hg. destruct (get_object b k s) as [o|] eqn:Eg; [|done].
      apply get_object_Some in Eg as (j & y & Hj & Hky & Hly & _); [|done].
      by destruct (proj1 (query_row_None _ _) Eq j y Hj).
  - intros b' k' Hne. apply (frame_reads b k); [done..| |done]. rewrite Ho. apply frame_deleted.
Qed.

Lemma sample_put_ok : meta_ok sample_put.
Proof.
  eapply step_meta_ok; [apply sample_put_step|].
  eapply step_meta_ok; [apply (step_set_bucket_config true 5 "bucket" "versioning" "Enabled")|].
  apply empty_meta_ok.
Qed.

Lemma delete_hides_witness :
  get_object "bucket" "key" sample_put = Some (sample_row "blob" 10 None None None) /\
  get_object "bucket" "key" sample_deleted = None.
Proof.
  split; [by vm_compute|].
  apply (delete_hides true 20 "v2" "bucket" "key" no_delete_precondition "root" sample_put sample_deleted
           (Some (delete_marker "bucket" "key" "root" (Some "v2") 20))).
  - apply sample_put_ok.
  - apply sample_put_fresh.
  - by vm_compute.
Defined.

(** ** Version deletes *)

Lemma newest_first_set_latest c d r q :
  newest_first (set_latest c r) (set_latest d q) = newest_first r q.
Proof. by destruct r, q. Qed.

Lemma newest_first_without_parts r q : newest_first (without_parts r) (without_parts q) = newest_first r q.
Proof. by destruct r, q. Qed.

Lemma recompute_newest b k m i x j y :
  recompute b k m !! i = Some x -> at_key b k x -> latest x ->
  recompute b k m !! j = Some y -> at_key b k y -> live y -> newest_first (row_rec x) (row_rec y) <> Gt.
Proof.
  intros (x0 & Hx0 & [[_ ->]|[Hn ->]])%recompute_origin Hkx Hlx; [|done].
  intros (y0 & Hy0 & [[Hky ->]|[Hn ->]])%recompute_origin Hk Hl; [|done].
  assert (new_latest b k m = Some i) as Hw.
  { destruct x0 as [[] ?]. simpl in Hlx. by apply bool_decide_eq_true in Hlx. }
  apply new_latest_Some in Hw as (z & Hz & _ & _ & Hmax). rewrite Hx0 in Hz. injection Hz as <-.
  simpl. rewrite newest_first_set_latest. apply (Hmax j); [done..|]. by destruct y0 as [[] ?].
Qed.

(** The rows of the deleted version, and of the others. *)
Lemma version_deleted_origin c now seq b k v m i x :
  version_deleted_rows c now seq b k v m !! i = Some x -> at_key b k x -> live x ->
  o_version_id (row_rec x) <> v /\ exists y, m !! i = Some y /\ at_key b k y /\
    set_latest false (row_rec x) = set_latest false (row_rec y).
Proof.
  unfold version_deleted_rows. intros (y & Hy & [[Hky ->]|[Hn ->]])%recompute_origin Hk Hl; [|done].
  assert (live y) as Hly by (by destruct y as [[] ?]). destruct c.
  - apply update_origin in Hy as (z & Hz & [[_ ->]|[Hn ->]]); [by destruct z as [[] ?]|].
    split; [|exists z; by destruct z as [[] ?]]. intros Hv. apply Hn. by destruct z as [[] ?].
  - apply lookup_delete_where in Hy as [Hy Hn].
    split; [|exists y; by destruct y as [[] ?]]. intros Hv. apply Hn. by destruct y as [[] ?].
Qed.

Lemma version_deleted_keeps c now seq b k v m i x :
  m !! i = Some x -> at_key b k x -> o_version_id (row_rec x) <> v ->
  exists l, version_deleted_rows c now seq b k v m !! i = Some (map_row (set_latest l) x).
Proof.
  intros Hi Hk Hv. unfold version_deleted_rows. eexists. rewrite lookup_recompute.
  assert ((if c then update_where (fun x => at_key b k x /\ version_is v x) (map_row_at seq (as_tombstone now)) m
           else delete_where (fun x => at_key b k x /\ version_is v x) m) !! i = Some x) as ->.
  { destruct c; [|apply lookup_delete_where; split; [done|by intros []]].
    rewrite lookup_update_where, Hi. simpl. by rewrite decide_False by (by intros []). }
  cbn [fmap option_fmap option_map]. by rewrite decide_True.
Qed.

(** Deleting a version makes it unreadable, keeps every other version of
    the key (up to the latest flag), and makes the newest remaining version in
    the order (last modified, version id, blob id) the current one; when none
    remains the key reads as absent.  Other keys read as before. *)
Theorem delete_version_promotes (c : bool) (now : Z) (b k version_id : string) (pre : DeletePrecondition)
    (s s' : MetaStore) (o : ObjectRecord) :
  rows_ok (ms_objects s) ->
  delete_object_version_if c now b k version_id pre s = (s', Ok (Some o)) ->
  get_object_version b k version_id s' = None /\
  (forall v w, version_ref v <> version_ref version_id -> get_object_version b k v s = Some w ->
     exists l, get_object_version b k v s' = Some (set_latest l w)) /\
  (forall l v w, get_latest_object b k s' = Some l -> get_object_version b k v s' = Some w ->
     newest_first l w <> Gt) /\
  (get_latest_object b k s' = None -> forall v, get_object_version b k v s' = None) /\
  (forall b' k', (b', k') <> (b, k) -> get_object b' k' s' = get_object b' k' s).
Proof.
  intros Hs Hdel. unfold delete_object_version_if, map_cas_result, map_err, atomically in Hdel.
  rewrite (delete_version_eq _ _ _ _ _ _ _ _ eq_refl) in Hdel.
  destruct (version_delete_check _ _); [|done..]. injection Hdel as <- Hd. rewrite Hd. simpl. clear Hd.
  set (s1 := version_deleted c now b k (version_ref version_id) s).
  assert (ms_objects s1 = version_deleted_rows c now (ms_object_seq s + 1) b k (version_ref version_id)
                            (ms_objects s)) as Ho by (by destruct s).
  assert (rows_ok (ms_objects s1)) as Hs1 by (rewrite Ho; by apply rows_ok_version_deleted).
  split; [|split; [|split; [|split]]].
  - destruct (get_object_version b k version_id s1) as [w|] eqn:E; [|done].
    apply get_object_version_Some in E as (i & x & Hi & Hk & Hv & Hl & _); [|done].
    rewrite Ho in Hi. by apply version_deleted_origin in Hi as [Hne _].
  - intros v w Hne. rewrite get_object_version_Some by done. intros (i & x & Hi & Hk & Hv & Hl & ->).
    destruct (version_deleted_keeps c now (ms_object_seq s + 1) b k (version_ref version_id)
      (ms_objects s) i x) as [l Hi']; [done..|congruence|].
    exists l. apply get_object_version_Some; [done|]. exists i, (map_row (set_latest l) x).
    rewrite Ho. split; [done|]. simpl. destruct (fields_set_latest l (row_rec x)) as (-> & -> & -> & _ & -> & _).
    by rewrite without_parts_set_latest.
  - intros l v w. rewrite get_latest_object_Some, get_object_version_Some by done.
    intros (i & x & Hi & Hk & Hl & ->) (j & y & Hj & Hky & _ & Hly & ->).
    rewrite newest_first_without_parts. rewrite Ho in Hi, Hj. by eapply recompute_newest.
  - intros Hn v. destruct (get_object_version b k v s1) as [w|] eqn:E; [|done].
    apply get_object_version_Some in E as (i & x & Hi & Hk & _ & Hl & _); [|done].
    destruct (Hs1 b k) as (_ & _ & _ & Hlive). destruct (Hlive i x Hi Hk Hl) as (j & y & Hj & Hky & Hly).
    assert (get_latest_object b k s1 = Some (without_parts (row_rec y))) by
      (apply get_latest_object_Some; [done|]; eauto 10). congruence.
  - intros b' k' Hne. apply (frame_reads b k); [done..| |done]. rewrite Ho. apply frame_version_deleted.
Qed.

(** Deleting the delete marker brings the object back. *)
Lemma delete_version_promotes_witness :
  let s' := (delete_object_version_if true 30 "bucket" "key" "v2" no_delete_precondition sample_deleted).1 in
  get_object "bucket" "key" s' = Some (sample_row "blob" 10 None None None) /\
  get_object_version "bucket" "key" "v2" s' = None.
Proof.
  intros s'. split; [by vm_compute|].
  refine (proj1 (delete_version_promotes true 30 "bucket" "key" "v2" no_delete_precondition sample_deleted s'
           (delete_marker "bucket" "key" "root" (Some "v2") 20) _ _)).
  - apply mo_rows, (step_meta_ok true sample_put); [apply sample_deleted_step|apply sample_put_ok].
  - by vm_compute.
Defined.
