(* ===== verification/MetadataListing.v ===== *)
(** Listings, lifecycle queries, multipart uploads and blob references of the
    metadata store: paging never skips or repeats a row, the expiry query
    returns only versions a rule may expire, completing an upload consumes it
    once, and a blob some readable row or part refers to is never unreferenced. *)

From S2P Require Import Prelude S3Errors Policy Types SqlTable Text Preconditions MetadataStore MetadataRows.
From S2P Require Import MetadataInvariant MetadataSteps MetadataOps.

(** ** Result sets *)

(** A column that identifies the selected rows. *)
Lemma rows_where_NoDup {R B : Type} (P : R -> Prop) `{!forall r, Decision (P r)} (g : R -> B) (m : gmap N R) :
  (forall i j x y, m !! i = Some x -> m !! j = Some y -> P x -> P y -> g x = g y -> i = j) ->
  NoDup (g <$> rows_where P m).
Proof.
  intros Hinj. unfold rows_where. rewrite list_filter_fmap, <- list_fmap_compose.
  apply NoDup_fmap_2_strong; [|apply NoDup_filter, NoDup_map_to_list].
  intros [i x] [j y] [Hx Hi%elem_of_map_to_list]%list_elem_of_filter
    [Hy Hj%elem_of_map_to_list]%list_elem_of_filter E. simpl in *.
  assert (i = j) as -> by by apply (Hinj i j x y). congruence.
Qed.

Lemma rows_where_filter {R B : Type} (P Q : R -> Prop) `{!forall r, Decision (P r)}
    `{!forall r, Decision (Q r)} (g : R -> B) (S : B -> Prop) `{!forall b, Decision (S b)} (m : gmap N R) :
  (forall i x, m !! i = Some x -> Q x <-> P x /\ S (g x)) ->
  g <$> rows_where Q m = filter S (g <$> rows_where P m).
Proof.
  intros HQ. rewrite list_filter_fmap. f_equal. unfold rows_where.
  assert (forall x, x ∈ (map_to_list m).*2 -> Q x <-> P x /\ S (g x)) as H'.
  { intros x ([i y] & -> & Hi%elem_of_map_to_list)%list_elem_of_fmap. by apply (HQ i). }
  clear HQ. induction (map_to_list m).*2 as [|x l IH]; [done|].
  assert (filter Q l = filter (fun x => S (g x)) (filter P l)) as IH' by (apply IH; intros; apply H'; by right).
  specialize (H' x ltac:(by left)). rewrite !filter_cons.
  repeat case_decide; rewrite ?filter_cons, ?IH'; try tauto; case_decide; tauto.
Qed.

(** Queries over two tables that have the same selected rows. *)
Lemma rows_where_perm {R : Type} (P Q : R -> Prop) `{!forall r, Decision (P r)} `{!forall r, Decision (Q r)} (m m' : gmap N R) :
  (forall i x, m !! i = Some x /\ P x <-> m' !! i = Some x /\ Q x) -> rows_where P m ≡ₚ rows_where Q m'.
Proof.
  intros Hi. unfold rows_where. rewrite !list_filter_fmap. apply fmap_Permutation, NoDup_Permutation.
  - apply NoDup_filter, NoDup_map_to_list.
  - apply NoDup_filter, NoDup_map_to_list.
  - intros [i x]. rewrite !list_elem_of_filter, !elem_of_map_to_list. cbn. specialize (Hi i x). tauto.
Qed.

Lemma limit_app {A : Type} (l : list A) n m : (0 <= n)%Z -> (0 <= m)%Z ->
  limit (n + m) l = take (Z.to_nat n + Z.to_nat m) l.
Proof. intros. unfold limit. by rewrite Z2Nat.inj_add. Qed.

Lemma last_elem_of {A : Type} (l : list A) n x : last (take n l) = Some x -> x ∈ l.
Proof.
  intros H. apply last_Some_elem_of in H. apply elem_of_take in H as (i & Hi & _).
  by apply list_elem_of_lookup_2 in Hi.
Qed.

(** ** Listing the objects of a bucket *)

(** The rows of a query on the latest rows of a bucket, after a key. *)
Section keyed_listing.
Variables (bucket : string) (s : MetaStore) (base : ObjRow -> Prop).
Context `{!forall x, Decision (base x)}.
Hypothesis Hs : rows_ok (ms_objects s).
Hypothesis base_latest : forall x, base x -> o_bucket (row_rec x) = bucket /\ latest x.

Definition listed (start_after : option string) (x : ObjRow) : Prop :=
  base x /\ if_given start_after (fun sa => String.ltb sa (o_key (row_rec x))) = true.

#[local] Instance listed_dec sa x : Decision (listed sa x).
Proof. unfold listed. apply _. Defined.

Definition listing (sa : option string) : list ObjectRecord :=
  without_parts ∘ row_rec <$> rows_where (listed sa) (ms_objects s).

Lemma listed_key_inj sa i j x y :
  ms_objects s !! i = Some x -> ms_objects s !! j = Some y -> listed sa x -> listed sa y ->
  o_key (row_rec x) = o_key (row_rec y) -> i = j.
Proof.
  intros Hi Hj [[Hbx Hlx]%base_latest _] [[Hby Hly]%base_latest _] E.
  destruct (Hs bucket (o_key (row_rec y))) as (_ & Hone & _). by apply (Hone i j x y).
Qed.

Lemma listing_NoDup sa : NoDup (listing sa).
Proof.
  apply (NoDup_fmap_1 o_key). unfold listing. rewrite <- list_fmap_compose.
  apply rows_where_NoDup. intros i j x y Hi Hj Hx Hy E. apply (listed_key_inj sa i j x y Hi Hj Hx Hy).
  by destruct x as [[] ?], y as [[] ?].
Qed.

Lemma listing_strict sa : strictly (cmp_on o_key String.compare) (listing sa).
Proof.
  intros r q (x & -> & [Hx [i Hi]]%elem_of_rows_where)%list_elem_of_fmap
    (y & -> & [Hy [j Hj]]%elem_of_rows_where)%list_elem_of_fmap E%string_compare_Eq.
  assert (i = j) as ->; [|congruence]. apply (listed_key_inj sa i j x y Hi Hj Hx Hy).
  by destruct x as [[] ?], y as [[] ?].
Qed.

(** The rows after a row of the listing. *)
Lemma listing_resume sa r :
  r ∈ listing sa ->
  listing (Some (o_key r)) = filter (fun q => cmp_on o_key String.compare r q = Lt) (listing sa).
Proof.
  intros (x & -> & [Hx _]%elem_of_rows_where)%list_elem_of_fmap. unfold listing.
  apply rows_where_filter. intros i y Hi. unfold listed, cmp_on, compose.
  replace (o_key (without_parts (row_rec y))) with (o_key (row_rec y)) by (by destruct (row_rec y)).
  rewrite string_compare_Lt. simpl. split.
  - intros [Hb Hlt]. split; [|done]. split; [done|].
    destruct Hx as [_ Hsa]. destruct sa as [a|]; [|done]. simpl in *.
    replace (o_key (without_parts (row_rec x))) with (o_key (row_rec x)) in Hlt by (by destruct (row_rec x)).
    by apply string_ltb_trans with (o_key (row_rec x)).
  - intros [[Hb _] Hlt]. done.
Qed.

(** What is left after a row of the sorted listing. *)
Lemma listing_rest sa l1 x l2 :
  sorted_by (cmp_on o_key String.compare) (listing sa) = l1 ++ x :: l2 ->
  sorted_by (cmp_on o_key String.compare) (listing (Some (o_key x))) = l2.
Proof.
  intros E. rewrite (listing_resume sa x).
  - rewrite sorted_by_filter by (try apply _; by apply listing_strict). rewrite E.
    apply filter_after; [apply _|rewrite <- E; by rewrite sorted_by_perm; apply listing_NoDup|
      |rewrite <- E; apply sorted_by_sorted; apply _].
    rewrite <- E. intros y z. rewrite !elem_of_sorted_by. apply listing_strict.
  - apply (elem_of_sorted_by (cmp_on o_key String.compare)). rewrite E. apply elem_of_app. right. by left.
Qed.
End keyed_listing.

(** The condition of [list_objects]. *)
Definition objects_of (bucket : string) (prefix : option string) (x : ObjRow) : Prop :=
  o_bucket (row_rec x) = bucket /\ latest x /\ not_marker x
  /\ if_given prefix (fun p => in_prefix_range p (o_key (row_rec x))) = true.

#[export] Instance objects_of_dec bucket prefix x : Decision (objects_of bucket prefix x).
Proof. unfold objects_of. apply _. Defined.

Lemma objects_of_latest bucket prefix x : objects_of bucket prefix x -> o_bucket (row_rec x) = bucket /\ latest x.
Proof. by intros (? & ? & _). Qed.

Lemma list_objects_listing bucket prefix sa n s :
  list_objects bucket prefix sa n s =
  limit n (sorted_by (cmp_on o_key String.compare) (listing s (objects_of bucket prefix) sa)).
Proof.
  unfold list_objects, listing, rows_where. do 2 f_equal. f_equal. apply list_filter_iff. intros x.
  unfold listed, objects_of. tauto.
Qed.

(** Listing objects by pages neither skips nor repeats a key: a page of
    [n] objects followed by the page of [m] objects that starts after the last
    key of the first is the page of [n + m] objects, for every bucket, prefix
    and starting key. *)
Theorem list_objects_pages (bucket : string) (prefix start_after : option string) (n m : Z)
    (s : MetaStore) (x : ObjectRecord) :
  rows_ok (ms_objects s) -> (0 <= n)%Z -> (0 <= m)%Z ->
  last (list_objects bucket prefix start_after n s) = Some x ->
  list_objects bucket prefix start_after (n + m) s =
  list_objects bucket prefix start_after n s ++ list_objects bucket prefix (Some (o_key x)) m s.
Proof.
  intros Hs Hn Hm. rewrite !list_objects_listing. intros Hx.
  rewrite (listing_resume s (objects_of bucket prefix) start_after x).
  - rewrite limit_app by done. unfold limit in *.
    apply page_append; [apply _|eapply listing_NoDup|eapply listing_strict|done]; (exact Hs || apply objects_of_latest).
  - apply last_elem_of in Hx. by rewrite elem_of_sorted_by in Hx.
Qed.

Definition sample_two : MetaStore :=
  (put_object_if "v" (MkObject "bucket" "zebra" "blob2" 1 "e" None 11 ∅ None None "root" None true false false
     None None None "STANDARD" None None None None None None) no_write_precondition
    (put_object_if "v" (sample_row "blob" 10 None None None) no_write_precondition empty_meta).1).1.

Lemma sample_two_ok : rows_ok (ms_objects sample_two).
Proof.
  assert (forall i : N, ms_objects empty_meta !! i = None) as He by (intros; apply lookup_empty).
  set (s1 := (put_object_if "v" (sample_row "blob" 10 None None None) no_write_precondition empty_meta).1).
  assert (meta_step false empty_meta s1) as H1.
  { apply step_put. intros i x Hi. by rewrite He in Hi. }
  apply mo_rows, (step_meta_ok false s1); [|by apply (step_meta_ok false empty_meta), empty_meta_ok].
  apply step_put.
  assert (Forall (fun e : N * ObjRow => at_key "bucket" "zebra" e.2 -> o_version_id (row_rec e.2) <> Some "v")
            (map_to_list (ms_objects s1))) as H by (vm_compute; repeat constructor; congruence).
  intros i x Hi. rewrite Forall_forall in H. apply (H (i, x)). by apply elem_of_map_to_list.
Qed.

Lemma list_objects_pages_witness :
  o_key <$> list_objects "bucket" None None 2 sample_two = ["key"; "zebra"] /\
  list_objects "bucket" None None (1 + 1) sample_two =
  list_objects "bucket" None None 1 sample_two ++ list_objects "bucket" None (Some "key") 1 sample_two.
Proof.
  split; [by vm_compute|].
  apply (list_objects_pages "bucket" None None 1 1 sample_two
    (without_parts (inserted_columns (as_current None (sample_row "blob" 10 None None None))))).
  - apply sample_two_ok.
  - done.
  - done.
  - by vm_compute.
Defined.

(** ** Listing the versions of a bucket *)

#[export] Instance version_order_order : CmpOrder version_order.
Proof. unfold version_order. apply _. Qed.

Lemma version_order_Lt x r :
  version_order x r = Lt <->
  String.ltb (o_key x) (o_key r) = true \/
  o_key x = o_key r /\ ((o_last_modified r < o_last_modified x)%Z \/
    o_last_modified r = o_last_modified x /\ String.ltb (coalesce_version r) (coalesce_version x) = true).
Proof.
  unfold version_order, cmp_then, cmp_on, cmp_desc. rewrite <- !string_compare_Lt.
  destruct (String.compare (o_key x) (o_key r)) eqn:E1.
  - apply string_compare_Eq in E1. destruct (Z.compare_spec (o_last_modified r) (o_last_modified x)).
    + split; [intros; right; auto|]. intros [?|(_ & [?|[_ ?]])]; [done|lia|done].
    + split; [intros; right; auto|done].
    + split; [done|]. intros [?|(_ & [?|[? _]])]; [done|lia|lia].
  - split; [auto|done].
  - split; [done|]. intros [?|(E & _)]; [done|]. by apply string_compare_Eq in E; congruence.
Qed.

Lemma version_order_Eq x r :
  version_order x r = Eq ->
  o_key x = o_key r /\ o_last_modified x = o_last_modified r /\ coalesce_version x = coalesce_version r.
Proof.
  unfold version_order. rewrite !cmp_then_Eq. unfold cmp_on, cmp_desc.
  intros (E1 & E2 & E3). apply string_compare_Eq in E1, E3. apply Z.compare_eq in E2. done.
Qed.

Lemma after_position_spec k p r :
  after_position k p r = true <->
  String.ltb k (o_key r) = true \/
  o_key r = k /\ ((o_last_modified r < vp_last_modified p)%Z \/
    o_last_modified r = vp_last_modified p /\ String.ltb (coalesce_version r) (vp_version_id p) = true).
Proof.
  unfold after_position. rewrite orb_true_iff, andb_true_iff, bool_decide_eq_true, orb_true_iff,
    andb_true_iff, Z.ltb_lt, Z.eqb_eq. done.
Qed.

Lemma after_position_of x r :
  after_position (o_key x) (position_of x) r = true <-> version_order x r = Lt.
Proof.
  rewrite after_position_spec, version_order_Lt. unfold position_of. cbn.
  split; (intros [?|[? ?]]; [by left|right; split; [by symmetry|done]]).
Qed.

(** The marker condition of a version listing. *)
Definition past (key_marker : option string) (after : option VersionPosition) (r : ObjectRecord) : bool :=
  if_given (key_marker ≫= (fun km => if bool_decide (km = EmptyString) then None else Some km))
    (fun k => match after with Some p => after_position k p r | None => String.ltb k (o_key r) end).

Lemma past_trans km after x r :
  past km after x = true -> version_order x r = Lt -> past km after r = true.
Proof.
  unfold past. destruct (km ≫= _) as [k|]; [|done]. simpl. rewrite version_order_Lt.
  destruct after as [p|].
  - rewrite !after_position_spec. intros [Hk|[Hk Hp]] [Hx|[Hx Hv]].
    + left. by apply string_ltb_trans with (o_key x).
    + left. by rewrite <- Hx.
    + left. by rewrite <- Hk.
    + right. split; [congruence|]. destruct Hp as [?|[? ?]], Hv as [?|[? ?]]; [left; lia..|].
      right. split; [lia|]. by apply string_ltb_trans with (coalesce_version x).
  - intros Hk [Hx|[Hx _]]; [by apply string_ltb_trans with (o_key x)|by rewrite <- Hx].
Qed.

Section list_versions.
Variables (bucket : string) (prefix : option string) (s : MetaStore).
Hypothesis Hs : rows_ok (ms_objects s).
(** Version ids and keys are not empty. *)
Hypothesis Hids : forall i x, ms_objects s !! i = Some x ->
  o_version_id (row_rec x) <> Some EmptyString /\ o_key (row_rec x) <> EmptyString.

Definition version_listed (km : option string) (after : option VersionPosition) (x : ObjRow) : Prop :=
  o_bucket (row_rec x) = bucket /\ live x
  /\ if_given prefix (fun p => in_prefix_range p (o_key (row_rec x))) = true
  /\ past km after (row_rec x) = true.

#[local] Instance version_listed_dec km after x : Decision (version_listed km after x).
Proof. unfold version_listed. apply _. Defined.

Definition version_listing km after : list ObjectRecord :=
  without_parts ∘ row_rec <$> rows_where (version_listed km after) (ms_objects s).

Lemma version_order_without_parts x r : version_order (without_parts x) (without_parts r) = version_order x r.
Proof. by destruct x, r. Qed.

Lemma version_listed_inj km after i j x y :
  ms_objects s !! i = Some x -> ms_objects s !! j = Some y ->
  version_listed km after x -> version_listed km after y ->
  o_key (row_rec x) = o_key (row_rec y) -> coalesce_version (row_rec x) = coalesce_version (row_rec y) -> i = j.
Proof.
  intros Hi Hj (Hbx & _) (Hby & _) Ek Ev. destruct (Hs bucket (o_key (row_rec y))) as (Hu & _).
  apply (Hu i j x y); try done. destruct (Hids i x Hi) as [Hx _], (Hids j y Hj) as [Hy _].
  unfold coalesce_version in Ev. destruct (o_version_id (row_rec x)), (o_version_id (row_rec y)); simpl in *;
    congruence.
Qed.

Lemma version_listing_NoDup km after : NoDup (version_listing km after).
Proof.
  apply (NoDup_fmap_1 (fun r => (o_key r, coalesce_version r))). unfold version_listing.
  rewrite <- list_fmap_compose. apply rows_where_NoDup. intros i j x y Hi Hj Hx Hy E.
  apply (version_listed_inj km after i j x y Hi Hj Hx Hy); by destruct x as [[] ?], y as [[] ?]; injection E.
Qed.

Lemma version_listing_strict km after : strictly version_order (version_listing km after).
Proof.
  intros r q (x & -> & [Hx [i Hi]]%elem_of_rows_where)%list_elem_of_fmap
    (y & -> & [Hy [j Hj]]%elem_of_rows_where)%list_elem_of_fmap E.
  unfold compose in E. rewrite version_order_without_parts in E. apply version_order_Eq in E as (Ek & _ & Ev).
  assert (i = j) as -> by by apply (version_listed_inj km after i j x y). congruence.
Qed.

Lemma version_listing_resume km after r :
  r ∈ version_listing km after ->
  version_listing (Some (o_key r)) (Some (position_of r)) =
  filter (fun q => version_order r q = Lt) (version_listing km after).
Proof.
  intros (x & -> & [Hx [ix Hix]]%elem_of_rows_where)%list_elem_of_fmap. unfold version_listing.
  apply rows_where_filter. intros i y Hi. unfold compose. rewrite version_order_without_parts.
  assert (past (Some (o_key (without_parts (row_rec x)))) (Some (position_of (without_parts (row_rec x))))
            (row_rec y) = true <-> version_order (row_rec x) (row_rec y) = Lt) as Hp.
  { rewrite <- after_position_of. unfold past. simpl. destruct (Hids ix x Hix) as [_ Hk].
    replace (o_key (without_parts (row_rec x))) with (o_key (row_rec x)) by (by destruct (row_rec x)).
    rewrite bool_decide_false by done. simpl. by destruct (row_rec x). }
  unfold version_listed. rewrite Hp. destruct Hx as (_ & _ & _ & Hpx). split.
  - intros (? & ? & ? & Hlt). repeat (split; [|done]). repeat (split; [done|]).
    by apply (past_trans km after (row_rec x)).
  - intros ((? & ? & ? & _) & Hlt). done.
Qed.
End list_versions.

(** Listing versions by pages neither skips nor repeats one, also when
    several versions share a timestamp: a page of [n] rows followed by the
    page of [m] rows resumed at the last row's key, time and version id is the
    page of [n + m] rows, wherever the listing started. *)
Theorem list_versions_pages (bucket : string) (prefix key_marker : option string)
    (after : option VersionPosition) (n m : Z) (s : MetaStore) (x : ObjectRecord) :
  rows_ok (ms_objects s) ->
  (forall i y, ms_objects s !! i = Some y ->
     o_version_id (row_rec y) <> Some EmptyString /\ o_key (row_rec y) <> EmptyString) ->
  (0 <= n)%Z -> (0 <= m)%Z ->
  last (list_object_versions_from bucket prefix key_marker after n s) = Some x ->
  list_object_versions_from bucket prefix key_marker after (n + m) s =
  list_object_versions_from bucket prefix key_marker after n s ++
  list_object_versions_from bucket prefix (Some (o_key x)) (Some (position_of x)) m s.
Proof.
  intros Hs Hids Hn Hm Hx.
  change (limit (n + m) (sorted_by version_order (version_listing bucket prefix s key_marker after)) =
    limit n (sorted_by version_order (version_listing bucket prefix s key_marker after)) ++
    limit m (sorted_by version_order (version_listing bucket prefix s (Some (o_key x)) (Some (position_of x))))).
  change (last (limit n (sorted_by version_order (version_listing bucket prefix s key_marker after)))
    = Some x) in Hx.
  rewrite (version_listing_resume bucket prefix s Hids key_marker after x).
  - rewrite limit_app by done. unfold limit in *.
    apply page_append; [apply _|by apply version_listing_NoDup|by apply version_listing_strict|done].
  - apply last_elem_of in Hx. by rewrite elem_of_sorted_by in Hx.
Qed.

Lemma sample_deleted_ids i y :
  ms_objects sample_deleted !! i = Some y ->
  o_version_id (row_rec y) <> Some EmptyString /\ o_key (row_rec y) <> EmptyString.
Proof.
  assert (Forall (fun e : N * ObjRow =>
    o_version_id (row_rec e.2) <> Some EmptyString /\ o_key (row_rec e.2) <> EmptyString)
    (map_to_list (ms_objects sample_deleted))) as H by (vm_compute; repeat constructor; congruence).
  intros Hi. rewrite Forall_forall in H. apply (H (i, y)). by apply elem_of_map_to_list.
Qed.

Lemma sample_deleted_rows_ok : rows_ok (ms_objects sample_deleted).
Proof. apply mo_rows, (step_meta_ok true sample_put); [apply sample_deleted_step|apply sample_put_ok]. Qed.

Lemma list_versions_pages_witness :
  coalesce_version <$> list_object_versions_from "bucket" None None None 2 sample_deleted = ["v2"; "v1"] /\
  list_object_versions_from "bucket" None None None (1 + 1) sample_deleted =
  list_object_versions_from "bucket" None None None 1 sample_deleted ++
  list_object_versions_from "bucket" None (Some "key")
    (Some {| vp_last_modified := 20; vp_version_id := "v2" |}) 1 sample_deleted.
Proof.
  split; [by vm_compute|].
  apply (list_versions_pages "bucket" None None None 1 1 sample_deleted
    (delete_marker "bucket" "key" "root" (Some "v2") 20)).
  - apply sample_deleted_rows_ok.
  - apply sample_deleted_ids.
  - done.
  - done.
  - by vm_compute.
Defined.

(** ** Expiry of noncurrent versions *)

Lemma windows_elem w seen rows :
  w ∈ windows seen rows ->
  exists pre post, rows = pre ++ w.1.1 :: post /\
    w.1.2 = o_last_modified <$> last (filter (fun q => o_key q = o_key w.1.1) (seen ++ pre)) /\
    w.2 = (1 + Z.of_nat (length (filter (fun q => o_key q = o_key w.1.1 /\ o_is_latest q = o_is_latest w.1.1
             /\ o_is_delete_marker q = o_is_delete_marker w.1.1) (seen ++ pre))))%Z.
Proof.
  revert seen. induction rows as [|r rows IH]; intros seen Hw; [by apply elem_of_nil in Hw|].
  cbn [windows] in Hw. apply elem_of_cons in Hw as [->|Hw].
  - exists [], rows. cbn [fst snd app]. by rewrite app_nil_r.
  - destruct (IH _ Hw) as (pre & post & -> & Hs & Hr). exists (r :: pre), post.
    rewrite <- app_assoc in Hs, Hr. done.
Qed.

Section expiry.
Variables (bucket : string) (s : MetaStore).
Hypothesis Hs : rows_ok (ms_objects s).
Hypothesis Hids : forall i x, ms_objects s !! i = Some x ->
  o_version_id (row_rec x) <> Some EmptyString /\ o_key (row_rec x) <> EmptyString.

(** The live versions and delete markers of the bucket. *)
Definition bucket_versions : list ObjectRecord :=
  row_rec <$> rows_where (fun x => o_bucket (row_rec x) = bucket /\ live x) (ms_objects s).

Lemma bucket_versions_inj i j x y :
  ms_objects s !! i = Some x -> ms_objects s !! j = Some y ->
  o_bucket (row_rec x) = bucket -> o_bucket (row_rec y) = bucket ->
  version_order (row_rec x) (row_rec y) = Eq -> i = j.
Proof.
  intros Hi Hj Hx Hy (Ek & _ & Ev)%version_order_Eq. destruct (Hs bucket (o_key (row_rec y))) as (Hu & _).
  apply (Hu i j x y); try done. destruct (Hids i x Hi) as [Hvx _], (Hids j y Hj) as [Hvy _].
  unfold coalesce_version in Ev. destruct (o_version_id (row_rec x)), (o_version_id (row_rec y)); simpl in *;
    congruence.
Qed.

(** The rows the inner query scans: whole keys of the bucket. *)
Definition scanned (rule : NoncurrentExpiry) (after : option (string * VersionPosition)) : list ObjectRecord :=
  row_rec <$> rows_where (fun x => o_bucket (row_rec x) = bucket /\ live x
        /\ if_given (ne_prefix rule) (fun p => in_prefix_range p (o_key (row_rec x))) = true
        /\ if_given after (fun a => negb (String.ltb (o_key (row_rec x)) a.1)) = true)
      (ms_objects s).

Lemma elem_of_scanned rule after r q :
  r ∈ scanned rule after -> q ∈ bucket_versions -> o_key q = o_key r -> q ∈ scanned rule after.
Proof.
  intros (x & -> & [(_ & _ & Hp & Ha) _]%elem_of_rows_where)%list_elem_of_fmap
    (y & -> & [(Hb & Hl) Hi]%elem_of_rows_where)%list_elem_of_fmap E.
  apply list_elem_of_fmap. exists y. split; [done|]. apply elem_of_rows_where. by rewrite E.
Qed.

Lemma scanned_versions rule after r : r ∈ scanned rule after -> r ∈ bucket_versions.
Proof.
  intros (x & -> & [(Hb & Hl & _) Hi]%elem_of_rows_where)%list_elem_of_fmap.
  apply list_elem_of_fmap. exists x. split; [done|]. by apply elem_of_rows_where.
Qed.

Lemma scanned_NoDup rule after : NoDup (scanned rule after).
Proof.
  apply rows_where_NoDup. intros i j x y Hi Hj (Hbx & _) (Hby & _) E.
  apply (bucket_versions_inj i j x y); try done. rewrite E. apply (cmp_refl version_order).
Qed.

(** The rows before a row of the scan are the strictly newer ones of its key
    and the rows of smaller keys. *)
Lemma scanned_before rule after pre r post q :
  sorted_by version_order (scanned rule after) = pre ++ r :: post ->
  o_key q = o_key r -> q ∈ bucket_versions -> q ∈ pre <-> version_order q r = Lt.
Proof.
  intros Hsplit Ek Hq. pose proof (sorted_by_sorted version_order (scanned rule after)) as Hsort.
  pose proof (sorted_by_perm version_order (scanned rule after)) as Hperm. rewrite Hsplit in Hsort, Hperm.
  assert (r ∈ scanned rule after) as Hr by (rewrite <- Hperm, elem_of_app, elem_of_cons; auto).
  apply StronglySorted_app in Hsort as (Hbefore & _ & [Hafter _]%StronglySorted_cons).
  pose proof (scanned_NoDup rule after) as Hnd. rewrite <- Hperm in Hnd.
  apply NoDup_app in Hnd as (_ & Hpre & [Hpost _]%NoDup_cons). split.
  - intros Hin. destruct (version_order q r) eqn:E; [exfalso|done|].
    + assert (q = r) as ->; [|by apply (Hpre r Hin); left].
      apply scanned_versions, list_elem_of_fmap in Hr as (x & -> & [[Hb _] [i Hi]]%elem_of_rows_where).
      apply list_elem_of_fmap in Hq as (y & -> & [[Hby _] [j Hj]]%elem_of_rows_where).
      assert (j = i) as -> by (by apply (bucket_versions_inj j i y x)). congruence.
    + by destruct (Hbefore q r Hin ltac:(by left)).
  - intros E. assert (q ∈ scanned rule after) as Hqs by (by apply (elem_of_scanned rule after r)).
    rewrite <- Hperm, elem_of_app, elem_of_cons in Hqs. destruct Hqs as [?|[->|Hin]]; [done|exfalso..].
    + by rewrite (cmp_refl version_order) in E.
    + rewrite Forall_forall in Hafter. specialize (Hafter q Hin). unfold order_by in Hafter.
      apply Hafter. by apply (cmp_Lt_Gt version_order).
Qed.

(** The version that replaced [r]: the oldest of the newer versions of its key. *)
Definition succeeded_by (r q : ObjectRecord) : Prop :=
  q ∈ bucket_versions /\ o_key q = o_key r /\ version_order q r = Lt /\
  forall q', q' ∈ bucket_versions -> o_key q' = o_key r -> version_order q' r = Lt -> version_order q' q <> Gt.

(** The noncurrent object versions of the key of [r] newer than [r]. *)
Definition newer_noncurrent (r : ObjectRecord) : list ObjectRecord :=
  filter (fun q => o_key q = o_key r /\ o_is_latest q = false /\ o_is_delete_marker q = false
                   /\ version_order q r = Lt) bucket_versions.

Lemma before_bucket_versions rule after pre r post q :
  sorted_by version_order (scanned rule after) = pre ++ r :: post -> q ∈ pre -> q ∈ bucket_versions.
Proof.
  intros Hsplit Hq. apply (scanned_versions rule after), (elem_of_sorted_by version_order).
  rewrite Hsplit. by apply elem_of_app; left.
Qed.

Lemma lag_succeeds rule after pre r post q :
  sorted_by version_order (scanned rule after) = pre ++ r :: post ->
  last (filter (fun q => o_key q = o_key r) pre) = Some q -> succeeded_by r q.
Proof.
  intros Hsplit Hlast. pose proof (sorted_by_sorted version_order (scanned rule after)) as Hsort.
  rewrite Hsplit in Hsort. apply StronglySorted_app in Hsort as (_ & Hpre & _).
  pose proof Hlast as [Ek Hq]%last_Some_elem_of%list_elem_of_filter.
  assert (q ∈ bucket_versions) as Hb by by apply (before_bucket_versions rule after pre r post).
  repeat split; try done; [by apply (scanned_before rule after pre r post)|].
  intros q' Hb' Ek' Hlt. apply (scanned_before rule after pre r post) in Hlt; [|done..].
  apply (StronglySorted_filter _ (fun q => o_key q = o_key r)) in Hpre.
  assert (q' ∈ filter (fun q => o_key q = o_key r) pre) as Hin by by apply list_elem_of_filter.
  apply last_Some in Hlast as [l Hl]. rewrite Hl in Hpre, Hin.
  apply StronglySorted_app in Hpre as (Hle & _ & _). apply elem_of_app in Hin as [Hin| ->%list_elem_of_singleton].
  - by apply Hle; [|left].
  - by rewrite (cmp_refl version_order).
Qed.

Lemma rank_newer rule after pre r post :
  sorted_by version_order (scanned rule after) = pre ++ r :: post ->
  length (filter (fun q => o_key q = o_key r /\ o_is_latest q = false /\ o_is_delete_marker q = false) pre)
    <= length (newer_noncurrent r).
Proof.
  intros Hsplit. apply submseteq_length, NoDup_submseteq.
  - apply NoDup_filter. pose proof (scanned_NoDup rule after) as Hnd.
    rewrite <- (sorted_by_perm version_order), Hsplit in Hnd. by apply NoDup_app in Hnd as [? _].
  - intros q [(Ek & Hl & Hm) Hq]%list_elem_of_filter.
    assert (q ∈ bucket_versions) as Hb by by apply (before_bucket_versions rule after pre r post).
    apply list_elem_of_filter. repeat split; try done. by apply (scanned_before rule after pre r post).
Qed.
End expiry.

(** [list_noncurrent_expired_versions] returns only versions the rule may
    expire. On a store that satisfies the row invariant, every record it
    returns is a live version of the bucket that is neither the latest nor a
    delete marker, whose key starts with the rule's prefix; the version that
    immediately succeeded it exists and was written before the cutoff, so the
    record has been noncurrent since then; and at least [keep_newer]
    noncurrent object versions of its key are newer than it. *)
Theorem noncurrent_expiry_safe (bucket : string) (rule : NoncurrentExpiry)
    (after : option (string * VersionPosition)) (max_keys : Z) (s : MetaStore) (e : ObjectRecord) :
  rows_ok (ms_objects s) ->
  (forall i x, ms_objects s !! i = Some x ->
     o_version_id (row_rec x) <> Some EmptyString /\ o_key (row_rec x) <> EmptyString) ->
  e ∈ list_noncurrent_expired_versions bucket rule after max_keys s ->
  exists r, e = without_parts r /\ r ∈ bucket_versions bucket s /\
    o_is_latest r = false /\ o_is_delete_marker r = false /\
    if_given (ne_prefix rule) (fun p => in_prefix_range p (o_key r)) = true /\
    (exists q, succeeded_by bucket s r q /\ (o_last_modified q < ne_cutoff rule)%Z) /\
    (ne_keep_newer rule <= Z.of_nat (length (newer_noncurrent bucket s r)))%Z.
Proof.
  intros Hs Hids He. unfold list_noncurrent_expired_versions in He.
  apply elem_of_take in He as (n & He & _). apply list_elem_of_lookup_2 in He.
  apply list_elem_of_fmap in He as (w & -> & [(Hl & Hm & Hsince & Hrank & _) Hw]%list_elem_of_filter).
  fold (scanned bucket s rule after) in Hw.
  apply windows_elem in Hw as (pre & post & Hsplit & HL & HR). cbn [app] in HL, HR.
  rewrite HL in Hsince. rewrite HR, Hl, Hm in Hrank. exists w.1.1.
  assert (w.1.1 ∈ scanned bucket s rule after) as Hin
    by (apply (elem_of_sorted_by version_order); rewrite Hsplit, elem_of_app, elem_of_cons; auto).
  split_and!; [done|by apply (scanned_versions _ _ rule after)|done|done| | |].
  - by apply list_elem_of_fmap in Hin as (x & -> & [(_ & _ & Hp & _) _]%elem_of_rows_where).
  - destruct (last _) as [q|] eqn:Hq; [|done]. exists q.
    split; [by apply (lag_succeeds bucket s Hs Hids rule after pre _ post)|by apply Z.ltb_lt].
  - pose proof (rank_newer bucket s Hs Hids rule after pre _ post Hsplit). lia.
Qed.

Lemma noncurrent_expiry_safe_witness :
  let rule := {| ne_prefix := Some "k"; ne_tags := []; ne_cutoff := 100; ne_keep_newer := 0 |} in
  let expired := list_noncurrent_expired_versions "bucket" rule None 10 sample_deleted in
  o_version_id <$> expired = [Some "v1"] /\
  forall e, e ∈ expired -> exists r q, e = without_parts r /\ o_is_latest r = false /\
    succeeded_by "bucket" sample_deleted r q /\ (o_last_modified q < 100)%Z.
Proof.
  intros rule expired. split; [by vm_compute|]. intros e He.
  destruct (noncurrent_expiry_safe "bucket" rule None 10 sample_deleted e sample_deleted_rows_ok
    sample_deleted_ids He) as (r & E & _ & Hl & _ & _ & (q & Hq & Hlt) & _). by exists r, q.
Defined.

(** ** Multipart uploads *)

Lemma put_ok_steps uuid r pre tags s s' old vid :
  put_object_tagged_if uuid r pre tags s = (s', Ok (old, vid)) ->
  exists s0 record, install_object uuid r pre s = (s0, Ok (record, old)) /\ vid = o_version_id record /\
    when (negb (bool_decide (tags = [])))
      (map_err Db (write_object_tags (o_bucket record) (o_key record) (coalesce_version record) tags)) s0 =
    (s', Ok tt).
Proof.
  unfold put_object_tagged_if, map_cas_result, map_err at 1, atomically. intros H.
  destruct (act_bind _ _ s) as [s1 [a|e|]] eqn:E; simplify_eq.
  apply act_bind_ok in E as (s0 & [record old'] & Hi & (s2 & [] & Ht & Hr)%act_bind_ok).
  unfold act_ret in Hr. simplify_eq/=. eauto.
Qed.

Lemma complete_missing uuid upload_id r pre tags s :
  get_multipart_upload upload_id s = None ->
  complete_multipart_object_tagged uuid upload_id r pre tags s =
  (s, Err (S3 (S3Error_new NoSuchUpload (object_resource (o_bucket r) (o_key r))))).
Proof.
  intros H. unfold complete_multipart_object_tagged, map_cas_result, map_err, atomically.
  erewrite act_bind_run by reflexivity. by rewrite H.
Qed.

Lemma complete_refused uuid upload_id r pre tags s u c :
  get_multipart_upload upload_id s = Some u ->
  write_evaluate pre (get_object (o_bucket r) (o_key r) s) = Err c ->
  complete_multipart_object_tagged uuid upload_id r pre tags s =
  (s, Err (S3 (S3Error_new c (object_resource (o_bucket r) (o_key r))))).
Proof.
  intros Hu H. unfold complete_multipart_object_tagged, map_cas_result, map_err, atomically.
  erewrite act_bind_run by reflexivity. rewrite Hu. erewrite act_bind_run by reflexivity.
  unfold act_bind at 1. by rewrite (install_object_err _ _ _ _ _ H).
Qed.

Lemma complete_ok uuid upload_id r pre tags s u s' old vid :
  get_multipart_upload upload_id s = Some u ->
  put_object_tagged_if uuid r pre tags s = (s', Ok (old, vid)) ->
  complete_multipart_object_tagged uuid upload_id r pre tags s =
  (with_parts (filter (fun e => e.1.1 <> upload_id) (ms_parts s'))
     (with_uploads (delete upload_id (ms_uploads s')) s'),
   Ok {| cu_old := old; cu_version_id := vid; cu_parts := upload_parts upload_id s' |}).
Proof.
  intros Hu (s0 & record & Hi & -> & Ht)%put_ok_steps.
  unfold complete_multipart_object_tagged, map_cas_result, map_err at 1, atomically.
  erewrite act_bind_run by reflexivity. rewrite Hu. erewrite act_bind_run by reflexivity.
  rewrite (act_bind_run _ _ _ _ _ Hi). cbn [fst snd]. rewrite (act_bind_run _ _ _ _ _ Ht).
  by erewrite act_bind_run by reflexivity.
Qed.

(** Completing a multipart upload is one object write plus the consumption
    of the upload.  With distinct tag keys: if the upload is unknown, the
    operation answers NoSuchUpload and changes nothing; otherwise it is
    decided as the plain write of the same record is, and on success the store
    is the one that write leaves, without the upload and its parts, which are
    returned for reclamation.  Completing the upload again, in whatever way,
    then answers NoSuchUpload and changes nothing. *)
Theorem multipart_completes_once (uuid upload_id : string) (r : ObjectRecord) (pre : WritePrecondition)
    (tags : list (string * string)) (s : MetaStore) :
  NoDup tags.*1 ->
  let resource := object_resource (o_bucket r) (o_key r) in
  match get_multipart_upload upload_id s, write_evaluate pre (get_object (o_bucket r) (o_key r) s) with
  | None, _ =>
      complete_multipart_object_tagged uuid upload_id r pre tags s =
      (s, Err (S3 (S3Error_new NoSuchUpload resource)))
  | Some _, Err c =>
      complete_multipart_object_tagged uuid upload_id r pre tags s = (s, Err (S3 (S3Error_new c resource)))
  | Some _, Ok _ =>
      exists s1 s2 old vid, put_object_tagged_if uuid r pre tags s = (s1, Ok (old, vid)) /\
        complete_multipart_object_tagged uuid upload_id r pre tags s =
        (s2, Ok {| cu_old := old; cu_version_id := vid; cu_parts := upload_parts upload_id s |}) /\
        ms_objects s2 = ms_objects s1 /\ ms_object_tags s2 = ms_object_tags s1 /\
        ms_uploads s2 = delete upload_id (ms_uploads s) /\
        ms_parts s2 = filter (fun e => e.1.1 <> upload_id) (ms_parts s) /\
        (forall uuid' r' pre' tags',
           complete_multipart_object_tagged uuid' upload_id r' pre' tags' s2 =
           (s2, Err (S3 (S3Error_new NoSuchUpload (object_resource (o_bucket r') (o_key r'))))))
  | Some _, Panic => False
  end.
Proof.
  intros Hnd resource. destruct (get_multipart_upload upload_id s) as [u|] eqn:Hu; [|by apply complete_missing].
  destruct (write_evaluate _ _) as [[]|c|] eqn:E; [|by apply (complete_refused _ _ _ _ _ _ u)
    |by apply (write_evaluate_total _ _ E)].
  destruct (put_ok uuid r pre tags s _ Hnd eq_refl E) as (s1 & Hput & Hb).
  apply objects_become_fields in Hb as (_ & _ & _ & _ & _ & HU & HP).
  exists s1. do 3 eexists. split; [exact Hput|].
  rewrite (complete_ok _ _ _ _ _ _ _ _ _ _ Hu Hput). unfold upload_parts. rewrite HU, HP.
  split; [reflexivity|]. destruct s1. cbn. split_and!; try done.
  intros. apply complete_missing. apply lookup_delete_eq.
Qed.

Definition sample_upload : MetaStore :=
  (create_multipart_upload {| mu_upload_id := "u"; mu_bucket := "bucket"; mu_key := "key";
     mu_content_type := None; mu_initiated_at := 1; mu_metadata := ∅; mu_checksum_algorithm := None;
     mu_checksum_type := None; mu_initiator := "root" |} sample_versioned).1.

Lemma multipart_completes_once_witness :
  exists s2, (complete_multipart_object_tagged "v1" "u" (sample_row "c" 10 None None None)
                no_write_precondition [("a", "1")] sample_upload).1 = s2 /\
    ms_uploads s2 = ∅ /\
    complete_multipart_object "v2" "u" (sample_row "c" 11 None None None) no_write_precondition s2 =
    (s2, Err (S3 (S3Error_new NoSuchUpload "/bucket/key"))).
Proof.
  destruct (multipart_completes_once "v1" "u" (sample_row "c" 10 None None None) no_write_precondition
    [("a", "1")] sample_upload) as (s1 & s2 & old & vid & _ & Hc & _ & _ & Hu & _ & Hagain).
  - apply (bool_decide_unpack _). by vm_compute.
  - exists s2. rewrite Hc, Hu. split; [done|]. split; [by vm_compute|]. apply Hagain.
Defined.
