(* ===== verification/MetadataReplication.v ===== *)
(** Convergence of the object tables of two nodes.

    A node hands its rows to its peers in fan-out and anti-entropy, in any
    order and with repetitions; the receiver runs [apply_remote_object].  The
    row of each version is a register that absorbs what is delivered
    ([Types.absorb]); the latest row of a key is a function of its rows.  So
    nodes that receive the same rows agree on every version and on what a read
    of the key returns. *)

From S2P Require Import Prelude S3Errors Policy Types SqlTable Text Preconditions MetadataStore MetadataRows.
From S2P Require Import MetadataInvariant MetadataSteps MetadataOps.

(** ** The register of a version *)

Definition version_row (b k : string) (v : option string) (m : gmap N ObjRow) : option ObjectRecord :=
  set_latest false ∘ row_rec <$> query_row (fun x => at_key b k x /\ version_is v x) m.

Lemma version_row_Some b k v m r :
  unique_at b k m ->
  version_row b k v m = Some r <->
  exists i x, m !! i = Some x /\ at_key b k x /\ version_is v x /\ r = set_latest false (row_rec x).
Proof.
  intros Hu. unfold version_row. rewrite fmap_Some. split.
  - intros (x & [[Hk Hv] [i Hi]]%query_row_Some & ->). eauto 10.
  - intros (i & x & Hi & Hk & Hv & ->). exists x. split; [|done].
    apply (query_row_unique _ _ i); [|done..]. intros j y Hj [Hky Hvy].
    assert (j = i) as -> by (apply (Hu j i y x); congruence). congruence.
Qed.

Lemma version_row_recompute b k b' k' v m :
  unique_at b' k' m -> unique_at b' k' (recompute b k m) ->
  version_row b' k' v (recompute b k m) = version_row b' k' v m.
Proof.
  intros Hu Hu'. apply option_ext. intros r. rewrite !version_row_Some by done. split.
  - intros (i & x & (y & Hy & Hx)%recompute_origin & Hk & Hv & ->). exists i, y.
    destruct Hx as [[_ ->]|[_ ->]]; [|done]. by destruct y as [[] ?].
  - intros (i & x & Hi & Hk & Hv & ->). exists i. rewrite lookup_recompute, Hi. simpl.
    eexists. split; [done|]. case_decide; [|done]. by destruct x as [[] ?].
Qed.

(** Storing a row under its version. *)
Lemma unique_store b k v b' k' x `{!forall y : ObjRow, Decision (at_key b k y /\ version_is v y)} m :
  at_key b k x -> version_is v x -> unique_at b' k' m ->
  unique_at b' k' (insert_row x (delete_where (fun y => at_key b k y /\ version_is v y) m)).
Proof.
  intros [<- <-] <- Hu i j y z [[-> ->]|[_ Hi]]%lookup_insert_row [[-> ->]|[_ Hj]]%lookup_insert_row
    [E1 E2] [E3 E4] E5.
  - done.
  - apply lookup_delete_where in Hj as [_ Hj]. destruct Hj. split; [split|]; congruence.
  - apply lookup_delete_where in Hi as [_ Hi]. destruct Hi. split; [split|]; congruence.
  - apply lookup_delete_where in Hi as [Hi _], Hj as [Hj _]. by apply (Hu i j y z).
Qed.

Lemma version_row_store b k v b' k' v' x `{!forall y : ObjRow, Decision (at_key b k y /\ version_is v y)} m :
  at_key b k x -> version_is v x -> unique_at b' k' m ->
  version_row b' k' v' (insert_row x (delete_where (fun y => at_key b k y /\ version_is v y) m)) =
  if decide ((b', k', v') = (b, k, v)) then Some (set_latest false (row_rec x)) else version_row b' k' v' m.
Proof.
  intros Hk Hv Hu. apply option_ext. intros r. rewrite version_row_Some by (by apply unique_store).
  case_decide as E.
  - injection E as -> -> ->. split.
    + intros (i & y & [[_ ->]|[_ Hi]]%lookup_insert_row & Hky & Hvy & ->); [done|].
      by apply lookup_delete_where in Hi as [_ []].
    + intros [= <-]. exists (fresh (dom (delete_where (fun y => at_key b k y /\ version_is v y) m))), x.
      split; [|done]. apply lookup_insert_row. auto.
  - rewrite version_row_Some by done. split.
    + intros (i & y & [[_ ->]|[_ Hi]]%lookup_insert_row & Hky & Hvy & ->).
      * destruct E. destruct Hk as [<- <-], Hky as [<- <-]. by rewrite <- Hv, <- Hvy.
      * apply lookup_delete_where in Hi as [Hi _]. eauto 10.
    + intros (i & y & Hi & Hky & Hvy & ->). exists i, y. split; [|done]. apply lookup_insert_row. right.
      assert (delete_where (fun y => at_key b k y /\ version_is v y) m !! i = Some y) as Hd.
      { apply lookup_delete_where. split; [done|]. intros [[E1 E2] E3]. destruct E.
        destruct Hky as [<- <-]. by rewrite E1, E2, <- E3, <- Hvy. }
      split; [|done]. intros ->. by rewrite insert_row_fresh in Hd.
Qed.

(** ** Absorbing a delivery *)

Definition absorb_opt (local : option ObjectRecord) (r : ObjectRecord) : option ObjectRecord :=
  Some (match local with Some l => set_latest false (absorb l r) | None => set_latest false r end).

Lemma resolve_set_latest c r l :
  set_latest false <$> resolve_replicated r (set_latest c l) = set_latest false <$> resolve_replicated r l.
Proof.
  assert (forall d x y, set_latest false (merge_content x (set_latest d y) (merge_lock x (set_latest d y)
    (set_latest d y))) = set_latest false (merge_content x y (merge_lock x y y))) as Hm.
  { intros d x y. unfold merge_content, merge_lock. destruct x, y; simpl. repeat case_match; done. }
  unfold resolve_replicated. destruct (fields_set_latest c l) as (_ & _ & _ & _ & _ & -> & -> & _).
  replace (o_etag (set_latest c l)) with (o_etag l) by (by destruct l).
  unfold same_replicated_content. rewrite Hm.
  replace (set_latest false (set_latest c l)) with (set_latest false l) by (by destruct l).
  repeat case_match; simpl; try done. by rewrite Hm.
Qed.

Lemma absorb_set_latest c l r :
  set_latest false (absorb (set_latest c l) r) = set_latest false (absorb l r).
Proof.
  pose proof (resolve_set_latest c r l) as H. unfold absorb.
  destruct (resolve_replicated r (set_latest c l)), (resolve_replicated r l); simpl in *; try done.
  - by injection H.
  - by destruct l.
Qed.

(** One delivery: the register of its version absorbs the row, the others stay. *)
Lemma version_row_replicated seq r b k v m :
  rows_ok m ->
  version_row b k v (replicated_rows seq r m) =
  if decide ((b, k, v) = (o_bucket r, o_key r, o_version_id r))
  then absorb_opt (version_row b k v m) r else version_row b k v m.
Proof.
  intros Hm. destruct (rows_ok_replicated seq r m Hm b k) as [Hu' _]. destruct (Hm b k) as [Hu _].
  unfold replicated_rows in *. fold (to_write r m) in *.
  destruct (to_write r m) as [row|] eqn:E.
  - pose proof E as (Eb & Ek & Ev)%to_write_id.
    destruct (fields_set_latest false row) as (Fb & Fk & Fv & _).
    rewrite version_row_recompute; [|apply unique_store; simpl; [split; congruence|congruence|done]|done].
    rewrite version_row_store; [|simpl; split; congruence|simpl; congruence|done].
    case_decide as D; [|done]. injection D as -> -> ->. simpl.
    unfold to_write in E. unfold absorb_opt, version_row.
    destruct (query_row _ m) as [ex|]; simpl.
    + rewrite absorb_set_latest. unfold absorb. rewrite E. simpl. by destruct row.
    + injection E as ->. by destruct row.
  - rewrite version_row_recompute by done. case_decide as D; [|done]. injection D as -> -> ->.
    unfold to_write in E. unfold absorb_opt, version_row.
    destruct (query_row _ m) as [ex|]; simpl; [|done].
    rewrite absorb_set_latest. unfold absorb. by rewrite E.
Qed.

(** ** Runs of deliveries *)

Definition deliver (rows : list ObjectRecord) (s : MetaStore) : MetaStore :=
  foldl (fun s r => (apply_remote_object r s).1) s rows.

Definition same_id (b k : string) (v : option string) (r : ObjectRecord) : Prop :=
  (o_bucket r, o_key r, o_version_id r) = (b, k, v).

#[export] Instance same_id_dec b k v r : Decision (same_id b k v r).
Proof. unfold same_id. apply _. Defined.

Lemma remote_rows_ok r s :
  rows_ok (ms_objects s) -> rows_ok (ms_objects (apply_remote_object r s).1).
Proof. apply adv_rows, apply_remote_object_write. Qed.

Lemma delivered_rows_ok rows s : rows_ok (ms_objects s) -> rows_ok (ms_objects (deliver rows s)).
Proof.
  revert s. induction rows as [|r rows IH]; intros s Hs; [done|]. simpl.
  by apply IH, remote_rows_ok.
Qed.

Lemma version_row_deliver rows b k v s :
  rows_ok (ms_objects s) ->
  version_row b k v (ms_objects (deliver rows s)) =
  foldl absorb_opt (version_row b k v (ms_objects s)) (filter (same_id b k v) rows).
Proof.
  revert s. induction rows as [|r rows IH]; intros s Hs; [done|].
  change (deliver (r :: rows) s) with (deliver rows (apply_remote_object r s).1).
  rewrite IH by (by apply remote_rows_ok).
  rewrite apply_remote_object_eq. simpl.
  replace (ms_objects (with_object_seq _ _)) with (replicated_rows (ms_object_seq s + 1) r (ms_objects s))
    by (by destruct s).
  rewrite version_row_replicated by done. unfold same_id. rewrite filter_cons.
  repeat case_decide; try done; congruence.
Qed.

(** ** Order independence *)

Lemma absorb_opt_Some c l r :
  absorb_opt (Some (set_latest c l)) r = Some (set_latest false (absorb l r)).
Proof. unfold absorb_opt. by rewrite absorb_set_latest. Qed.

Lemma foldl_absorb_opt xs l :
  foldl absorb_opt (Some (set_latest false l)) xs = Some (set_latest false (foldl absorb l xs)).
Proof.
  revert l. induction xs as [|x xs IH]; intros l; [done|]. cbn [foldl].
  by rewrite absorb_opt_Some, IH.
Qed.

Lemma absorb_opt_perm_None xs ys :
  xs ≡ₚ ys -> all_coherent xs -> foldl absorb_opt None xs = foldl absorb_opt None ys.
Proof.
  intros Hp. induction Hp as [|x xs ys Hp IH|x y xs|xs ys zs H1 IH1 H2 IH2]; intros Hc; [done|..].
  - cbn [foldl]. change (absorb_opt None ?z) with (Some (set_latest false z)). rewrite !foldl_absorb_opt. f_equal.
    by apply absorb_order_independent.
  - cbn [foldl]. change (absorb_opt None ?z) with (Some (set_latest false z)).
    rewrite !absorb_opt_Some, !foldl_absorb_opt. f_equal.
    apply absorb_all_proper; [..|apply absorb_comm, Hc; set_solver].
    + by apply all_coherent_absorb.
    + apply all_coherent_absorb. intros a b Ha Hb. apply Hc; set_solver.
  - rewrite IH1 by done. apply IH2. intros a b Ha Hb. apply Hc; by rewrite H1.
Qed.

Lemma absorb_opt_perm o xs ys :
  xs ≡ₚ ys -> all_coherent (option_list o ++ xs) -> (forall l, o = Some l -> set_latest false l = l) ->
  foldl absorb_opt o xs = foldl absorb_opt o ys.
Proof.
  intros Hp Hc Hl. destruct o as [l|]; [|by apply absorb_opt_perm_None].
  rewrite <- (Hl l eq_refl), !foldl_absorb_opt. f_equal. by apply absorb_order_independent.
Qed.

Lemma absorb_opt_again o x : absorb_opt (absorb_opt o x) x = absorb_opt o x.
Proof.
  destruct o as [l|]; unfold absorb_opt at 2 3; rewrite absorb_opt_Some.
  - by rewrite absorb_again.
  - by rewrite absorb_self.
Qed.

Section redelivery.
Variable o : option ObjectRecord.
Hypothesis Hnorm : forall l, o = Some l -> set_latest false l = l.

Lemma all_coherent_sub xs ys :
  (forall r, r ∈ ys -> r ∈ xs) -> all_coherent (option_list o ++ xs) -> all_coherent (option_list o ++ ys).
Proof. intros Hsub Hc a b Ha Hb. apply Hc; set_solver. Qed.

(** Delivering a row again changes nothing. *)
Lemma absorb_opt_dup x xs :
  x ∈ xs -> all_coherent (option_list o ++ xs) -> foldl absorb_opt o (x :: xs) = foldl absorb_opt o xs.
Proof.
  intros Hx Hc. apply elem_of_Permutation in Hx as [zs Hp].
  rewrite (absorb_opt_perm o xs (x :: zs)) by done.
  rewrite (absorb_opt_perm o (x :: xs) (x :: x :: zs)); [|by rewrite Hp| |done].
  - cbn [foldl]. by rewrite absorb_opt_again.
  - apply (all_coherent_sub xs); [|done]. intros r. rewrite Hp. set_solver.
Qed.

Lemma absorb_opt_remove_dups xs :
  all_coherent (option_list o ++ xs) -> foldl absorb_opt o xs = foldl absorb_opt o (remove_dups xs).
Proof.
  induction xs as [|x xs IH]; intros Hc; [done|].
  assert (all_coherent (option_list o ++ xs)) as Hc' by (eapply all_coherent_sub; [|done]; set_solver).
  cbn [remove_dups]. case_decide as Hx.
  - rewrite absorb_opt_dup by done. by apply IH.
  - rewrite (absorb_opt_perm o (x :: xs) (xs ++ [x])) by (done || apply Permutation_cons_append).
    rewrite (absorb_opt_perm o (x :: remove_dups xs) (remove_dups xs ++ [x]));
      [|apply Permutation_cons_append| |done].
    + rewrite !foldl_app. by rewrite IH.
    + apply (all_coherent_sub (x :: xs)); [|done]. intros r.
      by rewrite !elem_of_cons, elem_of_remove_dups.
Qed.

(** The register depends on the set of rows delivered, not on their order or number. *)
Lemma absorb_opt_set xs ys :
  (forall r, r ∈ xs <-> r ∈ ys) -> all_coherent (option_list o ++ xs) ->
  foldl absorb_opt o xs = foldl absorb_opt o ys.
Proof.
  intros He Hc. assert (all_coherent (option_list o ++ ys)) by (eapply all_coherent_sub; [|done]; apply He).
  rewrite (absorb_opt_remove_dups xs), (absorb_opt_remove_dups ys) by done.
  apply absorb_opt_perm; [|apply (all_coherent_sub xs); [intros r; by rewrite elem_of_remove_dups|done]|done].
  apply NoDup_Permutation; [apply NoDup_remove_dups..|]. intros r. by rewrite !elem_of_remove_dups.
Qed.
End redelivery.

(** ** The latest row *)

(** The latest row of the key is its newest live one. *)
Definition settled (b k : string) (m : gmap N ObjRow) : Prop :=
  forall i x j y, m !! i = Some x -> at_key b k x -> latest x ->
    m !! j = Some y -> at_key b k y -> live y -> newest_first (row_rec x) (row_rec y) <> Gt.

Lemma replicated_frame seq r m : rows_ok m -> frame (o_bucket r) (o_key r) m (replicated_rows seq r m).
Proof.
  intros Hm. unfold replicated_rows. fold (to_write r m). eapply frame_trans; [|apply frame_recompute].
  destruct (to_write r m) as [row|] eqn:E; [|apply frame_refl].
  apply to_write_id in E as (Eb & Ek & _). destruct (fields_set_latest false row) as (Fb & Fk & _).
  eapply frame_trans; [apply (frame_delete _ _ (fun x => at_key (o_bucket r) (o_key r) x /\
    version_is (o_version_id r) x)); by intros ? []|].
  apply frame_insert. simpl. split; congruence.
Qed.

Lemma settled_replicated seq r b k m :
  rows_ok m -> settled b k m \/ (o_bucket r, o_key r) = (b, k) -> settled b k (replicated_rows seq r m).
Proof.
  intros Hm H. destruct (decide ((o_bucket r, o_key r) = (b, k))) as [[= <- <-]|Hne].
  - intros i x j y Hi Hkx Hlx Hj Hky Hly. unfold replicated_rows in *. by eapply recompute_newest.
  - destruct H as [H|]; [|done]. intros i x j y Hi Hkx Hlx Hj Hky Hly.
    apply (replicated_frame seq r m Hm) in Hi; [|intros [E1 E2]; destruct Hkx; congruence].
    apply (replicated_frame seq r m Hm) in Hj; [|intros [E1 E2]; destruct Hky; congruence].
    by apply (H i x j y).
Qed.

Lemma settled_deliver rows b k s :
  rows_ok (ms_objects s) ->
  settled b k (ms_objects s) \/ (exists r, r ∈ rows /\ o_bucket r = b /\ o_key r = k) ->
  settled b k (ms_objects (deliver rows s)).
Proof.
  revert s. induction rows as [|r rows IH]; intros s Hs H.
  { destruct H as [H|(r & Hr & _)]; [done|by apply elem_of_nil in Hr]. }
  change (deliver (r :: rows) s) with (deliver rows (apply_remote_object r s).1).
  apply IH; [by apply remote_rows_ok|]. rewrite apply_remote_object_eq. simpl.
  replace (ms_objects (with_object_seq _ _)) with (replicated_rows (ms_object_seq s + 1) r (ms_objects s))
    by (by destruct s).
  destruct H as [H|(q & Hq & <- & <-)]; [left; apply settled_replicated; auto|].
  apply elem_of_cons in Hq as [->|Hq]; [left; apply settled_replicated; auto|right; eauto].
Qed.

Lemma newest_first_Eq r q : newest_first r q = Eq -> o_version_id r = o_version_id q.
Proof.
  unfold newest_first. rewrite !cmp_then_Eq. unfold cmp_on, cmp_desc.
  intros (_ & E & _). by apply cmp_null_text_Eq in E.
Qed.

Lemma newest_first_norm a a' c c' :
  set_latest false a = set_latest false a' -> set_latest false c = set_latest false c' ->
  newest_first a c = newest_first a' c'.
Proof.
  intros Ha Hc. rewrite <- (newest_first_set_latest false false a c), Ha, Hc.
  apply newest_first_set_latest.
Qed.

Lemma norm_tombstone a c :
  set_latest false a = set_latest false c -> o_is_tombstone a = o_is_tombstone c.
Proof.
  intros H. destruct (fields_set_latest false a) as (_ & _ & _ & _ & <- & _).
  destruct (fields_set_latest false c) as (_ & _ & _ & _ & <- & _). by rewrite H.
Qed.

(** Tables with the same version rows, both settled, have the same latest row. *)
Lemma latest_agrees b k s1 s2 r :
  rows_ok (ms_objects s1) -> rows_ok (ms_objects s2) ->
  (forall v, version_row b k v (ms_objects s1) = version_row b k v (ms_objects s2)) ->
  settled b k (ms_objects s1) -> settled b k (ms_objects s2) ->
  get_latest_object b k s1 = Some r -> get_latest_object b k s2 = Some r.
Proof.
  intros H1 H2 Hv S1 S2. rewrite !get_latest_object_Some by done. intros (i & x & Hi & Hk & Hl & ->).
  destruct (H1 b k) as (U1 & _ & L1 & _), (H2 b k) as (U2 & _ & L2 & L2').
  assert (forall m m' i x, unique_at b k m -> unique_at b k m' ->
    (forall v, version_row b k v m = version_row b k v m') -> m !! i = Some x -> at_key b k x ->
    exists j y, m' !! j = Some y /\ at_key b k y /\ version_is (o_version_id (row_rec x)) y /\
      set_latest false (row_rec x) = set_latest false (row_rec y)) as Hcopy.
  { intros m m' i' x' U U' Hvv Hi' Hk'. apply version_row_Some; [done|]. rewrite <- Hvv.
    apply version_row_Some; [done|]. eauto 10. }
  destruct (Hcopy _ _ i x U1 U2 Hv Hi Hk) as (j & y & Hj & Hky & Hvy & Exy).
  assert (live y) as Hly.
  { rewrite <- (norm_tombstone _ _ Exy). by apply (L1 i x). }
  destruct (L2' j y Hj Hky Hly) as (jz & z & Hjz & Hkz & Hlz).
  destruct (Hcopy _ _ jz z U2 U1 (fun v => eq_sym (Hv v)) Hjz Hkz) as (iz & z' & Hiz & Hkz' & _ & Ezz).
  assert (newest_first (row_rec x) (row_rec z) = Eq) as E.
  { pose proof (S2 jz z j y Hjz Hkz Hlz Hj Hky Hly) as A.
    assert (newest_first (row_rec x) (row_rec z') <> Gt) as B.
    { apply (S1 i x iz z'); try done. rewrite <- (norm_tombstone _ _ Ezz). by apply (L2 jz z). }
    rewrite <- (newest_first_norm (row_rec x) (row_rec x) _ _ eq_refl Ezz) in B.
    rewrite <- (newest_first_norm (row_rec z) (row_rec z) _ _ eq_refl Exy) in A.
    rewrite (cmp_antisym newest_first (row_rec x)) in A. by destruct (newest_first _ _). }
  apply newest_first_Eq in E. assert (jz = j) as -> by (apply (U2 jz j z y); congruence).
  rewrite Hj in Hjz. injection Hjz as <-. exists j, y. split; [done|]. split; [done|]. split; [done|].
  f_equal. apply same_row_latest; [by rewrite Hl, Hlz|done].
Qed.

Lemma get_object_of_latest b k s :
  rows_ok (ms_objects s) ->
  get_object b k s =
  get_latest_object b k s ≫= (fun r => if o_is_delete_marker r then None else Some r).
Proof.
  intros Hs. apply option_ext. intros r. rewrite bind_Some, get_object_Some by done.
  setoid_rewrite get_latest_object_Some; [|done]. split.
  - intros (i & x & Hi & Hk & Hl & Hm & ->). eexists. split; [by eauto 10|].
    by replace (o_is_delete_marker (without_parts (row_rec x))) with false by (by destruct (row_rec x)).
  - intros (q & (i & x & Hi & Hk & Hl & ->) & E). exists i, x. repeat (split; [done|]).
    destruct (row_rec x) eqn:Ex. simpl in *. case_match; [done|]. by injection E as <-.
Qed.

(** C2. The object tables converge: two stores that hold the same version rows
    and then receive the same set of rows from their peers, each in its own
    order and with any repetitions, hold the same row for every version of
    every key (up to the derived latest flag), and a read of a key that
    received a row returns the same object, or the same delete marker, on
    both.  The copies of one version must be coherent: copies with the same
    modification time and etag differ only in the lock and content registers,
    and one register change has one clock value; copies with the same time and
    different etags (concurrent PUTs) have different blobs and have not been
    re-encrypted ([recrypted_tie_order_matters] is why). *)
Theorem object_replication_converges (s1 s2 : MetaStore) (xs ys : list ObjectRecord) :
  rows_ok (ms_objects s1) -> rows_ok (ms_objects s2) ->
  (forall b k v, version_row b k v (ms_objects s1) = version_row b k v (ms_objects s2)) ->
  (forall r, r ∈ xs <-> r ∈ ys) ->
  (forall b k v, all_coherent (option_list (version_row b k v (ms_objects s1)) ++ filter (same_id b k v) xs)) ->
  (forall b k v, version_row b k v (ms_objects (deliver xs s1)) =
                 version_row b k v (ms_objects (deliver ys s2))) /\
  (forall b k, (exists r, r ∈ xs /\ o_bucket r = b /\ o_key r = k) ->
     get_object b k (deliver xs s1) = get_object b k (deliver ys s2) /\
     get_latest_object b k (deliver xs s1) = get_latest_object b k (deliver ys s2)).
Proof.
  intros H1 H2 Hsame Hset Hcoh.
  assert (forall b k v, version_row b k v (ms_objects (deliver xs s1)) =
                        version_row b k v (ms_objects (deliver ys s2))) as Hv.
  { intros b k v. rewrite !version_row_deliver, <- Hsame by done. apply absorb_opt_set.
    - intros l. unfold version_row. rewrite fmap_Some. intros (x & _ & ->). by destruct x as [[] ?].
    - intros r. rewrite !list_elem_of_filter. by rewrite Hset.
    - apply Hcoh. }
  split; [done|]. intros b k (r & Hr & Hk).
  pose proof (delivered_rows_ok xs s1 H1) as D1. pose proof (delivered_rows_ok ys s2 H2) as D2.
  assert (settled b k (ms_objects (deliver xs s1))) as S1 by (apply settled_deliver; eauto).
  assert (settled b k (ms_objects (deliver ys s2))) as S2.
  { apply settled_deliver; [done|]. right. exists r. by rewrite <- Hset. }
  assert (get_latest_object b k (deliver xs s1) = get_latest_object b k (deliver ys s2)) as Hl.
  { apply option_ext. intros q. split; apply latest_agrees; auto. }
  by rewrite !get_object_of_latest, Hl.
Qed.

Definition sample_held : ObjectRecord := sample_row "b1" 10 (Some 11%Z) None (Some "ON").
Definition sample_recrypted : ObjectRecord := sample_row "b2" 10 None (Some 12%Z) None.

(** A PUT of a version the rival one has the time of, and its held copy. *)
Definition sample_copies : list ObjectRecord :=
  [sample_row "b1" 10 None None None; sample_held; sample_rival].

Lemma coherent_pairs (l : list ObjectRecord) :
  (forall i j a b, l !! i = Some a -> l !! j = Some b -> (i < j)%nat -> coherent a b) -> all_coherent l.
Proof.
  intros H a b [i Hi]%list_elem_of_lookup [j Hj]%list_elem_of_lookup.
  destruct (Nat.lt_trichotomy i j) as [L|[->|L]]; [by eauto| |by eauto using coherent_sym].
  simplify_eq. apply coherent_refl.
Qed.

Lemma sample_coherent : all_coherent [sample_held; sample_recrypted].
Proof.
  apply coherent_pairs. intros [|[|]] [|[|]] a b; simpl; intros; simplify_eq; try lia.
  intros _. split; [|done]. by vm_compute.
Qed.

Lemma sample_copies_coherent : all_coherent sample_copies.
Proof.
  apply coherent_pairs. intros [|[|[|]]] [|[|[|]]] a b; simpl; intros; simplify_eq; try lia.
  all: intros _; split; try done; by vm_compute.
Qed.

Lemma sample_coherent_rows (xs : list ObjectRecord) :
  all_coherent xs -> forall b k v,
  all_coherent (option_list (version_row b k v (ms_objects empty_meta)) ++ filter (same_id b k v) xs).
Proof.
  intros H b k v. change (option_list (version_row b k v (ms_objects empty_meta))) with (@nil ObjectRecord).
  intros x y [_ Hx]%list_elem_of_filter [_ Hy]%list_elem_of_filter. by apply H.
Qed.

(** A node that saw the legal hold first and one that saw the re-encryption
    first, and again, read the same object: both changes are in it.  Nodes
    that saw two concurrent PUTs in either order keep the same one. *)
Lemma object_replication_converges_witness :
  (get_object "bucket" "key" (deliver [sample_held; sample_recrypted] empty_meta) =
   get_object "bucket" "key" (deliver [sample_recrypted; sample_held; sample_recrypted] empty_meta) /\
   get_object "bucket" "key" (deliver [sample_held; sample_recrypted] empty_meta) =
   Some (sample_row "b2" 10 (Some 11%Z) (Some 12%Z) (Some "ON"))) /\
  (get_object "bucket" "key" (deliver sample_copies empty_meta) =
   get_object "bucket" "key" (deliver (rev sample_copies) empty_meta) /\
   get_object "bucket" "key" (deliver sample_copies empty_meta) = Some sample_rival).
Proof.
  split; (split; [|by vm_compute]).
  - apply (object_replication_converges empty_meta empty_meta [sample_held; sample_recrypted]
             [sample_recrypted; sample_held; sample_recrypted]).
    + apply empty_meta_ok.
    + apply empty_meta_ok.
    + done.
    + intros r. rewrite !elem_of_cons, elem_of_nil. tauto.
    + apply sample_coherent_rows, sample_coherent.
    + exists sample_held. split; [by left|done].
  - apply (object_replication_converges empty_meta empty_meta sample_copies (rev sample_copies)).
    + apply empty_meta_ok.
    + apply empty_meta_ok.
    + done.
    + intros r. unfold sample_copies. cbn [rev app]. rewrite !elem_of_cons. tauto.
    + apply sample_coherent_rows, sample_copies_coherent.
    + exists sample_held. split; [right; by left|done].
Defined.

(** ** A delete with an earlier clock *)

(** The delete marker of a versioned delete is inserted as the latest row
    without a recomputation.  When its time is before that of the object (the
    object came from a node whose clock is ahead), the object reads as deleted
    only until a peer delivers any row of the key again, even one the store
    already has: the recomputation then prefers the older row. *)
Definition sample_ahead : MetaStore :=
  (apply_remote_object (sample_row "blob" 100 None None None) sample_versioned).1.

Definition sample_early_delete : MetaStore :=
  (delete_object_if true 50 "v2" "bucket" "key" no_delete_precondition "root" sample_ahead).1.

Lemma redelivery_undoes_delete :
  get_object "bucket" "key" sample_early_delete = None /\
  get_object "bucket" "key" (apply_remote_object (sample_row "blob" 100 None None None) sample_early_delete).1 =
  Some (sample_row "blob" 100 None None None).
Proof. by vm_compute. Qed.

(** ** Locks on the null version *)

(** [get_object_version] reads the version [null]; the lock updates compare
    the text [null] with the [version_id] column, so they change no row. *)
Definition sample_unversioned : MetaStore :=
  (put_object_if "v1" (sample_row "blob" 10 None None None) no_write_precondition empty_meta).1.

Lemma null_version_lock_missed :
  is_some (get_object_version "bucket" "key" "null" sample_unversioned) = true /\
  (set_object_retention 20 "bucket" "key" (Some "null") (Some "COMPLIANCE") (Some 900%Z) sample_unversioned).2
    = Ok false /\
  (set_object_legal_hold 20 "bucket" "key" (Some "null") (Some "ON") sample_unversioned).2 = Ok false.
Proof. by vm_compute. Qed.

(** ** Deleting buckets *)

(** In cluster mode a deleted object leaves a tombstone row: the bucket lists
    no object and no version, and still does not count as empty. *)
Definition sample_emptied : MetaStore :=
  (delete_object_if true 20 "v2" "bucket" "key" no_delete_precondition "root" sample_unversioned).1.

Lemma tombstone_keeps_bucket_nonempty :
  list_objects "bucket" None None 10 sample_emptied = [] /\
  list_object_versions_from "bucket" None None None 10 sample_emptied = [] /\
  bucket_is_empty "bucket" sample_emptied = false.
Proof. by vm_compute. Qed.

(** [delete_bucket] keeps the rows of [bucket_config]: a bucket created again
    under the name, by whoever, starts with the settings of the old one. *)
Lemma recreated_bucket_keeps_config bucket key value owner t1 t2 s s1 s2 s3 :
  set_bucket_config t1 bucket key value s = (s1, Ok tt) ->
  delete_bucket bucket s1 = (s2, Ok true) ->
  create_bucket_owned t2 bucket owner s2 = (s3, Ok tt) ->
  get_bucket_config bucket key s3 = Some value.
Proof.
  intros H1 H2 H3. destruct s, s1, s2, s3. unfold set_bucket_config, modify in H1. injection H1 as <- <- <- <- <- <- <- <-.
  unfold delete_bucket in H2. injection H2 as <- <- <- <- <- <- <- <- _.
  unfold create_bucket_owned in H3. cbn in H3. rewrite lookup_delete_eq in H3.
  injection H3 as <- <- <- <- <- <- <- <-. unfold get_bucket_config. cbn. by rewrite lookup_insert_eq.
Qed.
