(* ===== verification/MetadataTrait.v ===== *)
(** The [MetadataStore] trait of [crates/arca-core/src/store/metadata.rs] as a
    type of calls, one constructor per method, grouped as in the trait.  A
    store is a function from calls to actions on its state: the SQLite store
    is [sqlite]; the cache and the cluster decorator are functions from such a
    store to another one, as the [Arc<dyn MetadataStore>] they wrap.

    Clock readings and minted ids are arguments of the calls that use them. *)

From S2P Require Import Prelude S3Errors Types SqlTable Preconditions MetadataStore.

(** ** Calls *)

Inductive BucketCall : Type -> Type :=
  | ListBuckets : BucketCall (list BucketInfo)
  | CreateBucketOwned (now : Z) (name owner : string) : BucketCall unit
  | HeadBucket (name : string) : BucketCall (option BucketInfo)
  | DeleteBucket (name : string) : BucketCall bool
  | BucketIsEmpty (name : string) : BucketCall bool
  | GetStats : BucketCall StorageStats.

Inductive ObjectCall : Type -> Type :=
  | PutObjectIf (uuid : string) (record : ObjectRecord) (pre : WritePrecondition)
      : ObjectCall (option ObjectRecord * option string)
  | PutObjectTaggedIf (uuid : string) (record : ObjectRecord) (pre : WritePrecondition) (tags : list (string * string))
      : ObjectCall (option ObjectRecord * option string)
  | GetObject (bucket key : string) : ObjectCall (option ObjectRecord)
  | GetLatestObject (bucket key : string) : ObjectCall (option ObjectRecord)
  | DeleteObjectIf (now : Z) (uuid bucket key : string) (pre : DeletePrecondition) (marker_owner : string)
      : ObjectCall (option ObjectRecord)
  | ListObjects (bucket : string) (prefix start_after : option string) (max_keys : Z) : ObjectCall (list ObjectRecord).

Inductive VersionCall : Type -> Type :=
  | GetObjectParts (bucket key : string) (version_id : option string) : VersionCall (option (list ObjectPart))
  | GetObjectWithTagCount (bucket key : string) : VersionCall (option (ObjectRecord * nat))
  | GetObjectVersionWithTagCount (bucket key version_id : string) : VersionCall (option (ObjectRecord * nat))
  | GetObjectVersion (bucket key version_id : string) : VersionCall (option ObjectRecord)
  | DeleteObjectVersionIf (now : Z) (bucket key version_id : string) (pre : DeletePrecondition)
      : VersionCall (option ObjectRecord)
  | DeleteObjectsIf (bucket : string) (entries : list (BatchDeleteEntry * (Z * string))) (marker_owner : string)
      : VersionCall (list (outcome ArcaError (option ObjectRecord)))
  | ListObjectVersionsFrom (bucket : string) (prefix key_marker : option string) (after : option VersionPosition)
      (max_keys : Z) : VersionCall (list ObjectRecord).

Inductive MultipartCall : Type -> Type :=
  | CreateMultipartUpload (record : MultipartUploadRecord) : MultipartCall unit
  | GetMultipartUpload (upload_id : string) : MultipartCall (option MultipartUploadRecord)
  | PutPart (part : PartRecord) : MultipartCall (option PartRecord)
  | ListParts (upload_id : string) : MultipartCall (list PartRecord)
  | CompleteMultipartObject (uuid upload_id : string) (record : ObjectRecord) (pre : WritePrecondition)
      : MultipartCall CompletedUpload
  | CompleteMultipartObjectTagged (uuid upload_id : string) (record : ObjectRecord) (pre : WritePrecondition)
      (tags : list (string * string)) : MultipartCall CompletedUpload
  | DeleteMultipartUpload (upload_id : string) : MultipartCall (list PartRecord).

Inductive LockCall : Type -> Type :=
  | SetObjectRetention (now : Z) (bucket key : string) (version_id retention_mode : option string)
      (retain_until_date : option Z) : LockCall bool
  | SetObjectLegalHold (now : Z) (bucket key : string) (version_id status : option string) : LockCall bool
  | UpdateObjectEncryption (now : Z) (bucket key : string) (version_id algorithm key_id : option string) : LockCall bool
  | UpdateObjectEncryptionCas (now : Z) (bucket key : string) (version_id : option string)
      (old_blob_id new_blob_id : string) (algorithm key_id : option string) : LockCall bool.

Inductive ConfigCall : Type -> Type :=
  | GetBucketConfig (bucket config_key : string) : ConfigCall (option string)
  | SetBucketConfig (now : Z) (bucket config_key config_value : string) : ConfigCall unit
  | DeleteBucketConfig (bucket config_key : string) : ConfigCall bool
  | GetBucketTags (bucket : string) : ConfigCall (list (string * string))
  | PutBucketTags (now : Z) (bucket : string) (tags : list (string * string)) : ConfigCall unit
  | DeleteBucketTags (bucket : string) : ConfigCall bool
  | GetObjectTags (bucket key version_id : string) : ConfigCall (list (string * string))
  | PutObjectTags (bucket key version_id : string) (tags : list (string * string)) : ConfigCall unit
  | DeleteObjectTags (bucket key version_id : string) : ConfigCall bool.

Inductive LifecycleCall : Type -> Type :=
  | ListExpiredObjects (bucket : string) (prefix : option string) (tags : list (string * string)) (cutoff : Z)
      (start_after : option string) (max_keys : Z) : LifecycleCall (list ObjectRecord)
  | ListNoncurrentExpiredVersions (bucket : string) (rule : NoncurrentExpiry)
      (after : option (string * VersionPosition)) (max_keys : Z) : LifecycleCall (list ObjectRecord)
  | ListStaleMultipartUploads (bucket : string) (prefix : option string) (cutoff : Z)
      (after : option (string * string)) (max_uploads : Z) : LifecycleCall (list MultipartUploadRecord)
  | ListMultipartUploads (bucket : string) (prefix key_marker upload_id_marker : option string) (max_uploads : Z)
      : LifecycleCall (list MultipartUploadRecord).

Inductive ReplicationCall : Type -> Type :=
  | ApplyRemoteObject (record : ObjectRecord) : ReplicationCall unit
  | ApplyRemoteVersionDelete (now : Z) (bucket key version_id : string) : ReplicationCall unit
  | ApplyRemoteBucket (info : BucketInfo) : ReplicationCall unit
  | ApplyRemoteMultipartUpload (record : MultipartUploadRecord) : ReplicationCall unit
  | ApplyBucketConfigAt (bucket config_key config_value : string) (updated_at : Z) : ReplicationCall unit
  | ApplyBucketTagsAt (bucket : string) (tags : list (string * string)) (updated_at : Z) : ReplicationCall unit
  | ListRowsChangedSince (since max : Z) : ReplicationCall (list (Z * ObjectRecord))
  | CurrentObjectSeq : ReplicationCall Z
  | SeedObjectSeqToMax : ReplicationCall Z
  | PurgeTombstones (before : Z) : ReplicationCall Z
  | ListReferencedBlobIds : ReplicationCall (list string).

Inductive MetaCall : Type -> Type :=
  | OnBuckets {A : Type} (c : BucketCall A) : MetaCall A
  | OnObjects {A : Type} (c : ObjectCall A) : MetaCall A
  | OnVersions {A : Type} (c : VersionCall A) : MetaCall A
  | OnMultipart {A : Type} (c : MultipartCall A) : MetaCall A
  | OnLocks {A : Type} (c : LockCall A) : MetaCall A
  | OnConfig {A : Type} (c : ConfigCall A) : MetaCall A
  | OnLifecycle {A : Type} (c : LifecycleCall A) : MetaCall A
  | OnReplication {A : Type} (c : ReplicationCall A) : MetaCall A.

(** A [MetadataStore] with the state [S]. *)
Definition MetadataStore_ (S : Type) : Type := forall A : Type, MetaCall A -> act S ArcaError A.

(** ** The SQLite store *)

Section sqlite.
Variable cluster_mode : bool.

Definition sqlite_bucket {A : Type} (c : BucketCall A) : mact ArcaError A :=
  match c with
  | ListBuckets => gets list_buckets
  | CreateBucketOwned now name owner => create_bucket_owned now name owner
  | HeadBucket name => gets (head_bucket name)
  | DeleteBucket name => delete_bucket name
  | BucketIsEmpty name => gets (bucket_is_empty name)
  | GetStats => gets get_stats
  end.

Definition sqlite_object {A : Type} (c : ObjectCall A) : mact ArcaError A :=
  match c with
  | PutObjectIf uuid record pre => put_object_if uuid record pre
  | PutObjectTaggedIf uuid record pre tags => put_object_tagged_if uuid record pre tags
  | GetObject bucket key => gets (get_object bucket key)
  | GetLatestObject bucket key => gets (get_latest_object bucket key)
  | DeleteObjectIf now uuid bucket key pre owner => delete_object_if cluster_mode now uuid bucket key pre owner
  | ListObjects bucket prefix start_after max_keys => gets (list_objects bucket prefix start_after max_keys)
  end.

Definition sqlite_version {A : Type} (c : VersionCall A) : mact ArcaError A :=
  match c with
  | GetObjectParts bucket key version_id => gets (get_object_parts bucket key version_id)
  | GetObjectWithTagCount bucket key => gets (get_object_with_tag_count bucket key)
  | GetObjectVersionWithTagCount bucket key version_id => gets (get_object_version_with_tag_count bucket key version_id)
  | GetObjectVersion bucket key version_id => gets (get_object_version bucket key version_id)
  | DeleteObjectVersionIf now bucket key version_id pre =>
      delete_object_version_if cluster_mode now bucket key version_id pre
  | DeleteObjectsIf bucket entries owner =>
      fun s => let '(s', results) := delete_objects_if cluster_mode bucket owner entries s in (s', Ok results)
  | ListObjectVersionsFrom bucket prefix key_marker after max_keys =>
      gets (list_object_versions_from bucket prefix key_marker after max_keys)
  end.

Definition sqlite_multipart {A : Type} (c : MultipartCall A) : mact ArcaError A :=
  match c with
  | CreateMultipartUpload record => create_multipart_upload record
  | GetMultipartUpload upload_id => gets (get_multipart_upload upload_id)
  | PutPart part => put_part part
  | ListParts upload_id => gets (list_parts upload_id)
  | CompleteMultipartObject uuid upload_id record pre => complete_multipart_object uuid upload_id record pre
  | CompleteMultipartObjectTagged uuid upload_id record pre tags =>
      complete_multipart_object_tagged uuid upload_id record pre tags
  | DeleteMultipartUpload upload_id => delete_multipart_upload upload_id
  end.

Definition sqlite_lock {A : Type} (c : LockCall A) : mact ArcaError A :=
  match c with
  | SetObjectRetention now bucket key version_id mode until => set_object_retention now bucket key version_id mode until
  | SetObjectLegalHold now bucket key version_id status => set_object_legal_hold now bucket key version_id status
  | UpdateObjectEncryption now bucket key version_id algorithm key_id =>
      update_object_encryption now bucket key version_id algorithm key_id
  | UpdateObjectEncryptionCas now bucket key version_id old_blob_id new_blob_id algorithm key_id =>
      update_object_encryption_cas now bucket key version_id old_blob_id new_blob_id algorithm key_id
  end.

Definition sqlite_config {A : Type} (c : ConfigCall A) : mact ArcaError A :=
  match c with
  | GetBucketConfig bucket config_key => gets (get_bucket_config bucket config_key)
  | SetBucketConfig now bucket config_key config_value => set_bucket_config now bucket config_key config_value
  | DeleteBucketConfig bucket config_key => delete_bucket_config bucket config_key
  | GetBucketTags bucket => gets (get_bucket_tags bucket)
  | PutBucketTags now bucket tags => put_bucket_tags now bucket tags
  | DeleteBucketTags bucket => delete_bucket_tags bucket
  | GetObjectTags bucket key version_id => gets (get_object_tags bucket key version_id)
  | PutObjectTags bucket key version_id tags => put_object_tags bucket key version_id tags
  | DeleteObjectTags bucket key version_id => delete_object_tags bucket key version_id
  end.

Definition sqlite_lifecycle {A : Type} (c : LifecycleCall A) : mact ArcaError A :=
  match c with
  | ListExpiredObjects bucket prefix tags cutoff start_after max_keys =>
      gets (list_expired_objects bucket prefix tags cutoff start_after max_keys)
  | ListNoncurrentExpiredVersions bucket rule after max_keys =>
      gets (list_noncurrent_expired_versions bucket rule after max_keys)
  | ListStaleMultipartUploads bucket prefix cutoff after max_uploads =>
      gets (list_stale_multipart_uploads bucket prefix cutoff after max_uploads)
  | ListMultipartUploads bucket prefix key_marker upload_id_marker max_uploads =>
      gets (list_multipart_uploads bucket prefix key_marker upload_id_marker max_uploads)
  end.

Definition sqlite_replication {A : Type} (c : ReplicationCall A) : mact ArcaError A :=
  match c with
  | ApplyRemoteObject record => apply_remote_object record
  | ApplyRemoteVersionDelete now bucket key version_id => apply_remote_version_delete now bucket key version_id
  | ApplyRemoteBucket info => apply_remote_bucket info
  | ApplyRemoteMultipartUpload record => apply_remote_multipart_upload record
  | ApplyBucketConfigAt bucket config_key config_value updated_at =>
      apply_bucket_config_at bucket config_key config_value updated_at
  | ApplyBucketTagsAt bucket tags updated_at => apply_bucket_tags_at bucket tags updated_at
  | ListRowsChangedSince since max => gets (list_rows_changed_since since max)
  | CurrentObjectSeq => gets current_object_seq
  | SeedObjectSeqToMax => seed_object_seq_to_max
  | PurgeTombstones before => purge_tombstones before
  | ListReferencedBlobIds => gets list_referenced_blob_ids
  end.

Definition sqlite : MetadataStore_ MetaStore := fun A c =>
  match c with
  | OnBuckets c => sqlite_bucket c
  | OnObjects c => sqlite_object c
  | OnVersions c => sqlite_version c
  | OnMultipart c => sqlite_multipart c
  | OnLocks c => sqlite_lock c
  | OnConfig c => sqlite_config c
  | OnLifecycle c => sqlite_lifecycle c
  | OnReplication c => sqlite_replication c
  end.
End sqlite.

(** ** What the trait promises about single keys *)

(** The bucket and the objects a call names as those it changes. *)
Definition writes_bucket {A : Type} (c : MetaCall A) : option string :=
  match c with
  | OnBuckets (CreateBucketOwned _ name _) => Some name
  | OnBuckets (DeleteBucket name) => Some name
  | OnReplication (ApplyRemoteBucket info) => Some (b_name info)
  | _ => None
  end.

Definition writes_objects {A : Type} (c : MetaCall A) : list (string * string) :=
  match c with
  | OnObjects (PutObjectIf _ record _) => [(o_bucket record, o_key record)]
  | OnObjects (PutObjectTaggedIf _ record _ _) => [(o_bucket record, o_key record)]
  | OnObjects (DeleteObjectIf _ _ bucket key _ _) => [(bucket, key)]
  | OnVersions (DeleteObjectVersionIf _ bucket key _ _) => [(bucket, key)]
  | OnVersions (DeleteObjectsIf bucket entries _) => (fun e => (bucket, bd_key e.1)) <$> entries
  | OnMultipart (CompleteMultipartObject _ _ record _) => [(o_bucket record, o_key record)]
  | OnMultipart (CompleteMultipartObjectTagged _ _ record _ _) => [(o_bucket record, o_key record)]
  | OnLocks (SetObjectRetention _ bucket key _ _ _) => [(bucket, key)]
  | OnLocks (SetObjectLegalHold _ bucket key _ _) => [(bucket, key)]
  | OnLocks (UpdateObjectEncryption _ bucket key _ _ _) => [(bucket, key)]
  | OnLocks (UpdateObjectEncryptionCas _ bucket key _ _ _ _ _) => [(bucket, key)]
  | OnReplication (ApplyRemoteObject record) => [(o_bucket record, o_key record)]
  | OnReplication (ApplyRemoteVersionDelete _ bucket key _) => [(bucket, key)]
  | _ => []
  end.


(** A store whose two point reads are answered by functions of its state, and
    whose calls change these answers only for the bucket and the objects they
    name, and not at all when they fail. *)
Class KeyedStore {S : Type} (store : MetadataStore_ S) : Type := {
  ks_inv : S -> Prop;
  ks_allowed : forall A : Type, MetaCall A -> S -> Prop;
  ks_bucket : S -> string -> option BucketInfo;
  ks_latest : S -> string -> string -> option ObjectRecord;
  ks_head : forall name s, store _ (OnBuckets (HeadBucket name)) s = (s, Ok (ks_bucket s name));
  ks_get_latest : forall b k s, store _ (OnObjects (GetLatestObject b k)) s = (s, Ok (ks_latest s b k));
  ks_inv_kept : forall A (c : MetaCall A) s, ks_inv s -> ks_allowed A c s -> ks_inv (store A c s).1;
  ks_bucket_frame : forall A (c : MetaCall A) s name, ks_inv s -> ks_allowed A c s ->
    (is_ok (store A c s).2 = true -> writes_bucket c <> Some name) ->
    ks_bucket (store A c s).1 name = ks_bucket s name;
  ks_latest_frame : forall A (c : MetaCall A) s b k, ks_inv s -> ks_allowed A c s ->
    (is_ok (store A c s).2 = true -> (b, k) ∉ writes_objects c) ->
    ks_latest (store A c s).1 b k = ks_latest s b k;
}.
