(* ===== verification/MetadataKeyed.v ===== *)
(** The SQLite store keeps the promise of the trait about single keys: the
    instance of [KeyedStore] for [sqlite]. *)

From S2P Require Import Prelude S3Errors Types SqlTable Preconditions MetadataStore MetadataRows MetadataInvariant.
From S2P Require Import MetadataSteps MetadataOps MetadataReplication MetadataTrait.

(** ** What a call may change *)

(** Latest rows of objects other than [K] and buckets other than [B] stay. *)
Definition within (K : list (string * string)) (B : option string) (s s' : MetaStore) : Prop :=
  (forall b k i x, (b, k) ∉ K -> at_key b k x -> latest x -> (ms_objects s !! i = Some x <-> ms_objects s' !! i = Some x)) /\
  (forall n, B <> Some n -> ms_buckets s' !! n = ms_buckets s !! n).

Lemma within_refl K B s : within K B s s.
Proof. done. Qed.

Lemma within_trans K B s1 s2 s3 : within K B s1 s2 -> within K B s2 s3 -> within K B s1 s3.
Proof.
  intros [O1 B1] [O2 B2]. split.
  - intros b k i x Hn Hk Hl. rewrite (O1 b k i x) by done. by apply (O2 b k i x).
  - intros n Hn. by rewrite B2, B1.
Qed.

Lemma within_mono K K' B s s' : (forall x, x ∈ K -> x ∈ K') -> within K B s s' -> within K' B s s'.
Proof. intros HK [O1 B1]. split; [|done]. intros b k i x Hn. apply O1. auto. Qed.

Lemma within_frame b k s s' :
  frame b k (ms_objects s) (ms_objects s') -> ms_buckets s' = ms_buckets s -> within [(b, k)] None s s'.
Proof.
  intros Hf Hb. split; [|by rewrite Hb]. intros b' k' i x Hn [<- <-] _. apply Hf.
  intros [E1 E2]. apply Hn. rewrite <- E1, <- E2. by left.
Qed.

Lemma within_same K B s s' :
  ms_objects s' = ms_objects s -> (forall n, B <> Some n -> ms_buckets s' !! n = ms_buckets s !! n) -> within K B s s'.
Proof. intros E Hb. split; [|done]. by rewrite E. Qed.

Lemma within_reads K B s s' :
  rows_ok (ms_objects s) -> rows_ok (ms_objects s') -> within K B s s' ->
  forall b k, (b, k) ∉ K -> get_latest_object b k s' = get_latest_object b k s.
Proof.
  intros Hs Hs' [Ho _] b k Hn. apply option_ext. intros r. rewrite !get_latest_object_Some by done.
  split; intros (i & x & Hi & Hk & Hl & ->); exists i, x; (split; [by apply (Ho b k i x)|done]).
Qed.

(** The rows after a transaction: those of the statements, or none changed. *)
Lemma atomically_cases {S E A : Type} (m : act S E A) s :
  (atomically m s).1 = (m s).1 /\ is_ok (m s).2 = true \/
  (atomically m s).1 = s /\ is_ok (atomically m s).2 = false.
Proof. unfold atomically. destruct (m s) as [s' []]; auto. Qed.

Lemma map_err_is_ok {S E E' A : Type} (f : E -> E') (m : act S E A) s : is_ok (map_err f m s).2 = is_ok (m s).2.
Proof. unfold map_err. by destruct (m s) as [? []]. Qed.

(** Transactions are all or nothing, and stay within what their statements do. *)
Lemma atomic_within {E E' A : Type} (f : E -> E') (m : mact E A) K B s :
  within K B s (m s).1 ->
  within K B s (map_err f (atomically m) s).1 /\
  (is_ok (map_err f (atomically m) s).2 = false -> (map_err f (atomically m) s).1 = s).
Proof.
  intros Hw. rewrite map_err_state, map_err_is_ok. unfold atomically. by destruct (m s) as [s' []].
Qed.

(** ** Each write *)

Lemma install_within uuid r pre s : within [(o_bucket r, o_key r)] None s (install_object uuid r pre s).1.
Proof.
  destruct (write_evaluate pre (get_object (o_bucket r) (o_key r) s)) as [[]|c|] eqn:E.
  - destruct (install_object_ok uuid r pre s _ eq_refl E) as (s' & -> & Hb). cbn.
    apply objects_become_fields in Hb as (Ho & _ & Hbk & _). apply within_frame; [|done]. rewrite Ho.
    apply frame_installed.
  - rewrite (install_object_err _ _ _ _ _ E). apply within_refl.
  - by destruct (write_evaluate_total pre (get_object (o_bucket r) (o_key r) s)).
Qed.

Lemma tags_within K B b k v tags s : within K B s (write_object_tags b k v tags s).1.
Proof.
  unfold write_object_tags. apply bind_write; [apply within_trans|by apply within_same; destruct s|].
  intros n s1 _. apply (act_for_inv _ (within K B s1)); [|apply within_refl].
  intros t s2 _ Hs. unfold insert_tag. destruct (ms_object_tags s2 !! _); [done|].
  eapply within_trans; [exact Hs|]. by apply within_same; destruct s2.
Qed.

Lemma put_within uuid r pre tags s :
  let m := put_object_tagged_if uuid r pre tags in
  within [(o_bucket r, o_key r)] None s (m s).1 /\ (is_ok (m s).2 = false -> (m s).1 = s).
Proof.
  apply atomic_within. apply bind_write; [apply within_trans|apply install_within|].
  intros [r' old] s1 _. apply bind_write; [apply within_trans| |intros; apply within_refl].
  unfold when. destruct (negb _); [|apply within_refl]. rewrite map_err_state. apply tags_within.
Qed.

Lemma complete_within uuid u r pre tags s :
  let m := complete_multipart_object_tagged uuid u r pre tags in
  within [(o_bucket r, o_key r)] None s (m s).1 /\ (is_ok (m s).2 = false -> (m s).1 = s).
Proof.
  apply atomic_within. apply bind_write; [apply within_trans|apply within_refl|]. intros up s0 [= <- <-].
  apply bind_write; [apply within_trans|destruct (get_multipart_upload u s); apply within_refl|].
  intros t s1 _. apply bind_write; [apply within_trans|apply install_within|].
  intros [r' old] s2 _. apply bind_write; [apply within_trans|..].
  - unfold when. destruct (negb _); [|apply within_refl]. rewrite map_err_state. apply tags_within.
  - intros _ s3 _. apply bind_write; [apply within_trans| |intros; apply within_refl].
    by apply within_same; destruct s3.
Qed.

Lemma delete_latest_within c now uuid b k pre owner s :
  within [(b, k)] None s (delete_latest_in_tx c now uuid b k pre owner s).1.
Proof.
  destruct (delete_evaluate pre (get_latest_object b k s)) as [[]|e|] eqn:E.
  - destruct (delete_latest_ok c now uuid b k pre owner s _ eq_refl E) as (s' & -> & Hb). cbn.
    apply objects_become_fields in Hb as (Ho & _ & Hbk & _). apply within_frame; [|done]. rewrite Ho.
    apply frame_deleted.
  - rewrite (delete_latest_err _ _ _ _ _ _ _ _ _ E). apply within_refl.
  - by destruct (delete_evaluate_total pre (get_latest_object b k s)).
Qed.

Lemma delete_version_within c now b k v pre s : within [(b, k)] None s (delete_version_in_tx c now b k v pre s).1.
Proof.
  rewrite (delete_version_eq _ _ _ _ _ _ _ _ eq_refl). destruct (version_delete_check _ _); [|apply within_refl..].
  destruct (is_some _); [|apply within_refl]. unfold version_deleted. cbn. apply within_frame; [|by destruct s].
  destruct s. apply frame_version_deleted.
Qed.

Lemma delete_entry_within c b owner e s :
  let m := delete_entry c b owner e in
  within [(b, bd_key e.1)] None s (m s).1 /\ (is_ok (m s).2 = false -> (m s).1 = s).
Proof.
  destruct e as [e [now uuid]]. unfold delete_entry. cbn [fst]. destruct (bd_version_id e);
    apply atomic_within; [apply delete_version_within|apply delete_latest_within].
Qed.

Lemma delete_objects_within c b owner entries s :
  within ((fun e => (b, bd_key e.1)) <$> entries) None s (delete_objects_if c b owner entries s).1.
Proof.
  revert s. induction entries as [|e entries IH]; intros s; cbn; [apply within_refl|].
  destruct (delete_entry_within c b owner e s) as [He _]. destruct (delete_entry c b owner e s) as [s1 r].
  specialize (IH s1). destruct (delete_objects_if c b owner entries s1) as [s2 rs]. cbn in *.
  apply within_trans with s1; (eapply within_mono; [|eassumption]); intros x; rewrite !elem_of_cons.
  - intros [->|[]%not_elem_of_nil]. by left.
  - by right.
Qed.

Lemma update_within (P : ObjRow -> Prop) `{!forall x, Decision (P x)} f b k seq s :
  keeps_id f -> (forall x, P x -> at_key b k x) ->
  within [(b, k)] None s (with_objects (update_where P f (ms_objects s)) (with_object_seq seq s)).
Proof. intros Hf HP. apply within_frame; [|by destruct s]. destruct s. by apply frame_update. Qed.

Lemma keeps_id_flags seq f : keeps_flags f -> keeps_id (map_row_at seq f).
Proof. intros Hf x. destruct (Hf (row_rec x)) as (?&?&?&?). done. Qed.

Lemma target_at_key b k v x : target b k v x -> at_key b k x.
Proof. by intros []. Qed.

Lemma update_target_within b k v f s :
  keeps_flags f -> within [(b, k)] None s (update_target b k v f s).1.
Proof.
  intros Hf. unfold update_target, act_bind, next_object_seq, update_objects, act_ret. cbn.
  apply within_frame; [|by destruct s]. destruct s. apply frame_update; [by apply keeps_id_flags|].
  intros x. apply target_at_key.
Qed.

Lemma encryption_cas_within now b k v old new alg kid s :
  within [(b, k)] None s (update_object_encryption_cas now b k v old new alg kid s).1.
Proof.
  unfold update_object_encryption_cas, act_bind, next_object_seq, update_objects, act_ret. cbn.
  apply within_frame; [|by destruct s]. destruct s. apply frame_update; [apply keeps_id_flags, keeps_flags_set_content|].
  intros x [H _]. by eapply target_at_key.
Qed.

Lemma remote_object_within r s :
  rows_ok (ms_objects s) -> within [(o_bucket r, o_key r)] None s (apply_remote_object r s).1.
Proof.
  intros Hs. rewrite apply_remote_object_eq. cbn. apply within_frame; [|by destruct s].
  destruct s. by apply replicated_frame.
Qed.

Lemma remote_version_delete_within now b k v s :
  within [(b, k)] None s (apply_remote_version_delete now b k v s).1.
Proof.
  rewrite apply_remote_version_delete_eq. cbn. apply within_frame; [|by destruct s]. destruct s. cbn.
  eapply frame_trans; [|apply frame_recompute]. apply frame_update; [apply keeps_id_tombstone|by intros x []].
Qed.

(** A purge removes rows that are not the latest. *)
Lemma purge_within before s : rows_ok (ms_objects s) -> within [] None s (purge_tombstones before s).1.
Proof.
  intros Hs. split; [|by destruct s]. intros b k i x _ Hk Hl.
  assert (ms_objects (purge_tombstones before s).1 = delete_where (fun x => o_is_tombstone (row_rec x) = true /\
    (o_last_modified (row_rec x) < before)%Z) (ms_objects s)) as -> by by destruct s.
  rewrite lookup_delete_where. split; [|by intros []]. intros Hi. split; [done|]. intros [Ht _].
  destruct (Hs b k) as (_ & _ & Hlive & _). specialize (Hlive i x Hi Hk Hl). congruence.
Qed.

Lemma bucket_tags_within op b tags ts s :
  let m := internal op (atomically (replace_bucket_tags b tags ts)) in
  within [] None s (m s).1 /\ (is_ok (m s).2 = false -> (m s).1 = s).
Proof.
  apply atomic_within. unfold replace_bucket_tags.
  apply bind_write; [apply within_trans|by apply within_same; destruct s|].
  intros n s1 _. apply (act_for_inv _ (within [] None s1)); [|apply within_refl].
  intros t s2 _ Hs. unfold insert_bucket_tag. destruct (ms_bucket_tags s2 !! _); [done|].
  eapply within_trans; [exact Hs|]. by apply within_same; destruct s2.
Qed.

(** ** Calls as steps *)

Section instance.
Variable cluster_mode : bool.

(** The ids a batch mints are fresh when they are used. *)
Fixpoint entries_fresh (b owner : string) (entries : list (BatchDeleteEntry * (Z * string))) (s : MetaStore) : Prop :=
  match entries with
  | [] => True
  | e :: rest =>
      fresh_version b (bd_key e.1) e.2.2 (ms_objects s) /\
      entries_fresh b owner rest (delete_entry cluster_mode b owner e s).1
  end.

(** A call mints a version id that no row of the object has. *)
Definition fresh_call {A : Type} (c : MetaCall A) (s : MetaStore) : Prop :=
  match c with
  | OnObjects (PutObjectIf uuid r _) => fresh_version (o_bucket r) (o_key r) uuid (ms_objects s)
  | OnObjects (PutObjectTaggedIf uuid r _ _) => fresh_version (o_bucket r) (o_key r) uuid (ms_objects s)
  | OnObjects (DeleteObjectIf _ uuid b k _ _) => fresh_version b k uuid (ms_objects s)
  | OnVersions (DeleteObjectsIf b entries owner) => entries_fresh b owner entries s
  | OnMultipart (CompleteMultipartObject uuid _ r _) => fresh_version (o_bucket r) (o_key r) uuid (ms_objects s)
  | OnMultipart (CompleteMultipartObjectTagged uuid _ r _ _) => fresh_version (o_bucket r) (o_key r) uuid (ms_objects s)
  | _ => True
  end.

Lemma batch_steps b owner entries s :
  entries_fresh b owner entries s -> rtc (meta_step cluster_mode) s (delete_objects_if cluster_mode b owner entries s).1.
Proof.
  revert s. induction entries as [|e entries IH]; intros s; cbn; [done|]. intros [Hf Hr].
  pose proof (step_delete_entry cluster_mode b owner e.1 e.2.1 e.2.2 s Hf) as Hs. rewrite <- !surjective_pairing in Hs.
  destruct (delete_entry cluster_mode b owner e s) as [s1 r]. specialize (IH s1 Hr).
  destruct (delete_objects_if cluster_mode b owner entries s1) as [s2 rs]. by eapply rtc_l.
Qed.

Lemma sqlite_steps {A : Type} (c : MetaCall A) s :
  fresh_call c s -> rtc (meta_step cluster_mode) s (sqlite cluster_mode A c s).1.
Proof.
  intros Hf. destruct c as [A c|A c|A c|A c|A c|A c|A c|A c]; destruct c; cbn in Hf |- *;
    try solve [apply rtc_refl | apply rtc_once; by econstructor].
  pose proof (batch_steps _ _ _ _ Hf) as H. by destruct (delete_objects_if cluster_mode _ _ _ s).
Qed.

(** What a call names is what it changes, and a failed call changes nothing. *)
Lemma sqlite_within {A : Type} (c : MetaCall A) s :
  rows_ok (ms_objects s) ->
  let m := sqlite cluster_mode A c in
  within (writes_objects c) (writes_bucket c) s (m s).1 /\ (is_ok (m s).2 = false -> (m s).1 = s).
Proof.
  intros Hs. destruct c as [A c|A c|A c|A c|A c|A c|A c|A c]; destruct c; cbn;
    try solve [done | split; [by apply within_same; destruct s|done]].
  - unfold create_bucket_owned. destruct (ms_buckets s !! name); [done|]. split; [|done].
    apply within_same; [by destruct s|]. intros n Hn. destruct s. cbn. rewrite lookup_insert_ne by congruence. done.
  - split; [|done]. apply within_same; [by destruct s|]. intros n Hn. destruct s. cbn.
    by rewrite lookup_delete_ne by congruence.
  - apply put_within.
  - apply put_within.
  - apply atomic_within, delete_latest_within.
  - apply atomic_within, delete_version_within.
  - pose proof (delete_objects_within cluster_mode bucket marker_owner entries s) as H.
    by destruct (delete_objects_if cluster_mode bucket marker_owner entries s).
  - unfold create_multipart_upload. destruct (ms_uploads s !! _); [done|]. split; [by apply within_same; destruct s|done].
  - apply complete_within.
  - apply complete_within.
  - split; [|done]. apply update_target_within. intros r. apply keeps_flags_set_lock.
  - split; [|done]. apply update_target_within. intros r. apply keeps_flags_set_lock.
  - split; [|done]. apply update_target_within. intros r. apply keeps_flags_set_content.
  - split; [|done]. apply encryption_cas_within.
  - apply bucket_tags_within.
  - apply atomic_within, tags_within.
  - split; [by apply remote_object_within|]. by rewrite apply_remote_object_eq.
  - split; [apply remote_version_delete_within|done].
  - split; [|done]. apply within_same; [by destruct s|]. intros n Hn. destruct s. cbn.
    by rewrite lookup_insert_ne by congruence.
  - split; [|done]. unfold apply_remote_multipart_upload, modify. cbn.
    destruct (ms_uploads s !! _); by apply within_same; destruct s.
  - apply bucket_tags_within.
  - split; [by apply purge_within|done].
Qed.

#[export] Instance sqlite_keyed : KeyedStore (sqlite cluster_mode).
Proof.
  refine {| ks_inv := meta_ok; ks_allowed A c s := fresh_call c s; ks_bucket s n := head_bucket n s;
            ks_latest s b k := get_latest_object b k s |}; [done|done|..].
  - intros A c s Hi Hf. by eapply steps_meta_ok, Hi; apply sqlite_steps.
  - intros A c s n Hi Hf Hn. destruct (sqlite_within c s (mo_rows _ Hi)) as [[_ Hb] He].
    destruct (is_ok (sqlite cluster_mode A c s).2); [by apply Hb, Hn|by rewrite He].
  - intros A c s b k Hi Hf Hn. destruct (sqlite_within c s (mo_rows _ Hi)) as [Hw He].
    destruct (is_ok (sqlite cluster_mode A c s).2); [|by rewrite He].
    eapply within_reads; [apply Hi| |exact Hw|by apply Hn].
    eapply mo_rows, steps_meta_ok, Hi. by apply sqlite_steps.
Defined.
End instance.
