(* ===== verification/MetadataCache.v ===== *)
(** The metadata cache, [CachingMetadataStore] of
    [crates/arca-storage/src/caching.rs]: a read cache for [head_bucket] and
    [get_latest_object] in front of any metadata store, dropped by every write
    that names the bucket or the object.

    The cache itself is the moka crate, a parameter: [Moka] are the calls the
    store makes and [MokaLaws] what moka documents, that a cache returns only
    what was inserted under the key, within the time to live and not since
    invalidated; it may forget anything at any time. *)

From S2P Require Import Prelude S3Errors Types SqlTable Preconditions MetadataStore MetadataTrait.

(** ** The cache library *)

Class Moka (C V : Type) : Type := {
  moka_new : C;
  moka_get : Z -> string -> C -> option V * C;
  moka_insert : Z -> string -> V -> C -> C;
  moka_invalidate : Z -> string -> C -> C;
}.

Class MokaLaws (C V : Type) `{!Moka C V} (ttl : Z) : Prop := {
  moka_get_new : forall now key, (moka_get now key moka_new).1 = None;
  moka_get_get : forall now now' key key' c v,
    (moka_get now' key' (moka_get now key c).2).1 = Some v -> (moka_get now' key' c).1 = Some v;
  moka_get_insert : forall now now' key key' v w c,
    (moka_get now' key' (moka_insert now key v c)).1 = Some w ->
    (key' = key /\ w = v /\ (now' < now + ttl)%Z) \/ (key' <> key /\ (moka_get now' key' c).1 = Some w);
  moka_get_invalidate : forall now now' key key' c v,
    (moka_get now' key' (moka_invalidate now key c)).1 = Some v ->
    key' <> key /\ (moka_get now' key' c).1 = Some v;
}.

(** ** The store *)

Record CachingMetadataStore (S CB CO : Type) : Type := {
  cm_inner : S;
  cm_bucket_cache : CB;
  cm_object_cache : CO;
}.
Arguments cm_inner {_ _ _} _.
Arguments cm_bucket_cache {_ _ _} _.
Arguments cm_object_cache {_ _ _} _.

(** The key of an object: bucket and key around a NUL. *)
Definition object_key (bucket key : string) : string := bucket +:+ String Ascii.zero key.

Section caching.
Context {S CB CO : Type} `{!Moka CB (option BucketInfo), !Moka CO (option ObjectRecord)}.
Implicit Type st : CachingMetadataStore S CB CO.

Definition new_caching (inner : S) : CachingMetadataStore S CB CO :=
  {| cm_inner := inner; cm_bucket_cache := moka_new; cm_object_cache := moka_new |}.

Definition with_inner (s : S) st : CachingMetadataStore S CB CO :=
  {| cm_inner := s; cm_bucket_cache := cm_bucket_cache st; cm_object_cache := cm_object_cache st |}.

Definition with_bucket_cache (c : CB) st : CachingMetadataStore S CB CO :=
  {| cm_inner := cm_inner st; cm_bucket_cache := c; cm_object_cache := cm_object_cache st |}.

Definition with_object_cache (c : CO) st : CachingMetadataStore S CB CO :=
  {| cm_inner := cm_inner st; cm_bucket_cache := cm_bucket_cache st; cm_object_cache := c |}.

Section call.
(** The clock while the call runs, and the store wrapped. *)
Variables (now : Z) (inner : MetadataStore_ S).

Definition invalidate_bucket (bucket : string) st : CachingMetadataStore S CB CO :=
  with_bucket_cache (moka_invalidate now bucket (cm_bucket_cache st)) st.

Definition invalidate_object (bucket key : string) st : CachingMetadataStore S CB CO :=
  with_object_cache (moka_invalidate now (object_key bucket key) (cm_object_cache st)) st.

(** [self.inner.call(...).await] *)
Definition forward {A : Type} (c : MetaCall A) : act (CachingMetadataStore S CB CO) ArcaError A := fun st =>
  let '(s', result) := inner A c (cm_inner st) in (with_inner s' st, result).

(** [if result.is_ok() { ... }] *)
Definition if_ok {A : Type} (m : act (CachingMetadataStore S CB CO) ArcaError A)
    (f : CachingMetadataStore S CB CO -> CachingMetadataStore S CB CO)
  : act (CachingMetadataStore S CB CO) ArcaError A := fun st =>
  let '(st', result) := m st in (if is_ok result then f st' else st', result).

Definition cached_head_bucket (name : string)
  : act (CachingMetadataStore S CB CO) ArcaError (option BucketInfo) := fun st =>
  let '(hit, c) := moka_get now name (cm_bucket_cache st) in
  let st := with_bucket_cache c st in
  match hit with
  | Some cached => (st, Ok cached)
  | None =>
      match forward (OnBuckets (HeadBucket name)) st with
      | (st, Ok result) => (with_bucket_cache (moka_insert now name result (cm_bucket_cache st)) st, Ok result)
      | (st, e) => (st, e)
      end
  end.

Definition cached_get_latest_object (bucket key : string)
  : act (CachingMetadataStore S CB CO) ArcaError (option ObjectRecord) := fun st =>
  let cache_key := object_key bucket key in
  let '(hit, c) := moka_get now cache_key (cm_object_cache st) in
  let st := with_object_cache c st in
  match hit with
  | Some cached => (st, Ok cached)
  | None =>
      match forward (OnObjects (GetLatestObject bucket key)) st with
      | (st, Ok result) => (with_object_cache (moka_insert now cache_key result (cm_object_cache st)) st, Ok result)
      | (st, e) => (st, e)
      end
  end.

Definition caching_bucket {A : Type} (c : BucketCall A) : act (CachingMetadataStore S CB CO) ArcaError A :=
  match c with
  | CreateBucketOwned t name owner =>
      if_ok (forward (OnBuckets (CreateBucketOwned t name owner))) (invalidate_bucket name)
  | HeadBucket name => cached_head_bucket name
  | DeleteBucket name => if_ok (forward (OnBuckets (DeleteBucket name))) (invalidate_bucket name)
  | c => forward (OnBuckets c)
  end.

Definition caching_object {A : Type} (c : ObjectCall A) : act (CachingMetadataStore S CB CO) ArcaError A :=
  match c with
  | PutObjectIf uuid record pre =>
      if_ok (forward (OnObjects (PutObjectIf uuid record pre))) (invalidate_object (o_bucket record) (o_key record))
  | PutObjectTaggedIf uuid record pre tags =>
      if_ok (forward (OnObjects (PutObjectTaggedIf uuid record pre tags)))
        (invalidate_object (o_bucket record) (o_key record))
  | GetLatestObject bucket key => cached_get_latest_object bucket key
  | DeleteObjectIf t uuid bucket key pre owner =>
      if_ok (forward (OnObjects (DeleteObjectIf t uuid bucket key pre owner))) (invalidate_object bucket key)
  | c => forward (OnObjects c)
  end.

Definition caching_version {A : Type} (c : VersionCall A) : act (CachingMetadataStore S CB CO) ArcaError A :=
  match c with
  | DeleteObjectVersionIf t bucket key version_id pre =>
      if_ok (forward (OnVersions (DeleteObjectVersionIf t bucket key version_id pre))) (invalidate_object bucket key)
  | DeleteObjectsIf bucket entries owner => fun st =>
      let '(st', results) := forward (OnVersions (DeleteObjectsIf bucket entries owner)) st in
      (fold_left (fun st e => invalidate_object bucket (bd_key e.1) st) entries st', results)
  | c => forward (OnVersions c)
  end.

Definition caching_replication {A : Type} (c : ReplicationCall A) : act (CachingMetadataStore S CB CO) ArcaError A :=
  match c with
  | ApplyRemoteObject record =>
      if_ok (forward (OnReplication (ApplyRemoteObject record))) (invalidate_object (o_bucket record) (o_key record))
  | ApplyRemoteVersionDelete t bucket key version_id =>
      if_ok (forward (OnReplication (ApplyRemoteVersionDelete t bucket key version_id))) (invalidate_object bucket key)
  | ApplyRemoteBucket info =>
      if_ok (forward (OnReplication (ApplyRemoteBucket info))) (invalidate_bucket (b_name info))
  | c => forward (OnReplication c)
  end.

Definition caching_multipart {A : Type} (c : MultipartCall A) : act (CachingMetadataStore S CB CO) ArcaError A :=
  match c with
  | CompleteMultipartObject uuid upload_id record pre =>
      if_ok (forward (OnMultipart (CompleteMultipartObject uuid upload_id record pre)))
        (invalidate_object (o_bucket record) (o_key record))
  | CompleteMultipartObjectTagged uuid upload_id record pre tags =>
      if_ok (forward (OnMultipart (CompleteMultipartObjectTagged uuid upload_id record pre tags)))
        (invalidate_object (o_bucket record) (o_key record))
  | c => forward (OnMultipart c)
  end.

Definition caching_lock {A : Type} (c : LockCall A) : act (CachingMetadataStore S CB CO) ArcaError A :=
  match c with
  | SetObjectRetention t bucket key version_id mode until =>
      if_ok (forward (OnLocks (SetObjectRetention t bucket key version_id mode until))) (invalidate_object bucket key)
  | SetObjectLegalHold t bucket key version_id status =>
      if_ok (forward (OnLocks (SetObjectLegalHold t bucket key version_id status))) (invalidate_object bucket key)
  | UpdateObjectEncryption t bucket key version_id algorithm key_id =>
      if_ok (forward (OnLocks (UpdateObjectEncryption t bucket key version_id algorithm key_id)))
        (invalidate_object bucket key)
  | UpdateObjectEncryptionCas t bucket key version_id old_blob_id new_blob_id algorithm key_id =>
      if_ok (forward (OnLocks (UpdateObjectEncryptionCas t bucket key version_id old_blob_id new_blob_id algorithm
                                 key_id)))
        (invalidate_object bucket key)
  end.

(** [impl MetadataStore for CachingMetadataStore]; configuration, tags and
    lifecycle queries are delegated. *)
Definition caching : MetadataStore_ (CachingMetadataStore S CB CO) := fun A c =>
  match c with
  | OnBuckets c => caching_bucket c
  | OnObjects c => caching_object c
  | OnVersions c => caching_version c
  | OnMultipart c => caching_multipart c
  | OnLocks c => caching_lock c
  | OnConfig c => forward (OnConfig c)
  | OnLifecycle c => forward (OnLifecycle c)
  | OnReplication c => caching_replication c
  end.
End call.
End caching.
