(* ===== verification/MetadataCacheSafety.v ===== *)
(** The metadata cache is transparent as long as calls do not overlap: a
    sequence of calls answers through the cache what it answers without it
    ([cache_transparent]).  Overlapping calls are in [MetadataCacheRace]. *)

From S2P Require Import Prelude S3Errors Types SqlTable Text Preconditions MetadataStore MetadataRows MetadataInvariant.
From S2P Require Import MetadataSteps MetadataTrait MetadataKeyed MetadataCache.

(** ** Keys *)

Fixpoint no_nul (s : string) : bool :=
  match s with
  | EmptyString => true
  | String a s' => negb (bool_decide (a = Ascii.zero)) && no_nul s'
  end.

Lemma object_key_inj b k b' k' :
  no_nul b = true -> no_nul b' = true -> object_key b k = object_key b' k' -> b = b' /\ k = k'.
Proof.
  unfold object_key. revert b'. induction b as [|x b IH]; intros [|y b'] Hb Hb' E.
  - by injection E.
  - injection E as <- _. cbn in Hb'. by rewrite bool_decide_eq_true_2 in Hb'.
  - injection E as -> _. cbn in Hb. by rewrite bool_decide_eq_true_2 in Hb.
  - injection E as -> E. cbn in Hb, Hb'. apply andb_true_iff in Hb as [_ Hb], Hb' as [_ Hb'].
    by destruct (IH b' Hb Hb' E) as [-> ->].
Qed.

(** ** Calls one after the other *)

Section transparent.
Context {S CB CO : Type} (inner : MetadataStore_ S) `{HK : !KeyedStore inner}.
Context `{!Moka CB (option BucketInfo), !Moka CO (option ObjectRecord)} (ttl_b ttl_o : Z).
Context `{HB : !MokaLaws CB (option BucketInfo) ttl_b, HO : !MokaLaws CO (option ObjectRecord) ttl_o}.
Implicit Type st : CachingMetadataStore S CB CO.

(** Whatever the caches return is what the store would answer. *)
Record coherent st : Prop := {
  coh_inv : ks_inv (cm_inner st);
  coh_bucket : forall t n v, (moka_get t n (cm_bucket_cache st)).1 = Some v -> v = ks_bucket (cm_inner st) n;
  coh_object : forall t b k v, no_nul b = true ->
    (moka_get t (object_key b k) (cm_object_cache st)).1 = Some v -> v = ks_latest (cm_inner st) b k;
}.

(** Only reads that fill the cache need a bucket name without NUL. *)
Definition names_ok {A : Type} (c : MetaCall A) : Prop :=
  match c with OnObjects (GetLatestObject bucket _) => no_nul bucket = true | _ => True end.

(** The caches after a call: entries may disappear, those of what a successful
    call writes do. *)
Definition dropped {A : Type} (c : MetaCall A) (ok : bool) st st' : Prop :=
  (forall t n v, (moka_get t n (cm_bucket_cache st')).1 = Some v ->
     (moka_get t n (cm_bucket_cache st)).1 = Some v /\ (ok = true -> writes_bucket c <> Some n)) /\
  (forall t b k v, (moka_get t (object_key b k) (cm_object_cache st')).1 = Some v ->
     (moka_get t (object_key b k) (cm_object_cache st)).1 = Some v /\ (ok = true -> (b, k) ∉ writes_objects c)).

Lemma coherent_dropped {A : Type} (c : MetaCall A) st st' :
  coherent st -> ks_allowed A c (cm_inner st) -> cm_inner st' = (inner A c (cm_inner st)).1 ->
  dropped c (is_ok (inner A c (cm_inner st)).2) st st' -> coherent st'.
Proof.
  intros [Hi Hb Ho] Ha E [Db Do]. split; rewrite E.
  - by apply ks_inv_kept.
  - intros t n v [Hv Hw]%Db. rewrite ks_bucket_frame by done. by eapply Hb.
  - intros t b k v Hn [Hv Hw]%Do. rewrite ks_latest_frame by done. by eapply Ho.
Qed.

(** What the cache answers and how it goes on. *)
Definition follows {A : Type} (c : MetaCall A) st (res : CachingMetadataStore S CB CO * outcome ArcaError A) : Prop :=
  res.2 = (inner A c (cm_inner st)).2 /\ cm_inner res.1 = (inner A c (cm_inner st)).1 /\ coherent res.1.

Lemma forward_follows {A : Type} (c : MetaCall A) st :
  coherent st -> ks_allowed A c (cm_inner st) -> writes_bucket c = None -> writes_objects c = [] ->
  follows c st (forward inner c st).
Proof.
  intros Hc Ha Eb Eo. unfold follows, forward. destruct (inner A c (cm_inner st)) as [s' r] eqn:E. cbn.
  split_and!; [done..|]. eapply coherent_dropped; [done|done|by rewrite E|].
  split; cbn; [intros t n v Hv; by rewrite Eb|intros t b k v Hv; rewrite Eo]. split; [done|]. intros _. apply not_elem_of_nil.
Qed.

Lemma if_ok_follows {A : Type} (c : MetaCall A) st f :
  coherent st -> ks_allowed A c (cm_inner st) ->
  (forall st', cm_inner (f st') = cm_inner st' /\ dropped c true st' (f st')) ->
  follows c st (if_ok (forward inner c) f st).
Proof.
  intros Hc Ha Hf. unfold follows, if_ok, forward. destruct (inner A c (cm_inner st)) as [s' r] eqn:E. cbn.
  destruct (Hf (with_inner s' st)) as [Ef Df]. split_and!; [done|by destruct (is_ok r)|].
  eapply coherent_dropped; [done|done|rewrite E; by destruct (is_ok r)|]. rewrite E. cbn.
  destruct (is_ok r); [exact Df|]. split; naive_solver.
Qed.

Lemma invalidate_bucket_dropped {A : Type} (c : MetaCall A) now n st :
  writes_bucket c = Some n -> writes_objects c = [] ->
  cm_inner (invalidate_bucket now n st) = cm_inner st /\ dropped c true st (invalidate_bucket now n st).
Proof.
  intros Eb Eo. split; [done|]. split; cbn; [|intros t b k v Hv; rewrite Eo; split; [done|intros _; apply not_elem_of_nil]].
  intros t m v [Hne Hv]%(moka_get_invalidate (ttl := ttl_b)). split; [done|]. intros _. rewrite Eb. congruence.
Qed.

Lemma invalidate_object_dropped {A : Type} (c : MetaCall A) now b k st :
  writes_bucket c = None -> writes_objects c = [(b, k)] ->
  cm_inner (invalidate_object now b k st) = cm_inner st /\ dropped c true st (invalidate_object now b k st).
Proof.
  intros Eb Eo. split; [done|]. split; cbn; [intros t n v Hv; by rewrite Eb|].
  intros t b' k' v [Hne Hv]%(moka_get_invalidate (ttl := ttl_o)). split; [done|]. intros _.
  rewrite Eo, list_elem_of_singleton. congruence.
Qed.

Lemma invalidate_all now b (entries : list (BatchDeleteEntry * (Z * string))) st :
  let st' := fold_left (fun st e => invalidate_object now b (bd_key e.1) st) entries st in
  cm_inner st' = cm_inner st /\ cm_bucket_cache st' = cm_bucket_cache st /\
  forall t b' k' v, (moka_get t (object_key b' k') (cm_object_cache st')).1 = Some v ->
    (moka_get t (object_key b' k') (cm_object_cache st)).1 = Some v /\
    (b', k') ∉ ((fun e => (b, bd_key e.1)) <$> entries).
Proof.
  revert st. induction entries as [|e entries IH]; intros st; cbn.
  - split_and!; [done..|]. intros t b' k' v Hv. split; [done|apply not_elem_of_nil].
  - destruct (IH (invalidate_object now b (bd_key e.1) st)) as (-> & -> & H). split_and!; [done..|].
    intros t b' k' v [[Hne Hv]%(moka_get_invalidate (ttl := ttl_o)) Hn]%H. split; [done|].
    apply not_elem_of_cons. split; [congruence|done].
Qed.

Lemma batch_follows now b entries owner st :
  let c := OnVersions (DeleteObjectsIf b entries owner) in
  coherent st -> ks_allowed _ c (cm_inner st) -> follows c st (caching now inner _ c st).
Proof.
  intros c Hc Ha. subst c. unfold follows. cbn. unfold forward. destruct (inner _ _ (cm_inner st)) as [s' r] eqn:E. cbn.
  destruct (invalidate_all now b entries (with_inner s' st)) as (Ei & Eb & Ho). cbn in Ei. split_and!; [by rewrite ?E|by rewrite ?E|].
  eapply coherent_dropped; [done|exact Ha|by rewrite E|]. rewrite E. split.
  - rewrite Eb. intros t n v Hv. done.
  - intros t b' k' v Hv. destruct (Ho t b' k' v Hv) as [Hv' Hn]. done.
Qed.

Lemma head_follows now n st :
  coherent st -> ks_allowed _ (OnBuckets (HeadBucket n)) (cm_inner st) ->
  follows (OnBuckets (HeadBucket n)) st (cached_head_bucket now inner n st).
Proof.
  intros [Hi Hb Ho] Ha. unfold follows, cached_head_bucket. rewrite ks_head. cbn.
  destruct (moka_get now n (cm_bucket_cache st)) as [hit c] eqn:E.
  assert (forall t m v, (moka_get t m c).1 = Some v -> v = ks_bucket (cm_inner st) m) as Hc.
  { intros t m v Hv. apply (Hb t m v). eapply (moka_get_get (ttl := ttl_b) now). by rewrite E. }
  destruct hit as [v|].
  - split_and!; cbn; [f_equal; apply (Hb now n v); by rewrite E|done|]. by split.
  - unfold forward. rewrite ks_head. cbn. split_and!; [done..|]. split; cbn; [done| |done].
    intros t m v [(-> & -> & _)|[_ Hv]]%(moka_get_insert (ttl := ttl_b)); [done|by eapply Hc].
Qed.

Lemma latest_follows now b k st :
  coherent st -> ks_allowed _ (OnObjects (GetLatestObject b k)) (cm_inner st) -> no_nul b = true ->
  follows (OnObjects (GetLatestObject b k)) st (cached_get_latest_object now inner b k st).
Proof.
  intros [Hi Hb Ho] Ha Hn. unfold follows, cached_get_latest_object. rewrite ks_get_latest. cbn.
  destruct (moka_get now (object_key b k) (cm_object_cache st)) as [hit c] eqn:E.
  assert (forall t b' k' v, no_nul b' = true -> (moka_get t (object_key b' k') c).1 = Some v ->
    v = ks_latest (cm_inner st) b' k') as Hc.
  { intros t b' k' v Hn' Hv. apply (Ho t b' k' v Hn'). eapply (moka_get_get (ttl := ttl_o) now). by rewrite E. }
  destruct hit as [v|].
  - split_and!; cbn; [f_equal; apply (Ho now b k v Hn); by rewrite E|done|]. by split.
  - unfold forward. rewrite ks_get_latest. cbn. split_and!; [done..|]. split; cbn; [done|done|].
    intros t b' k' v Hn' [(Ek & -> & _)|[_ Hv]]%(moka_get_insert (ttl := ttl_o)); [|by eapply Hc].
    by destruct (object_key_inj b' k' b k Hn' Hn Ek) as [-> ->].
Qed.

(** Closes the case of a call the cache only passes on, or passes on and drops
    what the call names. *)
Ltac follows_by Hc Ha :=
  first
    [ by apply forward_follows
    | apply if_ok_follows; [exact Hc|exact Ha|intros st']; by apply invalidate_object_dropped
    | apply if_ok_follows; [exact Hc|exact Ha|intros st']; by apply invalidate_bucket_dropped ].

Lemma caching_follows now {A : Type} (c : MetaCall A) st :
  coherent st -> ks_allowed A c (cm_inner st) -> names_ok c -> follows c st (caching now inner A c st).
Proof.
  intros Hc Ha Hn. destruct c as [A c|A c|A c|A c|A c|A c|A c|A c]; destruct c; cbn in Hn |- *;
    try solve [follows_by Hc Ha].
  - by apply head_follows.
  - by apply latest_follows.
  - by apply (batch_follows now).
Qed.
End transparent.

(** A sequence of calls at clock readings, with the answers in order. *)
Record Event : Type := MkEvent { ev_now : Z; ev_type : Type; ev_call : MetaCall ev_type }.

Definition Answer : Type := { A : Type & outcome ArcaError A }.

Fixpoint run_store {T : Type} (store : Z -> MetadataStore_ T) (es : list Event) (s : T) : T * list Answer :=
  match es with
  | [] => (s, [])
  | e :: rest =>
      let '(s1, r) := store (ev_now e) _ (ev_call e) s in
      let '(s2, rs) := run_store store rest s1 in
      (s2, existT (ev_type e) r :: rs)
  end.

(** The calls of a sequence are allowed in the states the bare store is in. *)
Fixpoint run_allowed {S : Type} (inner : MetadataStore_ S) `{!KeyedStore inner} (es : list Event) (s : S) : Prop :=
  match es with
  | [] => True
  | e :: rest =>
      ks_allowed _ (ev_call e) s /\ names_ok (ev_call e) /\ run_allowed inner rest (inner _ (ev_call e) s).1
  end.

Section run.
Context {S CB CO : Type} (inner : MetadataStore_ S) `{HK : !KeyedStore inner}.
Context `{!Moka CB (option BucketInfo), !Moka CO (option ObjectRecord)} (ttl_b ttl_o : Z).
Context `{HB : !MokaLaws CB (option BucketInfo) ttl_b, HO : !MokaLaws CO (option ObjectRecord) ttl_o}.

Lemma run_follows es (st : CachingMetadataStore S CB CO) :
  coherent inner st -> run_allowed inner es (cm_inner st) ->
  (run_store (fun now => caching now inner) es st).2 = (run_store (fun _ => inner) es (cm_inner st)).2.
Proof.
  revert st. induction es as [|e es IH]; intros st Hc; cbn; [done|]. intros (Ha & Hn & Hr).
  pose proof (caching_follows inner ttl_b ttl_o (ev_now e) (ev_call e) st Hc Ha Hn) as (Er & Ei & Hc').
  destruct (caching (ev_now e) inner _ (ev_call e) st) as [st' r]. cbn in Er, Ei, Hc'.
  destruct (inner _ (ev_call e) (cm_inner st)) as [s' r'] eqn:E. cbn in Er, Ei, Hr. subst r' s'.
  specialize (IH st' Hc' Hr). destruct (run_store _ es st') as [? rs], (run_store _ es (cm_inner st')) as [? rs'].
  cbn in *. by subst.
Qed.

Lemma new_coherent (s : S) : ks_inv s -> coherent inner (new_caching s : CachingMetadataStore S CB CO).
Proof.
  intros Hi. split; cbn; [done|..].
  - intros t n v. by rewrite (moka_get_new (ttl := ttl_b)).
  - intros t b k v _. by rewrite (moka_get_new (ttl := ttl_o)).
Qed.
End run.

(** C30. The metadata cache is transparent. For every sequence of calls of the
    [MetadataStore] trait, at any clock readings, a SQLite store behind the
    cache gives the same answers, errors included, as the store alone - with
    any cache that returns only what was inserted and not invalidated since,
    whatever it evicts. Needed of the calls is that version ids are minted
    fresh and that buckets read by [get_latest_object] have no NUL in their
    name: the cache separates bucket and key by one. *)
Theorem cache_transparent {CB CO : Type} `{!Moka CB (option BucketInfo), !Moka CO (option ObjectRecord)}
    (ttl_b ttl_o : Z) `{!MokaLaws CB (option BucketInfo) ttl_b, !MokaLaws CO (option ObjectRecord) ttl_o}
    (cluster_mode : bool) (es : list Event) (s : MetaStore) :
  meta_ok s -> run_allowed (sqlite cluster_mode) es s ->
  (run_store (fun now => caching now (sqlite cluster_mode)) es (new_caching s : CachingMetadataStore MetaStore CB CO)).2 =
  (run_store (fun _ => sqlite cluster_mode) es s).2.
Proof.
  intros Hs Ha. apply (run_follows (sqlite cluster_mode) ttl_b ttl_o es (new_caching s)); [|exact Ha].
  by apply (new_coherent _ ttl_b ttl_o).
Qed.
