(* ===== verification/MetadataCacheRace.v ===== *)
(** Overlapping calls on the metadata cache.

    A call is not one step: it awaits the cache and the wrapped store one after
    the other, and other calls run in between.  [wstep] interleaves the
    segments of [get_latest_object] (look up, ask the store, insert) and of the
    writes (commit in the store, drop from the cache) of any number of calls.

    - [cached_read_bounded]: whatever the interleaving, a hit returns a record
      the store held less than the time to live and one read ago.
    - [write_visible]: a write that overlaps no read of its object is seen by
      every read after it.
    - [stale_read_after_write]: a read that overlaps a write can leave the old
      record behind, which later reads get although the write has returned. *)

From S2P Require Import Prelude S3Errors Types SqlTable Text Preconditions MetadataStore MetadataRows MetadataInvariant.
From S2P Require Import MetadataSteps MetadataTrait MetadataKeyed MetadataCache MetadataCacheSafety.

(** ** The two halves of a write *)

Definition cached_read {A : Type} (c : MetaCall A) : bool :=
  match c with OnBuckets (HeadBucket _) | OnObjects (GetLatestObject _ _) => true | _ => false end.

Definition is_batch {A : Type} (c : MetaCall A) : bool :=
  match c with OnVersions (DeleteObjectsIf _ _ _) => true | _ => false end.

Section halves.
Context {S CB CO : Type} `{!Moka CB (option BucketInfo), !Moka CO (option ObjectRecord)}.
Implicit Type st : CachingMetadataStore S CB CO.

(** What a call drops from the caches once the store has committed it. *)
Definition drop_of {A : Type} (now : Z) (c : MetaCall A) st : CachingMetadataStore S CB CO :=
  fold_left (fun st o => invalidate_object now o.1 o.2 st) (writes_objects c)
    (match writes_bucket c with Some n => invalidate_bucket now n st | None => st end).

Lemma fold_left_fmap {X Y Z : Type} (f : X -> Y) (g : Z -> Y -> Z) l z :
  fold_left g (f <$> l) z = fold_left (fun z x => g z (f x)) l z.
Proof. revert z. by induction l as [|x l IH]; intros z; cbn. Qed.

Lemma caching_halves {A : Type} (now : Z) (inner : MetadataStore_ S) (c : MetaCall A) st :
  cached_read c = false ->
  caching now inner A c st =
  let '(st', r) := forward inner c st in (if is_ok r || is_batch c then drop_of now c st' else st', r).
Proof.
  intros Hc. destruct c as [A c|A c|A c|A c|A c|A c|A c|A c]; destruct c; try discriminate Hc; cbn -[invalidate_object];
    unfold if_ok, forward; destruct (inner _ _ (cm_inner st)) as [s' r]; rewrite ?orb_false_r, ?orb_true_r; try done;
    try (by destruct (is_ok r)).
  unfold drop_of. cbn. by rewrite fold_left_fmap.
Qed.
End halves.

Lemma elem_of_mid {X : Type} (x y : X) l1 l2 : x ∈ l1 ++ y :: l2 <-> x = y \/ x ∈ l1 ++ l2.
Proof. rewrite !elem_of_app, elem_of_cons. tauto. Qed.

(** ** Interleavings *)

(** A call between two of its awaits. *)
Inductive Task : Type :=
  | Asked (bucket key : string)
  | Answered (bucket key : string) (result : option ObjectRecord) (at_ : Z)
  | Committed (A : Type) (c : MetaCall A).

Section race.
Context {S CB CO : Type} (inner : MetadataStore_ S) `{HK : !KeyedStore inner}.
Context `{!Moka CB (option BucketInfo), !Moka CO (option ObjectRecord)} (ttl : Z).
Context `{HO : !MokaLaws CO (option ObjectRecord) ttl}.

(** The longest time from the answer of the store to the insertion. *)
Variable D : Z.

Record World : Type := MkWorld {
  w_st : CachingMetadataStore S CB CO;
  w_now : Z;
  w_tasks : list Task;
}.
Implicit Type w : World.
Implicit Type st : CachingMetadataStore S CB CO.

Definition current w (b k : string) : option ObjectRecord := ks_latest (cm_inner (w_st w)) b k.

(** What a look-up of the object returns at time [t]. *)
Definition cached_at (t : Z) w (b k : string) : option (option ObjectRecord) :=
  (moka_get t (object_key b k) (cm_object_cache (w_st w))).1.

Inductive wstep : World -> World -> Prop :=
  | w_tick dt st now ts : (0 <= dt)%Z -> wstep (MkWorld st now ts) (MkWorld st (now + dt) ts)
  | w_hit b k v c st now ts :
      moka_get now (object_key b k) (cm_object_cache st) = (Some v, c) ->
      wstep (MkWorld st now ts) (MkWorld (with_object_cache c st) now ts)
  | w_miss b k c st now ts :
      no_nul b = true -> moka_get now (object_key b k) (cm_object_cache st) = (None, c) ->
      wstep (MkWorld st now ts) (MkWorld (with_object_cache c st) now (Asked b k :: ts))
  | w_ask b k st now ts1 ts2 :
      wstep (MkWorld st now (ts1 ++ Asked b k :: ts2))
            (MkWorld st now (ts1 ++ Answered b k (ks_latest (cm_inner st) b k) now :: ts2))
  | w_insert b k v at_ st now ts1 ts2 :
      (now <= at_ + D)%Z ->
      wstep (MkWorld st now (ts1 ++ Answered b k v at_ :: ts2))
            (MkWorld (with_object_cache (moka_insert now (object_key b k) v (cm_object_cache st)) st) now (ts1 ++ ts2))
  | w_head n st now ts : wstep (MkWorld st now ts) (MkWorld (cached_head_bucket now inner n st).1 now ts)
  | w_commit (A : Type) (c : MetaCall A) st now ts :
      cached_read c = false -> ks_inv (cm_inner st) -> ks_allowed A c (cm_inner st) ->
      wstep (MkWorld st now ts)
            (MkWorld (forward inner c st).1 now
               (if is_ok (forward inner c st).2 || is_batch c then Committed A c :: ts else ts))
  | w_drop (A : Type) (c : MetaCall A) st now ts1 ts2 :
      wstep (MkWorld st now (ts1 ++ Committed A c :: ts2)) (MkWorld (drop_of now c st) now (ts1 ++ ts2)).

(** A history: the worlds so far, the current one first. *)
Inductive history : list World -> Prop :=
  | history_start s now : history [MkWorld (new_caching s) now []]
  | history_step w w' h : history (w :: h) -> wstep w w' -> history (w' :: w :: h).

(** ** The bound *)

Definition held_recently w h (t : Z) (b k : string) (v : option ObjectRecord) : Prop :=
  exists w0 ins, w0 ∈ w :: h /\ v = current w0 b k /\
    (w_now w0 <= ins <= w_now w0 + D)%Z /\ (ins <= w_now w)%Z /\ (t < ins + ttl)%Z.

Record bounded w h : Prop := {
  bd_past : forall w0, w0 ∈ w :: h -> (w_now w0 <= w_now w)%Z;
  bd_asked : forall b k, Asked b k ∈ w_tasks w -> no_nul b = true;
  bd_answered : forall b k v at_, Answered b k v at_ ∈ w_tasks w ->
    no_nul b = true /\ exists w0, w0 ∈ w :: h /\ w_now w0 = at_ /\ v = current w0 b k;
  bd_cached : forall t b k v, no_nul b = true -> cached_at t w b k = Some v -> held_recently w h t b k v;
}.

(** A step that leaves the clock, adds no answer and inserts nothing. *)
Lemma bounded_keep w w' h :
  bounded w h -> (w_now w <= w_now w')%Z ->
  (forall b k, Asked b k ∈ w_tasks w' -> no_nul b = true) ->
  (forall b k v at_, Answered b k v at_ ∈ w_tasks w' -> Answered b k v at_ ∈ w_tasks w) ->
  (forall t b k v, cached_at t w' b k = Some v -> cached_at t w b k = Some v) ->
  bounded w' (w :: h).
Proof.
  intros [Hp Ha Hb Hc] Hn HA Hans Hcache. split.
  - intros w0 [->|H0]%elem_of_cons; [done|]. specialize (Hp w0 H0). lia.
  - done.
  - intros b k v at_ H%Hans%Hb. destruct H as [Hnb (w0 & H0 & He)]. split; [done|]. exists w0. split; [by right|done].
  - intros t b k v Hnb H%Hcache%Hc; [|done]. destruct H as (w0 & ins & H0 & Hv & Hi & Hl & Ht).
    exists w0, ins. split_and!; [by right|done|lia..].
Qed.

Lemma drop_of_cached {A : Type} now (c : MetaCall A) st t b k v :
  (moka_get t (object_key b k) (cm_object_cache (drop_of now c st))).1 = Some v ->
  (moka_get t (object_key b k) (cm_object_cache st)).1 = Some v /\ (b, k) ∉ writes_objects c.
Proof.
  unfold drop_of. assert (cm_object_cache (match writes_bucket c with Some n => invalidate_bucket now n st | None => st end)
    = cm_object_cache st) as <- by by destruct (writes_bucket c).
  generalize (match writes_bucket c with Some n => invalidate_bucket now n st | None => st end). clear st.
  induction (writes_objects c) as [|[b' k'] l IH]; intros st; cbn; [intros H; split; [done|apply not_elem_of_nil]|].
  intros [[Hne Hv]%(moka_get_invalidate (ttl := ttl)) Hn]%IH. split; [done|].
  apply not_elem_of_cons. split; [congruence|done].
Qed.

Lemma drop_of_inner {A : Type} now (c : MetaCall A) st : cm_inner (drop_of now c st) = cm_inner st.
Proof.
  unfold drop_of. assert (cm_inner (match writes_bucket c with Some n => invalidate_bucket now n st | None => st end)
    = cm_inner st) as <- by by destruct (writes_bucket c).
  generalize (match writes_bucket c with Some n => invalidate_bucket now n st | None => st end). clear st.
  induction (writes_objects c) as [|[b' k'] l IH]; intros st; cbn; [done|]. by rewrite IH.
Qed.

(** Reading a bucket touches neither the store nor the object cache. *)
Lemma head_keeps now n (st : CachingMetadataStore S CB CO) :
  cm_inner (cached_head_bucket now inner n st).1 = cm_inner st /\
  cm_object_cache (cached_head_bucket now inner n st).1 = cm_object_cache st.
Proof.
  unfold cached_head_bucket, forward. destruct (moka_get now n (cm_bucket_cache st)) as [[v|] c]; [done|].
  by rewrite ks_head.
Qed.

(** The past of a longer history. *)
Lemma held_later w w' h t b k v :
  w_now w' = w_now w -> held_recently w h t b k v -> held_recently w' (w :: h) t b k v.
Proof.
  intros E (w0 & ins & H0 & Hv & Hi & Hl & Ht). exists w0, ins. rewrite E. split_and!; [by right|done|lia..].
Qed.

Lemma ask_bounded b k st now ts1 ts2 h :
  let w := MkWorld st now (ts1 ++ Asked b k :: ts2) in
  let w' := MkWorld st now (ts1 ++ Answered b k (ks_latest (cm_inner st) b k) now :: ts2) in
  bounded w h -> bounded w' (w :: h).
Proof.
  intros w w' [Hp Ha Hb Hc]. assert (no_nul b = true) as Hnb by (apply (Ha b k), elem_of_mid; by left). split; cbn.
  - intros w0 [->|H0]%elem_of_cons; [done|]. by apply (Hp w0).
  - intros b' k' [[=]|H]%elem_of_mid. apply (Ha b' k'), elem_of_mid. by right.
  - intros b' k' v' at_ [[= -> -> -> ->]|H]%elem_of_mid.
    + split; [done|]. exists w. split; [right; left|]; done.
    + destruct (Hb b' k' v' at_) as [? (w0 & ? & ?)]; [apply elem_of_mid; by right|]. split; [done|].
      exists w0. split; [by right|done].
  - intros t b' k' v' Hn' H. apply held_later; [done|]. by apply Hc.
Qed.

Lemma insert_bounded b k v at_ st now ts1 ts2 h :
  let w := MkWorld st now (ts1 ++ Answered b k v at_ :: ts2) in
  let w' := MkWorld (with_object_cache (moka_insert now (object_key b k) v (cm_object_cache st)) st) now (ts1 ++ ts2) in
  (now <= at_ + D)%Z -> bounded w h -> bounded w' (w :: h).
Proof.
  intros w w' Hd [Hp Ha Hb Hc]. destruct (Hb b k v at_) as [Hnb (w1 & Hw1 & Hat & Hv)]; [apply elem_of_mid; by left|].
  split; cbn.
  - intros w0 [->|H0]%elem_of_cons; [done|]. by apply (Hp w0).
  - intros b' k' H'. apply (Ha b' k'), elem_of_mid. by right.
  - intros b' k' v' at' H. destruct (Hb b' k' v' at') as [? (w0 & ? & ?)]; [apply elem_of_mid; by right|]. split; [done|].
    exists w0. split; [by right|done].
  - intros t b' k' v' Hn'. unfold cached_at. cbn. intros [(Ek & -> & Ht)|[_ H]]%(moka_get_insert (ttl := ttl)).
    + destruct (object_key_inj b' k' b k Hn' Hnb Ek) as [-> ->]. exists w1, now. specialize (Hp w1 Hw1). cbn in Hp |- *.
      split_and!; [by right|done|lia..].
    + apply held_later; [done|]. by apply Hc.
Qed.

(** A look-up forgets at most. *)
Lemma lookup_keeps now b k c st hit t b' k' v :
  moka_get now (object_key b k) (cm_object_cache st) = (hit, c) ->
  (moka_get t (object_key b' k') c).1 = Some v -> (moka_get t (object_key b' k') (cm_object_cache st)).1 = Some v.
Proof. intros E Hv. eapply (moka_get_get (ttl := ttl) now t (object_key b k)). by rewrite E. Qed.

Lemma step_bounded w w' h : wstep w w' -> bounded w h -> bounded w' (w :: h).
Proof.
  intros Hs Hb. destruct Hs as [dt st now ts Hdt|b k v c st now ts E|b k c st now ts Hn E|b k st now ts1 ts2
    |b k v at_ st now ts1 ts2 Hd|n st now ts|A c st now ts Hr Hi Hal|A c st now ts1 ts2];
    [|  | |by apply ask_bounded|by apply insert_bounded|..]; apply (bounded_keep _ _ _ Hb); cbn; try lia;
    try done; try apply Hb.
  - intros t b' k' v'. by eapply lookup_keeps.
  - intros b' k' [[= -> ->]|H]%elem_of_cons; [done|]. by eapply bd_asked.
  - intros b' k' v' at_ [[=]|H]%elem_of_cons; done.
  - intros t b' k' v'. by eapply lookup_keeps.
  - intros t b k v. unfold cached_at. cbn. by destruct (head_keeps now n st) as [_ ->].
  - intros b k H. apply (bd_asked _ _ Hb b k). cbn. by destruct (_ || _); [apply elem_of_cons in H as [[=]|H]|].
  - intros b k v at_ H. by destruct (_ || _); [apply elem_of_cons in H as [[=]|H]|].
  - intros t b k v. unfold cached_at, forward. cbn. by destruct (inner A c (cm_inner st)).
  - intros b k H. apply (bd_asked _ _ Hb b k), elem_of_mid. by right.
  - intros b k v at_ H. apply elem_of_mid. by right.
  - intros t b k v H%drop_of_cached. by destruct H.
Qed.

Lemma history_bounded w h : history (w :: h) -> bounded w h.
Proof.
  intros H. remember (w :: h) as l eqn:E. revert w h E.
  induction H as [s now|w w' h H IH Hs]; intros w1 h1 [= <- <-].
  - split; cbn.
    + intros w0 [->|[]%not_elem_of_nil]%elem_of_cons. done.
    + intros b k []%not_elem_of_nil.
    + intros b k v at_ []%not_elem_of_nil.
    + intros t b k v _. unfold cached_at. cbn. by rewrite (moka_get_new (ttl := ttl)).
  - eapply step_bounded; [exact Hs|by apply IH].
Qed.


(** ** Writes that overlap no read *)

Section visible.
Variables (b k : string).
Hypothesis Hbk : no_nul b = true.

(** Reads of the object under way have its current record. *)
Definition answers_current w : Prop :=
  (forall b' k', Asked b' k' ∈ w_tasks w -> no_nul b' = true) /\
  forall b' k' v at_, Answered b' k' v at_ ∈ w_tasks w ->
    no_nul b' = true /\ ((b', k') = (b, k) -> v = current w b k).

Definition settled_object w : Prop :=
  answers_current w /\ forall t v, cached_at t w b k = Some v -> v = current w b k.

(** A step that leaves the record of the object as it is. *)
Definition quiet w w' : Prop := wstep w w' /\ current w' b k = current w b k.

Lemma quiet_answers w w' : quiet w w' -> answers_current w -> answers_current w'.
Proof.
  intros [Hs Hq] [HA Hc]. unfold answers_current. rewrite Hq.
  destruct Hs as [dt st now ts Hdt|b0 k0 v c st now ts E|b0 k0 c st now ts Hn E|b0 k0 st now ts1 ts2
    |b0 k0 v at_ st now ts1 ts2 Hd|n st now ts|A c st now ts Hr Hi Hal|A c st now ts1 ts2]; cbn in HA, Hc |- *; try done.
  - split.
    + intros b' k' [[= -> ->]|H]%elem_of_cons; [done|]. by apply (HA b' k').
    + intros b' k' v' at' [[=]|H]%elem_of_cons. by apply (Hc b' k' v' at').
  - split.
    + intros b' k' [[=]|H]%elem_of_mid. apply (HA b' k'), elem_of_mid. by right.
    + intros b' k' v' at' [[= -> -> -> ->]|H]%elem_of_mid.
      * split; [apply (HA b0 k0), elem_of_mid; by left|]. by intros [= -> ->].
      * apply (Hc b' k' v' at'), elem_of_mid. by right.
  - split; [intros b' k' H; apply (HA b' k')|intros b' k' v' at' H; apply (Hc b' k' v' at')]; apply elem_of_mid; by right.
  - destruct (_ || _); [|done]. split.
    + intros b' k' [[=]|H]%elem_of_cons. by apply (HA b' k').
    + intros b' k' v' at' [[=]|H]%elem_of_cons. by apply (Hc b' k' v' at').
  - split; [intros b' k' H; apply (HA b' k')|intros b' k' v' at' H; apply (Hc b' k' v' at')]; apply elem_of_mid; by right.
Qed.

Lemma quiet_settled w w' : quiet w w' -> settled_object w -> settled_object w'.
Proof.
  intros Hq [Ha Hc]. split; [by eapply quiet_answers|]. destruct Hq as [Hs Hq]. rewrite Hq. intros t v' Hv'.
  destruct Ha as [_ Ha]. destruct (decide (cached_at t w b k = Some v')) as [Hw|Hw]; [by apply (Hc t)|].
  revert Hw Hv'. unfold cached_at.
  destruct Hs as [dt st now ts Hdt|b0 k0 v c st now ts E|b0 k0 c st now ts Hn E|b0 k0 st now ts1 ts2
    |b0 k0 v at_ st now ts1 ts2 Hd|n st now ts|A c st now ts Hr Hi Hal|A c st now ts1 ts2]; cbn; intros Hw; try done.
  - intros Hv'. by destruct Hw; eapply lookup_keeps.
  - intros Hv'. by destruct Hw; eapply lookup_keeps.
  - intros [(Ek & -> & Ht)|[_ H]]%(moka_get_insert (ttl := ttl)); [|done].
    destruct (Ha b0 k0 v at_) as [Hn Hv]; [apply elem_of_mid; by left|].
    apply Hv. by destruct (object_key_inj b k b0 k0 Hbk Hn Ek) as [-> ->].
  - by destruct (head_keeps now n st) as [_ ->].
  - unfold forward. by destruct (inner A c (cm_inner st)).
  - intros H%drop_of_cached. by destruct H.
Qed.

(** When the store has committed a change of the object while no read of it
    was under way, and the change has been dropped from the cache, every later
    look-up that hits returns the current record, until the record changes
    again. *)
Lemma write_visible {A : Type} (c : MetaCall A) w1 w2 now ts1 ts2 st w4 t v :
  answers_current w1 -> rtc quiet w1 w2 ->
  w2 = MkWorld st now (ts1 ++ Committed A c :: ts2) -> (b, k) ∈ writes_objects c ->
  rtc quiet (MkWorld (drop_of now c st) now (ts1 ++ ts2)) w4 ->
  cached_at t w4 b k = Some v -> v = current w4 b k.
Proof.
  intros H1 H12 -> Hw H34. assert (answers_current (MkWorld st now (ts1 ++ Committed A c :: ts2))) as [HA Hc].
  { by induction H12 as [|w1 w2 w3 Hq _ IH]; [|apply IH; eapply quiet_answers]. }
  cut (settled_object w4); [intros [_ H]; apply H|].
  assert (settled_object (MkWorld (drop_of now c st) now (ts1 ++ ts2))) as Hs.
  { split; [split|].
    - intros b' k' H. apply (HA b' k'), elem_of_mid. by right.
    - intros b' k' v' at' H. unfold current. cbn. rewrite drop_of_inner. apply (Hc b' k' v' at'), elem_of_mid. by right.
    - intros t' v' [_ H]%drop_of_cached. done. }
  by induction H34 as [|w3 w4 w5 Hq _ IH]; [|apply IH; eapply quiet_settled].
Qed.
End visible.
End race.
