(* ===== verification/MetadataCacheRuns.v ===== *)
(** The metadata cache on concrete inputs: a cache library that meets what is
    asked of it, a sequence of calls, and the race of a read with a write. *)

From S2P Require Import Prelude S3Errors Types SqlTable Text Preconditions MetadataStore MetadataRows MetadataInvariant.
From S2P Require Import MetadataSteps MetadataTrait MetadataKeyed MetadataCache MetadataCacheSafety MetadataCacheRace.

(** ** A cache that evicts nothing before its time *)

Definition MapCache (V : Type) : Type := gmap string (V * Z).
Definition map_ttl : Z := 60.

#[export] Instance map_moka {V : Type} : Moka (MapCache V) V := {|
  moka_new := ∅;
  moka_get now key c := (match c !! key with Some (v, t) => if (now <? t + map_ttl)%Z then Some v else None | None => None end, c);
  moka_insert now key v c := <[key := (v, now)]> c;
  moka_invalidate _ key c := delete key c;
|}.

#[export] Instance map_moka_laws {V : Type} : MokaLaws (MapCache V) V map_ttl.
Proof.
  split; cbn; unfold MapCache in *.
  - intros now key. by rewrite lookup_empty.
  - done.
  - intros now now' key key' v w c. destruct (decide (key' = key)) as [->|Hne].
    + rewrite lookup_insert_eq. destruct (now' <? now + map_ttl)%Z eqn:E; [|done]. intros [= ->]. left. split_and!; [done|done|lia].
    + rewrite lookup_insert_ne by congruence. by right.
  - intros now now' key key' c v. destruct (decide (key' = key)) as [->|Hne].
    + by rewrite lookup_delete_eq.
    + by rewrite lookup_delete_ne by congruence.
Qed.

(** ** A sequence *)

Definition sample_rec (blob : string) (t : Z) : ObjectRecord := sample_row blob t None None None.

Definition read_sample : MetaCall (option ObjectRecord) := OnObjects (GetLatestObject "bucket" "key").

Definition write_sample : MetaCall (option ObjectRecord * option string) :=
  OnObjects (PutObjectIf "v2" (sample_rec "blob2" 20) no_write_precondition).

Definition sample_events : list Event :=
  [MkEvent 0 _ read_sample; MkEvent 1 _ read_sample; MkEvent 2 _ write_sample; MkEvent 3 _ read_sample].

Lemma sample_put_meta_ok : meta_ok sample_put.
Proof.
  eapply step_meta_ok; [apply sample_put_step|]. eapply step_meta_ok; [apply step_set_bucket_config|apply empty_meta_ok].
  Unshelve. exact true.
Qed.

Lemma sample_events_allowed : run_allowed (sqlite true) sample_events sample_put.
Proof. cbn. split_and!; try done. apply sample_put_fresh. Qed.

Lemma cache_transparent_witness :
  (run_store (fun now => caching now (sqlite true)) sample_events
     (new_caching sample_put : CachingMetadataStore MetaStore (MapCache _) (MapCache _))).2 =
  (run_store (fun _ => sqlite true) sample_events sample_put).2.
Proof. exact (cache_transparent map_ttl map_ttl true sample_events sample_put sample_put_meta_ok sample_events_allowed). Defined.

(** ** A race *)

Definition SampleWorld : Type :=
  World (S := MetaStore) (CB := MapCache (option BucketInfo)) (CO := MapCache (option ObjectRecord)).

Definition old_record : option ObjectRecord := get_latest_object "bucket" "key" sample_put.

Definition race_store : MetaStore := (sqlite true _ write_sample sample_put).1.

Definition cached_old : MapCache (option ObjectRecord) := {[object_key "bucket" "key" := (old_record, 0%Z)]}.

Definition start_world : SampleWorld := MkWorld (new_caching sample_put) 0 [].
Definition asked_world : SampleWorld := MkWorld (new_caching sample_put) 0 [Asked "bucket" "key"].
Definition answered_world : SampleWorld := MkWorld (new_caching sample_put) 0 [Answered "bucket" "key" old_record 0].
Definition committed_world : SampleWorld :=
  MkWorld (new_caching race_store) 0 [Committed _ write_sample; Answered "bucket" "key" old_record 0].
Definition returned_world : SampleWorld :=
  MkWorld (drop_of 0 write_sample (new_caching race_store)) 0 [Answered "bucket" "key" old_record 0].
Definition stale_world : SampleWorld :=
  MkWorld (with_object_cache cached_old (new_caching race_store)) 0 [].

Lemma commit_sample :
  (forward (sqlite true) write_sample (new_caching sample_put : CachingMetadataStore MetaStore (MapCache _) (MapCache _))) =
  (new_caching race_store, Ok (None, Some "v2")).
Proof. vm_compute. reflexivity. Qed.

Lemma dropped_sample :
  drop_of 0 write_sample (new_caching race_store : CachingMetadataStore MetaStore (MapCache _) (MapCache _)) =
  new_caching race_store.
Proof. reflexivity. Qed.

Lemma race_history :
  history (sqlite true) 1
    [stale_world; returned_world; committed_world; answered_world; asked_world; start_world].
Proof.
  repeat apply history_step; [apply history_start| | | | |].
  - exact (w_miss (sqlite true) 1 "bucket" "key" ∅ (new_caching sample_put) 0 [] eq_refl eq_refl).
  - exact (w_ask (sqlite true) 1 "bucket" "key" _ 0 [] []).
  - pose proof (w_commit (sqlite true) 1 _ write_sample (new_caching sample_put) 0 [Answered "bucket" "key" old_record 0]
      eq_refl sample_put_meta_ok sample_put_fresh) as H. rewrite commit_sample in H. exact H.
  - exact (w_drop (sqlite true) 1 _ write_sample (new_caching race_store) 0 [] [Answered "bucket" "key" old_record 0]).
  - pose proof (w_insert (sqlite true) 1 "bucket" "key" old_record 0
      (drop_of 0 write_sample (new_caching race_store)) 0 [] [] ltac:(lia)) as H. exact H.
Qed.


(** The write has returned and nothing is under way, but the cache still
    answers with the record the write replaced, for a minute. *)
Lemma stale_read_after_write :
  history (sqlite true) 1 [stale_world; returned_world; committed_world; answered_world; asked_world; start_world] /\
  w_tasks stale_world = [] /\ cached_at 59 stale_world "bucket" "key" = Some old_record /\
  current (sqlite true) stale_world "bucket" "key" <> old_record.
Proof. split; [exact race_history|]. split_and!; [reflexivity|reflexivity|]. vm_compute. discriminate. Qed.
