(* ===== verification/Delimited.v ===== *)
(** Listings grouped by a delimiter: [crates/arca-proto/src/handlers/delimited.rs].

    [list_delimited] is a loop of queries that skips past a group once it has
    seen it.  It has a fuel, one unit per query.  The rows come from a query of
    its caller, of which [Listing] says what the loop relies on: batches of at
    most [LIST_BATCH] rows of a sorted listing.  The theorems are that the loop
    ends and returns the page of the grouped listing, unless [LIST_BATCH] rows
    of one group continue with the last character; then it never ends. *)

From S2P Require Import Prelude S3Errors Types SqlTable Text.

Local Open Scope outcome_scope.

Definition LIST_BATCH : nat := 100.

Inductive ListFrom : Type :=
  | Start
  | After (r : ObjectRecord)
  | PastPrefix (cp : string).

Inductive Listed : Type :=
  | Record_ (r : ObjectRecord)
  | Prefix_ (cp : string).

Record DelimitedPage : Type := {
  dp_items : list Listed;
  dp_truncated : bool;
}.

(** [char::MAX] as text. *)
Definition max_char : string := of_chars [1114111%N].

Definition past_prefix (prefix : string) : string := prefix +:+ max_char.

(** ** Slices of strings *)

(** Whether [s] starts at a character: its first byte continues none. *)
Definition char_boundary (s : string) : bool :=
  match s with
  | EmptyString => true
  | String c _ => let n := Ascii.N_of_ascii c in negb ((128 <=? n)%N && (n <=? 191)%N)
  end.

(** [&s[n..]], which panics out of range and inside a character. *)
Definition slice_from (n : nat) (s : string) : outcome ArcaError string :=
  if Nat.leb n (String.length s) && char_boundary (drop_bytes n s) then Ok (drop_bytes n s) else Panic.

(** [str::find] *)
Fixpoint find (p s : string) : option nat :=
  if starts_with s p then Some 0
  else match s with
       | EmptyString => None
       | String _ s' => S <$> find p s'
       end.

Section delimited.
Context (prefix delim : string).

Definition common_prefix (key : string) : outcome ArcaError (option string) :=
  let? rest := slice_from (String.length prefix) key in
  Ok ((fun pos => take_bytes (String.length prefix + pos + String.length delim) key) <$> find delim rest).

Context (marker : option string) (max_keys : Z).

(** The prefix was returned by a previous page, or is the last item. *)
Definition skipped (items : list Listed) (cp : string) : bool :=
  match marker with Some m => negb (String.ltb m cp) | None => false end
  || match last items with Some (Prefix_ p) => bool_decide (p = cp) | _ => false end.

(** The [for] loop over a batch: the page if it is full, or the items and the
    group of the last row. *)
Fixpoint group_batch (records : list ObjectRecord) (items : list Listed) (last_group : option string)
  : outcome ArcaError (DelimitedPage + list Listed * option string) :=
  match records with
  | [] => Ok (inr (items, last_group))
  | record :: records' =>
      let? group := common_prefix (o_key record) in
      if match group with Some cp => skipped items cp | None => false end then group_batch records' items group
      else if (max_keys <=? Z.of_nat (length items))%Z then
        Ok (inl {| dp_items := items; dp_truncated := true |})
      else
        group_batch records'
          (items ++ [match group with Some cp => Prefix_ cp | None => Record_ record end]) group
  end.

Context (fetch : ListFrom -> outcome ArcaError (list ObjectRecord)).

Fixpoint list_delimited_from (fuel : nat) (from : ListFrom) (items : list Listed)
  : option (outcome ArcaError DelimitedPage) :=
  match fuel with
  | 0 => None
  | S fuel' =>
      match fetch from with
      | Err e => Some (Err e)
      | Panic => Some Panic
      | Ok records =>
          let exhausted := Nat.ltb (length records) LIST_BATCH in
          match group_batch records items None with
          | Err e => Some (Err e)
          | Panic => Some Panic
          | Ok (inl page) => Some (Ok page)
          | Ok (inr (items', last_group)) =>
              match last records with
              | None => Some (Ok {| dp_items := items'; dp_truncated := false |})
              | Some last =>
                  if exhausted then Some (Ok {| dp_items := items'; dp_truncated := false |})
                  else list_delimited_from fuel'
                         (match last_group with Some cp => PastPrefix cp | None => After last end) items'
              end
          end
      end
  end.

Definition list_delimited (fuel : nat) : option (outcome ArcaError DelimitedPage) :=
  list_delimited_from fuel Start [].
End delimited.

(** ** The grouped listing *)

(** The group of a key that starts with the prefix. *)
Definition group_of (prefix delim key : string) : option string :=
  (fun pos => take_bytes (String.length prefix + pos + String.length delim) key)
    <$> find delim (drop_bytes (String.length prefix) key).

Definition item_of (prefix delim : string) (r : ObjectRecord) : Listed :=
  match group_of prefix delim (o_key r) with Some cp => Prefix_ cp | None => Record_ r end.

(** The rows of a listing in order, each run of rows of one group as one
    common prefix. *)
Definition add_item (items : list Listed) (i : Listed) : list Listed :=
  match i, last items with
  | Prefix_ cp, Some (Prefix_ p) => if bool_decide (p = cp) then items else items ++ [i]
  | _, _ => items ++ [i]
  end.

Definition grouped (prefix delim : string) (rows : list ObjectRecord) : list Listed :=
  foldl add_item [] (item_of prefix delim <$> rows).

Definition listed_key (i : Listed) : string :=
  match i with
  | Record_ r => o_key r
  | Prefix_ cp => cp
  end.

(** The groups a page that starts after [marker] does not return again. *)
Definition after_marker (marker : option string) (i : Listed) : Prop :=
  match i, marker with
  | Prefix_ cp, Some m => String.ltb m cp = true
  | _, _ => True
  end.

#[export] Instance after_marker_dec marker i : Decision (after_marker marker i).
Proof. destruct i, marker; cbn; apply _. Defined.

(** The first [max_keys] items, and whether there are more. *)
Definition page_of (max_keys : Z) (items : list Listed) : DelimitedPage :=
  {| dp_items := take (Z.to_nat max_keys) items;
     dp_truncated := (max_keys <? Z.of_nat (length items))%Z |}.

(** What the loop relies on: [full] is the listing of all the rows under the
    prefix, sorted by key, [rows] the part of it after the request's own
    marker, and a query returns the next [LIST_BATCH] rows. *)
Class Listing (prefix : string) (fetch : ListFrom -> outcome ArcaError (list ObjectRecord))
    (full rows : list ObjectRecord) : Prop := {
  listing_suffix : rows `suffix_of` full;
  listing_sorted : StronglySorted (fun a b => String.ltb (o_key b) (o_key a) = false) full;
  listing_prefix r : r ∈ full -> exists rest, o_key r = prefix +:+ rest /\ char_boundary rest = true;
  fetch_start : fetch Start = Ok (take LIST_BATCH rows);
  fetch_after a r b : rows = a ++ r :: b -> fetch (After r) = Ok (take LIST_BATCH b);
  fetch_past cp :
    fetch (PastPrefix cp) = Ok (take LIST_BATCH (filter (fun r => String.ltb (past_prefix cp) (o_key r) = true) full));
}.

(** Fewer than [LIST_BATCH] rows of any group continue with the last
    character. *)
Definition few_past (prefix delim : string) (full : list ObjectRecord) : Prop :=
  forall cp, length (filter (fun r => group_of prefix delim (o_key r) = Some cp /\
                                      String.ltb (past_prefix cp) (o_key r) = true) full) < LIST_BATCH.

(** The items of the rows after the marker. *)
Definition items_after (prefix delim : string) (marker : option string) (rows : list ObjectRecord) : list Listed :=
  foldl add_item [] (filter (after_marker marker) (item_of prefix delim <$> rows)).

(** ** Strings *)

Lemma starts_with_cons c s p : starts_with (String c s) (String c p) = starts_with s p.
Proof. unfold starts_with. cbn [strip_prefix]. by rewrite bool_decide_eq_true_2. Qed.

Lemma starts_with_inv s c p : starts_with s (String c p) = true -> exists s', s = String c s' /\ starts_with s' p = true.
Proof.
  rewrite starts_with_spec. intros [r ->]. exists (p +:+ r). split; [done|]. apply starts_with_spec. by exists r.
Qed.

Lemma compare_cons c c' s s' :
  String.compare (String c s) (String c' s') =
  match Ascii.compare c c' with Eq => String.compare s s' | o => o end.
Proof. reflexivity. Qed.

Lemma ascii_compare_refl c : Ascii.compare c c = Eq.
Proof. unfold Ascii.compare. apply N.compare_refl. Qed.

(** The texts between two texts with a prefix have it. *)
Lemma prefix_between p a k b :
  starts_with a p = true -> starts_with b p = true -> String.ltb k a = false -> String.ltb b k = false ->
  starts_with k p = true.
Proof.
  revert a k b. induction p as [|c p IH]; intros a k b; [done|].
  intros (a' & -> & Ha)%starts_with_inv (b' & -> & Hb)%starts_with_inv.
  unfold String.ltb. destruct k as [|d k]; [done|]. rewrite !compare_cons.
  destruct (Ascii.compare d c) eqn:E1; [|done|].
  - apply Ascii.compare_eq_iff in E1 as ->. rewrite ascii_compare_refl. intros H1 H2.
    rewrite starts_with_cons. apply (IH a' k b'); unfold String.ltb; by repeat case_match.
  - rewrite Ascii.compare_antisym, E1. done.
Qed.

Lemma take_bytes_starts n s : starts_with s (take_bytes n s) = true.
Proof.
  revert s. induction n as [|n IH]; intros [|c s]; try done. cbn [take_bytes]. by rewrite starts_with_cons.
Qed.

Lemma starts_with_trans s a p : starts_with s a = true -> starts_with a p = true -> starts_with s p = true.
Proof.
  revert s a. induction p as [|c p IH]; intros s a Hs; [done|].
  intros (a' & -> & Ha)%starts_with_inv. apply starts_with_inv in Hs as (s' & -> & Hs). rewrite starts_with_cons. eauto.
Qed.

Lemma starts_with_shorter s a p :
  starts_with s a = true -> starts_with s p = true -> String.length p <= String.length a -> starts_with a p = true.
Proof.
  revert s a. induction p as [|c p IH]; intros s a Ha; [done|].
  intros (s' & -> & Hs)%starts_with_inv. destruct a as [|d a]; cbn; [lia|]. intros Hl.
  apply starts_with_inv in Ha as (t & [= -> <-] & Ha). rewrite starts_with_cons. apply (IH s'); [done..|lia].
Qed.

Lemma starts_with_length s p : starts_with s p = true -> String.length p <= String.length s.
Proof.
  revert s. induction p as [|c p IH]; intros s; cbn; [lia|]. intros (s' & -> & Hs)%starts_with_inv.
  apply IH in Hs. cbn. lia.
Qed.

Lemma length_take_bytes n s : String.length (take_bytes n s) = Nat.min n (String.length s).
Proof. revert s. induction n as [|n IH]; intros [|c s]; cbn; [done..|]. by rewrite IH. Qed.

Lemma find_length p s n : find p s = Some n -> n + String.length p <= String.length s.
Proof.
  revert n. induction s as [|c s IH]; intros n; cbn [find]; destruct (starts_with _ p) eqn:E.
  - intros [= <-]. by apply starts_with_length in E.
  - done.
  - intros [= <-]. by apply starts_with_length in E.
  - intros (m & Hm%IH & ->)%fmap_Some. cbn. lia.
Qed.

(** [find] looks at no more than the text up to the end of the match. *)
Lemma find_ext p s s' pos :
  find p s = Some pos -> starts_with s' (take_bytes (pos + String.length p) s) = true -> find p s' = Some pos.
Proof.
  revert s' pos. induction s as [|c s IH]; intros s' pos; cbn [find].
  - destruct (starts_with EmptyString p) eqn:E; [|done]. intros [= <-] _.
    destruct p; [|done]. by destruct s'.
  - destruct (starts_with (String c s) p) eqn:E.
    + intros [= <-] Hs. cbn [Nat.add] in Hs. assert (take_bytes (String.length p) (String c s) = p) as Hp.
      { clear -E. revert E. generalize (String c s) as t. induction p as [|d p IH]; intros t Ht; [by destruct t|].
        apply starts_with_inv in Ht as (t' & -> & Ht). cbn. by rewrite IH. }
      rewrite Hp in Hs. destruct s'; cbn [find]; by rewrite Hs.
    + intros (n & Hn & ->)%fmap_Some. cbn [Nat.add take_bytes]. intros (t & -> & Ht)%starts_with_inv.
      cbn [find]. destruct (starts_with (String c t) p) eqn:E'.
      * exfalso. pose proof (find_length p s n Hn) as Hl. assert (starts_with (String c s) p = true) as ?; [|congruence].
        apply (starts_with_trans _ (String c (take_bytes (n + String.length p) s)));
          [rewrite starts_with_cons; apply take_bytes_starts|].
        apply (starts_with_shorter (String c t)); [by rewrite starts_with_cons|done|].
        cbn. rewrite length_take_bytes. lia.
      * by rewrite (IH t n Hn Ht).
Qed.

Lemma string_lt_le x y z : String.ltb x y = true -> String.ltb z y = false -> String.ltb x z = true.
Proof. rewrite <- !string_compare_Lt, <- string_compare_le. intros H1 H2. by apply (cmp_Lt_le String.compare x y z). Qed.

Lemma string_le_lt x y z : String.ltb y x = false -> String.ltb y z = true -> String.ltb x z = true.
Proof. rewrite <- !string_compare_Lt, <- string_compare_le. intros H1 H2. by apply (cmp_le_Lt String.compare x y z). Qed.

(** The elements of a sorted list with a property that only starts to hold are
    at its end. *)
Lemma sorted_filter_suffix {A : Type} (R : relation A) (P : A -> Prop) `{!forall x, Decision (P x)} (l : list A) :
  (forall a b, R a b -> P a -> P b) -> StronglySorted R l ->
  exists kept, l = kept ++ filter P l /\ forall x, x ∈ kept -> ~ P x.
Proof.
  intros HP. induction 1 as [|r l Hl IH Hall]; [exists []; split; [done|by intros ? ?%elem_of_nil]|].
  destruct (decide (P r)) as [Hr|Hr].
  - exists []. split; [|by intros ? ?%elem_of_nil]. cbn [app]. rewrite list_filter_all; [done|].
    intros x [->|Hx]%elem_of_cons; [done|]. rewrite Forall_forall in Hall. by apply (HP r); [apply Hall|].
  - destruct IH as (kept & Hk & Hno). exists (r :: kept). rewrite filter_cons_False by done. split.
    + cbn [app]. by rewrite <- Hk.
    + intros x [->|Hx]%elem_of_cons; auto.
Qed.

(** The rows of a listing past a bound. *)
Lemma sorted_past_suffix bound (l : list ObjectRecord) :
  StronglySorted (fun a b => String.ltb (o_key b) (o_key a) = false) l ->
  exists kept, l = kept ++ filter (fun r => String.ltb bound (o_key r) = true) l /\
    forall r, r ∈ kept -> String.ltb bound (o_key r) = false.
Proof.
  intros Hs. destruct (sorted_filter_suffix (fun a b : ObjectRecord => String.ltb (o_key b) (o_key a) = false)
    (fun r => String.ltb bound (o_key r) = true) l) as (kept & Hk & Hno); [|done|].
  - intros a b Hab Ha. by eapply string_lt_le.
  - exists kept. split; [done|]. intros r Hr. by apply not_true_iff_false, Hno.
Qed.

(** ** Groups *)

Lemma drop_bytes_app p r : drop_bytes (String.length p) (p +:+ r) = r.
Proof. by induction p as [|c p IH]. Qed.

Lemma take_bytes_app p r n : take_bytes (String.length p + n) (p +:+ r) = p +:+ take_bytes n r.
Proof. induction p as [|c p IH]; [done|]. exact (f_equal (String c) IH). Qed.

Lemma starts_with_app_l p a b : starts_with (p +:+ a) (p +:+ b) = starts_with a b.
Proof.
  induction p as [|c p IH]; [done|].
  change (starts_with (String c (p +:+ a)) (String c (p +:+ b)) = starts_with a b). by rewrite starts_with_cons.
Qed.

Section groups.
Context (prefix delim : string).

Lemma common_prefix_group key rest :
  key = prefix +:+ rest -> char_boundary rest = true ->
  common_prefix prefix delim key = Ok (group_of prefix delim key).
Proof.
  intros -> Hb. unfold common_prefix, slice_from. rewrite drop_bytes_app, Hb, (proj2 (Nat.leb_le _ _)).
  - cbn [andb obind]. unfold group_of. by rewrite drop_bytes_app.
  - apply starts_with_length, starts_with_spec. by exists rest.
Qed.

(** A group is the keys that start with its common prefix. *)
Lemma group_starts key cp : group_of prefix delim key = Some cp -> starts_with key cp = true.
Proof. intros (pos & _ & ->)%fmap_Some. apply take_bytes_starts. Qed.

Lemma group_of_starts key key' cp rest rest' :
  key = prefix +:+ rest -> key' = prefix +:+ rest' ->
  group_of prefix delim key = Some cp -> starts_with key' cp = true -> group_of prefix delim key' = Some cp.
Proof.
  intros -> ->. unfold group_of. rewrite !drop_bytes_app. intros (pos & Hpos & ->)%fmap_Some.
  rewrite <- Nat.add_assoc, take_bytes_app, starts_with_app_l. intros Hs.
  pose proof (find_length _ _ _ Hpos) as Hl. rewrite (find_ext _ _ _ _ Hpos Hs). cbn. f_equal.
  rewrite <- Nat.add_assoc, take_bytes_app. f_equal. apply starts_with_spec in Hs as [t ->].
  assert (forall n u v, String.length u = n -> take_bytes n (u +:+ v) = u) as Htake.
  { clear. induction n as [|n IH]; intros [|c u] v; try done. cbn. intros [= Hn].
    exact (f_equal (String c) (IH u v Hn)). }
  apply Htake. rewrite length_take_bytes. lia.
Qed.
End groups.

(** ** Items *)

Lemma add_items_prefix items l : items `prefix_of` foldl add_item items l.
Proof.
  revert items. induction l as [|i l IH]; intros items; [done|]. cbn. etrans; [|apply IH].
  unfold add_item. repeat case_match; try done; by apply prefix_app_r.
Qed.

Section items.
Context (prefix delim : string) (marker : option string).

Lemma items_after_app a b :
  items_after prefix delim marker (a ++ b) =
  foldl add_item (items_after prefix delim marker a) (filter (after_marker marker) (item_of prefix delim <$> b)).
Proof. unfold items_after. by rewrite fmap_app, filter_app, foldl_app. Qed.

(** The group [cp] adds nothing: it was returned, or is the last item. *)
Definition settled (items : list Listed) (cp : string) : Prop :=
  ~ after_marker marker (Prefix_ cp) \/ last items = Some (Prefix_ cp).

Lemma settled_absorbs items cp rows :
  settled items cp -> (forall r, r ∈ rows -> group_of prefix delim (o_key r) = Some cp) ->
  foldl add_item items (filter (after_marker marker) (item_of prefix delim <$> rows)) = items.
Proof.
  intros Hs. induction rows as [|r rows IH]; intros Hg; [done|]. cbn [fmap list_fmap].
  assert (item_of prefix delim r = Prefix_ cp) as -> by (unfold item_of; by rewrite Hg by by left).
  rewrite filter_cons. case_decide as Ha; [|apply IH; intros; apply Hg; by right].
  destruct Hs as [?|Hl]; [done|]. cbn [foldl]. unfold add_item at 2. rewrite Hl, bool_decide_eq_true_2 by done.
  apply IH. intros; apply Hg; by right.
Qed.

(** After a row of a group, the group is settled. *)
Lemma settled_after rows r cp :
  group_of prefix delim (o_key r) = Some cp -> settled (items_after prefix delim marker (rows ++ [r])) cp.
Proof.
  intros Hg. rewrite items_after_app. cbn [fmap list_fmap]. unfold item_of. rewrite Hg. rewrite filter_cons, filter_nil.
  case_decide as Ha; [|by left]. right. cbn [foldl]. unfold add_item.
  destruct (last (items_after prefix delim marker rows)) as [[q|p]|] eqn:E; rewrite ?last_snoc; try done.
  case_bool_decide; [congruence|]. by rewrite last_snoc.
Qed.

Lemma skipped_spec items cp :
  skipped marker items cp = true <-> settled items cp.
Proof.
  unfold skipped, settled. rewrite orb_true_iff. f_equiv.
  - destruct marker as [m|]; cbn; [|by split; [|intros []]]. rewrite negb_true_iff, not_true_iff_false. done.
  - destruct (last items) as [[r|p]|]; [by split|rewrite bool_decide_eq_true; by split; [intros ->|intros [= ->]]|by split].
Qed.
End items.

Section loop.
Context (prefix delim : string) (marker : option string) (max_keys : Z).
Context (fetch : ListFrom -> outcome ArcaError (list ObjectRecord)) (full rows : list ObjectRecord).
Context `{!Listing prefix fetch full rows}.
Hypothesis Hmax : (0 <= max_keys)%Z.
Hypothesis Hfew : few_past prefix delim full.

Abbreviation items_of := (items_after prefix delim marker).
Abbreviation add_rows items l := (foldl add_item items (filter (after_marker marker) (item_of prefix delim <$> l))).

(** A batch: the items of its rows, up to the page size. *)
Lemma group_batch_ok records items lg :
  (forall r, r ∈ records -> r ∈ full) -> (Z.of_nat (length items) <= max_keys)%Z ->
  group_batch prefix delim marker max_keys records items lg =
  Ok (let items' := add_rows items records in
      if (Z.of_nat (length items') <=? max_keys)%Z
      then inr (items', match last records with Some r => group_of prefix delim (o_key r) | None => lg end)
      else inl {| dp_items := take (Z.to_nat max_keys) items'; dp_truncated := true |}).
Proof.
  revert items lg. induction records as [|r records IH]; intros items lg Hin Hlen; cbn [group_batch].
  { cbn. by rewrite (proj2 (Z.leb_le _ _)). }
  destruct (listing_prefix (fetch := fetch) (rows := rows) r) as (rest & Hk & Hb); [apply Hin; by left|].
  rewrite (common_prefix_group prefix delim _ rest Hk Hb). cbn [obind].
  assert (forall lg', match last (r :: records) with Some r0 => group_of prefix delim (o_key r0) | None => lg' end =
    match last records with Some r0 => group_of prefix delim (o_key r0) | None => group_of prefix delim (o_key r) end) as Hlast.
  { intros lg'. rewrite last_cons. by destruct (last records). }
  rewrite Hlast. clear Hlast.
  assert (forall x, x ∈ records -> x ∈ full) as Hin' by (intros; apply Hin; by right).
  destruct (match group_of prefix delim (o_key r) with Some cp => skipped marker items cp | None => false end) eqn:Hskip.
  - rewrite (IH items _ Hin' Hlen). destruct (group_of prefix delim (o_key r)) as [cp|] eqn:Hg; [|done].
    change (r :: records) with ([r] ++ records). rewrite fmap_app, filter_app, foldl_app.
    rewrite (settled_absorbs prefix delim marker items cp [r]); [done|by apply skipped_spec|].
    by intros ? ->%list_elem_of_singleton.
  - assert (add_rows items [r] = items ++ [item_of prefix delim r]) as Hpush.
    { cbn [fmap list_fmap]. unfold item_of. destruct (group_of prefix delim (o_key r)) as [cp|].
      - assert (~ settled marker items cp) as Hs by (rewrite <- skipped_spec; congruence).
        unfold settled in Hs. rewrite filter_cons, filter_nil.
        case_decide; [|exfalso; apply Hs; by left]. cbn [foldl]. unfold add_item.
        destruct (last items) as [[]|]; try done. case_bool_decide; [|done]. subst. exfalso. apply Hs. by right.
      - rewrite filter_cons, filter_nil. by rewrite decide_True. }
    change (r :: records) with ([r] ++ records). rewrite fmap_app, filter_app, foldl_app, Hpush.
    destruct (Z.leb_spec max_keys (Z.of_nat (length items))) as [Hfull|Hroom].
    + set (items' := add_rows (items ++ _) records).
      assert ((items ++ [item_of prefix delim r]) `prefix_of` items') as [t Ht] by apply add_items_prefix.
      rewrite Ht, !length_app. cbn [length]. rewrite (proj2 (Z.leb_gt _ _)) by lia. do 3 f_equal.
      rewrite <- app_assoc, take_app_length'; [done|]. lia.
    + change (match group_of prefix delim (o_key r) with Some cp => Prefix_ cp | None => Record_ r end)
        with (item_of prefix delim r).
      apply IH; [done|]. rewrite length_app. cbn. lia.
Qed.

Abbreviation past cp := (fun r : ObjectRecord => String.ltb (past_prefix cp) (o_key r) = true).

(** Rows between two rows of a group, or between one and the end of the range
    of the prefix, are in the group. *)
Lemma group_between cp a k b :
  a ∈ full -> k ∈ full -> group_of prefix delim (o_key a) = Some cp -> starts_with b cp = true ->
  (String.ltb (o_key k) (o_key a) = false /\ String.ltb b (o_key k) = false \/
   String.ltb (o_key k) b = false /\ String.ltb (o_key a) (o_key k) = false) ->
  group_of prefix delim (o_key k) = Some cp.
Proof.
  intros Ha Hk Hg Hb Hbetween. pose proof (group_starts _ _ _ _ Hg) as Hs.
  destruct (listing_prefix (fetch := fetch) (rows := rows) a Ha) as (ra & Hra & _).
  destruct (listing_prefix (fetch := fetch) (rows := rows) k Hk) as (rk & Hrk & _).
  apply (group_of_starts prefix delim (o_key a) (o_key k) cp ra rk); [done..|].
  destruct Hbetween as [[H1 H2]|[H1 H2]]; by eapply prefix_between; [| |exact H1|exact H2].
Qed.

Lemma past_prefix_starts cp : starts_with (past_prefix cp) cp = true.
Proof. apply starts_with_spec. by exists max_char. Qed.

(** The state of the loop before a query: the rows [done_] are listed, the
    query returns rows [again] that add nothing and then the rest. *)
Record looping (from : ListFrom) (items : list Listed) (done_ again rest : list ObjectRecord) : Prop := {
  lp_fetch : fetch from = Ok (take LIST_BATCH (again ++ rest));
  lp_rows : rows = done_ ++ rest;
  lp_items : items = items_of done_;
  lp_room : (Z.of_nat (length items) <= max_keys)%Z;
  lp_again : add_rows items again = items;
  lp_few : length again < LIST_BATCH;
  lp_known : forall r, r ∈ again -> r ∈ full;
}.

(** The next query after a full batch that ends with a row of a group. *)
Lemma looping_past done_ r rest cp :
  rows = (done_ ++ [r]) ++ rest -> group_of prefix delim (o_key r) = Some cp ->
  (Z.of_nat (length (items_of (done_ ++ [r]))) <= max_keys)%Z ->
  exists done' again' rest',
    length rest' <= length rest /\
    looping (PastPrefix cp) (items_of (done_ ++ [r])) done' again' rest'.
Proof.
  intros Hrows Hg Hroom. destruct (listing_suffix (prefix := prefix) (fetch := fetch)) as [before Hfull].
  pose proof (listing_sorted (prefix := prefix) (fetch := fetch) (rows := rows)) as Hsorted.
  set (seen := before ++ done_ ++ [r]).
  assert (full = seen ++ rest) as Hseen by (unfold seen; rewrite Hfull, Hrows, <- !app_assoc; done).
  assert (r ∈ full) as Hr by (rewrite Hseen; unfold seen; set_solver).
  assert (forall x, x ∈ seen -> String.ltb (o_key r) (o_key x) = false) as Hle.
  { intros x Hx. rewrite Hseen in Hsorted. unfold seen in *. rewrite app_assoc in *.
    apply elem_of_app in Hx as [Hx| ->%list_elem_of_singleton]; [|apply string_ltb_irrefl].
    apply StronglySorted_app_1_l in Hsorted.
    apply (StronglySorted_app_1_elem_of _ _ _ x r Hsorted Hx). by left. }
  assert (forall x, x ∈ rest -> String.ltb (o_key x) (o_key r) = false) as Hge.
  { intros x Hx. rewrite Hseen in Hsorted. apply (StronglySorted_app_1_elem_of _ _ _ r x Hsorted); [|done].
    unfold seen. set_solver. }
  destruct (sorted_past_suffix (past_prefix cp) rest) as (kept & Hkept & Hno).
  { rewrite Hseen in Hsorted. by apply StronglySorted_app_1_r in Hsorted. }
  set (rest' := filter (past cp) rest) in *. set (again := filter (past cp) seen).
  assert (forall x, x ∈ again -> group_of prefix delim (o_key x) = Some cp) as Hagain.
  { intros x [Hp Hx]%list_elem_of_filter. apply (group_between cp r x (past_prefix cp)); try done.
    - rewrite Hseen. set_solver.
    - apply past_prefix_starts.
    - right. split; [by apply string_ltb_asym|auto]. }
  assert (forall x, x ∈ kept -> group_of prefix delim (o_key x) = Some cp) as Hk.
  { intros x Hx. assert (x ∈ rest) as Hxr by (rewrite Hkept; set_solver).
    apply (group_between cp r x (past_prefix cp)); try done.
    - rewrite Hseen. set_solver.
    - apply past_prefix_starts.
    - left. auto. }
  pose proof (settled_after prefix delim marker done_ r cp Hg) as Hset.
  exists ((done_ ++ [r]) ++ kept), again, rest'. split.
  { apply (f_equal length) in Hkept. rewrite length_app in Hkept. lia. }
  split.
  - rewrite fetch_past, Hseen, filter_app. done.
  - by rewrite <- app_assoc, <- Hkept.
  - rewrite (items_after_app _ _ _ (done_ ++ [r]) kept). symmetry. by apply (settled_absorbs prefix delim marker _ cp).
  - done.
  - by apply (settled_absorbs prefix delim marker _ cp).
  - eapply Nat.le_lt_trans; [|apply (Hfew cp)]. rewrite Hseen, filter_app, length_app.
    assert (again = filter (fun r => group_of prefix delim (o_key r) = Some cp /\ past cp r) seen) as <-; [|lia].
    unfold again. clear -Hagain. unfold again in Hagain. induction seen as [|x seen IH]; [done|].
    rewrite !filter_cons in *. destruct (decide (past cp x)) as [Hp|Hp].
    + rewrite decide_True by (split; [apply Hagain; by left|done]). f_equal. apply IH. intros; apply Hagain; by right.
    + rewrite decide_False by tauto. by apply IH.
  - intros x [_ Hx]%list_elem_of_filter. rewrite Hseen. set_solver.
Qed.

(** The next query after a full batch, and where it starts. *)
Lemma looping_next done_ again rest r :
  let k := LIST_BATCH - length again in
  0 < k -> k <= length rest -> rows = done_ ++ rest -> last (again ++ take k rest) = Some r ->
  (Z.of_nat (length (items_of (done_ ++ take k rest))) <= max_keys)%Z ->
  exists from' done' again' rest',
    match group_of prefix delim (o_key r) with Some cp => PastPrefix cp | None => After r end = from' /\
    length rest' < length rest /\ looping from' (items_of (done_ ++ take k rest)) done' again' rest'.
Proof.
  intros k Hk Hle Hrows Hlast Hroom. clearbody k. pose proof (length_drop rest k) as Hdrop.
  pose proof (firstn_skipn k rest) as Hsplit.
  destruct (take k rest) as [|x l _] eqn:Et using rev_ind.
  { apply (f_equal length) in Et. rewrite length_take in Et. cbn in Et. lia. }
  rewrite app_assoc, last_snoc in Hlast. injection Hlast as ->.
  destruct (group_of prefix delim (o_key r)) as [cp|] eqn:Hg.
  - rewrite app_assoc in Hroom |- *. destruct (looping_past (done_ ++ l) r (drop k rest) cp) as (d' & a' & r' & Hlen & Hloop); try done.
    { rewrite Hrows. rewrite <- Hsplit at 1. by rewrite <- !app_assoc. }
    exists (PastPrefix cp), d', a', r'. split_and!; [done|lia|done].
  - exists (After r), (done_ ++ l ++ [r]), [], (drop k rest). split_and!; [done|lia|]. split; try done.
    + cbn [app]. apply (fetch_after (done_ ++ l)). rewrite Hrows. rewrite <- Hsplit at 1. by rewrite <- !app_assoc.
    + rewrite Hrows. rewrite <- Hsplit at 1. by rewrite <- !app_assoc.
    + cbn. unfold LIST_BATCH. lia.
    + by intros ? ?%elem_of_nil.
Qed.

Lemma page_of_all items : (Z.of_nat (length items) <= max_keys)%Z ->
  page_of max_keys items = {| dp_items := items; dp_truncated := false |}.
Proof. intros H. unfold page_of. rewrite take_ge by lia. f_equal. lia. Qed.

Lemma loop_ends fuel from items done_ again rest :
  looping from items done_ again rest -> length rest < fuel ->
  list_delimited_from prefix delim marker max_keys fetch fuel from items =
  Some (Ok (page_of max_keys (items_of rows))).
Proof.
  revert from items done_ again rest. induction fuel as [|fuel IH]; intros from items done_ again rest [] Hfuel; [lia|].
  cbn [list_delimited_from]. rewrite lp_fetch0, take_app, take_ge by lia.
  set (k := LIST_BATCH - length again) in *. assert (0 < k) as Hk by lia.
  destruct (listing_suffix (prefix := prefix) (fetch := fetch)) as [before Hfull].
  rewrite group_batch_ok; [| |done].
  2: { intros x [?|Hx]%elem_of_app; [auto|]. apply elem_of_take in Hx as (i & Hi%list_elem_of_lookup_2 & _).
       rewrite Hfull, lp_rows0. set_solver. }
  rewrite fmap_app, filter_app, foldl_app, lp_again0, lp_items0, <- items_after_app. cbv zeta.
  destruct (Z.leb_spec (Z.of_nat (length (items_of (done_ ++ take k rest)))) max_keys) as [Hroom|Hbig].
  - assert (length (again ++ take k rest) < LIST_BATCH -> items_of (done_ ++ take k rest) = items_of rows) as Hend.
    { rewrite length_app, length_take. intros Hl. rewrite take_ge by lia. by rewrite lp_rows0. }
    destruct (last (again ++ take k rest)) as [r|] eqn:Hlast.
    + case_match eqn:Hex.
      * apply Nat.ltb_lt in Hex. rewrite <- Hend by done. by rewrite page_of_all.
      * apply Nat.ltb_ge in Hex. rewrite length_app, length_take in Hex.
        destruct (looping_next done_ again rest r) as (from' & done' & again' & rest' & -> & Hlen & Hloop); try done; [lia|].
        apply (IH _ _ done' again' rest' Hloop). lia.
    + apply last_None in Hlast. rewrite Hlast in Hend. rewrite <- Hend by (cbn; lia). by rewrite page_of_all.
  - assert (items_of (done_ ++ take k rest) `prefix_of` items_of rows) as [t Ht].
    { rewrite lp_rows0. rewrite <- (firstn_skipn k rest) at 2. rewrite app_assoc, (items_after_app _ _ _ _ (drop k rest)).
      apply add_items_prefix. }
    unfold page_of. rewrite Ht, length_app. rewrite (proj2 (Z.ltb_lt _ _)) by lia.
    rewrite take_app_le by lia. done.
Qed.
End loop.

(** ** The items are in order *)

Abbreviation key_lt := (fun a b => String.ltb (listed_key a) (listed_key b) = true).

(** An item that comes no later in the listing than [b]. *)
Definition item_before (a b : Listed) : Prop :=
  key_lt a b \/ a = b /\ exists cp, b = Prefix_ cp.

Lemma elem_of_add_item items i x : x ∈ add_item items i <-> x ∈ items \/ x = i.
Proof.
  unfold add_item. destruct i as [r|cp]; [by rewrite elem_of_app, list_elem_of_singleton|].
  destruct (last items) as [[r|p]|] eqn:E; rewrite ?elem_of_app, ?list_elem_of_singleton; try done.
  case_bool_decide; [|by rewrite elem_of_app, list_elem_of_singleton]. subst.
  split; [by left|]. intros [?| ->]; [done|]. by apply last_Some_elem_of.
Qed.

(** The last of strictly increasing items is the greatest. *)
Lemma last_greatest items i :
  StronglySorted key_lt items -> i ∈ items -> (forall x, x ∈ items -> item_before x i) -> last items = Some i.
Proof.
  intros Hs Hi Hall. destruct items as [|z items _] using rev_ind; [by apply elem_of_nil in Hi|].
  rewrite last_snoc. f_equal. apply elem_of_app in Hi as [Hi| ->%list_elem_of_singleton]; [|done]. exfalso.
  pose proof (StronglySorted_app_1_elem_of _ _ _ i z Hs Hi ltac:(by left)) as Hlt. cbn in Hlt.
  destruct (Hall z) as [Hz|[-> _]]; [set_solver| |].
  - by rewrite (string_ltb_asym _ _ Hz) in Hlt.
  - by rewrite string_ltb_irrefl in Hlt.
Qed.

Lemma add_item_sorted items i :
  StronglySorted key_lt items -> (forall x, x ∈ items -> item_before x i) -> StronglySorted key_lt (add_item items i).
Proof.
  intros Hs Hall. assert (i ∈ items \/ forall x, x ∈ items -> key_lt x i) as [Hi|Hlt].
  { clear Hs. induction items as [|y items IH]; [right; by intros ? ?%elem_of_nil|].
    destruct IH as [?|Hlt]; [intros; apply Hall; by right|left; by right|].
    destruct (Hall y) as [Hy|[-> _]]; [by left| |left; by left]. right. intros x [->|?]%elem_of_cons; auto. }
  - destruct (Hall i Hi) as [Hii|[_ [cp Hcp]]]; [by rewrite string_ltb_irrefl in Hii|].
    pose proof (last_greatest items i Hs Hi Hall) as Hl. unfold add_item. subst i. by rewrite Hl, bool_decide_eq_true_2.
  - assert (StronglySorted key_lt (items ++ [i])) as Happ.
    { apply StronglySorted_app_2; [intros x y Hx ->%list_elem_of_singleton; by apply Hlt|done|by repeat constructor]. }
    unfold add_item. destruct i as [r|cp]; [done|]. destruct (last items) as [[]|]; try done. by case_bool_decide.
Qed.

(** Items in order are grouped into strictly increasing ones, and no other. *)
Lemma add_items_sorted l :
  StronglySorted item_before l ->
  StronglySorted key_lt (foldl add_item [] l) /\ forall x, x ∈ foldl add_item [] l <-> x ∈ l.
Proof.
  induction l as [|i l IH] using rev_ind; [split; [constructor|done]|].
  intros Hs. destruct (IH (StronglySorted_app_1_l _ _ _ Hs)) as [Hsorted Hin].
  rewrite foldl_app. cbn [foldl]. split.
  - apply add_item_sorted; [done|]. intros x Hx%Hin. apply (StronglySorted_app_1_elem_of _ _ _ x i Hs); [done|by left].
  - intros x. rewrite elem_of_add_item, Hin, elem_of_app, list_elem_of_singleton. done.
Qed.

Lemma sorted_items_NoDup l : StronglySorted key_lt l -> NoDup l.
Proof.
  induction 1 as [|x l Hs IH Hall]; constructor; [|done]. intros Hx. rewrite Forall_forall in Hall.
  specialize (Hall x Hx). by rewrite string_ltb_irrefl in Hall.
Qed.

Lemma sorted_items_unique l l' :
  StronglySorted key_lt l -> StronglySorted key_lt l' -> (forall i, i ∈ l <-> i ∈ l') -> l = l'.
Proof.
  intros Hs Hs' Hin. apply (StronglySorted_unique_strong key_lt); [|done..|].
  - intros x y _ _ H1 H2. by rewrite (string_ltb_asym _ _ H1) in H2.
  - apply NoDup_Permutation; [by apply sorted_items_NoDup..|done].
Qed.

Section order.
Context (prefix delim : string) (full : list ObjectRecord).
Hypothesis Hprefix : forall r, r ∈ full -> exists rest, o_key r = prefix +:+ rest /\ char_boundary rest = true.
Hypothesis Hstrict : StronglySorted (fun a b => String.ltb (o_key a) (o_key b) = true) full.

Lemma starts_with_le key cp : starts_with key cp = true -> String.ltb key cp = false.
Proof.
  revert key. induction cp as [|c cp IH]; intros key.
  - intros _. by destruct key.
  - intros (key' & -> & Hs)%starts_with_inv. unfold String.ltb in *. rewrite compare_cons, ascii_compare_refl. by apply IH.
Qed.

Lemma group_le r cp : group_of prefix delim (o_key r) = Some cp -> String.ltb (o_key r) cp = false.
Proof. intros Hg. by apply starts_with_le, (group_starts prefix delim). Qed.

(** A key at or after a common prefix and before a key of its group is in the
    group. *)
Lemma group_interval a b cp :
  a ∈ full -> b ∈ full -> group_of prefix delim (o_key b) = Some cp ->
  String.ltb (o_key a) cp = false -> String.ltb (o_key a) (o_key b) = true ->
  group_of prefix delim (o_key a) = Some cp.
Proof.
  intros Ha Hb Hg Hle Hlt. destruct (Hprefix a Ha) as (ra & Hra & _), (Hprefix b Hb) as (rb & Hrb & _).
  apply (group_of_starts prefix delim (o_key b) (o_key a) cp rb ra); [done..|].
  apply (prefix_between cp cp (o_key a) (o_key b)); [|by apply (group_starts prefix delim)|done|by apply string_ltb_asym].
  rewrite <- (string_app_empty cp) at 1. apply starts_with_spec. by exists EmptyString.
Qed.

Lemma item_of_before a b :
  a ∈ full -> b ∈ full -> String.ltb (o_key a) (o_key b) = true ->
  item_before (item_of prefix delim a) (item_of prefix delim b).
Proof.
  intros Ha Hb Hlt. unfold item_of, item_before.
  destruct (group_of prefix delim (o_key b)) as [cb|] eqn:Eb.
  - destruct (String.ltb (o_key a) cb) eqn:Hcb.
    + left. destruct (group_of prefix delim (o_key a)) as [ca|] eqn:Ea; cbn; [|done].
      apply group_le in Ea. by eapply string_le_lt.
    + rewrite (group_interval a b cb) by done. right. eauto.
  - left. cbn [listed_key]. destruct (group_of prefix delim (o_key a)) as [ca|] eqn:Ea; cbn; [|done].
    apply group_le in Ea. by eapply string_le_lt.
Qed.

Lemma items_of_sorted l :
  (forall r, r ∈ l -> r ∈ full) -> StronglySorted (fun a b => String.ltb (o_key a) (o_key b) = true) l ->
  StronglySorted item_before (item_of prefix delim <$> l).
Proof.
  intros Hl Hs. induction Hs as [|r l Hs IH Hall]; [constructor|]. cbn. constructor.
  - apply IH. intros; apply Hl; by right.
  - apply Forall_forall. intros x (b & -> & Hb)%list_elem_of_fmap. rewrite Forall_forall in Hall.
    apply item_of_before; [apply Hl; by left|apply Hl; by right|by apply Hall].
Qed.

Lemma grouped_sorted :
  StronglySorted key_lt (grouped prefix delim full) /\
  forall i, i ∈ grouped prefix delim full <-> exists r, i = item_of prefix delim r /\ r ∈ full.
Proof.
  destruct (add_items_sorted (item_of prefix delim <$> full)) as [Hs Hin]; [by apply items_of_sorted|].
  split; [done|]. intros i. unfold grouped. by rewrite Hin, list_elem_of_fmap.
Qed.

(** The items after a marker are those of the whole listing whose key or
    common prefix comes after it. *)
Lemma items_after_all m :
  items_after prefix delim (Some m) (filter (fun r => String.ltb m (o_key r) = true) full) =
  filter (fun i => String.ltb m (listed_key i) = true) (grouped prefix delim full).
Proof.
  destruct grouped_sorted as [Hs Hin]. set (rows := filter _ full).
  destruct (add_items_sorted (filter (after_marker (Some m)) (item_of prefix delim <$> rows))) as [Hs' Hin'].
  { apply StronglySorted_filter, items_of_sorted; [by intros r [_ Hr]%list_elem_of_filter|by apply StronglySorted_filter]. }
  apply sorted_items_unique; [exact Hs'|by apply StronglySorted_filter|]. intros i. unfold items_after.
  rewrite Hin', !list_elem_of_filter, list_elem_of_fmap, Hin. split.
  - intros (Ha & r & -> & [Hm Hr]%list_elem_of_filter). split; [|eauto].
    unfold item_of in *. by destruct (group_of prefix delim (o_key r)).
  - intros (Hm & r & -> & Hr). unfold item_of in *.
    destruct (group_of prefix delim (o_key r)) as [cp|] eqn:Hg; cbn in *; (split; [done|]); exists r; rewrite Hg;
      (split; [done|]); apply list_elem_of_filter; (split; [|done]); [|done].
    eapply string_lt_le; [exact Hm|by apply group_le].
Qed.
End order.

Lemma delimited_ends (prefix delim : string) (marker : option string) (max_keys : Z)
    (fetch : ListFrom -> outcome ArcaError (list ObjectRecord)) (full rows : list ObjectRecord) (fuel : nat) :
  Listing prefix fetch full rows -> few_past prefix delim full -> (0 <= max_keys)%Z -> length rows < fuel ->
  list_delimited prefix delim marker max_keys fetch fuel =
  Some (Ok (page_of max_keys (items_after prefix delim marker rows))).
Proof.
  intros HL Hfew Hmax Hfuel. apply (loop_ends prefix delim marker max_keys fetch full rows Hmax Hfew fuel Start [] [] [] rows);
    [|done]. split; cbn; try done; [apply fetch_start|unfold LIST_BATCH; lia|by intros ? ?%elem_of_nil].
Qed.

(** C17. A delimited listing ends with the right page.  Over any sorted listing,
    if fewer than [LIST_BATCH] rows of a group continue with the last
    character, the loop ends after at most one query per row (and one more),
    and returns the first [max_keys] items of the grouped listing after the
    marker, each run of keys under one common prefix as one item, and whether
    there are more: skipping past a group loses and repeats nothing. *)
Theorem list_delimited_exact (prefix delim : string) (marker : option string) (max_keys : Z)
    (fetch : ListFrom -> outcome ArcaError (list ObjectRecord)) (full rows : list ObjectRecord) (fuel : nat) :
  Listing prefix fetch full rows -> few_past prefix delim full -> (0 <= max_keys)%Z -> length rows < fuel ->
  list_delimited prefix delim marker max_keys fetch fuel =
  Some (Ok (page_of max_keys (items_after prefix delim marker rows))).
Proof. apply delimited_ends. Qed.

(** A batch of rows of one group adds it once. *)
Lemma batch_settles prefix delim marker items cp rows :
  (forall r, r ∈ rows -> group_of prefix delim (o_key r) = Some cp) ->
  items = [] \/ settled marker items cp ->
  let items' := foldl add_item items (filter (after_marker marker) (item_of prefix delim <$> rows)) in
  (rows <> [] -> settled marker items' cp) /\ length items' <= Nat.max 1 (length items).
Proof.
  intros Hg Hitems items'. destruct (decide (after_marker marker (Prefix_ cp))) as [Ha|Ha].
  2: { assert (settled marker items cp) as Hs by by left. unfold items'.
       rewrite (settled_absorbs prefix delim marker items cp rows Hs Hg). split; [done|lia]. }
  destruct Hitems as [->|Hs].
  2: { unfold items'. rewrite (settled_absorbs prefix delim marker items cp rows Hs Hg). split; [done|lia]. }
  destruct rows as [|r rows]; [by split; [|cbn; lia]|].
  assert (items' = [Prefix_ cp]) as ->; [|split; [by right|cbn; lia]].
  unfold items'. cbn [fmap list_fmap]. assert (item_of prefix delim r = Prefix_ cp) as ->.
  { unfold item_of. by rewrite Hg by by left. }
  rewrite filter_cons_True by done. cbn [foldl].
  apply (settled_absorbs prefix delim marker _ cp); [by right|]. intros; apply Hg; by right.
Qed.

(** It does not end when a group has [LIST_BATCH] keys that continue with
    the last character.  A listing all of whose keys are such keys of one group
    is queried forever: the query past the group returns the same batch. *)
Theorem list_delimited_diverges (prefix delim cp : string) (marker : option string) (max_keys : Z)
    (fetch : ListFrom -> outcome ArcaError (list ObjectRecord)) (rows : list ObjectRecord) (fuel : nat) :
  Listing prefix fetch rows rows -> (1 <= max_keys)%Z -> LIST_BATCH <= length rows ->
  (forall r, r ∈ rows -> group_of prefix delim (o_key r) = Some cp /\ String.ltb (past_prefix cp) (o_key r) = true) ->
  list_delimited prefix delim marker max_keys fetch fuel = None.
Proof.
  intros HL Hmax Hlen Hall. unfold list_delimited.
  assert (forall from items, fetch from = Ok (take LIST_BATCH rows) -> (Z.of_nat (length items) <= max_keys)%Z ->
    items = [] \/ settled marker items cp ->
    list_delimited_from prefix delim marker max_keys fetch fuel from items = None) as Hloop;
    [|apply Hloop; [apply fetch_start|cbn; lia|by left]].
  induction fuel as [|fuel IH]; intros from items Hf Hroom Hitems; [done|]. cbn [list_delimited_from]. rewrite Hf.
  assert (exists r, last (take LIST_BATCH rows) = Some r /\ r ∈ rows) as (r & Hlast & Hr).
  { destruct (last (take LIST_BATCH rows)) as [r|] eqn:E.
    - exists r. split; [done|]. apply last_Some_elem_of, elem_of_take in E as (i & Hi & _). by apply list_elem_of_lookup_2 in Hi.
    - apply last_None in E. apply (f_equal length) in E. rewrite length_take, Nat.min_l in E by done. done. }
  assert (forall x, x ∈ take LIST_BATCH rows -> x ∈ rows) as Hin.
  { intros x (i & Hi & _)%elem_of_take. by apply list_elem_of_lookup_2 in Hi. }
  destruct (batch_settles prefix delim marker items cp (take LIST_BATCH rows)) as [Hset Hl]; [by intros x Hx; apply Hall, Hin|done|].
  specialize (Hset ltac:(intros Hnil; by rewrite Hnil in Hlast)).
  rewrite (group_batch_ok prefix delim marker max_keys fetch rows rows) by done. rewrite Hlast, (proj1 (Hall r Hr)).
  rewrite length_take, Nat.min_l, Nat.ltb_irrefl by done. cbv zeta.
  rewrite (proj2 (Z.leb_le _ _)) by (destruct Hitems; subst; cbn in *; lia).
  apply IH; [|destruct Hitems; subst; cbn in *; lia|by right].
  rewrite fetch_past, list_filter_all; [done|]. intros x Hx. by apply Hall.
Qed.

(** ** A listing in memory *)

Definition sorted_fetch (rows : list ObjectRecord) (from : ListFrom) : outcome ArcaError (list ObjectRecord) :=
  Ok (take LIST_BATCH
        (match from with
         | Start => rows
         | After r => filter (fun x => String.ltb (o_key r) (o_key x) = true) rows
         | PastPrefix cp => filter (fun x => String.ltb (past_prefix cp) (o_key x) = true) rows
         end)).

Lemma strict_sorted (rows : list ObjectRecord) :
  StronglySorted (fun a b => String.ltb (o_key a) (o_key b) = true) rows ->
  StronglySorted (fun a b => String.ltb (o_key b) (o_key a) = false) rows.
Proof. apply StronglySorted_weaken. intros a b. apply string_ltb_asym. Qed.

Lemma sorted_listing prefix rows :
  StronglySorted (fun a b => String.ltb (o_key a) (o_key b) = true) rows ->
  (forall r, r ∈ rows -> exists rest, o_key r = prefix +:+ rest /\ char_boundary rest = true) ->
  Listing prefix (sorted_fetch rows) rows rows.
Proof.
  intros Hs Hp. split; try done; [by apply strict_sorted|]. intros a r b ->. unfold sorted_fetch. do 2 f_equal.
  pose proof (StronglySorted_app_1_r _ _ _ Hs) as Hb. apply StronglySorted_inv in Hb as [_ Hb].
  rewrite filter_app, filter_cons_False by (by rewrite string_ltb_irrefl).
  rewrite (list_filter_none _ a), (list_filter_all _ b); [done| |].
  - intros x Hx. by rewrite Forall_forall in Hb; apply Hb.
  - intros x Hx. rewrite (string_ltb_asym (o_key x) (o_key r)); [done|].
    apply (StronglySorted_app_1_elem_of _ _ _ x r Hs Hx). by left.
Qed.

Definition row_at (key : string) : ObjectRecord :=
  MkObject "bucket" key "blob" 1 "e" None 1 ∅ None None "root" None true false false
     None None None "STANDARD" None None None None None None.

Definition sample_rows : list ObjectRecord := row_at <$> ["a"; "b/1"; "b/2"; "c"; "d/x/y"].

(** A hundred keys that start with [a/] and the last character. *)
Definition stuck_rows : list ObjectRecord :=
  (fun n => row_at ("a/" +:+ max_char +:+ String (Ascii.ascii_of_nat (n + 20)) EmptyString)) <$> seq 0 100.

(** Decides that the keys increase. *)
Definition increasing (rows : list ObjectRecord) : bool :=
  match rows with
  | [] => true
  | r :: rows' => forallb (fun p => String.ltb (o_key p.1) (o_key p.2)) (zip rows rows')
  end.

Lemma increasing_sorted rows :
  increasing rows = true -> StronglySorted (fun a b => String.ltb (o_key a) (o_key b) = true) rows.
Proof.
  intros H. apply Sorted_StronglySorted; [intros a b c; apply string_ltb_trans|].
  destruct rows as [|r rows]; [constructor|]. revert r H. induction rows as [|q rows IH]; intros r H; [by repeat constructor|].
  cbn in H. apply andb_true_iff in H as [H1 H2]. constructor; [by apply IH|by constructor].
Qed.

Lemma list_delimited_exact_witness :
  list_delimited EmptyString "/" None 3 (sorted_fetch sample_rows) 6 =
  Some (Ok {| dp_items := [Record_ (row_at "a"); Prefix_ "b/"; Record_ (row_at "c")]; dp_truncated := true |}).
Proof.
  rewrite (list_delimited_exact EmptyString "/" None 3 (sorted_fetch sample_rows) sample_rows sample_rows 6);
    [by vm_compute| | |lia|cbn; lia].
  - apply sorted_listing; [by apply increasing_sorted|].
    intros r Hr. exists (o_key r). split; [done|]. revert r Hr.
    assert (Forall (fun r => char_boundary (o_key r) = true) sample_rows) as H by by repeat constructor.
    by rewrite Forall_forall in H.
  - intros cp. eapply Nat.le_lt_trans; [apply length_filter|]. cbn. unfold LIST_BATCH. lia.
Defined.

Lemma list_delimited_diverges_witness :
  list_delimited EmptyString "/" None 1 (sorted_fetch stuck_rows) 1000 = None.
Proof.
  apply (list_delimited_diverges EmptyString "/" "a/" None 1 (sorted_fetch stuck_rows) stuck_rows 1000); [|lia|done|].
  - apply sorted_listing; [apply increasing_sorted; by vm_compute|].
    intros r (n & -> & _)%list_elem_of_fmap. by eexists.
  - intros r (n & -> & _)%list_elem_of_fmap. split; [done|]. by vm_compute.
Defined.
