(* ===== verification/DelimitedStore.v ===== *)
(** ListObjects and ListObjectVersions with a delimiter, over the metadata
    store: [list_objects_delimited] and the version listings of
    [crates/arca-proto/src/handlers/bucket.rs], and [list_object_versions] of
    the [MetadataStore] trait.

    Both queries of the store satisfy the interface [Listing] of [Delimited],
    so the loop ends with the right page; a client that follows the markers of
    the pages receives the whole grouped listing once. *)

From S2P Require Import Prelude S3Errors Policy Types SqlTable Text Preconditions MetadataStore MetadataRows.
From S2P Require Import MetadataInvariant MetadataSteps MetadataOps MetadataListing Delimited.

(** ** Requests *)

Definition unwrap_or_empty (prefix : option string) : string := default EmptyString prefix.

Definition list_objects_delimited (fuel : nat) (bucket : string) (prefix : option string) (delim : string)
    (start_after : option string) (max_keys : Z) (s : MetaStore) : option (outcome ArcaError DelimitedPage) :=
  list_delimited (unwrap_or_empty prefix) delim start_after max_keys (fun from =>
    let cursor := match from with
                  | Start => start_after
                  | After last => Some (o_key last)
                  | PastPrefix cp => Some (past_prefix cp)
                  end in
    Ok (list_objects bucket prefix cursor (Z.of_nat LIST_BATCH) s)) fuel.

(** [MetadataStore::list_object_versions] *)
Definition list_object_versions (bucket : string) (prefix key_marker version_id_marker : option string) (max_keys : Z)
    (s : MetaStore) : list ObjectRecord :=
  let key_marker := key_marker ≫= (fun km => if bool_decide (km = EmptyString) then None else Some km) in
  let after := match key_marker, version_id_marker with
               | Some km, Some vm =>
                   match get_object_version bucket km vm s with
                   | Some marker => Some (position_of marker)
                   | None => Some key_start
                   end
               | _, _ => None
               end in
  list_object_versions_from bucket prefix key_marker after max_keys s.

Inductive VersionsMarker : Type :=
  | MVersion (key version_id : string)
  | MPrefix (cp : string).

Definition marker_after (r : ObjectRecord) : VersionsMarker := MVersion (o_key r) (default "null" (o_version_id r)).

Record VersionsPage : Type := {
  vg_entries : list ObjectRecord;
  vg_common_prefixes : list string;
  vg_next : option VersionsMarker;
}.

Definition list_versions_flat (bucket : string) (prefix key_marker version_id_marker : option string) (max_keys : Z)
    (s : MetaStore) : VersionsPage :=
  let entries := list_object_versions bucket prefix key_marker version_id_marker (max_keys + 1) s in
  if (max_keys <? Z.of_nat (length entries))%Z then
    let entries := take (Z.to_nat max_keys) entries in
    {| vg_entries := entries; vg_common_prefixes := []; vg_next := marker_after <$> last entries |}
  else {| vg_entries := entries; vg_common_prefixes := []; vg_next := None |}.

Definition records (items : list Listed) : list ObjectRecord :=
  omap (fun i => match i with Record_ r => Some r | Prefix_ _ => None end) items.

Definition prefixes (items : list Listed) : list string :=
  omap (fun i => match i with Record_ _ => None | Prefix_ cp => Some cp end) items.

Definition versions_fetch (bucket : string) (prefix key_marker version_id_marker : option string) (s : MetaStore)
    (from : ListFrom) : outcome ArcaError (list ObjectRecord) :=
  Ok (match from with
      | Start => list_object_versions bucket prefix key_marker version_id_marker (Z.of_nat LIST_BATCH) s
      | After last =>
          list_object_versions_from bucket prefix (Some (o_key last)) (Some (position_of last)) (Z.of_nat LIST_BATCH) s
      | PastPrefix cp =>
          list_object_versions_from bucket prefix (Some (past_prefix cp)) None (Z.of_nat LIST_BATCH) s
      end).

Definition versions_page (listed : DelimitedPage) : VersionsPage :=
  {| vg_entries := records (dp_items listed);
     vg_common_prefixes := prefixes (dp_items listed);
     vg_next := if dp_truncated listed then
                  (fun i => match i with Record_ r => marker_after r | Prefix_ cp => MPrefix cp end) <$> last (dp_items listed)
                else None |}.

Definition list_versions_grouped (fuel : nat) (bucket : string) (prefix : option string) (delim : string)
    (key_marker version_id_marker : option string) (max_keys : Z) (s : MetaStore)
  : option (outcome ArcaError VersionsPage) :=
  (fun r => let? listed := r in Ok (versions_page listed))%outcome <$>
    list_delimited (unwrap_or_empty prefix) delim key_marker max_keys
      (versions_fetch bucket prefix key_marker version_id_marker s) fuel.

(** ** The queries are listings *)

(** Keys are text. *)
Definition text_keys (s : MetaStore) : Prop := forall i x, ms_objects s !! i = Some x -> valid_text (o_key (row_rec x)).

Lemma of_chars_boundary cs : Forall (fun c => scalar c = true) cs -> char_boundary (of_chars cs) = true.
Proof.
  destruct 1 as [|c cs Hc%scalar_bound _]; [done|]. cbn [of_chars]. unfold push_char, char_boundary.
  use_digits c. repeat case_match; rewrite ?N.ltb_lt, ?N.ltb_ge in *; simplify_eq;
    rewrite N_of_byte by lia; apply negb_true_iff, andb_false_iff; rewrite !N.leb_gt; lia.
Qed.

Lemma range_prefix prefix key :
  match prefix with Some p => valid_text p | None => True end -> valid_text key ->
  if_given prefix (fun p => in_prefix_range p key) = true ->
  exists rest, key = unwrap_or_empty prefix +:+ rest /\ char_boundary rest = true.
Proof.
  intros Hp (ks & Hks & ->) Hr. destruct prefix as [p|]; cbn in *.
  - destruct Hp as (cs & Hcs & ->). apply in_prefix_range_chars in Hr as [rs ->]; [|done..].
    apply Forall_app in Hks as [_ Hrs]. exists (of_chars rs). split; [|by apply of_chars_boundary].
    rewrite of_chars_app. clear. induction cs as [|c cs IH]; cbn; [done|]. by rewrite IH.
  - exists (of_chars ks). split; [done|by apply of_chars_boundary].
Qed.

Section objects.
Context (bucket : string) (prefix : option string) (s : MetaStore).
Hypothesis Hs : rows_ok (ms_objects s).
Hypothesis Hprefix : match prefix with Some p => valid_text p | None => True end.
Hypothesis Htext : text_keys s.

(** The objects under the prefix after [sa], in order. *)
Definition objects_from (sa : option string) : list ObjectRecord :=
  sorted_by (cmp_on o_key String.compare) (listing s (objects_of bucket prefix) sa).

Lemma objects_after m : objects_from (Some m) = filter (fun r => String.ltb m (o_key r) = true) (objects_from None).
Proof.
  unfold objects_from. rewrite <- (sorted_by_filter _) by (eapply listing_strict; [exact Hs|apply objects_of_latest]).
  f_equal. unfold listing. apply rows_where_filter. intros i x Hi. unfold listed, compose.
  replace (o_key (without_parts (row_rec x))) with (o_key (row_rec x)) by (by destruct (row_rec x)).
  cbn. naive_solver.
Qed.

Lemma objects_sorted : StronglySorted (fun a b => String.ltb (o_key b) (o_key a) = false) (objects_from None).
Proof.
  eapply StronglySorted_weaken; [|apply (sorted_by_sorted (cmp_on o_key String.compare))].
  intros a b Hab. by apply string_compare_le.
Qed.

Lemma objects_prefix r :
  r ∈ objects_from None -> exists rest, o_key r = unwrap_or_empty prefix +:+ rest /\ char_boundary rest = true.
Proof.
  unfold objects_from. rewrite elem_of_sorted_by. intros (x & -> & [Hx [i Hi]]%elem_of_rows_where)%list_elem_of_fmap.
  destruct Hx as [(_ & _ & _ & Hr) _]. unfold compose.
  replace (o_key (without_parts (row_rec x))) with (o_key (row_rec x)) by (by destruct (row_rec x)).
  apply range_prefix; [done|by apply (Htext i)|done].
Qed.

Lemma list_objects_from sa n : list_objects bucket prefix sa (Z.of_nat n) s = take n (objects_from sa).
Proof. rewrite list_objects_listing. unfold limit. by rewrite Nat2Z.id. Qed.

Lemma objects_resume sa a r b : objects_from sa = a ++ r :: b -> objects_from (Some (o_key r)) = b.
Proof. unfold objects_from. eapply listing_rest; [exact Hs|apply objects_of_latest]. Qed.

#[export] Instance objects_listing start_after :
  Listing (unwrap_or_empty prefix) (fun from =>
    Ok (list_objects bucket prefix
          (match from with Start => start_after | After last => Some (o_key last) | PastPrefix cp => Some (past_prefix cp) end)
          (Z.of_nat LIST_BATCH) s)) (objects_from None) (objects_from start_after).
Proof.
  split.
  - destruct start_after as [m|]; [|done]. rewrite objects_after.
    destruct (sorted_past_suffix m (objects_from None) objects_sorted) as (kept & Hk & _). by exists kept.
  - apply objects_sorted.
  - apply objects_prefix.
  - by rewrite list_objects_from.
  - intros a r b Hsplit. rewrite list_objects_from. by rewrite (objects_resume start_after a r b).
  - intros cp. by rewrite list_objects_from, objects_after.
Qed.
End objects.

Section versions.
Context (bucket : string) (prefix : option string) (s : MetaStore).
Hypothesis Hs : rows_ok (ms_objects s).
Hypothesis Hids : forall i x, ms_objects s !! i = Some x ->
  o_version_id (row_rec x) <> Some EmptyString /\ o_key (row_rec x) <> EmptyString.
Hypothesis Hprefix : match prefix with Some p => valid_text p | None => True end.
Hypothesis Htext : text_keys s.

(** The versions under the prefix after a marker, in order. *)
Definition versions_from (km : option string) (after : option VersionPosition) : list ObjectRecord :=
  sorted_by version_order (version_listing bucket prefix s km after).

Lemma past_without_parts km after r : past km after (without_parts r) = past km after r.
Proof. by destruct r. Qed.

Lemma versions_after km after :
  versions_from km after = filter (fun r => past km after r = true) (versions_from None None).
Proof.
  unfold versions_from. rewrite <- (sorted_by_filter _) by (by apply version_listing_strict). f_equal.
  unfold version_listing. apply rows_where_filter. intros i x Hi. unfold version_listed, compose.
  rewrite past_without_parts. cbn. naive_solver.
Qed.

Lemma versions_strict km after : StronglySorted (fun a b => version_order a b = Lt) (versions_from km after).
Proof. apply sorted_strict; [apply _|by apply version_listing_NoDup|by apply version_listing_strict]. Qed.

Lemma versions_sorted : StronglySorted (fun a b => String.ltb (o_key b) (o_key a) = false) (versions_from None None).
Proof.
  eapply StronglySorted_weaken; [|apply versions_strict]. intros a b [Hlt|[-> _]]%version_order_Lt.
  - by apply string_ltb_asym.
  - apply string_ltb_irrefl.
Qed.

Lemma versions_prefix r :
  r ∈ versions_from None None -> exists rest, o_key r = unwrap_or_empty prefix +:+ rest /\ char_boundary rest = true.
Proof.
  unfold versions_from. rewrite elem_of_sorted_by. intros (x & -> & [Hx [i Hi]]%elem_of_rows_where)%list_elem_of_fmap.
  destruct Hx as (_ & _ & Hr & _). unfold compose.
  replace (o_key (without_parts (row_rec x))) with (o_key (row_rec x)) by (by destruct (row_rec x)).
  apply range_prefix; [done|by apply (Htext i)|done].
Qed.

Lemma list_versions_from km after n :
  list_object_versions_from bucket prefix km after (Z.of_nat n) s = take n (versions_from km after).
Proof. unfold list_object_versions_from, limit. rewrite Nat2Z.id. done. Qed.

Lemma versions_resume km after a r b :
  versions_from km after = a ++ r :: b -> versions_from (Some (o_key r)) (Some (position_of r)) = b.
Proof.
  intros Hsplit. unfold versions_from. rewrite (version_listing_resume bucket prefix s Hids km after r).
  - rewrite (sorted_by_filter _) by (by apply version_listing_strict). fold (versions_from km after). rewrite Hsplit.
    apply filter_after; [apply _|..]; rewrite <- Hsplit; unfold versions_from.
    + rewrite sorted_by_perm. by apply version_listing_NoDup.
    + intros x y. rewrite !elem_of_sorted_by. by apply version_listing_strict.
    + apply (sorted_by_sorted version_order).
  - rewrite <- (elem_of_sorted_by version_order). fold (versions_from km after). rewrite Hsplit. set_solver.
Qed.

(** Where a request with markers starts. *)
Definition start_position (key_marker version_id_marker : option string) : option string * option VersionPosition :=
  let km := key_marker ≫= (fun km => if bool_decide (km = EmptyString) then None else Some km) in
  (km, match km, version_id_marker with
       | Some km, Some vm =>
           match get_object_version bucket km vm s with
           | Some marker => Some (position_of marker)
           | None => Some key_start
           end
       | _, _ => None
       end).

Definition versions_requested (key_marker version_id_marker : option string) : list ObjectRecord :=
  let '(km, after) := start_position key_marker version_id_marker in versions_from km after.

Lemma versions_listing key_marker version_id_marker :
  Listing (unwrap_or_empty prefix) (versions_fetch bucket prefix key_marker version_id_marker s)
    (versions_from None None) (versions_requested key_marker version_id_marker).
Proof.
  unfold versions_requested. destruct (start_position key_marker version_id_marker) as [km after] eqn:E. split.
  - rewrite versions_after.
    destruct (sorted_filter_suffix (fun a b => version_order a b = Lt) (fun r => past km after r = true)
      (versions_from None None)) as (kept & Hk & _); [|apply versions_strict|by exists kept].
    intros a b Hab Ha. by apply (past_trans km after a b).
  - apply versions_sorted.
  - apply versions_prefix.
  - unfold versions_fetch, list_object_versions. injection E as <- <-. by rewrite list_versions_from.
  - intros a r b Hsplit. unfold versions_fetch. rewrite list_versions_from. by rewrite (versions_resume km after a r b).
  - intros cp. unfold versions_fetch. rewrite list_versions_from, versions_after. do 3 f_equal. unfold past. cbn [mbind option_bind].
    assert (past_prefix cp <> EmptyString) as Hne by by destruct cp.
    by rewrite bool_decide_false.
Qed.
End versions.

(** ** Clients *)

(** A client that asks for the next page, after the key or the common prefix
    the last one ended on, until a page is not truncated. *)
Fixpoint list_all_pages (pages fuel : nat) (bucket : string) (prefix : option string) (delim : string)
    (marker : option string) (max_keys : Z) (s : MetaStore) : option (outcome ArcaError (list Listed)) :=
  match pages with
  | 0 => None
  | S pages' =>
      match list_objects_delimited fuel bucket prefix delim marker max_keys s with
      | Some (Ok page) =>
          match dp_truncated page, last (dp_items page) with
          | true, Some i =>
              match list_all_pages pages' fuel bucket prefix delim (Some (listed_key i)) max_keys s with
              | Some (Ok rest) => Some (Ok (dp_items page ++ rest))
              | r => r
              end
          | _, _ => Some (Ok (dp_items page))
          end
      | Some (Err e) => Some (Err e)
      | Some Panic => Some Panic
      | None => None
      end
  end.

(** The whole grouped listing of a bucket. *)
Definition all_items (bucket : string) (prefix : option string) (delim : string) (s : MetaStore) : list Listed :=
  grouped (unwrap_or_empty prefix) delim (objects_from bucket prefix s None).

Definition item_after (marker : option string) (i : Listed) : Prop :=
  match marker with Some m => String.ltb m (listed_key i) = true | None => True end.

#[export] Instance item_after_dec marker i : Decision (item_after marker i).
Proof. destruct marker; cbn; apply _. Defined.

Section clients.
Context (bucket : string) (prefix : option string) (delim : string) (s : MetaStore).
Hypothesis Hs : rows_ok (ms_objects s).
Hypothesis Hprefix : match prefix with Some p => valid_text p | None => True end.
Hypothesis Htext : text_keys s.
Hypothesis Hfew : few_past (unwrap_or_empty prefix) delim (objects_from bucket prefix s None).

Abbreviation full := (objects_from bucket prefix s None).
Abbreviation all := (all_items bucket prefix delim s).

Lemma objects_strict : StronglySorted (fun a b => String.ltb (o_key a) (o_key b) = true) full.
Proof.
  eapply StronglySorted_weaken; [|apply sorted_strict; [apply _|eapply listing_NoDup|eapply listing_strict]; (exact Hs || apply objects_of_latest)].
  intros a b. by apply string_compare_Lt.
Qed.

Lemma all_sorted : StronglySorted (fun a b => String.ltb (listed_key a) (listed_key b) = true) all.
Proof. apply grouped_sorted; [by apply objects_prefix|apply objects_strict]. Qed.

(** A request returns the first items after its marker. *)
Lemma delimited_page marker max_keys fuel :
  (0 <= max_keys)%Z -> length full < fuel ->
  list_objects_delimited fuel bucket prefix delim marker max_keys s =
  Some (Ok (page_of max_keys (filter (item_after marker) all))).
Proof.
  intros Hmax Hfuel. unfold list_objects_delimited.
  pose proof (objects_listing bucket prefix s Hs Hprefix Htext marker) as HL.
  rewrite (delimited_ends (unwrap_or_empty prefix) delim marker max_keys _ full (objects_from bucket prefix s marker) fuel HL); [|done..|].
  - do 3 f_equal. destruct marker as [m|].
    + rewrite objects_after by done. apply items_after_all; [by apply objects_prefix|apply objects_strict].
    + rewrite (list_filter_all (item_after None)) by done. unfold items_after.
      by rewrite list_filter_all by (by intros [] _).
  - destruct (listing_suffix (Listing := HL)) as [before Hb]. apply (f_equal length) in Hb.
    rewrite length_app in Hb. lia.
Qed.

Lemma filter_item_after a i b : all = a ++ i :: b -> filter (item_after (Some (listed_key i))) all = b.
Proof.
  intros Hall. pose proof all_sorted as Hsort. rewrite Hall in *.
  pose proof (StronglySorted_app_1_r _ _ _ Hsort) as Hb. apply StronglySorted_inv in Hb as [_ Hb].
  rewrite filter_app, filter_cons_False by (cbn; by rewrite string_ltb_irrefl).
  rewrite (list_filter_none _ a), (list_filter_all _ b); [done| |].
  - intros x Hx. rewrite Forall_forall in Hb. by apply Hb.
  - intros x Hx. cbn. rewrite (string_ltb_asym (listed_key x) (listed_key i)); [done|].
    apply (StronglySorted_app_1_elem_of _ _ _ x i Hsort Hx). by left.
Qed.

Lemma all_pages_from marker max_keys fuel pages rest before :
  (1 <= max_keys)%Z -> length full < fuel -> all = before ++ rest -> filter (item_after marker) all = rest ->
  length rest < pages ->
  list_all_pages pages fuel bucket prefix delim marker max_keys s = Some (Ok rest).
Proof.
  intros Hmax Hfuel. revert marker rest before. induction pages as [|pages IH]; intros marker rest before Hall Hrest Hpages; [lia|].
  cbn [list_all_pages]. rewrite delimited_page, Hrest by (lia || done). unfold page_of. cbn [dp_truncated dp_items].
  destruct (Z.ltb_spec max_keys (Z.of_nat (length rest))) as [Hmore|Hend]; [|by rewrite take_ge by lia].
  set (k := Z.to_nat max_keys). pose proof (firstn_skipn k rest) as Hsplit.
  destruct (take k rest) as [|i l _] eqn:Et using rev_ind.
  { apply (f_equal length) in Et. rewrite length_take in Et. cbn in Et. lia. }
  rewrite last_snoc.
  assert (all = (before ++ l) ++ i :: drop k rest) as Hall'.
  { rewrite Hall. rewrite <- Hsplit at 1. by rewrite <- !app_assoc. }
  rewrite (IH (Some (listed_key i)) (drop k rest) ((before ++ l) ++ [i])).
  - by rewrite Hsplit.
  - by rewrite <- app_assoc.
  - by apply (filter_item_after (before ++ l)).
  - rewrite length_drop. lia.
Qed.
End clients.

(** C25. A client that pages through a delimited listing gets all of it.  If the
    keys and the prefix are valid text and no group has [LIST_BATCH] keys that
    continue the common prefix with the last character (U+10FFFF), the
    requests of a client that follows the markers, with any page size of at
    least one, all end and together return the grouped listing of the objects
    under the prefix: every object and every common prefix once, in order. *)
Theorem delimited_pages_complete (bucket : string) (prefix : option string) (delim : string) (max_keys : Z)
    (s : MetaStore) (pages fuel : nat) :
  rows_ok (ms_objects s) -> match prefix with Some p => valid_text p | None => True end -> text_keys s ->
  few_past (unwrap_or_empty prefix) delim (objects_from bucket prefix s None) ->
  (1 <= max_keys)%Z -> length (objects_from bucket prefix s None) < fuel ->
  length (all_items bucket prefix delim s) < pages ->
  list_all_pages pages fuel bucket prefix delim None max_keys s = Some (Ok (all_items bucket prefix delim s)).
Proof.
  intros Hs Hp Ht Hfew Hmax Hfuel Hpages. eapply (all_pages_from bucket prefix delim s) with (before := []); try done.
  by apply list_filter_all.
Qed.

(** A grouped listing of versions ends with the right page.  From any key
    and version marker, the page holds the first [max_keys] items, versions and
    common prefixes, of the versions after the marker, and names the next
    marker when there are more. *)
Theorem list_versions_grouped_exact (bucket : string) (prefix : option string) (delim : string)
    (key_marker version_id_marker : option string) (max_keys : Z) (s : MetaStore) (fuel : nat) :
  rows_ok (ms_objects s) ->
  (forall i y, ms_objects s !! i = Some y ->
     o_version_id (row_rec y) <> Some EmptyString /\ o_key (row_rec y) <> EmptyString) ->
  match prefix with Some p => valid_text p | None => True end -> text_keys s ->
  few_past (unwrap_or_empty prefix) delim (versions_from bucket prefix s None None) ->
  (0 <= max_keys)%Z -> length (versions_requested bucket prefix s key_marker version_id_marker) < fuel ->
  list_versions_grouped fuel bucket prefix delim key_marker version_id_marker max_keys s =
  Some (Ok (versions_page (page_of max_keys
    (items_after (unwrap_or_empty prefix) delim key_marker
       (versions_requested bucket prefix s key_marker version_id_marker))))).
Proof.
  intros Hs Hids Hp Ht Hfew Hmax Hfuel. unfold list_versions_grouped.
  rewrite (delimited_ends _ delim key_marker max_keys _ _ _ fuel
    (versions_listing bucket prefix s Hs Hids Hp Ht key_marker version_id_marker)) by done.
  reflexivity.
Qed.

(** Decides that the keys are text, from their characters. *)
Lemma text_keys_check s :
  forallb (fun e : N * ObjRow => let key := o_key (row_rec e.2) in
    forallb scalar (chars key) && bool_decide (key = of_chars (chars key))) (map_to_list (ms_objects s)) = true ->
  text_keys s.
Proof.
  intros H i x Hi. rewrite forallb_forall in H. specialize (H (i, x)).
  rewrite <- list_elem_of_In, elem_of_map_to_list in H. specialize (H Hi). cbn in H.
  apply andb_true_iff in H as [Hs Hk%bool_decide_eq_true]. exists (chars (o_key (row_rec x))). split; [|done].
  rewrite Forall_forall. intros c Hc. rewrite forallb_forall in Hs. apply Hs. by apply list_elem_of_In.
Qed.

Lemma delimited_pages_complete_witness :
  list_all_pages 3 3 "bucket" None "e" None 1 sample_two = Some (Ok [Prefix_ "ke"; Prefix_ "ze"]).
Proof.
  rewrite (delimited_pages_complete "bucket" None "e" 1 sample_two 3 3); [by vm_compute| | | | |lia|apply Nat.ltb_lt; by vm_compute..].
  - apply sample_two_ok.
  - done.
  - apply text_keys_check. by vm_compute.
  - intros cp. eapply Nat.le_lt_trans; [apply length_filter|]. apply Nat.ltb_lt. by vm_compute.
Defined.

Lemma list_versions_grouped_exact_witness :
  list_versions_grouped 3 "bucket" None "/" (Some "key") (Some "v2") 5 sample_deleted =
  Some (Ok {| vg_entries := take 1 (drop 1 (versions_from "bucket" None sample_deleted None None));
              vg_common_prefixes := []; vg_next := None |}).
Proof.
  rewrite (list_versions_grouped_exact "bucket" None "/" (Some "key") (Some "v2") 5 sample_deleted 3);
    [by vm_compute| | | | | |lia|apply Nat.ltb_lt; by vm_compute].
  - apply sample_deleted_rows_ok.
  - apply sample_deleted_ids.
  - done.
  - apply text_keys_check. by vm_compute.
  - intros cp. eapply Nat.le_lt_trans; [apply length_filter|]. apply Nat.ltb_lt. by vm_compute.
Defined.
