(* ===== verification/Authorize.v ===== *)
(** Authorization of a request: [crates/arca-proto/src/authorize.rs] and the
    identity of [crates/arca-proto/src/middleware/identity.rs].

    The decision for a request of an authenticated user, the resource names
    it is asked about, and two facts: who is let through, and a request that
    an explicit [Deny] on a whole prefix fails to stop. *)

From S2P Require Import Prelude S3Errors Policy Types.

Record AuthenticatedIdentity : Type := {
  id_credential : Credential;
  id_user : User;
  id_effective_policies : list PolicyDocument;
}.

Definition is_root (self : AuthenticatedIdentity) : bool := u_is_root (id_user self).

Definition authorize (identity : AuthenticatedIdentity) (action resource : string)
  : outcome S3Error unit :=
  if is_root identity then Ok tt
  else
    match evaluate_grants (id_effective_policies identity) action resource with
    | Allow => Ok tt
    | Deny | NoMatch => Err (S3Error_new AccessDenied resource)
    end.

Definition bucket_arn (bucket : string) : string := "arn:aws:s3:::" +:+ bucket.

Definition object_arn (bucket key : string) : string :=
  "arn:aws:s3:::" +:+ bucket +:+ "/" +:+ key.

(** [authorize] lets a request through exactly when the user is root, or
    no statement of the user's policies denies it and some statement allows
    it; every other request is answered with AccessDenied (HTTP 403). *)
Theorem authorize_spec (identity : AuthenticatedIdentity) (action resource : string) :
  let policies := id_effective_policies identity in
  (authorize identity action resource = Ok tt <->
     is_root identity = true
     \/ (~ some_statement policies action resource Deny
         /\ some_statement policies action resource Allow))
  /\ (authorize identity action resource <> Ok tt ->
        exists e, authorize identity action resource = Err e
          /\ http_status (err_code e) = 403%Z /\ err_resource e = resource).
Proof.
  intros policies. unfold authorize. destruct (is_root identity) eqn:Hr.
  { split; [split; auto|done]. }
  fold policies. split.
  - rewrite <- evaluate_grants_Allow. destruct (evaluate_grants policies action resource);
      split; try done; auto; intros [?|?]; done.
  - destruct (evaluate_grants policies action resource); intros; try done; eexists; done.
Qed.

(** *** A denied prefix *)

Definition sample_user (root : bool) : User :=
  {| u_user_id := "u1"; u_username := "alice"; u_description := ""; u_is_root := root;
     u_created_at := 0 |}.

Definition sample_credential : Credential :=
  {| cr_access_key_id := "AK"; cr_secret_access_key := "SK"; cr_description := "";
     cr_created_at := 0; cr_active := true; cr_user_id := "u1" |}.

(** A user who may do everything except touch [bucket/*]. *)
Definition denied_prefix_policy (bucket : string) : PolicyDocument :=
  {| doc_version := "2012-10-17";
     doc_statement := [
       {| st_sid := None; st_effect := EffAllow; st_action := ["*"]; st_resource := ["*"] |};
       {| st_sid := None; st_effect := EffDeny; st_action := ["s3:*"];
          st_resource := ["arn:aws:s3:::" +:+ bucket +:+ "/*"] |}] |}.

Definition denied_prefix_identity (bucket : string) : AuthenticatedIdentity :=
  {| id_credential := sample_credential; id_user := sample_user false;
     id_effective_policies := [denied_prefix_policy bucket] |}.

(** An explicit [Deny] on every object of a bucket does not stop requests
    for keys that start with [*]: with a valid policy that denies [s3:*] on
    [secret/*], GetObject of an ordinary key of the bucket is refused and
    GetObject of [*report] goes through. *)
Theorem authorize_deny_bypass :
  validate_policy_document (denied_prefix_policy "secret") = []
  /\ authorize (denied_prefix_identity "secret") "s3:GetObject" (object_arn "secret" "report")
     = Err (S3Error_new AccessDenied "arn:aws:s3:::secret/report")
  /\ authorize (denied_prefix_identity "secret") "s3:GetObject" (object_arn "secret" "*report")
     = Ok tt.
Proof. vm_compute. done. Qed.
