(* ===== verification/ControlMerge.v ===== *)
(** Control-plane reconciliation: [plan_control_merge] of
    [crates/arca-core/src/cluster.rs] with the tombstones of
    [crates/arca-core/src/store/control_tombstone.rs].

    Each node holds a snapshot of its control plane (identities, buckets,
    attachments, configuration, uploads) and a list of deletion tombstones.
    [plan_control_merge] compares the local snapshot with a peer's, key by key,
    and lists the local writes that make the two converge; the newest event for
    a key wins.  Families are merged by one generic definition instantiated
    once per block of the source; [HashMap]s are finite maps and the iteration
    order of a [HashSet] is the one of [elements].  chrono's
    [DateTime::<Utc>::MIN_UTC] is a parameter, [MIN_UTC]. *)

From stdpp Require Import pretty.
From S2P Require Import Prelude Policy Types.

(** ** Tombstones *)

Record ControlTombstone : Type := {
  ct_entity_type : string;
  ct_entity_key : string;
  ct_deleted_at : Z;
}.

Definition TOMBSTONE_CREDENTIAL : string := "credential".
Definition TOMBSTONE_USER : string := "user".
Definition TOMBSTONE_TEAM : string := "team".
Definition TOMBSTONE_GRANT : string := "grant".
Definition TOMBSTONE_BUCKET : string := "bucket".
Definition TOMBSTONE_USER_GRANT : string := "user_grant".
Definition TOMBSTONE_TEAM_GRANT : string := "team_grant".
Definition TOMBSTONE_TEAM_MEMBER : string := "team_member".
Definition TOMBSTONE_BUCKET_CONFIG : string := "bucket_config".
Definition TOMBSTONE_BUCKET_TAGS : string := "bucket_tags".
Definition TOMBSTONE_SERVER_CONFIG : string := "server_config".
Definition TOMBSTONE_MULTIPART : string := "multipart".

(** ** Keys *)

Definition NODE_ID_KEY : string := "node_id".

Definition is_node_local_server_config_key (key : string) : bool :=
  bool_decide (key = NODE_ID_KEY).

Definition pair_key (a b : string) : string := a +:+ ":" +:+ b.

(** ** Snapshots *)

Record TimestampedCredential : Type := {
  tc_credential : Credential;
  tc_updated_at : Z;
}.

Record TimestampedUser : Type := {
  tu_user : User;
  tu_updated_at : Z;
}.

Record TimestampedTeam : Type := {
  tt_team : Team;
  tt_updated_at : Z;
}.

Record TimestampedUserGrant : Type := {
  ug_user_id : string;
  ug_grant_id : string;
  ug_updated_at : Z;
}.

Record TimestampedTeamGrant : Type := {
  tg_team_id : string;
  tg_grant_id : string;
  tg_updated_at : Z;
}.

Record TimestampedTeamMember : Type := {
  tmm_team_id : string;
  tmm_user_id : string;
  tmm_updated_at : Z;
}.

Record TimestampedBucketConfig : Type := {
  bc_bucket : string;
  bc_key : string;
  bc_value : string;
  bc_updated_at : Z;
}.

Record TimestampedBucketTags : Type := {
  bt_bucket : string;
  bt_tags : list (string * string);
  bt_updated_at : Z;
}.

Record TimestampedServerConfig : Type := {
  sc_key : string;
  sc_value : string;
  sc_updated_at : Z;
}.

Record ControlSnapshot : Type := {
  cs_credentials : list TimestampedCredential;
  cs_users : list TimestampedUser;
  cs_teams : list TimestampedTeam;
  cs_grants : list Grant;
  cs_buckets : list BucketInfo;
  cs_tombstones : list ControlTombstone;
  cs_user_grants : list TimestampedUserGrant;
  cs_team_grants : list TimestampedTeamGrant;
  cs_team_members : list TimestampedTeamMember;
  cs_bucket_configs : list TimestampedBucketConfig;
  cs_bucket_tags : list TimestampedBucketTags;
  cs_server_configs : list TimestampedServerConfig;
  cs_multipart_uploads : list MultipartUploadRecord;
  cs_parts : list PartRecord;
}.

Record ControlMergePlan : Type := {
  upsert_credentials : list TimestampedCredential;
  upsert_users : list TimestampedUser;
  upsert_teams : list TimestampedTeam;
  upsert_grants : list Grant;
  upsert_buckets : list BucketInfo;
  delete_credentials : list string;
  delete_users : list string;
  delete_teams : list string;
  delete_grants : list string;
  delete_buckets : list string;
  upsert_user_grants : list TimestampedUserGrant;
  upsert_team_grants : list TimestampedTeamGrant;
  upsert_team_members : list TimestampedTeamMember;
  upsert_bucket_configs : list TimestampedBucketConfig;
  upsert_bucket_tags : list TimestampedBucketTags;
  upsert_server_configs : list TimestampedServerConfig;
  upsert_multipart_uploads : list MultipartUploadRecord;
  upsert_parts : list PartRecord;
  delete_user_grants : list (string * string);
  delete_team_grants : list (string * string);
  delete_team_members : list (string * string);
  delete_bucket_configs : list (string * string);
  delete_bucket_tags : list string;
  delete_server_configs : list string;
  delete_multipart_uploads : list string;
  adopt_tombstones : list ControlTombstone;
  clear_tombstones : list ControlTombstone;
}.

(** [ControlMergePlan::is_empty]. *)
Definition is_empty (p : ControlMergePlan) : bool :=
  is_nil (upsert_credentials p) && is_nil (upsert_users p) && is_nil (upsert_teams p)
  && is_nil (upsert_grants p) && is_nil (upsert_buckets p) && is_nil (upsert_user_grants p)
  && is_nil (upsert_team_grants p) && is_nil (upsert_team_members p)
  && is_nil (upsert_bucket_configs p) && is_nil (upsert_bucket_tags p)
  && is_nil (upsert_server_configs p) && is_nil (upsert_multipart_uploads p)
  && is_nil (upsert_parts p) && is_nil (delete_credentials p) && is_nil (delete_users p)
  && is_nil (delete_teams p) && is_nil (delete_grants p) && is_nil (delete_buckets p)
  && is_nil (delete_user_grants p) && is_nil (delete_team_grants p)
  && is_nil (delete_team_members p) && is_nil (delete_bucket_configs p)
  && is_nil (delete_bucket_tags p) && is_nil (delete_server_configs p)
  && is_nil (delete_multipart_uploads p) && is_nil (adopt_tombstones p)
  && is_nil (clear_tombstones p).

(** ** Resolution of one key *)

Record KeyResolution : Type := {
  kr_alive : bool;
  kr_upsert_from_remote : bool;
  kr_delete_local : bool;
  kr_adopt_tombstone_at : option Z;
  kr_clear_tombstone : bool;
}.

(** [\[a, b\].into_iter().flatten().max()]. *)
Definition max_opt (a b : option Z) : option Z :=
  match a, b with
  | Some x, Some y => Some (Z.max x y)
  | Some x, None | None, Some x => Some x
  | None, None => None
  end.

Definition resolve_key (local_alive local_dead remote_alive remote_dead : option Z)
  : KeyResolution :=
  let global_alive := max_opt local_alive remote_alive in
  let global_dead := max_opt local_dead remote_dead in
  let dead :=
    match global_alive, global_dead with
    | Some a, Some d => (a <? d)%Z
    | None, Some _ => true
    | _, _ => false
    end in
  if dead then
    {| kr_alive := false;
       kr_upsert_from_remote := false;
       kr_delete_local := is_some local_alive;
       kr_adopt_tombstone_at := if opt_gtb global_dead local_dead then global_dead else None;
       kr_clear_tombstone := false |}
  else
    {| kr_alive := is_some local_alive || is_some remote_alive;
       kr_upsert_from_remote :=
         match remote_alive, local_alive with
         | Some r, Some l => (l <? r)%Z
         | Some _, None => true
         | _, _ => false
         end;
       kr_delete_local := false;
       kr_adopt_tombstone_at := None;
       kr_clear_tombstone := is_some local_dead |}.

(** ** Maps *)

(** [iter().collect::<HashMap<_, _>>()]: a later entry replaces an earlier one. *)
Definition hm_collect {V : Type} (l : list (string * V)) : gmap string V :=
  foldl (fun m kv => <[kv.1 := kv.2]> m) ∅ l.

Definition tombstone_map (tombstones : list ControlTombstone) (entity_type : string)
  : gmap string Z :=
  hm_collect ((fun t => (ct_entity_key t, ct_deleted_at t))
    <$> filter (fun t => ct_entity_type t = entity_type) tombstones).

Definition union_keys {A B C D : Type} (local_alive : gmap string A) (remote_alive : gmap string B)
    (local_dead : gmap string C) (remote_dead : gmap string D) : list string :=
  elements (dom local_alive ∪ dom remote_alive ∪ dom local_dead ∪ dom remote_dead : gset string).

(** ** One family

    What a block of [plan_control_merge] contributes to the plan, and the keys
    it leaves alive for the blocks of the child families. *)

Record FamilyPlan (A D : Type) : Type := {
  fp_upsert : list A;
  fp_delete : list D;
  fp_adopt : list ControlTombstone;
  fp_clear : list ControlTombstone;
  fp_alive : gset string;
}.
Arguments fp_upsert {A D} _.
Arguments fp_delete {A D} _.
Arguments fp_adopt {A D} _.
Arguments fp_clear {A D} _.
Arguments fp_alive {A D} _.

Section merge.
Context (MIN_UTC : Z).

(** [apply_tombstone_actions]: the adopt and the clear of one key. *)
Definition tombstone_adopt (entity_type key : string) (res : KeyResolution)
  : list ControlTombstone :=
  match kr_adopt_tombstone_at res with
  | Some deleted_at =>
      [{| ct_entity_type := entity_type; ct_entity_key := key; ct_deleted_at := deleted_at |}]
  | None => []
  end.

Definition tombstone_clear (entity_type key : string) (res : KeyResolution)
  : list ControlTombstone :=
  if kr_clear_tombstone res
  then [{| ct_entity_type := entity_type; ct_entity_key := key; ct_deleted_at := MIN_UTC |}]
  else [].

Section family.
Context {A D : Type}.
(** The key of an entity, its alive timestamp, the parent filter of an
    upsert, and how a deletion names the local entity. *)
Context (entity_type : string) (key : A -> string) (ts : A -> Z)
  (keep : A -> bool) (del : string -> A -> D).

Definition alive_map (l : list A) : gmap string A := hm_collect ((fun x => (key x, x)) <$> l).

Definition family_resolution (local remote : gmap string A) (l_dead r_dead : gmap string Z)
    (k : string) : KeyResolution :=
  resolve_key (ts <$> local !! k) (l_dead !! k) (ts <$> remote !! k) (r_dead !! k).

(** The loop over the keys: each key pushes to the plan. *)
Definition merge_keys (l_alive r_alive : gmap string A) (l_dead r_dead : gmap string Z)
    (keys : list string) : FamilyPlan A D :=
  let res := family_resolution l_alive r_alive l_dead r_dead in
  {| fp_upsert :=
       keys ≫= (fun k => if kr_upsert_from_remote (res k)
                         then match r_alive !! k with
                              | Some x => if keep x then [x] else []
                              | None => []
                              end
                         else []);
     fp_delete :=
       keys ≫= (fun k => if kr_delete_local (res k)
                         then match l_alive !! k with
                              | Some x => [del k x]
                              | None => []
                              end
                         else []);
     fp_adopt := keys ≫= (fun k => tombstone_adopt entity_type k (res k));
     fp_clear := keys ≫= (fun k => tombstone_clear entity_type k (res k));
     fp_alive := list_to_set (List.filter (fun k => kr_alive (res k)) keys) |}.

Definition merge_family (local remote : list A) (l_tombs r_tombs : list ControlTombstone)
  : FamilyPlan A D :=
  let l_alive := alive_map local in
  let r_alive := alive_map remote in
  let l_dead := tombstone_map l_tombs entity_type in
  let r_dead := tombstone_map r_tombs entity_type in
  merge_keys l_alive r_alive l_dead r_dead (union_keys l_alive r_alive l_dead r_dead).
End family.

(** ** The blocks of [plan_control_merge] *)

Definition no_parent {A : Type} (_ : A) : bool := true.
Definition by_key {A : Type} (k : string) (_ : A) : string := k.

Definition merge_credentials (local remote : ControlSnapshot) :=
  merge_family TOMBSTONE_CREDENTIAL (fun c => cr_access_key_id (tc_credential c)) tc_updated_at
    no_parent by_key (cs_credentials local) (cs_credentials remote)
    (cs_tombstones local) (cs_tombstones remote).

Definition merge_users (local remote : ControlSnapshot) :=
  merge_family TOMBSTONE_USER (fun u => u_user_id (tu_user u)) tu_updated_at
    no_parent by_key (cs_users local) (cs_users remote)
    (cs_tombstones local) (cs_tombstones remote).

Definition merge_teams (local remote : ControlSnapshot) :=
  merge_family TOMBSTONE_TEAM (fun t => tm_team_id (tt_team t)) tt_updated_at
    no_parent by_key (cs_teams local) (cs_teams remote)
    (cs_tombstones local) (cs_tombstones remote).

Definition merge_grants (local remote : ControlSnapshot) :=
  merge_family TOMBSTONE_GRANT gr_grant_id gr_updated_at
    no_parent by_key (cs_grants local) (cs_grants remote)
    (cs_tombstones local) (cs_tombstones remote).

Definition merge_buckets (local remote : ControlSnapshot) :=
  merge_family TOMBSTONE_BUCKET b_name b_created_at
    no_parent by_key (cs_buckets local) (cs_buckets remote)
    (cs_tombstones local) (cs_tombstones remote).

Definition merge_user_grants (alive_users alive_grants : gset string)
    (local remote : ControlSnapshot) :=
  merge_family TOMBSTONE_USER_GRANT (fun x => pair_key (ug_user_id x) (ug_grant_id x)) ug_updated_at
    (fun x => bool_decide (ug_user_id x ∈ alive_users) && bool_decide (ug_grant_id x ∈ alive_grants))
    (fun _ x => (ug_user_id x, ug_grant_id x))
    (cs_user_grants local) (cs_user_grants remote) (cs_tombstones local) (cs_tombstones remote).

Definition merge_team_grants (alive_teams alive_grants : gset string)
    (local remote : ControlSnapshot) :=
  merge_family TOMBSTONE_TEAM_GRANT (fun x => pair_key (tg_team_id x) (tg_grant_id x)) tg_updated_at
    (fun x => bool_decide (tg_team_id x ∈ alive_teams) && bool_decide (tg_grant_id x ∈ alive_grants))
    (fun _ x => (tg_team_id x, tg_grant_id x))
    (cs_team_grants local) (cs_team_grants remote) (cs_tombstones local) (cs_tombstones remote).

Definition merge_team_members (alive_teams alive_users : gset string)
    (local remote : ControlSnapshot) :=
  merge_family TOMBSTONE_TEAM_MEMBER (fun x => pair_key (tmm_team_id x) (tmm_user_id x))
    tmm_updated_at
    (fun x => bool_decide (tmm_team_id x ∈ alive_teams) && bool_decide (tmm_user_id x ∈ alive_users))
    (fun _ x => (tmm_team_id x, tmm_user_id x))
    (cs_team_members local) (cs_team_members remote) (cs_tombstones local) (cs_tombstones remote).

Definition merge_bucket_configs (alive_buckets : gset string) (local remote : ControlSnapshot) :=
  merge_family TOMBSTONE_BUCKET_CONFIG (fun x => pair_key (bc_bucket x) (bc_key x)) bc_updated_at
    (fun x => bool_decide (bc_bucket x ∈ alive_buckets))
    (fun _ x => (bc_bucket x, bc_key x))
    (cs_bucket_configs local) (cs_bucket_configs remote)
    (cs_tombstones local) (cs_tombstones remote).

Definition merge_bucket_tags (alive_buckets : gset string) (local remote : ControlSnapshot) :=
  merge_family TOMBSTONE_BUCKET_TAGS bt_bucket bt_updated_at
    (fun x => bool_decide (bt_bucket x ∈ alive_buckets)) by_key
    (cs_bucket_tags local) (cs_bucket_tags remote) (cs_tombstones local) (cs_tombstones remote).

(** Node-local keys are dropped from both snapshots and skipped in the loop. *)
Definition cluster_wide (l : list TimestampedServerConfig) : list TimestampedServerConfig :=
  List.filter (fun x => negb (is_node_local_server_config_key (sc_key x))) l.

Definition merge_server_configs (local remote : ControlSnapshot)
  : FamilyPlan TimestampedServerConfig string :=
  let l_alive := alive_map sc_key (cluster_wide (cs_server_configs local)) in
  let r_alive := alive_map sc_key (cluster_wide (cs_server_configs remote)) in
  let l_dead := tombstone_map (cs_tombstones local) TOMBSTONE_SERVER_CONFIG in
  let r_dead := tombstone_map (cs_tombstones remote) TOMBSTONE_SERVER_CONFIG in
  merge_keys TOMBSTONE_SERVER_CONFIG sc_updated_at no_parent by_key l_alive r_alive l_dead r_dead
    (List.filter (fun k => negb (is_node_local_server_config_key k))
       (union_keys l_alive r_alive l_dead r_dead)).

Definition merge_multipart_uploads (local remote : ControlSnapshot) :=
  merge_family TOMBSTONE_MULTIPART mu_upload_id mu_initiated_at
    no_parent by_key (cs_multipart_uploads local) (cs_multipart_uploads remote)
    (cs_tombstones local) (cs_tombstones remote).

Definition part_ts (p : PartRecord) : Z := default MIN_UTC (pt_last_modified p).

Definition part_key (p : PartRecord) : string :=
  pair_key (pt_upload_id p) (pretty (pt_part_number p)).

Definition merge_parts (alive_uploads : gset string) (local remote : ControlSnapshot)
  : list PartRecord :=
  let l_alive := alive_map part_key (cs_parts local) in
  List.filter (fun x =>
    (match l_alive !! part_key x with
     | None => true
     | Some l => (part_ts l <? part_ts x)%Z
     end) && bool_decide (pt_upload_id x ∈ alive_uploads)) (cs_parts remote).

Definition plan_control_merge (local remote : ControlSnapshot) : ControlMergePlan :=
  let credentials := merge_credentials local remote in
  let users := merge_users local remote in
  let teams := merge_teams local remote in
  let grants := merge_grants local remote in
  let buckets := merge_buckets local remote in
  let user_grants := merge_user_grants (fp_alive users) (fp_alive grants) local remote in
  let team_grants := merge_team_grants (fp_alive teams) (fp_alive grants) local remote in
  let team_members := merge_team_members (fp_alive teams) (fp_alive users) local remote in
  let bucket_configs := merge_bucket_configs (fp_alive buckets) local remote in
  let bucket_tags := merge_bucket_tags (fp_alive buckets) local remote in
  let server_configs := merge_server_configs local remote in
  let uploads := merge_multipart_uploads local remote in
  let parts := merge_parts (fp_alive uploads) local remote in
  {| upsert_credentials := fp_upsert credentials;
     upsert_users := fp_upsert users;
     upsert_teams := fp_upsert teams;
     upsert_grants := fp_upsert grants;
     upsert_buckets := fp_upsert buckets;
     delete_credentials := fp_delete credentials;
     delete_users := fp_delete users;
     delete_teams := fp_delete teams;
     delete_grants := fp_delete grants;
     delete_buckets := fp_delete buckets;
     upsert_user_grants := fp_upsert user_grants;
     upsert_team_grants := fp_upsert team_grants;
     upsert_team_members := fp_upsert team_members;
     upsert_bucket_configs := fp_upsert bucket_configs;
     upsert_bucket_tags := fp_upsert bucket_tags;
     upsert_server_configs := fp_upsert server_configs;
     upsert_multipart_uploads := fp_upsert uploads;
     upsert_parts := parts;
     delete_user_grants := fp_delete user_grants;
     delete_team_grants := fp_delete team_grants;
     delete_team_members := fp_delete team_members;
     delete_bucket_configs := fp_delete bucket_configs;
     delete_bucket_tags := fp_delete bucket_tags;
     delete_server_configs := fp_delete server_configs;
     delete_multipart_uploads := fp_delete uploads;
     adopt_tombstones :=
       fp_adopt credentials ++ fp_adopt users ++ fp_adopt teams ++ fp_adopt grants
       ++ fp_adopt buckets ++ fp_adopt user_grants ++ fp_adopt team_grants
       ++ fp_adopt team_members ++ fp_adopt bucket_configs ++ fp_adopt bucket_tags
       ++ fp_adopt server_configs ++ fp_adopt uploads;
     clear_tombstones :=
       fp_clear credentials ++ fp_clear users ++ fp_clear teams ++ fp_clear grants
       ++ fp_clear buckets ++ fp_clear user_grants ++ fp_clear team_grants
       ++ fp_clear team_members ++ fp_clear bucket_configs ++ fp_clear bucket_tags
       ++ fp_clear server_configs ++ fp_clear uploads |}.

End merge.

(** ** Abstract specification: one key is a last-writer-wins register

    For one key a node holds the time of the live entity, if any, and the time
    of its deletion, if any.  The newest of all known events wins; a tie
    between a write and a deletion keeps the entity. *)

Definition key_state : Type := option Z * option Z.

Definition settle (l r : key_state) : key_state :=
  let a := max_opt l.1 r.1 in
  let d := max_opt l.2 r.2 in
  if opt_gtb d a then (None, d) else (a, None).

(** What a node holds after carrying out the resolution of the key. *)
Definition carry_out (l r : key_state) : key_state :=
  let res := resolve_key l.1 l.2 r.1 r.2 in
  (if kr_upsert_from_remote res then r.1 else if kr_delete_local res then None else l.1,
   match kr_adopt_tombstone_at res with
   | Some t => Some t
   | None => if kr_clear_tombstone res then None else l.2
   end).

Ltac lww_solve :=
  repeat match goal with
  | |- context [(?a <? ?b)%Z] => destruct (Z.ltb_spec a b); simpl in *
  | H : context [(?a <? ?b)%Z] |- _ => destruct (Z.ltb_spec a b); simpl in *
  end;
  simpl in *; try done; try (exfalso; lia); repeat first [lia | f_equal].

Lemma resolve_key_refines l r : carry_out l r = settle l r.
Proof.
  destruct l as [[la|] [ld|]], r as [[ra|] [rd|]];
    unfold carry_out, settle, resolve_key; simpl; lww_solve.
Qed.

Lemma settle_comm l r : settle l r = settle r l.
Proof.
  destruct l as [[la|] [ld|]], r as [[ra|] [rd|]]; unfold settle; simpl; lww_solve.
Qed.

Lemma settle_assoc a b c : settle (settle a b) c = settle a (settle b c).
Proof.
  destruct a as [[aa|] [ad|]], b as [[ba|] [bd|]], c as [[ca|] [cd|]];
    unfold settle; simpl; lww_solve.
Qed.

Lemma settle_idem a b : settle (settle a b) b = settle a b.
Proof.
  destruct a as [[aa|] [ad|]], b as [[ba|] [bd|]]; unfold settle; simpl; lww_solve.
Qed.

(** Convergence of one key: carrying out [resolve_key]'s decision is the
    join of a semilattice on (alive time, deletion time) states.  So two nodes
    that resolve against each other agree, any number of nodes agree whatever
    the order and grouping of the exchanges, and repeating an exchange changes
    nothing. *)
Theorem resolve_key_converges (a b c : key_state) :
  carry_out a b = carry_out b a
  /\ carry_out (carry_out a b) c = carry_out a (carry_out b c)
  /\ carry_out (carry_out a b) b = carry_out a b.
Proof.
  rewrite !resolve_key_refines. split_and!;
    [apply settle_comm|apply settle_assoc|apply settle_idem].
Qed.

(** ** Maps and plans *)

Section hm.
Context {V : Type}.
Implicit Types (l : list (string * V)) (m : gmap string V).

Lemma hm_insert_lookup l m k v :
  foldl (fun m kv => <[kv.1 := kv.2]> m) m l !! k = Some v ->
  (k, v) ∈ l \/ (m !! k = Some v /\ k ∉ l.*1).
Proof.
  revert m; induction l as [|[k' v'] l IH]; intros m; simpl.
  - intros ?. right. split; [done|]. apply not_elem_of_nil.
  - intros [H|[H Hn]]%IH; [left; by right|].
    destruct (decide (k = k')) as [->|Hk].
    + rewrite lookup_insert_eq in H. injection H as ->. left. by left.
    + rewrite lookup_insert_ne in H by done. right. rewrite not_elem_of_cons. done.
Qed.

Lemma hm_collect_elem l k v : hm_collect l !! k = Some v -> (k, v) ∈ l.
Proof. intros [H|[H _]]%hm_insert_lookup; [done|]. by rewrite lookup_empty in H. Qed.

Lemma hm_collect_dom l : dom (hm_collect l) = list_to_set l.*1.
Proof.
  unfold hm_collect.
  enough (forall m, dom (foldl (fun m kv => <[kv.1 := kv.2]> m) m l)
                    = dom m ∪ list_to_set l.*1) as ->.
  { rewrite dom_empty_L. set_solver. }
  induction l as [|[k v] l IH]; intros m; simpl; [set_solver|].
  rewrite IH, dom_insert_L. set_solver.
Qed.

(** With distinct keys the map holds exactly the entries. *)
Lemma hm_collect_NoDup l k v : NoDup l.*1 -> hm_collect l !! k = Some v <-> (k, v) ∈ l.
Proof.
  intros Hnd. split; [apply hm_collect_elem|]. intros Hin.
  assert (is_Some (hm_collect l !! k)) as [w Hw].
  { apply elem_of_dom. rewrite hm_collect_dom. apply elem_of_list_to_set.
    apply list_elem_of_fmap. by exists (k, v). }
  rewrite Hw. f_equal. apply hm_collect_elem in Hw.
  apply list_elem_of_lookup in Hin as [i Hi], Hw as [j Hj].
  assert (i = j) as ->.
  { apply (NoDup_lookup _ _ _ k Hnd); by rewrite list_lookup_fmap, ?Hi, ?Hj. }
  congruence.
Qed.
End hm.

Section alive_facts.
Context {A : Type} (key : A -> string).

Lemma alive_map_lookup l k x : alive_map key l !! k = Some x -> key x = k /\ x ∈ l.
Proof.
  intros H%hm_collect_elem. apply list_elem_of_fmap in H as (y & [= -> ->] & Hy). done.
Qed.

Lemma alive_map_dom l k : is_Some (alive_map key l !! k) <-> exists x, x ∈ l /\ key x = k.
Proof.
  rewrite <- elem_of_dom. unfold alive_map. rewrite hm_collect_dom, elem_of_list_to_set.
  rewrite <- list_fmap_compose, list_elem_of_fmap. simpl. naive_solver.
Qed.

Lemma alive_map_NoDup l x : NoDup (key <$> l) -> x ∈ l -> alive_map key l !! key x = Some x.
Proof.
  intros Hnd Hx. apply hm_collect_NoDup.
  - rewrite <- list_fmap_compose. done.
  - apply list_elem_of_fmap. eauto.
Qed.

End alive_facts.

Section family_facts.
Context (MIN_UTC : Z) {A D : Type}.
Context (entity_type : string) (ts : A -> Z) (keep : A -> bool) (del : string -> A -> D).
Context (l_alive r_alive : gmap string A) (l_dead r_dead : gmap string Z) (keys : list string).
Abbreviation plan := (merge_keys MIN_UTC entity_type ts keep del l_alive r_alive l_dead r_dead keys).
Abbreviation res := (family_resolution ts l_alive r_alive l_dead r_dead).

Lemma elem_of_fp_upsert x :
  x ∈ fp_upsert plan <->
  exists k, k ∈ keys /\ kr_upsert_from_remote (res k) = true
    /\ r_alive !! k = Some x /\ keep x = true.
Proof.
  unfold merge_keys; cbv zeta; cbn [fp_upsert]. rewrite list_elem_of_bind. split.
  - intros (k & Hx & Hk). exists k. destruct (kr_upsert_from_remote _); [|set_solver].
    destruct (r_alive !! k) as [y|]; [|set_solver].
    destruct (keep y) eqn:E; [|set_solver]. apply list_elem_of_singleton in Hx as ->. done.
  - intros (k & Hk & E & Hr & Hkeep). exists k. cbv beta. rewrite E, Hr, Hkeep. set_solver.
Qed.

Lemma elem_of_fp_delete y :
  y ∈ fp_delete plan <->
  exists k x, k ∈ keys /\ kr_delete_local (res k) = true /\ l_alive !! k = Some x /\ y = del k x.
Proof.
  unfold merge_keys; cbv zeta; cbn [fp_delete]. rewrite list_elem_of_bind. split.
  - intros (k & Hx & Hk). destruct (kr_delete_local _) eqn:E; [|set_solver].
    destruct (l_alive !! k) as [x|] eqn:El; [|set_solver].
    apply list_elem_of_singleton in Hx as ->. by exists k, x.
  - intros (k & x & Hk & E & Hl & ->). exists k. cbv beta. rewrite E, Hl. set_solver.
Qed.

Lemma elem_of_fp_adopt t :
  t ∈ fp_adopt plan <->
  ct_entity_type t = entity_type /\ ct_entity_key t ∈ keys
  /\ kr_adopt_tombstone_at (res (ct_entity_key t)) = Some (ct_deleted_at t).
Proof.
  unfold merge_keys, tombstone_adopt; cbv zeta; cbn [fp_adopt]. rewrite list_elem_of_bind. split.
  - intros (k & Hx & Hk). destruct (kr_adopt_tombstone_at _) eqn:E; [|set_solver].
    apply list_elem_of_singleton in Hx as ->. done.
  - intros (<- & Hk & E). exists (ct_entity_key t). cbv beta. rewrite E. split; [|done].
    apply list_elem_of_singleton. by destruct t.
Qed.

Lemma elem_of_fp_clear t :
  t ∈ fp_clear plan <->
  ct_entity_type t = entity_type /\ ct_deleted_at t = MIN_UTC /\ ct_entity_key t ∈ keys
  /\ kr_clear_tombstone (res (ct_entity_key t)) = true.
Proof.
  unfold merge_keys, tombstone_clear; cbv zeta; cbn [fp_clear]. rewrite list_elem_of_bind. split.
  - intros (k & Hx & Hk). destruct (kr_clear_tombstone _) eqn:E; [|set_solver].
    apply list_elem_of_singleton in Hx as ->. done.
  - intros (<- & <- & Hk & E). exists (ct_entity_key t). cbv beta. rewrite E. split; [|done].
    apply list_elem_of_singleton. by destruct t.
Qed.

Lemma elem_of_fp_alive k :
  k ∈ fp_alive plan <-> k ∈ keys /\ kr_alive (res k) = true.
Proof.
  unfold merge_keys; cbv zeta; cbn [fp_alive]. rewrite elem_of_list_to_set.
  rewrite list_elem_of_In, filter_In, <- list_elem_of_In. done.
Qed.
End family_facts.

Lemma elem_of_union_keys {A B C D} (a : gmap string A) (b : gmap string B)
    (c : gmap string C) (d : gmap string D) k :
  k ∈ union_keys a b c d <->
  is_Some (a !! k) \/ is_Some (b !! k) \/ is_Some (c !! k) \/ is_Some (d !! k).
Proof. unfold union_keys. rewrite elem_of_elements, !elem_of_union, !elem_of_dom. tauto. Qed.

(** *** Decisions of [resolve_key] *)

Lemma resolve_upsert la ld ra rd :
  kr_upsert_from_remote (resolve_key la ld ra rd) = true ->
  exists t, ra = Some t /\ opt_gtb ra la = true
    /\ opt_gtb (max_opt ld rd) ra = false.
Proof.
  destruct la, ld, ra, rd; unfold resolve_key; simpl; lww_solve;
    intros; eexists; split_and!; try done; simpl in *; lia.
Qed.

Lemma resolve_alive la ld ra rd :
  kr_alive (resolve_key la ld ra rd) = true <->
  (exists t, max_opt la ra = Some t) /\ opt_gtb (max_opt ld rd) (max_opt la ra) = false.
Proof.
  destruct la, ld, ra, rd; unfold resolve_key; simpl; lww_solve;
    (split; [intros; split; eauto; lia|intros [[? ?] ?]; first [done|lia]]).
Qed.

Lemma resolve_delete la ld ra rd :
  kr_delete_local (resolve_key la ld ra rd) = true <->
  is_Some la /\ opt_gtb (max_opt ld rd) (max_opt la ra) = true.
Proof.
  destruct la, ld, ra, rd; unfold resolve_key; simpl; lww_solve;
    (split; [intros; split; eauto; first [done|lia]|intros [[? ?] ?]; first [done|lia]]).
Qed.

(** ** Families of a snapshot *)

Record family (A : Type) : Type := {
  fam_type : string;
  fam_key : A -> string;
  fam_ts : A -> Z;
  fam_rows : ControlSnapshot -> list A;
}.
Arguments fam_type {A} _.
Arguments fam_key {A} _ _.
Arguments fam_ts {A} _ _.
Arguments fam_rows {A} _ _.

Definition credential_family : family TimestampedCredential :=
  {| fam_type := TOMBSTONE_CREDENTIAL; fam_key := fun c => cr_access_key_id (tc_credential c);
     fam_ts := tc_updated_at; fam_rows := cs_credentials |}.
Definition user_family : family TimestampedUser :=
  {| fam_type := TOMBSTONE_USER; fam_key := fun u => u_user_id (tu_user u);
     fam_ts := tu_updated_at; fam_rows := cs_users |}.
Definition team_family : family TimestampedTeam :=
  {| fam_type := TOMBSTONE_TEAM; fam_key := fun t => tm_team_id (tt_team t);
     fam_ts := tt_updated_at; fam_rows := cs_teams |}.
Definition grant_family : family Grant :=
  {| fam_type := TOMBSTONE_GRANT; fam_key := gr_grant_id; fam_ts := gr_updated_at;
     fam_rows := cs_grants |}.
Definition bucket_family : family BucketInfo :=
  {| fam_type := TOMBSTONE_BUCKET; fam_key := b_name; fam_ts := b_created_at;
     fam_rows := cs_buckets |}.
Definition user_grant_family : family TimestampedUserGrant :=
  {| fam_type := TOMBSTONE_USER_GRANT; fam_key := fun x => pair_key (ug_user_id x) (ug_grant_id x);
     fam_ts := ug_updated_at; fam_rows := cs_user_grants |}.
Definition team_grant_family : family TimestampedTeamGrant :=
  {| fam_type := TOMBSTONE_TEAM_GRANT; fam_key := fun x => pair_key (tg_team_id x) (tg_grant_id x);
     fam_ts := tg_updated_at; fam_rows := cs_team_grants |}.
Definition team_member_family : family TimestampedTeamMember :=
  {| fam_type := TOMBSTONE_TEAM_MEMBER;
     fam_key := fun x => pair_key (tmm_team_id x) (tmm_user_id x);
     fam_ts := tmm_updated_at; fam_rows := cs_team_members |}.
Definition bucket_config_family : family TimestampedBucketConfig :=
  {| fam_type := TOMBSTONE_BUCKET_CONFIG; fam_key := fun x => pair_key (bc_bucket x) (bc_key x);
     fam_ts := bc_updated_at; fam_rows := cs_bucket_configs |}.
Definition bucket_tags_family : family TimestampedBucketTags :=
  {| fam_type := TOMBSTONE_BUCKET_TAGS; fam_key := bt_bucket; fam_ts := bt_updated_at;
     fam_rows := cs_bucket_tags |}.
Definition server_config_family : family TimestampedServerConfig :=
  {| fam_type := TOMBSTONE_SERVER_CONFIG; fam_key := sc_key; fam_ts := sc_updated_at;
     fam_rows := fun s => cluster_wide (cs_server_configs s) |}.
Definition upload_family : family MultipartUploadRecord :=
  {| fam_type := TOMBSTONE_MULTIPART; fam_key := mu_upload_id; fam_ts := mu_initiated_at;
     fam_rows := cs_multipart_uploads |}.

Section family_state.
Context {A : Type} (f : family A).

(** What a snapshot says of a key. *)
Definition entity_at (s : ControlSnapshot) (k : string) : option A :=
  alive_map (fam_key f) (fam_rows f s) !! k.
Definition state_at (s : ControlSnapshot) (k : string) : key_state :=
  (fam_ts f <$> entity_at s k, tombstone_map (cs_tombstones s) (fam_type f) !! k).

(** The key is live after the merge of two snapshots. *)
Definition survives (l r : ControlSnapshot) (k : string) : Prop :=
  is_Some (settle (state_at l k) (state_at r k)).1.

(** An upsert is the peer's row, newer than ours, and not deleted later. *)
Definition justified_upsert (l r : ControlSnapshot) (x : A) : Prop :=
  entity_at r (fam_key f x) = Some x
  /\ opt_gtb (Some (fam_ts f x)) (state_at l (fam_key f x)).1 = true
  /\ survives l r (fam_key f x).

(** A key to delete: we hold the entity and its newest event is a deletion. *)
Definition justified_delete (l r : ControlSnapshot) (x : A) : Prop :=
  entity_at l (fam_key f x) = Some x /\ ~ survives l r (fam_key f x).

Lemma survives_iff l r k :
  survives l r k <->
  kr_alive (resolve_key (state_at l k).1 (state_at l k).2 (state_at r k).1 (state_at r k).2) = true.
Proof.
  rewrite resolve_alive. unfold survives, settle.
  destruct (opt_gtb _ _) eqn:E; simpl.
  - split; [by intros []|by intros [_ ?]].
  - split; [intros [t ?]; eauto|by intros [? _]].
Qed.

Context {D : Type} (MIN_UTC : Z) (keep : A -> bool) (del : string -> A -> D).
Abbreviation fplan l r :=
  (merge_family MIN_UTC (fam_type f) (fam_key f) (fam_ts f) keep del
     (fam_rows f l) (fam_rows f r) (cs_tombstones l) (cs_tombstones r)).

Lemma family_upsert l r x :
  x ∈ fp_upsert (fplan l r) -> justified_upsert l r x /\ keep x = true.
Proof.
  unfold merge_family. rewrite elem_of_fp_upsert. intros (k & _ & Hres & Hr & Hk).
  pose proof (alive_map_lookup _ _ _ _ Hr) as [<- _].
  unfold family_resolution in Hres. rewrite Hr in Hres.
  apply resolve_upsert in Hres as (t & [= <-] & Hgt & Hd).
  split; [|done]. split; [done|]. split; [done|]. apply survives_iff, resolve_alive.
  unfold state_at, entity_at; simpl. rewrite Hr; simpl in *.
  assert (max_opt (fam_ts f <$> alive_map (fam_key f) (fam_rows f l) !! fam_key f x)
            (Some (fam_ts f x)) = Some (fam_ts f x)) as ->; [|split; [eauto|done]].
  destruct (fam_ts f <$> _) as [t|]; simpl in *; [f_equal; lia|done].
Qed.

Lemma family_delete l r y :
  y ∈ fp_delete (fplan l r) <->
  exists x, justified_delete l r x /\ y = del (fam_key f x) x.
Proof.
  unfold merge_family. rewrite elem_of_fp_delete. unfold family_resolution.
  assert (forall k x, entity_at l k = Some x -> fam_key f x = k) as Hkey.
  { intros k x H. by apply alive_map_lookup in H as [? _]. }
  assert (forall k x, entity_at l k = Some x ->
    ~ survives l r k <-> kr_delete_local (resolve_key (state_at l k).1 (state_at l k).2
                            (state_at r k).1 (state_at r k).2) = true) as Hs.
  { intros k x H. rewrite survives_iff, resolve_alive, resolve_delete.
    assert (is_Some (state_at l k).1) as Hal by (unfold state_at; simpl; rewrite H; eauto).
    destruct (opt_gtb _ _).
    - split; [done|]. by intros _ [_ ?].
    - split; [|by intros [_ ?]]. intros Hn. destruct Hn. split; [|done].
      destruct Hal as [t ->]. destruct (state_at r k).1; simpl; eauto. }
  split.
  - intros (k & x & _ & Hres & Hl & ->). pose proof (Hkey _ _ Hl) as <-.
    exists x. split; [|done]. split; [done|]. by apply (Hs _ _ Hl).
  - intros (x & [Hl Hd] & ->). exists (fam_key f x), x. split_and!; [|by apply (Hs _ _ Hl)|done..].
    apply elem_of_union_keys. left. eauto.
Qed.

Lemma family_alive l r k : k ∈ fp_alive (fplan l r) -> survives l r k.
Proof. unfold merge_family. rewrite elem_of_fp_alive, survives_iff. by intros [_ ?]. Qed.

(** A family without keys that are both live and dead merges with itself to
    nothing. *)
Lemma family_self s :
  (forall k, is_Some (state_at s k).1 -> (state_at s k).2 = None) ->
  let p := fplan s s in
  fp_upsert p = [] /\ fp_delete p = [] /\ fp_adopt p = [] /\ fp_clear p = [].
Proof.
  intros Hs p.
  assert (forall k, family_resolution (fam_ts f) (alive_map (fam_key f) (fam_rows f s))
     (alive_map (fam_key f) (fam_rows f s)) (tombstone_map (cs_tombstones s) (fam_type f))
     (tombstone_map (cs_tombstones s) (fam_type f)) k =
     {| kr_alive := is_some (state_at s k).1; kr_upsert_from_remote := false;
        kr_delete_local := false; kr_adopt_tombstone_at := None; kr_clear_tombstone := false |})
    as Hres.
  { intros k. specialize (Hs k). unfold family_resolution, state_at, entity_at in *. simpl in *.
    destruct (fam_ts f <$> _) as [t|]; simpl in *.
    - rewrite Hs by eauto. unfold resolve_key; simpl. rewrite Z.ltb_irrefl. done.
    - destruct (tombstone_map _ _ !! k) as [d|]; [|done].
      unfold resolve_key; simpl. rewrite Z.max_id, Z.ltb_irrefl. done. }
  subst p. unfold merge_family. split_and!; apply elem_of_nil_inv; intros y Hy.
  - apply elem_of_fp_upsert in Hy as (k & _ & H & _). by rewrite Hres in H.
  - apply elem_of_fp_delete in Hy as (k & x & _ & H & _). by rewrite Hres in H.
  - apply elem_of_fp_adopt in Hy as (_ & _ & H). by rewrite Hres in H.
  - apply elem_of_fp_clear in Hy as (_ & _ & _ & H). by rewrite Hres in H.
Qed.
End family_state.

(** Server configuration: the same decisions on the keys that are not
    node-local. *)
Section server_config.
Context (MIN_UTC : Z) (l r : ControlSnapshot).

Lemma cluster_wide_key s x :
  x ∈ cluster_wide s -> sc_key x <> NODE_ID_KEY.
Proof.
  unfold cluster_wide, is_node_local_server_config_key.
  rewrite list_elem_of_In, filter_In, negb_true_iff. intros [_ H].
  by apply bool_decide_eq_false in H.
Qed.

Lemma cluster_wide_keys k keys :
  k ∈ List.filter (fun k => negb (is_node_local_server_config_key k)) keys <->
  k ∈ keys /\ k <> NODE_ID_KEY.
Proof.
  rewrite list_elem_of_In, filter_In, <- list_elem_of_In, negb_true_iff.
  unfold is_node_local_server_config_key. by rewrite bool_decide_eq_false.
Qed.

(** The block computes what the generic merge does, without the local key. *)
Lemma server_config_family_plan :
  let generic := merge_family MIN_UTC TOMBSTONE_SERVER_CONFIG sc_key sc_updated_at no_parent by_key
    (cluster_wide (cs_server_configs l)) (cluster_wide (cs_server_configs r))
    (cs_tombstones l) (cs_tombstones r) in
  let p := merge_server_configs MIN_UTC l r in
  (forall x, x ∈ fp_upsert p -> x ∈ fp_upsert generic /\ sc_key x <> NODE_ID_KEY)
  /\ (forall k, k ∈ fp_delete p -> k ∈ fp_delete generic /\ k <> NODE_ID_KEY)
  /\ (forall t, t ∈ fp_adopt p -> t ∈ fp_adopt generic /\ ct_entity_key t <> NODE_ID_KEY)
  /\ (forall t, t ∈ fp_clear p -> t ∈ fp_clear generic /\ ct_entity_key t <> NODE_ID_KEY).
Proof.
  intros generic p. subst generic p. unfold merge_family, merge_server_configs. split_and!.
  - intros x. rewrite !elem_of_fp_upsert. setoid_rewrite cluster_wide_keys.
    intros (k & [Hk Hn] & Hres & Hr & Hkeep). split; [by exists k|].
    by apply alive_map_lookup in Hr as [-> _].
  - intros k. rewrite !elem_of_fp_delete. setoid_rewrite cluster_wide_keys.
    intros (k' & x & [Hk Hn] & Hres & Hl & ->). split; [by exists k', x|done].
  - intros t. rewrite !elem_of_fp_adopt, cluster_wide_keys. by intros (? & [? ?] & ?).
  - intros t. rewrite !elem_of_fp_clear, cluster_wide_keys. by intros (? & ? & [? ?] & ?).
Qed.
End server_config.

Lemma family_adopt_type MIN_UTC {A D} et key ts keep (del : string -> A -> D) l r lt rt t :
  t ∈ fp_adopt (merge_family MIN_UTC et key ts keep del l r lt rt) -> ct_entity_type t = et.
Proof. unfold merge_family. rewrite elem_of_fp_adopt. by intros [? _]. Qed.

Lemma family_clear_type MIN_UTC {A D} et key ts keep (del : string -> A -> D) l r lt rt t :
  t ∈ fp_clear (merge_family MIN_UTC et key ts keep del l r lt rt) -> ct_entity_type t = et.
Proof. unfold merge_family. rewrite elem_of_fp_clear. by intros [? _]. Qed.

(** ** Properties of the plan *)

Section plan_properties.
Context (MIN_UTC : Z).

Section children.
Context (l r : ControlSnapshot).
Abbreviation p := (plan_control_merge MIN_UTC l r).
Abbreviation live_users := (fp_alive (merge_users MIN_UTC l r)).
Abbreviation live_teams := (fp_alive (merge_teams MIN_UTC l r)).
Abbreviation live_grants := (fp_alive (merge_grants MIN_UTC l r)).
Abbreviation live_buckets := (fp_alive (merge_buckets MIN_UTC l r)).

(** An upsert of a child family: justified, with its parents live. *)
Lemma user_grant_upsert x :
  x ∈ upsert_user_grants p -> justified_upsert user_grant_family l r x
  /\ survives user_family l r (ug_user_id x) /\ survives grant_family l r (ug_grant_id x).
Proof.
  intros Hx. change (x ∈ fp_upsert (merge_user_grants MIN_UTC live_users live_grants l r)) in Hx.
  apply (family_upsert user_grant_family MIN_UTC) in Hx as [Hj [H1 H2]%andb_true_iff].
  apply bool_decide_eq_true in H1, H2. split_and!; [done|..].
  - exact (family_alive user_family MIN_UTC no_parent by_key l r _ H1).
  - exact (family_alive grant_family MIN_UTC no_parent by_key l r _ H2).
Qed.

Lemma team_grant_upsert x :
  x ∈ upsert_team_grants p -> justified_upsert team_grant_family l r x
  /\ survives team_family l r (tg_team_id x) /\ survives grant_family l r (tg_grant_id x).
Proof.
  intros Hx. change (x ∈ fp_upsert (merge_team_grants MIN_UTC live_teams live_grants l r)) in Hx.
  apply (family_upsert team_grant_family MIN_UTC) in Hx as [Hj [H1 H2]%andb_true_iff].
  apply bool_decide_eq_true in H1, H2. split_and!; [done|..].
  - exact (family_alive team_family MIN_UTC no_parent by_key l r _ H1).
  - exact (family_alive grant_family MIN_UTC no_parent by_key l r _ H2).
Qed.

Lemma team_member_upsert x :
  x ∈ upsert_team_members p -> justified_upsert team_member_family l r x
  /\ survives team_family l r (tmm_team_id x) /\ survives user_family l r (tmm_user_id x).
Proof.
  intros Hx. change (x ∈ fp_upsert (merge_team_members MIN_UTC live_teams live_users l r)) in Hx.
  apply (family_upsert team_member_family MIN_UTC) in Hx as [Hj [H1 H2]%andb_true_iff].
  apply bool_decide_eq_true in H1, H2. split_and!; [done|..].
  - exact (family_alive team_family MIN_UTC no_parent by_key l r _ H1).
  - exact (family_alive user_family MIN_UTC no_parent by_key l r _ H2).
Qed.

Lemma bucket_config_upsert x :
  x ∈ upsert_bucket_configs p -> justified_upsert bucket_config_family l r x
  /\ survives bucket_family l r (bc_bucket x).
Proof.
  intros Hx. change (x ∈ fp_upsert (merge_bucket_configs MIN_UTC live_buckets l r)) in Hx.
  apply (family_upsert bucket_config_family MIN_UTC) in Hx as [Hj H%bool_decide_eq_true].
  split; [done|]. exact (family_alive bucket_family MIN_UTC no_parent by_key l r _ H).
Qed.

Lemma bucket_tags_upsert x :
  x ∈ upsert_bucket_tags p -> justified_upsert bucket_tags_family l r x
  /\ survives bucket_family l r (bt_bucket x).
Proof.
  intros Hx. change (x ∈ fp_upsert (merge_bucket_tags MIN_UTC live_buckets l r)) in Hx.
  apply (family_upsert bucket_tags_family MIN_UTC) in Hx as [Hj H%bool_decide_eq_true].
  split; [done|]. exact (family_alive bucket_family MIN_UTC no_parent by_key l r _ H).
Qed.

Lemma part_upsert x :
  x ∈ upsert_parts p -> survives upload_family l r (pt_upload_id x).
Proof.
  intros Hx. apply list_elem_of_In, filter_In in Hx as [_ [_ H%bool_decide_eq_true]%andb_true_iff].
  exact (family_alive upload_family MIN_UTC no_parent by_key l r _ H).
Qed.
End children.

(** Every upsert of the plan, in each of the twelve families, is a row of
    the peer that is newer than the local copy and that no deletion known to
    either node has overtaken: a peer that still holds a deleted entity cannot
    resurrect it. *)
Theorem plan_upserts_justified (l r : ControlSnapshot) :
  let p := plan_control_merge MIN_UTC l r in
  Forall (justified_upsert credential_family l r) (upsert_credentials p)
  /\ Forall (justified_upsert user_family l r) (upsert_users p)
  /\ Forall (justified_upsert team_family l r) (upsert_teams p)
  /\ Forall (justified_upsert grant_family l r) (upsert_grants p)
  /\ Forall (justified_upsert bucket_family l r) (upsert_buckets p)
  /\ Forall (justified_upsert user_grant_family l r) (upsert_user_grants p)
  /\ Forall (justified_upsert team_grant_family l r) (upsert_team_grants p)
  /\ Forall (justified_upsert team_member_family l r) (upsert_team_members p)
  /\ Forall (justified_upsert bucket_config_family l r) (upsert_bucket_configs p)
  /\ Forall (justified_upsert bucket_tags_family l r) (upsert_bucket_tags p)
  /\ Forall (justified_upsert server_config_family l r) (upsert_server_configs p)
  /\ Forall (justified_upsert upload_family l r) (upsert_multipart_uploads p).
Proof.
  intros p. split_and!; apply Forall_forall; intros x Hx.
  - exact (proj1 (family_upsert credential_family MIN_UTC no_parent by_key l r x Hx)).
  - exact (proj1 (family_upsert user_family MIN_UTC no_parent by_key l r x Hx)).
  - exact (proj1 (family_upsert team_family MIN_UTC no_parent by_key l r x Hx)).
  - exact (proj1 (family_upsert grant_family MIN_UTC no_parent by_key l r x Hx)).
  - exact (proj1 (family_upsert bucket_family MIN_UTC no_parent by_key l r x Hx)).
  - by apply (user_grant_upsert l r).
  - by apply (team_grant_upsert l r).
  - by apply (team_member_upsert l r).
  - by apply (bucket_config_upsert l r).
  - by apply (bucket_tags_upsert l r).
  - destruct (server_config_family_plan MIN_UTC l r) as [Hu _]. apply Hu in Hx as [Hx _].
    exact (proj1 (family_upsert server_config_family MIN_UTC no_parent by_key l r x Hx)).
  - exact (proj1 (family_upsert upload_family MIN_UTC no_parent by_key l r x Hx)).
Qed.

(** The plan deletes exactly the local entities whose newest known event
    is a deletion (for the families deleted by their own key): an entity that
    was written after its deletion, on either node, is never deleted. *)
Theorem plan_deletes_justified (l r : ControlSnapshot) (k : string) :
  let p := plan_control_merge MIN_UTC l r in
  let dead {A} (f : family A) := exists x, justified_delete f l r x /\ k = fam_key f x in
  (k ∈ delete_credentials p <-> dead credential_family)
  /\ (k ∈ delete_users p <-> dead user_family)
  /\ (k ∈ delete_teams p <-> dead team_family)
  /\ (k ∈ delete_grants p <-> dead grant_family)
  /\ (k ∈ delete_buckets p <-> dead bucket_family)
  /\ (k ∈ delete_bucket_tags p <-> dead bucket_tags_family)
  /\ (k ∈ delete_multipart_uploads p <-> dead upload_family).
Proof.
  intros p dead. split_and!.
  - exact (family_delete credential_family MIN_UTC no_parent by_key l r k).
  - exact (family_delete user_family MIN_UTC no_parent by_key l r k).
  - exact (family_delete team_family MIN_UTC no_parent by_key l r k).
  - exact (family_delete grant_family MIN_UTC no_parent by_key l r k).
  - exact (family_delete bucket_family MIN_UTC no_parent by_key l r k).
  - exact (family_delete bucket_tags_family MIN_UTC _ by_key l r k).
  - exact (family_delete upload_family MIN_UTC no_parent by_key l r k).
Qed.

(** A child row (attachment, membership, bucket configuration or tags,
    part) is adopted only under parents that are live after the merge, so a
    stale peer cannot bring back the rows of a deleted user, team, grant,
    bucket or upload. *)
Theorem plan_children_have_live_parents (l r : ControlSnapshot) :
  let p := plan_control_merge MIN_UTC l r in
  (forall x, x ∈ upsert_user_grants p ->
     survives user_family l r (ug_user_id x) /\ survives grant_family l r (ug_grant_id x))
  /\ (forall x, x ∈ upsert_team_grants p ->
     survives team_family l r (tg_team_id x) /\ survives grant_family l r (tg_grant_id x))
  /\ (forall x, x ∈ upsert_team_members p ->
     survives team_family l r (tmm_team_id x) /\ survives user_family l r (tmm_user_id x))
  /\ (forall x, x ∈ upsert_bucket_configs p -> survives bucket_family l r (bc_bucket x))
  /\ (forall x, x ∈ upsert_bucket_tags p -> survives bucket_family l r (bt_bucket x))
  /\ (forall x, x ∈ upsert_parts p -> survives upload_family l r (pt_upload_id x)).
Proof.
  intros p. split_and!; intros x Hx.
  - by apply (user_grant_upsert l r).
  - by apply (team_grant_upsert l r).
  - by apply (team_member_upsert l r).
  - by apply (bucket_config_upsert l r).
  - by apply (bucket_tags_upsert l r).
  - by apply (part_upsert l r).
Qed.

(** The node identity never moves: whatever a peer's snapshot contains,
    the plan neither writes nor deletes the [node_id] server setting, nor
    touches a tombstone for it. *)
Theorem plan_keeps_node_id (l r : ControlSnapshot) :
  let p := plan_control_merge MIN_UTC l r in
  Forall (fun x => sc_key x <> NODE_ID_KEY) (upsert_server_configs p)
  /\ (NODE_ID_KEY ∉ delete_server_configs p)
  /\ Forall (fun t => (ct_entity_type t, ct_entity_key t) <> (TOMBSTONE_SERVER_CONFIG, NODE_ID_KEY))
       (adopt_tombstones p ++ clear_tombstones p).
Proof.
  intros p. destruct (server_config_family_plan MIN_UTC l r) as (Hu & Hd & Ha & Hc).
  split_and!.
  - apply Forall_forall. intros x Hx. by apply Hu.
  - intros H. by apply Hd in H as [_ ?].
  - apply Forall_forall. intros t Ht [= Ety Ek]. subst p. unfold plan_control_merge in Ht.
    cbn [adopt_tombstones clear_tombstones] in Ht. rewrite !elem_of_app in Ht.
    unfold merge_credentials, merge_users, merge_teams, merge_grants, merge_buckets,
      merge_user_grants, merge_team_grants, merge_team_members, merge_bucket_configs,
      merge_bucket_tags, merge_multipart_uploads in Ht.
    repeat match type of Ht with _ \/ _ => destruct Ht as [Ht|Ht] end;
      lazymatch type of Ht with
      | _ ∈ fp_adopt (merge_family _ _ _ _ _ _ _ _ _ _) =>
          apply family_adopt_type in Ht; rewrite Ety in Ht; discriminate Ht
      | _ ∈ fp_clear (merge_family _ _ _ _ _ _ _ _ _ _) =>
          apply family_clear_type in Ht; rewrite Ety in Ht; discriminate Ht
      | _ => idtac
      end.
    + by apply Ha in Ht as [_ ?].
    + by apply Hc in Ht as [_ ?].
Qed.

(** A snapshot in which no key is both live and dead, and parts have distinct
    keys (they are the primary key of the table). *)
Definition family_settled {A} (f : family A) (s : ControlSnapshot) : Prop :=
  forall k, is_Some (state_at f s k).1 -> (state_at f s k).2 = None.

Definition settled (s : ControlSnapshot) : Prop :=
  family_settled credential_family s /\ family_settled user_family s
  /\ family_settled team_family s /\ family_settled grant_family s
  /\ family_settled bucket_family s /\ family_settled user_grant_family s
  /\ family_settled team_grant_family s /\ family_settled team_member_family s
  /\ family_settled bucket_config_family s /\ family_settled bucket_tags_family s
  /\ family_settled server_config_family s /\ family_settled upload_family s
  /\ NoDup (part_key <$> cs_parts s).

Lemma merge_parts_self s alive :
  NoDup (part_key <$> cs_parts s) -> merge_parts MIN_UTC alive s s = [].
Proof.
  intros Hnd. apply elem_of_nil_inv. intros x Hx. unfold merge_parts in Hx.
  apply list_elem_of_In, filter_In in Hx as [Hin%list_elem_of_In [H _]%andb_true_iff].
  rewrite (alive_map_NoDup part_key _ _ Hnd Hin), Z.ltb_irrefl in H. done.
Qed.

Lemma merge_server_configs_self s :
  family_settled server_config_family s ->
  let p := merge_server_configs MIN_UTC s s in
  fp_upsert p = [] /\ fp_delete p = [] /\ fp_adopt p = [] /\ fp_clear p = [].
Proof.
  intros Hs p. destruct (family_self server_config_family MIN_UTC no_parent by_key s Hs)
    as (H1 & H2 & H3 & H4).
  destruct (server_config_family_plan MIN_UTC s s) as (Hu & Hd & Ha & Hc).
  unfold server_config_family in *; cbn [fam_type fam_key fam_ts fam_rows] in *.
  split_and!; apply elem_of_nil_inv; intros y Hy;
    [apply Hu in Hy|apply Hd in Hy|apply Ha in Hy|apply Hc in Hy];
    rewrite ?H1, ?H2, ?H3, ?H4 in Hy; destruct Hy as [Hy _]; by apply not_elem_of_nil in Hy.
Qed.

Definition quiet {A D} (p : FamilyPlan A D) : Prop :=
  fp_upsert p = [] /\ fp_delete p = [] /\ fp_adopt p = [] /\ fp_clear p = [].

(** A caught-up node is quiet: merging with a peer that holds the same
    settled snapshot plans no write at all. *)
Theorem plan_self_empty (s : ControlSnapshot) :
  settled s -> is_empty (plan_control_merge MIN_UTC s s) = true.
Proof.
  intros (Hc & Hu & Ht & Hg & Hb & Hug & Htg & Htm & Hbc & Hbt & Hsc & Hup & Hp).
  assert (quiet (merge_credentials MIN_UTC s s)) as (A1 & A2 & A3 & A4)
    by exact (family_self credential_family MIN_UTC _ _ s Hc).
  assert (quiet (merge_users MIN_UTC s s)) as (B1 & B2 & B3 & B4)
    by exact (family_self user_family MIN_UTC _ _ s Hu).
  assert (quiet (merge_teams MIN_UTC s s)) as (C1 & C2 & C3 & C4)
    by exact (family_self team_family MIN_UTC _ _ s Ht).
  assert (quiet (merge_grants MIN_UTC s s)) as (D1 & D2 & D3 & D4)
    by exact (family_self grant_family MIN_UTC _ _ s Hg).
  assert (quiet (merge_buckets MIN_UTC s s)) as (E1 & E2 & E3 & E4)
    by exact (family_self bucket_family MIN_UTC _ _ s Hb).
  assert (forall u g, quiet (merge_user_grants MIN_UTC u g s s)) as F
    by (intros; exact (family_self user_grant_family MIN_UTC _ _ s Hug)).
  assert (forall t g, quiet (merge_team_grants MIN_UTC t g s s)) as G
    by (intros; exact (family_self team_grant_family MIN_UTC _ _ s Htg)).
  assert (forall t u, quiet (merge_team_members MIN_UTC t u s s)) as I
    by (intros; exact (family_self team_member_family MIN_UTC _ _ s Htm)).
  assert (forall b, quiet (merge_bucket_configs MIN_UTC b s s)) as J
    by (intros; exact (family_self bucket_config_family MIN_UTC _ _ s Hbc)).
  assert (forall b, quiet (merge_bucket_tags MIN_UTC b s s)) as K
    by (intros; exact (family_self bucket_tags_family MIN_UTC _ _ s Hbt)).
  destruct (merge_server_configs_self s Hsc) as (L1 & L2 & L3 & L4).
  assert (quiet (merge_multipart_uploads MIN_UTC s s)) as (M1 & M2 & M3 & M4)
    by exact (family_self upload_family MIN_UTC _ _ s Hup).
  unfold plan_control_merge. cbv zeta.
  destruct (F (fp_alive (merge_users MIN_UTC s s)) (fp_alive (merge_grants MIN_UTC s s)))
    as (-> & -> & -> & ->).
  destruct (G (fp_alive (merge_teams MIN_UTC s s)) (fp_alive (merge_grants MIN_UTC s s)))
    as (-> & -> & -> & ->).
  destruct (I (fp_alive (merge_teams MIN_UTC s s)) (fp_alive (merge_users MIN_UTC s s)))
    as (-> & -> & -> & ->).
  destruct (J (fp_alive (merge_buckets MIN_UTC s s))) as (-> & -> & -> & ->).
  destruct (K (fp_alive (merge_buckets MIN_UTC s s))) as (-> & -> & -> & ->).
  rewrite (merge_parts_self s _ Hp), A1, A2, A3, A4, B1, B2, B3, B4, C1, C2, C3, C4,
    D1, D2, D3, D4, E1, E2, E3, E4, L1, L2, L3, L4, M1, M2, M3, M4.
  reflexivity.
Qed.

End plan_properties.

(** *** A concrete snapshot *)

Definition empty_snapshot : ControlSnapshot :=
  {| cs_credentials := []; cs_users := []; cs_teams := []; cs_grants := []; cs_buckets := [];
     cs_tombstones := []; cs_user_grants := []; cs_team_grants := []; cs_team_members := [];
     cs_bucket_configs := []; cs_bucket_tags := []; cs_server_configs := [];
     cs_multipart_uploads := []; cs_parts := [] |}.

Definition snapshot_with (creds : list TimestampedCredential) (users : list TimestampedUser)
    (tombs : list ControlTombstone) : ControlSnapshot :=
  {| cs_credentials := creds; cs_users := users; cs_teams := []; cs_grants := [];
     cs_buckets := []; cs_tombstones := tombs; cs_user_grants := []; cs_team_grants := [];
     cs_team_members := []; cs_bucket_configs := []; cs_bucket_tags := [];
     cs_server_configs := []; cs_multipart_uploads := []; cs_parts := [] |}.

Definition sample_user_at (id : string) (t : Z) : TimestampedUser :=
  {| tu_user := {| u_user_id := id; u_username := id; u_description := ""; u_is_root := false;
                   u_created_at := 0 |};
     tu_updated_at := t |}.

Definition sample_snapshot : ControlSnapshot :=
  snapshot_with [] [sample_user_at "u1" 5]
    [{| ct_entity_type := TOMBSTONE_USER; ct_entity_key := "u2"; ct_deleted_at := 9 |}].

Lemma family_settled_nil {A} (f : family A) s : fam_rows f s = [] -> family_settled f s.
Proof.
  intros E k [t Ht]. unfold state_at, entity_at in Ht. simpl in Ht. rewrite E in Ht.
  change (alive_map (fam_key f) []) with (∅ : gmap string A) in Ht.
  by rewrite lookup_empty in Ht.
Qed.

Lemma settled_sample : settled sample_snapshot.
Proof.
  unfold settled. split_and!; try (apply family_settled_nil; reflexivity); [|constructor].
  intros k [t Ht]. unfold state_at, entity_at in Ht. simpl in Ht.
  destruct (alive_map _ _ !! k) as [x|] eqn:E; [|done].
  apply alive_map_lookup in E as [<- Hx]. apply list_elem_of_singleton in Hx as ->. reflexivity.
Qed.

Lemma plan_self_empty_witness :
  is_empty (plan_control_merge (-1) sample_snapshot sample_snapshot) = true.
Proof. apply (plan_self_empty (-1)). exact settled_sample. Defined.
