(* ===== verification/IdentityStore.v ===== *)
(** The identity tables of the SQLite store and the application of a
    control-plane merge plan: [crates/arca-storage/src/sqlite/{user, team,
    grant, credential, server_config, control_tombstone, control_snapshot}.rs]
    and [crates/arca-storage/src/control_merge.rs].

    A table is a finite map from its primary key to the row; each SQL
    statement is one step on the store.  [UNIQUE] columns and foreign keys
    make a statement fail without changing the store; whether SQLite enforces
    foreign keys depends on how the library was built, so it is the parameter
    [foreign_keys].  Policy documents are stored as the records that their
    JSON text encodes; [now] is the reading of the clock. *)

From S2P Require Import Prelude S3Errors Policy Types SqlTable MetadataStore ControlMerge.

Open Scope act_scope.

Record IdentityStore : Type := MkIds {
  ids_credentials : gmap string (Credential * Z);
  ids_users : gmap string (User * Z);
  ids_teams : gmap string (Team * Z);
  ids_grants : gmap string Grant;
  ids_user_grants : gmap (string * string) Z;
  ids_team_grants : gmap (string * string) Z;
  ids_team_members : gmap (string * string) Z;
  ids_server_config : gmap string (string * Z);
  ids_tombstones : gmap (string * string) Z;
}.

Definition empty_ids : IdentityStore := MkIds ∅ ∅ ∅ ∅ ∅ ∅ ∅ ∅ ∅.

Abbreviation idact := (act IdentityStore ArcaError).

Definition with_credentials t s :=
  let '(MkIds _ us te gr ug tg tm sc ts) := s in MkIds t us te gr ug tg tm sc ts.
Definition with_users t s :=
  let '(MkIds cr _ te gr ug tg tm sc ts) := s in MkIds cr t te gr ug tg tm sc ts.
Definition with_teams t s :=
  let '(MkIds cr us _ gr ug tg tm sc ts) := s in MkIds cr us t gr ug tg tm sc ts.
Definition with_grants t s :=
  let '(MkIds cr us te _ ug tg tm sc ts) := s in MkIds cr us te t ug tg tm sc ts.
Definition with_user_grants t s :=
  let '(MkIds cr us te gr _ tg tm sc ts) := s in MkIds cr us te gr t tg tm sc ts.
Definition with_team_grants t s :=
  let '(MkIds cr us te gr ug _ tm sc ts) := s in MkIds cr us te gr ug t tm sc ts.
Definition with_team_members t s :=
  let '(MkIds cr us te gr ug tg _ sc ts) := s in MkIds cr us te gr ug tg t sc ts.
Definition with_server_config t s :=
  let '(MkIds cr us te gr ug tg tm _ ts) := s in MkIds cr us te gr ug tg tm t ts.
Definition with_tombstones t s :=
  let '(MkIds cr us te gr ug tg tm sc _) := s in MkIds cr us te gr ug tg tm sc t.

(** A value of a [UNIQUE] column held by a row with another key. *)
Definition taken_by_other {A} (m : gmap string A) (name : A -> string) (key value : string) : bool :=
  existsb (fun e => bool_decide (e.1 <> key) && bool_decide (name e.2 = value)) (map_to_list m).

(** *** [UserStore] *)

Definition user_name (r : User * Z) : string := u_username r.1.

Definition put_user (u : User) : idact unit := fun s =>
  if is_some (ids_users s !! u_user_id u)
     || taken_by_other (ids_users s) user_name (u_user_id u) (u_username u)
  then (s, Err (Internal "put_user"))
  else (with_users (<[u_user_id u := (u, u_created_at u)]> (ids_users s)) s, Ok tt).

Definition get_user (id : string) (s : IdentityStore) : option User := fst <$> ids_users s !! id.

Definition get_user_by_username (name : string) (s : IdentityStore) : option User :=
  fst <$> (snd <$> List.find (fun e => bool_decide (user_name e.2 = name)) (map_to_list (ids_users s))).

Definition list_users (s : IdentityStore) : list User :=
  merge_sort (order_by_Z u_created_at)
    ((fun e => e.2.1) <$> map_to_list (ids_users s)).

Definition update_user (now : Z) (id : string) (username description : option string)
  : idact bool := fun s =>
  match username, description with
  | None, None => (s, Ok (is_some (ids_users s !! id)))
  | _, _ =>
      match ids_users s !! id with
      | None => (s, Ok false)
      | Some (u, _) =>
          let u' := {| u_user_id := u_user_id u; u_username := default (u_username u) username;
                       u_description := default (u_description u) description;
                       u_is_root := u_is_root u; u_created_at := u_created_at u |} in
          if taken_by_other (ids_users s) user_name id (u_username u')
          then (s, Err (Internal "update_user"))
          else (with_users (<[id := (u', now)]> (ids_users s)) s, Ok true)
      end
  end.

Definition delete_user (id : string) : idact bool := fun s =>
  (with_users (delete id (ids_users s))
    (with_credentials (filter (fun e => cr_user_id e.2.1 <> id) (ids_credentials s))
      (with_user_grants (filter (fun e => e.1.1 <> id) (ids_user_grants s))
        (with_team_members (filter (fun e => e.1.2 <> id) (ids_team_members s)) s))),
   Ok (is_some (ids_users s !! id))).

Definition apply_user_at (u : User) (ts : Z) : idact unit := fun s =>
  if taken_by_other (ids_users s) user_name (u_user_id u) (u_username u)
  then (s, Err (Internal "apply_user_at"))
  else (with_users (<[u_user_id u := (u, ts)]> (ids_users s)) s, Ok tt).

(** [apply_remote_user]: the same upsert, stamped with the local clock. *)
Definition apply_remote_user (now : Z) (u : User) : idact unit := fun s =>
  if taken_by_other (ids_users s) user_name (u_user_id u) (u_username u)
  then (s, Err (Internal "apply_remote_user"))
  else (with_users (<[u_user_id u := (u, now)]> (ids_users s)) s, Ok tt).

(** *** [CredentialStore] *)

Definition put_credential (c : Credential) : idact unit := fun s =>
  if is_some (ids_credentials s !! cr_access_key_id c)
  then (s, Err (Internal "put_credential"))
  else (with_credentials (<[cr_access_key_id c := (c, cr_created_at c)]> (ids_credentials s)) s, Ok tt).

Definition get_credential (key : string) (s : IdentityStore) : option Credential :=
  fst <$> ids_credentials s !! key.

Definition list_credentials (s : IdentityStore) : list Credential :=
  merge_sort (order_by_Z cr_created_at)
    ((fun e => e.2.1) <$> map_to_list (ids_credentials s)).

Definition delete_credential (key : string) : idact bool := fun s =>
  (with_credentials (delete key (ids_credentials s)) s, Ok (is_some (ids_credentials s !! key))).

Definition update_credential (now : Z) (key : string) (active : option bool)
    (description : option string) : idact bool := fun s =>
  match active, description with
  | None, None => (s, Ok (is_some (ids_credentials s !! key)))
  | _, _ =>
      match ids_credentials s !! key with
      | None => (s, Ok false)
      | Some (c, _) =>
          let c' := {| cr_access_key_id := cr_access_key_id c;
                       cr_secret_access_key := cr_secret_access_key c;
                       cr_description := default (cr_description c) description;
                       cr_created_at := cr_created_at c;
                       cr_active := default (cr_active c) active; cr_user_id := cr_user_id c |} in
          (with_credentials (<[key := (c', now)]> (ids_credentials s)) s, Ok true)
      end
  end.

Definition count_active_credentials (s : IdentityStore) : Z :=
  Z.of_nat (length (List.filter (fun e => cr_active e.2.1) (map_to_list (ids_credentials s)))).

Definition apply_credential_at (c : Credential) (ts : Z) : idact unit := fun s =>
  (with_credentials (<[cr_access_key_id c := (c, ts)]> (ids_credentials s)) s, Ok tt).

Definition apply_remote_credential (now : Z) (c : Credential) : idact unit := fun s =>
  (with_credentials (<[cr_access_key_id c := (c, now)]> (ids_credentials s)) s, Ok tt).

(** *** [TeamStore] *)

Definition team_name (r : Team * Z) : string := tm_name r.1.

Definition put_team (t : Team) : idact unit := fun s =>
  if is_some (ids_teams s !! tm_team_id t)
     || taken_by_other (ids_teams s) team_name (tm_team_id t) (tm_name t)
  then (s, Err (Internal "put_team"))
  else (with_teams (<[tm_team_id t := (t, tm_created_at t)]> (ids_teams s)) s, Ok tt).

Definition get_team (id : string) (s : IdentityStore) : option Team := fst <$> ids_teams s !! id.

Definition list_teams (s : IdentityStore) : list Team :=
  merge_sort (order_by_Z tm_created_at) ((fun e => e.2.1) <$> map_to_list (ids_teams s)).

Definition update_team (now : Z) (id : string) (name description : option string)
  : idact bool := fun s =>
  match name, description with
  | None, None => (s, Ok (is_some (ids_teams s !! id)))
  | _, _ =>
      match ids_teams s !! id with
      | None => (s, Ok false)
      | Some (t, _) =>
          let t' := {| tm_team_id := tm_team_id t; tm_name := default (tm_name t) name;
                       tm_description := default (tm_description t) description;
                       tm_created_at := tm_created_at t |} in
          if taken_by_other (ids_teams s) team_name id (tm_name t')
          then (s, Err (Internal "update_team"))
          else (with_teams (<[id := (t', now)]> (ids_teams s)) s, Ok true)
      end
  end.

Definition delete_team (id : string) : idact bool := fun s =>
  (with_teams (delete id (ids_teams s))
    (with_team_grants (filter (fun e => e.1.1 <> id) (ids_team_grants s))
      (with_team_members (filter (fun e => e.1.1 <> id) (ids_team_members s)) s)),
   Ok (is_some (ids_teams s !! id))).

Definition remove_member (team user : string) : idact bool := fun s =>
  (with_team_members (delete (team, user) (ids_team_members s)) s,
   Ok (is_some (ids_team_members s !! (team, user)))).

Definition list_members (team : string) (s : IdentityStore) : list User :=
  merge_sort (order_by_text u_username)
    (omap (fun e => if bool_decide (e.1.1 = team) then get_user e.1.2 s else None)
       (map_to_list (ids_team_members s))).

Definition list_user_teams (user : string) (s : IdentityStore) : list Team :=
  merge_sort (order_by_text tm_name)
    (omap (fun e => if bool_decide (e.1.2 = user) then get_team e.1.1 s else None)
       (map_to_list (ids_team_members s))).

Definition apply_team_at (t : Team) (ts : Z) : idact unit := fun s =>
  if taken_by_other (ids_teams s) team_name (tm_team_id t) (tm_name t)
  then (s, Err (Internal "apply_team_at"))
  else (with_teams (<[tm_team_id t := (t, ts)]> (ids_teams s)) s, Ok tt).

Definition apply_remote_team (now : Z) (t : Team) : idact unit := fun s =>
  if taken_by_other (ids_teams s) team_name (tm_team_id t) (tm_name t)
  then (s, Err (Internal "apply_remote_team"))
  else (with_teams (<[tm_team_id t := (t, now)]> (ids_teams s)) s, Ok tt).

(** *** [GrantStore] *)

Definition put_grant (g : Grant) : idact unit := fun s =>
  if is_some (ids_grants s !! gr_grant_id g)
     || taken_by_other (ids_grants s) gr_name (gr_grant_id g) (gr_name g)
  then (s, Err (Internal "put_grant"))
  else (with_grants (<[gr_grant_id g := g]> (ids_grants s)) s, Ok tt).

Definition get_grant (id : string) (s : IdentityStore) : option Grant := ids_grants s !! id.

Definition get_grant_by_name (name : string) (s : IdentityStore) : option Grant :=
  snd <$> List.find (fun e => bool_decide (gr_name e.2 = name)) (map_to_list (ids_grants s)).

Definition list_grants (s : IdentityStore) : list Grant :=
  merge_sort (order_by_Z gr_created_at) (snd <$> map_to_list (ids_grants s)).

(** The timestamp is bumped even when no other column changes. *)
Definition update_grant (now : Z) (id : string) (name description : option string)
    (document : option PolicyDocument) : idact bool := fun s =>
  match ids_grants s !! id with
  | None => (s, Ok false)
  | Some g =>
      let g' := {| gr_grant_id := gr_grant_id g; gr_name := default (gr_name g) name;
                   gr_description := default (gr_description g) description;
                   gr_document := default (gr_document g) document;
                   gr_created_at := gr_created_at g; gr_updated_at := now |} in
      if taken_by_other (ids_grants s) gr_name id (gr_name g')
      then (s, Err (Internal "update_grant"))
      else (with_grants (<[id := g']> (ids_grants s)) s, Ok true)
  end.

Definition delete_grant (id : string) : idact bool := fun s =>
  (with_grants (delete id (ids_grants s))
    (with_team_grants (filter (fun e => e.1.2 <> id) (ids_team_grants s))
      (with_user_grants (filter (fun e => e.1.2 <> id) (ids_user_grants s)) s)),
   Ok (is_some (ids_grants s !! id))).

Definition detach_from_user (user grant : string) : idact bool := fun s =>
  (with_user_grants (delete (user, grant) (ids_user_grants s)) s,
   Ok (is_some (ids_user_grants s !! (user, grant)))).

Definition detach_from_team (team grant : string) : idact bool := fun s =>
  (with_team_grants (delete (team, grant) (ids_team_grants s)) s,
   Ok (is_some (ids_team_grants s !! (team, grant)))).

Definition list_user_grants (user : string) (s : IdentityStore) : list Grant :=
  merge_sort (order_by_text gr_name)
    (omap (fun e => if bool_decide (e.1.1 = user) then get_grant e.1.2 s else None)
       (map_to_list (ids_user_grants s))).

Definition list_team_grants (team : string) (s : IdentityStore) : list Grant :=
  merge_sort (order_by_text gr_name)
    (omap (fun e => if bool_decide (e.1.1 = team) then get_grant e.1.2 s else None)
       (map_to_list (ids_team_grants s))).

(** The ids attached to the user directly or through a team ([UNION]). *)
Definition effective_grant_ids (user : string) (s : IdentityStore) : gset string :=
  list_to_set (omap (fun e => if bool_decide (e.1.1 = user) then Some e.1.2 else None)
    (map_to_list (ids_user_grants s)))
  ∪ list_to_set (omap (fun e =>
      if is_some (ids_team_members s !! (e.1.1, user)) then Some e.1.2 else None)
    (map_to_list (ids_team_grants s))).

Definition get_effective_policies (user : string) (s : IdentityStore) : list PolicyDocument :=
  (fun e => gr_document e.2)
    <$> List.filter (fun e => bool_decide (e.1 ∈ effective_grant_ids user s))
          (map_to_list (ids_grants s)).

Definition apply_remote_grant (g : Grant) : idact unit := fun s =>
  if taken_by_other (ids_grants s) gr_name (gr_grant_id g) (gr_name g)
  then (s, Err (Internal "apply_remote_grant"))
  else (with_grants (<[gr_grant_id g := g]> (ids_grants s)) s, Ok tt).

(** *** [ServerConfigStore] *)

Definition get_server_config (key : string) (s : IdentityStore) : option string :=
  fst <$> ids_server_config s !! key.

Definition apply_server_config_at (key value : string) (ts : Z) : idact unit := fun s =>
  (with_server_config (<[key := (value, ts)]> (ids_server_config s)) s, Ok tt).

Definition set_server_config (now : Z) (key value : string) : idact unit := fun s =>
  (with_server_config (<[key := (value, now)]> (ids_server_config s)) s, Ok tt).

Definition delete_server_config (key : string) : idact bool := fun s =>
  (with_server_config (delete key (ids_server_config s)) s,
   Ok (is_some (ids_server_config s !! key))).

Definition list_server_config (s : IdentityStore) : list (string * string) :=
  merge_sort (order_by_text fst)
    ((fun e => (e.1, e.2.1)) <$> map_to_list (ids_server_config s)).

(** *** [ControlTombstoneStore] *)

Definition record_control_tombstone (now : Z) (entity_type key : string) : idact unit := fun s =>
  (with_tombstones (<[(entity_type, key) := now]> (ids_tombstones s)) s, Ok tt).

Definition apply_control_tombstone (t : ControlTombstone) : idact unit := fun s =>
  let k := (ct_entity_type t, ct_entity_key t) in
  let at_ := match ids_tombstones s !! k with
             | Some d => Z.max d (ct_deleted_at t)
             | None => ct_deleted_at t
             end in
  (with_tombstones (<[k := at_]> (ids_tombstones s)) s, Ok tt).

Definition list_control_tombstones (s : IdentityStore) : list ControlTombstone :=
  (fun e => {| ct_entity_type := e.1.1; ct_entity_key := e.1.2; ct_deleted_at := e.2 |})
    <$> map_to_list (ids_tombstones s).

Definition delete_control_tombstone (entity_type key : string) : idact bool := fun s =>
  (with_tombstones (delete (entity_type, key) (ids_tombstones s)) s,
   Ok (is_some (ids_tombstones s !! (entity_type, key)))).

Definition purge_control_tombstones (before : Z) : idact Z := fun s =>
  let kept := filter (fun e => (before <= e.2)%Z) (ids_tombstones s) in
  (with_tombstones kept s,
   Ok (Z.of_nat (size (ids_tombstones s)) - Z.of_nat (size kept))%Z).

(** *** Joins (with their foreign keys) *)

Section foreign_keys.
Context (foreign_keys : bool).

Definition references_ok (present : bool) : bool := negb foreign_keys || present.

Definition apply_user_grant_at (user grant : string) (ts : Z) : idact unit := fun s =>
  if references_ok (is_some (ids_users s !! user) && is_some (ids_grants s !! grant))
  then (with_user_grants (<[(user, grant) := ts]> (ids_user_grants s)) s, Ok tt)
  else (s, Err (Internal "apply_user_grant_at")).

Definition attach_to_user (now : Z) (user grant : string) : idact unit := fun s =>
  if references_ok (is_some (ids_users s !! user) && is_some (ids_grants s !! grant))
  then (with_user_grants (<[(user, grant) := now]> (ids_user_grants s)) s, Ok tt)
  else (s, Err (Internal "attach_to_user")).

Definition apply_team_grant_at (team grant : string) (ts : Z) : idact unit := fun s =>
  if references_ok (is_some (ids_teams s !! team) && is_some (ids_grants s !! grant))
  then (with_team_grants (<[(team, grant) := ts]> (ids_team_grants s)) s, Ok tt)
  else (s, Err (Internal "apply_team_grant_at")).

Definition attach_to_team (now : Z) (team grant : string) : idact unit := fun s =>
  if references_ok (is_some (ids_teams s !! team) && is_some (ids_grants s !! grant))
  then (with_team_grants (<[(team, grant) := now]> (ids_team_grants s)) s, Ok tt)
  else (s, Err (Internal "attach_to_team")).

Definition apply_team_member_at (team user : string) (ts : Z) : idact unit := fun s =>
  if references_ok (is_some (ids_teams s !! team) && is_some (ids_users s !! user))
  then (with_team_members (<[(team, user) := ts]> (ids_team_members s)) s, Ok tt)
  else (s, Err (Internal "apply_team_member_at")).

Definition add_member (now : Z) (team user : string) : idact unit := fun s =>
  if references_ok (is_some (ids_teams s !! team) && is_some (ids_users s !! user))
  then (with_team_members (<[(team, user) := now]> (ids_team_members s)) s, Ok tt)
  else (s, Err (Internal "add_member")).

(** ** [apply_control_merge_via_traits] *)

Definition ignore {A} (m : idact A) : idact unit := act_bind m (fun _ => act_ret tt).

Definition apply_control_merge (plan : ControlMergePlan) : idact unit :=
  let! _ := act_for apply_control_tombstone (adopt_tombstones plan) in
  let! _ := act_for (fun c => apply_credential_at (tc_credential c) (tc_updated_at c))
              (upsert_credentials plan) in
  let! _ := act_for (fun u => apply_user_at (tu_user u) (tu_updated_at u)) (upsert_users plan) in
  let! _ := act_for (fun t => apply_team_at (tt_team t) (tt_updated_at t)) (upsert_teams plan) in
  let! _ := act_for apply_remote_grant (upsert_grants plan) in
  let! _ := act_for (fun x => apply_user_grant_at (ug_user_id x) (ug_grant_id x) (ug_updated_at x))
              (upsert_user_grants plan) in
  let! _ := act_for (fun x => apply_team_grant_at (tg_team_id x) (tg_grant_id x) (tg_updated_at x))
              (upsert_team_grants plan) in
  let! _ := act_for (fun x => apply_team_member_at (tmm_team_id x) (tmm_user_id x) (tmm_updated_at x))
              (upsert_team_members plan) in
  let! _ := act_for (fun x => apply_server_config_at (sc_key x) (sc_value x) (sc_updated_at x))
              (upsert_server_configs plan) in
  let! _ := act_for (fun k => ignore (detach_from_user k.1 k.2)) (delete_user_grants plan) in
  let! _ := act_for (fun k => ignore (detach_from_team k.1 k.2)) (delete_team_grants plan) in
  let! _ := act_for (fun k => ignore (remove_member k.1 k.2)) (delete_team_members plan) in
  let! _ := act_for (fun k => ignore (delete_server_config k)) (delete_server_configs plan) in
  let! _ := act_for (fun k => ignore (delete_credential k)) (delete_credentials plan) in
  let! _ := act_for (fun k => ignore (delete_user k)) (delete_users plan) in
  let! _ := act_for (fun k => ignore (delete_team k)) (delete_teams plan) in
  let! _ := act_for (fun k => ignore (delete_grant k)) (delete_grants plan) in
  act_for (fun t => ignore (delete_control_tombstone (ct_entity_type t) (ct_entity_key t)))
    (clear_tombstones plan).

End foreign_keys.

(** ** [build_control_snapshot] *)

(** One entity per bucket: rows of the same bucket are adjacent, and the set
    carries the largest timestamp. *)
Definition push_tag (sets : list TimestampedBucketTags) (row : (string * string) * (string * Z))
  : list TimestampedBucketTags :=
  let '((bucket, k), (v, ts)) := row in
  match last sets with
  | Some l =>
      if bool_decide (bt_bucket l = bucket)
      then removelast sets ++ [{| bt_bucket := bt_bucket l; bt_tags := bt_tags l ++ [(k, v)];
                                  bt_updated_at := Z.max (bt_updated_at l) ts |}]
      else sets ++ [{| bt_bucket := bucket; bt_tags := [(k, v)]; bt_updated_at := ts |}]
  | None => [{| bt_bucket := bucket; bt_tags := [(k, v)]; bt_updated_at := ts |}]
  end.

Definition tag_sets (rows : gmap (string * string) (string * Z)) : list TimestampedBucketTags :=
  foldl push_tag []
    (sorted_by (cmp_then (cmp_on (fun r => r.1.1) String.compare) (cmp_on (fun r => r.1.2) String.compare))
       (map_to_list rows)).

(** The two halves of the SQLite database of the node. *)
Definition build_control_snapshot (m : MetaStore) (s : IdentityStore) : ControlSnapshot :=
  {| cs_credentials :=
       (fun c => {| tc_credential := c;
                    tc_updated_at := default (cr_created_at c)
                                       (snd <$> ids_credentials s !! cr_access_key_id c) |})
         <$> list_credentials s;
     cs_users :=
       (fun u => {| tu_user := u;
                    tu_updated_at := default (u_created_at u) (snd <$> ids_users s !! u_user_id u) |})
         <$> list_users s;
     cs_teams :=
       (fun t => {| tt_team := t;
                    tt_updated_at := default (tm_created_at t) (snd <$> ids_teams s !! tm_team_id t) |})
         <$> list_teams s;
     cs_grants := list_grants s;
     cs_buckets := list_buckets m;
     cs_tombstones := list_control_tombstones s;
     cs_user_grants :=
       (fun e => {| ug_user_id := e.1.1; ug_grant_id := e.1.2; ug_updated_at := e.2 |})
         <$> map_to_list (ids_user_grants s);
     cs_team_grants :=
       (fun e => {| tg_team_id := e.1.1; tg_grant_id := e.1.2; tg_updated_at := e.2 |})
         <$> map_to_list (ids_team_grants s);
     cs_team_members :=
       (fun e => {| tmm_team_id := e.1.1; tmm_user_id := e.1.2; tmm_updated_at := e.2 |})
         <$> map_to_list (ids_team_members s);
     cs_bucket_configs :=
       (fun e => {| bc_bucket := e.1.1; bc_key := e.1.2; bc_value := e.2.1; bc_updated_at := e.2.2 |})
         <$> map_to_list (ms_bucket_config m);
     cs_bucket_tags := tag_sets (ms_bucket_tags m);
     cs_server_configs :=
       cluster_wide ((fun e => {| sc_key := e.1; sc_value := e.2.1; sc_updated_at := e.2.2 |})
         <$> map_to_list (ids_server_config s));
     cs_multipart_uploads := (map_to_list (ms_uploads m)).*2;
     cs_parts := (map_to_list (ms_parts m)).*2 |}.

(** ** Well-formed stores *)

(** Rows sit under their own id and [UNIQUE] columns are unique. *)
Definition keyed {A} (m : gmap string A) (id : A -> string) : Prop :=
  map_Forall (fun k r => id r = k) m.

Definition names_unique {A} (m : gmap string A) (name : A -> string) : Prop :=
  forall k1 k2 r1 r2, m !! k1 = Some r1 -> m !! k2 = Some r2 -> name r1 = name r2 -> k1 = k2.

(** Joins name existing rows. *)
Definition join_ok {A B : Type} (j : gmap (string * string) Z) (a : gmap string A) (b : gmap string B)
  : Prop :=
  map_Forall (fun k _ => is_Some (a !! k.1) /\ is_Some (b !! k.2)) j.

Definition joins_ok (s : IdentityStore) : Prop :=
  join_ok (ids_user_grants s) (ids_users s) (ids_grants s)
  /\ join_ok (ids_team_grants s) (ids_teams s) (ids_grants s)
  /\ join_ok (ids_team_members s) (ids_teams s) (ids_users s).

Definition rows_ok (s : IdentityStore) : Prop :=
  keyed (ids_credentials s) (fun r => cr_access_key_id r.1)
  /\ keyed (ids_users s) (fun r => u_user_id r.1)
  /\ keyed (ids_teams s) (fun r => tm_team_id r.1)
  /\ keyed (ids_grants s) gr_grant_id
  /\ names_unique (ids_users s) user_name
  /\ names_unique (ids_teams s) team_name
  /\ names_unique (ids_grants s) gr_name.

Definition store_wf (foreign_keys : bool) (s : IdentityStore) : Prop :=
  rows_ok s /\ (foreign_keys = true -> joins_ok s).

Lemma taken_by_other_false {A} (m : gmap string A) name key value :
  taken_by_other m name key value = false <->
  forall k r, m !! k = Some r -> name r = value -> k = key.
Proof.
  unfold taken_by_other. rewrite <- not_true_iff_false, existsb_exists. split.
  - intros H k r Hk Hn. destruct (decide (k = key)) as [|Hne]; [done|]. destruct H.
    exists (k, r). rewrite <- list_elem_of_In, elem_of_map_to_list. split; [done|].
    rewrite andb_true_iff, !bool_decide_eq_true. done.
  - intros H ([k r] & Hin & Hb). rewrite <- list_elem_of_In, elem_of_map_to_list in Hin.
    rewrite andb_true_iff, !bool_decide_eq_true in Hb. destruct Hb as [Hne Hn].
    by apply Hne, (H k r).
Qed.

Lemma keyed_insert {A} (m : gmap string A) id k r :
  keyed m id -> id r = k -> keyed (<[k := r]> m) id.
Proof. intros Hm Hr. by apply map_Forall_insert_2. Qed.

Lemma keyed_delete {A} (m : gmap string A) id k : keyed m id -> keyed (delete k m) id.
Proof. apply map_Forall_delete. Qed.

Lemma keyed_filter {A} (m : gmap string A) id P `{!forall x, Decision (P x)} :
  keyed m id -> keyed (filter P m) id.
Proof. intros Hm k r [Hk _]%map_lookup_filter_Some. by apply Hm. Qed.

Lemma names_unique_insert {A} (m : gmap string A) name k r :
  names_unique m name -> taken_by_other m name k (name r) = false ->
  names_unique (<[k := r]> m) name.
Proof.
  intros Hm Ht k1 k2 r1 r2. rewrite taken_by_other_false in Ht. rewrite !lookup_insert.
  repeat case_decide; subst; intros H1 H2 Hn; simplify_eq; [done|..].
  - symmetry. by apply (Ht k2 r2).
  - by apply (Ht k1 r1).
  - by apply (Hm k1 k2 r1 r2).
Qed.

Lemma names_unique_delete {A} (m : gmap string A) name k :
  names_unique m name -> names_unique (delete k m) name.
Proof.
  intros Hm k1 k2 r1 r2 [_ H1]%lookup_delete_Some [_ H2]%lookup_delete_Some. by apply Hm.
Qed.

Section join_facts.
Context {A B : Type}.
Implicit Types (j : gmap (string * string) Z) (a : gmap string A) (b : gmap string B).

Lemma is_Some_insert {V} (m : gmap string V) k k' v : is_Some (m !! k) -> is_Some (<[k' := v]> m !! k).
Proof. intros H. rewrite lookup_insert. case_decide; eauto. Qed.

Lemma join_ok_parent_l j a b k r : join_ok j a b -> join_ok j (<[k := r]> a) b.
Proof. intros H i v Hi. destruct (H i v Hi). auto using is_Some_insert. Qed.

Lemma join_ok_parent_r j a b k r : join_ok j a b -> join_ok j a (<[k := r]> b).
Proof. intros H i v Hi. destruct (H i v Hi). auto using is_Some_insert. Qed.

Lemma join_ok_insert j a b x y t :
  is_Some (a !! x) -> is_Some (b !! y) -> join_ok j a b -> join_ok (<[(x, y) := t]> j) a b.
Proof. intros Hx Hy H. by apply map_Forall_insert_2. Qed.

Lemma join_ok_delete j a b k : join_ok j a b -> join_ok (delete k j) a b.
Proof. apply map_Forall_delete. Qed.

Lemma join_ok_drop_l j a b k :
  join_ok j a b -> join_ok (filter (fun e => e.1.1 <> k) j) (delete k a) b.
Proof.
  intros H i v [Hi Hk]%map_lookup_filter_Some. destruct (H i v Hi). simpl in Hk.
  rewrite lookup_delete_ne; auto.
Qed.

Lemma join_ok_drop_r j a b k :
  join_ok j a b -> join_ok (filter (fun e => e.1.2 <> k) j) a (delete k b).
Proof.
  intros H i v [Hi Hk]%map_lookup_filter_Some. destruct (H i v Hi). simpl in Hk.
  rewrite lookup_delete_ne; auto.
Qed.
End join_facts.

Create HintDb identity.

#[export] Hint Resolve join_ok_parent_l join_ok_parent_r join_ok_insert join_ok_delete
  join_ok_drop_l join_ok_drop_r : identity.
#[export] Hint Resolve keyed_insert keyed_delete keyed_filter names_unique_insert
  names_unique_delete : identity.

(** The operations as steps. *)
Inductive id_step (foreign_keys : bool) : IdentityStore -> IdentityStore -> Prop :=
  | id_put_user s u : id_step foreign_keys s (put_user u s).1
  | id_update_user s now id n d : id_step foreign_keys s (update_user now id n d s).1
  | id_delete_user s id : id_step foreign_keys s (delete_user id s).1
  | id_apply_user s u ts : id_step foreign_keys s (apply_user_at u ts s).1
  | id_remote_user s u now : id_step foreign_keys s (apply_remote_user now u s).1
  | id_put_credential s c : id_step foreign_keys s (put_credential c s).1
  | id_update_credential s now k a d : id_step foreign_keys s (update_credential now k a d s).1
  | id_delete_credential s k : id_step foreign_keys s (delete_credential k s).1
  | id_apply_credential s c ts : id_step foreign_keys s (apply_credential_at c ts s).1
  | id_remote_credential s c now : id_step foreign_keys s (apply_remote_credential now c s).1
  | id_put_team s t : id_step foreign_keys s (put_team t s).1
  | id_update_team s now id n d : id_step foreign_keys s (update_team now id n d s).1
  | id_delete_team s id : id_step foreign_keys s (delete_team id s).1
  | id_apply_team s t ts : id_step foreign_keys s (apply_team_at t ts s).1
  | id_remote_team s t now : id_step foreign_keys s (apply_remote_team now t s).1
  | id_add_member s now t u : id_step foreign_keys s (add_member foreign_keys now t u s).1
  | id_apply_member s t u ts : id_step foreign_keys s (apply_team_member_at foreign_keys t u ts s).1
  | id_remove_member s t u : id_step foreign_keys s (remove_member t u s).1
  | id_put_grant s g : id_step foreign_keys s (put_grant g s).1
  | id_update_grant s now id n d p : id_step foreign_keys s (update_grant now id n d p s).1
  | id_delete_grant s id : id_step foreign_keys s (delete_grant id s).1
  | id_remote_grant s g : id_step foreign_keys s (apply_remote_grant g s).1
  | id_attach_user s now u g : id_step foreign_keys s (attach_to_user foreign_keys now u g s).1
  | id_apply_user_grant s u g ts :
      id_step foreign_keys s (apply_user_grant_at foreign_keys u g ts s).1
  | id_detach_user s u g : id_step foreign_keys s (detach_from_user u g s).1
  | id_attach_team s now t g : id_step foreign_keys s (attach_to_team foreign_keys now t g s).1
  | id_apply_team_grant s t g ts :
      id_step foreign_keys s (apply_team_grant_at foreign_keys t g ts s).1
  | id_detach_team s t g : id_step foreign_keys s (detach_from_team t g s).1
  | id_set_config s now k v : id_step foreign_keys s (set_server_config now k v s).1
  | id_apply_config s k v ts : id_step foreign_keys s (apply_server_config_at k v ts s).1
  | id_delete_config s k : id_step foreign_keys s (delete_server_config k s).1
  | id_record_tombstone s now e k : id_step foreign_keys s (record_control_tombstone now e k s).1
  | id_apply_tombstone s t : id_step foreign_keys s (apply_control_tombstone t s).1
  | id_delete_tombstone s e k : id_step foreign_keys s (delete_control_tombstone e k s).1
  | id_purge s before : id_step foreign_keys s (purge_control_tombstones before s).1.

Lemma is_some_spec {A} (o : option A) : is_some o = true <-> is_Some o.
Proof. destruct o as [x|]; simpl; split; [by eauto|done|done|by intros []]. Qed.

(** Opens an operation on a well-formed store: the tables, the facts about
    them, and each case of the operation. *)
Ltac open_store :=
  match goal with
  | H : store_wf _ ?s |- _ =>
      destruct s as [tcr tus tte tgr tug ttg ttm tsc tts]; pose proof H as Hkeep;
      destruct H as [(Hcr & Hus & Hte & Hgr & Hun & Htn & Hgn) Hj]
  end; simpl in *.

Ltac row_facts :=
  repeat match goal with
  | H : _ || _ = false |- _ => apply orb_false_iff in H as [? ?]
  | H : references_ok ?fk _ = true, E : ?fk = true |- _ =>
      rewrite E in H; unfold references_ok in H; simpl in H
  | H : _ && _ = true |- _ => apply andb_true_iff in H as [? ?]
  | H : is_some _ = true |- _ => apply is_some_spec in H
  | H : keyed ?m _, E : ?m !! _ = Some _ |- _ =>
      let F := fresh in pose proof (H _ _ E) as F; simpl in F; clear E
  end.

Ltac close_store :=
  split;
  [ unfold rows_ok; simpl; split_and!; eauto with identity
  | let H := fresh in intros H;
    match goal with Hj : _ = true -> joins_ok _ |- _ => specialize (Hj H) end;
    unfold joins_ok in *; simpl in *; row_facts; destruct_and!; split_and!; eauto with identity ].

Ltac step_wf :=
  open_store; repeat case_match; simpl in *; try assumption;
  row_facts; close_store.

Lemma id_step_wf fk s s' : id_step fk s s' -> store_wf fk s -> store_wf fk s'.
Proof.
  intros Hstep Hwf. destruct Hstep.
  - unfold put_user. step_wf.
  - unfold update_user. step_wf.
  - unfold delete_user. step_wf.
  - unfold apply_user_at. step_wf.
  - unfold apply_remote_user. step_wf.
  - unfold put_credential. step_wf.
  - unfold update_credential. step_wf.
  - unfold delete_credential. step_wf.
  - unfold apply_credential_at. step_wf.
  - unfold apply_remote_credential. step_wf.
  - unfold put_team. step_wf.
  - unfold update_team. step_wf.
  - unfold delete_team. step_wf.
  - unfold apply_team_at. step_wf.
  - unfold apply_remote_team. step_wf.
  - unfold add_member. step_wf.
  - unfold apply_team_member_at. step_wf.
  - unfold remove_member. step_wf.
  - unfold put_grant. step_wf.
  - unfold update_grant. step_wf.
  - unfold delete_grant. step_wf.
  - unfold apply_remote_grant. step_wf.
  - unfold attach_to_user. step_wf.
  - unfold apply_user_grant_at. step_wf.
  - unfold detach_from_user. step_wf.
  - unfold attach_to_team. step_wf.
  - unfold apply_team_grant_at. step_wf.
  - unfold detach_from_team. step_wf.
  - unfold set_server_config. step_wf.
  - unfold apply_server_config_at. step_wf.
  - unfold delete_server_config. step_wf.
  - unfold record_control_tombstone. step_wf.
  - unfold apply_control_tombstone. step_wf.
  - unfold delete_control_tombstone. step_wf.
  - unfold purge_control_tombstones. step_wf.
Qed.

(** ** Properties *)

(** Store invariant: whatever sequence of operations ran, rows sit under
    their own ids, user, team and grant names are unique, and, when foreign
    keys are enforced, every attachment and membership names existing rows
    (the cascades of the deletes keep it so). *)
Theorem identity_store_invariant (foreign_keys : bool) (s : IdentityStore) :
  rtc (id_step foreign_keys) empty_ids s -> store_wf foreign_keys s.
Proof.
  assert (store_wf foreign_keys empty_ids) as H0.
  { split; [|intros _]; unfold rows_ok, joins_ok; split_and!; try apply map_Forall_empty;
      intros ???? H; simpl in H; by rewrite lookup_empty in H. }
  intros Hr. induction Hr as [|a b c Hab _ IH]; [done|]. by apply IH, (id_step_wf _ a).
Qed.

Definition sample_grant (id : string) (doc : PolicyDocument) : Grant :=
  {| gr_grant_id := id; gr_name := id; gr_description := ""; gr_document := doc;
     gr_created_at := 1; gr_updated_at := 1 |}.

Definition sample_identity_user (id : string) : User :=
  {| u_user_id := id; u_username := id; u_description := ""; u_is_root := false;
     u_created_at := 1 |}.

Lemma identity_store_invariant_witness :
  store_wf true (attach_to_user true 5 "u" "g"
    (put_grant (sample_grant "g" {| doc_version := "2012-10-17"; doc_statement := [] |})
       (put_user (sample_identity_user "u") empty_ids).1).1).1.
Proof.
  apply identity_store_invariant.
  eapply rtc_l; [apply id_put_user|]. eapply rtc_l; [apply id_put_grant|].
  eapply rtc_l; [apply id_attach_user|]. apply rtc_refl.
Defined.

(** The grant reaches the user directly or through a team. *)
Definition attached (s : IdentityStore) (user grant : string) : Prop :=
  is_Some (ids_user_grants s !! (user, grant))
  \/ exists team, is_Some (ids_team_members s !! (team, user))
       /\ is_Some (ids_team_grants s !! (team, grant)).

Lemma effective_grant_ids_spec user s g :
  g ∈ effective_grant_ids user s <-> attached s user g.
Proof.
  unfold effective_grant_ids, attached. rewrite elem_of_union, !elem_of_list_to_set, !list_elem_of_omap.
  f_equiv.
  - split.
    + intros ([[u g'] t] & Hin & H). case_bool_decide; simplify_eq/=.
      apply elem_of_map_to_list in Hin. eauto.
    + intros [t Ht]. exists ((user, g), t). rewrite elem_of_map_to_list. simpl.
      rewrite bool_decide_true by done. done.
  - split.
    + intros ([[tm g'] t] & Hin & H). case_match eqn:E; simplify_eq/=.
      apply elem_of_map_to_list in Hin. apply is_some_spec in E. eauto.
    + intros (tm & Hm & t & Ht). exists ((tm, g), t). rewrite elem_of_map_to_list. simpl.
      apply is_some_spec in Hm. rewrite Hm. done.
Qed.

(** The policies a request is evaluated against are exactly the documents
    of the grants attached to the user directly or through one of the user's
    teams. *)
Theorem get_effective_policies_spec (user : string) (s : IdentityStore) (doc : PolicyDocument) :
  doc ∈ get_effective_policies user s <->
  exists id g, ids_grants s !! id = Some g /\ gr_document g = doc /\ attached s user id.
Proof.
  unfold get_effective_policies. rewrite list_elem_of_fmap. split.
  - intros ([id g] & -> & Hin). apply list_elem_of_In, filter_In in Hin as [Hin Hb].
    apply list_elem_of_In, elem_of_map_to_list in Hin. apply bool_decide_eq_true in Hb.
    exists id, g. by rewrite <- effective_grant_ids_spec.
  - intros (id & g & Hg & <- & Ha). exists (id, g). split; [done|].
    apply list_elem_of_In, filter_In. rewrite <- list_elem_of_In, elem_of_map_to_list.
    rewrite bool_decide_eq_true, effective_grant_ids_spec. done.
Qed.

(** Deleting a user leaves nothing of the user behind: no row, no
    credential to sign with, no membership and no policy; the other users keep
    their rows, credentials and attachments. *)
Theorem delete_user_complete (id : string) (s : IdentityStore) :
  let s' := (delete_user id s).1 in
  ids_users s' !! id = None
  /\ (forall k c t, ids_credentials s' !! k = Some (c, t) <->
        ids_credentials s !! k = Some (c, t) /\ cr_user_id c <> id)
  /\ get_effective_policies id s' = []
  /\ (forall other, other <> id ->
        ids_users s' !! other = ids_users s !! other
        /\ forall g, attached s' other g <-> attached s other g).
Proof.
  intros s'. subst s'. unfold delete_user. simpl.
  assert (forall u g, attached (delete_user id s).1 u g <-> attached s u g /\ u <> id) as Ha.
  { intros u g. unfold delete_user, attached. destruct s; simpl. split.
    - intros [[t [Ht Hne]%map_lookup_filter_Some]
             |(tm & [t [Ht Hne]%map_lookup_filter_Some] & Hg)]; simpl in *.
      + split; [left; eauto|done].
      + split; [right; eauto 10|done].
    - intros [[[t Ht]|(tm & [t Ht] & Hg)] Hne].
      + left. exists t. by apply map_lookup_filter_Some.
      + right. exists tm. split; [|done]. exists t. by apply map_lookup_filter_Some. }
  split_and!.
  - destruct s; simpl. apply lookup_delete_eq.
  - intros k c t. destruct s; simpl. rewrite map_lookup_filter_Some. done.
  - apply elem_of_nil_inv. intros doc H.
    unfold get_effective_policies in H. apply list_elem_of_fmap in H as ([g r] & _ & H).
    apply list_elem_of_In, filter_In in H as [_ Hb]. apply bool_decide_eq_true in Hb.
    apply effective_grant_ids_spec in Hb. by apply (Ha id g) in Hb as [_ ?].
  - intros other Hne. split.
    + destruct s; simpl. by apply lookup_delete_ne.
    + intros g. etrans; [apply (Ha other g)|]. split; [by intros [? _]|done].
Qed.
