(* ===== verification/IdentityMerge.v ===== *)
(** Applying control-plane merge plans to the identity tables: what each
    table holds after [apply_control_merge] ran, and the convergence of two
    nodes that merge with each other ([crates/arca-storage/src/control_merge.rs]
    on top of [plan_control_merge]).

    The tables of [IdentityStore] are related to the snapshots of
    [ControlMerge]; the plan's lists are turned into table contents key by key,
    where the resolution of one key is the join of a semilattice. *)

From S2P Require Import Prelude S3Errors Policy Types SqlTable MetadataStore ControlMerge IdentityStore.

(** ** Applying a merge plan *)

(** A loop that leaves a table alone. *)
Lemma act_for_frame {S E A P} (f : A -> act S E unit) (proj : S -> P) l s s' r :
  (forall x s1, proj (f x s1).1 = proj s1) -> act_for f l s = (s', r) -> proj s' = proj s.
Proof.
  intros Hf H. pose proof (act_for_inv f (fun x => proj x = proj s) l s) as Hi.
  rewrite H in Hi. apply Hi; [|done]. intros x s1 _ <-. apply Hf.
Qed.

(** The live rows of the parent tables, as a snapshot carries them. *)
Definition live_users (s : IdentityStore) : gmap string TimestampedUser :=
  (fun r => {| tu_user := r.1; tu_updated_at := r.2 |}) <$> ids_users s.
Definition live_teams (s : IdentityStore) : gmap string TimestampedTeam :=
  (fun r => {| tt_team := r.1; tt_updated_at := r.2 |}) <$> ids_teams s.

Definition upsert_all {A} (key : A -> string) (m : gmap string A) (l : list A) : gmap string A :=
  foldl (fun m x => <[key x := x]> m) m l.
Definition delete_all {A} (m : gmap string A) (l : list string) : gmap string A :=
  foldl (fun m k => delete k m) m l.

(** The tombstone table after the adoptions and the clears. *)
Definition adopt_one (m : gmap (string * string) Z) (t : ControlTombstone)
  : gmap (string * string) Z :=
  let k := (ct_entity_type t, ct_entity_key t) in
  <[k := match m !! k with Some d => Z.max d (ct_deleted_at t) | None => ct_deleted_at t end]> m.
Definition clear_one (m : gmap (string * string) Z) (t : ControlTombstone)
  : gmap (string * string) Z := delete (ct_entity_type t, ct_entity_key t) m.

Ltac frame_op :=
  intros; unfold ignore, act_bind, act_ret; simpl;
  match goal with s : IdentityStore |- _ => destruct s end;
  unfold apply_control_tombstone, apply_credential_at, apply_user_at, apply_team_at,
    apply_remote_grant, apply_user_grant_at, apply_team_grant_at, apply_team_member_at,
    apply_server_config_at, detach_from_user, detach_from_team, remove_member,
    delete_server_config, delete_credential, delete_user, delete_team, delete_grant,
    delete_control_tombstone; simpl; repeat case_match; done.

Section apply.
Context (foreign_keys : bool) (plan : ControlMergePlan) (s s' : IdentityStore).
Hypothesis Hok : apply_control_merge foreign_keys plan s = (s', Ok tt).

Ltac apply_steps proj tac :=
  let H := fresh in
  pose proof Hok as H; unfold apply_control_merge in H;
  repeat (let H1 := fresh in
    apply act_bind_ok in H as (? & [] & H1 & H);
    first [ apply (act_for_frame _ proj) in H1; [|solve [frame_op]] | tac H1 ]);
  first [ apply (act_for_frame _ proj) in H; [|solve [frame_op]] | tac H ].

Ltac chain proj :=
  repeat match goal with E : proj ?a = _ |- context [proj ?a] => rewrite E; clear E end;
  reflexivity.

Ltac row_op :=
  intros y s1 ? _; unfold ignore, act_bind, act_ret; simpl; destruct s1; simpl; repeat case_match;
  intros; simplify_eq/=; unfold live_users, live_teams; simpl;
  rewrite ?fmap_insert, ?fmap_delete; try done; by destruct y.

Lemma apply_merge_users :
  live_users s' = delete_all (upsert_all (fun u => u_user_id (tu_user u)) (live_users s)
    (upsert_users plan)) (delete_users plan).
Proof.
  apply_steps live_users ltac:(fun H =>
    first [ apply (act_for_fold _ live_users (fun m u => <[u_user_id (tu_user u) := u]> m)) in H
          | apply (act_for_fold _ live_users (fun m k => delete k m)) in H ]).
  1: chain live_users.
  all: unfold apply_user_at, delete_user; row_op.
Qed.

Lemma apply_merge_teams :
  live_teams s' = delete_all (upsert_all (fun t => tm_team_id (tt_team t)) (live_teams s)
    (upsert_teams plan)) (delete_teams plan).
Proof.
  apply_steps live_teams ltac:(fun H =>
    first [ apply (act_for_fold _ live_teams (fun m t => <[tm_team_id (tt_team t) := t]> m)) in H
          | apply (act_for_fold _ live_teams (fun m k => delete k m)) in H ]).
  1: chain live_teams.
  all: unfold apply_team_at, delete_team; row_op.
Qed.

Lemma apply_merge_grants :
  ids_grants s' = delete_all (upsert_all gr_grant_id (ids_grants s) (upsert_grants plan))
    (delete_grants plan).
Proof.
  apply_steps ids_grants ltac:(fun H =>
    first [ apply (act_for_fold _ ids_grants (fun m g => <[gr_grant_id g := g]> m)) in H
          | apply (act_for_fold _ ids_grants (fun m k => delete k m)) in H ]).
  1: chain ids_grants.
  all: unfold apply_remote_grant, delete_grant; row_op.
Qed.

Lemma apply_merge_tombstones :
  ids_tombstones s' = foldl clear_one (foldl adopt_one (ids_tombstones s) (adopt_tombstones plan))
    (clear_tombstones plan).
Proof.
  apply_steps ids_tombstones ltac:(fun H =>
    first [ apply (act_for_fold apply_control_tombstone ids_tombstones adopt_one) in H
          | apply (act_for_fold _ ids_tombstones clear_one) in H ]).
  1: chain ids_tombstones.
  all: unfold apply_control_tombstone, delete_control_tombstone, adopt_one, clear_one; row_op.
Qed.
End apply.

(** ** From tables to snapshots *)

Lemma hm_collect_functional {V} (l : list (string * V)) k v :
  (k, v) ∈ l -> (forall w, (k, w) ∈ l -> w = v) -> hm_collect l !! k = Some v.
Proof.
  intros Hin Hf. assert (is_Some (hm_collect l !! k)) as [w Hw].
  { apply elem_of_dom. rewrite hm_collect_dom. apply elem_of_list_to_set.
    apply list_elem_of_fmap. by exists (k, v). }
  rewrite Hw. f_equal. by apply Hf, hm_collect_elem.
Qed.

(** A map is recovered from any list of its rows. *)
Lemma alive_map_rows {A} (key : A -> string) (m : gmap string A) (l : list A) :
  keyed m key -> (forall x, x ∈ l <-> m !! key x = Some x) -> alive_map key l = m.
Proof.
  intros Hk Hl. apply map_eq. intros k. unfold alive_map.
  destruct (m !! k) as [x|] eqn:E.
  - pose proof (Hk _ _ E) as <-. apply hm_collect_functional.
    + apply list_elem_of_fmap. exists x. split; [done|]. by apply Hl.
    + intros y Hy. apply list_elem_of_fmap in Hy as (z & [= Hz ->] & Hin).
      apply Hl in Hin. congruence.
  - destruct (hm_collect _ !! k) as [x|] eqn:E'; [|done]. exfalso.
    apply hm_collect_elem, list_elem_of_fmap in E' as (y & [= -> ->] & Hin).
    apply Hl in Hin. congruence.
Qed.

Lemma snapshot_users m s :
  rows_ok s -> alive_map (fam_key user_family) (fam_rows user_family (build_control_snapshot m s))
    = live_users s.
Proof.
  intros (_ & Hk & _). apply alive_map_rows.
  - intros k x Hx. unfold live_users in Hx. rewrite lookup_fmap in Hx.
    destruct (ids_users s !! k) as [[u t]|] eqn:E; simplify_eq/=. by apply (Hk _ _ E).
  - intros x. simpl. rewrite list_elem_of_fmap. unfold list_users.
    setoid_rewrite (merge_sort_Permutation (order_by_Z u_created_at)).
    setoid_rewrite list_elem_of_fmap. unfold live_users. rewrite lookup_fmap. split.
    + intros (u & -> & ([k [u' t]] & -> & Hin)). apply elem_of_map_to_list in Hin. simpl.
      pose proof (Hk _ _ Hin) as Hid. simpl in Hid. rewrite Hid, Hin. done.
    + intros Hx. destruct (ids_users s !! u_user_id (tu_user x)) as [[u t]|] eqn:E; [|done].
      injection Hx as <-. simpl in *. exists u. split; [by rewrite E|].
      exists (u_user_id u, (u, t)). by rewrite elem_of_map_to_list.
Qed.

Lemma snapshot_teams m s :
  rows_ok s -> alive_map (fam_key team_family) (fam_rows team_family (build_control_snapshot m s))
    = live_teams s.
Proof.
  intros (_ & _ & Hk & _). apply alive_map_rows.
  - intros k x Hx. unfold live_teams in Hx. rewrite lookup_fmap in Hx.
    destruct (ids_teams s !! k) as [[u t]|] eqn:E; simplify_eq/=. by apply (Hk _ _ E).
  - intros x. simpl. rewrite list_elem_of_fmap. unfold list_teams.
    setoid_rewrite (merge_sort_Permutation (order_by_Z tm_created_at)).
    setoid_rewrite list_elem_of_fmap. unfold live_teams. rewrite lookup_fmap. split.
    + intros (u & -> & ([k [u' t]] & -> & Hin)). apply elem_of_map_to_list in Hin. simpl.
      pose proof (Hk _ _ Hin) as Hid. simpl in Hid. rewrite Hid, Hin. done.
    + intros Hx. destruct (ids_teams s !! tm_team_id (tt_team x)) as [[u t]|] eqn:E; [|done].
      injection Hx as <-. simpl in *. exists u. split; [by rewrite E|].
      exists (tm_team_id u, (u, t)). by rewrite elem_of_map_to_list.
Qed.

Lemma snapshot_grants m s :
  rows_ok s -> alive_map (fam_key grant_family) (fam_rows grant_family (build_control_snapshot m s))
    = ids_grants s.
Proof.
  intros (_ & _ & _ & Hk & _). apply alive_map_rows; [done|].
  intros x. simpl. unfold list_grants. rewrite (merge_sort_Permutation (order_by_Z gr_created_at)).
  rewrite list_elem_of_fmap. split.
  - intros ([k g] & -> & Hin). apply elem_of_map_to_list in Hin. simpl.
    by rewrite (Hk _ _ Hin).
  - intros Hx. exists (gr_grant_id x, x). by rewrite elem_of_map_to_list.
Qed.

Lemma snapshot_tombstones m s et k :
  tombstone_map (cs_tombstones (build_control_snapshot m s)) et !! k = ids_tombstones s !! (et, k).
Proof.
  assert (forall d, (k, d) ∈ (fun t => (ct_entity_key t, ct_deleted_at t))
            <$> filter (fun t => ct_entity_type t = et) (list_control_tombstones s)
          <-> ids_tombstones s !! (et, k) = Some d) as H.
  { intros d. rewrite list_elem_of_fmap. setoid_rewrite list_elem_of_filter.
    unfold list_control_tombstones. setoid_rewrite list_elem_of_fmap. split.
    - intros (t & [= -> ->] & <- & ([[e k'] d'] & -> & Hin)). simpl.
      by apply elem_of_map_to_list in Hin.
    - intros Hd. eexists {| ct_entity_type := et; ct_entity_key := k; ct_deleted_at := d |}.
      split; [done|]. split; [done|]. exists ((et, k), d). by rewrite elem_of_map_to_list. }
  unfold tombstone_map. simpl. destruct (ids_tombstones s !! (et, k)) as [d|] eqn:E.
  - apply hm_collect_functional; [by apply H|]. intros w Hw. apply H in Hw. congruence.
  - destruct (hm_collect _ !! k) as [d|] eqn:E'; [|done].
    apply hm_collect_elem, H in E'. congruence.
Qed.

(** ** From plans to tables *)

Lemma upsert_all_other {A} (key : A -> string) m l k :
  (forall x, x ∈ l -> key x <> k) -> upsert_all key m l !! k = m !! k.
Proof.
  revert m. induction l as [|x l IH]; intros m H; [done|]. simpl. unfold upsert_all in *.
  rewrite IH by (intros; apply H; by right). apply lookup_insert_ne, H. by left.
Qed.

Lemma upsert_all_in {A} (key : A -> string) m l x :
  x ∈ l -> (forall y, y ∈ l -> key y = key x -> y = x) -> upsert_all key m l !! key x = Some x.
Proof.
  unfold upsert_all. revert m. induction l as [|y l IH]; intros m Hin Hf; [set_solver|]. simpl.
  destruct (decide (key x ∈ key <$> l)) as [Hl|Hl].
  - apply list_elem_of_fmap in Hl as (z & Hz & Hzl).
    apply IH; [|intros w Hw; apply Hf; by right].
    rewrite <- (Hf z); [done|by right|done].
  - etrans; [apply (upsert_all_other key)|].
    { intros z Hz E. apply Hl. apply list_elem_of_fmap. eauto. }
    apply elem_of_cons in Hin as [->|Hin]; [apply lookup_insert_eq|].
    destruct Hl. apply list_elem_of_fmap. eauto.
Qed.

Lemma delete_all_lookup {A} (m : gmap string A) l k :
  delete_all m l !! k = if decide (k ∈ l) then None else m !! k.
Proof.
  unfold delete_all. revert m. induction l as [|x l IH]; intros m; cbn [foldl].
  - rewrite decide_False; [done|apply not_elem_of_nil].
  - rewrite IH. destruct (decide (k ∈ l)) as [H|H].
    + rewrite decide_True; [done|by right].
    + destruct (decide (k = x)) as [->|Hn].
      * rewrite lookup_delete_eq, decide_True; [done|by left].
      * rewrite lookup_delete_ne by done. rewrite decide_False; [done|set_solver].
Qed.

Section family_tables.
Context (MIN_UTC : Z) {A : Type} (et : string) (key : A -> string) (ts : A -> Z).
Context (la ra : gmap string A) (ld rd : gmap string Z).
Hypothesis Hla : keyed la key.
Hypothesis Hra : keyed ra key.

Abbreviation p := (merge_keys MIN_UTC et ts no_parent by_key la ra ld rd (union_keys la ra ld rd)).
Abbreviation res := (family_resolution ts la ra ld rd).

Lemma resolve_upsert_not_delete a b c d :
  kr_upsert_from_remote (resolve_key a b c d) = true ->
  kr_delete_local (resolve_key a b c d) = false.
Proof. unfold resolve_key. by case_match. Qed.

(** The table of a parent family after its upserts and deletes. *)
Lemma family_table_lookup k :
  delete_all (upsert_all key la (fp_upsert p)) (fp_delete p) !! k =
  if kr_upsert_from_remote (res k) then ra !! k
  else if kr_delete_local (res k) then None else la !! k.
Proof.
  assert (k ∈ fp_delete p <-> kr_delete_local (res k) = true) as Hd.
  { rewrite elem_of_fp_delete. split.
    - intros (k' & x & _ & H & _ & ->). done.
    - intros H. pose proof H as [[t Ht] _]%resolve_delete.
      destruct (la !! k) as [x|] eqn:E; [|done].
      exists k, x. split_and!; try done. apply elem_of_union_keys. left. eauto. }
  rewrite delete_all_lookup. destruct (kr_upsert_from_remote (res k)) eqn:Eu.
  - pose proof (resolve_upsert_not_delete _ _ _ _ Eu) as Ed.
    rewrite decide_False by (rewrite Hd; unfold family_resolution in *; congruence).
    pose proof Eu as (t & Ht & _)%resolve_upsert.
    destruct (ra !! k) as [x|] eqn:E; [|done]. pose proof (Hra _ _ E) as <-.
    apply upsert_all_in.
    + apply elem_of_fp_upsert. exists (key x). split_and!; try done.
      apply elem_of_union_keys. eauto.
    + intros y Hy Hk. apply elem_of_fp_upsert in Hy as (k' & _ & _ & Hr & _).
      pose proof (Hra _ _ Hr) as <-. congruence.
  - rewrite upsert_all_other.
    2: { intros x Hx <-. apply elem_of_fp_upsert in Hx as (k' & _ & Hu & Hr & _).
         pose proof (Hra _ _ Hr) as <-. congruence. }
    destruct (kr_delete_local (res k)) eqn:Ed.
    + rewrite decide_True; [done|by apply Hd].
    + rewrite decide_False; [done|]. rewrite Hd. congruence.
Qed.

Lemma family_table_ts k :
  ts <$> delete_all (upsert_all key la (fp_upsert p)) (fp_delete p) !! k =
  (carry_out (ts <$> la !! k, ld !! k) (ts <$> ra !! k, rd !! k)).1.
Proof.
  rewrite family_table_lookup. unfold carry_out, family_resolution. simpl. by repeat case_match.
Qed.
End family_tables.

(** Tombstones after the adoptions and clears of a plan. *)
Definition tomb_key (t : ControlTombstone) : string * string := (ct_entity_type t, ct_entity_key t).

Lemma adopt_other l m k : k ∉ tomb_key <$> l -> foldl adopt_one m l !! k = m !! k.
Proof.
  revert m. induction l as [|t l IH]; intros m H; [done|]. rewrite fmap_cons, not_elem_of_cons in H.
  destruct H as [H1 H2]. simpl. rewrite IH by done. unfold adopt_one.
  by apply lookup_insert_ne.
Qed.

Lemma adopt_in l m k d :
  k ∈ tomb_key <$> l -> (forall t, t ∈ l -> tomb_key t = k -> ct_deleted_at t = d) ->
  foldl adopt_one m l !! k = Some (match m !! k with Some x => Z.max x d | None => d end).
Proof.
  revert m. induction l as [|t l IH]; intros m Hin Hf; [set_solver|]. cbn [foldl].
  assert (adopt_one m t !! k = if decide (tomb_key t = k)
    then Some (match m !! k with Some x => Z.max x d | None => d end) else m !! k) as Ht.
  { case_decide as E.
    - pose proof (Hf t ltac:(by left) E) as <-. subst k. apply lookup_insert_eq.
    - by apply lookup_insert_ne. }
  destruct (decide (k ∈ tomb_key <$> l)) as [Hl|Hl].
  - rewrite IH; [|done|intros; apply Hf; [by right|done]]. rewrite Ht. case_decide; [|done].
    f_equal. destruct (m !! k); lia.
  - rewrite adopt_other by done. rewrite Ht. rewrite fmap_cons, elem_of_cons in Hin.
    destruct Hin as [->|?]; [|done]. by rewrite decide_True.
Qed.

Lemma clear_lookup l m k :
  foldl clear_one m l !! k = if decide (k ∈ tomb_key <$> l) then None else m !! k.
Proof.
  revert m. induction l as [|t l IH]; intros m; cbn [foldl fmap list_fmap].
  - rewrite decide_False; [done|apply not_elem_of_nil].
  - rewrite IH. unfold clear_one. destruct (decide (k ∈ tomb_key <$> l)) as [H|H].
    + rewrite decide_True; [done|by right].
    + destruct (decide (k = tomb_key t)) as [->|Hn].
      * rewrite lookup_delete_eq, decide_True; [done|by left].
      * rewrite lookup_delete_ne by done. rewrite decide_False; [done|].
        rewrite not_elem_of_cons. done.
Qed.

Lemma in_tombs (l : list ControlTombstone) et k :
  (et, k) ∈ tomb_key <$> l <->
  exists t, t ∈ l /\ ct_entity_type t = et /\ ct_entity_key t = k.
Proof.
  rewrite list_elem_of_fmap. split.
  - intros (t & [= -> ->] & ?). eauto.
  - intros (t & ? & <- & <-). by exists t.
Qed.

Lemma resolve_adopt_clear a b c d t :
  kr_adopt_tombstone_at (resolve_key a b c d) = Some t ->
  kr_clear_tombstone (resolve_key a b c d) = false
  /\ match b with Some x => (x < t)%Z | None => True end.
Proof.
  destruct a, b, c, d; unfold resolve_key; simpl; lww_solve; intros; simplify_eq/=;
    (split; [done|]); first [done|lia].
Qed.

(** A plan whose tombstone actions of one type come from one family. *)
Section family_tombstones.
Context (MIN_UTC : Z) {A : Type} (et : string) (ts : A -> Z).
Context (la ra : gmap string A) (ld rd : gmap string Z).
Abbreviation p := (merge_keys MIN_UTC et ts no_parent by_key la ra ld rd (union_keys la ra ld rd)).
Abbreviation res := (family_resolution ts la ra ld rd).

Context (adopts clears : list ControlTombstone) (m : gmap (string * string) Z).
Hypothesis Hadopt : forall t, ct_entity_type t = et -> (t ∈ adopts <-> t ∈ fp_adopt p).
Hypothesis Hclear : forall t, ct_entity_type t = et -> (t ∈ clears <-> t ∈ fp_clear p).
Hypothesis Hm : forall k, m !! (et, k) = ld !! k.

Lemma family_tombstone_lookup k :
  foldl clear_one (foldl adopt_one m adopts) clears !! (et, k) =
  (carry_out (ts <$> la !! k, ld !! k) (ts <$> ra !! k, rd !! k)).2.
Proof.
  unfold carry_out. simpl. change (resolve_key _ _ _ _) with (res k).
  assert (k ∈ union_keys la ra ld rd \/
     (kr_adopt_tombstone_at (res k) = None /\ kr_clear_tombstone (res k) = false)) as Hkeys.
  { destruct (decide (k ∈ union_keys la ra ld rd)) as [|H]; [by left|right].
    rewrite elem_of_union_keys in H. unfold family_resolution.
    destruct (la !! k), (ra !! k), (ld !! k), (rd !! k); try (destruct H; eauto 10; fail). done. }
  assert ((et, k) ∈ tomb_key <$> clears <-> kr_clear_tombstone (res k) = true) as Hc.
  { rewrite in_tombs. split.
    - intros (t & Ht & Hty & <-). apply Hclear in Ht; [|done].
      by apply elem_of_fp_clear in Ht as (_ & _ & _ & ?).
    - intros H. eexists {| ct_entity_type := et; ct_entity_key := k; ct_deleted_at := MIN_UTC |}.
      split; [|done]. apply Hclear; [done|]. apply elem_of_fp_clear. simpl.
      destruct Hkeys as [|[_ ?]]; [done|congruence]. }
  assert (forall t, t ∈ adopts -> tomb_key t = (et, k) ->
     kr_adopt_tombstone_at (res k) = Some (ct_deleted_at t)) as Ha.
  { intros t Ht [= Hty <-]. apply Hadopt in Ht; [|done].
    by apply elem_of_fp_adopt in Ht as (_ & _ & ?). }
  rewrite clear_lookup. destruct (kr_adopt_tombstone_at (res k)) as [d|] eqn:Ead.
  - pose proof (resolve_adopt_clear _ _ _ _ _ Ead) as [Ecl Hlt].
    rewrite decide_False by (rewrite Hc; unfold family_resolution in *; congruence).
    rewrite (adopt_in adopts m (et, k) d).
    + rewrite Hm. f_equal. destruct (ld !! k); [lia|done].
    + apply in_tombs. exists {| ct_entity_type := et; ct_entity_key := k; ct_deleted_at := d |}.
      split; [|done]. apply Hadopt; [done|]. apply elem_of_fp_adopt. simpl.
      by destruct Hkeys as [|[? _]].
    + intros t Ht Hk. specialize (Ha t Ht Hk). congruence.
  - rewrite adopt_other.
    2: { intros (t & Ht & Hty & <-)%in_tombs. specialize (Ha t Ht).
         unfold tomb_key in Ha. rewrite Hty in Ha. specialize (Ha eq_refl). congruence. }
    rewrite Hm. destruct (kr_clear_tombstone (res k)) eqn:Ec.
    + rewrite decide_True; [done|by apply Hc].
    + rewrite decide_False; [done|]. rewrite Hc. done.
Qed.
End family_tombstones.

(** ** Two nodes that merge with each other *)

(** The tombstone actions of a plan for the parent families. *)
Section plan_tombstones.
Context (MIN_UTC : Z) (l r : ControlSnapshot) (t : ControlTombstone).
Abbreviation plan := (plan_control_merge MIN_UTC l r).

Lemma server_config_adopt_type :
  t ∈ fp_adopt (merge_server_configs MIN_UTC l r) -> ct_entity_type t = TOMBSTONE_SERVER_CONFIG.
Proof. unfold merge_server_configs. rewrite elem_of_fp_adopt. by intros [? _]. Qed.

Lemma server_config_clear_type :
  t ∈ fp_clear (merge_server_configs MIN_UTC l r) -> ct_entity_type t = TOMBSTONE_SERVER_CONFIG.
Proof. unfold merge_server_configs. rewrite elem_of_fp_clear. by intros [? _]. Qed.

Ltac tomb_cases :=
  let Ety := fresh in let Ht := fresh in intros Ety; unfold plan_control_merge; cbn [adopt_tombstones clear_tombstones];
  rewrite !elem_of_app;
  split; [intros Ht|tauto];
  repeat match type of Ht with _ \/ _ => destruct Ht as [Ht|Ht] end; try exact Ht; exfalso;
  unfold merge_credentials, merge_users, merge_teams, merge_grants, merge_buckets,
    merge_user_grants, merge_team_grants, merge_team_members, merge_bucket_configs,
    merge_bucket_tags, merge_multipart_uploads in Ht;
  lazymatch type of Ht with
  | _ ∈ fp_adopt (merge_family _ _ _ _ _ _ _ _ _ _) => apply family_adopt_type in Ht
  | _ ∈ fp_clear (merge_family _ _ _ _ _ _ _ _ _ _) => apply family_clear_type in Ht
  | _ ∈ fp_adopt _ => apply server_config_adopt_type in Ht
  | _ => apply server_config_clear_type in Ht
  end; rewrite Ety in Ht; discriminate Ht.

Lemma plan_adopt_user : ct_entity_type t = TOMBSTONE_USER ->
  t ∈ adopt_tombstones plan <-> t ∈ fp_adopt (merge_users MIN_UTC l r).
Proof. tomb_cases. Qed.
Lemma plan_clear_user : ct_entity_type t = TOMBSTONE_USER ->
  t ∈ clear_tombstones plan <-> t ∈ fp_clear (merge_users MIN_UTC l r).
Proof. tomb_cases. Qed.
Lemma plan_adopt_team : ct_entity_type t = TOMBSTONE_TEAM ->
  t ∈ adopt_tombstones plan <-> t ∈ fp_adopt (merge_teams MIN_UTC l r).
Proof. tomb_cases. Qed.
Lemma plan_clear_team : ct_entity_type t = TOMBSTONE_TEAM ->
  t ∈ clear_tombstones plan <-> t ∈ fp_clear (merge_teams MIN_UTC l r).
Proof. tomb_cases. Qed.
Lemma plan_adopt_grant : ct_entity_type t = TOMBSTONE_GRANT ->
  t ∈ adopt_tombstones plan <-> t ∈ fp_adopt (merge_grants MIN_UTC l r).
Proof. tomb_cases. Qed.
Lemma plan_clear_grant : ct_entity_type t = TOMBSTONE_GRANT ->
  t ∈ clear_tombstones plan <-> t ∈ fp_clear (merge_grants MIN_UTC l r).
Proof. tomb_cases. Qed.
End plan_tombstones.

(** One parent family on two nodes: [la], [ra] are the live rows of the nodes
    before, [la'], [ra'] after each applied its plan. *)
Section two_nodes.
Context (MIN_UTC : Z) {A : Type} (et : string) (key : A -> string) (ts : A -> Z).
Context (la ra : gmap string A) (ld rd : gmap string Z).
Hypothesis Hla : keyed la key.
Hypothesis Hra : keyed ra key.
Hypothesis Hagree : forall k x y, la !! k = Some x -> ra !! k = Some y -> ts x = ts y -> x = y.

Abbreviation plan_l :=
  (merge_keys MIN_UTC et ts no_parent by_key la ra ld rd (union_keys la ra ld rd)).
Abbreviation plan_r :=
  (merge_keys MIN_UTC et ts no_parent by_key ra la rd ld (union_keys ra la rd ld)).

Lemma tables_converge :
  delete_all (upsert_all key la (fp_upsert plan_l)) (fp_delete plan_l)
  = delete_all (upsert_all key ra (fp_upsert plan_r)) (fp_delete plan_r).
Proof.
  apply map_eq. intros k.
  pose proof (family_table_ts MIN_UTC et key ts la ra ld rd Hra k) as Hl.
  pose proof (family_table_ts MIN_UTC et key ts ra la rd ld Hla k) as Hr.
  rewrite resolve_key_refines in Hl, Hr. rewrite settle_comm in Hr. rewrite <- Hl in Hr.
  clear Hl. revert Hr.
  assert (forall lx rx : gmap string A, keyed lx key -> keyed rx key -> forall (dl dr : gmap string Z),
    let p := merge_keys MIN_UTC et ts no_parent by_key lx rx dl dr (union_keys lx rx dl dr) in
    forall x, delete_all (upsert_all key lx (fp_upsert p)) (fp_delete p) !! k = Some x ->
    lx !! k = Some x \/ rx !! k = Some x) as Hsrc.
  { intros lx rx Hlx Hrx dl dr p x. subst p. rewrite family_table_lookup by done.
    repeat case_match; auto; done. }
  pose proof (Hsrc la ra Hla Hra ld rd) as Sl. pose proof (Hsrc ra la Hra Hla rd ld) as Sr.
  cbv zeta in Sl, Sr. clear Hsrc.
  destruct (delete_all (upsert_all key la _) _ !! k) as [x|],
    (delete_all (upsert_all key ra _) _ !! k) as [y|]; simpl; try done.
  intros [= E]. f_equal.
  destruct (Sl x eq_refl) as [Hx|Hx], (Sr y eq_refl) as [Hy|Hy]; try congruence;
    [by apply (Hagree k)|symmetry; by apply (Hagree k)].
Qed.
End two_nodes.

(** Rows with equal timestamps are equal: one write, one timestamp. *)
Definition rows_agree (l r : IdentityStore) : Prop :=
  (forall k x y, live_users l !! k = Some x -> live_users r !! k = Some y ->
     tu_updated_at x = tu_updated_at y -> x = y)
  /\ (forall k x y, live_teams l !! k = Some x -> live_teams r !! k = Some y ->
     tt_updated_at x = tt_updated_at y -> x = y)
  /\ (forall k x y, ids_grants l !! k = Some x -> ids_grants r !! k = Some y ->
     gr_updated_at x = gr_updated_at y -> x = y).

Lemma live_users_keyed s : rows_ok s -> keyed (live_users s) (fun u => u_user_id (tu_user u)).
Proof.
  intros (_ & Hk & _) k x Hx. unfold live_users in Hx. rewrite lookup_fmap in Hx.
  destruct (ids_users s !! k) as [[u t]|] eqn:E; simplify_eq/=. by apply (Hk _ _ E).
Qed.

Lemma live_teams_keyed s : rows_ok s -> keyed (live_teams s) (fun t => tm_team_id (tt_team t)).
Proof.
  intros (_ & _ & Hk & _) k x Hx. unfold live_teams in Hx. rewrite lookup_fmap in Hx.
  destruct (ids_teams s !! k) as [[u t]|] eqn:E; simplify_eq/=. by apply (Hk _ _ E).
Qed.

Section merge_blocks.
Context (MIN_UTC : Z) (ml mr : MetaStore) (l r : IdentityStore).
Hypothesis Hl : rows_ok l.
Hypothesis Hr : rows_ok r.
Abbreviation L := (build_control_snapshot ml l).
Abbreviation R := (build_control_snapshot mr r).

Lemma merge_users_tables :
  let ld := tombstone_map (cs_tombstones L) TOMBSTONE_USER in
  let rd := tombstone_map (cs_tombstones R) TOMBSTONE_USER in
  merge_users MIN_UTC L R = merge_keys MIN_UTC TOMBSTONE_USER tu_updated_at no_parent by_key
    (live_users l) (live_users r) ld rd (union_keys (live_users l) (live_users r) ld rd).
Proof.
  intros ld rd. unfold merge_users, merge_family.
  pose proof (snapshot_users ml l Hl) as El. pose proof (snapshot_users mr r Hr) as Er.
  cbn [user_family fam_key fam_rows] in El, Er.
  rewrite El, Er. done.
Qed.

Lemma merge_teams_tables :
  let ld := tombstone_map (cs_tombstones L) TOMBSTONE_TEAM in
  let rd := tombstone_map (cs_tombstones R) TOMBSTONE_TEAM in
  merge_teams MIN_UTC L R = merge_keys MIN_UTC TOMBSTONE_TEAM tt_updated_at no_parent by_key
    (live_teams l) (live_teams r) ld rd (union_keys (live_teams l) (live_teams r) ld rd).
Proof.
  intros ld rd. unfold merge_teams, merge_family.
  pose proof (snapshot_teams ml l Hl) as El. pose proof (snapshot_teams mr r Hr) as Er.
  cbn [team_family fam_key fam_rows] in El, Er.
  rewrite El, Er. done.
Qed.

Lemma merge_grants_tables :
  let ld := tombstone_map (cs_tombstones L) TOMBSTONE_GRANT in
  let rd := tombstone_map (cs_tombstones R) TOMBSTONE_GRANT in
  merge_grants MIN_UTC L R = merge_keys MIN_UTC TOMBSTONE_GRANT gr_updated_at no_parent by_key
    (ids_grants l) (ids_grants r) ld rd (union_keys (ids_grants l) (ids_grants r) ld rd).
Proof.
  intros ld rd. unfold merge_grants, merge_family.
  pose proof (snapshot_grants ml l Hl) as El. pose proof (snapshot_grants mr r Hr) as Er.
  cbn [grant_family fam_key fam_rows] in El, Er.
  rewrite El, Er. done.
Qed.
Lemma user_tombstones_after fk s' k :
  apply_control_merge fk (plan_control_merge MIN_UTC L R) l = (s', Ok tt) ->
  ids_tombstones s' !! (TOMBSTONE_USER, k) =
  (settle (tu_updated_at <$> live_users l !! k, ids_tombstones l !! (TOMBSTONE_USER, k))
          (tu_updated_at <$> live_users r !! k, ids_tombstones r !! (TOMBSTONE_USER, k))).2.
Proof.
  intros Ha. rewrite (apply_merge_tombstones _ _ _ _ Ha), <- (snapshot_tombstones ml l), <- (snapshot_tombstones mr r),
    <- resolve_key_refines.
  apply (family_tombstone_lookup MIN_UTC TOMBSTONE_USER tu_updated_at (live_users l) (live_users r)).
  - intros t Ht. rewrite plan_adopt_user by done. by rewrite merge_users_tables.
  - intros t Ht. rewrite plan_clear_user by done. by rewrite merge_users_tables.
  - intros k'. by rewrite snapshot_tombstones.
Qed.

Lemma team_tombstones_after fk s' k :
  apply_control_merge fk (plan_control_merge MIN_UTC L R) l = (s', Ok tt) ->
  ids_tombstones s' !! (TOMBSTONE_TEAM, k) =
  (settle (tt_updated_at <$> live_teams l !! k, ids_tombstones l !! (TOMBSTONE_TEAM, k))
          (tt_updated_at <$> live_teams r !! k, ids_tombstones r !! (TOMBSTONE_TEAM, k))).2.
Proof.
  intros Ha. rewrite (apply_merge_tombstones _ _ _ _ Ha), <- (snapshot_tombstones ml l), <- (snapshot_tombstones mr r),
    <- resolve_key_refines.
  apply (family_tombstone_lookup MIN_UTC TOMBSTONE_TEAM tt_updated_at (live_teams l) (live_teams r)).
  - intros t Ht. rewrite plan_adopt_team by done. by rewrite merge_teams_tables.
  - intros t Ht. rewrite plan_clear_team by done. by rewrite merge_teams_tables.
  - intros k'. by rewrite snapshot_tombstones.
Qed.

Lemma grant_tombstones_after fk s' k :
  apply_control_merge fk (plan_control_merge MIN_UTC L R) l = (s', Ok tt) ->
  ids_tombstones s' !! (TOMBSTONE_GRANT, k) =
  (settle (gr_updated_at <$> ids_grants l !! k, ids_tombstones l !! (TOMBSTONE_GRANT, k))
          (gr_updated_at <$> ids_grants r !! k, ids_tombstones r !! (TOMBSTONE_GRANT, k))).2.
Proof.
  intros Ha. rewrite (apply_merge_tombstones _ _ _ _ Ha), <- (snapshot_tombstones ml l), <- (snapshot_tombstones mr r),
    <- resolve_key_refines.
  apply (family_tombstone_lookup MIN_UTC TOMBSTONE_GRANT gr_updated_at (ids_grants l) (ids_grants r)).
  - intros t Ht. rewrite plan_adopt_grant by done. by rewrite merge_grants_tables.
  - intros t Ht. rewrite plan_clear_grant by done. by rewrite merge_grants_tables.
  - intros k'. by rewrite snapshot_tombstones.
Qed.
End merge_blocks.

(** C21. The control plane converges: two well-formed nodes that build their
    snapshots, plan the merge with each other and both apply their plans without
    error end with the same users, teams and grants, and with the same
    tombstones for them, whatever they held before, as long as their live rows
    of one key that have the same timestamp are equal. *)
Theorem control_merge_converges (foreign_keys : bool) (MIN_UTC : Z) (ml mr : MetaStore)
    (l r l' r' : IdentityStore) :
  rows_ok l -> rows_ok r -> rows_agree l r ->
  apply_control_merge foreign_keys
    (plan_control_merge MIN_UTC (build_control_snapshot ml l) (build_control_snapshot mr r)) l
    = (l', Ok tt) ->
  apply_control_merge foreign_keys
    (plan_control_merge MIN_UTC (build_control_snapshot mr r) (build_control_snapshot ml l)) r
    = (r', Ok tt) ->
  live_users l' = live_users r' /\ live_teams l' = live_teams r' /\ ids_grants l' = ids_grants r'
  /\ forall et k, et ∈ [TOMBSTONE_USER; TOMBSTONE_TEAM; TOMBSTONE_GRANT] ->
       ids_tombstones l' !! (et, k) = ids_tombstones r' !! (et, k).
Proof.
  intros Hl Hr (Au & At & Ag) Hal Har.
  set (L := build_control_snapshot ml l) in *. set (R := build_control_snapshot mr r) in *.
  split_and!.
  - rewrite (apply_merge_users _ _ _ _ Hal), (apply_merge_users _ _ _ _ Har).
    change (upsert_users (plan_control_merge MIN_UTC ?a ?b)) with (fp_upsert (merge_users MIN_UTC a b)).
    change (delete_users (plan_control_merge MIN_UTC ?a ?b)) with (fp_delete (merge_users MIN_UTC a b)).
    unfold L, R. rewrite !merge_users_tables by done.
    apply tables_converge; [by apply live_users_keyed..|done].
  - rewrite (apply_merge_teams _ _ _ _ Hal), (apply_merge_teams _ _ _ _ Har).
    change (upsert_teams (plan_control_merge MIN_UTC ?a ?b)) with (fp_upsert (merge_teams MIN_UTC a b)).
    change (delete_teams (plan_control_merge MIN_UTC ?a ?b)) with (fp_delete (merge_teams MIN_UTC a b)).
    unfold L, R. rewrite !merge_teams_tables by done.
    apply tables_converge; [by apply live_teams_keyed..|done].
  - rewrite (apply_merge_grants _ _ _ _ Hal), (apply_merge_grants _ _ _ _ Har).
    change (upsert_grants (plan_control_merge MIN_UTC ?a ?b)) with (fp_upsert (merge_grants MIN_UTC a b)).
    change (delete_grants (plan_control_merge MIN_UTC ?a ?b)) with (fp_delete (merge_grants MIN_UTC a b)).
    unfold L, R. rewrite !merge_grants_tables by done.
    apply tables_converge; [apply Hl|apply Hr|done].
  - intros et k Het. rewrite !elem_of_cons, elem_of_nil in Het.
    destruct Het as [->|[->|[->|[]]]].
    + rewrite (user_tombstones_after _ _ _ _ _ Hl Hr _ _ _ Hal), (user_tombstones_after _ _ _ _ _ Hr Hl _ _ _ Har).
      by rewrite settle_comm.
    + rewrite (team_tombstones_after _ _ _ _ _ Hl Hr _ _ _ Hal), (team_tombstones_after _ _ _ _ _ Hr Hl _ _ _ Har).
      by rewrite settle_comm.
    + rewrite (grant_tombstones_after _ _ _ _ _ Hl Hr _ _ _ Hal), (grant_tombstones_after _ _ _ _ _ Hr Hl _ _ _ Har).
      by rewrite settle_comm.
Qed.

(** *** Concrete nodes *)

(** A node that knows user [u1], and one that recorded the user's deletion
    and holds a grant. *)
Definition sample_left : IdentityStore := (put_user (sample_identity_user "u1") empty_ids).1.
Definition sample_right : IdentityStore :=
  (record_control_tombstone 9 TOMBSTONE_USER "u1"
    (put_grant (sample_grant "g" {| doc_version := "2012-10-17"; doc_statement := [] |})
       empty_ids).1).1.

Lemma empty_ids_wf fk : store_wf fk empty_ids.
Proof.
  split; [|intros _]; unfold rows_ok, joins_ok; split_and!; try apply map_Forall_empty;
    intros ???? H; simpl in H; by rewrite lookup_empty in H.
Qed.

Lemma sample_left_rows : rows_ok sample_left.
Proof. apply (id_step_wf true empty_ids); [apply id_put_user|apply empty_ids_wf]. Qed.

Lemma sample_right_rows : rows_ok sample_right.
Proof.
  eapply (id_step_wf true); [apply id_record_tombstone|].
  eapply id_step_wf; [apply id_put_grant|apply empty_ids_wf].
Qed.

Lemma sample_rows_agree : rows_agree sample_left sample_right.
Proof.
  assert (live_users sample_right = ∅) as Hu by (vm_compute; reflexivity).
  assert (live_teams sample_right = ∅) as Ht by (vm_compute; reflexivity).
  assert (ids_grants sample_left = ∅) as Hg by (vm_compute; reflexivity).
  split_and!; intros k x y Hx Hy.
  - by rewrite Hu, lookup_empty in Hy.
  - by rewrite Ht, lookup_empty in Hy.
  - by rewrite Hg, lookup_empty in Hx.
Qed.

Definition merged (me peer : IdentityStore) : IdentityStore :=
  (apply_control_merge true
    (plan_control_merge (-1) (build_control_snapshot empty_meta me) (build_control_snapshot empty_meta peer)) me).1.

Lemma control_merge_converges_witness :
  live_users (merged sample_left sample_right) = live_users (merged sample_right sample_left)
  /\ ids_users (merged sample_left sample_right) = ∅.
Proof.
  split; [|vm_compute; reflexivity].
  refine (proj1 (control_merge_converges true (-1) empty_meta empty_meta sample_left sample_right _ _ _ _ _ _ _)).
  - apply sample_left_rows.
  - apply sample_right_rows.
  - apply sample_rows_agree.
  - vm_compute; reflexivity.
  - vm_compute; reflexivity.
Defined.

(** A node that missed the deletion of a user: it still holds the user and one
    of the user's credentials. *)
Definition orphan_credential : Credential :=
  {| cr_access_key_id := "AK1"; cr_secret_access_key := "secret"; cr_description := "";
     cr_created_at := 1; cr_active := true; cr_user_id := "u1" |}.

Definition stale_node : IdentityStore :=
  (put_credential orphan_credential (put_user (sample_identity_user "u1") empty_ids).1).1.

(** The node that deleted the user, credential included, at time 9. *)
Definition deleting_node : IdentityStore :=
  (record_control_tombstone 9 TOMBSTONE_USER "u1" (delete_user "u1" stale_node).1).1.

(** A credential can outlive its user: [delete_user] removes the user's
    credentials without leaving tombstones for them, and the merge adopts
    credentials without looking at their user.  So when a node that deleted a
    user meets a peer that missed the deletion, it takes the user's credential
    back (the user stays deleted), and at the next exchange the peer, which
    had removed it with the user, takes it back too. *)
Theorem credential_outlives_deleted_user :
  let first_d := merged deleting_node stale_node in
  let first_s := merged stale_node deleting_node in
  let second_s := merged first_s first_d in
  get_credential "AK1" deleting_node = None
  /\ get_user "u1" first_d = None /\ get_credential "AK1" first_d = Some orphan_credential
  /\ get_user "u1" first_s = None /\ get_credential "AK1" first_s = None
  /\ get_user "u1" second_s = None /\ get_credential "AK1" second_s = Some orphan_credential.
Proof. vm_compute. done. Qed.
