(* ===== verification/BlobRead.v ===== *)
(** Blob files, their sidecars and reads of them: the types of
    [crates/arca-core/src/store/blob.rs], the read path of
    [crates/arca-storage/src/fs/blob.rs] and the composite blobs of
    [crates/arca-storage/src/composite.rs].

    A composite blob is the concatenation of part files.  Sizes and offsets are
    [u64]: sums and differences wrap at 2^64, as the release build computes
    them.  A stream is the bytes it delivers and whether it ends without an
    error. *)

From Stdlib Require Import Strings.Byte.
From S2P Require Import Prelude S3Errors.

Local Open Scope outcome_scope.

(** ** Sidecars *)

Inductive CompressionAlgorithm : Type := Zstd | Lz4 | Snappy | Gzip | Brotli | Xz.

Record BlobEncryptionInfo : Type := {
  be_algorithm : string;
  be_encrypted_dek : string;
  be_dek_nonce : string;
  be_nonce_prefix : string;
  be_key_id : string;
}.

Record BlobCompressionInfo : Type := {
  bc_algorithm : CompressionAlgorithm;
  bc_chunk_size : Z;
  bc_original_size : Z;
  bc_compressed_size : Z;
}.

Record CompositePart : Type := {
  cp_blob_id : string;
  cp_plaintext_size : Z;
  cp_plaintext_etag : string;
  cp_encryption : option BlobEncryptionInfo;
}.

Record SidecarMeta : Type := {
  sm_bucket : string;
  sm_key : string;
  sm_size : Z;
  sm_etag : string;
  sm_content_type : option string;
  sm_last_modified : string;
  sm_metadata : gmap string string;
  sm_encryption : option BlobEncryptionInfo;
  sm_compression : option BlobCompressionInfo;
  sm_version_id : option string;
  sm_composite : option (list CompositePart);
}.

Record ByteRange : Type := {
  br_start : Z;
  br_end : option Z;
}.

Record ByteStream : Type := {
  bs_bytes : list byte;
  bs_ok : bool;
}.

Record BlobGetResult : Type := {
  bg_stream : ByteStream;
  bg_content_length : Z;
}.

(** ** Arithmetic of [u64] *)

Definition u64 (x : Z) : Z := x mod 2 ^ 64.

Definition saturating_sub (a b : Z) : Z := Z.max 0 (a - b).

Lemma u64_small x : (0 <= x < 2 ^ 64)%Z -> u64 x = x.
Proof. apply Z.mod_small. Qed.

(** Removes the wrap-around of sums and differences in range, innermost first. *)
Ltac u64_simpl :=
  repeat match goal with
  | |- context [u64 ?x] => lazymatch x with context [u64 _] => fail | _ => rewrite (u64_small x) by lia end
  end.

(** ** Planning a read of a composite *)

Record PartRead : Type := {
  pr_part : CompositePart;
  pr_range : option ByteRange;
}.

Definition total_size (parts : list CompositePart) : Z :=
  foldl (fun acc p => u64 (acc + cp_plaintext_size p)) 0%Z parts.

(** The loop over the parts, from the offset [cum_start] of the first. *)
Fixpoint plan_parts (range_start range_end content_length cum_start : Z) (parts : list CompositePart)
  : list PartRead :=
  match parts with
  | [] => []
  | part :: parts' =>
      let part_size := cp_plaintext_size part in
      let part_end_excl := u64 (cum_start + part_size) in
      if (part_size =? 0)%Z || (content_length =? 0)%Z || (part_end_excl <=? range_start)%Z
         || (range_end <? cum_start)%Z
      then plan_parts range_start range_end content_length part_end_excl parts'
      else
        let sub_start := saturating_sub range_start cum_start in
        let sub_end := Z.min (u64 (range_end - cum_start)) (u64 (part_size - 1)) in
        let range := if (sub_start =? 0)%Z && (sub_end =? u64 (part_size - 1))%Z then None
                     else Some {| br_start := sub_start; br_end := Some sub_end |} in
        {| pr_part := part; pr_range := range |}
        :: plan_parts range_start range_end content_length part_end_excl parts'
  end.

Definition plan_composite_read (parts : list CompositePart) (range : option ByteRange) : list PartRead * Z :=
  let total := total_size parts in
  let '(range_start, range_end) :=
    match range with
    | Some r =>
        let end_ := default (saturating_sub total 1) (br_end r) in
        (br_start r, Z.min end_ (saturating_sub total 1))
    | None => (0%Z, saturating_sub total 1)
    end in
  let content_length :=
    if (total =? 0)%Z then 0%Z
    else if (range_start <=? range_end)%Z then u64 (u64 (range_end - range_start) + 1) else 0%Z in
  (plan_parts range_start range_end content_length 0 parts, content_length).

(** ** Reading *)

Definition empty_stream : ByteStream := {| bs_bytes := []; bs_ok := true |}.

Definition chain (a b : ByteStream) : ByteStream :=
  if bs_ok a then {| bs_bytes := bs_bytes a ++ bs_bytes b; bs_ok := bs_ok b |} else a.

(** The items after the first are opened when the stream before them ends; one
    that cannot be opened ends the stream with an error. *)
Fixpoint rest_stream {T : Type} (items : list T) (open : T -> outcome ArcaError ByteStream) : ByteStream :=
  match items with
  | [] => empty_stream
  | x :: items' =>
      match open x with
      | Ok s => chain s (rest_stream items' open)
      | _ => {| bs_bytes := []; bs_ok := false |}
      end
  end.

Definition concat_lazily {T : Type} (items : list T) (open : T -> outcome ArcaError ByteStream)
  : outcome ArcaError ByteStream :=
  match items with
  | [] => Ok empty_stream
  | first :: items' => let? s := open first in Ok (chain s (rest_stream items' open))
  end.

Section reads.
(** The data file of a blob id, if it can be opened and read. *)
Context (files : string -> option (list byte)).

(** Reading a data file or a range of it. *)
Definition read_file (op : string) (blob_id : string) (range : option ByteRange)
  : outcome ArcaError BlobGetResult :=
  match files blob_id with
  | None => Err (Internal op)
  | Some file =>
      let file_size := Z.of_nat (length file) in
      match range with
      | Some r =>
          if (2 ^ 63 <=? br_start r)%Z then Err (Internal "seek")
          else
          let end_ := match br_end r with
                      | Some e => Z.min e (u64 (file_size - 1))
                      | None => u64 (file_size - 1)
                      end in
          let take_bytes := u64 (u64 (end_ - br_start r) + 1) in
          Ok {| bg_stream := {| bs_bytes := take (Z.to_nat take_bytes) (drop (Z.to_nat (br_start r)) file);
                                bs_ok := true |};
                bg_content_length := u64 (u64 (end_ - br_start r) + 1) |}
      | None => Ok {| bg_stream := {| bs_bytes := file; bs_ok := true |}; bg_content_length := file_size |}
      end
  end.

Definition get_part_data : string -> option ByteRange -> outcome ArcaError BlobGetResult :=
  read_file "open part blob".

Definition get_composite (parts : list CompositePart) (range : option ByteRange)
  : outcome ArcaError BlobGetResult :=
  let '(reads, content_length) := plan_composite_read parts range in
  let? stream := concat_lazily reads (fun read =>
      let? part := get_part_data (cp_blob_id (pr_part read)) (pr_range read) in
      Ok (bg_stream part)) in
  Ok {| bg_stream := stream; bg_content_length := content_length |}.

Definition get_known (blob_id : string) (range : option ByteRange) (sidecar : option SidecarMeta)
  : outcome ArcaError BlobGetResult :=
  match sidecar ≫= sm_composite with
  | Some parts => get_composite parts range
  | None => read_file "open blob" blob_id range
  end.

End reads.

(** ** What a read depends on *)

Lemma plan_parts_incl start last len cum parts read :
  read ∈ plan_parts start last len cum parts -> pr_part read ∈ parts.
Proof.
  revert cum. induction parts as [|p parts IH]; intros cum; cbn [plan_parts]; [by intros ?%elem_of_nil|].
  case_match; [intros ?%IH; by right|]. intros [->|?%IH]%elem_of_cons; [by left|by right].
Qed.

Lemma rest_stream_ext {T : Type} (items : list T) (open open' : T -> outcome ArcaError ByteStream) :
  (forall x, x ∈ items -> open x = open' x) -> rest_stream items open = rest_stream items open'.
Proof.
  induction items as [|x items IH]; intros Ho; [done|]. cbn.
  rewrite (Ho x) by by left. rewrite IH; [done|]. intros; apply Ho; by right.
Qed.

Lemma concat_lazily_ext {T : Type} (items : list T) (open open' : T -> outcome ArcaError ByteStream) :
  (forall x, x ∈ items -> open x = open' x) -> concat_lazily items open = concat_lazily items open'.
Proof.
  destruct items as [|x items]; intros Ho; [done|]. cbn. rewrite (Ho x) by by left.
  rewrite (rest_stream_ext items open open'); [done|]. intros; apply Ho; by right.
Qed.

(** A read opens the data file of the blob, or of the parts of a composite. *)
Lemma get_known_ext (files files' : string -> option (list byte)) id range sidecar :
  files id = files' id ->
  (forall meta parts p, sidecar = Some meta -> sm_composite meta = Some parts -> p ∈ parts ->
     files (cp_blob_id p) = files' (cp_blob_id p)) ->
  get_known files id range sidecar = get_known files' id range sidecar.
Proof.
  intros Hid Hparts. unfold get_known. destruct sidecar as [meta|]; cbn; [|unfold read_file; by rewrite Hid].
  destruct (sm_composite meta) as [parts|] eqn:E; [|unfold read_file; by rewrite Hid].
  unfold get_composite. destruct (plan_composite_read parts range) as [reads len] eqn:Hp.
  rewrite (concat_lazily_ext reads _ (fun read =>
    let? part := get_part_data files' (cp_blob_id (pr_part read)) (pr_range read) in Ok (bg_stream part))); [done|].
  intros read Hread. unfold get_part_data, read_file. rewrite (Hparts meta parts (pr_part read)); [done..|].
  unfold plan_composite_read in Hp. destruct range as [[]|]; injection Hp as <- _; by eapply plan_parts_incl.
Qed.

(** ** What a read returns *)

(** The bytes a range of [data] denotes: both ends inclusive, clamped. *)
Definition range_of (range : option ByteRange) (data : list byte) : list byte :=
  match range with
  | None => data
  | Some r =>
      drop (Z.to_nat (br_start r))
        (match br_end r with
         | Some e => take (Z.to_nat (e + 1)) data
         | None => data
         end)
  end.

Definition range_ok (range : option ByteRange) : Prop :=
  match range with
  | None => True
  | Some r => (0 <= br_start r < 2 ^ 64)%Z /\ (forall e, br_end r = Some e -> (0 <= e < 2 ^ 64)%Z)
  end.

(** The slice of the remaining parts the loop reads: positions [start] to
    [last] of the whole blob, from the offset [cum] on. *)
Definition slice (start last cum : Z) (data : list byte) : list byte :=
  drop (Z.to_nat (start - cum)) (take (Z.to_nat (last + 1 - cum)) data).

Lemma slice_app start last cum c data :
  slice start last cum (c ++ data) =
  slice start last cum c ++ slice start last (cum + Z.of_nat (length c)) data.
Proof.
  unfold slice. rewrite take_app, drop_app, length_take. f_equal.
  replace (Z.to_nat (last + 1 - (cum + Z.of_nat (length c)))) with (Z.to_nat (last + 1 - cum) - length c) by lia.
  destruct (decide (Z.to_nat (last + 1 - cum) <= length c)) as [Hle|Hgt].
  - replace (Z.to_nat (last + 1 - cum) - length c) with 0 by lia. by rewrite !take_0, !drop_nil.
  - f_equal. lia.
Qed.

Lemma slice_nil start last cum c :
  (cum + Z.of_nat (length c) <= start \/ last < cum)%Z -> slice start last cum c = [].
Proof.
  intros H. unfold slice. apply nil_length_inv. rewrite length_drop, length_take. lia.
Qed.

(** The first and the last position of a range of [n] bytes, and how many
    bytes it denotes. *)
Definition range_bounds (range : option ByteRange) (n : Z) : Z * Z :=
  match range with
  | Some r => (br_start r, Z.min (default (saturating_sub n 1) (br_end r)) (saturating_sub n 1))
  | None => (0%Z, saturating_sub n 1)
  end.

Lemma range_of_slice range data :
  range_ok range ->
  let n := Z.of_nat (length data) in
  let start := (range_bounds range n).1 in
  let last := (range_bounds range n).2 in
  range_of range data = slice start last 0 data.
Proof.
  intros Hr n start last. unfold start, last, n, range_bounds, range_of, slice, saturating_sub.
  destruct range as [[st en]|]; cbn in *.
  - destruct Hr as [Hst Hen]. rewrite Z.sub_0_r. f_equal. destruct en as [e|]; cbn.
    + specialize (Hen e eq_refl). destruct (Z.min_spec e (Z.max 0 (Z.of_nat (length data) - 1))) as [[? ->]|[? ->]].
      * by rewrite Z.sub_0_r.
      * rewrite !take_ge by lia. done.
    + by rewrite take_ge by lia.
  - by rewrite drop_0, take_ge by lia.
Qed.

Lemma length_slice start last data :
  (0 <= start)%Z -> (last < Z.of_nat (length data))%Z ->
  Z.of_nat (length (slice start last 0 data)) = Z.max 0 (last - start + 1).
Proof. intros. unfold slice. rewrite length_drop, length_take. lia. Qed.

(** A range that denotes a byte of [n] or more. *)
Definition in_range (range : option ByteRange) (n : Z) : Prop :=
  match range with
  | None => True
  | Some r => (0 <= br_start r < n)%Z /\ (forall e, br_end r = Some e -> (br_start r <= e < 2 ^ 64)%Z)
  end.

Lemma in_range_ok range n : in_range range n -> (n < 2 ^ 63)%Z -> range_ok range.
Proof.
  destruct range as [[st en]|]; [|done]. cbn. intros [? He] ?. split; [lia|]. intros e Hen. specialize (He e Hen). lia.
Qed.

Lemma concat_lazily_ok {T : Type} (items : list T) (open : T -> outcome ArcaError ByteStream) :
  Forall (fun x => is_ok (open x) = true) items -> concat_lazily items open = Ok (rest_stream items open).
Proof.
  destruct 1 as [|x items Hx H]; [done|]. simpl. by destruct (open x).
Qed.

Lemma read_file_exact (files : string -> option (list byte)) op id range c :
  files id = Some c -> (Z.of_nat (length c) < 2 ^ 63)%Z -> in_range range (Z.of_nat (length c)) ->
  read_file files op id range =
  Ok {| bg_stream := {| bs_bytes := range_of range c; bs_ok := true |};
        bg_content_length := Z.of_nat (length (range_of range c)) |}.
Proof.
  intros Hf Hlen Hr. unfold read_file. rewrite Hf. destruct range as [[st en]|]; [|done]. cbn in *.
  destruct Hr as [Hst Hen]. rewrite (proj2 (Z.leb_gt _ _)) by lia.
  assert (exists e, (st <= e < Z.of_nat (length c))%Z /\
    match en with Some e => Z.min e (u64 (Z.of_nat (length c) - 1)) | None => u64 (Z.of_nat (length c) - 1) end = e /\
    match en with Some e => take (Z.to_nat (e + 1)) c | None => c end = take (Z.to_nat (e + 1)) c) as (e & He & -> & ->).
  { u64_simpl. destruct en as [e|].
    - specialize (Hen e eq_refl). exists (Z.min e (Z.of_nat (length c) - 1)). split_and!; [lia..|].
      destruct (Z.min_spec e (Z.of_nat (length c) - 1)) as [[? ->]|[? ->]]; [done|]. by rewrite !take_ge by lia.
    - exists (Z.of_nat (length c) - 1)%Z. split_and!; [lia..|]. by rewrite take_ge by lia. }
  u64_simpl. rewrite skipn_firstn_comm, length_take, length_drop.
  replace (Z.to_nat (e - st + 1)) with (Z.to_nat (e + 1) - Z.to_nat st) by lia. do 2 f_equal. lia.
Qed.

Lemma plan_parts_none start last cum parts : plan_parts start last 0 cum parts = [].
Proof.
  revert cum. induction parts as [|p parts IH]; intros cum; [done|]. cbn [plan_parts].
  rewrite Z.eqb_refl, orb_true_r. apply IH.
Qed.

(** What a reader of parts promises to the composite read: [open] of a part
    whose plaintext is [c], as [content] says, returns [c] or the slice of it
    asked for. *)
Class PartReader (open : PartRead -> outcome ArcaError ByteStream) (content : CompositePart -> list byte -> Prop)
  : Prop := {
  part_size p c : content p c -> cp_plaintext_size p = Z.of_nat (length c);
  part_whole p c : content p c -> c <> [] ->
    open {| pr_part := p; pr_range := None |} = Ok {| bs_bytes := c; bs_ok := true |};
  part_slice p c start last : content p c -> (0 <= start <= last)%Z -> (last < Z.of_nat (length c))%Z ->
    open {| pr_part := p; pr_range := Some {| br_start := start; br_end := Some last |} |} =
    Ok {| bs_bytes := slice start last 0 c; bs_ok := true |};
}.

Section composite.
Context (open : PartRead -> outcome ArcaError ByteStream) (content : CompositePart -> list byte -> Prop)
  `{Hreader : !PartReader open content}.

Lemma total_size_from parts contents acc :
  Forall2 content parts contents ->
  (0 <= acc)%Z -> (acc + Z.of_nat (length (concat contents)) < 2 ^ 64)%Z ->
  foldl (fun acc p => u64 (acc + cp_plaintext_size p)) acc parts =
  (acc + Z.of_nat (length (concat contents)))%Z.
Proof using Hreader.
  intros H. revert acc. induction H as [|p c parts contents Hc H IH]; intros acc H0 Hlt; simpl in *.
  - lia.
  - rewrite length_app in *. rewrite (part_size p c Hc), u64_small by lia. rewrite IH; lia.
Qed.

(** The part read the loop plans for a part that overlaps the range. *)
Lemma read_part_slice start last cum part c :
  content part c ->
  (0 <= cum)%Z -> (cum + Z.of_nat (length c) < 2 ^ 64)%Z -> (0 <= start)%Z -> (last < 2 ^ 64)%Z ->
  (start < cum + Z.of_nat (length c))%Z -> (cum <= last)%Z -> (start <= last)%Z -> c <> [] ->
  let sub_start := saturating_sub start cum in
  let sub_end := Z.min (u64 (last - cum)) (u64 (cp_plaintext_size part - 1)) in
  open {| pr_part := part; pr_range :=
    if (sub_start =? 0)%Z && (sub_end =? u64 (cp_plaintext_size part - 1))%Z then None
    else Some {| br_start := sub_start; br_end := Some sub_end |} |} =
  Ok {| bs_bytes := slice start last cum c; bs_ok := true |}.
Proof using Hreader.
  intros Hc Hcum Hlt H0 Hl Hsc Hcl Hsl Hne sub_start sub_end.
  assert (0 < length c) as Hlen by (destruct c; simpl; [done|lia]).
  unfold sub_start, sub_end, saturating_sub. rewrite (part_size part c Hc). u64_simpl.
  destruct (_ && _) eqn:E.
  - apply andb_true_iff in E as [E1%Z.eqb_eq E2%Z.eqb_eq]. rewrite (part_whole part c) by done. do 2 f_equal.
    unfold slice. replace (Z.to_nat (start - cum)) with 0 by lia. by rewrite drop_0, take_ge by lia.
  - rewrite (part_slice part c) by (done || lia). do 2 f_equal. unfold slice. f_equal; [lia|].
    destruct (Z.min_spec (last - cum) (Z.of_nat (length c) - 1)) as [[? ->]|[? ->]].
    + f_equal. lia.
    + by rewrite !take_ge by lia.
Qed.

Lemma plan_parts_read start last len cum parts contents :
  Forall2 content parts contents ->
  len <> 0%Z -> (0 <= start <= last)%Z -> (last < 2 ^ 64)%Z ->
  (0 <= cum)%Z -> (cum + Z.of_nat (length (concat contents)) < 2 ^ 64)%Z ->
  Forall (fun read => is_ok (open read) = true) (plan_parts start last len cum parts) /\
  rest_stream (plan_parts start last len cum parts) open =
  {| bs_bytes := slice start last cum (concat contents); bs_ok := true |}.
Proof using Hreader.
  intros H Hlen Hsl Hl. revert cum. induction H as [|p c parts contents Hpc H IH]; intros cum Hc Hlt.
  - split; [done|]. cbn. unfold slice. by rewrite take_nil, drop_nil.
  - cbn [concat] in *. rewrite length_app in Hlt. cbn [plan_parts]. pose proof (part_size p c Hpc) as Hs.
    rewrite slice_app, Hs, u64_small by lia.
    specialize (IH (cum + Z.of_nat (length c))%Z ltac:(lia) ltac:(lia)) as [IHok IH].
    rewrite (proj2 (Z.eqb_neq len 0) Hlen), orb_false_r.
    destruct (_ || _) eqn:E.
    + assert (slice start last cum c = []) as ->; [|done].
      rewrite !orb_true_iff, Z.eqb_eq, Z.leb_le, Z.ltb_lt in E. destruct E as [[E|E]|E].
      * destruct c; [|done]. unfold slice. by rewrite take_nil, drop_nil.
      * apply slice_nil. by left.
      * apply slice_nil. by right.
    + rewrite !orb_false_iff, Z.eqb_neq, Z.leb_gt, Z.ltb_ge in E. destruct E as [[E1 E2] E3].
      pose proof (read_part_slice start last cum p c Hpc) as Ho. cbn zeta in Ho. rewrite Hs in Ho.
      specialize (Ho ltac:(lia) ltac:(lia) ltac:(lia) ltac:(lia) ltac:(lia) ltac:(lia) ltac:(lia)
        ltac:(intros ->; simpl in E1; lia)).
      split; [constructor; [by rewrite Ho|done]|]. cbn [rest_stream]. by rewrite Ho, IH.
Qed.

Lemma plan_composite_read_eq parts contents range :
  Forall2 content parts contents -> (Z.of_nat (length (concat contents)) < 2 ^ 64)%Z ->
  let n := Z.of_nat (length (concat contents)) in
  let b := range_bounds range n in
  let len := if (n =? 0)%Z then 0%Z else if (b.1 <=? b.2)%Z then u64 (u64 (b.2 - b.1) + 1) else 0%Z in
  plan_composite_read parts range = (plan_parts b.1 b.2 len 0 parts, len).
Proof using Hreader.
  intros Hp Hlt n b. unfold plan_composite_read, total_size. rewrite (total_size_from parts contents 0) by done.
  rewrite Z.add_0_l. by destruct range as [[]|].
Qed.

(** A composite read returns the range of the concatenation of the parts. *)
Lemma composite_read parts contents range :
  Forall2 content parts contents -> (Z.of_nat (length (concat contents)) < 2 ^ 64)%Z -> range_ok range ->
  let '(reads, content_length) := plan_composite_read parts range in
  concat_lazily reads open = Ok {| bs_bytes := range_of range (concat contents); bs_ok := true |} /\
  content_length = Z.of_nat (length (range_of range (concat contents))).
Proof using Hreader.
  intros Hp Hlt Hr. rewrite (plan_composite_read_eq parts contents range Hp Hlt).
  rewrite (range_of_slice range (concat contents) Hr).
  set (n := Z.of_nat (length (concat contents))) in *. destruct (range_bounds range n) as [start last] eqn:E.
  assert (0 <= start /\ last <= saturating_sub n 1)%Z as [H0 Hlast].
  { destruct range as [[st en]|]; cbn in E; injection E as <- <-; [destruct Hr|]; cbn in *; lia. }
  cbn [fst snd]. unfold saturating_sub in Hlast.
  destruct (Z.eqb_spec n 0) as [Hn|Hn]; [|destruct (Z.leb_spec start last) as [Hle|Hgt]].
  - assert (concat contents = []) as -> by (apply nil_length_inv; lia). rewrite plan_parts_none. cbn.
    unfold slice. by rewrite take_nil, drop_nil.
  - u64_simpl. destruct (plan_parts_read start last (last - start + 1) 0 parts contents Hp) as [Hok Hs]; try lia.
    rewrite concat_lazily_ok by done. rewrite Hs, length_slice by lia. split; [done|lia].
  - rewrite plan_parts_none. cbn. pose proof (length_slice start last (concat contents)) as Hl.
    assert (slice start last 0 (concat contents) = []) as -> by (apply nil_length_inv; lia). done.
Qed.
End composite.

Section plain_parts.
Context (files : string -> option (list byte)).

(** The file of a part is there, with the size the sidecar records and that a
    file can have. *)
Definition part_file (p : CompositePart) (c : list byte) : Prop :=
  files (cp_blob_id p) = Some c /\ cp_plaintext_size p = Z.of_nat (length c) /\
  (Z.of_nat (length c) < 2 ^ 63)%Z.

(** The parts of a composite as they are stored; the blob is smaller than
    2^64. *)
Definition parts_present (parts : list CompositePart) (contents : list (list byte)) : Prop :=
  Forall2 part_file parts contents /\
  (Z.of_nat (length (concat contents)) < 2 ^ 64)%Z.

(** The opening of a planned part. *)
Definition open_part (read : PartRead) : outcome ArcaError ByteStream :=
  let? part := get_part_data files (cp_blob_id (pr_part read)) (pr_range read) in Ok (bg_stream part).

#[export] Instance plain_part_reader : PartReader open_part part_file.
Proof.
  split.
  - by intros p c (_ & ? & _).
  - intros p c (Hf & _ & Hl) _. unfold open_part, get_part_data. cbn [pr_part pr_range].
    by rewrite (read_file_exact files _ _ None c).
  - intros p c start last (Hf & _ & Hl) Hs He. unfold open_part, get_part_data. cbn [pr_part pr_range].
    rewrite (read_file_exact files _ _ _ c); [|done..|].
    + cbn [obind bg_stream]. do 2 f_equal. unfold range_of, slice. cbn. by rewrite !Z.sub_0_r.
    + cbn. split; [lia|]. intros e [= <-]. lia.
Qed.

Lemma composite_reads (parts : list CompositePart) (contents : list (list byte)) (range : option ByteRange) :
  parts_present parts contents -> range_ok range ->
  get_composite files parts range =
  Ok {| bg_stream := {| bs_bytes := range_of range (concat contents); bs_ok := true |};
        bg_content_length := Z.of_nat (length (range_of range (concat contents))) |}.
Proof.
  intros [Hp Hlt] Hr. unfold get_composite.
  pose proof (composite_read open_part part_file parts contents range Hp Hlt Hr) as H.
  destruct (plan_composite_read parts range) as [reads len].
  change (fun read => let? part := get_part_data files _ _ in _) with open_part. by destruct H as [-> ->].
Qed.
End plain_parts.

(** Reading a composite blob returns the bytes the range denotes.  When
    every part file is present with the size its sidecar records and the blob
    is smaller than 2^64 bytes, a read of any range (open-ended, past the end,
    empty, across any number of parts, empty parts included) succeeds, streams
    exactly that range of the concatenation of the parts, and announces
    exactly its length: no sum or difference of the planning wraps. *)
Theorem composite_read_exact (files : string -> option (list byte)) (parts : list CompositePart) (contents : list (list byte))
    (range : option ByteRange) :
  parts_present files parts contents -> range_ok range ->
  get_composite files parts range =
  Ok {| bg_stream := {| bs_bytes := range_of range (concat contents); bs_ok := true |};
        bg_content_length := Z.of_nat (length (range_of range (concat contents))) |}.
Proof. apply composite_reads. Qed.

(** Three parts, one of them empty. *)
Definition sample_part (id : string) (size : Z) : CompositePart :=
  {| cp_blob_id := id; cp_plaintext_size := size; cp_plaintext_etag := EmptyString; cp_encryption := None |}.

Definition sample_files (id : string) : option (list byte) :=
  match id with
  | "p1" => Some [x61; x62; x63]
  | "p2" => Some []
  | "p3" => Some [x64; x65]
  | _ => None
  end.

Lemma composite_read_exact_witness :
  get_composite sample_files [sample_part "p1" 3; sample_part "p2" 0; sample_part "p3" 2]
    (Some {| br_start := 2; br_end := Some 9%Z |}) =
  Ok {| bg_stream := {| bs_bytes := [x63; x64; x65]; bs_ok := true |}; bg_content_length := 3 |}.
Proof.
  apply (composite_read_exact sample_files _ [[x61; x62; x63]; []; [x64; x65]]).
  - split; [|by vm_compute]. repeat constructor.
  - split; [done|]. by intros e [= <-].
Defined.
