(* ===== verification/BlobGc.v ===== *)
(** Blob garbage collection: [crates/arca-server/src/blob_gc.rs] and
    [plan_blob_gc] of [crates/arca-core/src/cluster.rs], against the
    [RawBlobOps] trait of [crates/arca-core/src/store/blob.rs].

    The pass is sequential: it takes the referenced set first, then the files.
    [SystemTime]s and [Duration]s are nanoseconds; the log lines are not
    modelled. *)

From S2P Require Import Prelude S3Errors Policy Types SqlTable Preconditions MetadataStore BlobRead.

From Stdlib Require Import Strings.Byte.

Local Open Scope outcome_scope.

(** A path: its components below the base directory. *)
Abbreviation path := (list string).

(** ** The raw blob store

    The operations of [RawBlobOps] that a collection uses, over a disk [D].
    The reads take [&self] and leave the disk alone. *)
Class RawBlobOps (D : Type) : Type := {
  read_sidecar : string -> D -> outcome ArcaError (option SidecarMeta);
  list_blob_ids : D -> outcome ArcaError (list (string * Z));
  list_sidecar_ids : D -> outcome ArcaError (list string);
  delete_blob_file : string -> act D ArcaError unit;
  list_reclaimable_temp_files : D -> outcome ArcaError (list (path * Z));
  delete_temp_file : path -> act D ArcaError unit;
}.

(** ** Selection *)

(** [duration_since] fails, and keeps the file, when it is newer than [now]. *)
Definition grace_expired (now grace mtime : Z) : bool := (mtime <=? now)%Z && (grace <=? now - mtime)%Z.

Definition plan_blob_gc (on_disk : list (string * Z)) (referenced : gset string) (now grace : Z)
  : list string :=
  fst <$> List.filter (fun b => negb (bool_decide (b.1 ∈ referenced)) && grace_expired now grace b.2) on_disk.

(** The loop over the sidecars reads the set as it was; the parts are added
    after it. *)
Definition add_live_composite_parts (referenced : gset string) (sidecars : list (string * SidecarMeta))
  : gset string :=
  referenced ∪ list_to_set (flat_map (fun s =>
    match sm_composite s.2 with
    | Some composite => if bool_decide (s.1 ∈ referenced) then cp_blob_id <$> composite else []
    | None => []
    end) sidecars).

Record ReclaimPlan : Type := {
  rp_scanned : Z;
  rp_candidates : list string;
  rp_temp_files : list path;
}.

Section collection.
Context {D : Type} `{!RawBlobOps D}.

(** [listed] is the answer of [metadata.list_referenced_blob_ids()]. *)
Definition referenced_blob_ids (listed : outcome ArcaError (list string)) (d : D)
  : outcome ArcaError (gset string) :=
  let? ids := listed in
  let? sids := list_sidecar_ids d in
  let? sidecars := for_each (fun acc sid =>
      let? meta := read_sidecar sid d in
      Ok (match meta with Some meta => acc ++ [(sid, meta)] | None => acc end)) [] sids in
  Ok (add_live_composite_parts (list_to_set ids) sidecars).

Definition collect_reclaimable_blobs (listed : outcome ArcaError (list string)) (now grace : Z) (d : D)
  : outcome ArcaError ReclaimPlan :=
  let? referenced := referenced_blob_ids listed d in
  let? on_disk := list_blob_ids d in
  let candidates := plan_blob_gc on_disk referenced now grace in
  let? temps := list_reclaimable_temp_files d in
  Ok {| rp_scanned := Z.of_nat (length on_disk);
        rp_candidates := candidates;
        rp_temp_files := fst <$> List.filter (fun t => grace_expired now grace t.2) temps |}.

(** A loop of deletions that counts the successes and the failures, which are
    skipped. *)
Fixpoint delete_each {T : Type} (delete : T -> act D ArcaError unit) (ids : list T) (deleted failed : Z)
  : act D ArcaError (Z * Z) := fun d =>
  match ids with
  | [] => (d, Ok (deleted, failed))
  | id :: ids' =>
      match delete id d with
      | (d', Ok _) => delete_each delete ids' (deleted + 1) failed d'
      | (d', Err _) => delete_each delete ids' deleted (failed + 1) d'
      | (d', Panic) => (d', Panic)
      end
  end.

Definition delete_temp_files (paths : list path) : act D ArcaError (Z * Z) :=
  delete_each delete_temp_file paths 0 0.

Definition reclaim_blobs (listed : outcome ArcaError (list string)) (now grace : Z) : act D ArcaError Z :=
  fun d =>
  match collect_reclaimable_blobs listed now grace d with
  | Err _ => (d, Ok 0%Z)
  | Panic => (d, Panic)
  | Ok plan =>
      (let! (reclaimed, _) := delete_each delete_blob_file (rp_candidates plan) 0 0 in
       let! _ := delete_temp_files (rp_temp_files plan) in
       act_ret reclaimed)%act d
  end.
End collection.

(** ** What the trait promises

    The documented behaviour of the operations, in terms of the files a disk
    holds: the modification time and the bytes of the file of a blob, its
    sidecar, and the modification time of a reclaimable temporary file.
    [raw_ok] says that the disk is laid out as the store lays it out, which the
    enumerations rely on.  An enumeration that succeeds misses nothing, and a
    deletion, whatever its result, touches no other blob or temporary file. *)
Class RawBlobLaws (D : Type) `{!RawBlobOps D} : Type := {
  raw_ok : D -> Prop;
  blobs : D -> string -> option (Z * list byte);
  sidecars : D -> string -> option SidecarMeta;
  temps : D -> path -> option Z;
  read_sidecar_ok id d x : read_sidecar id d = Ok x -> x = sidecars d id;
  list_blob_ids_ok d l id t : raw_ok d -> list_blob_ids d = Ok l ->
    (id, t) ∈ l <-> exists bytes, blobs d id = Some (t, bytes);
  list_sidecar_ids_ok d l id : raw_ok d -> list_sidecar_ids d = Ok l -> is_Some (sidecars d id) -> id ∈ l;
  delete_blob_file_other id id' d : id <> id' ->
    blobs (delete_blob_file id d).1 id' = blobs d id' /\
    sidecars (delete_blob_file id d).1 id' = sidecars d id';
  delete_blob_file_ok id d d' : delete_blob_file id d = (d', Ok tt) ->
    blobs d' id = None /\ forall id', blobs d id' = None -> blobs d' id' = None;
  delete_temp_file_blobs path d id :
    blobs (delete_temp_file path d).1 id = blobs d id /\
    sidecars (delete_temp_file path d).1 id = sidecars d id;
  list_temp_files_ok d l p t : list_reclaimable_temp_files d = Ok l -> (p, t) ∈ l <-> temps d p = Some t;
  delete_blob_file_temps id d p : temps (delete_blob_file id d).1 p = temps d p;
  delete_temp_file_other p p' d : p <> p' -> temps (delete_temp_file p d).1 p' = temps d p';
  delete_temp_file_ok p d d' : delete_temp_file p d = (d', Ok tt) ->
    temps d' p = None /\ forall p', temps d p' = None -> temps d' p' = None;
}.

Section laws.
Context {D : Type} `{!RawBlobOps D} `{!RawBlobLaws D}.

(** The blob of [id], its file and its sidecar, is the same on both disks. *)
Definition kept (d d' : D) (id : string) : Prop :=
  blobs d' id = blobs d id /\ sidecars d' id = sidecars d id.

Lemma kept_refl d id : kept d d id.
Proof. done. Qed.

Lemma kept_trans d1 d2 d3 id : kept d1 d2 id -> kept d2 d3 id -> kept d1 d3 id.
Proof. unfold kept. intuition congruence. Qed.

(** Referenced by a live object row or by a part of an upload. *)
Definition in_metadata (m : MetaStore) (id : string) : Prop :=
  (exists i x, ms_objects m !! i = Some x /\ live x /\ o_blob_id (row_rec x) = id /\ id <> EmptyString)
  \/ (exists i p, ms_parts m !! i = Some p /\ pt_blob_id p = id).

(** Needed to read something: referenced, or a part of a composite that is. *)
Definition needed (m : MetaStore) (d : D) (id : string) : Prop :=
  in_metadata m id
  \/ exists c meta parts p, in_metadata m c /\ sidecars d c = Some meta /\ sm_composite meta = Some parts
       /\ p ∈ parts /\ cp_blob_id p = id.

Lemma elem_of_list_referenced_blob_ids m id : id ∈ list_referenced_blob_ids m <-> in_metadata m id.
Proof.
  unfold list_referenced_blob_ids, in_metadata. rewrite elem_of_elements, elem_of_list_to_set, elem_of_app.
  rewrite !list_elem_of_fmap. f_equiv; split.
  - intros (x & -> & [[Hl Hb] [i Hi]]%elem_of_rows_where). by exists i, x.
  - intros (i & x & Hi & Hl & <- & Hne). exists x. split; [done|]. apply elem_of_rows_where. eauto.
  - intros ([i p] & -> & Hi%elem_of_map_to_list). by exists i, p.
  - intros (i & p & Hi & <-). exists (i, p). by rewrite elem_of_map_to_list.
Qed.

Lemma read_sidecars_ok d sids acc l :
  for_each (fun acc sid =>
      let? meta := read_sidecar sid d in
      Ok (match meta with Some meta => acc ++ [(sid, meta)] | None => acc end)) acc sids = Ok l ->
  forall sid meta, (sid, meta) ∈ l <-> (sid, meta) ∈ acc \/ sid ∈ sids /\ sidecars d sid = Some meta.
Proof.
  revert acc. induction sids as [|s sids IH]; simpl; intros acc H sid meta.
  - injection H as ->. rewrite elem_of_nil. tauto.
  - apply obind_ok in H as (acc' & (x & Hx%read_sidecar_ok & [= <-])%obind_ok & H).
    rewrite (IH _ H), elem_of_cons. subst x.
    destruct (sidecars d s) as [ms|] eqn:E.
    + rewrite elem_of_app, list_elem_of_singleton. naive_solver.
    + naive_solver.
Qed.

Lemma elem_of_live_parts ref l id :
  id ∈ add_live_composite_parts ref l <->
  id ∈ ref \/ exists c meta parts p, (c, meta) ∈ l /\ c ∈ ref /\ sm_composite meta = Some parts
                /\ p ∈ parts /\ cp_blob_id p = id.
Proof.
  unfold add_live_composite_parts. rewrite elem_of_union, elem_of_list_to_set, list_elem_of_In, in_flat_map.
  f_equiv. split.
  - intros ([c meta] & Hc & Hin). cbn [fst snd] in Hin. destruct (sm_composite meta) as [parts|] eqn:E; [|done].
    case_bool_decide; [|done]. apply list_elem_of_In, list_elem_of_fmap in Hin as (p & -> & Hp).
    apply list_elem_of_In in Hc. by exists c, meta, parts, p.
  - intros (c & meta & parts & p & Hc & Hr & E & Hp & <-). exists (c, meta).
    split; [by apply list_elem_of_In|]. cbn [fst snd]. rewrite E, bool_decide_eq_true_2 by done.
    apply list_elem_of_In, list_elem_of_fmap. by exists p.
Qed.

Lemma referenced_blob_ids_ok m d ref id :
  raw_ok d -> referenced_blob_ids (Ok (list_referenced_blob_ids m)) d = Ok ref -> id ∈ ref <-> needed m d id.
Proof.
  unfold referenced_blob_ids. cbn [obind]. intros Hraw H.
  apply obind_ok in H as (sids & Hs & (l & Hl & [= <-])%obind_ok).
  rewrite elem_of_live_parts. unfold needed. setoid_rewrite elem_of_list_to_set.
  setoid_rewrite elem_of_list_referenced_blob_ids. f_equiv.
  setoid_rewrite (read_sidecars_ok d sids [] l Hl). setoid_rewrite elem_of_nil. split.
  - intros (c & meta & parts & p & [[]|[_ Hm]] & Hc & E & Hp & <-). by exists c, meta, parts, p.
  - intros (c & meta & parts & p & Hc & Hm & E & Hp & <-). exists c, meta, parts, p. split_and!; try done.
    right. split; [|done]. by apply (list_sidecar_ids_ok d sids c Hraw Hs); exists meta.
Qed.

Lemma grace_expired_true now grace mtime :
  (0 <= grace)%Z -> grace_expired now grace mtime = true <-> (mtime + grace <= now)%Z.
Proof. intros. unfold grace_expired. rewrite andb_true_iff, !Z.leb_le. lia. Qed.

Lemma elem_of_plan_blob_gc on_disk ref now grace id :
  id ∈ plan_blob_gc on_disk ref now grace <->
  (id ∉ ref) /\ exists t, (id, t) ∈ on_disk /\ grace_expired now grace t = true.
Proof.
  unfold plan_blob_gc. rewrite list_elem_of_fmap. split.
  - intros ([b t] & -> & [Hin [Hr Hg]%andb_true_iff]%list_elem_of_In%filter_In).
    apply negb_true_iff, bool_decide_eq_false in Hr. apply list_elem_of_In in Hin. eauto.
  - intros (Hr & t & Hin & Hg). exists (id, t). split; [done|].
    apply list_elem_of_In, filter_In. rewrite <- list_elem_of_In, bool_decide_eq_false_2 by done. done.
Qed.

(** A loop of deletions keeps what each of them keeps. *)
Lemma delete_each_stable {T V : Type} (view : D -> V) (delete : T -> act D ArcaError unit) ids n k d :
  (forall x d1, x ∈ ids -> view (delete x d1).1 = view d1) -> view (delete_each delete ids n k d).1 = view d.
Proof.
  revert n k d. induction ids as [|x ids IH]; intros n k d Hd; [done|]. simpl.
  pose proof (Hd x d ltac:(by left)) as <-.
  destruct (delete x d) as [d1 [[]|e|]]; [apply IH; intros; apply Hd; by right..|done].
Qed.

Lemma delete_each_kept {T : Type} (delete : T -> act D ArcaError unit) ids n k d id :
  (forall x d1, x ∈ ids -> kept d1 (delete x d1).1 id) -> kept d (delete_each delete ids n k d).1 id.
Proof.
  intros H. split.
  - apply (delete_each_stable (fun d => blobs d id)). intros x d1 Hx. by apply H.
  - apply (delete_each_stable (fun d => sidecars d id)). intros x d1 Hx. by apply H.
Qed.

(** The failures only add up. *)
Lemma delete_each_failed {T : Type} (delete : T -> act D ArcaError unit) ids n k d n' k' :
  (delete_each delete ids n k d).2 = Ok (n', k') -> (k <= k')%Z.
Proof.
  revert n k d. induction ids as [|x ids IH]; intros n k d; simpl.
  - intros [= _ <-]. lia.
  - destruct (delete x d) as [d1 [[]|e|]]; [| |done]; intros H%IH; lia.
Qed.

(** Without failures everything in the list is gone. *)
Lemma delete_each_all {T V : Type} (view : D -> T -> option V) (delete : T -> act D ArcaError unit) ids n k d n' :
  (forall x d d', delete x d = (d', Ok tt) -> view d' x = None /\ forall y, view d y = None -> view d' y = None) ->
  (delete_each delete ids n k d).2 = Ok (n', k) ->
  forall x, x ∈ ids \/ view d x = None -> view (delete_each delete ids n k d).1 x = None.
Proof.
  intros Hdel. revert n d. induction ids as [|x ids IH]; intros n d.
  - by intros _ y [[]%elem_of_nil|?].
  - simpl. destruct (delete x d) as [d1 [[]|e|]] eqn:E; [| |done].
    + apply Hdel in E as [Hx Hnone]. intros Hres y [[->|Hin]%elem_of_cons|Hn]; apply (IH _ _ Hres); auto.
    + intros H%delete_each_failed. lia.
Qed.

(** The blobs are as the first loop leaves them. *)
Lemma reclaim_run listed now grace d plan :
  collect_reclaimable_blobs listed now grace d = Ok plan ->
  let d1 := (delete_each delete_blob_file (rp_candidates plan) 0 0 d).1 in
  (forall id, kept d1 (reclaim_blobs listed now grace d).1 id).
Proof.
  intros H d1 id. unfold reclaim_blobs, d1. rewrite H. unfold act_bind at 1.
  destruct (delete_each delete_blob_file _ 0 0 d) as [d2 [[n k]|e|]]; simpl; [|done..].
  assert (kept d2 (delete_temp_files (rp_temp_files plan) d2).1 id) as Hk.
  { apply delete_each_kept. intros x d3 _. destruct (delete_temp_file_blobs x d3 id) as [Hb Hs].
    by split. }
  unfold act_bind. by destruct (delete_temp_files _ d2) as [d3 [|e|]].
Qed.

(** The temporary files are as the second loop leaves them, when it runs. *)
Lemma reclaim_temps listed now grace d plan :
  collect_reclaimable_blobs listed now grace d = Ok plan ->
  let r1 := delete_each delete_blob_file (rp_candidates plan) 0 0 d in
  (forall p, temps r1.1 p = temps d p) /\
  ((reclaim_blobs listed now grace d).1 = r1.1 \/
   (reclaim_blobs listed now grace d).1 = (delete_temp_files (rp_temp_files plan) r1.1).1) /\
  (forall n k, r1.2 = Ok (n, k) ->
   (reclaim_blobs listed now grace d).1 = (delete_temp_files (rp_temp_files plan) r1.1).1).
Proof.
  intros H r1. split.
  - intros p. apply (delete_each_stable (fun d => temps d p)). intros. apply delete_blob_file_temps.
  - unfold reclaim_blobs, r1. rewrite H. unfold act_bind at 1 3 5.
    destruct (delete_each delete_blob_file _ 0 0 d) as [d2 [[n k]|e|]]; simpl; [|split; [by left|done]..].
    unfold act_bind. destruct (delete_temp_files _ d2) as [d3 [|e|]]; simpl; auto.
Qed.

Lemma elem_of_expired_temps d temps_ now grace p :
  list_reclaimable_temp_files d = Ok temps_ ->
  p ∈ fst <$> List.filter (fun t => grace_expired now grace t.2) temps_ <->
  exists t, temps d p = Some t /\ grace_expired now grace t = true.
Proof.
  intros Hl. rewrite list_elem_of_fmap. setoid_rewrite <- (list_temp_files_ok d temps_ p _ Hl). split.
  - intros ([q t] & -> & [Hin%list_elem_of_In Hg]%list_elem_of_In%filter_In). eauto.
  - intros (t & Hin & Hg). exists (p, t). split; [done|].
    by apply list_elem_of_In, filter_In; rewrite <- list_elem_of_In.
Qed.

Lemma collect_temps listed now grace d plan p :
  collect_reclaimable_blobs listed now grace d = Ok plan ->
  p ∈ rp_temp_files plan <-> exists t, temps d p = Some t /\ grace_expired now grace t = true.
Proof.
  unfold collect_reclaimable_blobs. intros H.
  apply obind_ok in H as (ref & Href & (disk & Hdisk & (temps_ & Htemps & [= <-])%obind_ok)%obind_ok).
  by apply elem_of_expired_temps.
Qed.

Lemma collect_candidates m now grace d plan id :
  raw_ok d -> collect_reclaimable_blobs (Ok (list_referenced_blob_ids m)) now grace d = Ok plan ->
  id ∈ rp_candidates plan <->
  ~ needed m d id /\ exists t bytes, blobs d id = Some (t, bytes) /\ grace_expired now grace t = true.
Proof.
  unfold collect_reclaimable_blobs. intros Hraw H.
  apply obind_ok in H as (ref & Href & (disk & Hdisk & (temps & Htemps & [= <-])%obind_ok)%obind_ok).
  simpl. rewrite elem_of_plan_blob_gc, (referenced_blob_ids_ok m d ref id Hraw Href).
  setoid_rewrite (list_blob_ids_ok d disk id _ Hraw Hdisk). naive_solver.
Qed.

(** What is not a candidate is kept, whatever fails. *)
Lemma reclaim_keeps m listed now grace d id :
  raw_ok d -> (forall l, listed = Ok l -> l = list_referenced_blob_ids m) ->
  needed m d id \/ (forall t bytes, blobs d id = Some (t, bytes) -> grace_expired now grace t = false) ->
  kept d (reclaim_blobs listed now grace d).1 id.
Proof.
  intros Hraw Hlisted Hid. destruct (collect_reclaimable_blobs listed now grace d) as [plan|e|] eqn:E.
  2, 3: unfold reclaim_blobs; rewrite E; done.
  assert (listed = Ok (list_referenced_blob_ids m)) as ->.
  { destruct listed as [l|e|]; [|done..]. by rewrite (Hlisted l eq_refl). }
  eapply kept_trans; [|by apply reclaim_run]. apply delete_each_kept.
  intros x d1 Hx. apply delete_blob_file_other. intros ->.
  apply (collect_candidates m _ _ _ _ _ Hraw E) in Hx as (Hn & t & bytes & Ht & Hg).
  destruct Hid as [?|Hy]; [done|]. by rewrite (Hy t bytes Ht) in Hg.
Qed.

Lemma reclaim_keeps_temp listed now grace d p t :
  temps d p = Some t -> grace_expired now grace t = false -> temps (reclaim_blobs listed now grace d).1 p = Some t.
Proof.
  intros Ht Hg. destruct (collect_reclaimable_blobs listed now grace d) as [plan|e|] eqn:E.
  2, 3: unfold reclaim_blobs; rewrite E; done.
  destruct (reclaim_temps listed now grace d plan E) as (H1 & [->| ->] & _); [by rewrite H1|].
  unfold delete_temp_files. rewrite (delete_each_stable (fun d => temps d p)); [by rewrite H1|].
  intros x d1 Hx. apply delete_temp_file_other. intros ->.
  apply (collect_temps _ _ _ _ _ _ E) in Hx as (t' & Ht' & Hg'). congruence.
Qed.

(** When nothing fails, a candidate is gone and so is an old temporary file. *)
Lemma reclaim_removes m listed now grace d plan n :
  raw_ok d -> (forall l, listed = Ok l -> l = list_referenced_blob_ids m) ->
  collect_reclaimable_blobs listed now grace d = Ok plan ->
  (delete_each delete_blob_file (rp_candidates plan) 0 0 d).2 = Ok (n, 0%Z) ->
  forall id t bytes, blobs d id = Some (t, bytes) -> ~ needed m d id -> grace_expired now grace t = true ->
  blobs (reclaim_blobs listed now grace d).1 id = None.
Proof.
  intros Hraw Hlisted E Hok id t bytes Ht Hn Hold.
  assert (listed = Ok (list_referenced_blob_ids m)) as ->.
  { unfold collect_reclaimable_blobs, referenced_blob_ids in E.
    destruct listed as [l|e|]; [|done..]. by rewrite (Hlisted l eq_refl). }
  destruct (reclaim_run _ now grace d plan E id) as [-> _].
  apply (delete_each_all blobs _ _ _ _ _ n delete_blob_file_ok Hok). left.
  apply (collect_candidates m _ _ _ _ _ Hraw E). eauto.
Qed.

Lemma reclaim_removes_temp listed now grace d plan n n' :
  collect_reclaimable_blobs listed now grace d = Ok plan ->
  let r1 := delete_each delete_blob_file (rp_candidates plan) 0 0 d in
  r1.2 = Ok (n, 0%Z) -> (delete_temp_files (rp_temp_files plan) r1.1).2 = Ok (n', 0%Z) ->
  forall p t, temps d p = Some t -> grace_expired now grace t = true ->
  temps (reclaim_blobs listed now grace d).1 p = None.
Proof.
  intros E r1 H1 H2 p t Ht Hg. destruct (reclaim_temps listed now grace d plan E) as (_ & _ & H).
  rewrite (H _ _ H1). apply (delete_each_all temps _ _ _ _ _ n' delete_temp_file_ok H2). left.
  apply (collect_temps _ _ _ _ _ _ E). eauto.
Qed.
End laws.

(** C4. Blob garbage collection loses nothing and leaks no file.  Whatever
    enumerations and deletions fail, a pass that was told the blob ids the
    metadata store refers to (or failed to be told them) keeps the file and the
    sidecar of every blob that a live object version or an upload part refers
    to, of every part of a composite blob so referred to, and of every blob
    whose file is younger than the grace period; it keeps the sidecar of every
    id that has no file, a composite blob's in particular, even one nothing
    refers to; and it keeps every reclaimable temporary file younger than the
    grace period.  If the enumerations succeed and no deletion of a blob fails,
    every other blob that has a file is gone afterwards; if no deletion of a
    temporary file fails either, so is every older temporary file. *)
Theorem reclaim_blobs_exact {D : Type} `{!RawBlobOps D} `{!RawBlobLaws D} (m : MetaStore)
    (listed : outcome ArcaError (list string)) (now grace : Z) (d : D) :
  raw_ok d -> (0 <= grace)%Z -> (forall l, listed = Ok l -> l = list_referenced_blob_ids m) ->
  let d' := (reclaim_blobs listed now grace d).1 in
  (forall id, needed m d id -> kept d d' id) /\
  (forall id t bytes, blobs d id = Some (t, bytes) -> (now < t + grace)%Z -> kept d d' id) /\
  (forall id, blobs d id = None -> kept d d' id) /\
  (forall p t, temps d p = Some t -> (now < t + grace)%Z -> temps d' p = Some t) /\
  (forall plan n, collect_reclaimable_blobs listed now grace d = Ok plan ->
   let '(d1, r1) := delete_each delete_blob_file (rp_candidates plan) 0 0 d in
   r1 = Ok (n, 0%Z) ->
   (forall id t bytes, blobs d id = Some (t, bytes) -> ~ needed m d id -> (t + grace <= now)%Z -> blobs d' id = None) /\
   (forall n', (delete_temp_files (rp_temp_files plan) d1).2 = Ok (n', 0%Z) ->
    forall p t, temps d p = Some t -> (t + grace <= now)%Z -> temps d' p = None)).
Proof.
  intros Hraw Hg Hlisted d'.
  assert (forall t, (now < t + grace)%Z -> grace_expired now grace t = false) as Hyoung.
  { intros t Ht. apply not_true_iff_false. rewrite grace_expired_true by done. lia. }
  split_and!.
  - intros id Hn. by apply (reclaim_keeps m); [| |left].
  - intros id t bytes Ht Hy. apply (reclaim_keeps m); [done..|]. right. naive_solver.
  - intros id Hn. apply (reclaim_keeps m); [done..|]. right. congruence.
  - intros p t Ht Hy. apply reclaim_keeps_temp; auto.
  - intros plan n E. destruct (delete_each _ _ 0 0 d) as [d1 r1] eqn:E1. intros ->. split.
    + intros id t bytes Ht Hn Hold. eapply (reclaim_removes m); try done; [by rewrite E1|by apply grace_expired_true].
    + intros n' H2 p t Ht Hold.
      eapply reclaim_removes_temp; [done|by rewrite E1|by rewrite E1|done|by apply grace_expired_true].
Qed.
