(* ===== verification/FsBlob.v ===== *)
(** The blob store on a file system: [crates/arca-storage/src/fs/blob.rs] and
    [crates/arca-storage/src/fs/temp.rs].

    A [Disk] has the files and directories under the base directory, the part
    of them that survives a power loss, and the set of system calls that fail.
    A directory entry survives once its directory was synced after the change,
    the bytes of a file once the file was synced, and an entry is found after a
    power loss only when the directories above it survived too.  Paths are the
    components below the base directory.  JSON ([serde_json]) and MD5 are
    parameters. *)

From S2P Require Import Prelude S3Errors Types Preconditions MetadataStore Text BlobRead BlobGc.
From Stdlib Require Import Strings.Byte Ascii.

Open Scope act_scope.

(** ** Blob ids *)

Definition is_lower_hex (c : ascii) : bool :=
  let n := nat_of_ascii c in
  ((48 <=? n) && (n <=? 57)) || ((97 <=? n) && (n <=? 102)).

(** A lowercase hyphenated UUID, from the position [i]. *)
Fixpoint uuid_from (i : nat) (s : string) : bool :=
  match s with
  | EmptyString => Nat.eqb i 36
  | String c s' =>
      (if bool_decide (i ∈ [8; 13; 18; 23]) then bool_decide (c = "-"%char) else is_lower_hex c)
      && uuid_from (S i) s'
  end.

Definition is_valid (blob_id : string) : bool := uuid_from 0 blob_id.

Definition has_valid_blob_ref (r : ObjectRecord) : bool :=
  bool_decide (o_blob_id r = EmptyString) || is_valid (o_blob_id r).

Definition has_valid_blob_refs (m : SidecarMeta) : bool :=
  match sm_composite m with
  | None => true
  | Some parts => forallb (fun p => is_valid (cp_blob_id p)) parts
  end.

(** ** The file system *)

Definition parent (p : path) : path := removelast p.

Definition file_name (p : path) : string := default EmptyString (last p).

Record File : Type := {
  f_bytes : list byte;
  f_mtime : Z;
  f_synced : bool;
}.

Inductive FsOp : Type :=
  | OpCreateDir | OpSyncDir | OpCreate | OpWrite (offset : nat) | OpSync | OpRename | OpRemove | OpRead | OpStat | OpReadDir.

Record Disk : Type := MkDisk {
  dk_files : gmap path File;
  dk_dirs : gset path;
  dk_durable_files : gmap path File;
  dk_durable_dirs : gset path;
  dk_fault : FsOp -> path -> bool;
}.

Inductive IoError : Type := NotFound | AlreadyExists | OtherIo.

Abbreviation fsact := (act Disk IoError).

Definition with_files (m : gmap path File) (d : Disk) : Disk :=
  let '(MkDisk _ dirs df dd ft) := d in MkDisk m dirs df dd ft.

Definition with_dirs (s : gset path) (d : Disk) : Disk :=
  let '(MkDisk fs _ df dd ft) := d in MkDisk fs s df dd ft.

Definition with_durable (df : gmap path File) (dd : gset path) (d : Disk) : Disk :=
  let '(MkDisk fs dirs _ _ ft) := d in MkDisk fs dirs df dd ft.

(** A system call on [p], unless it is one that fails. *)
Definition syscall {A : Type} (op : FsOp) (p : path) (m : fsact A) : fsact A := fun d =>
  if dk_fault d op p then (d, Err OtherIo) else m d.

(** [p] and the directories above it, without the base directory. *)
Fixpoint ancestors (p : path) : list path :=
  match p with
  | [] => []
  | c :: p' => [c] :: ((cons c) <$> ancestors p')
  end.

Definition create_dir_all (dir : path) : fsact unit :=
  syscall OpCreateDir dir (fun d => (with_dirs (dk_dirs d ∪ list_to_set (ancestors dir)) d, Ok tt)).

(** The entries of [dir] as they are become the ones that survive. *)
Definition sync_dir (dir : path) : fsact unit :=
  syscall OpSyncDir dir (fun d =>
    (with_durable
       (filter (fun e => parent e.1 = dir) (dk_files d) ∪ filter (fun e => parent e.1 <> dir) (dk_durable_files d))
       (filter (fun q => parent q = dir) (dk_dirs d) ∪ filter (fun q => parent q <> dir) (dk_durable_dirs d)) d,
     Ok tt)).

(** [create_new(true)] *)
Definition create_new (now : Z) (p : path) : fsact unit :=
  syscall OpCreate p (fun d =>
    match dk_files d !! p with
    | Some _ => (d, Err AlreadyExists)
    | None => (with_files (<[p := {| f_bytes := []; f_mtime := now; f_synced := false |}]> (dk_files d)) d, Ok tt)
    end).

(** The failure of a write may depend on how much is written already. *)
Definition write_all (now : Z) (p : path) (bytes : list byte) : fsact unit := fun d =>
  syscall (OpWrite (length (default [] (f_bytes <$> dk_files d !! p)))) p (fun d =>
    (with_files (alter (fun f => {| f_bytes := f_bytes f ++ bytes; f_mtime := now; f_synced := false |}) p
                   (dk_files d)) d, Ok tt)) d.

Definition sync_all (p : path) : fsact unit :=
  syscall OpSync p (fun d =>
    (with_files (alter (fun f => {| f_bytes := f_bytes f; f_mtime := f_mtime f; f_synced := true |}) p
                   (dk_files d)) d, Ok tt)).

Definition rename (src dst : path) : fsact unit :=
  syscall OpRename dst (fun d =>
    match dk_files d !! src with
    | Some f => (with_files (<[dst := f]> (delete src (dk_files d))) d, Ok tt)
    | None => (d, Err NotFound)
    end).

Definition remove_file (p : path) : fsact unit :=
  syscall OpRemove p (fun d =>
    match dk_files d !! p with
    | Some _ => (with_files (delete p (dk_files d)) d, Ok tt)
    | None => (d, Err NotFound)
    end).

(** The bytes of a file, if it can be opened and read. *)
Definition read_bytes (d : Disk) (p : path) : outcome IoError (list byte) :=
  if dk_fault d OpRead p then Err OtherIo
  else match dk_files d !! p with Some f => Ok (f_bytes f) | None => Err NotFound end.

(** What is found at [p] after a power loss. *)
Definition after_crash (d : Disk) (p : path) : option File :=
  if bool_decide (Forall (fun q => q ∈ dk_durable_dirs d) (ancestors (parent p)))
  then dk_durable_files d !! p else None.

(** ** Temporary files *)

Definition REWRITE_TMP_SUFFIX : string := ".rewrite.tmp".
Definition PENDING_TMP_SUFFIX : string := ".pending.tmp".

Inductive TempFileKind : Type := Reclaimable | RewriteRecovery.

Definition temp_file_kind (name : string) : option TempFileKind :=
  if ends_with name REWRITE_TMP_SUFFIX || ends_with name PENDING_TMP_SUFFIX then Some RewriteRecovery
  else if ends_with name ".tmp" then Some Reclaimable
  else None.

(** ** Codecs

    [serde_json] on sidecars, the [md-5] and the [hex] crates. *)
Class BlobCodec : Type := {
  sidecar_to_json : SidecarMeta -> list byte;
  sidecar_from_json : list byte -> option SidecarMeta;
  md5_digest : list byte -> list byte;
  hex_encode : list byte -> string;
  hex_decode : string -> option (list byte);
}.

(** The UTF-8 check of [read_to_string]. *)
Definition cont_byte (n : N) : bool := (128 <=? n)%N && (n <=? 191)%N.

Fixpoint valid_utf8 (b : list N) : bool :=
  match b with
  | [] => true
  | b0 :: b' =>
      if (b0 <? 128)%N then valid_utf8 b'
      else if (194 <=? b0)%N && (b0 <=? 223)%N then
        match b' with b1 :: b'' => cont_byte b1 && valid_utf8 b'' | _ => false end
      else if (224 <=? b0)%N && (b0 <=? 239)%N then
        match b' with
        | b1 :: b2 :: b'' =>
            cont_byte b1 && cont_byte b2
            && (negb (b0 =? 224)%N || (160 <=? b1)%N) && (negb (b0 =? 237)%N || (b1 <=? 159)%N)
            && valid_utf8 b''
        | _ => false
        end
      else if (240 <=? b0)%N && (b0 <=? 244)%N then
        match b' with
        | b1 :: b2 :: b3 :: b'' =>
            cont_byte b1 && cont_byte b2 && cont_byte b3
            && (negb (b0 =? 240)%N || (144 <=? b1)%N) && (negb (b0 =? 244)%N || (b1 <=? 143)%N)
            && valid_utf8 b''
        | _ => false
        end
      else false
  end.

Definition is_utf8 (b : list byte) : bool := valid_utf8 (Byte.to_N <$> b).

(** What the store relies on: a sidecar printed is UTF-8 and parses back, hex
    decodes what it encoded, an MD5 digest has 16 bytes. *)
Class BlobCodecLaws `{!BlobCodec} : Prop := {
  from_to_json meta : sidecar_from_json (sidecar_to_json meta) = Some meta;
  to_json_utf8 meta : is_utf8 (sidecar_to_json meta) = true;
  hex_roundtrip b : hex_decode (hex_encode b) = Some b;
  md5_length b : length (md5_digest b) = 16;
}.

Record BlobPutResult : Type := {
  bp_size : Z;
  bp_etag : string;
  bp_encryption : option BlobEncryptionInfo;
  bp_compression : option BlobCompressionInfo;
  bp_composite_parts : option (list CompositePart);
}.

(** [.map_err(|e| ArcaError::Internal(format!("op: {e}")))] *)
Definition map_err {A : Type} (op : string) (m : fsact A) : act Disk ArcaError A := fun d =>
  match m d with
  | (d', Ok a) => (d', Ok a)
  | (d', Err _) => (d', Err (Internal op))
  | (d', Panic) => (d', Panic)
  end.

(** The scope of a [TempFileGuard] that is disarmed at its end: any other way
    out removes the file, ignoring errors. *)
Definition guarded {E A : Type} (tmp : path) (body : act Disk E A) : act Disk E A := fun d =>
  match body d with
  | (d', Ok a) => (d', Ok a)
  | (d', r) => ((remove_file tmp d').1, r)
  end.

(** ** Durable writes *)

Definition rename_durable (tmp dest : path) : fsact unit :=
  let! _ := rename tmp dest in
  sync_dir (parent dest).

Definition write_file_atomic_with (now : Z) (uuid : string) (dest : path) (bytes : list byte) (fsync : bool)
  : fsact unit :=
  let tmp := parent dest ++ [file_name dest +:+ "." +:+ uuid +:+ ".tmp"] in
  guarded tmp
    (let! _ := create_new now tmp in
     let! _ := write_all now tmp bytes in
     if negb fsync then rename tmp dest
     else
       let! _ := sync_all tmp in
       rename_durable tmp dest).

Definition write_file_atomic (now : Z) (uuid : string) (dest : path) (bytes : list byte) : fsact unit :=
  write_file_atomic_with now uuid dest bytes true.

(** [Path::exists] on a directory: an error counts as absent. *)
Definition dir_exists (d : Disk) (dir : path) : bool :=
  bool_decide (dir = []) || (negb (dk_fault d OpStat dir) && bool_decide (dir ∈ dk_dirs d)).

(** The loop up to the first ancestor that exists, on the components last
    first: the missing directories, deepest first, and that ancestor. *)
Fixpoint missing_dirs (d : Disk) (rdir : list string) : list path * path :=
  match rdir with
  | [] => ([], [])
  | _ :: rdir' =>
      if dir_exists d (rev rdir) then ([], rev rdir)
      else let '(missing, existing) := missing_dirs d rdir' in (rev rdir :: missing, existing)
  end.

Definition create_dir_all_durable (dir : path) (fsync : bool) : fsact unit :=
  if negb fsync then create_dir_all dir
  else
    syscall OpStat dir (fun d =>
      if bool_decide (dir = [] \/ dir ∈ dk_dirs d) then (d, Ok tt)
      else
        let '(missing, existing) := missing_dirs d (rev dir) in
        (let! _ := create_dir_all dir in
         let! _ := sync_dir existing in
         act_for sync_dir (rev missing)) d).

(** ** The store *)

Record FsBlobStore : Type := {
  fb_prefix_depth : nat;
  fb_fsync : bool;
}.

(** [FsBlobStore::new], below a base directory that exists. *)
Definition new (prefix_depth : nat) : FsBlobStore :=
  {| fb_prefix_depth := Nat.max 1 (Nat.min 4 prefix_depth); fb_fsync := true |}.

Definition with_fsync (fsync : bool) (s : FsBlobStore) : FsBlobStore :=
  {| fb_prefix_depth := fb_prefix_depth s; fb_fsync := fsync |}.

Definition INVALID_BLOB_ID_NAME : string := "_invalid-blob-id".

Fixpoint strip_hyphens (s : string) : string :=
  match s with
  | EmptyString => EmptyString
  | String c s' => if bool_decide (c = "-"%char) then strip_hyphens s' else String c (strip_hyphens s')
  end.

Section store.
Context `{!BlobCodec} (s : FsBlobStore).

Definition blob_path (blob_id : string) : path :=
  if negb (is_valid blob_id) then [INVALID_BLOB_ID_NAME]
  else
    let hex_chars := strip_hyphens blob_id in
    ((fun level => String.substring (level * 2) 2 hex_chars) <$> seq 0 (fb_prefix_depth s)) ++ [blob_id].

Definition check_blob_id (blob_id : string) : outcome ArcaError unit :=
  if is_valid blob_id then Ok tt else Err (Internal "invalid blob id").

Definition checked_blob_path (blob_id : string) : outcome ArcaError path :=
  match check_blob_id blob_id with
  | Ok _ => Ok (blob_path blob_id)
  | Err e => Err e
  | Panic => Panic
  end.

(** The path with a suffix on the file name. *)
Definition set_suffix (suffix : string) (p : path) : path := parent p ++ [file_name p +:+ suffix].

Definition sidecar_path (blob_id : string) : path := set_suffix ".meta" (blob_path blob_id).

Definition tmp_path (blob_id : string) : path := set_suffix ".tmp" (blob_path blob_id).

(** *** Reads *)

Definition read_raw (blob_id : string) (d : Disk) : outcome ArcaError BlobGetResult :=
  (let? p := checked_blob_path blob_id in
   match read_bytes d p with
   | Ok b => Ok {| bg_stream := {| bs_bytes := b; bs_ok := true |}; bg_content_length := Z.of_nat (length b) |}
   | _ => Err (Internal "open raw blob")
   end)%outcome.

Definition exists_ (blob_id : string) (d : Disk) : outcome ArcaError bool :=
  (let? p := checked_blob_path blob_id in
   if dk_fault d OpStat p then Err (Internal "stat raw blob")
   else Ok (is_some (dk_files d !! p)))%outcome.

Definition fs_read_sidecar (blob_id : string) (d : Disk) : outcome ArcaError (option SidecarMeta) :=
  (let? _ := check_blob_id blob_id in
   match read_bytes d (sidecar_path blob_id) with
   | Ok json =>
       if is_utf8 json then
         match sidecar_from_json json with
         | Some meta => Ok (Some meta)
         | None => Err (Internal "parse sidecar")
         end
       else Err (Internal "read sidecar")
   | Err NotFound => Ok None
   | _ => Err (Internal "read sidecar")
   end)%outcome.

(** The data file of a blob, if it can be opened. *)
Definition open_blob (d : Disk) (blob_id : string) : option (list byte) :=
  match read_bytes d (blob_path blob_id) with Ok b => Some b | _ => None end.

Definition get (blob_id : string) (range : option ByteRange) (d : Disk) : outcome ArcaError BlobGetResult :=
  let sidecar := match fs_read_sidecar blob_id d with Ok m => m | _ => None end in
  get_known (open_blob d) blob_id range sidecar.

(** *** Enumerations *)

(** Every file under the base directory; a directory that cannot be read
    aborts the walk. *)
Definition walk_files (d : Disk) : outcome ArcaError (list (path * Z)) :=
  if existsb (dk_fault d OpReadDir) ([] :: elements (dk_dirs d)) then Err (Internal "read_dir")
  else Ok ((fun e => (e.1, f_mtime e.2)) <$> map_to_list (dk_files d)).

Definition list_blob_files (d : Disk) : outcome ArcaError (list (string * Z)) :=
  (let? files := walk_files d in
   Ok (List.filter (fun e => is_valid e.1)
         ((fun f => (file_name f.1, f.2)) <$>
            List.filter (fun f => negb (ends_with (file_name f.1) ".meta") && negb (ends_with (file_name f.1) ".tmp"))
              files)))%outcome.

Definition fs_list_reclaimable_temp_files (d : Disk) : outcome ArcaError (list (path * Z)) :=
  (let? files := walk_files d in
   Ok (List.filter (fun f => match temp_file_kind (file_name f.1) with Some Reclaimable => true | _ => false end)
         files))%outcome.

Definition list_sidecar_files (d : Disk) : outcome ArcaError (list string) :=
  (let? files := walk_files d in
   Ok (List.filter is_valid (omap (fun f => strip_suffix ".meta" (file_name f.1)) files)))%outcome.

(** *** Deletions *)

(** [remove_file] that takes a missing file for removed. *)
Definition remove_if_there (op : string) (p : path) : act Disk ArcaError unit := fun d =>
  match remove_file p d with
  | (d', Err NotFound) => (d', Ok tt)
  | (d', Err _) => (d', Err (Internal op))
  | (d', Ok _) => (d', Ok tt)
  | (d', Panic) => (d', Panic)
  end.

Definition fs_delete_temp_file (p : path) : act Disk ArcaError unit :=
  match temp_file_kind (file_name p) with
  | Some Reclaimable => remove_if_there "delete temp file" p
  | _ => act_fail (Internal "refusing to delete")
  end.

Definition delete_blob_file_raw (blob_id : string) : act Disk ArcaError unit := fun d =>
  match check_blob_id blob_id with
  | Ok _ => act_for (remove_if_there "delete_blob_file") [blob_path blob_id; sidecar_path blob_id] d
  | Err e => (d, Err e)
  | Panic => (d, Panic)
  end.

Definition delete_assembled : string -> act Disk ArcaError unit := delete_blob_file_raw.

(** A removal whose result is ignored. *)
Definition remove_ignored (p : path) : act Disk ArcaError unit := fun d => ((remove_file p d).1, Ok tt).

Definition delete (blob_id : string) : act Disk ArcaError unit := fun d =>
  let parts :=
    match fs_read_sidecar blob_id d with
    | Ok (Some sidecar) => default [] (sm_composite sidecar)
    | _ => []
    end in
  (let! _ := act_for (fun p =>
       let! _ := remove_ignored (blob_path (cp_blob_id p)) in
       remove_ignored (sidecar_path (cp_blob_id p))) parts in
   let! _ := remove_if_there "delete blob" (blob_path blob_id) in
   remove_if_there "delete sidecar" (sidecar_path blob_id)) d.

(** *** Writes

    A body is the list of the items its stream yields, [None] an error. *)
Abbreviation body := (list (option (list byte))).

(** Writes the items up to the end or the first error: the size, the bytes
    hashed, and whether the end was reached. *)
Fixpoint write_chunks (now : Z) (p : path) (stream : body) (size : Z) (hashed : list byte)
  : fsact (Z * list byte * bool) :=
  match stream with
  | [] => act_ret (size, hashed, true)
  | None :: _ => act_ret (size, hashed, false)
  | Some chunk :: stream' =>
      let! _ := write_all now p chunk in
      write_chunks now p stream' (u64 (size + Z.of_nat (length chunk))) (hashed ++ chunk)
  end.

Definition sync_if (fsync : bool) (p : path) : fsact unit := if fsync then sync_all p else act_ret tt.

Definition plain_result (size : Z) (etag : string) : BlobPutResult :=
  {| bp_size := size; bp_etag := etag; bp_encryption := None; bp_compression := None;
     bp_composite_parts := None |}.

Definition put (now : Z) (blob_id : string) (stream : body) : act Disk ArcaError BlobPutResult :=
  let! _ := map_err "create blob dir" (create_dir_all_durable (parent (blob_path blob_id)) (fb_fsync s)) in
  let! _ := map_err "create tmp file" (create_new now (tmp_path blob_id)) in
  guarded (tmp_path blob_id)
    (let! (size, hashed, ended) := map_err "write blob"
         (let! written := write_chunks now (tmp_path blob_id) stream 0 [] in
          let! _ := sync_if (fb_fsync s) (tmp_path blob_id) in
          act_ret written) in
     let! _ := if (ended : bool) then act_ret tt else act_fail (Internal "read stream") in
     let! _ := map_err "rename blob" (rename (tmp_path blob_id) (blob_path blob_id)) in
     act_ret (plain_result size (hex_encode (md5_digest hashed)))).

Definition write_raw (now : Z) (uuid : string) (blob_id : string) (stream : body) : act Disk ArcaError Z := fun d =>
  match checked_blob_path blob_id with
  | Err e => (d, Err e)
  | Panic => (d, Panic)
  | Ok p =>
      let tmp := set_suffix ("." +:+ uuid +:+ ".tmp") p in
      (let! _ := map_err "create blob dir" (create_dir_all_durable (parent p) (fb_fsync s)) in
       let! _ := map_err "create raw tmp" (create_new now tmp) in
       guarded tmp
         (let! (size, _, ended) := map_err "write raw blob" (write_chunks now tmp stream 0 []) in
          let! _ := if (ended : bool) then act_ret tt else act_fail (Internal "read raw stream") in
          let! _ := map_err "fsync raw blob" (sync_if (fb_fsync s) tmp) in
          let! _ := map_err "rename raw blob" (rename tmp p) in
          act_ret size)) d
  end.

Definition write_sidecar (now : Z) (uuid : string) (blob_id : string) (meta : SidecarMeta)
  : act Disk ArcaError unit := fun d =>
  match check_blob_id blob_id with
  | Err e => (d, Err e)
  | Panic => (d, Panic)
  | Ok _ =>
      (let! _ := map_err "create sidecar dir" (create_dir_all_durable (parent (sidecar_path blob_id)) (fb_fsync s)) in
       map_err "write sidecar"
         (write_file_atomic_with now uuid (sidecar_path blob_id) (sidecar_to_json meta) (fb_fsync s))) d
  end.

(** The loop over the sidecars of the parts: [None] when a part cannot go into
    a composite as it is. *)
Fixpoint composite_of (d : Disk) (part_blob_ids : list string) (parts : list CompositePart) (total : Z)
    (md5_concat : list byte) : outcome ArcaError (option (list CompositePart * Z * list byte)) :=
  match part_blob_ids with
  | [] => Ok (Some (parts, total, md5_concat))
  | blob_id :: ids =>
      (let? sidecar := fs_read_sidecar blob_id d in
       match sidecar with
       | None => Ok None
       | Some sidecar =>
           if is_some (sm_encryption sidecar) || is_some (sm_compression sidecar) then Ok None
           else
             match hex_decode (sm_etag sidecar) with
             | Some md5_bytes =>
                 if Nat.eqb (length md5_bytes) 16 then
                   composite_of d ids
                     (parts ++ [ {| cp_blob_id := blob_id; cp_plaintext_size := sm_size sidecar;
                                    cp_plaintext_etag := sm_etag sidecar; cp_encryption := None |} ])
                     (u64 (total + sm_size sidecar)) (md5_concat ++ md5_bytes)
                 else Ok None
             | None => Ok None
             end
       end)%outcome
  end.

(** The copy of the parts, each written at once. *)
Fixpoint copy_parts (now : Z) (tmp : path) (part_ids : list string) (total : Z) (hashed : list byte)
  : act Disk ArcaError (Z * list byte) := fun d =>
  match part_ids with
  | [] => (d, Ok (total, hashed))
  | part_id :: part_ids' =>
      match read_bytes d (blob_path part_id) with
      | Ok bytes =>
          (let! _ := map_err "write concat blob" (write_all now tmp bytes) in
           copy_parts now tmp part_ids' (u64 (total + Z.of_nat (length bytes))) (hashed ++ bytes)) d
      | _ => (d, Err (Internal "open part blob"))
      end
  end.

Definition concat (now : Z) (part_blob_ids : list string) (output_blob_id : string)
  : act Disk ArcaError BlobPutResult := fun d =>
  match composite_of d part_blob_ids [] 0 [] with
  | Err e => (d, Err e)
  | Panic => (d, Panic)
  | Ok (Some (composite_parts, total_size, md5_concat)) =>
      (d, Ok {| bp_size := total_size; bp_etag := hex_encode (md5_digest md5_concat); bp_encryption := None;
                bp_compression := None; bp_composite_parts := Some composite_parts |})
  | Ok None =>
      (let! _ := map_err "create blob dir" (create_dir_all_durable (parent (blob_path output_blob_id)) (fb_fsync s)) in
       let! _ := map_err "create tmp file" (create_new now (tmp_path output_blob_id)) in
       guarded (tmp_path output_blob_id)
         (let! (total_size, hashed) := copy_parts now (tmp_path output_blob_id) part_blob_ids 0 [] in
          let! _ := map_err "fsync concat blob" (sync_if (fb_fsync s) (tmp_path output_blob_id)) in
          let! _ := map_err "rename concat blob" (rename (tmp_path output_blob_id) (blob_path output_blob_id)) in
          act_ret (plain_result total_size (hex_encode (md5_digest hashed))))) d
  end.

End store.
