(* ===== verification/FsBlobPaths.v ===== *)
(** The layout of the blob store on disk: the paths of [FsBlob] are distinct
    for distinct blobs and purposes, and every operation touches only the
    paths of its blob. *)

From S2P Require Import Prelude S3Errors Types Preconditions MetadataStore Text BlobRead BlobGc FsBlob.
From Stdlib Require Import Strings.Byte Ascii.

Open Scope act_scope.

(** ** Names *)

Lemma string_app_inj_r a b c : a +:+ c = b +:+ c -> a = b.
Proof.
  revert b. induction a as [|x a IH]; intros [|y b] H; [done|..].
  1, 2: apply (f_equal String.length) in H; rewrite !string_length_app in H; cbn [String.length] in H; lia.
  injection H as -> H. by rewrite (IH b H).
Qed.

Lemma uuid_from_length i s : uuid_from i s = true -> i + String.length s = 36.
Proof.
  revert i. induction s as [|c s IH]; intros i; cbn [uuid_from String.length].
  - intros ?%Nat.eqb_eq. lia.
  - intros [_ H%IH]%andb_true_iff. lia.
Qed.

Lemma is_valid_length id : is_valid id = true -> String.length id = 36.
Proof. intros H%uuid_from_length. lia. Qed.

(** No character of a blob id is a dot. *)
Lemma uuid_from_no_dot i a b : uuid_from i (a +:+ String "." b) = false.
Proof.
  revert i. induction a as [|c a IH]; intros i.
  - change (EmptyString +:+ String "." b) with (String "." b). cbn [uuid_from]. apply andb_false_iff. left. by case_bool_decide.
  - change (String c a +:+ String "." b) with (String c (a +:+ String "." b)). cbn [uuid_from].
    rewrite IH. apply andb_false_r.
Qed.

(** A name with a dotted suffix is not a blob id. *)
Lemma suffixed_not_valid a b : is_valid (a +:+ String "." b) = false.
Proof. apply uuid_from_no_dot. Qed.

Lemma valid_no_suffix id b : is_valid id = true -> ends_with id (String "." b) = false.
Proof.
  intros H. apply not_true_iff_false. rewrite ends_with_spec. intros [r ->]. by rewrite suffixed_not_valid in H.
Qed.

Lemma ends_with_app r p : ends_with (r +:+ p) p = true.
Proof. apply ends_with_spec. by exists r. Qed.

Lemma string_snoc_inj a b c c' : a +:+ String c EmptyString = b +:+ String c' EmptyString -> c = c'.
Proof.
  revert b. induction a as [|x a IH]; intros [|y b] H.
  - by injection H.
  - injection H as _ H. by destruct b.
  - injection H as _ H. by destruct a.
  - injection H as _ H. by apply (IH b).
Qed.

(** Two suffixes of which neither ends the other. *)
Lemma meta_not_tmp a b : a +:+ ".meta" <> b +:+ ".tmp".
Proof.
  intros H. assert (ends_with (a +:+ ".meta") "a" = true) as Ha.
  { apply ends_with_spec. exists (a +:+ ".met"). by rewrite string_app_assoc. }
  rewrite H in Ha. apply ends_with_spec in Ha as [r Hr].
  replace (b +:+ ".tmp") with ((b +:+ ".tm") +:+ "p") in Hr.
  - by apply string_snoc_inj in Hr.
  - by rewrite string_app_assoc.
Qed.

(** ** Paths *)

Lemma parent_snoc p x : parent (p ++ [x]) = p.
Proof. apply removelast_last. Qed.

Lemma file_name_snoc p x : file_name (p ++ [x]) = x.
Proof. unfold file_name. by rewrite last_snoc. Qed.

Lemma elem_of_ancestors q p : q ∈ ancestors p <-> q <> [] /\ q `prefix_of` p.
Proof.
  revert q. induction p as [|c p IH]; intros q; cbn [ancestors].
  - rewrite elem_of_nil. split; [done|]. intros [Hne ?%prefix_nil_inv]. done.
  - rewrite elem_of_cons, list_elem_of_fmap. setoid_rewrite IH. split.
    + intros [->|(r & -> & _ & [t ->])]; (split; [done|]); [by exists p|by exists t].
    + intros [Hne [t Ht]]. destruct q as [|c' q]; [done|]. injection Ht as -> Ht.
      destruct q as [|c q]; [by left|]. right. exists (c :: q). split_and!; [done..|]. by exists t.
Qed.

Lemma ancestors_snoc p x : ancestors (p ++ [x]) = ancestors p ++ [p ++ [x]].
Proof. induction p as [|c p IH]; [done|]. cbn. rewrite IH, fmap_app. done. Qed.

Section layout.
Context (s : FsBlobStore).

Definition shard (id : string) : path :=
  (fun level => String.substring (level * 2) 2 (strip_hyphens id)) <$> seq 0 (fb_prefix_depth s).

Lemma blob_path_valid id : is_valid id = true -> blob_path s id = shard id ++ [id].
Proof. intros H. unfold blob_path. by rewrite H. Qed.

Lemma sidecar_path_valid id : is_valid id = true -> sidecar_path s id = shard id ++ [id +:+ ".meta"].
Proof. intros H. unfold sidecar_path, set_suffix. by rewrite blob_path_valid, parent_snoc, file_name_snoc. Qed.

Lemma tmp_path_valid id : is_valid id = true -> tmp_path s id = shard id ++ [id +:+ ".tmp"].
Proof. intros H. unfold tmp_path, set_suffix. by rewrite blob_path_valid, parent_snoc, file_name_snoc. Qed.

Lemma file_name_blob_path id :
  file_name (blob_path s id) = if is_valid id then id else INVALID_BLOB_ID_NAME.
Proof. unfold blob_path. destruct (is_valid id); [apply file_name_snoc|done]. Qed.

Lemma file_name_set_suffix x p : file_name (set_suffix x p) = file_name p +:+ x.
Proof. unfold set_suffix. by rewrite file_name_snoc. Qed.

Lemma parent_set_suffix x p : parent (set_suffix x p) = parent p.
Proof. unfold set_suffix. by rewrite parent_snoc. Qed.

(** A path of the blob [id]: its data file or its sidecar. *)
Definition of_blob (id : string) (p : path) : Prop := p = blob_path s id \/ p = sidecar_path s id.

(** A path that an operation uses on the way: its name ends in [.tmp]. *)
Definition is_tmp (p : path) : Prop := ends_with (file_name p) ".tmp" = true.

Lemma blob_path_inj a b : is_valid a = true -> blob_path s a = blob_path s b -> a = b.
Proof.
  intros Ha H%(f_equal file_name). rewrite !file_name_blob_path, Ha in H.
  destruct (is_valid b) eqn:Hb; [done|]. subst. done.
Qed.

Lemma sidecar_path_inj a b : is_valid a = true -> sidecar_path s a = sidecar_path s b -> a = b.
Proof.
  intros Ha H%(f_equal file_name). unfold sidecar_path in H. rewrite !file_name_set_suffix in H.
  apply string_app_inj_r in H. rewrite !file_name_blob_path, Ha in H.
  destruct (is_valid b) eqn:Hb; [done|]. subst. done.
Qed.

Lemma blob_path_not_sidecar a b : is_valid a = true -> blob_path s a <> sidecar_path s b.
Proof.
  intros Ha H%(f_equal file_name). unfold sidecar_path in H. rewrite file_name_set_suffix, file_name_blob_path, Ha in H.
  rewrite H in Ha. by rewrite suffixed_not_valid in Ha.
Qed.

Lemma sidecar_path_not_blob a b : is_valid a = true -> sidecar_path s a <> blob_path s b.
Proof.
  intros Ha H%(f_equal file_name). unfold sidecar_path in H. rewrite file_name_set_suffix, !file_name_blob_path, Ha in H.
  destruct (is_valid b) eqn:Hb.
  - rewrite <- H in Hb. by rewrite suffixed_not_valid in Hb.
  - apply (f_equal String.length) in H. rewrite string_length_app, is_valid_length in H by done. done.
Qed.

Lemma of_blob_disjoint a b p : is_valid a = true -> a <> b -> of_blob a p -> ~ of_blob b p.
Proof.
  intros Ha Hne [->| ->] [H|H].
  - by apply blob_path_inj in H.
  - by apply blob_path_not_sidecar in H.
  - by apply sidecar_path_not_blob in H.
  - by apply sidecar_path_inj in H.
Qed.

Lemma blob_path_not_tmp id : ~ is_tmp (blob_path s id).
Proof. unfold is_tmp. rewrite file_name_blob_path. destruct (is_valid id) eqn:H; [by rewrite valid_no_suffix|done]. Qed.

Lemma sidecar_path_not_tmp id : ~ is_tmp (sidecar_path s id).
Proof.
  unfold is_tmp, sidecar_path. rewrite file_name_set_suffix, ends_with_spec. intros [r H]. by apply meta_not_tmp in H.
Qed.

Lemma of_blob_not_tmp id p : of_blob id p -> ~ is_tmp p.
Proof. intros [->| ->]; [apply blob_path_not_tmp|apply sidecar_path_not_tmp]. Qed.

Lemma is_tmp_suffix x p : is_tmp (set_suffix (x +:+ ".tmp") p).
Proof. unfold is_tmp. rewrite file_name_set_suffix, <- string_app_assoc. apply ends_with_app. Qed.

Lemma is_tmp_tmp_path id : is_tmp (tmp_path s id).
Proof. apply (is_tmp_suffix EmptyString). Qed.

Lemma parent_sidecar_path id : parent (sidecar_path s id) = parent (blob_path s id).
Proof. apply parent_set_suffix. Qed.

Lemma parent_of_blob id p : of_blob id p -> parent p = parent (blob_path s id).
Proof. intros [->| ->]; [done|]. apply parent_set_suffix. Qed.
End layout.
