(* ===== verification/FsBlobFrame.v ===== *)
(** What the operations of [FsBlob] leave alone.

    A property of the disk that every system call on a set of paths keeps (a
    [Frame]) is kept by every operation of the store whose paths are in the
    set, whether it succeeds or fails anywhere.  The instances are the files of
    other blobs, what of them survives a power loss, and the layout. *)

From S2P Require Import Prelude S3Errors Types Preconditions MetadataStore Text BlobRead BlobGc FsBlob FsBlobPaths.
From Stdlib Require Import Strings.Byte Ascii.

Open Scope act_scope.

(** ** Preservation *)

Definition preserves {E A : Type} (I : Disk -> Prop) (m : act Disk E A) : Prop := forall d, I d -> I (m d).1.

(** [I] is kept by every system call on paths in [P]. *)
Class Frame (I : Disk -> Prop) (P : path -> Prop) : Prop := {
  frame_create_dir_all dir : preserves I (create_dir_all dir);
  frame_sync_dir dir : preserves I (sync_dir dir);
  frame_create_new now p : P p -> preserves I (create_new now p);
  frame_write_all now p bytes : P p -> preserves I (write_all now p bytes);
  frame_sync_all p : P p -> preserves I (sync_all p);
  frame_rename src dst : P src -> P dst -> preserves I (rename src dst);
  frame_remove_file p : P p -> preserves I (remove_file p);
}.

Create HintDb frame.
#[export] Hint Resolve frame_create_dir_all frame_sync_dir frame_create_new frame_write_all frame_sync_all
  frame_rename frame_remove_file : frame.

Section combinators.
Context {E A : Type} (I : Disk -> Prop).

Lemma preserves_ret (a : A) : preserves I (act_ret (E := E) a).
Proof. by intros d. Qed.

Lemma preserves_fail (e : E) : preserves I (act_fail (A := A) e).
Proof. by intros d. Qed.

Lemma preserves_bind {B : Type} (m : act Disk E A) (k : A -> act Disk E B) :
  preserves I m -> (forall a, preserves I (k a)) -> preserves I (act_bind m k).
Proof.
  intros Hm Hk d Hd. unfold act_bind. specialize (Hm d Hd).
  destruct (m d) as [d' [a|e|]]; [by apply Hk|done..].
Qed.

Lemma preserves_map_err op (m : fsact A) : preserves I m -> preserves I (map_err op m).
Proof. intros Hm d Hd. unfold map_err. specialize (Hm d Hd). by destruct (m d) as [d' [a|e|]]. Qed.

Lemma preserves_syscall op p (m : fsact A) : preserves I m -> preserves I (syscall op p m).
Proof. intros Hm d Hd. unfold syscall. by case_match; [|apply Hm]. Qed.

Lemma preserves_guarded tmp (m : act Disk E A) :
  preserves I (remove_file tmp) -> preserves I m -> preserves I (guarded tmp m).
Proof.
  intros Hr Hm d Hd. unfold guarded. specialize (Hm d Hd).
  destruct (m d) as [d' [a|e|]]; [done|by apply Hr..].
Qed.

Lemma preserves_if (b : bool) (m1 m2 : act Disk E A) :
  preserves I m1 -> preserves I m2 -> preserves I (if b then m1 else m2).
Proof. by destruct b. Qed.

Lemma preserves_for (f : A -> act Disk E unit) l :
  (forall x, x ∈ l -> preserves I (f x)) -> preserves I (act_for f l).
Proof. intros Hf d Hd. apply act_for_inv; [|done]. intros x d1 Hx. by apply Hf. Qed.
End combinators.

#[export] Hint Resolve preserves_ret preserves_fail preserves_bind preserves_map_err preserves_syscall
  preserves_guarded preserves_if preserves_for : frame.

Ltac frame := eauto 12 with frame.

Section framed.
Context (I : Disk -> Prop) (P : path -> Prop) `{!Frame I P}.
Context `{!BlobCodec} (s : FsBlobStore).

Lemma frame_create_dir_all_durable dir fsync : preserves I (create_dir_all_durable dir fsync).
Proof.
  unfold create_dir_all_durable. apply preserves_if; [frame|]. apply preserves_syscall. intros d Hd.
  case_bool_decide as Hex; [done|]. clear Hex. destruct (missing_dirs d (rev dir)) as [missing existing].
  revert d Hd. change (preserves I (let! _ := create_dir_all dir in let! _ := sync_dir existing in act_for sync_dir (rev missing))).
  frame.
Qed.

Lemma frame_write_file_atomic_with now uuid dest bytes fsync :
  P dest -> P (set_suffix ("." +:+ uuid +:+ ".tmp") dest) ->
  preserves I (write_file_atomic_with now uuid dest bytes fsync).
Proof.
  intros Hd Ht. unfold write_file_atomic_with. fold (set_suffix ("." +:+ uuid +:+ ".tmp") dest).
  unfold rename_durable. apply preserves_guarded; [frame|]. apply preserves_bind; [frame|]. intros _.
  apply preserves_bind; frame.
Qed.

Lemma frame_write_chunks now p stream size hashed : P p -> preserves I (write_chunks now p stream size hashed).
Proof.
  intros Hp. revert size hashed. induction stream as [|[c|] stream IH]; intros size hashed; cbn [write_chunks]; frame.
Qed.

Lemma frame_sync_if fsync p : P p -> preserves I (sync_if fsync p).
Proof. unfold sync_if. frame. Qed.

#[local] Hint Resolve frame_create_dir_all_durable frame_write_file_atomic_with frame_write_chunks frame_sync_if : frame.

Lemma frame_put now id stream : P (blob_path s id) -> P (tmp_path s id) -> preserves I (put s now id stream).
Proof.
  intros Hb Ht. unfold put. apply preserves_bind; [frame|]. intros _. apply preserves_bind; [frame|]. intros _.
  apply preserves_guarded; [frame|]. apply preserves_bind; [frame|]. intros [[size hashed] ended]. frame.
Qed.

Lemma frame_write_raw now uuid id stream :
  P (blob_path s id) -> P (set_suffix ("." +:+ uuid +:+ ".tmp") (blob_path s id)) ->
  preserves I (write_raw s now uuid id stream).
Proof.
  intros Hb Ht d Hd. unfold write_raw, checked_blob_path, check_blob_id.
  destruct (is_valid id); [|done]. revert d Hd.
  match goal with |- forall d, _ -> I (?m d).1 => change (preserves I m) end.
  apply preserves_bind; [frame|]. intros _. apply preserves_bind; [frame|]. intros _.
  apply preserves_guarded; [frame|]. apply preserves_bind; [frame|]. intros [[size hashed] ended]. frame.
Qed.

Lemma frame_write_sidecar now uuid id meta :
  P (sidecar_path s id) -> P (set_suffix ("." +:+ uuid +:+ ".tmp") (sidecar_path s id)) ->
  preserves I (write_sidecar s now uuid id meta).
Proof.
  intros Hb Ht d Hd. unfold write_sidecar, check_blob_id. destruct (is_valid id); [|done]. revert d Hd.
  match goal with |- forall d, _ -> I (?m d).1 => change (preserves I m) end. frame.
Qed.

Lemma frame_remove_if_there op p : P p -> preserves I (remove_if_there op p).
Proof.
  intros Hp d Hd. unfold remove_if_there. pose proof (frame_remove_file p Hp d Hd) as Hr.
  by destruct (remove_file p d) as [d' [a|[]|]].
Qed.

Lemma frame_remove_ignored p : P p -> preserves I (remove_ignored p).
Proof. intros Hp d Hd. by apply (frame_remove_file p Hp d Hd). Qed.

#[local] Hint Resolve frame_remove_if_there frame_remove_ignored : frame.

Lemma frame_delete_blob_file_raw id :
  (is_valid id = true -> P (blob_path s id) /\ P (sidecar_path s id)) -> preserves I (delete_blob_file_raw s id).
Proof.
  intros Hp d Hd. unfold delete_blob_file_raw, check_blob_id. destruct (is_valid id); [|done].
  destruct (Hp eq_refl). apply act_for_inv; [|done]. intros p d1 Hin. revert d1.
  apply frame_remove_if_there. by apply elem_of_cons in Hin as [->| ->%list_elem_of_singleton].
Qed.

Lemma frame_delete_temp_file p : (is_tmp p -> P p) -> preserves I (fs_delete_temp_file p).
Proof.
  intros Hp. unfold fs_delete_temp_file. destruct (temp_file_kind (file_name p)) as [[]|] eqn:E; [|frame..].
  apply frame_remove_if_there, Hp. unfold temp_file_kind in E. unfold is_tmp.
  by destruct (_ || _), (ends_with (file_name p) ".tmp").
Qed.

(** The parts a deletion of [id] takes with it. *)
Definition cascade (id : string) (d : Disk) : list string :=
  match fs_read_sidecar s id d with
  | Ok (Some sidecar) => cp_blob_id <$> default [] (sm_composite sidecar)
  | _ => []
  end.

Lemma frame_blob_delete id d :
  I d -> (forall b, b = id \/ b ∈ cascade id d -> P (blob_path s b) /\ P (sidecar_path s b)) ->
  I (delete s id d).1.
Proof.
  intros Hd Hp. unfold delete. set (parts := match fs_read_sidecar s id d with Ok (Some x) => _ | _ => [] end).
  assert (cascade id d = cp_blob_id <$> parts) as Hc.
  { unfold cascade, parts. by destruct (fs_read_sidecar s id d) as [[x|]| |]. }
  rewrite Hc in Hp. destruct (Hp id) as [Hb Hs]; [by left|]. clear Hc. clearbody parts.
  revert d Hd. match goal with |- forall d, _ -> I (?m d).1 => change (preserves I m) end.
  apply preserves_bind; [|frame]. apply preserves_for. intros p Hin.
  destruct (Hp (cp_blob_id p)) as [Hpb Hps]; [right; apply list_elem_of_fmap; by exists p|]. frame.
Qed.

Lemma frame_copy_parts now tmp ids total hashed : P tmp -> preserves I (copy_parts s now tmp ids total hashed).
Proof.
  intros Ht. revert total hashed. induction ids as [|id ids IH]; intros total hashed d Hd; cbn [copy_parts]; [done|].
  destruct (read_bytes d (blob_path s id)) as [bytes| |]; [|done..]. revert d Hd.
  match goal with |- forall d, _ -> I (?m d).1 => change (preserves I m) end. frame.
Qed.

Lemma frame_concat now ids out : P (blob_path s out) -> P (tmp_path s out) -> preserves I (concat s now ids out).
Proof.
  intros Hb Ht d Hd. unfold concat. destruct (composite_of s d ids [] 0 []) as [[[[parts total] md5]|]| |]; [done| |done..].
  revert d Hd. match goal with |- forall d, _ -> I (?m d).1 => change (preserves I m) end.
  apply preserves_bind; [frame|]. intros _. apply preserves_bind; [frame|]. intros _.
  apply preserves_guarded; [frame|]. apply preserves_bind; [by apply frame_copy_parts|]. intros [size hashed]. frame.
Qed.
End framed.

(** ** Frames *)

(** The system calls, unfolded to what they do to the disk. *)
Ltac frame_cases :=
  intros d Hd;
  unfold create_dir_all, sync_dir, create_new, write_all, sync_all, rename, remove_file, syscall in *;
  destruct d as [fs dirs df dd ft]; cbn in *;
  repeat match goal with |- context [if ft ?o ?p then _ else _] => destruct (ft o p); [exact Hd|] end;
  cbn in *.

(** Which system calls fail. *)
#[export] Instance fault_frame faults : Frame (fun d => dk_fault d = faults) (fun _ => True).
Proof.
  split; intros; frame_cases; try done; by destruct (fs !! _).
Qed.

(** A file at a path that is not touched. *)
#[export] Instance file_frame (p : path) (x : option File) :
  Frame (fun d => dk_files d !! p = x) (fun q => q <> p).
Proof.
  split; intros; frame_cases; try done.
  - destruct (fs !! p0); cbn; [done|]. by rewrite lookup_insert_ne.
  - by rewrite lookup_alter_ne.
  - by rewrite lookup_alter_ne.
  - destruct (fs !! src); cbn; [|done]. by rewrite lookup_insert_ne, lookup_delete_ne.
  - destruct (fs !! p0); cbn; [|done]. by rewrite lookup_delete_ne.
Qed.

(** The file [f] at [p] is there and survives a power loss. *)
Definition durably (p : path) (f : File) (d : Disk) : Prop :=
  dk_files d !! p = Some f /\ dk_durable_files d !! p = Some f /\ f_synced f = true /\
  forall q, q ∈ ancestors (parent p) -> q ∈ dk_dirs d /\ q ∈ dk_durable_dirs d.

Lemma lookup_synced (A B : gmap path File) dir p :
  (filter (fun e => parent e.1 = dir) A ∪ filter (fun e => parent e.1 <> dir) B) !! p =
  if bool_decide (parent p = dir) then A !! p else B !! p.
Proof.
  rewrite lookup_union, !map_lookup_filter. destruct (A !! p), (B !! p); cbn; case_bool_decide;
    repeat case_guard; cbn in *; done.
Qed.

#[export] Instance durable_frame (p : path) (f : File) : Frame (durably p f) (fun q => q <> p).
Proof.
  split; intros; frame_cases; unfold durably in *; cbn in *; destruct Hd as (Hf & Hdf & Hs & Hq).
  - split_and!; [done..|]. intros q Hin. specialize (Hq q Hin). set_solver.
  - rewrite lookup_synced. split_and!; [done| |done|].
    + by case_bool_decide.
    + intros q Hin. destruct (Hq q Hin) as [H1 H2]. split; [done|].
      rewrite elem_of_union, !elem_of_filter. destruct (decide (parent q = dir)); auto.
  - destruct (fs !! p0); cbn; [done|]. by rewrite lookup_insert_ne.
  - by rewrite lookup_alter_ne.
  - by rewrite lookup_alter_ne.
  - destruct (fs !! src); cbn; [|done]. by rewrite lookup_insert_ne, lookup_delete_ne.
  - destruct (fs !! p0); cbn; [|done]. by rewrite lookup_delete_ne.
Qed.

(** Blob files and sidecars are where the store looks for them. *)
Definition path_ok (s : FsBlobStore) (p : path) : Prop :=
  (is_valid (file_name p) = true -> p = blob_path s (file_name p)) /\
  (forall id, is_valid id = true -> file_name p = id +:+ ".meta" -> p = sidecar_path s id).

Definition well_placed (s : FsBlobStore) (d : Disk) : Prop :=
  forall p f, dk_files d !! p = Some f -> path_ok s p.

#[export] Instance placed_frame (s : FsBlobStore) : Frame (well_placed s) (path_ok s).
Proof.
  split; intros; frame_cases; unfold well_placed in *; cbn in *; try done.
  - destruct (fs !! p); cbn; [done|]. intros q f. rewrite lookup_insert_Some. intros [[<- _]|[_ ?]]; eauto.
  - intros q f. rewrite lookup_alter_Some. intros [[<- _]|[_ ?]]; eauto.
  - intros q f. rewrite lookup_alter_Some. intros [[<- _]|[_ ?]]; eauto.
  - destruct (fs !! src); cbn; [|done]. intros q f'. rewrite lookup_insert_Some, lookup_delete_Some.
    intros [[<- _]|(_ & _ & ?)]; eauto.
  - destruct (fs !! p); cbn; [|done]. intros q f'. rewrite lookup_delete_Some. intros [_ ?]; eauto.
Qed.

Lemma path_ok_blob s id : path_ok s (blob_path s id).
Proof.
  split; rewrite file_name_blob_path.
  - by destruct (is_valid id).
  - intros id' Hv' H. destruct (is_valid id) eqn:Hv.
    + rewrite H in Hv. by rewrite suffixed_not_valid in Hv.
    + apply (f_equal String.length) in H. rewrite string_length_app, (is_valid_length id') in H by done. done.
Qed.

Lemma path_ok_sidecar s id : path_ok s (sidecar_path s id).
Proof.
  split; unfold sidecar_path; rewrite file_name_set_suffix.
  - by rewrite suffixed_not_valid.
  - intros id' Hv H%string_app_inj_r. rewrite file_name_blob_path in H.
    destruct (is_valid id); [by subst|]. by subst id'.
Qed.

Lemma path_ok_tmp s p : is_tmp p -> path_ok s p.
Proof.
  unfold is_tmp. intros [r H]%ends_with_spec. split; rewrite H.
  - by rewrite suffixed_not_valid.
  - intros id Hv E. symmetry in E. by apply meta_not_tmp in E.
Qed.

#[export] Hint Resolve path_ok_blob path_ok_sidecar path_ok_tmp is_tmp_tmp_path is_tmp_suffix : frame.

(** ** Operations as steps *)

(** A call of the store, with the time and the UUID it draws. *)
Inductive BlobOp : Type :=
  | BPut (now : Z) (id : string) (stream : list (option (list byte)))
  | BWriteRaw (now : Z) (uuid id : string) (stream : list (option (list byte)))
  | BWriteSidecar (now : Z) (uuid id : string) (meta : SidecarMeta)
  | BConcat (now : Z) (part_ids : list string) (out : string)
  | BDelete (id : string)
  | BDeleteRaw (id : string)
  | BDeleteTemp (p : path).

Section steps.
Context `{!BlobCodec} (s : FsBlobStore).

Definition run_op (o : BlobOp) (d : Disk) : Disk :=
  match o with
  | BPut now id stream => (put s now id stream d).1
  | BWriteRaw now uuid id stream => (write_raw s now uuid id stream d).1
  | BWriteSidecar now uuid id meta => (write_sidecar s now uuid id meta d).1
  | BConcat now part_ids out => (concat s now part_ids out d).1
  | BDelete id => (delete s id d).1
  | BDeleteRaw id => (delete_blob_file_raw s id d).1
  | BDeleteTemp p => (fs_delete_temp_file p d).1
  end.

(** The blobs whose files a call may change. *)
Definition touches (o : BlobOp) (d : Disk) (b : string) : Prop :=
  match o with
  | BPut _ id _ | BWriteRaw _ _ id _ | BWriteSidecar _ _ id _ | BConcat _ _ id | BDeleteRaw id => b = id
  | BDelete id => b = id \/ b ∈ cascade s id d
  | BDeleteTemp _ => False
  end.

Lemma run_op_frame (I : Disk -> Prop) (P : path -> Prop) `{!Frame I P} o d :
  I d -> (forall p, is_tmp p -> P p) ->
  (forall b, touches o d b -> P (blob_path s b) /\ P (sidecar_path s b)) ->
  I (run_op o d).
Proof.
  intros Hd Htmp Hp. destruct o as [now id stream|now uuid id stream|now uuid id meta|now ids out|id|id|p]; cbn in *.
  - destruct (Hp id eq_refl). by apply (frame_put I P); [|apply Htmp, is_tmp_tmp_path|].
  - destruct (Hp id eq_refl). apply (frame_write_raw I P); [done|apply Htmp|done].
    apply (is_tmp_suffix ("." +:+ uuid)).
  - destruct (Hp id eq_refl). apply (frame_write_sidecar I P); [done|apply Htmp|done].
    apply (is_tmp_suffix ("." +:+ uuid)).
  - destruct (Hp out eq_refl). by apply (frame_concat I P); [|apply Htmp, is_tmp_tmp_path|].
  - by apply (frame_blob_delete I P).
  - apply (frame_delete_blob_file_raw I P); auto.
  - apply (frame_delete_temp_file I P); auto.
Qed.

Lemma run_op_fault o d : dk_fault (run_op o d) = dk_fault d.
Proof. by apply (run_op_frame (fun d' => dk_fault d' = dk_fault d) (fun _ => True)). Qed.

Lemma run_op_placed o d : well_placed s d -> well_placed s (run_op o d).
Proof. intros Hd. apply (run_op_frame (well_placed s) (path_ok s)); [done|frame|frame]. Qed.

(** The paths of a blob that a call does not touch. *)
Lemma untouched_paths o d id p :
  is_valid id = true -> ~ touches o d id -> of_blob s id p ->
  (forall q, is_tmp q -> q <> p) /\ (forall b, touches o d b -> blob_path s b <> p /\ sidecar_path s b <> p).
Proof.
  intros Hv Hno Hp. split.
  - intros q Hq ->. by apply (of_blob_not_tmp s id p).
  - intros b Hb. assert (id <> b) as Hne by congruence. pose proof (of_blob_disjoint s id b p Hv Hne Hp) as Hd.
    unfold of_blob in Hd. split; intros <-; apply Hd; auto.
Qed.

Lemma run_op_file o d id p :
  is_valid id = true -> ~ touches o d id -> of_blob s id p -> dk_files (run_op o d) !! p = dk_files d !! p.
Proof.
  intros Hv Hno Hp. destruct (untouched_paths o d id p Hv Hno Hp).
  by apply (run_op_frame (fun d' => dk_files d' !! p = dk_files d !! p) (fun q => q <> p)).
Qed.

Lemma run_op_durable o d id p f :
  is_valid id = true -> ~ touches o d id -> of_blob s id p -> durably p f d -> durably p f (run_op o d).
Proof.
  intros Hv Hno Hp Hd. destruct (untouched_paths o d id p Hv Hno Hp).
  by apply (run_op_frame (durably p f) (fun q => q <> p)).
Qed.

(** A sequence of calls none of which touches [id]. *)
Inductive elsewhere (id : string) : Disk -> Disk -> Prop :=
  | elsewhere_refl d : elsewhere id d d
  | elsewhere_step o d d' : ~ touches o d id -> elsewhere id (run_op o d) d' -> elsewhere id d d'.

Lemma elsewhere_durable id p f d d' :
  is_valid id = true -> of_blob s id p -> elsewhere id d d' -> durably p f d -> durably p f d'.
Proof. intros Hv Hp Hsteps. induction Hsteps; [done|]. eauto using run_op_durable. Qed.

Lemma elsewhere_fault id d d' : elsewhere id d d' -> dk_fault d' = dk_fault d.
Proof. induction 1 as [|o d d' _ _ IH]; [done|]. by rewrite IH, run_op_fault. Qed.
End steps.
