(* ===== verification/FsBlobSafety.v ===== *)
(** Correctness of the file system blob store: what a write stores is what a
    read returns, a write that fails leaves nothing, an acknowledged blob
    survives a power loss, and the store implements the interface the garbage
    collection relies on. *)

From S2P Require Import Prelude S3Errors Types Preconditions MetadataStore Text BlobRead BlobGc FsBlob FsBlobPaths FsBlobFrame.
From Stdlib Require Import Strings.Byte Ascii.

Open Scope act_scope.

(** ** System calls that succeed *)

Definition new_file (now : Z) (bytes : list byte) (synced : bool) : File :=
  {| f_bytes := bytes; f_mtime := now; f_synced := synced |}.

Lemma dk_files_with m d : dk_files (with_files m d) = m.
Proof. by destruct d. Qed.

Lemma with_files_with m m' d : with_files m (with_files m' d) = with_files m d.
Proof. by destruct d. Qed.

Lemma with_files_same d : with_files (dk_files d) d = d.
Proof. by destruct d. Qed.

Lemma create_new_ok now p d d' :
  create_new now p d = (d', Ok tt) ->
  dk_files d !! p = None /\ d' = with_files (<[p := new_file now [] false]> (dk_files d)) d.
Proof. unfold create_new, syscall. repeat case_match; naive_solver. Qed.

Lemma write_all_ok now p bytes d d' b :
  write_all now p bytes d = (d', Ok tt) -> dk_files d !! p = Some (new_file now b false) ->
  d' = with_files (<[p := new_file now (b ++ bytes) false]> (dk_files d)) d.
Proof.
  unfold write_all, syscall. case_match; [done|]. intros [= <-] Hp. f_equal.
  apply map_eq. intros q. destruct (decide (q = p)) as [->|Hne].
  - by rewrite lookup_alter_eq, lookup_insert_eq, Hp.
  - by rewrite lookup_alter_ne, lookup_insert_ne.
Qed.

Lemma sync_all_ok p d d' now b :
  sync_all p d = (d', Ok tt) -> dk_files d !! p = Some (new_file now b false) ->
  d' = with_files (<[p := new_file now b true]> (dk_files d)) d.
Proof.
  unfold sync_all, syscall. case_match; [done|]. intros [= <-] Hp. f_equal.
  apply map_eq. intros q. destruct (decide (q = p)) as [->|Hne].
  - by rewrite lookup_alter_eq, lookup_insert_eq, Hp.
  - by rewrite lookup_alter_ne, lookup_insert_ne.
Qed.

Lemma sync_if_ok fsync p d d' now b :
  sync_if fsync p d = (d', Ok tt) -> dk_files d !! p = Some (new_file now b false) ->
  d' = with_files (<[p := new_file now b fsync]> (dk_files d)) d.
Proof.
  destruct fsync; cbn; [apply sync_all_ok|]. intros [= <-] Hp. by rewrite insert_id, with_files_same.
Qed.

Lemma rename_ok src dst d d' f :
  rename src dst d = (d', Ok tt) -> dk_files d !! src = Some f ->
  d' = with_files (<[dst := f]> (base.delete src (dk_files d))) d.
Proof. unfold rename, syscall. case_match; [done|]. intros Heq Hs. rewrite Hs in Heq. naive_solver. Qed.

Lemma map_err_ok {A : Type} op (m : fsact A) d d' a : map_err op m d = (d', Ok a) <-> m d = (d', Ok a).
Proof. unfold map_err. destruct (m d) as [d1 [x|e|]]; split; congruence. Qed.

Lemma guarded_ok {E A : Type} tmp (m : act Disk E A) d d' a : guarded tmp m d = (d', Ok a) <-> m d = (d', Ok a).
Proof. unfold guarded. destruct (m d) as [d1 [x|e|]]; split; congruence. Qed.

Lemma create_dir_all_durable_files dir fsync d :
  dk_files (create_dir_all_durable dir fsync d).1 = dk_files d /\
  dk_fault (create_dir_all_durable dir fsync d).1 = dk_fault d.
Proof.
  split.
  - apply map_eq. intros p.
    by apply (frame_create_dir_all_durable (fun d' => dk_files d' !! p = dk_files d !! p) (fun q => q <> p)).
  - by apply (frame_create_dir_all_durable (fun d' => dk_fault d' = dk_fault d) (fun _ => True)).
Qed.

(** A stream that ends delivers its chunks, and nothing but them. *)
Lemma write_chunks_ok now p stream d d' b size hashed size' hashed' ended :
  write_chunks now p stream size hashed d = (d', Ok (size', hashed', ended)) ->
  dk_files d !! p = Some (new_file now b false) ->
  exists chunks,
    (ended = true -> stream = Some <$> chunks) /\
    d' = with_files (<[p := new_file now (b ++ List.concat chunks) false]> (dk_files d)) d /\
    hashed' = hashed ++ List.concat chunks /\
    (u64 size = size -> size' = u64 (size + Z.of_nat (length (List.concat chunks)))).
Proof.
  revert d b size hashed. induction stream as [|[c|] stream IH]; intros d b size hashed; cbn [write_chunks].
  - intros [= <- <- <- <-] Hp. exists []. cbn. rewrite !app_nil_r, Z.add_0_r, insert_id, with_files_same by done. done.
  - intros (d1 & [] & Hw & Hrec)%act_bind_ok Hp. apply (write_all_ok _ _ _ _ _ b) in Hw; [|done].
    apply (IH _ (b ++ c)) in Hrec as (chunks & He & -> & -> & Hsz); [|by rewrite Hw, dk_files_with, lookup_insert_eq].
    exists (c :: chunks). cbn. split_and!.
    + by intros ->%He.
    + by rewrite Hw, dk_files_with, with_files_with, insert_insert_eq, app_assoc.
    + by rewrite app_assoc.
    + intros _. rewrite Hsz by apply Zmod_mod. rewrite length_app. unfold u64. rewrite Zplus_mod_idemp_l.
      f_equal. lia.
  - intros [= <- <- <- <-] Hp. exists []. cbn. rewrite !app_nil_r, Z.add_0_r, insert_id, with_files_same by done. done.
Qed.

Section store.
Context `{!BlobCodec} (s : FsBlobStore).

(** A temporary file that was created, filled and renamed. *)
Lemma publish_files (tmp dst : path) (m : gmap path File) (f g : File) :
  m !! tmp = None -> tmp <> dst -> <[dst := g]> (base.delete tmp (<[tmp := f]> m)) = <[dst := g]> m.
Proof. intros Hm Hne. by rewrite delete_insert_id. Qed.

Lemma set_suffix_ne c x p : set_suffix (String c x) p <> p.
Proof.
  intros Heq%(f_equal file_name). rewrite file_name_set_suffix in Heq.
  apply (f_equal String.length) in Heq. rewrite string_length_app in Heq. cbn in Heq. lia.
Qed.

(** What every write of a data file does when it succeeds. *)
Definition published (id : string) (bytes : list byte) (now : Z) (d d' : Disk) : Prop :=
  exists d0,
    create_dir_all_durable (parent (blob_path s id)) (fb_fsync s) d = (d0, Ok tt) /\
    d' = with_files (<[blob_path s id := new_file now bytes (fb_fsync s)]> (dk_files d)) d0.

(** The end of a write: the temporary file is synced and renamed. *)
Lemma finish_ok (tmp dst : path) (now : Z) (bytes : list byte) (d d2 d3 d4 : Disk) (m : gmap path File) :
  m !! tmp = None -> tmp <> dst ->
  d2 = with_files (<[tmp := new_file now bytes false]> m) d ->
  sync_if (fb_fsync s) tmp d2 = (d3, Ok tt) -> rename tmp dst d3 = (d4, Ok tt) ->
  d4 = with_files (<[dst := new_file now bytes (fb_fsync s)]> m) d.
Proof.
  intros Hm Hne -> Hs Hr.
  apply (sync_if_ok _ _ _ _ now bytes) in Hs; [|by rewrite dk_files_with, lookup_insert_eq].
  rewrite dk_files_with, with_files_with, insert_insert_eq in Hs. subst d3.
  apply (rename_ok _ _ _ _ (new_file now bytes (fb_fsync s))) in Hr; [|by rewrite dk_files_with, lookup_insert_eq].
  by rewrite dk_files_with, with_files_with, publish_files in Hr.
Qed.

(** The beginning of a write: the directory and the temporary file. *)
Lemma begin_ok {A : Type} op1 op2 id tmp now (k : act Disk ArcaError A) d d' r :
  (let! _ := map_err op1 (create_dir_all_durable (parent (blob_path s id)) (fb_fsync s)) in
   let! _ := map_err op2 (create_new now tmp) in
   guarded tmp k) d = (d', Ok r) ->
  exists d0,
    create_dir_all_durable (parent (blob_path s id)) (fb_fsync s) d = (d0, Ok tt) /\
    dk_files d !! tmp = None /\
    k (with_files (<[tmp := new_file now [] false]> (dk_files d)) d0) = (d', Ok r).
Proof.
  intros (d0 & [] & Hdir%map_err_ok & (d1 & [] & Hc%map_err_ok & Hb%guarded_ok)%act_bind_ok)%act_bind_ok.
  destruct (create_dir_all_durable_files (parent (blob_path s id)) (fb_fsync s) d) as [Hf0 _].
  rewrite Hdir in Hf0. cbn in Hf0. apply create_new_ok in Hc as [Hnone ->]. rewrite Hf0 in *. eauto.
Qed.

Lemma stream_written (now : Z) (tmp : path) (stream : list (option (list byte))) (m : gmap path File) (d d' : Disk)
    (size : Z) (hashed : list byte) (ended : bool) :
  write_chunks now tmp stream 0 [] (with_files (<[tmp := new_file now [] false]> m) d) = (d', Ok (size, hashed, ended)) ->
  exists chunks,
    (ended = true -> stream = Some <$> chunks) /\
    d' = with_files (<[tmp := new_file now (List.concat chunks) false]> m) d /\
    hashed = List.concat chunks /\ size = u64 (Z.of_nat (length (List.concat chunks))).
Proof.
  intros Hw. apply (write_chunks_ok _ _ _ _ _ []) in Hw as (chunks & He & -> & -> & Hsz);
    [|by rewrite dk_files_with, lookup_insert_eq].
  exists chunks. rewrite Hsz by done. by rewrite dk_files_with, with_files_with, insert_insert_eq.
Qed.

Lemma tmp_not_blob id tmp : is_tmp tmp -> tmp <> blob_path s id.
Proof. intros Ht ->. by apply (blob_path_not_tmp s id). Qed.

Lemma blob_put_ok now id stream d d' r :
  put s now id stream d = (d', Ok r) ->
  exists chunks,
    stream = Some <$> chunks /\ published id (List.concat chunks) now d d' /\
    r = plain_result (u64 (Z.of_nat (length (List.concat chunks)))) (hex_encode (md5_digest (List.concat chunks))).
Proof.
  intros (d0 & Hdir & Hnone & Hb)%begin_ok.
  apply act_bind_ok in Hb as (d2 & [[size hashed] ended] & Hw%map_err_ok & Hb).
  apply act_bind_ok in Hw as (d3 & [[size' hashed'] ended'] & Hw & (d4 & [] & Hsync & [= -> -> -> ->])%act_bind_ok).
  apply stream_written in Hw as (chunks & He & -> & -> & ->).
  apply act_bind_ok in Hb as (d5 & [] & Hend & (d6 & [] & Hren%map_err_ok & [= -> <-])%act_bind_ok).
  destruct ended; [|done]. injection Hend as <-. exists chunks. split_and!; [auto| |done]. exists d0. split; [done|].
  by eapply finish_ok; [exact Hnone|apply tmp_not_blob, is_tmp_tmp_path|..].
Qed.

Lemma write_raw_ok now uuid id stream d d' n :
  write_raw s now uuid id stream d = (d', Ok n) ->
  is_valid id = true /\ exists chunks,
    stream = Some <$> chunks /\ published id (List.concat chunks) now d d' /\
    n = u64 (Z.of_nat (length (List.concat chunks))).
Proof.
  unfold write_raw, checked_blob_path, check_blob_id. destruct (is_valid id) eqn:Hv; [|done].
  intros (d0 & Hdir & Hnone & Hb)%begin_ok. split; [done|].
  apply act_bind_ok in Hb as (d2 & [[size hashed] ended] & Hw%map_err_ok & Hb).
  apply stream_written in Hw as (chunks & He & -> & -> & ->).
  apply act_bind_ok in Hb as (d5 & [] & Hend & (d4 & [] & Hsync%map_err_ok & (d6 & [] & Hren%map_err_ok & [= -> <-])%act_bind_ok)%act_bind_ok).
  destruct ended; [|done]. injection Hend as <-. exists chunks. split_and!; [auto| |done]. exists d0. split; [done|].
  eapply finish_ok; [exact Hnone|apply tmp_not_blob|done..]. apply (is_tmp_suffix ("." +:+ uuid)).
Qed.

Lemma copy_parts_ok (now : Z) (tmp : path) (ids : list string) (total total' : Z) (hashed hashed' b : list byte)
    (m : gmap path File) (d d' : Disk) :
  (forall id, id ∈ ids -> blob_path s id <> tmp) -> u64 total = total ->
  copy_parts s now tmp ids total hashed (with_files (<[tmp := new_file now b false]> m) d) = (d', Ok (total', hashed')) ->
  exists contents,
    Forall2 (fun id c => f_bytes <$> m !! blob_path s id = Some c) ids contents /\
    d' = with_files (<[tmp := new_file now (b ++ List.concat contents) false]> m) d /\
    hashed' = hashed ++ List.concat contents /\
    total' = u64 (total + Z.of_nat (length (List.concat contents))).
Proof.
  revert total hashed b. induction ids as [|id ids IH]; intros total hashed b Hne Ht; cbn [copy_parts].
  - intros [= <- <- <-]. exists []. cbn. by rewrite !app_nil_r, Z.add_0_r.
  - destruct (read_bytes _ _) as [bytes| |] eqn:Hr; [|done..].
    intros (d1 & [] & Hw%map_err_ok & Hrec)%act_bind_ok.
    apply (write_all_ok _ _ _ _ _ b) in Hw; [|by rewrite dk_files_with, lookup_insert_eq].
    rewrite dk_files_with, with_files_with, insert_insert_eq in Hw. subst d1.
    apply IH in Hrec as (contents & Hf & -> & -> & ->); [|intros; apply Hne; by right|apply Zmod_mod].
    exists (bytes :: contents). cbn. split_and!.
    + constructor; [|done]. unfold read_bytes in Hr. destruct (dk_fault _ OpRead _); [done|].
      rewrite dk_files_with, lookup_insert_ne in Hr by (intros Heq; apply (Hne id); [by left|done]).
      destruct (m !! blob_path s id); [|done]. by injection Hr as <-.
    + by rewrite app_assoc.
    + by rewrite app_assoc.
    + rewrite length_app. unfold u64. rewrite Zplus_mod_idemp_l. f_equal. lia.
Qed.

Lemma write_file_atomic_with_ok now uuid dest bytes fsync d d' :
  write_file_atomic_with now uuid dest bytes fsync d = (d', Ok tt) ->
  let d1 := with_files (<[dest := new_file now bytes fsync]> (dk_files d)) d in
  if fsync then sync_dir (parent dest) d1 = (d', Ok tt) else d' = d1.
Proof.
  intros Hrun d1. unfold write_file_atomic_with in Hrun. apply guarded_ok in Hrun.
  fold (set_suffix ("." +:+ uuid +:+ ".tmp") dest) in Hrun. set (tmp := set_suffix _ dest) in *.
  assert (tmp <> dest) as Hne by apply set_suffix_ne.
  apply act_bind_ok in Hrun as (d2 & [] & [Hnone ->]%create_new_ok & (d3 & [] & Hw & Hr)%act_bind_ok).
  apply (write_all_ok _ _ _ _ _ []) in Hw; [|by rewrite dk_files_with, lookup_insert_eq]. subst d3.
  rewrite dk_files_with, with_files_with, insert_insert_eq in Hr. cbn [app] in Hr.
  destruct fsync; cbn [negb] in Hr.
  - apply act_bind_ok in Hr as (d4 & [] & Hs & (d5 & [] & Hr & Hd)%act_bind_ok).
    apply (sync_all_ok _ _ _ now bytes) in Hs; [|by rewrite dk_files_with, lookup_insert_eq].
    rewrite dk_files_with, with_files_with, insert_insert_eq in Hs. subst d4.
    apply (rename_ok _ _ _ _ (new_file now bytes true)) in Hr; [|by rewrite dk_files_with, lookup_insert_eq].
    rewrite dk_files_with, with_files_with, publish_files in Hr by done. by subst.
  - apply (rename_ok _ _ _ _ (new_file now bytes false)) in Hr; [|by rewrite dk_files_with, lookup_insert_eq].
    by rewrite dk_files_with, with_files_with, publish_files in Hr.
Qed.

Lemma write_sidecar_ok now uuid id meta d d' :
  write_sidecar s now uuid id meta d = (d', Ok tt) ->
  is_valid id = true /\
  exists d0, create_dir_all_durable (parent (blob_path s id)) (fb_fsync s) d = (d0, Ok tt) /\
    let d1 := with_files (<[sidecar_path s id := new_file now (sidecar_to_json meta) (fb_fsync s)]> (dk_files d)) d0 in
    if fb_fsync s then sync_dir (parent (blob_path s id)) d1 = (d', Ok tt) else d' = d1.
Proof.
  unfold write_sidecar, check_blob_id. destruct (is_valid id) eqn:Hv; [|done].
  intros (d0 & [] & Hdir%map_err_ok & Hw%map_err_ok)%act_bind_ok.
  rewrite parent_sidecar_path in Hdir.
  destruct (create_dir_all_durable_files (parent (blob_path s id)) (fb_fsync s) d) as [Hf0 _].
  rewrite Hdir in Hf0. cbn in Hf0. apply write_file_atomic_with_ok in Hw. rewrite Hf0 in Hw.
  rewrite parent_sidecar_path in Hw. split; [done|]. by exists d0.
Qed.

Lemma sync_dir_ok dir d d' :
  sync_dir dir d = (d', Ok tt) ->
  dk_files d' = dk_files d /\ dk_dirs d' = dk_dirs d /\ dk_fault d' = dk_fault d /\
  (forall p, dk_durable_files d' !! p = if bool_decide (parent p = dir) then dk_files d !! p else dk_durable_files d !! p) /\
  (forall q, q ∈ dk_dirs d -> q ∈ dk_durable_dirs d \/ parent q = dir -> q ∈ dk_durable_dirs d').
Proof.
  unfold sync_dir, syscall. destruct d as [fs dirs df dd ft]; cbn. destruct (ft OpSyncDir dir); [done|].
  intros [= <-]; cbn. split_and!; [done..| |].
  - intros p. apply lookup_synced.
  - intros q Hq Hor. rewrite elem_of_union, !elem_of_filter. destruct (decide (parent q = dir)); naive_solver.
Qed.

Lemma sync_dirs_ok l d d' :
  act_for sync_dir l d = (d', Ok tt) ->
  dk_files d' = dk_files d /\ dk_dirs d' = dk_dirs d /\
  (forall q, q ∈ dk_dirs d -> q ∈ dk_durable_dirs d \/ parent q ∈ l -> q ∈ dk_durable_dirs d').
Proof.
  revert d. induction l as [|dir l IH]; intros d.
  - intros [= <-]. split_and!; [done..|]. intros q _ [?|?%elem_of_nil]; done.
  - intros (d1 & [] & (Hf1 & Hd1 & _ & _ & Hdd1)%sync_dir_ok & (Hf & Hd & Hdd)%IH)%act_bind_ok.
    rewrite Hf, Hd, Hf1, Hd1 in *. split_and!; [done..|].
    intros q Hq Hor. apply Hdd; [done|]. rewrite elem_of_cons in Hor. specialize (Hdd1 q Hq). tauto.
Qed.

(** ** Directories that survive *)

(** The directories form a tree, and all of it survives a power loss. *)
Definition tree_ok (d : Disk) : Prop :=
  (forall q r, q ∈ dk_dirs d -> r ∈ ancestors q -> r ∈ dk_dirs d) /\
  (forall q, q ∈ dk_dirs d -> q ∈ dk_durable_dirs d).

Lemma missing_dirs_spec d rdir q missing existing :
  (forall q r, q ∈ dk_dirs d -> r ∈ ancestors q -> r ∈ dk_dirs d) ->
  missing_dirs d rdir = (missing, existing) -> q ∈ ancestors (rev rdir) ->
  q ∈ dk_dirs d \/ parent q ∈ existing :: missing.
Proof.
  intros Htree. revert missing existing. induction rdir as [|c rdir IH]; intros missing existing Hm Hq.
  - by apply elem_of_nil in Hq.
  - cbn [missing_dirs] in Hm. destruct (dir_exists d (rev (c :: rdir))) eqn:Hex.
    + unfold dir_exists in Hex. apply orb_true_iff in Hex as [Hnil%bool_decide_eq_true|Hex].
      { cbn in Hnil. by apply app_eq_nil in Hnil as [_ ?]. }
      apply andb_true_iff in Hex as [_ Hin%bool_decide_eq_true]. left. by apply (Htree _ q Hin).
    + destruct (missing_dirs d rdir) as [m e] eqn:Hrec. injection Hm as <- <-.
      cbn [rev] in Hq. rewrite ancestors_snoc, elem_of_app, list_elem_of_singleton in Hq.
      destruct Hq as [Hq| ->].
      * destruct (IH m e eq_refl Hq) as [?|Hp]; [by left|right]. set_solver.
      * right. rewrite parent_snoc. assert (rev rdir ∈ e :: m) as Hin; [|set_solver].
        destruct rdir as [|c' rdir]; cbn [missing_dirs] in Hrec; [injection Hrec as <- <-; by left|].
        destruct (dir_exists d (rev (c' :: rdir))); [injection Hrec as <- <-; by left|].
        destruct (missing_dirs d rdir). injection Hrec as <- <-. right. by left.
Qed.

Lemma ancestors_trans r q p : r ∈ ancestors q -> q ∈ ancestors p -> r ∈ ancestors p.
Proof. rewrite !elem_of_ancestors. intros [? ?] [? ?]. split; [done|]. by etrans. Qed.

Lemma create_dir_all_durable_tree dir d d' :
  tree_ok d -> create_dir_all_durable dir true d = (d', Ok tt) ->
  tree_ok d' /\ forall q, q ∈ ancestors dir -> q ∈ dk_dirs d'.
Proof.
  intros [Htree Hdur]. unfold create_dir_all_durable, syscall. cbn [negb].
  destruct (dk_fault d OpStat dir); [done|]. case_bool_decide as Hex.
  - intros [= <-]. split; [done|]. intros q Hq. destruct Hex as [->|Hin]; [by apply elem_of_nil in Hq|eauto].
  - destruct (missing_dirs d (rev dir)) as [missing existing] eqn:Hm.
    intros (d1 & [] & Hc & (d2 & [] & Hs1 & Hs2)%act_bind_ok)%act_bind_ok.
    assert (act_for sync_dir (existing :: rev missing) d1 = (d', Ok tt)) as (_ & Hd & Hdd)%sync_dirs_ok.
    { cbn [act_for]. apply act_bind_ok. eauto. }
    assert (dk_dirs d1 = dk_dirs d ∪ list_to_set (ancestors dir) /\ dk_durable_dirs d1 = dk_durable_dirs d) as [Hd1 Hdd1].
    { unfold create_dir_all, syscall in Hc. destruct (dk_fault d OpCreateDir dir); [done|].
      injection Hc as <-. by destruct d. }
    rewrite Hd1 in *. rewrite Hdd1 in *. unfold tree_ok. rewrite Hd. split_and!.
    + intros q r. rewrite !elem_of_union, !elem_of_list_to_set. intros [Hq|Hq] Hr; [eauto|].
      right. by apply (ancestors_trans r q).
    + intros q Hq. apply Hdd; [done|]. apply elem_of_union in Hq as [Hq|Hq%elem_of_list_to_set]; [left; auto|].
      rewrite <- (rev_involutive dir) in Hq.
      destruct (missing_dirs_spec d (rev dir) q missing existing Htree Hm Hq) as [?|Hp]; [left; auto|right].
      apply elem_of_cons in Hp as [->|Hp]; [by left|right].
      apply list_elem_of_In. rewrite <- in_rev. by apply list_elem_of_In.
    + intros q Hq. set_solver.
Qed.


(** ** Reading back *)

Lemma read_sidecar_file `{!BlobCodecLaws} id meta d now synced :
  is_valid id = true -> dk_fault d OpRead (sidecar_path s id) = false ->
  dk_files d !! sidecar_path s id = Some (new_file now (sidecar_to_json meta) synced) ->
  fs_read_sidecar s id d = Ok (Some meta).
Proof.
  intros Hv Hf Hs. unfold fs_read_sidecar, check_blob_id, read_bytes. rewrite Hv, Hf, Hs. cbn [obind f_bytes new_file].
  by rewrite to_json_utf8, from_to_json.
Qed.

Lemma open_blob_file id d now bytes synced :
  dk_fault d OpRead (blob_path s id) = false ->
  dk_files d !! blob_path s id = Some (new_file now bytes synced) -> open_blob s d id = Some bytes.
Proof. intros Hf Hs. unfold open_blob, read_bytes. by rewrite Hf, Hs. Qed.

Lemma get_plain id meta range bytes d :
  fs_read_sidecar s id d = Ok (Some meta) -> sm_composite meta = None -> open_blob s d id = Some bytes ->
  (Z.of_nat (length bytes) < 2 ^ 63)%Z -> in_range range (Z.of_nat (length bytes)) ->
  get s id range d =
  Ok {| bg_stream := {| bs_bytes := range_of range bytes; bs_ok := true |};
        bg_content_length := Z.of_nat (length (range_of range bytes)) |}.
Proof.
  intros Hs Hc Ho Hlen Hr. unfold get, get_known. rewrite Hs. cbn. rewrite Hc. by apply read_file_exact.
Qed.

(** ** Power loss *)

(** After a power loss the files that were to survive are there as they were;
    nothing is said of the others, of new files, nor of what fails next. *)
Definition crash (d c : Disk) : Prop := forall p f, durably p f d -> dk_files c !! p = Some f.

Lemma with_files_tree m d : tree_ok (with_files m d) <-> tree_ok d.
Proof. by destruct d. Qed.

Lemma dk_dirs_with m d : dk_dirs (with_files m d) = dk_dirs d.
Proof. by destruct d. Qed.

Lemma sidecar_makes_durable id bytes now now' uuid meta d d1 d2 :
  fb_fsync s = true -> tree_ok d -> is_valid id = true -> published id bytes now d d1 ->
  write_sidecar s now' uuid id meta d1 = (d2, Ok tt) ->
  durably (blob_path s id) (new_file now bytes true) d2 /\
  durably (sidecar_path s id) (new_file now' (sidecar_to_json meta) true) d2.
Proof.
  intros Hfs Htree Hv (d0 & Hdir & ->) (_ & d3 & Hdir' & Hsync)%write_sidecar_ok.
  rewrite Hfs in *. apply create_dir_all_durable_tree in Hdir as [Htree0 _]; [|done].
  apply create_dir_all_durable_tree in Hdir' as [[_ Hdur] Hanc]; [|by apply with_files_tree].
  rewrite dk_files_with in Hsync. apply sync_dir_ok in Hsync as (Hf & Hd & _ & Hdf & Hdd).
  rewrite dk_files_with in *. rewrite dk_dirs_with in *.
  assert (forall q, q ∈ ancestors (parent (blob_path s id)) -> q ∈ dk_dirs d2 /\ q ∈ dk_durable_dirs d2) as Hq.
  { intros q Hq. rewrite Hd. split; [auto|]. apply Hdd; [auto|]. left. destruct d3. by apply Hdur, Hanc. }
  assert (blob_path s id <> sidecar_path s id) as Hne by by apply blob_path_not_sidecar.
  unfold durably. rewrite Hf, !Hdf, parent_sidecar_path, !bool_decide_eq_true_2 by (try apply parent_sidecar_path; done).
  rewrite lookup_insert_eq, lookup_insert_ne, lookup_insert_eq by done. auto 10.
Qed.

(** A call that stores the data file of [id]. *)
Inductive stores (id : string) (bytes : list byte) (d d' : Disk) : Prop :=
  | by_put now stream r :
      put s now id stream d = (d', Ok r) -> bytes = List.concat (omap Datatypes.id stream) -> stores id bytes d d'
  | by_write_raw now uuid stream n :
      write_raw s now uuid id stream d = (d', Ok n) -> bytes = List.concat (omap Datatypes.id stream) ->
      stores id bytes d d'.

Lemma omap_some {A : Type} (l : list A) : omap Datatypes.id (Some <$> l) = l.
Proof. induction l as [|x l IH]; [done|]. cbn. by f_equal. Qed.

Lemma stores_published id bytes d d' :
  stores id bytes d d' -> exists now, published id bytes now d d'.
Proof.
  intros [now stream r Hp ->|now uuid stream n Hp ->]; exists now.
  - apply blob_put_ok in Hp as (chunks & -> & Hp & _). by rewrite omap_some.
  - apply write_raw_ok in Hp as (_ & chunks & -> & Hp & _). by rewrite omap_some.
Qed.

(** ** Writes that fail *)

(** [m] keeps [I] when it fails. *)
Definition fail_preserves {E A : Type} (I : Disk -> Prop) (m : act Disk E A) : Prop :=
  forall d, I d -> is_ok (m d).2 = false -> I (m d).1.

Lemma fail_preserves_bind {E A B : Type} I (m : act Disk E A) (k : A -> act Disk E B) :
  preserves I m -> (forall a, fail_preserves I (k a)) -> fail_preserves I (act_bind m k).
Proof.
  intros Hm Hk d Hd. unfold act_bind. specialize (Hm d Hd). destruct (m d) as [d' [a|e|]]; [by apply Hk|done..].
Qed.

Lemma fail_preserves_rename {B : Type} I op src dst (b : B) :
  fail_preserves I (let! _ := map_err op (rename src dst) in act_ret b).
Proof.
  intros d Hd. unfold act_bind, map_err, rename, syscall. destruct (dk_fault d OpRename dst); [done|].
  by destruct (dk_files d !! src).
Qed.

(** The files after a failed write: only its temporary file may be new, and only
    when its removal fails. *)
Definition unwound (tmp : path) (d d' : Disk) : Prop :=
  (forall p, p <> tmp -> dk_files d' !! p = dk_files d !! p) /\
  (dk_fault d OpRemove tmp = false -> dk_files d' = dk_files d).

Lemma unwound_same tmp d d' : dk_files d' = dk_files d -> unwound tmp d d'.
Proof. intros E. split; [by rewrite E|done]. Qed.

Lemma remove_unwound tmp d d2 :
  (forall p, p <> tmp -> dk_files d2 !! p = dk_files d !! p) -> dk_fault d2 = dk_fault d ->
  dk_files d !! tmp = None -> unwound tmp d (remove_file tmp d2).1.
Proof.
  intros Hothers Hft Hnone. unfold unwound, remove_file, syscall. rewrite Hft.
  destruct (dk_fault d OpRemove tmp); [done|].
  assert (forall p, dk_files (match dk_files d2 !! tmp with
            | Some _ => (with_files (base.delete tmp (dk_files d2)) d2, Ok tt)
            | None => (d2, Err NotFound) end : Disk * outcome IoError unit).1 !! p = dk_files d !! p) as Hall.
  { intros p. destruct (dk_files d2 !! tmp) eqn:Et; cbn; rewrite ?dk_files_with;
      destruct (decide (p = tmp)) as [->|Hp]; rewrite ?lookup_delete_eq, ?lookup_delete_ne by done; auto; congruence. }
  split; [by auto|]. intros _. by apply map_eq.
Qed.

Lemma failed_write {A : Type} op1 op2 dir tmp now (k : act Disk ArcaError A) d :
  (forall p x, p <> tmp -> fail_preserves (fun d' => dk_files d' !! p = x) k) ->
  (forall ft, preserves (fun d' => dk_fault d' = ft) k) ->
  let m := let! _ := map_err op1 (create_dir_all_durable dir (fb_fsync s)) in
           let! _ := map_err op2 (create_new now tmp) in
           guarded tmp k in
  is_ok (m d).2 = false -> unwound tmp d (m d).1.
Proof.
  intros Hk Hft m. unfold m. destruct (create_dir_all_durable_files dir (fb_fsync s) d) as [Hf0 Hft0].
  unfold act_bind, map_err. destruct (create_dir_all_durable dir (fb_fsync s) d) as [d0 [[]|e|]]; cbn in *;
    [|by intros; apply unwound_same..].
  destruct (create_new now tmp d0) as [d1 r1] eqn:Hc.
  destruct r1 as [[]|e|]; cbn;
    try (intros _; apply unwound_same; unfold create_new, syscall in Hc; repeat case_match; by injection Hc as <-).
  apply create_new_ok in Hc as [Hnone ->]. unfold guarded.
  set (d1 := with_files _ d0) in *. destruct (k d1) as [d2 r2] eqn:Ek.
  assert (is_ok r2 = false -> unwound tmp d (remove_file tmp d2).1) as Hgoal.
  { intros Hr2. apply remove_unwound; [| |by rewrite <- Hf0].
    - intros p Hp. specialize (Hk p (dk_files d !! p) Hp d1). rewrite Ek in Hk. apply Hk; [|done].
      unfold d1. by rewrite dk_files_with, lookup_insert_ne, Hf0.
    - specialize (Hft (dk_fault d) d1). rewrite Ek in Hft. apply Hft. rewrite <- Hft0. unfold d1. by destruct d0. }
  destruct r2 as [a|e|]; cbn in *; [done|auto..].
Qed.

Lemma put_failed now id stream d :
  is_ok (put s now id stream d).2 = false -> unwound (tmp_path s id) d (put s now id stream d).1.
Proof.
  apply failed_write; [|intros ft].
  - intros p x Hp. apply fail_preserves_bind.
    + apply preserves_map_err, preserves_bind; [apply (frame_write_chunks _ (fun q => q <> p)); auto|].
      intros [[]]. apply preserves_bind; [apply (frame_sync_if _ (fun q => q <> p)); auto|]. frame.
    + intros [[size hashed] ended]. apply fail_preserves_bind; [frame|]. intros _. apply fail_preserves_rename.
  - apply preserves_bind.
    + apply preserves_map_err, preserves_bind; [by apply (frame_write_chunks _ (fun _ => True))|].
      intros [[]]. apply preserves_bind; [by apply (frame_sync_if _ (fun _ => True))|]. frame.
    + intros [[size hashed] ended]. apply preserves_bind; [frame|]. intros _. apply preserves_bind; [|frame].
      by apply preserves_map_err, (frame_rename (P := fun _ => True)).
Qed.

Lemma write_raw_failed now uuid id stream d :
  is_ok (write_raw s now uuid id stream d).2 = false ->
  unwound (set_suffix ("." +:+ uuid +:+ ".tmp") (blob_path s id)) d (write_raw s now uuid id stream d).1.
Proof.
  unfold write_raw, checked_blob_path, check_blob_id.
  destruct (is_valid id); [|by intros; apply unwound_same].
  apply failed_write; [|intros ft].
  - intros p x Hp. apply fail_preserves_bind;
      [apply preserves_map_err, (frame_write_chunks _ (fun q => q <> p)); auto|].
    intros [[size hashed] ended]. apply fail_preserves_bind; [frame|]. intros _.
    apply fail_preserves_bind; [apply preserves_map_err, (frame_sync_if _ (fun q => q <> p)); auto|].
    intros _. apply fail_preserves_rename.
  - apply preserves_bind; [by apply preserves_map_err, (frame_write_chunks _ (fun _ => True))|].
    intros [[size hashed] ended]. apply preserves_bind; [frame|]. intros _.
    apply preserves_bind; [by apply preserves_map_err, (frame_sync_if _ (fun _ => True))|]. intros _.
    apply preserves_bind; [|frame]. by apply preserves_map_err, (frame_rename (P := fun _ => True)).
Qed.

Lemma concat_failed now ids out d :
  is_ok (concat s now ids out d).2 = false -> unwound (tmp_path s out) d (concat s now ids out d).1.
Proof.
  unfold concat. destruct (composite_of s d ids [] 0 []) as [[[[parts total] md5]|]| |];
    [done| |by intros; apply unwound_same..].
  apply failed_write; [|intros ft].
  - intros p x Hp. apply fail_preserves_bind; [apply (frame_copy_parts _ (fun q => q <> p)); auto|].
    intros [total hashed].
    apply fail_preserves_bind; [apply preserves_map_err, (frame_sync_if _ (fun q => q <> p)); auto|].
    intros _. apply fail_preserves_rename.
  - apply preserves_bind; [by apply (frame_copy_parts _ (fun _ => True))|]. intros [total hashed].
    apply preserves_bind; [by apply preserves_map_err, (frame_sync_if _ (fun _ => True))|]. intros _.
    apply preserves_bind; [|frame]. by apply preserves_map_err, (frame_rename (P := fun _ => True)).
Qed.

(** ** Multipart assembly *)

(** A stored part: its data file can be read, and its sidecar, if any, records
    its size. *)
Definition sized (d : Disk) (id : string) (c : list byte) : Prop :=
  open_blob s d id = Some c /\ (Z.of_nat (length c) < 2 ^ 63)%Z /\
  forall meta, fs_read_sidecar s id d = Ok (Some meta) -> sm_size meta = Z.of_nat (length c).

Lemma composite_of_ok d ids contents parts total md5 parts' total' md5' :
  Forall2 (sized d) ids contents -> u64 total = total ->
  composite_of s d ids parts total md5 = Ok (Some (parts', total', md5')) ->
  total' = u64 (total + Z.of_nat (length (List.concat contents))) /\
  exists new, parts' = parts ++ new /\
    Forall2 (fun p c => cp_plaintext_size p = Z.of_nat (length c) /\ sized d (cp_blob_id p) c) new contents /\
    cp_blob_id <$> new = ids.
Proof.
  intros Hf. revert parts total md5. induction Hf as [|id c ids contents Hc Hf IH]; intros parts total md5 Ht; cbn [composite_of].
  - intros [= <- <- <-]. cbn. rewrite Z.add_0_r. split; [done|]. exists []. by rewrite app_nil_r.
  - intros ([sidecar|] & Hs & Hrest)%obind_ok; [|done]. destruct (_ || _); [done|].
    destruct (hex_decode _) as [b|]; [|done]. destruct (Nat.eqb _ _); [|done].
    apply IH in Hrest as (-> & new & -> & Hnew & Hids); [|apply Zmod_mod].
    pose proof Hc as (_ & _ & Hsize). specialize (Hsize sidecar Hs). split.
    + rewrite Hsize. cbn. rewrite length_app. unfold u64. rewrite Zplus_mod_idemp_l. f_equal. lia.
    + eexists (_ :: new). rewrite <- app_assoc. split_and!; [done|by constructor|]. cbn. by f_equal.
Qed.

(** After the sidecar of [id] was written: it can be read, and the data files
    are those of before. *)
Lemma write_sidecar_reads `{!BlobCodecLaws} now uuid id meta d d' :
  write_sidecar s now uuid id meta d = (d', Ok tt) -> dk_fault d OpRead (sidecar_path s id) = false ->
  fs_read_sidecar s id d' = Ok (Some meta) /\ forall b, open_blob s d' b = open_blob s d b.
Proof.
  intros Hrun Hft. assert (dk_fault d' = dk_fault d) as Hft'.
  { pose proof (run_op_fault s (BWriteSidecar now uuid id meta) d) as Ho. cbn in Ho. by rewrite Hrun in Ho. }
  apply write_sidecar_ok in Hrun as (Hv & d0 & _ & Hd).
  assert (dk_files d' = <[sidecar_path s id := new_file now (sidecar_to_json meta) (fb_fsync s)]> (dk_files d)) as Hfiles.
  { destruct (fb_fsync s); [apply sync_dir_ok in Hd as (-> & _)|rewrite Hd]; apply dk_files_with. }
  split.
  - eapply read_sidecar_file; [done|by rewrite Hft'|]. by rewrite Hfiles, lookup_insert_eq.
  - intros b. unfold open_blob, read_bytes. rewrite Hft', Hfiles, lookup_insert_ne by (by apply sidecar_path_not_blob). done.
Qed.

Lemma published_reads id bytes now d d' :
  published id bytes now d d' -> dk_fault d OpRead (blob_path s id) = false ->
  dk_fault d' = dk_fault d /\ open_blob s d' id = Some bytes.
Proof.
  intros (d0 & Hdir & ->) Hft.
  destruct (create_dir_all_durable_files (parent (blob_path s id)) (fb_fsync s) d) as [_ Hft0]. rewrite Hdir in Hft0. cbn in Hft0.
  assert (dk_fault (with_files (<[blob_path s id := new_file now bytes (fb_fsync s)]> (dk_files d)) d0) = dk_fault d) as Hd.
  { rewrite <- Hft0. by destruct d0. }
  split; [done|]. eapply open_blob_file; [by rewrite Hd|]. by rewrite dk_files_with, lookup_insert_eq.
Qed.

Lemma concat_ok now ids out contents d d' r :
  Forall2 (sized d) ids contents -> concat s now ids out d = (d', Ok r) ->
  bp_size r = u64 (Z.of_nat (length (List.concat contents))) /\
  match bp_composite_parts r with
  | Some parts => d' = d /\ cp_blob_id <$> parts = ids /\
      Forall2 (fun p c => cp_plaintext_size p = Z.of_nat (length c) /\ sized d (cp_blob_id p) c) parts contents
  | None => published out (List.concat contents) now d d'
  end.
Proof.
  intros Hf. unfold concat. destruct (composite_of s d ids [] 0 []) as [[[[parts total] md5]|]| |] eqn:E; [| |done..].
  - intros [= <- <-]. cbn. apply (composite_of_ok d ids contents) in E as (-> & new & -> & Hnew & Hids); [|done..].
    by rewrite Z.add_0_l.
  - intros (d0 & Hdir & Hnone & Hb)%begin_ok.
    apply act_bind_ok in Hb as (d2 & [total hashed] & Hw & Hb).
    apply copy_parts_ok in Hw as (contents' & Hc & -> & -> & ->);
      [|intros id _; apply not_eq_sym, tmp_not_blob, is_tmp_tmp_path|done].
    assert (contents' = contents) as ->.
    { clear -Hf Hc. revert contents Hf. induction Hc as [|id c' ids contents' Hc' _ IH]; intros contents Hf;
        inversion Hf as [|? c ? cs [Ho _] Hf']; subst; [done|]. f_equal; [|by apply IH].
      unfold open_blob, read_bytes in Ho. destruct (dk_fault d OpRead _); [done|].
      destruct (dk_files d !! blob_path s id); cbn in *; congruence. }
    apply act_bind_ok in Hb as (d4 & [] & Hsync%map_err_ok & (d6 & [] & Hren%map_err_ok & [= -> <-])%act_bind_ok).
    split; [done|]. exists d0. split; [done|].
    by eapply finish_ok; [exact Hnone|apply tmp_not_blob, is_tmp_tmp_path|..].
Qed.
End store.

(** C3. An acknowledged blob survives a power loss.  With [fsync] on, once a
    data file was stored by [put] or [write_raw] and its sidecar written, both
    without an error, then after any number of further calls that concern other
    blobs, successful or failing anywhere, and a power loss, the sidecar is
    read back as written and any range of the blob that starts inside it is
    read back exactly.  The rename of the data file is made durable by the
    directory sync of the sidecar.  The directories there before the write must
    be durable already ([tree_ok]): one left behind undurable by a put that
    failed is found, not synced, and lost ([acknowledged_blob_lost]). *)
Theorem blob_survives_power_loss `{!BlobCodec, !BlobCodecLaws} (s : FsBlobStore) (id uuid : string)
    (bytes : list byte) (now : Z) (meta : SidecarMeta) (range : option ByteRange) (d d1 d2 d3 c : Disk) :
  fb_fsync s = true -> is_valid id = true -> tree_ok d ->
  stores s id bytes d d1 ->
  write_sidecar s now uuid id meta d1 = (d2, Ok tt) -> sm_composite meta = None ->
  elsewhere s id d2 d3 -> crash d3 c ->
  (forall p, of_blob s id p -> dk_fault c OpRead p = false) ->
  (Z.of_nat (length bytes) < 2 ^ 63)%Z -> in_range range (Z.of_nat (length bytes)) ->
  fs_read_sidecar s id c = Ok (Some meta) /\
  get s id range c =
  Ok {| bg_stream := {| bs_bytes := range_of range bytes; bs_ok := true |};
        bg_content_length := Z.of_nat (length (range_of range bytes)) |}.
Proof.
  intros Hfs Hv Htree [now1 Hpub]%stores_published Hside Hcomp Helse Hcrash Hfault Hlen Hr.
  destruct (sidecar_makes_durable s id bytes now1 now uuid meta d d1 d2) as [Hb Hs]; [done..|].
  assert (of_blob s id (blob_path s id)) as Hofb by by left.
  assert (of_blob s id (sidecar_path s id)) as Hofs by by right.
  apply (elsewhere_durable s id _ _ d2 d3 Hv Hofb Helse), Hcrash in Hb.
  apply (elsewhere_durable s id _ _ d2 d3 Hv Hofs Helse), Hcrash in Hs.
  assert (fs_read_sidecar s id c = Ok (Some meta)) as Hread by (eapply read_sidecar_file; eauto).
  split; [done|]. eapply get_plain; eauto using open_blob_file.
Qed.

(** C27. A write that fails leaves nothing behind.  Whatever system call of
    [put], [write_raw] or [concat] fails, or if the body ends with an error,
    every file other than the call's own temporary file is exactly what it was;
    and unless the removal of that temporary file fails too, it is gone as well
    (or, if it was there before the call, it is what it was). *)
Theorem failed_writes_leave_nothing `{!BlobCodec} (s : FsBlobStore) (now : Z) (uuid id : string)
    (stream : list (option (list byte))) (part_ids : list string) (d : Disk) :
  (is_ok (put s now id stream d).2 = false -> unwound (tmp_path s id) d (put s now id stream d).1) /\
  (is_ok (write_raw s now uuid id stream d).2 = false ->
   unwound (set_suffix ("." +:+ uuid +:+ ".tmp") (blob_path s id)) d (write_raw s now uuid id stream d).1) /\
  (is_ok (concat s now part_ids id d).2 = false -> unwound (tmp_path s id) d (concat s now part_ids id d).1).
Proof. auto using put_failed, write_raw_failed, concat_failed. Qed.

(** C20. An assembled multipart upload reads back as the concatenation of its
    parts.  When the parts can be read and their sidecars record their sizes,
    a [concat] that succeeds, whether it makes a composite or copies, followed
    by the sidecar that carries its result, reports the total size, and any
    range of the output that starts inside it is read back exactly. *)
Theorem multipart_reads_back `{!BlobCodec, !BlobCodecLaws} (s : FsBlobStore) (ids : list string) (out uuid : string)
    (contents : list (list byte)) (now now' : Z) (r : BlobPutResult) (meta : SidecarMeta)
    (range : option ByteRange) (d d1 d2 : Disk) :
  let data := List.concat contents in
  Forall2 (sized s d) ids contents -> (Z.of_nat (length data) < 2 ^ 63)%Z ->
  (forall p, of_blob s out p -> dk_fault d OpRead p = false) ->
  concat s now ids out d = (d1, Ok r) ->
  write_sidecar s now' uuid out meta d1 = (d2, Ok tt) -> sm_composite meta = bp_composite_parts r ->
  in_range range (Z.of_nat (length data)) ->
  bp_size r = Z.of_nat (length data) /\
  get s out range d2 =
  Ok {| bg_stream := {| bs_bytes := range_of range data; bs_ok := true |};
        bg_content_length := Z.of_nat (length (range_of range data)) |}.
Proof.
  intros data Hparts Hlen Hft Hcat Hside Hmeta Hr.
  apply (concat_ok _ _ _ _ contents) in Hcat as [-> Hres]; [|done]. split; [apply u64_small; lia|].
  assert (of_blob s out (blob_path s out)) as Hofb by by left.
  assert (of_blob s out (sidecar_path s out)) as Hofs by by right.
  destruct (bp_composite_parts r) as [parts|].
  - destruct Hres as (-> & Hids & Hp). apply write_sidecar_reads in Hside as [Hread Hopen]; [|auto..].
    unfold get, get_known. rewrite Hread. cbn [mbind option_bind]. rewrite Hmeta.
    apply composite_reads; [|by eapply in_range_ok]. split; [|unfold data in *; lia].
    eapply Forall2_impl; [exact Hp|]. intros p c (Hsz & Hop & Hl & _). unfold part_file. by rewrite Hopen.
  - apply published_reads in Hres as [Hft1 Hopen1]; [|auto..].
    apply write_sidecar_reads in Hside as [Hread Hopen]; [|try rewrite Hft1; auto..].
    eapply get_plain; [done..|by rewrite Hopen|done|done].
Qed.
