(* ===== verification/FsBlobGc.v ===== *)
(** Garbage collection over the file system blob store: the store keeps the
    promises of [RawBlobOps] that [BlobGc] relies on, and a collection changes
    no read of an object. *)

From S2P Require Import Prelude S3Errors Types Preconditions MetadataStore Text BlobRead BlobGc.
From S2P Require Import FsBlob FsBlobPaths FsBlobFrame FsBlobSafety.
From Stdlib Require Import Strings.Byte Ascii.

Open Scope act_scope.

Section collection.
Context `{!BlobCodec} (s : FsBlobStore).

#[local] Instance fs_raw_ops : RawBlobOps Disk := {
  read_sidecar := fs_read_sidecar s;
  list_blob_ids := list_blob_files;
  list_sidecar_ids := list_sidecar_files;
  delete_blob_file := delete_blob_file_raw s;
  list_reclaimable_temp_files := fs_list_reclaimable_temp_files;
  delete_temp_file := fs_delete_temp_file;
}.

(** The data file and the sidecar of a blob. *)
Definition fs_blob (d : Disk) (id : string) : option (Z * list byte) :=
  if is_valid id then (fun f => (f_mtime f, f_bytes f)) <$> dk_files d !! blob_path s id else None.

Definition parse_sidecar (f : File) : option SidecarMeta :=
  if is_utf8 (f_bytes f) then sidecar_from_json (f_bytes f) else None.

Definition fs_sidecar (d : Disk) (id : string) : option SidecarMeta :=
  if is_valid id then dk_files d !! sidecar_path s id ≫= parse_sidecar else None.

Lemma fs_read_sidecar_view id d :
  (match fs_read_sidecar s id d with Ok m => m | _ => None end) =
  if dk_fault d OpRead (sidecar_path s id) then None else fs_sidecar d id.
Proof.
  unfold fs_read_sidecar, check_blob_id, fs_sidecar, read_bytes.
  destruct (is_valid id); cbn; [|by destruct (dk_fault d OpRead _)].
  destruct (dk_fault d OpRead _); [done|]. destruct (dk_files d !! _) as [f|]; [|done]. cbn. unfold parse_sidecar.
  destruct (is_utf8 (f_bytes f)); [|done]. by destruct (sidecar_from_json (f_bytes f)).
Qed.

Lemma fs_read_sidecar_ok id d x : fs_read_sidecar s id d = Ok x -> x = fs_sidecar d id.
Proof.
  intros Hok. pose proof (fs_read_sidecar_view id d) as Hv. rewrite Hok in Hv.
  destruct (dk_fault d OpRead (sidecar_path s id)) eqn:Hft; [|done]. exfalso.
  unfold fs_read_sidecar, check_blob_id, read_bytes in Hok. by destruct (is_valid id); cbn in Hok; [rewrite Hft in Hok|].
Qed.

Lemma walk_files_ok d l p t :
  walk_files d = Ok l -> (p, t) ∈ l <-> exists f, dk_files d !! p = Some f /\ f_mtime f = t.
Proof.
  unfold walk_files. destruct (existsb _ _); [done|]. intros [= <-]. rewrite list_elem_of_fmap. split.
  - intros ([q f] & [= -> ->] & Hq%elem_of_map_to_list). eauto.
  - intros (f & Hp & <-). exists (p, f). by rewrite elem_of_map_to_list.
Qed.

Lemma list_blob_files_ok d l id t :
  well_placed s d -> list_blob_files d = Ok l -> (id, t) ∈ l <-> exists bytes, fs_blob d id = Some (t, bytes).
Proof.
  intros Hpl (files & Hw & [= <-])%obind_ok. rewrite list_elem_of_In, filter_In, <- list_elem_of_In, list_elem_of_fmap.
  unfold fs_blob. cbn [fst snd]. split.
  - intros [([p t'] & [= -> ->] & Hin) Hv]. apply list_elem_of_In, filter_In in Hin as [Hin _].
    apply list_elem_of_In, (walk_files_ok d files) in Hin as (f & Hf & <-); [|done].
    destruct (Hpl p f Hf) as [Hp _]. cbn [fst] in *. rewrite Hv. rewrite <- (Hp Hv), Hf. cbn. eauto.
  - intros [bytes Hb]. destruct (is_valid id) eqn:Hv; [|done]. split; [|done].
    apply fmap_Some in Hb as (f & Hf & [= -> ->]). exists (blob_path s id, f_mtime f).
    cbn [fst snd]. rewrite file_name_blob_path, Hv. split; [done|].
    apply list_elem_of_In, filter_In. cbn [fst snd]. rewrite file_name_blob_path, Hv, !valid_no_suffix by done. split; [|done].
    apply list_elem_of_In, (walk_files_ok d files); eauto.
Qed.

Lemma list_sidecar_files_ok d l id :
  list_sidecar_files d = Ok l -> is_Some (fs_sidecar d id) -> id ∈ l.
Proof.
  intros (files & Hw & [= <-])%obind_ok [meta Hm]. unfold fs_sidecar in Hm. destruct (is_valid id) eqn:Hv; [|done].
  apply bind_Some in Hm as (f & Hf & _).
  apply list_elem_of_In, filter_In. split; [|done]. apply list_elem_of_In, list_elem_of_omap.
  exists (sidecar_path s id, f_mtime f). split.
  - apply (walk_files_ok d files); eauto.
  - cbn [fst snd]. unfold sidecar_path. rewrite file_name_set_suffix, file_name_blob_path, Hv. apply strip_suffix_app.
Qed.

Lemma fs_view_ext d d' id :
  dk_files d' !! blob_path s id = dk_files d !! blob_path s id ->
  dk_files d' !! sidecar_path s id = dk_files d !! sidecar_path s id ->
  fs_blob d' id = fs_blob d id /\ fs_sidecar d' id = fs_sidecar d id.
Proof. intros Hb Hs. unfold fs_blob, fs_sidecar. by rewrite Hb, Hs. Qed.

Lemma fs_view_invalid d id : is_valid id = false -> fs_blob d id = None /\ fs_sidecar d id = None.
Proof. intros Hv. unfold fs_blob, fs_sidecar. by rewrite Hv. Qed.

(** A call that does not touch [id] keeps its files. *)
Lemma run_op_view o d id :
  ~ touches s o d id -> fs_blob (run_op s o d) id = fs_blob d id /\ fs_sidecar (run_op s o d) id = fs_sidecar d id.
Proof.
  intros Hno. destruct (is_valid id) eqn:Hv.
  - apply fs_view_ext; eapply run_op_file; try done; [by left|by right].
  - destruct (fs_view_invalid d id Hv) as [-> ->]. by apply fs_view_invalid.
Qed.

Lemma remove_if_there_ok op p d d' :
  remove_if_there op p d = (d', Ok tt) -> dk_files d' = base.delete p (dk_files d).
Proof.
  unfold remove_if_there, remove_file, syscall. destruct (dk_fault d OpRemove p); [done|].
  destruct (dk_files d !! p) eqn:Ep; intros [= <-]; [by destruct d|]. by rewrite delete_id.
Qed.

Lemma delete_blob_file_raw_ok id d d' :
  delete_blob_file_raw s id d = (d', Ok tt) ->
  is_valid id = true /\ dk_files d' = base.delete (sidecar_path s id) (base.delete (blob_path s id) (dk_files d)).
Proof.
  unfold delete_blob_file_raw, check_blob_id. destruct (is_valid id); [|done].
  cbn [act_for]. intros (d1 & [] & H1%remove_if_there_ok & (d2 & [] & H2%remove_if_there_ok & [= <-])%act_bind_ok)%act_bind_ok.
  by rewrite H2, H1.
Qed.

(** A temporary file the collection may remove. *)
Definition is_reclaimable (p : path) : bool :=
  match temp_file_kind (file_name p) with Some Reclaimable => true | _ => false end.

Definition fs_temp (d : Disk) (p : path) : option Z :=
  if is_reclaimable p then f_mtime <$> dk_files d !! p else None.

Lemma list_temps_ok d l p t :
  fs_list_reclaimable_temp_files d = Ok l -> (p, t) ∈ l <-> fs_temp d p = Some t.
Proof.
  intros (files & Hw & [= <-])%obind_ok. rewrite list_elem_of_In, filter_In, <- list_elem_of_In.
  rewrite (walk_files_ok d files) by done. unfold fs_temp. cbn [fst]. fold (is_reclaimable p).
  destruct (is_reclaimable p); [|naive_solver]. rewrite fmap_Some. naive_solver.
Qed.

Lemma fs_temp_ext d d' p : dk_files d' !! p = dk_files d !! p -> fs_temp d' p = fs_temp d p.
Proof. unfold fs_temp. by intros ->. Qed.

Lemma reclaimable_tmp p : is_reclaimable p = true -> is_tmp p.
Proof.
  unfold is_reclaimable, temp_file_kind, is_tmp. by destruct (_ || _), (ends_with (file_name p) ".tmp").
Qed.

Lemma delete_raw_temps id d p : fs_temp (delete_blob_file_raw s id d).1 p = fs_temp d p.
Proof.
  destruct (is_reclaimable p) eqn:Hr; [|unfold fs_temp; by rewrite Hr]. apply fs_temp_ext.
  apply (frame_delete_blob_file_raw (fun d' => dk_files d' !! p = dk_files d !! p) (fun q => q <> p)); [|done].
  intros Hv. apply reclaimable_tmp in Hr.
  split; intros E; apply (of_blob_not_tmp s id p); unfold of_blob; auto.
Qed.

Lemma delete_temp_other p p' d : p <> p' -> fs_temp (fs_delete_temp_file p d).1 p' = fs_temp d p'.
Proof.
  intros Hne. apply fs_temp_ext.
  by apply (frame_delete_temp_file (fun d' => dk_files d' !! p' = dk_files d !! p') (fun q => q <> p')).
Qed.

Lemma delete_temp_ok p d d' :
  fs_delete_temp_file p d = (d', Ok tt) ->
  fs_temp d' p = None /\ forall p', fs_temp d p' = None -> fs_temp d' p' = None.
Proof.
  unfold fs_delete_temp_file, fs_temp.
  destruct (temp_file_kind (file_name p)) as [[]|]; [|done..]. intros Hf%remove_if_there_ok. rewrite Hf. split.
  - rewrite lookup_delete_eq. by case_match.
  - intros p'. case_match; [|done]. intros Hn%fmap_None. rewrite fmap_None, lookup_delete_None. auto.
Qed.

#[local] Instance fs_raw_laws : RawBlobLaws Disk.
Proof.
  refine {| raw_ok := well_placed s; blobs := fs_blob; sidecars := fs_sidecar; temps := fs_temp |}.
  - apply fs_read_sidecar_ok.
  - apply list_blob_files_ok.
  - intros d l id _. apply list_sidecar_files_ok.
  - intros id id' d Hne. apply (run_op_view (BDeleteRaw id)). cbn. congruence.
  - intros id d d' [Hv Hf]%delete_blob_file_raw_ok. split.
    + unfold fs_blob. rewrite Hv, Hf, lookup_delete_ne, lookup_delete_eq; [done|].
      apply not_eq_sym. by apply blob_path_not_sidecar.
    + intros id'. unfold fs_blob. destruct (is_valid id'); [|done]. rewrite Hf.
      intros Hn%fmap_None. rewrite fmap_None, !lookup_delete_None. auto.
  - intros p d id. apply (run_op_view (BDeleteTemp p)). by intros [].
  - apply list_temps_ok.
  - apply delete_raw_temps.
  - apply delete_temp_other.
  - apply delete_temp_ok.
Defined.

(** *** What a collection leaves alone *)

Lemma delete_each_inv {T : Type} (I : Disk -> Prop) (del : T -> act Disk ArcaError unit) ids n k :
  (forall x, preserves I (del x)) -> preserves I (delete_each del ids n k).
Proof.
  intros Hdel. revert n k. induction ids as [|x ids IH]; intros n k d Hd; [done|]. cbn.
  specialize (Hdel x d Hd). destruct (del x d) as [d1 [[]|e|]]; [by apply IH..|done].
Qed.

Lemma reclaim_inv (I : Disk -> Prop) listed now grace :
  (forall id, preserves I (delete_blob_file_raw s id)) -> (forall p, preserves I (fs_delete_temp_file p)) ->
  preserves I (reclaim_blobs listed now grace).
Proof.
  intros Hb Ht d Hd. unfold reclaim_blobs. destruct (collect_reclaimable_blobs listed now grace d) as [plan|e|]; [|done..].
  revert d Hd. match goal with |- forall d, _ -> I (?m d).1 => change (preserves I m) end.
  apply preserves_bind; [by apply delete_each_inv|]. intros [n k].
  apply preserves_bind; [by apply delete_each_inv|]. frame.
Qed.

Lemma reclaim_fault listed now grace d : dk_fault (reclaim_blobs listed now grace d).1 = dk_fault d.
Proof.
  apply (reclaim_inv (fun d' => dk_fault d' = dk_fault d)); [| |done]; [intros id|intros p].
  - by apply (frame_delete_blob_file_raw _ (fun _ => True)).
  - by apply (frame_delete_temp_file _ (fun _ => True)).
Qed.

Lemma reclaim_placed listed now grace d : well_placed s d -> well_placed s (reclaim_blobs listed now grace d).1.
Proof.
  apply (reclaim_inv (well_placed s)); [intros id|intros p].
  - apply (frame_delete_blob_file_raw _ (path_ok s)). auto with frame.
  - apply (frame_delete_temp_file _ (path_ok s)). auto with frame.
Qed.

(** Nothing is deleted under the name that stands for invalid ids. *)
Lemma reclaim_invalid listed now grace d id :
  is_valid id = false -> dk_files (reclaim_blobs listed now grace d).1 !! blob_path s id = dk_files d !! blob_path s id.
Proof.
  intros Hv. apply (reclaim_inv (fun d' => dk_files d' !! blob_path s id = dk_files d !! blob_path s id));
    [intros id'|intros p|done].
  - apply (frame_delete_blob_file_raw _ (fun q => q <> blob_path s id)). intros Hv'. split.
    + intros Heq%(blob_path_inj s id'); [congruence|done].
    + by apply sidecar_path_not_blob.
  - apply (frame_delete_temp_file _ (fun q => q <> blob_path s id)). intros Ht ->. by apply (blob_path_not_tmp s id).
Qed.

Lemma open_blob_kept listed now grace d id :
  kept d (reclaim_blobs listed now grace d).1 id ->
  open_blob s (reclaim_blobs listed now grace d).1 id = open_blob s d id.
Proof.
  intros [Hb _]. unfold open_blob, read_bytes. rewrite reclaim_fault. destruct (dk_fault d OpRead _); [done|].
  destruct (is_valid id) eqn:Hv; [|by rewrite reclaim_invalid]. cbn in Hb. unfold fs_blob in Hb. rewrite Hv in Hb.
  destruct (dk_files _ !! blob_path s id) as [f'|], (dk_files d !! blob_path s id) as [f|]; cbn in Hb; congruence.
Qed.

Lemma get_kept m listed now grace d id range :
  well_placed s d -> (forall l, listed = Ok l -> l = list_referenced_blob_ids m) -> in_metadata m id ->
  get s id range (reclaim_blobs listed now grace d).1 = get s id range d.
Proof.
  intros Hpl Hl Hid.
  assert (forall b, needed m d b -> kept d (reclaim_blobs listed now grace d).1 b) as Hkeep.
  { intros b Hb. apply (reclaim_keeps m); [done..|by left]. }
  pose proof (Hkeep id (or_introl Hid)) as Hk. pose proof Hk as [_ Hs]. cbn in Hs.
  unfold get. rewrite !fs_read_sidecar_view, reclaim_fault, Hs.
  apply get_known_ext; [by apply open_blob_kept|]. intros meta parts p Hm Hparts Hp. apply open_blob_kept, Hkeep. right.
  exists id, meta, parts, p. split_and!; try done. by destruct (dk_fault d OpRead _).
Qed.
End collection.

(** C26. Garbage collection is invisible to readers.  On a disk laid out by the
    store, a pass that was told the blob ids the metadata store refers to,
    whatever enumerations, reads and deletions fail, leaves every read of every
    blob that a live object version or an upload part refers to as it was:
    plain or composite, any range, data and errors alike. *)
Theorem gc_preserves_reads `{!BlobCodec} (s : FsBlobStore) (m : MetaStore) (listed : outcome ArcaError (list string))
    (now grace : Z) (d : Disk) (id : string) (range : option ByteRange) :
  well_placed s d -> (forall l, listed = Ok l -> l = list_referenced_blob_ids m) -> in_metadata m id ->
  get s id range (@reclaim_blobs Disk (fs_raw_ops s) listed now grace d).1 = get s id range d.
Proof. apply get_kept. Qed.
