(* ===== verification/FsBlobRuns.v ===== *)
(** Concrete runs of the file system blob store: a codec that satisfies the
    laws, the theorems applied to sample disks, and two runs in which a file
    is not where its caller takes it to be. *)

From S2P Require Import Prelude S3Errors Policy Types SqlTable Preconditions MetadataStore Text BlobRead BlobGc.
From S2P Require Import FsBlob FsBlobPaths FsBlobFrame FsBlobSafety FsBlobGc.
From Stdlib Require Import Strings.Byte Ascii.

Open Scope act_scope.

(** ** A codec

    A sidecar is printed as the binary digits of its code as a countable
    type; hex is hex; the digest is constant. *)

#[export] Instance CompressionAlgorithm_eq_dec : EqDecision CompressionAlgorithm.
Proof. solve_decision. Defined.
#[export] Instance CompressionAlgorithm_countable : Countable CompressionAlgorithm.
Proof.
  refine (inj_countable' (fun a => match a with Zstd => 0 | Lz4 => 1 | Snappy => 2 | Gzip => 3 | Brotli => 4 | Xz => 5 end)
    (fun n => match n with 0 => Zstd | 1 => Lz4 | 2 => Snappy | 3 => Gzip | 4 => Brotli | _ => Xz end) _).
  by intros [].
Defined.

#[export] Instance BlobEncryptionInfo_eq_dec : EqDecision BlobEncryptionInfo.
Proof. solve_decision. Defined.
#[export] Instance BlobEncryptionInfo_countable : Countable BlobEncryptionInfo.
Proof.
  refine (inj_countable (fun r => [encode (be_algorithm r); encode (be_encrypted_dek r); encode (be_dek_nonce r);
      encode (be_nonce_prefix r); encode (be_key_id r)])
    (fun l => match l with
              | [a; b; c; d; e] => a' ← decode a; b' ← decode b; c' ← decode c; d' ← decode d; e' ← decode e;
                  Some (Build_BlobEncryptionInfo a' b' c' d' e')
              | _ => None
              end) _).
  intros r. cbv beta iota. rewrite !decode_encode. by destruct r.
Defined.

#[export] Instance BlobCompressionInfo_eq_dec : EqDecision BlobCompressionInfo.
Proof. solve_decision. Defined.
#[export] Instance BlobCompressionInfo_countable : Countable BlobCompressionInfo.
Proof.
  refine (inj_countable (fun r => [encode (bc_algorithm r); encode (bc_chunk_size r); encode (bc_original_size r);
      encode (bc_compressed_size r)])
    (fun l => match l with
              | [a; b; c; d] => a' ← decode a; b' ← decode b; c' ← decode c; d' ← decode d;
                  Some (Build_BlobCompressionInfo a' b' c' d')
              | _ => None
              end) _).
  intros r. cbv beta iota. rewrite !decode_encode. by destruct r.
Defined.

#[export] Instance CompositePart_eq_dec : EqDecision CompositePart.
Proof. solve_decision. Defined.
#[export] Instance CompositePart_countable : Countable CompositePart.
Proof.
  refine (inj_countable (fun r => [encode (cp_blob_id r); encode (cp_plaintext_size r);
      encode (cp_plaintext_etag r); encode (cp_encryption r)])
    (fun l => match l with
              | [a; b; c; d] => a' ← decode a; b' ← decode b; c' ← decode c; d' ← decode d;
                  Some (Build_CompositePart a' b' c' d')
              | _ => None
              end) _).
  intros r. cbv beta iota. rewrite !decode_encode. by destruct r.
Defined.

#[export] Instance SidecarMeta_eq_dec : EqDecision SidecarMeta.
Proof. solve_decision. Defined.
#[export] Instance SidecarMeta_countable : Countable SidecarMeta.
Proof.
  refine (inj_countable (fun r => [encode (sm_bucket r); encode (sm_key r); encode (sm_size r); encode (sm_etag r);
      encode (sm_content_type r); encode (sm_last_modified r); encode (sm_metadata r); encode (sm_encryption r);
      encode (sm_compression r); encode (sm_version_id r); encode (sm_composite r)])
    (fun l => match l with
              | [a; b; c; d; e; f; g; h; i; j; k] => a' ← decode a; b' ← decode b; c' ← decode c; d' ← decode d;
                  e' ← decode e; f' ← decode f; g' ← decode g; h' ← decode h; i' ← decode i; j' ← decode j;
                  k' ← decode k; Some (Build_SidecarMeta a' b' c' d' e' f' g' h' i' j' k')
              | _ => None
              end) _).
  intros r. cbv beta iota. rewrite !decode_encode. by destruct r.
Defined.

Fixpoint to_digits (p : positive) : list byte :=
  match p with
  | xH => []
  | xO p' => x30 :: to_digits p'
  | xI p' => x31 :: to_digits p'
  end.

Fixpoint of_digits (b : list byte) : option positive :=
  match b with
  | [] => Some xH
  | x30 :: b' => xO <$> of_digits b'
  | x31 :: b' => xI <$> of_digits b'
  | _ => None
  end.

Lemma of_digits_digits p : of_digits (to_digits p) = Some p.
Proof. induction p as [p IH|p IH|]; cbn; rewrite ?IH; done. Qed.

Lemma digits_utf8 p : is_utf8 (to_digits p) = true.
Proof. unfold is_utf8. induction p as [p IH|p IH|]; cbn in *; done. Qed.

Definition hex_digit (n : N) : ascii := ascii_of_N (if (n <? 10)%N then n + 48 else n + 87).

Definition hex_value (c : ascii) : option N :=
  let n := N_of_ascii c in
  if (48 <=? n)%N && (n <=? 57)%N then Some (n - 48)%N
  else if (97 <=? n)%N && (n <=? 102)%N then Some (n - 87)%N
  else if (65 <=? n)%N && (n <=? 70)%N then Some (n - 55)%N
  else None.

Fixpoint to_hex (b : list byte) : string :=
  match b with
  | [] => EmptyString
  | x :: b' => let n := Byte.to_N x in String (hex_digit (n / 16)) (String (hex_digit (n mod 16)) (to_hex b'))
  end.

Fixpoint of_hex (s : string) : option (list byte) :=
  match s with
  | EmptyString => Some []
  | String a (String b s') =>
      h ← hex_value a; l ← hex_value b; x ← Byte.of_N (16 * h + l); rest ← of_hex s'; Some (x :: rest)
  | _ => None
  end.

Lemma of_hex_to_hex b : of_hex (to_hex b) = Some b.
Proof. induction b as [|x b IH]; [done|]. destruct x; cbn in *; by rewrite IH. Qed.

#[export] Instance sample_codec : BlobCodec := {
  sidecar_to_json m := to_digits (encode m);
  sidecar_from_json b := of_digits b ≫= decode;
  md5_digest _ := repeat x00 16;
  hex_encode := to_hex;
  hex_decode := of_hex;
}.

#[export] Instance sample_codec_laws : BlobCodecLaws.
Proof.
  split.
  - intros meta. cbn. rewrite of_digits_digits. cbn. apply decode_encode.
  - intros meta. apply digits_utf8.
  - apply of_hex_to_hex.
  - done.
Qed.

(** ** Sample disks *)

Definition empty_disk : Disk := MkDisk ∅ ∅ ∅ ∅ (fun _ _ => false).

Definition store0 : FsBlobStore := new 2.

Definition id_a : string := "aa000000-0000-4000-8000-00000000000a".
Definition id_b : string := "aa000000-0000-4000-8000-00000000000b".
Definition id_c : string := "cc000000-0000-4000-8000-00000000000c".
Definition id_o : string := "dd000000-0000-4000-8000-00000000000d".

Definition sample_meta (size : Z) (composite : option (list CompositePart)) : SidecarMeta :=
  {| sm_bucket := "bucket"; sm_key := "key"; sm_size := size; sm_etag := to_hex (repeat x00 16);
      sm_content_type := None;
     sm_last_modified := "now"; sm_metadata := ∅; sm_encryption := None; sm_compression := None;
     sm_version_id := None; sm_composite := composite |}.

(** Two stored parts. *)
Definition disk_a : Disk := run_op store0 (BPut 1 id_a [Some [x61; x62]; Some []; Some [x63]]) empty_disk.
Definition disk_a' : Disk := run_op store0 (BWriteSidecar 2 "u1" id_a (sample_meta 3 None)) disk_a.
Definition disk_b : Disk := run_op store0 (BPut 3 id_b [Some [x64; x65]]) disk_a'.
Definition disk_b' : Disk := run_op store0 (BWriteSidecar 4 "u2" id_b (sample_meta 2 None)) disk_b.

(** Only what was synced is left. *)
Definition power_loss (d : Disk) : Disk :=
  with_files (filter (fun e => Forall (fun q => q ∈ dk_durable_dirs d) (ancestors (parent e.1)) /\ f_synced e.2 = true)
                (dk_durable_files d)) d.

Lemma power_loss_crash d : crash d (power_loss d).
Proof.
  intros p f (_ & Hdf & Hs & Hq). unfold power_loss. rewrite dk_files_with, map_lookup_filter_Some.
  split_and!; [done| |done]. apply Forall_forall. intros q Hin. by apply Hq.
Qed.

Lemma pair_snd {A B : Type} (x : A * B) b : x.2 = b -> x = (x.1, b).
Proof. destruct x. by intros <-. Qed.

Lemma empty_tree_ok : tree_ok empty_disk.
Proof. split; cbn; set_solver. Qed.

Lemma put_run :
  put store0 1 id_a [Some [x61; x62]; Some []; Some [x63]] empty_disk = (disk_a, Ok (plain_result 3 (to_hex (repeat x00 16)))).
Proof. unfold disk_a. cbn [run_op]. apply pair_snd. by vm_compute. Qed.

Lemma sidecar_run : write_sidecar store0 2 "u1" id_a (sample_meta 3 None) disk_a = (disk_a', Ok tt).
Proof. unfold disk_a'. cbn [run_op]. apply pair_snd. by vm_compute. Qed.

Lemma blob_survives_power_loss_witness :
  get store0 id_a (Some {| br_start := 1; br_end := None |}) (power_loss disk_b) =
  Ok {| bg_stream := {| bs_bytes := [x62; x63]; bs_ok := true |}; bg_content_length := 2 |}.
Proof.
  destruct (blob_survives_power_loss store0 id_a "u1" [x61; x62; x63] 2 (sample_meta 3 None)
    (Some {| br_start := 1; br_end := None |}) empty_disk disk_a disk_a' disk_b (power_loss disk_b)) as [_ Hget].
  - reflexivity.
  - by vm_compute.
  - apply empty_tree_ok.
  - apply (by_put _ _ _ _ _ 1%Z [Some [x61; x62]; Some []; Some [x63]] (plain_result 3 (to_hex (repeat x00 16)))); [|done].
    exact put_run.
  - exact sidecar_run.
  - reflexivity.
  - eapply (elsewhere_step store0 id_a (BPut 3 id_b [Some [x64; x65]])); [by vm_compute|apply elsewhere_refl].
  - apply power_loss_crash.
  - done.
  - done.
  - split; [done|]. intros e [=].
  - exact Hget.
Defined.

(** A put whose body ends with an error, a write of a disk that is full, and a
    copy that finds a part missing. *)
Definition full_disk : Disk := MkDisk ∅ ∅ ∅ ∅ (fun op _ => match op with OpWrite n => Nat.leb 2 n | _ => false end).

Lemma failed_writes_leave_nothing_witness :
  dk_files (put store0 1 id_a [Some [x61]; None] full_disk).1 = ∅ /\
  dk_files (write_raw store0 1 "u" id_a [Some [x61; x62]; Some [x63]] full_disk).1 = ∅ /\
  dk_files (concat store0 1 [id_b] id_a full_disk).1 = ∅.
Proof.
  destruct (failed_writes_leave_nothing store0 1 "u" id_a [Some [x61]; None] [id_b] full_disk) as (Hp & _ & Hc).
  destruct (failed_writes_leave_nothing store0 1 "u" id_a [Some [x61; x62]; Some [x63]] [] full_disk) as (_ & Hw & _).
  split_and!; [apply Hp|apply Hw|apply Hc]; by vm_compute.
Defined.

(** An upload of the two parts. *)
Definition upload : BlobPutResult :=
  match (concat store0 5 [id_a; id_b] id_c disk_b').2 with Ok r => r | _ => plain_result 0 EmptyString end.
Definition disk_c : Disk :=
  run_op store0 (BWriteSidecar 6 "u3" id_c (sample_meta 5 (bp_composite_parts upload))) disk_b'.

Lemma open_a : sized store0 disk_b' id_a [x61; x62; x63].
Proof.
  split_and!; [by vm_compute|done|]. intros meta Hm.
  assert (fs_read_sidecar store0 id_a disk_b' = Ok (Some (sample_meta 3 None))) as Heq by by vm_compute.
  rewrite Heq in Hm. by injection Hm as <-.
Defined.

Lemma open_b : sized store0 disk_b' id_b [x64; x65].
Proof.
  split_and!; [by vm_compute|done|]. intros meta Hm.
  assert (fs_read_sidecar store0 id_b disk_b' = Ok (Some (sample_meta 2 None))) as Heq by by vm_compute.
  rewrite Heq in Hm. by injection Hm as <-.
Defined.

Lemma upload_run : concat store0 5 [id_a; id_b] id_c disk_b' = (disk_b', Ok upload).
Proof.
  unfold upload, concat. assert (exists x, composite_of store0 disk_b' [id_a; id_b] [] 0 [] = Ok (Some x)) as [[[? ?] ?] ->].
  { eexists. vm_compute. reflexivity. }
  reflexivity.
Qed.

Lemma composite_run :
  write_sidecar store0 6 "u3" id_c (sample_meta 5 (bp_composite_parts upload)) disk_b' = (disk_c, Ok tt).
Proof. unfold disk_c. cbn [run_op]. apply pair_snd. by vm_compute. Qed.

Lemma multipart_reads_back_witness :
  is_some (bp_composite_parts upload) = true /\
  get store0 id_c (Some {| br_start := 2; br_end := Some 3%Z |}) disk_c =
  Ok {| bg_stream := {| bs_bytes := [x63; x64]; bs_ok := true |}; bg_content_length := 2 |}.
Proof.
  split; [by vm_compute|].
  destruct (multipart_reads_back store0 [id_a; id_b] id_c "u3" [[x61; x62; x63]; [x64; x65]] 5 6 upload
    (sample_meta 5 (bp_composite_parts upload)) (Some {| br_start := 2; br_end := Some 3%Z |})
    disk_b' disk_b' disk_c) as [_ Hget].
  - constructor; [exact open_a|]. constructor; [exact open_b|constructor].
  - done.
  - done.
  - exact upload_run.
  - exact composite_run.
  - done.
  - split; [done|]. intros e [= <-]. done.
  - exact Hget.
Defined.

(** ** Collections *)

(** The upload is referenced; its parts are not, save by its sidecar; [id_o] is
    an orphan; two writes were cut off, one at 7 and one at 95. *)
Definition orphaned : Disk := run_op store0 (BPut 7 id_o [Some [x6f]]) disk_c.

Definition cut_off (now : Z) : File := {| f_bytes := [x74]; f_mtime := now; f_synced := false |}.

Definition old_temp : path := tmp_path store0 id_a.
Definition young_temp : path := tmp_path store0 id_b.

Definition add_file (p : path) (f : File) (d : Disk) : Disk := with_files (<[p := f]> (dk_files d)) d.

Definition disk_o : Disk := add_file old_temp (cut_off 7) (add_file young_temp (cut_off 95) orphaned).

Definition sample_object : MetaStore :=
  (put_object_if "v1" (sample_row id_c 10 None None None) no_write_precondition empty_meta).1.

Definition collected : Disk :=
  (@reclaim_blobs Disk (fs_raw_ops store0) (Ok (list_referenced_blob_ids sample_object)) 100 10 disk_o).1.

Lemma add_temp_placed s d id f : well_placed s d -> well_placed s (add_file (tmp_path s id) f d).
Proof.
  destruct d as [fs ? ? ? ?]. unfold well_placed, add_file. cbn [with_files dk_files]. intros H p g.
  rewrite lookup_insert_Some. intros [[<- _]|[_ Hp]]; [apply path_ok_tmp, is_tmp_tmp_path|by eapply H].
Qed.

Lemma disk_o_placed : well_placed store0 disk_o.
Proof.
  do 2 apply add_temp_placed. do 6 apply run_op_placed.
  intros p f. cbn. by rewrite lookup_empty.
Qed.

Lemma sample_object_refers : in_metadata sample_object id_c.
Proof. apply elem_of_list_referenced_blob_ids. apply (bool_decide_unpack _). by vm_compute. Qed.

Lemma sample_unreferenced :
  match @referenced_blob_ids Disk (fs_raw_ops store0) (Ok (list_referenced_blob_ids sample_object)) disk_o with
  | Ok ref => bool_decide (id_o ∈ ref)
  | _ => true
  end = false.
Proof. vm_compute. reflexivity. Qed.

Lemma orphan_not_needed : ~ @needed Disk (fs_raw_ops store0) (fs_raw_laws store0) sample_object disk_o id_o.
Proof.
  intros Hneed. pose proof sample_unreferenced as Hu.
  destruct (@referenced_blob_ids Disk (fs_raw_ops store0) _ disk_o) as [ref| |] eqn:E; [|done..].
  apply bool_decide_eq_false in Hu. apply Hu.
  by apply (@referenced_blob_ids_ok Disk (fs_raw_ops store0) (fs_raw_laws store0) sample_object disk_o ref id_o disk_o_placed E).
Qed.

Definition sample_plan : ReclaimPlan := {| rp_scanned := 3; rp_candidates := [id_o]; rp_temp_files := [old_temp] |}.

Lemma sample_planned :
  @collect_reclaimable_blobs Disk (fs_raw_ops store0) (Ok (list_referenced_blob_ids sample_object)) 100 10 disk_o =
  Ok sample_plan.
Proof. vm_compute. reflexivity. Qed.

Definition sample_deleted : Disk :=
  (delete_each (@delete_blob_file Disk (fs_raw_ops store0)) (rp_candidates sample_plan) 0 0 disk_o).1.

Lemma sample_deletes :
  delete_each (@delete_blob_file Disk (fs_raw_ops store0)) (rp_candidates sample_plan) 0 0 disk_o =
  (sample_deleted, Ok (1%Z, 0%Z)).
Proof.
  unfold sample_deleted. rewrite (surjective_pairing (delete_each _ _ _ _ _)) at 1.
  f_equal.
Qed.

Lemma sample_deletes_temps :
  (@delete_temp_files Disk (fs_raw_ops store0) (rp_temp_files sample_plan) sample_deleted).2 = Ok (1%Z, 0%Z).
Proof. vm_compute. reflexivity. Qed.

Lemma sample_temps :
  @temps Disk (fs_raw_ops store0) (fs_raw_laws store0) disk_o old_temp = Some 7%Z /\
  @temps Disk (fs_raw_ops store0) (fs_raw_laws store0) disk_o young_temp = Some 95%Z.
Proof. by vm_compute. Qed.

Lemma orphan_file : @blobs Disk (fs_raw_ops store0) (fs_raw_laws store0) disk_o id_o = Some (7%Z, [x6f]).
Proof. vm_compute. reflexivity. Qed.

Lemma part_needed : @needed Disk (fs_raw_ops store0) (fs_raw_laws store0) sample_object disk_o id_b.
Proof.
  right. exists id_c, (sample_meta 5 (bp_composite_parts upload)). do 2 eexists. split_and!.
  - apply sample_object_refers.
  - by vm_compute.
  - vm_compute. reflexivity.
  - right. left.
  - reflexivity.
Qed.

(** The collection keeps the part, the sidecar of the composite and the young
    temporary file, and removes the orphan and the old one. *)
Lemma reclaim_blobs_exact_witness :
  @kept Disk (fs_raw_ops store0) (fs_raw_laws store0) disk_o collected id_b /\
  @kept Disk (fs_raw_ops store0) (fs_raw_laws store0) disk_o collected id_c /\
  @blobs Disk (fs_raw_ops store0) (fs_raw_laws store0) collected id_o = None /\
  @temps Disk (fs_raw_ops store0) (fs_raw_laws store0) collected young_temp = Some 95%Z /\
  @temps Disk (fs_raw_ops store0) (fs_raw_laws store0) collected old_temp = None.
Proof.
  destruct sample_temps as [Hold Hyoung].
  destruct (@reclaim_blobs_exact Disk (fs_raw_ops store0) (fs_raw_laws store0) sample_object
    (Ok (list_referenced_blob_ids sample_object)) 100 10 disk_o) as (Hn & _ & Hs & Ht & Hgone).
  - exact disk_o_placed.
  - lia.
  - congruence.
  - specialize (Hgone sample_plan 1%Z sample_planned). rewrite sample_deletes in Hgone.
    destruct (Hgone eq_refl) as [Hb Htemp]. split_and!.
    + exact (Hn id_b part_needed).
    + apply (Hs id_c). vm_compute. reflexivity.
    + refine (Hb id_o 7%Z [x6f] orphan_file orphan_not_needed _). lia.
    + refine (Ht young_temp 95%Z Hyoung _). lia.
    + refine (Htemp 1%Z sample_deletes_temps old_temp 7%Z Hold _). lia.
Defined.

Lemma gc_preserves_reads_witness :
  get store0 id_c None collected =
  Ok {| bg_stream := {| bs_bytes := [x61; x62; x63; x64; x65]; bs_ok := true |}; bg_content_length := 5 |}.
Proof.
  unfold collected. rewrite (gc_preserves_reads store0 sample_object);
    [by vm_compute|apply disk_o_placed|congruence|apply sample_object_refers].
Defined.

(** ** Two runs with a failing directory sync *)

Definition with_fault (ft : FsOp -> path -> bool) (d : Disk) : Disk :=
  MkDisk (dk_files d) (dk_dirs d) (dk_durable_files d) (dk_durable_dirs d) ft.

Definition sync_dir_fails (op : FsOp) (_ : path) : bool := match op with OpSyncDir => true | _ => false end.

(** [write_file_atomic] reports a failure and has replaced the file: the rename
    comes before the sync of the directory that fails. *)
Lemma failed_write_replaces_file :
  let d := with_fault sync_dir_fails disk_a' in
  let '(d', r) := write_file_atomic 9 "u9" (sidecar_path store0 id_a) [x78] d in
  r = Err OtherIo /\ f_bytes <$> dk_files d' !! sidecar_path store0 id_a = Some [x78].
Proof. by vm_compute. Qed.

(** A [put] that fails while it makes its directories durable leaves them in
    place but not durable.  The next one finds them and syncs nothing above the
    blob: it succeeds, the sidecar is written, and a power loss takes both. *)
Lemma acknowledged_blob_lost :
  let d1 := (put store0 1 id_a [Some [x61]] (with_fault sync_dir_fails empty_disk)).1 in
  let '(d2, r2) := put store0 2 id_a [Some [x61]] (with_fault (fun _ _ => false) d1) in
  let '(d3, r3) := write_sidecar store0 3 "u" id_a (sample_meta 1 None) d2 in
  is_ok r2 = true /\ is_ok r3 = true /\ is_ok (get store0 id_a None d3) = true /\
  is_ok (get store0 id_a None (power_loss d3)) = false.
Proof. by vm_compute. Qed.
