(* ===== verification/Encryption.v ===== *)
(** Encrypted blobs: [crates/arca-storage/src/encryption/format.rs], [keys.rs]
    and [stream.rs].

    A blob is a header and a sequence of chunks, each sealed with AES-256-GCM
    under a nonce that counts the chunks.  The cipher is a parameter, with what
    the [ring] crate documents of it as laws.  Random keys and nonces are
    arguments.  The encrypting stream is a pipeline: it is modelled as the loop
    of [poll_next], whose iterations are driven by a schedule that says when the
    oldest encryption task and the source have something ready. *)

From S2P Require Import Prelude S3Errors BlobRead FsBlob.
From Stdlib Require Import Strings.Byte.

Open Scope outcome_scope.

#[export] Instance byte_eq_decision : EqDecision byte := Byte.byte_eq_dec.

(** ** Integers as bytes *)

Definition byte_of (z : Z) : byte := default x00 (Byte.of_N (Z.to_N (z mod 256))).
Definition byte_val (b : byte) : Z := Z.of_N (Byte.to_N b).

(** [to_le_bytes] of an integer of [n] bytes. *)
Fixpoint to_le_bytes (n : nat) (z : Z) : list byte :=
  match n with
  | 0 => []
  | S n' => byte_of z :: to_le_bytes n' (z / 256)
  end.

(** [from_le_bytes] *)
Fixpoint from_le_bytes (b : list byte) : Z :=
  match b with
  | [] => 0
  | x :: b' => byte_val x + 256 * from_le_bytes b'
  end.

Definition to_be_bytes (n : nat) (z : Z) : list byte := rev (to_le_bytes n z).

(** ** The format *)

Definition MAGIC : list byte := [x41; x45; x4e; x43].
Definition VERSION : byte := x01.
Definition DEFAULT_CHUNK_SIZE : Z := 64 * 1024.
Definition TAG_LEN : nat := 16.
Definition HEADER_SIZE : nat := 9.

Definition on_disk_chunk_size (plaintext_len : Z) : Z := 4 + plaintext_len + Z.of_nat TAG_LEN.

Definition full_on_disk_chunk_size : Z := on_disk_chunk_size DEFAULT_CHUNK_SIZE.

Definition write_header (chunk_size : Z) : list byte := MAGIC ++ [VERSION] ++ to_le_bytes 4 chunk_size.

Definition parse_header (data : list byte) : outcome string Z :=
  if length data <? HEADER_SIZE then Err "header too short"
  else if negb (bool_decide (take 4 data = MAGIC)) then Err "invalid magic bytes"
  else if negb (bool_decide (data !! 4 = Some VERSION)) then Err "unsupported format version"
  else
    let chunk_size := from_le_bytes (take 4 (drop 5 data)) in
    if (chunk_size =? 0)%Z then Err "chunk_size must be > 0" else Ok chunk_size.

(** ** The cipher

    [seal_in_place_separate_tag] and [open_in_place] of a [LessSafeKey] of
    AES-256-GCM without associated data, and the digest of the key id. *)
Class Aead : Type := {
  seal : list byte -> list byte -> list byte -> option (list byte * list byte);
  open_ : list byte -> list byte -> list byte -> option (list byte);
  sha256 : list byte -> list byte;
}.

(** [UnboundKey::new] takes a key of 32 bytes. *)
Definition make_aead_key (key_bytes : list byte) : outcome string (list byte) :=
  if length key_bytes =? 32 then Ok key_bytes else Err "invalid AES-256-GCM key".

Record MasterKey : Type := {
  mk_key_bytes : list byte;
  mk_key_id : string;
}.

(** The largest input [ring] seals with AES-GCM. *)
Definition MAX_INPUT : Z := 16 * (2 ^ 32 - 2).

(** What the crate documents: sealing succeeds up to the limit and keeps the
    length; opening inverts it, and accepts nothing but what sealing the
    result under the same key and nonce gives. *)
Class AeadLaws `{!Aead} : Prop := {
  seal_ok key nonce p : (Z.of_nat (length p) <= MAX_INPUT)%Z -> is_Some (seal key nonce p);
  seal_length key nonce p c t : seal key nonce p = Some (c, t) -> length c = length p /\ length t = TAG_LEN;
  open_seal key nonce p c t : seal key nonce p = Some (c, t) -> open_ key nonce (c ++ t) = Some p;
  open_sealed key nonce ct p : open_ key nonce ct = Some p ->
    exists c t, seal key nonce p = Some (c, t) /\ ct = c ++ t;
}.

(** The standard base64 engine. *)
Class Base64 : Type := {
  b64_encode : list byte -> string;
  b64_decode : string -> option (list byte);
}.

Class Base64Laws `{!Base64} : Prop := {
  b64_roundtrip b : b64_decode (b64_encode b) = Some b;
}.

Section keys.
Context `{!Aead} `{!BlobCodec} `{!Base64}.

Definition derive_key_id (key_bytes : list byte) : string := hex_encode (take 4 (sha256 key_bytes)).

Definition from_bytes (key_bytes : list byte) : outcome string MasterKey :=
  if negb (length key_bytes =? 32) then Err "master key must be exactly 32 bytes"
  else Ok {| mk_key_bytes := key_bytes; mk_key_id := derive_key_id key_bytes |}.

Definition from_base64 (encoded : string) : outcome string MasterKey :=
  match b64_decode encoded with
  | Some bytes => from_bytes bytes
  | None => Err "invalid base64"
  end.

Definition wrap_dek (m : MasterKey) (nonce_bytes dek : list byte) : outcome string (list byte * list byte) :=
  if negb (length (mk_key_bytes m) =? 32) then Err "failed to create wrapping key"
  else
    match seal (mk_key_bytes m) nonce_bytes dek with
    | Some (c, t) => Ok (c ++ t, nonce_bytes)
    | None => Err "DEK wrapping failed"
    end.

Definition unwrap_dek (m : MasterKey) (encrypted_dek nonce_bytes : list byte) : outcome string (list byte) :=
  if negb (length nonce_bytes =? 12) then Err "nonce must be 12 bytes"
  else if negb (length (mk_key_bytes m) =? 32) then Err "failed to create unwrapping key"
  else
    match open_ (mk_key_bytes m) nonce_bytes encrypted_dek with
    | Some plaintext => Ok plaintext
    | None => Err "DEK unwrapping failed (wrong key or corrupted data)"
    end.

Definition build_nonce (prefix : list byte) (chunk_index : Z) : list byte := prefix ++ to_be_bytes 8 chunk_index.

Definition encrypt_chunk (key nonce_bytes plaintext : list byte) : outcome string (list byte) :=
  match seal key nonce_bytes plaintext with
  | Some (c, t) => Ok (c ++ t)
  | None => Err "chunk encryption failed"
  end.

(** The ciphertext that replaces the plaintext, and the tag. *)
Definition encrypt_chunk_in_place (key nonce_bytes in_out : list byte) : outcome string (list byte * list byte) :=
  match seal key nonce_bytes in_out with
  | Some ct => Ok ct
  | None => Err "chunk encryption failed"
  end.

Definition decrypt_chunk (key nonce_bytes ciphertext_and_tag : list byte) : outcome string (list byte) :=
  match open_ key nonce_bytes ciphertext_and_tag with
  | Some p => Ok p
  | None => Err "chunk decryption failed (corrupted or wrong key)"
  end.

(** The plaintext, which the caller reads from the front of its buffer. *)
Definition decrypt_chunk_in_place (key nonce_bytes ciphertext_and_tag : list byte) : outcome string (list byte) :=
  match open_ key nonce_bytes ciphertext_and_tag with
  | Some p => Ok p
  | None => Err "chunk decryption failed (corrupted or wrong key)"
  end.
End keys.

(** ** The encrypting stream *)

Definition DEFAULT_BATCH_FACTOR : Z := 4.
Definition PIPELINE_DEPTH : nat := 4.

Record PlaintextStats : Type := {
  ps_size : Z;
  ps_md5 : option (list byte);
}.

(** The items of a stream, [None] an error. *)
Abbreviation item := (option (list byte)).
Abbreviation body := (list (option (list byte))).

(** [es_pending] holds what the encryption tasks return, oldest first;
    [es_hashed] what the hasher was fed. *)
Record EncryptingStream : Type := {
  es_inner : body;
  es_key : list byte;
  es_nonce_prefix : list byte;
  es_chunk_size : Z;
  es_chunk_index : Z;
  es_buffer : list byte;
  es_hashed : list byte;
  es_plaintext_size : Z;
  es_header_emitted : bool;
  es_inner_done : bool;
  es_stats : PlaintextStats;
  es_pending : list (outcome string (list byte));
  es_batch_factor : Z;
  es_finalized : bool;
}.

(** What a poll returns, [Ready None] at the end. *)
Inductive Poll : Type := Ready (i : option item) | Pending.

Section encrypting.
Context `{!Aead} `{!BlobCodec}.

Definition with_batch_factor (inner : body) (key nonce_prefix : list byte) (chunk_size batch_factor : Z)
  : EncryptingStream :=
  {| es_inner := inner; es_key := key; es_nonce_prefix := nonce_prefix; es_chunk_size := chunk_size;
     es_chunk_index := 0; es_buffer := []; es_hashed := []; es_plaintext_size := 0; es_header_emitted := false;
     es_inner_done := false; es_stats := {| ps_size := 0; ps_md5 := None |}; es_pending := [];
     es_batch_factor := Z.max batch_factor 1; es_finalized := false |}.

Definition new_encrypting (inner : body) (key nonce_prefix : list byte) (chunk_size : Z) : EncryptingStream :=
  with_batch_factor inner key nonce_prefix chunk_size DEFAULT_BATCH_FACTOR.

(** The loop of an encryption task, one chunk per unit of fuel. *)
Fixpoint encrypt_batch (fuel : nat) (key nonce_prefix : list byte) (chunk_size : nat) (chunk_idx : Z)
    (plaintext : list byte) : outcome string (list byte) :=
  match plaintext, fuel with
  | [], _ => Ok []
  | _, 0 => Panic
  | _, S fuel' =>
      let chunk := take chunk_size plaintext in
      let nonce := build_nonce nonce_prefix chunk_idx in
      let? (ciphertext, tag) := encrypt_chunk_in_place key nonce chunk in
      let? rest := encrypt_batch fuel' key nonce_prefix chunk_size (u64 (chunk_idx + 1)) (drop chunk_size plaintext) in
      Ok (to_le_bytes 4 (Z.of_nat (length chunk)) ++ ciphertext ++ tag ++ rest)
  end.

Definition div_ceil (a b : Z) : Z := (a + b - 1) / b.

Definition with_buffer (b : list byte) (s : EncryptingStream) : EncryptingStream :=
  {| es_inner := es_inner s; es_key := es_key s; es_nonce_prefix := es_nonce_prefix s;
     es_chunk_size := es_chunk_size s; es_chunk_index := es_chunk_index s; es_buffer := b;
     es_hashed := es_hashed s; es_plaintext_size := es_plaintext_size s; es_header_emitted := es_header_emitted s;
     es_inner_done := es_inner_done s; es_stats := es_stats s; es_pending := es_pending s;
     es_batch_factor := es_batch_factor s; es_finalized := es_finalized s |}.

Definition flush_batch (s : EncryptingStream) : EncryptingStream :=
  match es_buffer s with
  | [] => s
  | plaintext =>
      let n_chunks := div_ceil (Z.of_nat (length plaintext)) (es_chunk_size s) in
      {| es_inner := es_inner s; es_key := es_key s; es_nonce_prefix := es_nonce_prefix s;
         es_chunk_size := es_chunk_size s; es_chunk_index := u64 (es_chunk_index s + n_chunks); es_buffer := [];
         es_hashed := es_hashed s; es_plaintext_size := es_plaintext_size s;
         es_header_emitted := es_header_emitted s; es_inner_done := es_inner_done s; es_stats := es_stats s;
         es_pending := es_pending s ++
           [encrypt_batch (length plaintext) (es_key s) (es_nonce_prefix s) (Z.to_nat (es_chunk_size s))
              (es_chunk_index s) plaintext];
         es_batch_factor := es_batch_factor s; es_finalized := es_finalized s |}
  end.

Definition batch_capacity (s : EncryptingStream) : nat := Z.to_nat (es_chunk_size s * es_batch_factor s).

(** The [while] loop that hands off full batches: each one takes a slot of the
    pipeline. *)
Fixpoint flush_full (slots : nat) (s : EncryptingStream) : EncryptingStream :=
  match slots with
  | 0 => s
  | S slots' =>
      if (batch_capacity s <=? length (es_buffer s)) && (length (es_pending s) <? PIPELINE_DEPTH) then
        let remainder := drop (batch_capacity s) (es_buffer s) in
        let s' := flush_batch (with_buffer (take (batch_capacity s) (es_buffer s)) s) in
        flush_full slots' (with_buffer remainder s')
      else s
  end.

Definition finalize_stats (s : EncryptingStream) : EncryptingStream :=
  if es_finalized s then s
  else
    {| es_inner := es_inner s; es_key := es_key s; es_nonce_prefix := es_nonce_prefix s;
       es_chunk_size := es_chunk_size s; es_chunk_index := es_chunk_index s; es_buffer := es_buffer s;
       es_hashed := es_hashed s; es_plaintext_size := es_plaintext_size s; es_header_emitted := es_header_emitted s;
       es_inner_done := es_inner_done s;
       es_stats := {| ps_size := es_plaintext_size s; ps_md5 := Some (md5_digest (es_hashed s)) |};
       es_pending := es_pending s; es_batch_factor := es_batch_factor s; es_finalized := true |}.

Definition with_pending (p : list (outcome string (list byte))) (s : EncryptingStream) : EncryptingStream :=
  {| es_inner := es_inner s; es_key := es_key s; es_nonce_prefix := es_nonce_prefix s;
     es_chunk_size := es_chunk_size s; es_chunk_index := es_chunk_index s; es_buffer := es_buffer s;
     es_hashed := es_hashed s; es_plaintext_size := es_plaintext_size s; es_header_emitted := es_header_emitted s;
     es_inner_done := es_inner_done s; es_stats := es_stats s; es_pending := p;
     es_batch_factor := es_batch_factor s; es_finalized := es_finalized s |}.

Definition with_inner (i : body) (done_ : bool) (s : EncryptingStream) : EncryptingStream :=
  {| es_inner := i; es_key := es_key s; es_nonce_prefix := es_nonce_prefix s;
     es_chunk_size := es_chunk_size s; es_chunk_index := es_chunk_index s; es_buffer := es_buffer s;
     es_hashed := es_hashed s; es_plaintext_size := es_plaintext_size s; es_header_emitted := es_header_emitted s;
     es_inner_done := done_; es_stats := es_stats s; es_pending := es_pending s;
     es_batch_factor := es_batch_factor s; es_finalized := es_finalized s |}.

(** The chunk is hashed, counted and buffered. *)
Definition absorb_chunk (chunk : list byte) (inner : body) (s : EncryptingStream) : EncryptingStream :=
  {| es_inner := inner; es_key := es_key s; es_nonce_prefix := es_nonce_prefix s;
     es_chunk_size := es_chunk_size s; es_chunk_index := es_chunk_index s; es_buffer := es_buffer s ++ chunk;
     es_hashed := es_hashed s ++ chunk;
     es_plaintext_size := u64 (es_plaintext_size s + Z.of_nat (length chunk));
     es_header_emitted := es_header_emitted s; es_inner_done := es_inner_done s; es_stats := es_stats s;
     es_pending := es_pending s; es_batch_factor := es_batch_factor s; es_finalized := es_finalized s |}.

(** One iteration of the loop of [poll_next]; [None] when it goes on.  A task
    that failed or panicked yields an error. *)
Definition iteration (head_ready inner_ready : bool) (s : EncryptingStream) : EncryptingStream * option Poll :=
  match es_pending s, head_ready with
  | result :: rest, true =>
      (with_pending rest s,
       Some (Ready (Some (match result with Ok bytes => Some bytes | _ => None end))))
  | _, _ =>
      if PIPELINE_DEPTH <=? length (es_pending s) then (s, Some Pending)
      else if es_inner_done s then
        if is_nil (es_pending s) then (finalize_stats s, Some (Ready None)) else (s, Some Pending)
      else if negb inner_ready then (s, Some Pending)
      else
        match es_inner s with
        | Some chunk :: inner' => (flush_full PIPELINE_DEPTH (absorb_chunk chunk inner' s), None)
        | None :: inner' => (with_inner inner' false s, Some (Ready (Some None)))
        | [] =>
            let s' := with_inner [] true s in
            (if negb (is_nil (es_buffer s')) && (length (es_pending s') <? PIPELINE_DEPTH) then flush_batch s' else s', None)
        end
  end.

Definition with_header_emitted (s : EncryptingStream) : EncryptingStream :=
  {| es_inner := es_inner s; es_key := es_key s; es_nonce_prefix := es_nonce_prefix s;
     es_chunk_size := es_chunk_size s; es_chunk_index := es_chunk_index s; es_buffer := es_buffer s;
     es_hashed := es_hashed s; es_plaintext_size := es_plaintext_size s; es_header_emitted := true;
     es_inner_done := es_inner_done s; es_stats := es_stats s; es_pending := es_pending s;
     es_batch_factor := es_batch_factor s; es_finalized := es_finalized s |}.

(** [poll_next], iteration by iteration. *)
Definition poll_next (head_ready inner_ready : bool) (s : EncryptingStream) : EncryptingStream * option Poll :=
  if negb (es_header_emitted s) then
    (with_header_emitted s, Some (Ready (Some (Some (write_header (es_chunk_size s))))))
  else iteration head_ready inner_ready s.

(** A consumer that polls again until the end: the items, and the stream when
    the end was reached. *)
Fixpoint drain (schedule : list (bool * bool)) (s : EncryptingStream) : body * option EncryptingStream :=
  match schedule with
  | [] => ([], None)
  | (head_ready, inner_ready) :: schedule' =>
      match poll_next head_ready inner_ready s with
      | (s', Some (Ready None)) => ([], Some s')
      | (s', Some (Ready (Some i))) => let '(items, ended) := drain schedule' s' in (i :: items, ended)
      | (s', _) => drain schedule' s'
      end
  end.
End encrypting.

(** ** The decrypting stream *)

Record DecryptingStream : Type := {
  ds_inner : body;
  ds_key : list byte;
  ds_nonce_prefix : list byte;
  ds_chunk_index : Z;
  ds_buffer : list byte;
  ds_inner_done : bool;
}.

Section decrypting.
Context `{!Aead}.

Definition new_decrypting (inner : body) (key nonce_prefix : list byte) : DecryptingStream :=
  {| ds_inner := inner; ds_key := key; ds_nonce_prefix := nonce_prefix; ds_chunk_index := 0; ds_buffer := [];
     ds_inner_done := false |}.

Definition try_decrypt_chunk (s : DecryptingStream) : DecryptingStream * outcome string (option (list byte)) :=
  if length (ds_buffer s) <? 4 then (s, Ok None)
  else
    let plaintext_len := Z.to_nat (from_le_bytes (take 4 (ds_buffer s))) in
    let on_disk_chunk_len := 4 + plaintext_len + TAG_LEN in
    if length (ds_buffer s) <? on_disk_chunk_len then (s, Ok None)
    else
      let chunk := drop 4 (take on_disk_chunk_len (ds_buffer s)) in
      let rest := drop on_disk_chunk_len (ds_buffer s) in
      let nonce := build_nonce (ds_nonce_prefix s) (ds_chunk_index s) in
      match decrypt_chunk_in_place (ds_key s) nonce chunk with
      | Ok p =>
          ({| ds_inner := ds_inner s; ds_key := ds_key s; ds_nonce_prefix := ds_nonce_prefix s;
              ds_chunk_index := u64 (ds_chunk_index s + 1); ds_buffer := rest; ds_inner_done := ds_inner_done s |},
           Ok (Some p))
      | Err e =>
          ({| ds_inner := ds_inner s; ds_key := ds_key s; ds_nonce_prefix := ds_nonce_prefix s;
              ds_chunk_index := ds_chunk_index s; ds_buffer := rest; ds_inner_done := ds_inner_done s |}, Err e)
      | Panic => (s, Panic)
      end.

Definition feed (chunk : list byte) (inner : body) (done_ : bool) (s : DecryptingStream) : DecryptingStream :=
  {| ds_inner := inner; ds_key := ds_key s; ds_nonce_prefix := ds_nonce_prefix s; ds_chunk_index := ds_chunk_index s;
     ds_buffer := ds_buffer s ++ chunk; ds_inner_done := done_ |}.

(** The loop that pulls from the source; waiting does not change the state and
    is left out. *)
Fixpoint pull (inner : body) (s : DecryptingStream) : DecryptingStream * option item :=
  match inner with
  | Some chunk :: inner' =>
      match try_decrypt_chunk (feed chunk inner' false s) with
      | (s', Ok (Some p)) => (s', Some (Some p))
      | (s', Ok None) => pull inner' s'
      | (s', _) => (s', Some None)
      end
  | None :: inner' => (feed [] inner' false s, Some None)
  | [] =>
      match try_decrypt_chunk (feed [] [] true s) with
      | (s', Ok (Some p)) => (s', Some (Some p))
      | (s', Ok None) => (s', if is_nil (ds_buffer s') then None else Some None)
      | (s', _) => (s', Some None)
      end
  end.

Definition decrypting_poll_next (s : DecryptingStream) : DecryptingStream * option item :=
  match try_decrypt_chunk s with
  | (s', Ok (Some p)) => (s', Some (Some p))
  | (s', Ok None) =>
      if ds_inner_done s' then (s', if is_nil (ds_buffer s') then None else Some None)
      else pull (ds_inner s') s'
  | (s', _) => (s', Some None)
  end.

(** The stream as its consumer sees it, up to the end or the first error; one
    unit of fuel per item. *)
Fixpoint decrypted (fuel : nat) (s : DecryptingStream) : ByteStream :=
  match fuel with
  | 0 => {| bs_bytes := []; bs_ok := false |}
  | S fuel' =>
      match decrypting_poll_next s with
      | (_, None) => empty_stream
      | (s', Some (Some p)) => chain {| bs_bytes := p; bs_ok := true |} (decrypted fuel' s')
      | (_, Some None) => {| bs_bytes := []; bs_ok := false |}
      end
  end.

(** ** Ranges *)

Definition chunk_disk_offset (chunk_index chunk_size : Z) : Z :=
  u64 (Z.of_nat HEADER_SIZE + u64 (chunk_index * on_disk_chunk_size chunk_size)).

(** The loop of [decrypt_range] on the data that is left, one chunk per unit
    of fuel. *)
Fixpoint decrypt_range_from (fuel : nat) (key nonce_prefix : list byte) (chunk_size : Z) (data : list byte)
    (chunk_idx range_start range_end : Z) : outcome string (list byte) :=
  match data, fuel with
  | [], _ => Ok []
  | _, 0 => Panic
  | _, S fuel' =>
      if length data <? 4 then Err "truncated chunk length prefix"
      else
        let plaintext_len := Z.to_nat (from_le_bytes (take 4 data)) in
        let on_disk_len := 4 + plaintext_len + TAG_LEN in
        if length data <? on_disk_len then Err "truncated encrypted chunk"
        else
          let ciphertext_and_tag := drop 4 (take on_disk_len data) in
          let chunk_start := u64 (chunk_idx * chunk_size) in
          let chunk_pt_end := u64 (chunk_start + Z.of_nat plaintext_len) in
          let next := decrypt_range_from fuel' key nonce_prefix chunk_size (drop on_disk_len data)
                        (u64 (chunk_idx + 1)) range_start range_end in
          if (chunk_pt_end <=? range_start)%Z || (range_end <? chunk_start)%Z then next
          else
            let? plaintext := decrypt_chunk key (build_nonce nonce_prefix chunk_idx) ciphertext_and_tag in
            let slice_start := if (chunk_start <? range_start)%Z then (range_start - chunk_start)%Z else 0%Z in
            let slice_end := if (u64 (range_end + 1) <? chunk_pt_end)%Z then u64 (u64 (range_end + 1) - chunk_start)
                             else Z.of_nat (length plaintext) in
            if (slice_start <? slice_end)%Z then
              if (Z.of_nat (length plaintext) <? slice_end)%Z then Panic
              else
                let? rest := next in
                Ok (drop (Z.to_nat slice_start) (take (Z.to_nat slice_end) plaintext) ++ rest)
            else next
  end.

Definition decrypt_range (key nonce_prefix : list byte) (chunk_size : Z) (encrypted_data : list byte)
    (first_chunk_index range_start range_end : Z) : outcome string (list byte) :=
  decrypt_range_from (length encrypted_data) key nonce_prefix chunk_size encrypted_data first_chunk_index
    range_start range_end.
End decrypting.
