(* ===== verification/EncryptionFormat.v ===== *)
(** The encrypted format: what [Encryption] writes and reads, against a plain
    description of the format.  The bytes of integers, the split of a plaintext
    into chunks, the frames of the chunks, and the decoding of frames: the
    stream that decrypts does not depend on how its source splits the bytes, it
    inverts the framing, and it accepts nothing else. *)

From S2P Require Import Prelude S3Errors BlobRead FsBlob Encryption.
From Stdlib Require Import Strings.Byte.

Open Scope outcome_scope.

(** ** Integers as bytes *)

Lemma byte_val_range b : (0 <= byte_val b < 256)%Z.
Proof. unfold byte_val. pose proof (Byte.to_N_bounded b). lia. Qed.

Lemma byte_val_of z : byte_val (byte_of z) = (z mod 256)%Z.
Proof.
  unfold byte_val, byte_of. pose proof (Z.mod_pos_bound z 256 ltac:(lia)) as Hz.
  destruct (Byte.of_N (Z.to_N (z mod 256))) as [b|] eqn:E; cbn.
  - apply Byte.to_of_N in E. rewrite E. lia.
  - apply Byte.of_N_None_iff in E. lia.
Qed.

Lemma byte_of_val b z : byte_of (byte_val b + 256 * z) = b.
Proof.
  unfold byte_of. rewrite Z.mul_comm, Z_mod_plus_full, Z.mod_small by apply byte_val_range.
  unfold byte_val. by rewrite N2Z.id, Byte.of_to_N.
Qed.

Lemma length_to_le n z : length (to_le_bytes n z) = n.
Proof. revert z. induction n; intros z; simpl; auto. Qed.

Lemma from_to_le n z : from_le_bytes (to_le_bytes n z) = (z mod 256 ^ Z.of_nat n)%Z.
Proof.
  revert z. induction n as [|n IH]; intros z; [by rewrite Z.mod_1_r|].
  cbn [to_le_bytes from_le_bytes]. rewrite IH, byte_val_of, Nat2Z.inj_succ, Z.pow_succ_r by lia.
  rewrite Z.rem_mul_r by lia. lia.
Qed.

Lemma to_from_le b : to_le_bytes (length b) (from_le_bytes b) = b.
Proof.
  induction b as [|x b IH]; [done|]. cbn [length to_le_bytes from_le_bytes]. rewrite byte_of_val.
  f_equal. replace ((byte_val x + 256 * from_le_bytes b) / 256)%Z with (from_le_bytes b); [done|].
  pose proof (byte_val_range x). apply (Z.div_unique _ _ _ (byte_val x)); lia.
Qed.

Lemma from_le_range b : (0 <= from_le_bytes b < 256 ^ Z.of_nat (length b))%Z.
Proof.
  induction b as [|x b IH]; cbn [from_le_bytes length]; [cbn; lia|].
  rewrite Nat2Z.inj_succ, Z.pow_succ_r by lia. pose proof (byte_val_range x). lia.
Qed.

Lemma from_to_le_small n z : (0 <= z < 256 ^ Z.of_nat n)%Z -> from_le_bytes (to_le_bytes n z) = z.
Proof. intros Hz. by rewrite from_to_le, Z.mod_small. Qed.

Lemma to_le_inj n y z :
  (0 <= y < 256 ^ Z.of_nat n)%Z -> (0 <= z < 256 ^ Z.of_nat n)%Z -> to_le_bytes n y = to_le_bytes n z -> y = z.
Proof. intros Hy Hz E. apply (f_equal from_le_bytes) in E. by rewrite !from_to_le_small in E. Qed.

(** ** The header *)

Lemma length_write_header cs : length (write_header cs) = HEADER_SIZE.
Proof. unfold write_header. by rewrite !length_app, length_to_le. Qed.

Lemma parse_write_header cs rest :
  (0 < cs < 2 ^ 32)%Z -> parse_header (write_header cs ++ rest) = Ok cs.
Proof.
  intros Hcs. unfold parse_header.
  rewrite (proj2 (Nat.ltb_ge _ _)) by (rewrite length_app, length_write_header; lia).
  unfold write_header. rewrite <- !app_assoc.
  change (take 4 (MAGIC ++ ?x)) with MAGIC. rewrite bool_decide_eq_true_2 by done. cbn [negb].
  change ((MAGIC ++ ?x) !! 4) with (Some VERSION). rewrite bool_decide_eq_true_2 by done. cbn [negb].
  change (drop 5 (MAGIC ++ [VERSION] ++ ?x)) with x.
  rewrite take_app_length' by (by rewrite length_to_le). rewrite from_to_le_small by lia.
  by rewrite (proj2 (Z.eqb_neq _ _)) by lia.
Qed.

Lemma parse_header_ok data cs :
  parse_header data = Ok cs -> (0 < cs < 2 ^ 32)%Z /\ take HEADER_SIZE data = write_header cs.
Proof.
  unfold parse_header. destruct (Nat.ltb_spec (length data) HEADER_SIZE) as [|Hl]; [done|].
  case_bool_decide as Hm; [cbn [negb]|done]. case_bool_decide as Hv; [cbn [negb]|done].
  destruct (Z.eqb_spec (from_le_bytes (take 4 (drop 5 data))) 0) as [|Hn]; [done|]. intros [= <-].
  unfold HEADER_SIZE in Hl.
  pose proof (from_le_range (take 4 (drop 5 data))) as Hr.
  assert (length (take 4 (drop 5 data)) = 4) as H4 by (rewrite length_take, length_drop; lia).
  rewrite H4 in Hr. split; [lia|]. unfold write_header.
  pose proof (to_from_le (take 4 (drop 5 data))) as E. rewrite H4 in E. rewrite E. clear E.
  rewrite <- Hm. change HEADER_SIZE with (4 + (1 + 4)). rewrite <- take_take_drop. f_equal.
  rewrite <- take_take_drop, drop_drop. f_equal.
  destruct (drop 4 data) as [|x l] eqn:E.
  - apply (f_equal length) in E. rewrite length_drop in E. simpl in E. lia.
  - rewrite <- (Nat.add_0_r 4), <- lookup_drop, E in Hv. by injection Hv as ->.
Qed.

(** ** Chunks and frames *)

Fixpoint chunked (fuel : nat) (n : nat) (l : list byte) : list (list byte) :=
  match l, fuel with
  | [], _ | _, 0 => []
  | _, S fuel' => take n l :: chunked fuel' n (drop n l)
  end.

(** The plaintext cut into chunks of [n] bytes, the last one shorter. *)
Definition chunks_of (n : nat) (l : list byte) : list (list byte) := chunked (length l) n l.

Lemma chunked_fuel n fuel l : 0 < n -> length l <= fuel -> chunked fuel n l = chunks_of n l.
Proof.
  intros Hn. revert l. induction fuel as [fuel IH] using lt_wf_ind. intros l Hl. unfold chunks_of.
  destruct l as [|x l]; [by destruct fuel|]. destruct fuel as [|fuel]; simpl in Hl; [lia|].
  destruct n as [|n]; [lia|]. cbn [chunked length take drop]. f_equal.
  rewrite (IH fuel ltac:(lia)) by (rewrite length_drop; lia).
  symmetry. apply (IH (length l)); [lia|]. rewrite length_drop. lia.
Qed.

Lemma chunks_of_cons n l : 0 < n -> l <> [] -> chunks_of n l = take n l :: chunks_of n (drop n l).
Proof.
  intros Hn Hl. destruct l as [|x l]; [done|]. unfold chunks_of at 1. cbn [chunked length]. f_equal.
  apply chunked_fuel; [done|]. rewrite length_drop. simpl. lia.
Qed.

(** Induction on the chunks of a plaintext. *)
Lemma chunks_ind n (P : list byte -> Prop) :
  0 < n -> P [] -> (forall l, l <> [] -> P (drop n l) -> P l) -> forall l, P l.
Proof.
  intros Hn H0 HS l. induction l as [l IH] using (well_founded_induction (well_founded_ltof _ (@length byte))).
  destruct l as [|x l]; [done|]. apply HS; [done|]. apply IH. unfold ltof. rewrite length_drop. simpl. lia.
Qed.

Lemma concat_chunks_of n l : 0 < n -> List.concat (chunks_of n l) = l.
Proof.
  intros Hn. revert l. refine (chunks_ind n _ Hn _ _); [done|intros l Hl IH].
  rewrite chunks_of_cons by done. cbn [List.concat]. by rewrite IH, take_drop.
Qed.

Lemma chunks_of_app n a b :
  0 < n -> (n | length a)%nat -> chunks_of n (a ++ b) = chunks_of n a ++ chunks_of n b.
Proof.
  intros Hn. revert a. refine (chunks_ind n _ Hn _ _); [done|].
  intros a Ha IH [k Hk]. assert (n <= length a) as Hle.
  { destruct k; [destruct a; simpl in *; [done|lia]|lia]. }
  rewrite (chunks_of_cons n a), (chunks_of_cons n (a ++ b)) by (done || by destruct a).
  rewrite take_app_le, drop_app_le by lia. cbn [app]. f_equal. apply IH. exists (k - 1).
  rewrite length_drop, Hk. destruct k; lia.
Qed.

Lemma chunks_of_bounds n l : 0 < n -> Forall (fun c => 0 < length c <= n) (chunks_of n l).
Proof.
  intros Hn. revert l. refine (chunks_ind n _ Hn _ _); [done|intros l Hl IH].
  rewrite chunks_of_cons by done. constructor; [|done]. rewrite length_take.
  destruct l; [done|]. simpl. lia.
Qed.

Lemma length_chunks_of n l :
  0 < n -> Z.of_nat (length (chunks_of n l)) = div_ceil (Z.of_nat (length l)) (Z.of_nat n).
Proof.
  intros Hn. unfold div_ceil. revert l. refine (chunks_ind n _ Hn _ _); [|intros l Hl IH].
  - cbn [length]. rewrite Z.div_small by lia. done.
  - rewrite chunks_of_cons by done. cbn [length]. rewrite Nat2Z.inj_succ, IH, length_drop.
    assert (0 < length l) by (destruct l; simpl; [done|lia]).
    destruct (decide (length l <= n)).
    + replace (length l - n) with 0 by lia. cbn [Z.of_nat]. rewrite Z.div_small by lia.
      apply (Z.div_unique _ _ _ (Z.of_nat (length l) - 1)); lia.
    + replace (Z.of_nat (length l) + Z.of_nat n - 1)%Z
        with ((Z.of_nat (length l - n) + Z.of_nat n - 1) + 1 * Z.of_nat n)%Z by lia.
      rewrite Z.div_add by lia. lia.
Qed.

Section frames.
Context `{HA : !Aead, HL : !AeadLaws} (key prefix : list byte).

(** The frame of a chunk: its length, the ciphertext and the tag. *)
Definition frame (idx : Z) (chunk : list byte) : list byte :=
  match seal key (build_nonce prefix idx) chunk with
  | Some (c, t) => to_le_bytes 4 (Z.of_nat (length chunk)) ++ c ++ t
  | None => []
  end.

Fixpoint frames (idx : Z) (chunks : list (list byte)) : list byte :=
  match chunks with
  | [] => []
  | c :: chunks' => frame idx c ++ frames (idx + 1) chunks'
  end.

Lemma frames_app idx a b : frames idx (a ++ b) = frames idx a ++ frames (idx + Z.of_nat (length a)) b.
Proof.
  revert idx. induction a as [|x a IH]; intros idx; cbn [app frames length].
  - by rewrite Z.add_0_r.
  - rewrite IH, <- app_assoc. do 3 f_equal. lia.
Qed.

Lemma small_input (c : list byte) : (Z.of_nat (length c) < 2 ^ 32)%Z -> (Z.of_nat (length c) <= MAX_INPUT)%Z.
Proof. unfold MAX_INPUT. lia. Qed.

(** A frame has a length of four bytes, the length of its chunk and a tag. *)
Lemma frame_sealed idx chunk :
  (Z.of_nat (length chunk) < 2 ^ 32)%Z -> exists ct,
  frame idx chunk = to_le_bytes 4 (Z.of_nat (length chunk)) ++ ct /\ length ct = length chunk + TAG_LEN /\
  open_ key (build_nonce prefix idx) ct = Some chunk.
Proof.
  intros Hl. destruct (seal_ok key (build_nonce prefix idx) chunk (small_input _ Hl)) as [[c t] E].
  exists (c ++ t). unfold frame. rewrite E. destruct (seal_length _ _ _ _ _ E) as [Hc Ht].
  split_and!; [done|rewrite length_app; lia|by apply open_seal].
Qed.

Lemma length_frame idx chunk :
  (Z.of_nat (length chunk) < 2 ^ 32)%Z -> length (frame idx chunk) = 4 + length chunk + TAG_LEN.
Proof.
  intros Hl. destruct (frame_sealed idx chunk Hl) as (ct & -> & Hct & _).
  rewrite length_app, length_to_le. lia.
Qed.

(** The loop of a task writes the frames of its plaintext. *)
Lemma encrypt_batch_frames fuel n idx p :
  0 < n -> (Z.of_nat n < 2 ^ 32)%Z -> length p <= fuel ->
  (0 <= idx)%Z -> (idx + Z.of_nat (length (chunks_of n p)) < 2 ^ 64)%Z ->
  encrypt_batch fuel key prefix n idx p = Ok (frames idx (chunks_of n p)).
Proof.
  intros Hn Hn32. revert p fuel idx. refine (chunks_ind n _ Hn _ _); [by intros []|].
  intros p Hp IH fuel idx Hf Hpos Hi.
  rewrite chunks_of_cons in * by done. cbn [length] in Hi.
  destruct p as [|x p]; [done|]. destruct fuel as [|fuel]; [simpl in Hf; lia|]. cbn [encrypt_batch frames].
  unfold encrypt_chunk_in_place, frame.
  destruct (seal_ok key (build_nonce prefix idx) (take n (x :: p))) as [[c t] E].
  { apply small_input. rewrite length_take. lia. }
  rewrite E. cbn [obind]. rewrite u64_small by lia. rewrite IH; [|rewrite length_drop; simpl in *; lia|lia|lia].
  cbn [obind]. by rewrite <- !app_assoc.
Qed.

(** ** Decoding *)

(** The first frame of some bytes: its chunk and what follows. *)
Definition head_frame (idx : Z) (data : list byte) : outcome string (option (list byte * list byte)) :=
  if length data <? 4 then Ok None
  else
    let n := 4 + Z.to_nat (from_le_bytes (take 4 data)) + TAG_LEN in
    if length data <? n then Ok None
    else
      let? p := decrypt_chunk_in_place key (build_nonce prefix idx) (drop 4 (take n data)) in
      Ok (Some (p, drop n data)).

(** The chunks of some bytes, up to the first that is not there in full or
    does not authenticate. *)
Fixpoint decode (fuel : nat) (idx : Z) (data : list byte) : ByteStream :=
  match head_frame idx data, fuel with
  | Ok None, _ => {| bs_bytes := []; bs_ok := is_nil data |}
  | Ok (Some (p, rest)), S fuel' => chain {| bs_bytes := p; bs_ok := true |} (decode fuel' (u64 (idx + 1)) rest)
  | _, _ => {| bs_bytes := []; bs_ok := false |}
  end.

(** A frame that is there is the same with more bytes after it. *)
Lemma head_frame_app idx a b :
  match head_frame idx a with
  | Ok (Some (p, rest)) => head_frame idx (a ++ b) = Ok (Some (p, rest ++ b))
  | Ok None => True
  | Err e => head_frame idx (a ++ b) = Err e
  | Panic => False
  end.
Proof.
  unfold head_frame. destruct (Nat.ltb_spec (length a) 4) as [|Ha]; [done|].
  destruct (Nat.ltb_spec (length (a ++ b)) 4) as [H|_]; [rewrite length_app in H; lia|].
  rewrite (take_app_le a b 4) by done.
  set (n := 4 + Z.to_nat (from_le_bytes (take 4 a)) + TAG_LEN).
  destruct (Nat.ltb_spec (length a) n) as [|Hn]; [done|].
  destruct (Nat.ltb_spec (length (a ++ b)) n) as [H|_]; [rewrite length_app in H; lia|].
  rewrite (take_app_le a b n), (drop_app_le a b n) by done.
  unfold decrypt_chunk_in_place. by destruct (open_ _ _ _).
Qed.

Lemma head_frame_shorter idx data p rest :
  head_frame idx data = Ok (Some (p, rest)) -> length rest < length data.
Proof.
  unfold head_frame. destruct (Nat.ltb_spec (length data) 4) as [|Ha]; [done|].
  destruct (Nat.ltb_spec (length data) (4 + Z.to_nat (from_le_bytes (take 4 data)) + TAG_LEN)) as [|Hn]; [done|].
  unfold decrypt_chunk_in_place. destruct (open_ _ _ _); [|done]. intros [= _ <-].
  rewrite length_drop. lia.
Qed.

Lemma head_frame_nil idx : head_frame idx [] = Ok None.
Proof. done. Qed.

(** *** The stream decodes what its source yields *)

Lemma try_decrypt_head s :
  ds_key s = key -> ds_nonce_prefix s = prefix ->
  match head_frame (ds_chunk_index s) (ds_buffer s) with
  | Ok None => try_decrypt_chunk s = (s, Ok None)
  | Ok (Some (p, rest)) =>
      try_decrypt_chunk s =
      ({| ds_inner := ds_inner s; ds_key := key; ds_nonce_prefix := prefix;
          ds_chunk_index := u64 (ds_chunk_index s + 1); ds_buffer := rest; ds_inner_done := ds_inner_done s |},
       Ok (Some p))
  | Err e => exists s', try_decrypt_chunk s = (s', Err e)
  | Panic => False
  end.
Proof.
  intros Hk Hp. unfold head_frame, try_decrypt_chunk. destruct (length (ds_buffer s) <? 4); [done|].
  destruct (length (ds_buffer s) <? _); [done|]. unfold decrypt_chunk_in_place.
  rewrite Hk, Hp. destruct (open_ _ _ _); cbn [obind]; [done|by eexists].
Qed.

(** What is left of the source and the buffer. *)
Definition left_bytes (s : DecryptingStream) (pieces : list (list byte)) : Prop :=
  ds_key s = key /\ ds_nonce_prefix s = prefix /\ ds_inner s = Some <$> pieces /\
  (ds_inner_done s = true -> pieces = []).

(** What a poll does with the bytes that are left. *)
Definition poll_spec (s' : DecryptingStream) (r : option item) (idx : Z) (data : list byte) : Prop :=
  match head_frame idx data with
  | Ok None => r = if is_nil data then None else Some None
  | Ok (Some (p, rest)) =>
      r = Some (Some p) /\ ds_chunk_index s' = u64 (idx + 1) /\
      exists pieces, left_bytes s' pieces /\ ds_buffer s' ++ List.concat pieces = rest
  | _ => r = Some None
  end.

Lemma pull_pieces pieces s :
  ds_key s = key -> ds_nonce_prefix s = prefix ->
  head_frame (ds_chunk_index s) (ds_buffer s) = Ok None ->
  let '(s', r) := pull (Some <$> pieces) s in
  poll_spec s' r (ds_chunk_index s) (ds_buffer s ++ List.concat pieces).
Proof.
  revert s. induction pieces as [|piece pieces IH]; intros s Hk Hp Hn; cbn [fmap list_fmap pull].
  - pose proof (try_decrypt_head (feed [] [] true s) Hk Hp) as H. cbn in H. rewrite app_nil_r in H.
    rewrite Hn in H. rewrite H. cbn. rewrite !app_nil_r. unfold poll_spec. by rewrite Hn.
  - set (s1 := feed piece (Some <$> pieces) false s).
    pose proof (try_decrypt_head s1 Hk Hp) as H.
    assert (ds_chunk_index s1 = ds_chunk_index s) as Ei by done.
    assert (ds_buffer s1 = ds_buffer s ++ piece) as Eb by done.
    cbn [List.concat]. rewrite app_assoc, <- Eb, <- Ei.
    pose proof (head_frame_app (ds_chunk_index s1) (ds_buffer s1) (List.concat pieces)) as Happ.
    destruct (head_frame (ds_chunk_index s1) (ds_buffer s1)) as [[[p rest]|]|e|] eqn:E; [| | |done].
    + rewrite H. unfold poll_spec. rewrite Happ. split_and!; [done..|].
      exists pieces. split; [|done]. repeat split; done.
    + rewrite H. specialize (IH s1 Hk Hp E). exact IH.
    + destruct H as [s' ->]. unfold poll_spec. by rewrite Happ.
Qed.

Lemma decrypting_poll_spec s pieces :
  left_bytes s pieces ->
  let '(s', r) := decrypting_poll_next s in
  poll_spec s' r (ds_chunk_index s) (ds_buffer s ++ List.concat pieces).
Proof.
  intros (Hk & Hp & Hi & Hd). unfold decrypting_poll_next. pose proof (try_decrypt_head s Hk Hp) as H.
  pose proof (head_frame_app (ds_chunk_index s) (ds_buffer s) (List.concat pieces)) as Happ.
  destruct (head_frame _ (ds_buffer s)) as [[[p rest]|]|e|] eqn:E; [| | |done].
  - rewrite H. unfold poll_spec. rewrite Happ. split_and!; [done..|].
    exists pieces. repeat split; done.
  - rewrite H. destruct (ds_inner_done s) eqn:Ed.
    + rewrite (Hd eq_refl). cbn. rewrite app_nil_r. unfold poll_spec. by rewrite E.
    + rewrite Hi. by apply pull_pieces.
  - destruct H as [s' ->]. unfold poll_spec. by rewrite Happ.
Qed.

Lemma decrypted_decode fuel fuel' s pieces :
  left_bytes s pieces -> length (ds_buffer s ++ List.concat pieces) < fuel ->
  length (ds_buffer s ++ List.concat pieces) <= fuel' ->
  decrypted fuel s = decode fuel' (ds_chunk_index s) (ds_buffer s ++ List.concat pieces).
Proof.
  revert fuel' s pieces. induction fuel as [|fuel IH]; intros fuel' s pieces Hs Hf Hf'; [lia|].
  cbn [decrypted]. pose proof (decrypting_poll_spec s pieces Hs) as H.
  destruct (decrypting_poll_next s) as [s' r]. unfold poll_spec in H.
  destruct (head_frame _ _) as [[[p rest]|]|e|] eqn:E.
  - pose proof (head_frame_shorter _ _ _ _ E) as Hlt. destruct H as (-> & Hi & pieces' & Hs' & Hb).
    destruct fuel' as [|fuel']; [lia|]. cbn [decode]. rewrite E. f_equal. rewrite <- Hb, <- Hi.
    apply IH; rewrite ?Hb; [done|lia|lia].
  - subst r. destruct fuel'; cbn [decode]; rewrite E; by destruct (is_nil _).
  - subst r. destruct fuel'; cbn [decode]; by rewrite E.
  - subst r. destruct fuel'; cbn [decode]; by rewrite E.
Qed.

(** *** Decoding inverts the framing *)

Lemma frame_length_prefix idx chunk rest :
  (Z.of_nat (length chunk) < 2 ^ 32)%Z ->
  Z.to_nat (from_le_bytes (take 4 (frame idx chunk ++ rest))) = length chunk.
Proof.
  intros Hl. destruct (frame_sealed idx chunk Hl) as (ct & -> & _ & _).
  rewrite <- app_assoc, take_app_length' by (by rewrite length_to_le). rewrite from_to_le_small; lia.
Qed.

Lemma head_frame_frame idx chunk rest :
  (Z.of_nat (length chunk) < 2 ^ 32)%Z -> head_frame idx (frame idx chunk ++ rest) = Ok (Some (chunk, rest)).
Proof.
  intros Hl. pose proof (length_frame idx chunk Hl) as Hlen.
  destruct (frame_sealed idx chunk Hl) as (ct & E & Hct & Ho). unfold head_frame.
  rewrite (proj2 (Nat.ltb_ge _ _)) by (rewrite length_app; lia).
  rewrite frame_length_prefix by done. rewrite <- Hlen.
  rewrite (proj2 (Nat.ltb_ge _ _)) by (rewrite length_app; lia).
  rewrite take_app_length, drop_app_length. rewrite E at 1.
  rewrite drop_app_length' by (by rewrite length_to_le).
  unfold decrypt_chunk_in_place. by rewrite Ho.
Qed.

Lemma decode_frames fuel idx chunks :
  Forall (fun c => Z.of_nat (length c) < 2 ^ 32)%Z chunks -> length (frames idx chunks) <= fuel ->
  (0 <= idx)%Z -> (idx + Z.of_nat (length chunks) < 2 ^ 64)%Z ->
  decode fuel idx (frames idx chunks) = {| bs_bytes := List.concat chunks; bs_ok := true |}.
Proof.
  intros Hc. revert fuel idx. induction Hc as [|c chunks Hc _ IH]; intros fuel idx Hf Hpos Hi.
  - by destruct fuel.
  - cbn [frames List.concat length] in *. rewrite length_app, length_frame in Hf by done.
    destruct fuel as [|fuel]; [lia|]. cbn [decode]. rewrite head_frame_frame by done.
    rewrite u64_small by lia. rewrite IH by lia. done.
Qed.

(** The first frame of any bytes is the frame of its chunk. *)
Lemma head_frame_inv idx data p rest :
  head_frame idx data = Ok (Some (p, rest)) ->
  (Z.of_nat (length p) < 2 ^ 32)%Z /\ data = frame idx p ++ rest.
Proof.
  unfold head_frame. destruct (Nat.ltb_spec (length data) 4) as [|H4]; [done|].
  set (n := Z.to_nat _). destruct (Nat.ltb_spec (length data) (4 + n + TAG_LEN)) as [|Hn]; [done|].
  unfold decrypt_chunk_in_place. destruct (open_ _ _ _) as [p'|] eqn:E; [|done]. intros [= -> <-].
  apply open_sealed in E as (c & t & Es & Ec). destruct (seal_length _ _ _ _ _ Es) as [Hc Ht].
  assert (length p = n) as Hp.
  { apply (f_equal length) in Ec. rewrite length_drop, length_take, length_app in Ec. lia. }
  assert (length (take 4 data) = 4) as Hl4 by (rewrite length_take; lia).
  pose proof (from_le_range (take 4 data)) as Hr. rewrite Hl4 in Hr.
  assert (Z.of_nat (length p) = from_le_bytes (take 4 data)) as Hz by (rewrite Hp; unfold n; lia).
  split; [lia|]. unfold frame. rewrite Es, Hz. pose proof (to_from_le (take 4 data)) as Et.
  rewrite Hl4 in Et. rewrite Et, <- Ec.
  rewrite <- (take_drop (4 + n + TAG_LEN) data) at 1. f_equal.
  rewrite <- (take_drop 4 (take (4 + n + TAG_LEN) data)) at 1. f_equal. rewrite take_take. f_equal.
Qed.

Lemma is_nil_true {A : Type} (l : list A) : is_nil l = true -> l = [].
Proof. by destruct l. Qed.

(** Whatever it is given, decoding yields the chunks of a prefix that is
    framed as the format says, and ends without error when that is all. *)
Lemma decode_authentic fuel idx data :
  (0 <= idx)%Z -> (idx + Z.of_nat (length data) < 2 ^ 64)%Z ->
  exists chunks rest,
    Forall (fun c => Z.of_nat (length c) < 2 ^ 32)%Z chunks /\ data = frames idx chunks ++ rest /\
    bs_bytes (decode fuel idx data) = List.concat chunks /\ (bs_ok (decode fuel idx data) = true -> rest = []).
Proof.
  revert idx data. induction fuel as [|fuel IH]; intros idx data Hpos Hi; cbn [decode].
  - exists [], data. destruct (head_frame _ _) as [[[p rest]|]|e|]; split_and!; try done.
    apply is_nil_true.
  - destruct (head_frame _ _) as [[[p rest]|]|e|] eqn:E.
    + pose proof (head_frame_shorter _ _ _ _ E) as Hlt. apply head_frame_inv in E as [Hp ->].
      rewrite u64_small by lia.
      destruct (IH (idx + 1)%Z rest) as (chunks & rest' & Hc & -> & Hb & Hok); [lia|lia|].
      exists (p :: chunks), rest'. cbn. split_and!; [by constructor|by rewrite app_assoc|by rewrite Hb|done].
    + exists [], data. split_and!; try done. apply is_nil_true.
    + by exists [], data.
    + by exists [], data.
Qed.
End frames.
