(* ===== verification/EncryptionStream.v ===== *)
(** The streams of [Encryption].  The encrypting pipeline writes the format
    whatever the order in which its tasks finish and its source delivers, it
    reports what it read, and it ends; the decrypting stream inverts it and
    authenticates what it yields; [decrypt_range] returns the bytes of the
    range. *)

From S2P Require Import Prelude S3Errors BlobRead FsBlob Encryption EncryptionFormat.
From Stdlib Require Import Strings.Byte.

Open Scope outcome_scope.

(** ** The pipeline *)

Section pipeline.
Context `{HA : !Aead, HL : !AeadLaws, HC : !BlobCodec}.
Context (key prefix : list byte) (cs bf : Z) (p : list byte).
Hypotheses (Hcs : (0 < cs < 2 ^ 32)%Z) (Hbf : (1 <= bf)%Z) (Hp : (Z.of_nat (length p) < 2 ^ 63)%Z).

Local Abbreviation n := (Z.to_nat cs).

(** The bytes handed to the tasks so far are whole chunks until the source
    ends; the results of the tasks are the frames not yet emitted. *)
Record es_inv (emitted : list byte) (s : EncryptingStream) : Prop := {
  ei_key : es_key s = key;
  ei_prefix : es_nonce_prefix s = prefix;
  ei_chunk_size : es_chunk_size s = cs;
  ei_batch : es_batch_factor s = bf;
  ei_header : es_header_emitted s = true;
  ei_fresh : es_finalized s = false;
  ei_depth : length (es_pending s) <= PIPELINE_DEPTH;
  ei_size : es_plaintext_size s = Z.of_nat (length (es_hashed s));
  ei_source : exists pieces, es_inner s = Some <$> pieces /\ es_hashed s ++ List.concat pieces = p /\
    (es_inner_done s = true -> pieces = [] /\ es_buffer s = []);
  ei_flushed : exists flushed outs, es_hashed s = flushed ++ es_buffer s /\
    (es_inner_done s = false -> (n | length flushed)%nat) /\
    es_chunk_index s = Z.of_nat (length (chunks_of n flushed)) /\
    es_pending s = Ok <$> outs /\
    emitted ++ List.concat outs = write_header cs ++ frames key prefix 0 (chunks_of n flushed);
}.

Lemma n_pos : 0 < n.
Proof. lia. Qed.

Lemma chunk_count_small flushed rest :
  flushed ++ rest = p -> (Z.of_nat (length (chunks_of n flushed)) <= Z.of_nat (length flushed) < 2 ^ 63)%Z.
Proof.
  intros E. apply (f_equal length) in E. rewrite length_app in E.
  pose proof (concat_chunks_of n flushed n_pos) as Hc. pose proof (chunks_of_bounds n flushed n_pos) as Hb.
  assert (length (chunks_of n flushed) <= length flushed); [|lia].
  rewrite <- Hc at 2. clear Hc. induction Hb as [|c l Hc _ IH]; cbn [List.concat length]; [lia|].
  rewrite length_app. lia.
Qed.

(** A batch that goes to a task: the bytes before it are whole chunks. *)
Lemma flush_result flushed batch rest :
  (n | length flushed)%nat -> flushed ++ batch ++ rest = p ->
  encrypt_batch (length batch) key prefix n (Z.of_nat (length (chunks_of n flushed))) batch =
    Ok (frames key prefix (Z.of_nat (length (chunks_of n flushed))) (chunks_of n batch)) /\
  u64 (Z.of_nat (length (chunks_of n flushed)) + div_ceil (Z.of_nat (length batch)) cs) =
    Z.of_nat (length (chunks_of n (flushed ++ batch))) /\
  frames key prefix 0 (chunks_of n (flushed ++ batch)) =
    frames key prefix 0 (chunks_of n flushed) ++
    frames key prefix (Z.of_nat (length (chunks_of n flushed))) (chunks_of n batch).
Proof.
  intros Hd E. rewrite chunks_of_app by (done || apply n_pos).
  pose proof (length_chunks_of n batch n_pos) as Hl. rewrite Z2Nat.id in Hl by lia.
  pose proof (chunk_count_small (flushed ++ batch) rest ltac:(by rewrite <- app_assoc)) as Hc.
  rewrite chunks_of_app in Hc by (done || apply n_pos). rewrite !length_app in *.
  split_and!.
  - apply encrypt_batch_frames; lia.
  - rewrite <- Hl, u64_small; lia.
  - by rewrite frames_app.
Qed.

Lemma flush_batch_eq s :
  es_buffer s <> [] ->
  flush_batch s =
  {| es_inner := es_inner s; es_key := es_key s; es_nonce_prefix := es_nonce_prefix s;
     es_chunk_size := es_chunk_size s;
     es_chunk_index := u64 (es_chunk_index s + div_ceil (Z.of_nat (length (es_buffer s))) (es_chunk_size s));
     es_buffer := []; es_hashed := es_hashed s; es_plaintext_size := es_plaintext_size s;
     es_header_emitted := es_header_emitted s; es_inner_done := es_inner_done s; es_stats := es_stats s;
     es_pending := es_pending s ++
       [encrypt_batch (length (es_buffer s)) (es_key s) (es_nonce_prefix s) (Z.to_nat (es_chunk_size s))
          (es_chunk_index s) (es_buffer s)];
     es_batch_factor := es_batch_factor s; es_finalized := es_finalized s |}.
Proof. unfold flush_batch. by destruct (es_buffer s). Qed.

(** Flushing hands the whole buffer to a task. *)
Lemma flush_batch_inv emitted s b :
  es_inv emitted s -> es_inner_done s = false -> length (es_pending s) < PIPELINE_DEPTH ->
  (n | length b)%nat -> forall rest, es_buffer s = b ++ rest ->
  es_inv emitted (with_buffer rest (flush_batch (with_buffer b s))) /\
  (b <> [] -> length (es_pending (flush_batch (with_buffer b s))) = S (length (es_pending s))).
Proof.
  intros Hs Hd Hlt Hb rest E. destruct b as [|x b'] eqn:Eb.
  - cbn. split; [|done]. replace (with_buffer rest (with_buffer [] s)) with s; [done|].
    cbn in E. destruct s; cbn in *; by subst.
  - rewrite <- Eb in *. destruct Hs as [Hk Hpre Hc Hbfs Hh Hf Hdep Hsz (pieces & Hi & Hsrc & Hend) (flushed & outs & Hfl & Hdiv & Hidx & Hpend & Hem)].
    assert (flushed ++ b ++ (rest ++ List.concat pieces) = p) as Ep.
    { rewrite <- Hsrc, Hfl, E. by rewrite <- !app_assoc. }
    destruct (flush_result flushed b _ (Hdiv Hd) Ep) as (Hr & Hu & Hfr).
    rewrite flush_batch_eq by (cbn; by rewrite Eb). cbn. rewrite Hk, Hpre, Hc, Hidx, Hr, Hu.
    split; [|cbn; rewrite length_app; simpl; lia].
    constructor; cbn; try done.
    + rewrite length_app. simpl. lia.
    + exists pieces. split_and!; [done..|]. rewrite Hd. done.
    + exists (flushed ++ b), (outs ++ [frames key prefix (Z.of_nat (length (chunks_of n flushed))) (chunks_of n b)]).
      split_and!.
      * rewrite Hfl, E. by rewrite app_assoc.
      * intros _. rewrite length_app. by apply Nat.divide_add_r; [apply Hdiv|].
      * done.
      * by rewrite Hpend, fmap_app.
      * rewrite concat_app. cbn [List.concat]. rewrite app_nil_r, app_assoc, Hem, Hfr. by rewrite <- app_assoc.
Qed.

(** The loop over the full batches keeps the invariant, and stops where the
    condition of the [while] does. *)
Lemma flush_full_inv slots emitted s :
  es_inv emitted s -> es_inner_done s = false ->
  let s' := flush_full slots s in
  es_inv emitted s' /\ es_inner_done s' = false /\ es_inner s' = es_inner s /\
  length (es_pending s') <= length (es_pending s) + slots /\
  (PIPELINE_DEPTH <= length (es_pending s) + slots ->
   length (es_buffer s') < batch_capacity s' \/ PIPELINE_DEPTH <= length (es_pending s')).
Proof.
  revert s. induction slots as [|slots IH]; intros s Hs Hd; cbn [flush_full].
  - split_and!; [done..|lia|]. intros ?. right. lia.
  - destruct (_ && _) eqn:E.
    + apply andb_true_iff in E as [Hcap%Nat.leb_le Hlt%Nat.ltb_lt].
      assert (batch_capacity s = n * Z.to_nat bf) as Ecap.
      { unfold batch_capacity. rewrite (ei_chunk_size _ _ Hs), (ei_batch _ _ Hs). lia. }
      destruct (flush_batch_inv emitted s (take (batch_capacity s) (es_buffer s)) Hs Hd Hlt) with (rest := drop (batch_capacity s) (es_buffer s)) as [Hs' Hlen].
      { rewrite length_take_le by done. exists (Z.to_nat bf). lia. }
      { by rewrite take_drop. }
      assert (take (batch_capacity s) (es_buffer s) <> []) as Hne.
      { intros Hnil. apply (f_equal length) in Hnil. rewrite length_take_le in Hnil by done. cbn in Hnil. lia. }
      specialize (Hlen Hne).
      set (s1 := with_buffer _ (flush_batch _)) in *.
      assert (length (es_pending s1) = S (length (es_pending s))) as Hl1 by exact Hlen.
      assert (es_inner_done s1 = false /\ es_inner s1 = es_inner s) as [Hd1 Hi1].
      { unfold s1, flush_batch. cbn. by destruct (take _ _). }
      destruct (IH s1 Hs' Hd1) as (H1 & H2 & H3 & H4 & H5). rewrite Hl1 in *.
      split_and!; [done..|congruence|lia|]. intros ?. apply H5. lia.
    + split_and!; [done..|lia|]. intros _. apply andb_false_iff in E as [E%Nat.leb_gt|E%Nat.ltb_ge]; [by left|by right].
Qed.

(** *** One iteration *)

(** What is left to do: the items of the source, the tasks in flight, the end
    of the source and the end of the stream. *)
Definition work (s : EncryptingStream) : nat :=
  (if es_header_emitted s then 0 else 1) + 5 * length (es_inner s) + length (es_pending s)
  + (if es_inner_done s then 1 else 3).

Definition blob : list byte := write_header cs ++ frames key prefix 0 (chunks_of n p).

Lemma inv_prefix emitted s : es_inv emitted s -> emitted `prefix_of` blob.
Proof.
  intros [_ _ _ _ _ _ _ _ (pieces & _ & Hsrc & Hend) (flushed & outs & Hfl & Hdiv & _ & _ & Hem)].
  trans (emitted ++ List.concat outs); [by eexists|]. rewrite Hem. unfold blob. apply prefix_app.
  destruct (es_inner_done s).
  - destruct (Hend eq_refl) as [-> Hb]. rewrite Hb, app_nil_r in Hfl. cbn in Hsrc. rewrite app_nil_r in Hsrc.
    by rewrite <- Hfl, Hsrc.
  - rewrite <- Hsrc, Hfl, <- app_assoc, chunks_of_app, frames_app by (apply n_pos || by apply Hdiv). by eexists.
Qed.

Lemma inv_end emitted s :
  es_inv emitted s -> es_inner_done s = true -> es_pending s = [] -> emitted = blob /\ es_hashed s = p.
Proof.
  intros [_ _ _ _ _ _ _ _ (pieces & _ & Hsrc & Hend) (flushed & outs & Hfl & _ & _ & Hpend & Hem)] Hd Hnil.
  destruct (Hend Hd) as [-> Hb]. rewrite Hb, app_nil_r in Hfl. cbn in Hsrc. rewrite app_nil_r in Hsrc.
  rewrite Hnil in Hpend. destruct outs; [|done]. cbn in Hem. rewrite app_nil_r in Hem.
  split; [|done]. by rewrite Hem, <- Hfl, Hsrc.
Qed.

Lemma absorb_inv emitted s piece pieces :
  es_inv emitted s -> es_inner_done s = false -> es_inner s = Some piece :: (Some <$> pieces) ->
  es_inv emitted (absorb_chunk piece (Some <$> pieces) s).
Proof.
  intros [Hk Hpre Hc Hbfs Hh Hf Hdep Hsz (pieces' & Hi & Hsrc & _) (flushed & outs & Hfl & Hdiv & Hidx & Hpend & Hem)] Hd Ein.
  rewrite Hi in Ein. destruct pieces' as [|piece' pieces']; [done|]. cbn in Ein. injection Ein as -> Ein.
  apply (inj (fmap Some)) in Ein as ->. cbn in Hsrc.
  constructor; cbn; try done.
  - rewrite Hsz, length_app. apply (f_equal length) in Hsrc. rewrite !length_app in Hsrc. rewrite u64_small; lia.
  - exists pieces. rewrite <- app_assoc. split_and!; [done..|]. by rewrite Hd.
  - exists flushed, outs. split_and!; try done. by rewrite Hfl, app_assoc.
Qed.

Lemma source_end_inv emitted s :
  es_inv emitted s -> es_inner_done s = false -> es_inner s = [] -> length (es_pending s) < PIPELINE_DEPTH ->
  let s1 := with_inner [] true s in
  let s2 := if negb (is_nil (es_buffer s1)) && (length (es_pending s1) <? PIPELINE_DEPTH) then flush_batch s1 else s1 in
  es_inv emitted s2 /\ es_inner_done s2 = true /\ es_inner s2 = [] /\ length (es_pending s2) <= S (length (es_pending s)) /\
  es_header_emitted s2 = true.
Proof.
  intros [Hk Hpre Hc Hbfs Hh Hf Hdep Hsz (pieces & Hi & Hsrc & _) (flushed & outs & Hfl & Hdiv & Hidx & Hpend & Hem)] Hd Hin Hlt s1 s2.
  rewrite Hin in Hi. destruct pieces; [|done]. cbn in Hsrc. rewrite app_nil_r in Hsrc.
  unfold s2, s1. cbn [with_inner es_buffer es_pending]. rewrite (proj2 (Nat.ltb_lt _ _) Hlt), andb_true_r.
  destruct (es_buffer s) as [|x b'] eqn:Eb; cbn [is_nil negb].
  - split_and!; try done; [|cbn; lia]. constructor; cbn; try done.
    + exists []. cbn. by rewrite app_nil_r.
    + exists flushed, outs. split_and!; try done. by rewrite Eb.
  - rewrite <- Eb in *.
    destruct (flush_result flushed (es_buffer s) [] (Hdiv Hd)) as (Hr & Hu & Hfr); [by rewrite app_nil_r, <- Hfl|].
    rewrite flush_batch_eq by (cbn; by rewrite Eb). cbn. rewrite Hk, Hpre, Hc, Hidx, Hr, Hu.
    split_and!; try done; [|rewrite length_app; simpl; lia]. constructor; cbn; try done.
    + rewrite length_app. simpl. lia.
    + exists []. cbn. by rewrite app_nil_r.
    + exists (flushed ++ es_buffer s), (outs ++ [frames key prefix (Z.of_nat (length (chunks_of n flushed))) (chunks_of n (es_buffer s))]).
      split_and!; try done; [by rewrite app_nil_r|by rewrite Hpend, fmap_app|].
      rewrite concat_app. cbn [List.concat]. rewrite app_nil_r, app_assoc, Hem, Hfr. by rewrite <- app_assoc.
Qed.

(** Reading the source is progress. *)
Lemma source_inv emitted s :
  es_inv emitted s -> es_inner_done s = false -> length (es_pending s) < PIPELINE_DEPTH ->
  match es_inner s with
  | Some chunk :: inner' =>
      let s' := flush_full PIPELINE_DEPTH (absorb_chunk chunk inner' s) in es_inv emitted s' /\ work s' < work s
  | None :: _ => False
  | [] =>
      let s1 := with_inner [] true s in
      let s' := if negb (is_nil (es_buffer s1)) && (length (es_pending s1) <? PIPELINE_DEPTH) then flush_batch s1 else s1 in
      es_inv emitted s' /\ work s' < work s
  end.
Proof.
  intros Hs Hd Hroom. destruct (ei_source _ _ Hs) as (pieces & Hi & _ & _). unfold work.
  rewrite (ei_header _ _ Hs), Hd, Hi. destruct pieces as [|piece pieces]; cbn [fmap list_fmap].
  - destruct (source_end_inv emitted s Hs Hd Hi Hroom) as (H1 & H2 & H3 & H4 & H5). cbn zeta in *.
    split; [done|]. rewrite H2, H3, H5. cbn [length]. lia.
  - cbn in Hi. pose proof (absorb_inv emitted s piece pieces Hs Hd Hi) as Ha.
    destruct (flush_full_inv PIPELINE_DEPTH emitted _ Ha Hd) as (H1 & H2 & H3 & H4 & _). cbn zeta in *.
    split; [done|]. rewrite (ei_header _ _ H1), H2, H3. cbn [absorb_chunk es_inner es_pending] in *.
    unfold PIPELINE_DEPTH in *. cbn [length]. lia.
Qed.

(** An iteration emits the next bytes of the blob, ends the stream when all of
    it is emitted, or does neither; it never undoes work, and with the head
    task and the source ready it does some. *)
Lemma iteration_inv hr ir emitted s :
  es_inv emitted s ->
  let '(s', r) := iteration hr ir s in
  match r with
  | Some (Ready None) =>
      emitted = blob /\ es_stats s' = {| ps_size := Z.of_nat (length p); ps_md5 := Some (md5_digest p) |}
  | Some (Ready (Some i)) => exists out, i = Some out /\ es_inv (emitted ++ out) s' /\ work s' < work s
  | _ => es_inv emitted s' /\ work s' <= work s /\ (hr && ir = true -> work s' < work s)
  end.
Proof.
  intros Hs. unfold iteration. destruct (es_pending s) as [|r pend] eqn:Ep; [|destruct hr].
  2:{ destruct Hs as [Hk Hpre Hc Hbfs Hh Hf Hdep Hsz Hsrc (flushed & outs & Hfl & Hdiv & Hidx & Hpend & Hem)].
      rewrite Ep in *. destruct outs as [|out outs]; [done|]. cbn in Hpend. injection Hpend as -> ->.
      exists out. split; [done|]. split; [|unfold work; cbn; rewrite Ep; simpl; lia].
      constructor; cbn; try done; [simpl in Hdep; lia|].
      exists flushed, outs. split_and!; try done. by rewrite <- app_assoc. }
  all: rewrite <- Ep; destruct (Nat.leb_spec PIPELINE_DEPTH (length (es_pending s))) as [Hfull|Hroom];
    [rewrite Ep in Hfull; (done || (simpl in Hfull; unfold PIPELINE_DEPTH in Hfull; lia))|].
  all: destruct (es_inner_done s) eqn:Ed.
  - rewrite Ep. cbn [is_nil]. destruct (inv_end emitted s Hs Ed Ep) as [-> Hh]. split; [done|].
    unfold finalize_stats. rewrite (ei_fresh _ _ Hs). cbn. by rewrite (ei_size _ _ Hs), Hh.
  - destruct ir; cbn [negb]; [|split_and!; [done|lia|by rewrite andb_false_r]].
    pose proof (source_inv emitted s Hs Ed Hroom) as H.
    destruct (es_inner s) as [|[chunk|] inner']; [|..|done]; destruct H; split_and!; (done || lia).
  - rewrite Ep. cbn. done.
  - destruct ir; cbn [negb]; [|split_and!; [done|lia|done]].
    pose proof (source_inv emitted s Hs Ed Hroom) as H.
    destruct (es_inner s) as [|[chunk|] inner']; [|..|done]; destruct H; split_and!; (done || lia).
Qed.

Definition progress (c : bool * bool) : bool := c.1 && c.2.

Lemma drain_inv schedule emitted s :
  es_inv emitted s ->
  let '(items, ended) := drain schedule s in
  exists outs, items = Some <$> outs /\ emitted ++ List.concat outs `prefix_of` blob /\
    (forall s', ended = Some s' -> emitted ++ List.concat outs = blob /\
       es_stats s' = {| ps_size := Z.of_nat (length p); ps_md5 := Some (md5_digest p) |}) /\
    (work s <= length (List.filter progress schedule) -> is_Some ended).
Proof.
  revert emitted s. induction schedule as [|[hr ir] schedule IH]; intros emitted s Hs; cbn [drain].
  - exists []. cbn. rewrite app_nil_r. split_and!; [done|by eapply inv_prefix|done|].
    unfold work. destruct (es_inner_done s); lia.
  - unfold poll_next. rewrite (ei_header _ _ Hs). cbn [negb].
    pose proof (iteration_inv hr ir emitted s Hs) as H.
    assert (length (List.filter progress ((hr, ir) :: schedule)) =
      (if hr && ir then 1 else 0) + length (List.filter progress schedule)) as Hlen.
    { cbn [List.filter]. unfold progress at 1. cbn [fst snd]. by destruct hr, ir. }
    rewrite Hlen. clear Hlen.
    destruct (iteration hr ir s) as [s' [[[i|]|]|]].
    + destruct H as (out & -> & Hs' & Hw). specialize (IH _ _ Hs').
      destruct (drain schedule s') as [items ended]. destruct IH as (outs & -> & H1 & H2 & H3).
      rewrite <- app_assoc in *. exists (out :: outs). split_and!; [done..|].
      intros Hle. apply H3. destruct (hr && ir); lia.
    + destruct H as [-> Hst]. exists []. cbn. rewrite app_nil_r. split_and!; [done|reflexivity| |done].
      by intros ? [= <-].
    + destruct H as (Hs' & Hw & Hw'). specialize (IH _ _ Hs').
      destruct (drain schedule s') as [items ended]. destruct IH as (outs & -> & H1 & H2 & H3).
      exists outs. split_and!; [done..|]. intros Hle. apply H3. destruct (hr && ir); [specialize (Hw' eq_refl)|]; lia.
    + destruct H as (Hs' & Hw & Hw'). specialize (IH _ _ Hs').
      destruct (drain schedule s') as [items ended]. destruct IH as (outs & -> & H1 & H2 & H3).
      exists outs. split_and!; [done..|]. intros Hle. apply H3. destruct (hr && ir); [specialize (Hw' eq_refl)|]; lia.
Qed.

Lemma start_inv pieces :
  List.concat pieces = p ->
  es_inv (write_header cs) (with_header_emitted (with_batch_factor (Some <$> pieces) key prefix cs bf)).
Proof.
  intros E. constructor; cbn; try done; [lia|unfold PIPELINE_DEPTH; lia| |].
  - by exists pieces.
  - exists [], []. cbn. split_and!; try done. intros _. by exists 0.
Qed.
End pipeline.

(** A stream from its beginning, for any batch factor. *)
Lemma drain_new `{HA : !Aead, HL : !AeadLaws, HC : !BlobCodec} key prefix cs bf pieces schedule :
  (0 < cs < 2 ^ 32)%Z -> (Z.of_nat (length (List.concat pieces)) < 2 ^ 63)%Z ->
  let '(items, ended) := drain schedule (with_batch_factor (Some <$> pieces) key prefix cs bf) in
  exists outs, items = Some <$> outs /\ List.concat outs `prefix_of` blob key prefix cs (List.concat pieces) /\
    (forall s', ended = Some s' -> List.concat outs = blob key prefix cs (List.concat pieces) /\
       es_stats s' = {| ps_size := Z.of_nat (length (List.concat pieces));
                        ps_md5 := Some (md5_digest (List.concat pieces)) |}) /\
    (5 * length pieces + 4 <= length (List.filter progress schedule) -> is_Some ended).
Proof.
  intros Hcs Hp.
  assert (with_batch_factor (Some <$> pieces) key prefix cs bf =
    with_batch_factor (Some <$> pieces) key prefix cs (Z.max bf 1)) as ->.
  { unfold with_batch_factor. f_equal. lia. }
  destruct schedule as [|c schedule].
  - exists []. split_and!; [done|by eexists|done|cbn; lia].
  - pose proof (drain_inv key prefix cs (Z.max bf 1) (List.concat pieces) Hcs ltac:(lia) Hp schedule (write_header cs)
      (with_header_emitted (with_batch_factor (Some <$> pieces) key prefix cs (Z.max bf 1)))) as H.
    specialize (H (start_inv key prefix cs (Z.max bf 1) _ ltac:(lia) pieces eq_refl)).
    assert (length (List.filter progress (c :: schedule)) <= S (length (List.filter progress schedule))) as Hc.
    { cbn [List.filter]. destruct (progress c); cbn [length]; lia. }
    destruct c as [hr ir]. cbn [drain]. unfold poll_next. cbn [with_batch_factor es_header_emitted es_chunk_size negb].
    destruct (drain schedule _) as [items ended]. destruct H as (outs & -> & H1 & H2 & H3).
    exists (write_header cs :: outs). split_and!; [done..|].
    intros Hle. apply H3. unfold work. cbn [with_header_emitted with_batch_factor es_header_emitted es_inner es_pending
      es_inner_done length]. rewrite length_fmap. lia.
Qed.

(** ** Errors of the source *)

Section errors.
Context `{HA : !Aead, HC : !BlobCodec}.

(** An error of the source that was not passed on yet. *)
Definition error_ahead (s : EncryptingStream) : Prop := None ∈ es_inner s /\ es_inner_done s = false.

Lemma flush_batch_source s :
  es_inner (flush_batch s) = es_inner s /\ es_inner_done (flush_batch s) = es_inner_done s.
Proof. unfold flush_batch. by destruct (es_buffer s). Qed.

Lemma flush_full_source slots s :
  es_inner (flush_full slots s) = es_inner s /\ es_inner_done (flush_full slots s) = es_inner_done s.
Proof.
  revert s. induction slots as [|slots IH]; intros s; cbn [flush_full]; [done|].
  case_match; [|done]. destruct (IH (with_buffer (drop (batch_capacity s) (es_buffer s))
    (flush_batch (with_buffer (take (batch_capacity s) (es_buffer s)) s)))) as [-> ->].
  cbn. destruct (flush_batch_source (with_buffer (take (batch_capacity s) (es_buffer s)) s)) as [-> ->]. done.
Qed.

Lemma iteration_error hr ir s :
  error_ahead s ->
  let '(s', r) := iteration hr ir s in
  match r with
  | Some (Ready None) => False
  | Some (Ready (Some i)) => i = None \/ error_ahead s'
  | _ => error_ahead s'
  end.
Proof.
  intros [Hn Hd]. unfold iteration. destruct (es_pending s) as [|r pend]; [|destruct hr; [by right|]].
  all: destruct (_ <=? _); [done|]; rewrite Hd; destruct ir; cbn [negb]; [|done].
  all: destruct (es_inner s) as [|[chunk|] inner']; [by apply not_elem_of_nil in Hn|..|by left].
  all: apply elem_of_cons in Hn as [|Hn]; [done|]; unfold error_ahead.
  all: destruct (flush_full_source PIPELINE_DEPTH (absorb_chunk chunk inner' s)) as [-> ->]; done.
Qed.

(** A stream whose source fails yields an error before it ends. *)
Lemma drain_error schedule s items s' :
  error_ahead s -> drain schedule s = (items, Some s') -> None ∈ items.
Proof.
  revert s items. induction schedule as [|[hr ir] schedule IH]; intros s items Hs; cbn [drain]; [done|].
  unfold poll_next. destruct (es_header_emitted s); cbn [negb].
  - pose proof (iteration_error hr ir s Hs) as H. destruct (iteration hr ir s) as [s1 [[[i|]|]|]]; [|done|by apply IH..].
    destruct (drain schedule s1) as [items1 ended1] eqn:E. intros [= <- ->].
    destruct H as [->|H]; [left|right]. by eapply IH.
  - destruct (drain schedule (with_header_emitted s)) as [items1 ended1] eqn:E. intros [= <- ->].
    right. exact (IH (with_header_emitted s) items1 Hs E).
Qed.
End errors.

(** ** Ranges *)

Section ranges.
Context `{HA : !Aead, HL : !AeadLaws}.
Context (key prefix : list byte) (cs : Z).
Hypothesis Hcs : (0 < cs < 2 ^ 32)%Z.

Local Abbreviation n := (Z.to_nat cs).

(** The part of a chunk that lies in the range. *)
Lemma chunk_slice start last cum chunk :
  (0 <= start <= last)%Z -> (last + 1 < 2 ^ 64)%Z -> (0 <= cum)%Z -> 0 < length chunk ->
  (cum + Z.of_nat (length chunk) < 2 ^ 64)%Z -> (start < cum + Z.of_nat (length chunk))%Z -> (cum <= last)%Z ->
  let slice_start := if (cum <? start)%Z then (start - cum)%Z else 0%Z in
  let slice_end := if (u64 (last + 1) <? cum + Z.of_nat (length chunk))%Z then u64 (u64 (last + 1) - cum)
                   else Z.of_nat (length chunk) in
  (slice_start < slice_end <= Z.of_nat (length chunk))%Z /\
  drop (Z.to_nat slice_start) (take (Z.to_nat slice_end) chunk) = slice start last cum chunk.
Proof.
  intros Hr Hl Hc Hne Hlt H1 H2 slice_start slice_end.
  assert (slice_start = Z.max 0 (start - cum)) as Es.
  { unfold slice_start. destruct (Z.ltb_spec cum start); lia. }
  assert (slice_end = Z.min (last + 1 - cum) (Z.of_nat (length chunk))) as Ee.
  { unfold slice_end. rewrite (u64_small (last + 1)) by lia.
    destruct (Z.ltb_spec (last + 1) (cum + Z.of_nat (length chunk))); [rewrite u64_small|]; lia. }
  rewrite Es, Ee. split; [lia|]. unfold slice. f_equal; [lia|].
  destruct (Z.min_spec (last + 1 - cum) (Z.of_nat (length chunk))) as [[_ ->]|[? ->]]; [done|].
  by rewrite Nat2Z.id, !take_ge by lia.
Qed.

Lemma slice_empty start last cum : slice start last cum [] = [].
Proof. unfold slice. by rewrite take_nil, drop_nil. Qed.

Lemma decrypt_range_frames fuel idx data start last :
  (0 <= idx)%Z -> (idx * cs + Z.of_nat (length data) < 2 ^ 63)%Z ->
  (0 <= start <= last)%Z -> (last + 1 < 2 ^ 64)%Z ->
  length (frames key prefix idx (chunks_of n data)) <= fuel ->
  decrypt_range_from fuel key prefix cs (frames key prefix idx (chunks_of n data)) idx start last =
  Ok (slice start last (idx * cs) data).
Proof.
  intros Hi Hlen Hr Hl. revert data fuel idx Hi Hlen. refine (chunks_ind n _ ltac:(lia) _ _).
  { intros fuel idx _ _ _. rewrite slice_empty. by destruct fuel. }
  intros data Hne IH fuel idx Hi Hlen Hf.
  rewrite chunks_of_cons in * by (done || lia). cbn [frames] in *.
  set (chunk := take n data) in *. set (rest := drop n data) in *.
  assert (data = chunk ++ rest) as Ed by (symmetry; apply take_drop).
  assert (0 < length chunk <= n) as Hc.
  { unfold chunk. rewrite length_take. destruct data; [done|]. simpl. lia. }
  assert (length data = length chunk + length rest) as Hdl by (rewrite Ed, length_app; done).
  assert (length chunk = n \/ rest = []) as Hlast.
  { unfold chunk, rest. destruct (decide (n <= length data)); [left; by apply length_take_le|right; apply drop_ge; lia]. }
  pose proof (head_frame_frame key prefix idx chunk (frames key prefix (idx + 1) (chunks_of n rest)) ltac:(lia)) as Hh.
  pose proof (length_frame key prefix idx chunk ltac:(lia)) as Hlf.
  set (tail := frames key prefix (idx + 1) (chunks_of n rest)) in *.
  rewrite length_app, Hlf in Hf. destruct fuel as [|fuel]; [lia|].
  assert (decrypt_range_from fuel key prefix cs tail (u64 (idx + 1)) start last =
    Ok (slice start last (idx * cs + Z.of_nat (length chunk)) rest)) as Hnext.
  { assert (idx < 2 ^ 63)%Z by nia. rewrite u64_small by lia. destruct Hlast as [Hcn|Hnil].
    - unfold tail. rewrite IH; [|lia|lia|fold tail; lia]. do 2 f_equal. lia.
    - unfold tail. rewrite Hnil, slice_empty. by destruct fuel. }
  rewrite Ed, slice_app.
  unfold head_frame in Hh. cbn [decrypt_range_from].
  destruct (frame key prefix idx chunk ++ tail) as [|x l] eqn:Ex.
  { apply (f_equal length) in Ex. rewrite length_app in Ex. cbn in Ex. lia. }
  rewrite <- Ex in *. clear Ex x l.
  destruct (length (frame key prefix idx chunk ++ tail) <? 4); [done|].
  pose proof (frame_length_prefix key prefix idx chunk tail ltac:(lia)) as Hm.
  rewrite Hm in *. destruct (length (frame key prefix idx chunk ++ tail) <? 4 + length chunk + TAG_LEN); [done|].
  unfold decrypt_chunk, decrypt_chunk_in_place in *.
  destruct (open_ _ _ _) as [q|]; [|done]. cbn [obind] in Hh. injection Hh as Hq _. subst q.
  assert (drop (4 + length chunk + TAG_LEN) (frame key prefix idx chunk ++ tail) = tail) as Htail
    by (rewrite <- Hlf; apply drop_app_length).
  rewrite Htail, Hnext.
  rewrite (u64_small (idx * cs)) by nia. rewrite (u64_small (idx * cs + Z.of_nat (length chunk))) by nia.
  destruct (_ || _) eqn:Eo.
  - rewrite orb_true_iff, Z.leb_le, Z.ltb_lt in Eo. by rewrite (slice_nil _ _ _ chunk) by lia.
  - rewrite orb_false_iff, Z.leb_gt, Z.ltb_ge in Eo. cbn [obind].
    destruct (chunk_slice start last (idx * cs) chunk) as [[H1 H2] H3]; [lia..|].
    cbn zeta in *. rewrite (proj2 (Z.ltb_lt _ _) H1), (proj2 (Z.ltb_ge _ _) H2). by rewrite H3.
Qed.
End ranges.

(** ** Nonces *)

Lemma build_nonce_inj p q i j :
  length p = length q -> (0 <= i < 2 ^ 64)%Z -> (0 <= j < 2 ^ 64)%Z -> build_nonce p i = build_nonce q j -> p = q /\ i = j.
Proof.
  unfold build_nonce, to_be_bytes. intros Hl Hi Hj E. apply app_inj_1 in E as [-> E]; [|done]. split; [done|].
  apply (f_equal (@rev byte)) in E. rewrite !rev_involutive in E. by apply (to_le_inj 8).
Qed.

(** C22. The encrypting pipeline writes the format.  For a source without an
    error, any batch factor and any order in which the tasks finish and the
    source delivers, the stream yields, without an error, a prefix of the header
    and the frames of the plaintext cut into chunks, the i-th chunk sealed under
    the i-th nonce; when it ends, it has yielded all of it, and the statistics
    are the size and the MD5 of the plaintext.  It ends once both the head task
    and the source were ready 5 times per item of the source and 4 times more.
    A source that fails never leads to an end without an error item.  No two
    chunks of a blob, nor of blobs with different nonce prefixes, share a
    nonce. *)
Theorem encrypting_stream_writes_blob `{HA : !Aead, HL : !AeadLaws, HC : !BlobCodec} (key prefix : list byte)
    (cs bf : Z) (source : list (option (list byte))) (schedule : list (bool * bool)) :
  let plain := List.concat (omap Datatypes.id source) in
  let '(items, ended) := drain schedule (with_batch_factor source key prefix cs bf) in
  (0 < cs < 2 ^ 32)%Z -> (Z.of_nat (length plain) < 2 ^ 63)%Z ->
  (source = Some <$> omap Datatypes.id source ->
   (exists outs, items = Some <$> outs /\
     List.concat outs `prefix_of` write_header cs ++ frames key prefix 0 (chunks_of (Z.to_nat cs) plain) /\
     forall s', ended = Some s' ->
       List.concat outs = write_header cs ++ frames key prefix 0 (chunks_of (Z.to_nat cs) plain) /\
       es_stats s' = {| ps_size := Z.of_nat (length plain); ps_md5 := Some (md5_digest plain) |}) /\
   (5 * length source + 4 <= length (List.filter (fun ready => ready.1 && ready.2) schedule) -> is_Some ended)) /\
  (None ∈ source -> is_Some ended -> None ∈ items) /\
  (forall prefix' i j, length prefix' = length prefix -> (0 <= i < 2 ^ 64)%Z -> (0 <= j < 2 ^ 64)%Z ->
     build_nonce prefix i = build_nonce prefix' j -> prefix = prefix' /\ i = j).
Proof.
  intros plain. destruct (drain schedule _) as [items ended] eqn:E. intros Hcs Hlen. split_and!.
  - intros Es. rewrite Es in E. pose proof (drain_new key prefix cs bf (omap Datatypes.id source) schedule Hcs Hlen) as H.
    rewrite E in H. destruct H as (outs & H1 & H2 & H3 & H4). split; [by exists outs|].
    rewrite Es, length_fmap. exact H4.
  - intros Hn [s' ->]. by eapply drain_error; [|exact E].
  - intros prefix' i j Hp. by apply build_nonce_inj.
Qed.
