(* ===== verification/EncryptedBlob.v ===== *)
(** The encrypting blob store: [crates/arca-storage/src/encrypted_blob.rs],
    over the file system store of [FsBlob].

    The data keys and nonces [put] draws at random are arguments, as is the
    schedule of the encrypting stream.  A file is read in the pieces of the
    reader's capacity. *)

From S2P Require Import Prelude S3Errors BlobRead FsBlob Encryption EncryptionFormat.
From Stdlib Require Import Strings.Byte.

Open Scope outcome_scope.

Record EncryptingBlobStore : Type := {
  eb_inner : FsBlobStore;
  eb_master_key : MasterKey;
}.

Definition new_encrypting_store (inner : FsBlobStore) (master_key : MasterKey) : EncryptingBlobStore :=
  {| eb_inner := inner; eb_master_key := master_key |}.

(** [.map_err(|e| ArcaError::Internal(format!("op: {e}")))] *)
Definition internal {A : Type} (op : string) (m : outcome string A) : outcome ArcaError A :=
  match m with
  | Ok a => Ok a
  | Err _ => Err (Internal op)
  | Panic => Panic
  end.

(** [read_exact] from an offset. *)
Definition read_exact (op : string) (offset n : nat) (file : list byte) : outcome ArcaError (list byte) :=
  if length file - offset <? n then Err (Internal op) else Ok (take n (drop offset file)).

Definition payload_size (meta : SidecarMeta) : Z :=
  match sm_compression meta with
  | Some c => bc_compressed_size c
  | None => sm_size meta
  end.

(** The randomness of a [put]. *)
Record PutKeys : Type := {
  pk_dek : list byte;
  pk_nonce_prefix : list byte;
  pk_dek_nonce : list byte;
}.

Section store.
Context `{HC : !BlobCodec, HA : !Aead, HB : !Base64} (s : EncryptingBlobStore).

(** Unlike the one of the inner store, it does not check the id. *)
Definition enc_read_sidecar (blob_id : string) (d : Disk) : outcome ArcaError (option SidecarMeta) :=
  match read_bytes d (sidecar_path (eb_inner s) blob_id) with
  | Ok json =>
      if is_utf8 json then
        match sidecar_from_json json with
        | Some meta => Ok (Some meta)
        | None => Err (Internal "parse sidecar")
        end
      else Err (Internal "read sidecar")
  | Err NotFound => Ok None
  | _ => Err (Internal "read sidecar")
  end.

Definition enc_unwrap_dek (enc_info : BlobEncryptionInfo) : outcome ArcaError (list byte) :=
  match b64_decode (be_encrypted_dek enc_info) with
  | None => Err (Internal "decode encrypted_dek")
  | Some encrypted_dek =>
      match b64_decode (be_dek_nonce enc_info) with
      | None => Err (Internal "decode dek_nonce")
      | Some dek_nonce =>
          match unwrap_dek (eb_master_key s) encrypted_dek dek_nonce with
          | Ok dek => Ok dek
          | Err _ => Err (DecryptionFailed "different master key")
          | Panic => Panic
          end
      end
  end.

(** The steps the reads share: the key, the nonce prefix, the file and the
    chunk size of its header. *)
Definition open_encrypted (blob_id : string) (enc_info : BlobEncryptionInfo) (d : Disk)
  : outcome ArcaError (list byte * list byte * list byte * Z) :=
  let? dek := enc_unwrap_dek enc_info in
  match b64_decode (be_nonce_prefix enc_info) with
  | None => Err (Internal "decode nonce_prefix")
  | Some nonce_prefix =>
      if negb (length nonce_prefix =? 4) then Err (Internal "nonce_prefix must be 4 bytes")
      else
        match open_blob (eb_inner s) d blob_id with
        | None => Err (Internal "open blob")
        | Some file =>
            let? header_buf := read_exact "read header" 0 HEADER_SIZE file in
            let? chunk_size := internal "parse header" (parse_header header_buf) in
            Ok (dek, nonce_prefix, file, chunk_size)
        end
  end.

Definition get_encrypted_full (blob_id : string) (enc_info : BlobEncryptionInfo) (payload_size : Z) (d : Disk)
  : outcome ArcaError BlobGetResult :=
  let? (dek, nonce_prefix, file, _) := open_encrypted blob_id enc_info d in
  let? key := internal "create AEAD key" (make_aead_key dek) in
  let rest := drop HEADER_SIZE file in
  let reader := Some <$> chunks_of (Z.to_nat full_on_disk_chunk_size) rest in
  Ok {| bg_stream := decrypted (S (length rest)) (new_decrypting reader key nonce_prefix);
        bg_content_length := payload_size |}.

(** A buffer of 2^63 bytes or more cannot be allocated. *)
Definition get_encrypted_range (blob_id : string) (enc_info : BlobEncryptionInfo) (payload_size : Z)
    (range : ByteRange) (d : Disk) : outcome ArcaError BlobGetResult :=
  let? (dek, nonce_prefix, file, chunk_size) := open_encrypted blob_id enc_info d in
  let range_start := br_start range in
  let range_end := match br_end range with
                   | Some e => Z.min e (u64 (payload_size - 1))
                   | None => u64 (payload_size - 1)
                   end in
  let content_length := u64 (u64 (range_end - range_start) + 1) in
  let first_chunk := (range_start / chunk_size)%Z in
  let last_chunk := (range_end / chunk_size)%Z in
  let disk_start := chunk_disk_offset first_chunk chunk_size in
  let file_size := Z.of_nat (length file) in
  let disk_end :=
    if (last_chunk <? u64 (u64 (u64 (payload_size + chunk_size) - 1) / chunk_size - 1))%Z
    then chunk_disk_offset (u64 (last_chunk + 1)) chunk_size
    else file_size in
  let read_len := u64 (disk_end - disk_start) in
  if (2 ^ 63 <=? disk_start)%Z then Err (Internal "seek blob")
  else if (2 ^ 63 <=? read_len)%Z then Panic
  else
    let? chunk_data := read_exact "read chunks" (Z.to_nat disk_start) (Z.to_nat read_len) file in
    let? key := internal "create AEAD key" (make_aead_key dek) in
    let? plaintext := internal "decrypt range"
      (decrypt_range key nonce_prefix chunk_size chunk_data first_chunk range_start range_end) in
    Ok {| bg_stream := {| bs_bytes := plaintext; bs_ok := true |}; bg_content_length := content_length |}.

(** The opening of a part of a composite. *)
Definition enc_open_part (d : Disk) (read : PartRead) : outcome ArcaError ByteStream :=
  let part := pr_part read in
  let? result :=
    match cp_encryption part, pr_range read with
    | Some enc, None => get_encrypted_full (cp_blob_id part) enc (cp_plaintext_size part) d
    | Some enc, Some range => get_encrypted_range (cp_blob_id part) enc (cp_plaintext_size part) range d
    | None, range => get (eb_inner s) (cp_blob_id part) range d
    end in
  Ok (bg_stream result).

Definition enc_get_composite (parts : list CompositePart) (range : option ByteRange) (d : Disk)
  : outcome ArcaError BlobGetResult :=
  let '(reads, content_length) := plan_composite_read parts range in
  let? stream := concat_lazily reads (enc_open_part d) in
  Ok {| bg_stream := stream; bg_content_length := content_length |}.

Definition enc_get_known (blob_id : string) (range : option ByteRange) (sidecar : option SidecarMeta) (d : Disk)
  : outcome ArcaError BlobGetResult :=
  match sidecar ≫= sm_composite with
  | Some parts => enc_get_composite parts range d
  | None =>
      match sidecar, sidecar ≫= sm_encryption with
      | Some meta, Some enc_info =>
          match range with
          | None => get_encrypted_full blob_id enc_info (payload_size meta) d
          | Some range => get_encrypted_range blob_id enc_info (payload_size meta) range d
          end
      | _, _ => get_known (open_blob (eb_inner s) d) blob_id range sidecar
      end
  end.

Definition enc_get (blob_id : string) (range : option ByteRange) (d : Disk) : outcome ArcaError BlobGetResult :=
  let? sidecar := enc_read_sidecar blob_id d in
  enc_get_known blob_id range sidecar d.

Open Scope act_scope.

(** A pure step of a call. *)
Definition lift {A : Type} (m : outcome ArcaError A) : act Disk ArcaError A := fun d => (d, m).

(** The body the inner store reads is what the encrypting stream yields; the
    statistics are there when it has ended. *)
Definition enc_put (now : Z) (blob_id : string) (keys : PutKeys) (schedule : list (bool * bool)) (stream : body)
  : act Disk ArcaError BlobPutResult :=
  let! (encrypted_dek, dek_nonce) :=
    lift (internal "wrap DEK" (wrap_dek (eb_master_key s) (pk_dek_nonce keys) (pk_dek keys))) in
  let! key := lift (internal "create AEAD key" (make_aead_key (pk_dek keys))) in
  let enc_stream := new_encrypting stream key (pk_nonce_prefix keys) DEFAULT_CHUNK_SIZE in
  let '(items, ended) := drain schedule enc_stream in
  let! _ := put (eb_inner s) now blob_id items in
  let stats := es_stats (default enc_stream ended) in
  match ps_md5 stats with
  | None => act_fail (Internal "plaintext MD5 not computed")
  | Some md5_bytes =>
      act_ret {| bp_size := ps_size stats; bp_etag := hex_encode md5_bytes;
                 bp_encryption := Some {| be_algorithm := "AES256"; be_encrypted_dek := b64_encode encrypted_dek;
                                          be_dek_nonce := b64_encode dek_nonce;
                                          be_nonce_prefix := b64_encode (pk_nonce_prefix keys);
                                          be_key_id := mk_key_id (eb_master_key s) |};
                 bp_compression := None; bp_composite_parts := None |}
  end.

(** A call whose error is only logged. *)
Definition logged (m : act Disk ArcaError unit) : act Disk ArcaError unit := fun d =>
  match m d with
  | (d', Panic) => (d', Panic)
  | (d', _) => (d', Ok tt)
  end.

Definition enc_delete (blob_id : string) : act Disk ArcaError unit := fun d =>
  let parts :=
    match enc_read_sidecar blob_id d with
    | Ok (Some sidecar) => default [] (sm_composite sidecar)
    | _ => []
    end in
  (let! _ := act_for (fun p => logged (delete (eb_inner s) (cp_blob_id p))) parts in
   delete (eb_inner s) blob_id) d.

Definition enc_delete_assembled (blob_id : string) : act Disk ArcaError unit :=
  delete_assembled (eb_inner s) blob_id.

Definition enc_write_sidecar (now : Z) (uuid blob_id : string) (meta : SidecarMeta) : act Disk ArcaError unit :=
  write_sidecar (eb_inner s) now uuid blob_id meta.

(** The loop over the sidecars of the parts; [None] when the parts have to be
    encrypted again. *)
Fixpoint enc_composite_of (d : Disk) (part_blob_ids : list string) (parts : list CompositePart) (total_size : Z)
    (md5_concat : list byte) : outcome ArcaError (option (list CompositePart * Z * list byte)) :=
  match part_blob_ids with
  | [] => Ok (Some (parts, total_size, md5_concat))
  | blob_id :: ids =>
      (let? sidecar := enc_read_sidecar blob_id d in
       match sidecar with
       | None => Err (Internal "missing sidecar")
       | Some sidecar =>
           match sm_encryption sidecar with
           | None => Ok None
           | Some enc_info =>
               if is_some (sm_compression sidecar) then Ok None
               else
                 match hex_decode (sm_etag sidecar) with
                 | None => Err (Internal "etag is not hex")
                 | Some md5_bytes =>
                     if negb (length md5_bytes =? 16) then Err (Internal "malformed etag")
                     else
                       enc_composite_of d ids
                         (parts ++ [ {| cp_blob_id := blob_id; cp_plaintext_size := sm_size sidecar;
                                        cp_plaintext_etag := sm_etag sidecar; cp_encryption := Some enc_info |} ])
                         (u64 (total_size + sm_size sidecar)) (md5_concat ++ md5_bytes)
                 end
           end
       end)%outcome
  end.

(** The items of a stream, in one piece. *)
Definition stream_items (st : ByteStream) : body := Some (bs_bytes st) :: if bs_ok st then [] else [None].

Definition enc_concat (now : Z) (keys : PutKeys) (schedule : list (bool * bool)) (part_blob_ids : list string)
    (output_blob_id : string) : act Disk ArcaError BlobPutResult := fun d =>
  match enc_composite_of d part_blob_ids [] 0 [] with
  | Err e => (d, Err e)
  | Panic => (d, Panic)
  | Ok None =>
      (let! combined := lift (concat_lazily part_blob_ids (fun blob_id =>
           let? r := enc_get blob_id None d in Ok (bg_stream r))%outcome) in
       enc_put now output_blob_id keys schedule (stream_items combined)) d
  | Ok (Some (composite_parts, total_size, md5_concat)) =>
      (d, Ok {| bp_size := total_size; bp_etag := hex_encode (md5_digest md5_concat);
                bp_encryption := Some {| be_algorithm := "AES256"; be_encrypted_dek := EmptyString;
                                         be_dek_nonce := EmptyString; be_nonce_prefix := EmptyString;
                                         be_key_id := mk_key_id (eb_master_key s) |};
                bp_compression := None; bp_composite_parts := Some composite_parts |})
  end.
End store.
