(* ===== verification/EncryptedBlobSafety.v ===== *)
(** What the encrypting store of [EncryptedBlob] guarantees: an object that was
    put reads back, whole or by range, and so does the assembly of encrypted
    parts; whatever is on the disk, only chunks sealed under the key of the
    blob, in their places, are delivered. *)

From S2P Require Import Prelude S3Errors BlobRead FsBlob FsBlobPaths FsBlobFrame FsBlobSafety.
From S2P Require Import Encryption EncryptionFormat EncryptionStream EncryptedBlob.
From Stdlib Require Import Strings.Byte.

Open Scope outcome_scope.

Section store.
Context `{HC : !BlobCodec, HA : !Aead, HB : !Base64, HL : !AeadLaws} (s : EncryptingBlobStore).

(** ** Encrypted files *)

(** The file of a plaintext under a key. *)
Definition encrypted_bytes (dek prefix : list byte) (cs : Z) (plain : list byte) : list byte :=
  write_header cs ++ frames dek prefix 0 (chunks_of (Z.to_nat cs) plain).

(** The encryption info of a blob gives a key and a nonce prefix. *)
Definition unlocks (enc : BlobEncryptionInfo) (dek prefix : list byte) : Prop :=
  enc_unwrap_dek s enc = Ok dek /\ length dek = 32 /\
  b64_decode (be_nonce_prefix enc) = Some prefix /\ length prefix = 4.

Definition encrypted_file (d : Disk) (id : string) (enc : BlobEncryptionInfo) (plain : list byte) : Prop :=
  exists dek prefix cs, unlocks enc dek prefix /\ (0 < cs < 2 ^ 32)%Z /\
    open_blob (eb_inner s) d id = Some (encrypted_bytes dek prefix cs plain) /\
    (Z.of_nat (length (encrypted_bytes dek prefix cs plain)) < 2 ^ 63)%Z.

Lemma open_encrypted_eq d id enc dek prefix file :
  unlocks enc dek prefix -> open_blob (eb_inner s) d id = Some file ->
  open_encrypted s id enc d =
  (let? header_buf := read_exact "read header" 0 HEADER_SIZE file in
   let? chunk_size := internal "parse header" (parse_header header_buf) in
   Ok (dek, prefix, file, chunk_size)).
Proof.
  intros (Hu & _ & Hp & Hpl) Ho. unfold open_encrypted. rewrite Hu. cbn [obind]. by rewrite Hp, Hpl, Ho.
Qed.

Lemma open_encrypted_file d id enc dek prefix cs plain :
  unlocks enc dek prefix -> (0 < cs < 2 ^ 32)%Z ->
  open_blob (eb_inner s) d id = Some (encrypted_bytes dek prefix cs plain) ->
  open_encrypted s id enc d = Ok (dek, prefix, encrypted_bytes dek prefix cs plain, cs).
Proof.
  intros Hu Hcs Ho. rewrite (open_encrypted_eq d id enc dek prefix _ Hu Ho).
  unfold read_exact, encrypted_bytes. rewrite length_app, length_write_header.
  rewrite (proj2 (Nat.ltb_ge _ _)) by lia. cbn [obind]. rewrite drop_0.
  rewrite (take_app_length' (write_header cs)) by done.
  rewrite <- (app_nil_r (write_header cs)) at 1. by rewrite parse_write_header.
Qed.

Lemma make_key dek : length dek = 32 -> internal "create AEAD key" (make_aead_key dek) = Ok dek.
Proof. intros H. unfold make_aead_key. by rewrite H. Qed.

(** *** The sizes of frames *)

Section sizes.
Context (dek prefix : list byte) (cs : Z).
Hypothesis Hcs : (0 < cs < 2 ^ 32)%Z.

Local Abbreviation n := (Z.to_nat cs).

Lemma length_frames_whole idx k a :
  length a = k * n -> length (frames dek prefix idx (chunks_of n a)) = k * (4 + n + TAG_LEN).
Proof.
  revert idx a. induction k as [|k IH]; intros idx a Ha.
  - by destruct a.
  - assert (a <> []) by (intros ->; cbn in Ha; lia).
    rewrite chunks_of_cons by (done || lia). cbn [frames]. rewrite length_app, length_frame.
    + rewrite (IH _ (drop n a)), length_take_le by (rewrite ?length_drop; lia). lia.
    + rewrite length_take. lia.
Qed.

Lemma length_frames_ge idx a : length a <= length (frames dek prefix idx (chunks_of n a)).
Proof.
  revert a idx. refine (chunks_ind n _ ltac:(lia) _ _); [done|]. intros a Ha IH idx.
  rewrite chunks_of_cons by (done || lia). cbn [frames]. rewrite length_app, length_frame by (rewrite length_take; lia).
  specialize (IH (idx + 1)%Z). rewrite length_drop in IH. rewrite length_take. lia.
Qed.

(** The frames of the chunks after the first [k]. *)
Lemma frames_skip k a b :
  length a = k * n ->
  frames dek prefix 0 (chunks_of n (a ++ b)) =
  frames dek prefix 0 (chunks_of n a) ++ frames dek prefix (Z.of_nat k) (chunks_of n b).
Proof.
  intros Ha. rewrite chunks_of_app by (lia || by exists k). rewrite frames_app. do 2 f_equal.
  rewrite length_chunks_of, Ha by lia. unfold div_ceil. rewrite Z.add_0_l.
  symmetry. apply (Z.div_unique _ _ _ (Z.of_nat n - 1)); lia.
Qed.
End sizes.

Lemma length_encrypted dek prefix cs plain :
  (0 < cs < 2 ^ 32)%Z -> length plain <= length (encrypted_bytes dek prefix cs plain).
Proof.
  intros Hcs. unfold encrypted_bytes. rewrite length_app. pose proof (length_frames_ge dek prefix cs Hcs 0 plain). lia.
Qed.

(** ** Full reads *)

Lemma decrypted_pieces dek prefix cap rest :
  0 < cap ->
  decrypted (S (length rest)) (new_decrypting (Some <$> chunks_of cap rest) dek prefix) =
  decode dek prefix (length rest) 0 rest.
Proof.
  intros Hcap. pose proof (concat_chunks_of cap rest Hcap) as Hc.
  rewrite (decrypted_decode dek prefix (S (length rest)) (length rest) _ (chunks_of cap rest)).
  - cbn. by rewrite Hc.
  - done.
  - cbn. rewrite Hc. lia.
  - cbn. by rewrite Hc.
Qed.

Lemma reader_capacity : 0 < Z.to_nat full_on_disk_chunk_size.
Proof. change full_on_disk_chunk_size with 65556%Z. lia. Qed.

Lemma full_read d id enc plain size :
  encrypted_file d id enc plain ->
  get_encrypted_full s id enc size d =
  Ok {| bg_stream := {| bs_bytes := plain; bs_ok := true |}; bg_content_length := size |}.
Proof.
  intros (dek & prefix & cs & Hu & Hcs & Ho & Hlen). unfold get_encrypted_full.
  rewrite (open_encrypted_file d id enc dek prefix cs plain Hu Hcs Ho). cbn [obind].
  rewrite make_key by apply Hu. cbn [obind]. unfold encrypted_bytes.
  rewrite (drop_app_length' (write_header cs)) by done.
  rewrite decrypted_pieces by apply reader_capacity.
  pose proof (chunks_of_bounds (Z.to_nat cs) plain ltac:(lia)) as Hb.
  pose proof (concat_chunks_of (Z.to_nat cs) plain ltac:(lia)) as Hc.
  unfold encrypted_bytes in Hlen. rewrite length_app in Hlen.
  assert (length (chunks_of (Z.to_nat cs) plain) <= length plain).
  { rewrite <- Hc at 2. clear -Hb. induction Hb as [|c l ? _ IH]; cbn [List.concat length]; [lia|].
    rewrite length_app. lia. }
  pose proof (length_frames_ge dek prefix cs Hcs 0 plain).
  rewrite decode_frames; [by rewrite Hc| |lia|lia|lia].
  eapply Forall_impl; [exact Hb|]. cbn. intros c ?. lia.
Qed.

(** ** Range reads *)

Lemma read_exact_middle op (a b c : list byte) : read_exact op (length a) (length b) (a ++ b ++ c) = Ok b.
Proof.
  unfold read_exact. rewrite !length_app, (proj2 (Nat.ltb_ge _ _)) by lia.
  by rewrite drop_app_length, take_app_length.
Qed.

(** The offset of a chunk is the length of what is before it. *)
Lemma chunk_offset dek prefix cs k a :
  (0 < cs < 2 ^ 32)%Z -> length a = k * Z.to_nat cs ->
  (Z.of_nat (length (write_header cs ++ frames dek prefix 0 (chunks_of (Z.to_nat cs) a))) < 2 ^ 63)%Z ->
  chunk_disk_offset (Z.of_nat k) cs =
  Z.of_nat (length (write_header cs ++ frames dek prefix 0 (chunks_of (Z.to_nat cs) a))).
Proof.
  intros Hcs Ha. rewrite length_app, length_write_header, (length_frames_whole dek prefix cs Hcs 0 k a Ha).
  intros Hlt. unfold chunk_disk_offset, on_disk_chunk_size.
  assert (Z.of_nat k * (4 + cs + Z.of_nat TAG_LEN) = Z.of_nat (k * (4 + Z.to_nat cs + TAG_LEN)))%Z as -> by lia.
  unfold HEADER_SIZE in *. u64_simpl. lia.
Qed.

(** The chunks of a range, first to last: what is before them, what they hold
    and what is after them. *)
Lemma split_chunks cs (plain : list byte) start last :
  (0 < cs < 2 ^ 32)%Z -> (0 <= start <= last)%Z -> (last < Z.of_nat (length plain))%Z ->
  let n := Z.to_nat cs in
  let kf := Z.to_nat (start / cs) in
  let kl := S (Z.to_nat (last / cs)) in
  exists a b c, plain = a ++ b ++ c /\ length a = kf * n /\
    (Z.of_nat (length a) <= start)%Z /\ (c = [] \/ last < Z.of_nat (length a + length b))%Z /\
    ((last / cs <? (Z.of_nat (length plain) - 1) / cs)%Z = true -> length (a ++ b) = kl * n) /\
    ((last / cs <? (Z.of_nat (length plain) - 1) / cs)%Z = false -> c = []).
Proof.
  intros Hcs Hr Hlen n kf kl.
  pose proof (Z.div_le_mono start last cs ltac:(lia) ltac:(lia)) as Hfl.
  pose proof (Z.mul_div_le start cs ltac:(lia)) as Hf.
  pose proof (Z.mul_succ_div_gt last cs ltac:(lia)) as Hl.
  pose proof (Z.div_pos start cs ltac:(lia) ltac:(lia)) as Hf0.
  assert (Z.of_nat (kf * n) = cs * (start / cs))%Z as Ekf
    by (unfold kf, n; rewrite Nat2Z.inj_mul, !Z2Nat.id by lia; lia).
  assert (Z.of_nat (kl * n) = cs * (last / cs + 1))%Z as Ekl
    by (unfold kl, n; rewrite Nat2Z.inj_mul, Nat2Z.inj_succ, !Z2Nat.id by lia; lia).
  assert (kf * n <= kl * n) as Hle by nia.
  exists (take (kf * n) plain), (take (kl * n - kf * n) (drop (kf * n) plain)), (drop (kl * n) plain).
  assert (plain = take (kf * n) plain ++ take (kl * n - kf * n) (drop (kf * n) plain) ++ drop (kl * n) plain) as E.
  { rewrite <- (take_drop (kf * n) plain) at 1. f_equal.
    rewrite <- (take_drop (kl * n - kf * n) (drop (kf * n) plain)) at 1. f_equal. rewrite drop_drop. f_equal. lia. }
  split; [done|]. rewrite !length_app, !length_take, length_drop. split_and!; [lia|lia| | |].
  - destruct (decide (kl * n <= length plain)); [right; lia|left; apply drop_ge; lia].
  - intros Hlt%Z.ltb_lt. pose proof (Z.mul_div_le (Z.of_nat (length plain) - 1) cs ltac:(lia)). nia.
  - intros Hge%Z.ltb_ge. apply drop_ge.
    pose proof (Z.mul_succ_div_gt (Z.of_nat (length plain) - 1) cs ltac:(lia)). nia.
Qed.

Lemma last_chunk_index N cs :
  (0 < N < 2 ^ 63)%Z -> (0 < cs < 2 ^ 32)%Z ->
  u64 (u64 (u64 (N + cs) - 1) / cs - 1) = ((N - 1) / cs)%Z.
Proof.
  intros HN Hcs. rewrite (u64_small (N + cs)), (u64_small (N + cs - 1)) by lia.
  replace (N + cs - 1)%Z with ((N - 1) + 1 * cs)%Z by lia. rewrite Z.div_add by lia.
  pose proof (Z.div_pos (N - 1) cs ltac:(lia) ltac:(lia)).
  pose proof (Z.div_le_upper_bound (N - 1) cs (N - 1) ltac:(lia) ltac:(nia)).
  rewrite u64_small; lia.
Qed.

(** Where the frames of the chunks of a range are in the file. *)
Lemma range_layout dek prefix cs plain start last :
  (0 < cs < 2 ^ 32)%Z -> (0 <= start <= last)%Z -> (last < Z.of_nat (length plain))%Z ->
  (Z.of_nat (length (encrypted_bytes dek prefix cs plain)) < 2 ^ 63)%Z ->
  exists a b c fa fb fc,
    plain = a ++ b ++ c /\ encrypted_bytes dek prefix cs plain = fa ++ fb ++ fc /\
    Z.of_nat (length a) = (start / cs * cs)%Z /\
    (Z.of_nat (length a) <= start)%Z /\ (c = [] \/ last < Z.of_nat (length a + length b))%Z /\
    fb = frames dek prefix (start / cs) (chunks_of (Z.to_nat cs) b) /\
    chunk_disk_offset (start / cs) cs = Z.of_nat (length fa) /\
    (if (last / cs <? (Z.of_nat (length plain) - 1) / cs)%Z
     then chunk_disk_offset (u64 (last / cs + 1)) cs
     else Z.of_nat (length (encrypted_bytes dek prefix cs plain))) = Z.of_nat (length (fa ++ fb)).
Proof.
  intros Hcs Hr Hlen Hfile.
  destruct (split_chunks cs plain start last Hcs Hr Hlen) as (a & b & c & E & Ha & Hs & Hc & Hmid & Hend).
  set (kf := Z.to_nat (start / cs)) in *.
  pose proof (length_encrypted dek prefix cs plain Hcs) as Hple.
  pose proof (Z.div_pos start cs ltac:(lia) ltac:(lia)) as Hf0.
  pose proof (Z.div_pos last cs ltac:(lia) ltac:(lia)) as Hl0.
  pose proof (Z.div_le_upper_bound last cs last ltac:(lia) ltac:(nia)) as Hl1.
  assert (Z.of_nat kf = start / cs)%Z as Ekf by (unfold kf; lia).
  set (fa := write_header cs ++ frames dek prefix 0 (chunks_of (Z.to_nat cs) a)).
  set (fb := frames dek prefix (start / cs) (chunks_of (Z.to_nat cs) b)).
  assert (encrypted_bytes dek prefix cs plain =
    fa ++ frames dek prefix (start / cs) (chunks_of (Z.to_nat cs) (b ++ c))) as Efile.
  { unfold encrypted_bytes, fa. rewrite E. by rewrite (frames_skip dek prefix cs Hcs kf a (b ++ c) Ha), app_assoc, Ekf. }
  assert (chunk_disk_offset (start / cs) cs = Z.of_nat (length fa)) as Estart.
  { rewrite <- Ekf. apply chunk_offset; [done..|]. fold fa. rewrite Efile, length_app in Hfile. lia. }
  assert (Z.of_nat (length a) = start / cs * cs)%Z as Ecum by (rewrite Ha, <- Ekf; lia).
  destruct (_ <? _)%Z.
  - specialize (Hmid eq_refl). assert (Z.to_nat cs | length b)%nat as Hdiv.
    { exists (S (Z.to_nat (last / cs)) - kf). rewrite length_app in Hmid. nia. }
    rewrite chunks_of_app, frames_app in Efile by (lia || done). fold fb in Efile.
    exists a, b, c, fa, fb. eexists. split_and!; try done.
    replace (u64 (last / cs + 1)) with (Z.of_nat (S (Z.to_nat (last / cs)))) by (rewrite u64_small; lia).
    assert (write_header cs ++ frames dek prefix 0 (chunks_of (Z.to_nat cs) (a ++ b)) = fa ++ fb) as Eab.
    { unfold fa, fb. by rewrite (frames_skip dek prefix cs Hcs kf a b Ha), app_assoc, Ekf. }
    rewrite <- Eab. apply chunk_offset; [done..|]. rewrite Eab. rewrite Efile, !length_app in Hfile. rewrite length_app. lia.
  - rewrite (Hend eq_refl), app_nil_r in Efile. exists a, b, c, fa, fb, [].
    rewrite app_nil_r. split_and!; try done. by rewrite Efile.
Qed.

(** The bytes [get_encrypted_range] reads are the frames of the chunks of the
    range, and decrypt to the range. *)
Lemma range_bytes dek prefix cs plain start last :
  (0 < cs < 2 ^ 32)%Z -> (0 <= start <= last)%Z -> (last < Z.of_nat (length plain))%Z ->
  (Z.of_nat (length (encrypted_bytes dek prefix cs plain)) < 2 ^ 63)%Z ->
  let disk_start := chunk_disk_offset (start / cs) cs in
  let disk_end := if (last / cs <? (Z.of_nat (length plain) - 1) / cs)%Z
    then chunk_disk_offset (u64 (last / cs + 1)) cs
    else Z.of_nat (length (encrypted_bytes dek prefix cs plain)) in
  (disk_start < 2 ^ 63)%Z /\ (u64 (disk_end - disk_start) < 2 ^ 63)%Z /\
  exists data,
    read_exact "read chunks" (Z.to_nat disk_start) (Z.to_nat (u64 (disk_end - disk_start)))
      (encrypted_bytes dek prefix cs plain) = Ok data /\
    decrypt_range dek prefix cs data (start / cs) start last = Ok (slice start last 0 plain).
Proof.
  intros Hcs Hr Hlen Hfile disk_start disk_end.
  destruct (range_layout dek prefix cs plain start last Hcs Hr Hlen Hfile)
    as (a & b & c & fa & fb & fc & E & Efile & Ecum & Hs & Hc & Efb & Estart & Eend).
  fold disk_start in Estart. fold disk_end in Eend. rewrite Estart, Eend, length_app.
  pose proof (length_encrypted dek prefix cs plain Hcs) as Hple.
  pose proof (Z.div_pos start cs ltac:(lia) ltac:(lia)) as Hf0.
  rewrite Efile, !length_app in Hfile, Hple.
  replace (Z.of_nat (length fa + length fb) - Z.of_nat (length fa))%Z with (Z.of_nat (length fb)) by lia.
  rewrite u64_small, !Nat2Z.id by lia. split_and!; [lia..|]. exists fb. split; [rewrite Efile; apply read_exact_middle|].
  assert (length plain = length a + (length b + length c)) as Hpl by (by rewrite E, !length_app).
  unfold decrypt_range. rewrite Efb, (decrypt_range_frames dek prefix cs Hcs) by (rewrite <- ?Ecum; (done || lia)).
  rewrite <- Ecum, E, !slice_app, (slice_nil _ _ 0 a) by lia.
  assert (slice start last (0 + Z.of_nat (length a) + Z.of_nat (length b)) c = []) as ->; [|by rewrite app_nil_r].
  destruct Hc as [->|Hc]; [apply slice_empty|apply slice_nil; lia].
Qed.

Lemma range_read d id enc plain range :
  encrypted_file d id enc plain -> in_range (Some range) (Z.of_nat (length plain)) ->
  get_encrypted_range s id enc (Z.of_nat (length plain)) range d =
  Ok {| bg_stream := {| bs_bytes := range_of (Some range) plain; bs_ok := true |};
        bg_content_length := Z.of_nat (length (range_of (Some range) plain)) |}.
Proof.
  intros (dek & prefix & cs & Hu & Hcs & Ho & Hlen) Hr. unfold get_encrypted_range.
  rewrite (open_encrypted_file d id enc dek prefix cs plain Hu Hcs Ho). cbn [obind].
  pose proof (length_encrypted dek prefix cs plain Hcs) as Hple.
  rewrite (range_of_slice (Some range) plain) by (by eapply in_range_ok; [done|lia]).
  cbn [range_bounds fst snd]. cbn in Hr. destruct Hr as [Hst Hen]. set (N := Z.of_nat (length plain)) in *.
  set (range_end := match br_end range with Some e => Z.min e (u64 (N - 1)) | None => u64 (N - 1) end).
  assert (range_end = Z.min (default (saturating_sub N 1) (br_end range)) (saturating_sub N 1)) as Eend.
  { unfold range_end, saturating_sub. u64_simpl. destruct (br_end range); cbn; lia. }
  assert (br_start range <= range_end < N)%Z as Hre.
  { rewrite Eend. unfold saturating_sub. destruct (br_end range) as [e|]; cbn; [specialize (Hen e eq_refl)|]; lia. }
  rewrite <- Eend. clearbody range_end. rewrite last_chunk_index by (done || lia).
  destruct (range_bytes dek prefix cs plain (br_start range) range_end) as (H1 & H2 & data & H3 & H4);
    [done|lia|fold N; lia|done|].
  fold N in H2, H3. rewrite (proj2 (Z.leb_gt _ _) H1), (proj2 (Z.leb_gt _ _) H2), H3. cbn [obind].
  rewrite make_key by apply Hu. cbn [obind]. rewrite H4. cbn [internal obind].
  rewrite length_slice by (fold N; lia). do 2 f_equal. u64_simpl. lia.
Qed.

(** ** Writes *)

Lemma length_encrypted_le dek prefix cs plain :
  (0 < cs < 2 ^ 32)%Z -> length (encrypted_bytes dek prefix cs plain) <= HEADER_SIZE + 21 * length plain.
Proof.
  intros Hcs. unfold encrypted_bytes. rewrite length_app, length_write_header. apply Nat.add_le_mono_l.
  generalize 0%Z. revert plain. refine (chunks_ind (Z.to_nat cs) _ ltac:(lia) _ _); [done|]. intros a Ha IH idx.
  rewrite chunks_of_cons by (done || lia). cbn [frames]. rewrite length_app, length_frame by (rewrite length_take; lia).
  specialize (IH (idx + 1)%Z). rewrite length_drop in IH. rewrite length_take.
  assert (0 < length a) by (destruct a; simpl; [done|lia]). unfold TAG_LEN. lia.
Qed.

(** The key a [put] wraps is the one its encryption info gives back. *)
Lemma wrap_unlocks `{HBL : !Base64Laws} keys edek nonce :
  wrap_dek (eb_master_key s) (pk_dek_nonce keys) (pk_dek keys) = Ok (edek, nonce) ->
  length (pk_dek keys) = 32 -> length (pk_nonce_prefix keys) = 4 -> length (pk_dek_nonce keys) = 12 ->
  unlocks {| be_algorithm := "AES256"; be_encrypted_dek := b64_encode edek; be_dek_nonce := b64_encode nonce;
             be_nonce_prefix := b64_encode (pk_nonce_prefix keys); be_key_id := mk_key_id (eb_master_key s) |}
    (pk_dek keys) (pk_nonce_prefix keys).
Proof.
  intros Hw Hk Hp Hn. unfold wrap_dek in Hw. destruct (Nat.eqb_spec (length (mk_key_bytes (eb_master_key s))) 32); [|done].
  cbn [negb] in Hw. destruct (seal _ _ _) as [[c t]|] eqn:E; [|done]. injection Hw as <- <-.
  unfold unlocks, enc_unwrap_dek, unwrap_dek. cbn. rewrite !b64_roundtrip, Hn, (open_seal _ _ _ _ _ E).
  split_and!; [|done..]. cbn [Nat.eqb negb]. by destruct (Nat.eqb_spec (length (mk_key_bytes (eb_master_key s))) 32).
Qed.

Lemma lift_ok {A : Type} (m : outcome ArcaError A) d d' a : lift m d = (d', Ok a) -> d' = d /\ m = Ok a.
Proof. intros [= <- ->]. done. Qed.

Lemma internal_ok {A : Type} op (m : outcome string A) a : internal op m = Ok a -> m = Ok a.
Proof. by destruct m as [| |]; cbn; intros [= ->]. Qed.

(** A stream without an error item. *)
Lemma no_error_items (l : list (option (list byte))) : None ∉ l -> l = Some <$> omap Datatypes.id l.
Proof.
  induction l as [|[x|] l IH]; intros Hn; [done|..].
  - cbn. f_equal. apply IH. intros ?. apply Hn. by right.
  - destruct Hn. by left.
Qed.

Lemma none_not_some (l : list (list byte)) : None ∉ (Some <$> l).
Proof. intros (x & ? & _)%list_elem_of_fmap. done. Qed.

(** An encrypted put that succeeds read its stream to the end without an
    error, and published its plaintext under the keys it drew. *)
Lemma enc_put_ok `{HBL : !Base64Laws} now id keys schedule stream d d' r :
  let plain := List.concat (omap Datatypes.id stream) in
  length (pk_nonce_prefix keys) = 4 -> length (pk_dek_nonce keys) = 12 -> (Z.of_nat (length plain) < 2 ^ 63)%Z ->
  enc_put s now id keys schedule stream d = (d', Ok r) ->
  (None ∉ stream) /\
  published (eb_inner s) id (encrypted_bytes (pk_dek keys) (pk_nonce_prefix keys) DEFAULT_CHUNK_SIZE plain) now d d' /\
  bp_size r = Z.of_nat (length plain) /\ bp_etag r = hex_encode (md5_digest plain) /\
  bp_compression r = None /\ bp_composite_parts r = None /\
  exists enc, bp_encryption r = Some enc /\ unlocks enc (pk_dek keys) (pk_nonce_prefix keys).
Proof.
  intros plain Hpl Hnl Hlen Hput. unfold enc_put in Hput.
  apply act_bind_ok in Hput as (d0 & [edek nonce] & [-> Hw%internal_ok]%lift_ok & Hput).
  apply act_bind_ok in Hput as (d1 & key & [-> Hk%internal_ok]%lift_ok & Hput).
  unfold make_aead_key in Hk. destruct (Nat.eqb_spec (length (pk_dek keys)) 32) as [Hkl|]; [|done]. injection Hk as <-.
  unfold new_encrypting in Hput.
  destruct (drain schedule _) as [items ended] eqn:E.
  apply act_bind_ok in Hput as (d2 & pr & (outs & -> & Hpub & _)%blob_put_ok & Hput).
  destruct ended as [s'|]; [|done]. cbn [default from_option Datatypes.id] in Hput.
  assert (None ∉ stream) as Hnone.
  { intros Hin. apply (none_not_some outs). eapply drain_error; [|exact E]. done. }
  apply no_error_items in Hnone as Es. rewrite Es in E.
  pose proof (drain_new (pk_dek keys) (pk_nonce_prefix keys) DEFAULT_CHUNK_SIZE DEFAULT_BATCH_FACTOR
    (omap Datatypes.id stream) schedule ltac:(done) Hlen) as H.
  rewrite E in H. destruct H as (outs' & Ho & _ & Hend & _). apply (inj (fmap Some)) in Ho as <-.
  destruct (Hend s' eq_refl) as [Hblob Hst]. rewrite Hst in Hput. cbn [ps_md5] in Hput. injection Hput as <- <-.
  split_and!; try done.
  - rewrite Hblob in Hpub. exact Hpub.
  - eexists. split; [done|]. by apply wrap_unlocks.
Qed.

(** ** Reading back *)

Lemma enc_read_sidecar_ok id d meta :
  fs_read_sidecar (eb_inner s) id d = Ok meta -> enc_read_sidecar s id d = Ok meta.
Proof.
  unfold fs_read_sidecar, enc_read_sidecar, check_blob_id. by destruct (is_valid id).
Qed.

(** An object encrypted by itself. *)
Lemma enc_get_file id meta enc plain range d :
  enc_read_sidecar s id d = Ok (Some meta) -> sm_composite meta = None -> sm_encryption meta = Some enc ->
  payload_size meta = Z.of_nat (length plain) -> encrypted_file d id enc plain ->
  in_range range (Z.of_nat (length plain)) ->
  enc_get s id range d =
  Ok {| bg_stream := {| bs_bytes := range_of range plain; bs_ok := true |};
        bg_content_length := Z.of_nat (length (range_of range plain)) |}.
Proof.
  intros Hs Hc He Hp Hf Hr. unfold enc_get, enc_get_known. rewrite Hs. cbn [obind mbind option_bind].
  rewrite Hc, He, Hp. destruct range as [r|]; [by apply range_read|by apply full_read].
Qed.

(** *** Composites *)

(** A part whose file is encrypted under the info the composite carries. *)
Definition encrypted_part (d : Disk) (p : CompositePart) (c : list byte) : Prop :=
  cp_plaintext_size p = Z.of_nat (length c) /\
  exists enc, cp_encryption p = Some enc /\ encrypted_file d (cp_blob_id p) enc c.

#[export] Instance encrypted_part_reader d : PartReader (enc_open_part s d) (encrypted_part d).
Proof.
  split.
  - by intros p c [? _].
  - intros p c (Hsz & enc & He & Hf) _. unfold enc_open_part. cbn [pr_part pr_range]. rewrite He.
    by rewrite (full_read d _ _ c).
  - intros p c start last (Hsz & enc & He & Hf) Hr Hl. unfold enc_open_part. cbn [pr_part pr_range]. rewrite He, Hsz.
    rewrite (range_read d _ _ c); [|done|].
    + cbn [obind bg_stream]. do 2 f_equal. unfold range_of, slice. cbn. by rewrite !Z.sub_0_r.
    + destruct Hf as (dek & prefix & cs & _ & Hcs & _ & Hlen). pose proof (length_encrypted dek prefix cs c Hcs).
      cbn. split; [lia|]. intros e [= <-]. lia.
Qed.

Lemma enc_get_parts id meta parts contents range d :
  enc_read_sidecar s id d = Ok (Some meta) -> sm_composite meta = Some parts ->
  Forall2 (encrypted_part d) parts contents -> (Z.of_nat (length (List.concat contents)) < 2 ^ 64)%Z -> range_ok range ->
  enc_get s id range d =
  Ok {| bg_stream := {| bs_bytes := range_of range (List.concat contents); bs_ok := true |};
        bg_content_length := Z.of_nat (length (range_of range (List.concat contents))) |}.
Proof.
  intros Hs Hc Hp Hlen Hr. unfold enc_get, enc_get_known. rewrite Hs. cbn [obind mbind option_bind]. rewrite Hc.
  unfold enc_get_composite.
  pose proof (composite_read (enc_open_part s d) (encrypted_part d) parts contents range Hp Hlen Hr) as H.
  destruct (plan_composite_read parts range) as [reads len]. by destruct H as [-> ->].
Qed.

(** A stored part, encrypted or not. *)
Definition stored_part (d : Disk) (id : string) (c : list byte) : Prop :=
  exists meta, enc_read_sidecar s id d = Ok (Some meta) /\ sm_composite meta = None /\
    sm_compression meta = None /\ sm_size meta = Z.of_nat (length c) /\
    match sm_encryption meta with
    | Some enc => encrypted_file d id enc c
    | None => open_blob (eb_inner s) d id = Some c /\ (Z.of_nat (length c) < 2 ^ 63)%Z
    end.

Lemma enc_composite_of_ok d ids contents parts total md5 parts' total' md5' :
  Forall2 (stored_part d) ids contents -> u64 total = total ->
  enc_composite_of s d ids parts total md5 = Ok (Some (parts', total', md5')) ->
  total' = u64 (total + Z.of_nat (length (List.concat contents))) /\
  exists new, parts' = parts ++ new /\ Forall2 (encrypted_part d) new contents /\ cp_blob_id <$> new = ids.
Proof.
  intros Hf. revert parts total md5. induction Hf as [|id c ids contents Hc Hf IH]; intros parts total md5 Ht; cbn [enc_composite_of].
  - intros [= <- <- <-]. cbn. rewrite Z.add_0_r. split; [done|]. exists []. by rewrite app_nil_r.
  - destruct Hc as (meta & Hs & _ & Hz & Hsz & Hfile). rewrite Hs. cbn [obind].
    destruct (sm_encryption meta) as [enc|]; [|done]. rewrite Hz. cbn [is_some].
    destruct (hex_decode _) as [b|]; [|done]. destruct (Nat.eqb _ _); cbn [negb]; [|done]. intros Hrest.
    apply IH in Hrest as (-> & new & -> & Hnew & Hids); [|apply Zmod_mod]. split.
    + rewrite Hsz. cbn. rewrite length_app. unfold u64. rewrite Zplus_mod_idemp_l. f_equal. lia.
    + eexists (_ :: new). rewrite <- app_assoc. split_and!; [done| |cbn; by f_equal].
      constructor; [|done]. split; [done|]. by exists enc.
Qed.

Lemma stored_part_reads d id c :
  stored_part d id c ->
  enc_get s id None d = Ok {| bg_stream := {| bs_bytes := c; bs_ok := true |}; bg_content_length := Z.of_nat (length c) |}.
Proof.
  intros (meta & Hs & Hc & Hz & Hsz & Hfile). destruct (sm_encryption meta) as [enc|] eqn:He.
  - apply (enc_get_file id meta enc c None); [done..| |done|done]. unfold payload_size. by rewrite Hz.
  - unfold enc_get, enc_get_known. rewrite Hs. cbn [obind mbind option_bind]. rewrite Hc, He. unfold get_known.
    cbn [mbind option_bind]. rewrite Hc. destruct Hfile as [Ho Hl]. by apply (read_file_exact _ _ _ None).
Qed.

(** The parts in order, opened one at a time. *)
Lemma stored_parts_stream d ids contents :
  Forall2 (stored_part d) ids contents ->
  concat_lazily ids (fun id => let? r := enc_get s id None d in Ok (bg_stream r)) =
  Ok {| bs_bytes := List.concat contents; bs_ok := true |}.
Proof.
  intros Hf. rewrite concat_lazily_ok.
  - f_equal. induction Hf as [|id c ids contents Hc _ IH]; [done|]. cbn [rest_stream List.concat].
    rewrite (stored_part_reads d id c Hc). cbn [obind bg_stream]. by rewrite IH.
  - induction Hf as [|id c ids contents Hc _ IH]; constructor; [|done]. by rewrite (stored_part_reads d id c Hc).
Qed.

(** A blob that was published, and its sidecar. *)
Lemma published_then_sidecar `{HBL : !Base64Laws, HCL : !BlobCodecLaws} now now' uuid id enc keys plain meta d d1 d2 :
  (forall p, of_blob (eb_inner s) id p -> dk_fault d OpRead p = false) -> (Z.of_nat (length plain) < 2 ^ 58)%Z ->
  published (eb_inner s) id (encrypted_bytes (pk_dek keys) (pk_nonce_prefix keys) DEFAULT_CHUNK_SIZE plain) now d d1 ->
  unlocks enc (pk_dek keys) (pk_nonce_prefix keys) ->
  enc_write_sidecar s now' uuid id meta d1 = (d2, Ok tt) ->
  enc_read_sidecar s id d2 = Ok (Some meta) /\ encrypted_file d2 id enc plain.
Proof.
  intros Hft Hlen Hpub Hu Hside.
  apply published_reads in Hpub as [Hft1 Hopen1]; [|apply Hft; by left].
  apply write_sidecar_reads in Hside as [Hread Hopen]; [|try rewrite Hft1; (done || (apply Hft; by right))..].
  split; [by apply enc_read_sidecar_ok|]. do 3 eexists. split; [exact Hu|]. split; [|split; [by rewrite Hopen|]].
  - done.
  - pose proof (length_encrypted_le (pk_dek keys) (pk_nonce_prefix keys) DEFAULT_CHUNK_SIZE plain ltac:(done)).
    unfold HEADER_SIZE in *. lia.
Qed.

Lemma stream_items_bytes bytes :
  List.concat (omap Datatypes.id (stream_items {| bs_bytes := bytes; bs_ok := true |})) = bytes.
Proof. cbn. apply app_nil_r. Qed.
End store.

(** C9. What was put encrypted reads back.  When an encrypted [put] returns and
    the sidecar that carries its result is written, the reported size and ETag
    are those of the plaintext the stream delivered, the stream had no error,
    and the whole object and any range that starts inside it are read back
    exactly, for any master key and any random keys, however the pipeline was
    scheduled. *)
Theorem encrypted_put_reads_back `{HC : !BlobCodec, HA : !Aead, HB : !Base64, HL : !AeadLaws, HBL : !Base64Laws,
      HCL : !BlobCodecLaws} (s : EncryptingBlobStore)
    (id uuid : string) (keys : PutKeys) (schedule : list (bool * bool)) (stream : list (option (list byte)))
    (now now' : Z) (r : BlobPutResult) (meta : SidecarMeta) (range : option ByteRange) (d d1 d2 : Disk) :
  let plain := List.concat (omap Datatypes.id stream) in
  length (pk_nonce_prefix keys) = 4 -> length (pk_dek_nonce keys) = 12 -> (Z.of_nat (length plain) < 2 ^ 58)%Z ->
  (forall p, of_blob (eb_inner s) id p -> dk_fault d OpRead p = false) ->
  enc_put s now id keys schedule stream d = (d1, Ok r) ->
  enc_write_sidecar s now' uuid id meta d1 = (d2, Ok tt) ->
  sm_encryption meta = bp_encryption r -> sm_compression meta = bp_compression r ->
  sm_composite meta = bp_composite_parts r -> sm_size meta = bp_size r ->
  in_range range (Z.of_nat (length plain)) ->
  (None ∉ stream) /\ bp_size r = Z.of_nat (length plain) /\ bp_etag r = hex_encode (md5_digest plain) /\
  enc_get s id range d2 =
  Ok {| bg_stream := {| bs_bytes := range_of range plain; bs_ok := true |};
        bg_content_length := Z.of_nat (length (range_of range plain)) |}.
Proof.
  intros plain Hpl Hnl Hlen Hft Hput Hside He Hz Hc Hsz Hr.
  apply enc_put_ok in Hput as (Hnone & Hpub & Hps & Hetag & Hrz & Hrc & enc & Hre & Hu); [|done..|fold plain; lia].
  split_and!; try done.
  destruct (published_then_sidecar s now now' uuid id enc keys plain meta d d1 d2) as [Hread Hf]; [done..|].
  apply (enc_get_file s id meta enc); try congruence. unfold payload_size. by rewrite Hz, Hrz, Hsz.
Qed.

(** Encrypted parts assemble into their concatenation.  For stored parts,
    encrypted or not, a [concat] that succeeds, whether it makes a composite of
    the encrypted parts or encrypts them again, followed by the sidecar that
    carries its result, reports the total size, and any range of the output
    that starts inside it is read back exactly. *)
Theorem encrypted_parts_read_back `{HC : !BlobCodec, HA : !Aead, HB : !Base64, HL : !AeadLaws, HBL : !Base64Laws,
      HCL : !BlobCodecLaws} (s : EncryptingBlobStore)
    (ids : list string) (out uuid : string) (contents : list (list byte)) (keys : PutKeys)
    (schedule : list (bool * bool)) (now now' : Z) (r : BlobPutResult) (meta : SidecarMeta)
    (range : option ByteRange) (d d1 d2 : Disk) :
  let data := List.concat contents in
  Forall2 (stored_part s d) ids contents -> (Z.of_nat (length data) < 2 ^ 58)%Z ->
  length (pk_nonce_prefix keys) = 4 -> length (pk_dek_nonce keys) = 12 ->
  (forall p, of_blob (eb_inner s) out p -> dk_fault d OpRead p = false) ->
  enc_concat s now keys schedule ids out d = (d1, Ok r) ->
  enc_write_sidecar s now' uuid out meta d1 = (d2, Ok tt) ->
  sm_encryption meta = bp_encryption r -> sm_compression meta = bp_compression r ->
  sm_composite meta = bp_composite_parts r -> sm_size meta = bp_size r ->
  in_range range (Z.of_nat (length data)) ->
  bp_size r = Z.of_nat (length data) /\
  enc_get s out range d2 =
  Ok {| bg_stream := {| bs_bytes := range_of range data; bs_ok := true |};
        bg_content_length := Z.of_nat (length (range_of range data)) |}.
Proof.
  intros data Hparts Hlen Hpl Hnl Hft Hcat Hside He Hz Hc Hsz Hr. unfold enc_concat in Hcat.
  destruct (enc_composite_of s d ids [] 0 []) as [[[[parts total] md5]|]| |] eqn:E; [| |done..].
  - injection Hcat as <- <-. cbn [bp_size bp_composite_parts] in *.
    apply (enc_composite_of_ok s d ids contents) in E as (-> & new & -> & Hnew & _); [|done..].
    split; [apply u64_small; fold data; lia|].
    apply write_sidecar_reads in Hside as [Hread Hopen]; [|(done || (apply Hft; by right))..].
    apply (enc_get_parts s out meta new); [by apply enc_read_sidecar_ok|done| |fold data; lia|by eapply in_range_ok; [done|lia]].
    eapply Forall2_impl; [exact Hnew|]. intros p c (Hp & enc & Hpe & dek & prefix & cs & Hu & Hcs & Ho & Hl).
    split; [done|]. exists enc. split; [done|]. exists dek, prefix, cs. by rewrite Hopen.
  - rewrite (stored_parts_stream s d ids contents Hparts) in Hcat.
    apply act_bind_ok in Hcat as (d0 & st & [-> [= <-]]%lift_ok & Hput).
    apply enc_put_ok in Hput as (_ & Hpub & Hps & _ & Hrz & Hrc & enc & Hre & Hu);
      [|done..|rewrite stream_items_bytes; fold data; lia].
    rewrite stream_items_bytes in Hpub, Hps. fold data in Hpub, Hps. split; [done|].
    destruct (published_then_sidecar s now now' uuid out enc keys data meta d d1 d2) as [Hread Hf]; [done..|].
    apply (enc_get_file s out meta enc); try congruence. unfold payload_size. by rewrite Hz, Hrz, Hsz.
Qed.

(** C14. Only authentic plaintext is delivered.  Whatever the bytes of the file
    and the sidecar are, a full read of an encrypted blob delivers the plaintext
    of chunks that are sealed under the key the master key unwraps, the i-th
    under the i-th nonce of the blob, and that are found in this order at the
    start of the file, after a valid header; it ends without an error only when
    there is nothing else in the file. *)
Theorem encrypted_reads_authentic `{HC : !BlobCodec, HA : !Aead, HB : !Base64, HL : !AeadLaws} (s : EncryptingBlobStore)
    (id : string) (enc : BlobEncryptionInfo) (size : Z) (d : Disk) (r : BlobGetResult) (file : list byte) :
  open_blob (eb_inner s) d id = Some file -> (Z.of_nat (length file) < 2 ^ 63)%Z ->
  get_encrypted_full s id enc size d = Ok r ->
  exists dek prefix cs chunks rest,
    unlocks s enc dek prefix /\ (0 < cs < 2 ^ 32)%Z /\
    file = write_header cs ++ frames dek prefix 0 chunks ++ rest /\
    bs_bytes (bg_stream r) = List.concat chunks /\ (bs_ok (bg_stream r) = true -> rest = []).
Proof.
  intros Ho Hlen. unfold get_encrypted_full, open_encrypted.
  intros ([[[dek prefix] file'] cs] & (dek' & Hu & Hopen)%obind_ok & (key & Hk%internal_ok & Hres)%obind_ok)%obind_ok.
  rewrite decrypted_pieces in Hres by apply reader_capacity. injection Hres as <-.
  destruct (b64_decode _) as [prefix'|] eqn:Ep; [|done]. destruct (Nat.eqb_spec (length prefix') 4) as [Hpl|]; [cbn [negb] in Hopen|done].
  rewrite Ho in Hopen. apply obind_ok in Hopen as (hdr & Hh & (cs' & [Hcs Hhdr]%internal_ok%parse_header_ok & [= -> -> -> ->])%obind_ok).
  unfold make_aead_key in Hk. destruct (Nat.eqb_spec (length dek) 32) as [Hkl|]; [|done]. injection Hk as <-.
  unfold read_exact in Hh. destruct (_ <? _) eqn:El; [done|]. injection Hh as <-. rewrite drop_0 in Hhdr.
  rewrite take_take, Nat.min_id in Hhdr.
  cbn [bg_stream].
  destruct (decode_authentic dek prefix (length (drop HEADER_SIZE file')) 0 (drop HEADER_SIZE file'))
    as (chunks & rest & _ & Hd & Hb & Hok); [lia|rewrite length_drop; lia|].
  exists dek, prefix, cs, chunks, rest. split_and!; try done; [lia..|].
  rewrite <- Hd, <- Hhdr. by rewrite take_drop.
Qed.
