(* ===== verification/EncryptionRuns.v ===== *)
(** Runs of the encrypting store on concrete disks, under a cipher that keeps
    no secret but satisfies the laws of [Encryption]. *)

From S2P Require Import Prelude S3Errors BlobRead FsBlob FsBlobPaths FsBlobFrame FsBlobSafety FsBlobRuns.
From S2P Require Import Encryption EncryptionFormat EncryptionStream EncryptedBlob EncryptedBlobSafety.
From Stdlib Require Import Strings.Byte.

(** ** A cipher *)

Definition sample_tag (key nonce : list byte) : list byte :=
  take 16 (take 12 nonce ++ take 4 key ++ repeat x00 16).

Definition sample_open (key nonce ct : list byte) : option (list byte) :=
  let n := length ct - 16 in
  if (16 <=? length ct) && bool_decide (drop n ct = sample_tag key nonce) then Some (take n ct) else None.

#[export] Instance sample_aead : Aead := {
  seal key nonce p := Some (p, sample_tag key nonce);
  open_ := sample_open;
  sha256 b := b;
}.

Lemma length_sample_tag key nonce : length (sample_tag key nonce) = 16.
Proof. unfold sample_tag. rewrite length_take, !length_app, repeat_length. lia. Qed.

#[export] Instance sample_aead_laws : AeadLaws.
Proof.
  split.
  - by eexists.
  - intros key nonce p c t [= <- <-]. split; [done|apply length_sample_tag].
  - intros key nonce p c t [= <- <-]. cbn. unfold sample_open. rewrite length_app, length_sample_tag.
    replace (length p + 16 - 16) with (length p) by lia. rewrite take_app_length, drop_app_length.
    rewrite bool_decide_eq_true_2, (proj2 (Nat.leb_le _ _)) by (done || lia). done.
  - intros key nonce ct p. cbn. unfold sample_open. destruct (_ && _) eqn:E; [|done]. intros [= <-].
    apply andb_true_iff in E as [_ E%bool_decide_eq_true_1]. do 2 eexists. split; [done|].
    rewrite <- E. by rewrite take_drop.
Qed.

#[export] Instance sample_base64 : Base64 := { b64_encode := to_hex; b64_decode := of_hex }.
#[export] Instance sample_base64_laws : Base64Laws.
Proof. split. apply of_hex_to_hex. Qed.

Definition sample_master : MasterKey := {| mk_key_bytes := repeat x05 32; mk_key_id := "05050505" |}.
Definition estore : EncryptingBlobStore := new_encrypting_store store0 sample_master.
Definition sample_keys : PutKeys :=
  {| pk_dek := repeat x07 32; pk_nonce_prefix := [x01; x02; x03; x04]; pk_dek_nonce := repeat x09 12 |}.

(** A schedule in which the tasks lag behind the source. *)
Fixpoint lagging (n : nat) : list (bool * bool) :=
  match n with 0 => [] | S n' => (false, true) :: (true, false) :: (true, true) :: lagging n' end.

(** ** The stream *)

Lemma encrypting_stream_writes_blob_witness :
  exists outs s', drain (lagging 14) (with_batch_factor [Some [x61; x62; x63]; Some [x64; x65]] [x07] [x01] 2 1) =
    (Some <$> outs, Some s') /\
  List.concat outs = write_header 2 ++ frames [x07] [x01] 0 (chunks_of 2 [x61; x62; x63; x64; x65]).
Proof.
  pose proof (encrypting_stream_writes_blob [x07] [x01] 2 1 [Some [x61; x62; x63]; Some [x64; x65]] (lagging 14)) as H.
  destruct (drain (lagging 14) _) as [items ended]. destruct H as [H _]; [done..|].
  destruct H as [(outs & -> & _ & Hend) Hterm]; [done|].
  destruct Hterm as [s' ->]; [vm_compute; lia|]. exists outs, s'. split; [done|].
  destruct (Hend s' eq_refl) as [Hb _]. exact Hb.
Defined.

(** ** Put and get *)

Definition esource : list (option (list byte)) := [Some [x61; x62; x63]; Some []; Some [x64; x65]].

Definition edisk1 : Disk := (enc_put estore 1 id_a sample_keys (lagging 20) esource empty_disk).1.
Definition eresult : BlobPutResult :=
  match (enc_put estore 1 id_a sample_keys (lagging 20) esource empty_disk).2 with
  | Ok r => r | _ => plain_result 0 EmptyString end.
Definition emeta (r : BlobPutResult) : SidecarMeta :=
  {| sm_bucket := "bucket"; sm_key := "key"; sm_size := bp_size r; sm_etag := bp_etag r; sm_content_type := None;
     sm_last_modified := "now"; sm_metadata := ∅; sm_encryption := bp_encryption r;
     sm_compression := bp_compression r; sm_version_id := None; sm_composite := bp_composite_parts r |}.
Definition edisk2 : Disk := (enc_write_sidecar estore 2 "u1" id_a (emeta eresult) edisk1).1.

Lemma pair_ok {A E B : Type} (x : A * outcome E B) (b0 : B) :
  is_ok x.2 = true -> x = (x.1, Ok (match x.2 with Ok b => b | _ => b0 end)).
Proof. by destruct x as [? []]. Qed.

Lemma put_run_ok : is_ok (enc_put estore 1 id_a sample_keys (lagging 20) esource empty_disk).2 = true.
Proof. vm_compute. reflexivity. Qed.

Lemma sidecar_run_ok : (enc_write_sidecar estore 2 "u1" id_a (emeta eresult) edisk1).2 = Ok tt.
Proof. vm_compute. reflexivity. Qed.

Lemma encrypted_put_reads_back_witness :
  enc_get estore id_a (Some {| br_start := 1; br_end := Some 3%Z |}) edisk2 =
  Ok {| bg_stream := {| bs_bytes := [x62; x63; x64]; bs_ok := true |}; bg_content_length := 3 |}.
Proof.
  destruct (encrypted_put_reads_back estore id_a "u1" sample_keys (lagging 20) esource 1 2 eresult (emeta eresult)
    (Some {| br_start := 1; br_end := Some 3%Z |}) empty_disk edisk1 edisk2) as (_ & _ & _ & Hget).
  - reflexivity.
  - reflexivity.
  - done.
  - done.
  - exact (pair_ok _ (plain_result 0 EmptyString) put_run_ok).
  - exact (pair_snd _ _ sidecar_run_ok).
  - reflexivity.
  - reflexivity.
  - reflexivity.
  - reflexivity.
  - split; [done|]. intros e [= <-]. done.
  - exact Hget.
Defined.

(** ** Assembly of an encrypted and a plain part *)

Definition edisk3 : Disk := run_op store0 (BPut 3 id_b [Some [x66; x67]]) edisk2.
Definition edisk4 : Disk := run_op store0 (BWriteSidecar 4 "u2" id_b (sample_meta 2 None)) edisk3.

Lemma encrypted_part_file :
  open_blob (eb_inner estore) edisk4 id_a =
  Some (encrypted_bytes (repeat x07 32) [x01; x02; x03; x04] DEFAULT_CHUNK_SIZE [x61; x62; x63; x64; x65]).
Proof. vm_compute. reflexivity. Qed.

Lemma encrypted_part_sidecar : enc_read_sidecar estore id_a edisk4 = Ok (Some (emeta eresult)).
Proof. vm_compute. reflexivity. Qed.

Lemma plain_part_file : open_blob (eb_inner estore) edisk4 id_b = Some [x66; x67].
Proof. vm_compute. reflexivity. Qed.

Lemma plain_part_sidecar : enc_read_sidecar estore id_b edisk4 = Ok (Some (sample_meta 2 None)).
Proof. vm_compute. reflexivity. Qed.

Definition einfo : BlobEncryptionInfo :=
  default {| be_algorithm := EmptyString; be_encrypted_dek := EmptyString; be_dek_nonce := EmptyString;
             be_nonce_prefix := EmptyString; be_key_id := EmptyString |} (bp_encryption eresult).

Lemma einfo_unlocks : unlocks estore einfo (repeat x07 32) [x01; x02; x03; x04].
Proof. split_and!; vm_compute; reflexivity. Qed.

Lemma einfo_result : sm_encryption (emeta eresult) = Some einfo.
Proof. vm_compute. reflexivity. Qed.

Lemma sample_file_small :
  (Z.of_nat (length (encrypted_bytes (repeat x07 32) [x01; x02; x03; x04] DEFAULT_CHUNK_SIZE [x61; x62; x63; x64; x65]))
   < 2 ^ 63)%Z.
Proof. vm_compute. reflexivity. Qed.

Lemma sample_sizes : sm_size (emeta eresult) = 5%Z /\ sm_compression (emeta eresult) = None /\
  sm_composite (emeta eresult) = None.
Proof. split_and!; vm_compute; reflexivity. Qed.

Lemma sample_parts : Forall2 (stored_part estore edisk4) [id_a; id_b] [[x61; x62; x63; x64; x65]; [x66; x67]].
Proof.
  destruct sample_sizes as (H1 & H2 & H3). constructor; [|constructor; [|constructor]].
  - exists (emeta eresult). split; [exact encrypted_part_sidecar|]. split; [exact H3|]. split; [exact H2|].
    split; [exact H1|]. rewrite einfo_result. exists (repeat x07 32), [x01; x02; x03; x04], DEFAULT_CHUNK_SIZE.
    split; [exact einfo_unlocks|]. split; [split; vm_compute; reflexivity|]. split; [exact encrypted_part_file|exact sample_file_small].
  - exists (sample_meta 2 None). split; [exact plain_part_sidecar|]. split_and!; [done..|].
    cbn [sm_encryption sample_meta]. split; [exact plain_part_file|vm_compute; reflexivity].
Qed.

Definition edisk5 : Disk := (enc_concat estore 5 sample_keys (lagging 20) [id_a; id_b] id_c edisk4).1.
Definition eupload : BlobPutResult :=
  match (enc_concat estore 5 sample_keys (lagging 20) [id_a; id_b] id_c edisk4).2 with
  | Ok r => r | _ => plain_result 0 EmptyString end.
Definition edisk6 : Disk := (enc_write_sidecar estore 6 "u3" id_c (emeta eupload) edisk5).1.

Lemma concat_run_ok : is_ok (enc_concat estore 5 sample_keys (lagging 20) [id_a; id_b] id_c edisk4).2 = true.
Proof. vm_compute. reflexivity. Qed.

Lemma concat_sidecar_ok : (enc_write_sidecar estore 6 "u3" id_c (emeta eupload) edisk5).2 = Ok tt.
Proof. vm_compute. reflexivity. Qed.

Lemma encrypted_parts_read_back_witness :
  enc_get estore id_c (Some {| br_start := 4; br_end := None |}) edisk6 =
  Ok {| bg_stream := {| bs_bytes := [x65; x66; x67]; bs_ok := true |}; bg_content_length := 3 |}.
Proof.
  destruct (encrypted_parts_read_back estore [id_a; id_b] id_c "u3" [[x61; x62; x63; x64; x65]; [x66; x67]]
    sample_keys (lagging 20) 5 6 eupload (emeta eupload) (Some {| br_start := 4; br_end := None |})
    edisk4 edisk5 edisk6) as (_ & Hget).
  - exact sample_parts.
  - done.
  - reflexivity.
  - reflexivity.
  - done.
  - exact (pair_ok _ (plain_result 0 EmptyString) concat_run_ok).
  - exact (pair_snd _ _ concat_sidecar_ok).
  - reflexivity.
  - reflexivity.
  - reflexivity.
  - reflexivity.
  - split; [done|]. intros e [=].
  - exact Hget.
Defined.

(** ** A damaged file *)

(** The encrypted file with a byte of its second frame changed: two frames of
    the chunks [abc] and [de]. *)
Definition damaged : list byte :=
  write_header 3 ++ frames (repeat x07 32) [x01; x02; x03; x04] 0 [[x61; x62; x63]] ++
  to_le_bytes 4 2 ++ [x64; x65] ++ repeat x00 16.

Definition damaged_disk : Disk :=
  run_op store0 (BPut 9 id_o [Some damaged]) empty_disk.

Lemma damaged_file : open_blob (eb_inner estore) damaged_disk id_o = Some damaged.
Proof. vm_compute. reflexivity. Qed.

Lemma damaged_read :
  get_encrypted_full estore id_o einfo 5 damaged_disk =
  Ok {| bg_stream := {| bs_bytes := [x61; x62; x63]; bs_ok := false |}; bg_content_length := 5 |}.
Proof. vm_compute. reflexivity. Qed.

Lemma encrypted_reads_authentic_witness :
  exists dek prefix cs chunks rest, unlocks estore einfo dek prefix /\ (0 < cs < 2 ^ 32)%Z /\
    damaged = write_header cs ++ frames dek prefix 0 chunks ++ rest /\ [x61; x62; x63] = List.concat chunks.
Proof.
  destruct (encrypted_reads_authentic estore id_o einfo 5 damaged_disk _ damaged damaged_file eq_refl damaged_read)
    as (dek & prefix & cs & chunks & rest & H1 & H2 & H3 & H4 & _).
  exists dek, prefix, cs, chunks, rest. split; [exact H1|]. split; [exact H2|]. split; [exact H3|exact H4].
Defined.
