(* ===== verification/ClusterState.v ===== *)
(** Cluster membership as one node sees it: the shared state of
    [crates/arca-core/src/cluster.rs] ([PeerNode], [PeerSyncStatus],
    [ClusterState]) with its write gate, leader election, disk minimum,
    readiness gate and garbage-collection guards, and the quorum size of
    [crates/arca-server/src/config.rs].

    [ClusterState] is mutated behind locks in the source; here every mutator
    returns the new state.  Counts, sequence numbers and sizes are [Z]. *)

From S2P Require Import Prelude.

(** ** Quorum arithmetic *)

Inductive ClusterMode : Type := ModeQuorum | ModeAvailable.

(** [ClusterConfig::write_quorum]: the majority of the configured size. *)
Definition config_write_quorum (mode : ClusterMode) (cluster_size : option Z) : option Z :=
  match mode with
  | ModeQuorum => (fun n => (n / 2 + 1)%Z) <$> cluster_size
  | ModeAvailable => None
  end.

Definition quorum_satisfied (acks : Z) (write_quorum : option Z) : bool :=
  match write_quorum with
  | None => true
  | Some q => (q <=? acks)%Z
  end.

(** ** Peers *)

Record PeerNode : Type := {
  pn_node_id : string;
  pn_endpoint : string;
  pn_alive : bool;
  pn_last_seen : option Z;
  pn_authenticated : bool;
  pn_config_ok : bool;
  pn_disk_total : option Z;
  pn_disk_available : option Z;
  pn_max_seq : option Z;
}.

Definition eligible (p : PeerNode) : bool :=
  pn_alive p && pn_authenticated p && pn_config_ok p.

Definition tombstone_gc_blockers (peers : list PeerNode) (now grace : Z) : list PeerNode :=
  let cutoff := (now - grace)%Z in
  List.filter (fun p =>
    negb (pn_alive p)
    && match pn_last_seen p with
       | None => true
       | Some seen => (seen <? cutoff)%Z
       end) peers.

Record PeerSyncStatus : Type := {
  hwm : Z;
  hwm_at : option Z;
  last_reconcile : option Z;
  first_pass_done : bool;
  skipped_entries : Z;
}.

(** [PeerSyncStatus::default()]. *)
Definition sync_default : PeerSyncStatus :=
  {| hwm := 0; hwm_at := None; last_reconcile := None; first_pass_done := false;
     skipped_entries := 0 |}.

Definition sync_rewound (hwm : Z) (hwm_at peer_max_seq peer_last_seen : option Z) : bool :=
  match peer_max_seq, peer_last_seen with
  | Some max_seq, Some seen =>
      if (hwm <=? max_seq)%Z then false
      else match hwm_at with
           | Some at_ => (at_ <? seen)%Z
           | None => true
           end
  | _, _ => false
  end.

Definition min_opt (a b : option Z) : option Z :=
  match a, b with
  | Some x, Some y => Some (Z.min x y)
  | Some x, None | None, Some x => Some x
  | None, None => None
  end.

Inductive WriteGate : Type :=
  | Open
  | NoQuorum (eligible_nodes quorum : Z)
  | SizeExceeded (eligible_nodes cluster_size : Z).

#[export] Instance WriteGate_eq_dec : EqDecision WriteGate.
Proof. solve_decision. Defined.

(** ** The shared state *)

Record ClusterState : Type := MkCluster {
  cl_node_id : string;
  cl_write_quorum : option Z;
  cl_cluster_size : option Z;
  cl_peers : list PeerNode;
  cl_local_endpoint : option string;
  cl_config_fingerprint : option string;
  cl_config_fingerprint_v2 : option string;
  cl_tombstone_gc_blocked : bool;
  cl_sync : gmap string PeerSyncStatus;
}.

Record ClusterSnapshot : Type := {
  sn_node_id : string;
  sn_local_endpoint : option string;
  sn_write_quorum : option Z;
  sn_has_write_quorum : bool;
  sn_live_node_count : Z;
  sn_eligible_node_count : Z;
  sn_size_exceeded : bool;
  sn_tombstone_gc_blocked : bool;
  sn_worker_leader : bool;
  sn_syncing : bool;
  sn_peers : list PeerNode;
}.

Definition ClusterState_new (node_id : string) (write_quorum cluster_size : option Z)
  : ClusterState :=
  {| cl_node_id := node_id; cl_write_quorum := write_quorum; cl_cluster_size := cluster_size;
     cl_peers := []; cl_local_endpoint := None; cl_config_fingerprint := None;
     cl_config_fingerprint_v2 := None; cl_tombstone_gc_blocked := false; cl_sync := ∅ |}.

(** *** Mutators *)

Definition set_config_fingerprint (fingerprint : string) (s : ClusterState) : ClusterState :=
  let '(MkCluster id q n ps ep _ f2 gc sy) := s in
  MkCluster id q n ps ep (Some fingerprint) f2 gc sy.

Definition set_config_fingerprint_v2 (fingerprint : string) (s : ClusterState) : ClusterState :=
  let '(MkCluster id q n ps ep f1 _ gc sy) := s in
  MkCluster id q n ps ep f1 (Some fingerprint) gc sy.

Definition set_local_endpoint (endpoint : string) (s : ClusterState) : ClusterState :=
  let '(MkCluster id q n ps _ f1 f2 gc sy) := s in
  MkCluster id q n ps (Some endpoint) f1 f2 gc sy.

Definition set_tombstone_gc_blocked (blocked : bool) (s : ClusterState) : ClusterState :=
  let '(MkCluster id q n ps ep f1 f2 _ sy) := s in
  MkCluster id q n ps ep f1 f2 blocked sy.

Definition set_peers (peers : list PeerNode) (s : ClusterState) : ClusterState :=
  let '(MkCluster id q n _ ep f1 f2 gc sy) := s in
  MkCluster id q n peers ep f1 f2 gc
    (filter (fun e => existsb (fun p => bool_decide (pn_node_id p = e.1)) peers = true) sy).

(** [sync.entry(id).or_default()] followed by an update of the entry. *)
Definition update_sync (id : string) (f : PeerSyncStatus -> PeerSyncStatus) (s : ClusterState)
  : ClusterState :=
  let '(MkCluster nid q n ps ep f1 f2 gc sy) := s in
  MkCluster nid q n ps ep f1 f2 gc (<[id := f (default sync_default (sy !! id))]> sy).

Definition set_sync_hwm (id : string) (h at_ : Z) : ClusterState -> ClusterState :=
  update_sync id (fun e =>
    {| hwm := h; hwm_at := Some at_; last_reconcile := last_reconcile e;
       first_pass_done := first_pass_done e; skipped_entries := skipped_entries e |}).

Definition reset_sync_hwm (id : string) : ClusterState -> ClusterState :=
  update_sync id (fun e =>
    {| hwm := 0; hwm_at := None; last_reconcile := last_reconcile e;
       first_pass_done := first_pass_done e; skipped_entries := skipped_entries e |}).

Definition record_reconcile_complete (id : string) (at_ : Z) : ClusterState -> ClusterState :=
  update_sync id (fun e =>
    {| hwm := hwm e; hwm_at := hwm_at e; last_reconcile := Some at_;
       first_pass_done := true; skipped_entries := skipped_entries e |}).

(** [skipped_entries += 1] on a [u64], wrapping as in a release build. *)
Definition record_skipped_entry (id : string) : ClusterState -> ClusterState :=
  update_sync id (fun e =>
    {| hwm := hwm e; hwm_at := hwm_at e; last_reconcile := last_reconcile e;
       first_pass_done := first_pass_done e;
       skipped_entries := ((skipped_entries e + 1) mod 2 ^ 64)%Z |}).

(** *** Queries *)

Definition peer_sync (id : string) (s : ClusterState) : PeerSyncStatus :=
  default sync_default (cl_sync s !! id).

Definition live_peer_count (s : ClusterState) : Z :=
  Z.of_nat (length (List.filter pn_alive (cl_peers s))).

Definition live_node_count (s : ClusterState) : Z := (live_peer_count s + 1)%Z.

Definition eligible_peers (s : ClusterState) : list PeerNode := List.filter eligible (cl_peers s).

Definition eligible_peer_count (s : ClusterState) : Z := Z.of_nat (length (eligible_peers s)).

Definition eligible_node_count (s : ClusterState) : Z := (eligible_peer_count s + 1)%Z.

Definition min_disk (local_total local_available : option Z) (s : ClusterState)
  : option Z * option Z :=
  foldl (fun acc p => (min_opt acc.1 (pn_disk_total p), min_opt acc.2 (pn_disk_available p)))
    (local_total, local_available) (eligible_peers s).

Definition is_syncing (s : ClusterState) : bool :=
  existsb (fun p =>
    negb match cl_sync s !! pn_node_id p with
         | Some st => first_pass_done st
         | None => false
         end) (eligible_peers s).

Definition write_gate (s : ClusterState) : WriteGate :=
  match cl_write_quorum s with
  | None => Open
  | Some q =>
      let el := eligible_node_count s in
      let below_quorum := if (el <? q)%Z then NoQuorum el q else Open in
      match cl_cluster_size s with
      | Some size => if (size <? el)%Z then SizeExceeded el size else below_quorum
      | None => below_quorum
      end
  end.

Definition has_write_quorum (s : ClusterState) : bool := bool_decide (write_gate s = Open).

Definition is_worker_leader (s : ClusterState) : bool :=
  forallb (fun p => String.ltb (cl_node_id s) (pn_node_id p)) (eligible_peers s).

Definition snapshot (s : ClusterState) : ClusterSnapshot :=
  let gate := write_gate s in
  {| sn_node_id := cl_node_id s;
     sn_local_endpoint := cl_local_endpoint s;
     sn_write_quorum := cl_write_quorum s;
     sn_has_write_quorum := bool_decide (gate = Open);
     sn_live_node_count := (Z.of_nat (length (List.filter pn_alive (cl_peers s))) + 1)%Z;
     sn_eligible_node_count := (Z.of_nat (length (List.filter eligible (cl_peers s))) + 1)%Z;
     sn_size_exceeded := match gate with SizeExceeded _ _ => true | _ => false end;
     sn_tombstone_gc_blocked := cl_tombstone_gc_blocked s;
     sn_worker_leader := is_worker_leader s;
     sn_syncing := is_syncing s;
     sn_peers := cl_peers s |}.

(** ** Quorums *)

(** Quorum intersection: with the majority computed from the configured
    cluster size, two writes that were both acknowledged by enough nodes of a
    cluster no larger than that size share a node, so no two disjoint sides of
    a partition can both acknowledge. *)
Theorem quorums_intersect (n q : Z) (nodes acks1 acks2 : gset string) :
  config_write_quorum ModeQuorum (Some n) = Some q ->
  (Z.of_nat (size nodes) <= n)%Z -> acks1 ⊆ nodes -> acks2 ⊆ nodes ->
  quorum_satisfied (Z.of_nat (size acks1)) (Some q) = true ->
  quorum_satisfied (Z.of_nat (size acks2)) (Some q) = true ->
  exists node, node ∈ acks1 /\ node ∈ acks2.
Proof.
  intros [= <-] Hn H1 H2 Hq1%Z.leb_le Hq2%Z.leb_le.
  destruct (decide (acks1 ## acks2)) as [Hd|Hd].
  - exfalso. pose proof (size_union acks1 acks2 Hd) as Hs.
    pose proof (subseteq_size (acks1 ∪ acks2) nodes) as Hle.
    rewrite Hs in Hle. specialize (Hle ltac:(set_solver)).
    pose proof (Z_div_mod_eq_full n 2). pose proof (Z.mod_pos_bound n 2). lia.
  - destruct (set_choose_or_empty (acks1 ∩ acks2)) as [[x Hx]|He]; set_solver.
Qed.

Lemma quorums_intersect_witness : exists node, node ∈ ({["a"; "b"]} : gset string)
  /\ node ∈ ({["b"; "c"]} : gset string).
Proof.
  apply (quorums_intersect 3 2 {["a"; "b"; "c"]}); [reflexivity|..].
  - vm_compute; discriminate.
  - set_solver.
  - set_solver.
  - reflexivity.
  - reflexivity.
Defined.

(** The write gate: in available mode it is always open; in quorum mode
    it is open exactly when the eligible nodes (this one included) reach the
    quorum without exceeding the configured size, and otherwise it reports the
    excess first and the missing quorum second. *)
Theorem write_gate_spec (s : ClusterState) :
  let n := eligible_node_count s in
  (write_gate s = Open <->
     match cl_write_quorum s with
     | None => True
     | Some q => (q <= n)%Z /\ match cl_cluster_size s with
                                | Some size => (n <= size)%Z
                                | None => True
                                end
     end)
  /\ (forall e c, write_gate s = SizeExceeded e c <->
        is_Some (cl_write_quorum s) /\ cl_cluster_size s = Some c /\ e = n /\ (c < n)%Z)
  /\ (forall e q, write_gate s = NoQuorum e q <->
        cl_write_quorum s = Some q /\ e = n /\ (n < q)%Z
        /\ forall c, cl_cluster_size s = Some c -> (n <= c)%Z).
Proof.
  intros n. unfold write_gate. fold n.
  destruct (cl_write_quorum s) as [q|] eqn:Eq.
  2: { split; [done|]. split; intros; split; try done; intros [? ?]; done. }
  destruct (cl_cluster_size s) as [c|] eqn:Ec;
    [destruct (Z.ltb_spec c n)|]; try destruct (Z.ltb_spec n q);
    (split; [|split; intros]); (split; [intros H'|intros H']); destruct_and?; simplify_eq/=;
    split_and?; try done; try lia; eauto.
  all: first
    [ intros; simplify_eq; lia
    | match goal with H : forall _, _ -> _ |- _ => specialize (H _ eq_refl); lia end ].
Qed.

(** Only eligible peers count: two views of the cluster with the same own
    state and the same eligible peers agree on the write gate, the disk
    minimum, the worker leader and readiness, so unauthenticated, unreachable
    or misconfigured peers have no influence on them. *)
Theorem ineligible_peers_have_no_influence (s s' : ClusterState) (total available : option Z) :
  cl_node_id s = cl_node_id s' -> cl_write_quorum s = cl_write_quorum s' ->
  cl_cluster_size s = cl_cluster_size s' -> cl_sync s = cl_sync s' ->
  eligible_peers s = eligible_peers s' ->
  write_gate s = write_gate s'
  /\ min_disk total available s = min_disk total available s'
  /\ is_worker_leader s = is_worker_leader s'
  /\ is_syncing s = is_syncing s'.
Proof.
  intros Hid Hq Hn Hs Hp.
  unfold write_gate, eligible_node_count, eligible_peer_count, min_disk, is_worker_leader,
    is_syncing. rewrite Hid, Hq, Hn, Hs, Hp. done.
Qed.

Definition sample_peer (id : string) (ok : bool) : PeerNode :=
  {| pn_node_id := id; pn_endpoint := "http://" +:+ id; pn_alive := true; pn_last_seen := Some 1%Z;
     pn_authenticated := ok; pn_config_ok := true; pn_disk_total := Some 100%Z;
     pn_disk_available := Some 40%Z; pn_max_seq := None |}.

Lemma ineligible_peers_have_no_influence_witness :
  let s := ClusterState_new "b" (Some 2%Z) (Some 3%Z) in
  let good := set_peers [sample_peer "c" true] s in
  let rogue := set_peers [sample_peer "a" false; sample_peer "c" true] s in
  write_gate good = write_gate rogue /\ min_disk None None good = min_disk None None rogue
  /\ is_worker_leader good = is_worker_leader rogue /\ is_syncing good = is_syncing rogue.
Proof. apply ineligible_peers_have_no_influence; reflexivity. Defined.

(** ** Worker leader *)

(** A consistent membership: every member sees itself and, as its eligible
    peers, exactly the other members. *)
Definition consistent_view (members : list string) (view : string -> ClusterState) : Prop :=
  forall i, i ∈ members ->
    cl_node_id (view i) = i
    /\ forall j, j ∈ pn_node_id <$> eligible_peers (view i) <-> j ∈ members /\ j <> i.

Lemma min_string (l : list string) :
  l <> [] -> exists m, m ∈ l /\ forall x, x ∈ l -> x = m \/ String.ltb m x = true.
Proof.
  induction l as [|a l IH]; [done|]. intros _.
  destruct l as [|b l].
  { exists a. split; [set_solver|]. intros x Hx. left. set_solver. }
  destruct IH as (m & Hm & Hmin); [done|].
  destruct (String.ltb a m) eqn:Ha.
  - exists a. split; [set_solver|]. intros x Hx.
    apply elem_of_cons in Hx as [->|Hx]; [by left|]. right.
    destruct (Hmin x Hx) as [->|?]; [done|]. by eapply string_ltb_trans.
  - exists m. split; [set_solver|]. intros x Hx.
    apply elem_of_cons in Hx as [->|Hx]; [|auto].
    destruct (String.ltb m a) eqn:Hb; [by right|]. left. by apply string_ltb_tie.
Qed.

Lemma is_worker_leader_iff members view i :
  consistent_view members view -> i ∈ members ->
  is_worker_leader (view i) = true <->
  forall j, j ∈ members -> j <> i -> String.ltb i j = true.
Proof.
  intros Hv Hi. destruct (Hv i Hi) as [Hid Hp]. unfold is_worker_leader.
  rewrite forallb_forall, Hid. split.
  - intros H j Hj Hne. assert (j ∈ pn_node_id <$> eligible_peers (view i)) as Hin by (by apply Hp).
    apply list_elem_of_fmap in Hin as (p & -> & Hin). by apply H, list_elem_of_In.
  - intros H p Hin%list_elem_of_In.
    destruct (proj1 (Hp (pn_node_id p))) as [? ?]; [|by apply H].
    apply list_elem_of_fmap. eauto.
Qed.

(** Exactly one worker leader: when the members of a cluster agree on who
    is eligible, one and only one of them runs the singleton background work. *)
Theorem worker_leader_unique (members : list string) (view : string -> ClusterState) :
  members <> [] -> consistent_view members view ->
  exists leader, leader ∈ members /\ is_worker_leader (view leader) = true
    /\ forall i, i ∈ members -> is_worker_leader (view i) = true -> i = leader.
Proof.
  intros Hne Hv. destruct (min_string members Hne) as (m & Hm & Hmin).
  exists m. split; [done|]. split.
  - apply (is_worker_leader_iff members view m Hv Hm). intros j Hj Hjm.
    by destruct (Hmin j Hj) as [->|?].
  - intros i Hi Hl. destruct (Hmin i Hi) as [|Hlt]; [done|].
    destruct (decide (i = m)) as [|Hn]; [done|].
    rewrite (is_worker_leader_iff members view i Hv Hi) in Hl.
    specialize (Hl m Hm (not_eq_sym Hn)). apply string_ltb_asym in Hl. congruence.
Qed.

Definition sample_view (i : string) : ClusterState :=
  set_peers (sample_peer "rogue" false :: ((fun j => sample_peer j true)
    <$> List.filter (fun j => negb (bool_decide (j = i))) ["n2"; "n1"; "n3"]))
    (ClusterState_new i (Some 2%Z) (Some 3%Z)).

Lemma worker_leader_unique_witness :
  exists leader, leader ∈ ["n2"; "n1"; "n3"] /\ is_worker_leader (sample_view leader) = true
    /\ forall i, i ∈ ["n2"; "n1"; "n3"] -> is_worker_leader (sample_view i) = true -> i = leader.
Proof.
  apply worker_leader_unique; [discriminate|].
  intros i Hi. rewrite !elem_of_cons, elem_of_nil in Hi.
  destruct Hi as [->|[->|[->|[]]]]; (split; [reflexivity|]); intros j; simpl;
    rewrite !elem_of_cons, elem_of_nil; (split; [intros H|intros [H Hne]]); simpl in *;
    destruct_or?; subst; try done; eauto 10; (split; [eauto 10|discriminate]).
Defined.

(** ** Reachable states

    The mutators as a step relation: what the membership manager, the
    anti-entropy worker and the startup code may do to the shared state. *)

Inductive cluster_step : ClusterState -> ClusterState -> Prop :=
  | step_fingerprint s f : cluster_step s (set_config_fingerprint f s)
  | step_fingerprint_v2 s f : cluster_step s (set_config_fingerprint_v2 f s)
  | step_endpoint s e : cluster_step s (set_local_endpoint e s)
  | step_gc_blocked s b : cluster_step s (set_tombstone_gc_blocked b s)
  | step_peers s ps : cluster_step s (set_peers ps s)
  | step_hwm s id h at_ : cluster_step s (set_sync_hwm id h at_ s)
  | step_reset s id : cluster_step s (reset_sync_hwm id s)
  | step_complete s id at_ : cluster_step s (record_reconcile_complete id at_ s)
  | step_skipped s id : cluster_step s (record_skipped_entry id s).

Definition reachable (s : ClusterState) : Prop :=
  exists id q n, rtc cluster_step (ClusterState_new id q n) s.

(** The high-water mark and its time are set together; a finished first pass
    has a completion time; the skip counter is a [u64]. *)
Definition sync_entry_ok (st : PeerSyncStatus) : Prop :=
  (hwm_at st = None -> hwm st = 0%Z)
  /\ (first_pass_done st = true <-> is_Some (last_reconcile st))
  /\ (0 <= skipped_entries st < 2 ^ 64)%Z.

Definition sync_ok (s : ClusterState) : Prop := map_Forall (fun _ st => sync_entry_ok st) (cl_sync s).

Lemma sync_default_ok : sync_entry_ok sync_default.
Proof. split; [done|]. split; [|done]. split; [done|by intros []]. Qed.

Lemma update_sync_ok id f s :
  (forall st, sync_entry_ok st -> sync_entry_ok (f st)) -> sync_ok s -> sync_ok (update_sync id f s).
Proof.
  destruct s; unfold sync_ok; simpl. intros Hf Hs. apply map_Forall_insert_2; [|done].
  apply Hf. destruct (cl_sync0 !! id) as [st|] eqn:E; simpl; [by apply (Hs id)|apply sync_default_ok].
Qed.

Lemma cluster_step_sync_ok s s' : cluster_step s s' -> sync_ok s -> sync_ok s'.
Proof.
  intros [s0 ?|s0 ?|s0 ?|s0 ?|s0 ps|s0 id h at_|s0 id|s0 id at_|s0 id] Hs;
    try (by destruct s0).
  - destruct s0; unfold sync_ok in *; simpl in *. intros k st H.
    apply map_lookup_filter_Some in H as [H _]. by apply (Hs k).
  - apply update_sync_ok; [|done]. intros st (H1 & H2 & H3). split; [done|]. split; done.
  - apply update_sync_ok; [|done]. intros st (H1 & H2 & H3). split; [done|]. split; done.
  - apply update_sync_ok; [|done]. intros st (H1 & H2 & H3). split; [done|]. split; [|done].
    split; [by eauto|done].
  - apply update_sync_ok; [|done]. intros st (H1 & H2 & H3). split; [done|]. split; [done|].
    apply Z.mod_pos_bound. lia.
Qed.

Lemma reachable_sync_ok s : reachable s -> sync_ok s.
Proof.
  intros (id & q & n & Hr). assert (sync_ok (ClusterState_new id q n)) as Hs.
  { apply map_Forall_empty. }
  induction Hr as [|a b c Hab _ IH]; [done|]. by apply IH, (cluster_step_sync_ok a).
Qed.

(** Rewind detection never fires by accident: in every reachable state, a
    peer that reports at least the sequence number already consumed from it,
    or whose report is no newer than the last advance, is not taken for a
    restored one; and the fallback for a mark without a time ("cannot happen")
    is indeed unreachable. *)
Theorem sync_rewound_reachable (s : ClusterState) (id : string) (max_seq seen : Z) :
  reachable s -> (0 <= max_seq)%Z ->
  let st := peer_sync id s in
  sync_rewound (hwm st) (hwm_at st) (Some max_seq) (Some seen) = true <->
  (max_seq < hwm st)%Z /\ exists at_, hwm_at st = Some at_ /\ (at_ < seen)%Z.
Proof.
  intros Hr Hm st. assert (sync_entry_ok st) as (H0 & _ & _).
  { subst st. unfold peer_sync. destruct (cl_sync s !! id) as [e|] eqn:E; simpl;
      [by apply (reachable_sync_ok s Hr id)|apply sync_default_ok]. }
  unfold sync_rewound. destruct (Z.leb_spec (hwm st) max_seq) as [Hle|Hlt].
  - split; [done|]. lia.
  - destruct (hwm_at st) as [at_|].
    + rewrite Z.ltb_lt. split; [eauto|]. intros (_ & x & [= ->] & ?). done.
    + rewrite H0 in Hlt by done. lia.
Qed.

Definition sample_synced : ClusterState :=
  record_reconcile_complete "p" 30 (set_sync_hwm "p" 100 20
    (set_peers [sample_peer "p" true] (ClusterState_new "n" None None))).

Lemma sample_synced_reachable : reachable sample_synced.
Proof.
  exists "n", None, None. unfold sample_synced.
  eapply rtc_l; [apply step_peers|]. eapply rtc_l; [apply step_hwm|].
  eapply rtc_l; [apply step_complete|]. apply rtc_refl.
Defined.

Lemma sync_rewound_reachable_witness :
  sync_rewound (hwm (peer_sync "p" sample_synced)) (hwm_at (peer_sync "p" sample_synced))
    (Some 7%Z) (Some 25%Z) = true.
Proof.
  apply (sync_rewound_reachable sample_synced "p" 7 25);
    [apply sample_synced_reachable|lia|]. split; [reflexivity|]. exists 20%Z. done.
Defined.

(** ** Readiness *)

Lemma update_sync_peers id f s : cl_peers (update_sync id f s) = cl_peers s.
Proof. by destruct s. Qed.

Lemma is_syncing_false s :
  is_syncing s = false <->
  forall p, p ∈ cl_peers s -> eligible p = true ->
    exists st, cl_sync s !! pn_node_id p = Some st /\ first_pass_done st = true.
Proof.
  unfold is_syncing, eligible_peers. rewrite <- not_true_iff_false, existsb_exists. split.
  - intros H p Hp He. destruct (cl_sync s !! pn_node_id p) as [st|] eqn:E.
    + exists st. split; [done|]. apply not_false_iff_true. intros Hf. apply H. exists p.
      rewrite E, Hf. split; [|done]. apply filter_In. by rewrite <- list_elem_of_In.
    + exfalso. apply H. exists p. rewrite E. split; [|done].
      apply filter_In. by rewrite <- list_elem_of_In.
  - intros H (p & Hp & Hs). apply filter_In in Hp as [Hp He].
    destruct (H p) as (st & E & Hf); [by apply list_elem_of_In|done|]. by rewrite E, Hf in Hs.
Qed.

Lemma first_pass_step s s' id :
  cluster_step s s' -> first_pass_done (peer_sync id s) = true ->
  first_pass_done (peer_sync id s') = true
  \/ (exists peers, s' = set_peers peers s /\ id ∉ pn_node_id <$> peers).
Proof.
  assert (forall s k f, (forall st, first_pass_done st = true -> first_pass_done (f st) = true) ->
    first_pass_done (peer_sync id s) = true ->
    first_pass_done (peer_sync id (update_sync k f s)) = true) as Hup.
  { intros s1 k f Hf Hd. destruct s1; unfold peer_sync in *; simpl in *.
    destruct (decide (k = id)) as [->|Hk];
      [rewrite lookup_insert_eq; simpl; auto|rewrite lookup_insert_ne by done; done]. }
  intros [s0 ?|s0 ?|s0 ?|s0 ?|s0 ps|s0 k h at_|s0 k|s0 k at_|s0 k] Hd;
    try (left; by destruct s0); try (left; by apply Hup).
  destruct (decide (id ∈ pn_node_id <$> ps)) as [Hin|Hn]; [left|right; eauto].
  destruct s0; unfold peer_sync in *; simpl in *.
  destruct (cl_sync0 !! id) as [st|] eqn:E; [|done].
  rewrite (map_lookup_filter_Some_2 _ _ _ st); [done|done|].
  apply existsb_exists. apply list_elem_of_fmap in Hin as (p & -> & Hp).
  exists p. split; [by apply list_elem_of_In|by apply bool_decide_eq_true].
Qed.

(** Readiness: a node reports ready exactly when it has completed a pass
    toward each eligible peer, and a completed pass toward a peer is forgotten
    only when that peer leaves the membership: it survives cursor updates,
    cursor resets, skips and membership updates that keep the peer. *)
Theorem readiness_latched (s : ClusterState) :
  (is_syncing s = false <->
     forall p, p ∈ cl_peers s -> eligible p = true ->
       exists st, cl_sync s !! pn_node_id p = Some st /\ first_pass_done st = true)
  /\ (forall s' id, cluster_step s s' -> first_pass_done (peer_sync id s) = true ->
        first_pass_done (peer_sync id s') = true
        \/ (exists peers, s' = set_peers peers s /\ id ∉ pn_node_id <$> peers)).
Proof. split; [apply is_syncing_false|apply first_pass_step]. Qed.

(** ** The tombstone guard *)

(** Tombstones may be purged only when every known peer is reachable or was
    seen within the grace period. *)
Lemma tombstone_gc_blockers_nil (peers : list PeerNode) (now grace : Z) :
  tombstone_gc_blockers peers now grace = [] <->
  forall p, p ∈ peers -> pn_alive p = true
    \/ exists seen, pn_last_seen p = Some seen /\ (now - grace <= seen)%Z.
Proof.
  unfold tombstone_gc_blockers. split.
  - intros H p Hp. destruct (pn_alive p) eqn:Ea; [by left|]. right.
    assert (p ∉ List.filter (fun p => negb (pn_alive p) && match pn_last_seen p with
      | None => true | Some seen => (seen <? now - grace)%Z end) peers) as Hn
      by (rewrite H; apply not_elem_of_nil).
    rewrite list_elem_of_In, filter_In, <- list_elem_of_In, Ea in Hn. simpl in Hn.
    destruct (pn_last_seen p) as [seen|]; [|by destruct Hn].
    exists seen. split; [done|]. destruct (Z.ltb_spec seen (now - grace)); [by destruct Hn|done].
  - intros H. apply elem_of_nil_inv. intros p Hp.
    apply list_elem_of_In, filter_In in Hp as [Hp%list_elem_of_In [Ha Hs]%andb_true_iff].
    destruct (H p Hp) as [E|(seen & E & Hle)].
    + by rewrite E in Ha.
    + rewrite E in Hs. apply Z.ltb_lt in Hs. lia.
Qed.
