(* ===== verification/ClusterMeta.v ===== *)
(** Writes of a cluster node: [check_write_gate] and [ClusterMetadataStore] of
    [crates/arca-server/src/cluster/cluster_meta.rs], and the endpoints that
    receive them, [receive_object], [receive_version_delete] and [receive_op] of
    [crates/arca-proto/src/handlers/cluster.rs].

    The decorator wraps a metadata store; its state is the wrapped store, the
    node's control-plane tables, the membership view, and the nodes its
    messages reach.  What becomes of a message is an argument of the call
    ([Delivery]): lost, applied with the answer lost, or answered; the receiver
    reads its own clock.  A call sends its messages in rounds ([fan-outs]), the
    messages of a round to distinct nodes, so their order does not matter. *)

From S2P Require Import Prelude S3Errors Policy Types SqlTable Preconditions ControlMerge IdentityStore FsBlob.
From S2P Require Import MetadataStore MetadataTrait ClusterState.
From stdpp Require Import pretty.

Open Scope act_scope.

(** ** Messages *)

Inductive ControlOp : Type :=
  | BucketUpsert (info : BucketInfo)
  | BucketDelete (name : string)
  | BucketConfigSet (bucket key value : string)
  | BucketConfigDelete (bucket key : string)
  | BucketTags (bucket : string) (tags : list (string * string))
  | CredentialUpsert (credential : Credential)
  | CredentialDelete (access_key_id : string)
  | UserUpsert (user : User)
  | UserDelete (user_id : string)
  | GrantUpsert (grant : Grant)
  | GrantDelete (grant_id : string)
  | UserGrantAttach (user_id grant_id : string)
  | UserGrantDetach (user_id grant_id : string)
  | TeamGrantAttach (team_id grant_id : string)
  | TeamGrantDetach (team_id grant_id : string)
  | TeamUpsert (team : Team)
  | TeamDelete (team_id : string)
  | TeamMemberAdd (team_id user_id : string)
  | TeamMemberRemove (team_id user_id : string)
  | ServerConfigSet (key value : string)
  | ServerConfigDelete (key : string)
  | ObjectTags (bucket key version_id : string) (tags : list (string * string))
  | MultipartCreate (record : MultipartUploadRecord)
  | PartUpsert (part : PartRecord)
  | MultipartDelete (upload_id : string).

Record ClusterObjectAck : Type := {
  ack_applied : bool;
  ack_has_blob : bool;
}.

(** ** The receiving node *)

(** A node as its endpoints see it: its tables, and the blobs whose sidecar it
    has, which is what [receive_object] looks at ([read_sidecar]).  A node that
    has the sidecar of a composite blob need not have the files of its parts. *)
Record Remote : Type := {
  rm_meta : MetaStore;
  rm_ids : IdentityStore;
  rm_sidecars : gset string;
}.

Definition with_meta (m : MetaStore) (r : Remote) : Remote :=
  {| rm_meta := m; rm_ids := rm_ids r; rm_sidecars := rm_sidecars r |}.

Definition with_ids (i : IdentityStore) (r : Remote) : Remote :=
  {| rm_meta := rm_meta r; rm_ids := i; rm_sidecars := rm_sidecars r |}.

(** [receive_object]: the status of a refusal, or the acknowledgement. *)
Definition receive_object (record : ObjectRecord) (r : Remote) : Remote * outcome Z ClusterObjectAck :=
  if negb (has_valid_blob_ref record) then (r, Err 400%Z)
  else
    match apply_remote_object record (rm_meta r) with
    | (m, Ok _) =>
        let has_blob := bool_decide (o_blob_id record = EmptyString) || bool_decide (o_blob_id record ∈ rm_sidecars r) in
        (with_meta m r, Ok {| ack_applied := true; ack_has_blob := has_blob |})
    | (m, Err _) => (with_meta m r, Err 500%Z)
    | (m, Panic) => (with_meta m r, Panic)
    end.

(** [receive_version_delete] *)
Definition receive_version_delete (now : Z) (bucket key version_id : string) (r : Remote)
  : Remote * outcome Z ClusterObjectAck :=
  match apply_remote_version_delete now bucket key version_id (rm_meta r) with
  | (m, Ok _) => (with_meta m r, Ok {| ack_applied := true; ack_has_blob := true |})
  | (m, Err _) => (with_meta m r, Err 500%Z)
  | (m, Panic) => (with_meta m r, Panic)
  end.

Section receive_op.
Variables (foreign_keys : bool) (now : Z).

Definition on_meta {A : Type} (m : mact ArcaError A) (r : Remote) : Remote * outcome ArcaError unit :=
  match m (rm_meta r) with
  | (s, Ok _) => (with_meta s r, Ok tt)
  | (s, Err e) => (with_meta s r, Err e)
  | (s, Panic) => (with_meta s r, Panic)
  end.

Definition on_ids {A : Type} (m : act IdentityStore ArcaError A) (r : Remote) : Remote * outcome ArcaError unit :=
  match m (rm_ids r) with
  | (s, Ok _) => (with_ids s r, Ok tt)
  | (s, Err e) => (with_ids s r, Err e)
  | (s, Panic) => (with_ids s r, Panic)
  end.

(** The [match] of [receive_op]. *)
Definition apply_op (op : ControlOp) : Remote -> Remote * outcome ArcaError unit :=
  match op with
  | BucketUpsert info => on_meta (apply_remote_bucket info)
  | BucketDelete name => on_meta (delete_bucket name)
  | BucketConfigSet bucket key value => on_meta (set_bucket_config now bucket key value)
  | BucketConfigDelete bucket key => on_meta (delete_bucket_config bucket key)
  | BucketTags bucket tags => on_meta (put_bucket_tags now bucket tags)
  | CredentialUpsert credential => on_ids (apply_remote_credential now credential)
  | CredentialDelete access_key_id => on_ids (delete_credential access_key_id)
  | UserUpsert user => on_ids (apply_remote_user now user)
  | UserDelete user_id => on_ids (delete_user user_id)
  | GrantUpsert grant => on_ids (apply_remote_grant grant)
  | GrantDelete grant_id => on_ids (delete_grant grant_id)
  | UserGrantAttach user_id grant_id => on_ids (attach_to_user foreign_keys now user_id grant_id)
  | UserGrantDetach user_id grant_id => on_ids (detach_from_user user_id grant_id)
  | TeamGrantAttach team_id grant_id => on_ids (attach_to_team foreign_keys now team_id grant_id)
  | TeamGrantDetach team_id grant_id => on_ids (detach_from_team team_id grant_id)
  | TeamUpsert team => on_ids (apply_remote_team now team)
  | TeamDelete team_id => on_ids (delete_team team_id)
  | TeamMemberAdd team_id user_id => on_ids (add_member foreign_keys now team_id user_id)
  | TeamMemberRemove team_id user_id => on_ids (remove_member team_id user_id)
  | ServerConfigSet key value =>
      if is_node_local_server_config_key key then fun r => (r, Ok tt) else on_ids (set_server_config now key value)
  | ServerConfigDelete key =>
      if is_node_local_server_config_key key then fun r => (r, Ok tt) else on_ids (delete_server_config key)
  | ObjectTags bucket key version_id tags => on_meta (put_object_tags bucket key version_id tags)
  | MultipartCreate record => on_meta (apply_remote_multipart_upload record)
  | PartUpsert part => on_meta (put_part part)
  | MultipartDelete upload_id => on_meta (delete_multipart_upload upload_id)
  end.

Definition receive_op (op : ControlOp) (r : Remote) : Remote * outcome Z unit :=
  match apply_op op r with
  | (r', Ok _) => (r', Ok tt)
  | (r', Err _) => (r', Err 500%Z)
  | (r', Panic) => (r', Panic)
  end.
End receive_op.

(** ** The sending node *)

(** What becomes of a message: lost; applied, the answer lost; answered. *)
Inductive Delivery : Type :=
  | Lost
  | Unanswered (receiver_now : Z)
  | Answers (receiver_now : Z).

(** [cw_remotes]: the other nodes, by node id. *)
Record ClusterWorld (S : Type) : Type := MkClusterWorld {
  cw_inner : S;
  cw_ids : IdentityStore;
  cw_cluster : ClusterState;
  cw_remotes : gmap string Remote;
}.
Arguments MkClusterWorld {_} _ _ _ _.
Arguments cw_inner {_} _.
Arguments cw_ids {_} _.
Arguments cw_cluster {_} _.
Arguments cw_remotes {_} _.

Definition check_write_gate (cluster : ClusterState) : outcome ArcaError unit :=
  match write_gate cluster with
  | Open => Ok tt
  | NoQuorum eligible_nodes quorum =>
      Err (S3 (with_message ServiceUnavailable
        ("cluster write quorum not available (" +:+ pretty eligible_nodes +:+ " eligible node(s), "
         +:+ pretty quorum +:+ " required)") "/"))
  | SizeExceeded eligible_nodes cluster_size =>
      Err (S3 (with_message ServiceUnavailable
        ("cluster size exceeded: " +:+ pretty eligible_nodes +:+ " eligible nodes for cluster_size = "
         +:+ pretty cluster_size
         +:+ " — writes are refused to prevent split-brain; remove the extra node(s) or resize the cluster (see the HA guide runbook)")
        "/"))
  end.

Section cluster.
Context {S : Type} (inner : MetadataStore_ S).

(** [route]: the node that answers at an endpoint; [net]: what becomes of the
    message of a round to an endpoint. *)
Variables (foreign_keys : bool) (now : Z) (route : string -> string) (net : nat -> string -> Delivery).

Definition cact (A : Type) : Type := act (ClusterWorld S) ArcaError A.

Definition live_peers (cluster : ClusterState) : list string := pn_endpoint <$> eligible_peers cluster.

Definition check_write_quorum : cact unit := fun w => (w, check_write_gate (cw_cluster w)).

Definition enforce_ack_quorum (acks : Z) : cact unit := fun w =>
  (w, if quorum_satisfied acks (cl_write_quorum (cw_cluster w)) then Ok tt
      else Err (S3 (with_message ServiceUnavailable
        ("cluster write quorum not reached (" +:+ pretty acks +:+ " of "
         +:+ pretty (default 1%Z (cl_write_quorum (cw_cluster w)))
         +:+ " required copies acknowledged); the write is durable on this node and will reconcile, but it is not acknowledged as replicated — retry")
        "/"))).

(** A call of the wrapped store. *)
Definition local {A : Type} (c : MetaCall A) : cact A := fun w =>
  let '(s, r) := inner A c (cw_inner w) in (MkClusterWorld s (cw_ids w) (cw_cluster w) (cw_remotes w), r).

(** [if let Ok(x) = ...]: an error is dropped. *)
Definition attempt {A : Type} (m : cact A) : cact (option A) := fun w =>
  match m w with
  | (w', Ok a) => (w', Ok (Some a))
  | (w', Err _) => (w', Ok None)
  | (w', Panic) => (w', Panic)
  end.

Definition on_tombstones {A : Type} (m : act IdentityStore ArcaError A) : cact unit := fun w =>
  let '(i, _) := m (cw_ids w) in (MkClusterWorld (cw_inner w) i (cw_cluster w) (cw_remotes w), Ok tt).

Definition record_tombstone (entity_type entity_key : string) : cact unit :=
  on_tombstones (record_control_tombstone now entity_type entity_key).

Definition clear_tombstone (entity_type entity_key : string) : cact unit :=
  on_tombstones (delete_control_tombstone entity_type entity_key).

(** One message to the node at [endpoint]. *)
Definition send {A : Type} (d : Delivery) (handler : Z -> Remote -> Remote * outcome Z A) (endpoint : string)
    (w : ClusterWorld S) : ClusterWorld S * option A :=
  let put r := MkClusterWorld (cw_inner w) (cw_ids w) (cw_cluster w) (<[route endpoint := r]> (cw_remotes w)) in
  match cw_remotes w !! route endpoint, d with
  | None, _ | _, Lost => (w, None)
  | Some r, Unanswered t => (put (handler t r).1, None)
  | Some r, Answers t =>
      let '(r', res) := handler t r in (put r', match res with Ok a => Some a | _ => None end)
  end.

(** A round of messages to the live peers; how many answers count. *)
Fixpoint fan_out {A : Type} (d : string -> Delivery) (handler : Z -> Remote -> Remote * outcome Z A) (counts : A -> bool)
    (endpoints : list string) (w : ClusterWorld S) : ClusterWorld S * Z :=
  match endpoints with
  | [] => (w, 0%Z)
  | e :: rest =>
      let '(w1, answer) := send (d e) handler e w in
      let '(w2, n) := fan_out d handler counts rest w1 in
      (w2, ((if match answer with Some a => counts a | None => false end then 1 else 0) + n)%Z)
  end.

Definition fan_out_object (round : nat) (record : ObjectRecord) : cact Z := fun w =>
  let '(w', acks) := fan_out (net round) (fun _ => receive_object record)
                       (fun ack => ack_applied ack && ack_has_blob ack) (live_peers (cw_cluster w)) w in
  (w', Ok acks).

Definition fan_out_version_delete (round : nat) (bucket key version_id : string) : cact Z := fun w =>
  let '(w', acks) := fan_out (net round) (fun t => receive_version_delete t bucket key version_id)
                       ack_applied (live_peers (cw_cluster w)) w in
  (w', Ok acks).

Definition fan_out_op (round : nat) (op : ControlOp) : cact unit := fun w =>
  let '(w', _) := fan_out (net round) (fun t => receive_op foreign_keys t op) (fun _ => true)
                    (live_peers (cw_cluster w)) w in
  (w', Ok tt).

Definition replicate_lock_change (bucket key : string) (version_id : option string) : cact unit :=
  let! row := match version_id with
              | Some vid => attempt (local (OnVersions (GetObjectVersion bucket key vid)))
              | None => attempt (local (OnObjects (GetLatestObject bucket key)))
              end in
  match row with
  | Some (Some record) => let! _ := fan_out_object 0 record in act_ret tt
  | _ => act_ret tt
  end.

Definition fan_out_tags (record : ObjectRecord) (version_id : option string) (tags : list (string * string)) : cact unit :=
  if is_nil tags then act_ret tt
  else fan_out_op 1 (ObjectTags (o_bucket record) (o_key record) (default EmptyString version_id) tags).

(** The row as stored: the version id the store assigned, latest, no marker. *)
Definition replicated (record : ObjectRecord) (version_id : option string) : ObjectRecord :=
  as_current version_id record.

Definition when_ (b : bool) (m : cact unit) : cact unit := if b then m else act_ret tt.

Definition cluster_bucket {A : Type} (c : BucketCall A) : cact A :=
  match c with
  | CreateBucketOwned t name owner =>
      let! _ := check_write_quorum in
      let! _ := local (OnBuckets (CreateBucketOwned t name owner)) in
      let! _ := clear_tombstone TOMBSTONE_BUCKET name in
      let! info := attempt (local (OnBuckets (HeadBucket name))) in
      match info with
      | Some (Some info) => fan_out_op 0 (BucketUpsert info)
      | _ => act_ret tt
      end
  | DeleteBucket name =>
      let! _ := check_write_quorum in
      let! existed := local (OnBuckets (DeleteBucket name)) in
      let! _ := when_ existed
        (let! _ := record_tombstone TOMBSTONE_BUCKET name in fan_out_op 0 (BucketDelete name)) in
      act_ret existed
  | c => local (OnBuckets c)
  end.

Definition put_object_tagged (uuid : string) (record : ObjectRecord) (pre : WritePrecondition)
    (tags : list (string * string)) : cact (option ObjectRecord * option string) :=
  let! _ := check_write_quorum in
  let! res := local (OnObjects (PutObjectTaggedIf uuid record pre tags)) in
  let '(old, version_id) := res in
  let! acks := fan_out_object 0 (replicated record version_id) in
  let! _ := fan_out_tags record version_id tags in
  let! _ := enforce_ack_quorum (1 + acks) in
  act_ret (old, version_id).

Definition cluster_delete (round : nat) (t : Z) (uuid bucket key : string) (pre : DeletePrecondition) (owner : string)
  : cact (option ObjectRecord) :=
  let! _ := check_write_quorum in
  let! old := local (OnObjects (DeleteObjectIf t uuid bucket key pre owner)) in
  match old with
  | None => act_ret None
  | Some o =>
      let! latest := attempt (local (OnObjects (GetLatestObject bucket key))) in
      let! acks := match latest with
                   | Some (Some marker) =>
                       if o_is_delete_marker marker then fan_out_object round marker
                       else fan_out_version_delete round bucket key (default "null" (o_version_id o))
                   | _ => fan_out_version_delete round bucket key (default "null" (o_version_id o))
                   end in
      let! _ := enforce_ack_quorum (1 + acks) in
      act_ret (Some o)
  end.

Definition cluster_object {A : Type} (c : ObjectCall A) : cact A :=
  match c with
  | PutObjectIf uuid record pre => put_object_tagged uuid record pre []
  | PutObjectTaggedIf uuid record pre tags => put_object_tagged uuid record pre tags
  | DeleteObjectIf t uuid bucket key pre owner => cluster_delete 0 t uuid bucket key pre owner
  | c => local (OnObjects c)
  end.

Definition cluster_delete_version (round : nat) (t : Z) (bucket key version_id : string) (pre : DeletePrecondition)
  : cact (option ObjectRecord) :=
  let! _ := check_write_quorum in
  let! deleted := local (OnVersions (DeleteObjectVersionIf t bucket key version_id pre)) in
  match deleted with
  | None => act_ret None
  | Some d =>
      let! acks := fan_out_version_delete round bucket key version_id in
      let! _ := enforce_ack_quorum (1 + acks) in
      act_ret (Some d)
  end.

(** The trait's default of the batch delete: the entries one by one. *)
Fixpoint cluster_delete_batch (round : nat) (bucket : string) (entries : list (BatchDeleteEntry * (Z * string))) (owner : string)
    (w : ClusterWorld S) : ClusterWorld S * list (outcome ArcaError (option ObjectRecord)) :=
  match entries with
  | [] => (w, [])
  | (entry, (t, uuid)) :: rest =>
      let '(w1, r) := match bd_version_id entry with
                      | Some version_id => cluster_delete_version round t bucket (bd_key entry) version_id (bd_pre entry) w
                      | None => cluster_delete round t uuid bucket (bd_key entry) (bd_pre entry) owner w
                      end in
      let '(w2, rs) := cluster_delete_batch (1 + round) bucket rest owner w1 in (w2, r :: rs)
  end.

Definition cluster_version {A : Type} (c : VersionCall A) : cact A :=
  match c with
  | DeleteObjectVersionIf t bucket key version_id pre => cluster_delete_version 0 t bucket key version_id pre
  | DeleteObjectsIf bucket entries owner => fun w =>
      let '(w', rs) := cluster_delete_batch 0 bucket entries owner w in (w', Ok rs)
  | c => local (OnVersions c)
  end.

Definition complete_tagged (uuid upload_id : string) (record : ObjectRecord) (pre : WritePrecondition)
    (tags : list (string * string)) : cact CompletedUpload :=
  let! _ := check_write_quorum in
  let! done_ := local (OnMultipart (CompleteMultipartObjectTagged uuid upload_id record pre tags)) in
  let! acks := fan_out_object 0 (replicated record (cu_version_id done_)) in
  let! _ := fan_out_tags record (cu_version_id done_) tags in
  let! _ := record_tombstone TOMBSTONE_MULTIPART upload_id in
  let! _ := fan_out_op 2 (MultipartDelete upload_id) in
  let! _ := enforce_ack_quorum (1 + acks) in
  act_ret done_.

Definition cluster_multipart {A : Type} (c : MultipartCall A) : cact A :=
  match c with
  | CreateMultipartUpload record =>
      let! _ := check_write_quorum in
      let! _ := local (OnMultipart (CreateMultipartUpload record)) in
      let! _ := clear_tombstone TOMBSTONE_MULTIPART (mu_upload_id record) in
      fan_out_op 0 (MultipartCreate record)
  | PutPart part =>
      let! _ := check_write_quorum in
      let! old := local (OnMultipart (PutPart part)) in
      let! _ := fan_out_op 0 (PartUpsert part) in
      act_ret old
  | CompleteMultipartObject uuid upload_id record pre => complete_tagged uuid upload_id record pre []
  | CompleteMultipartObjectTagged uuid upload_id record pre tags => complete_tagged uuid upload_id record pre tags
  | DeleteMultipartUpload upload_id =>
      let! _ := check_write_quorum in
      let! parts := local (OnMultipart (DeleteMultipartUpload upload_id)) in
      let! _ := record_tombstone TOMBSTONE_MULTIPART upload_id in
      let! _ := fan_out_op 0 (MultipartDelete upload_id) in
      act_ret parts
  | c => local (OnMultipart c)
  end.

(** A change of lock or encryption columns, and the row sent again. *)
Definition lock_change (c : LockCall bool) (bucket key : string) (version_id : option string) : cact bool :=
  let! _ := check_write_quorum in
  let! changed := local (OnLocks c) in
  let! _ := when_ changed (replicate_lock_change bucket key version_id) in
  act_ret changed.

Definition cluster_lock {A : Type} (c : LockCall A) : cact A :=
  match c with
  | SetObjectRetention t bucket key version_id mode until =>
      lock_change (SetObjectRetention t bucket key version_id mode until) bucket key version_id
  | SetObjectLegalHold t bucket key version_id status =>
      lock_change (SetObjectLegalHold t bucket key version_id status) bucket key version_id
  | UpdateObjectEncryption t bucket key version_id algorithm key_id =>
      lock_change (UpdateObjectEncryption t bucket key version_id algorithm key_id) bucket key version_id
  | UpdateObjectEncryptionCas t bucket key version_id old_blob_id new_blob_id algorithm key_id =>
      lock_change (UpdateObjectEncryptionCas t bucket key version_id old_blob_id new_blob_id algorithm key_id)
        bucket key version_id
  end.

Definition cluster_config {A : Type} (c : ConfigCall A) : cact A :=
  match c with
  | SetBucketConfig t bucket config_key config_value =>
      let! _ := check_write_quorum in
      let! _ := local (OnConfig (SetBucketConfig t bucket config_key config_value)) in
      let! _ := clear_tombstone TOMBSTONE_BUCKET_CONFIG (pair_key bucket config_key) in
      fan_out_op 0 (BucketConfigSet bucket config_key config_value)
  | DeleteBucketConfig bucket config_key =>
      let! _ := check_write_quorum in
      let! existed := local (OnConfig (DeleteBucketConfig bucket config_key)) in
      let! _ := when_ existed
        (let! _ := record_tombstone TOMBSTONE_BUCKET_CONFIG (pair_key bucket config_key) in
         fan_out_op 0 (BucketConfigDelete bucket config_key)) in
      act_ret existed
  | PutBucketTags t bucket tags =>
      let! _ := check_write_quorum in
      let! _ := local (OnConfig (PutBucketTags t bucket tags)) in
      let! _ := (if is_nil tags then record_tombstone TOMBSTONE_BUCKET_TAGS bucket
                 else clear_tombstone TOMBSTONE_BUCKET_TAGS bucket) in
      fan_out_op 0 (BucketTags bucket tags)
  | DeleteBucketTags bucket =>
      let! _ := check_write_quorum in
      let! existed := local (OnConfig (DeleteBucketTags bucket)) in
      let! _ := when_ existed
        (let! _ := record_tombstone TOMBSTONE_BUCKET_TAGS bucket in fan_out_op 0 (BucketTags bucket [])) in
      act_ret existed
  | PutObjectTags bucket key version_id tags =>
      let! _ := check_write_quorum in
      let! _ := local (OnConfig (PutObjectTags bucket key version_id tags)) in
      fan_out_op 0 (ObjectTags bucket key version_id tags)
  | DeleteObjectTags bucket key version_id =>
      let! _ := check_write_quorum in
      let! existed := local (OnConfig (DeleteObjectTags bucket key version_id)) in
      let! _ := when_ existed (fan_out_op 0 (ObjectTags bucket key version_id [])) in
      act_ret existed
  | c => local (OnConfig c)
  end.

(** [seed_object_seq_to_max] and [list_referenced_blob_ids] are not overridden:
    the trait's defaults answer. *)
Definition cluster_replication {A : Type} (c : ReplicationCall A) : cact A :=
  match c with
  | SeedObjectSeqToMax => act_ret 0%Z
  | ListReferencedBlobIds => act_fail (Internal "list_referenced_blob_ids: not supported by this backend")
  | c => local (OnReplication c)
  end.

(** [impl MetadataStore for ClusterMetadataStore] *)
Definition cluster : MetadataStore_ (ClusterWorld S) := fun A c =>
  match c with
  | OnBuckets c => cluster_bucket c
  | OnObjects c => cluster_object c
  | OnVersions c => cluster_version c
  | OnMultipart c => cluster_multipart c
  | OnLocks c => cluster_lock c
  | OnConfig c => cluster_config c
  | OnLifecycle c => local (OnLifecycle c)
  | OnReplication c => cluster_replication c
  end.
End cluster.
