(* ===== verification/ClusterMetaSafety.v ===== *)
(** What the answers of a clustered write mean.

    A node [holds] a row when merging the row into its table again changes
    nothing: it has the row, or one that supersedes it.  An object write that
    is answered with success in quorum mode is held, blob included, by as many
    nodes as the write quorum, so it outlives the loss of any smaller set of
    nodes.  With the admission gate closed no write changes anything, and a
    call that is no write sends no message.  The node id in [server_config] is
    never taken from a peer. *)

From S2P Require Import Prelude S3Errors Policy Types SqlTable Text Preconditions ControlMerge IdentityStore FsBlob.
From S2P Require Import MetadataStore MetadataRows MetadataInvariant MetadataSteps MetadataOps MetadataReplication.
From S2P Require Import MetadataTrait MetadataCache ClusterState ClusterMeta.

Open Scope act_scope.

(** ** Holding a row *)

Definition holds (r : ObjectRecord) (s : MetaStore) : Prop :=
  let v := version_row (o_bucket r) (o_key r) (o_version_id r) (ms_objects s) in absorb_opt v r = v.

Lemma holds_same_objects r s s' : ms_objects s' = ms_objects s -> holds r s -> holds r s'.
Proof. unfold holds. by intros ->. Qed.

Lemma absorb_stored r :
  absorb_opt (Some (set_latest false (inserted_columns r))) r = Some (set_latest false (inserted_columns r)).
Proof.
  unfold absorb_opt, absorb, resolve_replicated. f_equal.
  destruct r as [bu ke bl si et ct lm md ea ek ow vi la dm ts rm rd lh sc ca cv pa rs lu cu]. simpl.
  rewrite Z.compare_refl, bool_decide_true by done. cbn [negb].
  unfold merge_content, merge_lock. cbn [o_content_updated_at o_lock_updated_at].
  replace (opt_gtb cu cu) with false by (destruct cu; simpl; [by rewrite Z.ltb_irrefl|done]).
  replace (opt_gtb lu lu) with false by (destruct lu; simpl; [by rewrite Z.ltb_irrefl|done]).
  unfold same_replicated_content. by rewrite bool_decide_true.
Qed.

Lemma version_row_installed v uuid seq r m :
  rows_ok m -> fresh_version (o_bucket r) (o_key r) uuid m ->
  version_row (o_bucket r) (o_key r) (new_version v uuid) (installed_rows v uuid seq r m) =
  Some (set_latest false (inserted_columns (as_current (new_version v uuid) r))).
Proof.
  intros Hm Hf.
  destruct (rows_ok_installed _ _ _ Hm v uuid seq r eq_refl eq_refl Hf (o_bucket r) (o_key r)) as [Hu _].
  apply version_row_Some; [done|]. rewrite installed_rows_eq. cbv zeta.
  set (x := MkRow _ seq). set (m1 := insert_row x _).
  assert (m1 !! fresh (dom (under v (o_bucket r) (o_key r) m)) = Some x) as Hx by apply lookup_insert_eq.
  assert (forall c, at_key (o_bucket r) (o_key r) (map_row (set_latest c) x) /\
    version_is (new_version v uuid) (map_row (set_latest c) x) /\
    set_latest false (inserted_columns (as_current (new_version v uuid) r)) =
    set_latest false (row_rec (map_row (set_latest c) x))) as Hid by (intros c; by destruct r).
  assert (exists i y, recompute (o_bucket r) (o_key r) m1 !! i = Some y /\ at_key (o_bucket r) (o_key r) y /\
    version_is (new_version v uuid) y /\
    set_latest false (inserted_columns (as_current (new_version v uuid) r)) = set_latest false (row_rec y)) as Hr.
  { eexists _, _. rewrite lookup_recompute, Hx. cbn [fmap option_fmap option_map].
    rewrite decide_True by (by destruct r). split; [done|]. apply Hid. }
  destruct v; [destruct (o_is_tombstone r)|..]; try exact Hr.
  eexists _, x. split; [exact Hx|]. by destruct r.
Qed.

Lemma current_id vid r :
  o_bucket (as_current vid r) = o_bucket r /\ o_key (as_current vid r) = o_key r /\
  o_version_id (as_current vid r) = vid.
Proof. by destruct r. Qed.

Lemma holds_installed v uuid seq r s s' :
  rows_ok (ms_objects s) -> fresh_version (o_bucket r) (o_key r) uuid (ms_objects s) ->
  ms_objects s' = installed_rows v uuid seq r (ms_objects s) ->
  holds (as_current (new_version v uuid) r) s'.
Proof.
  intros Hm Hf Ho. unfold holds. destruct (current_id (new_version v uuid) r) as (-> & -> & ->).
  rewrite Ho, version_row_installed by done. apply absorb_stored.
Qed.

Lemma holds_received r s : rows_ok (ms_objects s) -> holds r (apply_remote_object r s).1.
Proof.
  intros Hs. unfold holds. rewrite apply_remote_object_eq. cbn [fst].
  replace (ms_objects (with_object_seq _ _)) with (replicated_rows (ms_object_seq s + 1) r (ms_objects s))
    by (by destruct s).
  rewrite version_row_replicated, decide_True by done. apply absorb_opt_again.
Qed.

Lemma holds_redelivered r s : rows_ok (ms_objects s) -> holds r s -> holds r (apply_remote_object r s).1.
Proof. intros Hs _. by apply holds_received. Qed.

(** ** Successful local writes *)

Lemma bind_ok_inv {S E A B : Type} (m : act S E A) (f : A -> act S E B) s s' b :
  act_bind m f s = (s', Ok b) -> exists a s1, m s = (s1, Ok a) /\ f a s1 = (s', Ok b).
Proof. unfold act_bind. destruct (m s) as [s1 [a| |]]; intros H; [eauto|done..]. Qed.

Lemma write_object_tags_objects b k v tags s : ms_objects (write_object_tags b k v tags s).1 = ms_objects s.
Proof.
  unfold write_object_tags. apply (bind_write (fun s s' => ms_objects s' = ms_objects s)); [congruence|by destruct s|].
  intros n s1 _. apply (act_for_inv _ (fun s' => ms_objects s' = ms_objects s1)); [|done].
  intros t s2 _ Hs. unfold insert_tag. destruct (ms_object_tags s2 !! _); [done|]. by destruct s2.
Qed.

Lemma when_tags_objects b k v tags s s' u :
  when (negb (bool_decide (tags = []))) (map_err Db (write_object_tags b k v tags)) s = (s', Ok u) ->
  ms_objects s' = ms_objects s.
Proof.
  unfold when. destruct (negb _); [|by intros [= <-]].
  intros Hw%map_err_ok_inv. rewrite <- (write_object_tags_objects b k v tags s). by rewrite Hw.
Qed.

Lemma install_ok_inv uuid r pre s s' r' old :
  install_object uuid r pre s = (s', Ok (r', old)) ->
  exists v, r' = as_current (new_version v uuid) r /\
    ms_objects s' = installed_rows v uuid (ms_object_seq s + 1) r (ms_objects s).
Proof.
  intros Hi. destruct (write_evaluate pre (get_object (o_bucket r) (o_key r) s)) as [[]|c|] eqn:E.
  - destruct (install_object_ok uuid r pre s _ eq_refl E) as (s1 & Hi' & Hb).
    rewrite Hi' in Hi. injection Hi as <- <- _. apply objects_become_fields in Hb as [Hb _]. eauto.
  - rewrite (install_object_err _ _ _ _ _ E) in Hi. done.
  - by destruct (write_evaluate_total pre (get_object (o_bucket r) (o_key r) s)).
Qed.

Lemma put_holds uuid r pre tags s s' old vid :
  rows_ok (ms_objects s) -> fresh_version (o_bucket r) (o_key r) uuid (ms_objects s) ->
  put_object_tagged_if uuid r pre tags s = (s', Ok (old, vid)) -> holds (as_current vid r) s'.
Proof.
  intros Hs Hf Hp. apply map_err_ok_inv, atomically_ok_inv, bind_ok_inv in Hp as ([r' o'] & s1 & Hi & Hp).
  apply bind_ok_inv in Hp as (u & s2 & Hw & [= <- <- <-]). cbn [fst snd] in *.
  destruct (install_ok_inv _ _ _ _ _ _ _ Hi) as (v & -> & Ho). apply when_tags_objects in Hw.
  destruct (current_id (new_version v uuid) r) as (_ & _ & ->).
  eapply holds_installed; [done..|]. by rewrite Hw.
Qed.

Lemma complete_holds uuid u r pre tags s s' d :
  rows_ok (ms_objects s) -> fresh_version (o_bucket r) (o_key r) uuid (ms_objects s) ->
  complete_multipart_object_tagged uuid u r pre tags s = (s', Ok d) -> holds (as_current (cu_version_id d) r) s'.
Proof.
  intros Hs Hf Hp. apply map_err_ok_inv, atomically_ok_inv, bind_ok_inv in Hp as (up & s0 & [= <- <-] & Hp).
  apply bind_ok_inv in Hp as (? & s1 & Hu & Hp).
  assert (s1 = s) as -> by (destruct (get_multipart_upload u s); [by injection Hu|done]).
  apply bind_ok_inv in Hp as ([r' o'] & s2 & Hi & Hp).
  apply bind_ok_inv in Hp as (? & s3 & Hw & Hp). apply bind_ok_inv in Hp as (ps & s4 & Ht & [= <- <-]).
  cbn [fst snd cu_version_id] in *. destruct (install_ok_inv _ _ _ _ _ _ _ Hi) as (v & -> & Ho).
  apply when_tags_objects in Hw. destruct (current_id (new_version v uuid) r) as (_ & _ & ->).
  eapply holds_installed; [done..|]. rewrite <- Ho, <- Hw.
  unfold take_upload in Ht. injection Ht as <- _. by destruct s3.
Qed.

(** ** Rounds of messages *)

Section rounds.
Context {S : Type} (route : string -> string).
Implicit Types (w : ClusterWorld S) (P Q : Remote -> Prop).

(** The node a round leaves to its messages: all but [cw_remotes] is unchanged. *)
Definition same_node w w' : Prop :=
  cw_inner w' = cw_inner w /\ cw_ids w' = cw_ids w /\ cw_cluster w' = cw_cluster w.

Definition all_nodes Q w : Prop := forall id n, cw_remotes w !! id = Some n -> Q n.

Definition keep P (X : gset string) w : Prop := forall id, id ∈ X -> exists n, cw_remotes w !! id = Some n /\ P n.

Section round.
Context {A : Type} (handler : Z -> Remote -> Remote * outcome Z A) (counts : A -> bool) (Q P : Remote -> Prop).
Hypotheses (HQ : forall t n, Q n -> Q (handler t n).1) (HP : forall t n, Q n -> P n -> P (handler t n).1).

Lemma send_same d e w : same_node w (send route d handler e w).1.
Proof.
  unfold send, same_node. destruct (cw_remotes w !! route e) as [n|], d; try done.
  by destruct (handler receiver_now n).
Qed.

Lemma send_lookup d e w id n' :
  cw_remotes (send route d handler e w).1 !! id = Some n' ->
  cw_remotes w !! id = Some n' \/ exists t n, id = route e /\ cw_remotes w !! id = Some n /\ n' = (handler t n).1.
Proof.
  unfold send. destruct (cw_remotes w !! route e) as [n|] eqn:E, d as [|t|t]; try (intros ?; by left);
    [|destruct (handler t n) as [n1 res] eqn:Hh]; cbn [fst cw_remotes];
    (destruct (decide (id = route e)) as [->|Hne];
      [rewrite lookup_insert_eq; intros [= <-]; right; exists t, n|rewrite lookup_insert_ne by done; by left]).
  - done.
  - by rewrite Hh.
Qed.

Lemma send_all d e w : all_nodes Q w -> all_nodes Q (send route d handler e w).1.
Proof. intros Ha id n' [H|(t & n & _ & H & ->)]%send_lookup; [by eapply Ha|]. by eapply HQ, Ha. Qed.

Lemma send_dom d e w : dom (cw_remotes (send route d handler e w).1) = dom (cw_remotes w).
Proof.
  unfold send. destruct (cw_remotes w !! route e) as [n|] eqn:E, d as [|t|t]; try done;
    [|destruct (handler t n)]; cbn [fst cw_remotes]; rewrite dom_insert_L; apply elem_of_dom_2 in E; set_solver.
Qed.

Lemma send_keep d e X w : all_nodes Q w -> keep P X w -> keep P X (send route d handler e w).1.
Proof.
  intros Ha Hk id Hid. destruct (Hk id Hid) as (n & Hn & HPn).
  assert (is_Some (cw_remotes (send route d handler e w).1 !! id)) as [n' Hn'].
  { apply elem_of_dom. rewrite send_dom. by apply elem_of_dom_2 in Hn. }
  exists n'. split; [done|]. destruct (send_lookup _ _ _ _ _ Hn') as [H|(t & m & _ & H & ->)]; [congruence|].
  assert (m = n) as -> by congruence. by apply HP; [eapply Ha|].
Qed.

Lemma fan_out_same d es w : same_node w (fan_out route d handler counts es w).1.
Proof.
  revert w. induction es as [|e es IH]; intros w; [done|]. simpl.
  destruct (send route (d e) handler e w) as [w1 a] eqn:E. specialize (IH w1).
  destruct (fan_out route d handler counts es w1) as [w2 n]. pose proof (send_same (d e) e w) as Hs.
  rewrite E in Hs. unfold same_node in *. simpl in *. by intuition congruence.
Qed.

Lemma fan_out_all d es w : all_nodes Q w -> all_nodes Q (fan_out route d handler counts es w).1.
Proof.
  revert w. induction es as [|e es IH]; intros w Ha; [done|]. simpl. pose proof (send_all (d e) e w Ha) as Ha1.
  destruct (send route (d e) handler e w) as [w1 a]. specialize (IH w1 Ha1).
  by destruct (fan_out route d handler counts es w1) as [w2 n].
Qed.

Lemma fan_out_keep d es X w :
  all_nodes Q w -> keep P X w -> keep P X (fan_out route d handler counts es w).1.
Proof.
  revert w. induction es as [|e es IH]; intros w Ha Hk; [done|]. simpl.
  pose proof (send_all (d e) e w Ha) as Ha1. pose proof (send_keep (d e) e X w Ha Hk) as Hk1.
  destruct (send route (d e) handler e w) as [w1 a]. specialize (IH w1 Ha1 Hk1).
  by destruct (fan_out route d handler counts es w1) as [w2 n].
Qed.

(** Each node gets its message, once. *)
Lemma send_other d e w id : id <> route e -> cw_remotes (send route d handler e w).1 !! id = cw_remotes w !! id.
Proof.
  intros Hne. unfold send. destruct (cw_remotes w !! route e) as [n|], d as [|t|t]; try done;
    [|destruct (handler t n)]; cbn [fst cw_remotes]; by rewrite lookup_insert_ne.
Qed.

Lemma fan_out_other d es w id :
  id ∉ route <$> es -> cw_remotes (fan_out route d handler counts es w).1 !! id = cw_remotes w !! id.
Proof.
  revert w. induction es as [|e es IH]; intros w Hid; [done|]. rewrite fmap_cons, not_elem_of_cons in Hid. simpl.
  destruct Hid as [Hne Hid]. pose proof (send_other (d e) e w id Hne) as Hs.
  destruct (send route (d e) handler e w) as [w1 a]. specialize (IH w1 Hid).
  destruct (fan_out route d handler counts es w1) as [w2 n]. cbn in *. congruence.
Qed.

Lemma fan_out_delivered d es w e t n :
  NoDup (route <$> es) -> e ∈ es -> d e = Unanswered t \/ d e = Answers t -> cw_remotes w !! route e = Some n ->
  cw_remotes (fan_out route d handler counts es w).1 !! route e = Some (handler t n).1.
Proof.
  revert w. induction es as [|e0 es IH]; intros w Hnd He Hd Hn; [by apply not_elem_of_nil in He|].
  rewrite fmap_cons in Hnd. apply NoDup_cons in Hnd as [Hne Hnd]. simpl.
  apply elem_of_cons in He as [<-|He].
  - pose proof (fan_out_other d es (send route (d e) handler e w).1 (route e) Hne) as Ho.
    assert (cw_remotes (send route (d e) handler e w).1 !! route e = Some (handler t n).1) as Hs.
    { unfold send. rewrite Hn. destruct Hd as [-> | ->]; [|destruct (handler t n)]; apply lookup_insert_eq. }
    destruct (send route (d e) handler e w) as [w1 a]. cbn [fst] in *.
    destruct (fan_out route d handler counts es w1) as [w2 m]. cbn [fst] in *. congruence.
  - assert (route e <> route e0) as Hr by (intros E; apply Hne; rewrite <- E; by apply list_elem_of_fmap_2).
    pose proof (send_other (d e0) e0 w (route e) Hr) as Hs.
    destruct (send route (d e0) handler e0 w) as [w1 a]. cbn in Hs.
    specialize (IH w1 Hnd He Hd (eq_trans Hs Hn)). by destruct (fan_out route d handler counts es w1).
Qed.

(** A node whose answer counts has what the message asked for. *)
Hypothesis (Hcounts : forall t n a, Q n -> (handler t n).2 = Ok a -> counts a = true -> P (handler t n).1).

Lemma send_counted d e w a :
  all_nodes Q w -> (send route d handler e w).2 = Some a -> counts a = true ->
  keep P {[route e]} (send route d handler e w).1.
Proof.
  intros Ha Hs Hc id ->%elem_of_singleton. revert Hs. unfold send.
  destruct (cw_remotes w !! route e) as [n|] eqn:E, d as [|t|t]; try done.
  pose proof (Hcounts t n a (Ha _ _ E)) as Hn. destruct (handler t n) as [n' [b| |]]; try done.
  cbn in *. intros [= ->]. exists n'. rewrite lookup_insert_eq. eauto.
Qed.

(** The nodes counted are distinct nodes when the endpoints lead to distinct nodes. *)
Lemma fan_out_counted d es w :
  all_nodes Q w -> NoDup (route <$> es) ->
  exists X : gset string, X ⊆ list_to_set (route <$> es) /\
    Z.of_nat (size X) = (fan_out route d handler counts es w).2 /\ keep P X (fan_out route d handler counts es w).1.
Proof.
  revert w. induction es as [|e es IH]; intros w Ha Hnd; [by exists ∅|].
  rewrite fmap_cons in Hnd. apply NoDup_cons in Hnd as [Hne Hnd]. simpl.
  pose proof (send_all (d e) e w Ha) as Ha1. pose proof (send_counted (d e) e w) as Hc.
  destruct (send route (d e) handler e w) as [w1 a]. cbn [fst snd] in *.
  destruct (IH w1 Ha1 Hnd) as (X & HX & Hsz & Hk).
  pose proof (fun Y => fan_out_keep d es Y w1 Ha1) as Hmono.
  destruct (fan_out route d handler counts es w1) as [w2 n]. cbn [fst snd] in *.
  destruct (match a with Some a => counts a | None => false end) eqn:E.
  - exists ({[route e]} ∪ X). repeat split; [set_solver| |].
    + rewrite size_union, size_singleton; [lia|]. apply disjoint_singleton_l. intros Hin%HX.
      apply elem_of_list_to_set in Hin. done.
    + destruct a as [a|]; [|done]. specialize (Hc a Ha eq_refl E). apply Hmono in Hc.
      intros id [Hid|Hid]%elem_of_union; [by apply Hc|by apply Hk].
  - exists X. repeat split; [set_solver|lia|done].
Qed.
End round.
End rounds.

(** ** Messages and rows *)

Definition remote_ok (n : Remote) : Prop := rows_ok (ms_objects (rm_meta n)).

(** The node has the row and the sidecar of the blob it names. *)
Definition keeps (r : ObjectRecord) (n : Remote) : Prop :=
  holds r (rm_meta n) /\ (o_blob_id r = EmptyString \/ o_blob_id r ∈ rm_sidecars n).

Lemma receive_object_ok r n : remote_ok n -> remote_ok (receive_object r n).1.
Proof.
  intros Hn. unfold receive_object. destruct (negb _); [done|]. pose proof (remote_rows_ok r (rm_meta n) Hn) as H.
  by destruct (apply_remote_object r (rm_meta n)) as [m []].
Qed.

Lemma receive_object_keeps r n : remote_ok n -> keeps r n -> keeps r (receive_object r n).1.
Proof.
  intros Hn [Hh Hb]. unfold receive_object. destruct (negb _); [done|].
  pose proof (holds_received r (rm_meta n) Hn) as H.
  by destruct (apply_remote_object r (rm_meta n)) as [m []]; split.
Qed.

Lemma receive_object_counted r n a :
  remote_ok n -> (receive_object r n).2 = Ok a -> ack_applied a && ack_has_blob a = true ->
  keeps r (receive_object r n).1.
Proof.
  intros Hn. unfold receive_object. destruct (negb _); [done|]. pose proof (holds_received r (rm_meta n) Hn) as H.
  destruct (apply_remote_object r (rm_meta n)) as [m []]; try done. cbn in *. intros [= <-]. cbn.
  intros [Hb%bool_decide_eq_true|Hb%bool_decide_eq_true]%orb_true_iff; split; auto.
Qed.

(** The messages that follow an object row leave the rows alone. *)
Definition follows_row (op : ControlOp) : bool :=
  match op with ObjectTags _ _ _ _ | MultipartDelete _ => true | _ => false end.

Lemma receive_op_rows fk t op n :
  follows_row op = true ->
  ms_objects (rm_meta (receive_op fk t op n).1) = ms_objects (rm_meta n) /\
  rm_sidecars (receive_op fk t op n).1 = rm_sidecars n.
Proof.
  assert (forall A (m : mact ArcaError A), ms_objects (m (rm_meta n)).1 = ms_objects (rm_meta n) ->
    ms_objects (rm_meta (on_meta m n).1) = ms_objects (rm_meta n) /\
    rm_sidecars (on_meta m n).1 = rm_sidecars n) as Hm.
  { intros A m E. unfold on_meta. by destruct (m (rm_meta n)) as [s []]. }
  assert ((receive_op fk t op n).1 = (apply_op fk t op n).1) as -> by
    (unfold receive_op; by destruct (apply_op fk t op n) as [? []]).
  destruct op; try done; intros _; apply Hm.
  - unfold put_object_tags, internal. rewrite map_err_state.
    apply (atomically_state (fun s => ms_objects s = _)); [done|apply write_object_tags_objects].
  - by destruct n as [[] ? ?].
Qed.

Lemma receive_op_ok fk t op n : follows_row op = true -> remote_ok n -> remote_ok (receive_op fk t op n).1.
Proof. unfold remote_ok. intros H. by destruct (receive_op_rows fk t op n H) as [-> _]. Qed.

Lemma receive_op_keeps fk t op r n : follows_row op = true -> keeps r n -> keeps r (receive_op fk t op n).1.
Proof.
  intros H [Hh Hb]. destruct (receive_op_rows fk t op n H) as [E1 E2]. split; [|by rewrite E2].
  by apply (holds_same_objects _ (rm_meta n)).
Qed.

(** ** The store below the decorator *)

(** The two writes of object rows, with the row a success tells of. *)
Inductive row_write : forall A : Type, MetaCall A -> string -> ObjectRecord -> (A -> option string) -> Prop :=
  | rw_put uuid r pre : row_write _ (OnObjects (PutObjectIf uuid r pre)) uuid r snd
  | rw_put_tagged uuid r pre tags : row_write _ (OnObjects (PutObjectTaggedIf uuid r pre tags)) uuid r snd
  | rw_complete uuid u r pre : row_write _ (OnMultipart (CompleteMultipartObject uuid u r pre)) uuid r cu_version_id
  | rw_complete_tagged uuid u r pre tags :
      row_write _ (OnMultipart (CompleteMultipartObjectTagged uuid u r pre tags)) uuid r cu_version_id.

(** A store whose writes of object rows are those of the tables below it. *)
Class WritesThrough {S : Type} (inner : MetadataStore_ S) (tables : S -> MetaStore) : Prop :=
  writes_through : forall A (c : MetaCall A) uuid r vid s, row_write A c uuid r vid ->
    tables (inner A c s).1 = (sqlite true A c (tables s)).1 /\ (inner A c s).2 = (sqlite true A c (tables s)).2.

#[export] Instance sqlite_writes_through : WritesThrough (sqlite true) id.
Proof. done. Qed.

#[export] Instance caching_writes_through {S CB CO : Type}
    `{!Moka CB (option BucketInfo), !Moka CO (option ObjectRecord)} now (inner : MetadataStore_ S) tables
    `{!WritesThrough inner tables} :
  WritesThrough (caching (CB := CB) (CO := CO) now inner) (tables ∘ cm_inner).
Proof.
  intros A c uuid r vid st Hw. pose proof (writes_through A c uuid r vid (cm_inner st) Hw) as H.
  destruct Hw; simpl; unfold if_ok, forward; destruct (inner _ _ (cm_inner st)) as [s' []]; exact H.
Qed.

Lemma sqlite_holds {A : Type} (c : MetaCall A) uuid r vid s s' a :
  row_write A c uuid r vid -> rows_ok (ms_objects s) -> fresh_version (o_bucket r) (o_key r) uuid (ms_objects s) ->
  sqlite true A c s = (s', Ok a) -> holds (as_current (vid a) r) s'.
Proof.
  intros Hw Hs Hf H. destruct Hw; simpl in H.
  - destruct a as [old v]. by eapply put_holds.
  - destruct a as [old v]. by eapply put_holds.
  - by eapply complete_holds.
  - by eapply complete_holds.
Qed.

(** ** Acknowledged writes *)

Section acknowledged.
Context {S : Type} (inner : MetadataStore_ S) (tables : S -> MetaStore) `{!WritesThrough inner tables}.
Variables (fk : bool) (now : Z) (route : string -> string) (net : nat -> string -> Delivery).
Implicit Types (w : ClusterWorld S).

(** Each endpoint of the view leads to a node of its own, none to this node. *)
Definition distinct_nodes w : Prop := NoDup (cl_node_id (cw_cluster w) :: (route <$> live_peers (cw_cluster w))).

Definition tables_ok w : Prop := rows_ok (ms_objects (tables (cw_inner w))) /\ all_nodes remote_ok w.

(** The node [id] has the row: this node in its tables, another one also the
    sidecar of the blob. *)
Definition node_keeps (r : ObjectRecord) (id : string) w : Prop :=
  if decide (id = cl_node_id (cw_cluster w)) then holds r (tables (cw_inner w))
  else exists n, cw_remotes w !! id = Some n /\ keeps r n.

Lemma fan_out_object_counted round r w :
  all_nodes remote_ok w -> NoDup (route <$> live_peers (cw_cluster w)) ->
  exists w' acks (X : gset string), fan_out_object route net round r w = (w', Ok acks) /\ same_node w w' /\
    all_nodes remote_ok w' /\ X ⊆ list_to_set (route <$> live_peers (cw_cluster w)) /\
    Z.of_nat (size X) = acks /\ keep (keeps r) X w'.
Proof.
  intros Ha Hnd. unfold fan_out_object. set (es := live_peers (cw_cluster w)) in *.
  set (counts := fun ack => ack_applied ack && ack_has_blob ack).
  pose proof (fan_out_same route (fun _ => receive_object r) counts (net round) es w) as Hs.
  pose proof (fan_out_all route (fun _ => receive_object r) counts remote_ok
    (fun _ => receive_object_ok r) (net round) es w Ha) as Ha'.
  destruct (fan_out_counted route (fun _ => receive_object r) counts remote_ok (keeps r)
    (fun _ => receive_object_ok r) (fun _ => receive_object_keeps r) (fun _ => receive_object_counted r)
    (net round) es w Ha Hnd) as (X & HX & Hsz & Hk).
  destruct (fan_out route (net round) _ counts es w) as [w' acks]. eauto 10.
Qed.

Lemma fan_out_op_keeps round op r X w :
  follows_row op = true -> all_nodes remote_ok w -> keep (keeps r) X w ->
  exists w', fan_out_op fk route net round op w = (w', Ok tt) /\ same_node w w' /\
    all_nodes remote_ok w' /\ keep (keeps r) X w'.
Proof.
  intros Hop Ha Hk. unfold fan_out_op. set (es := live_peers (cw_cluster w)).
  set (h := fun t => receive_op fk t op). set (counts := fun _ : unit => true).
  pose proof (fan_out_same route h counts (net round) es w) as Hs.
  pose proof (fan_out_all route h counts remote_ok (fun t n => receive_op_ok fk t op n Hop) (net round) es w Ha) as Ha'.
  pose proof (fan_out_keep route h counts remote_ok (keeps r) (fun t n => receive_op_ok fk t op n Hop)
    (fun t n _ => receive_op_keeps fk t op r n Hop) (net round) es X w Ha Hk) as Hk'.
  destruct (fan_out route (net round) h counts es w) as [w' n]. eauto.
Qed.

Lemma fan_out_tags_keeps record vid tags r X w :
  all_nodes remote_ok w -> keep (keeps r) X w ->
  exists w', fan_out_tags fk route net record vid tags w = (w', Ok tt) /\ same_node w w' /\
    all_nodes remote_ok w' /\ keep (keeps r) X w'.
Proof.
  intros Ha Hk. unfold fan_out_tags. destruct (is_nil tags); [|by apply fan_out_op_keeps].
  by exists w.
Qed.

Lemma same_node_trans w1 w2 w3 : same_node w1 w2 -> same_node w2 w3 -> same_node w1 w3.
Proof. unfold same_node. by intuition congruence. Qed.

Lemma enforce_ok acks q w w' u :
  cl_write_quorum (cw_cluster w) = Some q -> enforce_ack_quorum acks w = (w', Ok u) -> w' = w /\ (q <= acks)%Z.
Proof.
  unfold enforce_ack_quorum. intros ->. cbn [quorum_satisfied]. destruct (Z.leb_spec q acks); by intros [= <-].
Qed.

Lemma gate_ok w w' u : check_write_quorum w = (w', Ok u) -> w' = w.
Proof. by intros [= <-]. Qed.

Lemma local_holds {A : Type} (c : MetaCall A) uuid r vid w w1 a :
  row_write A c uuid r vid -> tables_ok w ->
  fresh_version (o_bucket r) (o_key r) uuid (ms_objects (tables (cw_inner w))) ->
  local inner c w = (w1, Ok a) ->
  holds (as_current (vid a) r) (tables (cw_inner w1)) /\ cw_cluster w1 = cw_cluster w /\ all_nodes remote_ok w1.
Proof.
  intros Hw [Hs Ha] Hf Hl. unfold local in Hl.
  destruct (writes_through A c uuid r vid (cw_inner w) Hw) as [E1 E2].
  destruct (inner A c (cw_inner w)) as [s res]. injection Hl as <- ->. cbn in *.
  destruct (sqlite true A c (tables (cw_inner w))) as [t res] eqn:Eq. cbn in *. subst. split; [|done].
  by eapply sqlite_holds.
Qed.

(** What an answer of success promises: the row at this node and at others,
    with it as many as the quorum. *)
Definition acknowledged_by (r : ObjectRecord) (q : Z) w w' : Prop :=
  cw_cluster w' = cw_cluster w /\ holds r (tables (cw_inner w')) /\
  exists X : gset string, X ⊆ list_to_set (route <$> live_peers (cw_cluster w)) /\
    (q <= 1 + Z.of_nat (size X))%Z /\ keep (keeps r) X w'.

Lemma acknowledged_by_intro r q w w1 w' (X : gset string) :
  holds r (tables (cw_inner w1)) -> cw_cluster w1 = cw_cluster w -> same_node w1 w' ->
  X ⊆ list_to_set (route <$> live_peers (cw_cluster w1)) -> (q <= 1 + Z.of_nat (size X))%Z ->
  keep (keeps r) X w' -> acknowledged_by r q w w'.
Proof.
  intros Hh Hc (E1 & _ & E3) HX Hq Hk. unfold acknowledged_by. rewrite E1, E3. rewrite Hc in HX |- *. eauto 10.
Qed.

(** Runs a step of the decorator that always succeeds. *)
Ltac run_with H := rewrite (act_bind_run _ _ _ _ _ H); cbv beta; cbn [fst snd].

Lemma put_acknowledged uuid r pre tags w w' old vid q :
  cl_write_quorum (cw_cluster w) = Some q -> distinct_nodes w -> tables_ok w ->
  fresh_version (o_bucket r) (o_key r) uuid (ms_objects (tables (cw_inner w))) ->
  put_object_tagged inner fk route net uuid r pre tags w = (w', Ok (old, vid)) ->
  acknowledged_by (as_current vid r) q w w'.
Proof.
  intros Hq [_ Hnd]%NoDup_cons Ht Hf H. apply bind_ok_inv in H as (? & w0 & ->%gate_ok & H).
  apply bind_ok_inv in H as ([old' vid'] & w1 & Hl & H).
  destruct (local_holds _ uuid r snd w w1 (old', vid') (rw_put_tagged _ _ _ _) Ht Hf Hl) as (Hh & Hc & Ha).
  rewrite <- Hc in Hq, Hnd. cbn [snd] in Hh.
  destruct (fan_out_object_counted 0 (as_current vid' r) w1 Ha Hnd) as (w2 & acks & X & H2 & S2 & A2 & HX & Hsz & K2).
  revert H. unfold replicated. run_with H2.
  destruct (fan_out_tags_keeps r vid' tags (as_current vid' r) X w2 A2 K2) as (w3 & H3 & S3 & A3 & K3). run_with H3.
  assert (cl_write_quorum (cw_cluster w3) = Some q) as Hq3 by (by destruct S3 as (_ & _ & ->), S2 as (_ & _ & ->)).
  intros ([] & w4 & [-> Hle]%(enforce_ok _ q) & [= <- <- <-])%bind_ok_inv; [|done].
  apply (acknowledged_by_intro _ q w w1 w3 X); [done|done|by eapply same_node_trans|done|lia|done].
Qed.

Lemma complete_acknowledged uuid u r pre tags w w' d q :
  cl_write_quorum (cw_cluster w) = Some q -> distinct_nodes w -> tables_ok w ->
  fresh_version (o_bucket r) (o_key r) uuid (ms_objects (tables (cw_inner w))) ->
  complete_tagged inner fk now route net uuid u r pre tags w = (w', Ok d) ->
  acknowledged_by (as_current (cu_version_id d) r) q w w'.
Proof.
  intros Hq [_ Hnd]%NoDup_cons Ht Hf H. apply bind_ok_inv in H as (? & w0 & ->%gate_ok & H).
  apply bind_ok_inv in H as (d' & w1 & Hl & H).
  destruct (local_holds _ uuid r cu_version_id w w1 d' (rw_complete_tagged _ _ _ _ _) Ht Hf Hl) as (Hh & Hc & Ha).
  rewrite <- Hc in Hq, Hnd. set (row := as_current (cu_version_id d') r) in *.
  destruct (fan_out_object_counted 0 row w1 Ha Hnd) as (w2 & acks & X & H2 & S2 & A2 & HX & Hsz & K2).
  revert H. unfold replicated. fold row. run_with H2.
  destruct (fan_out_tags_keeps r (cu_version_id d') tags row X w2 A2 K2) as (w3 & H3 & S3 & A3 & K3). run_with H3.
  unfold record_tombstone at 1, on_tombstones at 1. unfold act_bind at 1.
  destruct (record_control_tombstone _ _ _ _) as [i ?]. set (w4 := MkClusterWorld _ i _ _).
  destruct (fan_out_op_keeps 2 (MultipartDelete u) row X w4 eq_refl A3 K3) as (w5 & H5 & S5 & A5 & K5). run_with H5.
  assert (cw_inner w5 = cw_inner w1 /\ cw_cluster w5 = cw_cluster w1) as [E1 E2].
  { destruct S2 as (? & _ & ?), S3 as (? & _ & ?), S5 as (? & _ & ?). simpl in *. split; congruence. }
  assert (cl_write_quorum (cw_cluster w5) = Some q) as Hq5 by (by rewrite E2).
  intros ([] & w6 & [-> Hle]%(enforce_ok _ q) & [= <- <-])%bind_ok_inv; [|done].
  unfold acknowledged_by. rewrite E1, E2, <- Hc. split; [done|]. split; [done|].
  exists X. split; [done|]. split; [lia|done].
Qed.

Lemma write_acknowledged {A : Type} (c : MetaCall A) uuid r vid w w' a q :
  row_write A c uuid r vid -> cl_write_quorum (cw_cluster w) = Some q -> distinct_nodes w -> tables_ok w ->
  fresh_version (o_bucket r) (o_key r) uuid (ms_objects (tables (cw_inner w))) ->
  cluster inner fk now route net A c w = (w', Ok a) -> acknowledged_by (as_current (vid a) r) q w w'.
Proof.
  intros Hw Hq Hd Ht Hf H. destruct Hw; simpl in H.
  - destruct a as [old v]. by eapply put_acknowledged.
  - destruct a as [old v]. by eapply put_acknowledged.
  - by eapply complete_acknowledged.
  - by eapply complete_acknowledged.
Qed.

(** Fewer nodes than the quorum cannot be all that have it. *)
Lemma acknowledged_survivor r q w w' (lost : gset string) :
  distinct_nodes w -> acknowledged_by r q w w' -> (Z.of_nat (size lost) < q)%Z ->
  exists id, (id ∉ lost) /\ node_keeps r id w'.
Proof.
  intros [Hn _]%NoDup_cons (Hc & Hh & X & HX & Hq & Hk) Hl.
  set (self := cl_node_id (cw_cluster w)) in *.
  assert (self ∉ X) as Hself by (intros Hin%HX; apply elem_of_list_to_set in Hin; done).
  assert (exists id, id ∈ ({[self]} ∪ X) /\ id ∉ lost) as (id & Hid & Hlost).
  { destruct (set_choose_or_empty (({[self]} ∪ X) ∖ lost)) as [[id Hid]|He]; [exists id; set_solver|].
    assert (size ({[self]} ∪ X) = 1 + size X) as Hsz
      by (rewrite size_union, size_singleton; [done|by apply disjoint_singleton_l]).
    assert (size ({[self]} ∪ X) <= size lost) by (apply subseteq_size; set_solver). lia. }
  exists id. split; [done|]. unfold node_keeps. rewrite Hc. fold self. case_decide as E; [done|].
  apply Hk. set_solver.
Qed.
End acknowledged.

(** C29. An object write (a put or a completed upload) that a node in quorum mode
    answers with success outlives the loss of fewer nodes than the write
    quorum: whatever became of the messages, some node outside any smaller set
    has the row, or one that supersedes it, and if it is a peer and the row has
    a blob, also the blob's sidecar (of a composite blob that is all the
    acknowledgement speaks of, not the files of its parts).  Each endpoint of
    the membership view must lead to a node of its own, the tables of all nodes
    satisfy the row invariant, and the version id is new.  The store below the
    decorator is any one that writes through to the tables, the cached one
    included. *)
Theorem acknowledged_write_survives {S A : Type} (inner : MetadataStore_ S) (tables : S -> MetaStore)
    (through : WritesThrough inner tables) (fk : bool) (now : Z) (route : string -> string)
    (net : nat -> string -> Delivery) (c : MetaCall A) (uuid : string) (r : ObjectRecord) (vid : A -> option string)
    (w w' : ClusterWorld S) (a : A) (q : Z) (lost : gset string) :
  row_write A c uuid r vid -> cl_write_quorum (cw_cluster w) = Some q -> distinct_nodes route w ->
  tables_ok tables w -> fresh_version (o_bucket r) (o_key r) uuid (ms_objects (tables (cw_inner w))) ->
  cluster inner fk now route net A c w = (w', Ok a) -> (Z.of_nat (size lost) < q)%Z ->
  exists id, (id ∉ lost) /\ node_keeps tables (as_current (vid a) r) id w'.
Proof.
  intros Hw Hq Hd Ht Hf H Hl. eapply (acknowledged_survivor inner tables); [exact Hd| |exact Hl]. by eapply write_acknowledged.
Qed.

(** ** The admission gate *)

(** The calls that change the store for a client. *)
Definition mutates {A : Type} (c : MetaCall A) : bool :=
  match c with
  | OnBuckets (CreateBucketOwned _ _ _) | OnBuckets (DeleteBucket _) => true
  | OnObjects (PutObjectIf _ _ _) | OnObjects (PutObjectTaggedIf _ _ _ _) | OnObjects (DeleteObjectIf _ _ _ _ _ _) => true
  | OnVersions (DeleteObjectVersionIf _ _ _ _ _) | OnVersions (DeleteObjectsIf _ _ _) => true
  | OnMultipart (CreateMultipartUpload _) | OnMultipart (PutPart _) | OnMultipart (DeleteMultipartUpload _) => true
  | OnMultipart (CompleteMultipartObject _ _ _ _) | OnMultipart (CompleteMultipartObjectTagged _ _ _ _ _) => true
  | OnLocks _ => true
  | OnConfig (SetBucketConfig _ _ _ _) | OnConfig (DeleteBucketConfig _ _) => true
  | OnConfig (PutBucketTags _ _ _) | OnConfig (DeleteBucketTags _) => true
  | OnConfig (PutObjectTags _ _ _ _) | OnConfig (DeleteObjectTags _ _ _) => true
  | _ => false
  end.

(** The methods the decorator leaves to the trait. *)
Definition left_to_trait {A : Type} (c : MetaCall A) : bool :=
  match c with
  | OnReplication SeedObjectSeqToMax | OnReplication ListReferencedBlobIds => true
  | _ => false
  end.

(** The answer of a refused call; a batch reports each of its entries. *)
Definition refusal {A : Type} (e : ArcaError) (c : MetaCall A) : outcome ArcaError A :=
  match c in MetaCall A return outcome ArcaError A with
  | OnVersions c =>
      match c in VersionCall A return outcome ArcaError A with
      | DeleteObjectsIf _ entries _ => Ok ((fun _ => Err e) <$> entries)
      | _ => Err e
      end
  | _ => Err e
  end.

Lemma gate_refused {S A : Type} (m : cact (S := S) A) w msg :
  check_write_gate (cw_cluster w) = Err msg -> act_bind check_write_quorum (fun _ => m) w = (w, Err msg).
Proof. intros H. unfold act_bind, check_write_quorum. by rewrite H. Qed.

Lemma closed_gate (cl : ClusterState) :
  write_gate cl <> Open ->
  exists msg, check_write_gate cl = Err (S3 (with_message ServiceUnavailable msg "/")).
Proof. unfold check_write_gate. destruct (write_gate cl); [done|eauto..]. Qed.

Section gate.
Context {S : Type} (inner : MetadataStore_ S).
Variables (fk : bool) (now : Z) (route : string -> string) (net : nat -> string -> Delivery).

Lemma batch_refused round bucket entries owner (w : ClusterWorld S) e :
  check_write_gate (cw_cluster w) = Err e ->
  cluster_delete_batch inner route net round bucket entries owner w = (w, (fun _ => Err e) <$> entries).
Proof.
  intros H. revert round. induction entries as [|[entry [t uuid]] entries IH]; intros round; [done|]. simpl.
  destruct (bd_version_id entry); unfold cluster_delete_version, cluster_delete;
    rewrite (gate_refused _ w e H), IH; done.
Qed.

Lemma mutation_refused {A : Type} (c : MetaCall A) (w : ClusterWorld S) e :
  mutates c = true -> check_write_gate (cw_cluster w) = Err e ->
  cluster inner fk now route net A c w = (w, refusal e c).
Proof.
  intros Hm H. destruct c as [A c|A c|A c|A c|A c|A c|A c|A c]; destruct c; try done; simpl;
    try exact (gate_refused _ w e H). by rewrite (batch_refused _ _ _ _ _ e H).
Qed.
End gate.

(** While the admission gate is closed (too few eligible nodes, or more than
    the cluster size) every client write ([mutates]: not the rows received from
    peers nor the purge of tombstones) answers 503 ServiceUnavailable and
    changes nothing, on this node or on a peer; a batch delete answers so for
    each of its entries.  A call that is no client write, and that the decorator
    does not leave to the trait's default, goes to the store below as it is,
    whatever the gate, and sends no message. *)
Theorem closed_gate_refuses {S A : Type} (inner : MetadataStore_ S) (fk : bool) (now : Z) (route : string -> string)
    (net : nat -> string -> Delivery) (c : MetaCall A) (w : ClusterWorld S) :
  (mutates c = true -> write_gate (cw_cluster w) <> Open ->
   exists msg, cluster inner fk now route net A c w =
     (w, refusal (S3 (with_message ServiceUnavailable msg "/")) c)) /\
  (mutates c = false -> left_to_trait c = false ->
   let '(s, result) := inner A c (cw_inner w) in
   cluster inner fk now route net A c w = (MkClusterWorld s (cw_ids w) (cw_cluster w) (cw_remotes w), result)).
Proof.
  split.
  - intros Hm [msg H]%closed_gate. exists msg. by apply mutation_refused.
  - intros Hm Ht. destruct (inner A c (cw_inner w)) as [s result] eqn:E.
    destruct c as [A c|A c|A c|A c|A c|A c|A c|A c]; destruct c; try done; simpl; unfold local; by rewrite E.
Qed.
