(* ===== verification/ClusterControl.v ===== *)
(** The control plane of a cluster node: the credential, user, grant, team and
    server-config decorators of
    [crates/arca-server/src/cluster/cluster_control.rs], over the stores of
    [IdentityStore], with the calls of their traits as a type.

    A change is applied to the local tables, its tombstone recorded or cleared,
    and the resulting row or deletion sent to the live peers as a [ControlOp],
    which they apply with [receive_op]. *)

From S2P Require Import Prelude S3Errors Policy Types SqlTable Preconditions ControlMerge IdentityStore.
From S2P Require Import MetadataStore MetadataTrait ClusterState ClusterMeta.

Open Scope act_scope.

(** ** Calls *)

Inductive CredentialCall : Type -> Type :=
  | PutCredential (c : Credential) : CredentialCall unit
  | GetCredential (key : string) : CredentialCall (option Credential)
  | ListCredentials : CredentialCall (list Credential)
  | DeleteCredential (key : string) : CredentialCall bool
  | UpdateCredential (now : Z) (key : string) (active : option bool) (description : option string) : CredentialCall bool
  | CountActiveCredentials : CredentialCall Z
  | ApplyRemoteCredential (now : Z) (c : Credential) : CredentialCall unit.

Inductive UserCall : Type -> Type :=
  | PutUser (u : User) : UserCall unit
  | GetUser (id : string) : UserCall (option User)
  | GetUserByUsername (name : string) : UserCall (option User)
  | ListUsers : UserCall (list User)
  | UpdateUser (now : Z) (id : string) (username description : option string) : UserCall bool
  | DeleteUser (id : string) : UserCall bool
  | ApplyRemoteUser (now : Z) (u : User) : UserCall unit.

Inductive GrantCall : Type -> Type :=
  | PutGrant (g : Grant) : GrantCall unit
  | GetGrant (id : string) : GrantCall (option Grant)
  | GetGrantByName (name : string) : GrantCall (option Grant)
  | ListGrants : GrantCall (list Grant)
  | UpdateGrant (now : Z) (id : string) (name description : option string) (document : option PolicyDocument)
      : GrantCall bool
  | DeleteGrant (id : string) : GrantCall bool
  | AttachToUser (now : Z) (user grant : string) : GrantCall unit
  | DetachFromUser (user grant : string) : GrantCall bool
  | AttachToTeam (now : Z) (team grant : string) : GrantCall unit
  | DetachFromTeam (team grant : string) : GrantCall bool
  | ListUserGrants (user : string) : GrantCall (list Grant)
  | ListTeamGrants (team : string) : GrantCall (list Grant)
  | GetEffectivePolicies (user : string) : GrantCall (list PolicyDocument)
  | ApplyRemoteGrant (g : Grant) : GrantCall unit.

Inductive TeamCall : Type -> Type :=
  | PutTeam (t : Team) : TeamCall unit
  | GetTeam (id : string) : TeamCall (option Team)
  | ListTeams : TeamCall (list Team)
  | UpdateTeam (now : Z) (id : string) (name description : option string) : TeamCall bool
  | DeleteTeam (id : string) : TeamCall bool
  | AddMember (now : Z) (team user : string) : TeamCall unit
  | RemoveMember (team user : string) : TeamCall bool
  | ListMembers (team : string) : TeamCall (list User)
  | ListUserTeams (user : string) : TeamCall (list Team)
  | ApplyRemoteTeam (now : Z) (t : Team) : TeamCall unit.

Inductive ServerConfigCall : Type -> Type :=
  | GetServerConfig (key : string) : ServerConfigCall (option string)
  | SetServerConfig (now : Z) (key value : string) : ServerConfigCall unit
  | DeleteServerConfig (key : string) : ServerConfigCall bool
  | ListServerConfig : ServerConfigCall (list (string * string)).

(** ** The stores *)

Definition reads {A : Type} (f : IdentityStore -> A) : act IdentityStore ArcaError A := fun s => (s, Ok (f s)).

Section sqlite.
Variable foreign_keys : bool.

Definition sqlite_credential {A : Type} (c : CredentialCall A) : act IdentityStore ArcaError A :=
  match c with
  | PutCredential c => put_credential c
  | GetCredential key => reads (get_credential key)
  | ListCredentials => reads list_credentials
  | DeleteCredential key => delete_credential key
  | UpdateCredential now key active description => update_credential now key active description
  | CountActiveCredentials => reads count_active_credentials
  | ApplyRemoteCredential now c => apply_remote_credential now c
  end.

Definition sqlite_user {A : Type} (c : UserCall A) : act IdentityStore ArcaError A :=
  match c with
  | PutUser u => put_user u
  | GetUser id => reads (get_user id)
  | GetUserByUsername name => reads (get_user_by_username name)
  | ListUsers => reads list_users
  | UpdateUser now id username description => update_user now id username description
  | DeleteUser id => delete_user id
  | ApplyRemoteUser now u => apply_remote_user now u
  end.

Definition sqlite_grant {A : Type} (c : GrantCall A) : act IdentityStore ArcaError A :=
  match c with
  | PutGrant g => put_grant g
  | GetGrant id => reads (get_grant id)
  | GetGrantByName name => reads (get_grant_by_name name)
  | ListGrants => reads list_grants
  | UpdateGrant now id name description document => update_grant now id name description document
  | DeleteGrant id => delete_grant id
  | AttachToUser now user grant => attach_to_user foreign_keys now user grant
  | DetachFromUser user grant => detach_from_user user grant
  | AttachToTeam now team grant => attach_to_team foreign_keys now team grant
  | DetachFromTeam team grant => detach_from_team team grant
  | ListUserGrants user => reads (list_user_grants user)
  | ListTeamGrants team => reads (list_team_grants team)
  | GetEffectivePolicies user => reads (get_effective_policies user)
  | ApplyRemoteGrant g => apply_remote_grant g
  end.

Definition sqlite_team {A : Type} (c : TeamCall A) : act IdentityStore ArcaError A :=
  match c with
  | PutTeam t => put_team t
  | GetTeam id => reads (get_team id)
  | ListTeams => reads list_teams
  | UpdateTeam now id name description => update_team now id name description
  | DeleteTeam id => delete_team id
  | AddMember now team user => add_member foreign_keys now team user
  | RemoveMember team user => remove_member team user
  | ListMembers team => reads (list_members team)
  | ListUserTeams user => reads (list_user_teams user)
  | ApplyRemoteTeam now t => apply_remote_team now t
  end.

Definition sqlite_server_config {A : Type} (c : ServerConfigCall A) : act IdentityStore ArcaError A :=
  match c with
  | GetServerConfig key => reads (get_server_config key)
  | SetServerConfig now key value => set_server_config now key value
  | DeleteServerConfig key => delete_server_config key
  | ListServerConfig => reads list_server_config
  end.
End sqlite.

(** ** The decorators *)

Section decorators.
Context {S : Type}.
Variables (foreign_keys : bool) (now : Z) (route : string -> string) (net : nat -> string -> Delivery).

(** A call of the wrapped store. *)
Definition inner_ids {A : Type} (m : act IdentityStore ArcaError A) : cact (S := S) A := fun w =>
  let '(i, r) := m (cw_ids w) in (MkClusterWorld (cw_inner w) i (cw_cluster w) (cw_remotes w), r).

Definition fan_out_control (op : ControlOp) : cact (S := S) unit := fan_out_op foreign_keys route net 0 op.

(** A creation: apply, clear the tombstone, send. *)
Definition replicated_set (m : act IdentityStore ArcaError unit) (entity_type entity_key : string) (op : ControlOp)
  : cact (S := S) unit :=
  let! _ := check_write_quorum in
  let! _ := inner_ids m in
  let! _ := clear_tombstone entity_type entity_key in
  fan_out_control op.

(** A deletion: apply; if there was something, record the tombstone and send. *)
Definition replicated_delete (m : act IdentityStore ArcaError bool) (entity_type entity_key : string) (op : ControlOp)
  : cact (S := S) bool :=
  let! _ := check_write_quorum in
  let! existed := inner_ids m in
  let! _ := when_ existed
    (let! _ := record_tombstone now entity_type entity_key in fan_out_control op) in
  act_ret existed.

(** An update: apply; if there was something, send the row read back. *)
Definition replicated_update {R : Type} (m : act IdentityStore ArcaError bool) (reread : IdentityStore -> option R)
    (op : R -> ControlOp) : cact (S := S) bool :=
  let! _ := check_write_quorum in
  let! ok := inner_ids m in
  let! _ := when_ ok
    (let! row := inner_ids (reads reread) in
     match row with
     | Some row => fan_out_control (op row)
     | None => act_ret tt
     end) in
  act_ret ok.

Definition cluster_credential {A : Type} (c : CredentialCall A) : cact (S := S) A :=
  match c with
  | PutCredential c =>
      replicated_set (put_credential c) TOMBSTONE_CREDENTIAL (cr_access_key_id c) (CredentialUpsert c)
  | DeleteCredential key =>
      replicated_delete (delete_credential key) TOMBSTONE_CREDENTIAL key (CredentialDelete key)
  | UpdateCredential t key active description =>
      replicated_update (update_credential t key active description) (get_credential key) CredentialUpsert
  | c => inner_ids (sqlite_credential c)
  end.

Definition cluster_user {A : Type} (c : UserCall A) : cact (S := S) A :=
  match c with
  | PutUser u => replicated_set (put_user u) TOMBSTONE_USER (u_user_id u) (UserUpsert u)
  | UpdateUser t id username description =>
      replicated_update (update_user t id username description) (get_user id) UserUpsert
  | DeleteUser id => replicated_delete (delete_user id) TOMBSTONE_USER id (UserDelete id)
  | c => inner_ids (sqlite_user c)
  end.

Definition cluster_grant {A : Type} (c : GrantCall A) : cact (S := S) A :=
  match c with
  | PutGrant g => replicated_set (put_grant g) TOMBSTONE_GRANT (gr_grant_id g) (GrantUpsert g)
  | UpdateGrant t id name description document =>
      replicated_update (update_grant t id name description document) (get_grant id) GrantUpsert
  | DeleteGrant id => replicated_delete (delete_grant id) TOMBSTONE_GRANT id (GrantDelete id)
  | AttachToUser t user grant =>
      replicated_set (attach_to_user foreign_keys t user grant) TOMBSTONE_USER_GRANT (pair_key user grant)
        (UserGrantAttach user grant)
  | DetachFromUser user grant =>
      replicated_delete (detach_from_user user grant) TOMBSTONE_USER_GRANT (pair_key user grant)
        (UserGrantDetach user grant)
  | AttachToTeam t team grant =>
      replicated_set (attach_to_team foreign_keys t team grant) TOMBSTONE_TEAM_GRANT (pair_key team grant)
        (TeamGrantAttach team grant)
  | DetachFromTeam team grant =>
      replicated_delete (detach_from_team team grant) TOMBSTONE_TEAM_GRANT (pair_key team grant)
        (TeamGrantDetach team grant)
  | c => inner_ids (sqlite_grant foreign_keys c)
  end.

Definition cluster_team {A : Type} (c : TeamCall A) : cact (S := S) A :=
  match c with
  | PutTeam t => replicated_set (put_team t) TOMBSTONE_TEAM (tm_team_id t) (TeamUpsert t)
  | UpdateTeam t id name description =>
      replicated_update (update_team t id name description) (get_team id) TeamUpsert
  | DeleteTeam id => replicated_delete (delete_team id) TOMBSTONE_TEAM id (TeamDelete id)
  | AddMember t team user =>
      replicated_set (add_member foreign_keys t team user) TOMBSTONE_TEAM_MEMBER (pair_key team user)
        (TeamMemberAdd team user)
  | RemoveMember team user =>
      replicated_delete (remove_member team user) TOMBSTONE_TEAM_MEMBER (pair_key team user)
        (TeamMemberRemove team user)
  | c => inner_ids (sqlite_team foreign_keys c)
  end.

Definition cluster_server_config {A : Type} (c : ServerConfigCall A) : cact (S := S) A :=
  match c with
  | SetServerConfig t key value =>
      if is_node_local_server_config_key key then inner_ids (set_server_config t key value)
      else replicated_set (set_server_config t key value) TOMBSTONE_SERVER_CONFIG key (ServerConfigSet key value)
  | DeleteServerConfig key =>
      if is_node_local_server_config_key key then inner_ids (delete_server_config key)
      else replicated_delete (delete_server_config key) TOMBSTONE_SERVER_CONFIG key (ServerConfigDelete key)
  | c => inner_ids (sqlite_server_config c)
  end.
End decorators.

Inductive ControlCall : Type -> Type :=
  | OnCredentials {A : Type} (c : CredentialCall A) : ControlCall A
  | OnUsers {A : Type} (c : UserCall A) : ControlCall A
  | OnGrants {A : Type} (c : GrantCall A) : ControlCall A
  | OnTeams {A : Type} (c : TeamCall A) : ControlCall A
  | OnServerConfig {A : Type} (c : ServerConfigCall A) : ControlCall A.

(** The five decorated stores. *)
Definition cluster_control {S A : Type} (foreign_keys : bool) (now : Z) (route : string -> string)
    (net : nat -> string -> Delivery) (c : ControlCall A) : cact (S := S) A :=
  match c with
  | OnCredentials c => cluster_credential foreign_keys now route net c
  | OnUsers c => cluster_user foreign_keys now route net c
  | OnGrants c => cluster_grant foreign_keys now route net c
  | OnTeams c => cluster_team foreign_keys now route net c
  | OnServerConfig c => cluster_server_config foreign_keys now route net c
  end.
