(* ===== verification/ClusterControlSafety.v ===== *)
(** Control-plane changes keep the nodes in step.

    Two nodes are [in_step] when their identity tables agree up to the
    timestamps of the rows and each node's own id.  A change made on one node
    leaves every node that its message reaches in step with it; so a user, a
    key or a grant created, changed or removed on one node is the same on the
    others, whatever the clocks of the nodes.  No message changes the id of
    the node that receives it. *)

From S2P Require Import Prelude S3Errors Policy Types SqlTable Preconditions MetadataStore MetadataRows MetadataTrait.
From S2P Require Import ControlMerge ClusterState ClusterMeta ClusterMetaSafety IdentityStore ClusterControl.

Open Scope act_scope.

(** ** Tables without their timestamps *)

Record IdentityView : Type := {
  iv_credentials : gmap string Credential;
  iv_users : gmap string User;
  iv_teams : gmap string Team;
  iv_grants : gmap string Grant;
  iv_user_grants : gset (string * string);
  iv_team_grants : gset (string * string);
  iv_team_members : gset (string * string);
  iv_server_config : gmap string string;
}.

Definition identity_view (i : IdentityStore) : IdentityView := {|
  iv_credentials := fst <$> ids_credentials i;
  iv_users := fst <$> ids_users i;
  iv_teams := fst <$> ids_teams i;
  iv_grants := ids_grants i;
  iv_user_grants := dom (ids_user_grants i);
  iv_team_grants := dom (ids_team_grants i);
  iv_team_members := dom (ids_team_members i);
  iv_server_config := fst <$> delete NODE_ID_KEY (ids_server_config i);
|}.

Definition in_step (i j : IdentityStore) : Prop := identity_view i = identity_view j.

#[export] Instance in_step_equivalence : Equivalence in_step.
Proof. unfold in_step. split; [done|by intros ??|intros ???; congruence]. Qed.

Section stamped.
Context {A : Type}.
Implicit Types (m : gmap string (A * Z)).

Lemma stamped_lookup m1 m2 k : fst <$> m1 = fst <$> m2 -> fst <$> m1 !! k = fst <$> m2 !! k.
Proof. intros H. by rewrite <- !lookup_fmap, H. Qed.

Lemma stamped_present m1 m2 k : fst <$> m1 = fst <$> m2 -> is_some (m1 !! k) = is_some (m2 !! k).
Proof. intros H%(stamped_lookup m1 m2 k). by destruct (m1 !! k), (m2 !! k). Qed.

Lemma stamped_insert m1 m2 k v t1 t2 :
  fst <$> m1 = fst <$> m2 -> fst <$> <[k := (v, t1)]> m1 = fst <$> <[k := (v, t2)]> m2.
Proof. intros H. by rewrite !fmap_insert, H. Qed.

Lemma stamped_delete m1 m2 k : fst <$> m1 = fst <$> m2 -> fst <$> delete k m1 = fst <$> delete k m2.
Proof. intros H. by rewrite !fmap_delete, H. Qed.

Lemma stamped_filter (P : A -> Prop) `{!forall e : string * (A * Z), Decision (P e.2.1)} m1 m2 :
  fst <$> m1 = fst <$> m2 ->
  fst <$> filter (fun e => P e.2.1) m1 = fst <$> filter (fun e => P e.2.1) m2.
Proof.
  intros Hm. apply map_eq. intros k. rewrite !lookup_fmap, !map_lookup_filter.
  apply (stamped_lookup m1 m2 k) in Hm.
  destruct (m1 !! k) as [[a t]|], (m2 !! k) as [[b u]|]; simpl in *; try done.
  injection Hm as ->. by repeat case_guard.
Qed.

Lemma stamped_taken (name : A -> string) m1 m2 k v :
  fst <$> m1 = fst <$> m2 ->
  taken_by_other m1 (fun r => name r.1) k v = taken_by_other m2 (fun r => name r.1) k v.
Proof.
  intros H. apply eq_true_iff_eq. unfold taken_by_other. rewrite !existsb_exists.
  assert (forall m m', fst <$> m = fst <$> m' ->
    (exists e, In e (map_to_list m) /\ bool_decide (e.1 <> k) && bool_decide (name e.2.1 = v) = true) ->
    exists e, In e (map_to_list m') /\ bool_decide (e.1 <> k) && bool_decide (name e.2.1 = v) = true) as Hone;
    [|split; by apply Hone].
  intros m m' Hm ([k1 [a t]] & Hin & Hp). apply list_elem_of_In, elem_of_map_to_list in Hin.
  pose proof (stamped_lookup m m' k1 Hm) as Hl. rewrite Hin in Hl.
  destruct (m' !! k1) as [[b u]|] eqn:E; [|done]. injection Hl as ->. exists (k1, (b, u)).
  split; [|done]. by apply list_elem_of_In, elem_of_map_to_list.
Qed.
End stamped.

Lemma key_filter_dom {A : Type} (P : string * string -> Prop) `{!forall e : (string * string) * A, Decision (P e.1)}
    (m1 m2 : gmap (string * string) A) :
  dom m1 = dom m2 -> dom (filter (fun e => P e.1) m1) = dom (filter (fun e => P e.1) m2).
Proof.
  intros Hm. apply set_eq. intros k. rewrite !elem_of_dom.
  assert (is_Some (m1 !! k) <-> is_Some (m2 !! k)) as Hk by (by rewrite <- !elem_of_dom, Hm).
  rewrite !map_lookup_filter. destruct (m1 !! k) as [x|], (m2 !! k) as [y|]; simpl in *; [repeat case_guard; by try (split; eauto)|..|done].
  - destruct Hk as [[? ?] _]; [eauto|done].
  - destruct Hk as [_ [? ?]]; [eauto|done].
Qed.

Lemma in_step_with i j :
  in_step i j ->
  fst <$> ids_credentials i = fst <$> ids_credentials j /\ fst <$> ids_users i = fst <$> ids_users j /\
  fst <$> ids_teams i = fst <$> ids_teams j /\ ids_grants i = ids_grants j /\
  dom (ids_user_grants i) = dom (ids_user_grants j) /\ dom (ids_team_grants i) = dom (ids_team_grants j) /\
  dom (ids_team_members i) = dom (ids_team_members j) /\
  fst <$> delete NODE_ID_KEY (ids_server_config i) = fst <$> delete NODE_ID_KEY (ids_server_config j).
Proof. unfold in_step, identity_view. intros [= ]. by repeat split. Qed.

(** ** A change and the message that carries it *)

(** Applying the message where the tables are in step has the effect of the change. *)
Definition mirrors {A : Type} (fk : bool) (m : act IdentityStore ArcaError A) (effective : A -> bool) (op : ControlOp)
  : Prop :=
  forall t i i' a n, in_step i (rm_ids n) -> m i = (i', Ok a) -> effective a = true ->
    in_step i' (rm_ids (apply_op fk t op n).1).

(** The same for an update, with the message made of the row read back. *)
Definition mirrors_update {R : Type} (fk : bool) (m : act IdentityStore ArcaError bool)
    (reread : IdentityStore -> option R) (op : R -> ControlOp) : Prop :=
  forall t i i' n, rows_ok i -> in_step i (rm_ids n) -> m i = (i', Ok true) ->
    exists row, reread i' = Some row /\ in_step i' (rm_ids (apply_op fk t (op row) n).1).

Lemma insert_dom_eq {A : Type} (m1 m2 : gmap (string * string) A) k v1 v2 :
  dom m1 = dom m2 -> dom (<[k := v1]> m1) = dom (<[k := v2]> m2).
Proof. intros E. by rewrite !dom_insert_L, E. Qed.

Lemma delete_dom_eq {A : Type} (m1 m2 : gmap (string * string) A) k :
  dom m1 = dom m2 -> dom (delete k m1) = dom (delete k m2).
Proof. intros E. by rewrite !dom_delete_L, E. Qed.

Lemma present_dom_eq {A : Type} (m1 m2 : gmap (string * string) A) k :
  dom m1 = dom m2 -> is_some (m1 !! k) = is_some (m2 !! k).
Proof.
  intros E. assert (is_Some (m1 !! k) <-> is_Some (m2 !! k)) as Hk by (by rewrite <- !elem_of_dom, E).
  destruct (m1 !! k), (m2 !! k); try done.
  - destruct Hk as [[? ?] _]; [eauto|done].
  - destruct Hk as [_ [? ?]]; [eauto|done].
Qed.

Lemma config_insert_eq (m1 m2 : gmap string (string * Z)) k v t1 t2 :
  fst <$> delete NODE_ID_KEY m1 = fst <$> delete NODE_ID_KEY m2 ->
  fst <$> delete NODE_ID_KEY (<[k := (v, t1)]> m1) = fst <$> delete NODE_ID_KEY (<[k := (v, t2)]> m2).
Proof.
  intros H. destruct (decide (k = NODE_ID_KEY)) as [->|Hne]; [by rewrite !delete_insert_eq|].
  rewrite !delete_insert_ne by done. by apply stamped_insert.
Qed.

Lemma config_delete_eq (m1 m2 : gmap string (string * Z)) k :
  fst <$> delete NODE_ID_KEY m1 = fst <$> delete NODE_ID_KEY m2 ->
  fst <$> delete NODE_ID_KEY (delete k m1) = fst <$> delete NODE_ID_KEY (delete k m2).
Proof. intros H. rewrite !(delete_delete _ NODE_ID_KEY k). by apply stamped_delete. Qed.

Lemma drop_owner_eq (id : string) (m1 m2 : gmap string (Credential * Z)) :
  fst <$> m1 = fst <$> m2 ->
  fst <$> filter (fun e => cr_user_id e.2.1 <> id) m1 = fst <$> filter (fun e => cr_user_id e.2.1 <> id) m2.
Proof. apply (stamped_filter (fun c => cr_user_id c <> id)). Qed.

Lemma drop_first_eq {A : Type} (id : string) (m1 m2 : gmap (string * string) A) :
  dom m1 = dom m2 -> dom (filter (fun e => e.1.1 <> id) m1) = dom (filter (fun e => e.1.1 <> id) m2).
Proof. apply (key_filter_dom (fun p => p.1 <> id)). Qed.

Lemma drop_second_eq {A : Type} (id : string) (m1 m2 : gmap (string * string) A) :
  dom m1 = dom m2 -> dom (filter (fun e => e.1.2 <> id) m1) = dom (filter (fun e => e.1.2 <> id) m2).
Proof. apply (key_filter_dom (fun p => p.2 <> id)). Qed.

Create HintDb step.
#[local] Hint Resolve stamped_insert stamped_delete insert_dom_eq delete_dom_eq config_insert_eq config_delete_eq
  drop_owner_eq drop_first_eq drop_second_eq : step.

(** Compares the tables one by one. *)
Ltac same_views := unfold in_step, identity_view; cbn; f_equal; eauto 3 with step; try congruence.

Ltac unfold_tables H n i :=
  pose proof (in_step_with _ _ H) as (Hcr & Hus & Hte & Hgr & Hug & Htg & Htm & Hsc);
  destruct n as [? j ?]; cbn [rm_ids] in *; destruct i as [cr us te gr ug tg tm sc ts],
    j as [cr' us' te' gr' ug' tg' tm' sc' ts'];
  cbn [ids_credentials ids_users ids_teams ids_grants ids_user_grants ids_team_grants ids_team_members
       ids_server_config] in *.

Ltac unfold_change := intros t i i' a n H; unfold_tables H n i.

Section mirrors.
Variable fk : bool.

(** *** Rows sent whole *)

Lemma credential_sent t i c at_ n :
  in_step i (rm_ids n) ->
  in_step (with_credentials (<[cr_access_key_id c := (c, at_)]> (ids_credentials i)) i)
    (rm_ids (apply_op fk t (CredentialUpsert c) n).1).
Proof. intros H. unfold_tables H n i. same_views. Qed.

Lemma user_sent t i u at_ n :
  in_step i (rm_ids n) -> taken_by_other (ids_users i) user_name (u_user_id u) (u_username u) = false ->
  in_step (with_users (<[u_user_id u := (u, at_)]> (ids_users i)) i) (rm_ids (apply_op fk t (UserUpsert u) n).1).
Proof.
  intros H. unfold_tables H n i. intros Ht. cbn. unfold on_ids, apply_remote_user. cbn.
  unfold user_name in *. rewrite <- (stamped_taken u_username us us'), Ht by done. same_views.
Qed.

Lemma team_sent t i tm at_ n :
  in_step i (rm_ids n) -> taken_by_other (ids_teams i) team_name (tm_team_id tm) (tm_name tm) = false ->
  in_step (with_teams (<[tm_team_id tm := (tm, at_)]> (ids_teams i)) i) (rm_ids (apply_op fk t (TeamUpsert tm) n).1).
Proof.
  rename tm into x. intros H. unfold_tables H n i. intros Ht. cbn. unfold on_ids, apply_remote_team. cbn.
  unfold team_name in *. rewrite <- (stamped_taken tm_name te te'), Ht by done. same_views.
Qed.

Lemma grant_sent t i g n :
  in_step i (rm_ids n) -> taken_by_other (ids_grants i) gr_name (gr_grant_id g) (gr_name g) = false ->
  in_step (with_grants (<[gr_grant_id g := g]> (ids_grants i)) i) (rm_ids (apply_op fk t (GrantUpsert g) n).1).
Proof.
  intros H. unfold_tables H n i. intros Ht. cbn. unfold on_ids, apply_remote_grant. cbn.
  rewrite <- Hgr, Ht. same_views.
Qed.

Lemma put_credential_mirrors c : mirrors fk (put_credential c) (fun _ => true) (CredentialUpsert c).
Proof.
  intros t i i' a n H. unfold put_credential. destruct (is_some _); [done|]. intros [= <- <-] _.
  by apply credential_sent.
Qed.

Lemma put_user_mirrors u : mirrors fk (put_user u) (fun _ => true) (UserUpsert u).
Proof.
  intros t i i' a n H. unfold put_user. destruct (is_some _); [done|]. cbn [orb].
  destruct (taken_by_other _ _ _ _) eqn:Ht; [done|]. intros [= <- <-] _. by apply user_sent.
Qed.

Lemma put_team_mirrors x : mirrors fk (put_team x) (fun _ => true) (TeamUpsert x).
Proof.
  intros t i i' a n H. unfold put_team. destruct (is_some _); [done|]. cbn [orb].
  destruct (taken_by_other _ _ _ _) eqn:Ht; [done|]. intros [= <- <-] _. by apply team_sent.
Qed.

Lemma put_grant_mirrors g : mirrors fk (put_grant g) (fun _ => true) (GrantUpsert g).
Proof.
  intros t i i' a n H. unfold put_grant. destruct (is_some _); [done|]. cbn [orb].
  destruct (taken_by_other _ _ _ _) eqn:Ht; [done|]. intros [= <- <-] _. by apply grant_sent.
Qed.

(** *** Deletions *)

Lemma delete_credential_mirrors k : mirrors fk (delete_credential k) id (CredentialDelete k).
Proof. unfold_change. intros [= <- <-] _. same_views. Qed.

Lemma delete_user_mirrors k : mirrors fk (delete_user k) id (UserDelete k).
Proof. unfold_change. intros [= <- <-] _. same_views. Qed.

Lemma delete_team_mirrors k : mirrors fk (delete_team k) id (TeamDelete k).
Proof. unfold_change. intros [= <- <-] _. same_views. Qed.

Lemma delete_grant_mirrors k : mirrors fk (delete_grant k) id (GrantDelete k).
Proof. unfold_change. intros [= <- <-] _. same_views. Qed.

Lemma detach_from_user_mirrors u g : mirrors fk (detach_from_user u g) id (UserGrantDetach u g).
Proof. unfold_change. intros [= <- <-] _. same_views. Qed.

Lemma detach_from_team_mirrors x g : mirrors fk (detach_from_team x g) id (TeamGrantDetach x g).
Proof. unfold_change. intros [= <- <-] _. same_views. Qed.

Lemma remove_member_mirrors x u : mirrors fk (remove_member x u) id (TeamMemberRemove x u).
Proof. unfold_change. intros [= <- <-] _. same_views. Qed.

(** *** Attachments and settings *)

Lemma attach_to_user_mirrors now u g :
  mirrors fk (attach_to_user fk now u g) (fun _ => true) (UserGrantAttach u g).
Proof.
  unfold_change. cbn. unfold attach_to_user, on_ids. cbn. rewrite (stamped_present us us') by done. rewrite Hgr.
  destruct (references_ok _ _); [|done]. intros [= <- <-] _. same_views.
Qed.

Lemma attach_to_team_mirrors now x g :
  mirrors fk (attach_to_team fk now x g) (fun _ => true) (TeamGrantAttach x g).
Proof.
  unfold_change. cbn. unfold attach_to_team, on_ids. cbn. rewrite (stamped_present te te') by done. rewrite Hgr.
  destruct (references_ok _ _); [|done]. intros [= <- <-] _. same_views.
Qed.

Lemma add_member_mirrors now x u : mirrors fk (add_member fk now x u) (fun _ => true) (TeamMemberAdd x u).
Proof.
  unfold_change. cbn. unfold add_member, on_ids. cbn. rewrite (stamped_present te te'), (stamped_present us us') by done.
  destruct (references_ok _ _); [|done]. intros [= <- <-] _. same_views.
Qed.

Lemma set_server_config_mirrors now k v :
  mirrors fk (set_server_config now k v) (fun _ => true) (ServerConfigSet k v).
Proof.
  unfold_change. intros [= <- <-] _. cbn. unfold is_node_local_server_config_key. case_bool_decide as E.
  - subst k. unfold in_step, identity_view. cbn. f_equal; try done. by rewrite delete_insert_eq.
  - same_views.
Qed.

Lemma delete_server_config_mirrors k : mirrors fk (delete_server_config k) id (ServerConfigDelete k).
Proof.
  unfold_change. intros [= <- <-] _. cbn. unfold is_node_local_server_config_key. case_bool_decide as E.
  - subst k. unfold in_step, identity_view. cbn. f_equal; try done. by rewrite delete_delete_eq.
  - same_views.
Qed.

(** *** Updates *)

Lemma update_credential_mirrors now k active d :
  mirrors_update fk (update_credential now k active d) (get_credential k) CredentialUpsert.
Proof.
  intros t i i' n (Hk & _) H. unfold update_credential, get_credential.
  destruct (ids_credentials i !! k) as [[c at_]|] eqn:E; [|by destruct active, d].
  assert (cr_access_key_id c = k) as Hid by apply (Hk _ _ E).
  assert (forall c' at', cr_access_key_id c' = k ->
    i' = with_credentials (<[k := (c', at')]> (ids_credentials i)) i ->
    exists row, fst <$> ids_credentials i' !! k = Some row /\
      in_step i' (rm_ids (apply_op fk t (CredentialUpsert row) n).1)) as Hsent.
  { intros c' at' <- ->. exists c'. split; [destruct i; cbn; by rewrite lookup_insert_eq|by apply credential_sent]. }
  assert (i = with_credentials (<[k := (c, at_)]> (ids_credentials i)) i) as Hsame.
  { destruct i. cbn in *. by rewrite insert_id. }
  destruct active, d; cbn; intros [= <-]; (eapply Hsent; [|first [exact Hsame|reflexivity]]); done.
Qed.

Lemma update_user_mirrors now k name d :
  mirrors_update fk (update_user now k name d) (get_user k) UserUpsert.
Proof.
  intros t i i' n (_ & Hk & _ & _ & Hn & _) H. unfold update_user, get_user.
  destruct (ids_users i !! k) as [[u at_]|] eqn:E; [|by destruct name, d].
  assert (u_user_id u = k) as Hid by apply (Hk _ _ E).
  assert (forall u' at', u_user_id u' = k -> taken_by_other (ids_users i) user_name k (u_username u') = false ->
    i' = with_users (<[k := (u', at')]> (ids_users i)) i ->
    exists row, fst <$> ids_users i' !! k = Some row /\
      in_step i' (rm_ids (apply_op fk t (UserUpsert row) n).1)) as Hsent.
  { intros u' at' <- Ht ->. exists u'. split; [destruct i; cbn; by rewrite lookup_insert_eq|by apply user_sent]. }
  destruct name, d; cbn; try (destruct (taken_by_other _ _ _ _) eqn:Ht; [done|]);
    intros [= <-]; try (eapply Hsent; [| |reflexivity]; done).
  apply (Hsent u at_); [done| |rewrite (insert_id _ _ _ E); by destruct i].
  apply taken_by_other_false. intros k' r Hr Hname. by apply (Hn k' k r (u, at_)).
Qed.

Lemma update_team_mirrors now k name d :
  mirrors_update fk (update_team now k name d) (get_team k) TeamUpsert.
Proof.
  intros t i i' n (_ & _ & Hk & _ & _ & Hn & _) H. unfold update_team, get_team.
  destruct (ids_teams i !! k) as [[u at_]|] eqn:E; [|by destruct name, d].
  assert (tm_team_id u = k) as Hid by apply (Hk _ _ E).
  assert (forall u' at', tm_team_id u' = k -> taken_by_other (ids_teams i) team_name k (tm_name u') = false ->
    i' = with_teams (<[k := (u', at')]> (ids_teams i)) i ->
    exists row, fst <$> ids_teams i' !! k = Some row /\
      in_step i' (rm_ids (apply_op fk t (TeamUpsert row) n).1)) as Hsent.
  { intros u' at' <- Ht ->. exists u'. split; [destruct i; cbn; by rewrite lookup_insert_eq|by apply team_sent]. }
  destruct name, d; cbn; try (destruct (taken_by_other _ _ _ _) eqn:Ht; [done|]);
    intros [= <-]; try (eapply Hsent; [| |reflexivity]; done).
  apply (Hsent u at_); [done| |rewrite (insert_id _ _ _ E); by destruct i].
  apply taken_by_other_false. intros k' r Hr Hname. by apply (Hn k' k r (u, at_)).
Qed.

Lemma update_grant_mirrors now k name d doc :
  mirrors_update fk (update_grant now k name d doc) (get_grant k) GrantUpsert.
Proof.
  intros t i i' n (_ & _ & _ & Hk & _) H. unfold update_grant, get_grant.
  destruct (ids_grants i !! k) as [g|] eqn:E; [|done]. pose proof (Hk _ _ E) as Hid. cbn in Hid.
  set (g' := Build_Grant _ _ _ _ _ _). destruct (taken_by_other _ _ _ _) eqn:Ht; [done|]. intros [= <-].
  assert (gr_grant_id g' = k) as Hg by done. exists g'.
  split; [destruct i; cbn; by rewrite lookup_insert_eq|]. rewrite <- Hg in Ht |- *. by apply grant_sent.
Qed.
End mirrors.

(** ** Calls and rounds *)

Section calls.
Context {S : Type}.
Variables (fk : bool) (now : Z) (route : string -> string) (net : nat -> string -> Delivery).
Implicit Types (w : ClusterWorld S).

(** The message of the first round reaches the node at [e]. *)
Definition reached w e : Prop :=
  e ∈ live_peers (cw_cluster w) /\ exists t, net 0 e = Unanswered t \/ net 0 e = Answers t.

Lemma fan_out_control_in_step op w w' e n :
  fan_out_control fk route net op w = (w', Ok tt) ->
  NoDup (route <$> live_peers (cw_cluster w)) -> reached w e -> cw_remotes w !! route e = Some n ->
  (forall t, in_step (cw_ids w) (rm_ids (apply_op fk t op n).1)) ->
  exists n', cw_remotes w' !! route e = Some n' /\ in_step (cw_ids w') (rm_ids n').
Proof.
  intros Hf Hnd [He [t Ht]] Hn Hop. revert Hf. unfold fan_out_control, fan_out_op.
  pose proof (fan_out_same route (fun t => receive_op fk t op) (fun _ => true) (net 0)
    (live_peers (cw_cluster w)) w) as (_ & Hs & _).
  pose proof (fan_out_delivered route (fun t => receive_op fk t op) (fun _ => true) (net 0)
    (live_peers (cw_cluster w)) w e t n Hnd He Ht Hn) as Hd.
  destruct (fan_out route (net 0) _ _ _ w) as [w1 m]. intros [= <-]. cbn in *. eexists. split; [exact Hd|].
  rewrite Hs. specialize (Hop t). unfold receive_op. by destruct (apply_op fk t op n) as [n1 []].
Qed.

Lemma fan_out_control_ok op w : exists w', fan_out_control fk route net op w = (w', Ok tt).
Proof. unfold fan_out_control, fan_out_op. destruct (fan_out _ _ _ _ _ w). eauto. Qed.

Lemma replicated_set_in_step m type key op w w' e n :
  replicated_set fk route net m type key op w = (w', Ok tt) ->
  mirrors fk m (fun _ => true) op ->
  NoDup (route <$> live_peers (cw_cluster w)) -> reached w e -> cw_remotes w !! route e = Some n ->
  in_step (cw_ids w) (rm_ids n) ->
  exists n', cw_remotes w' !! route e = Some n' /\ in_step (cw_ids w') (rm_ids n').
Proof.
  intros H Hm Hnd He Hn Hi. apply bind_ok_inv in H as (? & w0 & ->%gate_ok & H).
  apply bind_ok_inv in H as (a & w1 & Hl & H). apply bind_ok_inv in H as (? & w2 & Hc & H).
  unfold inner_ids in Hl. destruct (m (cw_ids w)) as [i r] eqn:E. injection Hl as <- ->.
  unfold clear_tombstone, on_tombstones in Hc. cbn in Hc. injection Hc as <- _.
  refine (fan_out_control_in_step _ _ _ e n H Hnd He Hn _).
  intros t. rewrite <- (Hm t _ _ _ n Hi E eq_refl). unfold in_step. by destruct i.
Qed.

Lemma replicated_delete_in_step m type key op w w' e n :
  replicated_delete fk now route net m type key op w = (w', Ok true) ->
  mirrors fk m id op ->
  NoDup (route <$> live_peers (cw_cluster w)) -> reached w e -> cw_remotes w !! route e = Some n ->
  in_step (cw_ids w) (rm_ids n) ->
  exists n', cw_remotes w' !! route e = Some n' /\ in_step (cw_ids w') (rm_ids n').
Proof.
  intros H Hm Hnd He Hn Hi. apply bind_ok_inv in H as (? & w0 & ->%gate_ok & H).
  apply bind_ok_inv in H as (a & w1 & Hl & H). apply bind_ok_inv in H as ([] & w2 & Hc & [= <- ->]).
  unfold inner_ids in Hl. destruct (m (cw_ids w)) as [i r] eqn:E. injection Hl as <- ->. cbn [when_] in Hc.
  apply bind_ok_inv in Hc as (? & w3 & Hr & Hc).
  unfold record_tombstone, on_tombstones in Hr. cbn in Hr. injection Hr as <- _.
  refine (fan_out_control_in_step _ _ _ e n Hc Hnd He Hn _).
  intros t. rewrite <- (Hm t _ _ _ n Hi E eq_refl). unfold in_step. by destruct i.
Qed.

Lemma replicated_update_in_step {R : Type} m (reread : IdentityStore -> option R) op w w' e n :
  replicated_update fk route net m reread op w = (w', Ok true) ->
  mirrors_update fk m reread op -> rows_ok (cw_ids w) ->
  NoDup (route <$> live_peers (cw_cluster w)) -> reached w e -> cw_remotes w !! route e = Some n ->
  in_step (cw_ids w) (rm_ids n) ->
  exists n', cw_remotes w' !! route e = Some n' /\ in_step (cw_ids w') (rm_ids n').
Proof.
  intros H Hm Hok Hnd He Hn Hi. apply bind_ok_inv in H as (? & w0 & ->%gate_ok & H).
  apply bind_ok_inv in H as (a & w1 & Hl & H). apply bind_ok_inv in H as ([] & w2 & Hc & [= <- ->]).
  unfold inner_ids in Hl. destruct (m (cw_ids w)) as [i r] eqn:E. injection Hl as <- ->. cbn [when_] in Hc.
  apply bind_ok_inv in Hc as (? & w3 & [= <- <-] & Hc). cbn [cw_ids] in Hc.
  destruct (Hm 0%Z _ _ n Hok Hi E) as (row & Hrow & _). rewrite Hrow in Hc.
  refine (fan_out_control_in_step _ _ _ e n Hc Hnd He Hn _).
  intros t. destruct (Hm t _ _ n Hok Hi E) as (row' & Hrow' & Hs). cbn. by simplify_eq.
Qed.
End calls.

(** A call that changes the identity tables, and did. *)
Definition took_effect {A : Type} (c : ControlCall A) : A -> bool :=
  match c in ControlCall A return A -> bool with
  | OnCredentials c =>
      match c in CredentialCall A return A -> bool with
      | PutCredential _ => fun _ => true
      | DeleteCredential _ | UpdateCredential _ _ _ _ => id
      | _ => fun _ => false
      end
  | OnUsers c =>
      match c in UserCall A return A -> bool with
      | PutUser _ => fun _ => true
      | DeleteUser _ | UpdateUser _ _ _ _ => id
      | _ => fun _ => false
      end
  | OnGrants c =>
      match c in GrantCall A return A -> bool with
      | PutGrant _ | AttachToUser _ _ _ | AttachToTeam _ _ _ => fun _ => true
      | DeleteGrant _ | UpdateGrant _ _ _ _ _ | DetachFromUser _ _ | DetachFromTeam _ _ => id
      | _ => fun _ => false
      end
  | OnTeams c =>
      match c in TeamCall A return A -> bool with
      | PutTeam _ | AddMember _ _ _ => fun _ => true
      | DeleteTeam _ | UpdateTeam _ _ _ _ | RemoveMember _ _ => id
      | _ => fun _ => false
      end
  | OnServerConfig c =>
      match c in ServerConfigCall A return A -> bool with
      | SetServerConfig _ _ _ => fun _ => true
      | DeleteServerConfig _ => id
      | _ => fun _ => false
      end
  end.

(** Settings that stay on the node. *)
Lemma node_local_in_step {S A : Type} (m : act IdentityStore ArcaError A) (w w' : ClusterWorld S) a n id :
  (forall i, in_step i (m i).1) -> cw_remotes w !! id = Some n -> in_step (cw_ids w) (rm_ids n) ->
  inner_ids m w = (w', Ok a) -> exists n', cw_remotes w' !! id = Some n' /\ in_step (cw_ids w') (rm_ids n').
Proof.
  intros Hm Hn Hi. unfold inner_ids. specialize (Hm (cw_ids w)). destruct (m (cw_ids w)) as [i r]. intros [= <- _].
  exists n. split; [done|]. cbn in *. by rewrite <- Hm.
Qed.

Lemma set_node_id_in_step t k v i : k = NODE_ID_KEY -> in_step i (set_server_config t k v i).1.
Proof. intros ->. destruct i. unfold in_step, identity_view. cbn. by rewrite delete_insert_eq. Qed.

Lemma delete_node_id_in_step k i : k = NODE_ID_KEY -> in_step i (delete_server_config k i).1.
Proof. intros ->. destruct i. unfold in_step, identity_view. cbn. by rewrite delete_delete_eq. Qed.

#[local] Hint Resolve put_credential_mirrors put_user_mirrors put_team_mirrors put_grant_mirrors
  delete_credential_mirrors delete_user_mirrors delete_team_mirrors delete_grant_mirrors
  detach_from_user_mirrors detach_from_team_mirrors remove_member_mirrors attach_to_user_mirrors
  attach_to_team_mirrors add_member_mirrors set_server_config_mirrors delete_server_config_mirrors
  update_credential_mirrors update_user_mirrors update_team_mirrors update_grant_mirrors : step.

(** C35. A control-plane change made on one node is made on every node its message
    reaches: if the identity tables of the two nodes agreed before, up to row
    timestamps and the node ids, they agree after, whichever credential, user,
    grant, team, attachment or setting was created, updated or removed, and
    whatever the clocks of the two nodes and the fate of the answer.  Each
    endpoint leads to one node and the rows of this node are well formed. *)
Theorem control_calls_keep_step {S A : Type} (fk : bool) (now : Z) (route : string -> string)
    (net : nat -> string -> Delivery) (c : ControlCall A) (w w' : ClusterWorld S) (a : A) (e : string) (n : Remote) :
  rows_ok (cw_ids w) -> NoDup (route <$> live_peers (cw_cluster w)) ->
  reached net w e -> cw_remotes w !! route e = Some n -> in_step (cw_ids w) (rm_ids n) ->
  cluster_control fk now route net c w = (w', Ok a) -> took_effect c a = true ->
  exists n', cw_remotes w' !! route e = Some n' /\ in_step (cw_ids w') (rm_ids n').
Proof.
  intros Hok Hnd He Hn Hi H Ht.
  destruct c as [A c|A c|A c|A c|A c]; destruct c; simpl in H, Ht; try done; try destruct a; try done.
  all: try (unfold is_node_local_server_config_key in H; case_bool_decide as E).
  all: try first [eapply replicated_set_in_step with (1 := H)|eapply replicated_delete_in_step with (1 := H)
                 |eapply replicated_update_in_step with (1 := H)]; eauto 1 with step.
  all: eapply node_local_in_step; [|exact Hn|exact Hi|exact H]; intros i.
  - by apply set_node_id_in_step.
  - by apply delete_node_id_in_step.
Qed.
