(* ===== verification/AntiEntropy.v ===== *)
(** Anti-entropy: the background worker of
    [crates/arca-server/src/cluster/anti_entropy.rs] that pulls the changes of
    every eligible peer, and the manifest endpoint of
    [crates/arca-proto/src/handlers/cluster.rs] it pulls from.

    One node is its metadata store, its identity store, its view of the cluster
    and the bookkeeping of the worker.  What the peers answer is an argument:
    a manifest page or a control snapshot, or a transport error.  The pull loop
    has a fuel, one unit per page.  Log lines are not modelled. *)

From S2P Require Import Prelude S3Errors Policy Types SqlTable Text Preconditions MetadataStore MetadataRows.
From S2P Require Import MetadataInvariant MetadataSteps MetadataOps MetadataReplication.
From S2P Require Import ControlMerge IdentityStore BlobRead BlobGc FsBlob FsBlobGc ClusterState.

(** ** The manifest endpoint *)

Definition MANIFEST_MAX_LIMIT : Z := 1000.

Record ManifestEntry : Type := {
  me_seq : Z;
  me_record : ObjectRecord;
}.

Record ClusterManifest : Type := {
  mf_entries : list ManifestEntry;
  mf_cursor : Z;
}.

Definition manifest (since limit_ : Z) (m : MetaStore) : ClusterManifest :=
  let limit := Z.max 1 (Z.min MANIFEST_MAX_LIMIT limit_) in
  let rows := list_rows_changed_since since limit m in
  {| mf_entries := (fun r => {| me_seq := r.1; me_record := r.2 |}) <$> rows;
     mf_cursor := default since (fst <$> last rows) |}.

(** ** Stuck entries *)

Definition MANIFEST_BATCH : Z := 500.
Definition STUCK_SKIP_AFTER : Z := 5.

(** Per peer, the failing [seq] and how often in a row it failed. *)
Abbreviation StuckTracker := (gmap string (Z * Z)).

Definition observe (node_id : string) (failed_seq : option Z) (t : StuckTracker) : StuckTracker * bool :=
  match failed_seq with
  | None => (base.delete node_id t, false)
  | Some seq =>
      let entry := default (seq, 0%Z) (t !! node_id) in
      if negb (entry.1 =? seq)%Z then (<[node_id := (seq, 1%Z)]> t, false)
      else
        let count := (entry.2 + 1)%Z in
        if (STUCK_SKIP_AFTER <=? count)%Z then (base.delete node_id t, true)
        else (<[node_id := (entry.1, count)]> t, false)
  end.

(** ** Objects *)

Record ObjectsReconcileOutcome : Type := {
  oc_cursor : Z;
  oc_caught_up : bool;
  oc_failed_seq : option Z;
}.

(** An error of a request to a peer or of its answer, without its text. *)
Inductive ClusterError : Type := Http (status : Z) | Network | BadUrl | Serde.

Section objects.
(** [MetadataStore::apply_remote_object], which may fail. *)
Context (apply : ObjectRecord -> mact ArcaError unit).

Fixpoint apply_entries (entries : list ManifestEntry) (cursor : Z) : mact ArcaError (Z * option Z) := fun s =>
  match entries with
  | [] => (s, Ok (cursor, None))
  | entry :: entries' =>
      if negb (has_valid_blob_ref (me_record entry)) then apply_entries entries' (me_seq entry) s
      else
        match apply (me_record entry) s with
        | (s', Ok _) => apply_entries entries' (me_seq entry) s'
        | (s', Err _) => (s', Ok (cursor, Some (me_seq entry)))
        | (s', Panic) => (s', Panic)
        end
  end.

(** [fetch] is [client.fetch_manifest(endpoint, _, MANIFEST_BATCH)]. *)
Fixpoint reconcile_peer_objects (fuel : nat) (fetch : Z -> outcome ClusterError ClusterManifest) (cursor : Z)
    (s : MetaStore) : option (MetaStore * outcome ClusterError ObjectsReconcileOutcome) :=
  match fuel with
  | 0 => None
  | S fuel' =>
      match fetch cursor with
      | Err e => Some (s, Err e)
      | Panic => Some (s, Panic)
      | Ok manifest =>
          let batch_len := Z.of_nat (length (mf_entries manifest)) in
          match apply_entries (mf_entries manifest) cursor s with
          | (s', Ok (new_cursor, failed_seq)) =>
              let progressed := (cursor <? new_cursor)%Z in
              if is_some failed_seq || negb progressed then
                Some (s', Ok {| oc_cursor := new_cursor;
                                oc_caught_up := negb (is_some failed_seq) && (batch_len <? MANIFEST_BATCH)%Z;
                                oc_failed_seq := failed_seq |})
              else if (batch_len <? MANIFEST_BATCH)%Z then
                Some (s', Ok {| oc_cursor := new_cursor; oc_caught_up := true; oc_failed_seq := None |})
              else reconcile_peer_objects fuel' fetch new_cursor s'
          | (s', _) => Some (s', Panic)
          end
      end
  end.
End objects.

(** ** The worker *)

Record Node : Type := {
  nd_meta : MetaStore;
  nd_ids : IdentityStore;
  nd_cluster : ClusterState;
  nd_stuck : StuckTracker;
}.

(** What a peer answers, by its endpoint, and the times of the calls of
    [Utc::now]. *)
Record Answers : Type := {
  an_manifest : string -> Z -> outcome ClusterError ClusterManifest;
  an_snapshot : string -> outcome ClusterError ControlSnapshot;
  an_hwm_at : string -> Z;
  an_reconciled_at : string -> Z;
}.

Section worker.
Context (foreign_keys : bool) (MIN_UTC : Z) (apply : ObjectRecord -> mact ArcaError unit).

(** A loop whose errors are logged. *)
Definition each {A B : Type} (f : A -> mact ArcaError B) (l : list A) (m : MetaStore) : MetaStore :=
  foldl (fun m x => (f x m).1) m l.

(** The part of a plan that goes through the metadata store. *)
Definition apply_metadata_plan (plan : ControlMergePlan) (m : MetaStore) : MetaStore :=
  let m := each apply_remote_bucket (upsert_buckets plan) m in
  let m := each (fun x => apply_bucket_config_at (bc_bucket x) (bc_key x) (bc_value x) (bc_updated_at x))
             (upsert_bucket_configs plan) m in
  let m := each (fun x => apply_bucket_tags_at (bt_bucket x) (bt_tags x) (bt_updated_at x)) (upsert_bucket_tags plan) m in
  let m := each apply_remote_multipart_upload (upsert_multipart_uploads plan) m in
  let m := each put_part (upsert_parts plan) m in
  let m := each (fun k => delete_bucket_config k.1 k.2) (delete_bucket_configs plan) m in
  let m := each MetadataStore.delete_bucket_tags (ControlMerge.delete_bucket_tags plan) m in
  let m := each delete_multipart_upload (delete_multipart_uploads plan) m in
  each delete_bucket (delete_buckets plan) m.

Definition reconcile_peer_control (remote : outcome ClusterError ControlSnapshot) (n : Node)
  : Node * outcome ClusterError unit :=
  match remote with
  | Err e => (n, Err e)
  | Panic => (n, Panic)
  | Ok remote =>
      let local := build_control_snapshot (nd_meta n) (nd_ids n) in
      let plan := plan_control_merge MIN_UTC local remote in
      if is_empty plan then (n, Ok tt)
      else
        match apply_control_merge foreign_keys plan (nd_ids n) with
        | (ids, Ok _) =>
            ({| nd_meta := apply_metadata_plan plan (nd_meta n); nd_ids := ids;
                nd_cluster := nd_cluster n; nd_stuck := nd_stuck n |}, Ok tt)
        | (ids, Err _) =>
            ({| nd_meta := nd_meta n; nd_ids := ids; nd_cluster := nd_cluster n; nd_stuck := nd_stuck n |}, Err Serde)
        | (ids, Panic) =>
            ({| nd_meta := nd_meta n; nd_ids := ids; nd_cluster := nd_cluster n; nd_stuck := nd_stuck n |}, Panic)
        end
  end.

(** Steps 0 and 1 of the loop over the peers: the node after the pull, and
    whether the peer's manifest was drained. *)
Definition sync_objects (fuel : nat) (fetch : Z -> outcome ClusterError ClusterManifest) (now : Z) (peer : PeerNode)
    (n : Node) : option (Node * bool) :=
  let id := pn_node_id peer in
  let sync := peer_sync id (nd_cluster n) in
  let cluster :=
    if sync_rewound (hwm sync) (hwm_at sync) (pn_max_seq peer) (pn_last_seen peer)
    then reset_sync_hwm id (nd_cluster n) else nd_cluster n in
  let since := hwm (peer_sync id cluster) in
  match reconcile_peer_objects apply fuel fetch since (nd_meta n) with
  | None => None
  | Some (m, Ok oc) =>
      let '(stuck, skip) := observe id (oc_failed_seq oc) (nd_stuck n) in
      let '(cluster, cursor) :=
        if skip then (record_skipped_entry id cluster, default (oc_cursor oc) (oc_failed_seq oc))
        else (cluster, oc_cursor oc) in
      let cluster := if (since <? cursor)%Z then set_sync_hwm id cursor now cluster else cluster in
      Some ({| nd_meta := m; nd_ids := nd_ids n; nd_cluster := cluster; nd_stuck := stuck |}, oc_caught_up oc)
  | Some (m, _) =>
      Some ({| nd_meta := m; nd_ids := nd_ids n; nd_cluster := cluster; nd_stuck := nd_stuck n |}, false)
  end.

(** The loop over the peers, for one of them. *)
Definition tick_peer (fuel : nat) (a : Answers) (peer : PeerNode) (n : Node) : option Node :=
  let ep := pn_endpoint peer in
  match sync_objects fuel (an_manifest a ep) (an_hwm_at a ep) peer n with
  | None => None
  | Some (n1, objects_caught_up) =>
      match reconcile_peer_control (an_snapshot a ep) n1 with
      | (n2, Ok _) =>
          Some {| nd_meta := nd_meta n2; nd_ids := nd_ids n2;
                  nd_cluster := if (objects_caught_up : bool)
                                then record_reconcile_complete (pn_node_id peer) (an_reconciled_at a ep) (nd_cluster n2)
                                else nd_cluster n2;
                  nd_stuck := nd_stuck n2 |}
      | (n2, _) => Some n2
      end
  end.

Fixpoint tick_peers (fuel : nat) (a : Answers) (peers : list PeerNode) (n : Node) : option Node :=
  match peers with
  | [] => Some n
  | peer :: peers' => match tick_peer fuel a peer n with Some n' => tick_peers fuel a peers' n' | None => None end
  end.

(** Step 3: tombstones past the grace, unless a peer was unseen for it. *)
Definition tombstone_gc (now cutoff_now grace : Z) (n : Node) : Node :=
  let blockers := tombstone_gc_blockers (cl_peers (nd_cluster n)) now grace in
  let cluster := set_tombstone_gc_blocked (negb (is_nil blockers)) (nd_cluster n) in
  if negb (is_nil blockers) then
    {| nd_meta := nd_meta n; nd_ids := nd_ids n; nd_cluster := cluster; nd_stuck := nd_stuck n |}
  else
    let cutoff := (cutoff_now - grace)%Z in
    {| nd_meta := (purge_tombstones cutoff (nd_meta n)).1; nd_ids := (purge_control_tombstones cutoff (nd_ids n)).1;
       nd_cluster := cluster; nd_stuck := nd_stuck n |}.

(** One tick of the worker, without the blob scan. *)
Definition tick (fuel : nat) (a : Answers) (now cutoff_now grace : Z) (n : Node) : option Node :=
  tombstone_gc now cutoff_now grace <$> tick_peers fuel a (eligible_peers (nd_cluster n)) n.
End worker.

(** ** Blob repair *)

Section repair.
Context {D : Type}.
Context (exists_blob : string -> D -> outcome ArcaError bool) (read_sidecar : string -> D -> outcome ArcaError (option SidecarMeta)).
(** [fetch_and_store] from the eligible peers, at its number in the sweep. *)
Context (fetch_store : Z -> string -> D -> D * bool).

(** [exists(..).unwrap_or(true)] *)
Definition missing (id : string) (d : D) : bool :=
  match exists_blob id d with Ok b => negb b | _ => false end.

Fixpoint repair_parts (parts : list CompositePart) (attempts : Z) (d : D) : D * Z :=
  match parts with
  | [] => (d, attempts)
  | part :: parts' =>
      if missing (cp_blob_id part) d then repair_parts parts' (attempts + 1) (fetch_store attempts (cp_blob_id part) d).1
      else repair_parts parts' attempts d
  end.

Definition repair_one (id : string) (attempts : Z) (d : D) : D * Z :=
  if missing id d then
    match read_sidecar id d with
    | Ok (Some meta) =>
        match sm_composite meta with
        | Some parts => repair_parts parts attempts d
        | None => ((fetch_store attempts id d).1, (attempts + 1)%Z)
        end
    | _ => ((fetch_store attempts id d).1, (attempts + 1)%Z)
    end
  else (d, attempts).

Fixpoint repair_sweep (referenced : list string) (budget attempts : Z) (cursor : option string) (d : D)
  : D * option string :=
  match referenced with
  | [] => (d, None)
  | id :: referenced' =>
      if match cursor with Some c => negb (String.ltb c id) | None => false end
      then repair_sweep referenced' budget attempts cursor d
      else if (budget <=? attempts)%Z then (d, cursor)
      else
        let '(d', attempts') := repair_one id attempts d in
        repair_sweep referenced' budget attempts' (Some id) d'
  end.

Definition repair_blobs (listed : outcome ArcaError (list string)) (peers : list string) (resume : option string)
    (budget : Z) (d : D) : D * option string :=
  match listed with
  | Ok ids =>
      if is_nil peers then (d, None)
      else repair_sweep (sorted_by String.compare ids) budget 0 resume d
  | _ => (d, None)
  end.
End repair.

(** [fetch_blob] is the transport; [draw] the time and the UUIDs of the writes. *)
Fixpoint fetch_and_store `{!BlobCodec} (st : FsBlobStore)
    (fetch_blob : string -> string -> outcome ClusterError (SidecarMeta * list (option (list Byte.byte))))
    (draw : string -> string -> Z * string * string) (peers : list string) (blob_id : string) (d : Disk) : Disk * bool :=
  match peers with
  | [] => (d, false)
  | endpoint :: peers' =>
      let next := fetch_and_store st fetch_blob draw peers' blob_id in
      match fetch_blob endpoint blob_id with
      | Ok (sidecar, stream) =>
          let '(now, uuid, uuid') := draw endpoint blob_id in
          if negb (has_valid_blob_refs sidecar) then next d
          else
            let '(d1, r) :=
              match sm_composite sidecar with
              | None => let '(d1, r) := write_raw st now uuid blob_id stream d in (d1, is_ok r)
              | Some _ => (d, true)
              end in
            if negb r then next d1
            else
              match write_sidecar st now uuid' blob_id sidecar d1 with
              | (d2, Ok _) => (d2, true)
              | (d2, _) => next d2
              end
      | _ => next d
      end
  end.

(** ** The loop *)

Definition BLOB_SCAN_EVERY_TICKS : Z := 10.

Record Worker : Type := {
  wk_node : Node;
  wk_disk : Disk;
  wk_tick : Z;
  wk_repair_cursor : option string;
}.

(** Step 4: the repair sweep goes on in every tick until it is complete. *)
Definition blob_scan `{!BlobCodec} (st : FsBlobStore)
    (fetch_blob : string -> string -> outcome ClusterError (SidecarMeta * list (option (list Byte.byte))))
    (draw : Z -> string -> string -> Z * string * string) (blob_repair_budget gc_now grace : Z) (w : Worker) : Worker :=
  let ids := Ok (list_referenced_blob_ids (nd_meta (wk_node w))) in
  let peers := pn_endpoint <$> eligible_peers (nd_cluster (wk_node w)) in
  let due := (wk_tick w mod BLOB_SCAN_EVERY_TICKS =? 0)%Z in
  let '(d, cursor) :=
    if due || is_some (wk_repair_cursor w) then
      repair_blobs (exists_ st) (fs_read_sidecar st) (fun n => fetch_and_store st fetch_blob (draw n) peers)
        ids peers (wk_repair_cursor w) blob_repair_budget (wk_disk w)
    else (wk_disk w, wk_repair_cursor w) in
  let d := if due then (@reclaim_blobs Disk (fs_raw_ops st) ids gc_now grace d).1 else d in
  {| wk_node := wk_node w; wk_disk := d; wk_tick := wk_tick w; wk_repair_cursor := cursor |}.

(** One round of the loop of [spawn]. *)
Definition worker_round `{!BlobCodec} (st : FsBlobStore) (foreign_keys : bool) (MIN_UTC : Z)
    (apply : ObjectRecord -> mact ArcaError unit) (fuel : nat) (a : Answers)
    (fetch_blob : string -> string -> outcome ClusterError (SidecarMeta * list (option (list Byte.byte))))
    (draw : Z -> string -> string -> Z * string * string)
    (blob_repair_budget now cutoff_now gc_now grace : Z) (w : Worker) : option Worker :=
  (fun n =>
     blob_scan st fetch_blob draw blob_repair_budget gc_now grace
       {| wk_node := n; wk_disk := wk_disk w; wk_tick := wk_tick w + 1; wk_repair_cursor := wk_repair_cursor w |})
  <$> tick foreign_keys MIN_UTC apply fuel a now cutoff_now grace (wk_node w).
