(* ===== verification/AntiEntropySync.v ===== *)
(** The pull of the anti-entropy worker: it ends, it delivers what the peer
    has, an entry that can not be applied does not block it, and two nodes that
    pull from each other agree. *)

From S2P Require Import Prelude S3Errors Policy Types SqlTable Text Preconditions ControlMerge IdentityStore.
From S2P Require Import BlobRead BlobGc FsBlob FsBlobGc ClusterState AntiEntropy MetadataStore MetadataRows.
From S2P Require Import MetadataInvariant MetadataSteps MetadataOps MetadataListing MetadataReplication.

(** ** The rows of a peer *)

(** No two rows have the same number. *)
Definition seqs_distinct (m : gmap N ObjRow) : Prop :=
  forall i j x y, m !! i = Some x -> m !! j = Some y -> row_seq x = row_seq y -> i = j.

(** The rows by their number. *)
Definition change_log (s : MetaStore) : list (Z * ObjectRecord) :=
  (fun x => (row_seq x, row_rec x)) <$> sorted_by (cmp_on row_seq Z.compare) (map_to_list (ms_objects s)).*2.

Definition after (since : Z) (log : list (Z * ObjectRecord)) : list (Z * ObjectRecord) :=
  filter (fun r => (since < r.1)%Z) log.

Abbreviation ascending := (StronglySorted (fun a b : Z * ObjectRecord => (a.1 < b.1)%Z)).

Lemma log_strictly s : seqs_distinct (ms_objects s) ->
  strictly (cmp_on row_seq Z.compare) (map_to_list (ms_objects s)).*2.
Proof.
  intros Hd x y ([i x'] & -> & Hi%elem_of_map_to_list)%list_elem_of_fmap
    ([j y'] & -> & Hj%elem_of_map_to_list)%list_elem_of_fmap E%Z.compare_eq. simpl in *.
  assert (i = j) as -> by (by eapply Hd). congruence.
Qed.

Lemma changed_since_log since max s :
  (0 <= since < 2 ^ 63)%Z -> seqs_distinct (ms_objects s) ->
  list_rows_changed_since since max s = limit max (after since (change_log s)).
Proof.
  intros Hs Hd. unfold list_rows_changed_since, limit, after, change_log, rows_where. f_equal.
  replace (as_i64 since) with since by (unfold as_i64; destruct (since <? 2 ^ 63)%Z eqn:E; lia).
  rewrite (sorted_by_filter (cmp_on row_seq Z.compare)) by (by apply log_strictly).
  by rewrite list_filter_fmap.
Qed.

Lemma elem_of_change_log s r :
  r ∈ change_log s <-> exists i x, ms_objects s !! i = Some x /\ r = (row_seq x, row_rec x).
Proof.
  unfold change_log. rewrite list_elem_of_fmap. setoid_rewrite elem_of_sorted_by. split.
  - intros (x & -> & ([i x'] & -> & Hi%elem_of_map_to_list)%list_elem_of_fmap). eauto.
  - intros (i & x & Hi & ->). exists x. split; [done|]. apply list_elem_of_fmap. exists (i, x).
    by rewrite elem_of_map_to_list.
Qed.

Lemma change_log_ascending s : seqs_distinct (ms_objects s) -> ascending (change_log s).
Proof.
  intros Hd. unfold change_log.
  pose proof (sorted_by_sorted (cmp_on row_seq Z.compare) (map_to_list (ms_objects s)).*2) as Hs.
  assert (NoDup (sorted_by (cmp_on row_seq Z.compare) (map_to_list (ms_objects s)).*2)) as Hn.
  { rewrite sorted_by_perm. apply NoDup_fmap_2_strong; [|apply NoDup_map_to_list].
    intros [i x] [j y] Hi%elem_of_map_to_list Hj%elem_of_map_to_list E. simpl in E. subst y.
    by assert (i = j) as -> by (by eapply Hd). }
  assert (forall x y, x ∈ sorted_by (cmp_on row_seq Z.compare) (map_to_list (ms_objects s)).*2 ->
    y ∈ sorted_by (cmp_on row_seq Z.compare) (map_to_list (ms_objects s)).*2 -> row_seq x = row_seq y -> x = y) as Hi.
  { intros x y. rewrite !elem_of_sorted_by by apply _. intros Hx Hy E. apply (log_strictly s Hd); [done..|].
    unfold cmp_on. by apply Z.compare_eq_iff. }
  induction Hs as [|x l Hl IH Hx]; [by constructor|]. apply NoDup_cons in Hn as [Hxl Hn]. cbn [fmap list_fmap].
  constructor; [apply IH; [done|]; intros; apply Hi; [by right..|done]|].
  apply Forall_fmap, Forall_forall. intros y Hy. eapply Forall_forall in Hx; [|done].
  unfold order_by, cmp_on in Hx. rewrite Z.compare_le_iff in Hx. cbn.
  destruct (decide (row_seq x = row_seq y)) as [E|]; [|lia].
  apply Hi in E as ->; [done|by left|by right].
Qed.

(** ** One pull *)

Definition entry (r : Z * ObjectRecord) : ManifestEntry := {| me_seq := r.1; me_record := r.2 |}.

(** [apply_remote_object] of a store that fails for some of the rows. *)
Definition apply_unless (bad : ObjectRecord -> bool) (r : ObjectRecord) : mact ArcaError unit :=
  if bad r then act_fail (Internal "apply_remote_object") else apply_remote_object r.

Section pull.
Variable bad : ObjectRecord -> bool.

Definition fails (r : Z * ObjectRecord) : bool := has_valid_blob_ref r.2 && bad r.2.

(** The rows before the first one that fails, and its number. *)
Fixpoint until_failure (l : list (Z * ObjectRecord)) : list (Z * ObjectRecord) * option Z :=
  match l with
  | [] => ([], None)
  | r :: l' => if fails r then ([], Some r.1) else let '(pre, f) := until_failure l' in (r :: pre, f)
  end.

(** The rows a node takes. *)
Definition applied (l : list (Z * ObjectRecord)) : list ObjectRecord :=
  snd <$> List.filter (fun r => has_valid_blob_ref r.2) l.

Definition last_seq (since : Z) (l : list (Z * ObjectRecord)) : Z := default since (fst <$> last l).

Lemma last_seq_cons since r l : last_seq since (r :: l) = last_seq r.1 l.
Proof. unfold last_seq. rewrite last_cons. by destruct (last l). Qed.

Lemma apply_entries_spec l c s :
  apply_entries (apply_unless bad) (entry <$> l) c s =
  (deliver (applied (until_failure l).1) s, Ok (last_seq c (until_failure l).1, (until_failure l).2)).
Proof.
  revert c s. induction l as [|r l IH]; intros c s; [done|]. cbn [fmap list_fmap apply_entries until_failure].
  unfold fails, apply_unless. cbn [entry me_record me_seq].
  destruct (has_valid_blob_ref r.2) eqn:Hv; cbn [negb andb].
  - destruct (bad r.2); [done|]. rewrite (apply_remote_object_eq r.2 s) at 1. rewrite IH.
    destruct (until_failure l) as [pre f]. cbn [fst snd]. unfold applied. cbn [List.filter].
    rewrite Hv, last_seq_cons. cbn [fmap list_fmap]. unfold deliver at 2. cbn [foldl].
    by rewrite (apply_remote_object_eq r.2 s).
  - rewrite IH. destruct (until_failure l) as [pre f]. cbn [fst snd]. unfold applied. cbn [List.filter].
    by rewrite Hv, last_seq_cons.
Qed.

Lemma until_failure_app l1 l2 :
  until_failure (l1 ++ l2) =
  match (until_failure l1).2 with
  | Some q => until_failure l1
  | None => (l1 ++ (until_failure l2).1, (until_failure l2).2)
  end.
Proof.
  induction l1 as [|r l1 IH]; [cbn; by destruct (until_failure l2)|]. cbn [app until_failure].
  destruct (fails r); [done|]. rewrite IH. destruct (until_failure l1) as [pre [q|]]; [done|].
  by destruct (until_failure l2).
Qed.

Lemma until_failure_None l : (until_failure l).2 = None -> (until_failure l).1 = l.
Proof.
  induction l as [|r l IH]; [done|]. cbn [until_failure]. destruct (fails r); [done|].
  destruct (until_failure l) as [pre f]. intros H. cbn in *. by rewrite IH.
Qed.

Lemma applied_app l1 l2 : applied (l1 ++ l2) = applied l1 ++ applied l2.
Proof. unfold applied. by rewrite List.filter_app, fmap_app. Qed.

Lemma deliver_app xs ys s : deliver (xs ++ ys) s = deliver ys (deliver xs s).
Proof. unfold deliver. by rewrite foldl_app. Qed.

Lemma last_seq_app c l1 l2 : last_seq c (l1 ++ l2) = last_seq (last_seq c l1) l2.
Proof. unfold last_seq. rewrite last_app. by destruct (last l2). Qed.

(** *** The order of the numbers *)

Lemma ascending_app l1 l2 r1 r2 : ascending (l1 ++ l2) -> r1 ∈ l1 -> r2 ∈ l2 -> (r1.1 < r2.1)%Z.
Proof. intros (H & _)%StronglySorted_app H1 H2. by apply H. Qed.

Lemma last_seq_above c l : ascending l -> (forall r, r ∈ l -> (c < r.1)%Z) -> l <> [] -> (c < last_seq c l)%Z.
Proof.
  intros Ha Hc Hl. unfold last_seq. destruct (last l) as [r|] eqn:E; [|by apply last_None in E].
  apply Hc. by apply last_Some_elem_of.
Qed.

Lemma after_app c l1 l2 : after c (l1 ++ l2) = after c l1 ++ after c l2.
Proof. apply filter_app. Qed.

(** What is left after the rows of a page. *)
Lemma after_last c l l1 l2 : ascending l -> after c l = l1 ++ l2 -> after (last_seq c l1) l = l2.
Proof.
  intros Ha E. destruct (last l1) as [r|] eqn:El.
  - assert (last_seq c l1 = r.1) as -> by (unfold last_seq; by rewrite El).
    apply last_Some in El as [l0 ->].
    assert (after r.1 l = after r.1 (after c l)) as ->.
    { unfold after. rewrite list_filter_filter. apply list_filter_iff. intros q. split; [|by intros []].
      intros Hq. split; [done|]. enough (c < r.1)%Z by lia.
      assert (r ∈ after c l) as [Hr _]%list_elem_of_filter; [|done]. rewrite E. set_solver. }
    assert (ascending (after c l)) as Ha' by (by apply StronglySorted_filter).
    rewrite E in Ha' |- *. rewrite after_app. unfold after at 1.
    rewrite list_filter_none.
    2: { intros q [Hq|Hq%list_elem_of_singleton]%elem_of_app; [|subst; lia].
         rewrite <- app_assoc in Ha'. pose proof (ascending_app l0 ([r] ++ l2) q r Ha' Hq ltac:(set_solver)). lia. }
    unfold after. apply list_filter_all. intros q Hq. apply (ascending_app (l0 ++ [r]) l2); set_solver.
  - apply last_None in El as ->. done.
Qed.

Section peer.
Variables (log : list (Z * ObjectRecord)) (fetch : Z -> outcome ClusterError ClusterManifest).
Hypothesis Hlog : ascending log.
Hypothesis Hbound : forall r, r ∈ log -> (r.1 < 2 ^ 63)%Z.
Hypothesis Hfetch : forall c, (0 <= c < 2 ^ 63)%Z ->
  exists cur, fetch c = Ok {| mf_entries := entry <$> take 500 (after c log); mf_cursor := cur |}.

(** One pull delivers the rows before the first one that fails, in their order. *)
Lemma reconcile_spec fuel c s :
  (0 <= c < 2 ^ 63)%Z -> length (after c log) < fuel ->
  let '(pre, failed) := until_failure (after c log) in
  reconcile_peer_objects (apply_unless bad) fuel fetch c s =
  Some (deliver (applied pre) s,
        Ok {| oc_cursor := last_seq c pre; oc_caught_up := negb (is_some failed); oc_failed_seq := failed |}).
Proof.
  revert c s. induction fuel as [|fuel IH]; intros c s Hc Hf; [lia|]. cbn [reconcile_peer_objects].
  destruct (Hfetch c Hc) as [cur ->]. cbn [mf_entries]. rewrite apply_entries_spec, length_fmap.
  remember (after c log) as todo eqn:Htodo.
  assert (forall r, r ∈ todo -> (c < r.1 < 2 ^ 63)%Z) as Hin.
  { intros r. rewrite Htodo. unfold after. rewrite list_elem_of_filter. intros [? ?%Hbound]. lia. }
  assert (ascending todo) as Ha by (rewrite Htodo; by apply StronglySorted_filter).
  rewrite <- (take_drop 500 todo) in Ha.
  replace (until_failure todo) with (until_failure (take 500 todo ++ drop 500 todo)) by (by rewrite take_drop).
  rewrite until_failure_app.
  destruct (until_failure (take 500 todo)) as [pre failed] eqn:E. cbn [fst snd].
  destruct failed as [q|]; [by rewrite orb_true_l|]. cbn [is_some orb negb andb].
  assert (pre = take 500 todo) as -> by (by rewrite <- (until_failure_None (take 500 todo)); rewrite E).
  rewrite length_take. unfold MANIFEST_BATCH.
  destruct (decide (length todo < 500)) as [Hlt|Hge].
  - rewrite drop_ge, app_nil_r, take_ge by lia. cbn [until_failure fst snd].
    rewrite (proj2 (Z.ltb_lt _ 500)) by lia. by destruct (c <? last_seq c todo)%Z.
  - assert (take 500 todo <> []) as Hne by (rewrite <- length_zero_iff_nil, length_take; lia).
    assert (c < last_seq c (take 500 todo))%Z as Hp.
    { apply last_seq_above; [by eapply StronglySorted_app_1_l|intros r Hr|done].
      apply Hin. by apply (subseteq_take 500). }
    rewrite (proj2 (Z.ltb_lt _ _) Hp), (proj2 (Z.ltb_ge _ 500)) by lia. cbn [negb].
    assert (after (last_seq c (take 500 todo)) log = drop 500 todo) as Hrest.
    { apply after_last; [done|]. by rewrite take_drop, Htodo. }
    specialize (IH (last_seq c (take 500 todo)) (deliver (applied (take 500 todo)) s)). rewrite Hrest in IH.
    destruct (until_failure (drop 500 todo)) as [pre' failed']. rewrite IH.
    + by rewrite applied_app, deliver_app, last_seq_app.
    + split; [lia|]. unfold last_seq. destruct (last (take 500 todo)) as [r|] eqn:El; [|by apply last_None in El].
      apply Hin. by apply last_elem_of in El.
    + rewrite length_drop. lia.
Qed.
End peer.
End pull.

(** ** Pulling from a store *)

(** The numbers of the rows of a store are distinct, at most its counter, and
    the counter is an [i64]. *)
Definition numbered (s : MetaStore) : Prop :=
  seqs_distinct (ms_objects s) /\ seq_bound (current_object_seq s) (ms_objects s) /\
  (0 <= current_object_seq s < 2 ^ 63)%Z.

Lemma log_bound s r : numbered s -> r ∈ change_log s -> (r.1 <= current_object_seq s)%Z.
Proof. intros (_ & Hb & _) (i & x & Hi & ->)%elem_of_change_log. by apply (Hb i). Qed.

(** [GET /cluster/manifest] of the peer. *)
Definition manifest_of (p : MetaStore) (since : Z) : outcome ClusterError ClusterManifest :=
  Ok (manifest since MANIFEST_BATCH p).

Lemma manifest_pages p c : numbered p -> (0 <= c < 2 ^ 63)%Z ->
  exists cur, manifest_of p c = Ok {| mf_entries := entry <$> take 500 (after c (change_log p)); mf_cursor := cur |}.
Proof.
  intros (Hd & _) Hc. unfold manifest_of, manifest. rewrite changed_since_log by done.
  eexists. by do 2 f_equal.
Qed.

Lemma pull_spec bad p fuel c s :
  numbered p -> (0 <= c < 2 ^ 63)%Z -> length (change_log p) < fuel ->
  let '(pre, failed) := until_failure bad (after c (change_log p)) in
  reconcile_peer_objects (apply_unless bad) fuel (manifest_of p) c s =
  Some (deliver (applied pre) s,
        Ok {| oc_cursor := last_seq c pre; oc_caught_up := negb (is_some failed); oc_failed_seq := failed |}).
Proof.
  intros Hp Hc Hf. apply (reconcile_spec bad (change_log p)).
  - apply change_log_ascending, Hp.
  - intros r Hr. pose proof (log_bound p r Hp Hr). destruct Hp as (_ & _ & ?). lia.
  - intros c' Hc'. by apply manifest_pages.
  - done.
  - eapply Nat.le_lt_trans; [apply length_filter|done].
Qed.

Lemma no_failure l : until_failure (fun _ => false) l = (l, None).
Proof. induction l as [|r l IH]; [done|]. cbn. unfold fails. by rewrite andb_false_r, IH. Qed.

(** A pull delivers every row changed since the cursor, and ends at the last one. *)
Lemma pull_catches_up p fuel c s :
  numbered p -> (0 <= c < 2 ^ 63)%Z -> length (change_log p) < fuel ->
  reconcile_peer_objects apply_remote_object fuel (manifest_of p) c s =
  Some (deliver (applied (after c (change_log p))) s,
        Ok {| oc_cursor := last_seq c (after c (change_log p)); oc_caught_up := true; oc_failed_seq := None |}).
Proof.
  intros Hp Hc Hf. pose proof (pull_spec (fun _ => false) p fuel c s Hp Hc Hf) as H. rewrite no_failure in H.
  exact H.
Qed.

(** ** Mutual pulls *)

Section versions.
Variables (p : MetaStore) (b k : string) (v : option string).
Hypothesis (Hp : rows_ok (ms_objects p)).

Abbreviation of_version := (fun x => at_key b k x /\ version_is v x).

Lemma rows_of_version : rows_where of_version (ms_objects p) = option_list (query_row of_version (ms_objects p)).
Proof.
  unfold query_row. pose proof (rows_where_NoDup of_version id (ms_objects p)) as Hn.
  rewrite list_fmap_id in Hn. specialize (Hn ltac:(intros i j x y Hi Hj [Hx Hvx] [Hy Hvy] _;
    destruct (Hp b k) as [Hu _]; apply (Hu i j x y); congruence)).
  pose proof (fun x => proj1 (elem_of_rows_where of_version (ms_objects p) x)) as He.
  destruct (rows_where of_version (ms_objects p)) as [|x [|y l]]; [done..|]. exfalso.
  destruct (He x) as ([Hx Hvx] & i & Hi); [by left|]. destruct (He y) as ([Hy Hvy] & j & Hj); [by right; left|].
  destruct (Hp b k) as [Hu _]. assert (i = j) as -> by (apply (Hu i j x y); congruence).
  assert (x = y) as -> by congruence. apply NoDup_cons in Hn as [[] _]. by left.
Qed.

(** The row of the version in the log. *)
Lemma logged_version :
  filter (same_id b k v) (snd <$> change_log p) = option_list (row_rec <$> query_row of_version (ms_objects p)).
Proof.
  assert (filter (same_id b k v) (snd <$> change_log p) ≡ₚ
    row_rec <$> option_list (query_row of_version (ms_objects p))) as H.
  { rewrite <- rows_of_version. unfold change_log. rewrite <- list_fmap_compose.
    change (snd ∘ (fun x => (row_seq x, row_rec x))) with row_rec. rewrite sorted_by_perm.
    rewrite list_filter_fmap. unfold rows_where. f_equiv.
    match goal with |- ?l ≡ₚ ?l' => assert (l = l') as ->; [|done] end. apply list_filter_iff. intros x.
    unfold same_id. cbn. split; [intros [= <- <- <-]|intros [[-> ->] ->]]; done. }
  destruct (query_row of_version (ms_objects p)); [by apply Permutation_singleton_r in H|by apply Permutation_nil_r in H].
Qed.
End versions.

Definition all_valid (s : MetaStore) : Prop :=
  forall i x, ms_objects s !! i = Some x -> has_valid_blob_ref (row_rec x) = true /\ (0 < row_seq x)%Z.

Lemma whole_log p : all_valid p -> applied (after 0 (change_log p)) = snd <$> change_log p.
Proof.
  intros Hv. assert (forall r, r ∈ change_log p -> has_valid_blob_ref r.2 = true /\ (0 < r.1)%Z) as H.
  { intros r (i & x & Hi & ->)%elem_of_change_log. by apply (Hv i). }
  unfold applied, after. rewrite list_filter_all by (intros r Hr; by apply H). f_equal.
  apply forallb_filter_id, forallb_forall. intros r Hr. apply H. by apply list_elem_of_In.
Qed.

(** What a store holds of a version after it took the rows of another one. *)
Lemma version_row_pulled p s b k v :
  rows_ok (ms_objects p) -> rows_ok (ms_objects s) -> all_valid p ->
  version_row b k v (ms_objects (deliver (applied (after 0 (change_log p))) s)) =
  foldl absorb_opt None
    (option_list (row_rec <$> query_row (fun x => at_key b k x /\ version_is v x) (ms_objects s)) ++
     option_list (row_rec <$> query_row (fun x => at_key b k x /\ version_is v x) (ms_objects p))).
Proof.
  intros Hp Hs Hv. rewrite whole_log, version_row_deliver, logged_version, foldl_app by done. f_equal.
  unfold version_row. by destruct (query_row _ (ms_objects s)).
Qed.

(** Copies of one version on two nodes. *)
Definition copies_coherent (p q : MetaStore) : Prop :=
  forall i j x y, ms_objects p !! i = Some x -> ms_objects q !! j = Some y ->
    o_bucket (row_rec x) = o_bucket (row_rec y) -> o_key (row_rec x) = o_key (row_rec y) ->
    o_version_id (row_rec x) = o_version_id (row_rec y) -> coherent (row_rec x) (row_rec y).

Definition holds_key (b k : string) (s : MetaStore) : Prop := exists i x, ms_objects s !! i = Some x /\ at_key b k x.

Lemma copies_agree p q b k v :
  copies_coherent p q ->
  foldl absorb_opt None
    (option_list (row_rec <$> query_row (fun x => at_key b k x /\ version_is v x) (ms_objects p)) ++
     option_list (row_rec <$> query_row (fun x => at_key b k x /\ version_is v x) (ms_objects q))) =
  foldl absorb_opt None
    (option_list (row_rec <$> query_row (fun x => at_key b k x /\ version_is v x) (ms_objects q)) ++
     option_list (row_rec <$> query_row (fun x => at_key b k x /\ version_is v x) (ms_objects p))).
Proof.
  intros Hc. destruct (query_row _ (ms_objects p)) as [x|] eqn:Ex, (query_row _ (ms_objects q)) as [y|] eqn:Ey; try done.
  apply absorb_opt_perm_None; [apply Permutation_app_comm|].
  apply query_row_Some in Ex as (([Hbx Hkx] & Hvx) & i & Hi), Ey as (([Hby Hky] & Hvy) & j & Hj).
  assert (coherent (row_rec x) (row_rec y)) as H by (apply (Hc i j x y); congruence).
  intros c d. cbn. rewrite !elem_of_cons, !elem_of_nil. intros [->|[->|[]]] [->|[->|[]]];
    auto using coherent_refl, coherent_sym.
Qed.

Lemma pulled_settled p s b k :
  rows_ok (ms_objects s) -> all_valid p -> settled b k (ms_objects s) \/ holds_key b k p ->
  settled b k (ms_objects (deliver (applied (after 0 (change_log p))) s)).
Proof.
  intros Hs Hp H. rewrite whole_log by done. apply settled_deliver; [done|].
  destruct H as [H|(i & x & Hi & Hb & Hk)]; [by left|right]. exists (row_rec x). split; [|done].
  apply list_elem_of_fmap. exists (row_seq x, row_rec x). rewrite elem_of_change_log. eauto.
Qed.

(** C8. Anti-entropy makes two nodes agree: when each of two nodes pulls the
    manifest of the other from the start, both pulls end, drain the manifest
    and leave the same row for every version of every key on both nodes; a
    read of a key that both held, or whose latest row was its newest on the
    node that held it, then returns the same object on both.  The rows must
    carry distinct positive numbers ([tied_row_lost] is why) and well-formed
    blob ids, the copies of one version must be coherent, and the fuel of the
    pulls exceeds the number of rows. *)
Theorem mutual_pulls_converge (p q : MetaStore) (fuel : nat) :
  rows_ok (ms_objects p) -> rows_ok (ms_objects q) -> numbered p -> numbered q -> all_valid p -> all_valid q ->
  copies_coherent p q -> length (change_log p) < fuel -> length (change_log q) < fuel ->
  exists p' q' cp cq,
    reconcile_peer_objects apply_remote_object fuel (manifest_of q) 0 p =
      Some (p', Ok {| oc_cursor := cp; oc_caught_up := true; oc_failed_seq := None |}) /\
    reconcile_peer_objects apply_remote_object fuel (manifest_of p) 0 q =
      Some (q', Ok {| oc_cursor := cq; oc_caught_up := true; oc_failed_seq := None |}) /\
    (forall b k v, version_row b k v (ms_objects p') = version_row b k v (ms_objects q')) /\
    (forall b k, settled b k (ms_objects p) \/ holds_key b k q -> settled b k (ms_objects q) \/ holds_key b k p ->
       get_object b k p' = get_object b k q').
Proof.
  intros Rp Rq Np Nq Vp Vq Hc Fp Fq.
  assert (forall b k v,
    version_row b k v (ms_objects (deliver (applied (after 0 (change_log q))) p)) =
    version_row b k v (ms_objects (deliver (applied (after 0 (change_log p))) q))) as Hv.
  { intros b k v. rewrite !version_row_pulled by done. by apply copies_agree. }
  do 4 eexists. split_and!; [by apply pull_catches_up|by apply pull_catches_up|done|].
  intros b k Hp Hq. rewrite !get_object_of_latest by (by apply delivered_rows_ok). f_equal.
  apply option_ext. intros r.
  split; apply latest_agrees; auto using delivered_rows_ok, pulled_settled.
Qed.

(** ** Entries that fail *)

Lemma peer_sync_update id f c : peer_sync id (update_sync id f c) = f (peer_sync id c).
Proof. destruct c. unfold peer_sync. cbn. by rewrite lookup_insert_eq. Qed.

Lemma until_failure_split bad l q : (until_failure bad l).2 = Some q ->
  exists r post, l = (until_failure bad l).1 ++ r :: post /\ r.1 = q /\ fails bad r = true.
Proof.
  induction l as [|r l IH]; [done|]. cbn [until_failure]. destruct (fails bad r) eqn:E.
  - intros [= <-]. by exists r, l.
  - destruct (until_failure bad l) as [pre f]. intros H. destruct (IH H) as (r' & post & El & Hq & Hr). cbn in *.
    exists r', post. by rewrite El.
Qed.

Lemma until_failure_good bad l : List.filter (fails bad) (until_failure bad l).1 = [].
Proof.
  induction l as [|r l IH]; [done|]. cbn [until_failure]. destruct (fails bad r) eqn:E; [done|].
  destruct (until_failure bad l). cbn in *. by rewrite E.
Qed.

Section passes.
Variables (bad : ObjectRecord -> bool) (p : MetaStore) (fuel : nat) (peer : PeerNode).
Hypothesis Hp : numbered p.
Hypothesis Hfuel : length (change_log p) < fuel.
Hypothesis Hmax : forall max, pn_max_seq peer = Some max -> (current_object_seq p <= max)%Z.

Abbreviation id := (pn_node_id peer).
Abbreviation sync := (sync_objects (apply_unless bad) fuel (manifest_of p)).

(** Passes at the given times. *)
Fixpoint sync_passes (times : list Z) (n : Node) : option Node :=
  match times with
  | [] => Some n
  | now :: times' => match sync now peer n with Some (n', _) => sync_passes times' n' | None => None end
  end.

Lemma sync_passes_app ts1 ts2 n : sync_passes (ts1 ++ ts2) n = sync_passes ts1 n ≫= sync_passes ts2.
Proof.
  revert n. induction ts1 as [|t ts1 IH]; intros n; [done|]. cbn. by destruct (sync t peer n) as [[]|].
Qed.

(** What a node keeps about the peer: the mark, the entries it skipped, the
    streak of the failing entry; and its metadata. *)
Record view (n : Node) (mark skipped : Z) (streak : option (Z * Z)) (m : MetaStore) : Prop := {
  view_meta : nd_meta n = m;
  view_mark : hwm (peer_sync id (nd_cluster n)) = mark;
  view_skipped : skipped_entries (peer_sync id (nd_cluster n)) = skipped;
  view_streak : nd_stuck n !! id = streak;
}.

Definition counted (streak : option (Z * Z)) (q : Z) : Z :=
  match streak with Some (q', j) => if (q' =? q)%Z then (j + 1)%Z else 1 | None => 1 end.

Lemma observe_failure q t :
  observe id (Some q) t =
  if (STUCK_SKIP_AFTER <=? counted (t !! id) q)%Z then (base.delete id t, true)
  else (<[id := (q, counted (t !! id) q)]> t, false).
Proof.
  unfold observe, counted. destruct (t !! id) as [[q' j]|]; cbn [from_option Datatypes.id fst snd].
  - destruct (q' =? q)%Z eqn:E; cbn [negb]; [|done]. apply Z.eqb_eq in E as ->. done.
  - by rewrite Z.eqb_refl.
Qed.

Lemma not_rewound n c : hwm (peer_sync id (nd_cluster n)) = c -> (c <= current_object_seq p)%Z ->
  forall at_, sync_rewound (hwm (peer_sync id (nd_cluster n))) at_ (pn_max_seq peer) (pn_last_seen peer) = false.
Proof.
  intros -> Hc at_. unfold sync_rewound. destruct (pn_max_seq peer) as [mx|] eqn:E; [|done].
  specialize (Hmax mx eq_refl). destruct (pn_last_seen peer); [|done]. by rewrite (proj2 (Z.leb_le c mx)) by lia.
Qed.

Lemma last_seq_range c l : (forall r, r ∈ l -> (c < r.1)%Z) -> (last_seq c l = c \/ c < last_seq c l)%Z.
Proof.
  intros H. unfold last_seq. destruct (last l) as [r|] eqn:E; [|by left]. right. apply H. by apply last_Some_elem_of.
Qed.

Lemma elem_of_after c l r : r ∈ after c l <-> (c < r.1)%Z /\ r ∈ l.
Proof. unfold after. by rewrite list_elem_of_filter. Qed.

Lemma pass_spec now n c k streak m :
  view n c k streak m -> (0 <= c <= current_object_seq p)%Z ->
  let '(pre, failed) := until_failure bad (after c (change_log p)) in
  exists n', sync now peer n = Some (n', negb (is_some failed)) /\
    match failed with
    | None => view n' (last_seq c pre) k None (deliver (applied pre) m)
    | Some q =>
        if (STUCK_SKIP_AFTER <=? counted streak q)%Z
        then view n' q ((k + 1) mod 2 ^ 64) None (deliver (applied pre) m)
        else view n' (last_seq c pre) k (Some (q, counted streak q)) (deliver (applied pre) m)
    end.
Proof.
  intros [Hm Hc Hk Hst] Hr. pose proof Hp as (_ & _ & Hcur).
  pose proof (pull_spec bad p fuel c (nd_meta n) Hp ltac:(lia) Hfuel) as H.
  pose proof (until_failure_split bad (after c (change_log p))) as Hsplit.
  destruct (until_failure bad (after c (change_log p))) as [pre failed] eqn:E.
  unfold sync_objects. rewrite (not_rewound n c) by (done || lia). rewrite Hc, H. cbn [oc_failed_seq oc_cursor oc_caught_up].
  assert (forall r, r ∈ pre -> (c < r.1)%Z) as Hpre.
  { intros r Hin. apply (elem_of_after c (change_log p)). destruct failed as [q|].
    - destruct (Hsplit q eq_refl) as (r' & post & -> & _). set_solver.
    - pose proof (until_failure_None bad (after c (change_log p))) as Hn. rewrite E in Hn. by rewrite <- Hn. }
  destruct failed as [q|].
  - rewrite observe_failure, Hst. destruct (STUCK_SKIP_AFTER <=? counted streak q)%Z; cbn [from_option Datatypes.id is_some negb].
    + destruct (Hsplit q eq_refl) as (r' & post & El & <- & _).
      assert (c < r'.1)%Z as Hlt by (apply (elem_of_after c (change_log p)); rewrite El; set_solver).
      rewrite (proj2 (Z.ltb_lt _ _) Hlt). eexists. split; [done|].
      split; cbn; [by rewrite Hm|..|apply lookup_delete_eq];
        unfold set_sync_hwm, record_skipped_entry; rewrite !peer_sync_update; cbn; congruence.
    + eexists. split; [done|]. destruct (last_seq_range c pre Hpre) as [El|Hlt].
      * rewrite El, Z.ltb_irrefl. split; cbn; [by rewrite Hm|done..|apply lookup_insert_eq].
      * rewrite (proj2 (Z.ltb_lt _ _) Hlt). split; cbn; [by rewrite Hm|..|apply lookup_insert_eq];
          unfold set_sync_hwm; rewrite !peer_sync_update; cbn; congruence.
  - cbn [observe is_some negb]. eexists. split; [done|]. destruct (last_seq_range c pre Hpre) as [El|Hlt].
    + rewrite El, Z.ltb_irrefl. split; cbn; [by rewrite Hm|done..|apply lookup_delete_eq].
    + rewrite (proj2 (Z.ltb_lt _ _) Hlt). split; cbn; [by rewrite Hm|..|apply lookup_delete_eq];
        unfold set_sync_hwm; rewrite !peer_sync_update; cbn; congruence.
Qed.

(** A pass that starts at the failing row counts it. *)
Lemma pass_counts now n c k streak m r post :
  view n c k streak m -> (0 <= c <= current_object_seq p)%Z ->
  after c (change_log p) = r :: post -> fails bad r = true ->
  exists n' b, sync now peer n = Some (n', b) /\
    if (STUCK_SKIP_AFTER <=? counted streak r.1)%Z
    then view n' r.1 ((k + 1) mod 2 ^ 64) None m
    else view n' c k (Some (r.1, counted streak r.1)) m.
Proof.
  intros Hv Hc Hl Hr. pose proof (pass_spec now n c k streak m Hv Hc) as H. rewrite Hl in H.
  cbn [until_failure] in H. rewrite Hr in H. destruct H as (n' & Hs & H). exists n', false. by split.
Qed.

Lemma last_seq_le c l : (c <= current_object_seq p)%Z -> (forall r, r ∈ l -> r ∈ change_log p) ->
  (last_seq c l <= current_object_seq p)%Z.
Proof.
  intros Hc Hl. unfold last_seq. destruct (last l) as [r|] eqn:E; [|done].
  apply log_bound; [done|]. by apply Hl, last_Some_elem_of.
Qed.

(** Five passes take the rows up to the failing one and then leave it out. *)
Lemma five_passes times n c k m pre r post :
  view n c k None m -> (0 <= c <= current_object_seq p)%Z -> length times = 5 ->
  until_failure bad (after c (change_log p)) = (pre, Some r.1) ->
  after c (change_log p) = pre ++ r :: post -> fails bad r = true ->
  exists n', sync_passes times n = Some n' /\ view n' r.1 ((k + 1) mod 2 ^ 64) None (deliver (applied pre) m).
Proof.
  intros Hv Hc Ht Hu Hl Hr. destruct times as [|t1 [|t2 [|t3 [|t4 [|t5 [|]]]]]]; try done. clear Ht.
  assert (ascending (change_log p)) as Ha by apply change_log_ascending, Hp.
  assert (forall x, x ∈ pre -> x ∈ after c (change_log p)) as Hpre by (intros x Hx; rewrite Hl; set_solver).
  pose proof (pass_spec t1 n c k None m Hv Hc) as H. rewrite Hu in H. destruct H as (n1 & E1 & V1). cbn in V1.
  remember (last_seq c pre) as c1 eqn:Ec.
  assert (after c1 (change_log p) = r :: post) as Hrest by (subst; by apply after_last).
  assert (0 <= c1 <= current_object_seq p)%Z as Hc1.
  { split.
    - destruct (last_seq_range c pre) as [?|?]; [|lia..]. intros x Hx%Hpre%elem_of_after. lia.
    - subst. apply last_seq_le; [lia|]. intros x Hx%Hpre%elem_of_after. apply Hx. }
  destruct (pass_counts t2 _ _ _ _ _ _ _ V1 Hc1 Hrest Hr) as (n2 & ? & E2 & V2). cbn in V2. rewrite Z.eqb_refl in V2.
  destruct (pass_counts t3 _ _ _ _ _ _ _ V2 Hc1 Hrest Hr) as (n3 & ? & E3 & V3). cbn in V3. rewrite Z.eqb_refl in V3.
  destruct (pass_counts t4 _ _ _ _ _ _ _ V3 Hc1 Hrest Hr) as (n4 & ? & E4 & V4). cbn in V4. rewrite Z.eqb_refl in V4.
  destruct (pass_counts t5 _ _ _ _ _ _ _ V4 Hc1 Hrest Hr) as (n5 & ? & E5 & V5). cbn in V5. rewrite Z.eqb_refl in V5.
  exists n5. split; [|done]. cbn [sync_passes]. by rewrite E1, E2, E3, E4, E5.
Qed.

(** The rows that do not fail. *)
Definition sound (l : list (Z * ObjectRecord)) : list (Z * ObjectRecord) :=
  List.filter (fun r => negb (fails bad r)) l.

Lemma sound_all l : List.filter (fails bad) l = [] -> sound l = l.
Proof.
  induction l as [|r l IH]; [done|]. cbn. destruct (fails bad r); [done|]. intros H. cbn. f_equal. by apply IH.
Qed.

Lemma passes_catch_up k0 : forall times now n c k m,
  view n c k None m -> (0 <= c <= current_object_seq p)%Z -> (0 <= k < 2 ^ 64)%Z ->
  k0 = length (List.filter (fails bad) (after c (change_log p))) -> length times = 5 * k0 ->
  exists n' n'', sync_passes times n = Some n' /\ sync now peer n' = Some (n'', true) /\
    view n'' (last_seq c (after c (change_log p))) ((k + Z.of_nat k0) mod 2 ^ 64) None
      (deliver (applied (sound (after c (change_log p)))) m).
Proof.
  induction k0 as [|k0 IH]; intros times now n c k m Hv Hc Hk Hk0 Ht.
  - destruct times; [|done]. pose proof (pass_spec now n c k None m Hv Hc) as H.
    pose proof (until_failure_split bad (after c (change_log p))) as Hsplit.
    destruct (until_failure bad (after c (change_log p))) as [pre [q|]] eqn:E.
    + destruct (Hsplit q eq_refl) as (r & post & El & _ & Hr). exfalso. symmetry in Hk0.
      apply length_zero_iff_nil in Hk0. cbn in El. rewrite El, List.filter_app in Hk0. cbn in Hk0. rewrite Hr in Hk0.
      by apply app_eq_nil in Hk0 as [].
    + pose proof (until_failure_None bad (after c (change_log p))) as Hn. rewrite E in Hn. cbn in Hn. specialize (Hn eq_refl).
      destruct H as (n'' & Hs & H). exists n, n''. split; [done|]. split; [done|]. rewrite <- Hn.
      rewrite sound_all by (rewrite Hn; apply length_zero_iff_nil; done).
      by rewrite Z.add_0_r, Z.mod_small by done.
  - pose proof (until_failure_split bad (after c (change_log p))) as Hsplit.
    pose proof (until_failure_good bad (after c (change_log p))) as Hgood.
    destruct (until_failure bad (after c (change_log p))) as [pre [q|]] eqn:E.
    2: { pose proof (until_failure_None bad (after c (change_log p))) as Hn. rewrite E in Hn. cbn in Hn, Hgood.
         rewrite <- Hn, Hgood in Hk0 by done. done. }
    destruct (Hsplit q eq_refl) as (r & post & El & <- & Hr). cbn in El, Hgood.
    destruct (five_passes (take 5 times) n c k m pre r post) as (n1 & E1 & V1); try done.
    { rewrite length_take. lia. }
    assert (after r.1 (change_log p) = post) as Hrest.
    { pose proof (after_last c (change_log p) (pre ++ [r]) post) as Hal. rewrite last_seq_app in Hal. apply Hal.
      - apply change_log_ascending, Hp.
      - by rewrite <- app_assoc. }
    assert (r ∈ after c (change_log p)) as [Hcr Hin]%elem_of_after by (rewrite El; set_solver).
    pose proof (log_bound p r Hp Hin) as Hb.
    rewrite El, List.filter_app, Hgood in Hk0. cbn in Hk0. rewrite Hr in Hk0. cbn in Hk0.
    destruct (IH (drop 5 times) now n1 r.1 ((k + 1) mod 2 ^ 64)%Z (deliver (applied pre) m)) as (n' & n'' & E2 & E3 & V2);
      [done|lia|apply Z.mod_pos_bound; lia|rewrite Hrest; lia|rewrite length_drop; lia|].
    exists n', n''. split; [|split; [done|]].
    { rewrite <- (take_drop 5 times), sync_passes_app, E1. done. }
    rewrite Hrest in V2. rewrite El. unfold sound. rewrite List.filter_app. cbn [List.filter]. rewrite Hr. cbn [negb].
    fold (sound pre) (sound post). rewrite sound_all by done.
    rewrite applied_app, deliver_app, last_seq_app, last_seq_cons.
    replace ((k + Z.of_nat (S k0)) mod 2 ^ 64)%Z with (((k + 1) mod 2 ^ 64 + Z.of_nat k0) mod 2 ^ 64)%Z; [done|].
    rewrite Zplus_mod_idemp_l. f_equal. lia.
Qed.
End passes.

(** C18. An entry that can not be applied never blocks a peer: whatever rows the
    local store refuses, after five passes for each of them the next pass
    drains the manifest.  By then every other row changed since the mark has
    been delivered, in the order of the numbers, the mark is at the last row
    of the peer, and the skip counter has grown by the number of rows left
    out.  The rows of the peer carry distinct numbers up to its counter, the
    mark is not ahead of that counter nor the probed maximum behind it, and no
    entry of the peer is being retried when the passes begin. *)
Theorem stuck_entries_skipped (bad : ObjectRecord -> bool) (p : MetaStore) (fuel : nat) (peer : PeerNode)
    (n : Node) (times : list Z) (now : Z) :
  let id := pn_node_id peer in
  let st := peer_sync id (nd_cluster n) in
  let todo := after (hwm st) (change_log p) in
  let refused := List.filter (fails bad) todo in
  numbered p -> length (change_log p) < fuel ->
  (forall max, pn_max_seq peer = Some max -> (current_object_seq p <= max)%Z) ->
  (0 <= hwm st <= current_object_seq p)%Z -> (0 <= skipped_entries st < 2 ^ 64)%Z -> nd_stuck n !! id = None ->
  length times = 5 * length refused ->
  exists n' n'',
    sync_passes bad p fuel peer times n = Some n' /\
    sync_objects (apply_unless bad) fuel (manifest_of p) now peer n' = Some (n'', true) /\
    nd_meta n'' = deliver (applied (sound bad todo)) (nd_meta n) /\
    hwm (peer_sync id (nd_cluster n'')) = last_seq (hwm st) todo /\
    skipped_entries (peer_sync id (nd_cluster n'')) =
      ((skipped_entries st + Z.of_nat (length refused)) mod 2 ^ 64)%Z.
Proof.
  intros id st todo refused Hp Hf Hm Hh Hk Hs Ht.
  destruct (passes_catch_up bad p fuel peer Hp Hf Hm (length refused) times now n (hwm st) (skipped_entries st) (nd_meta n))
    as (n' & n'' & E1 & E2 & [V1 V2 V3 _]); try done.
  exists n', n''. by split_and!.
Qed.

(** ** Runs *)

Lemma NoDup_fmap_elem {A B : Type} (g : A -> B) (l : list A) x y :
  NoDup (g <$> l) -> x ∈ l -> y ∈ l -> g x = g y -> x = y.
Proof.
  induction l as [|z l IH]; [intros _ []%elem_of_nil|]. cbn [fmap list_fmap]. rewrite NoDup_cons, !elem_of_cons.
  intros [Hz Hn] [->|Hx] [->|Hy] E; [done|..|by apply IH]; destruct Hz.
  - rewrite E. by apply list_elem_of_fmap_2.
  - rewrite <- E. by apply list_elem_of_fmap_2.
Qed.

(** Decides [numbered] and [all_valid]. *)
Definition check_numbered (s : MetaStore) : bool :=
  bool_decide (NoDup (row_seq <$> (map_to_list (ms_objects s)).*2))
  && forallb (fun x => (row_seq x <=? current_object_seq s)%Z) (map_to_list (ms_objects s)).*2
  && (0 <=? current_object_seq s)%Z && (current_object_seq s <? 2 ^ 63)%Z.

Definition check_valid (s : MetaStore) : bool :=
  forallb (fun x => has_valid_blob_ref (row_rec x) && (0 <? row_seq x)%Z) (map_to_list (ms_objects s)).*2.

Lemma rows_forallb (f : ObjRow -> bool) (m : gmap N ObjRow) i x :
  forallb f (map_to_list m).*2 = true -> m !! i = Some x -> f x = true.
Proof.
  rewrite forallb_forall. intros H Hi. apply H, list_elem_of_In, list_elem_of_fmap. exists (i, x).
  by rewrite elem_of_map_to_list.
Qed.

Lemma check_numbered_ok s : check_numbered s = true -> numbered s.
Proof.
  unfold check_numbered. rewrite !andb_true_iff, Z.leb_le, Z.ltb_lt. intros [[[Hn%bool_decide_eq_true Hb] ?] ?].
  split_and!; [|intros i x Hi; by apply Z.leb_le, (rows_forallb _ _ i x Hb)
              |done..].
  intros i j x y Hi Hj E. rewrite <- list_fmap_compose in Hn.
  assert ((i, x) = (j, y)) as [= -> ->]; [|done].
  apply (NoDup_fmap_elem (row_seq ∘ snd) (map_to_list (ms_objects s))); [done|by apply elem_of_map_to_list..|done].
Qed.

Lemma check_valid_ok s : check_valid s = true -> all_valid s.
Proof.
  intros H i x Hi. pose proof (rows_forallb _ _ i x H Hi) as [? ?%Z.ltb_lt]%andb_true_iff. done.
Qed.

Definition sample_version (key version : string) (n : string) (lm : Z) : ObjectRecord :=
  MkObject "bucket" key ("00000000-0000-4000-8000-00000000000" +:+ n) 3 "etag" None lm ∅ None None "root" (Some version)
    true false false None None None "STANDARD" None None None None None None.

(** Two nodes that were written to while they did not reach each other. *)
Definition sample_left : MetaStore :=
  deliver [sample_version "a" "v1" "1" 10; sample_version "b" "v1" "2" 20] empty_meta.
Definition sample_right : MetaStore :=
  deliver [sample_version "b" "v2" "3" 30; sample_version "c" "v1" "4" 40] empty_meta.

Lemma mutual_pulls_converge_witness :
  exists p' q' cp cq,
    reconcile_peer_objects apply_remote_object 10 (manifest_of sample_right) 0 sample_left =
      Some (p', Ok {| oc_cursor := cp; oc_caught_up := true; oc_failed_seq := None |}) /\
    reconcile_peer_objects apply_remote_object 10 (manifest_of sample_left) 0 sample_right =
      Some (q', Ok {| oc_cursor := cq; oc_caught_up := true; oc_failed_seq := None |}) /\
    get_object "bucket" "b" p' = get_object "bucket" "b" q'.
Proof.
  destruct (mutual_pulls_converge sample_left sample_right 10) as (p' & q' & cp & cq & Hp & Hq & _ & Hg).
  - apply delivered_rows_ok, empty_meta_ok.
  - apply delivered_rows_ok, empty_meta_ok.
  - apply check_numbered_ok. by vm_compute.
  - apply check_numbered_ok. by vm_compute.
  - apply check_valid_ok. by vm_compute.
  - apply check_valid_ok. by vm_compute.
  - intros i j x y Hi Hj Eb Ek Ev.
    assert (forallb (fun x => forallb (fun y => negb (bool_decide
      (o_key (row_rec x) = o_key (row_rec y) /\ o_version_id (row_rec x) = o_version_id (row_rec y))))
      (map_to_list (ms_objects sample_right)).*2) (map_to_list (ms_objects sample_left)).*2 = true) as H by by vm_compute.
    pose proof (rows_forallb _ _ j y (rows_forallb _ _ i x H Hi) Hj) as Hn. cbv beta in Hn.
    rewrite negb_true_iff, bool_decide_eq_false in Hn. exfalso. apply Hn. by split.
  - vm_compute. lia.
  - vm_compute. lia.
  - exists p', q', cp, cq. split; [exact Hp|]. split; [exact Hq|]. apply Hg; right.
    + exists 0%N, (MkRow (sample_version "b" "v2" "3" 30) 1). split; [|split]; vm_compute; reflexivity.
    + exists 1%N, (MkRow (sample_version "b" "v1" "2" 20) 2). split; [|split]; vm_compute; reflexivity.
Defined.

Definition sample_node : Node :=
  {| nd_meta := empty_meta; nd_ids := empty_ids; nd_cluster := ClusterState_new "n" None None; nd_stuck := ∅ |}.

(** The store refuses the rows of one key. *)
Definition refuses_a (r : ObjectRecord) : bool := String.eqb (o_key r) "a".

Lemma stuck_entries_skipped_witness :
  exists n' n'',
    sync_passes refuses_a sample_left 10 (sample_peer "p" true) [1; 2; 3; 4; 5]%Z sample_node = Some n' /\
    sync_objects (apply_unless refuses_a) 10 (manifest_of sample_left) 6 (sample_peer "p" true) n' = Some (n'', true) /\
    nd_meta n'' = deliver [sample_version "b" "v1" "2" 20] empty_meta /\
    skipped_entries (peer_sync "p" (nd_cluster n'')) = 1%Z.
Proof.
  destruct (stuck_entries_skipped refuses_a sample_left 10 (sample_peer "p" true) sample_node [1; 2; 3; 4; 5]%Z 6)
    as (n' & n'' & H1 & H2 & H3 & _ & H4).
  - apply check_numbered_ok. by vm_compute.
  - vm_compute. lia.
  - done.
  - by vm_compute.
  - by vm_compute.
  - done.
  - by vm_compute.
  - exists n', n''. split; [exact H1|]. split; [exact H2|].
    split; [rewrite H3; vm_compute; reflexivity|]. change "p" with (pn_node_id (sample_peer "p" true)).
    rewrite H4. vm_compute. reflexivity.
Defined.

(** *** Rows with one number

    In cluster mode the delete of a key in an unversioned bucket stamps every
    row of the key with one number.  A node that holds several versions of the
    key has such rows (they came from a peer and the versioning setting of the
    bucket did not yet).  When a pass then fails between two of them, the mark
    is already at their number: the next pass drains the manifest without the
    other row, which the peer keeps as a live version. *)
Definition sample_tied : MetaStore :=
  (delete_object_if true 50 "v3" "bucket" "key" no_delete_precondition "root"
     (deliver [sample_version "key" "v1" "1" 10; sample_version "key" "v2" "2" 20] empty_meta)).1.

Definition refuses_v1 (r : ObjectRecord) : bool := bool_decide (o_version_id r = Some "v1").

Lemma tied_row_lost :
  row_seq <$> (map_to_list (ms_objects sample_tied)).*2 = [3; 3]%Z /\
  match sync_passes refuses_v1 sample_tied 10 (sample_peer "p" true) [1]%Z
          {| nd_meta := deliver [sample_version "key" "v1" "1" 10; sample_version "key" "v2" "2" 20] empty_meta;
             nd_ids := empty_ids; nd_cluster := ClusterState_new "n" None None; nd_stuck := ∅ |} with
  | Some n =>
      match sync_objects apply_remote_object 10 (manifest_of sample_tied) 2 (sample_peer "p" true) n with
      | Some (n', caught_up) =>
          caught_up = true /\
          (o_is_tombstone <$> version_row "bucket" "key" (Some "v1") (ms_objects sample_tied)) = Some true /\
          (o_is_tombstone <$> version_row "bucket" "key" (Some "v1") (ms_objects (nd_meta n'))) = Some false
      | None => False
      end
  | None => False
  end.
Proof. by vm_compute. Qed.
