(* ===== verification/AntiEntropyRepair.v ===== *)
(** The blob repair of the anti-entropy worker: a sweep whose budget is used up
    is resumed until it is complete and handles every referenced blob once; a
    blob that was fetched reads back as the peer sent it, and no other blob
    changes. *)

From S2P Require Import Prelude S3Errors Policy Types SqlTable Text Preconditions ControlMerge IdentityStore.
From S2P Require Import BlobRead BlobGc FsBlob FsBlobPaths FsBlobFrame FsBlobSafety FsBlobGc FsBlobRuns ClusterState AntiEntropy.
From Stdlib Require Import Strings.Byte.

(** ** The sweep *)

Section sweep.
Context {D : Type}.
Context (exists_blob : string -> D -> outcome ArcaError bool) (read_sidecar : string -> D -> outcome ArcaError (option SidecarMeta)).
Context (fetch_store : Z -> string -> D -> D * bool).

Abbreviation one := (repair_one exists_blob read_sidecar fetch_store).
Abbreviation sweep := (repair_sweep exists_blob read_sidecar fetch_store).

(** Calls of [repair_blobs], each resumed where the one before stopped. *)
Fixpoint repair_calls (calls : nat) (ids peers : list string) (budget : Z) (cursor : option string) (d : D)
  : D * option string :=
  match calls with
  | 0 => (d, cursor)
  | S calls' =>
      let '(d', cursor') := repair_blobs exists_blob read_sidecar fetch_store (Ok ids) peers cursor budget d in
      if is_some cursor' then repair_calls calls' ids peers budget cursor' d' else (d', None)
  end.

(** Every blob is looked at once, in order; the numbers are those of the first
    fetch for it within its call. *)
Definition repair_each (ids : list (string * Z)) (d : D) : D :=
  foldl (fun d x => (one x.1 x.2 d).1) d ids.

Definition past (cursor : option string) (id : string) : Prop :=
  forall c, cursor = Some c -> String.ltb c id = true.

Abbreviation ordered := (StronglySorted (fun a b => String.ltb a b = true)).

Lemma sweep_done l budget attempts c d :
  (forall id, id ∈ l -> String.ltb c id = false) -> sweep l budget attempts (Some c) d = (d, None).
Proof.
  induction l as [|id l IH]; intros H; [done|]. cbn [repair_sweep]. rewrite (H id) by by left.
  cbn [negb]. apply IH. intros x Hx. apply H. by right.
Qed.

Lemma sweep_skips done l budget attempts c d :
  (forall id, id ∈ done -> String.ltb c id = false) -> sweep (done ++ l) budget attempts (Some c) d = sweep l budget attempts (Some c) d.
Proof.
  induction done as [|id done IH]; intros H; [done|]. cbn [app repair_sweep]. rewrite (H id) by by left.
  cbn [negb]. apply IH. intros x Hx. apply H. by right.
Qed.

(** One call, on the blobs past the cursor. *)
Lemma sweep_spec l : forall budget attempts cursor d,
  ordered l -> (forall id, id ∈ l -> past cursor id) ->
  exists l1 l2 numbers,
    l = l1 ++ l2 /\ length numbers = length l1 /\
    sweep l budget attempts cursor d =
      (repair_each (zip l1 numbers) d,
       if is_nil l2 then None else match last l1 with Some id => Some id | None => cursor end) /\
    ((attempts < budget)%Z -> l <> [] -> l1 <> []).
Proof.
  induction l as [|id l IH]; intros budget attempts cursor d Ho Hc; [by exists [], [], []|].
  apply StronglySorted_inv in Ho as [Ho Hid]. cbn [repair_sweep].
  replace (match cursor with Some c => negb (String.ltb c id) | None => false end) with false.
  2: { destruct cursor as [c|]; [|done]. by rewrite (Hc id) with (c := c) by (done || by left). }
  destruct (budget <=? attempts)%Z eqn:Eb.
  { exists [], (id :: l), []. split_and!; [done..|]. apply Z.leb_le in Eb. lia. }
  destruct (one id attempts d) as [d' attempts'] eqn:E.
  destruct (IH budget attempts' (Some id) d') as (l1 & l2 & numbers & -> & Hn & Hs & _).
  { done. }
  { intros x Hx c [= <-]. by eapply Forall_forall in Hid. }
  exists (id :: l1), l2, (attempts :: numbers). split_and!; [done|by cbn; rewrite Hn| |done].
  rewrite Hs. unfold repair_each. cbn [zip zip_with foldl fst snd]. rewrite E. cbn [fst]. rewrite last_cons.
  by destruct (is_nil l2), (last l1).
Qed.

Lemma repair_each_app l1 l2 d : repair_each (l1 ++ l2) d = repair_each l2 (repair_each l1 d).
Proof. apply foldl_app. Qed.

(** The blobs up to the cursor, and those past it. *)
Definition split_at (cursor : option string) (before l : list string) : Prop :=
  (forall id, id ∈ l -> past cursor id) /\
  match cursor with Some c => forall id, id ∈ before -> String.ltb c id = false | None => before = [] end.

Lemma split_at_last before l1 l2 x :
  ordered (before ++ l1 ++ l2) -> last l1 = Some x -> split_at (Some x) (before ++ l1) l2.
Proof.
  rewrite app_assoc. intros Ho [l0 ->]%last_Some. split.
  - intros id Hid c [= <-]. apply StronglySorted_app in Ho as (H & _). apply H; set_solver.
  - intros id Hid. apply StronglySorted_app in Ho as (_ & Ho & _). rewrite app_assoc in Hid, Ho.
    apply elem_of_app in Hid as [Hid| ->%list_elem_of_singleton].
    + apply string_ltb_asym. apply StronglySorted_app in Ho as (H & _). apply H; set_solver.
    + apply string_ltb_irrefl.
Qed.

Lemma calls_spec ids peers budget : peers <> [] -> (1 <= budget)%Z ->
  forall calls before l cursor d,
  sorted_by String.compare ids = before ++ l -> ordered (before ++ l) -> split_at cursor before l ->
  length l < calls ->
  exists numbers, length numbers = length l /\
    repair_calls calls ids peers budget cursor d = (repair_each (zip l numbers) d, None).
Proof.
  intros Hpeers Hb. induction calls as [|calls IH]; intros before l cursor d Hl Ho [Hpast Hbefore] Hn; [lia|].
  cbn [repair_calls]. unfold repair_blobs. replace (is_nil peers) with false by (by destruct peers). rewrite Hl.
  assert (sweep (before ++ l) budget 0 cursor d = sweep l budget 0 cursor d) as ->.
  { destruct cursor as [c|]; [by apply sweep_skips|by rewrite Hbefore]. }
  destruct (sweep_spec l budget 0 cursor d) as (l1 & l2 & numbers & -> & Hlen & Hs & Hprog).
  { by apply StronglySorted_app in Ho as (_ & _ & ?). }
  { done. }
  rewrite Hs. destruct l2 as [|y l2].
  { exists numbers. rewrite app_nil_r. by cbn. }
  cbn [is_nil]. destruct (last l1) as [x|] eqn:Ex.
  2: { apply last_None in Ex as ->. destruct Hprog; [lia|done|done]. }
  cbn [is_some]. destruct (IH (before ++ l1) (y :: l2) (Some x) (repair_each (zip l1 numbers) d)) as (numbers' & Hn' & Hr').
  - by rewrite <- app_assoc.
  - by rewrite <- app_assoc.
  - by apply split_at_last.
  - rewrite length_app in Hn. assert (length l1 <> 0) by (by destruct l1). lia.
  - exists (numbers ++ numbers'). rewrite !length_app, Hlen, Hn'. split; [done|].
    rewrite Hr', zip_with_app, repair_each_app by done. done.
Qed.
End sweep.

Lemma sorted_ids_strict (l : list string) :
  NoDup l -> StronglySorted (fun a b => String.ltb a b = true) (sorted_by String.compare l).
Proof.
  intros Hn. assert (NoDup (sorted_by String.compare l)) as Hn' by (by rewrite sorted_by_perm).
  pose proof (sorted_by_sorted String.compare l) as Hs. clear Hn.
  induction Hs as [|x k Hk IH Hx]; [by constructor|]. apply NoDup_cons in Hn' as [Hxk Hn'].
  constructor; [by apply IH|]. apply Forall_forall. intros y Hy. eapply Forall_forall in Hx; [|done].
  unfold order_by in Hx. apply string_compare_Lt. destruct (String.compare x y) eqn:E; [|done..].
  apply string_compare_Eq in E as ->. done.
Qed.

(** C28. The bounded repair sweep always completes: with any budget of at least
    one fetch per call and at least one peer, resuming from the cursor that
    each call returns, at most one call more than there are referenced blobs
    reaches the end; by then every referenced blob has been looked at exactly
    once, in the order of the ids, whatever the fetches do and however many
    parts a composite misses. *)
Theorem repair_sweep_completes {D : Type} (exists_blob : string -> D -> outcome ArcaError bool)
    (read_sidecar : string -> D -> outcome ArcaError (option SidecarMeta)) (fetch_store : Z -> string -> D -> D * bool)
    (ids peers : list string) (budget : Z) (d : D) :
  NoDup ids -> peers <> [] -> (1 <= budget)%Z ->
  exists numbers, length numbers = length ids /\
    repair_calls exists_blob read_sidecar fetch_store (S (length ids)) ids peers budget None d =
    (repair_each exists_blob read_sidecar fetch_store (zip (sorted_by String.compare ids) numbers) d, None).
Proof.
  intros Hn Hp Hb. pose proof (sorted_by_perm String.compare ids) as Hperm.
  assert (StronglySorted (fun a b => String.ltb a b = true) (sorted_by String.compare ids)) as Ho.
  { by apply sorted_ids_strict. }
  destruct (calls_spec exists_blob read_sidecar fetch_store ids peers budget Hp Hb (S (length ids)) []
    (sorted_by String.compare ids) None d) as (numbers & Hlen & Hr); [done|done|by split|rewrite Hperm; lia|].
  exists numbers. split; [by rewrite Hlen, Hperm|done].
Qed.

(** ** Fetching a blob *)

Section fetch.
Context `{!BlobCodec} (st : FsBlobStore).
Context (fetch_blob : string -> string -> outcome ClusterError (SidecarMeta * list (option (list Byte.byte)))).
Context (draw : string -> string -> Z * string * string).

Lemma elsewhere_trans id d1 d2 d3 : elsewhere st id d1 d2 -> elsewhere st id d2 d3 -> elsewhere st id d1 d3.
Proof. induction 1; [done|]. intros H'. eapply elsewhere_step; eauto. Qed.

Lemma elsewhere_op id o d : ~ touches st o d id -> elsewhere st id d (run_op st o d).
Proof. intros Hno. eapply elsewhere_step; [done|]. apply elsewhere_refl. Qed.

Lemma elsewhere_files id d d' p : is_valid id = true -> of_blob st id p -> elsewhere st id d d' ->
  dk_files d' !! p = dk_files d !! p.
Proof. intros Hv Hp. induction 1 as [|o d d' Hno _ IH]; [done|]. rewrite IH. by eapply run_op_file. Qed.

(** The files of a peer, written to a disk with the faults of [d]. *)
Definition supplied (peers : list string) (id : string) (d d' : Disk) : Prop :=
  exists endpoint sidecar stream now uuid uuid' d0 d1,
    endpoint ∈ peers /\ fetch_blob endpoint id = Ok (sidecar, stream) /\ has_valid_blob_refs sidecar = true /\
    dk_fault d0 = dk_fault d /\
    match sm_composite sidecar with
    | None => exists n, write_raw st now uuid id stream d0 = (d1, Ok n)
    | Some _ => d1 = d0
    end /\
    write_sidecar st now uuid' id sidecar d1 = (d', Ok tt).

Definition fetched (peers : list string) (id : string) (d d' : Disk) (ok : bool) : Prop :=
  (forall id', id' <> id -> elsewhere st id' d d') /\ dk_fault d' = dk_fault d /\
  (ok = true -> supplied peers id d d').

Lemma fetched_next endpoint peers id d d0 d' ok :
  (forall id', id' <> id -> elsewhere st id' d d0) -> dk_fault d0 = dk_fault d ->
  fetched peers id d0 d' ok -> fetched (endpoint :: peers) id d d' ok.
Proof.
  intros He Hf (F1 & F2 & F3). split_and!; [intros; eapply elsewhere_trans; eauto|congruence|].
  intros Hok. destruct (F3 Hok) as (e & sc & stream & now & u & u' & d2 & d3 & Hin & Hfb & Hrefs & Hft & Hw & Hs).
  exists e, sc, stream, now, u, u', d2, d3. split_and!; [by right|done|done|congruence|done|done].
Qed.

Lemma write_raw_elsewhere now uuid id stream d id' :
  id' <> id -> elsewhere st id' d (write_raw st now uuid id stream d).1.
Proof. intros Hne. by apply (elsewhere_op id' (BWriteRaw now uuid id stream)). Qed.

Lemma write_sidecar_elsewhere now uuid id meta d id' :
  id' <> id -> elsewhere st id' d (write_sidecar st now uuid id meta d).1.
Proof. intros Hne. by apply (elsewhere_op id' (BWriteSidecar now uuid id meta)). Qed.

(** The data file of a plain blob. *)
Definition store_data (sidecar : SidecarMeta) now uuid id stream (d : Disk) : Disk * bool :=
  match sm_composite sidecar with
  | None => let '(d1, r) := write_raw st now uuid id stream d in (d1, is_ok r)
  | Some _ => (d, true)
  end.

Lemma store_data_spec sidecar now uuid id stream d :
  let '(d1, ok) := store_data sidecar now uuid id stream d in
  (forall id', id' <> id -> elsewhere st id' d d1) /\ dk_fault d1 = dk_fault d /\
  (ok = true -> match sm_composite sidecar with
                | None => exists n, write_raw st now uuid id stream d = (d1, Ok n)
                | Some _ => d1 = d
                end).
Proof.
  pose proof (run_op_fault st (BWriteRaw now uuid id stream) d) as Hfr.
  pose proof (write_raw_elsewhere now uuid id stream d) as Hraw. cbn in Hfr. unfold store_data.
  destruct (sm_composite sidecar); [split_and!; [intros; apply elsewhere_refl|done..]|].
  destruct (write_raw st now uuid id stream d) as [d1 [n| |]]; cbn in *; split_and!; try done; eauto.
Qed.

(** What a call of [fetch_and_store] for [id] does: failed attempts, and then
    the files of one peer. *)
Lemma fetch_spec peers id d d' ok :
  fetch_and_store st fetch_blob draw peers id d = (d', ok) -> fetched peers id d d' ok.
Proof.
  revert d. induction peers as [|endpoint peers IH]; intros d.
  { intros [= <- <-]. split_and!; [intros; apply elsewhere_refl|done..]. }
  assert (fetch_and_store st fetch_blob draw peers id d = (d', ok) -> fetched (endpoint :: peers) id d d' ok) as Hskip.
  { intros Hr%IH. eapply fetched_next; [intros; apply elsewhere_refl|done..]. }
  cbn [fetch_and_store]. destruct (fetch_blob endpoint id) as [[sidecar stream]| |] eqn:Efb; [|apply Hskip..].
  destruct (draw endpoint id) as [[now uuid] uuid'].
  destruct (has_valid_blob_refs sidecar) eqn:Hrefs; cbn [negb]; [|apply Hskip].
  fold (store_data sidecar now uuid id stream d). pose proof (store_data_spec sidecar now uuid id stream d) as Hw.
  destruct (store_data sidecar now uuid id stream d) as [d1 r]. destruct Hw as (Hw1 & Hw2 & Hw3).
  destruct r; cbn [negb]; [|intros Hr%IH; by eapply fetched_next].
  pose proof (run_op_fault st (BWriteSidecar now uuid' id sidecar) d1) as Hfs. cbn in Hfs.
  pose proof (fun id' Hne => elsewhere_trans id' _ _ _ (Hw1 id' Hne)
    (write_sidecar_elsewhere now uuid' id sidecar d1 id' Hne)) as Hboth.
  destruct (write_sidecar st now uuid' id sidecar d1) as [d2 [[]| |]] eqn:Es; cbn [fst] in *;
    [|intros Hr%IH; eapply fetched_next; [exact Hboth|congruence|done]..].
  intros [= <- <-]. split_and!; [done|congruence|]. intros _.
  exists endpoint, sidecar, stream, now, uuid, uuid', d, d1. split_and!; [by left|done..|by apply Hw3|done].
Qed.
End fetch.

(** A repaired blob is the peer's: when [fetch_and_store] reports success,
    then whatever failed on the way, the sidecar on disk is the one an
    eligible peer answered with, and, unless it is a composite, the peer's
    stream was complete and every range that starts inside the blob reads
    back exactly the bytes it carried; in any case the files of all other
    blobs are as they were. *)
Theorem fetched_blob_reads_back `{!BlobCodec, !BlobCodecLaws} (st : FsBlobStore)
    (fetch_blob : string -> string -> outcome ClusterError (SidecarMeta * list (option (list Byte.byte))))
    (draw : string -> string -> Z * string * string) (peers : list string) (id : string) (d : Disk) :
  let '(d', ok) := fetch_and_store st fetch_blob draw peers id d in
  (forall id' p, id' <> id -> is_valid id' = true -> of_blob st id' p -> dk_files d' !! p = dk_files d !! p) /\
  (ok = true -> (forall p, of_blob st id p -> dk_fault d OpRead p = false) ->
   exists endpoint sidecar stream,
     endpoint ∈ peers /\ fetch_blob endpoint id = Ok (sidecar, stream) /\
     fs_read_sidecar st id d' = Ok (Some sidecar) /\
     (sm_composite sidecar = None ->
      exists chunks, stream = Some <$> chunks /\
        forall range, (Z.of_nat (length (List.concat chunks)) < 2 ^ 63)%Z ->
          in_range range (Z.of_nat (length (List.concat chunks))) ->
          get st id range d' =
          Ok {| bg_stream := {| bs_bytes := range_of range (List.concat chunks); bs_ok := true |};
                bg_content_length := Z.of_nat (length (range_of range (List.concat chunks))) |})).
Proof.
  destruct (fetch_and_store st fetch_blob draw peers id d) as [d' ok] eqn:E.
  apply fetch_spec in E as (He & Hf & Hok). split; [intros id' p Hne Hv Hp; by eapply elsewhere_files; eauto|].
  intros Ht Hft. destruct (Hok Ht) as (e & sc & stream & now & u & u' & d0 & d1 & Hin & Hfb & _ & Hf0 & Hw & Hs).
  assert (of_blob st id (blob_path st id)) as Hofb by by left.
  assert (of_blob st id (sidecar_path st id)) as Hofs by by right.
  exists e, sc, stream. split; [done|]. split; [done|]. destruct (sm_composite sc) as [parts|] eqn:Ec.
  - subst d1. destruct (write_sidecar_reads st _ _ _ _ _ _ Hs) as [Hread _]; [rewrite Hf0; auto|]. by split.
  - destruct Hw as [n (_ & chunks & -> & Hpub & _)%write_raw_ok].
    destruct (published_reads st _ _ _ _ _ Hpub) as [Hf1 Hopen]; [rewrite Hf0; auto|].
    destruct (write_sidecar_reads st _ _ _ _ _ _ Hs) as [Hread Hopen']; [rewrite Hf1, Hf0; auto|]. split; [done|]. intros _.
    exists chunks. split; [done|]. intros range Hlen Hr. eapply get_plain; [done..|by rewrite Hopen'|done|done].
Qed.

(** ** Runs *)

(** A disk that is the list of the blobs it has. *)
Definition list_exists (id : string) (d : list string) : outcome ArcaError bool := Ok (bool_decide (id ∈ d)).
Definition list_sidecar (id : string) (d : list string) : outcome ArcaError (option SidecarMeta) := Ok None.
Definition list_fetch (n : Z) (id : string) (d : list string) : list string * bool := (d ++ [id], true).

Lemma repair_sweep_completes_witness :
  repair_calls list_exists list_sidecar list_fetch 4 ["c"; "a"; "b"] ["p"] 1 None ["b"] = (["b"; "a"; "c"], None).
Proof.
  destruct (repair_sweep_completes list_exists list_sidecar list_fetch ["c"; "a"; "b"] ["p"] 1 ["b"]) as (numbers & Hn & H).
  - apply (bool_decide_unpack _). by vm_compute.
  - done.
  - done.
  - etransitivity; [exact H|]. destruct numbers as [|n1 [|n2 [|n3 [|]]]]; done.
Defined.

(** The stream of the first peer breaks off; the second one is complete. *)
Definition sample_fetch (endpoint id : string) : outcome ClusterError (SidecarMeta * list (option (list byte))) :=
  if String.eqb endpoint "p1" then Ok (sample_meta 2 None, [Some [x61]; None])
  else Ok (sample_meta 2 None, [Some [x61]; Some [x62]]).

Definition sample_draw (endpoint id : string) : Z * string * string := (5%Z, "u", "v").

Lemma fetched_blob_reads_back_witness :
  let '(d', ok) := fetch_and_store store0 sample_fetch sample_draw ["p1"; "p2"] id_a empty_disk in
  ok = true /\
  get store0 id_a None d' = Ok {| bg_stream := {| bs_bytes := [x61; x62]; bs_ok := true |}; bg_content_length := 2 |}.
Proof.
  pose proof (fetched_blob_reads_back store0 sample_fetch sample_draw ["p1"; "p2"] id_a empty_disk) as H.
  assert ((fetch_and_store store0 sample_fetch sample_draw ["p1"; "p2"] id_a empty_disk).2 = true) as Hok by by vm_compute.
  destruct (fetch_and_store store0 sample_fetch sample_draw ["p1"; "p2"] id_a empty_disk) as [d' ok]. cbn in Hok. subst ok.
  destruct H as [_ H]. destruct (H eq_refl) as (endpoint & sidecar & stream & Hin & Hf & Hs & Hg); [done|].
  split; [done|]. unfold sample_fetch in Hf.
  assert (sm_composite sidecar = None) as Hc by (destruct (String.eqb endpoint "p1"); by injection Hf as <- <-).
  destruct (Hg Hc) as (chunks & Hst & Hr). destruct (String.eqb endpoint "p1"); injection Hf as <- <-.
  - destruct chunks as [|? [|? []]]; done.
  - destruct chunks as [|c1 [|c2 []]]; try done. injection Hst as <- <-. by apply (Hr None).
Defined.
