(* ===== verification/Sigv4.v ===== *)
(** Request signatures: [crates/arca-auth/src/sigv4.rs], [parse.rs],
    [chunked.rs] and [error.rs].

    The canonical request, the string to sign, the signing key and the
    signature; signing and verification of headers and of presigned URLs; the
    parsers of both; the chain of chunk signatures.  HMAC, SHA-256, hex and the
    decoder of URL-encoded forms are parameters. *)

From Stdlib Require Import Strings.Ascii.
From S2P Require Import Prelude Policy Text.

Open Scope outcome_scope.

Inductive AuthError : Type :=
  | MalformedHeader (msg : string)
  | SignatureMismatch
  | InvalidDateTime (msg : string)
  | ExpiredUrl
  | MalformedQueryAuth (msg : string).

(** Code of other crates, and the part of [str::to_lowercase] beyond ASCII. *)
Class SigCrypto : Type := {
  hmac : string -> string -> string;
  sha256_of : string -> string;
  hex_of : string -> string;
  form_parse : string -> list (string * string);
  lowercase_unicode : string -> string;
}.

(** ** Strings *)

Definition nl : string := String (Ascii.ascii_of_nat 10) EmptyString.

Definition join (sep : string) (l : list string) : string := String.concat sep l.

Definition ascii_lower (a : Ascii.ascii) : Ascii.ascii :=
  let n := Ascii.N_of_ascii a in
  if (65 <=? n)%N && (n <=? 90)%N then Ascii.ascii_of_N (n + 32) else a.

Fixpoint map_string (f : Ascii.ascii -> Ascii.ascii) (s : string) : string :=
  match s with
  | EmptyString => EmptyString
  | String a s' => String (f a) (map_string f s')
  end.

Definition to_ascii_lowercase (s : string) : string := map_string ascii_lower s.

Definition to_lowercase `{!SigCrypto} (s : string) : string :=
  if is_ascii s then to_ascii_lowercase s else lowercase_unicode s.

Definition trim_start (s : string) : string := of_chars (drop_while is_whitespace (chars s)).

(** A sort that keeps the order of equal elements, as [sort_by]. *)
Fixpoint insert_by {A : Type} (le : A -> A -> bool) (x : A) (l : list A) : list A :=
  match l with
  | [] => [x]
  | y :: l' => if le x y then x :: l else y :: insert_by le x l'
  end.

Definition sort_by {A : Type} (le : A -> A -> bool) (l : list A) : list A := foldr (insert_by le) [] l.

(** [str::parse::<u64>]: an optional plus sign and decimal digits. *)
Definition digit_of (a : Ascii.ascii) : option Z :=
  let n := Z.of_N (Ascii.N_of_ascii a) in
  if (48 <=? n)%Z && (n <=? 57)%Z then Some (n - 48)%Z else None.

Fixpoint parse_digits (acc : Z) (s : string) : option Z :=
  match s with
  | EmptyString => Some acc
  | String a s' =>
      d ← digit_of a;
      let acc' := (acc * 10 + d)%Z in
      if (acc' <? 2 ^ 64)%Z then parse_digits acc' s' else None
  end.

Definition parse_u64 (s : string) : option Z :=
  let digits := default s (strip_prefix "+" s) in
  if bool_decide (digits = EmptyString) then None else parse_digits 0 digits.

(** [u64::to_string]. *)
Fixpoint digits_of (fuel : nat) (n : Z) (acc : string) : string :=
  match fuel with
  | 0 => acc
  | S fuel' =>
      let acc' := String (Ascii.ascii_of_N (Z.to_N (n mod 10) + 48)) acc in
      if (n <? 10)%Z then acc' else digits_of fuel' (n / 10) acc'
  end.

Definition u64_to_string (n : Z) : string := digits_of 20 n EmptyString.

(** [&s[..n]], which panics past the end and inside a character. *)
Definition slice_to (n : nat) (s : string) : outcome AuthError string :=
  match String.get n s with
  | Some a =>
      let b := Ascii.N_of_ascii a in
      if (128 <=? b)%N && (b <? 192)%N then Panic else Ok (String.substring 0 n s)
  | None => if (String.length s =? n)%nat then Ok s else Panic
  end.

(** ** Canonical requests *)

Definition canonical_uri (path : string) : string :=
  if bool_decide (path = EmptyString) then "/" else path.

Definition is_unreserved (n : N) : bool :=
  ((65 <=? n) && (n <=? 90) || (97 <=? n) && (n <=? 122) || (48 <=? n) && (n <=? 57)
   || (n =? 45) || (n =? 46) || (n =? 95) || (n =? 126))%N.

(** An upper case hexadecimal digit. *)
Definition hex_upper (n : N) : Ascii.ascii := Ascii.ascii_of_N (if (n <? 10)%N then n + 48 else n + 55).

Fixpoint uri_encode (input : string) (encode_slash : bool) : string :=
  match input with
  | EmptyString => EmptyString
  | String a rest =>
      let n := Ascii.N_of_ascii a in
      if is_unreserved n then String a (uri_encode rest encode_slash)
      else if (n =? 47)%N && negb encode_slash then String a (uri_encode rest encode_slash)
      else String "%"%char (String (hex_upper (n / 16)) (String (hex_upper (n mod 16)) (uri_encode rest encode_slash)))
  end.

Definition pair_le (a b : string * string) : bool :=
  if bool_decide (a.1 = b.1) then String.leb a.2 b.2 else String.leb a.1 b.1.

Definition encode_pair (p : string * string) : string * string := (uri_encode p.1 true, uri_encode p.2 true).

Definition format_pair (p : string * string) : string := p.1 +:+ "=" +:+ p.2.

Fixpoint collapse_spaces (prev_space : bool) (s : string) : string :=
  match s with
  | EmptyString => EmptyString
  | String a s' =>
      if bool_decide (a = " "%char) then
        if prev_space then collapse_spaces true s' else String a (collapse_spaces true s')
      else String a (collapse_spaces false s')
  end.

Definition trim_header_value (value : string) : string := collapse_spaces false (trim value).

Definition header_line (h : string * string) : string := h.1 +:+ ":" +:+ h.2 +:+ nl.

Definition signed_headers_str (headers : list string) : string := join ";" (sort_by String.leb headers).

Record ParsedAuthorization : Type := {
  pa_access_key_id : string;
  pa_date : string;
  pa_region : string;
  pa_service : string;
  pa_signed_headers : list string;
  pa_signature : string;
}.

Record ParsedQueryAuth : Type := {
  pq_access_key_id : string;
  pq_date : string;
  pq_region : string;
  pq_service : string;
  pq_signed_headers : list string;
  pq_signature : string;
  pq_expires : Z;
  pq_request_datetime : string;
}.

Record VerifyInput : Type := {
  vi_method : string;
  vi_uri_path : string;
  vi_query_string : string;
  vi_headers : list (string * string);
  vi_payload_hash : string;
  vi_auth : ParsedAuthorization;
  vi_secret_access_key : string;
  vi_request_datetime : string;
}.

Record PresignedVerifyInput : Type := {
  pv_method : string;
  pv_uri_path : string;
  pv_query_string : string;
  pv_headers : list (string * string);
  pv_auth : ParsedQueryAuth;
  pv_secret_access_key : string;
}.

Record SignOutboundInput : Type := {
  so_method : string;
  so_uri_path : string;
  so_query_string : string;
  so_headers : list (string * string);
  so_payload_hash : string;
  so_access_key_id : string;
  so_secret_access_key : string;
  so_region : string;
  so_service : string;
  so_request_datetime : string;
}.

Section sigv4.
Context `{!SigCrypto}.

Definition join_pairs (pairs : list (string * string)) : string :=
  join "&" (format_pair <$> sort_by pair_le pairs).

Definition canonical_query_string (query : string) : string :=
  if bool_decide (query = EmptyString) then EmptyString
  else join_pairs (encode_pair <$> form_parse query).

Definition canonical_query_string_presigned (query : string) : string :=
  if bool_decide (query = EmptyString) then EmptyString
  else join_pairs (encode_pair <$> List.filter (fun p => negb (bool_decide (p.1 = "X-Amz-Signature"))) (form_parse query)).

(** The values of a signed header, in the order of the request. *)
Definition selected_headers (all_headers : list (string * string)) (name : string) : list (string * string) :=
  let lower_name := to_lowercase name in
  (fun h => (lower_name, trim_header_value h.2))
    <$> List.filter (fun h => bool_decide (to_lowercase h.1 = lower_name)) all_headers.

Definition canonical_headers (all_headers : list (string * string)) (signed_header_names : list string) : string :=
  join EmptyString
    (header_line <$> sort_by (fun a b => String.leb a.1 b.1)
                       (List.concat (selected_headers all_headers <$> signed_header_names))).

(** The six parts of a canonical request. *)
Definition canonical_lines (method cu cq ch sh payload_hash : string) : string :=
  method +:+ nl +:+ cu +:+ nl +:+ cq +:+ nl +:+ ch +:+ nl +:+ sh +:+ nl +:+ payload_hash.

Definition canonical_request (method uri_path query_string : string) (all_headers : list (string * string))
    (signed_header_names : list string) (payload_hash : string) : string :=
  canonical_lines method (canonical_uri uri_path) (canonical_query_string query_string)
    (canonical_headers all_headers signed_header_names) (signed_headers_str signed_header_names) payload_hash.

Definition string_to_sign (datetime scope canonical_request_hash : string) : string :=
  "AWS4-HMAC-SHA256" +:+ nl +:+ datetime +:+ nl +:+ scope +:+ nl +:+ canonical_request_hash.

Definition hmac_sha256 (key data : string) : string := hmac key data.

Definition hex_sha256 (data : string) : string := hex_of (sha256_of data).

Definition signing_key (secret date region service : string) : string :=
  let k_secret := "AWS4" +:+ secret in
  let k_date := hmac_sha256 k_secret date in
  let k_region := hmac_sha256 k_date region in
  let k_service := hmac_sha256 k_region service in
  hmac_sha256 k_service "aws4_request".

Definition compute_signature (key sts : string) : string := hex_of (hmac_sha256 key sts).

Definition scope_of (date region service : string) : string :=
  date +:+ "/" +:+ region +:+ "/" +:+ service +:+ "/aws4_request".

(** ** Verification *)

Definition verify_request (input : VerifyInput) : outcome AuthError unit :=
  let auth := vi_auth input in
  let canonical := canonical_request (vi_method input) (vi_uri_path input) (vi_query_string input) (vi_headers input)
                     (pa_signed_headers auth) (vi_payload_hash input) in
  let canonical_hash := hex_sha256 canonical in
  let scope := scope_of (pa_date auth) (pa_region auth) (pa_service auth) in
  let sts := string_to_sign (vi_request_datetime input) scope canonical_hash in
  let key := signing_key (vi_secret_access_key input) (pa_date auth) (pa_region auth) (pa_service auth) in
  let computed := compute_signature key sts in
  if bool_decide (computed = pa_signature auth) then Ok tt else Err SignatureMismatch.

Definition verify_presigned_request (input : PresignedVerifyInput) : outcome AuthError unit :=
  let auth := pv_auth input in
  let cq := canonical_query_string_presigned (pv_query_string input) in
  let cu := canonical_uri (pv_uri_path input) in
  let ch := canonical_headers (pv_headers input) (pq_signed_headers auth) in
  let sh := signed_headers_str (pq_signed_headers auth) in
  let canonical := canonical_lines (pv_method input) cu cq ch sh "UNSIGNED-PAYLOAD" in
  let canonical_hash := hex_sha256 canonical in
  let scope := scope_of (pq_date auth) (pq_region auth) (pq_service auth) in
  let sts := string_to_sign (pq_request_datetime auth) scope canonical_hash in
  let key := signing_key (pv_secret_access_key input) (pq_date auth) (pq_region auth) (pq_service auth) in
  let computed := compute_signature key sts in
  if bool_decide (computed = pq_signature auth) then Ok tt else Err SignatureMismatch.

(** ** Signing *)

Definition generate_presigned_url (method host uri_path : string) (extra_query_params : list (string * string))
    (access_key_id secret_access_key region : string) (expires : Z) (datetime : string) : outcome AuthError string :=
  let? date := slice_to 8 datetime in
  let credential := access_key_id +:+ "/" +:+ date +:+ "/" +:+ region +:+ "/s3/aws4_request" in
  let params := [("X-Amz-Algorithm", "AWS4-HMAC-SHA256"); ("X-Amz-Credential", credential);
                 ("X-Amz-Date", datetime); ("X-Amz-Expires", u64_to_string expires); ("X-Amz-SignedHeaders", "host")]
                ++ extra_query_params in
  let canonical_qs := join_pairs (encode_pair <$> params) in
  let cu := canonical_uri uri_path in
  let ch := canonical_headers [("host", host)] ["host"] in
  let sh := signed_headers_str ["host"] in
  let canonical := canonical_lines method cu canonical_qs ch sh "UNSIGNED-PAYLOAD" in
  let canonical_hash := hex_sha256 canonical in
  let scope := date +:+ "/" +:+ region +:+ "/s3/aws4_request" in
  let sts := string_to_sign datetime scope canonical_hash in
  let key := signing_key secret_access_key date region "s3" in
  let signature := compute_signature key sts in
  Ok (canonical_qs +:+ "&X-Amz-Signature=" +:+ signature).

(** [dedup] on a sorted list. *)
Fixpoint dedup (l : list string) : list string :=
  match l with
  | x :: ((y :: _) as l') => if bool_decide (x = y) then dedup l' else x :: dedup l'
  | l => l
  end.

Definition outbound_names (headers : list (string * string)) : list string :=
  dedup (sort_by String.leb ((fun h => to_lowercase h.1) <$> headers)).

Definition sign_outbound_request (input : SignOutboundInput) : outcome AuthError string :=
  let? date := slice_to 8 (so_request_datetime input) in
  let names := outbound_names (so_headers input) in
  let cu := canonical_uri (so_uri_path input) in
  let cq := canonical_query_string (so_query_string input) in
  let ch := canonical_headers (so_headers input) names in
  let sh := signed_headers_str names in
  let canonical := canonical_lines (so_method input) cu cq ch sh (so_payload_hash input) in
  let canonical_hash := hex_sha256 canonical in
  let scope := scope_of date (so_region input) (so_service input) in
  let sts := string_to_sign (so_request_datetime input) scope canonical_hash in
  let key := signing_key (so_secret_access_key input) date (so_region input) (so_service input) in
  let signature := compute_signature key sts in
  let credential := so_access_key_id input +:+ "/" +:+ scope in
  Ok ("AWS4-HMAC-SHA256 Credential=" +:+ credential +:+ ", SignedHeaders=" +:+ sh +:+ ", Signature=" +:+ signature).

(** ** Parsers *)

(** The loop over the parts of the header, later ones winning. *)
Definition auth_part (acc : option string * option string * option string) (part : string)
  : option string * option string * option string :=
  let '(credential, signed_headers, signature) := acc in
  let part := trim part in
  match strip_prefix "Credential=" part with
  | Some val => (Some (trim val), signed_headers, signature)
  | None =>
      match strip_prefix "SignedHeaders=" part with
      | Some val => (credential, Some (trim val), signature)
      | None =>
          match strip_prefix "Signature=" part with
          | Some val => (credential, signed_headers, Some (trim val))
          | None => acc
          end
      end
  end.

Definition ok_or {E A : Type} (e : E) (o : option A) : outcome E A :=
  match o with Some a => Ok a | None => Err e end.

(** The five parts of a credential. *)
Definition parse_credential (malformed : string -> AuthError) (credential : string)
  : outcome AuthError (string * string * string * string) :=
  match split "/"%char credential with
  | [key; date; region; service; last] =>
      if bool_decide (last = "aws4_request") then Ok (key, date, region, service)
      else Err (malformed "credential scope must end with aws4_request")
  | _ => Err (malformed "credential scope must have 5 parts")
  end.

(** A list from [split] is never empty, so the check of the source for an
    empty list never fires. *)
Definition parse_signed_headers (s : string) : list string :=
  (fun h => to_lowercase (trim h)) <$> split ";"%char s.

Definition parse_authorization (header : string) : outcome AuthError ParsedAuthorization :=
  let header := trim header in
  let? rest := ok_or (MalformedHeader "missing AWS4-HMAC-SHA256 algorithm") (strip_prefix "AWS4-HMAC-SHA256" header) in
  let rest := trim_start rest in
  let '(credential, signed_headers, signature) := foldl auth_part (None, None, None) (split ","%char rest) in
  let? credential := ok_or (MalformedHeader "missing Credential") credential in
  let? (key, date, region, service) := parse_credential MalformedHeader credential in
  let? signed_headers := ok_or (MalformedHeader "missing SignedHeaders") signed_headers in
  let? signature := ok_or (MalformedHeader "missing Signature") signature in
  if bool_decide (signature = EmptyString) then Err (MalformedHeader "empty Signature")
  else
    Ok {| pa_access_key_id := key; pa_date := date; pa_region := region; pa_service := service;
          pa_signed_headers := parse_signed_headers signed_headers; pa_signature := signature |}.

(** The last value of a parameter. *)
Definition last_param (name : string) (params : list (string * string)) : option string :=
  last (snd <$> List.filter (fun p => bool_decide (p.1 = name)) params).

Definition parse_query_string_auth (query : string) : outcome AuthError ParsedQueryAuth :=
  let params := form_parse query in
  let? algo := ok_or (MalformedQueryAuth "missing X-Amz-Algorithm") (last_param "X-Amz-Algorithm" params) in
  if negb (bool_decide (algo = "AWS4-HMAC-SHA256")) then Err (MalformedQueryAuth "unsupported algorithm")
  else
    let? credential := ok_or (MalformedQueryAuth "missing X-Amz-Credential") (last_param "X-Amz-Credential" params) in
    let? (key, date, region, service) := parse_credential MalformedQueryAuth credential in
    let? request_datetime := ok_or (MalformedQueryAuth "missing X-Amz-Date") (last_param "X-Amz-Date" params) in
    if bool_decide (request_datetime = EmptyString) then Err (MalformedQueryAuth "empty X-Amz-Date")
    else
      let? expires_str := ok_or (MalformedQueryAuth "missing X-Amz-Expires") (last_param "X-Amz-Expires" params) in
      let? expires := ok_or (MalformedQueryAuth "invalid X-Amz-Expires") (parse_u64 expires_str) in
      let? signed_headers := ok_or (MalformedQueryAuth "missing X-Amz-SignedHeaders")
                               (last_param "X-Amz-SignedHeaders" params) in
      let? signature := ok_or (MalformedQueryAuth "missing X-Amz-Signature") (last_param "X-Amz-Signature" params) in
      if bool_decide (signature = EmptyString) then Err (MalformedQueryAuth "empty X-Amz-Signature")
      else
        Ok {| pq_access_key_id := key; pq_date := date; pq_region := region; pq_service := service;
              pq_signed_headers := parse_signed_headers signed_headers; pq_signature := signature;
              pq_expires := expires; pq_request_datetime := request_datetime |}.

(** ** The chain of chunk signatures *)

Record ChunkVerifier : Type := {
  cv_signing_key : string;
  cv_datetime : string;
  cv_scope : string;
  cv_previous_signature : string;
}.

Definition chunk_verifier_new (secret_access_key : string) (auth : ParsedAuthorization) (request_datetime : string)
  : ChunkVerifier :=
  {| cv_signing_key := signing_key secret_access_key (pa_date auth) (pa_region auth) (pa_service auth);
     cv_datetime := request_datetime;
     cv_scope := scope_of (pa_date auth) (pa_region auth) (pa_service auth);
     cv_previous_signature := pa_signature auth |}.

Definition expected_chunk_signature (v : ChunkVerifier) (chunk_sha256_hex : string) : string :=
  compute_signature (cv_signing_key v)
    ("AWS4-HMAC-SHA256-PAYLOAD" +:+ nl +:+ cv_datetime v +:+ nl +:+ cv_scope v +:+ nl +:+ cv_previous_signature v
     +:+ nl +:+ hex_sha256 EmptyString +:+ nl +:+ chunk_sha256_hex).

Definition expected_trailer_signature (v : ChunkVerifier) (canonical_trailer : string) : string :=
  compute_signature (cv_signing_key v)
    ("AWS4-HMAC-SHA256-TRAILER" +:+ nl +:+ cv_datetime v +:+ nl +:+ cv_scope v +:+ nl +:+ cv_previous_signature v
     +:+ nl +:+ hex_sha256 canonical_trailer).

Definition advance (v : ChunkVerifier) (expected provided : string) : ChunkVerifier * outcome AuthError unit :=
  if bool_decide (expected = provided) then
    ({| cv_signing_key := cv_signing_key v; cv_datetime := cv_datetime v; cv_scope := cv_scope v;
        cv_previous_signature := expected |}, Ok tt)
  else (v, Err SignatureMismatch).

Definition verify_chunk (v : ChunkVerifier) (chunk_sha256_hex signature : string) : ChunkVerifier * outcome AuthError unit :=
  advance v (expected_chunk_signature v chunk_sha256_hex) signature.

Definition verify_trailer (v : ChunkVerifier) (canonical_trailer signature : string)
  : ChunkVerifier * outcome AuthError unit :=
  advance v (expected_trailer_signature v canonical_trailer) signature.
End sigv4.

Definition canonical_trailer (headers : list (string * string)) : string :=
  join EmptyString
    ((fun h => to_ascii_lowercase (trim h.1) +:+ ":" +:+ trim h.2 +:+ nl)
       <$> List.filter (fun h => negb (bool_decide (to_ascii_lowercase (trim h.1) = "x-amz-trailer-signature"))) headers).
