(* ===== verification/Sigv4Safety.v ===== *)
(** What the signatures of [Sigv4] guarantee: the canonical request determines
    the parts it is made of, so that two requests under one signature are the
    same or exhibit a collision; and what the signing functions produce is
    accepted by the parsers and the verification. *)

From Stdlib Require Import Strings.Ascii.
From stdpp Require Import sorting.
From S2P Require Import Prelude Policy Text Sigv4.

Open Scope outcome_scope.

(** ** Strings without a character *)

(** [c] does not occur in [s]. *)
Fixpoint free_of (c : ascii) (s : string) : bool :=
  match s with
  | EmptyString => true
  | String a s' => negb (bool_decide (a = c)) && free_of c s'
  end.

Definition nl_char : ascii := Ascii.ascii_of_nat 10.

Lemma free_of_app c s t : free_of c (s +:+ t) = free_of c s && free_of c t.
Proof.
  induction s as [|a s IH]; [done|].
  change (free_of c (String a s +:+ t)) with (negb (bool_decide (a = c)) && free_of c (s +:+ t)).
  rewrite IH. cbn [free_of]. by rewrite andb_assoc.
Qed.

(** The text before the first [c], and the text after the last. *)
Lemma first_sep c s t x y :
  free_of c s = true -> free_of c t = true -> (s +:+ String c x)%string = (t +:+ String c y)%string -> s = t /\ x = y.
Proof.
  revert t. induction s as [|a s IH]; intros [|b t] Hs Ht E; cbn in *.
  - by injection E as ->.
  - injection E as -> _. rewrite bool_decide_eq_true_2 in Ht by done. done.
  - injection E as -> _. rewrite bool_decide_eq_true_2 in Hs by done. done.
  - injection E as -> E. apply andb_true_iff in Hs as [_ Hs], Ht as [_ Ht].
    destruct (IH t Hs Ht E) as [-> ->]. done.
Qed.

Lemma last_sep c s t x y :
  free_of c x = true -> free_of c y = true -> (s +:+ String c x)%string = (t +:+ String c y)%string -> s = t /\ x = y.
Proof.
  revert t. induction s as [|a s IH]; intros [|b t] Hx Hy E; cbn in *.
  - by injection E as ->.
  - injection E as -> ->. rewrite free_of_app in Hx. cbn in Hx.
    rewrite bool_decide_eq_true_2, andb_false_r in Hx by done. done.
  - injection E as -> <-. rewrite free_of_app in Hy. cbn in Hy.
    rewrite bool_decide_eq_true_2, andb_false_r in Hy by done. done.
  - injection E as -> E. destruct (IH t Hx Hy E) as [-> ->]. done.
Qed.

(** ** The sort *)

Lemma insert_by_permutation {A : Type} (le : A -> A -> bool) x l : insert_by le x l ≡ₚ x :: l.
Proof.
  induction l as [|y l IH]; cbn [insert_by]; [done|]. destruct (le x y); [done|].
  rewrite IH. apply Permutation_swap.
Qed.

Lemma sort_by_permutation {A : Type} (le : A -> A -> bool) l : sort_by le l ≡ₚ l.
Proof. induction l as [|x l IH]; [done|]. cbn. by rewrite insert_by_permutation, IH. Qed.

Lemma insert_by_sorted {A : Type} (le : A -> A -> bool) x l :
  (forall a b, le a b = false -> le b a = true) ->
  Sorted (fun a b => le a b = true) l -> Sorted (fun a b => le a b = true) (insert_by le x l).
Proof.
  intros Htot. induction 1 as [|y l Hl IH Hy]; cbn [insert_by]; [by repeat constructor|].
  destruct (le x y) eqn:E; [by repeat constructor|]. constructor; [done|].
  destruct l as [|z l]; cbn [insert_by]; [by constructor; apply Htot|].
  inversion Hy; subst. destruct (le x z); constructor; [by apply Htot|done].
Qed.

Lemma sort_by_sorted {A : Type} (le : A -> A -> bool) l :
  (forall a b, le a b = false -> le b a = true) -> Sorted (fun a b => le a b = true) (sort_by le l).
Proof. intros Htot. induction l as [|x l IH]; [constructor|]. by apply insert_by_sorted. Qed.

Lemma sort_by_id {A : Type} (le : A -> A -> bool) l : Sorted (fun a b => le a b = true) l -> sort_by le l = l.
Proof.
  induction 1 as [|x l Hl IH Hx]; [done|]. cbn [sort_by foldr]. fold (sort_by le l). rewrite IH.
  destruct Hx as [|y l Hxy]; [done|]. cbn [insert_by]. by rewrite Hxy.
Qed.

Definition no_nl (s : string) : Prop := free_of nl_char s = true.

Lemma nl_cons s : (nl +:+ s)%string = String nl_char s.
Proof. done. Qed.

(** ** The canonical request *)

Lemma canonical_lines_inj m cu cq ch sh p m' cu' cq' ch' sh' p' :
  Forall no_nl [m; cu; cq; sh; p; m'; cu'; cq'; sh'; p'] ->
  canonical_lines m cu cq ch sh p = canonical_lines m' cu' cq' ch' sh' p' ->
  (m, cu, cq, ch, sh, p) = (m', cu', cq', ch', sh', p').
Proof.
  rewrite !Forall_cons. intros (Hm & Hcu & Hcq & Hsh & Hp & Hm' & Hcu' & Hcq' & Hsh' & Hp' & _).
  unfold canonical_lines. rewrite !nl_cons. intros E.
  apply first_sep in E as [-> E]; [|done..]. apply first_sep in E as [-> E]; [|done..].
  apply first_sep in E as [-> E]; [|done..].
  change (ch +:+ String nl_char (sh +:+ String nl_char p))%string with
    (ch +:+ (String nl_char sh) +:+ String nl_char p)%string in E.
  change (ch' +:+ String nl_char (sh' +:+ String nl_char p'))%string with
    (ch' +:+ (String nl_char sh') +:+ String nl_char p')%string in E.
  rewrite <- !string_app_assoc in E.
  apply last_sep in E as [E ->]; [|done..]. by apply last_sep in E as [-> ->].
Qed.

Section signatures.
Context `{HS : !SigCrypto}.

Lemma string_to_sign_inj dt sc h dt' sc' h' :
  Forall no_nl [dt; sc; dt'; sc'] -> string_to_sign dt sc h = string_to_sign dt' sc' h' -> (dt, sc, h) = (dt', sc', h').
Proof.
  rewrite !Forall_cons. intros (Hd & Hs & Hd' & Hs' & _). unfold string_to_sign. rewrite !nl_cons. intros E.
  apply first_sep in E as [_ E]; [|done..]. apply first_sep in E as [-> E]; [|done..].
  by apply first_sep in E as [-> ->].
Qed.

(** Encoded queries have no line break. *)
Lemma free_of_join c sep l :
  free_of c sep = true -> Forall (fun s => free_of c s = true) l -> free_of c (join sep l) = true.
Proof.
  intros Hsep Hl. unfold join. induction Hl as [|s l Hs Hl IH]; [done|]. destruct l as [|t l]; [done|].
  change (String.concat sep (s :: t :: l)) with (s +:+ sep +:+ String.concat sep (t :: l))%string.
  rewrite !free_of_app, Hs, Hsep, IH. done.
Qed.

Lemma hex_upper_no_nl n : (n < 16)%N -> hex_upper n <> nl_char.
Proof. intros Hn. do 16 (destruct n as [|n] using N.peano_ind; [vm_compute; done|clear IHn]). lia. Qed.

Lemma uri_encode_no_nl s b : no_nl (uri_encode s b).
Proof.
  unfold no_nl. induction s as [|a s IH]; [done|]. cbn [uri_encode].
  assert (is_unreserved (N_of_ascii a) = true \/ (N_of_ascii a =? 47)%N = true -> a <> nl_char) as Ha.
  { intros [H|H] ->; vm_compute in H; done. }
  assert (N_of_ascii a < 256)%N as Hlt by apply N_ascii_bounded.
  destruct (is_unreserved _) eqn:E1; [|destruct (_ && _) eqn:E2]; cbn [free_of]; rewrite IH.
  - rewrite bool_decide_eq_false_2 by auto. done.
  - apply andb_true_iff in E2 as [E2 _]. rewrite bool_decide_eq_false_2 by auto. done.
  - rewrite !bool_decide_eq_false_2; [done|apply hex_upper_no_nl, N.mod_lt; done| |done].
    apply hex_upper_no_nl, N.Div0.div_lt_upper_bound. lia.
Qed.

Lemma canonical_query_no_nl query : no_nl (canonical_query_string query).
Proof.
  unfold canonical_query_string. case_bool_decide; [done|]. unfold join_pairs. apply free_of_join; [done|].
  apply Forall_fmap. rewrite sort_by_permutation. apply Forall_fmap, Forall_true. intros [k v].
  cbn. unfold format_pair. cbn [fst snd]. rewrite !free_of_app. by rewrite (uri_encode_no_nl k true), (uri_encode_no_nl v true).
Qed.

(** ** What a signature covers *)

Definition canonical_of (i : VerifyInput) : string :=
  canonical_request (vi_method i) (vi_uri_path i) (vi_query_string i) (vi_headers i)
    (pa_signed_headers (vi_auth i)) (vi_payload_hash i).

Definition scope_of_input (i : VerifyInput) : string :=
  scope_of (pa_date (vi_auth i)) (pa_region (vi_auth i)) (pa_service (vi_auth i)).

Definition to_sign (i : VerifyInput) : string :=
  string_to_sign (vi_request_datetime i) (scope_of_input i) (hex_sha256 (canonical_of i)).

Definition key_of (i : VerifyInput) : string :=
  signing_key (vi_secret_access_key i) (pa_date (vi_auth i)) (pa_region (vi_auth i)) (pa_service (vi_auth i)).

(** Everything of a request that is signed. *)
Definition covered (i : VerifyInput) : string * string * (string * string * string * string * string * string) :=
  (vi_request_datetime i, scope_of_input i,
   (vi_method i, canonical_uri (vi_uri_path i), canonical_query_string (vi_query_string i),
    canonical_headers (vi_headers i) (pa_signed_headers (vi_auth i)),
    signed_headers_str (pa_signed_headers (vi_auth i)), vi_payload_hash i)).

(** The parts of an HTTP request that are lines of the canonical request hold
    no line break. *)
Definition one_line (i : VerifyInput) : Prop :=
  Forall no_nl [vi_method i; canonical_uri (vi_uri_path i); signed_headers_str (pa_signed_headers (vi_auth i));
                vi_payload_hash i; vi_request_datetime i; scope_of_input i].

Lemma verify_request_eq i :
  verify_request i = if bool_decide (compute_signature (key_of i) (to_sign i) = pa_signature (vi_auth i)) then Ok tt
                     else Err SignatureMismatch.
Proof. done. Qed.

Lemma verify_request_accepts i :
  verify_request i = Ok tt -> compute_signature (key_of i) (to_sign i) = pa_signature (vi_auth i).
Proof. rewrite verify_request_eq. by case_bool_decide. Qed.

Lemma same_to_sign i j :
  one_line i -> one_line j -> to_sign i = to_sign j ->
  covered i = covered j \/ (canonical_of i <> canonical_of j /\ hex_sha256 (canonical_of i) = hex_sha256 (canonical_of j)).
Proof.
  unfold one_line. rewrite !Forall_cons.
  intros (Hm & Hu & Hs & Hp & Hd & Hsc & _) (Hm' & Hu' & Hs' & Hp' & Hd' & Hsc' & _) E.
  apply string_to_sign_inj in E; [|by rewrite !Forall_cons]. injection E as Ed Esc Eh.
  destruct (decide (canonical_of i = canonical_of j)) as [Ec|Hne]; [left|by right].
  unfold canonical_of, canonical_request in Ec. apply canonical_lines_inj in Ec.
  - unfold covered. by rewrite Ed, Esc, Ec.
  - rewrite !Forall_cons. split_and!; try done; apply canonical_query_no_nl.
Qed.
End signatures.

(** ** Trimming and splitting ASCII text *)

Definition first_ok (s : string) : Prop := exists a t, s = String a t /\ is_whitespace (N_of_ascii a) = false.
Definition last_ok (s : string) : Prop :=
  exists t a, s = (t +:+ String a EmptyString)%string /\ is_whitespace (N_of_ascii a) = false.

Lemma is_ascii_app s t : is_ascii (s +:+ t) = is_ascii s && is_ascii t.
Proof.
  unfold is_ascii. induction s as [|a s IH]; [done|].
  change (String.list_ascii_of_string (String a s +:+ t)) with (a :: String.list_ascii_of_string (s +:+ t)).
  cbn [String.list_ascii_of_string forallb]. by rewrite IH, andb_assoc.
Qed.

Lemma chars_cons a s : is_ascii (String a s) = true -> chars (String a s) = N_of_ascii a :: chars s.
Proof. unfold is_ascii. cbn. intros [-> _]%andb_true_iff. done. Qed.

Lemma ascii_tail a s : is_ascii (String a s) = true -> is_ascii s = true.
Proof. unfold is_ascii. cbn. by intros [_ ?]%andb_true_iff. Qed.

Lemma of_chars_ascii s : is_ascii s = true -> of_chars (chars s) = s.
Proof.
  induction s as [|a s IH]; intros Hs; [done|]. rewrite (chars_cons a s Hs). cbn [of_chars].
  rewrite (IH (ascii_tail _ _ Hs)). unfold push_char. unfold is_ascii in Hs. cbn in Hs.
  apply andb_true_iff in Hs as [-> _]. unfold byte. by rewrite ascii_N_embedding.
Qed.

Lemma trim_space s : trim (String " "%char s) = trim s.
Proof. done. Qed.

Lemma trim_start_id s : is_ascii s = true -> first_ok s -> trim_start s = s.
Proof.
  intros Hs (a & t & -> & Ha). unfold trim_start. rewrite (chars_cons _ _ Hs). cbn [drop_while]. rewrite Ha.
  rewrite <- (chars_cons _ _ Hs). by apply of_chars_ascii.
Qed.

Lemma trim_id s : is_ascii s = true -> first_ok s -> last_ok s -> trim s = s.
Proof.
  intros Hs (a & t & E & Ha) (u & b & E' & Hb). unfold trim, trim_chars.
  assert (drop_while is_whitespace (chars s) = chars s) as ->.
  { rewrite E in *. rewrite (chars_cons _ _ Hs). cbn [drop_while]. by rewrite Ha. }
  assert (drop_while is_whitespace (rev (chars s)) = rev (chars s)) as ->.
  { rewrite E' in Hs. rewrite is_ascii_app in Hs. apply andb_true_iff in Hs as [Hu Hlast].
    rewrite E', (chars_ascii_app u _ Hu), rev_app_distr, (chars_cons _ _ Hlast). cbn. by rewrite Hb. }
  rewrite rev_involutive. by apply of_chars_ascii.
Qed.

Lemma first_ok_app s t : first_ok s -> first_ok (s +:+ t).
Proof. intros (a & u & -> & Ha). by exists a, (u +:+ t)%string. Qed.

Lemma last_ok_app s t : last_ok t -> last_ok (s +:+ t).
Proof. intros (u & a & -> & Ha). exists (s +:+ u)%string, a. by rewrite string_app_assoc. Qed.

Lemma split_app c s t : free_of c s = true -> split c (s +:+ String c t) = s :: split c t.
Proof.
  induction s as [|a s IH]; cbn [free_of]; intros Hs.
  - change (EmptyString +:+ String c t)%string with (String c t). cbn [split]. by rewrite bool_decide_eq_true_2.
  - apply andb_true_iff in Hs as [Ha Hs]. change (String a s +:+ String c t)%string with (String a (s +:+ String c t)).
    cbn [split]. rewrite (IH Hs). by destruct (bool_decide (a = c)).
Qed.

Lemma split_free c s : free_of c s = true -> split c s = [s].
Proof.
  induction s as [|a s IH]; cbn [free_of split]; intros Hs; [done|].
  apply andb_true_iff in Hs as [Ha Hs]. rewrite (IH Hs). by destruct (bool_decide (a = c)).
Qed.

(** Visible ASCII without spaces, and hexadecimal digits. *)
Fixpoint all_chars (f : N -> bool) (s : string) : bool :=
  match s with
  | EmptyString => true
  | String a s' => f (N_of_ascii a) && all_chars f s'
  end.

Definition visible (n : N) : bool := ((33 <=? n) && (n <=? 126))%N.
Definition hex_char (n : N) : bool := ((48 <=? n) && (n <=? 57) || (97 <=? n) && (n <=? 102))%N.

Lemma all_chars_impl (f g : N -> bool) s :
  (forall n, f n = true -> g n = true) -> all_chars f s = true -> all_chars g s = true.
Proof. intros Hfg. induction s as [|a s IH]; cbn; [done|]. intros [? ?]%andb_true_iff. rewrite Hfg, IH; done. Qed.

Lemma all_chars_app f s t : all_chars f (s +:+ t) = all_chars f s && all_chars f t.
Proof.
  induction s as [|a s IH]; [done|].
  change (all_chars f (String a s +:+ t)) with (f (N_of_ascii a) && all_chars f (s +:+ t)).
  rewrite IH. cbn [all_chars]. by rewrite andb_assoc.
Qed.

Lemma all_chars_ascii s : all_chars (fun n => (n <? 128)%N) s = is_ascii s.
Proof. unfold is_ascii. induction s as [|a s IH]; cbn; [done|]. by rewrite IH. Qed.

Lemma visible_ascii s : all_chars visible s = true -> is_ascii s = true.
Proof.
  intros Hs. rewrite <- all_chars_ascii. revert Hs. apply all_chars_impl. unfold visible.
  intros n. rewrite andb_true_iff, N.leb_le, N.leb_le, N.ltb_lt. lia.
Qed.

Lemma visible_not_space n : visible n = true -> is_whitespace n = false.
Proof.
  unfold visible, is_whitespace. rewrite andb_true_iff, N.leb_le, N.leb_le. intros [H1 H2].
  rewrite !orb_false_iff, !andb_false_iff, !N.eqb_neq, !N.leb_gt. lia.
Qed.

Lemma visible_first s : s <> EmptyString -> all_chars visible s = true -> first_ok s.
Proof. destruct s as [|a s]; [done|]. cbn. intros _ [? _]%andb_true_iff. exists a, s. by split; [|apply visible_not_space]. Qed.

Lemma visible_last s : s <> EmptyString -> all_chars visible s = true -> last_ok s.
Proof.
  induction s as [|a s IH]; [done|]. intros _ Hs. cbn in Hs. apply andb_true_iff in Hs as [Ha Hs].
  destruct s as [|b s]; [exists EmptyString, a; by split; [|apply visible_not_space]|].
  destruct IH as (t & c & -> & Hc); [done..|]. by exists (String a t), c.
Qed.

Lemma trim_visible s : all_chars visible s = true -> trim s = s.
Proof.
  intros Hs. destruct (decide (s = EmptyString)) as [->|Hne]; [done|].
  apply trim_id; [by apply visible_ascii|by apply visible_first|by apply visible_last].
Qed.

Lemma hex_visible s : all_chars hex_char s = true -> all_chars visible s = true.
Proof.
  apply all_chars_impl. unfold hex_char, visible. intros n.
  rewrite orb_true_iff, !andb_true_iff, !N.leb_le. lia.
Qed.

Lemma all_chars_free f c s : f (N_of_ascii c) = false -> all_chars f s = true -> free_of c s = true.
Proof.
  intros Hc. induction s as [|a s IH]; cbn; [done|]. intros [Ha Hs]%andb_true_iff. rewrite IH by done.
  rewrite bool_decide_eq_false_2; [done|]. intros ->. congruence.
Qed.

(** ** Decimal numbers *)

Lemma digit_of_char n : (0 <= n < 10)%Z -> digit_of (ascii_of_N (Z.to_N n + 48)) = Some n.
Proof.
  intros Hn. unfold digit_of. rewrite N_ascii_embedding by lia. rewrite N2Z.inj_add, Z2N.id by lia.
  cbn [Z.of_N]. rewrite (proj2 (Z.leb_le _ _)), (proj2 (Z.leb_le _ _)) by lia. cbn [andb]. f_equal. lia.
Qed.

Lemma parse_digits_of fuel n acc :
  (0 <= n < 10 ^ Z.of_nat fuel)%Z -> (n < 2 ^ 64)%Z -> fuel <> 0 ->
  parse_digits 0 (digits_of fuel n acc) = parse_digits n acc.
Proof.
  revert n acc. induction fuel as [|fuel IH]; [done|]. intros n acc Hn Hlt _. cbn [digits_of].
  rewrite Nat2Z.inj_succ, Z.pow_succ_r in Hn by lia.
  pose proof (Z.div_mod n 10 ltac:(lia)) as Hdm. pose proof (Z.mod_pos_bound n 10 ltac:(lia)) as Hm.
  destruct (Z.ltb_spec n 10) as [Hs|Hs].
  - rewrite Z.mod_small by lia. cbn [parse_digits]. rewrite digit_of_char by lia. cbn [mbind option_bind].
    by rewrite (proj2 (Z.ltb_lt _ _)) by lia.
  - assert (0 <= n / 10 < 10 ^ Z.of_nat fuel)%Z as Hd by (split; [apply Z.div_pos; lia|apply Z.div_lt_upper_bound; lia]).
    rewrite IH; [|lia|lia|destruct fuel; [cbn in Hd; lia|done]].
    cbn [parse_digits]. rewrite digit_of_char by lia. cbn [mbind option_bind].
    rewrite (proj2 (Z.ltb_lt _ _)) by lia. f_equal. lia.
Qed.

Lemma digits_of_not_plus fuel n acc r : fuel <> 0 -> (0 <= n)%Z -> digits_of fuel n acc <> String "+"%char r.
Proof.
  revert n acc. induction fuel as [|fuel IH]; [done|]. intros n acc _ Hn. cbn [digits_of].
  pose proof (Z.mod_pos_bound n 10 ltac:(lia)) as Hm.
  assert (ascii_of_N (Z.to_N (n mod 10) + 48) <> "+"%char) as Hne.
  { intros E. apply (f_equal N_of_ascii) in E. rewrite N_ascii_embedding in E by lia. cbn in E. lia. }
  destruct (n <? 10)%Z; [congruence|]. destruct fuel as [|fuel]; [cbn; congruence|].
  apply IH; [done|]. apply Z.div_pos; lia.
Qed.

Lemma parse_u64_to_string n : (0 <= n < 2 ^ 64)%Z -> parse_u64 (u64_to_string n) = Some n.
Proof.
  intros Hn. unfold parse_u64. assert (strip_prefix "+" (u64_to_string n) = None) as ->.
  { destruct (strip_prefix _ _) as [r|] eqn:E; [|done]. apply strip_prefix_Some in E.
    exfalso. apply (digits_of_not_plus 20 n EmptyString r); [done|lia|exact E]. }
  cbn [default from_option]. case_bool_decide as He.
  - pose proof (parse_digits_of 20 n EmptyString) as H. unfold u64_to_string in He. rewrite He in H.
    cbn in H. specialize (H ltac:(lia) ltac:(lia) ltac:(done)). injection H as <-. done.
  - unfold u64_to_string. rewrite parse_digits_of by (done || lia). done.
Qed.

(** ** Round trips *)

(** What the other crates document: hex digits are lower case, two a byte; an
    HMAC is not empty; a form made of encoded pairs decodes to the pairs. *)
Class SigCryptoLaws `{!SigCrypto} : Prop := {
  hex_inj a b : hex_of a = hex_of b -> a = b;
  hex_digits b : all_chars hex_char (hex_of b) = true;
  hex_nonempty b : b <> EmptyString -> hex_of b <> EmptyString;
  hmac_nonempty k d : hmac k d <> EmptyString;
  form_roundtrip pairs :
    Forall (fun p => valid_text p.1 /\ valid_text p.2) pairs ->
    form_parse (join "&" (format_pair <$> (encode_pair <$> pairs))) = pairs;
}.

Lemma ascii_valid_text s : is_ascii s = true -> valid_text s.
Proof.
  intros Hs. exists (chars s). split; [|by rewrite of_chars_ascii].
  induction s as [|a s IH]; [constructor|]. rewrite (chars_cons _ _ Hs). constructor; [|apply IH, (ascii_tail _ _ Hs)].
  unfold is_ascii in Hs. cbn in Hs. apply andb_true_iff in Hs as [Ha%N.ltb_lt _]. unfold scalar.
  apply orb_true_iff. left. apply N.ltb_lt. lia.
Qed.

Lemma join_snoc sep l x : l <> [] -> join sep (l ++ [x]) = (join sep l +:+ sep +:+ x)%string.
Proof.
  unfold join. induction l as [|y l IH]; [done|]. intros _. destruct l as [|z l]; [done|].
  change (String.concat sep ((y :: z :: l) ++ [x])) with (y +:+ sep +:+ String.concat sep ((z :: l) ++ [x]))%string.
  rewrite IH by done. change (String.concat sep (y :: z :: l)) with (y +:+ sep +:+ String.concat sep (z :: l))%string.
  by rewrite !string_app_assoc.
Qed.

Lemma pair_le_total a b : pair_le a b = false -> pair_le b a = true.
Proof.
  unfold pair_le. destruct a as [a1 a2], b as [b1 b2]. cbn [fst snd].
  destruct (decide (a1 = b1)) as [->|Hne].
  - rewrite !bool_decide_eq_true_2 by done. destruct (String.leb_total a2 b2) as [H|H]; rewrite H; done.
  - rewrite !bool_decide_eq_false_2 by done. destruct (String.leb_total a1 b1) as [H|H]; rewrite H; done.
Qed.

Lemma uri_encode_unreserved s b : all_chars is_unreserved s = true -> uri_encode s b = s.
Proof. induction s as [|a s IH]; cbn; [done|]. intros [-> Hs]%andb_true_iff. by rewrite IH. Qed.

Lemma hex_unreserved s : all_chars hex_char s = true -> all_chars is_unreserved s = true.
Proof.
  apply all_chars_impl. unfold hex_char, is_unreserved. intros n.
  rewrite orb_true_iff, !andb_true_iff, !N.leb_le. intros H.
  destruct H as [H|H]; [|assert ((97 <=? n)%N && (n <=? 122)%N = true) as -> by (rewrite andb_true_iff, !N.leb_le; lia)].
  - assert ((48 <=? n)%N && (n <=? 57)%N = true) as -> by (rewrite andb_true_iff, !N.leb_le; lia).
    by rewrite !orb_true_r.
  - by rewrite !orb_true_r.
Qed.

Section presigned.
Context `{HS : !SigCrypto, HL : !SigCryptoLaws}.

Lemma signature_hex key sts :
  all_chars hex_char (compute_signature key sts) = true /\ compute_signature key sts <> EmptyString.
Proof. split; [apply hex_digits|]. apply hex_nonempty, hmac_nonempty. Qed.

(** The query string of a signed URL decodes to its parameters in some order,
    and the signature last. *)
Lemma signed_query_parse params sig :
  params <> [] -> Forall (fun p => valid_text p.1 /\ valid_text p.2) params -> all_chars hex_char sig = true ->
  exists params', params' ≡ₚ params /\
    encode_pair <$> params' = sort_by pair_le (encode_pair <$> params) /\
    form_parse (join_pairs (encode_pair <$> params) +:+ "&X-Amz-Signature=" +:+ sig) =
    params' ++ [("X-Amz-Signature", sig)].
Proof.
  intros Hne Hv Hsig.
  assert (sort_by pair_le (encode_pair <$> params) ≡ₚ map encode_pair params) as Hs by apply sort_by_permutation.
  destruct (Permutation_map_inv _ _ Hs) as (params' & E & Hperm%Permutation_sym). clear Hs.
  exists params'. split; [done|]. change (encode_pair <$> params') with (map encode_pair params'). split; [by rewrite E|].
  rewrite <- (form_roundtrip (params' ++ [("X-Amz-Signature", sig)])).
  - f_equal. rewrite fmap_app. change (encode_pair <$> params') with (map encode_pair params'). rewrite <- E.
    unfold join_pairs. rewrite fmap_app. cbn [fmap list_fmap]. rewrite join_snoc.
    + f_equal. unfold encode_pair, format_pair. cbn [fst snd].
      rewrite (uri_encode_unreserved sig true) by (by apply hex_unreserved). done.
    + rewrite E. intros Hnil%fmap_nil_inv%fmap_nil_inv. subst. by apply Permutation_nil_l in Hperm.
  - apply Forall_app. split; [by rewrite Hperm|]. repeat constructor; cbn.
    + by apply ascii_valid_text.
    + by apply ascii_valid_text, visible_ascii, hex_visible.
Qed.

(** A parameter that occurs once is found in any order. *)
Lemma last_param_once name v params params' extra :
  params' ≡ₚ params -> List.filter (fun p => bool_decide (p.1 = name)) params = [(name, v)] -> extra.1 <> name ->
  last_param name (params' ++ [extra]) = Some v.
Proof.
  intros Hperm Hf Hne. unfold last_param. rewrite List.filter_app. cbn [List.filter].
  rewrite bool_decide_eq_false_2 by done. rewrite app_nil_r.
  assert (List.filter (fun p => bool_decide (p.1 = name)) params' ≡ₚ [(name, v)]) as ->%Permutation_singleton_r; [|done].
  rewrite <- Hf. clear -Hperm. induction Hperm as [|x l l' _ IH|x y l|l1 l2 l3 _ IH1 _ IH2]; cbn [List.filter]; [done|..].
  - destruct (bool_decide _); [by constructor|done].
  - destruct (bool_decide _), (bool_decide _); try done. apply Permutation_swap.
  - by rewrite IH1.
Qed.

(** The names of the parameters of a signed URL. *)
Definition reserved_names : list string :=
  ["X-Amz-Algorithm"; "X-Amz-Credential"; "X-Amz-Date"; "X-Amz-Expires"; "X-Amz-SignedHeaders"; "X-Amz-Signature"].

Lemma filter_extra_none name extra :
  name ∈ reserved_names -> Forall (fun p => p.1 ∉ reserved_names) extra ->
  List.filter (fun p : string * string => bool_decide (p.1 = name)) extra = [].
Proof.
  intros Hn. induction 1 as [|p extra Hp _ IH]; [done|]. cbn [List.filter].
  rewrite bool_decide_eq_false_2; [done|]. by intros <-.
Qed.

Lemma parse_credential_ok malformed key date region service :
  Forall (fun s => free_of "/"%char s = true) [key; date; region; service] ->
  parse_credential malformed (key +:+ "/" +:+ scope_of date region service) = Ok (key, date, region, service).
Proof.
  rewrite !Forall_cons. intros (Hk & Hd & Hr & Hs & _). unfold parse_credential, scope_of.
  change (key +:+ "/" +:+ ?x)%string with (key +:+ String "/"%char x)%string. rewrite (split_app _ key) by done.
  change (date +:+ "/" +:+ ?x)%string with (date +:+ String "/"%char x)%string. rewrite (split_app _ date) by done.
  change (region +:+ "/" +:+ ?x)%string with (region +:+ String "/"%char x)%string. rewrite (split_app _ region) by done.
  change (service +:+ "/aws4_request")%string with (service +:+ String "/"%char "aws4_request")%string.
  rewrite (split_app _ service) by done. by rewrite split_free.
Qed.

Lemma slice_to_prefix n s d : slice_to n s = Ok d -> d = String.substring 0 n s.
Proof.
  unfold slice_to. destruct (String.get n s); [case_match; [done|]; by intros [= <-]|].
  destruct (Nat.eqb_spec (String.length s) n) as [<-|]; [|done]. intros [= <-]. symmetry.
  induction s as [|a s IH]; [done|]. cbn [String.length String.substring]. by rewrite IH.
Qed.

Lemma slice_to_ascii n s d : slice_to n s = Ok d -> is_ascii s = true -> is_ascii d = true.
Proof.
  intros ->%slice_to_prefix. rewrite <- !all_chars_ascii. revert n. induction s as [|a s IH]; intros [|n]; [done..|].
  cbn [String.substring all_chars]. intros [-> Hs]%andb_true_iff. cbn. by apply IH.
Qed.

(** The parameters a signed URL carries. *)
Definition signed_params (key date region datetime : string) (expires : Z) (extra : list (string * string))
  : list (string * string) :=
  [("X-Amz-Algorithm", "AWS4-HMAC-SHA256"); ("X-Amz-Credential", (key +:+ "/" +:+ scope_of date region "s3")%string);
   ("X-Amz-Date", datetime); ("X-Amz-Expires", u64_to_string expires); ("X-Amz-SignedHeaders", "host")] ++ extra.

Lemma digits_of_ascii fuel n acc : (0 <= n)%Z -> is_ascii acc = true -> is_ascii (digits_of fuel n acc) = true.
Proof.
  rewrite <- !all_chars_ascii. revert n acc. induction fuel as [|fuel IH]; intros n acc Hn Ha; [done|]. cbn [digits_of].
  pose proof (Z.mod_pos_bound n 10 ltac:(lia)) as Hm.
  assert (all_chars (fun c => (c <? 128)%N) (String (ascii_of_N (Z.to_N (n mod 10) + 48)) acc) = true) as Hc.
  { cbn [all_chars]. rewrite N_ascii_embedding, Ha by lia. rewrite (proj2 (N.ltb_lt _ _)) by lia. done. }
  destruct (n <? 10)%Z; [done|]. apply IH; [apply Z.div_pos; lia|done].
Qed.

Lemma signed_params_valid key date region datetime expires extra :
  is_ascii key = true -> is_ascii date = true -> is_ascii region = true -> is_ascii datetime = true -> (0 <= expires)%Z ->
  Forall (fun p => valid_text p.1 /\ valid_text p.2) extra ->
  Forall (fun p => valid_text p.1 /\ valid_text p.2) (signed_params key date region datetime expires extra).
Proof.
  intros Hk Hd Hr Hdt He Hx. unfold signed_params. apply Forall_app. split; [|done].
  repeat constructor; cbn [fst snd]; apply ascii_valid_text; try done.
  - unfold scope_of. rewrite !is_ascii_app, Hk, Hd, Hr. done.
  - by apply digits_of_ascii.
Qed.

(** The parse of a signed query. *)
Lemma parse_signed_query key date region datetime expires extra params' sig query :
  params' ≡ₚ signed_params key date region datetime expires extra ->
  form_parse query = params' ++ [("X-Amz-Signature", sig)] ->
  Forall (fun p => p.1 ∉ reserved_names) extra ->
  Forall (fun s => free_of "/"%char s = true) [key; date; region] ->
  datetime <> EmptyString -> (0 <= expires < 2 ^ 64)%Z -> sig <> EmptyString ->
  parse_query_string_auth query =
  Ok {| pq_access_key_id := key; pq_date := date; pq_region := region; pq_service := "s3";
        pq_signed_headers := ["host"]; pq_signature := sig; pq_expires := expires; pq_request_datetime := datetime |}.
Proof.
  intros Hperm Hq Hx Hfree Hdt He Hsig. unfold parse_query_string_auth. rewrite Hq.
  assert (forall name v, name ∈ reserved_names -> name <> "X-Amz-Signature" ->
    List.filter (fun p => bool_decide (p.1 = name))
      [("X-Amz-Algorithm", "AWS4-HMAC-SHA256"); ("X-Amz-Credential", (key +:+ "/" +:+ scope_of date region "s3")%string);
       ("X-Amz-Date", datetime); ("X-Amz-Expires", u64_to_string expires); ("X-Amz-SignedHeaders", "host")] = [(name, v)] ->
    last_param name (params' ++ [("X-Amz-Signature", sig)]) = Some v) as Hlast.
  { intros name v Hn Hns Hf. eapply last_param_once; [exact Hperm| |by apply not_eq_sym].
    unfold signed_params. by rewrite List.filter_app, Hf, filter_extra_none. }
  rewrite (Hlast "X-Amz-Algorithm" "AWS4-HMAC-SHA256") by (done || (apply (bool_decide_unpack _); vm_compute; exact I)). cbn [ok_or obind].
  rewrite (Hlast "X-Amz-Credential" (key +:+ "/" +:+ scope_of date region "s3")%string) by (done || (apply (bool_decide_unpack _); vm_compute; exact I)). cbn [ok_or obind].
  rewrite parse_credential_ok by (rewrite !Forall_cons in *; naive_solver). cbn [obind].
  rewrite (Hlast "X-Amz-Date" datetime) by (done || (apply (bool_decide_unpack _); vm_compute; exact I)). cbn [ok_or obind].
  rewrite (bool_decide_eq_false_2 (datetime = _)) by done.
  rewrite (Hlast "X-Amz-Expires" (u64_to_string expires)) by (done || (apply (bool_decide_unpack _); vm_compute; exact I)). cbn [ok_or obind].
  rewrite parse_u64_to_string by done. cbn [ok_or obind].
  rewrite (Hlast "X-Amz-SignedHeaders" "host") by (done || (apply (bool_decide_unpack _); vm_compute; exact I)). cbn [ok_or obind].
  assert (last_param "X-Amz-Signature" (params' ++ [("X-Amz-Signature", sig)]) = Some sig) as ->.
  { unfold last_param. rewrite List.filter_app, fmap_app. cbn [List.filter fst fmap list_fmap].
    rewrite bool_decide_eq_true_2 by done. cbn [fmap list_fmap]. by rewrite last_snoc. }
  cbn [ok_or obind]. rewrite (bool_decide_eq_false_2 (sig = EmptyString)) by done. reflexivity.
Qed.

(** ** Header signatures *)

(** A name or value that the header format can carry: visible, without the
    separators. *)
Definition token (s : string) : bool :=
  all_chars (fun n => visible n && negb (n =? 44)%N && negb (n =? 47)%N && negb (n =? 59)%N) s.

Lemma token_visible s : token s = true -> all_chars visible s = true.
Proof. apply all_chars_impl. intros n. rewrite !andb_true_iff. by intros [[[? _] _] _]. Qed.

Lemma token_free c s : (N_of_ascii c = 44 \/ N_of_ascii c = 47 \/ N_of_ascii c = 59)%N -> token s = true -> free_of c s = true.
Proof.
  intros Hc. apply all_chars_free. destruct Hc as [->|[->| ->]]; done.
Qed.

Lemma auth_part_credential acc val :
  all_chars visible val = true -> auth_part acc ("Credential=" +:+ val) = (Some val, acc.1.2, acc.2).
Proof.
  intros Hv. destruct acc as [[c h] g]. unfold auth_part. rewrite trim_id.
  - cbn [fst snd]. rewrite (proj2 (strip_prefix_Some "Credential=" _ val)) by done. by rewrite trim_visible.
  - rewrite is_ascii_app. by rewrite (visible_ascii val).
  - by exists "C"%char, ("redential=" +:+ val)%string.
  - apply visible_last; [done|]. by rewrite all_chars_app, Hv.
Qed.

Lemma auth_part_signed_headers acc val :
  all_chars visible val = true -> auth_part acc (" SignedHeaders=" +:+ val) = (acc.1.1, Some val, acc.2).
Proof.
  intros Hv. destruct acc as [[c h] g]. unfold auth_part.
  change (" SignedHeaders=" +:+ val)%string with (String " "%char ("SignedHeaders=" +:+ val)). rewrite trim_space, trim_id.
  - cbn [fst snd]. change (strip_prefix "Credential=" _) with (@None string).
    rewrite (proj2 (strip_prefix_Some "SignedHeaders=" _ val)) by done. by rewrite trim_visible.
  - rewrite is_ascii_app. by rewrite (visible_ascii val).
  - by exists "S"%char, ("ignedHeaders=" +:+ val)%string.
  - apply visible_last; [done|]. by rewrite all_chars_app, Hv.
Qed.

Lemma auth_part_signature acc val :
  all_chars visible val = true -> auth_part acc (" Signature=" +:+ val) = (acc.1.1, acc.1.2, Some val).
Proof.
  intros Hv. destruct acc as [[c h] g]. unfold auth_part.
  change (" Signature=" +:+ val)%string with (String " "%char ("Signature=" +:+ val)). rewrite trim_space, trim_id.
  - cbn [fst snd]. change (strip_prefix "Credential=" _) with (@None string).
    change (strip_prefix "SignedHeaders=" _) with (@None string).
    rewrite (proj2 (strip_prefix_Some "Signature=" _ val)) by done. by rewrite trim_visible.
  - rewrite is_ascii_app. by rewrite (visible_ascii val).
  - by exists "S"%char, ("ignature=" +:+ val)%string.
  - apply visible_last; [done|]. by rewrite all_chars_app, Hv.
Qed.

Lemma split_join c l :
  l <> [] -> Forall (fun s => free_of c s = true) l -> split c (join (String c EmptyString) l) = l.
Proof.
  intros Hne Hl. unfold join. induction Hl as [|s l Hs Hl IH]; [done|]. destruct l as [|t l]; [by apply split_free|].
  change (String.concat (String c EmptyString) (s :: t :: l))
    with (s +:+ String c (String.concat (String c EmptyString) (t :: l)))%string.
  rewrite (split_app _ s) by done. by rewrite IH.
Qed.

Lemma ascii_lower_cases a :
  (ascii_lower a = a) \/ (65 <= N_of_ascii a <= 90 /\ N_of_ascii (ascii_lower a) = N_of_ascii a + 32)%N.
Proof.
  unfold ascii_lower. destruct (_ && _) eqn:E; [right|by left]. apply andb_true_iff in E as [H1%N.leb_le H2%N.leb_le].
  split; [done|]. apply N_ascii_embedding. lia.
Qed.

Lemma ascii_lower_idem a : ascii_lower (ascii_lower a) = ascii_lower a.
Proof.
  destruct (ascii_lower_cases a) as [E|[H E]]; [by rewrite E|]. unfold ascii_lower at 1. rewrite E.
  rewrite (proj2 (N.leb_gt _ 90)), andb_false_r by lia. done.
Qed.

Lemma token_lower s : token s = true -> token (to_ascii_lowercase s) = true.
Proof.
  unfold token, to_ascii_lowercase, visible. induction s as [|a s IH]; [done|]. cbn [map_string all_chars].
  intros [Ha Hs]%andb_true_iff. rewrite (IH Hs), andb_true_r. destruct (ascii_lower_cases a) as [->|[H ->]]; [done|].
  rewrite !andb_true_iff, !negb_true_iff, !N.eqb_neq, !N.leb_le. lia.
Qed.

Lemma to_lowercase_token s : token s = true -> to_lowercase s = to_ascii_lowercase s.
Proof. intros Hs. unfold to_lowercase. by rewrite (visible_ascii s (token_visible s Hs)). Qed.

Lemma lower_lower s : to_ascii_lowercase (to_ascii_lowercase s) = to_ascii_lowercase s.
Proof. unfold to_ascii_lowercase. induction s as [|a s IH]; cbn; [done|]. by rewrite IH, ascii_lower_idem. Qed.

(** *** The names of the signed headers *)

Lemma dedup_head x l : exists t, dedup (x :: l) = x :: t.
Proof.
  revert x. induction l as [|y l IH]; intros x; [by eexists|]. cbn [dedup]. case_bool_decide as E; [|by eexists].
  subst. apply IH.
Qed.

Lemma dedup_sorted l : Sorted (fun a b => String.leb a b = true) l -> Sorted (fun a b => String.leb a b = true) (dedup l).
Proof.
  induction 1 as [|x l Hl IH Hx]; [constructor|]. destruct l as [|y l]; [by repeat constructor|]. cbn [dedup].
  case_bool_decide as E; [done|]. constructor; [done|]. inversion Hx; subst.
  destruct (dedup_head y l) as [t Ht]. cbn [dedup] in Ht. rewrite Ht. by constructor.
Qed.

Lemma dedup_subset x l : x ∈ dedup l -> x ∈ l.
Proof.
  induction l as [|y l IH]; [done|]. destruct l as [|z l]; [done|]. cbn [dedup]. case_bool_decide as E.
  - intros H. right. by apply IH.
  - intros [->|H]%elem_of_cons; [by left|right; by apply IH].
Qed.

Lemma leb_total a b : String.leb a b = false -> String.leb b a = true.
Proof. intros H. destruct (String.leb_total a b) as [H'|H']; congruence. Qed.

Lemma outbound_names_spec headers :
  headers <> [] -> Forall (fun h => token h.1 = true) headers ->
  let names := outbound_names headers in
  names <> [] /\ Sorted (fun a b => String.leb a b = true) names /\
  Forall (fun s => token s = true /\ to_lowercase s = s) names.
Proof.
  intros Hne Hh names. split_and!.
  - unfold names, outbound_names. destruct (sort_by _ _) as [|x l] eqn:E.
    + pose proof (sort_by_permutation String.leb ((fun h => to_lowercase h.1) <$> headers)) as Hp. rewrite E in Hp.
      apply Permutation_nil_l in Hp. by destruct headers.
    + destruct (dedup_head x l) as [t ->]. done.
  - apply dedup_sorted, sort_by_sorted, leb_total.
  - apply Forall_forall. intros x Hx%dedup_subset. rewrite sort_by_permutation in Hx.
    apply list_elem_of_fmap in Hx as (h & -> & Hin). rewrite Forall_forall in Hh. specialize (Hh h Hin).
    rewrite (to_lowercase_token h.1) by done. split; [by apply token_lower|].
    rewrite to_lowercase_token by (by apply token_lower). apply lower_lower.
Qed.

Lemma parse_signed_headers_ok names :
  names <> [] -> Forall (fun s => token s = true /\ to_lowercase s = s) names ->
  parse_signed_headers (join ";" names) = names.
Proof.
  intros Hne Hn. unfold parse_signed_headers. rewrite (split_join ";"%char names); [|done|].
  - rewrite <- (list_fmap_id names) at 2. apply list_fmap_ext. intros i x Hx%list_elem_of_lookup_2.
    rewrite Forall_forall in Hn. destruct (Hn x Hx) as [Ht Hl]. by rewrite trim_visible by (by apply token_visible).
  - eapply Forall_impl; [exact Hn|]. intros x [Ht _]. apply token_free; [by right; right|done].
Qed.

Lemma join_visible l :
  Forall (fun s => token s = true) l -> all_chars (fun n => visible n && negb (n =? 44)%N) (join ";" l) = true.
Proof.
  intros Hl. unfold join. induction Hl as [|s l Hs Hl IH]; [done|].
  assert (all_chars (fun n => visible n && negb (n =? 44)%N) s = true) as Hs'.
  { revert Hs. apply all_chars_impl. intros n. rewrite !andb_true_iff. by intros [[[? ?] _] _]. }
  destruct l as [|t l]; [done|].
  change (String.concat ";" (s :: t :: l)) with (s +:+ ";" +:+ String.concat ";" (t :: l))%string.
  by rewrite !all_chars_app, Hs', IH.
Qed.

(** The parse of an [Authorization] header. *)
Lemma parse_authorization_ok key date region service names sig :
  Forall (fun s => token s = true) [key; date; region; service] ->
  names <> [] -> Forall (fun s => token s = true /\ to_lowercase s = s) names ->
  all_chars hex_char sig = true -> sig <> EmptyString ->
  parse_authorization ("AWS4-HMAC-SHA256 Credential=" +:+ (key +:+ "/" +:+ scope_of date region service)
    +:+ ", SignedHeaders=" +:+ join ";" names +:+ ", Signature=" +:+ sig) =
  Ok {| pa_access_key_id := key; pa_date := date; pa_region := region; pa_service := service;
        pa_signed_headers := names; pa_signature := sig |}.
Proof.
  intros Htok Hne Hnames Hsig Hse. pose proof Htok as Htok'. rewrite !Forall_cons in Htok'.
  destruct Htok' as (Hk & Hd & Hr & Hs & _).
  set (cred := (key +:+ "/" +:+ scope_of date region service)%string).
  set (sh := join ";" names).
  assert (all_chars (fun n => visible n && negb (n =? 44)%N) cred = true) as Hcred.
  { unfold cred, scope_of. rewrite !all_chars_app.
    assert (forall s, token s = true -> all_chars (fun n => visible n && negb (n =? 44)%N) s = true) as Hf.
    { intros s. apply all_chars_impl. intros n. rewrite !andb_true_iff. by intros [[[? ?] _] _]. }
    by rewrite (Hf key), (Hf date), (Hf region), (Hf service). }
  assert (all_chars (fun n => visible n && negb (n =? 44)%N) sh = true) as Hsh.
  { apply join_visible. eapply Forall_impl; [exact Hnames|]. by intros x [? _]. }
  assert (forall s, all_chars (fun n => visible n && negb (n =? 44)%N) s = true ->
    all_chars visible s = true /\ free_of ","%char s = true) as Hvis.
  { intros s Hx. split; [|by apply (all_chars_free _ ","%char s) in Hx]. revert Hx. apply all_chars_impl.
    intros n. rewrite andb_true_iff. by intros [? _]. }
  destruct (Hvis _ Hcred) as [Hcv Hcf]. destruct (Hvis _ Hsh) as [Hhv Hhf].
  pose proof (hex_visible sig Hsig) as Hgv.
  assert (free_of ","%char sig = true) as Hgf by (by apply (all_chars_free hex_char)).
  unfold parse_authorization.
  assert (("AWS4-HMAC-SHA256 Credential=" +:+ cred +:+ ", SignedHeaders=" +:+ sh +:+ ", Signature=" +:+ sig)%string =
    ("AWS4-HMAC-SHA256" +:+ String " "%char (("Credential=" +:+ cred) +:+ String ","%char
       ((" SignedHeaders=" +:+ sh) +:+ String ","%char (" Signature=" +:+ sig))))%string) as ->.
  { rewrite !string_app_assoc. done. }
  set (rest := (("Credential=" +:+ cred) +:+ _)%string).
  assert (is_ascii rest = true) as Hascii.
  { unfold rest. rewrite !is_ascii_app. change (is_ascii (String ","%char ?x)) with (is_ascii x). rewrite !is_ascii_app.
    change (is_ascii (String ","%char ?x)) with (is_ascii x). rewrite is_ascii_app.
    by rewrite (visible_ascii cred), (visible_ascii sh), (visible_ascii sig). }
  rewrite trim_id.
  - rewrite (proj2 (strip_prefix_Some "AWS4-HMAC-SHA256" _ (String " "%char rest))) by done. cbn [ok_or obind].
    change (trim_start (String " "%char rest)) with (trim_start rest).
    rewrite trim_start_id; [|done|by eexists "C"%char, _].
    unfold rest. rewrite (split_app _ ("Credential=" +:+ cred)) by (by rewrite free_of_app, Hcf).
    rewrite (split_app _ (" SignedHeaders=" +:+ sh)) by (by rewrite free_of_app, Hhf).
    rewrite (split_free _ (" Signature=" +:+ sig)) by (by rewrite free_of_app, Hgf).
    cbn [foldl]. rewrite auth_part_credential, auth_part_signed_headers, auth_part_signature by done. cbn [fst snd ok_or obind].
    unfold cred. rewrite parse_credential_ok.
    + cbn [obind]. rewrite (bool_decide_eq_false_2 (sig = EmptyString)) by done.
      unfold sh. by rewrite parse_signed_headers_ok.
    + eapply Forall_impl; [exact Htok|]. intros x Hx. apply token_free; [by right; left|done].
  - rewrite is_ascii_app. change (is_ascii (String " "%char rest)) with (is_ascii rest). by rewrite Hascii.
  - by eexists "A"%char, _.
  - apply last_ok_app. change (String " "%char rest) with (" " +:+ rest)%string. apply last_ok_app. unfold rest.
    apply last_ok_app. change (String ","%char ?x) with ("," +:+ x)%string. apply last_ok_app, last_ok_app.
    change (String ","%char ?x) with ("," +:+ x)%string. apply last_ok_app, last_ok_app. by apply visible_last.
Qed.

(** The query of a signed URL, without its signature, is the one that was
    signed. *)
Lemma filter_signature params' params sig :
  params' ≡ₚ params -> Forall (fun p => p.1 <> "X-Amz-Signature") params ->
  List.filter (fun p : string * string => negb (bool_decide (p.1 = "X-Amz-Signature")))
    (params' ++ [("X-Amz-Signature", sig)]) = params'.
Proof.
  intros Hperm Hp. rewrite <- Hperm in Hp. rewrite List.filter_app. cbn [List.filter fst].
  rewrite (bool_decide_eq_true_2 ("X-Amz-Signature" = _)) by done. cbn [negb]. rewrite app_nil_r.
  clear Hperm. induction Hp as [|p l Hp _ IH]; [done|]. cbn [List.filter].
  rewrite bool_decide_eq_false_2 by done. cbn [negb]. by rewrite IH.
Qed.

Lemma signed_params_names key date region datetime expires extra :
  Forall (fun p => p.1 ∉ reserved_names) extra ->
  Forall (fun p => p.1 <> "X-Amz-Signature") (signed_params key date region datetime expires extra).
Proof.
  intros Hx. unfold signed_params. apply Forall_app. split; [by repeat constructor|].
  eapply Forall_impl; [exact Hx|]. intros p Hp E. apply Hp. rewrite E. apply (bool_decide_unpack _). vm_compute. exact I.
Qed.

Lemma presigned_query_canonical query params' params sig :
  query <> EmptyString -> form_parse query = params' ++ [("X-Amz-Signature", sig)] -> params' ≡ₚ params ->
  encode_pair <$> params' = sort_by pair_le (encode_pair <$> params) ->
  Forall (fun p => p.1 <> "X-Amz-Signature") params ->
  canonical_query_string_presigned query = join_pairs (encode_pair <$> params).
Proof.
  intros Hne Hq Hperm Henc Hp. unfold canonical_query_string_presigned. rewrite bool_decide_eq_false_2 by done.
  rewrite Hq, (filter_signature params' params) by done. unfold join_pairs. rewrite Henc.
  by rewrite (sort_by_id _ (sort_by _ _)) by (apply sort_by_sorted, pair_le_total).
Qed.

(** A URL that [generate_presigned_url] makes authenticates: the query
    parser recovers the access key, the date, the lifetime and the signature
    from it, and [verify_presigned_request] accepts it for the same method,
    path and secret, whatever other headers the client sends, as long as its
    [Host] header is the one that was signed. *)
Lemma presigned_url_accepted method host uri_path extra key secret region expires datetime date headers :
  slice_to 8 datetime = Ok date ->
  is_ascii key = true -> is_ascii region = true -> is_ascii datetime = true -> datetime <> EmptyString ->
  Forall (fun s => free_of "/"%char s = true) [key; date; region] ->
  (0 <= expires < 2 ^ 64)%Z ->
  Forall (fun p => p.1 ∉ reserved_names) extra -> Forall (fun p => valid_text p.1 /\ valid_text p.2) extra ->
  selected_headers headers "host" = selected_headers [("host", host)] "host" ->
  exists query auth,
    generate_presigned_url method host uri_path extra key secret region expires datetime = Ok query /\
    parse_query_string_auth query = Ok auth /\
    pq_access_key_id auth = key /\ pq_expires auth = expires /\ pq_request_datetime auth = datetime /\
    verify_presigned_request
      {| pv_method := method; pv_uri_path := uri_path; pv_query_string := query; pv_headers := headers;
         pv_auth := auth; pv_secret_access_key := secret |} = Ok tt.
Proof.
  intros Hdate Hk Hr Hdt Hdtne Hfree He Hx Hxv Hhost.
  unfold generate_presigned_url. rewrite Hdate. cbn [obind].
  change ([("X-Amz-Algorithm", _); _; _; _; _] ++ extra) with (signed_params key date region datetime expires extra).
  set (params := signed_params key date region datetime expires extra).
  set (sig := compute_signature _ _). set (query := (_ +:+ "&X-Amz-Signature=" +:+ sig)%string).
  destruct (signature_hex (signing_key secret date region "s3")
    (string_to_sign datetime (scope_of date region "s3") (hex_sha256 (canonical_lines method (canonical_uri uri_path)
      (join_pairs (encode_pair <$> params)) (canonical_headers [("host", host)] ["host"]) (signed_headers_str ["host"])
      "UNSIGNED-PAYLOAD")))) as [Hhex Hne].
  change (compute_signature _ _) with sig in Hhex, Hne.
  destruct (signed_query_parse params sig) as (params' & Hperm & Henc & Hq); [done| |done|].
  { apply signed_params_valid; try done; [by eapply slice_to_ascii|lia]. }
  change (form_parse _) with (form_parse query) in Hq.
  eexists query, _. split; [done|]. split; [by eapply parse_signed_query|]. split_and!; [done..|].
  unfold verify_presigned_request. cbn [pv_auth pv_method pv_uri_path pv_query_string pv_headers pv_secret_access_key
    pq_signed_headers pq_signature pq_date pq_region pq_service pq_request_datetime].
  rewrite (presigned_query_canonical query params' params sig); [|intros E; apply Hne|done..|by apply signed_params_names].
  - assert (canonical_headers headers ["host"] = canonical_headers [("host", host)] ["host"]) as ->.
    { unfold canonical_headers. cbn [fmap list_fmap]. by rewrite Hhost. }
    by rewrite bool_decide_eq_true_2.
  - unfold query in E. apply (f_equal String.length) in E. rewrite !string_length_app in E. cbn in E. lia.
Qed.

(** A request that [sign_outbound_request] signs authenticates on the peer:
    [parse_authorization] recovers from the header the access key, the scope
    and exactly the header names that were signed, and [verify_request] accepts
    the request under the same secret, whatever other headers it has. *)
Lemma outbound_signature_accepted (i : SignOutboundInput) date headers :
  slice_to 8 (so_request_datetime i) = Ok date ->
  Forall (fun s => token s = true) [so_access_key_id i; date; so_region i; so_service i] ->
  so_headers i <> [] -> Forall (fun h => token h.1 = true) (so_headers i) ->
  Forall (fun n => selected_headers headers n = selected_headers (so_headers i) n) (outbound_names (so_headers i)) ->
  exists header auth,
    sign_outbound_request i = Ok header /\ parse_authorization header = Ok auth /\
    pa_access_key_id auth = so_access_key_id i /\ pa_signed_headers auth = outbound_names (so_headers i) /\
    verify_request
      {| vi_method := so_method i; vi_uri_path := so_uri_path i; vi_query_string := so_query_string i;
         vi_headers := headers; vi_payload_hash := so_payload_hash i; vi_auth := auth;
         vi_secret_access_key := so_secret_access_key i; vi_request_datetime := so_request_datetime i |} = Ok tt.
Proof.
  intros Hdate Htok Hne Hh Hsel. destruct (outbound_names_spec (so_headers i) Hne Hh) as (Hn & Hsorted & Hnames).
  assert (canonical_headers headers (outbound_names (so_headers i)) =
          canonical_headers (so_headers i) (outbound_names (so_headers i))) as Hch.
  { unfold canonical_headers. by rewrite (Forall_fmap_ext_1 _ _ _ Hsel). }
  unfold sign_outbound_request. rewrite Hdate. cbn [obind].
  assert (signed_headers_str (outbound_names (so_headers i)) = join ";" (outbound_names (so_headers i))) as Hsh.
  { unfold signed_headers_str. by rewrite sort_by_id. }
  set (sig := compute_signature _ _).
  assert (all_chars hex_char sig = true /\ sig <> EmptyString) as [Hhex Hse] by apply signature_hex.
  eexists _, _. split; [done|]. rewrite Hsh. split; [by apply parse_authorization_ok|].
  split; [done|]. split; [done|]. rewrite verify_request_eq, bool_decide_eq_true_2; [done|].
  unfold to_sign, canonical_of, canonical_request. cbn [vi_method vi_uri_path vi_query_string vi_headers vi_payload_hash
    vi_auth vi_secret_access_key vi_request_datetime pa_signed_headers pa_signature].
  by rewrite Hch.
Qed.

(** A header signature stands for one request: when [verify_request]
    accepts two requests that carry the same signature under the same signing
    key, they agree on everything signed - method, path, query, signed headers
    and their values, payload hash, time and scope - unless SHA-256 or
    HMAC-SHA256 collides on two strings the requests exhibit. *)
Lemma one_signature_one_request (i j : VerifyInput) :
  verify_request i = Ok tt -> verify_request j = Ok tt ->
  pa_signature (vi_auth i) = pa_signature (vi_auth j) -> key_of i = key_of j -> one_line i -> one_line j ->
  covered i = covered j \/
  (canonical_of i <> canonical_of j /\ sha256_of (canonical_of i) = sha256_of (canonical_of j)) \/
  (to_sign i <> to_sign j /\ hmac (key_of i) (to_sign i) = hmac (key_of i) (to_sign j)).
Proof.
  intros Hi%verify_request_accepts Hj%verify_request_accepts Hsig Hkey Hli Hlj.
  assert (hmac (key_of i) (to_sign i) = hmac (key_of i) (to_sign j)) as Ej.
  { apply hex_inj. change (compute_signature (key_of i) (to_sign i) = compute_signature (key_of i) (to_sign j)). congruence. }
  destruct (decide (to_sign i = to_sign j)) as [E|Hne]; [|by right; right].
  destruct (same_to_sign i j) as [?|[? Eh%hex_inj]]; [done..|by left|by right; left].
Qed.
End presigned.
