(* ===== verification/Sigv4Sample.v ===== *)
(** The functions of the other crates that signatures use, instantiated by
    concrete ones that satisfy the laws: hexadecimal text, a checksum for a digest,
    and a decoder of URL-encoded forms. *)
From Stdlib Require Import NArith Ascii Lia.
From stdpp Require Import base list strings.
From S2P Require Import Prelude.
From S2P Require Import Policy.
From S2P Require Import Text.
From S2P Require Import Sigv4.
From S2P Require Import Sigv4Safety.
Local Open Scope string_scope.

(** ** Concrete functions *)

Definition hex_lower (n : N) : ascii := ascii_of_N (if (n <? 10)%N then n + 48 else n + 87).

Fixpoint hex_text (s : string) : string :=
  match s with
  | EmptyString => EmptyString
  | String a s' => String (hex_lower (N_of_ascii a / 16)) (String (hex_lower (N_of_ascii a mod 16)) (hex_text s'))
  end.

Definition unhex_upper (a : ascii) : N := let n := N_of_ascii a in if (n <? 58)%N then n - 48 else n - 55.

(** Percent decoding, and a plus sign for a space. *)
Fixpoint form_decode (s : string) : string :=
  match s with
  | String a s' =>
      if bool_decide (a = "%"%char) then
        match s' with
        | String b (String c s'') => String (ascii_of_N (unhex_upper b * 16 + unhex_upper c)) (form_decode s'')
        | _ => String a (form_decode s')
        end
      else if bool_decide (a = "+"%char) then String " "%char (form_decode s')
      else String a (form_decode s')
  | EmptyString => EmptyString
  end.

Definition form_pair (s : string) : string * string :=
  match split "="%char s with
  | name :: rest => (form_decode name, form_decode (join "=" rest))
  | [] => (EmptyString, EmptyString)
  end.

(** A checksum for a digest. *)
Fixpoint checksum (s : string) : N :=
  match s with
  | EmptyString => 7
  | String a s' => (N_of_ascii a + 31 * checksum s') mod 251
  end.

#[export] Instance sample_crypto : SigCrypto := {|
  hmac k d := String (ascii_of_N (checksum (k +:+ d))) EmptyString;
  sha256_of d := String (ascii_of_N (checksum d)) EmptyString;
  hex_of := hex_text;
  form_parse q := form_pair <$> List.filter (fun s => negb (bool_decide (s = EmptyString))) (split "&"%char q);
  lowercase_unicode s := s;
|}.

(** ** Their laws *)

Lemma nibbles a : (N_of_ascii a / 16 < 16 /\ N_of_ascii a mod 16 < 16)%N.
Proof.
  pose proof (N_ascii_bounded a) as Ha. split; [apply N.Div0.div_lt_upper_bound; lia|apply N.mod_lt; lia].
Qed.

Lemma hex_lower_inj n m : (n < 16)%N -> (m < 16)%N -> hex_lower n = hex_lower m -> n = m.
Proof.
  unfold hex_lower. intros Hn Hm E. apply (f_equal N_of_ascii) in E.
  destruct (N.ltb_spec n 10), (N.ltb_spec m 10); rewrite !N_ascii_embedding in E by lia; lia.
Qed.

Lemma to_hex_inj s t : hex_text s = hex_text t -> s = t.
Proof.
  revert t. induction s as [|a s IH]; intros [|b t]; cbn [hex_text]; [done..|].
  intros [= H1 H2 H3]. destruct (nibbles a), (nibbles b). apply hex_lower_inj in H1, H2; [|done..].
  rewrite (IH _ H3). f_equal. rewrite <- (ascii_N_embedding a), <- (ascii_N_embedding b).
  rewrite (N.div_mod (N_of_ascii a) 16), (N.div_mod (N_of_ascii b) 16), H1, H2 by done. done.
Qed.

Lemma hex_lower_char n : (n < 16)%N -> hex_char (N_of_ascii (hex_lower n)) = true.
Proof.
  intros Hn. unfold hex_lower, hex_char. rewrite orb_true_iff, !andb_true_iff, !N.leb_le.
  destruct (N.ltb_spec n 10); rewrite N_ascii_embedding by lia; lia.
Qed.

Lemma to_hex_chars s : all_chars hex_char (hex_text s) = true.
Proof.
  induction s as [|a s IH]; cbn [hex_text all_chars]; [done|]. destruct (nibbles a).
  by rewrite IH, !hex_lower_char.
Qed.

Lemma unhex_hex n : (n < 16)%N -> unhex_upper (hex_upper n) = n.
Proof.
  intros Hn. unfold unhex_upper, hex_upper. destruct (N.ltb_spec n 10); rewrite N_ascii_embedding by lia;
    case_match eqn:E; rewrite ?N.ltb_lt, ?N.ltb_ge in E; lia.
Qed.

Lemma unreserved_plain a :
  is_unreserved (N_of_ascii a) = true -> a <> "%"%char /\ a <> "+"%char /\ a <> "&"%char /\ a <> "="%char.
Proof. intros H. split_and!; intros ->; done. Qed.

Lemma form_decode_encode s : form_decode (uri_encode s true) = s.
Proof.
  induction s as [|a s IH]; [done|]. cbn [uri_encode]. destruct (is_unreserved (N_of_ascii a)) eqn:E.
  - destruct (unreserved_plain a E) as (H1 & H2 & _). cbn [form_decode].
    rewrite !bool_decide_eq_false_2 by done. by rewrite IH.
  - rewrite andb_false_r. cbn [form_decode]. rewrite bool_decide_eq_true_2 by done. destruct (nibbles a).
    rewrite !unhex_hex, IH by done. f_equal. rewrite N.mul_comm, <- N.div_mod by done. apply ascii_N_embedding.
Qed.

Lemma hex_upper_plain n c : (n < 16)%N -> c = "&"%char \/ c = "="%char -> hex_upper n <> c.
Proof.
  intros Hn Hc E. apply (f_equal N_of_ascii) in E. unfold hex_upper in E.
  destruct (N.ltb_spec n 10); rewrite N_ascii_embedding in E by lia; destruct Hc as [-> | ->]; cbn in E; lia.
Qed.

Lemma uri_encode_free s c : c = "&"%char \/ c = "="%char -> free_of c (uri_encode s true) = true.
Proof.
  intros Hc. induction s as [|a s IH]; [done|]. cbn [uri_encode]. destruct (is_unreserved (N_of_ascii a)) eqn:E.
  - cbn [free_of]. rewrite IH, andb_true_r. destruct (unreserved_plain a E) as (_ & _ & H1 & H2).
    rewrite bool_decide_eq_false_2 by (destruct Hc as [-> | ->]; done). done.
  - rewrite andb_false_r. cbn [free_of]. destruct (nibbles a).
    rewrite (bool_decide_eq_false_2 ("%"%char = c)) by (destruct Hc as [-> | ->]; done).
    rewrite !(bool_decide_eq_false_2 (hex_upper _ = c)) by (by apply hex_upper_plain). done.
Qed.

Lemma form_pair_format p : form_pair (format_pair (encode_pair p)) = p.
Proof.
  destruct p as [n v]. unfold form_pair, format_pair, encode_pair. cbn [fst snd].
  change (?x +:+ "=" +:+ ?y)%string with (x +:+ String "="%char y)%string.
  rewrite (split_app "="%char), (split_free "="%char) by (by apply uri_encode_free; right).
  unfold join. cbn [String.concat]. by rewrite !form_decode_encode.
Qed.

Lemma format_pair_free p : free_of "&"%char (format_pair (encode_pair p)) = true.
Proof.
  unfold format_pair, encode_pair. cbn [fst snd]. rewrite !free_of_app.
  by rewrite !(uri_encode_free _ "&"%char) by (by left).
Qed.

Lemma format_pair_nonempty p : format_pair p <> EmptyString.
Proof. destruct p as [[|a n] v]; done. Qed.

Lemma sample_form_roundtrip pairs : form_parse (join "&" (format_pair <$> (encode_pair <$> pairs))) = pairs.
Proof.
  destruct pairs as [|p pairs]; [done|]. cbn [form_parse sample_crypto].
  rewrite (split_join "&"%char); [|done|].
  - induction (p :: pairs) as [|q l IH]; [done|]. cbn [fmap list_fmap List.filter].
    rewrite bool_decide_eq_false_2 by apply format_pair_nonempty. cbn [negb fmap list_fmap].
    rewrite form_pair_format. by f_equal.
  - rewrite !Forall_fmap. apply Forall_true. intros q. apply format_pair_free.
Qed.

#[export] Instance sample_crypto_laws : SigCryptoLaws.
Proof.
  split.
  - apply to_hex_inj.
  - apply to_hex_chars.
  - by intros [|a b].
  - done.
  - intros pairs _. apply sample_form_roundtrip.
Qed.
