(* ===== verification/Membership.v ===== *)
(** Cluster membership: the probe loop of
    [crates/arca-server/src/cluster/membership.rs] and the ping challenge of
    [crates/arca-core/src/cluster.rs].

    A tick of the loop probes every known endpoint, records the outcome per
    endpoint, evicts the stale ones and publishes the peer list to
    [ClusterState].  What an endpoint answers, the candidates that discovery
    finds and the nonces are arguments of the tick.  Logging is left out; the
    mDNS and DNS resolvers only supply candidate endpoints. *)

From S2P Require Import Prelude Text ClusterState Sigv4.
From Stdlib Require Import Ascii.

(** ** The ping challenge *)

(** [hex::decode] *)
Class HexDecode : Type := unhex : string -> option string.

Section ping.
Context `{!SigCrypto, !HexDecode}.

Definition PING_MAC_CONTEXT : string := "arca-cluster-ping-v1".

Definition ping_mac_input (nonce : string) : string := PING_MAC_CONTEXT +:+ String (Ascii.ascii_of_nat 31) nonce.

Definition ping_nonce_mac (secret nonce : string) : string := hex_of (hmac secret (ping_mac_input nonce)).

Definition verify_ping_nonce_mac (secret nonce mac_hex : string) : bool :=
  match unhex mac_hex with
  | None => false
  | Some received => bool_decide (received = hmac secret (ping_mac_input nonce))
  end.

(** ** One probe *)

Record ClusterPingResponse : Type := {
  ping_node_id : string;
  ping_config_fingerprint : option string;
  ping_config_fingerprint_v2 : option string;
  ping_disk_total : option Z;
  ping_disk_available : option Z;
  ping_max_seq : Z;
  ping_mac : option string;
}.

Record PeerHealth : Type := {
  ph_node_id : string;
  ph_fingerprint : option string;
  ph_disk_total : option Z;
  ph_disk_available : option Z;
}.

(** The answer to the signed ping: a response, an HTTP error, or another error. *)
Inductive PingReply : Type :=
  | PingOk (resp : ClusterPingResponse)
  | PingHttp (status : Z)
  | PingFailed.

Inductive AuthState : Type := Proven | BadMac | AuthRejected | Legacy.

#[export] Instance AuthState_eq_dec : EqDecision AuthState.
Proof. solve_decision. Defined.

Record ContactInfo : Type := {
  ci_node_id : string;
  ci_auth : AuthState;
  ci_fingerprint : option string;
  ci_fingerprint_v2 : option string;
  ci_disk_total : option Z;
  ci_disk_available : option Z;
  ci_max_seq : option Z;
}.

Inductive ProbeOutcome : Type :=
  | Contact (info : ContactInfo)
  | SelfNode
  | Failure.

(** What an endpoint answers to the ping and, if asked, to the public health probe. *)
Record Reply : Type := { rp_ping : PingReply; rp_health : option PeerHealth }.

Definition health_contact (auth : AuthState) (health : option PeerHealth) : ProbeOutcome :=
  match health with
  | Some h => Contact {| ci_node_id := ph_node_id h; ci_auth := auth; ci_fingerprint := ph_fingerprint h;
                         ci_fingerprint_v2 := None; ci_disk_total := ph_disk_total h;
                         ci_disk_available := ph_disk_available h; ci_max_seq := None |}
  | None => Failure
  end.

Definition probe_peer (secret : string) (secret_previous : option string) (nonce : string) (reply : Reply)
  : ProbeOutcome :=
  match rp_ping reply with
  | PingOk resp =>
      let proven := match ping_mac resp with
                    | Some mac => verify_ping_nonce_mac secret nonce mac
                                  || match secret_previous with
                                     | Some prev => verify_ping_nonce_mac prev nonce mac
                                     | None => false
                                     end
                    | None => false
                    end in
      Contact {| ci_node_id := ping_node_id resp; ci_auth := if proven then Proven else BadMac;
                 ci_fingerprint := ping_config_fingerprint resp;
                 ci_fingerprint_v2 := ping_config_fingerprint_v2 resp;
                 ci_disk_total := ping_disk_total resp; ci_disk_available := ping_disk_available resp;
                 ci_max_seq := Some (ping_max_seq resp) |}
  | PingHttp status =>
      if (status =? 409)%Z then SelfNode
      else if (status =? 404)%Z then health_contact Legacy (rp_health reply)
      else if (status =? 403)%Z then health_contact AuthRejected (rp_health reply)
      else Failure
  | PingFailed => Failure
  end.

Definition contact_config_ok (info : ContactInfo) (my_fingerprint my_fingerprint_v2 : option string) : bool :=
  if bool_decide (ci_auth info = AuthRejected) then false
  else
    match my_fingerprint_v2, ci_fingerprint_v2 info with
    | Some mine, Some theirs => bool_decide (mine = theirs)
    | _, _ =>
        match my_fingerprint, ci_fingerprint info with
        | Some mine, Some theirs => bool_decide (mine = theirs)
        | _, _ => true
        end
    end.

(** ** The state of an endpoint *)

Definition DEAD_AFTER_FAILURES : Z := 2.

Record ProbeState : Type := {
  ps_node_id : option string;
  ps_consecutive_failures : Z;
  ps_last_contact : option Z;
  ps_last_live : option PeerNode;
}.

Definition ProbeState_default : ProbeState :=
  {| ps_node_id := None; ps_consecutive_failures := 0; ps_last_contact := None; ps_last_live := None |}.

(** [u32::saturating_add] *)
Definition saturating_succ (n : Z) : Z := Z.min (n + 1) (2 ^ 32 - 1).

Definition emit_peer (ps : ProbeState) : option PeerNode :=
  match ps_node_id ps with
  | None => None
  | Some node_id =>
      if (ps_consecutive_failures ps =? 0)%Z then ps_last_live ps
      else if (ps_consecutive_failures ps <? DEAD_AFTER_FAILURES)%Z then ps_last_live ps
      else Some {| pn_node_id := node_id;
                   pn_endpoint := match ps_last_live ps with Some p => pn_endpoint p | None => EmptyString end;
                   pn_alive := false; pn_last_seen := ps_last_contact ps; pn_authenticated := false;
                   pn_config_ok := true; pn_disk_total := None; pn_disk_available := None; pn_max_seq := None |}
  end.

(** ** A tick of the loop *)

Record Membership : Type := {
  mb_known : gmap string ProbeState;
  mb_state : ClusterState;
}.

(** The peer as a contact shows it. *)
Definition live_peer (now : Z) (fp fp_v2 : option string) (endpoint : string) (info : ContactInfo) : PeerNode :=
  {| pn_node_id := ci_node_id info; pn_endpoint := endpoint; pn_alive := true; pn_last_seen := Some now;
     pn_authenticated := bool_decide (ci_auth info = Proven); pn_config_ok := contact_config_ok info fp fp_v2;
     pn_disk_total := ci_disk_total info; pn_disk_available := ci_disk_available info;
     pn_max_seq := ci_max_seq info |}.

(** The new state of the endpoint, step 3 of the loop. *)
Definition probed (now : Z) (fp fp_v2 : option string) (endpoint : string) (outcome : ProbeOutcome) (ps : ProbeState)
  : ProbeState :=
  match outcome with
  | SelfNode =>
      {| ps_node_id := None; ps_consecutive_failures := 0; ps_last_contact := Some now; ps_last_live := None |}
  | Contact info =>
      {| ps_node_id := Some (ci_node_id info); ps_consecutive_failures := 0; ps_last_contact := Some now;
         ps_last_live := Some (live_peer now fp fp_v2 endpoint info) |}
  | Failure =>
      {| ps_node_id := ps_node_id ps; ps_consecutive_failures := saturating_succ (ps_consecutive_failures ps);
         ps_last_contact := ps_last_contact ps; ps_last_live := ps_last_live ps |}
  end.

Definition integrate (now : Z) (fp fp_v2 : option string) (m : Membership) (probe : string * ProbeOutcome) : Membership :=
  let '(endpoint, outcome) := probe in
  match mb_known m !! endpoint with
  | None => m
  | Some ps =>
      {| mb_known := <[endpoint := probed now fp fp_v2 endpoint outcome ps]> (mb_known m);
         mb_state := match outcome with
                     | SelfNode => set_local_endpoint endpoint (mb_state m)
                     | _ => mb_state m
                     end |}
  end.

Definition stale (now prune_after : Z) (ps : ProbeState) : bool :=
  (0 <? ps_consecutive_failures ps)%Z
  && match ps_last_contact ps with Some t => (prune_after <? now - t)%Z | None => false end.

(** A [BTreeMap] is walked in the order of its keys. *)
Definition by_endpoint {A : Type} (known : gmap string A) : list (string * A) :=
  merge_sort (order_by_text fst) (map_to_list known).

Definition discovered (candidates : list string) (known : gmap string ProbeState) : gmap string ProbeState :=
  foldl (fun known e => match known !! e with Some _ => known | None => <[e := ProbeState_default]> known end)
    known candidates.

(** What happens around the node between two ticks of the timer. *)
Record Round : Type := {
  rd_now : Z;
  rd_candidates : list string;
  rd_nonce : string -> string;
  rd_reply : string -> Reply;
}.

Definition probe_round (secret : string) (secret_previous : option string) (r : Round) (endpoint : string)
  : ProbeOutcome :=
  probe_peer secret secret_previous (rd_nonce r endpoint) (rd_reply r endpoint).

Definition tick (secret : string) (secret_previous : option string) (prune_after : Z) (r : Round) (m : Membership)
  : Membership :=
  let known := discovered (rd_candidates r) (mb_known m) in
  let outcomes := (fun e => (e.1, probe_round secret secret_previous r e.1)) <$> by_endpoint known in
  let m1 := foldl (integrate (rd_now r) (cl_config_fingerprint (mb_state m)) (cl_config_fingerprint_v2 (mb_state m)))
              {| mb_known := known; mb_state := mb_state m |} outcomes in
  let known := filter (fun e => stale (rd_now r) prune_after e.2 = false) (mb_known m1) in
  {| mb_known := known; mb_state := set_peers (omap (fun e => emit_peer e.2) (by_endpoint known)) (mb_state m1) |}.

(** The loop, the last round first. *)
Fixpoint ticks (secret : string) (secret_previous : option string) (prune_after : Z) (rounds : list Round)
    (m : Membership) : Membership :=
  match rounds with
  | [] => m
  | r :: earlier => tick secret secret_previous prune_after r (ticks secret secret_previous prune_after earlier m)
  end.

(** [spawn] starts with no endpoint known. *)
Definition start (state : ClusterState) : Membership := {| mb_known := ∅; mb_state := state |}.
End ping.

(** ** Candidates *)

(** [trim_end_matches] with a character. *)
Fixpoint trim_end_char (c : Ascii.ascii) (s : string) : string :=
  match s with
  | EmptyString => EmptyString
  | String a rest =>
      match trim_end_char c rest with
      | EmptyString => if bool_decide (a = c) then EmptyString else String a EmptyString
      | t => String a t
      end
  end.

Definition to_base_url (seed scheme : string) : string :=
  if starts_with seed "http://" || starts_with seed "https://" then trim_end_char "/"%char seed
  else scheme +:+ "://" +:+ trim_end_char "/"%char seed.

Inductive DiscoveryMode : Type := Mdns | Static | Dns.

(** [lookup_host] resolves a name with its port to addresses, [ip:port]. *)
Definition resolve_dns (lookup_host : string -> option (list string)) (name scheme : string) : list string :=
  let with_port := if contains name ":" then name else name +:+ ":9000" in
  match lookup_host with_port with
  | Some addrs =>
      merge_sort (order_by_text id) (elements (list_to_set ((fun a => scheme +:+ "://" +:+ a) <$> addrs) : gset string))
  | None => []
  end.

Definition resolve_candidates (lookup_host : string -> option (list string)) (discovery : DiscoveryMode)
    (seeds : list string) (dns_name : option string) (scheme : string) (mdns_candidates : list string) : list string :=
  match discovery with
  | Static => (fun s => to_base_url s scheme) <$> seeds
  | Dns => match dns_name with Some name => resolve_dns lookup_host name scheme | None => [] end
  | Mdns => mdns_candidates
  end.

(** [ServiceResolved]: one endpoint per IPv4 address of a service of the same
    cluster that is not this node. *)
Definition service_endpoints (cluster_id self_node_id scheme : string) (service_cluster service_node : option string)
    (addresses_v4 : list string) (port : string) : list string :=
  if negb (bool_decide (service_cluster = Some cluster_id)) || bool_decide (service_node = Some self_node_id) then []
  else (fun ip => scheme +:+ "://" +:+ ip +:+ ":" +:+ port) <$> addresses_v4.
