(* ===== verification/MembershipSafety.v ===== *)
(** What the published peer list says.

    A peer that may receive replicas and count for the quorum answered one of
    the last two probes of its endpoint, with a MAC of the cluster secret over
    a nonce of that probe and with matching configuration, and the other probe,
    if later, failed.  Each endpoint is published once. *)

From S2P Require Import Prelude Text ClusterState Sigv4 Membership.

Section safety.
Context {crypto : SigCrypto} {hex_decode : HexDecode}.
Variables (secret : string) (secret_previous : option string) (prune_after : Z).
Implicit Types (m : Membership) (r : Round).

(** ** What a tick does to one endpoint *)

Lemma by_endpoint_elem {A : Type} (known : gmap string A) e x : (e, x) ∈ by_endpoint known <-> known !! e = Some x.
Proof. unfold by_endpoint. rewrite merge_sort_Permutation. apply elem_of_map_to_list. Qed.

Lemma by_endpoint_nodup {A : Type} (known : gmap string A) : NoDup (by_endpoint known).*1.
Proof. unfold by_endpoint. rewrite merge_sort_Permutation. apply NoDup_fst_map_to_list. Qed.

Lemma discovered_lookup candidates known e :
  discovered candidates known !! e =
  match known !! e with
  | Some ps => Some ps
  | None => if decide (e ∈ candidates) then Some ProbeState_default else None
  end.
Proof.
  revert known. induction candidates as [|c candidates IH]; intros known.
  - unfold discovered. cbn [foldl]. destruct (known !! e); [done|]. by rewrite decide_False by apply not_elem_of_nil.
  - unfold discovered in *. cbn [foldl]. rewrite IH. destruct (known !! c) as [ps|] eqn:Ec.
    + destruct (known !! e) as [ps'|] eqn:Ee; [done|]. repeat case_decide; try done; set_solver.
    + destruct (decide (e = c)) as [->|Hne].
      * rewrite lookup_insert_eq, Ec, decide_True by set_solver. done.
      * rewrite lookup_insert_ne by done. destruct (known !! e); [done|].
        repeat case_decide; try done; set_solver.
Qed.

Lemma integrate_lookup now fp fp_v2 (f : string -> ProbeOutcome) es m e :
  NoDup es ->
  mb_known (foldl (integrate now fp fp_v2) m ((fun e => (e, f e)) <$> es)) !! e =
  if decide (e ∈ es) then probed now fp fp_v2 e (f e) <$> mb_known m !! e else mb_known m !! e.
Proof.
  revert m. induction es as [|e0 es IH]; intros m Hnd;
    [cbn [foldl fmap list_fmap]; by rewrite decide_False by apply not_elem_of_nil|].
  apply NoDup_cons in Hnd as [Hne Hnd]. rewrite fmap_cons. cbn [foldl]. rewrite IH by done.
  assert (mb_known (integrate now fp fp_v2 m (e0, f e0)) !! e =
    if decide (e = e0) then probed now fp fp_v2 e0 (f e0) <$> mb_known m !! e else mb_known m !! e) as ->.
  { unfold integrate. destruct (mb_known m !! e0) as [ps|] eqn:E0; cbn [mb_known];
      destruct (decide (e = e0)) as [->|Hee].
    - by rewrite lookup_insert_eq, E0.
    - by rewrite lookup_insert_ne.
    - by rewrite E0.
    - done. }
  destruct (decide (e = e0)) as [->|Hee].
  - rewrite decide_False by done. by rewrite decide_True by set_solver.
  - repeat case_decide; try done; set_solver.
Qed.

Lemma integrate_fingerprints now fp fp_v2 probes m :
  let s := mb_state (foldl (integrate now fp fp_v2) m probes) in
  cl_config_fingerprint s = cl_config_fingerprint (mb_state m) /\
  cl_config_fingerprint_v2 s = cl_config_fingerprint_v2 (mb_state m).
Proof.
  revert m. induction probes as [|[e o] probes IH]; intros m; [done|]. cbn [foldl].
  destruct (IH (integrate now fp fp_v2 m (e, o))) as [E1 E2]. cbv zeta. rewrite E1, E2.
  unfold integrate. destruct (mb_known m !! e); [|done]. simpl. destruct o; [done| |done]. by destruct (mb_state m).
Qed.

Lemma set_peers_fingerprints ps s :
  cl_config_fingerprint (set_peers ps s) = cl_config_fingerprint s /\
  cl_config_fingerprint_v2 (set_peers ps s) = cl_config_fingerprint_v2 s.
Proof. by destruct s. Qed.

Lemma tick_fingerprints r m :
  cl_config_fingerprint (mb_state (tick secret secret_previous prune_after r m)) = cl_config_fingerprint (mb_state m) /\
  cl_config_fingerprint_v2 (mb_state (tick secret secret_previous prune_after r m)) =
  cl_config_fingerprint_v2 (mb_state m).
Proof.
  unfold tick. cbn [mb_state].
  match goal with |- context [foldl _ ?m0 ?l] => pose proof (integrate_fingerprints (rd_now r)
    (cl_config_fingerprint (mb_state m)) (cl_config_fingerprint_v2 (mb_state m)) l m0) as [E1 E2] end.
  by rewrite !(proj1 (set_peers_fingerprints _ _)), !(proj2 (set_peers_fingerprints _ _)).
Qed.

Lemma tick_lookup r m e ps' :
  mb_known (tick secret secret_previous prune_after r m) !! e = Some ps' <->
  exists ps, (mb_known m !! e = Some ps \/ mb_known m !! e = None /\ e ∈ rd_candidates r /\ ps = ProbeState_default) /\
    ps' = probed (rd_now r) (cl_config_fingerprint (mb_state m)) (cl_config_fingerprint_v2 (mb_state m)) e
            (probe_round secret secret_previous r e) ps /\
    stale (rd_now r) prune_after ps' = false.
Proof.
  unfold tick. cbn [mb_known]. rewrite map_lookup_filter_Some. cbn [snd].
  assert (forall known : gmap string ProbeState,
    (fun x : string * ProbeState => (x.1, probe_round secret secret_previous r x.1)) <$> by_endpoint known =
    (fun e => (e, probe_round secret secret_previous r e)) <$> (by_endpoint known).*1) as Hl.
  { intros known. by rewrite <- list_fmap_compose. }
  rewrite Hl, integrate_lookup by apply by_endpoint_nodup. cbn [mb_known].
  set (known := discovered (rd_candidates r) (mb_known m)).
  assert (e ∈ (by_endpoint known).*1 <-> is_Some (known !! e)) as Hin.
  { rewrite list_elem_of_fmap. split.
    - intros ([e0 x] & -> & Hx%by_endpoint_elem). eauto.
    - intros [x Hx]. exists (e, x). split; [done|]. by apply by_endpoint_elem. }
  assert (forall ps, known !! e = Some ps <->
    mb_known m !! e = Some ps \/ mb_known m !! e = None /\ e ∈ rd_candidates r /\ ps = ProbeState_default) as Hk.
  { intros ps. unfold known. rewrite discovered_lookup. destruct (mb_known m !! e) as [x|].
    - split; [by left|]. by intros [Hx|[Hx _]].
    - case_decide; naive_solver. }
  split.
  - intros [Hx Hs]. case_decide as D; [|destruct D; apply Hin; by rewrite Hx].
    destruct (known !! e) as [ps|] eqn:E; [|done]. injection Hx as <-. exists ps. split; [by apply Hk|done].
  - intros (ps & Hps%Hk & -> & Hs). rewrite decide_True by (apply Hin; by rewrite Hps). by rewrite Hps.
Qed.
(** ** The history of an endpoint *)

(** The endpoint [e] answered [k] rounds ago and failed since. *)
Definition answered_ago (rounds : list Round) (e : string) (k : nat) (r : Round) (info : ContactInfo) : Prop :=
  rounds !! k = Some r /\ probe_round secret secret_previous r e = Contact info /\
  forall j, j < k -> exists r', rounds !! j = Some r' /\ probe_round secret secret_previous r' e = Failure.

Definition known_ok (fp fp_v2 : option string) (rounds : list Round) (e : string) (ps : ProbeState) : Prop :=
  match ps_last_live ps with
  | Some p => exists k r info, answered_ago rounds e k r info /\ p = live_peer (rd_now r) fp fp_v2 e info /\
      ps_node_id ps = Some (ci_node_id info) /\ ps_consecutive_failures ps = Z.min (Z.of_nat k) (2 ^ 32 - 1)
  | None => ps_node_id ps = None
  end.

Lemma answered_before rounds e k r info r0 :
  answered_ago rounds e k r info -> probe_round secret secret_previous r0 e = Failure ->
  answered_ago (r0 :: rounds) e (S k) r info.
Proof.
  intros (Hk & Hi & Hf) H0. split; [done|]. split; [done|]. intros [|j] Hj; [eauto|].
  apply Hf. lia.
Qed.

Lemma probed_ok fp fp_v2 rounds e r ps :
  known_ok fp fp_v2 rounds e ps ->
  known_ok fp fp_v2 (r :: rounds) e (probed (rd_now r) fp fp_v2 e (probe_round secret secret_previous r e) ps).
Proof.
  intros Hps. unfold known_ok in *. destruct (probe_round secret secret_previous r e) as [info| |] eqn:E; simpl.
  - exists 0, r, info. split; [|done]. split; [done|]. split; [done|]. lia.
  - done.
  - destruct (ps_last_live ps) as [p|]; [|done]. destruct Hps as (k & r0 & info & Ha & -> & Hn & ->).
    exists (S k), r0, info. split; [by apply answered_before|]. split; [done|]. split; [done|].
    unfold saturating_succ. lia.
Qed.

Lemma ticks_known rounds state e ps :
  mb_known (ticks secret secret_previous prune_after rounds (start state)) !! e = Some ps ->
  known_ok (cl_config_fingerprint state) (cl_config_fingerprint_v2 state) rounds e ps.
Proof.
  assert (forall rounds, let s := mb_state (ticks secret secret_previous prune_after rounds (start state)) in
    cl_config_fingerprint s = cl_config_fingerprint state /\
    cl_config_fingerprint_v2 s = cl_config_fingerprint_v2 state) as Hfp.
  { induction rounds0 as [|r rounds0 [E1 E2]]; [done|]. cbn [ticks]. cbv zeta in *.
    destruct (tick_fingerprints r (ticks secret secret_previous prune_after rounds0 (start state))) as [-> ->]. done. }
  revert ps. induction rounds as [|r rounds IH]; intros ps; [done|]. cbn [ticks]. rewrite tick_lookup.
  destruct (Hfp rounds) as [-> ->]. intros (ps0 & Hps0 & -> & _). apply probed_ok.
  destruct Hps0 as [Hps0|(_ & _ & ->)]; [by apply IH|done].
Qed.

(** ** The published list *)

Lemma published r rounds state p :
  p ∈ cl_peers (mb_state (ticks secret secret_previous prune_after (r :: rounds) (start state))) <->
  exists e ps, mb_known (ticks secret secret_previous prune_after (r :: rounds) (start state)) !! e = Some ps /\
    emit_peer ps = Some p.
Proof.
  cbn [ticks]. unfold tick at 1 2. cbn [mb_state mb_known]. set (known := filter _ _). set (s := mb_state (foldl _ _ _)).
  replace (cl_peers (set_peers _ s)) with (omap (fun e => emit_peer e.2) (by_endpoint known)) by (by destruct s).
  rewrite list_elem_of_omap. split.
  - intros ([e ps] & Hin%by_endpoint_elem & He). eauto.
  - intros (e & ps & Hin & He). exists (e, ps). split; [by apply by_endpoint_elem|done].
Qed.

Lemma emitted_endpoint fp fp_v2 rounds e ps p :
  known_ok fp fp_v2 rounds e ps -> emit_peer ps = Some p -> pn_endpoint p = e.
Proof.
  unfold known_ok, emit_peer. destruct (ps_last_live ps) as [q|].
  - intros (k & r & info & _ & -> & -> & _). repeat case_match; by intros [= <-].
  - by intros ->.
Qed.

Lemma emitted_alive fp fp_v2 rounds e ps p :
  known_ok fp fp_v2 rounds e ps -> emit_peer ps = Some p -> pn_alive p = true ->
  exists k r info, k < 2 /\ answered_ago rounds e k r info /\ p = live_peer (rd_now r) fp fp_v2 e info.
Proof.
  unfold known_ok, emit_peer. destruct (ps_last_live ps) as [q|]; [|by intros ->].
  intros (k & r & info & Ha & -> & -> & ->) He Hal.
  assert (Z.min (Z.of_nat k) (2 ^ 32 - 1) < 2)%Z as Hk.
  { unfold DEAD_AFTER_FAILURES in He. destruct (Z.eqb_spec (Z.min (Z.of_nat k) (2 ^ 32 - 1)) 0); [lia|].
    destruct (Z.ltb_spec (Z.min (Z.of_nat k) (2 ^ 32 - 1)) 2); [done|]. injection He as <-. done. }
  exists k, r, info. split; [lia|]. split; [done|]. unfold DEAD_AFTER_FAILURES in He.
  destruct (Z.eqb_spec (Z.min (Z.of_nat k) (2 ^ 32 - 1)) 0); [by injection He|].
  destruct (Z.ltb_spec (Z.min (Z.of_nat k) (2 ^ 32 - 1)) 2); [by injection He|lia].
Qed.

Lemma omap_nodup {A B : Type} (f : A -> option B) (g : B -> string) (h : A -> string) l :
  (forall x y, x ∈ l -> f x = Some y -> g y = h x) -> NoDup (h <$> l) -> NoDup (g <$> omap f l).
Proof.
  induction l as [|x l IH]; intros Hf Hnd; [constructor|]. rewrite fmap_cons in Hnd.
  apply NoDup_cons in Hnd as [Hx Hnd]. specialize (IH (fun a b Ha => Hf a b (list_elem_of_further _ _ _ Ha)) Hnd).
  simpl. destruct (f x) as [y|] eqn:E; [|done]. simpl. apply NoDup_cons. split; [|done].
  rewrite (Hf x y) by (done || left). intros (b & Hb & Hin)%list_elem_of_fmap.
  apply list_elem_of_omap in Hin as (a & Ha & Hab). apply Hx. apply list_elem_of_fmap. exists a.
  split; [|done]. rewrite Hb. by apply Hf; [right|].
Qed.

Lemma endpoints_nodup rounds state :
  cl_peers state = [] ->
  NoDup (pn_endpoint <$> cl_peers (mb_state (ticks secret secret_previous prune_after rounds (start state)))).
Proof.
  intros H0. destruct rounds as [|r rounds]; [cbn; rewrite H0; constructor|].
  pose proof (ticks_known (r :: rounds) state) as Hk. cbn [ticks] in *. unfold tick in *. cbn [mb_state mb_known] in *.
  set (known := filter _ _) in *. set (s := mb_state (foldl _ _ _)).
  replace (cl_peers (set_peers _ s)) with (omap (fun e => emit_peer e.2) (by_endpoint known)) by (by destruct s).
  apply (omap_nodup _ _ fst); [|apply by_endpoint_nodup].
  intros [e ps] p Hin%by_endpoint_elem He. by eapply emitted_endpoint; [apply Hk|].
Qed.

(** ** The challenge *)

(** The answer carries the MAC of the nonce under a secret of the cluster. *)
Definition proves_secret (nonce : string) (resp : ClusterPingResponse) : Prop :=
  exists mac key, ping_mac resp = Some mac /\ (key = secret \/ secret_previous = Some key) /\
    unhex mac = Some (hmac key (ping_mac_input nonce)).

Lemma verify_iff key nonce mac :
  verify_ping_nonce_mac key nonce mac = true <-> unhex mac = Some (hmac key (ping_mac_input nonce)).
Proof.
  unfold verify_ping_nonce_mac. destruct (unhex mac) as [x|]; [|done].
  rewrite bool_decide_eq_true. naive_solver.
Qed.

Lemma proven_contact nonce reply info :
  probe_peer secret secret_previous nonce reply = Contact info ->
  ci_auth info = Proven <->
  exists resp, rp_ping reply = PingOk resp /\ ci_node_id info = ping_node_id resp /\
    ci_fingerprint info = ping_config_fingerprint resp /\ ci_fingerprint_v2 info = ping_config_fingerprint_v2 resp /\
    proves_secret nonce resp.
Proof.
  unfold probe_peer, proves_secret. destruct (rp_ping reply) as [resp|status|].
  - intros [= <-]. cbn. destruct (ping_mac resp) as [mac|] eqn:Em.
    + destruct (verify_ping_nonce_mac secret nonce mac) eqn:E1; cbn.
      * split; [|done]. intros _. exists resp. repeat split; [done..|]. exists mac, secret.
        split; [done|]. split; [by left|by apply verify_iff].
      * destruct secret_previous as [prev|] eqn:Ep;
          [destruct (verify_ping_nonce_mac prev nonce mac) eqn:E2; cbn|].
        -- split; [|done]. intros _. exists resp. repeat split; [done..|]. exists mac, prev.
           split; [done|]. split; [by right|by apply verify_iff].
        -- split; [done|]. intros (resp' & [= <-] & _ & _ & _ & mac' & key & E & Hk & Hu%verify_iff).
           destruct Hk as [->|[= ->]]; congruence.
        -- split; [done|]. intros (resp' & [= <-] & _ & _ & _ & mac' & key & E & Hk & Hu%verify_iff).
           destruct Hk as [->|[=]]. congruence.
    + split; [done|]. intros (resp' & [= <-] & _ & _ & _ & mac' & key & E & _). congruence.
  - unfold health_contact. repeat case_match; intros [= <-]; cbn; (split; [done|by intros (? & [=] & _)]).
  - done.
Qed.
End safety.

(** Fingerprints agree when both sides sent them. *)
Definition configs_agree (fp fp_v2 : option string) (resp : ClusterPingResponse) : Prop :=
  match fp_v2, ping_config_fingerprint_v2 resp with
  | Some mine, Some theirs => mine = theirs
  | _, _ =>
      match fp, ping_config_fingerprint resp with
      | Some mine, Some theirs => mine = theirs
      | _, _ => True
      end
  end.

Section theorems.
Context {crypto : SigCrypto} {hex_decode : HexDecode}.
Variables (secret : string) (secret_previous : option string) (prune_after : Z).

Lemma config_ok_agree fp fp_v2 info resp :
  ci_auth info = Proven -> ci_fingerprint info = ping_config_fingerprint resp ->
  ci_fingerprint_v2 info = ping_config_fingerprint_v2 resp ->
  contact_config_ok info fp fp_v2 = true <-> configs_agree fp fp_v2 resp.
Proof.
  intros Ha E1 E2. unfold contact_config_ok, configs_agree. rewrite Ha, E1, E2. rewrite bool_decide_false by done.
  destruct fp_v2, (ping_config_fingerprint_v2 resp), fp, (ping_config_fingerprint resp);
    rewrite ?bool_decide_eq_true; done.
Qed.

Lemma peers_of_eligible p (s : ClusterState) : p ∈ eligible_peers s <-> p ∈ cl_peers s /\ eligible p = true.
Proof.
  unfold eligible_peers. rewrite !list_elem_of_In, filter_In. done.
Qed.

Lemma eligible_fields p :
  eligible p = true <-> pn_alive p = true /\ pn_authenticated p = true /\ pn_config_ok p = true.
Proof. unfold eligible. rewrite !andb_true_iff. naive_solver. Qed.

(** C32. Whatever discovery finds and the endpoints answer, in every run of the
    probe loop a peer that is eligible for replication answered one of the
    last two probes of its endpoint under its node id, with a MAC over the
    nonce of that very probe keyed by the cluster secret (or the previous one,
    in a rotation) and with an agreeing configuration; a later probe can only
    have failed.  And each endpoint is published at most once. *)
Theorem eligible_peers_proved (rounds : list Round) (state : ClusterState) (p : PeerNode) :
  cl_peers state = [] ->
  let s := mb_state (ticks secret secret_previous prune_after rounds (start state)) in
  NoDup (pn_endpoint <$> cl_peers s) /\
  (p ∈ eligible_peers s ->
   exists k r resp, k < 2 /\ rounds !! k = Some r /\ rp_ping (rd_reply r (pn_endpoint p)) = PingOk resp /\
     ping_node_id resp = pn_node_id p /\ pn_last_seen p = Some (rd_now r) /\
     proves_secret secret secret_previous (rd_nonce r (pn_endpoint p)) resp /\
     configs_agree (cl_config_fingerprint state) (cl_config_fingerprint_v2 state) resp /\
     forall j, j < k -> exists r', rounds !! j = Some r' /\
       probe_round secret secret_previous r' (pn_endpoint p) = Failure).
Proof.
  intros Hs s. split; [by apply endpoints_nodup|]. unfold s. clear s.
  intros [Hin (Hal & Hau & Hco)%eligible_fields]%peers_of_eligible.
  destruct rounds as [|r0 rounds]; [cbn in Hin; rewrite Hs in Hin; by apply not_elem_of_nil in Hin|].
  apply published in Hin as (e & ps & Hk%ticks_known & He).
  destruct (emitted_alive _ _ _ _ _ _ _ _ Hk He Hal) as (k & r & info & Hlt & (Hr & Hp & Hf) & ->).
  cbn [live_peer pn_authenticated pn_config_ok pn_endpoint pn_node_id pn_last_seen] in *.
  apply bool_decide_eq_true in Hau. pose proof Hp as Hc. unfold probe_round in Hc.
  destruct (proj1 (proven_contact _ _ _ _ _ Hc) Hau) as (resp & Hresp & Hid & E1 & E2 & Hmac).
  exists k, r, resp. repeat split; try done. by eapply config_ok_agree.
Qed.

(** ** What a probe round leads to *)

Lemma tick_publishes r rounds state e ps :
  mb_known (ticks secret secret_previous prune_after (r :: rounds) (start state)) !! e = Some ps ->
  forall p, emit_peer ps = Some p -> eligible p = true ->
  p ∈ eligible_peers (mb_state (ticks secret secret_previous prune_after (r :: rounds) (start state))).
Proof. intros Hk p He Hel. apply peers_of_eligible. split; [|done]. apply published. eauto. Qed.

(** The entry of a candidate after its probe. *)
Lemma tick_candidate r rounds state e :
  e ∈ rd_candidates r ->
  let m := ticks secret secret_previous prune_after rounds (start state) in
  exists ps, (mb_known m !! e = Some ps \/ mb_known m !! e = None /\ e ∈ rd_candidates r /\ ps = ProbeState_default).
Proof. intros He m. destruct (mb_known m !! e) as [ps|] eqn:E; eauto 10. Qed.

Lemma state_fingerprints rounds state :
  let s := mb_state (ticks secret secret_previous prune_after rounds (start state)) in
  cl_config_fingerprint s = cl_config_fingerprint state /\ cl_config_fingerprint_v2 s = cl_config_fingerprint_v2 state.
Proof.
  induction rounds as [|r rounds [E1 E2]]; [done|]. cbn [ticks]. cbv zeta in *.
  destruct (tick_fingerprints secret secret_previous prune_after r
    (ticks secret secret_previous prune_after rounds (start state))) as [-> ->]. done.
Qed.

(** The endpoint gives a good answer in the round. *)
Definition answers_well (state : ClusterState) (r : Round) (e : string) (resp : ClusterPingResponse) : Prop :=
  e ∈ rd_candidates r /\ rp_ping (rd_reply r e) = PingOk resp /\
  proves_secret secret secret_previous (rd_nonce r e) resp /\
  configs_agree (cl_config_fingerprint state) (cl_config_fingerprint_v2 state) resp.

Lemma answers_well_contact state r e resp :
  answers_well state r e resp ->
  exists info, probe_round secret secret_previous r e = Contact info /\ ci_node_id info = ping_node_id resp /\
    eligible (live_peer (rd_now r) (cl_config_fingerprint state) (cl_config_fingerprint_v2 state) e info) = true.
Proof.
  intros (_ & Hp & Hs & Hc). unfold probe_round.
  destruct (probe_peer secret secret_previous (rd_nonce r e) (rd_reply r e)) as [info| |] eqn:E;
    [|by unfold probe_peer in E; rewrite Hp in E..].
  exists info. pose proof (proven_contact _ _ _ _ _ E) as Hpc.
  assert (ci_node_id info = ping_node_id resp /\ ci_fingerprint info = ping_config_fingerprint resp /\
    ci_fingerprint_v2 info = ping_config_fingerprint_v2 resp) as (E1 & E2 & E3).
  { unfold probe_peer in E. rewrite Hp in E. by injection E as <-. }
  assert (ci_auth info = Proven) as Ha by (apply Hpc; eauto 10).
  split; [done|]. split; [done|]. apply eligible_fields. cbn. split; [done|].
  split; [by apply bool_decide_eq_true|]. by eapply config_ok_agree.
Qed.

(** The entry after a contact. *)
Lemma contact_known r rounds state e info :
  e ∈ rd_candidates r -> probe_round secret secret_previous r e = Contact info ->
  mb_known (ticks secret secret_previous prune_after (r :: rounds) (start state)) !! e =
  Some {| ps_node_id := Some (ci_node_id info); ps_consecutive_failures := 0; ps_last_contact := Some (rd_now r);
          ps_last_live := Some (live_peer (rd_now r) (cl_config_fingerprint state) (cl_config_fingerprint_v2 state)
                                  e info) |}.
Proof.
  intros Hin Hp. cbn [ticks]. apply tick_lookup. destruct (tick_candidate r rounds state e Hin) as [ps Hps].
  exists ps. split; [done|]. destruct (state_fingerprints rounds state) as [-> ->]. by rewrite Hp.
Qed.

(** C36. The failure detector.  A candidate endpoint that answers the challenge with
    an agreeing configuration is an eligible peer from that tick on; it is
    still one after a single failed probe (within the pruning window); and an
    endpoint whose last two probes failed is published as no live peer. *)
Theorem failure_detector (rounds : list Round) (state : ClusterState) (e : string) (r r1 r2 : Round)
    (resp : ClusterPingResponse) :
  (answers_well state r e resp ->
   exists p, p ∈ eligible_peers (mb_state (ticks secret secret_previous prune_after (r :: rounds) (start state))) /\
     pn_endpoint p = e /\ pn_node_id p = ping_node_id resp) /\
  (answers_well state r e resp -> probe_round secret secret_previous r1 e = Failure ->
   (rd_now r1 - rd_now r <= prune_after)%Z ->
   exists p, p ∈ eligible_peers (mb_state (ticks secret secret_previous prune_after (r1 :: r :: rounds) (start state))) /\
     pn_endpoint p = e /\ pn_node_id p = ping_node_id resp) /\
  (probe_round secret secret_previous r1 e = Failure -> probe_round secret secret_previous r2 e = Failure ->
   forall p, p ∈ cl_peers (mb_state (ticks secret secret_previous prune_after (r2 :: r1 :: rounds) (start state))) ->
     pn_endpoint p = e -> pn_alive p = false).
Proof.
  split; [|split].
  - intros Hw. pose proof (answers_well_contact _ _ _ _ Hw) as (info & Hp & Hid & Hel). destruct Hw as [Hin _].
    exists (live_peer (rd_now r) (cl_config_fingerprint state) (cl_config_fingerprint_v2 state) e info).
    split; [|done].
    eapply (tick_publishes r rounds); [by apply contact_known|done|exact Hel].
  - intros Hw Hf Hlate. pose proof (answers_well_contact _ _ _ _ Hw) as (info & Hp & Hid & Hel). destruct Hw as [Hin _].
    exists (live_peer (rd_now r) (cl_config_fingerprint state) (cl_config_fingerprint_v2 state) e info).
    split; [|done].
    eapply (tick_publishes r1 (r :: rounds)) with (ps := {| ps_node_id := Some (ci_node_id info);
      ps_consecutive_failures := 1; ps_last_contact := Some (rd_now r); ps_last_live := Some _ |});
      [|reflexivity|exact Hel].
    change (ticks _ _ _ (r1 :: r :: rounds) _) with
      (tick secret secret_previous prune_after r1 (ticks secret secret_previous prune_after (r :: rounds) (start state))).
    apply tick_lookup. eexists. split; [left; by apply contact_known|]. rewrite Hf. split; [reflexivity|].
    unfold stale. simpl. destruct (Z.ltb_spec prune_after (rd_now r1 - rd_now r)); [lia|done].
  - intros H1 H2 p (e' & ps & Hk & He)%published Hep. apply ticks_known in Hk.
    destruct (pn_alive p) eqn:Hal; [|done].
    destruct (emitted_alive _ _ _ _ _ _ _ _ Hk He Hal) as (k & r0 & info & Hlt & (Hr & Hp & _) & ->).
    cbn in Hep. subst e'. destruct k as [|[|k]]; [..|lia]; cbn in Hr; injection Hr as <-; congruence.
Qed.
End theorems.
