(* ===== verification/ClusterRuns.v ===== *)
(** Clusters that run: concrete views, worlds and messages for the theorems of
    [ClusterMetaSafety], [ClusterControlSafety] and [MembershipSafety], and
    three runs in which a cluster breaks a promise. *)

From S2P Require Import Prelude S3Errors Policy Types SqlTable Text Preconditions ControlMerge IdentityStore IdentityMerge.
From S2P Require Import MetadataStore MetadataRows MetadataInvariant MetadataSteps MetadataOps MetadataReplication.
From S2P Require Import MetadataTrait ClusterState Sigv4 Sigv4Sample Membership MembershipSafety.
From S2P Require Import ClusterMeta ClusterMetaSafety ClusterControl ClusterControlSafety.

(** ** Views from probes *)

#[local] Instance plain_hex : HexDecode := fun s => Some s.

Definition good_response (node mac : string) : ClusterPingResponse :=
  {| ping_node_id := node; ping_config_fingerprint := None; ping_config_fingerprint_v2 := Some "cfg";
     ping_disk_total := None; ping_disk_available := None; ping_max_seq := 0; ping_mac := Some mac |}.

Definition answer_of (node nonce : string) : Reply :=
  {| rp_ping := PingOk (good_response node (hmac "secret" (ping_mac_input nonce))); rp_health := None |}.

Definition silent : Reply := {| rp_ping := PingFailed; rp_health := None |}.

(** A round in which the listed endpoints answer, each for its node. *)
Definition sample_round (now : Z) (nodes : list (string * string)) : Round :=
  {| rd_now := now; rd_candidates := nodes.*1; rd_nonce := fun e => "nonce-" +:+ e;
     rd_reply := fun e => match List.find (fun x => bool_decide (x.1 = e)) nodes with
                          | Some (_, node) => answer_of node ("nonce-" +:+ e)
                          | None => silent
                          end |}.

Definition sample_cluster (quorum size : Z) : ClusterState :=
  set_config_fingerprint_v2 "cfg" (ClusterState_new "n1" (Some quorum) (Some size)).

Definition probed_view (quorum size : Z) (nodes : list (string * string)) : ClusterState :=
  mb_state (ticks "secret" None 100 [sample_round 10 nodes] (start (sample_cluster quorum size))).

Lemma one_round_answers :
  answers_well "secret" None (sample_cluster 2 3) (sample_round 10 [("http://n2", "n2")]) "http://n2"
    (good_response "n2" (hmac "secret" (ping_mac_input "nonce-http://n2"))).
Proof.
  split; [by left|]. split; [reflexivity|]. split; [|reflexivity].
  eexists _, "secret". split; [reflexivity|]. split; [by left|reflexivity].
Qed.

Definition sample_peer_n2 : PeerNode :=
  {| pn_node_id := "n2"; pn_endpoint := "http://n2"; pn_alive := true; pn_last_seen := Some 10%Z;
     pn_authenticated := true; pn_config_ok := true; pn_disk_total := None; pn_disk_available := None;
     pn_max_seq := Some 0%Z |}.

Lemma eligible_peers_proved_witness :
  sample_peer_n2 ∈ eligible_peers (probed_view 2 3 [("http://n2", "n2")]) /\
  exists k r resp, k < 2 /\ [sample_round 10 [("http://n2", "n2")]] !! k = Some r /\
    rp_ping (rd_reply r "http://n2") = PingOk resp /\ ping_node_id resp = "n2" /\ Some 10%Z = Some (rd_now r) /\
    proves_secret "secret" None (rd_nonce r "http://n2") resp /\
    configs_agree None (Some "cfg") resp /\
    forall j, j < k -> exists r', [sample_round 10 [("http://n2", "n2")]] !! j = Some r' /\
      probe_round "secret" None r' "http://n2" = Failure.
Proof.
  assert (sample_peer_n2 ∈ eligible_peers (probed_view 2 3 [("http://n2", "n2")])) as Hin
    by (vm_compute; apply list_elem_of_here).
  split; [exact Hin|].
  exact (proj2 (eligible_peers_proved "secret" None 100 [sample_round 10 [("http://n2", "n2")]] (sample_cluster 2 3)
    sample_peer_n2 eq_refl) Hin).
Defined.

Lemma failure_detector_witness :
  (exists p, p ∈ eligible_peers (mb_state (ticks "secret" None 100
      [sample_round 20 []; sample_round 10 [("http://n2", "n2")]] (start (sample_cluster 2 3)))) /\
    pn_endpoint p = "http://n2" /\ pn_node_id p = "n2") /\
  (forall p, p ∈ cl_peers (mb_state (ticks "secret" None 100
      [sample_round 30 []; sample_round 20 []; sample_round 10 [("http://n2", "n2")]] (start (sample_cluster 2 3)))) ->
    pn_endpoint p = "http://n2" -> pn_alive p = false).
Proof.
  split.
  - exact (proj1 (proj2 (failure_detector "secret" None 100 [] (sample_cluster 2 3) "http://n2"
      (sample_round 10 [("http://n2", "n2")]) (sample_round 20 []) (sample_round 30 []) _))
      one_round_answers eq_refl ltac:(cbn; lia)).
  - exact (proj2 (proj2 (failure_detector "secret" None 100 [sample_round 10 [("http://n2", "n2")]]
      (sample_cluster 2 3) "http://n2" (sample_round 10 []) (sample_round 20 []) (sample_round 30 [])
      (good_response "n2" EmptyString))) eq_refl eq_refl).
Defined.

(** ** A write that is acknowledged *)

Definition blob_1 : string := "aa000000-0000-4000-8000-00000000000a".

Definition sample_put_record : ObjectRecord :=
  MkObject "bucket" "key" blob_1 3 "etag" None 10 ∅ None None "root" None true false false
    None None None "STANDARD" None None None None None None.

Definition node_with (blobs : list string) : Remote :=
  {| rm_meta := empty_meta; rm_ids := empty_ids; rm_sidecars := list_to_set blobs |}.

(** This node with peers [n2], which has the sidecar, and [n3], which is cut off. *)
Definition put_world : ClusterWorld MetaStore :=
  MkClusterWorld empty_meta empty_ids (probed_view 2 3 [("http://n2", "n2"); ("http://n3", "n3")])
    (<["n2" := node_with [blob_1]]> {["n3" := node_with []]}).

(** The endpoint [http://id] is the node [id]. *)
Definition plain_route (e : string) : string := default e (strip_prefix "http://" e).

Definition put_net (round : nat) (e : string) : Delivery :=
  if bool_decide (e = "http://n2") then Answers 11 else Lost.

Definition put_call : MetaCall (option ObjectRecord * option string) :=
  OnObjects (PutObjectIf "v1" sample_put_record no_write_precondition).

Definition put_run : ClusterWorld MetaStore * outcome ArcaError (option ObjectRecord * option string) :=
  cluster (sqlite true) true 10 plain_route put_net _ put_call put_world.

Lemma cluster_put_run_ok : put_run = (put_run.1, Ok (None, None)).
Proof. vm_compute. reflexivity. Qed.

Lemma empty_tables_ok : rows_ok (ms_objects empty_meta).
Proof. apply empty_meta_ok. Qed.

Lemma put_world_ok : tables_ok id put_world.
Proof.
  split; [apply empty_tables_ok|]. intros id n Hn. unfold remote_ok.
  assert (rm_meta n = empty_meta) as ->; [|apply empty_tables_ok].
  cbn [put_world cw_remotes] in Hn. rewrite lookup_insert, lookup_singleton in Hn.
  repeat case_decide; by simplify_eq.
Qed.

Lemma put_world_distinct : distinct_nodes plain_route put_world.
Proof. unfold distinct_nodes. vm_compute. repeat constructor; set_solver. Qed.

Lemma acknowledged_write_survives_witness :
  exists node, (node ∉ ({["n1"]} : gset string)) /\
    node_keeps id (as_current None sample_put_record) node put_run.1.
Proof.
  refine (acknowledged_write_survives (sqlite true) id sqlite_writes_through true 10 plain_route put_net put_call "v1"
    sample_put_record snd put_world put_run.1 (None, None) 2 {["n1"]} (rw_put _ _ _) _ put_world_distinct put_world_ok
    _ cluster_put_run_ok _).
  - vm_compute. reflexivity.
  - intros i x Hx. cbn in Hx. by rewrite lookup_empty in Hx.
  - vm_compute. reflexivity.
Defined.

Lemma closed_gate_refuses_witness :
  exists msg, cluster (sqlite true) true 10 plain_route put_net _ put_call
    (MkClusterWorld empty_meta empty_ids (probed_view 2 3 []) ∅) =
    (MkClusterWorld empty_meta empty_ids (probed_view 2 3 []) ∅,
     Err (S3 (with_message ServiceUnavailable msg "/"))).
Proof.
  exact (proj1 (closed_gate_refuses (sqlite true) true 10 plain_route put_net put_call
    (MkClusterWorld empty_meta empty_ids (probed_view 2 3 []) ∅)) eq_refl ltac:(vm_compute; discriminate)).
Defined.

(** ** A control-plane change *)

Definition user_u1 : User := sample_identity_user "u1".

Definition control_call : ControlCall unit := OnUsers (PutUser user_u1).

Definition control_run : ClusterWorld MetaStore * outcome ArcaError unit :=
  cluster_control true 10 plain_route put_net control_call put_world.

Lemma control_run_ok : control_run = (control_run.1, Ok tt).
Proof. vm_compute. reflexivity. Qed.

Lemma control_calls_keep_step_witness :
  exists n', cw_remotes control_run.1 !! "n2" = Some n' /\ in_step (cw_ids control_run.1) (rm_ids n').
Proof.
  refine (control_calls_keep_step true 10 plain_route put_net control_call put_world control_run.1 tt "http://n2"
    (node_with [blob_1]) (proj1 (empty_ids_wf true)) _ _ eq_refl eq_refl control_run_ok eq_refl).
  - vm_compute. repeat constructor; set_solver.
  - split; [vm_compute; apply list_elem_of_here|]. exists 11%Z. by right.
Defined.

(** ** An acknowledged delete that is lost *)

Definition stored_put : MetaStore := (put_object_if "v1" sample_put_record no_write_precondition empty_meta).1.

(** This node and [n3] have the object, [n2] missed the put; [n3] is down. *)
Definition delete_world : ClusterWorld MetaStore :=
  MkClusterWorld stored_put empty_ids (probed_view 2 3 [("http://n2", "n2")])
    (<["n2" := node_with []]> {["n3" := {| rm_meta := stored_put; rm_ids := empty_ids; rm_sidecars := {[blob_1]} |}]}).

Definition delete_run : ClusterWorld MetaStore * outcome ArcaError (option ObjectRecord) :=
  cluster (sqlite true) true 20 plain_route put_net _
    (OnObjects (DeleteObjectIf 20 "v2" "bucket" "key" no_delete_precondition "root")) delete_world.

(** The rows a node hands to the others. *)
Definition handed_over (s : MetaStore) : list ObjectRecord := snd <$> list_rows_changed_since 0 100 s.

Definition remote_tables (id : string) (w : ClusterWorld MetaStore) : MetaStore :=
  match cw_remotes w !! id with Some n => rm_meta n | None => empty_meta end.

(** A delete acknowledged with the write quorum can be undone by the loss of
    one node.  The peer that had missed the put answers the version delete with
    success although it records nothing, and its answer counts: with a quorum
    of two the client is told the object is deleted.  When the node that took
    the delete is lost, a node that was down brings the object back: the peer
    takes its row and serves the object. *)
Theorem acknowledged_delete_lost :
  cl_write_quorum (cw_cluster delete_world) = Some 2%Z /\
  is_ok delete_run.2 = true /\ get_object "bucket" "key" (cw_inner delete_run.1) = None /\
  handed_over (remote_tables "n2" delete_run.1) = [] /\
  o_blob_id <$> get_object "bucket" "key"
    (deliver (handed_over (remote_tables "n3" delete_run.1)) (remote_tables "n2" delete_run.1)) = Some blob_1.
Proof. vm_compute. done. Qed.

(** ** A node counted twice *)

(** Node [n2] answers at two addresses; [n3], [n4] and [n5] are cut off. *)
Definition twice_view : ClusterState := probed_view 3 5 [("http://10.0.0.2", "n2"); ("http://172.17.0.2", "n2")].

Definition twice_route (e : string) : string :=
  if bool_decide (e = "http://10.0.0.2") || bool_decide (e = "http://172.17.0.2") then "n2" else plain_route e.

Definition twice_world : ClusterWorld MetaStore :=
  MkClusterWorld empty_meta empty_ids twice_view
    (<["n2" := node_with [blob_1]]> (<["n3" := node_with []]> (<["n4" := node_with []]> {["n5" := node_with []]}))).

Definition twice_run : ClusterWorld MetaStore * outcome ArcaError (option ObjectRecord * option string) :=
  cluster (sqlite true) true 10 twice_route (fun _ _ => Answers 11) _ put_call twice_world.

(** The quorum counts endpoints, not nodes.  A node that answers at two
    addresses is published as two eligible peers, so in a cluster of five with
    a quorum of three two nodes pass the admission gate on their own, and a
    write that only they hold is acknowledged. *)
Theorem quorum_counts_endpoints :
  pn_node_id <$> eligible_peers twice_view = ["n2"; "n2"] /\ write_gate twice_view = Open /\
  cl_write_quorum twice_view = Some 3%Z /\ is_ok twice_run.2 = true /\
  handed_over (remote_tables "n3" twice_run.1) = [] /\ handed_over (remote_tables "n4" twice_run.1) = [] /\
  handed_over (remote_tables "n5" twice_run.1) = [].
Proof. vm_compute. done. Qed.

(** ** A message that arrives late *)

Definition key_1 : Credential :=
  {| cr_access_key_id := "AK1"; cr_secret_access_key := "s1"; cr_description := EmptyString;
     cr_created_at := 1; cr_active := true; cr_user_id := "u1" |}.

Definition key_world : ClusterWorld MetaStore :=
  MkClusterWorld empty_meta empty_ids (probed_view 2 3 [("http://n2", "n2")]) {["n2" := node_with []]}.

(** The key is created while [n2] does not answer, then deleted; [n2] applies
    the deletion, and the creation after it. *)
Definition after_delete : ClusterWorld MetaStore :=
  (cluster_control true 2 plain_route (fun _ _ => Answers 2) (OnCredentials (DeleteCredential "AK1"))
    (cluster_control true 1 plain_route (fun _ _ => Lost) (OnCredentials (PutCredential key_1)) key_world).1).1.

Definition late_node : Remote :=
  match cw_remotes after_delete !! "n2" with
  | Some n => (receive_op true 3 (CredentialUpsert key_1) n).1
  | None => node_with []
  end.

(** A control-plane message that arrives late undoes the changes made since.
    The receiver stamps the row with its own clock, so the creation of an
    access key that it applies after the deletion of the key is newer than the
    deletion: the next exchange of snapshots brings the deleted key back on
    the node that deleted it. *)
Theorem late_upsert_revives_credential :
  get_credential "AK1" (cw_ids after_delete) = None /\
  get_credential "AK1" (merged (cw_ids after_delete) (rm_ids late_node)) = Some key_1 /\
  get_credential "AK1" (merged (rm_ids late_node) (cw_ids after_delete)) = Some key_1.
Proof. vm_compute. done. Qed.
