(* ===== verification/Middleware.v ===== *)
(** The request pipeline in front of the handlers:
    [crates/arca-proto/src/middleware/normalize.rs] and [virtual_host.rs] (the
    rewrite of the URI before routing), [mod.rs] (the replay window),
    [auth.rs], [admin_auth.rs] and [cluster_auth.rs] (authentication and
    authorization of S3, admin and inter-node requests), and the S3 routes of
    [crates/arca-proto/src/router.rs].

    A request is its method, URI, headers and extensions; a middleware answers
    with a reply or passes the request on with what it adds to the extensions.
    Times are nanoseconds since the epoch. *)
From Stdlib Require Import NArith ZArith Ascii Lia.
From stdpp Require Import base list strings option.
From S2P Require Import Prelude.
From S2P Require Import S3Errors.
From S2P Require Import Policy.
From S2P Require Import Types.
From S2P Require Import Text.
From S2P Require Import Authorize.
From S2P Require Import Sigv4.
Local Open Scope string_scope.
Local Open Scope outcome_scope.

(** ** Requests *)

Record Uri : Type := {
  uri_path : string;
  uri_query : option string;
  uri_authority : option string;
}.

(** Header names are lower case, as the HTTP library keeps them. *)
Record Request : Type := {
  rq_method : string;
  rq_uri : Uri;
  rq_headers : list (string * string);
  rq_original_uri : option Uri;
  rq_peer_cert_verified : bool;
}.

Definition with_uri (r : Request) (u : Uri) : Request :=
  {| rq_method := rq_method r; rq_uri := u; rq_headers := rq_headers r; rq_original_uri := rq_original_uri r;
     rq_peer_cert_verified := rq_peer_cert_verified r |}.

(** Code of other crates: the text of a header value, the URI parser, the
    parser of [YYYYMMDDTHHMMSSZ] timestamps (whose year has four digits, so
    that adding a week never leaves the range of instants), and the decoding
    of path parameters. *)
Class HttpLib : Type := {
  to_str : string -> option string;
  parse_uri : string -> option Uri;
  parse_datetime : string -> option Z;
  percent_decode : string -> option string;
}.

(** [HeaderMap::get]. *)
Definition get_header (r : Request) (name : string) : option string :=
  snd <$> List.find (fun h => bool_decide (h.1 = name)) (rq_headers r).

(** ** UTF-8 with replacement characters *)

Definition byte_in (lo hi : N) (a : ascii) : bool := ((lo <=? N_of_ascii a) && (N_of_ascii a <=? hi))%N.

(** How many continuation bytes a lead byte wants, and the range of the first
    of them. *)
Definition utf8_lead (a : ascii) : option (nat * N * N) :=
  if byte_in 194 223 a then Some (1, 128%N, 191%N)
  else if byte_in 224 224 a then Some (2, 160%N, 191%N)
  else if byte_in 237 237 a then Some (2, 128%N, 159%N)
  else if byte_in 225 239 a then Some (2, 128%N, 191%N)
  else if byte_in 240 240 a then Some (3, 144%N, 191%N)
  else if byte_in 241 243 a then Some (3, 128%N, 191%N)
  else if byte_in 244 244 a then Some (3, 128%N, 143%N)
  else None.

(** The continuation bytes present, up to [n] of them. *)
Fixpoint utf8_tail (n : nat) (lo hi : N) (s : string) : string * string * bool :=
  match n, s with
  | 0, _ => (EmptyString, s, true)
  | S n', String a s' =>
      if byte_in lo hi a then
        let '(taken, rest, complete) := utf8_tail n' 128 191 s' in (String a taken, rest, complete)
      else (EmptyString, s, false)
  | S _, EmptyString => (EmptyString, EmptyString, false)
  end.

(** [String::from_utf8_lossy]: a maximal invalid piece becomes U+FFFD. *)
Fixpoint utf8_lossy (fuel : nat) (s : string) : string :=
  match fuel, s with
  | S fuel', String a s' =>
      if (N_of_ascii a <? 128)%N then String a (utf8_lossy fuel' s')
      else
        match utf8_lead a with
        | None => push_char 65533 (utf8_lossy fuel' s')
        | Some (n, lo, hi) =>
            let '(taken, rest, complete) := utf8_tail n lo hi s' in
            if complete then String a (taken +:+ utf8_lossy fuel' rest) else push_char 65533 (utf8_lossy fuel' rest)
        end
  | _, _ => EmptyString
  end.

Definition from_utf8_lossy (s : string) : string := utf8_lossy (String.length s) s.

(** ** Virtual-hosted addressing and trailing slashes *)

Definition bucket_for_host (host domain : string) : option string :=
  let host := default host (head (split ":"%char host)) in
  prefix ← strip_suffix domain host;
  bucket ← strip_suffix "." prefix;
  if negb (bool_decide (bucket = EmptyString)) && negb (contains bucket ".") then Some bucket else None.

Definition path_style_path (bucket path : string) : string :=
  if bool_decide (path = "/") then "/" +:+ bucket else "/" +:+ bucket +:+ path.

Fixpoint count_char (c : ascii) (s : string) : nat :=
  match s with
  | EmptyString => 0
  | String a s' => (if bool_decide (a = c) then 1 else 0) + count_char c s'
  end.

(** A path and its query as one string. *)
Definition path_and_query (path : string) (query : option string) : string :=
  match query with Some q => path +:+ "?" +:+ q | None => path end.

Section middleware.
Context `{HH : !HttpLib} `{HS : !SigCrypto}.

Definition header_str (r : Request) (name : string) : option string := get_header r name ≫= to_str.

(** The header value as text, bytes outside ASCII decoded. *)
Definition header_value_to_string (value : string) : string := default (from_utf8_lossy value) (to_str value).

Definition rewrite_virtual_host (r : Request) (domain : string) : Request :=
  let host := match header_str r "host" with Some h => Some h | None => uri_authority (rq_uri r) end in
  match host ≫= (fun h => bucket_for_host h domain) with
  | None => r
  | Some bucket =>
      let path := path_style_path bucket (uri_path (rq_uri r)) in
      match parse_uri (path_and_query path (uri_query (rq_uri r))) with
      | Some u => with_uri r u
      | None => r
      end
  end.

(** The slice between the first and the last byte of a path, which starts
    with a slash. *)
Definition strip_bucket_slash (r : Request) : Request :=
  let path := uri_path (rq_uri r) in
  if (1 <? String.length path)%nat && ends_with path "/" then
    let segment_count := (count_char "/"%char (String.substring 1 (String.length path - 2) path) + 1)%nat in
    if (segment_count <=? 1)%nat then
      let trimmed := String.substring 0 (String.length path - 1) path in
      match parse_uri (path_and_query trimmed (uri_query (rq_uri r))) with
      | Some u => with_uri r u
      | None => r
      end
    else r
  else r.

(** [NormalizeService::call]: the request the router sees. *)
Definition normalize (domain : option string) (r : Request) : Request :=
  let r := {| rq_method := rq_method r; rq_uri := rq_uri r; rq_headers := rq_headers r;
              rq_original_uri := Some (rq_uri r); rq_peer_cert_verified := rq_peer_cert_verified r |} in
  let r := match domain with Some d => rewrite_virtual_host r d | None => r end in
  strip_bucket_slash r.

(** ** The S3 routes *)

Inductive Route : Type :=
  | RouteService
  | RouteBucket (bucket : string)
  | RouteObject (bucket key : string)
  | RouteNone.

(** [split_once]. *)
Fixpoint split_once (c : ascii) (s : string) : option (string * string) :=
  match s with
  | EmptyString => None
  | String a s' =>
      if bool_decide (a = c) then Some (EmptyString, s')
      else '(x, y) ← split_once c s'; Some (String a x, y)
  end.

(** The routes [/], [/{bucket}] and [/{bucket}/{*key}], a parameter being not
    empty, and the parameters as the handlers get them. *)
Definition s3_route (path : string) : Route :=
  match strip_prefix "/" path with
  | None => RouteNone
  | Some EmptyString => RouteService
  | Some rest =>
      match split_once "/"%char rest with
      | None => from_option RouteBucket RouteNone (percent_decode rest)
      | Some (b, k) =>
          if bool_decide (b = EmptyString) || bool_decide (k = EmptyString) then RouteNone
          else
            match percent_decode b, percent_decode k with
            | Some b', Some k' => RouteObject b' k'
            | _, _ => RouteNone
            end
      end
  end.

(** ** Times *)

Definition NANOS : Z := 1000000000.
Definition REPLAY_WINDOW_SECS : Z := 15 * 60.
Definition MAX_PRESIGN_EXPIRES : Z := 604800.

(** [num_seconds] truncates towards zero. *)
Definition within_replay_window (amz_date : string) (now : Z) : bool :=
  match parse_datetime amz_date with
  | Some t => (Z.abs (Z.quot (now - t) NANOS) <=? REPLAY_WINDOW_SECS)%Z
  | None => false
  end.

(** ** What the three middlewares read of a request *)

Definition original_uri (r : Request) : Uri := default (rq_uri r) (rq_original_uri r).

Definition auth_headers (r : Request) : list (string * string) :=
  let headers := (fun h => (h.1, header_value_to_string h.2)) <$> rq_headers r in
  if existsb (fun h => bool_decide (h.1 = "host")) headers then headers
  else
    match uri_authority (rq_uri r) with
    | Some authority => headers ++ [("host", authority)]
    | None => headers
    end.

Definition request_datetime (r : Request) : string :=
  default EmptyString
    (match get_header r "x-amz-date" with Some v => Some v | None => get_header r "date" end ≫= to_str).

Definition payload_hash (r : Request) : string := default "UNSIGNED-PAYLOAD" (header_str r "x-amz-content-sha256").

Definition query_string (r : Request) : string := default EmptyString (uri_query (original_uri r)).

(** The stores a middleware asks. *)
Record AuthStores : Type := {
  find_credential : string -> outcome ArcaError (option Credential);
  find_user : string -> outcome ArcaError (option User);
  effective_policies_of : string -> outcome ArcaError (list PolicyDocument);
}.

Inductive Reply : Type :=
  | S3Reply (e : S3Error)
  | EmptyReply (status : Z)
  | JsonReply (status : Z) (error message : string).

(** What a handler finds in the extensions. *)
Record Passed : Type := {
  ps_identity : AuthenticatedIdentity;
  ps_chunk_verifier : option ChunkVerifier;
}.

(** The input of the signature check of a request. *)
Definition verify_input (r : Request) (auth : ParsedAuthorization) (secret : string) : VerifyInput :=
  {| vi_method := rq_method r; vi_uri_path := uri_path (original_uri r); vi_query_string := query_string r;
     vi_headers := auth_headers r; vi_payload_hash := payload_hash r; vi_auth := auth;
     vi_secret_access_key := secret; vi_request_datetime := request_datetime r |}.

Definition presigned_input (r : Request) (auth : ParsedQueryAuth) (secret : string) : PresignedVerifyInput :=
  {| pv_method := rq_method r; pv_uri_path := uri_path (original_uri r); pv_query_string := query_string r;
     pv_headers := auth_headers r; pv_auth := auth; pv_secret_access_key := secret |}.

(** ** S3 requests *)

Definition deny (code : S3ErrorCode) (r : Request) : Reply := S3Reply (S3Error_new code (uri_path (original_uri r))).

Definition active_credential (stores : AuthStores) (r : Request) (key : string) : outcome Reply Credential :=
  match find_credential stores key with
  | Ok (Some cred) => if cr_active cred then Ok cred else Err (deny InvalidAccessKeyId r)
  | Ok None => Err (deny InvalidAccessKeyId r)
  | Err _ => Err (EmptyReply 500)
  | Panic => Panic
  end.

(** The branch of the [Authorization] header. *)
Definition header_credential (stores : AuthStores) (now : Z) (r : Request) (auth_header : string)
  : outcome Reply (Credential * option ChunkVerifier) :=
  match parse_authorization auth_header with
  | Panic => Panic
  | Err _ => Err (deny SignatureDoesNotMatch r)
  | Ok parsed_auth =>
      let? cred := active_credential stores r (pa_access_key_id parsed_auth) in
      if bool_decide (request_datetime r = EmptyString) then Err (deny AccessDenied r)
      else if negb (within_replay_window (request_datetime r) now) then Err (deny AccessDenied r)
      else if negb (is_ok (verify_request (verify_input r parsed_auth (cr_secret_access_key cred))))
      then Err (deny SignatureDoesNotMatch r)
      else
        Ok (cred, if starts_with (payload_hash r) "STREAMING-AWS4-HMAC-SHA256-PAYLOAD"
                  then Some (chunk_verifier_new (cr_secret_access_key cred) parsed_auth (request_datetime r))
                  else None)
  end.

(** The branch of a presigned URL. *)
Definition query_credential (stores : AuthStores) (now : Z) (r : Request) : outcome Reply Credential :=
  match parse_query_string_auth (query_string r) with
  | Panic => Panic
  | Err _ => Err (deny AccessDenied r)
  | Ok parsed =>
      if (MAX_PRESIGN_EXPIRES <? pq_expires parsed)%Z then
        Err (S3Reply (with_message AccessDenied
          ("X-Amz-Expires must be less than a week (604800 seconds), got " +:+ u64_to_string (pq_expires parsed))
          (uri_path (original_uri r))))
      else
        match parse_datetime (pq_request_datetime parsed) with
        | None => Err (deny AccessDenied r)
        | Some signed_at =>
            if (signed_at + pq_expires parsed * NANOS <? now)%Z then
              Err (S3Reply (with_message AccessDenied "Request has expired" (uri_path (original_uri r))))
            else
              let? cred := active_credential stores r (pq_access_key_id parsed) in
              if negb (is_ok (verify_presigned_request (presigned_input r parsed (cr_secret_access_key cred))))
              then Err (deny SignatureDoesNotMatch r)
              else Ok cred
        end
  end.

(** [resolve_identity]. *)
Definition resolve_identity (stores : AuthStores) (credential : Credential)
  : outcome unit (option AuthenticatedIdentity) :=
  match find_user stores (cr_user_id credential) with
  | Panic => Panic
  | Err _ => Err tt
  | Ok None => Ok None
  | Ok (Some user) =>
      let identity policies :=
        {| id_credential := credential; id_user := user; id_effective_policies := policies |} in
      if u_is_root user then Ok (Some (identity []))
      else
        match effective_policies_of stores (u_user_id user) with
        | Panic => Panic
        | Err _ => Err tt
        | Ok policies => Ok (Some (identity policies))
        end
  end.

(** [determine_s3_action_resource]. *)
Definition determine_s3_action_resource (method path query : string) : string * string :=
  let trimmed := default path (strip_prefix "/" path) in
  let '(bucket, key) := match split_once "/"%char trimmed with
                        | Some (b, k) => (b, Some k)
                        | None => (trimmed, None)
                        end in
  if bool_decide (bucket = EmptyString) then ("s3:ListAllMyBuckets", "*")
  else
    let object_level := match key with Some k => negb (bool_decide (k = EmptyString)) | None => false end in
    if object_level then
      (if bool_decide (method = "GET") || bool_decide (method = "HEAD") then "s3:GetObject"
       else if bool_decide (method = "PUT") then "s3:PutObject"
       else if bool_decide (method = "DELETE") then "s3:DeleteObject"
       else if bool_decide (method = "POST") then "s3:PutObject"
       else "s3:GetObject",
       "arn:aws:s3:::" +:+ bucket +:+ "/" +:+ default EmptyString key)
    else
      (if bool_decide (method = "PUT") then
         if contains query "encryption" then "s3:PutBucketEncryption" else "s3:CreateBucket"
       else if bool_decide (method = "GET") || bool_decide (method = "HEAD") then
         if contains query "encryption" then "s3:GetBucketEncryption"
         else if contains query "location" then "s3:GetBucketLocation"
         else "s3:ListBucket"
       else if bool_decide (method = "DELETE") then
         if contains query "encryption" then "s3:DeleteBucketEncryption" else "s3:DeleteBucket"
       else if bool_decide (method = "POST") then
         if contains query "delete" then "s3:DeleteObject" else "s3:ListBucket"
       else "s3:ListBucket",
       "arn:aws:s3:::" +:+ bucket).

Definition is_allow (e : Evaluation) : bool := match e with Allow => true | _ => false end.

(** [auth_middleware]: a reply, or the request goes on with an identity. *)
Definition auth_middleware (stores : AuthStores) (now : Z) (r : Request) : outcome Reply Passed :=
  let? (credential, verifier) :=
    match header_str r "authorization" with
    | Some auth_header => header_credential stores now r auth_header
    | None =>
        if contains (query_string r) "X-Amz-Algorithm" then
          let? cred := query_credential stores now r in Ok (cred, None)
        else Err (deny AccessDenied r)
    end in
  match resolve_identity stores credential with
  | Panic => Panic
  | Err _ => Err (EmptyReply 500)
  | Ok None => Err (deny AccessDenied r)
  | Ok (Some identity) =>
      let '(action, resource) :=
        determine_s3_action_resource (rq_method r) (uri_path (original_uri r)) (query_string r) in
      if negb (is_root identity) && negb (is_allow (evaluate_grants (id_effective_policies identity) action resource))
      then Err (deny AccessDenied r)
      else Ok {| ps_identity := identity; ps_chunk_verifier := verifier |}
  end.
End middleware.
