(* ===== verification/MiddlewareAdmin.v ===== *)
(** Authentication of admin and inter-node requests:
    [crates/arca-proto/src/middleware/admin_auth.rs] and [cluster_auth.rs]. *)
From Stdlib Require Import NArith ZArith Ascii Lia.
From stdpp Require Import base list strings option.
From S2P Require Import Prelude.
From S2P Require Import S3Errors.
From S2P Require Import Policy.
From S2P Require Import Types.
From S2P Require Import Text.
From S2P Require Import Authorize.
From S2P Require Import Sigv4.
From S2P Require Import Middleware.
Local Open Scope string_scope.
Local Open Scope outcome_scope.

Definition signature_message : string :=
  "The request signature we calculated does not match the signature you provided.".
Definition key_message : string := "The AWS access key ID you provided does not exist in our records.".

Section admin.
Context `{HH : !HttpLib} `{HS : !SigCrypto}.

(** ** Admin requests *)

Definition admin_active_credential (stores : AuthStores) (key : string) : outcome Reply Credential :=
  match find_credential stores key with
  | Ok (Some cred) => if cr_active cred then Ok cred else Err (JsonReply 403 "InvalidAccessKeyId" key_message)
  | Ok None => Err (JsonReply 403 "InvalidAccessKeyId" key_message)
  | Err _ => Err (JsonReply 500 "InternalError" "Internal server error")
  | Panic => Panic
  end.

Definition admin_header_credential (stores : AuthStores) (now : Z) (r : Request) (auth_header : string)
  : outcome Reply Credential :=
  match parse_authorization auth_header with
  | Panic => Panic
  | Err _ => Err (JsonReply 403 "SignatureDoesNotMatch" signature_message)
  | Ok parsed_auth =>
      let? cred := admin_active_credential stores (pa_access_key_id parsed_auth) in
      if bool_decide (request_datetime r = EmptyString) then Err (JsonReply 403 "AccessDenied" "Access Denied")
      else if negb (within_replay_window (request_datetime r) now)
      then Err (JsonReply 403 "AccessDenied" "Request time too far from server time")
      else if negb (is_ok (verify_request (verify_input r parsed_auth (cr_secret_access_key cred))))
      then Err (JsonReply 403 "SignatureDoesNotMatch" signature_message)
      else Ok cred
  end.

Definition admin_query_credential (stores : AuthStores) (now : Z) (r : Request) : outcome Reply Credential :=
  match parse_query_string_auth (query_string r) with
  | Panic => Panic
  | Err _ => Err (JsonReply 403 "AccessDenied" "Access Denied")
  | Ok parsed =>
      if (MAX_PRESIGN_EXPIRES <? pq_expires parsed)%Z then
        Err (JsonReply 403 "AccessDenied" "X-Amz-Expires must be less than a week (604800 seconds)")
      else
        match parse_datetime (pq_request_datetime parsed) with
        | None => Err (JsonReply 403 "AccessDenied" "Invalid date")
        | Some signed_at =>
            if (signed_at + pq_expires parsed * NANOS <? now)%Z
            then Err (JsonReply 403 "AccessDenied" "Request has expired")
            else
              let? cred := admin_active_credential stores (pq_access_key_id parsed) in
              if negb (is_ok (verify_presigned_request (presigned_input r parsed (cr_secret_access_key cred))))
              then Err (JsonReply 403 "SignatureDoesNotMatch" signature_message)
              else Ok cred
        end
  end.

(** [authenticate_request]: the identity and the path that was verified. *)
Definition authenticate_request (stores : AuthStores) (now : Z) (r : Request)
  : outcome Reply (AuthenticatedIdentity * string) :=
  let? credential :=
    match header_str r "authorization" with
    | Some auth_header => admin_header_credential stores now r auth_header
    | None =>
        if contains (query_string r) "X-Amz-Algorithm" then admin_query_credential stores now r
        else Err (JsonReply 403 "AccessDenied" "Access Denied")
    end in
  match find_user stores (cr_user_id credential) with
  | Panic => Panic
  | Err _ => Err (JsonReply 500 "InternalError" "Internal server error")
  | Ok None => Err (JsonReply 403 "AccessDenied" "Access Denied")
  | Ok (Some user) =>
      let identity policies :=
        {| id_credential := credential; id_user := user; id_effective_policies := policies |} in
      if u_is_root user then Ok (identity [], uri_path (original_uri r))
      else
        match effective_policies_of stores (u_user_id user) with
        | Panic => Panic
        | Err _ => Err (JsonReply 500 "InternalError" "Failed to load user policies")
        | Ok policies => Ok (identity policies, uri_path (original_uri r))
        end
  end.

Definition determine_admin_action (path : string) : string :=
  let sub := default path (strip_prefix "/admin/" path) in
  if starts_with sub "users" then "arca:ManageUsers"
  else if starts_with sub "teams" then "arca:ManageTeams"
  else if starts_with sub "grants" then "arca:ManageGrants"
  else if starts_with sub "credentials" then "arca:ManageCredentials"
  else if bool_decide (sub = "info") || bool_decide (sub = "stats") then "arca:ViewServerInfo"
  else if starts_with sub "presign" then "arca:CreatePresignedUrl"
  else if starts_with sub "archive" then "arca:CreateArchive"
  else "arca:*".

Definition admin_access_allowed (identity : AuthenticatedIdentity) (path : string) : bool :=
  if u_is_root (id_user identity) then true
  else is_allow (evaluate_grants (id_effective_policies identity) (determine_admin_action path) "*").

Definition admin_auth_middleware (stores : AuthStores) (now : Z) (r : Request)
  : outcome Reply AuthenticatedIdentity :=
  let? (identity, path) := authenticate_request stores now r in
  if negb (admin_access_allowed identity path) then Err (JsonReply 403 "AccessDenied" "Admin privileges required")
  else Ok identity.

Definition admin_identity_middleware (stores : AuthStores) (now : Z) (r : Request)
  : outcome Reply AuthenticatedIdentity :=
  let? (identity, _) := authenticate_request stores now r in Ok identity.

(** ** Inter-node requests *)

Record ClusterAuthState : Type := {
  ca_node_id : option string;
  ca_secret : option string;
  ca_secret_previous : option string;
  ca_mtls : bool;
}.

Definition CLUSTER_ACCESS_KEY : string := "arca-cluster".
Definition REPLICATION_SOURCE_HEADER : string := "x-amz-arca-replication-source".

(** The first of the secrets that verifies the request. *)
Definition matching_secret (r : Request) (parsed : ParsedAuthorization) (candidates : list string) : option string :=
  List.find (fun candidate => is_ok (verify_request
    {| vi_method := rq_method r; vi_uri_path := uri_path (original_uri r); vi_query_string := query_string r;
       vi_headers := auth_headers r; vi_payload_hash := payload_hash r; vi_auth := parsed;
       vi_secret_access_key := candidate; vi_request_datetime := default EmptyString (header_str r "x-amz-date") |}))
    candidates.

Definition candidate_secrets (state : ClusterAuthState) (secret : string) : list string :=
  secret :: match ca_secret_previous state with
            | Some p => if bool_decide (p = EmptyString) then [] else [p]
            | None => []
            end.

(** The replay window, and the signature under one of the secrets. *)
Definition verify_cluster_signature (state : ClusterAuthState) (secret : string) (now : Z) (r : Request)
    (parsed : ParsedAuthorization) : outcome Reply string :=
  let datetime := default EmptyString (header_str r "x-amz-date") in
  if bool_decide (datetime = EmptyString) then Err (JsonReply 403 "AccessDenied" "missing x-amz-date")
  else if negb (within_replay_window datetime now)
  then Err (JsonReply 403 "AccessDenied" "request time too far from server time (anti-replay window)")
  else
    match matching_secret r parsed (candidate_secrets state secret) with
    | None => Err (JsonReply 403 "SignatureDoesNotMatch" signature_message)
    | Some matched => Ok matched
    end.

(** [cluster_auth_middleware]: the request goes on with the secret that
    verified it. *)
Definition cluster_auth_middleware (state : ClusterAuthState) (now : Z) (r : Request) : outcome Reply string :=
  match ca_node_id state with
  | None => Err (JsonReply 404 "NotFound" "node is not part of a cluster")
  | Some self_node_id =>
      match ca_secret state with
      | Some secret =>
          if bool_decide (secret = EmptyString)
          then Err (JsonReply 403 "AccessDenied" "cluster secret is not configured")
          else if ca_mtls state && negb (rq_peer_cert_verified r) then
            Err (JsonReply 403 "AccessDenied"
              "client certificate signed by the cluster CA is required on cluster endpoints")
          else
            match snd <$> List.find (fun h => bool_decide (h.1 = REPLICATION_SOURCE_HEADER)) (auth_headers r) with
            | None => Err (JsonReply 403 "AccessDenied" "missing cluster source header")
            | Some s =>
                if bool_decide (s = self_node_id)
                then Err (JsonReply 409 "LoopDetected" "request originates from this node")
                else if bool_decide (s = EmptyString)
                then Err (JsonReply 403 "AccessDenied" "missing cluster source header")
                else
                  match header_str r "authorization" with
                  | None => Err (JsonReply 403 "AccessDenied" "missing Authorization header")
                  | Some h =>
                      match parse_authorization h with
                      | Panic => Panic
                      | Err _ => Err (JsonReply 403 "SignatureDoesNotMatch" signature_message)
                      | Ok parsed =>
                          if negb (bool_decide (pa_access_key_id parsed = CLUSTER_ACCESS_KEY)) then
                            Err (JsonReply 403 "InvalidAccessKeyId"
                              "The cluster access key you provided is not recognized.")
                          else verify_cluster_signature state secret now r parsed
                      end
                  end
            end
      | None => Err (JsonReply 403 "AccessDenied" "cluster secret is not configured")
      end
  end.
End admin.
