(* ===== verification/MiddlewareSafety.v ===== *)
(** Who gets past the middlewares, for how long, and what they are authorized
    for.

    - [identities_agree]: the S3, admin and identity middlewares authenticate
      the same requests to the same users, and authorize them as specified.
    - [presigned_url_lifetime]: a presigned URL works until it expires.
    - [replay_bounded]: a captured signed request works for half an hour.
    - [peer_request_accepted]: cluster peers accept each other's requests
      across a rotation of the shared secret. *)
From Stdlib Require Import NArith ZArith Ascii Lia.
From stdpp Require Import base list strings option.
From S2P Require Import Prelude.
From S2P Require Import S3Errors.
From S2P Require Import Policy.
From S2P Require Import Types.
From S2P Require Import Text.
From S2P Require Import Authorize.
From S2P Require Import Sigv4.
From S2P Require Import Sigv4Safety.
From S2P Require Import Middleware.
From S2P Require Import MiddlewareAdmin.
Local Open Scope string_scope.

(** ** What the HTTP libraries document *)

(** The characters of a path, and of a query, that need no escape. *)
Definition plain_char (n : N) : bool := is_unreserved n || (n =? 47)%N.
Definition path_char (n : N) : bool := plain_char n || (n =? 37)%N.
Definition query_char (n : N) : bool := path_char n || (n =? 61)%N || (n =? 38)%N.

Definition printable (n : N) : bool := ((32 <=? n) && (n <=? 126))%N.

Class HttpLibLaws `{HH : !HttpLib} : Prop := {
  to_str_printable s : all_chars printable s = true -> to_str s = Some s;
  parse_uri_plain path query :
    starts_with path "/" = true -> all_chars path_char path = true ->
    from_option (fun q => all_chars query_char q = true) True query ->
    parse_uri (path_and_query path query) = Some {| uri_path := path; uri_query := query; uri_authority := None |};
  parse_datetime_empty : parse_datetime EmptyString = None;
  percent_decode_plain s : all_chars plain_char s = true -> percent_decode s = Some s;
  percent_decode_escape n s :
    (n < 128)%N ->
    percent_decode (String "%" (String (hex_upper (n / 16)) (String (hex_upper (n mod 16)) s))) =
    String (ascii_of_N n) <$> percent_decode s;
}.

(** ** Times *)

Lemma window_iff now t :
  (Z.abs (Z.quot (now - t) NANOS) <=? REPLAY_WINDOW_SECS)%Z = true <-> (Z.abs (now - t) < 901 * NANOS)%Z.
Proof.
  rewrite Z.leb_le, <- Z.quot_abs by done. change (Z.abs NANOS) with NANOS. rewrite Z.quot_div_nonneg by (unfold NANOS; lia).
  unfold NANOS, REPLAY_WINDOW_SECS. split; intros H.
  - apply Z.nle_gt. intros Hle. apply (Z.div_le_mono _ _ 1000000000) in Hle; [|lia].
    rewrite Z.div_mul in Hle by lia. lia.
  - apply Z.lt_succ_r. apply Z.div_lt_upper_bound; lia.
Qed.

(** ** Who is authenticated *)

Section spec.
Context `{HH : !HttpLib, HL : !HttpLibLaws, HS : !SigCrypto}.

Definition registered (stores : AuthStores) (key : string) (cred : Credential) : Prop :=
  find_credential stores key = Ok (Some cred) /\ cr_active cred = true.

(** A fresh signature in the [Authorization] header. *)
Definition header_signed (stores : AuthStores) (now : Z) (r : Request) (cred : Credential) : Prop :=
  exists h auth t,
    header_str r "authorization" = Some h /\ parse_authorization h = Ok auth /\
    registered stores (pa_access_key_id auth) cred /\
    parse_datetime (request_datetime r) = Some t /\ (Z.abs (now - t) < 901 * NANOS)%Z /\
    verify_request (verify_input r auth (cr_secret_access_key cred)) = Ok tt.

(** A presigned URL that has not expired. *)
Definition url_signed (stores : AuthStores) (now : Z) (r : Request) (cred : Credential) : Prop :=
  header_str r "authorization" = None /\ contains (query_string r) "X-Amz-Algorithm" = true /\
  exists auth t,
    parse_query_string_auth (query_string r) = Ok auth /\ (pq_expires auth <= MAX_PRESIGN_EXPIRES)%Z /\
    parse_datetime (pq_request_datetime auth) = Some t /\ (now <= t + pq_expires auth * NANOS)%Z /\
    registered stores (pq_access_key_id auth) cred /\
    verify_presigned_request (presigned_input r auth (cr_secret_access_key cred)) = Ok tt.

(** The user of a credential, with its policies unless it is root. *)
Definition resolves (stores : AuthStores) (id : AuthenticatedIdentity) : Prop :=
  find_user stores (cr_user_id (id_credential id)) = Ok (Some (id_user id)) /\
  (if is_root id then id_effective_policies id = []
   else effective_policies_of stores (u_user_id (id_user id)) = Ok (id_effective_policies id)).

Definition authenticated (stores : AuthStores) (now : Z) (r : Request) (id : AuthenticatedIdentity) : Prop :=
  (header_signed stores now r (id_credential id) \/ url_signed stores now r (id_credential id)) /\ resolves stores id.

Definition permitted (id : AuthenticatedIdentity) (action resource : string) : Prop :=
  is_root id = true \/
  (~ some_statement (id_effective_policies id) action resource Deny /\
   some_statement (id_effective_policies id) action resource Allow).

Lemma is_allow_true id action resource :
  negb (is_root id) && negb (is_allow (evaluate_grants (id_effective_policies id) action resource)) = false <->
  permitted id action resource.
Proof.
  unfold permitted. rewrite <- evaluate_grants_Allow. rewrite andb_false_iff, !negb_false_iff.
  destruct (evaluate_grants _ _ _); cbn; naive_solver.
Qed.

Lemma is_ok_unit {E} (m : outcome E unit) : is_ok m = true <-> m = Ok tt.
Proof. by destruct m as [[]| |]. Qed.

Lemma active_credential_ok stores r key cred :
  active_credential stores r key = Ok cred <-> registered stores key cred.
Proof.
  unfold active_credential, registered. destruct (find_credential stores key) as [[c|]| |]; [|naive_solver..].
  destruct (cr_active c) eqn:E; intuition congruence.
Qed.

Lemma admin_active_credential_ok stores key cred :
  admin_active_credential stores key = Ok cred <-> registered stores key cred.
Proof.
  unfold admin_active_credential, registered. destruct (find_credential stores key) as [[c|]| |]; [|naive_solver..].
  destruct (cr_active c) eqn:E; intuition congruence.
Qed.

(** The checks the two copies share after the credential is found. *)
Lemma header_checks r now auth secret :
  (request_datetime r <> EmptyString /\ within_replay_window (request_datetime r) now = true /\
   is_ok (verify_request (verify_input r auth secret)) = true) <->
  exists t, parse_datetime (request_datetime r) = Some t /\ (Z.abs (now - t) < 901 * NANOS)%Z /\
    verify_request (verify_input r auth secret) = Ok tt.
Proof.
  rewrite is_ok_unit. unfold within_replay_window. split.
  - intros (_ & Hw & Hv). destruct (parse_datetime _) as [t|]; [|done]. exists t. by rewrite <- window_iff.
  - intros (t & Ht & Hw & Hv). rewrite Ht, window_iff. split_and!; [|done..].
    intros E. rewrite E, parse_datetime_empty in Ht. done.
Qed.

Lemma header_credential_ok stores now r h cred :
  header_str r "authorization" = Some h ->
  (exists v, header_credential stores now r h = Ok (cred, v)) <-> header_signed stores now r cred.
Proof.
  intros Hh. unfold header_credential, header_signed. rewrite Hh. split.
  - intros [v Hv]. destruct (parse_authorization h) as [auth| |] eqn:Hp; [|done..].
    apply obind_ok in Hv as (c & Hc%active_credential_ok & Hv).
    case_bool_decide as He; [done|]. destruct (within_replay_window _ _) eqn:Hw; [|done]. cbn [negb] in Hv.
    destruct (is_ok _) eqn:Hk; [|done]. cbn [negb] in Hv. injection Hv as -> _.
    destruct (proj1 (header_checks r now auth (cr_secret_access_key cred)) (conj He (conj Hw Hk))) as (t & ?).
    naive_solver.
  - intros (h' & auth & t & [= <-] & Hp & Hc & Hrest). rewrite Hp.
    destruct (proj2 (header_checks r now auth (cr_secret_access_key cred)) (ex_intro _ t Hrest)) as (He & Hw & Hk).
    rewrite (proj2 (active_credential_ok stores r _ cred) Hc). cbn [obind].
    rewrite bool_decide_eq_false_2, Hw, Hk by done. cbn [negb]. by eexists.
Qed.

Lemma admin_header_credential_ok stores now r h cred :
  header_str r "authorization" = Some h ->
  admin_header_credential stores now r h = Ok cred <-> header_signed stores now r cred.
Proof.
  intros Hh. unfold admin_header_credential, header_signed. rewrite Hh. split.
  - intros Hv. destruct (parse_authorization h) as [auth| |] eqn:Hp; [|done..].
    apply obind_ok in Hv as (c & Hc%admin_active_credential_ok & Hv).
    case_bool_decide as He; [done|]. destruct (within_replay_window _ _) eqn:Hw; [|done]. cbn [negb] in Hv.
    destruct (is_ok _) eqn:Hk; [|done]. cbn [negb] in Hv. injection Hv as ->.
    destruct (proj1 (header_checks r now auth (cr_secret_access_key cred)) (conj He (conj Hw Hk))) as (t & ?).
    naive_solver.
  - intros (h' & auth & t & [= <-] & Hp & Hc & Hrest). rewrite Hp.
    destruct (proj2 (header_checks r now auth (cr_secret_access_key cred)) (ex_intro _ t Hrest)) as (He & Hw & Hk).
    rewrite (proj2 (admin_active_credential_ok stores _ cred) Hc). cbn [obind].
    by rewrite bool_decide_eq_false_2, Hw, Hk.
Qed.

(** The checks of a presigned URL. *)
Definition url_checks (stores : AuthStores) (now : Z) (r : Request) (cred : Credential) : Prop :=
  exists auth t,
    parse_query_string_auth (query_string r) = Ok auth /\ (pq_expires auth <= MAX_PRESIGN_EXPIRES)%Z /\
    parse_datetime (pq_request_datetime auth) = Some t /\ (now <= t + pq_expires auth * NANOS)%Z /\
    registered stores (pq_access_key_id auth) cred /\
    verify_presigned_request (presigned_input r auth (cr_secret_access_key cred)) = Ok tt.

Lemma query_credential_ok stores now r cred :
  query_credential stores now r = Ok cred <-> url_checks stores now r cred.
Proof.
  unfold query_credential, url_checks. split.
  - intros Hv. destruct (parse_query_string_auth _) as [auth| |] eqn:Hp; [|done..].
    destruct (Z.ltb_spec MAX_PRESIGN_EXPIRES (pq_expires auth)); [done|].
    destruct (parse_datetime _) as [t|] eqn:Ht; [|done]. destruct (Z.ltb_spec (t + pq_expires auth * NANOS) now); [done|].
    apply obind_ok in Hv as (c & Hc%active_credential_ok & Hv). destruct (is_ok _) eqn:Hk; [|done].
    apply is_ok_unit in Hk. injection Hv as ->. naive_solver.
  - intros (auth & t & Hp & He & Ht & Hn & Hc & Hk). rewrite Hp, Ht.
    rewrite (proj2 (Z.ltb_ge _ _) He), (proj2 (Z.ltb_ge _ _) Hn).
    rewrite (proj2 (active_credential_ok stores r _ cred) Hc). cbn [obind]. by rewrite Hk.
Qed.

Lemma admin_query_credential_ok stores now r cred :
  admin_query_credential stores now r = Ok cred <-> url_checks stores now r cred.
Proof.
  unfold admin_query_credential, url_checks. split.
  - intros Hv. destruct (parse_query_string_auth _) as [auth| |] eqn:Hp; [|done..].
    destruct (Z.ltb_spec MAX_PRESIGN_EXPIRES (pq_expires auth)); [done|].
    destruct (parse_datetime _) as [t|] eqn:Ht; [|done]. destruct (Z.ltb_spec (t + pq_expires auth * NANOS) now); [done|].
    apply obind_ok in Hv as (c & Hc%admin_active_credential_ok & Hv). destruct (is_ok _) eqn:Hk; [|done].
    apply is_ok_unit in Hk. injection Hv as ->. naive_solver.
  - intros (auth & t & Hp & He & Ht & Hn & Hc & Hk). rewrite Hp, Ht.
    rewrite (proj2 (Z.ltb_ge _ _) He), (proj2 (Z.ltb_ge _ _) Hn).
    rewrite (proj2 (admin_active_credential_ok stores _ cred) Hc). cbn [obind]. by rewrite Hk.
Qed.

Definition signed (stores : AuthStores) (now : Z) (r : Request) (cred : Credential) : Prop :=
  header_signed stores now r cred \/ url_signed stores now r cred.

Lemma header_signed_header stores now r cred :
  header_signed stores now r cred -> header_str r "authorization" <> None.
Proof. intros (h & ? & ? & -> & _). done. Qed.

Lemma credential_branches stores now r cred :
  (exists v, match header_str r "authorization" with
             | Some h => header_credential stores now r h
             | None => if contains (query_string r) "X-Amz-Algorithm"
                       then obind (query_credential stores now r) (fun c => Ok (c, None))
                       else Err (deny AccessDenied r)
             end = Ok (cred, v)) <-> signed stores now r cred.
Proof.
  unfold signed, url_signed. destruct (header_str r "authorization") as [h|] eqn:Hh.
  - rewrite header_credential_ok by done. naive_solver.
  - destruct (contains _ _) eqn:Hc.
    + fold (url_checks stores now r cred). rewrite <- query_credential_ok. split.
      * intros [v Hv]. apply obind_ok in Hv as (c & Hq & [= -> <-]). by right.
      * intros [Hs%header_signed_header|(_ & _ & Hq)]; [done|]. rewrite Hq. by eexists.
    + split; [by intros [v Hv]|]. intros [Hs%header_signed_header|(_ & ? & _)]; done.
Qed.

Lemma admin_branches stores now r cred :
  match header_str r "authorization" with
  | Some h => admin_header_credential stores now r h
  | None => if contains (query_string r) "X-Amz-Algorithm" then admin_query_credential stores now r
            else Err (JsonReply 403 "AccessDenied" "Access Denied")
  end = Ok cred <-> signed stores now r cred.
Proof.
  unfold signed, url_signed. destruct (header_str r "authorization") as [h|] eqn:Hh.
  - rewrite admin_header_credential_ok by done. naive_solver.
  - destruct (contains _ _) eqn:Hc.
    + fold (url_checks stores now r cred). rewrite admin_query_credential_ok. split; [naive_solver|].
      intros [Hs%header_signed_header|(_ & _ & Hq)]; done.
    + split; [done|]. intros [Hs%header_signed_header|(_ & ? & _)]; done.
Qed.

Lemma resolve_identity_ok stores cred id :
  resolve_identity stores cred = Ok (Some id) <-> id_credential id = cred /\ resolves stores id.
Proof.
  unfold resolve_identity, resolves, is_root. split.
  - destruct (find_user _ _) as [[u|]| |] eqn:Hu; [|done..]. destruct (u_is_root u) eqn:Hr.
    + intros [= <-]. cbn. by rewrite Hr.
    + destruct (effective_policies_of _ _) as [ps| |] eqn:Hp; [|done..]. intros [= <-]. cbn. by rewrite Hr.
  - intros (<- & -> & Hp). destruct id as [c u ps]; cbn in *. destruct (u_is_root u); [by rewrite Hp|by rewrite Hp].
Qed.

Lemma authenticated_signed stores now r id :
  authenticated stores now r id <-> signed stores now r (id_credential id) /\ resolves stores id.
Proof. done. Qed.

Lemma authenticate_request_ok stores now r id path :
  authenticate_request stores now r = Ok (id, path) <->
  authenticated stores now r id /\ path = uri_path (original_uri r).
Proof.
  rewrite authenticated_signed. unfold authenticate_request. rewrite obind_ok. split.
  - intros (cred & Hc%admin_branches & Hv).
    assert (resolve_identity stores cred = Ok (Some id) /\ path = uri_path (original_uri r))
      as [[<- Hres]%resolve_identity_ok ->]; [|done].
    unfold resolve_identity. destruct (find_user _ _) as [[u|]| |]; [|done..].
    destruct (u_is_root u); [by injection Hv as <- <-|].
    destruct (effective_policies_of _ _) as [ps| |]; [by injection Hv as <- <-|done..].
  - intros [[Hs Hres] ->]. exists (id_credential id). split; [by apply admin_branches|].
    destruct Hres as [-> Hp]. unfold is_root in Hp. destruct id as [c u ps]; cbn in *.
    destruct (u_is_root u); by rewrite Hp.
Qed.

Lemma admin_identity_ok stores now r id :
  admin_identity_middleware stores now r = Ok id <-> authenticated stores now r id.
Proof.
  unfold admin_identity_middleware. rewrite obind_ok. split.
  - intros ([id' path] & [Ha _]%authenticate_request_ok & [= <-]). done.
  - intros Ha. eexists (id, _). by rewrite authenticate_request_ok.
Qed.

Lemma admin_auth_ok stores now r id :
  admin_auth_middleware stores now r = Ok id <->
  authenticated stores now r id /\ permitted id (determine_admin_action (uri_path (original_uri r))) "*".
Proof.
  unfold admin_auth_middleware, admin_access_allowed. rewrite obind_ok. split.
  - intros ([id' path] & [Ha ->]%authenticate_request_ok & Hv).
    destruct (negb _) eqn:E; [done|]. injection Hv as <-. split; [done|]. apply is_allow_true.
    unfold is_root. by destruct (u_is_root (id_user id')).
  - intros [Ha Hp%is_allow_true]. eexists (id, _). rewrite authenticate_request_ok. split; [done|].
    unfold is_root in Hp. destruct (u_is_root (id_user id)); [done|]. cbn [negb andb] in Hp. by rewrite Hp.
Qed.

(** The action and resource an S3 request is authorized for. *)
Definition s3_check (r : Request) : string * string :=
  determine_s3_action_resource (rq_method r) (uri_path (original_uri r)) (query_string r).

Lemma auth_middleware_ok stores now r id :
  (exists v, auth_middleware stores now r = Ok {| ps_identity := id; ps_chunk_verifier := v |}) <->
  authenticated stores now r id /\ permitted id (s3_check r).1 (s3_check r).2.
Proof.
  rewrite authenticated_signed. unfold auth_middleware, s3_check.
  destruct (determine_s3_action_resource _ _ _) as [action resource]. cbn [fst snd]. rewrite <- is_allow_true. split.
  - intros [v Hv]. apply obind_ok in Hv as ([cred v'] & Hc & Hv).
    assert (signed stores now r cred) as Hs by (apply credential_branches; by exists v').
    destruct (resolve_identity stores cred) as [[id'|]| |] eqn:Hres; [|done..].
    apply resolve_identity_ok in Hres as [<- Hres].
    destruct (_ && _) eqn:E; [done|]. injection Hv as <- _. done.
  - intros [[Hs Hres] Hp]. destruct (proj2 (credential_branches stores now r _) Hs) as [v Hv]. exists v.
    rewrite Hv. cbn [obind]. rewrite (proj2 (resolve_identity_ok stores (id_credential id) id)) by done. by rewrite Hp.
Qed.

(** C24. The three copies of the SigV4 check agree. A request is authenticated
    as a user exactly when an active credential of an existing user verifies
    its [Authorization] header, dated within 15 minutes (up to a second more)
    of the clock, or, without that header, verifies a presigned URL of at most
    a week that has not expired. The identity middleware passes exactly these
    requests; the admin middleware those of them whose user is root or is
    allowed the path's admin action; the S3 middleware those whose user is
    root or is allowed the action on the resource read off the request. A
    missing user, an inactive key or a failing store never passes. *)
Theorem identities_agree stores now r id :
  (admin_identity_middleware stores now r = Ok id <-> authenticated stores now r id) /\
  (admin_auth_middleware stores now r = Ok id <->
     authenticated stores now r id /\ permitted id (determine_admin_action (uri_path (original_uri r))) "*") /\
  ((exists v, auth_middleware stores now r = Ok {| ps_identity := id; ps_chunk_verifier := v |}) <->
     authenticated stores now r id /\ permitted id (s3_check r).1 (s3_check r).2).
Proof. split_and!; [apply admin_identity_ok|apply admin_auth_ok|apply auth_middleware_ok]. Qed.
End spec.

(** ** Presigned URLs *)

Lemma contains_app_l s t p : contains s p = true -> contains (s +:+ t) p = true.
Proof.
  induction s as [|a s IH].
  - cbn. rewrite orb_false_r. intros [r E]%starts_with_spec. destruct p; [|done]. by destruct t.
  - change (String a s +:+ t) with (String a (s +:+ t)). cbn [contains]. intros [H|H]%orb_true_iff; apply orb_true_iff.
    + left. apply starts_with_spec in H as [r E]. apply starts_with_spec. exists (r +:+ t)%string.
      change (String a (s +:+ t)) with (String a s +:+ t)%string. by rewrite E, string_app_assoc.
    + right. by apply IH.
Qed.

Lemma contains_app_r s t p : contains t p = true -> contains (s +:+ t) p = true.
Proof.
  intros H. induction s as [|a s IH]; [done|]. change (String a s +:+ t) with (String a (s +:+ t)). cbn [contains].
  by rewrite IH, orb_true_r.
Qed.

Lemma contains_join sep x l p : x ∈ l -> contains x p = true -> contains (join sep l) p = true.
Proof.
  intros Hx Hp. unfold join. induction l as [|y l IH]; [by apply elem_of_nil in Hx|].
  apply elem_of_cons in Hx as [<-|Hx]; destruct l as [|z l].
  - done.
  - change (String.concat sep (x :: z :: l)) with (x +:+ sep +:+ String.concat sep (z :: l))%string. by apply contains_app_l.
  - by apply elem_of_nil in Hx.
  - change (String.concat sep (y :: z :: l)) with (y +:+ sep +:+ String.concat sep (z :: l))%string.
    by apply contains_app_r, contains_app_r, IH.
Qed.

Lemma presigned_query_marked `{!SigCrypto} method host path extra key secret region expires datetime query :
  generate_presigned_url method host path extra key secret region expires datetime = Ok query ->
  contains query "X-Amz-Algorithm" = true.
Proof.
  unfold generate_presigned_url. intros (date & _ & [= <-])%obind_ok. apply contains_app_l. unfold join_pairs.
  apply (contains_join _ (format_pair (encode_pair ("X-Amz-Algorithm", "AWS4-HMAC-SHA256")))); [|done].
  apply list_elem_of_fmap_2. rewrite sort_by_permutation. by left.
Qed.

Section lifetime.
Context `{HH : !HttpLib, HL : !HttpLibLaws, HS : !SigCrypto, HC : !SigCryptoLaws}.

(** A presigned URL works until it expires: when [generate_presigned_url]
    made the query string of a request for the request's own method and path,
    with the secret of an active credential, and the host is the signed one,
    then the S3 middleware lets the request through as the credential's user
    exactly while the clock has not passed the signing time plus the lifetime,
    and never if the lifetime is over a week - provided the user may do what
    the request asks. *)
Theorem presigned_url_lifetime stores now r id host extra key region expires datetime date t query :
  slice_to 8 datetime = Ok date -> is_ascii key = true -> is_ascii region = true -> is_ascii datetime = true ->
  Forall (fun s => free_of "/"%char s = true) [key; date; region] ->
  (0 <= expires < 2 ^ 64)%Z ->
  Forall (fun p => p.1 ∉ reserved_names) extra -> Forall (fun p => valid_text p.1 /\ valid_text p.2) extra ->
  generate_presigned_url (rq_method r) host (uri_path (original_uri r)) extra key
    (cr_secret_access_key (id_credential id)) region expires datetime = Ok query ->
  query_string r = query -> header_str r "authorization" = None ->
  selected_headers (auth_headers r) "host" = selected_headers [("host", host)] "host" ->
  registered stores key (id_credential id) -> resolves stores id -> permitted id (s3_check r).1 (s3_check r).2 ->
  parse_datetime datetime = Some t ->
  (exists v, auth_middleware stores now r = Ok {| ps_identity := id; ps_chunk_verifier := v |}) <->
  (expires <= MAX_PRESIGN_EXPIRES)%Z /\ (now <= t + expires * NANOS)%Z.
Proof.
  intros Hdate Hk Hr Hdt Hfree He Hx Hxv Hgen Hq Hno Hhost Hreg Hres Hperm Ht.
  assert (datetime <> EmptyString) as Hne by (intros ->; by rewrite parse_datetime_empty in Ht).
  destruct (presigned_url_accepted (rq_method r) host (uri_path (original_uri r)) extra key
    (cr_secret_access_key (id_credential id)) region expires datetime date (auth_headers r))
    as (query' & auth & Hgen' & Hparse & Hkey & Hexp & Hdate' & Hv); [done..|].
  rewrite Hgen in Hgen'. injection Hgen' as <-. rewrite auth_middleware_ok. split.
  - intros [[[Hs%header_signed_header|(_ & _ & auth' & t' & Hp & Hle & Ht' & Hn & _)] _] _]; [done|].
    rewrite Hq, Hparse in Hp. injection Hp as <-. rewrite Hdate', Ht in Ht'. injection Ht' as <-. by rewrite Hexp in *.
  - intros [Hle Hn]. split; [|done]. split; [|done]. right. split; [done|].
    rewrite Hq. split; [by eapply presigned_query_marked|]. exists auth, t. rewrite Hexp, Hdate', Hkey.
    split_and!; try done. unfold presigned_input. by rewrite Hq.
Qed.

(** ** Replay *)

Lemma header_request_verified stores now r p h auth :
  auth_middleware stores now r = Ok p -> header_str r "authorization" = Some h -> parse_authorization h = Ok auth ->
  exists t, parse_datetime (request_datetime r) = Some t /\ (Z.abs (now - t) < 901 * NANOS)%Z /\
    verify_request (verify_input r auth (cr_secret_access_key (id_credential (ps_identity p)))) = Ok tt.
Proof.
  intros Hp Hh Ha. destruct p as [id v].
  destruct (proj1 (auth_middleware_ok stores now r id) (ex_intro _ v Hp)) as [[[Hs|[Hs _]] _] _]; [|by rewrite Hs in Hh].
  destruct Hs as (h' & auth' & t & Hh' & Ha' & _ & Hrest). rewrite Hh in Hh'. injection Hh' as <-.
  rewrite Ha in Ha'. injection Ha' as <-. by exists t.
Qed.

(** C11. A captured header-signed request cannot be replayed for long. When the
    S3 middleware accepts two requests with the same signature under the same
    signing key, at two times, the times are less than 30 minutes (and two
    seconds) apart and the requests agree on everything that is signed, or the
    requests exhibit a collision of SHA-256 or HMAC-SHA256.  The parts of the
    requests that are signed as lines hold no line break.  Presigned URLs, which
    have no [Authorization] header, are not covered. *)
Theorem replay_bounded stores now now' r r' p p' h h' auth auth' :
  auth_middleware stores now r = Ok p -> auth_middleware stores now' r' = Ok p' ->
  header_str r "authorization" = Some h -> header_str r' "authorization" = Some h' ->
  parse_authorization h = Ok auth -> parse_authorization h' = Ok auth' -> pa_signature auth = pa_signature auth' ->
  let i := verify_input r auth (cr_secret_access_key (id_credential (ps_identity p))) in
  let j := verify_input r' auth' (cr_secret_access_key (id_credential (ps_identity p'))) in
  key_of i = key_of j -> one_line i -> one_line j ->
  ((Z.abs (now - now') < 1802 * NANOS)%Z /\ covered i = covered j) \/
  (canonical_of i <> canonical_of j /\ sha256_of (canonical_of i) = sha256_of (canonical_of j)) \/
  (to_sign i <> to_sign j /\ hmac (key_of i) (to_sign i) = hmac (key_of i) (to_sign j)).
Proof.
  intros Hp Hp' Hh Hh' Ha Ha' Hsig i j Hkey Hi Hj.
  destruct (header_request_verified _ _ _ _ _ _ Hp Hh Ha) as (t & Ht & Hw & Hv). destruct (header_request_verified _ _ _ _ _ _ Hp' Hh' Ha') as (t' & Ht' & Hw' & Hv').
  destruct (one_signature_one_request i j) as [Hc|Hc]; [done..| |by right]. left. split; [|done].
  assert (request_datetime r = request_datetime r') as E by (by injection Hc). rewrite E, Ht' in Ht. injection Ht as ->. lia.
Qed.

(** ** Cluster peers *)

Definition source_of (r : Request) : option string :=
  snd <$> List.find (fun h => bool_decide (h.1 = REPLICATION_SOURCE_HEADER)) (auth_headers r).

(** The request is the one that was signed. *)
Definition carries (r : Request) (i : SignOutboundInput) : Prop :=
  rq_method r = so_method i /\ uri_path (original_uri r) = so_uri_path i /\ query_string r = so_query_string i /\
  payload_hash r = so_payload_hash i /\ header_str r "x-amz-date" = Some (so_request_datetime i) /\
  Forall (fun n => selected_headers (auth_headers r) n = selected_headers (so_headers i) n) (outbound_names (so_headers i)).

Definition cluster_input (r : Request) (parsed : ParsedAuthorization) (secret : string) : VerifyInput :=
  {| vi_method := rq_method r; vi_uri_path := uri_path (original_uri r); vi_query_string := query_string r;
     vi_headers := auth_headers r; vi_payload_hash := payload_hash r; vi_auth := parsed;
     vi_secret_access_key := secret; vi_request_datetime := default EmptyString (header_str r "x-amz-date") |}.

(** Peers accept each other's requests across a rotation of the cluster
    secret: a request that a peer signed with [sign_outbound_request], under
    the receiver's current secret or its previous one, passes the receiver's
    middleware while its date is within the replay window, if it names another
    node as its source and, with inter-node mTLS, its connection showed a
    client certificate. The secret handed to the handler is one of the two and
    verifies the request. The same request is refused on the node it names as
    its source. *)
Theorem peer_request_accepted state now r i date t self secret source h :
  ca_node_id state = Some self -> ca_secret state = Some secret -> secret <> EmptyString ->
  implb (ca_mtls state) (rq_peer_cert_verified r) = true -> source_of r = Some source -> source <> EmptyString ->
  so_access_key_id i = CLUSTER_ACCESS_KEY -> so_secret_access_key i ∈ candidate_secrets state secret ->
  slice_to 8 (so_request_datetime i) = Ok date ->
  Forall (fun s => token s = true) [date; so_region i; so_service i] ->
  so_headers i <> [] -> Forall (fun h => token h.1 = true) (so_headers i) ->
  sign_outbound_request i = Ok h -> header_str r "authorization" = Some h -> carries r i ->
  parse_datetime (so_request_datetime i) = Some t -> (Z.abs (now - t) < 901 * NANOS)%Z ->
  if bool_decide (source = self) then
    cluster_auth_middleware state now r = Err (JsonReply 409 "LoopDetected" "request originates from this node")
  else
    exists parsed matched,
      parse_authorization h = Ok parsed /\ cluster_auth_middleware state now r = Ok matched /\
      matched ∈ candidate_secrets state secret /\ verify_request (cluster_input r parsed matched) = Ok tt.
Proof.
  intros Hself Hsec Hne Hmtls Hsrc Hsne Hkey Hin Hdate Htok Hhne Hh Hsign Hauth Hcar Ht Hw.
  destruct Hcar as (Hm & Hp & Hq & Hph & Hd & Hsel).
  destruct (outbound_signature_accepted i date (auth_headers r)) as (h' & parsed & Hs & Hpa & Hk & _ & Hv);
    [done|by rewrite Forall_cons, Hkey|done..|].
  rewrite Hsign in Hs. injection Hs as <-. unfold cluster_auth_middleware. rewrite Hself, Hsec.
  rewrite (bool_decide_eq_false_2 (secret = _)) by done.
  assert (ca_mtls state && negb (rq_peer_cert_verified r) = false) as ->.
  { by destruct (ca_mtls state), (rq_peer_cert_verified r). }
  fold (source_of r). rewrite Hsrc. destruct (bool_decide (source = self)); [done|].
  rewrite (bool_decide_eq_false_2 (source = _)) by done.
  rewrite Hauth, Hpa, Hk, bool_decide_eq_true_2 by done. cbn [negb]. unfold verify_cluster_signature. rewrite Hd.
  change (default EmptyString (Some (so_request_datetime i))) with (so_request_datetime i).
  assert (so_request_datetime i <> EmptyString) as Hdne by (intros E; by rewrite E, parse_datetime_empty in Ht).
  rewrite bool_decide_eq_false_2 by done.
  assert (within_replay_window (so_request_datetime i) now = true) as ->.
  { unfold within_replay_window. by rewrite Ht, window_iff. }
  cbn [negb]. exists parsed.
  assert (is_ok (verify_request (cluster_input r parsed (so_secret_access_key i))) = true) as Hok.
  { apply is_ok_unit. unfold cluster_input. by rewrite Hm, Hp, Hq, Hph, Hd. }
  destruct (matching_secret r parsed (candidate_secrets state secret)) as [matched|] eqn:Hf.
  - exists matched. apply List.find_some in Hf as [Hmem%list_elem_of_In Hver]. by apply is_ok_unit in Hver.
  - exfalso. unfold matching_secret in Hf. eapply List.find_none in Hf; [|by apply list_elem_of_In].
    fold (cluster_input r parsed (so_secret_access_key i)) in Hf. congruence.
Qed.
End lifetime.
