(* ===== verification/MiddlewareRoutes.v ===== *)
(** The resource a request is authorized for, against the one its handler
    gets.

    The middleware reads bucket and key off the URI the client sent; the
    router reads them off the URI after the rewrite of [normalize.rs], and
    decodes them. [path_style_authorized] shows that the two agree on plain
    path-style requests, [virtual_host_confusion] and [escaped_key_confusion]
    that they do not on virtual-hosted requests and on escaped keys, and
    [http2_host_dropped] that the rewrite also loses the host of an HTTP/2
    request. *)
From Stdlib Require Import NArith ZArith Ascii Lia.
From stdpp Require Import base list strings option.
From S2P Require Import Prelude.
From S2P Require Import S3Errors.
From S2P Require Import Policy.
From S2P Require Import Types.
From S2P Require Import Text.
From S2P Require Import Authorize.
From S2P Require Import Sigv4.
From S2P Require Import Sigv4Safety.
From S2P Require Import Middleware.
From S2P Require Import MiddlewareSafety.
Local Open Scope string_scope.

(** ** Strings *)

Lemma substring_app a b : String.substring 0 (String.length a) (a +:+ b) = a.
Proof.
  induction a as [|x a IH]; [by destruct b|]. change (String x a +:+ b)%string with (String x (a +:+ b)).
  cbn [String.length String.substring]. by rewrite IH.
Qed.

Lemma strip_suffix_Some p s a : strip_suffix p s = Some a -> s = (a +:+ p)%string.
Proof.
  revert a. induction s as [|x s IH]; intros a; cbn [strip_suffix]; case_bool_decide as E; [by intros [= <-]|done|by intros [= <-]|].
  destruct (strip_suffix p s) as [b|]; [|done]. intros [= <-]. by rewrite (IH b).
Qed.

Lemma contains_char s c : contains s (String c EmptyString) = negb (free_of c s).
Proof.
  induction s as [|a s IH]; [done|]. cbn [contains free_of]. rewrite IH. unfold starts_with. cbn [strip_prefix].
  destruct (decide (c = a)) as [->|Hne].
  - by rewrite !bool_decide_eq_true_2.
  - by rewrite !bool_decide_eq_false_2.
Qed.

Lemma count_free c s : count_char c s = 0 <-> free_of c s = true.
Proof.
  induction s as [|a s IH]; [done|]. cbn [count_char free_of]. destruct (bool_decide (a = c)); [done|]. exact IH.
Qed.

Lemma split_once_None c s : split_once c s = None <-> free_of c s = true.
Proof.
  induction s as [|a s IH]; [done|]. cbn [split_once free_of]. destruct (bool_decide (a = c)); [done|].
  cbn [negb andb]. rewrite <- IH. destruct (split_once c s) as [[x y]|]; done.
Qed.

Lemma split_once_Some c s x y :
  split_once c s = Some (x, y) <-> s = (x +:+ String c y)%string /\ free_of c x = true.
Proof.
  revert x. induction s as [|a s IH]; intros x; cbn [split_once].
  - split; [done|]. intros [E _]. by destruct x.
  - case_bool_decide as Ha.
    + subst a. split; [by intros [= <- <-]|]. intros [E Hx]. destruct x as [|b x]; [by injection E as ->|].
      injection E as <- _. cbn [free_of] in Hx. by rewrite bool_decide_eq_true_2 in Hx.
    + destruct (split_once c s) as [[x' y']|] eqn:E.
      * cbn. split.
        -- intros [= <- <-]. destruct (proj1 (IH x') eq_refl) as [-> Hx]. cbn [free_of]. by rewrite bool_decide_eq_false_2.
        -- intros [Es Hx]. destruct x as [|b x]; [by injection Es as ->|]. injection Es as <- Es. cbn [free_of] in Hx.
           rewrite bool_decide_eq_false_2 in Hx by done. by pose proof (proj2 (IH x) (conj Es Hx)) as [= -> ->].
      * split; [done|]. intros [Es Hx]. destruct x as [|b x]; [by injection Es as ->|]. injection Es as <- Es.
        cbn [free_of] in Hx. rewrite bool_decide_eq_false_2 in Hx by done. by discriminate (proj2 (IH x) (conj Es Hx)).
Qed.

(** The inside of a path between its first and its last slash. *)
Lemma inside_slashes q : String.substring 1 (String.length ("/" +:+ q +:+ "/") - 2) ("/" +:+ q +:+ "/") = q.
Proof.
  change ("/" +:+ q +:+ "/")%string with (String "/" (q +:+ "/")). cbn [String.length].
  rewrite string_length_app. cbn [String.length String.substring].
  replace (S (String.length q + 1) - 2) with (String.length q) by lia. apply substring_app.
Qed.

Lemma before_last_slash q : String.substring 0 (String.length (q +:+ "/") - 1) (q +:+ "/") = q.
Proof. rewrite string_length_app. cbn [String.length]. rewrite Nat.add_sub. apply substring_app. Qed.

(** ** The URI a router sees *)

Section routes.
Context `{HH : !HttpLib, HL : !HttpLibLaws, HS : !SigCrypto}.

Definition plain_query (q : option string) : Prop := from_option (fun q => all_chars query_char q = true) True q.

(** The bucket a host addresses. *)
Definition addressed_bucket (domain : option string) (r : Request) : option string :=
  d ← domain;
  h ← match header_str r "host" with Some h => Some h | None => uri_authority (rq_uri r) end;
  bucket_for_host h d.

Lemma plain_path_char s : all_chars plain_char s = true -> all_chars path_char s = true.
Proof. apply all_chars_impl. unfold path_char. by intros n ->. Qed.

(** What stripping a trailing slash does to a plain path. *)
Lemma strip_bucket_slash_path r rest :
  uri_path (rq_uri r) = ("/" +:+ rest)%string -> all_chars path_char rest = true -> plain_query (uri_query (rq_uri r)) ->
  uri_path (rq_uri (strip_bucket_slash r)) =
  match strip_suffix "/" rest with
  | Some b => if free_of "/" b then ("/" +:+ b)%string else ("/" +:+ rest)%string
  | None => ("/" +:+ rest)%string
  end.
Proof.
  intros Hp Hc Hq. unfold strip_bucket_slash. rewrite Hp.
  destruct (ends_with rest "/") eqn:He.
  - apply ends_with_spec in He as [b ->]. rewrite strip_suffix_app.
    assert ((1 <? String.length ("/" +:+ b +:+ "/"))%nat && ends_with ("/" +:+ b +:+ "/") "/" = true) as ->.
    { apply andb_true_iff. split; [|apply ends_with_spec; by exists ("/" +:+ b)%string].
      apply Nat.ltb_lt. rewrite !string_length_app. cbn. lia. }
    rewrite inside_slashes. destruct (free_of "/" b) eqn:Hf.
    + rewrite (proj2 (count_free _ _) Hf). cbn [Nat.add Nat.leb].
      change ("/" +:+ b +:+ "/")%string with (("/" +:+ b) +:+ "/")%string. rewrite before_last_slash.
      rewrite parse_uri_plain; [done|done| |done]. rewrite all_chars_app in Hc. apply andb_true_iff in Hc as [Hb _].
      by rewrite all_chars_app, Hb.
    + destruct (Nat.leb_spec (count_char "/"%char b + 1) 1) as [Hle|]; [|done].
      assert (count_char "/"%char b = 0) as H0%count_free by lia. congruence.
  - assert (strip_suffix "/" rest = None) as ->.
    { destruct (strip_suffix "/" rest) as [b|] eqn:E; [|done]. exfalso. apply strip_suffix_Some in E.
      assert (ends_with rest "/" = true) by (apply ends_with_spec; by exists b). congruence. }
    destruct rest as [|a rest]; [exact Hp|].
    assert (ends_with ("/" +:+ String a rest) "/" = false) as ->; [|by rewrite andb_false_r].
    change ("/" +:+ String a rest)%string with (String "/" (String a rest)). cbn [ends_with].
    rewrite bool_decide_eq_false_2 by done. exact He.
Qed.

Lemma normalize_path_style domain r rest :
  addressed_bucket domain r = None ->
  uri_path (rq_uri r) = ("/" +:+ rest)%string -> all_chars path_char rest = true -> plain_query (uri_query (rq_uri r)) ->
  rq_method (normalize domain r) = rq_method r /\ original_uri (normalize domain r) = rq_uri r /\
  uri_path (rq_uri (normalize domain r)) =
  match strip_suffix "/" rest with
  | Some b => if free_of "/" b then ("/" +:+ b)%string else ("/" +:+ rest)%string
  | None => ("/" +:+ rest)%string
  end.
Proof.
  intros Hb Hp Hc Hq. unfold normalize.
  set (r0 := {| rq_method := rq_method r; rq_uri := rq_uri r; rq_headers := rq_headers r;
                rq_original_uri := Some (rq_uri r); rq_peer_cert_verified := rq_peer_cert_verified r |}).
  assert (match domain with Some d => rewrite_virtual_host r0 d | None => r0 end = r0) as ->.
  { destruct domain as [d|]; [|done]. unfold rewrite_virtual_host. unfold addressed_bucket in Hb. cbn [mbind option_bind] in Hb.
    change (header_str r0 "host") with (header_str r "host"). change (rq_uri r0) with (rq_uri r). by rewrite Hb. }
  split_and!; [| |by apply (strip_bucket_slash_path r0)].
  - unfold strip_bucket_slash. by repeat case_match.
  - unfold strip_bucket_slash. by repeat case_match.
Qed.

(** ** Plain path-style requests *)

(** The action an object request needs. *)
Definition object_action (method : string) : string :=
  if bool_decide (method ∈ ["PUT"; "POST"]) then "s3:PutObject"
  else if bool_decide (method = "DELETE") then "s3:DeleteObject"
  else "s3:GetObject".

Lemma check_object method b k query :
  free_of "/" b = true -> b <> EmptyString -> k <> EmptyString ->
  determine_s3_action_resource method ("/" +:+ b +:+ String "/" k) query = (object_action method, object_arn b k).
Proof.
  intros Hb Hne Hk. unfold determine_s3_action_resource.
  rewrite (proj2 (strip_prefix_Some "/" _ (b +:+ String "/" k))) by done. cbn [from_option id].
  rewrite (proj2 (split_once_Some "/" (b +:+ String "/" k) b k)) by done.
  rewrite (bool_decide_eq_false_2 (b = _)) by done. rewrite (bool_decide_eq_false_2 (k = _)) by done. cbn [negb].
  f_equal. unfold object_action. repeat case_bool_decide; subst; cbn in *; try done; set_solver.
Qed.

Lemma check_bucket method b k query :
  free_of "/" b = true -> b <> EmptyString -> k = EmptyString \/ k = "/" ->
  (determine_s3_action_resource method ("/" +:+ b +:+ k) query).2 = bucket_arn b.
Proof.
  intros Hb Hne Hk. unfold determine_s3_action_resource.
  rewrite (proj2 (strip_prefix_Some "/" _ (b +:+ k))) by done. cbn [from_option id].
  destruct Hk as [->| ->].
  - rewrite string_app_empty, (proj2 (split_once_None "/" b)) by done. by rewrite (bool_decide_eq_false_2 (b = _)).
  - rewrite (proj2 (split_once_Some "/" (b +:+ "/") b EmptyString)) by done.
    by rewrite (bool_decide_eq_false_2 (b = _)).
Qed.

Lemma plain_app_l s t : all_chars plain_char (s +:+ t) = true -> all_chars plain_char s = true.
Proof. rewrite all_chars_app. by intros [? _]%andb_true_iff. Qed.

Lemma plain_app_r s t : all_chars plain_char (s +:+ t) = true -> all_chars plain_char t = true.
Proof. rewrite all_chars_app. by intros [_ ?]%andb_true_iff. Qed.

Lemma route_object b k :
  free_of "/" b = true -> b <> EmptyString -> k <> EmptyString -> all_chars plain_char b = true ->
  s3_route ("/" +:+ b +:+ String "/" k) = from_option (RouteObject b) RouteNone (percent_decode k).
Proof.
  intros Hb Hne Hk Hp. unfold s3_route. rewrite (proj2 (strip_prefix_Some "/" _ (b +:+ String "/" k))) by done.
  destruct (b +:+ String "/" k)%string as [|a rest] eqn:E; [by destruct b|]. rewrite <- E.
  rewrite (proj2 (split_once_Some "/" (b +:+ String "/" k) b k)) by done.
  rewrite (bool_decide_eq_false_2 (b = _)), (bool_decide_eq_false_2 (k = _)) by done. cbn [orb].
  rewrite percent_decode_plain by done. by destruct (percent_decode k).
Qed.

Lemma route_bucket b :
  free_of "/" b = true -> b <> EmptyString -> all_chars plain_char b = true -> s3_route ("/" +:+ b) = RouteBucket b.
Proof.
  intros Hb Hne Hp. unfold s3_route. rewrite (proj2 (strip_prefix_Some "/" _ b)) by done.
  destruct b as [|a b]; [done|]. rewrite (proj2 (split_once_None "/" (String a b))) by done.
  by rewrite percent_decode_plain.
Qed.

(** A plain path-style request is authorized for what its handler does:
    when the host addresses no bucket and the path has no escapes, the router
    gives the handler the very bucket, or bucket and key, that the S3
    middleware puts in the resource it evaluates policies for - also with a
    trailing slash, after a bucket or in a key - and for objects the action is
    the one of the method. *)
Theorem path_style_authorized domain r :
  addressed_bucket domain r = None -> starts_with (uri_path (rq_uri r)) "/" = true ->
  all_chars plain_char (uri_path (rq_uri r)) = true -> plain_query (uri_query (rq_uri r)) ->
  let n := normalize domain r in
  match s3_route (uri_path (rq_uri n)) with
  | RouteService => s3_check n = ("s3:ListAllMyBuckets", "*")
  | RouteBucket b => (s3_check n).2 = bucket_arn b
  | RouteObject b k => s3_check n = (object_action (rq_method r), object_arn b k)
  | RouteNone => True
  end.
Proof.
  intros Hb [rest Hp]%starts_with_spec Hc Hq n. rewrite Hp in Hc. apply plain_app_r in Hc as Hr.
  destruct (normalize_path_style domain r rest) as (Hm & Ho & Hn); [done|done|by apply plain_path_char|done|].
  unfold s3_check. fold n in Hm, Ho, Hn. rewrite Hm, Ho, Hp.
  destruct (split_once "/" rest) as [[b k]|] eqn:E.
  - apply split_once_Some in E as [-> Hf]. destruct (decide (k = EmptyString)) as [->|Hk].
    + rewrite (strip_suffix_app "/" b), Hf in Hn. rewrite Hn.
      destruct (decide (b = EmptyString)) as [->|Hne]; [done|].
      rewrite route_bucket by (done || by eapply plain_app_l). apply check_bucket; [done|done|by right].
    + assert (uri_path (rq_uri n) = ("/" +:+ b +:+ String "/" k)%string) as ->.
      { rewrite Hn. destruct (strip_suffix "/" (b +:+ String "/" k)) as [b'|] eqn:E; [|done].
        destruct (free_of "/" b') eqn:Hf'; [|done]. apply strip_suffix_Some in E.
        by destruct (first_sep "/" b b' k EmptyString Hf Hf' E) as [_ ->]. }
      destruct (decide (b = EmptyString)) as [->|Hne]; [done|].
      rewrite route_object by (done || by eapply plain_app_l).
      rewrite percent_decode_plain; [|apply plain_app_r in Hr; by apply (plain_app_r "/" k)]. by apply check_object.
  - apply split_once_None in E. assert (strip_suffix "/" rest = None) as Hs.
    { destruct (strip_suffix "/" rest) as [b|] eqn:Es; [|done]. apply strip_suffix_Some in Es. subst rest.
      by rewrite free_of_app, andb_false_r in E. }
    rewrite Hs in Hn. rewrite Hn. destruct (decide (rest = EmptyString)) as [->|Hne]; [done|].
    rewrite route_bucket by done. rewrite <- (string_app_empty rest) at 1. apply check_bucket; [done|done|by left].
Qed.

(** ** Virtual-hosted requests *)

Lemma bucket_for_host_label b d :
  b <> EmptyString -> free_of "." b = true -> free_of ":" b = true -> free_of ":" d = true ->
  bucket_for_host (b +:+ "." +:+ d) d = Some b.
Proof.
  intros Hne Hdot Hc Hd. unfold bucket_for_host.
  rewrite split_free by (by rewrite !free_of_app, Hc, Hd). cbn [head from_option id].
  replace (b +:+ "." +:+ d)%string with ((b +:+ ".") +:+ d)%string by apply string_app_assoc.
  rewrite strip_suffix_app. cbn [mbind option_bind]. rewrite strip_suffix_app. cbn [mbind option_bind].
  rewrite bool_decide_eq_false_2, contains_char, Hdot by done. done.
Qed.

(** The action a bucket request without a query needs. *)
Definition bucket_action (method : string) : string :=
  if bool_decide (method = "PUT") then "s3:CreateBucket"
  else if bool_decide (method = "DELETE") then "s3:DeleteBucket"
  else "s3:ListBucket".

Lemma normalize_virtual_host r b d k :
  header_str r "host" = Some (b +:+ "." +:+ d)%string ->
  b <> EmptyString -> free_of "." b = true -> free_of ":" b = true -> free_of ":" d = true ->
  uri_path (rq_uri r) = ("/" +:+ k)%string -> k <> EmptyString -> uri_query (rq_uri r) = None ->
  all_chars plain_char b = true -> free_of "/" b = true -> all_chars plain_char k = true ->
  let n := normalize (Some d) r in
  rq_method n = rq_method r /\ original_uri n = rq_uri r /\ uri_path (rq_uri n) = ("/" +:+ b +:+ String "/" k)%string.
Proof.
  intros Hh Hne Hdot Hcb Hcd Hp Hk Hq Hb Hbs Hkc n. unfold n, normalize.
  set (r0 := {| rq_method := rq_method r; rq_uri := rq_uri r; rq_headers := rq_headers r;
                rq_original_uri := Some (rq_uri r); rq_peer_cert_verified := rq_peer_cert_verified r |}).
  assert (rewrite_virtual_host r0 d =
    with_uri r0 {| uri_path := "/" +:+ b +:+ "/" +:+ k; uri_query := None; uri_authority := None |}) as ->.
  { unfold rewrite_virtual_host. change (header_str r0 "host") with (header_str r "host"). rewrite Hh. cbn [mbind option_bind].
    rewrite bucket_for_host_label by done. change (rq_uri r0) with (rq_uri r). rewrite Hp, Hq. unfold path_style_path.
    rewrite bool_decide_eq_false_2 by (by destruct k). rewrite parse_uri_plain; [done|done| |done].
    apply plain_path_char. by rewrite !all_chars_app, Hb, Hkc. }
  split_and!.
  - unfold strip_bucket_slash. by repeat case_match.
  - unfold strip_bucket_slash. by repeat case_match.
  - rewrite (strip_bucket_slash_path _ (b +:+ "/" +:+ k)); [|done| |done].
    + destruct (strip_suffix "/" (b +:+ "/" +:+ k)) as [b'|] eqn:E; [|done].
      destruct (free_of "/" b') eqn:Hf'; [|done]. apply strip_suffix_Some in E.
      by destruct (first_sep "/" b b' k EmptyString Hbs Hf' E) as [_ ->].
    + apply plain_path_char. by rewrite !all_chars_app, Hb, Hkc.
Qed.

(** A virtual-hosted request is authorized for the wrong resource. With a
    server domain [d], a request for path [/k] on host [b.d] is served as an
    operation on the object [k] of bucket [b], but the middleware, which reads
    the path the client sent, evaluates the user's policies for a bucket
    operation on a bucket named [k]: every authenticated user who may list a
    bucket [k] gets the object [k] of any bucket, whatever the policies say
    about it.  This is for requests without a query, for keys of one segment of
    plain characters, and for buckets of plain characters without dots. *)
Theorem virtual_host_confusion r b d k stores now who :
  header_str r "host" = Some (b +:+ "." +:+ d)%string ->
  b <> EmptyString -> free_of "." b = true -> free_of ":" b = true -> free_of ":" d = true ->
  uri_path (rq_uri r) = ("/" +:+ k)%string -> k <> EmptyString -> uri_query (rq_uri r) = None ->
  all_chars plain_char b = true -> free_of "/" b = true -> all_chars plain_char k = true -> free_of "/" k = true ->
  let n := normalize (Some d) r in
  authenticated stores now n who -> permitted who (bucket_action (rq_method r)) (bucket_arn k) ->
  s3_route (uri_path (rq_uri n)) = RouteObject b k /\
  exists v, auth_middleware stores now n = Ok {| ps_identity := who; ps_chunk_verifier := v |}.
Proof.
  intros Hh Hne Hdot Hcb Hcd Hp Hk Hq Hb Hbs Hkc Hks n Ha Hperm.
  destruct (normalize_virtual_host r b d k) as (Hm & Ho & Hn); [done..|]. fold n in Hm, Ho, Hn. split.
  - rewrite Hn, route_object by done. by rewrite percent_decode_plain.
  - apply auth_middleware_ok. split; [done|]. unfold s3_check, query_string. rewrite Hm, Ho, Hp, Hq.
    cbn [from_option id]. rewrite <- (string_app_empty k). rewrite check_bucket by (done || by left).
    replace (determine_s3_action_resource (rq_method r) ("/" +:+ k +:+ EmptyString) EmptyString).1
      with (bucket_action (rq_method r)); [done|].
    unfold determine_s3_action_resource. rewrite (proj2 (strip_prefix_Some "/" _ k)) by (by rewrite string_app_empty).
    cbn [from_option id]. rewrite (proj2 (split_once_None "/" k)) by done. rewrite (bool_decide_eq_false_2 (k = _)) by done.
    unfold bucket_action. cbn [fst].
    change (contains EmptyString "encryption") with false. change (contains EmptyString "location") with false.
    change (contains EmptyString "delete") with false. clear. generalize (rq_method r) as m. intros m.
    by repeat case_bool_decide; simplify_eq.
Qed.

(** ** Escaped keys *)

(** A key with an escape is authorized under its escaped name: the request
    for [/b/%XXk] is served as the object whose key starts with the character
    [%XX] stands for, but policies are evaluated for the key as it is spelled
    in the path, so a [Deny] on that one object does not stop it. *)
Theorem escaped_key_confusion r b c k domain :
  addressed_bucket domain r = None -> (N_of_ascii c < 128)%N ->
  let escaped := String "%" (String (hex_upper (N_of_ascii c / 16)) (String (hex_upper (N_of_ascii c mod 16)) k)) in
  uri_path (rq_uri r) = ("/" +:+ b +:+ "/" +:+ escaped)%string -> uri_query (rq_uri r) = None ->
  b <> EmptyString -> free_of "/" b = true -> all_chars plain_char b = true -> all_chars plain_char k = true ->
  let n := normalize domain r in
  s3_route (uri_path (rq_uri n)) = RouteObject b (String c k) /\
  s3_check n = (object_action (rq_method r), object_arn b escaped) /\
  object_arn b escaped <> object_arn b (String c k).
Proof.
  intros Hb Hc escaped Hp Hq Hne Hbs Hbc Hkc n.
  assert (all_chars path_char escaped = true) as Hec.
  { unfold escaped. cbn [all_chars]. rewrite (plain_path_char k) by done.
    assert (forall m, (m < 16)%N -> path_char (N_of_ascii (hex_upper m)) = true) as Hx.
    { intros m Hm. unfold hex_upper, path_char, plain_char, is_unreserved.
      destruct (N.ltb_spec m 10); rewrite N_ascii_embedding by lia;
        rewrite !orb_true_iff, !andb_true_iff, !N.leb_le, !N.eqb_eq; lia. }
    rewrite !Hx by (apply N.mod_lt || apply N.Div0.div_lt_upper_bound; lia). done. }
  destruct (normalize_path_style domain r (b +:+ "/" +:+ escaped)) as (Hm & Ho & Hn); [done|done| |by rewrite Hq|].
  { rewrite !all_chars_app, Hec, (plain_path_char b) by done. done. }
  fold n in Hm, Ho, Hn.
  assert (uri_path (rq_uri n) = ("/" +:+ b +:+ String "/" escaped)%string) as ->.
  { rewrite Hn. destruct (strip_suffix "/" (b +:+ "/" +:+ escaped)) as [b'|] eqn:E; [|done].
    destruct (free_of "/" b') eqn:Hf'; [|done]. apply strip_suffix_Some in E.
    by destruct (first_sep "/" b b' escaped EmptyString Hbs Hf' E) as [_ ?]. }
  split_and!.
  - rewrite route_object by done. unfold escaped. rewrite percent_decode_escape, percent_decode_plain by done.
    cbn. by rewrite ascii_N_embedding.
  - unfold s3_check. rewrite Hm, Ho, Hp. by apply check_object.
  - unfold object_arn, escaped. intros E.
    apply (f_equal String.length) in E. rewrite !string_length_app in E. cbn [String.length] in E. lia.
Qed.

(** ** HTTP/2 *)

(** An HTTP/2 request names its host in the URI only, and the middleware adds
    the missing header from there: but from the URI after the rewrite. When
    [normalize.rs] strips the slash of [/b/] the authority is gone and no
    [host] header is verified, although the client signed one. *)
Lemma http2_host_dropped r b authority :
  uri_path (rq_uri r) = ("/" +:+ b +:+ "/")%string -> uri_query (rq_uri r) = None -> uri_authority (rq_uri r) = Some authority ->
  all_chars plain_char b = true -> free_of "/" b = true -> b <> EmptyString ->
  Forall (fun h => to_lowercase h.1 <> "host") (rq_headers r) ->
  selected_headers (auth_headers (normalize None r)) "host" = [] /\
  selected_headers (auth_headers r) "host" = [("host", trim_header_value authority)].
Proof.
  intros Hp Hq Ha Hb Hf Hne Hh.
  assert (existsb (fun h => bool_decide (h.1 = "host"))
    ((fun h => (h.1, header_value_to_string h.2)) <$> rq_headers r) = false) as Hex.
  { apply not_true_iff_false. rewrite existsb_exists. intros (h & Hin & E%bool_decide_eq_true).
    apply list_elem_of_In, list_elem_of_fmap in Hin as (h' & -> & Hin). rewrite Forall_forall in Hh. apply (Hh h' Hin).
    cbn [fst] in E. by rewrite E. }
  assert (uri_authority (rq_uri (normalize None r)) = None /\ rq_headers (normalize None r) = rq_headers r) as [Hna Hnh].
  { unfold normalize, strip_bucket_slash. cbn [rq_uri]. rewrite Hp, Hq.
    assert ((1 <? String.length ("/" +:+ b +:+ "/"))%nat && ends_with ("/" +:+ b +:+ "/") "/" = true) as ->.
    { apply andb_true_iff. split; [|apply ends_with_spec; by exists ("/" +:+ b)%string].
      apply Nat.ltb_lt. rewrite !string_length_app. cbn. lia. }
    rewrite inside_slashes, (proj2 (count_free _ _) Hf). cbn [Nat.add Nat.leb].
    change ("/" +:+ b +:+ "/")%string with (("/" +:+ b) +:+ "/")%string. rewrite before_last_slash.
    rewrite parse_uri_plain; [done|done| |done]. apply plain_path_char. by rewrite all_chars_app, Hb. }
  unfold auth_headers. rewrite Hnh, Hna, Ha, Hex. unfold selected_headers.
  assert (List.filter (fun h => bool_decide (to_lowercase h.1 = to_lowercase "host"))
    ((fun h => (h.1, header_value_to_string h.2)) <$> rq_headers r) = []) as Hnil.
  { clear -Hh. induction Hh as [|h l Hh _ IH]; [done|]. cbn [fmap list_fmap List.filter fst].
    by rewrite bool_decide_eq_false_2. }
  rewrite List.filter_app, Hnil. done.
Qed.
End routes.
