(* ===== verification/MiddlewareRuns.v ===== *)
(** The middleware theorems at concrete requests, with concrete HTTP
    functions that satisfy the laws. *)
From Stdlib Require Import NArith ZArith Ascii Lia.
From stdpp Require Import base list strings option.
From S2P Require Import Prelude.
From S2P Require Import S3Errors.
From S2P Require Import Policy.
From S2P Require Import Types.
From S2P Require Import Text.
From S2P Require Import Authorize.
From S2P Require Import Sigv4.
From S2P Require Import Sigv4Safety.
From S2P Require Import Sigv4Sample.
From S2P Require Import Middleware.
From S2P Require Import MiddlewareAdmin.
From S2P Require Import MiddlewareSafety.
From S2P Require Import MiddlewareRoutes.
Local Open Scope string_scope.

(** ** Concrete functions *)

Definition sample_datetime : string := "20260101T000000Z".
Definition sample_time : Z := 1767225600 * NANOS.

Fixpoint path_decode (s : string) : string :=
  match s with
  | EmptyString => EmptyString
  | String a s' =>
      if bool_decide (a = "%"%char) then
        match s' with
        | String b (String c s'') => String (ascii_of_N (unhex_upper b * 16 + unhex_upper c)) (path_decode s'')
        | _ => String a (path_decode s')
        end
      else String a (path_decode s')
  end.

#[export] Instance sample_http : HttpLib := {|
  to_str s := if all_chars printable s then Some s else None;
  parse_uri s :=
    match split_once "?" s with
    | Some (p, q) => Some {| uri_path := p; uri_query := Some q; uri_authority := None |}
    | None => Some {| uri_path := s; uri_query := None; uri_authority := None |}
    end;
  parse_datetime s := if bool_decide (s = sample_datetime) then Some sample_time else None;
  percent_decode s := Some (path_decode s);
|}.

Lemma path_decode_plain s : all_chars plain_char s = true -> path_decode s = s.
Proof.
  induction s as [|a s IH]; cbn [all_chars path_decode]; [done|]. intros [Ha Hs]%andb_true_iff.
  rewrite bool_decide_eq_false_2 by (intros ->; done). by rewrite IH.
Qed.

#[export] Instance sample_http_laws : HttpLibLaws.
Proof.
  split.
  - intros s Hs. cbn. by rewrite Hs.
  - intros path query _ Hp _. cbn [parse_uri sample_http].
    assert (free_of "?" path = true) as Hf by (by apply (all_chars_free path_char)).
    destruct query as [q|]; cbn [path_and_query].
    + by rewrite (proj2 (split_once_Some "?" (path +:+ "?" +:+ q) path q)).
    + by rewrite (proj2 (split_once_None "?" path)).
  - done.
  - intros s Hs. cbn. by rewrite path_decode_plain.
  - intros n s Hn. cbn [percent_decode sample_http path_decode fmap option_fmap option_map].
    rewrite bool_decide_eq_true_2 by done. f_equal.
    rewrite !unhex_hex by (apply N.mod_lt || apply N.Div0.div_lt_upper_bound; lia).
    f_equal. f_equal. rewrite N.mul_comm. symmetry. by apply N.div_mod.
Qed.

(** ** A user and its requests *)

Definition run_user : User :=
  {| u_user_id := "u1"; u_username := "alice"; u_description := EmptyString; u_is_root := false; u_created_at := 0 |}.

Definition run_credential : Credential :=
  {| cr_access_key_id := "AKID"; cr_secret_access_key := "secret"; cr_description := EmptyString;
     cr_created_at := 0; cr_active := true; cr_user_id := "u1" |}.

(** Everything on the buckets whose names start with [mine], nothing on
    [other]. *)
Definition run_policy : PolicyDocument :=
  {| doc_version := "2012-10-17";
     doc_statement := [
       {| st_sid := None; st_effect := EffAllow; st_action := ["s3:*"]; st_resource := ["arn:aws:s3:::mine*"] |};
       {| st_sid := None; st_effect := EffDeny; st_action := ["s3:*"];
          st_resource := ["arn:aws:s3:::other"; "arn:aws:s3:::other/*"] |}] |}.

Definition run_identity : AuthenticatedIdentity :=
  {| id_credential := run_credential; id_user := run_user; id_effective_policies := [run_policy] |}.

Definition run_stores : AuthStores :=
  {| find_credential key := Ok (if bool_decide (key = "AKID") then Some run_credential else None);
     find_user key := Ok (if bool_decide (key = "u1") then Some run_user else None);
     effective_policies_of _ := Ok [run_policy] |}.

Lemma run_registered : registered run_stores "AKID" run_credential.
Proof. done. Qed.

Lemma run_resolves : resolves run_stores run_identity.
Proof. done. Qed.

Definition request (method path : string) (query : option string) (headers : list (string * string)) : Request :=
  {| rq_method := method; rq_uri := {| uri_path := path; uri_query := query; uri_authority := None |};
     rq_headers := headers; rq_original_uri := None; rq_peer_cert_verified := false |}.

(** ** A presigned URL *)

Definition presigned_query : string :=
  "X-Amz-Algorithm=AWS4-HMAC-SHA256&X-Amz-Credential=AKID%2F20260101%2Fus-east-1%2Fs3%2Faws4_request&X-Amz-Date=20260101T000000Z&X-Amz-Expires=3600&X-Amz-SignedHeaders=host&X-Amz-Signature=f6".

Definition presigned_request : Request :=
  request "GET" "/mine/report" (Some presigned_query) [("host", "s3.example.com"); ("accept", "*/*")].

Lemma presigned_permitted : permitted run_identity (s3_check presigned_request).1 (s3_check presigned_request).2.
Proof. right. apply evaluate_grants_Allow. vm_compute. reflexivity. Qed.

Lemma presigned_generated :
  generate_presigned_url (rq_method presigned_request) "s3.example.com" (uri_path (original_uri presigned_request)) []
    "AKID" (cr_secret_access_key (id_credential run_identity)) "us-east-1" 3600 sample_datetime = Ok presigned_query.
Proof. vm_compute. reflexivity. Qed.

Lemma presigned_host :
  selected_headers (auth_headers presigned_request) "host" = selected_headers [("host", "s3.example.com")] "host".
Proof. vm_compute. reflexivity. Qed.

Lemma presigned_url_lifetime_witness :
  (exists v, auth_middleware run_stores (sample_time + 3600 * NANOS) presigned_request =
             Ok {| ps_identity := run_identity; ps_chunk_verifier := v |}) <->
  (3600 <= MAX_PRESIGN_EXPIRES)%Z /\ (sample_time + 3600 * NANOS <= sample_time + 3600 * NANOS)%Z.
Proof.
  apply (presigned_url_lifetime run_stores (sample_time + 3600 * NANOS) presigned_request run_identity "s3.example.com" []
    "AKID" "us-east-1" 3600 sample_datetime "20260101" sample_time presigned_query);
    [reflexivity..|repeat constructor|lia|constructor|constructor|exact presigned_generated|reflexivity|reflexivity
    |exact presigned_host|exact run_registered|exact run_resolves|exact presigned_permitted|reflexivity].
Defined.

(** ** A replay *)

Definition signed_headers : list (string * string) :=
  [("host", "s3.example.com"); ("x-amz-content-sha256", "UNSIGNED-PAYLOAD"); ("x-amz-date", sample_datetime)].

Definition replayed_header : string :=
  "AWS4-HMAC-SHA256 Credential=AKID/20260101/us-east-1/s3/aws4_request, SignedHeaders=host;x-amz-content-sha256;x-amz-date, Signature=2d".

Definition replayed_auth : ParsedAuthorization :=
  {| pa_access_key_id := "AKID"; pa_date := "20260101"; pa_region := "us-east-1"; pa_service := "s3";
     pa_signed_headers := ["host"; "x-amz-content-sha256"; "x-amz-date"]; pa_signature := "2d" |}.

(** The captured request, and the same with a header that is not signed. *)
Definition captured : Request :=
  request "GET" "/mine/report" None (("authorization", replayed_header) :: signed_headers).

Definition replayed : Request :=
  request "GET" "/mine/report" None (("authorization", replayed_header) :: ("range", "bytes=0-9") :: signed_headers).

Definition run_passed : Passed := {| ps_identity := run_identity; ps_chunk_verifier := None |}.

Lemma captured_passes : auth_middleware run_stores sample_time captured = Ok run_passed.
Proof. vm_compute. reflexivity. Qed.

Lemma replayed_passes : auth_middleware run_stores (sample_time + 900 * NANOS) replayed = Ok run_passed.
Proof. vm_compute. reflexivity. Qed.

Lemma identities_agree_witness :
  authenticated run_stores sample_time captured run_identity /\
  permitted run_identity (s3_check captured).1 (s3_check captured).2.
Proof.
  apply (proj2 (proj2 (identities_agree run_stores sample_time captured run_identity))).
  exists None. exact captured_passes.
Defined.

Lemma replayed_parses : parse_authorization replayed_header = Ok replayed_auth.
Proof. vm_compute. reflexivity. Qed.

Lemma captured_header : header_str captured "authorization" = Some replayed_header.
Proof. vm_compute. reflexivity. Qed.

Lemma replayed_has_header : header_str replayed "authorization" = Some replayed_header.
Proof. vm_compute. reflexivity. Qed.

Lemma captured_one_line : one_line (verify_input captured replayed_auth "secret").
Proof. unfold one_line. rewrite !Forall_cons. split_and!; [vm_compute; reflexivity..|constructor]. Qed.

Lemma replayed_one_line : one_line (verify_input replayed replayed_auth "secret").
Proof. unfold one_line. rewrite !Forall_cons. split_and!; [vm_compute; reflexivity..|constructor]. Qed.

Lemma replay_bounded_witness :
  let i := verify_input captured replayed_auth "secret" in
  let j := verify_input replayed replayed_auth "secret" in
  ((Z.abs (sample_time - (sample_time + 900 * NANOS)) < 1802 * NANOS)%Z /\ covered i = covered j) \/
  (canonical_of i <> canonical_of j /\ sha256_of (canonical_of i) = sha256_of (canonical_of j)) \/
  (to_sign i <> to_sign j /\ hmac (key_of i) (to_sign i) = hmac (key_of i) (to_sign j)).
Proof.
  exact (replay_bounded run_stores sample_time (sample_time + 900 * NANOS) captured replayed run_passed run_passed
    replayed_header replayed_header replayed_auth replayed_auth captured_passes replayed_passes captured_header
    replayed_has_header replayed_parses replayed_parses eq_refl eq_refl captured_one_line replayed_one_line).
Defined.

(** ** A virtual-hosted request *)

Definition vhost_header : string :=
  "AWS4-HMAC-SHA256 Credential=AKID/20260101/us-east-1/s3/aws4_request, SignedHeaders=host;x-amz-content-sha256;x-amz-date, Signature=37".

Definition vhost_request : Request :=
  request "GET" "/mine" None
    [("authorization", vhost_header); ("host", "other.s3.example.com"); ("x-amz-content-sha256", "UNSIGNED-PAYLOAD");
     ("x-amz-date", sample_datetime)].

Lemma vhost_authenticated :
  authenticated run_stores sample_time (normalize (Some "s3.example.com") vhost_request) run_identity.
Proof. apply admin_identity_ok. vm_compute. reflexivity. Qed.

Lemma vhost_permitted : permitted run_identity (bucket_action (rq_method vhost_request)) (bucket_arn "mine").
Proof. right. apply evaluate_grants_Allow. vm_compute. reflexivity. Qed.

(** The policy denies everything on bucket [other]. *)
Lemma vhost_denied : evaluate_grants (id_effective_policies run_identity) "s3:GetObject" (object_arn "other" "mine") = Deny.
Proof. vm_compute. reflexivity. Qed.

Lemma virtual_host_confusion_witness :
  evaluate_grants (id_effective_policies run_identity) "s3:GetObject" (object_arn "other" "mine") = Deny /\
  s3_route (uri_path (rq_uri (normalize (Some "s3.example.com") vhost_request))) = RouteObject "other" "mine" /\
  exists v, auth_middleware run_stores sample_time (normalize (Some "s3.example.com") vhost_request) =
            Ok {| ps_identity := run_identity; ps_chunk_verifier := v |}.
Proof.
  split; [exact vhost_denied|].
  apply (virtual_host_confusion vhost_request "other" "s3.example.com" "mine" run_stores sample_time run_identity);
    [reflexivity|discriminate|reflexivity|reflexivity|reflexivity|reflexivity|discriminate|reflexivity..
    |exact vhost_authenticated|exact vhost_permitted].
Defined.

(** ** Plain and escaped paths *)

Lemma path_style_authorized_witness :
  let n := normalize (Some "s3.example.com") (request "GET" "/mine/" None [("host", "s3.example.com")]) in
  s3_route (uri_path (rq_uri n)) = RouteBucket "mine" /\ (s3_check n).2 = bucket_arn "mine".
Proof.
  split; [vm_compute; reflexivity|].
  exact (path_style_authorized (Some "s3.example.com") (request "GET" "/mine/" None [("host", "s3.example.com")])
    eq_refl eq_refl eq_refl I).
Defined.

Lemma escaped_key_confusion_witness :
  let n := normalize None (request "GET" "/mine/%73ecret" None []) in
  s3_route (uri_path (rq_uri n)) = RouteObject "mine" "secret" /\
  s3_check n = (object_action "GET", object_arn "mine" "%73ecret") /\
  object_arn "mine" "%73ecret" <> object_arn "mine" "secret".
Proof.
  apply (escaped_key_confusion (request "GET" "/mine/%73ecret" None []) "mine" "s"%char "ecret" None);
    [reflexivity|vm_compute; reflexivity|reflexivity|reflexivity|discriminate|reflexivity..].
Defined.

(** ** A peer *)

Definition peer_headers : list (string * string) :=
  [("host", "node-b:9000"); ("x-amz-arca-replication-source", "node-a"); ("x-amz-content-sha256", "UNSIGNED-PAYLOAD");
   ("x-amz-date", sample_datetime)].

(** Signed with the previous secret. *)
Definition peer_input : SignOutboundInput := {|
  so_method := "GET"; so_uri_path := "/cluster/v1/ping"; so_query_string := EmptyString; so_headers := peer_headers;
  so_payload_hash := "UNSIGNED-PAYLOAD"; so_access_key_id := "arca-cluster"; so_secret_access_key := "old";
  so_region := "arca"; so_service := "cluster"; so_request_datetime := sample_datetime |}.

Definition peer_state : ClusterAuthState :=
  {| ca_node_id := Some "node-b"; ca_secret := Some "new"; ca_secret_previous := Some "old"; ca_mtls := false |}.

Definition peer_header : string :=
  "AWS4-HMAC-SHA256 Credential=arca-cluster/20260101/arca/cluster/aws4_request, SignedHeaders=host;x-amz-arca-replication-source;x-amz-content-sha256;x-amz-date, Signature=96".

Definition peer_request : Request :=
  request "GET" "/cluster/v1/ping" None (("authorization", peer_header) :: peer_headers).

Lemma peer_signed : sign_outbound_request peer_input = Ok peer_header.
Proof. vm_compute. reflexivity. Qed.

Lemma peer_names :
  outbound_names (so_headers peer_input) = ["host"; "x-amz-arca-replication-source"; "x-amz-content-sha256"; "x-amz-date"].
Proof. vm_compute. reflexivity. Qed.

Lemma peer_carries : carries peer_request peer_input.
Proof.
  unfold carries. rewrite peer_names, !Forall_cons. split_and!; [vm_compute; reflexivity..|constructor].
Qed.

Lemma peer_has_header : header_str peer_request "authorization" = Some peer_header.
Proof. vm_compute. reflexivity. Qed.

Lemma peer_source : source_of peer_request = Some "node-a".
Proof. vm_compute. reflexivity. Qed.

Lemma peer_fresh : (Z.abs (sample_time - sample_time) < 901 * NANOS)%Z.
Proof. vm_compute. reflexivity. Qed.

Lemma peer_secret : so_secret_access_key peer_input ∈ candidate_secrets peer_state "new".
Proof. apply (bool_decide_unpack _). vm_compute. exact I. Qed.

Lemma peer_request_accepted_witness :
  exists parsed matched,
    parse_authorization peer_header = Ok parsed /\ cluster_auth_middleware peer_state sample_time peer_request = Ok matched /\
    matched ∈ candidate_secrets peer_state "new" /\ verify_request (cluster_input peer_request parsed matched) = Ok tt.
Proof.
  apply (peer_request_accepted peer_state sample_time peer_request peer_input "20260101" sample_time "node-b" "new" "node-a"
    peer_header); [reflexivity|reflexivity|discriminate|reflexivity|exact peer_source|discriminate|reflexivity|exact peer_secret
    |reflexivity|repeat constructor|discriminate|repeat constructor|exact peer_signed|exact peer_has_header
    |exact peer_carries|reflexivity|exact peer_fresh].
Defined.
