(* ===== verification/ChunkedBody.v ===== *)
(** The body of an upload: [crates/arca-proto/src/handlers/body.rs].

    The decoder of the AWS chunked encoding, with the verification of chunk
    and trailer signatures, and the limit on the number of bytes. A stream is
    the list of items it yields, up to the first error; [poll_iteration] is one
    iteration of the loop of [poll_next], and [drain] is a consumer that polls
    until the end of the stream or its first error. Waiting for the network
    ([Poll::Pending]) suspends the loop and leaves its state as it is. Byte
    strings are [string]s. *)
From Stdlib Require Import NArith ZArith Ascii Lia.
From stdpp Require Import base list strings option.
From S2P Require Import Prelude.
From S2P Require Import S3Errors.
From S2P Require Import Text.
From S2P Require Import Sigv4.
From S2P Require Import Middleware.
Local Open Scope string_scope.
Local Open Scope outcome_scope.

(** ** Errors of a stream *)

Inductive IoKind : Type := Other | UnexpectedEof | InvalidData.

Record IoError : Type := {
  io_kind : IoKind;
  io_message : string;
}.

Definition SIGNATURE_MISMATCH : string := "SignatureDoesNotMatch".

Definition signature_mismatch : IoError := {| io_kind := Other; io_message := SIGNATURE_MISMATCH |}.

(** [stream_error_code]. *)
Definition stream_error_code (message : string) : option S3ErrorCode :=
  if contains message "EntityTooLarge" then Some EntityTooLarge
  else if contains message SIGNATURE_MISMATCH then Some SignatureDoesNotMatch
  else None.

(** ** Bytes *)

Definition cr : ascii := ascii_of_nat 13.
Definition lf : ascii := ascii_of_nat 10.
Definition crlf : string := String cr (String lf EmptyString).

(** [find_crlf]. *)
Fixpoint find_crlf (buf : string) : option nat :=
  match buf with
  | String a ((String b _) as rest) =>
      if bool_decide (a = cr) && bool_decide (b = lf) then Some 0 else S <$> find_crlf rest
  | _ => None
  end.

(** [str::from_utf8] succeeds. *)
Fixpoint utf8_ok (fuel : nat) (s : string) : bool :=
  match fuel, s with
  | S fuel', String a s' =>
      if (N_of_ascii a <? 128)%N then utf8_ok fuel' s'
      else
        match utf8_lead a with
        | None => false
        | Some (n, lo, hi) => let '(_, rest, complete) := utf8_tail n lo hi s' in complete && utf8_ok fuel' rest
        end
  | _, _ => true
  end.

Definition from_utf8 (s : string) : option string := if utf8_ok (String.length s) s then Some s else None.

(** [usize::from_str_radix(_, 16)] on a 64-bit machine. *)
Definition hex_digit (a : ascii) : option Z :=
  let n := Z.of_N (N_of_ascii a) in
  if (48 <=? n)%Z && (n <=? 57)%Z then Some (n - 48)%Z
  else if (97 <=? n)%Z && (n <=? 102)%Z then Some (n - 87)%Z
  else if (65 <=? n)%Z && (n <=? 70)%Z then Some (n - 55)%Z
  else None.

Fixpoint parse_hex_digits (acc : Z) (s : string) : option Z :=
  match s with
  | EmptyString => Some acc
  | String a s' =>
      d ← hex_digit a;
      let acc' := (acc * 16 + d)%Z in
      if (acc' <? 2 ^ 64)%Z then parse_hex_digits acc' s' else None
  end.

Definition usize_from_hex (s : string) : option Z :=
  let digits := default s (strip_prefix "+" s) in
  if bool_decide (digits = EmptyString) then None else parse_hex_digits 0 digits.

(** [parse_chunk_header]: the size, and the signature when there is one. *)
Definition parse_chunk_header (line : string) : IoError + (Z * option string) :=
  match from_utf8 line with
  | None => inl {| io_kind := InvalidData; io_message := "Non-UTF-8 chunk header" |}
  | Some line =>
      let '(hex_part, extension) := match split_once ";" line with
                                    | Some (size, extension) => (trim size, Some extension)
                                    | None => (trim line, None)
                                    end in
      match usize_from_hex hex_part with
      | None => inl {| io_kind := InvalidData; io_message := "Invalid chunk size hex" |}
      | Some size =>
          inr (size, trim <$> (extension ≫= (fun e => strip_prefix "chunk-signature=" (trim e))))
      end
  end.

(** ** The signature chain of a signed body *)

(** The hasher is the data it was given. *)
Record SignedChunks : Type := {
  sc_verifier : ChunkVerifier;
  sc_with_trailer : bool;
  sc_hasher : string;
  sc_chunk_signature : string;
  sc_trailer_lines : list (string * string);
  sc_trailer_signature : option string;
}.

Section decoder.
Context `{HS : !SigCrypto}.

Definition finish_chunk (sc : SignedChunks) : SignedChunks * outcome IoError unit :=
  let '(v, r) := verify_chunk (sc_verifier sc) (hex_sha256 (sc_hasher sc)) (sc_chunk_signature sc) in
  ({| sc_verifier := v; sc_with_trailer := sc_with_trailer sc; sc_hasher := EmptyString;
      sc_chunk_signature := sc_chunk_signature sc; sc_trailer_lines := sc_trailer_lines sc;
      sc_trailer_signature := sc_trailer_signature sc |},
   match r with Ok _ => Ok tt | Err _ => Err signature_mismatch | Panic => Panic end).

Definition with_chunk_signature (sc : SignedChunks) (signature : string) : SignedChunks :=
  {| sc_verifier := sc_verifier sc; sc_with_trailer := sc_with_trailer sc; sc_hasher := sc_hasher sc;
     sc_chunk_signature := signature; sc_trailer_lines := sc_trailer_lines sc;
     sc_trailer_signature := sc_trailer_signature sc |}.

Definition with_hashed (sc : SignedChunks) (data : string) : SignedChunks :=
  {| sc_verifier := sc_verifier sc; sc_with_trailer := sc_with_trailer sc; sc_hasher := sc_hasher sc +:+ data;
     sc_chunk_signature := sc_chunk_signature sc; sc_trailer_lines := sc_trailer_lines sc;
     sc_trailer_signature := sc_trailer_signature sc |}.

Definition add_trailer_line (sc : SignedChunks) (line : string) : outcome IoError SignedChunks :=
  match from_utf8 line with
  | None => Err signature_mismatch
  | Some line =>
      match split_once ":" line with
      | None => Err signature_mismatch
      | Some (name, value) =>
          let signature := bool_decide (to_ascii_lowercase (trim name) = "x-amz-trailer-signature") in
          Ok {| sc_verifier := sc_verifier sc; sc_with_trailer := sc_with_trailer sc; sc_hasher := sc_hasher sc;
                sc_chunk_signature := sc_chunk_signature sc;
                sc_trailer_lines := if signature then sc_trailer_lines sc
                                    else (sc_trailer_lines sc ++ [(trim name, trim value)])%list;
                sc_trailer_signature := if signature then Some (trim value) else sc_trailer_signature sc |}
      end
  end.

Definition finish_trailer (sc : SignedChunks) : outcome IoError unit :=
  if negb (sc_with_trailer sc) then
    match sc_trailer_lines sc, sc_trailer_signature sc with
    | [], None => Ok tt
    | _, _ => Err signature_mismatch
    end
  else
    match sc_trailer_signature sc with
    | None => Err signature_mismatch
    | Some signature =>
        match (verify_trailer (sc_verifier sc) (canonical_trailer (sc_trailer_lines sc)) signature).2 with
        | Ok _ => Ok tt
        | Err _ => Err signature_mismatch
        | Panic => Panic
        end
    end.

(** ** The decoder *)

Inductive DecoderState : Type :=
  | ReadingHeader
  | ReadingData (remaining : Z)
  | ReadingTrailer (to_skip : nat)
  | ReadingTrailingHeaders
  | Done.

Definition item : Type := string + IoError.

Record Decoder : Type := {
  dc_inner : list item;
  dc_buf : string;
  dc_state : DecoderState;
  dc_trailers : option (list (string * string));
  dc_signed : option SignedChunks;
}.

Definition decoder_new (inner : list item) : Decoder :=
  {| dc_inner := inner; dc_buf := EmptyString; dc_state := ReadingHeader; dc_trailers := None; dc_signed := None |}.

Definition with_signature_verification (d : Decoder) (verifier : ChunkVerifier) (with_trailer : bool) : Decoder :=
  {| dc_inner := dc_inner d; dc_buf := dc_buf d; dc_state := dc_state d; dc_trailers := dc_trailers d;
     dc_signed := Some {| sc_verifier := verifier; sc_with_trailer := with_trailer; sc_hasher := EmptyString;
                          sc_chunk_signature := EmptyString; sc_trailer_lines := []; sc_trailer_signature := None |} |}.

Definition with_trailers (d : Decoder) : Decoder :=
  {| dc_inner := dc_inner d; dc_buf := dc_buf d; dc_state := dc_state d; dc_trailers := Some []; dc_signed := dc_signed d |}.

Definition set_state (d : Decoder) (s : DecoderState) : Decoder :=
  {| dc_inner := dc_inner d; dc_buf := dc_buf d; dc_state := s; dc_trailers := dc_trailers d; dc_signed := dc_signed d |}.
Definition set_buf (d : Decoder) (b : string) : Decoder :=
  {| dc_inner := dc_inner d; dc_buf := b; dc_state := dc_state d; dc_trailers := dc_trailers d; dc_signed := dc_signed d |}.
Definition set_inner (d : Decoder) (l : list item) : Decoder :=
  {| dc_inner := l; dc_buf := dc_buf d; dc_state := dc_state d; dc_trailers := dc_trailers d; dc_signed := dc_signed d |}.
Definition set_signed (d : Decoder) (sc : option SignedChunks) : Decoder :=
  {| dc_inner := dc_inner d; dc_buf := dc_buf d; dc_state := dc_state d; dc_trailers := dc_trailers d; dc_signed := sc |}.

Definition record_trailer (d : Decoder) (line : string) : Decoder :=
  match dc_trailers d, from_utf8 line with
  | Some sink, Some line =>
      match split_once ":" line with
      | Some (name, value) =>
          {| dc_inner := dc_inner d; dc_buf := dc_buf d; dc_state := dc_state d;
             dc_trailers := Some (sink ++ [(to_ascii_lowercase (trim name), trim value)])%list; dc_signed := dc_signed d |}
      | None => d
      end
  | _, _ => d
  end.

(** One turn of the loop: it goes on, or the poll returns. *)
Inductive Iteration : Type :=
  | Continue (d : Decoder)
  | Ready (i : option item) (d : Decoder).

(** The inner stream is polled for more data. *)
Definition refill (d : Decoder) (at_end : Iteration) : Iteration :=
  match dc_inner d with
  | [] => at_end
  | inl bytes :: rest => Continue (set_buf (set_inner d rest) (dc_buf d +:+ bytes))
  | inr e :: rest => Ready (Some (inr e)) (set_inner d rest)
  end.

Definition fail (d : Decoder) (e : IoError) : Iteration := Ready (Some (inr e)) (set_state d Done).

(** The final chunk: signed over empty data. *)
Definition final_chunk (d : Decoder) : Iteration :=
  match dc_signed d with
  | None => Continue (set_state d ReadingTrailingHeaders)
  | Some sc =>
      let '(sc', r) := finish_chunk sc in
      match r with
      | Ok _ => Continue (set_state (set_signed d (Some sc')) ReadingTrailingHeaders)
      | _ => fail (set_signed d (Some sc')) signature_mismatch
      end
  end.

(** A chunk header has been read and consumed. *)
Definition after_header (d : Decoder) (chunk_size : Z) (signature : option string) : Iteration :=
  match dc_signed d, signature with
  | Some _, None => fail d signature_mismatch
  | _, _ =>
      let d := match dc_signed d, signature with
               | Some sc, Some sig => set_signed d (Some (with_chunk_signature sc sig))
               | _, _ => d
               end in
      if (chunk_size =? 0)%Z then final_chunk d else Continue (set_state d (ReadingData chunk_size))
  end.

Definition reading_header (d : Decoder) : Iteration :=
  match find_crlf (dc_buf d) with
  | Some pos =>
      match parse_chunk_header (take_bytes pos (dc_buf d)) with
      | inr (chunk_size, signature) => after_header (set_buf d (drop_bytes (pos + 2) (dc_buf d))) chunk_size signature
      | inl e => Ready (Some (inr e)) d
      end
  | None =>
      refill d
        (match dc_signed d with
         | Some _ => fail d signature_mismatch
         | None =>
             if bool_decide (dc_buf d = EmptyString) then Ready None (set_state d Done)
             else Ready (Some (inr {| io_kind := UnexpectedEof; io_message := "Incomplete AWS chunked header" |})) d
         end)
  end.

(** The data taken is hashed, and the chunk's signature checked at its end. *)
Definition take_data (d : Decoder) (remaining : Z) : Iteration :=
  let to_take := Z.min remaining (Z.of_nat (String.length (dc_buf d))) in
  let data := take_bytes (Z.to_nat to_take) (dc_buf d) in
  let d := set_buf d (drop_bytes (Z.to_nat to_take) (dc_buf d)) in
  let new_remaining := (remaining - to_take)%Z in
  let next := if (new_remaining =? 0)%Z then ReadingTrailer 2 else ReadingData new_remaining in
  match dc_signed d with
  | None => Ready (Some (inl data)) (set_state d next)
  | Some sc =>
      let sc := with_hashed sc data in
      if (new_remaining =? 0)%Z then
        let '(sc', r) := finish_chunk sc in
        match r with
        | Ok _ => Ready (Some (inl data)) (set_state (set_signed d (Some sc')) next)
        | _ => fail (set_signed d (Some sc')) signature_mismatch
        end
      else Ready (Some (inl data)) (set_state (set_signed d (Some sc)) next)
  end.

Definition reading_data (d : Decoder) (remaining : Z) : Iteration :=
  if bool_decide (dc_buf d = EmptyString) then
    refill d
      (match dc_signed d with
       | Some _ => fail d signature_mismatch
       | None => Ready (Some (inr {| io_kind := UnexpectedEof; io_message := "Incomplete AWS chunked data" |})) d
       end)
  else take_data d remaining.

Definition trailing_line (d : Decoder) (line : string) : Iteration :=
  if bool_decide (line = EmptyString) then
    let d := set_state d Done in
    match dc_signed d with
    | None => Ready None d
    | Some sc =>
        match finish_trailer sc with
        | Ok _ => Ready None d
        | _ => Ready (Some (inr signature_mismatch)) d
        end
    end
  else
    match dc_signed d with
    | None => Continue (record_trailer d line)
    | Some sc =>
        match add_trailer_line sc line with
        | Ok sc' => Continue (record_trailer (set_signed d (Some sc')) line)
        | _ => fail d signature_mismatch
        end
    end.

Definition reading_trailing_headers (d : Decoder) : Iteration :=
  match find_crlf (dc_buf d) with
  | Some pos => trailing_line (set_buf d (drop_bytes (pos + 2) (dc_buf d))) (take_bytes pos (dc_buf d))
  | None =>
      refill d
        (match dc_signed d with
         | Some _ => fail d signature_mismatch
         | None =>
             let d' := if bool_decide (dc_buf d = EmptyString) then d
                       else record_trailer (set_buf d EmptyString) (dc_buf d) in
             Ready None (set_state d' Done)
         end)
  end.

Definition reading_trailer (d : Decoder) (to_skip : nat) : Iteration :=
  if (to_skip <=? String.length (dc_buf d))%nat then
    Continue (set_state (set_buf d (drop_bytes to_skip (dc_buf d))) ReadingHeader)
  else
    refill d
      (match dc_signed d with
       | Some _ => fail d signature_mismatch
       | None => Ready None (set_state d Done)
       end).

Definition poll_iteration (d : Decoder) : Iteration :=
  match dc_state d with
  | Done => Ready None d
  | ReadingHeader => reading_header d
  | ReadingData remaining => reading_data d remaining
  | ReadingTrailingHeaders => reading_trailing_headers d
  | ReadingTrailer to_skip => reading_trailer d to_skip
  end.

(** The items of the stream up to its end or its first error, and the trailers
    it recorded. *)
Fixpoint drain (fuel : nat) (d : Decoder) : option (list string * outcome IoError unit * Decoder) :=
  match fuel with
  | 0 => None
  | S fuel' =>
      match poll_iteration d with
      | Continue d' => drain fuel' d'
      | Ready None d' => Some ([], Ok tt, d')
      | Ready (Some (inr e)) d' => Some ([], Err e, d')
      | Ready (Some (inl data)) d' =>
          '(items, r, d'') ← drain fuel' d';
          Some (data :: items, r, d'')
      end
  end.

Definition items_bytes (l : list item) : nat :=
  sum_list ((fun i => match i with inl s => String.length s | inr _ => 0 end) <$> l).

(** Every turn consumes an item of the inner stream or a byte of the buffer. *)
Definition drain_fuel (d : Decoder) : nat :=
  String.length (dc_buf d) + items_bytes (dc_inner d) + length (dc_inner d) + 1.
End decoder.
