(* ===== verification/ChunkedBodySafety.v ===== *)
(** The decoder of chunked bodies always ends, and what it yields depends on
    the bytes of the body, not on how the network cuts them. *)
From Stdlib Require Import NArith ZArith Ascii Lia.
From stdpp Require Import base list strings option.
From S2P Require Import Prelude.
From S2P Require Import Text.
From S2P Require Import Sigv4.
From S2P Require Import Sigv4Safety.
From S2P Require Import Middleware.
From S2P Require Import ChunkedBody.
Local Open Scope string_scope.

(** ** Bytes *)

Lemma take_drop_bytes n s : (take_bytes n s +:+ drop_bytes n s)%string = s.
Proof.
  revert s. induction n as [|n IH]; intros [|a s]; [done..|]. cbn [take_bytes drop_bytes].
  change (String a (take_bytes n s) +:+ drop_bytes n s)%string with (String a (take_bytes n s +:+ drop_bytes n s)).
  by rewrite IH.
Qed.

Lemma take_bytes_length n s : n <= String.length s -> String.length (take_bytes n s) = n.
Proof.
  revert s. induction n as [|n IH]; intros [|a s]; cbn [take_bytes String.length]; [done..|lia|].
  intros H. rewrite IH; lia.
Qed.

Lemma drop_bytes_length n s : String.length (drop_bytes n s) = String.length s - n.
Proof. revert s. induction n as [|n IH]; intros [|a s]; cbn [drop_bytes String.length]; done || apply IH. Qed.

Lemma take_bytes_app_le n a b : n <= String.length a -> take_bytes n (a +:+ b) = take_bytes n a.
Proof.
  revert a. induction n as [|n IH]; intros [|x a]; cbn [String.length]; [done..|lia|]. intros H.
  change (String x a +:+ b)%string with (String x (a +:+ b)). cbn [take_bytes]. rewrite IH; [done|lia].
Qed.

Lemma drop_bytes_app_le n a b : n <= String.length a -> drop_bytes n (a +:+ b) = (drop_bytes n a +:+ b)%string.
Proof.
  revert a. induction n as [|n IH]; intros [|x a]; cbn [String.length]; [done..|lia|]. intros H.
  change (String x a +:+ b)%string with (String x (a +:+ b)). cbn [drop_bytes]. apply IH. lia.
Qed.

Lemma take_bytes_app_ge n a b : take_bytes (String.length a + n) (a +:+ b) = (a +:+ take_bytes n b)%string.
Proof.
  induction a as [|x a IH]; [done|]. change (String x a +:+ b)%string with (String x (a +:+ b)).
  cbn [String.length Nat.add take_bytes]. by rewrite IH.
Qed.

Lemma drop_bytes_app_ge n a b : drop_bytes (String.length a + n) (a +:+ b) = drop_bytes n b.
Proof.
  induction a as [|x a IH]; [done|]. change (String x a +:+ b)%string with (String x (a +:+ b)).
  cbn [String.length Nat.add drop_bytes]. exact IH.
Qed.

Lemma take_bytes_all a : take_bytes (String.length a) a = a.
Proof. pose proof (take_bytes_app_ge 0 a EmptyString) as H. by rewrite Nat.add_0_r, !string_app_empty in H. Qed.

Lemma drop_bytes_all a : drop_bytes (String.length a) a = EmptyString.
Proof. pose proof (drop_bytes_app_ge 0 a EmptyString) as H. by rewrite Nat.add_0_r, string_app_empty in H. Qed.

Lemma find_crlf_cons a b s :
  find_crlf (String a (String b s)) =
  if bool_decide (a = cr) && bool_decide (b = lf) then Some 0 else S <$> find_crlf (String b s).
Proof. done. Qed.

Lemma find_crlf_bound s pos : find_crlf s = Some pos -> pos + 2 <= String.length s.
Proof.
  revert pos. induction s as [|a s IH]; intros pos; [done|]. destruct s as [|b s]; [done|]. rewrite find_crlf_cons.
  destruct (_ && _); [intros [= <-]; cbn; lia|]. destruct (find_crlf (String b s)) as [p|] eqn:E; [|done].
  intros [= <-]. specialize (IH p eq_refl). cbn [String.length] in *. lia.
Qed.

Lemma find_crlf_app s t pos : find_crlf s = Some pos -> find_crlf (s +:+ t) = Some pos.
Proof.
  revert pos. induction s as [|a s IH]; intros pos; [done|]. destruct s as [|b s]; [done|].
  change (String a (String b s) +:+ t)%string with (String a (String b (s +:+ t))). rewrite !find_crlf_cons.
  destruct (_ && _); [done|]. destruct (find_crlf (String b s)) as [p|] eqn:E; [|done]. intros [= <-].
  change (String b (s +:+ t)) with (String b s +:+ t)%string. by rewrite (IH p eq_refl).
Qed.

#[local] Arguments items_bytes : simpl never.

(** ** The decoder ends *)

Section decoder.
Context `{HS : !SigCrypto}.

Lemma parse_hex_nonneg acc s n : (0 <= acc)%Z -> parse_hex_digits acc s = Some n -> (0 <= n)%Z.
Proof.
  revert acc. induction s as [|a s IH]; intros acc Ha; cbn [parse_hex_digits]; [by intros [= <-]|].
  destruct (hex_digit a) as [d|] eqn:Hd; [|done]. cbn [mbind option_bind]. case_match; [|done]. apply IH.
  assert (0 <= d)%Z; [|lia]. unfold hex_digit in Hd. repeat case_match; simplify_eq;
    repeat match goal with H : (_ && _) = true |- _ => apply andb_true_iff in H as [?%Z.leb_le ?] end; lia.
Qed.

Lemma chunk_size_nonneg line n sig : parse_chunk_header line = inr (n, sig) -> (0 <= n)%Z.
Proof.
  unfold parse_chunk_header. destruct (from_utf8 line) as [l|]; [|done].
  assert (forall h m, usize_from_hex h = Some m -> (0 <= m)%Z) as Hu.
  { intros h m. unfold usize_from_hex. case_bool_decide; [done|]. by apply parse_hex_nonneg. }
  destruct (split_once ";" l) as [[sz ext]|].
  all: match goal with |- context [usize_from_hex ?h] => destruct (usize_from_hex h) as [m|] eqn:E; [|done] end.
  all: intros [= <- _]; by eapply Hu.
Qed.

Definition state_ok (d : Decoder) : Prop :=
  match dc_state d with
  | ReadingData remaining => (0 < remaining)%Z
  | ReadingTrailer to_skip => to_skip <> 0
  | _ => True
  end.

Definition left (d : Decoder) : nat := String.length (dc_buf d) + items_bytes (dc_inner d) + length (dc_inner d).

(** The next state of a turn that does not end the stream. *)
Definition next_of (i : Iteration) : option Decoder :=
  match i with
  | Continue d' | Ready (Some (inl _)) d' => Some d'
  | _ => None
  end.

Lemma items_bytes_cons i l :
  items_bytes (i :: l) = match i with inl s => String.length s | inr _ => 0 end + items_bytes l.
Proof. done. Qed.

Lemma refill_left d at_end d' :
  next_of at_end = None -> next_of (refill d at_end) = Some d' -> left d' < left d /\ dc_state d' = dc_state d.
Proof.
  unfold refill, left. intros He. destruct (dc_inner d) as [|[b|e] rest] eqn:E; [by rewrite He| |done].
  intros [= <-]. cbn. rewrite items_bytes_cons, string_length_app. split; [lia|done].
Qed.

Lemma record_trailer_fields d line :
  dc_buf (record_trailer d line) = dc_buf d /\ dc_inner (record_trailer d line) = dc_inner d /\
  dc_state (record_trailer d line) = dc_state d /\ dc_signed (record_trailer d line) = dc_signed d.
Proof. unfold record_trailer. by repeat case_match. Qed.

Ltac step_left := cbn -[Z.to_nat Z.sub]; rewrite ?drop_bytes_length; lia.

Lemma header_left d d' : state_ok d -> next_of (reading_header d) = Some d' -> left d' < left d /\ state_ok d'.
Proof.
  intros Hok. unfold reading_header. destruct (find_crlf (dc_buf d)) as [pos|] eqn:Ef.
  - apply find_crlf_bound in Ef. destruct (parse_chunk_header _) as [e|[n sig]] eqn:Ep; [done|].
    apply chunk_size_nonneg in Ep. unfold after_header, final_chunk, left, state_ok, finish_chunk.
    repeat case_match; simplify_eq/=; intros; simplify_eq/=; rewrite ?Z.eqb_neq in *;
      split; try done; try step_left.
  - intros H. apply refill_left in H as [H E]; [|by repeat case_match].
    split; [done|]. unfold state_ok. by rewrite E.
Qed.

Lemma take_data_left d remaining d' :
  (0 < remaining)%Z -> dc_buf d <> EmptyString ->
  next_of (take_data d remaining) = Some d' -> left d' < left d /\ state_ok d'.
Proof.
  intros Hr Hb. assert (String.length (dc_buf d) <> 0) as Hl by (by destruct (dc_buf d)).
  unfold take_data, left, state_ok, finish_chunk.
  set (t := Z.min remaining (Z.of_nat (String.length (dc_buf d)))).
  assert (0 < t <= remaining)%Z as [Ht1 Ht2] by (unfold t; lia). clearbody t.
  destruct (Z.eqb_spec (remaining - t) 0).
  all: repeat case_match; simplify_eq/=; intros; simplify_eq/=; split; try done; try step_left.
Qed.

Lemma data_left d remaining d' :
  (0 < remaining)%Z -> state_ok d -> next_of (reading_data d remaining) = Some d' -> left d' < left d /\ state_ok d'.
Proof.
  intros Hr Hok. unfold reading_data. case_bool_decide as Hb; [|by apply take_data_left].
  intros H. apply refill_left in H as [H E]; [|by repeat case_match]. split; [done|]. unfold state_ok. by rewrite E.
Qed.

Lemma trailing_left d d' :
  state_ok d -> dc_state d = ReadingTrailingHeaders -> next_of (reading_trailing_headers d) = Some d' ->
  left d' < left d /\ state_ok d'.
Proof.
  intros Hok Hs. unfold reading_trailing_headers. destruct (find_crlf (dc_buf d)) as [pos|] eqn:Ef.
  - apply find_crlf_bound in Ef. set (line := take_bytes pos _).
    unfold trailing_line. case_bool_decide; [by repeat case_match|].
    assert (forall sc, left (record_trailer (set_signed (set_buf d (drop_bytes (pos + 2) (dc_buf d))) sc) line) < left d /\
      state_ok (record_trailer (set_signed (set_buf d (drop_bytes (pos + 2) (dc_buf d))) sc) line)) as Hrec.
    { intros sc. unfold left, state_ok. destruct (record_trailer_fields (set_signed (set_buf d (drop_bytes (pos + 2) (dc_buf d))) sc) line)
        as (-> & -> & -> & _). cbn. rewrite Hs. split; [step_left|done]. }
    cbn [dc_signed set_buf]. destruct (dc_signed d) as [sc|] eqn:Esc.
    + destruct (add_trailer_line sc line) as [sc'| |]; [|done..]. intros [= <-]. apply Hrec.
    + intros [= <-]. specialize (Hrec (dc_signed d)). cbn in Hrec. rewrite Esc in Hrec.
      unfold set_signed in Hrec. cbn in Hrec. unfold set_buf. by rewrite Esc.
  - intros H. apply refill_left in H as [H E]; [|by repeat case_match]. split; [done|]. unfold state_ok. by rewrite E.
Qed.

Lemma skip_left d k d' :
  k <> 0 -> state_ok d -> next_of (reading_trailer d k) = Some d' -> left d' < left d /\ state_ok d'.
Proof.
  intros Hk Hok. unfold reading_trailer. destruct (Nat.leb_spec k (String.length (dc_buf d))) as [Hle|].
  - intros [= <-]. unfold left. cbn. rewrite drop_bytes_length. split; [lia|done].
  - intros H'. apply refill_left in H' as [H' E]; [|by repeat case_match]. split; [done|]. unfold state_ok. by rewrite E.
Qed.

Lemma iteration_left d d' :
  state_ok d -> next_of (poll_iteration d) = Some d' -> left d' < left d /\ state_ok d'.
Proof.
  intros Hok. unfold poll_iteration. destruct (dc_state d) eqn:Es; [by apply header_left|..|done].
  - apply data_left; [|done]. unfold state_ok in Hok. by rewrite Es in Hok.
  - apply skip_left; [|done]. unfold state_ok in Hok. by rewrite Es in Hok.
  - by apply trailing_left.
Qed.

(** The fuel is enough. *)
Lemma drain_total fuel d : state_ok d -> left d < fuel -> exists x, drain fuel d = Some x.
Proof.
  revert d. induction fuel as [|fuel IH]; intros d Hok Hl; [lia|]. cbn [drain].
  pose proof (iteration_left d) as Hi. destruct (poll_iteration d) as [d'|[[data|e]|] d']; [..|by eexists|by eexists].
  - destruct (Hi d') as [Hlt Hok']; [done..|]. apply IH; [done|lia].
  - destruct (Hi d') as [Hlt Hok']; [done..|]. destruct (IH d' Hok') as [[[items r] d''] ->]; [lia|]. by eexists.
Qed.

Lemma drain_mono fuel d x : drain fuel d = Some x -> forall fuel', fuel <= fuel' -> drain fuel' d = Some x.
Proof.
  revert d x. induction fuel as [|fuel IH]; intros d x; [done|]. intros Hd [|fuel'] Hle; [lia|]. cbn [drain] in *.
  destruct (poll_iteration d) as [d'|[[data|e]|] d']; [by apply IH; [|lia]| |done|done].
  destruct (drain fuel d') as [[[items r] d'']|] eqn:E; [|done]. rewrite (IH d' _ E fuel') by lia. done.
Qed.

(** ** Big steps *)

Inductive runs : Decoder -> list string -> outcome IoError unit -> Decoder -> Prop :=
  | runs_continue d d' items r d'' :
      poll_iteration d = Continue d' -> runs d' items r d'' -> runs d items r d''
  | runs_data d data d' items r d'' :
      poll_iteration d = Ready (Some (inl data)) d' -> runs d' items r d'' -> runs d (data :: items) r d''
  | runs_end d d' : poll_iteration d = Ready None d' -> runs d [] (Ok tt) d'
  | runs_error d e d' : poll_iteration d = Ready (Some (inr e)) d' -> runs d [] (Err e) d'.

Lemma drain_runs fuel d items r d' : drain fuel d = Some (items, r, d') -> runs d items r d'.
Proof.
  revert d items. induction fuel as [|fuel IH]; intros d items; [done|]. cbn [drain].
  destruct (poll_iteration d) as [d1|[[data|e]|] d1] eqn:E.
  - intros H. eapply runs_continue; [done|]. by apply IH.
  - destruct (drain fuel d1) as [[[items' r'] d'']|] eqn:Ed; [|done]. intros [= <- -> ->].
    eapply runs_data; [done|]. by apply IH.
  - intros [= <- <- <-]. by apply runs_error.
  - intros [= <- <- <-]. by apply runs_end.
Qed.

Lemma runs_drain d items r d' : runs d items r d' -> exists fuel, drain fuel d = Some (items, r, d').
Proof.
  induction 1 as [d d1 items r d' E _ [fuel IH]|d data d1 items r d' E _ [fuel IH]|d d1 E|d e d1 E].
  - exists (S fuel). cbn [drain]. by rewrite E.
  - exists (S fuel). cbn [drain]. rewrite E. by rewrite IH.
  - exists 1. cbn [drain]. by rewrite E.
  - exists 1. cbn [drain]. by rewrite E.
Qed.

(** The result of a run is the result of [drain] with its fuel. *)
Lemma drain_iff d items r d' :
  state_ok d -> drain (drain_fuel d) d = Some (items, r, d') <-> runs d items r d'.
Proof.
  intros Hok. split; [apply drain_runs|]. intros [fuel Hf]%runs_drain.
  destruct (drain_total (drain_fuel d) d Hok) as [x Hx]; [unfold drain_fuel, left; lia|].
  pose proof (drain_mono _ _ _ Hf (Nat.max fuel (drain_fuel d)) ltac:(lia)) as H1.
  pose proof (drain_mono _ _ _ Hx (Nat.max fuel (drain_fuel d)) ltac:(lia)) as H2. congruence.
Qed.

(** ** Pieces *)

Definition cat (l : list string) : string := foldr String.append EmptyString l.

#[local] Arguments cat : simpl never.

Lemma cat_cons x l : cat (x :: l) = (x +:+ cat l)%string.
Proof. done. Qed.

Lemma cat_app a b : cat (a ++ b)%list = (cat a +:+ cat b)%string.
Proof.
  induction a as [|x a IH]; [done|]. change (cat ((x :: a) ++ b)%list) with (x +:+ cat (a ++ b)%list)%string.
  rewrite IH. change (cat (x :: a)) with (x +:+ cat a)%string. by rewrite string_app_assoc.
Qed.

(** The decoder once all the pieces have arrived. *)
Definition merged (ps : list string) (d : Decoder) : Decoder := set_buf (set_inner d []) (dc_buf d +:+ cat ps).

Definition imap_merged (ps : list string) (i : Iteration) : Iteration :=
  match i with
  | Continue d => Continue (merged ps d)
  | Ready x d => Ready x (merged ps d)
  end.

(** Whether the loop polls the inner stream. *)
Definition needs_more (d : Decoder) : bool :=
  match dc_state d with
  | ReadingHeader | ReadingTrailingHeaders => match find_crlf (dc_buf d) with None => true | Some _ => false end
  | ReadingData _ => bool_decide (dc_buf d = EmptyString)
  | ReadingTrailer k => (String.length (dc_buf d) <? k)%nat
  | Done => false
  end.

Lemma needs_more_refill d b rest :
  needs_more d = true -> dc_inner d = inl b :: rest ->
  poll_iteration d = Continue (set_buf (set_inner d rest) (dc_buf d +:+ b)).
Proof.
  unfold needs_more, poll_iteration. intros Hn Hi. destruct (dc_state d); [..|done].
  - unfold reading_header, refill. destruct (find_crlf _); [done|]. by rewrite Hi.
  - unfold reading_data, refill. rewrite Hn. by rewrite Hi.
  - unfold reading_trailer, refill. apply Nat.ltb_lt in Hn. rewrite (proj2 (Nat.leb_gt _ _)) by lia. by rewrite Hi.
  - unfold reading_trailing_headers, refill. destruct (find_crlf _); [done|]. by rewrite Hi.
Qed.

Lemma merged_nil d : dc_inner d = [] -> merged [] d = d.
Proof. destruct d as [i b s t g]; cbn. intros ->. unfold merged, set_buf, set_inner; cbn. by rewrite string_app_empty. Qed.

Lemma merged_cons d b ps rest :
  merged ps (set_buf (set_inner d rest) (dc_buf d +:+ b)) = merged (b :: ps) d.
Proof. unfold merged, set_buf, set_inner; cbn. by rewrite string_app_assoc. Qed.

Lemma final_chunk_merged ps d : final_chunk (merged ps d) = imap_merged ps (final_chunk d).
Proof.
  unfold final_chunk. change (dc_signed (merged ps d)) with (dc_signed d). destruct (dc_signed d) as [sc|]; [|done].
  by destruct (finish_chunk sc) as [sc' [[]| |]].
Qed.

Lemma after_header_merged ps d n sig : after_header (merged ps d) n sig = imap_merged ps (after_header d n sig).
Proof.
  unfold after_header. change (dc_signed (merged ps d)) with (dc_signed d).
  destruct (dc_signed d) as [sc|], sig as [sig|]; try done; destruct (n =? 0)%Z; try done.
  all: rewrite <- final_chunk_merged; done.
Qed.

Lemma trailing_line_merged ps d line : trailing_line (merged ps d) line = imap_merged ps (trailing_line d line).
Proof.
  assert (forall d, record_trailer (merged ps d) line = merged ps (record_trailer d line)) as Hrec.
  { intros d0. unfold record_trailer. cbn. by repeat case_match. }
  unfold trailing_line. change (dc_signed (set_state (merged ps d) Done)) with (dc_signed d).
  change (dc_signed (merged ps d)) with (dc_signed d). case_bool_decide.
  - cbn. destruct (dc_signed d) as [sc|]; [|done]. by destruct (finish_trailer sc) as [[]| |].
  - destruct (dc_signed d) as [sc|]; [|cbn; by rewrite Hrec].
    destruct (add_trailer_line sc line) as [sc'| |]; [|done..]. cbn [imap_merged]. rewrite <- Hrec. done.
Qed.

Lemma no_more_merged ps d :
  needs_more d = false -> (forall n, dc_state d <> ReadingData n) ->
  poll_iteration (merged ps d) = imap_merged ps (poll_iteration d).
Proof.
  unfold needs_more, poll_iteration. change (dc_state (merged ps d)) with (dc_state d).
  intros Hn Hd. destruct (dc_state d) as [|n|k| |] eqn:Es; [..|done].
  - unfold reading_header. destruct (find_crlf (dc_buf d)) as [pos|] eqn:Ef; [|done].
    pose proof (find_crlf_bound _ _ Ef). change (dc_buf (merged ps d)) with (dc_buf d +:+ cat ps)%string.
    rewrite (find_crlf_app _ _ _ Ef), take_bytes_app_le, drop_bytes_app_le by lia.
    destruct (parse_chunk_header _) as [e|[n sig]]; [done|]. rewrite <- after_header_merged. done.
  - by destruct (Hd n).
  - unfold reading_trailer. apply Nat.ltb_ge in Hn. change (dc_buf (merged ps d)) with (dc_buf d +:+ cat ps)%string.
    rewrite string_length_app, !(proj2 (Nat.leb_le _ _)), drop_bytes_app_le by lia. done.
  - unfold reading_trailing_headers. destruct (find_crlf (dc_buf d)) as [pos|] eqn:Ef; [|done].
    pose proof (find_crlf_bound _ _ Ef). change (dc_buf (merged ps d)) with (dc_buf d +:+ cat ps)%string.
    rewrite (find_crlf_app _ _ _ Ef), take_bytes_app_le, drop_bytes_app_le by lia.
    rewrite <- trailing_line_merged. done.
Qed.

(** A chunk whose data ends in the buffer. *)
Lemma take_data_merged ps d n :
  (0 <= n <= Z.of_nat (String.length (dc_buf d)))%Z -> take_data (merged ps d) n = imap_merged ps (take_data d n).
Proof.
  intros Hn. unfold take_data. change (dc_buf (merged ps d)) with (dc_buf d +:+ cat ps)%string.
  rewrite string_length_app, Nat2Z.inj_add. rewrite !Z.min_l by lia. rewrite Z.sub_diag. cbn [Z.eqb].
  rewrite take_bytes_app_le, drop_bytes_app_le by lia. cbn [dc_signed set_buf merged set_inner].
  destruct (dc_signed d) as [sc|]; [|done]. by destruct (finish_chunk _) as [sc' [[]| |]].
Qed.

(** A chunk whose data goes on after the buffer: the part in the buffer. *)
Definition data_taken (d : Decoder) (n : Z) : Decoder :=
  set_state (set_signed (set_buf d EmptyString) ((fun sc => with_hashed sc (dc_buf d)) <$> dc_signed d))
    (ReadingData (n - Z.of_nat (String.length (dc_buf d)))).

Lemma take_data_short d n :
  (Z.of_nat (String.length (dc_buf d)) < n)%Z -> take_data d n = Ready (Some (inl (dc_buf d))) (data_taken d n).
Proof.
  intros Hn. unfold take_data, data_taken. rewrite !Z.min_r by lia. rewrite Nat2Z.id, take_bytes_all, drop_bytes_all.
  rewrite (proj2 (Z.eqb_neq _ 0)) by lia. cbn [dc_signed set_buf]. destruct d as [? ? ? ? [sc|]]; done.
Qed.

Lemma with_hashed_app sc a b : with_hashed (with_hashed sc a) b = with_hashed sc (a +:+ b).
Proof. unfold with_hashed; cbn. by rewrite string_app_assoc. Qed.

Lemma take_data_long d n a b :
  (Z.of_nat (String.length a) < n)%Z -> dc_buf d = a ->
  take_data (set_buf d (a +:+ b)) n =
  match take_data (set_buf (data_taken d n) b) (n - Z.of_nat (String.length a)) with
  | Ready (Some (inl x)) d' => Ready (Some (inl (a +:+ x))) d'
  | i => i
  end.
Proof.
  intros Hn Ha. unfold take_data. cbn [dc_buf set_buf]. rewrite string_length_app.
  replace (Z.min n (Z.of_nat (String.length a + String.length b)))
    with (Z.of_nat (String.length a) + Z.min (n - Z.of_nat (String.length a)) (Z.of_nat (String.length b)))%Z by lia.
  set (t := Z.min (n - _) _). assert (0 <= t)%Z by lia. rewrite Z2Nat.inj_add, Nat2Z.id by lia.
  rewrite take_bytes_app_ge, drop_bytes_app_ge.
  replace (n - (Z.of_nat (String.length a) + t))%Z with (n - Z.of_nat (String.length a) - t)%Z by lia.
  unfold data_taken. rewrite Ha. destruct d as [i0 b0 s0 t0 g0]; cbn in *. destruct g0 as [sc|]; cbn; [|done].
  rewrite with_hashed_app. destruct (_ =? 0)%Z; [|done]. by destruct (finish_chunk _) as [sc' [[]| |]].
Qed.

Lemma no_more_inner d d' : needs_more d = false -> next_of (poll_iteration d) = Some d' -> dc_inner d' = dc_inner d.
Proof.
  unfold needs_more, poll_iteration. destruct (dc_state d) as [|n|k| |]; intros Hn; [..|done].
  - unfold reading_header, after_header, final_chunk. by repeat (case_match; simplify_eq/=); intros; simplify_eq/=.
  - unfold reading_data, take_data. rewrite Hn. by repeat (case_match; simplify_eq/=); intros; simplify_eq/=.
  - unfold reading_trailer. apply Nat.ltb_ge in Hn. rewrite (proj2 (Nat.leb_le _ _)) by lia. by intros [= <-].
  - unfold reading_trailing_headers, trailing_line. destruct (find_crlf _) as [pos|]; [|done]. case_bool_decide.
    + by repeat case_match.
    + cbn [dc_signed set_buf]. destruct (dc_signed d) as [sc|].
      * destruct (add_trailer_line _ _) as [sc'| |]; [|done..]. intros [= <-].
        match goal with |- context [record_trailer ?x ?y] => by destruct (record_trailer_fields x y) as (_ & -> & _) end.
      * intros [= <-].
        match goal with |- context [record_trailer ?x ?y] => by destruct (record_trailer_fields x y) as (_ & -> & _) end.
Qed.

Lemma poll_data d n :
  dc_state d = ReadingData n -> dc_buf d <> EmptyString -> poll_iteration d = take_data d n.
Proof. intros Hs Hb. unfold poll_iteration. rewrite Hs. unfold reading_data. by rewrite bool_decide_eq_false_2. Qed.

Lemma take_data_ready d n : exists i d', take_data d n = Ready (Some i) d'.
Proof. unfold take_data. repeat case_match; by eexists _, _. Qed.

Lemma not_data d n : needs_more d = false -> dc_state d = ReadingData n -> exists i d', poll_iteration d = Ready (Some i) d'.
Proof.
  unfold needs_more. intros Hn Hs. rewrite Hs in Hn. apply bool_decide_eq_false in Hn.
  rewrite (poll_data d n) by done. apply take_data_ready.
Qed.

Lemma yields_data d data d1 :
  poll_iteration d = Ready (Some (inl data)) d1 ->
  exists n, dc_state d = ReadingData n /\ dc_buf d <> EmptyString /\ take_data d n = Ready (Some (inl data)) d1.
Proof.
  unfold poll_iteration. intros E. destruct (dc_state d) as [|n|k| |] eqn:Es; [exfalso| |exfalso..].
  - unfold reading_header, after_header, final_chunk, refill in E. by repeat (case_match; simplify_eq/=).
  - exists n. unfold reading_data in E. case_bool_decide; [|done]. exfalso. unfold refill in E.
    by repeat (case_match; simplify_eq/=).
  - unfold reading_trailer, refill in E. by repeat (case_match; simplify_eq/=).
  - unfold reading_trailing_headers, trailing_line, refill in E. by repeat (case_match; simplify_eq/=).
  - done.
Qed.

(** The rest of a chunk, taken at once or after the part in the buffer. *)
Lemma runs_data_joined d n ps items r d' :
  (Z.of_nat (String.length (dc_buf d)) < n)%Z -> dc_state d = ReadingData n -> dc_buf d <> EmptyString ->
  runs (merged ps (data_taken d n)) items r d' ->
  exists items' , runs (merged ps d) items' r d' /\ (r = Ok tt -> cat items' = (dc_buf d +:+ cat items)%string).
Proof.
  intros Hn Hs Hb Hr.
  assert (merged ps (data_taken d n) = set_buf (data_taken (set_inner d []) n) (cat ps)) as Em by done. rewrite Em in Hr.
  assert (poll_iteration (merged ps d) = take_data (set_buf (set_inner d []) (dc_buf d +:+ cat ps)) n) as Ep.
  { apply poll_data; [done|]. cbn. by destruct (dc_buf d). }
  destruct (decide (cat ps = EmptyString)) as [E0|Hne].
  - exists (dc_buf d :: items). split; [|done]. eapply runs_data; [|exact Hr]. rewrite Ep, E0, string_app_empty.
    rewrite take_data_short by done. done.
  - rewrite (take_data_long (set_inner d []) n (dc_buf d) (cat ps)) in Ep by done.
    assert (poll_iteration (set_buf (data_taken (set_inner d []) n) (cat ps)) =
      take_data (set_buf (data_taken (set_inner d []) n) (cat ps)) (n - Z.of_nat (String.length (dc_buf d)))) as Eq
      by (by apply poll_data).
    rewrite <- Eq in Ep.
    destruct (take_data_ready (set_buf (data_taken (set_inner d []) n) (cat ps)) (n - Z.of_nat (String.length (dc_buf d))))
      as (i & d2 & Er). rewrite <- Eq in Er.
    inversion Hr as [? d1 ? ? ? E Hr1|? data d1 items1 ? ? E Hr1|? d1 E|? e d1 E]; subst; [congruence| |congruence|].
    + exists ((dc_buf d +:+ data) :: items1). rewrite E in Ep. split; [by eapply runs_data|]. intros _.
      by rewrite !cat_cons, string_app_assoc.
    + exists []. rewrite E in Ep. split; [by eapply runs_error|done].
Qed.

(** A turn that does not poll the inner stream, and does not leave a chunk
    unfinished, is the same once all pieces have arrived. *)
Definition chunk_ends (d : Decoder) : Prop :=
  forall n, dc_state d = ReadingData n -> (0 <= n <= Z.of_nat (String.length (dc_buf d)))%Z.

Lemma same_turn ps d :
  needs_more d = false -> chunk_ends d -> poll_iteration (merged ps d) = imap_merged ps (poll_iteration d).
Proof.
  intros Hn He. destruct (dc_state d) as [|n|k| |] eqn:Hs; [by apply no_more_merged; [|congruence]| |by apply no_more_merged; [|congruence]..].
  unfold needs_more in Hn. rewrite Hs in Hn. apply bool_decide_eq_false in Hn.
  rewrite (poll_data (merged ps d) n), (poll_data d n); [by apply take_data_merged, He|done..|].
  cbn. by destruct (dc_buf d).
Qed.

Lemma turn_ends_chunk d :
  state_ok d -> needs_more d = false -> (forall data d', poll_iteration d <> Ready (Some (inl data)) d') -> chunk_ends d.
Proof.
  intros Hok Hn Hd n Hs. unfold state_ok in Hok. rewrite Hs in Hok. split; [lia|].
  unfold needs_more in Hn. rewrite Hs in Hn. apply bool_decide_eq_false in Hn.
  destruct (Z.le_gt_cases n (Z.of_nat (String.length (dc_buf d)))) as [|Hgt]; [done|].
  exfalso. eapply Hd. rewrite (poll_data d n), take_data_short by done. done.
Qed.

Lemma runs_merged d items r d' :
  runs d items r d' -> state_ok d -> forall ps, dc_inner d = inl <$> ps ->
  exists items' d'', runs (merged ps d) items' r d'' /\ (r = Ok tt -> cat items' = cat items) /\
    dc_trailers d'' = dc_trailers d'.
Proof.
  induction 1 as [d d1 items r d' E Hr IH|d data d1 items r d' E Hr IH|d d1 E|d e d1 E]; intros Hok ps Hps.
  - destruct (iteration_left d d1) as [_ Hok1]; [done|by rewrite E|]. destruct (needs_more d) eqn:Hn.
    + destruct ps as [|b ps]; [exists items, d'; split; [rewrite merged_nil by done; by eapply runs_continue|done]|].
      pose proof (needs_more_refill d b _ Hn Hps) as E1. rewrite E in E1. injection E1 as ->.
      destruct (IH Hok1 ps) as (items' & d'' & H); [done|]. rewrite merged_cons in H. by exists items', d''.
    + destruct (IH Hok1 ps) as (items' & d'' & H & Hc & Ht); [by rewrite (no_more_inner d d1) by (done || by rewrite E)|].
      exists items', d''. split; [|done]. eapply runs_continue; [|exact H].
      rewrite same_turn, E; [done|done|]. apply turn_ends_chunk; [done|done|congruence].
  - destruct (iteration_left d d1) as [_ Hok1]; [done|by rewrite E|].
    destruct (yields_data d data d1 E) as (n & Hs & Hb & Et).
    assert (needs_more d = false) as Hn by (unfold needs_more; rewrite Hs; by apply bool_decide_eq_false_2).
    destruct (IH Hok1 ps) as (items' & d'' & H & Hc & Ht); [by rewrite (no_more_inner d d1) by (done || by rewrite E)|].
    unfold state_ok in Hok. rewrite Hs in Hok.
    destruct (Z.le_gt_cases n (Z.of_nat (String.length (dc_buf d)))) as [Hle|Hgt].
    + exists (data :: items'), d''. split; [|split; [intros Hr0; by rewrite !cat_cons, Hc|done]]. eapply runs_data; [|exact H].
      rewrite same_turn, E; [done|done|]. intros m Hm. rewrite Hs in Hm. injection Hm as <-. lia.
    + rewrite take_data_short in Et by done. injection Et as <- <-.
      destruct (runs_data_joined d n ps items' r d'') as (items2 & H2 & Hc2); [done..|].
      exists items2, d''. split; [done|]. split; [|done]. intros Hr0. by rewrite cat_cons, Hc2, Hc.
  - destruct ps as [|b ps]; [exists [], d1; split; [rewrite merged_nil by done; by apply runs_end|done]|].
    destruct (needs_more d) eqn:Hn; [pose proof (needs_more_refill d b _ Hn Hps) as E1; by rewrite E in E1|].
    exists [], (merged (b :: ps) d1). split; [|done]. apply runs_end. rewrite same_turn, E; [done|done|].
    apply turn_ends_chunk; [done|done|congruence].
  - destruct ps as [|b ps]; [exists [], d1; split; [rewrite merged_nil by done; by apply runs_error|done]|].
    destruct (needs_more d) eqn:Hn; [pose proof (needs_more_refill d b _ Hn Hps) as E1; by rewrite E in E1|].
    exists [], (merged (b :: ps) d1). split; [|done]. apply runs_error. rewrite same_turn, E; [done|done|].
    apply turn_ends_chunk; [done|done|congruence].
Qed.

(** ** The result does not depend on the pieces *)

Lemma runs_det d items r d' items2 r2 d2 :
  runs d items r d' -> runs d items2 r2 d2 -> items = items2 /\ r = r2 /\ d' = d2.
Proof.
  intros H [fuel2 H2]%runs_drain. apply runs_drain in H as [fuel H].
  pose proof (drain_mono _ _ _ H (Nat.max fuel fuel2) ltac:(lia)) as H'.
  pose proof (drain_mono _ _ _ H2 (Nat.max fuel fuel2) ltac:(lia)) as H2'. rewrite H' in H2'. by injection H2' as -> -> ->.
Qed.

Lemma runs_pieces d ps ps' items r d' items2 r2 d2 :
  state_ok d -> cat ps = cat ps' ->
  runs (set_inner d (inl <$> ps)) items r d' -> runs (set_inner d (inl <$> ps')) items2 r2 d2 ->
  r = r2 /\ (r = Ok tt -> cat items = cat items2) /\ dc_trailers d' = dc_trailers d2.
Proof.
  intros Hok Hcat H1 H2.
  destruct (runs_merged _ _ _ _ H1 Hok ps eq_refl) as (i1 & e1 & R1 & C1 & T1).
  destruct (runs_merged _ _ _ _ H2 Hok ps' eq_refl) as (i2 & e2 & R2 & C2 & T2).
  assert (merged ps (set_inner d (inl <$> ps)) = merged ps' (set_inner d (inl <$> ps'))) as E.
  { unfold merged. cbn. by rewrite Hcat. }
  rewrite E in R1. destruct (runs_det _ _ _ _ _ _ _ R1 R2) as (-> & -> & ->).
  split; [done|]. split; [|congruence]. intros Hr. rewrite <- C1, C2 by done. done.
Qed.
End decoder.
