(* ===== verification/ChunkedBodySigned.v ===== *)
(** Signed bodies: what the decoder accepts was signed.

    [signed_runs] reads off an accepted body the chain of its chunk signatures;
    [chain_common] shows that two chains that end in the same signature are the
    same, up to collisions; [signed_body_unforgeable] puts them together. *)
From Stdlib Require Import NArith ZArith Ascii Lia.
From stdpp Require Import base list strings option.
From S2P Require Import Prelude.
From S2P Require Import Text.
From S2P Require Import Sigv4.
From S2P Require Import Sigv4Safety.
From S2P Require Import Middleware.
From S2P Require Import ChunkedBody.
From S2P Require Import ChunkedBodySafety.
Local Open Scope string_scope.

#[local] Arguments cat : simpl never.

Section chains.
Context `{HS : !SigCrypto}.

(** ** Chains *)

Definition with_previous (v : ChunkVerifier) (s : string) : ChunkVerifier :=
  {| cv_signing_key := cv_signing_key v; cv_datetime := cv_datetime v; cv_scope := cv_scope v; cv_previous_signature := s |}.

(** The chunks, as data and signature, verified one after the other. *)
Fixpoint chain (v : ChunkVerifier) (chunks : list (string * string)) : option ChunkVerifier :=
  match chunks with
  | [] => Some v
  | (data, sig) :: rest =>
      if bool_decide (sig = expected_chunk_signature v (hex_sha256 data)) then chain (with_previous v sig) rest else None
  end.

Lemma verify_chunk_spec v h s :
  verify_chunk v h s = if bool_decide (s = expected_chunk_signature v h) then (with_previous v s, Ok tt)
                       else (v, Err SignatureMismatch).
Proof.
  unfold verify_chunk, advance. destruct (decide (expected_chunk_signature v h = s)) as [<-|Hne].
  - by rewrite !bool_decide_eq_true_2.
  - by rewrite !bool_decide_eq_false_2 by congruence.
Qed.

Lemma chain_app v a b : chain v (a ++ b)%list = chain v a ≫= (fun v' => chain v' b).
Proof. revert v. induction a as [|[d s] a IH]; intros v; [done|]. cbn [chain app]. case_bool_decide; [apply IH|done]. Qed.

Lemma chain_fields v l v' :
  chain v l = Some v' ->
  cv_signing_key v' = cv_signing_key v /\ cv_datetime v' = cv_datetime v /\ cv_scope v' = cv_scope v /\
  cv_previous_signature v' = default (cv_previous_signature v) (last (snd <$> l)).
Proof.
  revert v. induction l as [|[d s] l IH]; intros v; cbn [chain]; [by intros [= <-]|].
  case_bool_decide; [|done]. intros (H1 & H2 & H3 & H4)%IH. cbn in *. split_and!; [done..|].
  rewrite H4. destruct l as [|[d2 s2] l]; [done|]. cbn [fmap list_fmap snd]. rewrite last_cons_cons.
  destruct (last _) eqn:E; [done|]. by apply last_None in E.
Qed.

(** ** What an accepted body was *)

(** The trailer of an accepted body. *)
Definition trailer_verified (v : ChunkVerifier) (with_trailer : bool) (lines : list (string * string)) : Prop :=
  if with_trailer then exists sig, (verify_trailer v (canonical_trailer lines) sig).2 = Ok tt else lines = [].

(** The trailers recorded for the integrity check are the signed lines. *)
Definition recorded (sink : option (list (string * string))) (lines : list (string * string)) : Prop :=
  match sink with
  | None => True
  | Some sink =>
      List.filter (fun h => negb (bool_decide (h.1 = "x-amz-trailer-signature"))) sink =
      ((fun h => (to_ascii_lowercase h.1, h.2)) <$> lines)
  end.

(** What remains of a signed body, after the data of the chunk being read. *)
Definition chunks_follow (d' : Decoder) (sc : SignedChunks) (v : ChunkVerifier) (data : string) : Prop :=
  exists chunks fsig v' lines,
    data = cat (fst <$> chunks) /\ chain v (chunks ++ [(EmptyString, fsig)])%list = Some v' /\
    Forall (fun c => c.1 <> EmptyString) chunks /\
    trailer_verified v' (sc_with_trailer sc) lines /\ recorded (dc_trailers d') lines.

Definition accepted_from (d : Decoder) (sc : SignedChunks) (data : string) (d' : Decoder) : Prop :=
  match dc_state d with
  | ReadingHeader | ReadingTrailer _ =>
      sc_hasher sc = EmptyString -> sc_trailer_lines sc = [] -> recorded (dc_trailers d) [] ->
      chunks_follow d' sc (sc_verifier sc) data
  | ReadingData n =>
      (0 < n)%Z -> sc_trailer_lines sc = [] -> recorded (dc_trailers d) [] ->
      exists x rest,
        data = (x +:+ rest)%string /\ x <> EmptyString /\
        sc_chunk_signature sc = expected_chunk_signature (sc_verifier sc) (hex_sha256 (sc_hasher sc +:+ x)) /\
        chunks_follow d' sc (with_previous (sc_verifier sc) (sc_chunk_signature sc)) rest
  | ReadingTrailingHeaders =>
      recorded (dc_trailers d) (sc_trailer_lines sc) ->
      exists lines, data = EmptyString /\ trailer_verified (sc_verifier sc) (sc_with_trailer sc) lines /\
        recorded (dc_trailers d') lines
  | Done => True
  end.

Lemma refill_accepted d sc data d' b rest at_end d1 :
  dc_inner d = inl b :: rest -> refill d at_end = Continue d1 ->
  accepted_from d1 sc data d' -> accepted_from d sc data d'.
Proof. intros Hi. unfold refill. rewrite Hi. intros [= <-]. done. Qed.

(** Polling the inner stream changes neither state nor chain. *)
Lemma refill_same d at_end d1 :
  (forall d2, at_end <> Continue d2) -> refill d at_end = Continue d1 ->
  dc_state d1 = dc_state d /\ dc_signed d1 = dc_signed d /\ dc_trailers d1 = dc_trailers d.
Proof. unfold refill. intros He. destruct (dc_inner d) as [|[b|e] rest]; [by intros ?%He| |done]. by intros [= <-]. Qed.

Lemma accepted_same d d1 sc data d' :
  dc_state d1 = dc_state d -> dc_trailers d1 = dc_trailers d -> accepted_from d1 sc data d' -> accepted_from d sc data d'.
Proof. unfold accepted_from. by intros -> ->. Qed.

Lemma finish_chunk_ok sc sc' :
  finish_chunk sc = (sc', Ok tt) ->
  sc_chunk_signature sc = expected_chunk_signature (sc_verifier sc) (hex_sha256 (sc_hasher sc)) /\
  sc_verifier sc' = with_previous (sc_verifier sc) (sc_chunk_signature sc) /\ sc_hasher sc' = EmptyString /\
  sc_with_trailer sc' = sc_with_trailer sc /\ sc_trailer_lines sc' = sc_trailer_lines sc.
Proof. unfold finish_chunk. rewrite verify_chunk_spec. case_bool_decide; [|done]. intros [= <-]. done. Qed.

Lemma add_trailer_line_recorded d sc sc' line :
  add_trailer_line sc line = Ok sc' -> recorded (dc_trailers d) (sc_trailer_lines sc) ->
  recorded (dc_trailers (record_trailer d line)) (sc_trailer_lines sc') /\
  sc_verifier sc' = sc_verifier sc /\ sc_with_trailer sc' = sc_with_trailer sc.
Proof.
  unfold add_trailer_line, record_trailer. destruct (from_utf8 line) as [l|]; [|done].
  destruct (split_once ":" l) as [[name value]|]; [|done]. intros [= <-] Hrec. split; [|done].
  destruct (dc_trailers d) as [sink|] eqn:Ed; [|by rewrite Ed]. cbn [dc_trailers sc_trailer_lines recorded] in *.
  rewrite List.filter_app, Hrec. cbn [List.filter fst]. case_bool_decide as E; cbn [negb].
  - by rewrite app_nil_r.
  - by rewrite fmap_app.
Qed.

Lemma finish_trailer_ok sc :
  finish_trailer sc = Ok tt -> trailer_verified (sc_verifier sc) (sc_with_trailer sc) (sc_trailer_lines sc).
Proof.
  unfold finish_trailer, trailer_verified. destruct (sc_with_trailer sc); cbn [negb].
  - destruct (sc_trailer_signature sc) as [sig|]; [|done]. destruct (verify_trailer _ _ _).2 as [[]| |] eqn:E; [|done..].
    intros _. by exists sig.
  - by destruct (sc_trailer_lines sc), (sc_trailer_signature sc).
Qed.

(** One turn of each state, backwards. *)
Lemma header_accepted d sc d1 sc1 data d' :
  dc_state d = ReadingHeader -> dc_signed d = Some sc -> poll_iteration d = Continue d1 -> dc_signed d1 = Some sc1 ->
  accepted_from d1 sc1 data d' -> accepted_from d sc data d'.
Proof.
  intros Hs Hsc E Hsc1 Ha. unfold poll_iteration in E. rewrite Hs in E. unfold reading_header in E.
  destruct (find_crlf (dc_buf d)) as [pos|].
  - destruct (parse_chunk_header _) as [e|[n sig]] eqn:Ep; [done|]. apply chunk_size_nonneg in Ep.
    unfold after_header in E. cbn [dc_signed set_buf] in E. rewrite Hsc in E. destruct sig as [sig|]; [|done].
    unfold accepted_from. rewrite Hs. intros Hh Hl Hrec. destruct (Z.eqb_spec n 0) as [->|Hn].
    + unfold final_chunk in E. cbn [dc_signed set_signed] in E.
      destruct (finish_chunk _) as [sc' [[]| |]] eqn:Ef; [|done..]. injection E as <-. injection Hsc1 as <-.
      apply finish_chunk_ok in Ef as (Esig & Ev & _ & Ew & Et). cbn in Esig, Ev, Ew, Et. rewrite Hh in Esig.
      unfold accepted_from in Ha. cbn in Ha. rewrite Et, Hl, Ev, Ew in Ha. destruct (Ha Hrec) as (lines & -> & Hv & Hr).
      exists [], sig, (with_previous (sc_verifier sc) sig), lines. split_and!; [done| |constructor|done|done].
      cbn [app chain]. by rewrite bool_decide_eq_true_2.
    + injection E as <-. injection Hsc1 as <-. unfold accepted_from in Ha. cbn in Ha.
      destruct Ha as (x & rest & -> & Hx & Hsig & chunks & fsig & v' & lines & -> & Hc & Hf & Htv & Hr); [lia|done..|].
      rewrite Hh in Hsig. exists ((x, sig) :: chunks), fsig, v', lines. split_and!; [done| |by constructor|done|done].
      cbn [app chain]. by rewrite bool_decide_eq_true_2.
  - apply refill_same in E as (E1 & E2 & E3); [|by rewrite Hsc]. rewrite E2, Hsc in Hsc1. injection Hsc1 as <-.
    by eapply accepted_same.
Qed.

Lemma skip_accepted d sc d1 sc1 k data d' :
  dc_state d = ReadingTrailer k -> dc_signed d = Some sc -> poll_iteration d = Continue d1 -> dc_signed d1 = Some sc1 ->
  accepted_from d1 sc1 data d' -> accepted_from d sc data d'.
Proof.
  intros Hs Hsc E Hsc1 Ha. unfold poll_iteration in E. rewrite Hs in E. unfold reading_trailer in E.
  destruct (_ <=? _)%nat.
  - injection E as <-. cbn in Hsc1. rewrite Hsc in Hsc1. injection Hsc1 as <-. unfold accepted_from in *. by rewrite Hs.
  - apply refill_same in E as (E1 & E2 & E3); [|by rewrite Hsc]. rewrite E2, Hsc in Hsc1. injection Hsc1 as <-.
    by eapply accepted_same.
Qed.

Lemma trailing_accepted d sc d1 sc1 data d' :
  dc_state d = ReadingTrailingHeaders -> dc_signed d = Some sc -> poll_iteration d = Continue d1 ->
  dc_signed d1 = Some sc1 -> accepted_from d1 sc1 data d' -> accepted_from d sc data d'.
Proof.
  intros Hs Hsc E Hsc1 Ha. unfold poll_iteration in E. rewrite Hs in E. unfold reading_trailing_headers in E.
  destruct (find_crlf (dc_buf d)) as [pos|].
  - unfold trailing_line in E. cbn [dc_signed set_buf set_state] in E. rewrite Hsc in E. case_bool_decide.
    { by destruct (finish_trailer sc) as [[]| |]. }
    destruct (add_trailer_line sc _) as [sc'| |] eqn:Et; [|done..]. injection E as <-.
    match goal with H : dc_signed (record_trailer ?x ?y) = _ |- _ =>
      destruct (record_trailer_fields x y) as (_ & _ & Es & Eg) end.
    rewrite Eg in Hsc1. injection Hsc1 as <-. unfold accepted_from in *. rewrite Es in Ha. cbn in Ha. rewrite Hs in *.
    intros Hrec. eapply (add_trailer_line_recorded (set_signed (set_buf d (drop_bytes (pos + 2) (dc_buf d))) (Some sc')))
      in Et as (Hrec' & Ev & Ew); [|exact Hrec].
    rewrite Ev, Ew in Ha. apply Ha. exact Hrec'.
  - apply refill_same in E as (E1 & E2 & E3); [|by rewrite Hsc]. rewrite E2, Hsc in Hsc1. injection Hsc1 as <-.
    by eapply accepted_same.
Qed.

Lemma data_accepted d sc x d1 sc1 data d' :
  state_ok d -> dc_signed d = Some sc -> poll_iteration d = Ready (Some (inl x)) d1 -> dc_signed d1 = Some sc1 ->
  accepted_from d1 sc1 data d' -> accepted_from d sc (x +:+ data) d'.
Proof.
  intros Hok Hsc E Hsc1 Ha. destruct (yields_data d x d1 E) as (n & Hs & Hb & Et).
  unfold accepted_from. rewrite Hs. intros Hn Hl Hrec.
  destruct (Z.lt_ge_cases (Z.of_nat (String.length (dc_buf d))) n) as [Hlt|Hge].
  - rewrite take_data_short in Et by done. injection Et as <- <-. cbn in Hsc1. rewrite Hsc in Hsc1. injection Hsc1 as <-.
    unfold accepted_from in Ha. cbn in Ha.
    destruct Ha as (y & rest & -> & Hy & Hsig & Hf); [lia|done..|]. exists (dc_buf d +:+ y)%string, rest.
    split; [by rewrite string_app_assoc|]. split; [by destruct (dc_buf d)|]. rewrite string_app_assoc in Hsig. done.
  - unfold take_data in Et. rewrite Z.min_l, Z.sub_diag in Et by lia. cbn [Z.eqb dc_signed set_buf] in Et. rewrite Hsc in Et.
    destruct (finish_chunk _) as [sc' [[]| |]] eqn:Ef; [|done..]. injection Et as Ex <-. injection Hsc1 as <-.
    apply finish_chunk_ok in Ef as (Esig & Ev & Eh & Ew & El). cbn in Esig, Ev, Ew, El. rewrite Ex in Esig.
    exists x, data. split; [done|]. split.
    { intros ->. apply (f_equal String.length) in Ex. rewrite take_bytes_length in Ex by lia. cbn in Ex. lia. }
    split; [done|]. unfold accepted_from in Ha. cbn in Ha. rewrite El, Ev in Ha.
    destruct (Ha Eh Hl Hrec) as (chunks & fsig & v' & lines & H). rewrite Ew in H. by exists chunks, fsig, v', lines.
Qed.

(** The verification stays on. *)
Lemma signed_stays d sc d1 : dc_signed d = Some sc -> next_of (poll_iteration d) = Some d1 -> exists sc1, dc_signed d1 = Some sc1.
Proof.
  unfold poll_iteration. intros Hsc. destruct (dc_state d) as [|n|k| |]; [..|done].
  - unfold reading_header, after_header, final_chunk, refill. cbn [dc_signed set_buf]. rewrite Hsc.
    repeat (case_match; simplify_eq/=); intros; simplify_eq/=; eauto.
  - unfold reading_data, take_data, refill. cbn [dc_signed set_buf]. rewrite Hsc.
    repeat (case_match; simplify_eq/=); intros; simplify_eq/=; eauto.
  - unfold reading_trailer, refill. rewrite Hsc. repeat (case_match; simplify_eq/=); intros; simplify_eq/=; eauto.
  - unfold reading_trailing_headers, trailing_line. cbn [dc_signed set_buf set_state]. rewrite Hsc.
    destruct (find_crlf (dc_buf d)) as [pos|].
    + case_bool_decide; [by destruct (finish_trailer sc) as [[]| |]|].
      destruct (add_trailer_line sc _) as [sc'| |]; [|done..]. intros [= <-]. exists sc'.
      match goal with |- context [record_trailer ?x ?y] => by destruct (record_trailer_fields x y) as (_ & _ & _ & ->) end.
    + unfold refill. destruct (dc_inner d) as [|[b|e] rest]; [done| |done]. intros [= <-]. eauto.
Qed.

Lemma end_accepted d sc d' :
  dc_signed d = Some sc -> poll_iteration d = Ready None d' -> accepted_from d sc EmptyString d'.
Proof.
  intros Hsc E. unfold poll_iteration, accepted_from in *. destruct (dc_state d) as [|n|k| |] eqn:Hs; [exfalso..| |done].
  - unfold reading_header, after_header, final_chunk, refill in E. cbn [dc_signed set_buf] in E. rewrite Hsc in E.
    by repeat (case_match; simplify_eq/=).
  - unfold reading_data in E. case_bool_decide; [|by destruct (take_data_ready d n) as (i & d2 & E2); congruence].
    unfold refill in E. rewrite Hsc in E. by repeat (case_match; simplify_eq/=).
  - unfold reading_trailer, refill in E. rewrite Hsc in E. by repeat (case_match; simplify_eq/=).
  - intros Hrec. unfold reading_trailing_headers in E. destruct (find_crlf (dc_buf d)) as [pos|].
    + unfold trailing_line in E. cbn [dc_signed set_buf set_state] in E. rewrite Hsc in E. case_bool_decide.
      * destruct (finish_trailer sc) as [[]| |] eqn:Ef; [|done..]. injection E as <-. apply finish_trailer_ok in Ef.
        by exists (sc_trailer_lines sc).
      * by destruct (add_trailer_line sc _).
    + unfold refill in E. rewrite Hsc in E. by repeat (case_match; simplify_eq/=).
Qed.

(** What a signed body that is accepted consisted of. *)
Lemma signed_runs d items r d' sc :
  runs d items r d' -> r = Ok tt -> state_ok d -> dc_signed d = Some sc -> accepted_from d sc (cat items) d'.
Proof.
  intros Hr. revert sc. induction Hr as [d d1 items r d' E Hr IH|d data d1 items r d' E Hr IH|d d1 E|d e d1 E]; intros sc Hok Hst Hsc.
  - destruct (iteration_left d d1) as [_ Hok1]; [done|by rewrite E|].
    destruct (signed_stays d sc d1) as [sc1 Hsc1]; [done|by rewrite E|].
    specialize (IH sc1 Hok Hok1 Hsc1). destruct (dc_state d) as [|n|k| |] eqn:Hs.
    + by eapply header_accepted.
    + unfold poll_iteration in E. rewrite Hs in E. unfold reading_data in E. case_bool_decide.
      * apply refill_same in E as (E1 & E2 & E3); [|by rewrite Hsc]. rewrite E2, Hsc in Hsc1. injection Hsc1 as <-.
        by eapply accepted_same.
      * destruct (take_data_ready d n) as (i & d2 & E2). congruence.
    + by eapply skip_accepted.
    + by eapply trailing_accepted.
    + unfold poll_iteration in E. by rewrite Hs in E.
  - destruct (iteration_left d d1) as [_ Hok1]; [done|by rewrite E|].
    destruct (signed_stays d sc d1) as [sc1 Hsc1]; [done|by rewrite E|]. rewrite cat_cons.
    eapply data_accepted; [done..|]. by apply IH.
  - by apply end_accepted.
  - done.
Qed.
End chains.

(** ** One chain for one signature *)

Section binding.
Context `{HS : !SigCrypto, HC : !SigCryptoLaws}.

(** The string that is signed for a chunk. *)
Definition chunk_string (v : ChunkVerifier) (data : string) : string :=
  "AWS4-HMAC-SHA256-PAYLOAD" +:+ nl +:+ cv_datetime v +:+ nl +:+ cv_scope v +:+ nl +:+ cv_previous_signature v
  +:+ nl +:+ hex_sha256 EmptyString +:+ nl +:+ hex_sha256 data.

(** The strings that are signed for the chunks of a body. *)
Fixpoint chunk_strings (v : ChunkVerifier) (chunks : list (string * string)) : list string :=
  match chunks with
  | [] => []
  | (data, sig) :: rest => chunk_string v data :: chunk_strings (with_previous v sig) rest
  end.

Lemma chunk_strings_app v a b v' :
  chain v a = Some v' -> chunk_strings v (a ++ b)%list = (chunk_strings v a ++ chunk_strings v' b)%list.
Proof.
  revert v. induction a as [|[d s] a IH]; intros v; cbn [chain]; [by intros [= <-]|]. case_bool_decide; [|done].
  intros H0. cbn [app chunk_strings]. by rewrite (IH _ H0).
Qed.

(** Two different strings, one of each list, with the same image. *)
Definition collision (f : string -> string) (l1 l2 : list string) : Prop :=
  exists x y, x ∈ l1 /\ y ∈ l2 /\ x <> y /\ f x = f y.

Lemma collision_mono f l1 l2 m1 m2 : l1 ⊆ m1 -> l2 ⊆ m2 -> collision f l1 l2 -> collision f m1 m2.
Proof. intros H1 H2 (x & y & Hx & Hy & H). exists x, y. split; [by apply H1|]. by split; [apply H2|]. Qed.

Lemma app_cancel_l (a b c : string) : (a +:+ b)%string = (a +:+ c)%string -> b = c.
Proof. induction a as [|x a IH]; [done|]. intros [= E]. by apply IH. Qed.

Lemma chunk_string_inj v v' d d' :
  cv_datetime v = cv_datetime v' -> cv_scope v = cv_scope v' ->
  no_nl (cv_previous_signature v) -> no_nl (cv_previous_signature v') ->
  chunk_string v d = chunk_string v' d' ->
  cv_previous_signature v = cv_previous_signature v' /\ hex_sha256 d = hex_sha256 d'.
Proof.
  unfold chunk_string. intros -> -> Hp Hp' E. do 6 apply app_cancel_l in E.
  apply (first_sep (Ascii.ascii_of_nat 10)) in E as [-> E]; [|done..]. by do 2 apply app_cancel_l in E.
Qed.

Lemma chain_snoc v l d s v2 :
  chain v (l ++ [(d, s)])%list = Some v2 ->
  exists v1, chain v l = Some v1 /\ s = expected_chunk_signature v1 (hex_sha256 d) /\ v2 = with_previous v1 s.
Proof.
  rewrite chain_app. destruct (chain v l) as [v1|]; [|done]. cbn [mbind option_bind chain].
  case_bool_decide as E; [|done]. intros [= <-]. by exists v1.
Qed.

Lemma hex_no_nl b : no_nl (hex_of b).
Proof. apply (all_chars_free hex_char); [done|apply hex_digits]. Qed.

Lemma chain_previous_no_nl v l v' :
  no_nl (cv_previous_signature v) -> chain v l = Some v' -> no_nl (cv_previous_signature v').
Proof.
  intros Hv. destruct l as [|c l _] using rev_ind; [by intros [= <-]|]. destruct c as [d s].
  intros (v1 & _ & -> & ->)%chain_snoc. apply hex_no_nl.
Qed.

(** Two chains from one seed that end in the same signature. *)
Lemma chain_common v l1 l2 v1 v2 seed :
  no_nl (cv_previous_signature v) ->
  cv_previous_signature v = hex_of (hmac (cv_signing_key v) seed) ->
  seed ∉ chunk_strings v l1 -> seed ∉ chunk_strings v l2 ->
  chain v l1 = Some v1 -> chain v l2 = Some v2 -> cv_previous_signature v1 = cv_previous_signature v2 ->
  l1 = l2 \/ collision sha256_of (fst <$> l1) (fst <$> l2) \/
  collision (hmac (cv_signing_key v)) (seed :: chunk_strings v l1) (seed :: chunk_strings v l2).
Proof.
  intros Hnl Hseed. revert l2 v1 v2. induction l1 as [|[d1 s1] l1 IH] using rev_ind; intros l2 v1 v2 Hn1 Hn2 H1 H2 Hp.
  - destruct l2 as [|[d2 s2] l2 _] using rev_ind; [by left|]. right. right.
    injection H1 as <-. apply chain_snoc in H2 as (w & Hw & -> & ->). cbn in Hp.
    exists seed, (chunk_string w d2). rewrite (chunk_strings_app v l2 _ w Hw) in *. cbn [chunk_strings] in *.
    split; [by left|]. split; [right; apply elem_of_app; right; by left|]. split.
    + intros ->. apply Hn2, elem_of_app. right. by left.
    + apply hex_inj. rewrite <- Hseed, Hp. destruct (chain_fields v l2 w Hw) as (<- & _). done.
  - apply chain_snoc in H1 as (w1 & Hw1 & E1 & ->). destruct l2 as [|[d2 s2] l2 _] using rev_ind.
    + right. right. injection H2 as <-. cbn in Hp. exists (chunk_string w1 d1), seed.
      rewrite (chunk_strings_app v l1 _ w1 Hw1) in *. cbn [chunk_strings] in *.
      split; [right; apply elem_of_app; right; by left|]. split; [by left|]. split.
      * intros Es. apply Hn1, elem_of_app. right. rewrite Es. by left.
      * apply hex_inj. rewrite <- Hseed, <- Hp, E1. destruct (chain_fields v l1 w1 Hw1) as (<- & _). done.
    + apply chain_snoc in H2 as (w2 & Hw2 & E2 & ->). cbn in Hp.
      destruct (chain_fields v l1 w1 Hw1) as (K1 & D1 & S1 & _). destruct (chain_fields v l2 w2 Hw2) as (K2 & D2 & S2 & _).
      rewrite (chunk_strings_app v l1 _ w1 Hw1) in *. rewrite (chunk_strings_app v l2 _ w2 Hw2) in *. cbn [chunk_strings] in *.
      assert (hmac (cv_signing_key v) (chunk_string w1 d1) = hmac (cv_signing_key v) (chunk_string w2 d2)) as Eh.
      { apply hex_inj. rewrite <- K1 at 1. rewrite <- K2. rewrite E1, E2 in Hp. exact Hp. }
      destruct (decide (chunk_string w1 d1 = chunk_string w2 d2)) as [Es|Hne].
      2: { right. right. exists (chunk_string w1 d1), (chunk_string w2 d2).
           split_and!; [right; apply elem_of_app; right; by left..|done|done]. }
      apply chunk_string_inj in Es as [Epr Ed]; [|congruence..|by eapply chain_previous_no_nl|by eapply chain_previous_no_nl].
      apply hex_inj in Ed. destruct (decide (d1 = d2)) as [->|Hd].
      2: { right. left. exists d1, d2. rewrite !fmap_app.
           split_and!; [apply elem_of_app; right; by left..|done|done]. }
      destruct (IH l2 w1 w2) as [->|[Hc|Hc]]; [set_solver|set_solver|done..| | |].
      * left. by rewrite E1, E2, Hp in *.
      * right. left. revert Hc. apply collision_mono; rewrite fmap_app; set_solver.
      * right. right. revert Hc. apply collision_mono; set_solver.
Qed.

Lemma chunk_strings_shape v l x : x ∈ chunk_strings v l -> exists y, x = ("AWS4-HMAC-SHA256-PAYLOAD" +:+ y)%string.
Proof.
  revert v. induction l as [|[d s] l IH]; intros v; cbn [chunk_strings]; [by intros ?%elem_of_nil|].
  intros [->|Hx]%elem_of_cons; [unfold chunk_string; by eexists|by eapply IH].
Qed.

Lemma to_sign_not_chunk i v l : to_sign i ∉ chunk_strings v l.
Proof. intros [y Hy]%chunk_strings_shape. unfold to_sign, string_to_sign in Hy. discriminate Hy. Qed.

(** The decoder of a signed body, as the request's verifier starts it. *)
Definition request_verifier (i : VerifyInput) : ChunkVerifier :=
  chunk_verifier_new (vi_secret_access_key i) (vi_auth i) (vi_request_datetime i).

Definition signed_decoder (inner : list item) (v : ChunkVerifier) (with_trailer : bool) : Decoder :=
  with_signature_verification (with_trailers (decoder_new inner)) v with_trailer.

(** C10. A signed chunked body cannot be forged. Take a request whose signature
    [verify_request] accepts, and the chunks the client signed for it. Whatever
    body arrives in its place, in whatever pieces: if the decoder accepts it,
    its data is a sequence of chunks whose signatures chain from the request's
    own, closed by a signed final chunk, and the trailers it records for the
    integrity check are the ones its trailer signature covers (none without a
    signed trailer). And its final signature is one the client never issued,
    or the data is exactly the client's, or the two bodies exhibit a collision
    of SHA-256 or HMAC-SHA256: chunks cannot be changed, dropped, reordered or
    cut off. *)
Theorem signed_body_unforgeable i ps with_trailer items d' client cf vc :
  verify_request i = Ok tt ->
  let v := request_verifier i in
  let d := signed_decoder (inl <$> ps) v with_trailer in
  drain (drain_fuel d) d = Some (items, Ok tt, d') ->
  Forall (fun c => c.1 <> EmptyString) client -> chain v (client ++ [(EmptyString, cf)])%list = Some vc ->
  exists chunks fsig v' lines,
    let mine := (chunks ++ [(EmptyString, fsig)])%list in
    let theirs := (client ++ [(EmptyString, cf)])%list in
    cat items = cat (fst <$> chunks) /\ chain v mine = Some v' /\
    trailer_verified v' with_trailer lines /\ recorded (dc_trailers d') lines /\
    (fsig ∉ (snd <$> theirs) \/ cat items = cat (fst <$> client) \/
     collision sha256_of (fst <$> mine) (fst <$> theirs) \/
     collision (hmac (key_of i)) (to_sign i :: chunk_strings v mine) (to_sign i :: chunk_strings v theirs)).
Proof.
  intros Hi%verify_request_accepts v d Hd%drain_runs Hne Hc.
  destruct (signed_runs d items (Ok tt) d' _ Hd eq_refl I eq_refl) as (chunks & fsig & v' & lines & Hcat & Hch & Hn & Htv & Hrec);
    [done..|].
  exists chunks, fsig, v', lines. split_and!; [done..|]. cbn [sc_verifier sc_with_trailer] in Hch, Htv.
  destruct (decide (fsig ∈ snd <$> (client ++ [(EmptyString, cf)])%list)) as [Hin|]; [right|by left].
  apply list_elem_of_fmap in Hin as ([dj sj] & -> & Hin). cbn [snd] in *.
  apply list_elem_of_split in Hin as (pre & post & Esplit).
  rewrite Esplit in *. replace (pre ++ (dj, sj) :: post)%list with ((pre ++ [(dj, sj)]) ++ post)%list in Hc by (by rewrite <- app_assoc).
  rewrite chain_app in Hc. destruct (chain v (pre ++ [(dj, sj)])%list) as [w|] eqn:Hw; [|done].
  destruct (chain_common v (chunks ++ [(EmptyString, sj)])%list (pre ++ [(dj, sj)])%list v' w (to_sign i))
    as [E|[Hcol|Hcol]].
  - cbn. rewrite <- Hi. apply hex_no_nl.
  - symmetry. exact Hi.
  - apply to_sign_not_chunk.
  - apply to_sign_not_chunk.
  - done.
  - done.
  - apply chain_snoc in Hch as (? & _ & _ & ->). by apply chain_snoc in Hw as (? & _ & _ & ->).
  - left. apply app_inj_tail in E as [-> [= <-]]. rewrite Hcat. f_equal. f_equal.
    assert (post = []) as ->.
    { destruct post as [|p post _] using rev_ind; [done|]. exfalso. rewrite Forall_forall in Hne.
      rewrite app_comm_cons, app_assoc in Esplit. apply app_inj_tail in Esplit as [Epre _].
      apply (Hne (EmptyString, sj)); [|done]. rewrite Epre. set_solver. }
    by apply app_inj_tail in Esplit as [-> _].
  - right. left. revert Hcol. apply collision_mono; [done|]. rewrite !fmap_app. cbn. set_solver.
  - right. right. revert Hcol. apply collision_mono; [done|].
    replace (pre ++ (dj, sj) :: post)%list with ((pre ++ [(dj, sj)]) ++ post)%list by (by rewrite <- app_assoc).
    rewrite (chunk_strings_app v (pre ++ [(dj, sj)])%list post w Hw). set_solver.
Qed.
End binding.
