(* ===== verification/ChunkedBodyRoundtrip.v ===== *)
(** A client's signed chunked body, in whatever pieces it arrives, decodes to
    the client's data. *)
From Stdlib Require Import NArith ZArith Ascii Lia.
From stdpp Require Import base list strings option.
From S2P Require Import Prelude.
From S2P Require Import Policy.
From S2P Require Import Text.
From S2P Require Import Sigv4.
From S2P Require Import Sigv4Safety.
From S2P Require Import Middleware.
From S2P Require Import MiddlewareRoutes.
From S2P Require Import ChunkedBody.
From S2P Require Import ChunkedBodySafety.
From S2P Require Import ChunkedBodySigned.
Local Open Scope string_scope.

#[local] Arguments cat : simpl never.

(** ** The encoding *)

Definition hex_char_of (n : Z) : ascii := ascii_of_N (if (n <? 10)%Z then Z.to_N n + 48 else Z.to_N n + 87).

Fixpoint hex_digits_of (fuel : nat) (n : Z) (acc : string) : string :=
  match fuel with
  | 0 => acc
  | S fuel' =>
      let acc' := String (hex_char_of (n mod 16)) acc in
      if (n <? 16)%Z then acc' else hex_digits_of fuel' (n / 16) acc'
  end.

(** A size of at most 64 bits has at most 16 digits. *)
Definition hex_size (n : Z) : string := hex_digits_of 16 n EmptyString.

Definition chunk_header (size : Z) (sig : string) : string := hex_size size +:+ ";chunk-signature=" +:+ sig.

Definition encode_chunk (c : string * string) : string :=
  chunk_header (Z.of_nat (String.length c.1)) c.2 +:+ crlf +:+ c.1 +:+ crlf.

Definition encode_trailer (h : string * string) : string := h.1 +:+ ":" +:+ h.2 +:+ crlf.

(** The chunks, the final chunk, the trailer lines and the empty line. *)
Definition encode_body (chunks : list (string * string)) (final : string) (trailer : list (string * string)) : string :=
  cat (encode_chunk <$> chunks) +:+ chunk_header 0 final +:+ crlf +:+ cat (encode_trailer <$> trailer) +:+ crlf.

(** ** Parsing a header *)

Lemma hex_digit_char n : (0 <= n < 16)%Z -> hex_digit (hex_char_of n) = Some n.
Proof.
  intros Hn. unfold hex_digit, hex_char_of. destruct (Z.ltb_spec n 10); rewrite N_ascii_embedding, N2Z.inj_add, Z2N.id by lia; cbn [Z.of_N].
  - rewrite (proj2 (Z.leb_le 48 _)), (proj2 (Z.leb_le _ 57)) by lia. cbn [andb]. f_equal. lia.
  - rewrite (proj2 (Z.leb_gt _ 57)), andb_false_r by lia.
    rewrite (proj2 (Z.leb_le 97 _)), (proj2 (Z.leb_le _ 102)) by lia. cbn [andb]. f_equal. lia.
Qed.

Lemma parse_hex_digits_of fuel n acc :
  (0 <= n < 16 ^ Z.of_nat fuel)%Z -> (n < 2 ^ 64)%Z -> fuel <> 0 ->
  parse_hex_digits 0 (hex_digits_of fuel n acc) = parse_hex_digits n acc.
Proof.
  revert n acc. induction fuel as [|fuel IH]; [done|]. intros n acc Hn Hlt _. cbn [hex_digits_of].
  rewrite Nat2Z.inj_succ, Z.pow_succ_r in Hn by lia.
  pose proof (Z.div_mod n 16 ltac:(lia)) as Hdm. pose proof (Z.mod_pos_bound n 16 ltac:(lia)) as Hm.
  destruct (Z.ltb_spec n 16) as [Hs|Hs].
  - rewrite Z.mod_small by lia. cbn [parse_hex_digits]. rewrite hex_digit_char by lia. cbn [mbind option_bind].
    by rewrite (proj2 (Z.ltb_lt _ _)) by lia.
  - assert (0 <= n / 16 < 16 ^ Z.of_nat fuel)%Z as Hd by (split; [apply Z.div_pos; lia|apply Z.div_lt_upper_bound; lia]).
    rewrite IH; [|lia|lia|destruct fuel; [cbn in Hd; lia|done]].
    cbn [parse_hex_digits]. rewrite hex_digit_char by lia. cbn [mbind option_bind].
    rewrite (proj2 (Z.ltb_lt _ _)) by lia. f_equal. lia.
Qed.

Lemma hex_char_of_hex n : (0 <= n < 16)%Z -> hex_char (N_of_ascii (hex_char_of n)) = true.
Proof.
  intros Hn. unfold hex_char, hex_char_of. destruct (Z.ltb_spec n 10); rewrite N_ascii_embedding by lia;
    rewrite orb_true_iff, !andb_true_iff, !N.leb_le; lia.
Qed.

Lemma hex_digits_hex fuel n acc :
  (0 <= n)%Z -> all_chars hex_char acc = true -> all_chars hex_char (hex_digits_of fuel n acc) = true.
Proof.
  revert n acc. induction fuel as [|fuel IH]; intros n acc Hn Ha; [done|]. cbn [hex_digits_of].
  pose proof (Z.mod_pos_bound n 16 ltac:(lia)) as Hm.
  assert (all_chars hex_char (String (hex_char_of (n mod 16)) acc) = true) as Hc.
  { cbn [all_chars]. by rewrite hex_char_of_hex. }
  destruct (n <? 16)%Z; [done|]. apply IH; [apply Z.div_pos; lia|done].
Qed.

Lemma hex_size_hex n : (0 <= n)%Z -> all_chars hex_char (hex_size n) = true.
Proof. intros Hn. by apply hex_digits_hex. Qed.

Lemma hex_size_roundtrip n : (0 <= n < 2 ^ 64)%Z -> usize_from_hex (hex_size n) = Some n.
Proof.
  intros Hn. pose proof (hex_size_hex n ltac:(lia)) as Hh.
  pose proof (parse_hex_digits_of 16 n EmptyString ltac:(lia) ltac:(lia) ltac:(done)) as Hp.
  unfold usize_from_hex. assert (strip_prefix "+" (hex_size n) = None) as ->.
  { destruct (strip_prefix _ _) as [r|] eqn:E; [|done]. apply strip_prefix_Some in E. by rewrite E in Hh. }
  cbn [from_option id]. case_bool_decide as E; [|exact Hp]. unfold hex_size in E. rewrite E in Hp.
  cbn in Hp. injection Hp as <-. done.
Qed.

Lemma ascii_utf8 fuel s : is_ascii s = true -> utf8_ok fuel s = true.
Proof.
  revert s. induction fuel as [|fuel IH]; intros [|a s]; [done..|]. unfold is_ascii. cbn. intros [-> Hs]%andb_true_iff.
  by apply IH.
Qed.

Lemma from_utf8_ascii s : is_ascii s = true -> from_utf8 s = Some s.
Proof. intros Hs. unfold from_utf8. by rewrite ascii_utf8. Qed.

Lemma parse_chunk_header_ok n sig :
  (0 <= n < 2 ^ 64)%Z -> all_chars hex_char sig = true -> parse_chunk_header (chunk_header n sig) = inr (n, Some sig).
Proof.
  intros Hn Hsig. pose proof (hex_size_hex n ltac:(lia)) as Hh. apply hex_visible in Hsig as Hv. apply hex_visible in Hh as Hhv.
  unfold parse_chunk_header, chunk_header.
  rewrite from_utf8_ascii by (rewrite !is_ascii_app; by rewrite (visible_ascii (hex_size n)), (visible_ascii sig)).
  change (hex_size n +:+ ";chunk-signature=" +:+ sig)%string with (hex_size n +:+ String ";" ("chunk-signature=" +:+ sig))%string.
  rewrite (proj2 (split_once_Some ";" _ (hex_size n) ("chunk-signature=" +:+ sig)))
    by (split; [done|by apply (all_chars_free hex_char)]).
  rewrite trim_visible, hex_size_roundtrip by done. cbn [mbind option_bind].
  rewrite trim_visible by (by rewrite all_chars_app, Hv).
  rewrite (proj2 (strip_prefix_Some "chunk-signature=" _ sig)) by done. cbn [fmap option_fmap option_map].
  by rewrite trim_visible.
Qed.

Lemma find_crlf_line h rest : free_of cr h = true -> find_crlf (h +:+ crlf +:+ rest) = Some (String.length h).
Proof.
  induction h as [|a h IH]; intros Hf; [done|]. cbn [free_of] in Hf. apply andb_true_iff in Hf as [Ha Hf].
  specialize (IH Hf). change (String a h +:+ crlf +:+ rest)%string with (String a (h +:+ crlf +:+ rest)).
  destruct (h +:+ crlf +:+ rest)%string as [|b s] eqn:E; [by destruct h|]. rewrite find_crlf_cons, IH.
  apply negb_true_iff in Ha. by rewrite Ha.
Qed.

Lemma line_taken h rest :
  take_bytes (String.length h) (h +:+ crlf +:+ rest) = h /\ drop_bytes (String.length h + 2) (h +:+ crlf +:+ rest) = rest.
Proof.
  split.
  - pose proof (take_bytes_app_ge 0 h (crlf +:+ rest)) as H. rewrite Nat.add_0_r in H. rewrite H. apply string_app_empty.
  - by rewrite drop_bytes_app_ge.
Qed.

Lemma header_no_cr n sig : (0 <= n)%Z -> all_chars hex_char sig = true -> free_of cr (chunk_header n sig) = true.
Proof.
  intros Hn Hs. unfold chunk_header. rewrite !free_of_app.
  by rewrite (all_chars_free hex_char cr (hex_size n)), (all_chars_free hex_char cr sig) by (done || by apply hex_size_hex).
Qed.

(** ** Running the decoder over an encoded body *)

Section roundtrip.
Context `{HS : !SigCrypto, HC : !SigCryptoLaws}.

(** A decoder that has all the bytes. *)
Definition holding (state : DecoderState) (buf : string) (sink : list (string * string)) (sc : SignedChunks) : Decoder :=
  {| dc_inner := []; dc_buf := buf; dc_state := state; dc_trailers := Some sink; dc_signed := Some sc |}.

Definition advanced (sc : SignedChunks) (sig : string) : SignedChunks :=
  {| sc_verifier := with_previous (sc_verifier sc) sig; sc_with_trailer := sc_with_trailer sc; sc_hasher := EmptyString;
     sc_chunk_signature := sig; sc_trailer_lines := sc_trailer_lines sc; sc_trailer_signature := sc_trailer_signature sc |}.

Lemma expected_hex v h : all_chars hex_char (expected_chunk_signature v h) = true.
Proof. apply hex_digits. Qed.

Lemma finish_chunk_advanced sc data sig :
  sc_hasher sc = data -> sc_chunk_signature sc = sig -> sig = expected_chunk_signature (sc_verifier sc) (hex_sha256 data) ->
  finish_chunk sc = (advanced sc sig, Ok tt).
Proof.
  intros Hh Hs He. unfold finish_chunk. rewrite verify_chunk_spec, Hh, Hs, bool_decide_eq_true_2 by done. done.
Qed.

Lemma poll_header state n sig rest sink sc :
  state = ReadingHeader -> (0 <= n < 2 ^ 64)%Z -> all_chars hex_char sig = true ->
  poll_iteration (holding state (chunk_header n sig +:+ crlf +:+ rest) sink sc) =
  after_header (holding ReadingHeader rest sink sc) n (Some sig).
Proof.
  intros -> Hn Hs. unfold poll_iteration. cbn [dc_state holding]. unfold reading_header. cbn [dc_buf holding].
  rewrite find_crlf_line by (apply header_no_cr; [lia|done]). destruct (line_taken (chunk_header n sig) rest) as [-> ->].
  by rewrite parse_chunk_header_ok.
Qed.

Lemma run_chunk data sig rest sink sc items r d' :
  sc_hasher sc = EmptyString -> data <> EmptyString -> (Z.of_nat (String.length data) < 2 ^ 64)%Z ->
  sig = expected_chunk_signature (sc_verifier sc) (hex_sha256 data) ->
  runs (holding ReadingHeader rest sink (advanced sc sig)) items r d' ->
  runs (holding ReadingHeader (encode_chunk (data, sig) +:+ rest) sink sc) (data :: items) r d'.
Proof.
  intros Hh Hne Hlen Hsig Hr. assert (all_chars hex_char sig = true) as Hhex by (rewrite Hsig; apply expected_hex).
  assert (String.length data <> 0) as Hl by (by destruct data).
  unfold encode_chunk. cbn [fst snd]. rewrite !string_app_assoc.
  eapply runs_continue.
  { rewrite poll_header by (done || lia). unfold after_header. cbn [dc_signed holding].
    rewrite (proj2 (Z.eqb_neq _ 0)) by lia. done. }
  eapply runs_data.
  { erewrite poll_data; [|done|cbn; by destruct data].
    unfold take_data. cbn [dc_buf set_state set_signed holding dc_signed set_buf]. rewrite !string_length_app, Nat2Z.inj_add.
    rewrite !Z.min_l, Z.sub_diag, Nat2Z.id by lia. cbn [Z.eqb].
    rewrite take_bytes_app_le, drop_bytes_app_le, take_bytes_all, drop_bytes_all by lia.
    erewrite (finish_chunk_advanced _ data sig); [done|cbn; by rewrite Hh|done|done]. }
  eapply runs_continue.
  { unfold poll_iteration. cbn [dc_state set_state]. unfold reading_trailer. cbn. reflexivity. }
  exact Hr.
Qed.

Lemma run_final sig rest sink sc items r d' :
  sc_hasher sc = EmptyString -> sig = expected_chunk_signature (sc_verifier sc) (hex_sha256 EmptyString) ->
  runs (holding ReadingTrailingHeaders rest sink (advanced sc sig)) items r d' ->
  runs (holding ReadingHeader (chunk_header 0 sig +:+ crlf +:+ rest) sink sc) items r d'.
Proof.
  intros Hh Hsig Hr. assert (all_chars hex_char sig = true) as Hhex by (rewrite Hsig; apply expected_hex).
  eapply runs_continue; [|exact Hr]. rewrite poll_header by (done || lia). unfold after_header. cbn [dc_signed holding Z.eqb].
  unfold final_chunk. cbn [dc_signed set_signed].
  erewrite (finish_chunk_advanced _ EmptyString sig); [done|exact Hh|done|done].
Qed.

(** A trailer line the encoding can carry. *)
Definition trailer_ok (h : string * string) : Prop :=
  all_chars visible h.1 = true /\ free_of ":" h.1 = true /\ all_chars visible h.2 = true.

Definition add_line (sc : SignedChunks) (h : string * string) : SignedChunks :=
  let signature := bool_decide (to_ascii_lowercase h.1 = "x-amz-trailer-signature") in
  {| sc_verifier := sc_verifier sc; sc_with_trailer := sc_with_trailer sc; sc_hasher := sc_hasher sc;
     sc_chunk_signature := sc_chunk_signature sc;
     sc_trailer_lines := if signature then sc_trailer_lines sc else (sc_trailer_lines sc ++ [h])%list;
     sc_trailer_signature := if signature then Some h.2 else sc_trailer_signature sc |}.

Lemma run_trailer_line h rest sink sc items r d' :
  trailer_ok h ->
  runs (holding ReadingTrailingHeaders rest (sink ++ [(to_ascii_lowercase h.1, h.2)])%list (add_line sc h)) items r d' ->
  runs (holding ReadingTrailingHeaders (encode_trailer h +:+ rest) sink sc) items r d'.
Proof.
  destruct h as [name value]. intros (Hn & Hc & Hv) Hr. cbn [fst snd] in *. unfold encode_trailer. cbn [fst snd].
  set (line := (name +:+ String ":" value)%string).
  replace ((name +:+ ":" +:+ value +:+ crlf) +:+ rest)%string with (line +:+ crlf +:+ rest)%string
    by (unfold line; by rewrite !string_app_assoc).
  assert (from_utf8 line = Some line) as Hu.
  { apply from_utf8_ascii. unfold line. rewrite is_ascii_app. change (is_ascii (String ":" value)) with (is_ascii value).
    by rewrite (visible_ascii name), (visible_ascii value). }
  assert (split_once ":" line = Some (name, value)) as Hs by (by apply split_once_Some).
  eapply runs_continue; [|exact Hr]. unfold poll_iteration. cbn [dc_state holding]. unfold reading_trailing_headers.
  cbn [dc_buf holding]. rewrite find_crlf_line.
  - destruct (line_taken line rest) as [-> ->]. unfold trailing_line. rewrite bool_decide_eq_false_2 by (unfold line; by destruct name).
    cbn [dc_signed set_buf holding]. unfold add_trailer_line. rewrite Hu, Hs, !trim_visible by done.
    unfold record_trailer. cbn [dc_trailers set_signed set_buf holding]. rewrite Hu, Hs, !trim_visible by done. done.
  - unfold line. rewrite free_of_app. change (free_of cr (String ":" value)) with (free_of cr value).
    by rewrite (all_chars_free visible cr name), (all_chars_free visible cr value).
Qed.

Lemma run_trailer_lines trailer rest sink sc items r d' :
  Forall trailer_ok trailer ->
  runs (holding ReadingTrailingHeaders rest (sink ++ ((fun h => (to_ascii_lowercase h.1, h.2)) <$> trailer))%list
          (foldl add_line sc trailer)) items r d' ->
  runs (holding ReadingTrailingHeaders (cat (encode_trailer <$> trailer) +:+ rest) sink sc) items r d'.
Proof.
  intros Ht. revert sink sc. induction Ht as [|h trailer Hh _ IH]; intros sink sc Hr.
  - by rewrite app_nil_r in Hr.
  - change (encode_trailer <$> h :: trailer) with (encode_trailer h :: (encode_trailer <$> trailer)).
    rewrite cat_cons, string_app_assoc. apply run_trailer_line; [done|]. apply IH. by rewrite <- app_assoc.
Qed.

Lemma run_end sink sc :
  finish_trailer sc = Ok tt ->
  exists d', runs (holding ReadingTrailingHeaders crlf sink sc) [] (Ok tt) d' /\ dc_trailers d' = Some sink.
Proof.
  intros Hf. eexists. split; [apply runs_end|].
  - unfold poll_iteration. cbn [dc_state holding]. unfold reading_trailing_headers. cbn [dc_buf holding].
    change (find_crlf crlf) with (Some 0). unfold trailing_line. cbn [dc_signed set_state set_buf holding]. by rewrite Hf.
  - done.
Qed.

Definition after_chunks (sc : SignedChunks) (chunks : list (string * string)) : SignedChunks :=
  foldl (fun sc c => advanced sc c.2) sc chunks.

Lemma after_chunks_fields sc chunks v' :
  sc_hasher sc = EmptyString -> chain (sc_verifier sc) chunks = Some v' ->
  let sc' := after_chunks sc chunks in
  sc_verifier sc' = v' /\ sc_hasher sc' = EmptyString /\ sc_with_trailer sc' = sc_with_trailer sc /\
  sc_trailer_lines sc' = sc_trailer_lines sc /\ sc_trailer_signature sc' = sc_trailer_signature sc.
Proof.
  revert sc. induction chunks as [|[data sig] chunks IH]; intros sc Hh Hc; [by injection Hc as <-|].
  cbn [chain] in Hc. case_bool_decide; [|done]. apply (IH (advanced sc sig)); done.
Qed.

Lemma run_chunks chunks rest sink sc v' items r d' :
  sc_hasher sc = EmptyString ->
  Forall (fun c => c.1 <> EmptyString /\ (Z.of_nat (String.length c.1) < 2 ^ 64)%Z) chunks ->
  chain (sc_verifier sc) chunks = Some v' ->
  runs (holding ReadingHeader rest sink (after_chunks sc chunks)) items r d' ->
  runs (holding ReadingHeader (cat (encode_chunk <$> chunks) +:+ rest) sink sc) ((fst <$> chunks) ++ items)%list r d'.
Proof.
  intros Hh Hc. revert sc Hh. induction Hc as [|[data sig] chunks [Hne Hlen] _ IH]; intros sc Hh Hch Hr; [done|].
  cbn [chain] in Hch. case_bool_decide as Hsig; [|done].
  change (encode_chunk <$> (data, sig) :: chunks) with (encode_chunk (data, sig) :: (encode_chunk <$> chunks)).
  rewrite cat_cons, string_app_assoc. change ((fst <$> (data, sig) :: chunks) ++ items)%list with (data :: (fst <$> chunks) ++ items)%list.
  apply run_chunk; [done..|]. by apply IH.
Qed.

(** The trailer a client sends: its lines and their signature. *)
Definition client_trailer (v : ChunkVerifier) (with_trailer : bool) (lines : list (string * string)) : list (string * string) :=
  if with_trailer then (lines ++ [("x-amz-trailer-signature", expected_trailer_signature v (canonical_trailer lines))])%list
  else [].

Definition client_line (h : string * string) : Prop :=
  trailer_ok h /\ to_ascii_lowercase h.1 <> "x-amz-trailer-signature".

Lemma client_trailer_ok v with_trailer lines : Forall client_line lines -> Forall trailer_ok (client_trailer v with_trailer lines).
Proof.
  intros Hl. unfold client_trailer. destruct with_trailer; [|constructor]. apply Forall_app. split.
  - eapply Forall_impl; [exact Hl|]. by intros h [? _].
  - repeat constructor. cbn [snd]. apply hex_visible, hex_digits.
Qed.

Lemma add_lines_plain lines sc :
  Forall client_line lines ->
  let sc' := foldl add_line sc lines in
  sc_verifier sc' = sc_verifier sc /\ sc_with_trailer sc' = sc_with_trailer sc /\
  sc_trailer_lines sc' = (sc_trailer_lines sc ++ lines)%list /\ sc_trailer_signature sc' = sc_trailer_signature sc.
Proof.
  intros Hl. revert sc. induction Hl as [|h lines [_ Hh] _ IH]; intros sc; [by rewrite app_nil_r|].
  cbn [foldl]. destruct (IH (add_line sc h)) as (-> & -> & -> & ->). unfold add_line. cbn.
  rewrite bool_decide_eq_false_2 by done. by rewrite <- app_assoc.
Qed.

Lemma client_trailer_finishes sc v with_trailer lines :
  sc_verifier sc = v -> sc_with_trailer sc = with_trailer -> sc_trailer_lines sc = [] -> sc_trailer_signature sc = None ->
  Forall client_line lines -> finish_trailer (foldl add_line sc (client_trailer v with_trailer lines)) = Ok tt.
Proof.
  intros Hv Hw Hl Hs Hc. unfold client_trailer. destruct with_trailer.
  - rewrite foldl_app. destruct (add_lines_plain lines sc Hc) as (H1 & H2 & H3 & H4). cbn [foldl].
    set (sc' := foldl add_line sc lines) in *. unfold finish_trailer, add_line.
    cbn [sc_verifier sc_with_trailer sc_trailer_lines sc_trailer_signature fst snd].
    rewrite bool_decide_eq_true_2 by done. rewrite H1, H2, H3, Hw, Hl, Hv. cbn [negb app].
    unfold verify_trailer, advance. by rewrite bool_decide_eq_true_2.
  - cbn [foldl]. unfold finish_trailer. by rewrite Hw, Hl, Hs.
Qed.

Lemma encoded_body_runs v chunks fsig v' lines with_trailer :
  Forall (fun c => c.1 <> EmptyString /\ (Z.of_nat (String.length c.1) < 2 ^ 64)%Z) chunks ->
  chain v (chunks ++ [(EmptyString, fsig)])%list = Some v' -> Forall client_line lines ->
  exists d', runs (merged [encode_body chunks fsig (client_trailer v' with_trailer lines)] (signed_decoder [] v with_trailer))
    (fst <$> chunks) (Ok tt) d' /\
    dc_trailers d' = Some ((fun h => (to_ascii_lowercase h.1, h.2)) <$> client_trailer v' with_trailer lines).
Proof.
  intros Hc (w & Hw & Hsig & ->)%chain_snoc Hl. set (trailer := client_trailer _ _ _).
  set (sc0 := {| sc_verifier := v; sc_with_trailer := with_trailer; sc_hasher := EmptyString; sc_chunk_signature := EmptyString;
                 sc_trailer_lines := []; sc_trailer_signature := None |}).
  destruct (after_chunks_fields sc0 chunks w) as (Hv & Hh & Hwt & Hlines & Hts); [done|done|].
  destruct (run_end ((fun h => (to_ascii_lowercase h.1, h.2)) <$> trailer)
    (foldl add_line (advanced (after_chunks sc0 chunks) fsig) trailer)) as (d' & Hrun & Ht).
  { apply client_trailer_finishes; try done. cbn. by rewrite Hv. }
  exists d'. split; [|done].
  change (merged _ _) with (holding ReadingHeader (encode_body chunks fsig trailer +:+ EmptyString) [] sc0).
  rewrite string_app_empty, <- (app_nil_r (fst <$> chunks)). apply (run_chunks _ _ _ _ w); [done..|].
  apply run_final; [done|by rewrite Hv|]. apply run_trailer_lines; [by apply client_trailer_ok|done].
Qed.

(** C23. A signed upload goes through. For the chunks and trailer a client signs
    in a chain from the request's signature, of any sizes, the encoded body
    decodes - in whatever pieces the network delivers it - without error to
    exactly the client's data, and the trailer lines are recorded for the
    integrity check, names in lower case. *)
Theorem signed_body_roundtrip v chunks fsig v' lines with_trailer ps :
  Forall (fun c => c.1 <> EmptyString /\ (Z.of_nat (String.length c.1) < 2 ^ 64)%Z) chunks ->
  chain v (chunks ++ [(EmptyString, fsig)])%list = Some v' -> Forall client_line lines ->
  cat ps = encode_body chunks fsig (client_trailer v' with_trailer lines) ->
  let d := signed_decoder (inl <$> ps) v with_trailer in
  exists items d',
    drain (drain_fuel d) d = Some (items, Ok tt, d') /\ cat items = cat (fst <$> chunks) /\
    dc_trailers d' = Some ((fun h => (to_ascii_lowercase h.1, h.2)) <$> client_trailer v' with_trailer lines).
Proof.
  intros Hc Hch Hl Hps d. destruct (drain_total (drain_fuel d) d) as [[[items r] d'] Hd]; [done|unfold drain_fuel, left; lia|].
  destruct (encoded_body_runs v chunks fsig v' lines with_trailer) as (e & He & Ht); [done..|].
  pose proof Hd as Hr%drain_runs. destruct (runs_merged d items r d' Hr I ps eq_refl) as (i2 & d2 & R2 & C2 & T2).
  assert (merged ps d = merged [encode_body chunks fsig (client_trailer v' with_trailer lines)] (signed_decoder [] v with_trailer))
    as E.
  { unfold merged. cbn. rewrite Hps, cat_cons. change (cat []) with EmptyString. by rewrite string_app_empty. }
  rewrite E in R2. destruct (runs_det _ _ _ _ _ _ _ R2 He) as (-> & -> & ->).
  exists items, d'. split; [done|]. split; [by rewrite <- C2|congruence].
Qed.
End roundtrip.
