(* ===== verification/UploadIntegrity.v ===== *)
(** The verified body of an upload: [crates/arca-proto/src/handlers/integrity.rs]
    and the functions of [body.rs] that put a body stream together.

    [verified_upload] states what a handler knows once [IntegrityCheck::verify]
    succeeds: the stored bytes are within the size limit and match every digest
    the request declared. *)
From Stdlib Require Import NArith ZArith Ascii Lia.
From stdpp Require Import base list strings option.
From S2P Require Import Prelude.
From S2P Require Import S3Errors.
From S2P Require Import Text.
From S2P Require Import Sigv4.
From S2P Require Import Middleware.
From S2P Require Import ChunkedBody.
From S2P Require Import ChunkedBodySafety.
Local Open Scope string_scope.
Local Open Scope outcome_scope.

(** ** Checksum algorithms *)

Inductive ChecksumAlgorithm : Type := Crc32 | Crc32c | Crc64Nvme | Sha1 | Sha256.

#[export] Instance checksum_algorithm_eq_dec : EqDecision ChecksumAlgorithm.
Proof. solve_decision. Defined.

Definition ALL : list ChecksumAlgorithm := [Crc32; Crc32c; Crc64Nvme; Sha1; Sha256].

Definition name (a : ChecksumAlgorithm) : string :=
  match a with
  | Crc32 => "CRC32"
  | Crc32c => "CRC32C"
  | Crc64Nvme => "CRC64NVME"
  | Sha1 => "SHA1"
  | Sha256 => "SHA256"
  end.

Definition header_name (a : ChecksumAlgorithm) : string :=
  match a with
  | Crc32 => "x-amz-checksum-crc32"
  | Crc32c => "x-amz-checksum-crc32c"
  | Crc64Nvme => "x-amz-checksum-crc64nvme"
  | Sha1 => "x-amz-checksum-sha1"
  | Sha256 => "x-amz-checksum-sha256"
  end.

Definition digest_len (a : ChecksumAlgorithm) : nat :=
  match a with
  | Crc32 | Crc32c => 4
  | Crc64Nvme => 8
  | Sha1 => 20
  | Sha256 => 32
  end.

Definition eq_ignore_ascii_case (a b : string) : bool := bool_decide (to_ascii_lowercase a = to_ascii_lowercase b).

Definition from_name (s : string) : option ChecksumAlgorithm :=
  List.find (fun a => eq_ignore_ascii_case (name a) (trim s)) ALL.

Definition from_header_name (s : string) : option ChecksumAlgorithm :=
  List.find (fun a => eq_ignore_ascii_case (header_name a) s) ALL.

Definition ascii_upper (a : ascii) : ascii :=
  let n := N_of_ascii a in if (97 <=? n)%N && (n <=? 122)%N then ascii_of_N (n - 32) else a.

(** Code of other crates: the digests other than SHA-256 and the codecs. *)
Class BodyCodecs : Type := {
  crc_or_sha1 : ChecksumAlgorithm -> string -> string;
  b64_decode : string -> option string;
  b64_encode : string -> string;
  hex_decode : string -> option string;
}.

Section integrity.
Context `{HH : !HttpLib} `{HS : !SigCrypto} `{HB : !BodyCodecs}.

(** A hasher is the data it was fed, big-endian digest bytes at the end. *)
Definition digest (a : ChecksumAlgorithm) (data : string) : string :=
  match a with Sha256 => sha256_of data | _ => crc_or_sha1 a data end.

(** ** Declarations *)

Inductive ChecksumSource : Type :=
  | FromHeader (raw : string)
  | FromTrailer
  | Computed.

Record BodyIntegrity : Type := {
  bi_content_md5 : option string;
  bi_content_sha256 : option string;
  bi_checksum : option (ChecksumAlgorithm * ChecksumSource);
  bi_declared_algorithm : option string;
}.

Definition invalid_request (message resource : string) : S3Error := with_message InvalidRequest message resource.

Definition decode_checksum (a : ChecksumAlgorithm) (value : string) : option string :=
  raw ← b64_decode (trim value);
  if (String.length raw =? digest_len a)%nat then Some raw else None.

(** [HeaderMap::get], and the value as text. *)
Definition hget (headers : list (string * string)) (n : string) : option string :=
  snd <$> List.find (fun h => bool_decide (h.1 = n)) headers.

Definition hget_str (headers : list (string * string)) (n : string) : option string := hget headers n ≫= to_str.

Definition content_md5_of (headers : list (string * string)) (resource : string) : outcome S3Error (option string) :=
  match hget headers "content-md5" with
  | None => Ok None
  | Some value =>
      match to_str value ≫= (fun v => b64_decode (trim v)) with
      | Some raw => if (String.length raw =? 16)%nat then Ok (Some raw) else Err (S3Error_new InvalidDigest resource)
      | None => Err (S3Error_new InvalidDigest resource)
      end
  end.

(** Only a literal digest can be compared. *)
Definition content_sha256_of (headers : list (string * string)) : option string :=
  value ← hget_str headers "x-amz-content-sha256";
  if (String.length value =? 64)%nat then
    raw ← hex_decode value;
    if (String.length raw =? 32)%nat then Some raw else None
  else None.

Definition declared := list (ChecksumAlgorithm * ChecksumSource).

Definition header_checksum (headers : list (string * string)) (resource : string) (acc : declared)
    (a : ChecksumAlgorithm) : outcome S3Error declared :=
  match hget headers (header_name a) with
  | None => Ok acc
  | Some value =>
      match to_str value ≫= decode_checksum a with
      | Some raw => Ok (acc ++ [(a, FromHeader raw)])%list
      | None => Err (invalid_request ("Value for " +:+ header_name a +:+ " header is invalid.") resource)
      end
  end.

Definition trailer_checksum (resource : string) (acc : declared) (n : string) : outcome S3Error declared :=
  let n := trim n in
  if negb (starts_with (to_ascii_lowercase n) "x-amz-checksum-") then Ok acc
  else
    match from_header_name n with
    | Some a => Ok (acc ++ [(a, FromTrailer)])%list
    | None =>
        Err (invalid_request ("The value specified in the x-amz-trailer header is not supported: " +:+ n) resource)
    end.

(** [BodyIntegrity::from_headers]. *)
Definition from_headers (headers : list (string * string)) (resource : string) : outcome S3Error BodyIntegrity :=
  let? content_md5 := content_md5_of headers resource in
  let content_sha256 := content_sha256_of headers in
  let? in_headers := for_each (header_checksum headers resource) [] ALL in
  let? all := match hget_str headers "x-amz-trailer" with
              | Some trailer => for_each (trailer_checksum resource) in_headers (split "," trailer)
              | None => Ok in_headers
              end in
  if (1 <? length all)%nat then
    Err (invalid_request "Expecting a single x-amz-checksum- header. Multiple checksum Types are not allowed." resource)
  else
    let checksum := last all in
    Ok {| bi_content_md5 := content_md5; bi_content_sha256 := content_sha256; bi_checksum := checksum;
          bi_declared_algorithm := match checksum with
                                   | Some _ => None
                                   | None => map_string ascii_upper <$> hget_str headers "x-amz-checksum-algorithm"
                                   end |}.

(** [BodyIntegrity::require_checksum]. *)
Definition require_checksum (bi : BodyIntegrity) (a : ChecksumAlgorithm) (resource : string)
  : outcome S3Error BodyIntegrity :=
  match bi_checksum bi with
  | Some (d, _) =>
      if bool_decide (d = a) then Ok bi
      else
        Err (invalid_request
          ("Checksum Type mismatch occurred, expected checksum Type: " +:+ to_ascii_lowercase (name a)
           +:+ ", actual checksum Type: " +:+ to_ascii_lowercase (name d)) resource)
  | None =>
      Ok {| bi_content_md5 := bi_content_md5 bi; bi_content_sha256 := bi_content_sha256 bi;
            bi_checksum := Some (a, Computed); bi_declared_algorithm := None |}
  end.

(** ** Hashing the stream *)

Record HashState : Type := {
  hs_content_sha256 : option string;
  hs_checksum : option (ChecksumAlgorithm * string);
}.

Record IntegrityCheck : Type := {
  ic_spec : BodyIntegrity;
  ic_state : HashState;
  ic_trailers : option (list (string * string));
}.

(** The hashers [BodyIntegrity::wrap] starts; a SHA256 checksum doubles as the
    [x-amz-content-sha256] digest. *)
Definition hashers (bi : BodyIntegrity) : HashState :=
  let checksum_is_sha256 := match bi_checksum bi with Some (Sha256, _) => true | _ => false end in
  {| hs_content_sha256 := match bi_content_sha256 bi with
                          | Some _ => if checksum_is_sha256 then None else Some EmptyString
                          | None => None
                          end;
     hs_checksum := (fun c => (c.1, EmptyString)) <$> bi_checksum bi |}.

(** [HashingStream::poll_next] on a chunk. *)
Definition hash_chunk (s : HashState) (chunk : string) : HashState :=
  {| hs_content_sha256 := (fun d => d +:+ chunk) <$> hs_content_sha256 s;
     hs_checksum := (fun c => (c.1, c.2 +:+ chunk)) <$> hs_checksum s |}.

(** [LimitedByteStream]: the items up to the limit. *)
Fixpoint limit_items (limit bytes_read : Z) (items : list string) (ending : outcome IoError unit)
  : list string * outcome IoError unit :=
  match items with
  | [] => ([], ending)
  | chunk :: rest =>
      let bytes_read := (bytes_read + Z.of_nat (String.length chunk))%Z in
      if (limit <? bytes_read)%Z then ([], Err {| io_kind := Other; io_message := "EntityTooLarge" |})
      else let '(items, ending) := limit_items limit bytes_read rest ending in (chunk :: items, ending)
  end.

(** ** The body stream *)

(** [signed_streaming_mode]. *)
Definition signed_streaming_mode (headers : list (string * string)) : option bool :=
  value ← hget_str headers "x-amz-content-sha256";
  if bool_decide (value = "STREAMING-AWS4-HMAC-SHA256-PAYLOAD") then Some false
  else if bool_decide (value = "STREAMING-AWS4-HMAC-SHA256-PAYLOAD-TRAILER") then Some true
  else None.

(** A body that is not chunked, up to its first error. *)
Fixpoint plain_items (body : list item) : list string * outcome IoError unit :=
  match body with
  | [] => ([], Ok tt)
  | inl chunk :: rest => let '(items, ending) := plain_items rest in (chunk :: items, ending)
  | inr e :: _ => ([], Err e)
  end.

(** [decoded_body_stream]: the items a consumer gets, how they end, and the
    trailers of a chunked body. *)
Definition decoded_body_stream (body : list item) (headers : list (string * string)) (max_body_size : option Z)
    (signing : option (ChunkVerifier * bool))
  : outcome S3Error (list string * outcome IoError unit * option (list (string * string))) :=
  let is_chunked := from_option (fun v => starts_with v "STREAMING-") false (hget_str headers "x-amz-content-sha256") in
  let? (items, ending, trailers) :=
    if is_chunked then
      let d := with_trailers (decoder_new body) in
      let d := match signing with Some (v, with_trailer) => with_signature_verification d v with_trailer | None => d end in
      match drain (drain_fuel d) d with
      | Some (items, ending, d') => Ok (items, ending, dc_trailers d')
      | None => Panic
      end
    else let '(items, ending) := plain_items body in Ok (items, ending, None) in
  match max_body_size with
  | Some limit =>
      if (0 <? limit)%Z then let '(items, ending) := limit_items limit 0 items ending in Ok (items, ending, trailers)
      else Ok (items, ending, trailers)
  | None => Ok (items, ending, trailers)
  end.

(** [verified_body_stream_requiring], with the stream consumed. *)
Definition verified_body_stream_requiring (body : list item) (headers : list (string * string)) (max_body_size : option Z)
    (resource : string) (chunk_verifier : option ChunkVerifier) (required : option ChecksumAlgorithm)
  : outcome S3Error (list string * outcome IoError unit * IntegrityCheck) :=
  let? integrity := from_headers headers resource in
  let? integrity := match required with Some a => require_checksum integrity a resource | None => Ok integrity end in
  let? signing := match signed_streaming_mode headers, chunk_verifier with
                  | Some with_trailer, Some v => Ok (Some (v, with_trailer))
                  | Some _, None => Err (S3Error_new SignatureDoesNotMatch resource)
                  | None, _ => Ok None
                  end in
  let? (items, ending, trailers) := decoded_body_stream body headers max_body_size signing in
  Ok (items, ending,
      {| ic_spec := integrity; ic_state := foldl hash_chunk (hashers integrity) items; ic_trailers := trailers |}).

(** ** Verification *)

(** The value a checksum is compared with. *)
Definition expected_checksum (check : IntegrityCheck) (a : ChecksumAlgorithm) (raw : option string) (resource : string)
  : outcome S3Error string :=
  match raw with
  | Some raw => Ok raw
  | None =>
      match ic_trailers check ≫= (fun t => snd <$> List.find (fun h => bool_decide (h.1 = header_name a)) t) with
      | None =>
          Err (invalid_request ("x-amz-trailer declares " +:+ header_name a +:+ " but the body has no such trailing header.")
            resource)
      | Some value =>
          match decode_checksum a value with
          | Some raw => Ok raw
          | None => Err (invalid_request ("Value for " +:+ header_name a +:+ " trailing header is invalid.") resource)
          end
      end
  end.

(** [IntegrityCheck::verify]. *)
Definition verify (check : IntegrityCheck) (etag resource : string) : outcome S3Error (option string * option string) :=
  let spec := ic_spec check in
  let content_sha256 := sha256_of <$> hs_content_sha256 (ic_state check) in
  let checksum := (fun c => digest c.1 c.2) <$> hs_checksum (ic_state check) in
  let md5_fails := from_option (fun m => negb (eq_ignore_ascii_case (hex_of m) etag)) false (bi_content_md5 spec) in
  if md5_fails then Err (S3Error_new BadDigest resource)
  else
    let computed := match bi_checksum spec, checksum with
                    | Some (Sha256, _), Some d => Some d
                    | _, _ => content_sha256
                    end in
    let sha_fails := from_option (fun e => negb (bool_decide (computed = Some e))) false (bi_content_sha256 spec) in
    if sha_fails then Err (S3Error_new XAmzContentSHA256Mismatch resource)
    else
      match bi_checksum spec with
      | None => Ok (bi_declared_algorithm spec, None)
      | Some (a, Computed) =>
          match checksum with
          | Some d => Ok (Some (name a), Some (b64_encode d))
          | None => Err (S3Error_new InternalError resource)
          end
      | Some (a, source) =>
          let? expected := expected_checksum check a
                             (match source with FromHeader raw => Some raw | _ => None end) resource in
          if negb (bool_decide (checksum = Some expected)) then
            Err (with_message BadDigest ("The " +:+ name a +:+ " you specified did not match the calculated checksum.")
              resource)
          else Ok (Some (name a), Some (b64_encode expected))
      end.

(** ** What a verified upload satisfies *)

#[local] Arguments cat : simpl never.

Lemma hashed bi items :
  foldl hash_chunk (hashers bi) items =
  {| hs_content_sha256 := (fun _ => cat items) <$> hs_content_sha256 (hashers bi);
     hs_checksum := (fun c => (c.1, cat items)) <$> bi_checksum bi |}.
Proof.
  assert (forall s, foldl hash_chunk s items =
    {| hs_content_sha256 := (fun d => d +:+ cat items) <$> hs_content_sha256 s;
       hs_checksum := (fun c => (c.1, c.2 +:+ cat items)) <$> hs_checksum s |}) as H.
  { induction items as [|x items IH]; intros [c k]; cbn [foldl].
    - cbn. f_equal; [destruct c|destruct k as [[a d]|]]; cbn; by rewrite ?string_app_empty.
    - rewrite IH. cbn. rewrite !cat_cons. f_equal; [destruct c|destruct k as [[a d]|]]; cbn; by rewrite ?string_app_assoc. }
  rewrite H. unfold hashers. cbn. f_equal; [|by destruct (bi_checksum bi) as [[a src]|]].
  by destruct (bi_content_sha256 bi), (bi_checksum bi) as [[[] ?]|].
Qed.

Lemma limit_items_ok limit r items ending items' :
  limit_items limit r items ending = (items', Ok tt) ->
  items' = items /\ ending = Ok tt /\ (r <= limit -> r + Z.of_nat (String.length (cat items)) <= limit)%Z.
Proof.
  revert r items'. induction items as [|x items IH]; intros r items'; cbn [limit_items].
  - intros [= <- ->]. change (cat []) with EmptyString. cbn. split_and!; [done..|lia].
  - destruct (Z.ltb_spec limit (r + Z.of_nat (String.length x))) as [|Hle]; [done|].
    destruct (limit_items limit (r + Z.of_nat (String.length x)) items ending) as [i e] eqn:E. intros [= <- ->].
    destruct (IH _ _ E) as (-> & -> & H). split_and!; [done..|]. intros _. rewrite cat_cons, string_length_app. lia.
Qed.

Lemma for_each_header headers resource l acc acc' :
  for_each (header_checksum headers resource) acc l = Ok acc' ->
  acc ⊆ acc' /\
  forall a v, a ∈ l -> hget headers (header_name a) = Some v ->
    exists t raw, to_str v = Some t /\ decode_checksum a t = Some raw /\ (a, FromHeader raw) ∈ acc'.
Proof.
  revert acc. induction l as [|a l IH]; intros acc; cbn [for_each].
  - intros [= <-]. split; [done|]. by intros a v ?%elem_of_nil.
  - intros (acc1 & Ha & Hl)%obind_ok. destruct (IH acc1 Hl) as [Hsub H]. unfold header_checksum in Ha. split.
    + repeat case_match; simplify_eq; set_solver.
    + intros b v [->|Hb]%elem_of_cons Hv; [|by apply H]. rewrite Hv in Ha.
      destruct (to_str v) as [t|] eqn:Et; [|done]. cbn [mbind option_bind] in Ha.
      destruct (decode_checksum a t) as [raw|] eqn:Ed; [|done]. injection Ha as <-. exists t, raw. set_solver.
Qed.

Lemma from_header_name_checksum n a :
  from_header_name n = Some a -> starts_with (to_ascii_lowercase n) "x-amz-checksum-" = true.
Proof.
  intros [_ E%bool_decide_eq_true]%List.find_some. rewrite <- E. by destruct a.
Qed.

Lemma for_each_trailer resource l acc acc' :
  for_each (trailer_checksum resource) acc l = Ok acc' ->
  acc ⊆ acc' /\
  forall n a, n ∈ l -> from_header_name (trim n) = Some a -> (a, FromTrailer) ∈ acc'.
Proof.
  revert acc. induction l as [|m l IH]; intros acc; cbn [for_each].
  - intros [= <-]. split; [done|]. by intros n a ?%elem_of_nil.
  - intros (acc1 & Ha & Hl)%obind_ok. destruct (IH acc1 Hl) as [Hsub H]. unfold trailer_checksum in Ha. split.
    + repeat case_match; simplify_eq; set_solver.
    + intros n a [->|Hn]%elem_of_cons Hf; [|by eapply H].
      rewrite (from_header_name_checksum _ _ Hf), Hf in Ha. cbn [negb] in Ha. injection Ha as <-. set_solver.
Qed.

(** A declaration in the headers is the one checksum of the request. *)
Lemma from_headers_checksum headers resource bi :
  from_headers headers resource = Ok bi ->
  (forall a v, hget headers (header_name a) = Some v ->
     exists t raw, to_str v = Some t /\ decode_checksum a t = Some raw /\ bi_checksum bi = Some (a, FromHeader raw)) /\
  (forall t n a, hget_str headers "x-amz-trailer" = Some t -> n ∈ split "," t -> from_header_name (trim n) = Some a ->
     bi_checksum bi = Some (a, FromTrailer)).
Proof.
  unfold from_headers. intros (m & _ & H)%obind_ok. apply obind_ok in H as (l1 & H1 & H). apply obind_ok in H as (l2 & H2 & H).
  destruct (for_each_header _ _ _ _ _ H1) as [_ Hh].
  assert (l1 ⊆ l2) as Hsub.
  { destruct (hget_str headers "x-amz-trailer"); [by apply for_each_trailer in H2 as [? _]|by injection H2 as ->]. }
  destruct (Nat.ltb_spec 1 (length l2)) as [|Hlen]; [done|]. injection H as <-. cbn [bi_checksum].
  assert (forall x, x ∈ l2 -> last l2 = Some x) as Hone.
  { intros x Hx. destruct l2 as [|y [|z l2]]; [by apply elem_of_nil in Hx| |cbn in Hlen; lia].
    by apply list_elem_of_singleton in Hx as ->. }
  split.
  - intros a v Hv. destruct (Hh a v) as (t & raw & Ht & Hd & Hin); [by destruct a; set_solver|done|].
    exists t, raw. split_and!; [done..|]. by apply Hone, Hsub.
  - intros t n a Ht Hn Hf. rewrite Ht in H2. apply for_each_trailer in H2 as [_ H2]. apply Hone. by eapply H2.
Qed.

Lemma from_headers_digests headers resource bi :
  from_headers headers resource = Ok bi ->
  content_md5_of headers resource = Ok (bi_content_md5 bi) /\ bi_content_sha256 bi = content_sha256_of headers.
Proof.
  unfold from_headers. intros (m & Hm & H)%obind_ok. apply obind_ok in H as (l1 & H1 & H). apply obind_ok in H as (l2 & H2 & H).
  case_match; [done|]. by injection H as <-.
Qed.

(** Where the value of a verified checksum came from. *)
Definition source_matches (check : IntegrityCheck) (a : ChecksumAlgorithm) (source : ChecksumSource) (data : string) : Prop :=
  match source with
  | FromHeader raw => raw = digest a data
  | FromTrailer =>
      exists trailers v, ic_trailers check = Some trailers /\ (header_name a, v) ∈ trailers /\
        decode_checksum a v = Some (digest a data)
  | Computed => True
  end.

Lemma expected_checksum_ok check a source data resource :
  source <> Computed ->
  expected_checksum check a (match source with FromHeader raw => Some raw | _ => None end) resource = Ok (digest a data) ->
  source_matches check a source data.
Proof.
  intros Hne. unfold expected_checksum, source_matches. destruct source as [raw| |]; [by intros [= ->]| |done].
  destruct (ic_trailers check) as [t|]; [|done]. cbn [mbind option_bind].
  destruct (List.find _ t) as [[n v]|] eqn:Ef; [|done]. cbn [fmap option_fmap option_map snd].
  destruct (decode_checksum a v) as [raw|] eqn:Ed; [|done]. intros [= ->].
  apply List.find_some in Ef as [Hin%list_elem_of_In E%bool_decide_eq_true]. cbn in E. subst n. by exists t, v.
Qed.

Lemma verify_digests check data etag resource res :
  ic_state check =
    {| hs_content_sha256 := (fun _ => data) <$> hs_content_sha256 (hashers (ic_spec check));
       hs_checksum := (fun c => (c.1, data)) <$> bi_checksum (ic_spec check) |} ->
  verify check etag resource = Ok res ->
  (forall m, bi_content_md5 (ic_spec check) = Some m -> eq_ignore_ascii_case (hex_of m) etag = true) /\
  (forall e, bi_content_sha256 (ic_spec check) = Some e -> sha256_of data = e) /\
  (forall a source, bi_checksum (ic_spec check) = Some (a, source) ->
     res = (Some (name a), Some (b64_encode (digest a data))) /\ source_matches check a source data).
Proof.
  intros Hst. unfold verify. rewrite Hst. cbn [hs_content_sha256 hs_checksum].
  destruct (bi_content_md5 (ic_spec check)) as [m|] eqn:Em; cbn [from_option].
  1: destruct (eq_ignore_ascii_case (hex_of m) etag) eqn:Ee; cbn [negb]; [|done].
  all: intros Hv; split; [by intros ? [= <-]|].
  all: destruct (from_option _ false (bi_content_sha256 (ic_spec check))) eqn:Es in Hv; [done|].
  all: split; [intros e He; rewrite He in Es; cbn [from_option] in Es; apply negb_false_iff, bool_decide_eq_true in Es;
    unfold hashers in Es; rewrite He in Es; by destruct (bi_checksum (ic_spec check)) as [[[] ?]|]; simplify_eq/=|].
  all: intros a source Ha; rewrite Ha in Hv; cbn [fmap option_fmap option_map fst snd] in Hv.
  all: destruct source as [raw| |]; [| |by injection Hv as <-].
  all: apply obind_ok in Hv as (expected & He & Hv); case_bool_decide as Hd; [|done]; injection Hd as <-; cbn [negb] in Hv;
    injection Hv as <-; split; [done|]; by eapply expected_checksum_ok.
Qed.

(** C12. What a handler knows once the check of an upload passes: however the
    body was encoded and delivered, the bytes the store consumed are within the
    configured limit; their MD5 is the [Content-MD5] of the request, if it has
    one (the store's ETag being the MD5); their SHA-256 is the hex
    [x-amz-content-sha256], if that is a digest; and they match the checksum
    the request declares in a header or announces in a trailer, and the one the
    upload requires. The checksum recorded for the object is that of the bytes. *)
Theorem verified_upload body headers max resource verifier required items check etag alg value :
  verified_body_stream_requiring body headers max resource verifier required = Ok (items, Ok tt, check) ->
  verify check etag resource = Ok (alg, value) ->
  let data := cat items in
  let recorded a := alg = Some (name a) /\ value = Some (b64_encode (digest a data)) in
  (forall limit, max = Some limit -> (0 < limit)%Z -> (Z.of_nat (String.length data) <= limit)%Z) /\
  (forall v, hget headers "content-md5" = Some v ->
     exists t raw, to_str v = Some t /\ b64_decode (trim t) = Some raw /\ eq_ignore_ascii_case (hex_of raw) etag = true) /\
  (forall t raw, hget_str headers "x-amz-content-sha256" = Some t -> String.length t = 64 -> hex_decode t = Some raw ->
     String.length raw = 32 -> sha256_of data = raw) /\
  (forall a v, hget headers (header_name a) = Some v ->
     exists t, to_str v = Some t /\ decode_checksum a t = Some (digest a data) /\ recorded a) /\
  (forall t n a, hget_str headers "x-amz-trailer" = Some t -> n ∈ split "," t -> from_header_name (trim n) = Some a ->
     exists trailers v, ic_trailers check = Some trailers /\ (header_name a, v) ∈ trailers /\
       decode_checksum a v = Some (digest a data) /\ recorded a) /\
  (forall a, required = Some a -> recorded a).
Proof.
  intros (bi0 & Hf & H)%obind_ok Hv data recorded. apply obind_ok in H as (bi & Hreq & H).
  apply obind_ok in H as (signing & _ & H). apply obind_ok in H as ([[items1 ending] trailers] & Hstream & H).
  injection H as -> -> <-.
  assert (bi_content_md5 bi = bi_content_md5 bi0 /\ bi_content_sha256 bi = bi_content_sha256 bi0 /\
    (forall x, bi_checksum bi0 = Some x -> bi_checksum bi = Some x)) as (Em & Es & Ec).
  { destruct required as [a|]; [|by injection Hreq as <-]. unfold require_checksum in Hreq.
    destruct (bi_checksum bi0) as [[d src]|] eqn:E; [case_bool_decide; [|done]|];
      injection Hreq as <-; cbn; split_and!; congruence. }
  destruct (from_headers_digests _ _ _ Hf) as [Hm5 Hsha]. destruct (from_headers_checksum _ _ _ Hf) as [Hhdr Htrl].
  destruct (fun H => verify_digests _ data _ _ _ H Hv) as (V1 & V2 & V3); [apply hashed|]. cbn [ic_spec] in V1, V2, V3.
  split_and!.
  - intros limit -> Hpos. unfold decoded_body_stream in Hstream. apply obind_ok in Hstream as ([[it en] tr] & _ & Hl).
    rewrite (proj2 (Z.ltb_lt 0 limit)) in Hl by done. destruct (limit_items limit 0 it en) as [i2 e2] eqn:El.
    injection Hl as -> -> _. apply limit_items_ok in El as (<- & _ & Hle). unfold data. lia.
  - intros v Hg. unfold content_md5_of in Hm5. rewrite Hg in Hm5. destruct (to_str v) as [t|]; [|done].
    cbn [mbind option_bind] in Hm5. destruct (b64_decode (trim t)) as [raw|] eqn:Ed; [|done]. case_match; [|done].
    injection Hm5 as Hm5. exists t, raw. split_and!; [done..|]. apply V1. by rewrite Em.
  - intros t raw Ht Hl Hd Hr. apply V2. rewrite Es, Hsha. unfold content_sha256_of. rewrite Ht. cbn [mbind option_bind].
    rewrite Hl, Hd. cbn [Nat.eqb mbind option_bind]. by rewrite Hr.
  - intros a v Hg. destruct (Hhdr a v Hg) as (t & raw & Ht & Hd & Hc). apply Ec, V3 in Hc as [[= -> ->] Hs].
    exists t. cbn in Hs. subst raw. done.
  - intros t n a Ht Hn Hfn. apply (Htrl t n a Ht Hn), Ec, V3 in Hfn as [[= -> ->] (tr & v & H1 & H2 & H3)]. by exists tr, v.
  - intros a ->. unfold require_checksum in Hreq. destruct (bi_checksum bi0) as [[d src]|] eqn:E.
    + case_bool_decide; [|done]. subst d. by destruct (V3 a src (Ec _ eq_refl)) as [[= -> ->] _].
    + injection Hreq as <-. by destruct (V3 a Computed eq_refl) as [[= -> ->] _].
Qed.
End integrity.
