(* ===== verification/UploadRuns.v ===== *)
(** The upload theorems at concrete bodies. *)
From Stdlib Require Import NArith ZArith Ascii Lia.
From stdpp Require Import base list strings option.
From S2P Require Import Prelude.
From S2P Require Import S3Errors.
From S2P Require Import Text.
From S2P Require Import Sigv4.
From S2P Require Import Sigv4Safety.
From S2P Require Import Sigv4Sample.
From S2P Require Import Middleware.
From S2P Require Import MiddlewareRuns.
From S2P Require Import ChunkedBody.
From S2P Require Import ChunkedBodySafety.
From S2P Require Import ChunkedBodySigned.
From S2P Require Import ChunkedBodyRoundtrip.
From S2P Require Import UploadIntegrity.
Local Open Scope string_scope.

(** ** Concrete codecs *)

Definition sample_crc (data : string) : string :=
  let c := ascii_of_N (checksum data mod 26 + 97) in String c (String c (String c (String c EmptyString))).

#[export] Instance sample_codecs : BodyCodecs := {|
  crc_or_sha1 _ data := sample_crc data;
  b64_decode s := Some s;
  b64_encode s := s;
  hex_decode s := None;
|}.

(** ** A signed body *)

Definition upload_input : VerifyInput := {|
  vi_method := "PUT"; vi_uri_path := "/mine/report"; vi_query_string := EmptyString; vi_headers := [("host", "h")];
  vi_payload_hash := "STREAMING-AWS4-HMAC-SHA256-PAYLOAD-TRAILER";
  vi_auth := {| pa_access_key_id := "AKID"; pa_date := "20260101"; pa_region := "us-east-1"; pa_service := "s3";
                pa_signed_headers := ["host"]; pa_signature := "b2" |};
  vi_secret_access_key := "secret"; vi_request_datetime := sample_datetime |}.

Definition client_chunks : list (string * string) := [("hello ", "23"); ("world", "c3")].

Definition upload_verifier : ChunkVerifier := request_verifier upload_input.
Definition final_verifier : ChunkVerifier := with_previous upload_verifier "99".

Definition upload_lines : list (string * string) := [("x-amz-checksum-crc32", "vvvv")].

Definition upload_body : string :=
  encode_body client_chunks "99" [("x-amz-checksum-crc32", "vvvv"); ("x-amz-trailer-signature", "53")].

(** The network cuts the first chunk. *)
Definition upload_pieces : list string := [take_bytes 25 upload_body; drop_bytes 25 upload_body].

Lemma upload_verified : verify_request upload_input = Ok tt.
Proof. vm_compute. reflexivity. Qed.

Lemma upload_chain : chain upload_verifier (client_chunks ++ [(EmptyString, "99")])%list = Some final_verifier.
Proof. vm_compute. reflexivity. Qed.

Lemma upload_encoded : cat upload_pieces = encode_body client_chunks "99" (client_trailer final_verifier true upload_lines).
Proof. vm_compute. reflexivity. Qed.

Lemma signed_body_roundtrip_witness :
  let d := signed_decoder (inl <$> upload_pieces) upload_verifier true in
  exists items d',
    drain (drain_fuel d) d = Some (items, Ok tt, d') /\ cat items = cat (fst <$> client_chunks) /\
    dc_trailers d' = Some ((fun h => (to_ascii_lowercase h.1, h.2)) <$> client_trailer final_verifier true upload_lines).
Proof.
  apply (signed_body_roundtrip upload_verifier client_chunks "99" final_verifier upload_lines true upload_pieces).
  - repeat constructor; discriminate.
  - exact upload_chain.
  - constructor; [|constructor]. split; [by split_and!|discriminate].
  - exact upload_encoded.
Defined.

Definition upload_decoder : Decoder := signed_decoder (inl <$> upload_pieces) upload_verifier true.

Definition upload_done : Decoder :=
  match drain (drain_fuel upload_decoder) upload_decoder with Some (_, _, d') => d' | None => upload_decoder end.

Lemma upload_drains :
  drain (drain_fuel upload_decoder) upload_decoder = Some (["hel"; "lo "; "world"], Ok tt, upload_done).
Proof. vm_compute. reflexivity. Qed.

Lemma signed_body_unforgeable_witness :
  exists chunks fsig v' lines,
    let mine := (chunks ++ [(EmptyString, fsig)])%list in
    let theirs := (client_chunks ++ [(EmptyString, "99")])%list in
    cat ["hel"; "lo "; "world"] = cat (fst <$> chunks) /\ chain upload_verifier mine = Some v' /\
    trailer_verified v' true lines /\ recorded (dc_trailers upload_done) lines /\
    (fsig ∉ (snd <$> theirs) \/ cat ["hel"; "lo "; "world"] = cat (fst <$> client_chunks) \/
     collision sha256_of (fst <$> mine) (fst <$> theirs) \/
     collision (hmac (key_of upload_input)) (to_sign upload_input :: chunk_strings upload_verifier mine)
       (to_sign upload_input :: chunk_strings upload_verifier theirs)).
Proof.
  apply (signed_body_unforgeable upload_input upload_pieces true ["hel"; "lo "; "world"] upload_done client_chunks "99"
    final_verifier).
  - exact upload_verified.
  - exact upload_drains.
  - repeat constructor; discriminate.
  - exact upload_chain.
Defined.

(** ** A verified upload *)

Definition upload_headers : list (string * string) :=
  [("x-amz-content-sha256", "STREAMING-AWS4-HMAC-SHA256-PAYLOAD-TRAILER"); ("x-amz-trailer", "x-amz-checksum-crc32")].

Definition upload_check : IntegrityCheck :=
  {| ic_spec := {| bi_content_md5 := None; bi_content_sha256 := None; bi_checksum := Some (Crc32, FromTrailer);
                   bi_declared_algorithm := None |};
     ic_state := {| hs_content_sha256 := None; hs_checksum := Some (Crc32, "hello world") |};
     ic_trailers := Some [("x-amz-checksum-crc32", "vvvv"); ("x-amz-trailer-signature", "53")] |}.

Lemma upload_streams :
  verified_body_stream_requiring (inl <$> upload_pieces) upload_headers (Some 11%Z) "/mine/report" (Some upload_verifier) None =
  Ok (["hel"; "lo "; "world"], Ok tt, upload_check).
Proof. vm_compute. reflexivity. Qed.

Lemma upload_checked : verify upload_check "etag" "/mine/report" = Ok (Some "CRC32", Some "vvvv").
Proof. vm_compute. reflexivity. Qed.

Lemma verified_upload_witness : (Z.of_nat (String.length (cat ["hel"; "lo "; "world"])) <= 11)%Z.
Proof.
  destruct (verified_upload (inl <$> upload_pieces) upload_headers (Some 11%Z) "/mine/report" (Some upload_verifier) None
    ["hel"; "lo "; "world"] upload_check "etag" (Some "CRC32") (Some "vvvv") upload_streams upload_checked) as [H _].
  apply H; reflexivity.
Defined.
