(* ===== verification/MultipartChecksum.v ===== *)
(** The checksum of a completed multipart upload
    ([crates/arca-proto/src/handlers/multipart_checksum.rs]).

    A FULL_OBJECT checksum is put together from the CRCs of the parts with
    [crc_combine], zlib's matrix method on the bits of the CRC, without reading a
    byte of the object.  [full_object_checksum] shows that the result is the CRC
    of the whole object.

    Words are [N], below 2 to the width.  The digests themselves are computed by
    other crates ([BodyCodecs]); [CrcLaws] states that the CRCs among them are the
    ones of the catalogue, given here bit by bit ([crc_of]). *)

From Stdlib Require Import NArith ZArith Ascii Lia.
From stdpp Require Import base list strings option.
From S2P Require Import Prelude S3Errors Types BlobRead Text Sigv4 Sigv4Safety Sigv4Sample Middleware MiddlewareRuns ChunkedBody ChunkedBodySafety UploadIntegrity.
Local Open Scope string_scope.
Local Open Scope outcome_scope.

(** ** Types *)

Inductive ChecksumType : Type := Composite | FullObject.

#[export] Instance ChecksumType_eq_dec : EqDecision ChecksumType.
Proof. solve_decision. Defined.

Definition type_as_str (t : ChecksumType) : string :=
  match t with Composite => "COMPOSITE" | FullObject => "FULL_OBJECT" end.

Definition type_parse (value : string) : option ChecksumType :=
  let v := map_string ascii_upper (trim value) in
  if bool_decide (v = "COMPOSITE") then Some Composite
  else if bool_decide (v = "FULL_OBJECT") then Some FullObject else None.

Definition default_for (a : ChecksumAlgorithm) : ChecksumType :=
  match a with Crc64Nvme => FullObject | _ => Composite end.

Definition allows (t : ChecksumType) (a : ChecksumAlgorithm) : bool :=
  match t, a with
  | Composite, Crc64Nvme => false
  | FullObject, (Sha1 | Sha256) => false
  | _, _ => true
  end.

Definition of_value (value : string) : ChecksumType := if contains value "-" then Composite else FullObject.

Definition upload_type (a : ChecksumAlgorithm) (stored : option string) : ChecksumType :=
  match stored ≫= type_parse with
  | Some kind => if allows kind a then kind else default_for a
  | None => default_for a
  end.

(** ** Combining CRCs *)

(** The row of the matrix for each set bit; a bit past the last row is out of bounds. *)
Fixpoint times {E : Type} (matrix : list N) (vector : N) : outcome E N :=
  if (vector =? 0)%N then Ok 0%N
  else
    match matrix with
    | [] => Panic
    | row :: matrix' =>
        let? rest := times matrix' (N.shiftr vector 1) in
        Ok (if N.odd vector then N.lxor row rest else rest)
    end.

Fixpoint square_rows {E : Type} (matrix rows : list N) : outcome E (list N) :=
  match rows with
  | [] => Ok []
  | r :: rows' =>
      let? x := times matrix r in
      let? xs := square_rows matrix rows' in
      Ok (x :: xs)
  end.

Definition square {E : Type} (matrix : list N) : outcome E (list N) := square_rows matrix matrix.

(** The operator for one zero bit. *)
Definition zero_bit (width : nat) (poly : N) : list N :=
  poly :: ((fun k => N.shiftl 1 (N.of_nat k)) <$> seq 0 (width - 1)).

Definition applied {E : Type} (matrix : list N) (len2 crc1 : N) : outcome E N :=
  if N.odd len2 then times matrix crc1 else Ok crc1.

(** The loop, with the two buffers it takes turns with. *)
Fixpoint combine_loop {E : Type} (fuel : nat) (odd : list N) (crc1 len2 : N) : outcome E N :=
  match fuel with
  | O => Ok crc1
  | S fuel' =>
      let? even := square odd in
      let? crc1 := applied even len2 crc1 in
      let len2 := N.shiftr len2 1 in
      if (len2 =? 0)%N then Ok crc1
      else
        let? odd := square even in
        let? crc1 := applied odd len2 crc1 in
        let len2 := N.shiftr len2 1 in
        if (len2 =? 0)%N then Ok crc1 else combine_loop fuel' odd crc1 len2
  end.

(** Each turn of the loop shifts out two bits of the length, which has 64. *)
Definition COMBINE_FUEL : nat := 32.

Definition combine_raw {E : Type} (crc1 crc2 len2 : N) (width : nat) (poly : N) : outcome E N :=
  if (len2 =? 0)%N then Ok crc1
  else
    let? even := square (zero_bit width poly) in
    let? odd := square even in
    let? crc1 := combine_loop COMBINE_FUEL odd crc1 len2 in
    Ok (N.lxor crc1 crc2).

(** [from_be_bytes] and [to_be_bytes]. *)
Fixpoint from_be (acc : N) (s : string) : N :=
  match s with
  | EmptyString => acc
  | String a s' => from_be (256 * acc + N_of_ascii a) s'
  end.

Fixpoint to_be (bytes : nat) (n : N) : string :=
  match bytes with
  | O => EmptyString
  | S b => String (ascii_of_N (N.shiftr n (8 * N.of_nat b) mod 256)) (to_be b n)
  end.

(** [u64::reverse_bits]. *)
Definition reverse_bits (n : N) : N :=
  foldl (fun acc k => N.lor (N.shiftl acc 1) (N.land (N.shiftr n (N.of_nat k)) 1)) 0%N (seq 0 64).

(** Width and polynomial in the catalogue of the [crc] crate. *)
Definition crc_width (a : ChecksumAlgorithm) : option (nat * N) :=
  match a with
  | Crc32 => Some (32, 0x04c11db7%N)
  | Crc32c => Some (32, 0x1edc6f41%N)
  | Crc64Nvme => Some (64, 0xad93d23594c93659%N)
  | Sha1 | Sha256 => None
  end.

Definition combine_with {E : Type} (width : nat) (poly : N) (crc1 crc2 : string) (len2 : N) : outcome E (option string) :=
  if bool_decide (String.length crc1 <> width / 8) || bool_decide (String.length crc2 <> width / 8) then Ok None
  else
    let reflected := N.shiftr (reverse_bits poly) (N.of_nat (64 - width)) in
    let? c := combine_raw (from_be 0 crc1) (from_be 0 crc2) len2 width reflected in
    Ok (Some (to_be (width / 8) c)).

Definition crc_combine {E : Type} (a : ChecksumAlgorithm) (crc1 crc2 : string) (len2 : N) : outcome E (option string) :=
  match crc_width a with
  | Some (width, poly) => combine_with width poly crc1 crc2 len2
  | None => Ok None
  end.

(** ** The checksum of an object *)

Record PartChecksum : Type := { pc_checksum : option string; pc_size : N }.

Record ObjectChecksum : Type := {
  oc_algorithm : ChecksumAlgorithm;
  oc_kind : ChecksumType;
  oc_value : string;
}.

(** A part of the request document. *)
Record CompletePart : Type := {
  cpt_part_number : Z;
  cpt_etag : string;
  cpt_checksums : ChecksumAlgorithm -> option string;
}.

Definition checksum_for (p : CompletePart) (a : ChecksumAlgorithm) : option string := trim <$> cpt_checksums p a.

Section checksum.
Context {http : HttpLib} {crypto : SigCrypto} {codecs : BodyCodecs}.

Definition raw_checksums (a : ChecksumAlgorithm) (parts : list PartChecksum) : option (list string) :=
  mapM (fun p => pc_checksum p ≫= decode_checksum a) parts.

(** The loop of the FULL_OBJECT case. *)
Fixpoint combine_parts {E : Type} (a : ChecksumAlgorithm) (combined : string) (rest : list (string * N))
  : outcome E (option string) :=
  match rest with
  | [] => Ok (Some combined)
  | (next, size) :: rest' =>
      let? c := crc_combine a combined next size in
      match c with
      | Some c => combine_parts a c rest'
      | None => Ok None
      end
  end.

Definition object_checksum {E : Type} (a : ChecksumAlgorithm) (kind : ChecksumType) (parts : list PartChecksum)
  : outcome E (option string) :=
  if is_nil parts || negb (allows kind a) then Ok None
  else
    match raw_checksums a parts with
    | None => Ok None
    | Some raw =>
        match kind with
        | Composite =>
            Ok (Some (b64_encode (digest a (cat raw)) +:+ "-"
                      +:+ u64_to_string (Z.of_nat (length parts))))
        | FullObject =>
            match zip raw (pc_size <$> parts) with
            | [] => Ok None
            | (first, _) :: rest =>
                let? c := combine_parts a first rest in
                Ok (b64_encode <$> c)
            end
        end
    end.

Definition trimmed (headers : list (string * string)) (n : string) : option string := trim <$> hget_str headers n.

Definition select_for_upload (headers : list (string * string)) (resource : string)
  : outcome S3Error (option (ChecksumAlgorithm * ChecksumType)) :=
  let? a := match trimmed headers "x-amz-checksum-algorithm" with
            | None => Ok None
            | Some n =>
                match from_name n with
                | Some a => Ok (Some a)
                | None => Err (invalid_request ("Checksum algorithm provided is unsupported. Please try again with any of "
                    +:+ "the valid types: [CRC32, CRC32C, SHA1, SHA256, CRC64NVME]") resource)
                end
            end in
  let? kind := match trimmed headers "x-amz-checksum-type" with
               | None => Ok None
               | Some v =>
                   match type_parse v with
                   | Some kind => Ok (Some kind)
                   | None => Err (invalid_request "Value for x-amz-checksum-type header is invalid." resource)
                   end
               end in
  match a, kind with
  | None, None => Ok None
  | None, Some _ => Err (invalid_request ("The x-amz-checksum-type header can only be used with the "
      +:+ "x-amz-checksum-algorithm header.") resource)
  | Some a, None => Ok (Some (a, default_for a))
  | Some a, Some kind =>
      if allows kind a then Ok (Some (a, kind))
      else Err (invalid_request ("The " +:+ type_as_str kind +:+ " checksum type can not be used with the "
                                 +:+ name a +:+ " checksum algorithm.") resource)
  end.

(** [x-amz-checksum-<algorithm>] against the checksum computed from the parts. *)
Definition declared_matches (headers : list (string * string)) (resource : string) (a : ChecksumAlgorithm)
    (computed : option string) (_ : unit) (declared_algorithm : ChecksumAlgorithm) : outcome S3Error unit :=
  match trimmed headers (header_name declared_algorithm) with
  | None => Ok tt
  | Some declared =>
      if bool_decide (declared_algorithm <> a) then
        Err (invalid_request ("Checksum Type mismatch occurred, expected checksum Type: " +:+ to_ascii_lowercase (name a)
               +:+ ", actual checksum Type: " +:+ to_ascii_lowercase (name declared_algorithm)) resource)
      else
        match computed with
        | Some c =>
            if bool_decide (declared = c) then Ok tt
            else Err (with_message BadDigest
                   ("The " +:+ name a +:+ " you specified did not match the calculated checksum.") resource)
        | None => Ok tt
        end
  end.

Definition part_matches (resource : string) (a : ChecksumAlgorithm) (_ : unit) (p : PartRecord * CompletePart)
  : outcome S3Error unit :=
  match checksum_for p.2 a, pt_checksum_value p.1 with
  | Some given, Some have =>
      if bool_decide (given = have) then Ok tt
      else Err (with_message BadDigest ("The " +:+ name a +:+ " you specified for part "
             +:+ u64_to_string (pt_part_number p.1) +:+ " did not match what we received.") resource)
  | _, _ => Ok tt
  end.

(** [.sum::<u64>()], which wraps around in a release build. *)
Definition sizes_total (stored : list PartRecord) : Z := foldl (fun acc p => u64 (acc + pt_size p)) 0%Z stored.

Definition part_checksums (stored : list PartRecord) : list PartChecksum :=
  (fun p => {| pc_checksum := pt_checksum_value p; pc_size := Z.to_N (pt_size p) |}) <$> stored.

Definition plan_complete (upload : MultipartUploadRecord) (stored : list PartRecord) (requested : list CompletePart)
    (headers : list (string * string)) (resource : string) : outcome S3Error (option ObjectChecksum) :=
  let? _ := match trimmed headers "x-amz-mp-object-size" with
            | None => Ok tt
            | Some declared =>
                if bool_decide (parse_u64 declared = Some (sizes_total stored)) then Ok tt
                else Err (invalid_request ("The provided 'x-amz-mp-object-size' header value " +:+ declared
                       +:+ " does not match what was computed: " +:+ u64_to_string (sizes_total stored)) resource)
            end in
  match mu_checksum_algorithm upload ≫= from_name with
  | None => Ok None
  | Some a =>
      let kind := upload_type a (mu_checksum_type upload) in
      let? _ := match trimmed headers "x-amz-checksum-type" with
                | None => Ok tt
                | Some declared =>
                    if bool_decide (type_parse declared = Some kind) then Ok tt
                    else Err (invalid_request ("The upload was created with the " +:+ type_as_str kind
                           +:+ " checksum type, the complete request says " +:+ declared +:+ ".") resource)
                end in
      let? computed := object_checksum a kind (part_checksums stored) in
      let? _ := for_each (declared_matches headers resource a computed) tt ALL in
      let? _ := for_each (part_matches resource a) tt (zip stored requested) in
      Ok ((fun v => {| oc_algorithm := a; oc_kind := kind; oc_value := v |}) <$> computed)
  end.
End checksum.

(** ** Linear maps *)

(** Maps on words of [w] bits that respect exclusive or. *)
Record linear (w : N) (f : N -> N) : Prop := {
  lin_lxor : forall x y, f (N.lxor x y) = N.lxor (f x) (f y);
  lin_bound : forall x, (x < 2 ^ w)%N -> (f x < 2 ^ w)%N;
}.

Lemma lin_zero w f : linear w f -> f 0%N = 0%N.
Proof. intros Hf. rewrite <- (N.lxor_nilpotent 0) at 1. by rewrite (lin_lxor _ _ Hf), N.lxor_nilpotent. Qed.

Lemma linear_compose w f g : linear w f -> linear w g -> linear w (fun x => f (g x)).
Proof.
  intros Hf Hg. split; [|by intros; apply (lin_bound _ _ Hf), (lin_bound _ _ Hg)].
  intros x y. by rewrite (lin_lxor _ _ Hg), (lin_lxor _ _ Hf).
Qed.

Lemma lxor_bound w x y : (x < 2 ^ w)%N -> (y < 2 ^ w)%N -> (N.lxor x y < 2 ^ w)%N.
Proof.
  intros Hx Hy. destruct (decide (N.lxor x y = 0%N)) as [->|Hn]; [lia|].
  apply N.log2_lt_pow2; [lia|]. eapply N.le_lt_trans; [apply N.log2_lxor|].
  destruct (decide (w = 0%N)) as [->|Hw]; [rewrite N.pow_0_r in *; assert (x = 0%N) as -> by lia; assert (y = 0%N) as -> by lia; done|].
  apply N.max_lub_lt.
  - destruct (decide (x = 0%N)) as [->|]; [cbn; lia|apply N.log2_lt_pow2; lia].
  - destruct (decide (y = 0%N)) as [->|]; [cbn; lia|apply N.log2_lt_pow2; lia].
Qed.

(** The matrix of a map: its values on the bits. *)
Definition matrix_of (w : nat) (f : N -> N) : list N := (fun k => f (N.shiftl 1 (N.of_nat k))) <$> seq 0 w.

Lemma split_bit v : v = N.lxor (if N.odd v then 1 else 0) (N.shiftl (N.shiftr v 1) 1).
Proof.
  apply N.bits_inj. intros n. rewrite N.lxor_spec. destruct (decide (n = 0%N)) as [->|Hn].
  - rewrite N.shiftl_spec_low by lia. rewrite N.bit0_odd. by destruct (N.odd v).
  - rewrite N.shiftl_spec_high, N.shiftr_spec by lia. replace (n - 1 + 1)%N with n by lia.
    replace (N.testbit (if N.odd v then 1 else 0) n) with false; [by rewrite xorb_false_l|].
    destruct (N.odd v); [|by rewrite N.bits_0]. symmetry. change 1%N with (2 ^ 0)%N. by apply N.pow2_bits_false.
Qed.

Lemma shiftr_bound v n : (v < 2 ^ N.of_nat (S n))%N -> (N.shiftr v 1 < 2 ^ N.of_nat n)%N.
Proof.
  intros Hv. rewrite N.shiftr_div_pow2. apply N.Div0.div_lt_upper_bound.
  by rewrite <- N.pow_add_r, N.add_comm, N.add_1_r, <- Nat2N.inj_succ.
Qed.

Lemma times_rows {E} f w j n v :
  linear w f -> (v < 2 ^ N.of_nat n)%N ->
  times (E:=E) ((fun k => f (N.shiftl 1 (N.of_nat k))) <$> seq j n) v = Ok (f (N.shiftl v (N.of_nat j))).
Proof.
  intros Hf. revert j v. induction n as [|n IH]; intros j v Hv.
  - assert (v = 0%N) as -> by (cbn in Hv; lia). cbn. by rewrite N.shiftl_0_l, (lin_zero _ _ Hf).
  - cbn [seq fmap list_fmap times]. destruct (v =? 0)%N eqn:E0.
    { apply N.eqb_eq in E0 as ->. by rewrite N.shiftl_0_l, (lin_zero _ _ Hf). }
    rewrite IH by by apply shiftr_bound. cbn [obind]. f_equal.
    assert (f (N.shiftl v (N.of_nat j)) =
      N.lxor (f (N.shiftl (if N.odd v then 1 else 0) (N.of_nat j))) (f (N.shiftl (N.shiftr v 1) (N.of_nat (S j))))) as ->.
    { rewrite <- (lin_lxor _ _ Hf). f_equal. rewrite (split_bit v) at 1. rewrite N.shiftl_lxor, N.shiftl_shiftl.
      do 2 f_equal. lia. }
    destruct (N.odd v); [done|]. by rewrite N.shiftl_0_l, (lin_zero _ _ Hf), N.lxor_0_l.
Qed.

Lemma times_matrix {E} f w v :
  linear (N.of_nat w) f -> (v < 2 ^ N.of_nat w)%N -> times (E:=E) (matrix_of w f) v = Ok (f v).
Proof. intros Hf Hv. unfold matrix_of. by rewrite (times_rows f (N.of_nat w)), N.shiftl_0_r. Qed.

Lemma square_matrix {E} f w : linear (N.of_nat w) f -> square (E:=E) (matrix_of w f) = Ok (matrix_of w (fun x => f (f x))).
Proof.
  intros Hf. unfold square.
  assert (forall l, (forall k, k ∈ l -> (k < w)%nat) ->
    square_rows (E:=E) (matrix_of w f) ((fun k => f (N.shiftl 1 (N.of_nat k))) <$> l)
    = Ok ((fun k => f (f (N.shiftl 1 (N.of_nat k)))) <$> l)) as H.
  { induction l as [|k l IH]; intros Hl; [done|]. cbn [fmap list_fmap square_rows].
    rewrite times_matrix; [|done|].
    - cbn [obind]. rewrite IH; [done|]. intros; apply Hl; by right.
    - apply (lin_bound _ _ Hf). rewrite N.shiftl_1_l. apply N.pow_lt_mono_r; [lia|].
      specialize (Hl k ltac:(by left)). lia. }
  apply H. intros k Hk%elem_of_seq. lia.
Qed.

Lemma app_empty_r (s : string) : s +:+ EmptyString = s.
Proof. induction s as [|a s IH]; [done|]. change (String a (s +:+ EmptyString) = String a s). by rewrite IH. Qed.

(** ** CRCs *)

(** One bit shifted out of the register, as in the reflected algorithm of the catalogue. *)
Definition crc_bit (poly c : N) : N :=
  if N.odd c then N.lxor (N.shiftr c 1) poly else N.shiftr c 1.

Fixpoint crc_raw (poly c : N) (data : string) : N :=
  match data with
  | EmptyString => c
  | String a data' => crc_raw poly (N.iter 8 (crc_bit poly) (N.lxor c (N_of_ascii a))) data'
  end.

(** Initial value and final exclusive or are all ones. *)
Definition crc_of (w : nat) (poly : N) (data : string) : N :=
  N.lxor (crc_raw poly (N.ones (N.of_nat w)) data) (N.ones (N.of_nat w)).

Section crc.
Variables (w : nat) (poly : N).
Hypothesis Hw : (8 <= w)%nat.
Hypothesis Hpoly : (poly < 2 ^ N.of_nat w)%N.
Abbreviation zeros n := (N.iter n (crc_bit poly)).

Lemma crc_bit_linear : linear (N.of_nat w) (crc_bit poly).
Proof.
  split.
  - intros x y. unfold crc_bit. rewrite N.shiftr_lxor, <- !N.bit0_odd, N.lxor_spec, !N.bit0_odd.
    apply N.bits_inj. intros n. destruct (N.odd x), (N.odd y); cbn; rewrite !N.lxor_spec;
      by destruct (N.testbit (N.shiftr x 1) n), (N.testbit (N.shiftr y 1) n), (N.testbit poly n).
  - intros x Hx. assert (N.shiftr x 1 < 2 ^ N.of_nat w)%N as Hs.
    { rewrite N.shiftr_div_pow2. eapply N.le_lt_trans; [apply N.Div0.div_le_upper_bound with (q := x); lia|done]. }
    unfold crc_bit. destruct (N.odd x); [by apply lxor_bound|done].
Qed.

Lemma zeros_linear n : linear (N.of_nat w) (zeros n).
Proof.
  induction n as [|n IH] using N.peano_ind; [by split|].
  assert (forall x, zeros (N.succ n) x = crc_bit poly (zeros n x)) as E by (intros; apply N.iter_succ).
  destruct (linear_compose _ _ _ crc_bit_linear IH) as [H1 H2]. split; [intros x y|intros x]; rewrite !E; auto.
Qed.

Lemma matrix_of_ext f g : (forall x, f x = g x) -> matrix_of w f = matrix_of w g.
Proof. intros H. unfold matrix_of. apply list_fmap_ext. intros; apply H. Qed.

Lemma square_zeros {E} n : square (E:=E) (matrix_of w (zeros n)) = Ok (matrix_of w (zeros (2 * n))).
Proof.
  rewrite square_matrix by apply zeros_linear. f_equal. apply matrix_of_ext. intros x.
  rewrite <- N.iter_add. f_equal. lia.
Qed.

Lemma zero_bit_matrix : zero_bit w poly = matrix_of w (zeros 1).
Proof.
  unfold zero_bit, matrix_of. destruct w as [|w']; [lia|]. cbn [seq fmap list_fmap]. f_equal.
  rewrite Nat.sub_succ, Nat.sub_0_r, <- fmap_S_seq, <- list_fmap_compose. apply list_fmap_ext. intros i k _. cbn [compose].
  change (N.iter 1 (crc_bit poly)) with (crc_bit poly). unfold crc_bit.
  rewrite !N.shiftl_1_l, <- N.bit0_odd, N.pow2_bits_false by lia.
  rewrite N.shiftr_div_pow2, Nat2N.inj_succ, N.pow_succ_r'. change (2 ^ 1)%N with 2%N.
  by rewrite N.mul_comm, N.div_mul.
Qed.

Lemma half_of len : len = ((if N.odd len then 1 else 0) + 2 * N.shiftr len 1)%N.
Proof. rewrite <- N.div2_spec. rewrite (N.div2_odd len) at 1. destruct (N.odd len); cbn [N.b2n]; lia. Qed.

Lemma applied_zeros {E} n len c :
  (c < 2 ^ N.of_nat w)%N ->
  applied (E:=E) (matrix_of w (zeros n)) len c = Ok (zeros (if N.odd len then n else 0) c).
Proof. intros Hc. unfold applied. destruct (N.odd len); [|done]. by rewrite times_matrix by (try apply zeros_linear; done). Qed.

(** The loop applies the operator of [2 * n] zero bits once for every unit of the length. *)
Lemma combine_loop_zeros {E} fuel n len c :
  (c < 2 ^ N.of_nat w)%N -> (len < 4 ^ N.of_nat fuel)%N ->
  combine_loop (E:=E) fuel (matrix_of w (zeros n)) c len = Ok (zeros (2 * n * len) c).
Proof.
  revert n len c. induction fuel as [|fuel IH]; intros n len c Hc Hlen.
  { assert (len = 0%N) as -> by (cbn in Hlen; lia). by rewrite N.mul_0_r. }
  cbn [combine_loop]. rewrite square_zeros. cbn [obind]. rewrite applied_zeros by done. cbn [obind].
  pose proof (half_of len) as E1. set (l1 := N.shiftr len 1) in *.
  set (c1 := zeros (if N.odd len then (2 * n)%N else 0%N) c).
  assert (c1 < 2 ^ N.of_nat w)%N as Hc1 by by apply (lin_bound _ _ (zeros_linear _)).
  destruct (l1 =? 0)%N eqn:Z1.
  { apply N.eqb_eq in Z1. rewrite Z1 in E1. unfold c1. do 2 f_equal. destruct (N.odd len); lia. }
  rewrite square_zeros. cbn [obind]. rewrite applied_zeros by done. cbn [obind].
  pose proof (half_of l1) as E2. set (l2 := N.shiftr l1 1) in *.
  set (c2 := zeros (if N.odd l1 then (2 * (2 * n))%N else 0%N) c1).
  assert (c2 = zeros ((if N.odd len then 2 * n else 0) + (if N.odd l1 then 2 * (2 * n) else 0)) c) as Ec2.
  { unfold c2, c1. rewrite <- N.iter_add. by rewrite N.add_comm. }
  assert (2 * n * len = 2 * (2 * (2 * n)) * l2 + ((if N.odd len then 2 * n else 0) + (if N.odd l1 then 2 * (2 * n) else 0)))%N as Et.
  { rewrite E1 at 1. rewrite E2 at 1. destruct (N.odd len), (N.odd l1); lia. }
  destruct (l2 =? 0)%N eqn:Z2.
  { apply N.eqb_eq in Z2. by rewrite Ec2, Et, Z2, N.mul_0_r, N.add_0_l. }
  rewrite IH.
  - f_equal. by rewrite Ec2, <- N.iter_add, Et.
  - by apply (lin_bound _ _ (zeros_linear _)).
  - rewrite Nat2N.inj_succ, N.pow_succ_r' in Hlen. destruct (N.odd len), (N.odd l1); lia.
Qed.

Lemma combine_raw_zeros {E} crc1 crc2 len :
  (crc1 < 2 ^ N.of_nat w)%N -> (0 < len < 2 ^ 64)%N ->
  combine_raw (E:=E) crc1 crc2 len w poly = Ok (N.lxor (zeros (8 * len) crc1) crc2).
Proof.
  intros Hc [H0 Hl]. unfold combine_raw. rewrite (proj2 (N.eqb_neq len 0)) by lia.
  rewrite zero_bit_matrix, square_zeros. cbn [obind]. rewrite square_zeros. cbn [obind].
  rewrite combine_loop_zeros; [|done|exact Hl]. reflexivity.
Qed.

(** A difference in the register before the data is the difference behind it. *)
Lemma crc_raw_lxor c d data :
  crc_raw poly (N.lxor c d) data = N.lxor (crc_raw poly c data) (zeros (8 * N.of_nat (String.length data)) d).
Proof.
  revert c d. induction data as [|a data IH]; intros c d; [done|]. cbn [crc_raw String.length].
  replace (N.lxor (N.lxor c d) (N_of_ascii a)) with (N.lxor (N.lxor c (N_of_ascii a)) d)
    by (by rewrite !N.lxor_assoc, (N.lxor_comm d)).
  rewrite (lin_lxor _ _ (zeros_linear 8)), IH, <- N.iter_add. do 2 f_equal. lia.
Qed.

Lemma crc_raw_app c x y : crc_raw poly c (x +:+ y) = crc_raw poly (crc_raw poly c x) y.
Proof. revert c. induction x as [|a x IH]; intros c; [done|]. apply IH. Qed.

Lemma ones_bound : (N.ones (N.of_nat w) < 2 ^ N.of_nat w)%N.
Proof. rewrite N.ones_equiv. pose proof (N.pow_nonzero 2 (N.of_nat w)). lia. Qed.

Lemma crc_raw_bound c data : (c < 2 ^ N.of_nat w)%N -> (crc_raw poly c data < 2 ^ N.of_nat w)%N.
Proof.
  revert c. induction data as [|a data IH]; intros c Hc; [done|]. apply IH, (lin_bound _ _ (zeros_linear 8)).
  apply lxor_bound; [done|]. eapply N.lt_le_trans; [apply N_ascii_bounded|].
  change 256%N with (2 ^ 8)%N. apply N.pow_le_mono_r; lia.
Qed.

Lemma crc_of_bound data : (crc_of w poly data < 2 ^ N.of_nat w)%N.
Proof. apply lxor_bound; [apply crc_raw_bound|]; apply ones_bound. Qed.

(** The CRC of a concatenation. *)
Lemma crc_of_app x y :
  crc_of w poly (x +:+ y) = N.lxor (zeros (8 * N.of_nat (String.length y)) (crc_of w poly x)) (crc_of w poly y).
Proof.
  unfold crc_of at 1. rewrite crc_raw_app. set (ones := N.ones (N.of_nat w)).
  replace (crc_raw poly ones x) with (N.lxor ones (crc_of w poly x)).
  - rewrite crc_raw_lxor. unfold crc_of at 3. fold ones. rewrite N.lxor_assoc, N.lxor_comm, N.lxor_assoc.
    f_equal. by rewrite N.lxor_comm.
  - unfold crc_of. fold ones. by rewrite (N.lxor_comm (crc_raw _ _ _)), <- N.lxor_assoc, N.lxor_nilpotent, N.lxor_0_l.
Qed.

Lemma combine_raw_crc {E} x y :
  (N.of_nat (String.length y) < 2 ^ 64)%N ->
  combine_raw (E:=E) (crc_of w poly x) (crc_of w poly y) (N.of_nat (String.length y)) w poly = Ok (crc_of w poly (x +:+ y)).
Proof.
  intros Hy. destruct y as [|a y].
  - by rewrite app_empty_r.
  - rewrite crc_of_app. apply combine_raw_zeros; [apply crc_of_bound|]. cbn [String.length] in *. lia.
Qed.
End crc.

(** ** Bytes *)

Lemma to_be_length b n : String.length (to_be b n) = b.
Proof. induction b as [|b IH]; [done|]. cbn. by rewrite IH. Qed.

Lemma from_to_be b n acc : (n < 2 ^ (8 * N.of_nat b))%N -> from_be acc (to_be b n) = (acc * 2 ^ (8 * N.of_nat b) + n)%N.
Proof.
  intros Hn.
  assert (forall b acc, from_be acc (to_be b n) = acc * 2 ^ (8 * N.of_nat b) + n mod 2 ^ (8 * N.of_nat b))%N as H.
  { clear. intros b. induction b as [|b IH]; intros acc; [by rewrite N.mod_1_r, N.mul_1_r, N.add_0_r|].
    cbn [to_be from_be]. rewrite IH, N_ascii_embedding by (apply N.mod_lt; lia). rewrite N.shiftr_div_pow2.
    replace (8 * N.of_nat (S b))%N with (8 * N.of_nat b + 8)%N by lia. set (p := (8 * N.of_nat b)%N).
    rewrite N.pow_add_r, (N.Div0.mod_mul_r n (2 ^ p) (2 ^ 8)). change (2 ^ 8)%N with 256%N. lia. }
  rewrite H. by rewrite (N.mod_small n).
Qed.

(** ** Full-object checksums *)

Definition reflected_poly (a : ChecksumAlgorithm) : N :=
  match a with
  | Crc32 => 0xedb88320
  | Crc32c => 0x82f63b78
  | Crc64Nvme => 0x9a6c9329ac4bc9b5
  | _ => 0
  end%N.

Definition is_crc (a : ChecksumAlgorithm) : bool := is_some (crc_width a).

Definition crc_digest (a : ChecksumAlgorithm) (data : string) : string :=
  match crc_width a with
  | Some (w, _) => to_be (w / 8) (crc_of w (reflected_poly a) data)
  | None => EmptyString
  end.

(** What the code relies on of the [crc] and [base64] crates. *)
Class CrcLaws {codecs : BodyCodecs} : Prop := {
  crc_digests : forall a data, is_crc a = true -> crc_or_sha1 a data = crc_digest a data;
  b64_inverse : forall s, b64_decode (b64_encode s) = Some s;
  b64_no_space : forall s, trim (b64_encode s) = b64_encode s;
}.

Lemma reflected_ok a w poly :
  crc_width a = Some (w, poly) -> N.shiftr (reverse_bits poly) (N.of_nat (64 - w)) = reflected_poly a.
Proof. destruct a; try done; intros [= <- <-]; vm_compute; reflexivity. Qed.

Lemma crc_width_facts a w poly :
  crc_width a = Some (w, poly) ->
  (8 <= w)%nat /\ (w / 8 = digest_len a)%nat /\ (8 * N.of_nat (w / 8) = N.of_nat w)%N /\
  (reflected_poly a < 2 ^ N.of_nat w)%N.
Proof. destruct a; try done; intros [= <- <-]; (split_and!; [lia|reflexivity|reflexivity|apply N.ltb_lt; reflexivity]). Qed.

Lemma crc_digest_length a data : is_crc a = true -> String.length (crc_digest a data) = digest_len a.
Proof.
  unfold is_crc, crc_digest. destruct (crc_width a) as [[w poly]|] eqn:E; [|done]. intros _.
  rewrite to_be_length. by apply crc_width_facts in E as (_ & ? & _).
Qed.

(** The specification of [crc_combine]. *)
Lemma crc_combine_ok {E} a x y :
  is_crc a = true -> (N.of_nat (String.length y) < 2 ^ 64)%N ->
  crc_combine (E:=E) a (crc_digest a x) (crc_digest a y) (N.of_nat (String.length y)) = Ok (Some (crc_digest a (x +:+ y))).
Proof.
  intros Ha Hy. pose proof (crc_digest_length a x Ha) as Lx. pose proof (crc_digest_length a y Ha) as Ly.
  unfold is_crc in Ha. unfold crc_combine. destruct (crc_width a) as [[w poly]|] eqn:Ew; [|done].
  destruct (crc_width_facts a w poly Ew) as (H8 & Hd & H8w & Hp). unfold combine_with.
  rewrite !bool_decide_false by (rewrite ?Lx, ?Ly, Hd; tauto). cbn [orb]. rewrite (reflected_ok a w poly Ew).
  assert (forall z, from_be 0 (crc_digest a z) = crc_of w (reflected_poly a) z) as Hf.
  { intros z. unfold crc_digest. rewrite Ew, from_to_be; [lia|]. rewrite H8w. by apply crc_of_bound. }
  rewrite !Hf, combine_raw_crc by done. cbn [obind]. do 2 f_equal. unfold crc_digest. by rewrite Ew.
Qed.

Section full_object.
Context {http : HttpLib} {crypto : SigCrypto} {codecs : BodyCodecs} {laws : CrcLaws}.

(** A part row that tells the truth about its content. *)
Definition part_of (a : ChecksumAlgorithm) (p : PartRecord) (content : string) : Prop :=
  pt_checksum_value p = Some (b64_encode (digest a content)) /\ pt_size p = Z.of_nat (String.length content) /\
  (N.of_nat (String.length content) < 2 ^ 64)%N.

Lemma digest_crc a data : is_crc a = true -> digest a data = crc_digest a data.
Proof. intros Ha. rewrite <- (crc_digests a data Ha). by destruct a. Qed.

Lemma decode_digest a content :
  is_crc a = true -> decode_checksum a (b64_encode (digest a content)) = Some (digest a content).
Proof.
  intros Ha. unfold decode_checksum. rewrite b64_no_space, b64_inverse. cbn.
  by rewrite digest_crc, (crc_digest_length a content Ha), Nat.eqb_refl by done.
Qed.

Lemma raw_checksums_ok a stored contents :
  is_crc a = true -> Forall2 (part_of a) stored contents ->
  raw_checksums a (part_checksums stored) = Some (digest a <$> contents).
Proof.
  intros Ha H. unfold raw_checksums, part_checksums. apply mapM_Some. induction H as [|p c stored contents Hp _ IH]; [done|].
  cbn [fmap list_fmap]. constructor; [|done]. destruct Hp as (Hc & _). cbn. rewrite Hc. cbn. by apply decode_digest.
Qed.

Lemma combine_parts_ok {E} a x stored contents :
  is_crc a = true -> Forall2 (part_of a) stored contents ->
  combine_parts (E:=E) a (crc_digest a x) (zip (digest a <$> contents) (pc_size <$> part_checksums stored)) =
  Ok (Some (crc_digest a (x +:+ cat contents))).
Proof.
  intros Ha H. revert x. induction H as [|p c stored contents Hp H IH]; intros x.
  - cbn. by rewrite app_empty_r.
  - cbn [fmap list_fmap zip part_checksums combine_parts pc_size zip_with]. destruct Hp as (_ & Hs & Hb).
    rewrite Hs, digest_crc by done. replace (Z.to_N (Z.of_nat (String.length c))) with (N.of_nat (String.length c)) by lia. rewrite crc_combine_ok by done. cbn [obind].
    unfold part_checksums in IH. rewrite IH. do 3 f_equal. by rewrite cat_cons, string_app_assoc.
Qed.

Lemma object_checksum_full {E} a stored contents :
  is_crc a = true -> stored <> [] -> Forall2 (part_of a) stored contents ->
  object_checksum (E:=E) a FullObject (part_checksums stored) = Ok (Some (b64_encode (digest a (cat contents)))).
Proof.
  intros Ha Hn H. unfold object_checksum.
  replace (negb (allows FullObject a)) with false by (by destruct a). rewrite orb_false_r, (raw_checksums_ok a stored contents Ha H).
  destruct H as [|p c stored contents Hp H]; [done|]. cbn [is_nil part_checksums fmap list_fmap zip zip_with].
  rewrite (digest_crc a c Ha). change ((fun q => _) <$> stored) with (part_checksums stored).
  rewrite (combine_parts_ok a c stored contents Ha H). cbn [obind fmap option_fmap option_map].
  by rewrite cat_cons, (digest_crc a _ Ha).
Qed.

Lemma sizes_from_ok a stored contents n :
  Forall2 (part_of a) stored contents -> u64 n = n ->
  foldl (fun acc p => u64 (acc + pt_size p)) n stored = u64 (n + Z.of_nat (String.length (cat contents))).
Proof.
  intros H. revert n. induction H as [|p c stored contents (_ & Hs & _) H IH]; intros n Hn; cbn [foldl].
  - by rewrite Z.add_0_r.
  - rewrite IH by (unfold u64; by rewrite Zmod_mod). unfold u64. rewrite Zplus_mod_idemp_l.
    rewrite Hs, cat_cons, string_length_app. f_equal. lia.
Qed.

Lemma sizes_total_ok a stored contents :
  Forall2 (part_of a) stored contents -> sizes_total stored = u64 (Z.of_nat (String.length (cat contents))).
Proof. intros H. unfold sizes_total. by rewrite (sizes_from_ok a stored contents). Qed.

Lemma declared_loop headers resource a c l :
  for_each (declared_matches headers resource a (Some c)) tt l <> Panic /\
  (for_each (declared_matches headers resource a (Some c)) tt l = Ok tt ->
   forall b d, b ∈ l -> trimmed headers (header_name b) = Some d -> b = a /\ d = c).
Proof.
  induction l as [|b l [IH1 IH2]]; [split; [done|by intros _ b d ?%not_elem_of_nil]|]. cbn [for_each].
  unfold declared_matches at 1 3. destruct (trimmed headers (header_name b)) as [d|] eqn:E; cbn [obind].
  - case_bool_decide as Hb; [done|]. subst b. case_bool_decide as Hd; [subst d|done]. cbn [obind].
    split; [done|]. intros H b d [->|Hin]%elem_of_cons Hd; [split; congruence|by apply (IH2 H)].
  - split; [done|]. intros H b' d [->|Hin]%elem_of_cons Hd; [congruence|by apply (IH2 H)].
Qed.

Lemma part_matches_loop resource a l : for_each (part_matches resource a) tt l <> Panic.
Proof.
  induction l as [|p l IH]; [done|]. cbn [for_each]. unfold part_matches at 1.
  destruct (checksum_for p.2 a), (pt_checksum_value p.1); cbn [obind]; try done. by case_bool_decide.
Qed.

(** C40. The checksum of a FULL_OBJECT multipart upload is the CRC of the whole
    object, although no byte of the object is read: when every part row carries
    the CRC and the size of its part, [plan_complete] gives the object the digest
    of the concatenated parts, for every number and size of parts, or refuses the
    request.  It accepts only a declared object checksum that is right, never one
    of another algorithm, and only a declared object size that is right (modulo
    2^64, in which the sizes are added up), and it never panics. *)
Theorem full_object_checksum (upload : MultipartUploadRecord) (stored : list PartRecord) (contents : list string)
    (requested : list CompletePart) (headers : list (string * string)) (resource : string) (a : ChecksumAlgorithm) :
  mu_checksum_algorithm upload ≫= from_name = Some a -> is_crc a = true ->
  upload_type a (mu_checksum_type upload) = FullObject -> stored <> [] -> Forall2 (part_of a) stored contents ->
  let whole := cat contents in
  match plan_complete upload stored requested headers resource with
  | Ok c =>
      c = Some {| oc_algorithm := a; oc_kind := FullObject; oc_value := b64_encode (digest a whole) |} /\
      (forall b d, trimmed headers (header_name b) = Some d -> b = a /\ d = b64_encode (digest a whole)) /\
      (forall d, trimmed headers "x-amz-mp-object-size" = Some d -> parse_u64 d = Some (u64 (Z.of_nat (String.length whole))))
  | Err _ => True
  | Panic => False
  end.
Proof.
  intros Hu Ha Hk Hn H whole. unfold plan_complete. rewrite (sizes_total_ok a stored contents H), Hu, Hk.
  rewrite (object_checksum_full a stored contents Ha Hn H). fold whole. cbn [obind].
  destruct (match trimmed headers "x-amz-mp-object-size" with None => _ | Some declared => _ end) as [[]|e|] eqn:Es; cbn [obind];
    [|done|by repeat case_match].
  destruct (match trimmed headers "x-amz-checksum-type" with None => _ | Some declared => _ end) as [[]|e|] eqn:Et; cbn [obind];
    [|done|by repeat case_match].
  destruct (declared_loop headers resource a (b64_encode (digest a whole)) ALL) as [Hp Hd].
  destruct (for_each (declared_matches _ _ _ _) tt ALL) as [[]|e|]; cbn [obind]; [|done|done].
  pose proof (part_matches_loop resource a (zip stored requested)) as Hq.
  destruct (for_each (part_matches _ _) tt _) as [[]|e|]; cbn [obind]; [|done|done].
  split_and!; [done|intros b d; apply Hd; [done|by destruct b; set_solver]|].
  intros d Ed. rewrite Ed in Es. by case_bool_decide.
Qed.
End full_object.

(** ** At concrete parts *)

(** The check values of the catalogue. *)
Lemma crc_check_values :
  crc_of 32 (reflected_poly Crc32) "123456789" = 0xcbf43926%N /\
  crc_of 32 (reflected_poly Crc32c) "123456789" = 0xe3069283%N /\
  crc_of 64 (reflected_poly Crc64Nvme) "123456789" = 0xae8b14860a799888%N.
Proof. vm_compute. done. Qed.

Definition unhex (a : ascii) : N := let n := N_of_ascii a in if (n <? 58)%N then n - 48 else n - 87.

Fixpoint unhex_text (s : string) : option string :=
  match s with
  | EmptyString => Some EmptyString
  | String b (String c s') => String (ascii_of_N (unhex b * 16 + unhex c)) <$> unhex_text s'
  | _ => None
  end.

(** The CRCs of the catalogue, and hexadecimal text for the codec. *)
#[local] Instance crc_codecs : BodyCodecs := {|
  crc_or_sha1 a data := crc_digest a data;
  b64_decode := unhex_text;
  b64_encode := hex_text;
  hex_decode := unhex_text;
|}.

Lemma unhex_lower n : (n < 16)%N -> unhex (hex_lower n) = n.
Proof.
  intros Hn. unfold unhex, hex_lower. destruct (N.ltb_spec n 10); rewrite N_ascii_embedding by lia;
    destruct (N.ltb_spec (n + 48) 58); destruct (N.ltb_spec (n + 87) 58); lia.
Qed.

#[local] Instance crc_codecs_laws : CrcLaws.
Proof.
  split; [done| |].
  - intros s. cbn. induction s as [|a s IH]; [done|]. cbn [hex_text unhex_text]. rewrite IH. cbn. do 2 f_equal.
    destruct (nibbles a). rewrite !unhex_lower by done. rewrite N.mul_comm, <- N.div_mod by done. apply ascii_N_embedding.
  - intros s. cbn. apply trim_visible, hex_visible, to_hex_chars.
Qed.

Definition crc_part (n : Z) (content : string) : PartRecord :=
  {| pt_upload_id := "u"; pt_part_number := n; pt_blob_id := content; pt_size := Z.of_nat (String.length content);
     pt_etag := "etag"; pt_checksum_value := Some (hex_text (crc_digest Crc32 content)); pt_last_modified := None |}.

Definition crc_upload : MultipartUploadRecord :=
  {| mu_upload_id := "u"; mu_bucket := "bucket"; mu_key := "key"; mu_content_type := None; mu_initiated_at := 0;
     mu_metadata := ∅; mu_checksum_algorithm := Some "CRC32"; mu_checksum_type := Some "FULL_OBJECT"; mu_initiator := "root" |}.

Definition crc_headers : list (string * string) :=
  [("x-amz-checksum-crc32", "cbf43926"); ("x-amz-mp-object-size", "9")].

Definition crc_plan : outcome S3Error (option ObjectChecksum) :=
  plan_complete crc_upload [crc_part 1 "1234"; crc_part 2 "56789"] [] crc_headers "/bucket/key".

Lemma crc_plan_accepted : exists c, crc_plan = Ok c.
Proof. eexists. vm_compute. reflexivity. Qed.

Lemma full_object_checksum_witness :
  crc_plan = Ok (Some {| oc_algorithm := Crc32; oc_kind := FullObject; oc_value := "cbf43926" |}).
Proof.
  pose proof (full_object_checksum crc_upload [crc_part 1 "1234"; crc_part 2 "56789"] ["1234"; "56789"] [] crc_headers
    "/bucket/key" Crc32 eq_refl eq_refl eq_refl) as H.
  fold crc_plan in H. destruct crc_plan_accepted as [c Hc]. rewrite Hc in *. destruct H as [-> _].
  - discriminate.
  - repeat constructor.
  - vm_compute. reflexivity.
Defined.
