(* ===== verification/ReplicationRules.v ===== *)
(** Replication configurations of buckets: [crates/arca-core/src/s3/replication.rs].

    The XML reader of [quick_xml] is another crate's: the parser takes the
    document as the crate deserialises it.  The result is what validation
    accepts, and whether validation panics. *)

From Stdlib Require Import Ascii.
From S2P Require Import Prelude S3Errors Types Text Sigv4.

Open Scope outcome_scope.

(** ** Data *)

Inductive RuleStatus : Type := RuleEnabled | RuleDisabled.

#[export] Instance RuleStatus_eq_dec : EqDecision RuleStatus.
Proof. solve_decision. Defined.

Inductive ReplicationFilter : Type :=
  | FilterPrefix (prefix : string)
  | FilterTag (key value : string)
  | FilterAnd (prefix : option string) (tags : list (string * string))
  | FilterEmpty.

Record Destination : Type := {
  ds_bucket : string;
  ds_endpoint : string;
  ds_region : string;
  ds_credential_ref : string;
  ds_storage_class : option string;
}.

Record ReplicationRule : Type := {
  rl_id : string;
  rl_status : RuleStatus;
  rl_priority : Z;
  rl_filter : ReplicationFilter;
  rl_destination : Destination;
  rl_delete_marker_replication : RuleStatus;
}.

Record ReplicationConfiguration : Type := { rc_role : string; rc_rules : list ReplicationRule }.

(** ** Filters *)

Definition filter_prefix (f : ReplicationFilter) : option string :=
  match f with
  | FilterPrefix p => if bool_decide (p = EmptyString) then None else Some p
  | FilterAnd (Some p) _ => if bool_decide (p = EmptyString) then None else Some p
  | _ => None
  end.

Definition filter_tags (f : ReplicationFilter) : list (string * string) :=
  match f with
  | FilterTag k v => [(k, v)]
  | FilterAnd _ tags => tags
  | _ => []
  end.

(** [ReplicationFilter::matches]. *)
Definition filter_matches (f : ReplicationFilter) (key : string) (tags : list (string * string)) : bool :=
  from_option (starts_with key) true (filter_prefix f)
  && forallb (fun t => bool_decide (t ∈ tags)) (filter_tags f).

(** ** Parsing *)

Record XmlAnd : Type := { xa_prefix : option string; xa_tags : list (string * string) }.

Record XmlFilter : Type := {
  xf_prefix : option string;
  xf_tag : option (string * string);
  xf_and : option XmlAnd;
}.

Record XmlDestination : Type := {
  xd_bucket : string;
  xd_endpoint : option string;
  xd_region : option string;
  xd_credential_ref : option string;
  xd_storage_class : option string;
}.

Record XmlReplicationRule : Type := {
  xr_id : option string;
  xr_status : string;
  xr_priority : option Z;
  xr_filter : option XmlFilter;
  xr_legacy_prefix : option string;
  xr_destination : XmlDestination;
  xr_delete_marker_replication : option string;
}.

Record XmlReplication : Type := { xc_role : option string; xc_rules : list XmlReplicationRule }.

Definition malformed (msg : string) : S3Error := with_message MalformedXML msg EmptyString.

Definition invalid_argument (msg : string) : S3Error := with_message InvalidArgument msg EmptyString.

Definition parse_status (s : string) : outcome S3Error RuleStatus :=
  if bool_decide (s = "Enabled") then Ok RuleEnabled
  else if bool_decide (s = "Disabled") then Ok RuleDisabled
  else Err (malformed ("Invalid status: " +:+ s +:+ ". Must be 'Enabled' or 'Disabled'")).

Definition normalize_bucket (s : string) : string := default s (strip_prefix "arn:aws:s3:::" s).

Definition parse_filter (filter : option XmlFilter) (legacy_prefix : option string) : ReplicationFilter :=
  let prefix_or_empty p := if bool_decide (p = EmptyString) then FilterEmpty else FilterPrefix p in
  match filter with
  | Some f =>
      match xf_and f, xf_tag f, xf_prefix f with
      | Some a, _, _ => FilterAnd (xa_prefix a) (xa_tags a)
      | None, Some (k, v), _ => FilterTag k v
      | None, None, Some p => prefix_or_empty p
      | None, None, None => FilterEmpty
      end
  | None => from_option prefix_or_empty FilterEmpty legacy_prefix
  end.

Definition parse_destination (d : XmlDestination) : Destination := {|
  ds_bucket := normalize_bucket (xd_bucket d);
  ds_endpoint := default EmptyString (xd_endpoint d);
  ds_region := default "us-east-1" (xd_region d);
  ds_credential_ref := default EmptyString (xd_credential_ref d);
  ds_storage_class := xd_storage_class d;
|}.

Definition parse_rule (r : XmlReplicationRule) : outcome S3Error ReplicationRule :=
  let? status := parse_status (xr_status r) in
  let? markers := match xr_delete_marker_replication r with
                  | Some d => parse_status d
                  | None => Ok RuleEnabled
                  end in
  Ok {| rl_id := default EmptyString (xr_id r);
        rl_status := status;
        rl_priority := default 0%Z (xr_priority r);
        rl_filter := parse_filter (xr_filter r) (xr_legacy_prefix r);
        rl_destination := parse_destination (xr_destination r);
        rl_delete_marker_replication := markers |}.

(** The checks of one rule; the state is [seen_ids]. *)
Definition validate_rule (seen : gset string) (rule : ReplicationRule) : outcome S3Error (gset string) :=
  let d := rl_destination rule in
  if bool_decide (ds_bucket d = EmptyString) then
    Err (invalid_argument ("Rule '" +:+ rl_id rule +:+ "' is missing a destination bucket"))
  else if bool_decide (ds_endpoint d = EmptyString) then
    Err (invalid_argument ("Rule '" +:+ rl_id rule +:+
      "' is missing destination endpoint; Arca replication requires an explicit <Endpoint> in the <Destination>"))
  else if bool_decide (ds_credential_ref d = EmptyString) then
    Err (invalid_argument ("Rule '" +:+ rl_id rule +:+
      "' is missing destination credential reference; provide <CredentialRef> in the <Destination>"))
  else if (255 <? String.length (rl_id rule))%nat then
    match slice_to 50 (rl_id rule) with
    | Ok start => Err (invalid_argument ("Rule ID '" +:+ start +:+ "...' exceeds maximum length of 255 characters"))
    | _ => Panic
    end
  else if bool_decide (rl_id rule <> EmptyString) && bool_decide (rl_id rule ∈ seen) then
    Err (invalid_argument ("Duplicate rule ID: '" +:+ rl_id rule +:+ "'"))
  else Ok (if bool_decide (rl_id rule = EmptyString) then seen else {[rl_id rule]} ∪ seen).

Definition validate_configuration (config : ReplicationConfiguration) : outcome S3Error unit :=
  if is_nil (rc_rules config) then
    Err (malformed "ReplicationConfiguration must contain at least one rule")
  else if (1000 <? length (rc_rules config))%nat then
    Err (malformed "ReplicationConfiguration cannot have more than 1000 rules")
  else
    let? _ := for_each validate_rule ∅ (rc_rules config) in
    Ok tt.

(** A document that does not parse is [None]. *)
Definition parse_replication_configuration_xml (doc : option XmlReplication)
  : outcome S3Error ReplicationConfiguration :=
  match doc with
  | None => Err (malformed "Invalid replication configuration XML")
  | Some parsed =>
      let? rules := for_each (fun acc r => let? rule := parse_rule r in Ok (acc ++ [rule])) [] (xc_rules parsed) in
      let config := {| rc_role := default EmptyString (xc_role parsed); rc_rules := rules |} in
      let? _ := validate_configuration config in
      Ok config
  end.

(** ** Status of an object *)

Inductive ReplicationStatus : Type := Pending | Completed | Failed | Replica.

Definition as_header (s : ReplicationStatus) : string :=
  match s with Pending => "PENDING" | Completed => "COMPLETED" | Failed => "FAILED" | Replica => "REPLICA" end.

Definition status_parse (s : string) : option ReplicationStatus :=
  if bool_decide (s = "PENDING") then Some Pending
  else if bool_decide (s = "COMPLETED") then Some Completed
  else if bool_decide (s = "FAILED") then Some Failed
  else if bool_decide (s = "REPLICA") then Some Replica else None.

(** ** What validation accepts *)

Definition rule_complete (r : ReplicationRule) : Prop :=
  ds_bucket (rl_destination r) <> EmptyString /\ ds_endpoint (rl_destination r) <> EmptyString /\
  ds_credential_ref (rl_destination r) <> EmptyString /\ (String.length (rl_id r) <= 255)%nat.

Definition named_ids (rules : list ReplicationRule) : list string :=
  filter (fun i => i <> EmptyString) (rl_id <$> rules).

Definition seen_with (seen : gset string) (r : ReplicationRule) : gset string :=
  if bool_decide (rl_id r = EmptyString) then seen else {[rl_id r]} ∪ seen.

Lemma validate_rule_ok seen r seen' :
  validate_rule seen r = Ok seen' <->
  rule_complete r /\ (rl_id r <> EmptyString -> rl_id r ∉ seen) /\ seen' = seen_with seen r.
Proof.
  unfold validate_rule, rule_complete, seen_with. cbv zeta.
  case_bool_decide as Hb; [split; [done|tauto]|]. case_bool_decide as He; [split; [done|tauto]|].
  case_bool_decide as Hc; [split; [done|tauto]|].
  destruct (255 <? String.length (rl_id r))%nat eqn:E.
  { apply Nat.ltb_lt in E. split; [by destruct (slice_to 50 (rl_id r))|intros ((_ & _ & _ & ?) & _); lia]. }
  apply Nat.ltb_ge in E. destruct (decide (rl_id r = EmptyString)) as [D|D].
  - rewrite (bool_decide_false (rl_id r <> EmptyString)) by tauto. rewrite (bool_decide_true (rl_id r = EmptyString)) by done. cbn [andb].
    split; [intros [= <-]; tauto|intros (_ & _ & ->); done].
  - rewrite (bool_decide_true (rl_id r <> EmptyString)) by done. rewrite (bool_decide_false (rl_id r = EmptyString)) by done.
    cbn [andb]. case_bool_decide as Hs; [split; [done|tauto]|].
    split; [intros [= <-]; tauto|intros (_ & _ & ->); done].
Qed.

Lemma named_ids_cons r rules :
  named_ids (r :: rules) = if bool_decide (rl_id r = EmptyString) then named_ids rules else rl_id r :: named_ids rules.
Proof. unfold named_ids. rewrite fmap_cons, filter_cons. repeat case_decide; repeat case_bool_decide; done || tauto || contradiction. Qed.

Lemma validate_rules_ok rules seen :
  is_ok (for_each validate_rule seen rules) = true <->
  Forall rule_complete rules /\ NoDup (named_ids rules) /\ (forall i, i ∈ named_ids rules -> i ∉ seen).
Proof.
  revert seen. induction rules as [|r rules IH]; intros seen; cbn [for_each].
  { split; [|done]. intros _. split_and!; [constructor|constructor|]. intros i Hi. by apply elem_of_nil in Hi. }
  rewrite named_ids_cons, Forall_cons. assert ((exists seen', validate_rule seen r = Ok seen') \/ is_ok (validate_rule seen r) = false) as [[seen' E]|E]
    by (destruct (validate_rule seen r); eauto).
  - rewrite E. apply validate_rule_ok in E as (Hc & Hf & ->). cbn [obind]. rewrite IH. unfold seen_with.
    case_bool_decide as D; [tauto|]. rewrite NoDup_cons. setoid_rewrite elem_of_cons. specialize (Hf D).
    split; [intros (? & ? & Hi)|intros ((_ & ?) & (? & ?) & Hi)]; split_and!; try done.
    + intros Hin. apply (Hi _ Hin). set_solver.
    + intros i [->|Hin]; [done|]. specialize (Hi i Hin). set_solver.
    + intros i Hin. specialize (Hi i (or_intror Hin)). set_solver.
  - split.
    + by destruct (validate_rule seen r).
    + intros ([Hc _] & _ & Hs). assert (validate_rule seen r = Ok (seen_with seen r)) as Hv; [|by rewrite Hv in E].
      apply validate_rule_ok. split_and!; [done| |done]. intros D. rewrite (bool_decide_false (rl_id r = EmptyString)) in Hs by done. apply Hs. by left.
Qed.

Definition config_valid (config : ReplicationConfiguration) : Prop :=
  rc_rules config <> [] /\ (length (rc_rules config) <= 1000)%nat /\
  Forall rule_complete (rc_rules config) /\ NoDup (named_ids (rc_rules config)).

Lemma validate_configuration_ok config : validate_configuration config = Ok tt <-> config_valid config.
Proof.
  pose proof (validate_rules_ok (rc_rules config) ∅) as H. unfold validate_configuration, config_valid.
  destruct (rc_rules config) as [|r rules]; [split; [done|tauto]|]. cbn [is_nil].
  destruct (1000 <? _)%nat eqn:E; [apply Nat.ltb_lt in E; split; [done|lia]|]. apply Nat.ltb_ge in E.
  destruct (for_each _ _ _); cbn [obind is_ok] in *.
  - split; [|done]. intros _. destruct H as [H _]. destruct (H eq_refl) as (? & ? & _). done.
  - split; [done|]. intros (_ & _ & ? & ?). exfalso. destruct H as [_ H]. discriminate H. split_and!; [done..|]. intros i _. apply not_elem_of_empty.
  - split; [done|]. intros (_ & _ & ? & ?). exfalso. destruct H as [_ H]. discriminate H. split_and!; [done..|]. intros i _. apply not_elem_of_empty.
Qed.

(** ** Panics *)

(** Bytes 0x80-0xBF continue a character. *)
Definition splits_char (n : nat) (s : string) : Prop :=
  exists a, String.get n s = Some a /\ (128 <= Ascii.N_of_ascii a < 192)%N.

Lemma string_get_length n s : String.get n s = None -> (String.length s <= n)%nat.
Proof. revert n. induction s as [|a s IH]; intros [|n] H; cbn in *; [lia|lia|done|]. apply IH in H. lia. Qed.

Lemma slice_to_panic n s :
  (n < String.length s)%nat -> (slice_to n s = Panic <-> splits_char n s).
Proof.
  intros Hn. unfold slice_to, splits_char. destruct (String.get n s) as [a|] eqn:G.
  - destruct ((128 <=? Ascii.N_of_ascii a)%N && (Ascii.N_of_ascii a <? 192)%N) eqn:B.
    + apply andb_prop in B as [?%N.leb_le ?%N.ltb_lt]. split; [eauto|done].
    + split; [done|]. intros (b & [= <-] & ? & ?). apply andb_false_iff in B as [?%N.leb_gt|?%N.ltb_ge]; lia.
  - apply string_get_length in G. lia.
Qed.

Lemma validate_rule_panic seen r :
  validate_rule seen r = Panic -> (255 < String.length (rl_id r))%nat /\ splits_char 50 (rl_id r).
Proof.
  unfold validate_rule. cbv zeta. repeat (case_bool_decide; [done|]).
  destruct (255 <? String.length (rl_id r))%nat eqn:E; [|destruct (_ && _); done]. apply Nat.ltb_lt in E.
  intros HP. split; [done|]. apply slice_to_panic; [lia|].
  revert HP. unfold slice_to. by repeat case_match.
Qed.

Lemma validate_rules_panic rules seen :
  for_each validate_rule seen rules = Panic ->
  exists r, r ∈ rules /\ (255 < String.length (rl_id r))%nat /\ splits_char 50 (rl_id r).
Proof.
  revert seen. induction rules as [|r rules IH]; intros seen; cbn [for_each]; [done|].
  destruct (validate_rule seen r) as [seen'|e|] eqn:E; cbn [obind]; [|done|].
  - intros H. apply IH in H as (x & ? & ?). exists x. split; [by right|done].
  - intros _. exists r. split; [by left|]. by apply validate_rule_panic in E.
Qed.

Lemma validate_configuration_panic config :
  validate_configuration config = Panic ->
  exists r, r ∈ rc_rules config /\ (255 < String.length (rl_id r))%nat /\ splits_char 50 (rl_id r).
Proof.
  unfold validate_configuration. destruct (is_nil _); [done|]. destruct (1000 <? _)%nat; [done|].
  destruct (for_each _ _ _) eqn:E; [done|done|]. intros _. by apply validate_rules_panic in E.
Qed.

Lemma validate_rule_slices seen r :
  ds_bucket (rl_destination r) <> EmptyString -> ds_endpoint (rl_destination r) <> EmptyString ->
  ds_credential_ref (rl_destination r) <> EmptyString -> (255 < String.length (rl_id r))%nat ->
  splits_char 50 (rl_id r) -> validate_rule seen r = Panic.
Proof.
  intros Hb He Hc Hl Hs. unfold validate_rule. cbv zeta. rewrite !bool_decide_false by done.
  apply slice_to_panic in Hs as ->; [|lia]. by apply Nat.ltb_lt in Hl as ->.
Qed.

(** C38. [validate_configuration] accepts exactly the configurations with 1 to
    1000 rules, each with a destination bucket, endpoint and credential and an
    id of at most 255 bytes, and no id used twice; an empty id is not an id and
    may repeat.  It can panic only on a rule whose id is longer than 255 bytes
    and has no character boundary at byte 50, which the error message slices at,
    and it does panic when the first rule is such a rule with a complete
    destination. *)
Theorem replication_rules_validated (config : ReplicationConfiguration) :
  (validate_configuration config = Ok tt <-> config_valid config) /\
  (validate_configuration config = Panic ->
   exists r, r ∈ rc_rules config /\ (255 < String.length (rl_id r))%nat /\ splits_char 50 (rl_id r)) /\
  (forall r rules, rc_rules config = r :: rules -> (length rules < 1000)%nat ->
   ds_bucket (rl_destination r) <> EmptyString -> ds_endpoint (rl_destination r) <> EmptyString ->
   ds_credential_ref (rl_destination r) <> EmptyString -> (255 < String.length (rl_id r))%nat ->
   splits_char 50 (rl_id r) -> validate_configuration config = Panic).
Proof.
  split; [apply validate_configuration_ok|]. split; [apply validate_configuration_panic|].
  intros r rules Hr Hn Hb He Hc Hl Hs. unfold validate_configuration. rewrite Hr. cbn [is_nil length].
  destruct (1000 <? _)%nat eqn:E; [apply Nat.ltb_lt in E; lia|].
  cbn [for_each]. by rewrite validate_rule_slices.
Qed.

(** A name of 0xC3 0xA9 pairs (the letter e acute) after one ASCII letter, 301 bytes long. *)
Fixpoint accents (n : nat) : string :=
  match n with O => EmptyString | S n => String (Ascii.ascii_of_nat 195) (String (Ascii.ascii_of_nat 169) (accents n)) end.

Definition named_rule (id : string) : ReplicationRule :=
  {| rl_id := id; rl_status := RuleEnabled; rl_priority := 0; rl_filter := FilterEmpty;
     rl_destination := {| ds_bucket := "copies"; ds_endpoint := "https://replica:9000"; ds_region := "us-east-1";
                          ds_credential_ref := "replica"; ds_storage_class := None |};
     rl_delete_marker_replication := RuleDisabled |}.

Definition named_rules (ids : list string) : ReplicationConfiguration :=
  {| rc_role := EmptyString; rc_rules := named_rule <$> ids |}.

Definition long_id : string := String "x"%char (accents 150).

Lemma long_id_length : (255 < String.length long_id)%nat.
Proof. apply Nat.ltb_lt. reflexivity. Qed.

Lemma long_id_splits : splits_char 50 long_id.
Proof. exists (Ascii.ascii_of_nat 169). split; [reflexivity|]. vm_compute. by split. Qed.

Lemma replication_rules_validated_witness :
  config_valid (named_rules ["first"; "second"]) /\ validate_configuration (named_rules [long_id; "second"]) = Panic.
Proof.
  split.
  - apply (replication_rules_validated (named_rules ["first"; "second"])). reflexivity.
  - destruct (replication_rules_validated (named_rules [long_id; "second"])) as (_ & _ & H).
    apply (H (named_rule long_id) [named_rule "second"]);
      [reflexivity|cbn; lia|discriminate|discriminate|discriminate|apply long_id_length|apply long_id_splits].
Defined.
