(* ===== verification/ReplicationJournal.v ===== *)
(** The replication journal: [crates/arca-core/src/store/replication.rs] and its
    SQLite store, [crates/arca-storage/src/sqlite/replication.rs].

    The table is a map from its primary key, the entry's id.  Timestamps are
    nanoseconds; the stored text orders like them. *)

From S2P Require Import Prelude S3Errors SqlTable.

(** ** Entries *)

Inductive ReplicationEventType : Type := EventPut | EventDeleteMarker | EventTag.

#[export] Instance ReplicationEventType_eq_dec : EqDecision ReplicationEventType.
Proof. solve_decision. Defined.

Definition as_db (t : ReplicationEventType) : string :=
  match t with EventPut => "put" | EventDeleteMarker => "delete_marker" | EventTag => "tag" end.

Definition event_parse (s : string) : option ReplicationEventType :=
  if bool_decide (s = "put") then Some EventPut
  else if bool_decide (s = "delete_marker") then Some EventDeleteMarker
  else if bool_decide (s = "tag") then Some EventTag else None.

Record JournalEntry : Type := {
  je_id : string;
  je_bucket : string;
  je_key : string;
  je_version_id : option string;
  je_rule_id : string;
  je_event_type : string;
  je_destination_endpoint : string;
  je_destination_bucket : string;
  je_status : string;
  je_attempts : Z;
  je_last_error : option string;
  je_next_retry_at : Z;
  je_created_at : Z;
  je_updated_at : Z;
}.

(** [SET status, attempts, last_error, next_retry_at, updated_at]. *)
Definition set_progress (status : string) (attempts : Z) (last_error : option string) (next_retry_at updated_at : Z)
    (e : JournalEntry) : JournalEntry := {|
  je_id := je_id e; je_bucket := je_bucket e; je_key := je_key e; je_version_id := je_version_id e;
  je_rule_id := je_rule_id e; je_event_type := je_event_type e;
  je_destination_endpoint := je_destination_endpoint e; je_destination_bucket := je_destination_bucket e;
  je_status := status; je_attempts := attempts; je_last_error := last_error;
  je_next_retry_at := next_retry_at; je_created_at := je_created_at e; je_updated_at := updated_at |}.

(** [SET status = 'in_flight', updated_at = ?]. *)
Definition set_in_flight (now : Z) (e : JournalEntry) : JournalEntry :=
  set_progress "in_flight" (je_attempts e) (je_last_error e) (je_next_retry_at e) now e.

Record JournalFilter : Type := {
  jf_bucket : option string;
  jf_status : option string;
  jf_rule_id : option string;
  jf_offset : Z;
  jf_limit : Z;
}.

Abbreviation Journal := (gmap string JournalEntry).

Definition jact (A : Type) : Type := act Journal ArcaError A.

(** The order in which SQLite returns rows of a [SELECT] with no [ORDER BY]. *)
Class RowOrder : Type := row_order : list JournalEntry -> list JournalEntry.

Class RowOrderOk (o : RowOrder) : Prop := row_order_perm : forall l, row_order l ≡ₚ l.

(** ** Statements *)

Definition insert_journal_entry (e : JournalEntry) : jact unit := fun j =>
  match j !! je_id e with
  | Some _ => (j, Err (Internal "insert_journal_entry"))
  | None => (<[je_id e := e]> j, Ok tt)
  end.

Definition claimable (now : Z) (e : JournalEntry) : Prop :=
  (je_status e = "pending" \/ je_status e = "failed") /\ (je_next_retry_at e <= now)%Z.

#[export] Instance claimable_dec now e : Decision (claimable now e).
Proof. unfold claimable. apply _. Defined.

(** The ids the claiming [SELECT] returns. *)
Definition due_ids (now limit_ : Z) (j : Journal) : list string :=
  je_id <$> limit limit_ (sorted_by (cmp_on je_next_retry_at Z.compare)
                            (filter (claimable now) ((map_to_list j).*2))).

(** [now'] is the second reading of the clock. *)
Definition claim_batch `{!RowOrder} (now now' limit_ : Z) : jact (list JournalEntry) := fun j =>
  let ids := due_ids now limit_ j in
  if is_nil ids then (j, Ok [])
  else
    let j' := map_imap (fun id e => Some (if bool_decide (id ∈ ids) then set_in_flight now' e else e)) j in
    (j', Ok (row_order (omap (fun id => j' !! id) ids))).

Definition update_status (now : Z) (id status : string) (attempts : Z) (last_error : option string)
    (next_retry_at : Z) : jact unit := fun j =>
  (alter (set_progress status attempts last_error next_retry_at now) id j, Ok tt).

(** [build_filter_clause]. *)
Definition in_filter (f : JournalFilter) (e : JournalEntry) : Prop :=
  from_option (fun b => je_bucket e = b) True (jf_bucket f) /\
  from_option (fun s => je_status e = s) True (jf_status f) /\
  from_option (fun r => je_rule_id e = r) True (jf_rule_id f).

#[export] Instance in_filter_dec f e : Decision (in_filter f e).
Proof. unfold in_filter. destruct (jf_bucket f), (jf_status f), (jf_rule_id f); cbn; apply _. Defined.

Definition list_journal (f : JournalFilter) (j : Journal) : list JournalEntry :=
  limit (if (jf_limit f =? 0)%Z then 100 else jf_limit f)
    (drop (Z.to_nat (jf_offset f))
      (sorted_by (cmp_desc (cmp_on je_created_at Z.compare)) (filter (in_filter f) ((map_to_list j).*2)))).

Definition count_journal (f : JournalFilter) (j : Journal) : Z :=
  Z.of_nat (length (filter (in_filter f) ((map_to_list j).*2))).

Definition purge_where (P : JournalEntry -> Prop) `{!forall e, Decision (P e)} : jact Z := fun j =>
  (filter (fun ie => ~ P ie.2) j, Ok (Z.of_nat (size (filter (fun ie => P ie.2) j)))).

Definition purge_completed (before : Z) : jact Z :=
  purge_where (fun e => je_status e = "completed" /\ (je_updated_at e < before)%Z).

Definition purge_all_older (before : Z) : jact Z := purge_where (fun e => (je_updated_at e < before)%Z).

(** ** Well-formed journals *)

Definition statuses : list string := ["pending"; "in_flight"; "completed"; "failed"].

Record journal_ok (j : Journal) : Prop := {
  jo_ids : forall id e, j !! id = Some e -> je_id e = id;
  jo_status : forall id e, j !! id = Some e -> je_status e ∈ statuses;
  jo_events : forall id e, j !! id = Some e -> is_Some (event_parse (je_event_type e));
  jo_attempts : forall id e, j !! id = Some e -> (0 <= je_attempts e < 2 ^ 32)%Z;
}.

Lemma event_round_trip t : event_parse (as_db t) = Some t.
Proof. by destruct t. Qed.

(** ** The claim *)

(** Not yet delivered, and not being delivered. *)
Definition waiting (e : JournalEntry) : Prop := je_status e = "pending" \/ je_status e = "failed".

#[export] Instance waiting_dec e : Decision (waiting e).
Proof. unfold waiting. apply _. Defined.

(** The entries in the order of the claiming [SELECT]. *)
Definition due_entries (now : Z) (j : Journal) : list JournalEntry :=
  sorted_by (cmp_on je_next_retry_at Z.compare) (filter (claimable now) ((map_to_list j).*2)).

Lemma elem_of_due_entries now j e :
  journal_ok j -> e ∈ due_entries now j <-> j !! je_id e = Some e /\ claimable now e.
Proof.
  intros Hj. unfold due_entries. rewrite elem_of_sorted_by, list_elem_of_filter, list_elem_of_fmap. split.
  - intros (Hc & [id' e'] & -> & He). apply elem_of_map_to_list in He. cbn in *. by rewrite (jo_ids _ Hj _ _ He).
  - intros [He Hc]. split; [done|]. exists (je_id e, e). split; [done|]. by apply elem_of_map_to_list.
Qed.

Lemma NoDup_due_ids now j : journal_ok j -> NoDup (je_id <$> due_entries now j).
Proof.
  intros Hj. unfold due_entries. rewrite sorted_by_perm.
  assert (je_id <$> (map_to_list j).*2 = (map_to_list j).*1) as E.
  { rewrite <- list_fmap_compose. apply list_fmap_ext. intros i [id e] He. cbn.
    apply list_elem_of_lookup_2, elem_of_map_to_list in He. by apply (jo_ids _ Hj). }
  eapply sublist_NoDup; [|apply fmap_sublist, sublist_filter]. rewrite E. apply NoDup_fst_map_to_list.
Qed.

Lemma due_ids_take now l j : due_ids now l j = take (Z.to_nat l) (je_id <$> due_entries now j).
Proof. unfold due_ids, limit. by rewrite fmap_take. Qed.

Lemma due_id_entry now l j id :
  journal_ok j -> id ∈ due_ids now l j -> exists e, j !! id = Some e /\ claimable now e.
Proof.
  intros Hj. rewrite due_ids_take. intros Hi. apply elem_of_take in Hi as (i & Hi & _).
  apply list_elem_of_lookup_2, list_elem_of_fmap in Hi as (e & -> & He).
  apply elem_of_due_entries in He as [He Hc]; eauto.
Qed.

(** Entries due by [b] come first. *)
Lemma sorted_split b l :
  StronglySorted (order_by (cmp_on je_next_retry_at Z.compare)) l ->
  l = filter (fun e => (je_next_retry_at e <= b)%Z) l ++ filter (fun e => ~ (je_next_retry_at e <= b)%Z) l.
Proof.
  induction 1 as [|e l Hs IH Hf]; [done|]. rewrite !filter_cons. destruct (decide (je_next_retry_at e <= b)%Z) as [L|L].
  - rewrite decide_False by tauto. cbn. by f_equal.
  - rewrite decide_True by done. rewrite (list_filter_none (fun e => (je_next_retry_at e <= b)%Z) l).
    + cbn. f_equal. symmetry. apply list_filter_all. intros x Hx. rewrite Forall_forall in Hf. specialize (Hf x Hx).
      unfold order_by, cmp_on in Hf. change (je_next_retry_at e <= je_next_retry_at x)%Z in Hf. lia.
    + intros x Hx. rewrite Forall_forall in Hf. specialize (Hf x Hx).
      unfold order_by, cmp_on in Hf. change (je_next_retry_at e <= je_next_retry_at x)%Z in Hf. lia.
Qed.

(** Those waiting with a retry time of at most [b]. *)
Definition backlog (b : Z) (j : Journal) : gset string :=
  dom (filter (fun ie => waiting ie.2 /\ (je_next_retry_at ie.2 <= b)%Z) j).

Lemma elem_of_backlog b j id :
  id ∈ backlog b j <-> exists e, j !! id = Some e /\ waiting e /\ (je_next_retry_at e <= b)%Z.
Proof.
  unfold backlog. rewrite elem_of_dom. split.
  - intros [e He]. apply map_lookup_filter_Some in He as [? ?]. eauto.
  - intros (e & He & ?). exists e. by apply map_lookup_filter_Some.
Qed.

(** The first entries due by [now] are the backlog of any earlier time. *)
Lemma backlog_first b now j :
  journal_ok j -> (b <= now)%Z ->
  exists early late, early ≡ₚ elements (backlog b j) /\ je_id <$> due_entries now j = early ++ late.
Proof.
  intros Hj Hb. pose proof (sorted_by_sorted (cmp_on je_next_retry_at Z.compare) (filter (claimable now) ((map_to_list j).*2))) as Hs.
  fold (due_entries now j) in Hs. apply (sorted_split b) in Hs.
  exists (je_id <$> filter (fun e => (je_next_retry_at e <= b)%Z) (due_entries now j)).
  exists (je_id <$> filter (fun e => ~ (je_next_retry_at e <= b)%Z) (due_entries now j)). split.
  - apply NoDup_Permutation; [|apply NoDup_elements|].
    + eapply sublist_NoDup; [apply (NoDup_due_ids now j Hj)|]. apply fmap_sublist, sublist_filter.
    + intros id. rewrite elem_of_elements, elem_of_backlog, list_elem_of_fmap. split.
      * intros (e & -> & He). apply list_elem_of_filter in He as [? He]. apply elem_of_due_entries in He as [He [? ?]]; eauto.
      * intros (e & He & Hw & Hn). exists e. split; [by rewrite (jo_ids _ Hj _ _ He)|]. apply list_elem_of_filter.
        split; [done|]. apply elem_of_due_entries; [done|]. rewrite (jo_ids _ Hj _ _ He). split; [done|]. split; [done|lia].
  - rewrite <- fmap_app. by rewrite <- Hs.
Qed.

Definition claimed (now : Z) (ids : list string) (j : Journal) : Journal :=
  map_imap (fun id e => Some (if bool_decide (id ∈ ids) then set_in_flight now e else e)) j.

Lemma lookup_claimed now ids j id :
  claimed now ids j !! id = (fun e => if bool_decide (id ∈ ids) then set_in_flight now e else e) <$> j !! id.
Proof. unfold claimed. rewrite map_lookup_imap. by destruct (j !! id). Qed.

(** The batch a claim returns: its ids, and the entries as they are now stored. *)
Record batch_of (j' : Journal) (ids : list string) (batch : list JournalEntry) : Prop := {
  bo_ids : je_id <$> batch ≡ₚ ids;
  bo_stored : forall e, e ∈ batch -> j' !! je_id e = Some e;
}.

Lemma omap_ids (c : Journal) (ids : list string) :
  (forall id, id ∈ ids -> exists e, c !! id = Some e /\ je_id e = id) -> je_id <$> omap (fun id => c !! id) ids = ids.
Proof.
  induction ids as [|x ids IH]; intros H; [done|]. cbn. destruct (H x) as (e & -> & He); [by left|]. cbn.
  rewrite He. f_equal. apply IH. intros id Hi. apply H. by right.
Qed.

Lemma claim_batch_spec `{!RowOrder, !RowOrderOk _} now now' l j :
  journal_ok j ->
  exists batch, claim_batch now now' l j = (claimed now' (due_ids now l j) j, Ok batch) /\
                batch_of (claimed now' (due_ids now l j) j) (due_ids now l j) batch.
Proof.
  intros Hj. unfold claim_batch. cbv zeta. fold (claimed now' (due_ids now l j) j).
  destruct (due_ids now l j) as [|i ids] eqn:E.
  { exists []. cbn [is_nil]. split; [|by split; [|intros e He; apply elem_of_nil in He]].
    f_equal. apply map_eq. intros k. rewrite lookup_claimed. by destruct (j !! k). }
  cbn [is_nil]. rewrite <- E. eexists. split; [reflexivity|]. set (c := claimed _ _ _).
  assert (forall id, id ∈ due_ids now l j -> exists e, c !! id = Some e /\ je_id e = id) as Hc.
  { intros id Hi. apply due_id_entry in Hi as Hi'; [|done]. destruct Hi' as (e & He & _). unfold c.
    rewrite lookup_claimed, He. eexists. split; [reflexivity|]. case_bool_decide; cbn; by apply (jo_ids _ Hj). }
  split.
  - rewrite row_order_perm. by rewrite omap_ids.
  - intros e. rewrite row_order_perm, list_elem_of_omap. intros (id & Hi & He).
    destruct (Hc id Hi) as (e' & He' & Hid). rewrite He in He'. injection He' as <-. by rewrite Hid.
Qed.

Lemma journal_ok_claimed now ids j : journal_ok j -> journal_ok (claimed now ids j).
Proof.
  intros Hj. assert (forall id e, claimed now ids j !! id = Some e ->
    exists e0, j !! id = Some e0 /\ (e = e0 \/ e = set_in_flight now e0)) as H.
  { intros id e. rewrite lookup_claimed. destruct (j !! id) as [x|]; [|done]. intros [= <-]. case_bool_decide; eauto. }
  destruct Hj. split; intros id e He; apply H in He as (e0 & He & [->| ->]); cbn; eauto.
  right. left.
Qed.

Lemma journal_ok_progress st att err nx up id j :
  journal_ok j -> st ∈ statuses -> (0 <= att < 2 ^ 32)%Z -> journal_ok (alter (set_progress st att err nx up) id j).
Proof.
  intros Hj Hs Ha. split; intros id' e; (destruct (decide (id = id')) as [<-|D];
    [rewrite lookup_alter_eq|rewrite lookup_alter_ne by done]).
  2, 4, 6, 8: first [apply (jo_ids _ Hj)|apply (jo_status _ Hj)|apply (jo_events _ Hj)|apply (jo_attempts _ Hj)].
  all: destruct (j !! id) as [x|] eqn:E; [|done]; intros [= <-]; cbn; try done.
  - by apply (jo_ids _ Hj).
  - by apply (jo_events _ Hj id).
Qed.
