(* ===== verification/AppState.v ===== *)
(** The state the request handlers share ([crates/arca-proto/src/state.rs]), the
    emission of journal entries ([crates/arca-proto/src/replication.rs]), and the
    handlers that configure replication ([crates/arca-proto/src/handlers/bucket.rs],
    [.../admin_replication.rs]).

    A handler is an action on [AppState].  The blob store is not part of it: the
    state records the blobs the handlers asked to delete or to discard, the
    notification events they handed to the channel and the audit entries.  Reads of the database do not fail. *)

From S2P Require Import Prelude S3Errors Types SqlTable Text MetadataStore IdentityStore Sigv4 Middleware MiddlewareAdmin UploadIntegrity.
From S2P Require Import ReplicationRules ReplicationJournal.

Open Scope act_scope.

(** ** State *)

Record S3Event : Type := {
  ev_event_name : string;
  ev_bucket : string;
  ev_key : string;
  ev_size : Z;
  ev_etag : string;
  ev_version_id : option string;
  ev_user_identity : option string;
}.

(** A per-bucket flag and the instant it expires. *)
Definition FlagCache : Type := gmap string (bool * Z).

(** An audit entry of a background action. *)
Record AuditNote : Type := {
  an_operation : string;
  an_bucket : string;
  an_key : string;
  an_version_id : option string;
}.

Record AppState : Type := MkApp {
  app_meta : MetaStore;
  app_ids : IdentityStore;
  app_journal : Journal;
  app_replication_cache : FlagCache;
  app_deleted_blobs : list string;
  app_events : list S3Event;
  app_audit : list AuditNote;
  app_discarded : list string;
}.

Definition hact (E A : Type) : Type := act AppState E A.

Definition on_meta {E A : Type} (m : act MetaStore E A) : hact E A := fun a =>
  let '(s, r) := m (app_meta a) in
  (MkApp s (app_ids a) (app_journal a) (app_replication_cache a) (app_deleted_blobs a) (app_events a)
     (app_audit a) (app_discarded a), r).

Definition on_server_config {E A : Type} (m : act IdentityStore E A) : hact E A := fun a =>
  let '(i, r) := m (app_ids a) in
  (MkApp (app_meta a) i (app_journal a) (app_replication_cache a) (app_deleted_blobs a) (app_events a)
     (app_audit a) (app_discarded a), r).

Definition on_journal {E A : Type} (m : act Journal E A) : hact E A := fun a =>
  let '(j, r) := m (app_journal a) in
  (MkApp (app_meta a) (app_ids a) j (app_replication_cache a) (app_deleted_blobs a) (app_events a)
     (app_audit a) (app_discarded a), r).

Definition set_cache {E : Type} (c : FlagCache) : hact E unit := fun a =>
  (MkApp (app_meta a) (app_ids a) (app_journal a) c (app_deleted_blobs a) (app_events a)
     (app_audit a) (app_discarded a), Ok tt).

Definition ask {E A : Type} (f : AppState -> A) : hact E A := fun a => (a, Ok (f a)).

(** [state.blob.delete]: a failure is logged. *)
Definition blob_delete {E : Type} (blob_id : string) : hact E unit := fun a =>
  (MkApp (app_meta a) (app_ids a) (app_journal a) (app_replication_cache a) (blob_id :: app_deleted_blobs a)
     (app_events a) (app_audit a) (app_discarded a), Ok tt).

(** [state.blob.delete_assembled]: the blob's own file and sidecar, never the parts
    of a composite; a failure is logged. *)
Definition blob_discard {E : Type} (blob_id : string) : hact E unit := fun a =>
  (MkApp (app_meta a) (app_ids a) (app_journal a) (app_replication_cache a) (app_deleted_blobs a) (app_events a)
     (app_audit a) (blob_id :: app_discarded a), Ok tt).

Definition emit_event {E : Type} (e : S3Event) : hact E unit := fun a =>
  (MkApp (app_meta a) (app_ids a) (app_journal a) (app_replication_cache a) (app_deleted_blobs a)
     (app_events a ++ [e]) (app_audit a) (app_discarded a), Ok tt).

(** An entry for the audit store. *)
Definition write_audit {E : Type} (n : AuditNote) : hact E unit := fun a =>
  (MkApp (app_meta a) (app_ids a) (app_journal a) (app_replication_cache a) (app_deleted_blobs a)
     (app_events a) (app_audit a ++ [n]) (app_discarded a), Ok tt).

(** A validation result as a step of a handler. *)
Definition lift {E E' A : Type} (f : E -> E') (r : outcome E A) : hact E' A := fun a =>
  (a, match r with Ok x => Ok x | Err e => Err (f e) | Panic => Panic end).

(** A call whose failure the handler logs. *)
Definition logged {E : Type} (m : hact E unit) : hact E unit := fun a =>
  let '(a', r) := m a in (a', match r with Panic => Panic | _ => Ok tt end).

Definition require_bucket (bucket resource : string) : hact ArcaError unit :=
  let! info := ask (fun a => head_bucket bucket (app_meta a)) in
  match info with
  | Some _ => act_ret tt
  | None => act_fail (S3 (S3Error_new NoSuchBucket resource))
  end.

(** A request body: not readable (too long, broken), or the document as the XML
    reader hands it over, [None] when it does not parse. *)
Inductive Body (A : Type) : Type :=
  | Unreadable
  | Document (doc : option A).
Arguments Unreadable {A}.
Arguments Document {A} doc.

Definition read_body {A : Type} (too_long : S3Error) (b : Body A) : hact ArcaError (option A) :=
  match b with
  | Unreadable => act_fail (S3 too_long)
  | Document doc => act_ret doc
  end.

(** ** Flag cache *)

Definition BUCKET_CONFIG_CACHE_TTL : Z := 30 * NANOS.

Definition cached_bucket_flag (cache : FlagCache) (bucket : string) (now : Z) : option bool :=
  match cache !! bucket with
  | Some (val, expires) => if (now <? expires)%Z then Some val else None
  | None => None
  end.

Definition cache_bucket_flag (cache : FlagCache) (bucket : string) (val : bool) (now : Z) : FlagCache :=
  <[bucket := (val, (now + BUCKET_CONFIG_CACHE_TTL)%Z)]> cache.

Definition replication_enabled_for {E : Type} (instant : Z) (bucket : string) : hact E bool :=
  let! cache := ask app_replication_cache in
  match cached_bucket_flag cache bucket instant with
  | Some val => act_ret val
  | None =>
      let! val := ask (fun a => is_some (get_bucket_config bucket "replication_configuration" (app_meta a))) in
      let! _ := set_cache (cache_bucket_flag cache bucket val instant) in
      act_ret val
  end.

Definition invalidate_bucket_replication_cache {E : Type} (bucket : string) : hact E unit :=
  let! cache := ask app_replication_cache in
  set_cache (delete bucket cache).

(** ** Emission *)

(** [serde_json] on replication configurations. *)
Class ReplicationJson : Type := {
  replication_to_json : ReplicationConfiguration -> string;
  replication_of_json : string -> option ReplicationConfiguration;
}.

Class ReplicationJsonOk (r : ReplicationJson) : Prop :=
  replication_json_round_trip : forall c, replication_of_json (replication_to_json c) = Some c.

Record EmitInput : Type := {
  em_bucket : string;
  em_key : string;
  em_version_id : option string;
  em_event_type : ReplicationEventType;
  em_tags : list (string * string);
  em_request_headers : list (string * string);
}.

Definition is_replica_write (headers : list (string * string)) : bool :=
  existsb (fun h => eq_ignore_ascii_case h.1 REPLICATION_SOURCE_HEADER && negb (bool_decide (h.2 = EmptyString))) headers.

Definition extract_replication_headers `{!HttpLib} (headers : list (string * string)) : list (string * string) :=
  omap (fun h =>
    let n := to_ascii_lowercase h.1 in
    if bool_decide (n = REPLICATION_SOURCE_HEADER) then Some (n, default EmptyString (to_str h.2)) else None) headers.

(** The guards of the loop over the rules. *)
Definition rule_emits (input : EmitInput) (rule : ReplicationRule) : bool :=
  bool_decide (rl_status rule = RuleEnabled)
  && filter_matches (rl_filter rule) (em_key input) (em_tags input)
  && negb (bool_decide (em_event_type input = EventDeleteMarker)
           && negb (bool_decide (rl_delete_marker_replication rule = RuleEnabled))).

Definition journal_entry (input : EmitInput) (now : Z) (uuid : string) (rule : ReplicationRule) : JournalEntry := {|
  je_id := uuid; je_bucket := em_bucket input; je_key := em_key input; je_version_id := em_version_id input;
  je_rule_id := rl_id rule; je_event_type := as_db (em_event_type input);
  je_destination_endpoint := ds_endpoint (rl_destination rule);
  je_destination_bucket := ds_bucket (rl_destination rule);
  je_status := "pending"; je_attempts := 0; je_last_error := None;
  je_next_retry_at := now; je_created_at := now; je_updated_at := now |}.

Section emit.
Context `{!HttpLib, !ReplicationJson}.

Definition fetch_replication_config (bucket : string) (s : MetaStore) : option ReplicationConfiguration :=
  get_bucket_config bucket "replication_configuration" s ≫= replication_of_json.

(** The loop, over the rules with the ids drawn for them; [any_inserted]. *)
Fixpoint emit_rules (input : EmitInput) (now : Z) (rules : list (ReplicationRule * string)) (any_inserted : bool)
    (j : Journal) : Journal * bool :=
  match rules with
  | [] => (j, any_inserted)
  | (rule, uuid) :: rules' =>
      if rule_emits input rule then
        let '(j', r) := insert_journal_entry (journal_entry input now uuid rule) j in
        emit_rules input now rules' (any_inserted || is_ok r) j'
      else emit_rules input now rules' any_inserted j
  end.

(** [uuids] draws an id per rule. *)
Definition maybe_emit {E : Type} (now : Z) (uuids : nat -> string) (input : EmitInput) : hact E (option ReplicationStatus) :=
  if is_replica_write (em_request_headers input) then act_ret (Some Replica)
  else
    let! config := ask (fun a => fetch_replication_config (em_bucket input) (app_meta a)) in
    match config with
    | None => act_ret None
    | Some config =>
        let! any_inserted := on_journal (fun j =>
          let '(j', b) := emit_rules input now (zip (rc_rules config) (uuids <$> seq 0 (length (rc_rules config)))) false j in
          (j', Ok b)) in
        act_ret (if any_inserted then Some Pending else None)
    end.

Definition emit_and_stamp (now instant : Z) (uuids : nat -> string) (headers : list (string * string))
    (bucket key : string) (version_id : option string) (event_type : ReplicationEventType)
    (tags : list (string * string)) : hact ArcaError (option ReplicationStatus) :=
  let header_pairs := extract_replication_headers headers in
  let! enabled := (if is_replica_write header_pairs then act_ret true else replication_enabled_for instant bucket) in
  if negb enabled then act_ret None
  else
    let! status := maybe_emit now uuids {|
      em_bucket := bucket; em_key := key; em_version_id := version_id; em_event_type := event_type;
      em_tags := tags; em_request_headers := header_pairs |} in
    match status with
    | None => act_ret None
    | Some st =>
        let! _ := logged (on_meta (set_object_replication_status bucket key version_id (Some (as_header st)))) in
        act_ret (Some st)
    end.

(** ** Configuration *)

(** [PUT /{bucket}?replication]. *)
Definition put_bucket_replication (now : Z) (bucket : string) (body : Body XmlReplication) : hact ArcaError unit :=
  let resource := "/" +:+ bucket in
  let! _ := require_bucket bucket resource in
  let! versioning := ask (fun a => get_bucket_config bucket "versioning" (app_meta a)) in
  if bool_decide (versioning <> Some "Enabled") then
    act_fail (S3 (with_message InvalidRequest
      "Replication requires versioning to be Enabled on the source bucket" resource))
  else
    let! doc := read_body (S3Error_new InvalidRequest resource) body in
    let! config := lift S3 (parse_replication_configuration_xml doc) in
    let! _ := on_meta (set_bucket_config now bucket "replication_configuration" (replication_to_json config)) in
    invalidate_bucket_replication_cache bucket.

(** [DELETE /{bucket}?replication]. *)
Definition delete_bucket_replication (bucket : string) : hact ArcaError unit :=
  let! _ := require_bucket bucket ("/" +:+ bucket) in
  let! _ := on_meta (delete_bucket_config bucket "replication_configuration") in
  invalidate_bucket_replication_cache bucket.

(** ** Administration *)

Inductive AdminError : Type := BadRequest (msg : string) | AdminInternal (msg : string).

Definition admin {A : Type} (m : hact ArcaError A) : hact AdminError A := fun a =>
  let '(a', r) := m a in
  (a', match r with
       | Ok x => Ok x
       | Err (Internal msg) => Err (AdminInternal msg)
       | Err (DecryptionFailed msg) => Err (AdminInternal msg)
       | Err (S3 e) => Err (AdminInternal (err_message e))
       | Panic => Panic
       end).

Definition CREDENTIAL_PREFIX : string := "replication.credentials.".

Definition upsert_credential (now : Z) (name access_key_id secret_access_key : string) : hact AdminError unit :=
  if bool_decide (name = EmptyString) || contains name "/" || contains name " " then
    act_fail (BadRequest "credential name must be a non-empty token (no slashes/spaces)")
  else if bool_decide (access_key_id = EmptyString) || bool_decide (secret_access_key = EmptyString) then
    act_fail (BadRequest "access_key_id and secret_access_key are both required")
  else if contains secret_access_key ":" then
    act_fail (BadRequest "secret_access_key must not contain ':' (storage uses colon as separator)")
  else admin (on_server_config (set_server_config now (CREDENTIAL_PREFIX +:+ name)
                                  (access_key_id +:+ ":" +:+ secret_access_key))).

(** The rules of one bucket with [name]'s rules disabled, and whether one was enabled. *)
Definition disable_rule (name : string) (rule : ReplicationRule) : ReplicationRule :=
  if bool_decide (ds_credential_ref (rl_destination rule) = name) then
    {| rl_id := rl_id rule; rl_status := RuleDisabled; rl_priority := rl_priority rule; rl_filter := rl_filter rule;
       rl_destination := rl_destination rule; rl_delete_marker_replication := rl_delete_marker_replication rule |}
  else rule.

Definition disable_in_bucket (now : Z) (name : string) (b : BucketInfo) : hact ArcaError unit :=
  let! config := ask (fun a => fetch_replication_config (b_name b) (app_meta a)) in
  match config with
  | None => act_ret tt
  | Some config =>
      if existsb (fun r => bool_decide (ds_credential_ref (rl_destination r) = name)
                           && bool_decide (rl_status r = RuleEnabled)) (rc_rules config) then
        let! _ := on_meta (set_bucket_config now (b_name b) "replication_configuration"
          (replication_to_json {| rc_role := rc_role config; rc_rules := disable_rule name <$> rc_rules config |})) in
        invalidate_bucket_replication_cache (b_name b)
      else act_ret tt
  end.

Definition disable_rules_referencing (now : Z) (name : string) : hact ArcaError unit :=
  let! buckets := ask (fun a => list_buckets (app_meta a)) in
  act_for (disable_in_bucket now name) buckets.

Definition delete_credential (now : Z) (name : string) : hact AdminError bool :=
  let! _ := admin (disable_rules_referencing now name) in
  admin (on_server_config (delete_server_config (CREDENTIAL_PREFIX +:+ name))).

Definition retry_entry (now : Z) (id : string) : hact AdminError unit :=
  admin (on_journal (update_status now id "pending" 0 None now)).

Definition clear_journal (now : Z) (confirm : string) : hact AdminError Z :=
  if bool_decide (confirm <> "CLEAR JOURNAL") then
    act_fail (BadRequest "Confirmation required")
  else admin (on_journal (purge_all_older (now + 86400 * NANOS))).
End emit.
