(* ===== verification/Replicator.v ===== *)
(** The replicator: the outbound S3 client ([crates/arca-server/src/replicator/client.rs],
    [crates/arca-server/src/sigv4_http.rs]) and the worker that drains the journal
    ([crates/arca-server/src/replicator/worker.rs]).

    The worker is written against the interface [Client], its state [D] being
    whatever the destination is; [http_client] is the signed HTTP client.  The
    HTTP library, the URL parser and the destination's answers are parameters. *)

From Stdlib Require Import Ascii.
From S2P Require Import Prelude S3Errors Types SqlTable Text MetadataStore IdentityStore Sigv4 Middleware MiddlewareAdmin UploadIntegrity.
From S2P Require Import ReplicationRules ReplicationJournal AppState.

Open Scope act_scope.

(** ** Outbound client *)

Inductive OutboundOp : Type :=
  | OpPut (content_length : Z) (content_type : option string) (user_metadata : list (string * string))
  | OpDelete
  | OpPutTagging.

Inductive OutboundError : Type :=
  | Http (status : Z) (body : string)
  | Network (msg : string)
  | BadUrl (msg : string).

#[export] Instance OutboundError_eq_dec : EqDecision OutboundError.
Proof. solve_decision. Defined.

Definition outbound_to_string (e : OutboundError) : string :=
  match e with
  | Http status body => "destination returned HTTP " +:+ u64_to_string status +:+ ": " +:+ body
  | Network msg => "network error: " +:+ msg
  | BadUrl msg => "malformed destination URL: " +:+ msg
  end.

(** Where a request goes and who signs it. *)
Record Target : Type := {
  tg_endpoint : string;
  tg_bucket : string;
  tg_key : string;
  tg_access_key_id : string;
  tg_secret_access_key : string;
  tg_region : string;
}.

(** What the worker needs of its client: the [Last-Modified] of the destination
    object, and the delivery of an operation.  The first argument is the clock. *)
Class Client (D : Type) : Type := {
  head_object : Z -> Target -> act D OutboundError (option Z);
  execute : Z -> OutboundOp -> Target -> string -> act D OutboundError unit;
}.

(** *** The HTTP client *)

Record Url : Type := { url_scheme : string; url_host : option string; url_port : option Z; url_path : string }.

Record OutRequest : Type := {
  or_method : string;
  or_url : string;
  or_headers : list (string * string);
  or_body : string;
}.

Record OutResponse : Type := { os_status : Z; os_last_modified : option string; os_text : string }.

(** [reqwest], [url] and [chrono]. *)
Class OutboundLib (D : Type) : Type := {
  url_parse : string -> outcome string Url;
  header_valid : string * string -> bool;
  format_iso8601 : Z -> string;
  rfc2822 : string -> option Z;
  send : OutRequest -> act D string OutResponse;
}.

Definition encode_key_byte (a : Ascii.ascii) : string :=
  let n := Ascii.N_of_ascii a in
  if is_unreserved n || (n =? 47)%N then String a EmptyString
  else String "%"%char (String (hex_upper (n / 16)) (String (hex_upper (n mod 16)) EmptyString)).

Fixpoint encode_key_segment (key : string) : string :=
  match key with
  | EmptyString => EmptyString
  | String a rest => encode_key_byte a +:+ encode_key_segment rest
  end.

(** [trim_end_matches('/')]. *)
Definition trim_end_slash (s : string) : string :=
  of_chars (reverse (drop_while (N.eqb 47) (reverse (chars s)))).

Definition base_signed_headers (host datetime : string) (content_length : option Z) (content_type : option string)
    (source_id : string) : list (string * string) :=
  [("host", host); ("x-amz-date", datetime); ("x-amz-content-sha256", "UNSIGNED-PAYLOAD");
   (REPLICATION_SOURCE_HEADER, source_id)]
  ++ from_option (fun len => [("content-length", u64_to_string len)]) [] content_length
  ++ from_option (fun ct => [("content-type", ct)]) [] content_type.

(** [HeaderMap::insert]: the last value of a name replaces the earlier ones. *)
Definition hinsert (h : list (string * string)) (kv : string * string) : list (string * string) :=
  List.filter (fun x => negb (bool_decide (x.1 = kv.1))) h ++ [kv].

Definition is_success (status : Z) : bool := (200 <=? status)%Z && (status <? 300)%Z.

Section http.
Context {D : Type} {crypto : SigCrypto} {lib : OutboundLib D}.

Definition push_signed_headers (headers : list (string * string)) (auth : string) : list (string * string) :=
  foldl hinsert [] (List.filter header_valid (headers ++ [("authorization", auth)])).

Definition build_url (endpoint bucket key : string) : outcome OutboundError (string * string * string) :=
  match url_parse endpoint with
  | Err e => Err (BadUrl e)
  | Panic => Panic
  | Ok parsed =>
      match url_host parsed with
      | None => Err (BadUrl "endpoint has no host")
      | Some h =>
          let host := h +:+ from_option (fun p => ":" +:+ u64_to_string p) EmptyString (url_port parsed) in
          let uri_path := trim_end_slash (url_path parsed) +:+ "/" +:+ bucket +:+ "/" +:+ encode_key_segment key in
          Ok (url_scheme parsed +:+ "://" +:+ host +:+ uri_path, host, uri_path)
      end
  end.

(** The request of [head] and [execute], signed at [now]. *)
Definition signed_request (source_id : string) (now : Z) (method query : string) (content_length : option Z)
    (content_type : option string) (user_meta : list (string * string)) (t : Target) (body : string)
  : outcome OutboundError OutRequest :=
  (let? built := build_url (tg_endpoint t) (tg_bucket t) (tg_key t) in
   let '(url, host, uri_path) := built in
   let datetime := format_iso8601 now in
   let headers := base_signed_headers host datetime content_length content_type source_id
                  ++ ((fun kv => (to_lowercase kv.1, kv.2)) <$> user_meta) in
   match sign_outbound_request {|
     so_method := method; so_uri_path := uri_path; so_query_string := query; so_headers := headers;
     so_payload_hash := "UNSIGNED-PAYLOAD"; so_access_key_id := tg_access_key_id t;
     so_secret_access_key := tg_secret_access_key t; so_region := tg_region t; so_service := "s3";
     so_request_datetime := datetime |} with
   | Ok auth => Ok {| or_method := method;
                      or_url := if bool_decide (query = EmptyString) then url else url +:+ "?" +:+ query;
                      or_headers := push_signed_headers headers auth; or_body := body |}
   | _ => Panic
   end)%outcome.

Definition http_send (r : outcome OutboundError OutRequest) : act D OutboundError OutResponse := fun d =>
  match r with
  | Ok req => let '(d', resp) := send req d in
              (d', match resp with Ok x => Ok x | Err e => Err (Network e) | Panic => Panic end)
  | Err e => (d, Err e)
  | Panic => (d, Panic)
  end.

Definition client_head (source_id : string) (now : Z) (t : Target) : act D OutboundError (option Z) :=
  let! resp := http_send (signed_request source_id now "HEAD" EmptyString None None [] t EmptyString) in
  if (os_status resp =? 404)%Z then act_ret None
  else if negb (is_success (os_status resp)) then act_fail (Http (os_status resp) EmptyString)
  else act_ret (os_last_modified resp ≫= rfc2822).

Definition client_execute (source_id : string) (now : Z) (op : OutboundOp) (t : Target) (body : string)
  : act D OutboundError unit :=
  let '(method, query) := match op with
                          | OpPut _ _ _ => ("PUT", EmptyString)
                          | OpDelete => ("DELETE", EmptyString)
                          | OpPutTagging => ("PUT", "tagging")
                          end in
  let content_length := match op with
                        | OpPut n _ _ => Some n
                        | OpPutTagging => Some (Z.of_nat (String.length body))
                        | OpDelete => None
                        end in
  let content_type := match op with
                      | OpPut _ ct _ => ct
                      | OpPutTagging => Some "application/xml"
                      | OpDelete => None
                      end in
  let user_meta := match op with OpPut _ _ m => m | _ => [] end in
  let! resp := http_send (signed_request source_id now method query content_length content_type user_meta t body) in
  if is_success (os_status resp) then act_ret tt else act_fail (Http (os_status resp) (os_text resp)).

Definition http_client (source_id : string) : Client D := {|
  head_object := client_head source_id;
  execute := client_execute source_id;
|}.
End http.

(** ** Worker *)

Record ReplicationConfig : Type := {
  cf_poll_interval_seconds : Z;
  cf_batch_size : Z;
  cf_max_retries : Z;
  cf_retry_base_seconds : Z;
}.

Definition default_replication_config : ReplicationConfig :=
  {| cf_poll_interval_seconds := 15; cf_batch_size := 100; cf_max_retries := 10; cf_retry_base_seconds := 5 |}.

(** The databases the worker writes, and the destination. *)
Record WorkerState (D : Type) : Type := MkWorker {
  wk_meta : MetaStore;
  wk_journal : Journal;
  wk_dest : D;
}.
Arguments MkWorker {D} _ _ _.
Arguments wk_meta {D} _.
Arguments wk_journal {D} _.
Arguments wk_dest {D} _.

(** Replaces every byte [c]. *)
Fixpoint replace_char (c : Ascii.ascii) (by_ : string) (s : string) : string :=
  match s with
  | EmptyString => EmptyString
  | String a s' => if bool_decide (a = c) then by_ +:+ replace_char c by_ s' else String a (replace_char c by_ s')
  end.

Definition xml_escape (s : string) : string :=
  replace_char (Ascii.ascii_of_nat 34) "&quot;"
    (replace_char ">"%char "&gt;" (replace_char "<"%char "&lt;" (replace_char "&"%char "&amp;" s))).

Definition serialize_tagging_xml (tags : list (string * string)) : string :=
  "<?xml version=" +:+ quoted "1.0" +:+ " encoding=" +:+ quoted "UTF-8" +:+ "?><Tagging><TagSet>"
  +:+ foldr (fun t acc => "<Tag><Key>" +:+ xml_escape t.1 +:+ "</Key><Value>" +:+ xml_escape t.2 +:+ "</Value></Tag>" +:+ acc)
        "</TagSet></Tagging>" tags.

Definition entry_record (e : JournalEntry) (s : MetaStore) : option ObjectRecord :=
  match je_version_id e with
  | Some vid => get_object_version (je_bucket e) (je_key e) vid s
  | None => get_object (je_bucket e) (je_key e) s
  end.

Definition local_last_modified (e : JournalEntry) (s : MetaStore) : option Z := o_last_modified <$> entry_record e s.

Definition find_rule (config : ReplicationConfiguration) (rule_id : string) : option ReplicationRule :=
  List.find (fun r => bool_decide (rl_id r = rule_id)) (rc_rules config).

Definition fetch_credentials (ids : IdentityStore) (credential_ref : string) : option (string * string) :=
  get_server_config (CREDENTIAL_PREFIX +:+ credential_ref) ids ≫= split_once ":"%char.

(** ~1 year, in seconds. *)
Definition TERMINAL_DELAY : Z := 60 * 60 * 24 * 365.

(** [u64] arithmetic wraps around in a release build. *)
Definition retry_delay (config : ReplicationConfig) (attempts : Z) : Z :=
  Z.min ((cf_retry_base_seconds config * 2 ^ Z.min (Z.max (attempts - 1) 0) 12) mod 2 ^ 64) 3600.

Section worker.
Context {D : Type} {client : Client D} {json : ReplicationJson} {order : RowOrder}.

Definition wact (A : Type) : Type := WorkerState D -> WorkerState D * A.

Definition w_journal (m : jact unit) : wact unit := fun w =>
  (MkWorker (wk_meta w) (m (wk_journal w)).1 (wk_dest w), tt).

Definition w_meta (m : mact ArcaError unit) : wact unit := fun w =>
  (MkWorker (m (wk_meta w)).1 (wk_journal w) (wk_dest w), tt).

Definition w_dest {A : Type} (m : act D OutboundError A) : wact (outcome OutboundError A) := fun w =>
  let '(d, r) := m (wk_dest w) in (MkWorker (wk_meta w) (wk_journal w) d, r).

Definition complete (now : Z) (e : JournalEntry) : wact unit :=
  w_journal (update_status now (je_id e) "completed" (je_attempts e) None now).

Definition stamp_object (e : JournalEntry) (status : ReplicationStatus) : wact unit :=
  w_meta (set_object_replication_status (je_bucket e) (je_key e) (je_version_id e) (Some (as_header status))).

Definition mark_failed (config : ReplicationConfig) (now : Z) (e : JournalEntry) (error : string) : wact unit := fun w =>
  let attempts := ((je_attempts e + 1) mod 2 ^ 32)%Z in
  let terminal := (cf_max_retries config <=? attempts)%Z in
  let status := if terminal then "failed" else "pending" in
  let delay_secs := if terminal then TERMINAL_DELAY else retry_delay config attempts in
  let w1 := (w_journal (update_status now (je_id e) status attempts (Some error) (now + delay_secs * NANOS)) w).1 in
  if terminal then stamp_object e Failed w1 else (w1, tt).

(** [blobs]: reading a whole blob, and the error of doing so. *)
Definition deliver_put (blobs : string -> outcome string string) (now : Z) (t : Target) (e : JournalEntry)
  : wact (outcome OutboundError unit) := fun w =>
  match entry_record e (wk_meta w) with
  | None => (w, Ok tt)
  | Some record =>
      match blobs (o_blob_id record) with
      | Err msg => (w, Err (Network msg))
      | Panic => (w, Panic)
      | Ok bytes =>
          w_dest (execute now
            (OpPut (Z.of_nat (String.length bytes)) (o_content_type record)
               ((fun kv => ("x-amz-meta-" +:+ kv.1, kv.2)) <$> map_to_list (o_metadata record))) t bytes) w
      end
  end.

Definition deliver_tags (now : Z) (t : Target) (e : JournalEntry) : wact (outcome OutboundError unit) := fun w =>
  let tags := get_object_tags (je_bucket e) (je_key e) (default EmptyString (je_version_id e)) (wk_meta w) in
  w_dest (execute now OpPutTagging t (serialize_tagging_xml tags)) w.

Definition deliver (blobs : string -> outcome string string) (now : Z) (event : ReplicationEventType) (t : Target)
    (e : JournalEntry) : wact (outcome OutboundError unit) :=
  match event with
  | EventPut => deliver_put blobs now t e
  | EventDeleteMarker => w_dest (execute now OpDelete t EmptyString)
  | EventTag => deliver_tags now t e
  end.

Definition target_of (rule : ReplicationRule) (creds : string * string) (e : JournalEntry) : Target := {|
  tg_endpoint := ds_endpoint (rl_destination rule); tg_bucket := ds_bucket (rl_destination rule);
  tg_key := je_key e; tg_access_key_id := creds.1; tg_secret_access_key := creds.2;
  tg_region := ds_region (rl_destination rule) |}.

(** The conflict check: a HEAD, and whether the destination is newer. *)
Definition destination_newer (now : Z) (t : Target) (e : JournalEntry) : wact (outcome OutboundError bool) := fun w =>
  let '(w', r) := w_dest (head_object now t) w in
  (w', match r with
       | Ok (Some dest) => Ok (from_option (fun src => (src <=? dest)%Z) false (local_last_modified e (wk_meta w')))
       | Ok None => Ok false
       | Err _ => Ok false
       | Panic => Panic
       end).

(** [false] when the task panics. *)
Definition attempt_delivery (config : ReplicationConfig) (blobs : string -> outcome string string) (now : Z)
    (event : ReplicationEventType) (t : Target) (e : JournalEntry) : wact bool := fun w =>
  let '(w1, newer) := destination_newer now t e w in
  match newer with
  | Panic => (w1, false)
  | _ =>
      if match newer with Ok b => b | _ => false end && bool_decide (event = EventPut) then
        ((stamp_object e Completed (complete now e w1).1).1, true)
      else
        let '(w2, r) := deliver blobs now event t e w1 in
        match r with
        | Ok _ => ((stamp_object e Completed (complete now e w2).1).1, true)
        | Err err => ((mark_failed config now e (outbound_to_string err) w2).1, true)
        | Panic => (w2, false)
        end
  end.

Definition process_entry (config : ReplicationConfig) (ids : IdentityStore) (blobs : string -> outcome string string)
    (now : Z) (e : JournalEntry) : wact bool := fun w =>
  match event_parse (je_event_type e) with
  | None => ((mark_failed config now e "unknown event_type" w).1, true)
  | Some event =>
      match fetch_replication_config (je_bucket e) (wk_meta w) ≫= (fun c => find_rule c (je_rule_id e)) with
      | None => ((complete now e w).1, true)
      | Some rule =>
          let ref := ds_credential_ref (rl_destination rule) in
          match fetch_credentials ids ref with
          | None =>
              ((mark_failed config now e ("missing credential '" +:+ ref +:+ "' for rule '" +:+ rl_id rule +:+ "'") w).1, true)
          | Some creds => attempt_delivery config blobs now event (target_of rule creds e) e w
          end
      end
  end.

(** The entries of a claimed batch, each with the clock at its turn; a panic ends
    the task. *)
Fixpoint process_batch (config : ReplicationConfig) (ids : IdentityStore) (blobs : string -> outcome string string)
    (clock : nat -> Z) (n : nat) (batch : list JournalEntry) : wact bool := fun w =>
  match batch with
  | [] => (w, true)
  | e :: batch' =>
      let '(w', alive) := process_entry config ids blobs (clock n) e w in
      if alive then process_batch config ids blobs clock (S n) batch' w' else (w', false)
  end.

(** One turn of the loop. *)
Definition poll (config : ReplicationConfig) (ids : IdentityStore) (blobs : string -> outcome string string)
    (clock : nat -> Z) : wact bool := fun w =>
  let '(j, r) := claim_batch (clock 0%nat) (clock 1%nat) (cf_batch_size config) (wk_journal w) in
  let w' := MkWorker (wk_meta w) j (wk_dest w) in
  match r with
  | Ok batch => process_batch config ids blobs clock 2 batch w'
  | _ => (w', true)
  end.
End worker.
