(* ===== verification/ReplicatorSafety.v ===== *)
(** What the replication journal guarantees: the journal stays well formed, an
    entry leaves the queue only by its own delivery, a delivered backlog drains
    in the order of its retry times, an entry claimed by a worker that stops is
    never claimed again, and which entries a write emits. *)

From Stdlib Require Import Ascii.
From S2P Require Import Prelude S3Errors Types SqlTable Text MetadataStore IdentityStore Sigv4 Middleware UploadIntegrity.
From S2P Require Import Sigv4Safety MiddlewareRoutes ReplicationRules ReplicationJournal AppState Replicator.

(** ** One entry *)

(** Only the columns [set_progress] writes, to a status other than [in_flight]. *)
Definition settled (id : string) (j j' : Journal) : Prop :=
  exists st att err nx up, st ∈ ["completed"; "pending"; "failed"] /\ (0 <= att < 2 ^ 32)%Z /\
                           j' = alter (set_progress st att err nx up) id j.

Section worker.
Context {D : Type} {client : Client D} {json : ReplicationJson} {order : RowOrder} {order_ok : RowOrderOk order}.
Implicit Types (w : WorkerState D).

Lemma complete_settled now e w :
  (0 <= je_attempts e < 2 ^ 32)%Z -> settled (je_id e) (wk_journal w) (wk_journal (complete now e w).1).
Proof. intros Ha. exists "completed", (je_attempts e), None, now, now. split; [by left|done]. Qed.

Lemma mark_failed_settled config now e error w :
  settled (je_id e) (wk_journal w) (wk_journal (mark_failed config now e error w).1).
Proof.
  unfold mark_failed. cbv zeta. set (att := ((je_attempts e + 1) mod 2 ^ 32)%Z).
  assert (0 <= att < 2 ^ 32)%Z by (apply Z.mod_pos_bound; lia).
  destruct (cf_max_retries config <=? att)%Z; cbn; eexists _, att, _, _, _; (split; [|done]);
    [right; right; left|right; left].
Qed.

Lemma w_dest_journal {A : Type} (m : act D OutboundError A) w : wk_journal (w_dest m w).1 = wk_journal w.
Proof. unfold w_dest. by destruct (m (wk_dest w)). Qed.

Lemma destination_newer_journal now t e w : wk_journal (destination_newer now t e w).1 = wk_journal w.
Proof.
  unfold destination_newer. pose proof (w_dest_journal (head_object now t) w) as H.
  by destruct (w_dest (head_object now t) w).
Qed.

Lemma deliver_journal blobs now event t e w : wk_journal (deliver blobs now event t e w).1 = wk_journal w.
Proof.
  destruct event; cbn [deliver]; [|apply w_dest_journal..].
  unfold deliver_put. repeat case_match; try done. apply w_dest_journal.
Qed.

Lemma attempt_delivery_journal config blobs now event t e w :
  (0 <= je_attempts e < 2 ^ 32)%Z ->
  let '(w', alive) := attempt_delivery config blobs now event t e w in
  if alive then settled (je_id e) (wk_journal w) (wk_journal w') else wk_journal w' = wk_journal w.
Proof.
  intros Ha. unfold attempt_delivery. pose proof (destination_newer_journal now t e w) as H1.
  destruct (destination_newer now t e w) as [w1 newer]. cbn [fst] in H1. rewrite <- H1.
  destruct newer as [b|err|]; [| |done].
  all: destruct (_ && _); [by apply complete_settled|].
  all: pose proof (deliver_journal blobs now event t e w1) as H2.
  all: destruct (deliver blobs now event t e w1) as [w2 r]; cbn [fst] in H2; rewrite <- H2.
  all: destruct r; [by apply complete_settled|apply mark_failed_settled|done].
Qed.

Lemma process_entry_journal config ids blobs now e w :
  (0 <= je_attempts e < 2 ^ 32)%Z ->
  let '(w', alive) := process_entry config ids blobs now e w in
  if alive then settled (je_id e) (wk_journal w) (wk_journal w') else wk_journal w' = wk_journal w.
Proof.
  intros Ha. unfold process_entry. destruct (event_parse _) as [event|]; [|apply mark_failed_settled].
  destruct (_ ≫= _) as [rule|]; [|by apply complete_settled].
  destruct (fetch_credentials _ _) as [creds|]; [by apply attempt_delivery_journal|apply mark_failed_settled].
Qed.

(** ** A batch *)

Lemma settled_other id j j' id' : settled id j j' -> id' <> id -> j' !! id' = j !! id'.
Proof. intros (st & att & err & nx & up & _ & _ & ->) Hne. by rewrite lookup_alter_ne. Qed.

Lemma settled_ok id j j' : settled id j j' -> journal_ok j -> journal_ok j'.
Proof.
  intros (st & att & err & nx & up & Hs & Ha & ->) Hj. apply journal_ok_progress; [done| |done].
  unfold statuses. set_solver.
Qed.

Definition attempts_ok (batch : list JournalEntry) : Prop := Forall (fun e => 0 <= je_attempts e < 2 ^ 32)%Z batch.

Lemma process_batch_frame config ids blobs clock n batch w id :
  attempts_ok batch -> id ∉ je_id <$> batch ->
  wk_journal (process_batch config ids blobs clock n batch w).1 !! id = wk_journal w !! id.
Proof.
  revert n w. induction batch as [|e batch IH]; intros n w Hb Hi; [done|]. cbn [process_batch].
  apply Forall_cons in Hb as [He Hb]. cbn in Hi. apply not_elem_of_cons in Hi as [Hne Hi].
  pose proof (process_entry_journal config ids blobs (clock n) e w He) as HP.
  destruct (process_entry config ids blobs (clock n) e w) as [w1 alive]. destruct alive.
  - rewrite IH by done. by apply (settled_other (je_id e)).
  - cbn. by rewrite HP.
Qed.

Lemma process_batch_ok config ids blobs clock n batch w :
  attempts_ok batch -> journal_ok (wk_journal w) ->
  journal_ok (wk_journal (process_batch config ids blobs clock n batch w).1).
Proof.
  revert n w. induction batch as [|e batch IH]; intros n w Hb Hw; [done|]. cbn [process_batch].
  apply Forall_cons in Hb as [He Hb]. pose proof (process_entry_journal config ids blobs (clock n) e w He) as HP.
  destruct (process_entry config ids blobs (clock n) e w) as [w1 alive]. destruct alive.
  - apply IH; [done|]. by apply (settled_ok (je_id e) (wk_journal w)).
  - cbn. by rewrite HP.
Qed.

(** No entry of a finished batch stays in flight. *)
Lemma process_batch_settles config ids blobs clock n batch w w' :
  attempts_ok batch -> NoDup (je_id <$> batch) ->
  process_batch config ids blobs clock n batch w = (w', true) ->
  forall id e, id ∈ je_id <$> batch -> wk_journal w' !! id = Some e -> je_status e <> "in_flight".
Proof.
  revert n w. induction batch as [|x batch IH]; intros n w Hb Hd; cbn [process_batch].
  { intros _ id e Hi. by apply elem_of_nil in Hi. }
  apply Forall_cons in Hb as [Hx Hb]. cbn in Hd. apply NoDup_cons in Hd as [Hnx Hd].
  pose proof (process_entry_journal config ids blobs (clock n) x w Hx) as HP.
  pose proof (process_batch_frame config ids blobs clock (S n) batch) as HF.
  destruct (process_entry config ids blobs (clock n) x w) as [w1 alive]. destruct alive; [|done].
  intros H id e Hi. cbn in Hi. apply elem_of_cons in Hi as [->|Hi]; [|by apply (IH (S n) w1 Hb Hd H)].
  specialize (HF w1 (je_id x) Hb Hnx). rewrite H in HF. cbn [fst] in HF. rewrite HF.
  destruct HP as (st & att & err & nx & up & Hs & _ & ->). rewrite lookup_alter_eq.
  destruct (wk_journal w !! je_id x); [|done]. intros [= <-]. cbn. intros ->.
  rewrite !elem_of_cons, elem_of_nil in Hs. naive_solver.
Qed.

(** ** A poll *)

(** The claim of a poll, and the worker stopping after [k] entries of the batch. *)
Definition interrupted_poll (config : ReplicationConfig) (ids : IdentityStore) (blobs : string -> outcome string string)
    (clock : nat -> Z) (k : nat) (w : WorkerState D) : WorkerState D :=
  let '(j, r) := claim_batch (clock 0%nat) (clock 1%nat) (cf_batch_size config) (wk_journal w) in
  let w' := MkWorker (wk_meta w) j (wk_dest w) in
  match r with
  | Ok batch => (process_batch config ids blobs clock 2 (take k batch) w').1
  | _ => w'
  end.

Lemma batch_attempts j ids batch : journal_ok j -> batch_of j ids batch -> attempts_ok batch.
Proof. intros Hj Hb. apply Forall_forall. intros e He. apply (jo_attempts _ Hj (je_id e)). by apply (bo_stored _ _ _ Hb). Qed.

Lemma attempts_ok_take k batch : attempts_ok batch -> attempts_ok (take k batch).
Proof. apply Forall_take. Qed.

Lemma poll_ok config ids blobs clock w :
  journal_ok (wk_journal w) -> journal_ok (wk_journal (poll config ids blobs clock w).1).
Proof.
  intros Hw. unfold poll.
  destruct (claim_batch_spec (clock 0%nat) (clock 1%nat) (cf_batch_size config) (wk_journal w) Hw) as (batch & -> & Hb).
  apply process_batch_ok; [|by apply journal_ok_claimed]. eapply batch_attempts; [|done]. by apply journal_ok_claimed.
Qed.

(** A poll changes nothing but the entries due at its start. *)
Lemma poll_frame config ids blobs clock w id :
  journal_ok (wk_journal w) -> id ∉ due_ids (clock 0%nat) (cf_batch_size config) (wk_journal w) ->
  wk_journal (poll config ids blobs clock w).1 !! id = wk_journal w !! id.
Proof.
  intros Hw Hi. unfold poll.
  destruct (claim_batch_spec (clock 0%nat) (clock 1%nat) (cf_batch_size config) (wk_journal w) Hw) as (batch & -> & Hb).
  rewrite process_batch_frame.
  - cbn [wk_journal]. rewrite lookup_claimed, bool_decide_false by done. by destruct (wk_journal w !! id).
  - eapply batch_attempts; [|done]. by apply journal_ok_claimed.
  - by rewrite (bo_ids _ _ _ Hb).
Qed.

Lemma not_due now l j id e :
  journal_ok j -> j !! id = Some e -> ~ waiting e -> id ∉ due_ids now l j.
Proof. intros Hj He Hn Hi. apply due_id_entry in Hi as (e' & He' & Hc & _); [|done]. simplify_eq. by destruct Hc; apply Hn; [left|right]. Qed.

(** ** Entries in flight *)

(** What happens to the databases between polls: entries arrive. *)
Definition arrivals (w w' : WorkerState D) : Prop :=
  wk_journal w ⊆ wk_journal w' /\ journal_ok (wk_journal w').

(** The life of a journal: polls, by this worker or one started later, and
    arrivals; no one retries or purges entries by hand. *)
Inductive later : WorkerState D -> WorkerState D -> Prop :=
  | later_refl w : later w w
  | later_poll config ids blobs clock w w' : later (poll config ids blobs clock w).1 w' -> later w w'
  | later_arrivals w w1 w' : arrivals w w1 -> later w1 w' -> later w w'.

Lemma in_flight_stays w w' id e :
  later w w' -> journal_ok (wk_journal w) -> wk_journal w !! id = Some e -> je_status e = "in_flight" ->
  wk_journal w' !! id = Some e.
Proof.
  induction 1 as [w|config ids blobs clock w w' _ IH|w w1 w' [Hs Hok] _ IH]; intros Hw He Hst; [done| |].
  - apply IH; [by apply poll_ok| |done]. rewrite poll_frame; [done..|]. eapply not_due; [done..|].
    unfold waiting. rewrite Hst. by intros [?|?].
  - apply IH; [done| |done]. by eapply lookup_weaken.
Qed.

Lemma interrupted_poll_spec config ids blobs clock k w :
  journal_ok (wk_journal w) ->
  let due := due_ids (clock 0%nat) (cf_batch_size config) (wk_journal w) in
  exists stuck, stuck ⊆+ due /\ length stuck = (length due - k)%nat /\
    journal_ok (wk_journal (interrupted_poll config ids blobs clock k w)) /\
    forall id, id ∈ stuck -> exists e,
      wk_journal (interrupted_poll config ids blobs clock k w) !! id = Some e /\ je_status e = "in_flight".
Proof.
  intros Hw due. unfold interrupted_poll.
  destruct (claim_batch_spec (clock 0%nat) (clock 1%nat) (cf_batch_size config) (wk_journal w) Hw) as (batch & -> & Hb).
  fold due in Hb |- *. set (c := claimed (clock 1%nat) due (wk_journal w)) in *.
  assert (journal_ok c) as Hc by (by apply journal_ok_claimed).
  assert (attempts_ok (take k batch)) as Ha by (eapply attempts_ok_take, batch_attempts; done).
  assert (NoDup (je_id <$> batch)) as Hd.
  { rewrite (bo_ids _ _ _ Hb). unfold due. rewrite due_ids_take. eapply sublist_NoDup; [exact (NoDup_due_ids (clock 0%nat) _ Hw)|].
    apply sublist_take. }
  exists (je_id <$> drop k batch). split_and!.
  - rewrite <- (bo_ids _ _ _ Hb). apply sublist_submseteq, fmap_sublist, sublist_drop.
  - rewrite length_fmap, length_drop, <- (bo_ids _ _ _ Hb). by rewrite length_fmap.
  - by apply process_batch_ok.
  - intros id Hi. rewrite process_batch_frame; [|done|].
    + apply list_elem_of_fmap in Hi as (e & -> & He).
      assert (e ∈ batch) as He' by (eapply elem_of_sublist; [done|apply sublist_drop]).
      exists e. split; [by apply (bo_stored _ _ _ Hb)|]. apply (bo_stored _ _ _ Hb) in He' as Hs. unfold c in Hs.
      rewrite lookup_claimed, bool_decide_true in Hs.
      * apply fmap_Some in Hs as (x & _ & ->). done.
      * rewrite <- (bo_ids _ _ _ Hb). by apply list_elem_of_fmap_2.
    + intros Hi'. rewrite <- (take_drop k batch), fmap_app, NoDup_app in Hd. destruct Hd as (_ & Hd & _).
      by apply (Hd id).
Qed.

(** Entries claimed by a worker that stops are lost to replication: when the
    server stops after [k] entries of a claimed batch of [n], at least [n - k]
    entries stay [in_flight], and no poll of a worker started later claims,
    delivers or changes them, whatever else is journaled. *)
Theorem interrupted_delivery_stuck (config : ReplicationConfig) (ids : IdentityStore)
    (blobs : string -> outcome string string) (clock : nat -> Z) (k : nat) (w : WorkerState D) :
  journal_ok (wk_journal w) ->
  let due := due_ids (clock 0%nat) (cf_batch_size config) (wk_journal w) in
  let w1 := interrupted_poll config ids blobs clock k w in
  exists stuck, stuck ⊆+ due /\ length stuck = (length due - k)%nat /\
    forall id, id ∈ stuck -> exists e, je_status e = "in_flight" /\
      forall w2, later w1 w2 -> wk_journal w2 !! id = Some e.
Proof.
  intros Hw due w1. destruct (interrupted_poll_spec config ids blobs clock k w Hw) as (stuck & Hs & Hl & Hok & He).
  exists stuck. split_and!; [done..|]. intros id Hi. destruct (He id Hi) as (e & He1 & He2). exists e. split; [done|].
  intros w2 Hw2. by eapply in_flight_stays.
Qed.

(** ** Draining *)

(** A destination that answers every request and accepts every delivery. *)
Class Accepting : Prop := {
  accept_head : forall now t d, (head_object now t d).2 <> Panic;
  accept_execute : forall now op t body d, (execute now op t body d).2 = Ok tt;
}.

(** The worker can resolve what an entry needs: its kind of event, and the
    credentials of its rule, when the rule still exists. *)
Definition resolvable (ids : IdentityStore) (w : WorkerState D) (e : JournalEntry) : Prop :=
  is_Some (event_parse (je_event_type e)) /\
  forall c rule, fetch_replication_config (je_bucket e) (wk_meta w) = Some c -> find_rule c (je_rule_id e) = Some rule ->
    is_Some (fetch_credentials ids (ds_credential_ref (rl_destination rule))).

Definition readable (blobs : string -> outcome string string) : Prop := forall b, is_ok (blobs b) = true.

(** The entry is completed, and the configurations are as before. *)
Definition completes (e : JournalEntry) (w w' : WorkerState D) : Prop :=
  ms_bucket_config (wk_meta w') = ms_bucket_config (wk_meta w) /\
  exists now, wk_journal w' = alter (set_progress "completed" (je_attempts e) None now now) (je_id e) (wk_journal w).

Lemma w_dest_meta {A : Type} (m : act D OutboundError A) w : wk_meta (w_dest m w).1 = wk_meta w.
Proof. unfold w_dest. by destruct (m (wk_dest w)). Qed.

Lemma stamp_config e st w : ms_bucket_config (wk_meta (stamp_object e st w).1) = ms_bucket_config (wk_meta w).
Proof. unfold stamp_object, w_meta, set_object_replication_status. destruct w as [[] j d]. destruct (je_version_id e); done. Qed.

Lemma deliver_accepted {acc : Accepting} blobs now event t e w :
  readable blobs -> (deliver blobs now event t e w).2 = Ok tt /\ wk_meta (deliver blobs now event t e w).1 = wk_meta w.
Proof.
  intros Hr. assert (forall op body, (w_dest (execute now op t body) w).2 = Ok tt) as Hx.
  { intros op body. pose proof (accept_execute now op t body (wk_dest w)) as H. unfold w_dest.
    by destruct (execute now op t body (wk_dest w)). }
  destruct event; cbn [deliver]; [|split; [apply Hx|apply w_dest_meta]..].
  unfold deliver_put. destruct (entry_record e (wk_meta w)) as [r|]; [|done].
  specialize (Hr (o_blob_id r)). destruct (blobs (o_blob_id r)); [|done..]. split; [apply Hx|apply w_dest_meta].
Qed.

Lemma attempt_delivery_completes {acc : Accepting} config blobs now event t e w :
  readable blobs -> exists w', attempt_delivery config blobs now event t e w = (w', true) /\ completes e w w'.
Proof.
  intros Hr. unfold attempt_delivery.
  pose proof (destination_newer_journal now t e w) as H1. pose proof (accept_head now t (wk_dest w)) as Hh.
  assert (wk_meta (destination_newer now t e w).1 = wk_meta w /\ (destination_newer now t e w).2 <> Panic) as [H2 H3].
  { unfold destination_newer, w_dest. destruct (head_object now t (wk_dest w)) as [d r]. cbn in *.
    split; [done|]. destruct r as [[?|]|?|]; done. }
  destruct (destination_newer now t e w) as [w1 newer]. cbn [fst snd] in *.
  assert (forall w2, wk_meta w2 = wk_meta w -> wk_journal w2 = wk_journal w ->
    completes e w (stamp_object e Completed (complete now e w2).1).1) as Hc.
  { intros w2 E1 E2. split; [rewrite stamp_config; cbn; by rewrite E1|]. exists now. cbn. by rewrite E2. }
  pose proof (deliver_accepted blobs now event t e w1 Hr) as [H4 H5].
  pose proof (deliver_journal blobs now event t e w1) as H6.
  destruct (deliver blobs now event t e w1) as [w2 r]. cbn [fst snd] in *. subst r.
  destruct newer; [| |done]; (destruct (_ && _); eexists; (split; [reflexivity|]); apply Hc; congruence).
Qed.

Lemma process_entry_completes {acc : Accepting} config ids blobs now e w :
  readable blobs -> resolvable ids w e ->
  exists w', process_entry config ids blobs now e w = (w', true) /\ completes e w w'.
Proof.
  intros Hr [[event Ev] Hc]. unfold process_entry. rewrite Ev.
  destruct (fetch_replication_config (je_bucket e) (wk_meta w)) as [c|] eqn:Ec; cbn.
  2: { eexists. split; [reflexivity|]. split; [done|]. by exists now. }
  destruct (find_rule c (je_rule_id e)) as [rule|] eqn:Er.
  2: { eexists. split; [reflexivity|]. split; [done|]. by exists now. }
  destruct (Hc c rule eq_refl Er) as [creds ->]. by apply attempt_delivery_completes.
Qed.

Lemma resolvable_config ids w w' e :
  ms_bucket_config (wk_meta w') = ms_bucket_config (wk_meta w) -> resolvable ids w e -> resolvable ids w' e.
Proof.
  intros E [H1 H2]. split; [done|]. unfold fetch_replication_config, get_bucket_config in *. by rewrite E.
Qed.

(** ** Batches of a destination that accepts *)

Lemma process_batch_completes {acc : Accepting} config ids blobs clock n batch w :
  readable blobs -> attempts_ok batch -> NoDup (je_id <$> batch) -> Forall (resolvable ids w) batch ->
  exists w', process_batch config ids blobs clock n batch w = (w', true) /\
    ms_bucket_config (wk_meta w') = ms_bucket_config (wk_meta w) /\
    forall id, id ∈ je_id <$> batch -> is_Some (wk_journal w !! id) ->
      exists e, wk_journal w' !! id = Some e /\ je_status e = "completed".
Proof.
  intros Hr. revert n w. induction batch as [|x batch IH]; intros n w Ha Hd Hres; cbn [process_batch].
  { exists w. split_and!; [done..|]. intros id Hi. by apply elem_of_nil in Hi. }
  apply Forall_cons in Ha as [Hx Ha]. apply Forall_cons in Hres as [Hrx Hres]. cbn in Hd. apply NoDup_cons in Hd as [Hnx Hd].
  destruct (process_entry_completes config ids blobs (clock n) x w Hr Hrx) as (w1 & -> & Hcfg & now & Hj).
  destruct (IH (S n) w1 Ha Hd) as (w2 & H2 & Hcfg2 & Hall).
  { eapply Forall_impl; [done|]. intros e. by apply resolvable_config. }
  pose proof (process_batch_frame config ids blobs clock (S n) batch w1 (je_id x) Ha Hnx) as HF.
  rewrite H2 in HF. cbn [fst] in HF. exists w2. split_and!; [done|congruence|]. intros id Hi Hs. cbn in Hi.
  destruct (decide (id = je_id x)) as [->|Hne].
  - rewrite HF, Hj, lookup_alter_eq. destruct Hs as [e0 ->]. cbn. eauto.
  - apply elem_of_cons in Hi as [?|Hi]; [done|]. apply (Hall id Hi). by rewrite Hj, lookup_alter_ne.
Qed.

Definition all_resolvable (ids : IdentityStore) (w : WorkerState D) : Prop :=
  forall id e, wk_journal w !! id = Some e -> resolvable ids w e.

Lemma poll_completes {acc : Accepting} config ids blobs clock w :
  readable blobs -> journal_ok (wk_journal w) -> all_resolvable ids w ->
  exists w', poll config ids blobs clock w = (w', true) /\
    ms_bucket_config (wk_meta w') = ms_bucket_config (wk_meta w) /\
    forall id, id ∈ due_ids (clock 0%nat) (cf_batch_size config) (wk_journal w) ->
      exists e, wk_journal w' !! id = Some e /\ je_status e = "completed".
Proof.
  intros Hr Hw Hres. unfold poll.
  destruct (claim_batch_spec (clock 0%nat) (clock 1%nat) (cf_batch_size config) (wk_journal w) Hw) as (batch & -> & Hb).
  set (due := due_ids _ _ _) in *. set (c := claimed (clock 1%nat) due (wk_journal w)) in *.
  assert (journal_ok c) as Hc by (by apply journal_ok_claimed).
  assert (forall e, e ∈ batch -> resolvable ids w e) as Hbr.
  { intros e He. apply (bo_stored _ _ _ Hb) in He. unfold c in He. rewrite lookup_claimed in He.
    apply fmap_Some in He as (x & Hx & ->). apply Hres in Hx. case_bool_decide; done. }
  edestruct (process_batch_completes config ids blobs clock 2 batch (MkWorker (wk_meta w) c (wk_dest w)))
    as (w' & Hp & Hcfg & Hall); [done|by eapply batch_attempts| |by apply Forall_forall; intros; apply Hbr|].
  { rewrite (bo_ids _ _ _ Hb). unfold due. rewrite due_ids_take.
    eapply sublist_NoDup; [exact (NoDup_due_ids (clock 0%nat) _ Hw)|]. apply sublist_take. }
  exists w'. split_and!; [done..|]. intros id Hi. apply Hall; [by rewrite (bo_ids _ _ _ Hb)|].
  apply due_id_entry in Hi as (e & He & _); [|done]. cbn. unfold c. rewrite lookup_claimed, He. eauto.
Qed.

(** A poll takes its batch off the backlog of any time that has passed. *)
Lemma poll_backlog {acc : Accepting} config ids blobs clock b w :
  readable blobs -> journal_ok (wk_journal w) -> all_resolvable ids w -> (b <= clock 0%nat)%Z ->
  let w' := (poll config ids blobs clock w).1 in
  (size (backlog b (wk_journal w')) <= size (backlog b (wk_journal w)) - Z.to_nat (cf_batch_size config))%nat /\
  forall id, id ∈ backlog b (wk_journal w) ->
    id ∈ backlog b (wk_journal w') \/ exists e, wk_journal w' !! id = Some e /\ je_status e = "completed".
Proof.
  intros Hr Hw Hres Hb. cbv zeta. set (L := Z.to_nat (cf_batch_size config)).
  pose proof (fun id => poll_frame config ids blobs clock w id Hw) as HF.
  destruct (poll_completes config ids blobs clock w Hr Hw Hres) as (w' & Hp & _ & Hdone). rewrite Hp in *. cbn [fst] in *.
  destruct (backlog_first b (clock 0%nat) (wk_journal w) Hw Hb) as (early & late & Hperm & Hdue).
  assert (forall id, id ∈ take L early -> id ∈ due_ids (clock 0%nat) (cf_batch_size config) (wk_journal w)) as Htake.
  { intros id Hi. rewrite due_ids_take, Hdue, take_app. fold L. apply elem_of_app. by left. }
  assert (NoDup early) as Hnd by (rewrite Hperm; apply NoDup_elements).
  split.
  - assert (backlog b (wk_journal w') ⊆ backlog b (wk_journal w) ∖ list_to_set (take L early)) as Hsub.
    { intros id Hi. apply elem_of_backlog in Hi as (e & He & Hwait & Hn). apply elem_of_difference.
      assert (id ∉ due_ids (clock 0%nat) (cf_batch_size config) (wk_journal w)) as Hnot.
      { intros Hi. destruct (Hdone id Hi) as (e' & He' & Hst). simplify_eq. unfold waiting in Hwait.
        rewrite Hst in Hwait. by destruct Hwait. }
      split; [apply elem_of_backlog; exists e; by rewrite <- (HF id Hnot)|].
      rewrite elem_of_list_to_set. intros Hi. by apply Hnot, Htake. }
    apply subseteq_size in Hsub. rewrite size_difference in Hsub.
    + rewrite size_list_to_set in Hsub by (eapply sublist_NoDup; [done|apply sublist_take]).
      rewrite length_take in Hsub. assert (length early = size (backlog b (wk_journal w))) as E by (by rewrite Hperm).
      rewrite E in Hsub. lia.
    + intros id. rewrite elem_of_list_to_set. intros Hi. apply elem_of_elements. rewrite <- Hperm.
      eapply elem_of_sublist; [done|apply sublist_take].
  - intros id Hi. destruct (decide (id ∈ due_ids (clock 0%nat) (cf_batch_size config) (wk_journal w))) as [Hd|Hd];
      [right; by apply Hdone|]. left. apply elem_of_backlog in Hi as (e & He & ?). apply elem_of_backlog. exists e.
    by rewrite (HF id Hd).
Qed.

(** Arrivals whose retry time lies after [b]. *)
Definition arrivals_after (b : Z) (w w' : WorkerState D) : Prop :=
  arrivals w w' /\
  forall id e, wk_journal w !! id = None -> wk_journal w' !! id = Some e -> (b < je_next_retry_at e)%Z.

(** [n] polls from [b] on, entries arriving before each of them. *)
Inductive drain (config : ReplicationConfig) (ids : IdentityStore) (blobs : string -> outcome string string) (b : Z)
  : nat -> WorkerState D -> WorkerState D -> Prop :=
  | drain_nil w : drain config ids blobs b 0 w w
  | drain_poll n clock w w1 w2 :
      arrivals_after b w w1 -> all_resolvable ids w1 -> (b <= clock 0%nat)%Z ->
      drain config ids blobs b n (poll config ids blobs clock w1).1 w2 -> drain config ids blobs b (S n) w w2.

Lemma arrivals_backlog b w w1 : arrivals_after b w w1 -> backlog b (wk_journal w1) = backlog b (wk_journal w).
Proof.
  intros [[Hs _] Hn]. apply set_eq. intros id. rewrite !elem_of_backlog. split; intros (e & He & Hw & Hb).
  - destruct (wk_journal w !! id) as [e'|] eqn:E.
    + pose proof (lookup_weaken _ _ _ _ E Hs) as He'. simplify_eq. eauto.
    + specialize (Hn id e E He). lia.
  - exists e. split; [by eapply lookup_weaken|done].
Qed.

Lemma completed_stays config ids blobs b n w w' id e :
  drain config ids blobs b n w w' -> journal_ok (wk_journal w) ->
  wk_journal w !! id = Some e -> je_status e = "completed" -> wk_journal w' !! id = Some e.
Proof.
  induction 1 as [w|n clock w w1 w2 [[Hs Hok] _] _ _ _ IH]; intros Hw He Hst; [done|].
  apply IH; [by apply poll_ok| |done]. assert (wk_journal w1 !! id = Some e) by (by eapply lookup_weaken).
  rewrite poll_frame; [done..|]. eapply not_due; [done..|]. unfold waiting. rewrite Hst. by intros [?|?].
Qed.

(** C31. Replication makes progress: against a destination that accepts every
    delivery, [n] polls complete every entry of the backlog of time [b] as soon as
    [n * batch_size] reaches its size, however many entries with later retry
    times arrive in between; no entry is overtaken for ever.  At each poll the
    entries have known event types and, where their rule still exists,
    credentials that resolve, and every blob can be read. *)
Theorem journal_drains (config : ReplicationConfig) (ids : IdentityStore) (blobs : string -> outcome string string)
    (b : Z) (n : nat) (w w' : WorkerState D) :
  Accepting -> readable blobs -> journal_ok (wk_journal w) -> drain config ids blobs b n w w' ->
  (size (backlog b (wk_journal w)) <= n * Z.to_nat (cf_batch_size config))%nat ->
  forall id, id ∈ backlog b (wk_journal w) ->
    exists e, wk_journal w' !! id = Some e /\ je_status e = "completed".
Proof.
  intros Hacc Hr Hw Hd. revert Hw. induction Hd as [w|n clock w w1 w2 Harr Hres Hb Hd IH]; intros Hw Hn id Hi.
  - assert (size (backlog b (wk_journal w)) = 0%nat) as E by lia. apply size_empty_inv in E. set_solver.
  - assert (journal_ok (wk_journal w1)) as Hw1 by apply Harr. rewrite <- (arrivals_backlog b w w1 Harr) in Hn, Hi.
    destruct (poll_backlog config ids blobs clock b w1 Hr Hw1 Hres Hb) as [Hsize Hpoll].
    destruct (Hpoll id Hi) as [Hi'|(e & He & Hst)].
    + apply IH; [by apply poll_ok|lia|done].
    + exists e. split; [|done]. eapply completed_stays; [done|by apply poll_ok|done..].
Qed.

(** ** Invariant *)

(** Everything that writes the journal. *)
Inductive journal_step : relation Journal :=
  | step_emit input now rules any j : journal_step j (emit_rules input now rules any j).1
  | step_poll config ids blobs clock w : journal_step (wk_journal w) (wk_journal (poll config ids blobs clock w).1)
  | step_interrupted config ids blobs clock k w :
      journal_step (wk_journal w) (wk_journal (interrupted_poll config ids blobs clock k w))
  | step_retry now id j : journal_step j (update_status now id "pending" 0 None now j).1
  | step_purge_completed before j : journal_step j (purge_completed before j).1
  | step_purge_all before j : journal_step j (purge_all_older before j).1.

Lemma journal_ok_empty : journal_ok ∅.
Proof. split; intros id e He; by rewrite lookup_empty in He. Qed.

Lemma insert_entry_ok input now uuid rule j :
  journal_ok j -> journal_ok (insert_journal_entry (journal_entry input now uuid rule) j).1.
Proof.
  intros Hj. unfold insert_journal_entry. cbn [je_id journal_entry]. destruct (j !! uuid) eqn:E; [done|]. cbn [fst].
  split; intros id e He; apply lookup_insert_Some in He as [[<- <-]|[_ He]]; cbn.
  2, 4, 6, 8: by destruct Hj; eauto.
  - done.
  - left.
  - rewrite event_round_trip. eauto.
  - lia.
Qed.

Lemma emit_rules_ok input now rules any j : journal_ok j -> journal_ok (emit_rules input now rules any j).1.
Proof.
  revert any j. induction rules as [|[rule uuid] rules IH]; intros any j Hj; [done|]. cbn [emit_rules].
  destruct (rule_emits input rule); [|by apply IH].
  pose proof (insert_entry_ok input now uuid rule j Hj) as Hi.
  destruct (insert_journal_entry _ j) as [j' r]. by apply IH.
Qed.

Lemma purge_ok (P : JournalEntry -> Prop) `{!forall e, Decision (P e)} j : journal_ok j -> journal_ok (purge_where P j).1.
Proof.
  intros []. split; intros id e He; apply map_lookup_filter_Some in He as [He _]; eauto.
Qed.

(** C37. The journal is well formed in every state the server reaches, from an empty
    one, by emissions, polls, polls cut short, administrators' retries and purges:
    an entry is stored under its own id, its status is one of the four documented
    ones, its kind of event is one the worker knows, and its number of attempts
    fits 32 bits. *)
Theorem journal_well_formed (j : Journal) : rtc journal_step ∅ j -> journal_ok j.
Proof.
  intros H. generalize journal_ok_empty. induction H as [j|j1 j2 j3 Hs _ IH]; intros Hj; [done|]. apply IH. destruct Hs.
  - by apply emit_rules_ok.
  - by apply poll_ok.
  - by destruct (interrupted_poll_spec config ids blobs clock k w Hj) as (? & _ & _ & ? & _).
  - apply journal_ok_progress; [done|left|lia].
  - by apply purge_ok.
  - by apply purge_ok.
Qed.
End worker.

(** ** Retries *)

Section retries.
Context {D : Type} {client : Client D} {json : ReplicationJson}.

(** The retry schedule: a failed delivery sets the entry back to [pending]
    with a delay of [base * 2^(attempts - 1)] seconds, at most an hour, as long as
    fewer than [max_retries] attempts were made; delays never decrease, and the
    attempt that reaches [max_retries] marks the entry [failed] and parks it for a
    year. *)
Theorem retry_schedule (config : ReplicationConfig) (now : Z) (e : JournalEntry) (error : string) (w : WorkerState D) :
  wk_journal w !! je_id e = Some e -> (0 <= je_attempts e < 2 ^ 32 - 1)%Z ->
  (0 <= cf_retry_base_seconds config < 2 ^ 52)%Z ->
  let n := (je_attempts e + 1)%Z in
  (exists e', wk_journal (mark_failed config now e error w).1 !! je_id e = Some e' /\
     je_attempts e' = n /\ je_last_error e' = Some error /\
     if (n <? cf_max_retries config)%Z
     then je_status e' = "pending" /\
          je_next_retry_at e' = (now + Z.min (cf_retry_base_seconds config * 2 ^ Z.min (n - 1) 12) 3600 * NANOS)%Z
     else je_status e' = "failed" /\ je_next_retry_at e' = (now + 31536000 * NANOS)%Z) /\
  (retry_delay config n <= retry_delay config (n + 1) <= 3600)%Z.
Proof.
  intros He Ha Hb n.
  assert (forall k, (1 <= k)%Z -> retry_delay config k = Z.min (cf_retry_base_seconds config * 2 ^ Z.min (k - 1) 12) 3600) as Hd.
  { intros k Hk. unfold retry_delay. rewrite (Z.max_l (k - 1) 0) by lia. rewrite Z.mod_small; [done|].
    assert (0 < 2 ^ Z.min (k - 1) 12 <= 2 ^ 12)%Z by (split; [apply Z.pow_pos_nonneg; lia|apply Z.pow_le_mono_r; lia]).
    nia. }
  split.
  - unfold mark_failed. cbv zeta. fold n. rewrite (Z.mod_small n) by lia. rewrite Hd by lia. rewrite Z.ltb_antisym.
    destruct (cf_max_retries config <=? n)%Z; cbn; rewrite lookup_alter_eq, He; cbn; eauto 10.
  - rewrite !Hd by lia. assert (2 ^ Z.min (n - 1) 12 <= 2 ^ Z.min (n + 1 - 1) 12)%Z by (apply Z.pow_le_mono_r; lia). nia.
Qed.
End retries.

(** ** Credentials *)

(** A stored destination credential is read back by the worker exactly as it was
    given, and the credentials of other names stay as they are, provided the access
    key has no colon.  That condition is not checked: the handler refuses colons in
    the secret, where they would be harmless, and one in the access key moves the
    rest of it into the secret. *)
Theorem credentials_read_back (now : Z) (name access_key secret : string) (a a' : AppState) :
  upsert_credential now name access_key secret a = (a', Ok tt) ->
  (free_of ":"%char access_key = true -> fetch_credentials (app_ids a') name = Some (access_key, secret)) /\
  (forall k l, access_key = (k +:+ String ":"%char l) -> free_of ":"%char k = true ->
     fetch_credentials (app_ids a') name = Some (k, l +:+ ":" +:+ secret)) /\
  (forall other, other <> name -> fetch_credentials (app_ids a') other = fetch_credentials (app_ids a) other).
Proof.
  unfold upsert_credential. destruct (_ || _ || _); [done|]. destruct (_ || _); [done|].
  destruct (contains secret ":"); [done|]. unfold admin, on_server_config. destruct a as [m i j c d ev au]. cbn.
  intros [= <-]. unfold fetch_credentials, get_server_config. cbn.
  assert (forall n1 n2, CREDENTIAL_PREFIX +:+ n1 = CREDENTIAL_PREFIX +:+ n2 -> n1 = n2) as Hinj.
  { intros n1 n2. cbn. by intros [= ?]. }
  split_and!.
  - intros Hk. destruct i; cbn. rewrite lookup_insert_eq. cbn. by apply split_once_Some.
  - intros k l -> Hk. destruct i; cbn. rewrite lookup_insert_eq. cbn. rewrite string_app_assoc. cbn. by apply split_once_Some.
  - intros other Ho. destruct i; cbn. rewrite lookup_insert_ne; [done|]. intros E. by apply Hinj in E.
Qed.

(** ** Emission *)

(** The entries of the rules that apply. *)
Definition emitted (input : EmitInput) (now : Z) (rules : list (ReplicationRule * string)) : list JournalEntry :=
  (fun p => journal_entry input now p.2 p.1) <$> filter (fun p => rule_emits input p.1 = true) rules.

Definition by_id (l : list JournalEntry) : Journal := list_to_map ((fun e => (je_id e, e)) <$> l).

Lemma emit_rules_spec input now rules any j :
  NoDup (rules.*2) -> (forall u, u ∈ rules.*2 -> j !! u = None) ->
  emit_rules input now rules any j =
    (by_id (emitted input now rules) ∪ j, any || negb (is_nil (emitted input now rules))).
Proof.
  unfold by_id. revert any j. induction rules as [|[rule uuid] rules IH]; intros any j Hd Hf; cbn [emit_rules].
  { unfold emitted. cbn. by rewrite map_empty_union, orb_false_r. }
  cbn in Hd. apply NoDup_cons in Hd as [Hu Hd]. unfold emitted. rewrite filter_cons. cbn [fst].
  fold (emitted input now rules). destruct (rule_emits input rule) eqn:E.
  - rewrite decide_True by done. cbn [fmap list_fmap]. fold (emitted input now rules).
    unfold insert_journal_entry. cbn [je_id journal_entry snd]. rewrite Hf by (by left). cbn [is_ok]. rewrite orb_true_r, IH; [|done|].
    + rewrite orb_true_l. cbn [is_nil negb fmap list_fmap]. rewrite orb_true_r. f_equal.
      rewrite <- insert_union_r; [apply insert_union_l|]. apply not_elem_of_list_to_map.
      rewrite <- list_fmap_compose. intros Hi. apply Hu. apply list_elem_of_fmap in Hi as (e & -> & He).
      unfold emitted in He. apply list_elem_of_fmap in He as ([r u] & -> & He). apply list_elem_of_filter in He as [_ He].
      cbn. by apply (list_elem_of_fmap_2 snd) in He.
    + intros u Hi. rewrite lookup_insert_ne; [apply Hf; by right|]. intros ->. done.
  - rewrite decide_False by done. fold (emitted input now rules). apply IH; [done|]. intros u Hi. apply Hf. by right.
Qed.

Section emission.
Context {http : HttpLib} {json : ReplicationJson}.

(** What the flag cache says of the bucket, when it says anything. *)
Definition flag_current (instant : Z) (bucket : string) (a : AppState) : Prop :=
  forall flag, cached_bucket_flag (app_replication_cache a) bucket instant = Some flag ->
    flag = is_some (get_bucket_config bucket "replication_configuration" (app_meta a)).

Definition emission_input (bucket key : string) (version_id : option string) (event : ReplicationEventType)
    (tags headers : list (string * string)) : EmitInput := {|
  em_bucket := bucket; em_key := key; em_version_id := version_id; em_event_type := event; em_tags := tags;
  em_request_headers := extract_replication_headers headers |}.

Lemma replication_enabled_run {E : Type} instant bucket a :
  flag_current instant bucket a ->
  exists a', @replication_enabled_for E instant bucket a =
               (a', Ok (is_some (get_bucket_config bucket "replication_configuration" (app_meta a)))) /\
             app_journal a' = app_journal a /\ app_meta a' = app_meta a.
Proof.
  intros Hf. unfold replication_enabled_for, flag_current, act_bind in *. cbn.
  destruct (cached_bucket_flag _ _ _) as [flag|]; [rewrite (Hf flag eq_refl)|]; eexists; done.
Qed.

Lemma maybe_emit_run {E : Type} now uuids input a :
  (forall i j, uuids i = uuids j -> i = j) -> (forall i, app_journal a !! uuids i = None) ->
  exists a', app_journal a' = (if is_replica_write (em_request_headers input) then app_journal a else
      match fetch_replication_config (em_bucket input) (app_meta a) with
      | None => app_journal a
      | Some c => by_id (emitted input now (zip (rc_rules c) (uuids <$> seq 0 (length (rc_rules c))))) ∪ app_journal a
      end) /\
    @maybe_emit _ E now uuids input a = (a', Ok
      (if is_replica_write (em_request_headers input) then Some Replica else
       match fetch_replication_config (em_bucket input) (app_meta a) with
       | None => None
       | Some c => if is_nil (emitted input now (zip (rc_rules c) (uuids <$> seq 0 (length (rc_rules c))))) then None
                   else Some Pending
       end)).
Proof.
  intros Hinj Hfresh. unfold maybe_emit. destruct (is_replica_write _); [by exists a|].
  unfold act_bind at 1, ask. destruct (fetch_replication_config _ _) as [c|]; [|by exists a].
  unfold act_bind, on_journal. rewrite emit_rules_spec.
  - eexists. split; [|cbn [orb]; destruct (is_nil _); reflexivity]. done.
  - rewrite snd_zip by (rewrite length_fmap, length_seq; lia). apply NoDup_fmap_2_strong; [auto|apply NoDup_seq].
  - intros u Hu. rewrite snd_zip in Hu by (rewrite length_fmap, length_seq; lia).
    apply list_elem_of_fmap in Hu as (i & -> & _). apply Hfresh.
Qed.

Lemma stamp_run bucket key version_id st a :
  exists a', logged (on_meta (set_object_replication_status bucket key version_id (Some st))) a = (a', Ok tt) /\
             app_journal a' = app_journal a.
Proof.
  unfold logged, on_meta, set_object_replication_status. destruct a as [[] ? ? ? ? ? ?]. destruct version_id; eexists; done.
Qed.

End emission.
