(* ===== verification/ReplicatorRuns.v ===== *)
(** Replication that runs: concrete sources and destinations for the theorems of
    [ReplicatorSafety], and three runs in which the destination does not get
    what was written.  The destination is an S3 server behind the signed HTTP
    client; its clock is the sender's. *)

From Stdlib Require Import Ascii.
From S2P Require Import Prelude S3Errors Types SqlTable Text Preconditions MetadataStore IdentityStore.
From S2P Require Import Sigv4 Sigv4Safety Sigv4Sample Middleware MiddlewareRuns UploadIntegrity.
From S2P Require Import ReplicationRules ReplicationJournal AppState Replicator ReplicatorSafety.

(** ** A destination *)

(** What it stores under a URL, with the time it arrived, and the requests it saw. *)
Record Server : Type := { sv_objects : gmap string (string * string); sv_log : list OutRequest }.

Definition new_server : Server := {| sv_objects := ∅; sv_log := [] |}.

Definition serve (r : OutRequest) : act Server string OutResponse := fun d =>
  let answer status lm := Ok {| os_status := status; os_last_modified := lm; os_text := EmptyString |} in
  let store o := {| sv_objects := o; sv_log := sv_log d ++ [r] |} in
  if bool_decide (or_method r = "HEAD") then
    (d, match sv_objects d !! or_url r with
        | Some (_, t) => answer 200%Z (Some t)
        | None => answer 404%Z None
        end)
  else if bool_decide (or_method r = "DELETE") then (store (delete (or_url r) (sv_objects d)), answer 204%Z None)
  else (store (<[or_url r := (or_body r, default EmptyString (hget (or_headers r) "x-amz-date"))]> (sv_objects d)),
        answer 200%Z None).

(** Times as eleven or more digits: dates start with the first eight. *)
Definition sample_time_text (t : Z) : string := "00000000" +:+ u64_to_string t.

#[local] Instance sample_outbound : OutboundLib Server := {|
  url_parse s := Ok {| url_scheme := "https"; url_host := Some s; url_port := None; url_path := "/" |};
  header_valid _ := true;
  format_iso8601 := sample_time_text;
  rfc2822 s := strip_prefix "00000000" s ≫= parse_u64;
  send := serve;
|}.

#[local] Instance sample_client : Client Server := http_client "arca".

#[local] Instance stored_order : RowOrder := fun l => l.

#[local] Instance stored_order_ok : RowOrderOk stored_order.
Proof. intros l. done. Qed.

(** ** Sources *)

Definition sample_dest (host : string) : XmlDestination := {|
  xd_bucket := "arn:aws:s3:::copies"; xd_endpoint := Some host; xd_region := None;
  xd_credential_ref := Some "main"; xd_storage_class := None |}.

Definition sample_xml_rule (host : string) : XmlReplicationRule := {|
  xr_id := None; xr_status := "Enabled"; xr_priority := None; xr_filter := None; xr_legacy_prefix := None;
  xr_destination := sample_dest host; xr_delete_marker_replication := None |}.

Definition sample_rule (host : string) : ReplicationRule := {|
  rl_id := EmptyString; rl_status := RuleEnabled; rl_priority := 0; rl_filter := FilterEmpty;
  rl_destination := parse_destination (sample_dest host); rl_delete_marker_replication := RuleEnabled |}.

(** The JSON of configurations with one rule per host. *)
#[local] Instance sample_json : ReplicationJson := {|
  replication_to_json c := String.concat "," ((fun r => ds_endpoint (rl_destination r)) <$> rc_rules c);
  replication_of_json s := Some {| rc_role := EmptyString; rc_rules := sample_rule <$> split ","%char s |};
|}.

Definition sample_record (blob : string) (t : Z) : ObjectRecord :=
  MkObject "bucket" "key" blob 1 blob None t {["x-amz-meta-color" := "red"]} None None "owner" None true false false
    None None None "STANDARD" None None None None None None.

Definition empty_app : AppState := MkApp empty_meta empty_ids ∅ ∅ [] [] [] [].

(** A versioned bucket with a rule per host, and the credentials they use. *)
Definition configured (hosts : list string) : AppState :=
  let setup :=
    (let! _ := on_meta (create_bucket_owned 0 "bucket" "owner") in
     let! _ := on_meta (set_bucket_config 0 "bucket" "versioning" "Enabled") in
     let! _ := put_bucket_replication 0 "bucket"
                 (Document (Some {| xc_role := None; xc_rules := sample_xml_rule <$> hosts |})) in
     act_ret tt)%act in
  (upsert_credential 0 "main" "key-id" "secret" (setup empty_app).1).1.

(** A PUT at time [t] of the content [blob], journaled under [id-...]. *)
Definition sample_write (blob vid id : string) (t : Z) (a : AppState) : AppState :=
  let put :=
    (let! r := on_meta (put_object_if vid (sample_record blob t) no_write_precondition) in
     emit_and_stamp t t (fun n => id +:+ u64_to_string (Z.of_nat n)) [] "bucket" "key" r.2 EventPut [])%act in
  (put a).1.

Definition worker_of (a : AppState) : WorkerState Server := MkWorker (app_meta a) (app_journal a) new_server.

Definition run_poll (ids : IdentityStore) (t : Z) (w : WorkerState Server) : WorkerState Server :=
  (poll default_replication_config ids (fun b => Ok b) (fun n => (t + Z.of_nat n)%Z) w).1.

(** ** A newer version that never arrives *)

(** Two versions of one key, written a second apart, before the first poll. *)
Definition overwritten : AppState :=
  sample_write "new" "v2" "id-b" 2000000 (sample_write "old" "v1" "id-a" 1000000 (configured ["replica"])).

Definition after_poll : WorkerState Server := run_poll (app_ids overwritten) 15000000 (worker_of overwritten).

Definition replica_url : string := "https://replica/copies/key".

(** What the replica holds under the key. *)
Definition replica_body (w : WorkerState Server) : option string := fst <$> sv_objects (wk_dest w) !! replica_url.

(** Of two versions written between polls the replica may keep the older one
    for good.  Delivering the first stamps the replica with the time of delivery,
    which is later than the second write, so the second entry is skipped as already
    newer at the destination: both entries are completed, both versions report
    [COMPLETED], the current version is the second, the replica holds the first, and
    a later poll finds nothing left to deliver. *)
Theorem overwritten_version_lost :
  validate_configuration {| rc_role := EmptyString; rc_rules := [sample_rule "replica"] |} = Ok tt /\
  (o_blob_id <$> get_object "bucket" "key" (wk_meta after_poll)) = Some "new" /\
  replica_body after_poll = Some "old" /\
  (forall v, v ∈ ["v1"; "v2"] ->
     (get_object_version "bucket" "key" v (wk_meta after_poll) ≫= o_replication_status) = Some "COMPLETED") /\
  (forall e, e ∈ (map_to_list (wk_journal after_poll)).*2 -> je_status e = "completed") /\
  length (map_to_list (wk_journal after_poll)) = 2%nat /\
  replica_body (run_poll (app_ids overwritten) 60000000 after_poll) = Some "old".
Proof.
  split_and!; [vm_compute; reflexivity..| | |vm_compute; reflexivity|vm_compute; reflexivity].
  - intros v Hv. repeat (apply elem_of_cons in Hv as [->|Hv]; [vm_compute; reflexivity|]). by apply elem_of_nil in Hv.
  - vm_compute. intros e He. repeat (apply elem_of_cons in He as [->|He]; [reflexivity|]). by apply elem_of_nil in He.
Qed.

(** ** Rules with no id *)

Definition two_hosts : AppState := sample_write "content" "v1" "id-" 1000000 (configured ["one"; "two"]).

Definition two_hosts_polled : WorkerState Server := run_poll (app_ids two_hosts) 15000000 (worker_of two_hosts).

(** Rules without an id are accepted side by side, but the worker finds the rule of
    an entry by its id: of two such rules, the entry of the second is delivered to
    the destination of the first.  Both entries end [completed], the second
    destination never receives the object, although its entry names it. *)
Theorem unnamed_rules_misdelivered :
  validate_configuration {| rc_role := EmptyString; rc_rules := [sample_rule "one"; sample_rule "two"] |} = Ok tt /\
  ((fun e => (je_destination_endpoint e, je_status e)) <$> (map_to_list (wk_journal two_hosts_polled)).*2) =
    [("two", "completed"); ("one", "completed")] /\
  sv_objects (wk_dest two_hosts_polled) !! "https://one/copies/key" = Some ("content", "0000000015000002") /\
  sv_objects (wk_dest two_hosts_polled) !! "https://two/copies/key" = None.
Proof. split_and!; vm_compute; reflexivity. Qed.

(** User metadata is stored under its full header name, and the replicator prefixes
    it again: the replica of an object with [x-amz-meta-color] has
    [x-amz-meta-x-amz-meta-color] and no [x-amz-meta-color]. *)
Lemma replica_metadata_renamed :
  (sv_log (wk_dest after_poll) !! 0%nat ≫= (fun r => hget (or_headers r) "x-amz-meta-x-amz-meta-color")) = Some "red" /\
  (sv_log (wk_dest after_poll) !! 0%nat ≫= (fun r => hget (or_headers r) "x-amz-meta-color")) = None.
Proof. split; vm_compute; reflexivity. Qed.

(** ** Witnesses *)

(** An emitted entry per host. *)
Lemma two_hosts_emitted :
  app_journal two_hosts = (emit_rules (emission_input "bucket" "key" (Some "v1") EventPut [] []) 1000000
    [(sample_rule "one", "id-0"); (sample_rule "two", "id-1")] false ∅).1.
Proof. vm_compute. reflexivity. Qed.

Lemma two_hosts_reachable : rtc (journal_step (D := Server)) ∅ (app_journal two_hosts).
Proof. rewrite two_hosts_emitted. eapply rtc_l; [apply step_emit|apply rtc_refl]. Qed.

Lemma journal_well_formed_witness : journal_ok (app_journal two_hosts).
Proof. apply (journal_well_formed (D := Server)). apply two_hosts_reachable. Defined.

Definition two_hosts_worker : WorkerState Server := worker_of two_hosts.

Lemma two_hosts_ok : journal_ok (wk_journal two_hosts_worker).
Proof. cbn [wk_journal two_hosts_worker worker_of]. rewrite two_hosts_emitted. apply emit_rules_ok, journal_ok_empty. Qed.

Lemma interrupted_delivery_stuck_witness :
  exists stuck, stuck ⊆+ ["id-0"; "id-1"] /\ length stuck = 2%nat /\
    forall id, id ∈ stuck -> exists e, je_status e = "in_flight" /\
      forall w2, later (interrupted_poll default_replication_config (app_ids two_hosts) (fun b => Ok b)
                          (fun n => (15000000 + Z.of_nat n)%Z) 0 two_hosts_worker) w2 -> wk_journal w2 !! id = Some e.
Proof.
  destruct (interrupted_delivery_stuck default_replication_config (app_ids two_hosts) (fun b => Ok b)
    (fun n => (15000000 + Z.of_nat n)%Z) 0 two_hosts_worker two_hosts_ok) as (stuck & Hs & Hl & H).
  assert (due_ids 15000000 100 (wk_journal two_hosts_worker) ≡ₚ ["id-0"; "id-1"]) as E.
  { assert (due_ids 15000000 100 (wk_journal two_hosts_worker) = ["id-1"; "id-0"]) as -> by (vm_compute; reflexivity).
    apply perm_swap. }
  exists stuck. split_and!; [by rewrite <- E|by rewrite Hl, E|done].
Defined.

(** A destination that accepts everything. *)
#[local] Instance quiet_client : Client unit := {|
  head_object _ _ d := (d, Ok None);
  execute _ _ _ _ d := (d, Ok tt);
|}.

#[local] Instance quiet_accepts : Accepting (D := unit).
Proof. split; done. Qed.

Definition quiet_worker : WorkerState unit := MkWorker (app_meta two_hosts) (app_journal two_hosts) tt.

Lemma quiet_resolvable : all_resolvable (app_ids two_hosts) quiet_worker.
Proof.
  intros id e He. split; [by apply (jo_events _ two_hosts_ok id)|]. intros c rule Hc Hr.
  unfold fetch_replication_config in Hc. destruct (get_bucket_config _ _ _) as [s|]; [|done]. injection Hc as <-.
  apply List.find_some in Hr as [Hr _]. apply in_map_iff in Hr as (h & <- & _). cbn. vm_compute. eauto.
Qed.

Definition quiet_drained : WorkerState unit :=
  (poll default_replication_config (app_ids two_hosts) (fun b => Ok b) (fun n => (15000000 + Z.of_nat n)%Z) quiet_worker).1.

Lemma quiet_drain : drain default_replication_config (app_ids two_hosts) (fun b => Ok b) 15000000 1 quiet_worker quiet_drained.
Proof.
  eapply (drain_poll _ _ _ _ _ (fun n => (15000000 + Z.of_nat n)%Z)); [|apply quiet_resolvable|done|apply drain_nil].
  split; [split; [done|apply two_hosts_ok]|]. intros id e He He'. congruence.
Qed.

Lemma journal_drains_witness : exists e, wk_journal quiet_drained !! "id-0" = Some e /\ je_status e = "completed".
Proof.
  apply (journal_drains default_replication_config (app_ids two_hosts) (fun b => Ok b) 15000000 1 quiet_worker quiet_drained).
  - apply quiet_accepts.
  - done.
  - apply two_hosts_ok.
  - apply quiet_drain.
  - vm_compute. lia.
  - apply elem_of_backlog. eexists. split; [vm_compute; reflexivity|]. split; [by left|]. vm_compute. discriminate.
Defined.

Definition failing_entry : JournalEntry :=
  journal_entry (emission_input "bucket" "key" (Some "v1") EventPut [] []) 1000000 "id-0" (sample_rule "one").

Lemma retry_schedule_witness :
  exists e', wk_journal (mark_failed default_replication_config 5 failing_entry "refused" quiet_worker).1 !! "id-0" = Some e' /\
    je_status e' = "pending" /\ je_next_retry_at e' = 5000000005%Z.
Proof.
  destruct (retry_schedule default_replication_config 5 failing_entry "refused" quiet_worker)
    as [(e' & He & _ & _ & Hs & Hn) _].
  - vm_compute. reflexivity.
  - vm_compute. split; [discriminate|reflexivity].
  - vm_compute. split; [discriminate|reflexivity].
  - exists e'. split_and!; [done..|]. rewrite Hn. vm_compute. reflexivity.
Defined.

Lemma credentials_read_back_witness :
  fetch_credentials (app_ids (upsert_credential 0 "main" "key-id" "secret" empty_app).1) "main" = Some ("key-id", "secret").
Proof.
  refine (proj1 (credentials_read_back 0 "main" "key-id" "secret" empty_app _ _) _); vm_compute; reflexivity.
Defined.

(** An id per number. *)
Fixpoint tally (n : nat) : string :=
  match n with O => EmptyString | S n' => String "x"%char (tally n') end.

Lemma tally_inj i j : tally i = tally j -> i = j.
Proof. revert j. induction i as [|i IH]; intros [|j] H; try done. injection H as H. f_equal. by apply IH. Qed.

Definition journaled : AppState :=
  (emit_and_stamp 7 7 tally [] "bucket" "key" (Some "v1") EventPut [] (configured ["one"; "two"])).1.

Lemma configured_journal : app_journal (configured ["one"; "two"]) = ∅.
Proof. vm_compute. reflexivity. Qed.

Lemma configured_cache : app_replication_cache (configured ["one"; "two"]) = ∅.
Proof. vm_compute. reflexivity. Qed.

