(* ===== verification/ObjectLock.v ===== *)
(** Object Lock: the documents of [crates/arca-core/src/s3/object_lock.rs], the
    lock checks and the delete, retention and legal-hold handlers of
    [crates/arca-proto/src/handlers/object.rs], and the handlers of
    [crates/arca-proto/src/handlers/bucket.rs] that enable the lock, change the
    versioning of a bucket, and delete objects in a batch or a bucket.

    XML, JSON and dates are read by other crates: a handler takes its document as
    [quick_xml] hands it over, and [LockLib] has the rest.  Reads of the database
    do not fail. *)

From Stdlib Require Import Ascii.
From S2P Require Import Prelude S3Errors Types SqlTable Text Preconditions MetadataStore Sigv4 Middleware UploadIntegrity.
From S2P Require Import ReplicationRules ReplicationJournal AppState.

Open Scope outcome_scope.

(** ** Documents *)

Record DefaultRetention : Type := {
  dr_mode : string;
  dr_days : option Z;
  dr_years : option Z;
}.

Record ObjectLockConfiguration : Type := {
  lc_enabled : bool;
  lc_default_retention : option DefaultRetention;
}.

(** Code of other crates: dates, [serde_json].  Adding or subtracting days panics
    when the instant is out of the range of [chrono]. *)
Class LockLib : Type := {
  parse_from_rfc3339 : string -> option Z;
  parse_from_rfc2822 : string -> option Z;
  parse_http_date : string -> option Z;
  to_rfc3339 : Z -> string;
  min_instant : Z;
  max_instant : Z;
  lock_to_json : ObjectLockConfiguration -> string;
  lock_of_json : string -> option ObjectLockConfiguration;
}.

(** The elements of the request documents. *)
Record XmlDefaultRetention : Type := { xm_mode : option string; xm_days : option Z; xm_years : option Z }.

Record XmlLockConfig : Type := {
  xk_enabled : option string;
  xk_rule : option (option XmlDefaultRetention);
}.

Record XmlRetention : Type := { xt_mode : option string; xt_retain_until_date : option string }.

Record XmlLegalHold : Type := { xl_status : option string }.

Definition validate_retention_mode (mode : string) : outcome S3Error unit :=
  if bool_decide (mode = "GOVERNANCE") || bool_decide (mode = "COMPLIANCE") then Ok tt
  else Err (malformed "Retention mode must be GOVERNANCE or COMPLIANCE").

Definition validate_retention_period (days years : option Z) : outcome S3Error unit :=
  match days, years with
  | Some d, None =>
      if (d =? 0)%Z then Err (with_message InvalidRetentionPeriod "Retention days must be a positive integer" EmptyString)
      else Ok tt
  | None, Some y =>
      if (y =? 0)%Z then Err (with_message InvalidRetentionPeriod "Retention years must be a positive integer" EmptyString)
      else Ok tt
  | Some _, Some _ => Err (malformed "DefaultRetention must specify either Days or Years, not both")
  | None, None => Err (malformed "DefaultRetention must specify either Days or Years")
  end.

(** A document that does not parse is [None]. *)
Definition parse_object_lock_configuration_xml (doc : option XmlLockConfig) : outcome S3Error ObjectLockConfiguration :=
  match doc with
  | None => Err (malformed "Invalid ObjectLockConfiguration XML")
  | Some parsed =>
      let? _ := match xk_enabled parsed with
                | Some e => if bool_decide (e = "Enabled") then Ok tt
                            else Err (malformed "ObjectLockEnabled must be 'Enabled'")
                | None => Ok tt
                end in
      let? default_retention :=
        match xk_rule parsed with
        | Some (Some dr) =>
            match xm_mode dr with
            | None => Err (malformed "DefaultRetention must have Mode")
            | Some mode =>
                let? _ := validate_retention_mode mode in
                let? _ := validate_retention_period (xm_days dr) (xm_years dr) in
                Ok (Some {| dr_mode := mode; dr_days := xm_days dr; dr_years := xm_years dr |})
            end
        | _ => Ok None
        end in
      Ok {| lc_enabled := true; lc_default_retention := default_retention |}
  end.

Definition parse_legal_hold_xml (doc : option XmlLegalHold) : outcome S3Error string :=
  match doc with
  | None => Err (malformed "Invalid LegalHold XML")
  | Some parsed =>
      match xl_status parsed with
      | None => Err (malformed "LegalHold must have Status")
      | Some status =>
          if bool_decide (status = "ON") || bool_decide (status = "OFF") then Ok status
          else Err (malformed "LegalHold Status must be ON or OFF")
      end
  end.

(** In nanoseconds, as every timestamp of the records. *)
Definition DAY : Z := 86400 * NANOS.

Section lock.
Context {http : HttpLib} {lib : LockLib}.

(** [instant + Duration::days(days)]. *)
Definition add_days {E : Type} (now days : Z) : outcome E Z :=
  if (now + days * DAY <=? max_instant)%Z then Ok (now + days * DAY)%Z else Panic.

Definition compute_retain_until {E : Type} (dr : DefaultRetention) (now : Z) : outcome E Z :=
  match dr_days dr, dr_years dr with
  | Some days, _ => add_days now days
  | None, Some years => add_days now (years * 365)
  | None, None => Ok now
  end.

Definition parse_retention_xml (doc : option XmlRetention) : outcome S3Error (string * Z) :=
  match doc with
  | None => Err (malformed "Invalid Retention XML")
  | Some parsed =>
      match xt_mode parsed with
      | None => Err (malformed "Retention must have Mode")
      | Some mode =>
          let? _ := validate_retention_mode mode in
          match xt_retain_until_date parsed with
          | None => Err (malformed "Retention must have RetainUntilDate")
          | Some date_str =>
              match parse_from_rfc3339 date_str with
              | Some date => Ok (mode, date)
              | None => Err (with_message InvalidArgument
                  "RetainUntilDate must be a valid ISO 8601 / RFC 3339 timestamp" EmptyString)
              end
          end
      end
  end.

(** ** Lock checks *)

Definition Headers : Type := list (string * string).

Definition bypass_governance (headers : Headers) : bool :=
  match hget_str headers "x-amz-bypass-governance-retention" with
  | Some v => eq_ignore_ascii_case v "true"
  | None => false
  end.

Definition lock_resource (r : ObjectRecord) : string := "/" +:+ o_bucket r +:+ "/" +:+ o_key r.

Definition check_object_lock_allows_delete (now : Z) (record : ObjectRecord) (headers : Headers) : outcome S3Error unit :=
  if bool_decide (o_legal_hold_status record = Some "ON") then
    Err (with_message AccessDenied "Object is under legal hold and cannot be deleted" (lock_resource record))
  else
    match o_retention_mode record, o_retain_until_date record with
    | Some mode, Some until =>
        if (now <? until)%Z then
          if bool_decide (mode = "COMPLIANCE") then
            Err (with_message AccessDenied
              ("Object is protected by COMPLIANCE retention until " +:+ to_rfc3339 until) (lock_resource record))
          else if bool_decide (mode = "GOVERNANCE") then
            if bypass_governance headers then Ok tt
            else Err (with_message AccessDenied
              "Object is protected by GOVERNANCE retention. Use x-amz-bypass-governance-retention: true to delete"
              (lock_resource record))
          else Ok tt
        else Ok tt
    | _, _ => Ok tt
    end.

Definition check_object_lock_allows_delete_batch (now : Z) (record : ObjectRecord) : outcome S3Error unit :=
  if bool_decide (o_legal_hold_status record = Some "ON") then
    Err (with_message AccessDenied "Object is under legal hold and cannot be deleted" (lock_resource record))
  else
    match o_retention_mode record, o_retain_until_date record with
    | Some mode, Some until =>
        if (now <? until)%Z then
          Err (with_message AccessDenied
            ("Object is protected by " +:+ mode +:+ " retention until " +:+ to_rfc3339 until) (lock_resource record))
        else Ok tt
    | _, _ => Ok tt
    end.

(** The lock fields of a new object: from the headers, else the default of the bucket. *)
Definition resolve_object_lock_headers {E : Type} (headers : Headers) (bucket : string) (now : Z) (s : MetaStore)
  : outcome E (option string * option Z * option string) :=
  let header_mode := hget_str headers "x-amz-object-lock-mode" in
  let header_until : option Z := (hget_str headers "x-amz-object-lock-retain-until-date" ≫= parse_from_rfc3339) in
  let header_hold : option string := (hget_str headers "x-amz-object-lock-legal-hold-status"
                       ≫= (fun v => if bool_decide (v = "ON") then Some "ON" else None)) in
  if is_some header_mode || is_some header_until then Ok (header_mode, header_until, header_hold)
  else
    match ((get_bucket_config bucket "object_lock" s ≫= lock_of_json) ≫= lc_default_retention) with
    | Some dr =>
        let? until := compute_retain_until dr now in
        Ok (Some (dr_mode dr), Some until, header_hold)
    | None => Ok (None, None, header_hold)
    end.

(** ** Deletes *)

(** The version a delete reports, and whether it is a delete marker. *)
Record DeleteAnswer : Type := { da_version_id : option string; da_delete_marker : bool }.

Definition build_delete_precondition (headers : Headers) : DeletePrecondition := {|
  d_if_match := hget_str headers "if-match";
  d_if_match_last_modified := (hget_str headers "x-amz-if-match-last-modified-time" ≫= parse_http_date);
  d_if_match_size := (hget_str headers "x-amz-if-match-size" ≫= parse_u64);
  d_if_match_blob_id := None;
|}.

Local Open Scope act_scope.

(** [delete_pre.evaluate(..)], an error answered at [resource]. *)
Definition evaluated (pre : DeletePrecondition) (current : option ObjectRecord) (resource : string)
  : hact ArcaError unit :=
  lift (fun code => S3 (S3Error_new code resource)) (delete_evaluate pre current).

Definition removed_event (marker : bool) (bucket key : string) (version_id : option string) (user : string) : S3Event := {|
  ev_event_name := if marker then "s3:ObjectRemoved:DeleteMarkerCreated" else "s3:ObjectRemoved:Delete";
  ev_bucket := bucket; ev_key := key; ev_size := 0; ev_etag := EmptyString; ev_version_id := version_id;
  ev_user_identity := Some user |}.

Section handlers.
(** [cluster_mode] of the store; the clocks during the request. *)
Variables (cluster_mode : bool) (now instant : Z).

(** [DELETE /{bucket}/{key}?versionId=..]. *)
Definition delete_version_handler (bucket key vid : string) (headers : Headers) : hact ArcaError DeleteAnswer :=
  let resource := object_resource bucket key in
  let delete_pre := build_delete_precondition headers in
  let! lock_record := ask (fun a => get_object_version bucket key vid (app_meta a)) in
  let! _ := match lock_record with
            | Some r =>
                if o_is_delete_marker r then act_ret tt
                else let! _ := lift S3 (check_object_lock_allows_delete now r headers) in
                     evaluated delete_pre (Some r) resource
            | None => act_ret tt
            end in
  let! old := on_meta (delete_object_version_if cluster_mode now bucket key vid delete_pre) in
  match old with
  | Some r =>
      if o_is_delete_marker r then act_ret {| da_version_id := Some vid; da_delete_marker := true |}
      else let! _ := blob_delete (o_blob_id r) in act_ret {| da_version_id := Some vid; da_delete_marker := false |}
  | None => act_ret {| da_version_id := None; da_delete_marker := false |}
  end.

(** [DELETE /{bucket}/{key}]; [uuid] is the marker's version id, [uuids] those of the journal. *)
Definition delete_current_handler `{!ReplicationJson} (uuid : string) (uuids : nat -> string) (bucket key : string)
    (headers : Headers) (marker_owner : string) : hact ArcaError DeleteAnswer :=
  let resource := object_resource bucket key in
  let delete_pre := build_delete_precondition headers in
  let! _ := (if d_is_empty delete_pre then act_ret tt
             else let! existing := ask (fun a => get_latest_object bucket key (app_meta a)) in
                  evaluated delete_pre existing resource) in
  let! old := on_meta (delete_object_if cluster_mode now uuid bucket key delete_pre marker_owner) in
  match old with
  | None => act_ret {| da_version_id := None; da_delete_marker := false |}
  | Some r =>
      let marker := o_is_delete_marker r in
      let! _ := (if marker then act_ret tt else blob_delete (o_blob_id r)) in
      let! _ := emit_event (removed_event marker bucket key (o_version_id r) marker_owner) in
      let! _ := (if marker then
                   let! _ := emit_and_stamp now instant uuids headers bucket key (o_version_id r) EventDeleteMarker [] in
                   act_ret tt
                 else act_ret tt) in
      act_ret {| da_version_id := o_version_id r; da_delete_marker := marker |}
  end.

(** [delete_object], once the request is known to be neither about tags nor about
    a multipart upload. *)
Definition delete_object `{!ReplicationJson} (uuid : string) (uuids : nat -> string) (bucket key : string)
    (version_id : option string) (headers : Headers) (marker_owner : string) : hact ArcaError DeleteAnswer :=
  let! _ := require_bucket bucket (object_resource bucket key) in
  match version_id with
  | Some vid => delete_version_handler bucket key vid headers
  | None => delete_current_handler uuid uuids bucket key headers marker_owner
  end.

(** *** Batches *)

Record DeleteObjectReq : Type := {
  do_key : string;
  do_version_id : option string;
  do_etag : option string;
  do_last_modified_time : option string;
  do_size : option string;
}.

Record DeleteErrorEntry : Type := {
  dx_key : string;
  dx_version_id : option string;
  dx_code : S3ErrorCode;
  dx_message : string;
}.

Record DeletedEntry : Type := {
  de_key : string;
  de_version_id : option string;
  de_delete_marker : bool;
  de_delete_marker_version_id : option string;
}.

(** A field that is given and does not parse is [None]. *)
Definition build_batch_delete_precondition (obj : DeleteObjectReq) : option DeletePrecondition :=
  let time := match do_last_modified_time obj with
              | Some s => match parse_from_rfc2822 s with
                          | Some t => Some (Some t)
                          | None => Some <$> parse_from_rfc3339 s
                          end
              | None => Some None
              end in
  let size := match do_size obj with Some s => Some <$> parse_u64 s | None => Some None end in
  match time, size with
  | Some t, Some n => Some {| d_if_match := do_etag obj; d_if_match_last_modified := t; d_if_match_size := n;
                              d_if_match_blob_id := None |}
  | _, _ => None
  end.

Definition precondition_failed (obj : DeleteObjectReq) : DeleteErrorEntry := {|
  dx_key := do_key obj; dx_version_id := do_version_id obj; dx_code := PreconditionFailed;
  dx_message := "At least one of the pre-conditions you specified did not hold." |}.

(** [Failed] with its entry, or [Batched]. *)
Definition batch_check (bucket : string) (s : MetaStore) (obj : DeleteObjectReq)
  : DeleteErrorEntry + BatchDeleteEntry :=
  match build_batch_delete_precondition obj with
  | None => inl (precondition_failed obj)
  | Some pre =>
      let entry := {| bd_key := do_key obj; bd_version_id := do_version_id obj; bd_pre := pre |} in
      match (do_version_id obj ≫= (fun vid => get_object_version bucket (do_key obj) vid s)) with
      | Some r =>
          if o_is_delete_marker r then inr entry
          else match check_object_lock_allows_delete_batch now r with
               | Err e => inl {| dx_key := do_key obj; dx_version_id := do_version_id obj; dx_code := err_code e;
                                 dx_message := err_message e |}
               | _ => inr entry
               end
      | None => inr entry
      end
  end.

Definition batched {A B : Type} (l : list (A + B)) : list B :=
  omap (fun x => match x with inr b => Some b | inl _ => None end) l.

Definition batch_answer (obj : DeleteObjectReq) (result : outcome ArcaError (option ObjectRecord))
  : DeleteErrorEntry + DeletedEntry :=
  match result with
  | Ok old =>
      let is_dm := from_option o_is_delete_marker false old in
      let vid := match do_version_id obj with Some vid => Some vid | None => (old ≫= o_version_id) end in
      inr {| de_key := do_key obj; de_version_id := vid; de_delete_marker := is_dm;
             de_delete_marker_version_id := if is_dm then vid else None |}
  | Err (S3 e) =>
      if bool_decide (err_code e = PreconditionFailed) then inl (precondition_failed obj)
      else inl {| dx_key := do_key obj; dx_version_id := do_version_id obj; dx_code := InternalError;
                  dx_message := "We encountered an internal error. Please try again." |}
  | _ => inl {| dx_key := do_key obj; dx_version_id := do_version_id obj; dx_code := InternalError;
                dx_message := "We encountered an internal error. Please try again." |}
  end.

(** The answers in request order: the checks' failures, and the batch's results. *)
Fixpoint batch_answers (objs : list DeleteObjectReq) (checks : list (DeleteErrorEntry + BatchDeleteEntry))
    (results : list (outcome ArcaError (option ObjectRecord))) : list (DeleteErrorEntry + DeletedEntry) :=
  match objs, checks with
  | obj :: objs', inl e :: checks' => inl e :: batch_answers objs' checks' results
  | obj :: objs', inr _ :: checks' =>
      match results with
      | r :: results' => batch_answer obj r :: batch_answers objs' checks' results'
      | [] => []
      end
  | _, _ => []
  end.

(** The blobs the removed versions leave behind. *)
Definition orphaned_blobs (results : list (outcome ArcaError (option ObjectRecord))) : list string :=
  omap (fun r => match r with
                 | Ok (Some old) => if o_is_delete_marker old || bool_decide (o_blob_id old = EmptyString) then None
                                    else Some (o_blob_id old)
                 | _ => None
                 end) results.

(** [POST /{bucket}?delete]; [stamps] gives the entries of the batch their clocks
    and version ids.  The body is its objects, [None] when it does not parse. *)
Definition delete_objects (stamps : nat -> Z * string) (bucket marker_owner : string)
    (body : Body (list DeleteObjectReq)) : hact ArcaError (list (DeleteErrorEntry + DeletedEntry)) :=
  let resource := "/" +:+ bucket in
  let! _ := require_bucket bucket resource in
  let! doc := read_body (with_message InvalidArgument "Request body too large or invalid" resource) body in
  match doc with
  | None => act_fail (S3 (with_message InvalidArgument "Invalid Delete XML" resource))
  | Some objs =>
      if (1000 <? length objs)%nat then
        act_fail (S3 (with_message MalformedXML "The delete request contained more than 1000 objects" resource))
      else
        let! checks := ask (fun a => batch_check bucket (app_meta a) <$> objs) in
        let batch := batched checks in
        let! results := on_meta (fun s =>
          let '(s', rs) := delete_objects_if cluster_mode bucket marker_owner
                             (zip batch (stamps <$> seq 0 (length batch))) s in (s', Ok rs)) in
        let answers := batch_answers objs checks results in
        let! _ := act_for blob_delete (orphaned_blobs results) in
        let! _ := act_for (fun e => emit_event (removed_event (de_delete_marker e) bucket (de_key e) (de_version_id e)
                                                  marker_owner)) (batched answers) in
        act_ret answers
  end.

(** ** Retention and legal hold *)

Definition locked_bucket (bucket : string) (a : AppState) : bool :=
  is_some (get_bucket_config bucket "object_lock" (app_meta a)).

Definition version_or_current (bucket key : string) (version_id : option string) (a : AppState) : option ObjectRecord :=
  match version_id with
  | Some vid => get_object_version bucket key vid (app_meta a)
  | None => get_object bucket key (app_meta a)
  end.

(** Whether the active retention of [record] lets [new_mode] until [new_until] replace it. *)
Definition retention_change_refused (record : ObjectRecord) (new_mode : string) (new_until : Z) (bypass : bool)
  : option string :=
  match o_retention_mode record, o_retain_until_date record with
  | Some mode, Some until =>
      if (now <? until)%Z then
        if bool_decide (mode = "COMPLIANCE") then
          if bool_decide (new_mode <> "COMPLIANCE") || (new_until <? until)%Z then
            Some "COMPLIANCE retention can only be extended, not shortened or changed"
          else None
        else if bool_decide (mode = "GOVERNANCE") && negb bypass then
          Some "Object is under GOVERNANCE retention. Use x-amz-bypass-governance-retention: true to modify"
        else None
      else None
  | _, _ => None
  end.

Definition put_object_retention (bucket key : string) (version_id : option string) (headers : Headers)
    (body : Body XmlRetention) : hact ArcaError unit :=
  let resource := object_resource bucket key in
  let! _ := require_bucket bucket resource in
  let! locked := ask (locked_bucket bucket) in
  if negb locked then
    act_fail (S3 (with_message InvalidRequest "Bucket is missing Object Lock Configuration" resource))
  else
    let! doc := read_body (S3Error_new InvalidRequest resource) body in
    let! new := lift S3 (parse_retention_xml doc) in
    let! existing := ask (version_or_current bucket key version_id) in
    match existing with
    | None => act_fail (S3 (S3Error_new NoSuchKey resource))
    | Some record =>
        match retention_change_refused record new.1 new.2 (bypass_governance headers) with
        | Some msg => act_fail (S3 (with_message AccessDenied msg resource))
        | None =>
            let! found := on_meta (set_object_retention now bucket key version_id (Some new.1) (Some new.2)) in
            if found then act_ret tt else act_fail (S3 (S3Error_new NoSuchKey resource))
        end
    end.

Definition get_object_retention (bucket key : string) (version_id : option string) : hact ArcaError (string * Z) :=
  let resource := object_resource bucket key in
  let! _ := require_bucket bucket resource in
  let! existing := ask (version_or_current bucket key version_id) in
  match existing with
  | None => act_fail (S3 (S3Error_new NoSuchKey resource))
  | Some record =>
      match o_retention_mode record, o_retain_until_date record with
      | Some mode, Some until => act_ret (mode, until)
      | _, _ => act_fail (S3 (with_message NoSuchKey "No retention policy is set on this object" resource))
      end
  end.

Definition put_object_legal_hold (bucket key : string) (version_id : option string) (body : Body XmlLegalHold)
  : hact ArcaError unit :=
  let resource := object_resource bucket key in
  let! _ := require_bucket bucket resource in
  let! locked := ask (locked_bucket bucket) in
  if negb locked then
    act_fail (S3 (with_message InvalidRequest "Bucket does not have Object Lock enabled" resource))
  else
    let! doc := read_body (S3Error_new InvalidRequest resource) body in
    let! status := lift S3 (parse_legal_hold_xml doc) in
    let hold_value := if bool_decide (status = "ON") then Some "ON" else None in
    let! found := on_meta (set_object_legal_hold now bucket key version_id hold_value) in
    if found then act_ret tt else act_fail (S3 (S3Error_new NoSuchKey resource)).

Definition get_object_legal_hold (bucket key : string) (version_id : option string) : hact ArcaError string :=
  let resource := object_resource bucket key in
  let! _ := require_bucket bucket resource in
  let! existing := ask (version_or_current bucket key version_id) in
  match existing with
  | None => act_fail (S3 (S3Error_new NoSuchKey resource))
  | Some record => act_ret (if bool_decide (o_legal_hold_status record = Some "ON") then "ON" else "OFF")
  end.

(** ** Buckets *)

(** The text between the first [start] and the [stop] after it. *)
Fixpoint after_first (pat s : string) : option string :=
  match strip_prefix pat s with
  | Some rest => Some rest
  | None => match s with String _ s' => after_first pat s' | EmptyString => None end
  end.

Fixpoint before_first (pat s : string) : option string :=
  if starts_with s pat then Some EmptyString
  else match s with
       | String a s' => String a <$> before_first pat s'
       | EmptyString => None
       end.

Definition parse_versioning_status (xml : string) : option string :=
  trim <$> (after_first "<Status>" xml ≫= before_first "</Status>").

(** The body is text, [None] when it is not UTF-8. *)
Definition put_bucket_versioning (bucket : string) (body : Body string) : hact ArcaError unit :=
  let resource := "/" +:+ bucket in
  let! _ := require_bucket bucket resource in
  let! text := read_body (with_message InvalidArgument "Request body too large or invalid" resource) body in
  match text with
  | None => act_fail (S3 (with_message InvalidArgument "Request body is not valid UTF-8" resource))
  | Some text =>
      let! locked := ask (locked_bucket bucket) in
      match parse_versioning_status text with
      | Some status =>
          if bool_decide (status = "Enabled") || bool_decide (status = "Suspended") then
            if bool_decide (status = "Suspended") && locked then
              act_fail (S3 (with_message InvalidBucketState
                "Cannot suspend versioning on a bucket with Object Lock enabled" resource))
            else on_meta (set_bucket_config now bucket "versioning" status)
          else act_fail (S3 (with_message MalformedXML
                 "Invalid or missing Status element (expected Enabled or Suspended)" resource))
      | None => act_fail (S3 (with_message MalformedXML
                  "Invalid or missing Status element (expected Enabled or Suspended)" resource))
      end
  end.

(** [PUT /{bucket}?object-lock]. *)
Definition put_object_lock_configuration (bucket : string) (body : Body XmlLockConfig) : hact ArcaError unit :=
  let resource := "/" +:+ bucket in
  let! _ := require_bucket bucket resource in
  let! locked := ask (locked_bucket bucket) in
  let! empty := ask (fun a => bucket_is_empty bucket (app_meta a)) in
  if negb locked && negb empty then
    act_fail (S3 (with_message InvalidBucketState
      "Object Lock configuration can only be enabled on empty buckets or at bucket creation" resource))
  else
    let! doc := read_body (S3Error_new InvalidRequest resource) body in
    let! config := lift S3 (parse_object_lock_configuration_xml doc) in
    let! versioning := ask (fun a => get_bucket_config bucket "versioning" (app_meta a)) in
    let! _ := (if bool_decide (versioning <> Some "Enabled") then
                 on_meta (set_bucket_config now bucket "versioning" "Enabled")
               else act_ret tt) in
    on_meta (set_bucket_config now bucket "object_lock" (lock_to_json config)).

(** [PUT /{bucket}] with no sub-resource. *)
Definition create_bucket (bucket owner : string) (headers : Headers) : hact ArcaError unit :=
  let! _ := lift S3 (validate_bucket_name bucket) in
  let! created := (fun a => let '(a', r) := on_meta (create_bucket_owned now bucket owner) a in
                            (a', match r with
                                 | Ok _ => Ok true
                                 | Err (S3 e) => if bool_decide (err_code e = BucketAlreadyOwnedByYou) then Ok false
                                                 else Err (S3 e)
                                 | Err e => Err e
                                 | Panic => Panic
                                 end)) in
  if created && from_option (fun v => eq_ignore_ascii_case v "true") false
                  (hget_str headers "x-amz-bucket-object-lock-enabled") then
    let! _ := on_meta (set_bucket_config now bucket "object_lock"
                (lock_to_json {| lc_enabled := true; lc_default_retention := None |})) in
    on_meta (set_bucket_config now bucket "versioning" "Enabled")
  else act_ret tt.

(** [DELETE /{bucket}] with no sub-resource. *)
Definition delete_bucket (bucket : string) : hact ArcaError unit :=
  let resource := "/" +:+ bucket in
  let! _ := require_bucket bucket resource in
  let! empty := ask (fun a => bucket_is_empty bucket (app_meta a)) in
  if negb empty then act_fail (S3 (S3Error_new BucketNotEmpty resource))
  else
    let! existed := on_meta (MetadataStore.delete_bucket bucket) in
    if existed then act_ret tt else act_fail (S3 (S3Error_new NoSuchBucket resource)).
End handlers.
End lock.
