(* ===== verification/Lifecycle.v ===== *)
(** Lifecycle rules: the configurations of [crates/arca-core/src/s3/lifecycle.rs] and the
    worker that evaluates them, in [crates/arca-server/src/worker.rs].

    XML and JSON are read by other crates.  A cycle is an action on [AppState];
    what it reads of the clock and draws of version ids while it acts on a listed
    record is a function of the record ([Draws]).  The loops over pages carry a
    fuel of one more than the number of listed rows, which [LifecycleSafety] shows
    is enough. *)

From Stdlib Require Import Ascii.
From S2P Require Import Prelude S3Errors Types SqlTable Text Preconditions MetadataStore Sigv4 Middleware UploadIntegrity.
From S2P Require Import ReplicationRules AppState ObjectLock.

(** ** Data *)

Inductive LifecycleFilter : Type :=
  | LifePrefix (prefix : string)
  | LifeTag (key value : string)
  | LifeAnd (prefix : option string) (tags : list (string * string))
  | LifeEmpty.

Inductive Expiration : Type :=
  | ExpireDays (days : Z)
  | ExpireDate (date : string)
  | ExpiredObjectDeleteMarker (b : bool).

Record NoncurrentVersionExpiration : Type := {
  nv_noncurrent_days : Z;
  nv_newer_noncurrent_versions : option Z;
}.

Record LifecycleRule : Type := {
  lr_id : string;
  lr_status : RuleStatus;
  lr_filter : LifecycleFilter;
  lr_expiration : option Expiration;
  lr_noncurrent_version_expiration : option NoncurrentVersionExpiration;
  lr_abort_days_after_initiation : option Z;
}.

Record LifecycleConfiguration : Type := { lf_rules : list LifecycleRule }.

Class LifecycleJson : Type := {
  lifecycle_to_json : LifecycleConfiguration -> string;
  lifecycle_of_json : string -> option LifecycleConfiguration;
}.

Definition life_prefix (f : LifecycleFilter) : option string :=
  match f with
  | LifePrefix p => if bool_decide (p = EmptyString) then None else Some p
  | LifeAnd (Some p) _ => if bool_decide (p = EmptyString) then None else Some p
  | _ => None
  end.

Definition life_tags (f : LifecycleFilter) : list (string * string) :=
  match f with
  | LifeTag k v => [(k, v)]
  | LifeAnd _ tags => tags
  | _ => []
  end.

(** ** Parsing *)

Record XmlExpiration : Type := {
  xe_days : option Z;
  xe_date : option string;
  xe_expired_object_delete_marker : option string;
}.

Record XmlNoncurrent : Type := { xn_noncurrent_days : option Z; xn_newer_noncurrent_versions : option Z }.

Record XmlLifecycleRule : Type := {
  xl_id : option string;
  xl_rule_status : string;
  xl_filter : option XmlFilter;
  xl_expiration : option XmlExpiration;
  xl_noncurrent : option XmlNoncurrent;
  xl_abort : option (option Z);
}.

Open Scope outcome_scope.

Definition parse_life_filter (filter : option XmlFilter) : LifecycleFilter :=
  match filter with
  | None => LifeEmpty
  | Some f =>
      match xf_and f, xf_tag f, xf_prefix f with
      | Some a, _, _ => LifeAnd (xa_prefix a) (xa_tags a)
      | None, Some (k, v), _ => LifeTag k v
      | None, None, Some p => if bool_decide (p = EmptyString) then LifeEmpty else LifePrefix p
      | None, None, None => LifeEmpty
      end
  end.

Definition parse_expiration (x : option XmlExpiration) : outcome S3Error (option Expiration) :=
  match x with
  | None => Ok None
  | Some xe =>
      match xe_days xe, xe_date xe, xe_expired_object_delete_marker xe with
      | Some d, _, _ => Ok (Some (ExpireDays d))
      | None, Some d, _ => Ok (Some (ExpireDate d))
      | None, None, Some v => Ok (Some (ExpiredObjectDeleteMarker (eq_ignore_ascii_case v "true")))
      | None, None, None =>
          Err (malformed "Expiration element must contain Days, Date, or ExpiredObjectDeleteMarker")
      end
  end.

Definition parse_noncurrent (x : option XmlNoncurrent) : outcome S3Error (option NoncurrentVersionExpiration) :=
  match x with
  | None => Ok None
  | Some n =>
      if is_some (xn_noncurrent_days n) || is_some (xn_newer_noncurrent_versions n) then
        Ok (Some {| nv_noncurrent_days := default 0%Z (xn_noncurrent_days n);
                    nv_newer_noncurrent_versions := xn_newer_noncurrent_versions n |})
      else Err (malformed "NoncurrentVersionExpiration must contain NoncurrentDays or NewerNoncurrentVersions")
  end.

Definition parse_life_rule (r : XmlLifecycleRule) : outcome S3Error LifecycleRule :=
  let? status := (if bool_decide (xl_rule_status r = "Enabled") then Ok RuleEnabled
                  else if bool_decide (xl_rule_status r = "Disabled") then Ok RuleDisabled
                  else Err (malformed ("Invalid rule status: " +:+ xl_rule_status r
                                       +:+ ". Must be 'Enabled' or 'Disabled'"))) in
  let? expiration := parse_expiration (xl_expiration r) in
  let? noncurrent := parse_noncurrent (xl_noncurrent r) in
  let? abort := match xl_abort r with
                | Some (Some d) => Ok (Some d)
                | Some None => Err (malformed "AbortIncompleteMultipartUpload must contain DaysAfterInitiation")
                | None => Ok None
                end in
  Ok {| lr_id := default EmptyString (xl_id r); lr_status := status; lr_filter := parse_life_filter (xl_filter r);
        lr_expiration := expiration; lr_noncurrent_version_expiration := noncurrent;
        lr_abort_days_after_initiation := abort |}.

(** The checks of one rule; the state is [seen_ids]. *)
Definition validate_life_rule (seen : gset string) (rule : LifecycleRule) : outcome S3Error (gset string) :=
  if negb (is_some (lr_expiration rule)) && negb (is_some (lr_noncurrent_version_expiration rule))
     && negb (is_some (lr_abort_days_after_initiation rule)) then
    Err (invalid_argument ("Rule '" +:+ lr_id rule +:+
      "' must have at least one action (Expiration, NoncurrentVersionExpiration, or AbortIncompleteMultipartUpload)"))
  else if match lr_expiration rule with Some (ExpireDays d) => (d =? 0)%Z | _ => false end then
    Err (invalid_argument "'Days' in Expiration must be a positive integer")
  else if from_option (fun n => (nv_noncurrent_days n =? 0)%Z) false (lr_noncurrent_version_expiration rule) then
    Err (invalid_argument "'NoncurrentDays' in NoncurrentVersionExpiration must be a positive integer")
  else if from_option (fun d => (d =? 0)%Z) false (lr_abort_days_after_initiation rule) then
    Err (invalid_argument "'DaysAfterInitiation' in AbortIncompleteMultipartUpload must be a positive integer")
  else if (255 <? String.length (lr_id rule))%nat then
    match slice_to 50 (lr_id rule) with
    | Ok start => Err (invalid_argument ("Rule ID '" +:+ start +:+ "...' exceeds maximum length of 255 characters"))
    | _ => Panic
    end
  else if bool_decide (lr_id rule <> EmptyString) && bool_decide (lr_id rule ∈ seen) then
    Err (invalid_argument ("Duplicate rule ID: '" +:+ lr_id rule +:+ "'"))
  else Ok (if bool_decide (lr_id rule = EmptyString) then seen else {[lr_id rule]} ∪ seen).

Definition validate_lifecycle_configuration (config : LifecycleConfiguration) : outcome S3Error unit :=
  if is_nil (lf_rules config) then Err (malformed "Lifecycle configuration must contain at least one rule")
  else if (1000 <? length (lf_rules config))%nat then
    Err (malformed "Lifecycle configuration cannot have more than 1000 rules")
  else
    let? _ := for_each validate_life_rule ∅ (lf_rules config) in
    Ok tt.

Definition parse_lifecycle_configuration_xml (doc : option (list XmlLifecycleRule))
  : outcome S3Error LifecycleConfiguration :=
  match doc with
  | None => Err (malformed "Invalid lifecycle configuration XML")
  | Some parsed =>
      let? rules := for_each (fun acc r => let? rule := parse_life_rule r in Ok (acc ++ [rule])) [] parsed in
      let config := {| lf_rules := rules |} in
      let? _ := validate_lifecycle_configuration config in
      Ok config
  end.

Close Scope outcome_scope.
Open Scope act_scope.

(** [PUT /{bucket}?lifecycle] and [DELETE /{bucket}?lifecycle]. *)
Definition put_bucket_lifecycle `{!LifecycleJson} (now : Z) (bucket : string) (body : Body (list XmlLifecycleRule))
  : hact ArcaError unit :=
  let resource := "/" +:+ bucket in
  let! _ := require_bucket bucket resource in
  let! doc := read_body (S3Error_new InvalidRequest resource) body in
  let! config := lift S3 (parse_lifecycle_configuration_xml doc) in
  on_meta (set_bucket_config now bucket "lifecycle_rules" (lifecycle_to_json config)).

Definition delete_bucket_lifecycle (bucket : string) : hact ArcaError unit :=
  let! _ := require_bucket bucket ("/" +:+ bucket) in
  let! _ := on_meta (delete_bucket_config bucket "lifecycle_rules") in
  act_ret tt.

(** ** The worker *)

Definition LIFECYCLE_BATCH_SIZE : nat := 100.

Definition is_object_locked (now : Z) (obj : ObjectRecord) : bool :=
  bool_decide (o_legal_hold_status obj = Some "ON")
  || match o_retention_mode obj, o_retain_until_date obj with
     | Some _, Some until => (now <? until)%Z
     | _, _ => false
     end.

(** The clock and the version id of a delete marker, while acting on a record. *)
Definition Draws : Type := ObjectRecord -> Z * string.

Definition no_precondition : DeletePrecondition :=
  {| d_if_match := None; d_if_match_last_modified := None; d_if_match_size := None; d_if_match_blob_id := None |}.

(** An action whose failure is logged, ending the caller. *)
Definition or_return {A : Type} (m : hact ArcaError A) (k : A -> hact ArcaError unit) : hact ArcaError unit := fun a =>
  match m a with
  | (a', Ok x) => k x a'
  | (a', Err _) => (a', Ok tt)
  | (a', Panic) => (a', Panic)
  end.

Section worker.
Context {lib : LockLib} {json : LifecycleJson}.
Variables (cluster_mode : bool) (draws : Draws).

Definition expire_object (bucket : string) (is_versioned : bool) (obj : ObjectRecord) : hact ArcaError unit :=
  or_return (on_meta (delete_object_if cluster_mode (draws obj).1 (draws obj).2 bucket (o_key obj) no_precondition "root"))
    (fun deleted =>
       let! _ := match deleted with
                 | Some d => if negb is_versioned && negb (o_is_delete_marker d) && negb (bool_decide (o_blob_id d = EmptyString))
                             then blob_delete (o_blob_id d) else act_ret tt
                 | None => act_ret tt
                 end in
       write_audit {| an_operation := "Lifecycle::ExpireObject"; an_bucket := bucket; an_key := o_key obj;
                      an_version_id := o_version_id obj |}).

Definition expire_noncurrent_version (bucket : string) (obj : ObjectRecord) : hact ArcaError unit :=
  match o_version_id obj with
  | None => act_ret tt
  | Some version_id =>
      if is_object_locked (draws obj).1 obj then act_ret tt
      else
        or_return (on_meta (delete_object_version_if cluster_mode (draws obj).1 bucket (o_key obj) version_id no_precondition))
          (fun deleted =>
             let! _ := match deleted with
                       | Some d => if bool_decide (o_blob_id d = EmptyString) then act_ret tt else blob_delete (o_blob_id d)
                       | None => act_ret tt
                       end in
             write_audit {| an_operation := "Lifecycle::ExpireNoncurrentVersion"; an_bucket := bucket;
                            an_key := o_key obj; an_version_id := Some version_id |})
  end.

Definition abort_stale_upload (bucket : string) (upload : MultipartUploadRecord) : hact ArcaError unit :=
  or_return (on_meta (delete_multipart_upload (mu_upload_id upload)))
    (fun parts =>
       let! _ := act_for (fun p => blob_delete (pt_blob_id p)) parts in
       write_audit {| an_operation := "Lifecycle::AbortMultipartUpload"; an_bucket := bucket; an_key := mu_key upload;
                      an_version_id := None |}).

(** The loop over pages: list the rows after the cursor, act on each, stop at a short page. *)
Fixpoint pages {R C : Type} (fuel : nat) (list_after : option C -> MetaStore -> list R) (cursor : R -> C)
    (action : R -> hact ArcaError unit) (after : option C) : hact ArcaError unit :=
  match fuel with
  | O => act_ret tt
  | S fuel' =>
      let! rows := ask (fun a => list_after after (app_meta a)) in
      let! _ := act_for action rows in
      if (length rows <? LIFECYCLE_BATCH_SIZE)%nat then act_ret tt
      else pages fuel' list_after cursor action (cursor <$> last rows)
  end.

(** [now - Duration::days(days)]. *)
Definition days_before {E : Type} (now days : Z) : outcome E Z :=
  if (min_instant <=? now - days * DAY)%Z then Ok (now - days * DAY)%Z else Panic.

(** How old an expired object is, in days; [None] is the [continue] of the match. *)
Definition expiration_days (now : Z) (exp : Expiration) : option Z :=
  match exp with
  | ExpireDays days => Some days
  | ExpireDate date =>
      match parse_from_rfc3339 date with
      | Some target => if (0 <? Z.quot (target - now) NANOS)%Z then None else Some 0%Z
      | None => None
      end
  | ExpiredObjectDeleteMarker _ => None
  end.

Definition expire_current (now : Z) (bucket : string) (is_versioned : bool) (prefix : option string)
    (tags : list (string * string)) (days : Z) : hact ArcaError unit :=
  let! cutoff := lift (fun e => e) (days_before now days) in
  let! fuel := ask (fun a => S (size (ms_objects (app_meta a)))) in
  pages fuel (fun start_after => list_expired_objects bucket prefix tags cutoff start_after (Z.of_nat LIFECYCLE_BATCH_SIZE))
    o_key (expire_object bucket is_versioned) None.

Definition expire_noncurrent (now : Z) (bucket : string) (prefix : option string) (tags : list (string * string))
    (nve : NoncurrentVersionExpiration) : hact ArcaError unit :=
  let! cutoff := lift (fun e => e) (days_before now (nv_noncurrent_days nve)) in
  let expiry := {| ne_prefix := prefix; ne_tags := tags; ne_cutoff := cutoff;
                   ne_keep_newer := default 0%Z (nv_newer_noncurrent_versions nve) |} in
  let! fuel := ask (fun a => S (size (ms_objects (app_meta a)))) in
  pages fuel (fun after => list_noncurrent_expired_versions bucket expiry after (Z.of_nat LIFECYCLE_BATCH_SIZE))
    (fun r => (o_key r, position_of r)) (expire_noncurrent_version bucket) None.

Definition abort_uploads (now : Z) (bucket : string) (prefix : option string) (days : Z) : hact ArcaError unit :=
  let! cutoff := lift (fun e => e) (days_before now days) in
  let! fuel := ask (fun a => S (size (ms_uploads (app_meta a)))) in
  pages fuel (fun after => list_stale_multipart_uploads bucket prefix cutoff after (Z.of_nat LIFECYCLE_BATCH_SIZE))
    (fun u => (mu_key u, mu_upload_id u)) (abort_stale_upload bucket) None.

(** The actions of a rule after its expiration. *)
Definition later_actions (now : Z) (bucket : string) (rule : LifecycleRule) : hact ArcaError unit :=
  let prefix := life_prefix (lr_filter rule) in
  let! _ := match lr_noncurrent_version_expiration rule with
            | Some nve => expire_noncurrent now bucket prefix (life_tags (lr_filter rule)) nve
            | None => act_ret tt
            end in
  match lr_abort_days_after_initiation rule with
  | Some days => abort_uploads now bucket prefix days
  | None => act_ret tt
  end.

Definition evaluate_rule (now : Z) (bucket : string) (is_versioned : bool) (rule : LifecycleRule) : hact ArcaError unit :=
  if bool_decide (lr_status rule <> RuleEnabled) then act_ret tt
  else
    match lr_expiration rule with
    | None => later_actions now bucket rule
    | Some exp =>
        match expiration_days now exp with
        | None => act_ret tt
        | Some days =>
            let! _ := expire_current now bucket is_versioned (life_prefix (lr_filter rule)) (life_tags (lr_filter rule)) days in
            later_actions now bucket rule
        end
    end.

Definition evaluate_bucket (clock : string -> Z) (info : BucketInfo) : hact ArcaError unit :=
  let bucket := b_name info in
  let! config := ask (fun a => get_bucket_config bucket "lifecycle_rules" (app_meta a) ≫= lifecycle_of_json) in
  match config with
  | None => act_ret tt
  | Some config =>
      let! versioning := ask (fun a => get_bucket_config bucket "versioning" (app_meta a)) in
      let is_versioned := bool_decide (versioning = Some "Enabled") || bool_decide (versioning = Some "Suspended") in
      act_for (evaluate_rule (clock bucket) bucket is_versioned) (lf_rules config)
  end.

(** A cycle; [clock] is read once per bucket. *)
Definition evaluate_lifecycle_rules (clock : string -> Z) : hact ArcaError unit :=
  let! buckets := ask (fun a => list_buckets (app_meta a)) in
  act_for (evaluate_bucket clock) buckets.
End worker.
