(* ===== verification/LifecycleSafety.v ===== *)
(** The lifecycle worker acts on exactly the rows its rules select.

    The worker pages through a listing whose rows it deletes as it goes; a
    pass over the pages is shown to be one pass over the listing as it was
    before the first page, whatever each action does to its own row
    ([pages_all]).  From that: what the expiration of current objects does
    ([expiration_exact]). *)

From S2P Require Import Prelude S3Errors Types SqlTable Text Preconditions MetadataStore MetadataRows MetadataInvariant.
From S2P Require Import MetadataSteps MetadataOps MetadataListing AppState ObjectLock Lifecycle.

(** ** Pages *)

Lemma act_for_app {S E A : Type} (f : A -> act S E unit) l1 l2 s :
  act_for f (l1 ++ l2) s = act_bind (act_for f l1) (fun _ => act_for f l2) s.
Proof.
  revert s. induction l1 as [|x l1 IH]; intros s; cbn; [done|]. unfold act_bind in *.
  destruct (f x s) as [s1 [[]|e|]]; [|done..]. apply IH.
Qed.

Section pages.
Context {R C : Type} (list_after : option C -> MetaStore -> list R) (cursor : R -> C).
Context (action : R -> hact ArcaError unit).
(** What is left to list, what holds while [rest] is still to be acted on, the order. *)
Context (rest_of : option C -> MetaStore -> list R) (I : list R -> AppState -> Prop) (before : relation R).
Hypothesis page : forall after m, list_after after m = take LIFECYCLE_BATCH_SIZE (rest_of after m).
Hypothesis sorted : forall rest a, I rest a -> StronglySorted before rest.
Hypothesis resume : forall after a x l1 l2,
  rest_of after (app_meta a) = l1 ++ x :: l2 -> I (l1 ++ x :: l2) a -> rest_of (Some (cursor x)) (app_meta a) = l2.
Hypothesis step : forall r rest a, I (r :: rest) a ->
  let a' := (action r a).1 in
  I rest a' /\ forall x, r = x \/ before r x -> rest_of (Some (cursor x)) (app_meta a') = rest_of (Some (cursor x)) (app_meta a).

Lemma act_for_rest l x rest a a' :
  I (l ++ [x] ++ rest) a -> act_for action (l ++ [x]) a = (a', Ok tt) ->
  I rest a' /\ rest_of (Some (cursor x)) (app_meta a') = rest_of (Some (cursor x)) (app_meta a).
Proof.
  revert a. induction l as [|r l IH]; intros a Hi H; cbn in H, Hi.
  - destruct (step x rest a Hi) as [Hi' Hr]. specialize (Hr x (or_introl eq_refl)). unfold act_bind in H.
    destruct (action x a) as [a1 [[]|e|]]; [|done..]. injection H as <-. by split.
  - destruct (step r (l ++ [x] ++ rest) a Hi) as [Hi' Hr]. unfold act_bind in H.
    destruct (action r a) as [a1 [[]|e|]]; [|done..]. cbn in Hi', Hr.
    destruct (IH a1 Hi' H) as [? ->]. split; [done|]. apply Hr. right.
    apply sorted, StronglySorted_inv in Hi as [_ Hi]. eapply Forall_forall; [exact Hi|].
    apply elem_of_app. right. by left.
Qed.

(** Acting on the pages is acting on the whole listing as it is at the start. *)
Lemma pages_all fuel after a :
  I (rest_of after (app_meta a)) a -> (length (rest_of after (app_meta a)) < fuel)%nat ->
  pages fuel list_after cursor action after a = act_for action (rest_of after (app_meta a)) a.
Proof.
  revert after a. induction fuel as [|fuel IH]; intros after a Hi Hf; [lia|].
  cbn [pages]. unfold act_bind at 1, ask at 1. rewrite page. set (rest := rest_of after (app_meta a)) in *.
  destruct (length (take LIFECYCLE_BATCH_SIZE rest) <? LIFECYCLE_BATCH_SIZE)%nat eqn:E.
  - apply Nat.ltb_lt in E. rewrite length_take in E. rewrite take_ge by lia.
    unfold act_bind. by destruct (act_for action rest a) as [a' [[]|e|]].
  - apply Nat.ltb_ge in E. assert (rest = take LIFECYCLE_BATCH_SIZE rest ++ drop LIFECYCLE_BATCH_SIZE rest) as Es
      by by rewrite take_drop.
    destruct (take LIFECYCLE_BATCH_SIZE rest) as [|x0 page0 _] eqn:Ep using rev_ind; [unfold LIFECYCLE_BATCH_SIZE in E; cbn in E; lia|].
    rewrite last_snoc, Es, act_for_app. unfold act_bind.
    destruct (act_for action (page0 ++ [x0]) a) as [a' [[]|e|]] eqn:Ea; [|done..].
    rewrite <- app_assoc in Es. cbn [app] in Es.
    assert (rest_of (Some (cursor x0)) (app_meta a) = drop LIFECYCLE_BATCH_SIZE rest) as Er.
    { eapply resume; [exact Es|]. by rewrite <- Es. }
    rewrite Es in Hi. destruct (act_for_rest page0 x0 _ a a' Hi Ea) as [Hi' Hr]. rewrite Er in Hr.
    cbn [fmap option_fmap option_map]. rewrite IH; rewrite Hr; [done|done|].
    apply (f_equal length) in Es. rewrite length_app in Es. cbn [length] in Es. lia.
Qed.
End pages.

(** ** Tags of other keys *)

Definition tags_frame (b k : string) (s s' : MetaStore) : Prop :=
  forall t, ~ tag_of_key b k t -> ms_object_tags s' !! t = ms_object_tags s !! t.

Lemma tags_frame_trans b k s1 s2 s3 : tags_frame b k s1 s2 -> tags_frame b k s2 s3 -> tags_frame b k s1 s3.
Proof. intros H1 H2 t Ht. by rewrite (H2 t Ht), (H1 t Ht). Qed.

Lemma tags_frame_same b k s s' : ms_object_tags s' = ms_object_tags s -> tags_frame b k s s'.
Proof. intros E t _. by rewrite E. Qed.

Lemma tags_frame_delete {E} b k (P : tag_id -> Prop) `{!forall t, Decision (P t)} s :
  (forall t, P t -> tag_of_key b k t) -> tags_frame b k s (delete_object_tags_where (E:=E) P s).1.
Proof.
  intros HP t Ht. destruct s. cbn. apply option_ext. intros v. rewrite map_lookup_filter_Some. cbn.
  split; [by intros []|]. intros Hv. split; [done|]. intros Hp. by apply Ht, HP.
Qed.

Lemma tags_frame_deleted c now uuid b k pre owner s :
  tags_frame b k s (delete_object_if c now uuid b k pre owner s).1.
Proof.
  unfold delete_object_if, map_cas_result. rewrite map_err_state.
  apply atomically_state; [by apply tags_frame_same|]. unfold delete_latest_in_tx.
  assert (forall s1 s2 s3, tags_frame b k s1 s2 -> tags_frame b k s2 s3 -> tags_frame b k s1 s3) as Ht
    by apply tags_frame_trans.
  repeat first
    [ done
    | rewrite map_err_state
    | (apply bind_write; [exact Ht| |intros; try done])
    | (apply tags_frame_delete; tauto)
    | progress unfold when, insert_marker, insert_object, update_objects, delete_objects, modify, recompute_is_latest, act_ret, gets, evaluate_delete, next_object_seq
    | case_match ].
  all: apply tags_frame_same; match goal with |- _ = ms_object_tags ?s1 => by destruct s1 end.
Qed.

(** The tags of the key after a delete, by the bucket's versioning. *)
Definition tags_after (v : VersioningState) (b k : string) (s s' : MetaStore) : Prop :=
  forall w t, ms_object_tags s' !! (b, k, w, t) =
    match v with
    | Unversioned => None
    | Enabled => ms_object_tags s !! (b, k, w, t)
    | Suspended => if bool_decide (w = EmptyString) then None else ms_object_tags s !! (b, k, w, t)
    end.

(** [m] leaves the tags alone. *)
Definition keeps_tags {E A : Type} (m : mact E A) : Prop := forall s, ms_object_tags (m s).1 = ms_object_tags s.

Lemma keeps_tags_bind {E A B : Type} (m : mact E A) (k : A -> mact E B) :
  keeps_tags m -> (forall a, keeps_tags (k a)) -> keeps_tags (act_bind m k).
Proof.
  intros Hm Hk s. specialize (Hm s). unfold act_bind. destruct (m s) as [s1 [a| |]]; [|done..]. by rewrite Hk.
Qed.

Lemma keeps_tags_update {E} (P : ObjRow -> Prop) `{!forall x, Decision (P x)} f : keeps_tags (update_objects (E:=E) P f).
Proof. by intros []. Qed.

Lemma keeps_tags_delete {E} (P : ObjRow -> Prop) `{!forall x, Decision (P x)} : keeps_tags (MetadataStore.delete_objects (E:=E) P).
Proof. by intros []. Qed.

Lemma keeps_tags_recompute {E} b k : keeps_tags (recompute_is_latest (E:=E) b k).
Proof.
  apply keeps_tags_bind; [apply keeps_tags_update|]. intros _ s. cbn. by destruct s, (winner _ _ _).
Qed.

Lemma keeps_tags_marker b k owner vid now : keeps_tags (insert_marker b k owner vid now).
Proof.
  apply keeps_tags_bind; [by intros []|]. intros q s. unfold insert_object. by destruct (_ && _), s.
Qed.

Lemma tag_bind_ok {E A B : Type} (m : mact E A) (k : A -> mact E B) s s' b :
  keeps_tags m -> act_bind m k s = (s', Ok b) ->
  exists s1 a, ms_object_tags s1 = ms_object_tags s /\ k a s1 = (s', Ok b).
Proof.
  intros Hm (s1 & a & H1 & H2)%act_bind_ok. exists s1, a. split; [|done]. by rewrite <- (Hm s), H1.
Qed.

Lemma deleted_tags c now uuid b k pre owner s s' res :
  delete_object_if c now uuid b k pre owner s = (s', Ok res) ->
  get_versioning_state b s <> Unversioned \/ get_latest_object b k s <> None ->
  tags_after (get_versioning_state b s) b k s s'.
Proof.
  unfold delete_object_if, map_cas_result. intros H%map_err_ok_inv%atomically_ok_inv Hg.
  unfold delete_latest_in_tx in H. unfold act_bind at 1 in H. cbn [gets] in H.
  apply act_bind_ok in H as (s1 & [] & He & H). unfold evaluate_delete in He. injection He as <- _.
  unfold act_bind at 1 in H. cbn [gets] in H. apply map_err_ok_inv in H. intros w t.
  destruct (get_versioning_state b s) eqn:Ev.
  - destruct Hg as [?|Hg]; [done|]. unfold act_bind at 1 in H. cbn [gets] in H.
    change (get_latest_object b k s) with (fetch_latest_object b k s) in Hg.
    destruct (fetch_latest_object b k s) as [o|]; [|done]. cbn [is_some when] in H.
    apply act_bind_ok in H as (s2 & ? & H & [= <- _]).
    apply tag_bind_ok in H as (s3 & ? & E3 & H).
    2: { destruct c; [|apply keeps_tags_delete]. apply keeps_tags_bind; [by intros []|intros; apply keeps_tags_update]. }
    apply act_bind_ok in H as (s4 & ? & [= <- _] & H).
    assert (ms_object_tags s2 = filter (fun e => ~ tag_of_key b k e.1) (ms_object_tags s3)) as ->.
    { assert (keeps_tags (when (E:=DbError) c (recompute_is_latest b k))) as Hw
        by (destruct c; [apply keeps_tags_recompute|done]).
      specialize (Hw (with_object_tags (filter (fun e => ~ tag_of_key b k e.1) (ms_object_tags s3)) s3)).
      rewrite H in Hw. cbn in Hw. rewrite Hw. by destruct s3. }
    apply map_lookup_filter_None_2. right. intros y _. cbn. tauto.
  - apply tag_bind_ok in H as (s3 & ? & E3 & H); [|apply keeps_tags_update].
    apply tag_bind_ok in H as (s4 & ? & E4 & [= <- _]); [|apply keeps_tags_marker]. by rewrite E4, E3.
  - unfold act_bind at 1 in H. cbn [gets] in H.
    apply tag_bind_ok in H as (s3 & ? & E3 & H); [|apply keeps_tags_delete].
    apply act_bind_ok in H as (s4 & ? & [= <- _] & H).
    apply tag_bind_ok in H as (s5 & ? & E5 & H); [|apply keeps_tags_update].
    apply tag_bind_ok in H as (s6 & ? & E6 & [= <- _]); [|apply keeps_tags_marker]. rewrite E6, E5.
    destruct s3. cbn in *. rewrite E3. case_bool_decide as Ew.
    + apply map_lookup_filter_None_2. right. intros y _. cbn. tauto.
    + apply option_ext. intros y. rewrite map_lookup_filter_Some. cbn. tauto.
Qed.

Lemma has_tags_same tags r s s' :
  (forall v t, ms_object_tags s' !! (o_bucket r, o_key r, v, t) = ms_object_tags s !! (o_bucket r, o_key r, v, t)) ->
  has_tags tags r s' = has_tags tags r s.
Proof. intros Ht. unfold has_tags. induction tags as [|t l IH]; [done|]. cbn. by rewrite Ht, IH. Qed.

(** ** Expiration of current objects *)

Section expiration.
Variables (bucket : string) (prefix : option string) (tags : list (string * string)) (cutoff : Z).

Definition expired (s : MetaStore) (x : ObjRow) : Prop :=
  o_bucket (row_rec x) = bucket /\ latest x /\ not_marker x /\ (o_last_modified (row_rec x) < cutoff)%Z
  /\ if_given prefix (fun p => in_prefix_range p (o_key (row_rec x))) = true
  /\ has_tags tags (row_rec x) s = true.

#[local] Instance expired_dec s x : Decision (expired s x).
Proof. unfold expired. apply _. Defined.

(** The objects the rule selects, after a key. *)
Definition expired_after (sa : option string) (s : MetaStore) : list ObjectRecord :=
  sorted_by (cmp_on o_key String.compare) (listing s (expired s) sa).

Lemma expired_page sa s :
  list_expired_objects bucket prefix tags cutoff sa (Z.of_nat LIFECYCLE_BATCH_SIZE) s =
  take LIFECYCLE_BATCH_SIZE (expired_after sa s).
Proof.
  unfold list_expired_objects, limit, expired_after, listing, rows_where. rewrite Nat2Z.id. do 3 f_equal.
  apply list_filter_iff. intros x. unfold listed, expired. tauto.
Qed.

Lemma expired_latest s x : expired s x -> o_bucket (row_rec x) = bucket /\ latest x.
Proof. by intros (? & ? & _). Qed.

(** A change of one key leaves the selection after it as it is. *)
Lemma expired_after_frame k k' s s' :
  rows_ok (ms_objects s) -> frame bucket k (ms_objects s) (ms_objects s') -> tags_frame bucket k s s' ->
  String.ltb k' k = false -> expired_after (Some k') s' = expired_after (Some k') s.
Proof.
  intros Hs Hf Ht Hk. unfold expired_after. symmetry. apply sorted_by_unique; [apply _| |].
  - eapply listing_strict; [exact Hs|apply expired_latest].
  - unfold listing. apply fmap_Permutation, rows_where_perm. intros i x. unfold listed. cbn.
    assert (String.ltb k' (o_key (row_rec x)) = true -> ~ at_key bucket k x) as Hn.
    { intros Hlt [_ E]. by rewrite E, Hk in Hlt. }
    assert (~ at_key bucket k x -> o_bucket (row_rec x) = bucket -> has_tags tags (row_rec x) s' = has_tags tags (row_rec x) s) as Htags.
    { intros Hx Hb. apply has_tags_same. intros v t. apply Ht. cbn. rewrite Hb. tauto. }
    unfold expired. split; intros (Hi & (Hb & Hl & Hm & Hc & Hp & Hg) & Hlt); pose proof (Hn Hlt) as Hx;
      (split; [by apply (Hf i x Hx)|]); split_and!; try done; by rewrite Htags in *.
Qed.

Context {lib : LockLib}.
Variables (cluster_mode : bool) (draws : Draws).

(** What holds while the objects [rest] are still to be expired. *)
Definition expiring (rest : list ObjectRecord) (a : AppState) : Prop :=
  rows_ok (ms_objects (app_meta a)) /\
  StronglySorted (fun r x => String.ltb (o_key r) (o_key x) = true) rest /\
  forall r, r ∈ rest -> fresh_version bucket (o_key r) (draws r).2 (ms_objects (app_meta a)).

(** One object: what [expire_object] does. *)
Lemma expire_object_run versioned r a :
  let s := app_meta a in
  let v := get_versioning_state bucket s in
  exists s', expire_object cluster_mode draws bucket versioned r a =
    (MkApp s' (app_ids a) (app_journal a) (app_replication_cache a)
       (match delete_result v (draws r).1 (draws r).2 bucket (o_key r) "root" s with
        | Some d => if negb versioned && negb (o_is_delete_marker d) && negb (bool_decide (o_blob_id d = EmptyString))
                    then o_blob_id d :: app_deleted_blobs a else app_deleted_blobs a
        | None => app_deleted_blobs a
        end) (app_events a)
       (app_audit a ++ [{| an_operation := "Lifecycle::ExpireObject"; an_bucket := bucket; an_key := o_key r;
                           an_version_id := o_version_id r |}]) (app_discarded a), Ok tt) /\
    objects_become s (deleted_rows v cluster_mode (draws r).1 (draws r).2 (ms_object_seq s + 1) bucket (o_key r) "root"
                        (ms_objects s)) (deleted_seq v cluster_mode bucket (o_key r) s) s' /\
    tags_frame bucket (o_key r) s s' /\
    (v <> Unversioned \/ get_latest_object bucket (o_key r) s <> None -> tags_after v bucket (o_key r) s s').
Proof.
  intros s v.
  destruct (delete_object_ok cluster_mode (draws r).1 (draws r).2 bucket (o_key r) no_precondition "root" s v eq_refl
    (delete_evaluate_empty no_precondition _ eq_refl)) as (s' & Hd & Hb).
  exists s'. split; [|split; [done|split; [|by apply (deleted_tags _ _ _ _ _ _ _ _ _ _ Hd)]]].
  - unfold expire_object, or_return, on_meta. fold s. rewrite Hd. destruct (delete_result _ _ _ _ _ _ _) as [d|]; [|done].
    by destruct (negb versioned && negb (o_is_delete_marker d) && negb (bool_decide (o_blob_id d = EmptyString))).
  - pose proof (tags_frame_deleted cluster_mode (draws r).1 (draws r).2 bucket (o_key r) no_precondition "root" s) as Ht.
    by rewrite Hd in Ht.
Qed.

Lemma fresh_version_frame b k k' uuid m m' :
  frame b k m m' -> k' <> k -> fresh_version b k' uuid m -> fresh_version b k' uuid m'.
Proof.
  intros Hf Hk Hv i x Hi Hx. apply (Hv i x); [|done]. apply Hf; [|done].
  intros [_ E]. destruct Hx as [_ E']. congruence.
Qed.

Lemma expire_object_step versioned r rest a :
  expiring (r :: rest) a ->
  let a' := (expire_object cluster_mode draws bucket versioned r a).1 in
  expiring rest a' /\
  forall x, r = x \/ String.ltb (o_key r) (o_key x) = true ->
    expired_after (Some (o_key x)) (app_meta a') = expired_after (Some (o_key x)) (app_meta a).
Proof.
  intros (Hs & Hsort & Hfr) a'. destruct (expire_object_run versioned r a) as (s' & E & Hb & Ht & _).
  unfold a'. rewrite E. cbn. apply objects_become_fields in Hb as (Ho & _).
  apply StronglySorted_inv in Hsort as [Hsort Hr].
  assert (frame bucket (o_key r) (ms_objects (app_meta a)) (ms_objects s')) as Hf by (rewrite Ho; apply frame_deleted).
  split; [unfold expiring; cbn; split_and!|].
  - rewrite Ho. apply rows_ok_deleted; [done|]. apply Hfr. by left.
  - done.
  - intros q Hq. eapply fresh_version_frame; [exact Hf| |apply Hfr; by right].
    eapply Forall_forall in Hr; [|exact Hq]. intros E'. rewrite E', string_ltb_irrefl in Hr. done.
  - intros x Hx. apply expired_after_frame with (k := o_key r); [done..|].
    destruct Hx as [<-|Hx]; [apply string_ltb_irrefl|by apply string_ltb_asym].
Qed.

(** The objects the rule selects: readable, old enough, under the prefix, with the tags. *)
Definition selected (s : MetaStore) (r : ObjectRecord) : Prop :=
  get_object bucket (o_key r) s = Some r /\ (o_last_modified r < cutoff)%Z
  /\ if_given prefix (fun p => in_prefix_range p (o_key r)) = true /\ has_tags tags r s = true.

Lemma elem_of_expired s r : rows_ok (ms_objects s) -> r ∈ expired_after None s <-> selected s r.
Proof.
  intros Hs. unfold expired_after, listing, selected. rewrite elem_of_sorted_by, list_elem_of_fmap. split.
  - intros (x & -> & [[He _] [i Hi]]%elem_of_rows_where). destruct He as (Hb & Hl & Hm & Hc & Hp & Ht).
    rewrite get_object_Some by done. unfold compose. destruct x as [[] q]; cbn in *. split_and!; try done.
    eexists i, _. by split_and!; [exact Hi|..].
  - rewrite get_object_Some by done. intros ((i & x & Hi & Hk & Hl & Hm & E) & Hc & Hp & Ht). exists x. split; [done|].
    apply elem_of_rows_where. split; [|by exists i]. split; [|done]. subst r. destruct Hk as [Hb _].
    destruct x as [[] q]; cbn in *. by split_and!.
Qed.

Lemma expired_sorted s :
  rows_ok (ms_objects s) ->
  StronglySorted (fun r x => String.ltb (o_key r) (o_key x) = true) (expired_after None s).
Proof.
  intros Hs. eapply StronglySorted_weaken;
    [|apply sorted_strict; [apply _|eapply listing_NoDup|eapply listing_strict]; (exact Hs || apply expired_latest)].
  intros x y. by apply string_compare_Lt.
Qed.

Lemma expired_length s : (length (expired_after None s) <= size (ms_objects s))%nat.
Proof.
  unfold expired_after. rewrite (Permutation_length (sorted_by_perm _ _)). unfold listing. rewrite length_fmap.
  unfold rows_where. etrans; [apply length_filter|]. by rewrite length_fmap, length_map_to_list.
Qed.

(** The pages of a rule. *)
Lemma expire_pages versioned a :
  rows_ok (ms_objects (app_meta a)) ->
  (forall r, selected (app_meta a) r -> fresh_version bucket (o_key r) (draws r).2 (ms_objects (app_meta a))) ->
  pages (S (size (ms_objects (app_meta a))))
    (fun start_after => list_expired_objects bucket prefix tags cutoff start_after (Z.of_nat LIFECYCLE_BATCH_SIZE))
    o_key (expire_object cluster_mode draws bucket versioned) None a =
  act_for (expire_object cluster_mode draws bucket versioned) (expired_after None (app_meta a)) a.
Proof.
  intros Hs Hf.
  apply (pages_all _ o_key _ expired_after expiring (fun r x => String.ltb (o_key r) (o_key x) = true)).
  - intros after m. apply expired_page.
  - by intros rest b (_ & Hsort & _).
  - intros after b x l1 l2 E (Hb & _). unfold expired_after in *. eapply listing_rest; [exact Hb|apply expired_latest|exact E].
  - intros r rest b Hi. by apply expire_object_step.
  - split_and!; [done|by apply expired_sorted|]. intros r Hr. apply Hf. by apply elem_of_expired.
  - pose proof (expired_length (app_meta a)). lia.
Qed.

(** *** What acting on the listed objects does *)

(** The keys outside [ks] of the bucket, and the other buckets, read as before. *)
Definition untouched (ks : list string) (s s' : MetaStore) : Prop :=
  forall b k, (b = bucket -> k ∉ ks) ->
    get_object b k s' = get_object b k s /\ get_latest_object b k s' = get_latest_object b k s /\
    (forall v, get_object_version b k v s' = get_object_version b k v s) /\
    forall v t, ms_object_tags s' !! (b, k, v, t) = ms_object_tags s !! (b, k, v, t).

Lemma untouched_trans ks ks' s1 s2 s3 :
  untouched ks s1 s2 -> untouched ks' s2 s3 -> untouched (ks ++ ks') s1 s3.
Proof.
  intros H1 H2 b k Hk. destruct (H1 b k) as (E1 & E2 & E3 & E4).
  { intros E Hin. apply (Hk E), elem_of_app. by left. }
  destruct (H2 b k) as (F1 & F2 & F3 & F4).
  { intros E Hin. apply (Hk E), elem_of_app. by right. }
  split_and!; [by rewrite F1|by rewrite F2|intros v; by rewrite F3|intros v t; by rewrite F4].
Qed.

Definition expire_note (r : ObjectRecord) : AuditNote :=
  {| an_operation := "Lifecycle::ExpireObject"; an_bucket := bucket; an_key := o_key r;
     an_version_id := o_version_id r |}.

(** The blobs of expired objects, those removed last first. *)
Definition freed (l : list ObjectRecord) : list string :=
  rev (filter (fun id => id <> EmptyString) (o_blob_id <$> l)).

Lemma current_is_latest s k r : rows_ok (ms_objects s) -> get_object bucket k s = Some r -> get_latest_object bucket k s = Some r.
Proof.
  intros Hs. rewrite get_object_Some, get_latest_object_Some by done.
  intros (i & x & ? & ? & ? & _ & ?). by exists i, x.
Qed.

Lemma current_not_marker s k r : rows_ok (ms_objects s) -> get_object bucket k s = Some r -> o_is_delete_marker r = false.
Proof. intros Hs. rewrite get_object_Some by done. intros (i & x & _ & _ & _ & Hm & ->). by destruct x as [[] ?]. Qed.

Definition same_settings (s s' : MetaStore) : Prop :=
  ms_bucket_config s' = ms_bucket_config s /\ ms_buckets s' = ms_buckets s /\
  ms_uploads s' = ms_uploads s /\ ms_parts s' = ms_parts s.

Lemma same_settings_versioning b s s' : same_settings s s' -> get_versioning_state b s' = get_versioning_state b s.
Proof. intros (E & _). unfold get_versioning_state. by rewrite E. Qed.

(** What is left of the key of an expired object: no readable object, and the
    versions and tags a delete leaves. *)
Definition expired_key (r : ObjectRecord) (s s' : MetaStore) : Prop :=
  get_object bucket (o_key r) s' = None /\
  versions_after (get_versioning_state bucket s) (draws r).1 (draws r).2 bucket (o_key r) "root" s s' /\
  tags_after (get_versioning_state bucket s) bucket (o_key r) s s'.

Lemma expired_key_frame r ks ks' s1 s2 s3 s4 :
  untouched ks s1 s2 -> untouched ks' s3 s4 -> o_key r ∉ ks -> o_key r ∉ ks' ->
  get_versioning_state bucket s2 = get_versioning_state bucket s1 -> expired_key r s2 s3 -> expired_key r s1 s4.
Proof.
  intros H12 H34 Hk Hk' Hv (E1 & E2 & E3).
  destruct (H12 bucket (o_key r)) as (_ & A2 & A3 & A4); [done|].
  destruct (H34 bucket (o_key r)) as (B1 & B2 & B3 & B4); [done|]. unfold expired_key. rewrite <- Hv. split_and!.
  - by rewrite B1.
  - unfold versions_after in *. destruct (get_versioning_state bucket s2).
    + intros Hg w. rewrite B3. apply E2. by rewrite A2.
    + rewrite B2. destruct E2 as [? E2]. split; [done|]. intros w o Hw. rewrite B3. apply E2. by rewrite A3.
    + rewrite B2. destruct E2 as [? E2]. split; [done|]. intros w o Hr Hw. rewrite B3. apply E2; [done|]. by rewrite A3.
  - intros w t. rewrite B4, E3, A4. done.
Qed.

Lemma untouched_refl s : untouched [] s s.
Proof. by intros b k _. Qed.

Lemma expire_object_effect versioned r a :
  rows_ok (ms_objects (app_meta a)) -> fresh_version bucket (o_key r) (draws r).2 (ms_objects (app_meta a)) ->
  get_object bucket (o_key r) (app_meta a) = Some r ->
  versioned = bool_decide (get_versioning_state bucket (app_meta a) <> Unversioned) ->
  exists a', expire_object cluster_mode draws bucket versioned r a = (a', Ok tt) /\
    rows_ok (ms_objects (app_meta a')) /\ same_settings (app_meta a) (app_meta a') /\
    untouched [o_key r] (app_meta a) (app_meta a') /\ expired_key r (app_meta a) (app_meta a') /\
    app_audit a' = app_audit a ++ [expire_note r] /\
    app_deleted_blobs a' = (if versioned then [] else freed [r]) ++ app_deleted_blobs a.
Proof.
  intros Hs Hf Hg Hv. destruct (expire_object_run versioned r a) as (s' & E & Hb & Ht & Hta). eexists. split; [exact E|].
  cbn [app_meta app_audit app_deleted_blobs]. apply objects_become_fields in Hb as (Ho & _ & Eb & Ec & _ & Eu & Ep).
  assert (rows_ok (ms_objects s')) as Hs' by (rewrite Ho; by apply rows_ok_deleted).
  assert (frame bucket (o_key r) (ms_objects (app_meta a)) (ms_objects s')) as Hfr by (rewrite Ho; apply frame_deleted).
  split_and!; [done|done|..].
  - intros b k Hk. assert ((b, k) <> (bucket, o_key r)) as Hne.
    { intros [= -> ->]. apply (Hk eq_refl). by left. }
    destruct (frame_reads _ _ b k _ _ Hs Hs' Hfr Hne) as (E1 & E2 & E3). split_and!; [done..|].
    intros v t. apply Ht. cbn. intros [-> ->]. by apply Hne.
  - split_and!.
    + destruct (get_object bucket (o_key r) s') as [o|] eqn:Eg; [|done].
      apply get_object_Some in Eg as (i & x & Hi & Hk & Hl & Hm & _); [|done]. rewrite Ho in Hi.
      by destruct (deleted_no_current _ _ _ _ _ _ _ _ _ _ _ Hi Hk Hl).
    + by eapply deleted_versions.
    + apply Hta. right. by rewrite (current_is_latest _ _ _ Hs Hg).
  - done.
  - destruct (get_versioning_state bucket (app_meta a)) eqn:Ev; cbn [delete_result].
    + rewrite bool_decide_false in Hv by tauto. subst versioned.
      rewrite (current_is_latest _ _ _ Hs Hg), (current_not_marker _ _ _ Hs Hg). unfold freed. cbn [negb andb list_fmap fmap].
      rewrite filter_cons, filter_nil. case_decide; case_bool_decide; by try done.
    + rewrite bool_decide_true in Hv by done. by subst versioned.
    + rewrite bool_decide_true in Hv by done. subst versioned. by destruct (fetch_null_version _ _ _).
Qed.

Lemma expire_all_effect versioned l a :
  expiring l a -> (forall r, r ∈ l -> get_object bucket (o_key r) (app_meta a) = Some r) ->
  versioned = bool_decide (get_versioning_state bucket (app_meta a) <> Unversioned) ->
  exists a', act_for (expire_object cluster_mode draws bucket versioned) l a = (a', Ok tt) /\
    rows_ok (ms_objects (app_meta a')) /\ same_settings (app_meta a) (app_meta a') /\
    untouched (o_key <$> l) (app_meta a) (app_meta a') /\
    (forall r, r ∈ l -> expired_key r (app_meta a) (app_meta a')) /\
    app_audit a' = app_audit a ++ (expire_note <$> l) /\
    app_deleted_blobs a' = (if versioned then [] else freed l) ++ app_deleted_blobs a.
Proof.
  revert a. induction l as [|r l IH]; intros a Hi Hg Hv.
  - exists a. destruct Hi as (Hs & _). split_and!; try done; [by intros r ?%not_elem_of_nil|by rewrite app_nil_r|].
    by destruct versioned.
  - pose proof (expire_object_step versioned r l a Hi) as [Hi' _]. destruct Hi as (Hs & Hsort & Hf).
    apply StronglySorted_inv in Hsort as [_ Hr]. rewrite Forall_forall in Hr.
    destruct (expire_object_effect versioned r a) as (a1 & E1 & Hs1 & Hset1 & Hu1 & Hg1 & Ha1 & Hd1);
      [done|apply Hf; by left|apply Hg; by left|done|]. rewrite E1 in Hi'.
    assert (forall q, q ∈ l -> o_key q ∉ [o_key r]) as Hne.
    { intros q Hq Hin%list_elem_of_singleton. specialize (Hr q Hq). rewrite <- Hin, string_ltb_irrefl in Hr. done. }
    destruct (IH a1) as (a2 & E2 & Hs2 & Hset2 & Hu2 & Hg2 & Ha2 & Hd2); [done| |by rewrite (same_settings_versioning _ _ _ Hset1)|].
    { intros q Hq. destruct (Hu1 bucket (o_key q)) as (-> & _); [intros _; by apply Hne|]. apply Hg. by right. }
    exists a2. cbn [act_for]. unfold act_bind. rewrite E1. split_and!; [done..| | | | |].
    + destruct Hset1 as (? & ? & ? & ?), Hset2 as (? & ? & ? & ?). unfold same_settings. split_and!; congruence.
    + rewrite fmap_cons. by apply (untouched_trans [o_key r] (o_key <$> l) _ (app_meta a1)).
    + intros q [->|Hq]%elem_of_cons.
      * apply (expired_key_frame r [] (o_key <$> l) _ (app_meta a) (app_meta a1)); try done; [apply not_elem_of_nil|].
        intros (q & Eq & Hq)%list_elem_of_fmap. apply (Hne q Hq). rewrite Eq. by left.
      * apply (expired_key_frame q [o_key r] [] _ (app_meta a1) (app_meta a2)); auto using untouched_refl, not_elem_of_nil, same_settings_versioning.
    + rewrite Ha2, Ha1, <- app_assoc. done.
    + rewrite Hd2, Hd1. destruct versioned; [done|]. rewrite app_assoc. f_equal. unfold freed.
      rewrite <- rev_app_distr, <- filter_app. done.
Qed.
End expiration.

(** C39. The expiration of a rule is exact: one cycle deletes every object of the
    bucket that is older than the rule's days, under its prefix and carries its
    tags, however many pages that takes, and leaves every other key, version and
    tag as it is.  Of the key of a deleted object, an unversioned bucket keeps no
    version and no tag; a versioned one gets a delete marker as its latest
    version and keeps every version, with only its latest flag cleared, and
    every tag; a suspended one gets the marker in place of the null version and
    its tags and keeps the others.  Exactly the blobs of the deleted objects of an
    unversioned bucket are freed.  Each deletion is audited once, in the order of
    the keys, and a second pass finds nothing left.  Only when the cutoff lies
    before the first instant of the clock library does it do nothing but panic.
    The rows satisfy the table's invariant and the version ids drawn for the
    markers are new. *)
Theorem expiration_exact {lib : LockLib} (cluster_mode : bool) (draws : Draws) (now : Z) (bucket : string)
    (prefix : option string) (tags : list (string * string)) (days : Z) (a : AppState) :
  let cutoff := (now - days * DAY)%Z in
  let versioned := bool_decide (get_versioning_state bucket (app_meta a) <> Unversioned) in
  let expire := expire_current cluster_mode draws now bucket versioned prefix tags days in
  rows_ok (ms_objects (app_meta a)) ->
  (forall r, selected bucket prefix tags cutoff (app_meta a) r ->
     fresh_version bucket (o_key r) (draws r).2 (ms_objects (app_meta a))) ->
  if (cutoff <? min_instant)%Z then expire a = (a, Panic)
  else exists l a', expire a = (a', Ok tt) /\
    (forall r, r ∈ l <-> selected bucket prefix tags cutoff (app_meta a) r) /\
    StronglySorted (fun r x => String.ltb (o_key r) (o_key x) = true) l /\
    (forall r, r ∈ l -> expired_key bucket draws r (app_meta a) (app_meta a')) /\
    untouched bucket (o_key <$> l) (app_meta a) (app_meta a') /\
    app_audit a' = app_audit a ++ (expire_note bucket <$> l) /\
    app_deleted_blobs a' = (if versioned then [] else freed l) ++ app_deleted_blobs a /\
    (forall r, ~ selected bucket prefix tags cutoff (app_meta a') r).
Proof.
  intros cutoff versioned expire Hs Hf. unfold expire, expire_current, act_bind, lift, days_before. fold cutoff.
  destruct (cutoff <? min_instant)%Z eqn:Ec.
  { apply Z.ltb_lt in Ec. rewrite (proj2 (Z.leb_gt _ _)) by done. done. }
  apply Z.ltb_ge in Ec. rewrite (proj2 (Z.leb_le _ _)) by done. unfold ask.
  rewrite expire_pages by done. set (l := expired_after bucket prefix tags cutoff None (app_meta a)).
  assert (forall r, r ∈ l <-> selected bucket prefix tags cutoff (app_meta a) r) as Hl by (intros; by apply elem_of_expired).
  destruct (expire_all_effect bucket prefix tags cutoff cluster_mode draws versioned l a) as (a' & E & Hs' & _ & Hu & Hg & Ha & Hd).
  - split_and!; [done|by apply expired_sorted|]. intros r Hr. by apply Hf, Hl.
  - intros r Hr. by apply Hl in Hr as [? _].
  - done.
  - exists l, a'. split_and!; try done; [by apply expired_sorted|].
    intros r (Hr & Hc & Hp & Ht). destruct (decide (o_key r ∈ o_key <$> l)) as [(q & Eq & Hq)%list_elem_of_fmap|Hn].
    + destruct (Hg q Hq) as [Hgone _]. rewrite Eq, Hgone in Hr. done.
    + apply Hn, list_elem_of_fmap. exists r. split; [done|]. apply Hl.
      destruct (Hu bucket (o_key r)) as (Eg & _ & _ & Et); [done|]. rewrite Eg in Hr. split_and!; [done..|].
      rewrite <- Ht. symmetry. apply has_tags_same. intros v t.
      assert (o_bucket r = bucket) as Hb by (apply get_object_Some in Hr as (i & x & _ & [Hb _] & _ & _ & ->); [by destruct x as [[] ?]|done]).
      rewrite Hb. apply Et.
Qed.

(** Two objects, of which one is older than the cutoff. *)
#[local] Instance sample_lock_lib : LockLib := {|
  parse_from_rfc3339 _ := None; parse_from_rfc2822 _ := None; parse_http_date _ := None;
  to_rfc3339 _ := "date"; min_instant := 0; max_instant := 100;
  lock_to_json _ := "lock"; lock_of_json _ := None |}.

Definition sample_stored : AppState := MkApp sample_two IdentityStore.empty_ids ∅ ∅ [] [] [] [].

Lemma sample_fresh k uuid : fresh_version "bucket" k uuid (ms_objects sample_two).
Proof.
  assert (Forall (fun e : N * ObjRow => is_some (o_version_id (row_rec e.2)) = false) (map_to_list (ms_objects sample_two)))
    as H by (vm_compute; repeat constructor).
  intros i x Hi _ E. rewrite Forall_forall in H. specialize (H (i, x)). cbn in H.
  rewrite E in H. by specialize (H (proj2 (elem_of_map_to_list _ i x) Hi)).
Qed.

(** A versioned bucket with one object. *)
Definition sample_kept : AppState := MkApp sample_put IdentityStore.empty_ids ∅ ∅ [] [] [] [].

Lemma sample_kept_fresh k : fresh_version "bucket" k "m" (ms_objects sample_put).
Proof.
  assert (Forall (fun e : N * ObjRow => o_version_id (row_rec e.2) <> Some "m") (map_to_list (ms_objects sample_put)))
    as H by (vm_compute; repeat constructor; congruence).
  intros i x Hi _. rewrite Forall_forall in H. apply (H (i, x)). by apply elem_of_map_to_list.
Qed.

Lemma sample_kept_selected : selected "bucket" None [] 11 sample_put (sample_row "blob" 10 None None None).
Proof. by vm_compute. Qed.

Lemma expiration_exact_witness :
  (let a' := (expire_current false (fun _ => (20%Z, "m")) 11 "bucket" false (Some "k") [] 0 sample_stored).1 in
   o_key <$> list_objects "bucket" None None 10 (app_meta a') = ["zebra"] /\
   app_deleted_blobs a' = ["blob"] /\ forall r, ~ selected "bucket" (Some "k") [] 11 (app_meta a') r) /\
  (let a' := (expire_current false (fun _ => (20%Z, "m")) 11 "bucket" true None [] 0 sample_kept).1 in
   get_object "bucket" "key" (app_meta a') = None /\
   get_object_version "bucket" "key" "v1" (app_meta a') = Some (set_latest false (sample_row "blob" 10 None None None))).
Proof.
  split; intros a'.
  - split; [by vm_compute|]. split; [by vm_compute|].
    destruct (expiration_exact false (fun _ => (20%Z, "m")) 11 "bucket" (Some "k") [] 0 sample_stored sample_two_ok
      (fun r _ => sample_fresh (o_key r) "m")) as (l & a1 & E & _ & _ & _ & _ & _ & _ & Hn).
    assert (bool_decide (get_versioning_state "bucket" (app_meta sample_stored) <> Unversioned) = false) as Hv by by vm_compute.
    rewrite Hv in E. unfold a'. rewrite E. exact Hn.
  - destruct (expiration_exact false (fun _ => (20%Z, "m")) 11 "bucket" None [] 0 sample_kept
      (mo_rows _ sample_put_ok) (fun r _ => sample_kept_fresh (o_key r))) as (l & a1 & E & Hl & _ & Hg & _).
    assert (bool_decide (get_versioning_state "bucket" (app_meta sample_kept) <> Unversioned) = true) as Hv by by vm_compute.
    rewrite Hv in E. unfold a'. rewrite E. cbn [fst].
    destruct (Hg (sample_row "blob" 10 None None None)) as (G1 & G2 & _); [apply Hl, sample_kept_selected|].
    assert (get_versioning_state "bucket" (app_meta sample_kept) = Enabled) as He by by vm_compute.
    rewrite He in G2. split; [exact G1|]. destruct G2 as [_ G2]. apply (G2 "v1"). by vm_compute.
Defined.
