(* ===== verification/ObjectWrites.v ===== *)
(** The handlers that write objects ([crates/arca-proto/src/handlers/object.rs],
    [.../multipart.rs], [.../sidecar.rs], [.../ssec.rs]) and the tag documents of
    [crates/arca-core/src/s3/xml_types.rs].

    What the blob store answers during a request is [BlobIO]: the state of the disk
    is no part of [AppState], which records the blobs a handler asks to delete
    ([blob_delete]: with the parts of a composite) or to discard ([blob_discard]:
    its own file only).  A handler that does several reads and writes of the
    database is one action; [complete_multipart_upload] is also given as its two
    halves, before and after the transaction that consumes the upload. *)

From Stdlib Require Import Ascii.
From S2P Require Import Prelude S3Errors Types SqlTable Text BlobRead FsBlob Preconditions MetadataStore ClusterState Sigv4 Middleware.
From S2P Require Import ChunkedBody UploadIntegrity MultipartChecksum ReplicationRules ReplicationJournal AppState ObjectLock.

Local Open Scope string_scope.
Local Open Scope outcome_scope.

(** ** Tags *)

Definition invalid_tag (message : string) : S3Error := with_message InvalidTag message EmptyString.

Fixpoint validate_each (seen : list string) (tags : list (string * string)) : outcome S3Error unit :=
  match tags with
  | [] => Ok tt
  | (key, value) :: tags' =>
      if (128 <? String.length key)%nat then
        Err (invalid_tag "The TagKey you have provided is too long, max 128 chars")
      else if (256 <? String.length value)%nat then
        Err (invalid_tag "The TagValue you have provided is too long, max 256 chars")
      else if bool_decide (key = EmptyString) then Err (invalid_tag "The TagKey cannot be empty")
      else if bool_decide (key ∈ seen) then
        Err (invalid_tag ("Cannot provide multiple Tags with the same key: " +:+ key))
      else validate_each (key :: seen) tags'
  end.

Definition validate_tags (tags : list (string * string)) : outcome S3Error unit :=
  if (10 <? length tags)%nat then Err (invalid_tag "Object tags cannot be greater than 10")
  else validate_each [] tags.

(** The document is its tags, [None] when it does not parse. *)
Definition parse_tagging_xml (doc : option (list (string * string))) : outcome S3Error (list (string * string)) :=
  match doc with
  | None => Err (with_message MalformedXML "Invalid tagging XML" EmptyString)
  | Some tags => let? _ := validate_tags tags in Ok tags
  end.

(** ** Requests *)

(** Code of other crates: the MD5 digest and [urlencoding::decode]. *)
Class WriteLib : Type := {
  md5_of : string -> string;
  url_decode : string -> option string;
}.

Record WriteRequest : Type := {
  wq_headers : Headers;
  wq_query : option string;
  wq_user : string;
  wq_chunk_verifier : option ChunkVerifier;
  wq_body : list item;
}.

(** The settings a write looks at: the limit on bodies, the cluster and the local
    disk, whether customer keys are available. *)
Record ServerEnv : Type := {
  se_max_body_size : Z;
  se_cluster : option ClusterState;
  se_local_disk : option Z * option Z;
  se_ssec : bool;
}.

(** The clocks and the ids drawn during a request. *)
Record Draw : Type := {
  dr_now : Z;
  dr_instant : Z;
  dr_uuid : string;
  dr_uuids : nat -> string;
}.

(** The pieces of a stream and how it ends. *)
Definition Stream : Type := list string * outcome IoError unit.

(** What the blob store answers: the fresh id, the writes under it, the reads of
    other blobs, the concatenation of parts and the sidecar. *)
Record BlobIO : Type := {
  io_blob_id : string;
  io_put : Stream -> outcome ArcaError BlobPutResult;
  io_put_with_key : Stream -> string -> outcome ArcaError (BlobPutResult * string);
  io_get : string -> option ByteRange -> outcome ArcaError Stream;
  io_get_with_key : string -> string -> string -> Z -> outcome ArcaError Stream;
  io_concat : list string -> outcome ArcaError BlobPutResult;
  io_write_sidecar : SidecarMeta -> outcome ArcaError unit;
}.

(** What a successful write answers. *)
Record WriteAnswer : Type := {
  wa_etag : string;
  wa_version_id : option string;
  wa_replication_status : option string;
  wa_customer_key_md5 : option string;
  wa_encrypted : bool;
  wa_checksum : option (string * string);
}.

(** [ArcaError::to_string]. *)
Definition arca_to_string (e : ArcaError) : string :=
  match e with
  | S3 e => "S3 error: S3 error " +:+ as_str (err_code e) +:+ ": " +:+ err_message e
  | DecryptionFailed msg => "decryption failed: " +:+ msg
  | Internal msg => "internal error: " +:+ msg
  end.

Definition put_failure (err : ArcaError) (resource : string) : ArcaError :=
  match stream_error_code (arca_to_string err) with
  | Some code => S3 (S3Error_new code resource)
  | None => err
  end.

Definition parse_u32 (s : string) : option Z :=
  n ← parse_u64 s;
  if (n <? 2 ^ 32)%Z then Some n else None.

Section writes.
Context {http : HttpLib} {crypto : SigCrypto} {codecs : BodyCodecs} {lib : LockLib}.
Context {wlib : WriteLib}.

Definition parse_tagging_header (header : string) : outcome S3Error (list (string * string)) :=
  let tags := form_parse header in
  let? _ := validate_tags tags in
  Ok tags.

Definition query_param (query n : string) : option string :=
  snd <$> List.find (fun p => bool_decide (p.1 = n)) (form_parse query).

Definition has_header (headers : Headers) (n : string) : bool := is_some (hget headers n).

(** ** Metadata of a request *)

Definition S3_SYSTEM_METADATA_HEADERS : list string :=
  ["cache-control"; "content-encoding"; "content-disposition"; "content-language"; "expires"].

Definition insert_user_metadata (m : gmap string string) (h : string * string) : gmap string string :=
  let name_lower := to_ascii_lowercase h.1 in
  if starts_with name_lower "x-amz-meta-" then <[name_lower := header_value_to_string h.2]> m else m.

Definition insert_system_metadata (headers : Headers) (m : gmap string string) (n : string) : gmap string string :=
  match hget_str headers n with
  | None => m
  | Some value =>
      let value := if bool_decide (n = "content-encoding")
                   then join ", " (List.filter (fun s => negb (eq_ignore_ascii_case s "aws-chunked")) (trim <$> split ","%char value))
                   else value in
      if bool_decide (value = EmptyString) then m else <[n := value]> m
  end.

Definition extract_metadata (headers : Headers) : gmap string string :=
  foldl (insert_system_metadata headers) (foldl insert_user_metadata ∅ headers) S3_SYSTEM_METADATA_HEADERS.

(** ** Customer keys *)

Record SsecKey : Type := { sk_key : string; sk_key_md5 : string }.

(** The three headers under [name]; [what], [required] and [bad_base64] word the refusals. *)
Definition extract_customer_key (name what required bad_base64 : string) (headers : Headers) (resource : string)
  : outcome S3Error (option SsecKey) :=
  let invalid msg := Err (with_message InvalidArgument msg resource) in
  let header h := name +:+ h in
  match hget_str headers (header "-algorithm"), hget_str headers (header "-key"), hget_str headers (header "-key-md5") with
  | None, None, None => Ok None
  | None, _, _ => invalid (header "-algorithm is required" +:+ required)
  | Some algo, key_b64, key_md5 =>
      if bool_decide (algo <> "AES256") then invalid ("Invalid " +:+ what +:+ " algorithm: " +:+ algo +:+ ". Must be AES256.")
      else
        match key_b64, key_md5 with
        | None, _ => invalid (header "-key is required" +:+ required)
        | Some _, None => invalid (header "-key-md5 is required" +:+ required)
        | Some key_b64, Some key_md5 =>
            match b64_decode key_b64 with
            | None => invalid bad_base64
            | Some key =>
                if negb (String.length key =? 32)%nat then
                  invalid (what +:+ " key must be 256 bits (32 bytes), got "
                           +:+ u64_to_string (Z.of_nat (String.length key)) +:+ " bytes")
                else if bool_decide (b64_encode (md5_of key) <> key_md5) then
                  invalid (what +:+ " key MD5 does not match the provided key")
                else Ok (Some {| sk_key := key; sk_key_md5 := key_md5 |})
            end
        end
  end.

Definition extract_ssec_key : Headers -> string -> outcome S3Error (option SsecKey) :=
  extract_customer_key "x-amz-server-side-encryption-customer" "SSE-C" " with SSE-C"
    "Invalid base64 in x-amz-server-side-encryption-customer-key".

Definition extract_ssec_copy_source_key : Headers -> string -> outcome S3Error (option SsecKey) :=
  extract_customer_key "x-amz-copy-source-server-side-encryption-customer" "SSE-C copy source" EmptyString
    "Invalid base64 in copy-source SSE-C key".

Definition decode_ssec_nonce_prefix (encoded : option string) : option string :=
  bytes ← encoded ≫= b64_decode;
  if (String.length bytes =? 4)%nat then Some bytes else None.

Definition ssec_encryption_info (nonce_prefix : string) : BlobEncryptionInfo := {|
  be_algorithm := "SSE-C"; be_encrypted_dek := EmptyString; be_dek_nonce := EmptyString;
  be_nonce_prefix := b64_encode nonce_prefix; be_key_id := EmptyString |}.

(** ** Conditions *)

(** A condition that does not hold: 304 or 412. *)
Inductive Refusal : Type := NotModified | Failed.

Definition check_conditionals (headers : Headers) (etag : string) (last_modified : Z) (is_get_or_head : bool)
  : option Refusal :=
  let quoted_etag := quoted etag in
  let given n f := from_option f false (hget_str headers n) in
  let dated n f := from_option f false (hget_str headers n ≫= parse_http_date) in
  if given "if-match" (fun v => negb (etag_matches v quoted_etag)) then Some Failed
  else if given "if-none-match" (fun v => etag_matches v quoted_etag) then
    Some (if is_get_or_head then NotModified else Failed)
  else if is_get_or_head && dated "if-modified-since" (fun since => (last_modified <=? since)%Z) then Some NotModified
  else if dated "if-unmodified-since" (fun since => (since <? last_modified)%Z) then Some Failed
  else None.

(** Whether a condition on the source of a copy fails (412). *)
Definition check_copy_source_conditionals (headers : Headers) (etag : string) (last_modified : Z) : bool :=
  let quoted_etag := quoted etag in
  let given n f := from_option f false (hget_str headers ("x-amz-copy-source-" +:+ n)) in
  let dated n f := from_option f false (hget_str headers ("x-amz-copy-source-" +:+ n) ≫= parse_http_date) in
  given "if-match" (fun v => negb (etag_matches v quoted_etag))
  || given "if-none-match" (fun v => etag_matches v quoted_etag)
  || dated "if-modified-since" (fun since => (last_modified <=? since)%Z)
  || dated "if-unmodified-since" (fun since => (since <? last_modified)%Z).

Definition precondition_failed_at {A : Type} (resource : string) : hact ArcaError A :=
  act_fail (S3 (S3Error_new PreconditionFailed resource)).

Definition check_cluster_space (env : ServerEnv) (needed : Z) (resource : string) : outcome S3Error unit :=
  match se_cluster env with
  | None => Ok tt
  | Some cluster =>
      match (min_disk (se_local_disk env).1 (se_local_disk env).2 cluster).2 with
      | Some avail =>
          if (avail <? needed)%Z then
            Err (with_message InsufficientStorage "a node in the cluster lacks the disk space to store this object" resource)
          else Ok tt
      | None => Ok tt
      end
  end.

(** ** Copy sources *)

Definition parse_copy_source (value : string) : option (string * string * option string) :=
  let '(path, version_id) :=
    match before_first "?" value, after_first "?" value with
    | Some path, Some query => (path, query_param query "versionId")
    | _, _ => (value, None)
    end in
  decoded ← url_decode path;
  let path := default decoded (strip_prefix "/" decoded) in
  bucket ← before_first "/" path;
  key ← after_first "/" path;
  if bool_decide (bucket = EmptyString) || bool_decide (key = EmptyString) then None
  else Some (bucket, key, version_id).

Definition parse_copy_source_range (value : string) (file_size : Z) (resource : string) : outcome S3Error ByteRange :=
  let invalid msg := Err (with_message InvalidArgument msg resource) in
  match strip_prefix "bytes=" value with
  | None => invalid "Invalid range format"
  | Some range_str =>
      match before_first "-" range_str, after_first "-" range_str with
      | Some first, Some last =>
          if bool_decide (last = EmptyString) || contains last "," then invalid "Invalid range format"
          else
            match parse_u64 first with
            | None => invalid "Invalid range start"
            | Some start =>
                match parse_u64 last with
                | None => invalid "Invalid range end"
                | Some stop =>
                    if (stop <? start)%Z || (file_size <=? stop)%Z then
                      Err (with_message InvalidRange "The requested range is not satisfiable" resource)
                    else Ok {| br_start := start; br_end := Some stop |}
                end
            end
      | _, _ => invalid "Invalid range format"
      end
  end.

Definition copy_range (headers : Headers) (file_size : Z) (resource : string) : outcome S3Error (option ByteRange) :=
  match hget_str headers "x-amz-copy-source-range" with
  | Some v => let? r := parse_copy_source_range v file_size resource in Ok (Some r)
  | None => Ok None
  end.

Local Open Scope act_scope.

(** The source of a copy, with its conditions. *)
Definition copy_source (headers : Headers) (src_bucket src_key : string) (src_version_id : option string)
    (resource : string) : hact ArcaError ObjectRecord :=
  let! found := ask (version_or_current src_bucket src_key src_version_id) in
  match found with
  | None =>
      act_fail (S3 (S3Error_new (if is_some src_version_id then NoSuchVersion else NoSuchKey) (object_resource src_bucket src_key)))
  | Some r =>
      if is_some src_version_id && o_is_delete_marker r then
        act_fail (S3 (with_message InvalidRequest
          "The source of a copy request may not specifically refer to a delete marker by version id." resource))
      else if check_copy_source_conditionals headers (o_etag r) (o_last_modified r) then precondition_failed_at resource
      else act_ret r
  end.

(** ** Steps the writes share *)

(** The result of a call of the blob store, an error answered as [f] says. *)
Definition stored {A : Type} (f : ArcaError -> ArcaError) (r : outcome ArcaError A) : hact ArcaError A := lift f r.

Definition write_sidecar_or_discard (io : BlobIO) (blob_id : string) (meta : SidecarMeta) : hact ArcaError unit :=
  match io_write_sidecar io meta with
  | Ok _ => act_ret tt
  | Err e => let! _ := blob_discard blob_id in act_fail e
  | Panic => fun a => (a, Panic)
  end.

Definition part_sidecar (now : Z) (bucket key upload_id : string) (part_number : Z) (p : BlobPutResult) : SidecarMeta := {|
  sm_bucket := bucket; sm_key := key +:+ "#" +:+ upload_id +:+ "#" +:+ u64_to_string part_number;
  sm_size := bp_size p; sm_etag := bp_etag p; sm_content_type := None; sm_last_modified := to_rfc3339 now;
  sm_metadata := ∅; sm_encryption := bp_encryption p; sm_compression := None; sm_version_id := None;
  sm_composite := None |}.

Definition object_sidecar (now : Z) (bucket key : string) (p : BlobPutResult) (content_type : option string)
    (metadata : gmap string string) (encryption : option BlobEncryptionInfo) : SidecarMeta := {|
  sm_bucket := bucket; sm_key := key; sm_size := bp_size p; sm_etag := bp_etag p; sm_content_type := content_type;
  sm_last_modified := to_rfc3339 now; sm_metadata := metadata; sm_encryption := encryption;
  sm_compression := bp_compression p; sm_version_id := None; sm_composite := None |}.

(** The [encryption_key_id] column: the nonce prefix of a customer key, else the master key's id. *)
Definition key_column (e : BlobEncryptionInfo) : string :=
  if bool_decide (be_algorithm e = "SSE-C") then be_nonce_prefix e else be_key_id e.

(** A refusal among [codes] gets rid of the fresh blob before it is answered. *)
Definition refused {A : Type} (codes : list S3ErrorCode) (discard : hact ArcaError unit) (m : hact ArcaError A)
  : hact ArcaError A := fun a =>
  match m a with
  | (a', Err (S3 e)) => if bool_decide (err_code e ∈ codes) then ((discard a').1, Err (S3 e)) else (a', Err (S3 e))
  | r => r
  end.

Definition delete_old (old : option ObjectRecord) : hact ArcaError unit :=
  match old with Some r => blob_delete (o_blob_id r) | None => act_ret tt end.

Definition created_event (event_name : string) (record : ObjectRecord) (version_id : option string) : S3Event := {|
  ev_event_name := event_name; ev_bucket := o_bucket record; ev_key := o_key record; ev_size := o_size record;
  ev_etag := o_etag record; ev_version_id := version_id; ev_user_identity := Some (o_owner record) |}.

(** The row of a written object, before the lock, the checksum and the parts are set. *)
Definition written_record (bucket key blob_id : string) (p : BlobPutResult) (etag : string) (content_type : option string)
    (now : Z) (metadata : gmap string string) (algorithm key_id : option string) (owner : string)
    (lock : option string * option Z * option string) (storage_class : string)
    (checksum : option string * option string) (parts : option (list ObjectPart)) : ObjectRecord :=
  MkObject bucket key blob_id (bp_size p) etag content_type now metadata algorithm key_id owner None true false false
    lock.1.1 lock.1.2 lock.2 storage_class checksum.1 checksum.2 parts None None None.

(** ** Handlers *)

Context {json : ReplicationJson}.
Variables (env : ServerEnv) (io : BlobIO) (d : Draw).

Definition max_body : option Z := if (0 <? se_max_body_size env)%Z then Some (se_max_body_size env) else None.

(** The rejection of a declared length over the limit. *)
Definition length_refused (headers : Headers) : bool :=
  match max_body, hget headers "content-length" with
  | Some limit, Some cl =>
      match parse_u64 (default EmptyString (to_str cl)) with Some len => (limit <? len)%Z | None => false end
  | _, _ => false
  end.

Definition write_precondition (headers : Headers) : WritePrecondition :=
  {| w_if_match := hget_str headers "if-match"; w_if_none_match := hget_str headers "if-none-match" |}.

Definition inline_tags (headers : Headers) : outcome S3Error (list (string * string)) :=
  match hget_str headers "x-amz-tagging" with Some th => parse_tagging_header th | None => Ok [] end.

(** Writing the stream, under the customer's key when there is one. *)
Definition write_blob (ssec_key : option SsecKey) (stream : Stream) (f : ArcaError -> ArcaError) (resource : string)
  : hact ArcaError (BlobPutResult * option BlobEncryptionInfo) :=
  match ssec_key with
  | Some ssec =>
      if se_ssec env then
        let! r := stored f (io_put_with_key io stream (sk_key ssec)) in
        act_ret (r.1, Some (ssec_encryption_info r.2))
      else act_fail (S3 (with_message InvalidArgument "SSE-C is not available" resource))
  | None =>
      let! r := stored f (io_put io stream) in
      act_ret (r, bp_encryption r)
  end.

(** After the row is stored: the old blob, the notification and the journal. *)
Definition announce (event_name : string) (record : ObjectRecord) (version_id : option string) (headers : Headers)
    (tags : list (string * string)) : hact ArcaError (option ReplicationStatus) :=
  let! _ := emit_event (created_event event_name record version_id) in
  emit_and_stamp (dr_now d) (dr_instant d) (dr_uuids d) headers (o_bucket record) (o_key record) version_id EventPut tags.

Definition write_answer (record : ObjectRecord) (version_id : option string) (status : option ReplicationStatus)
    (ssec_key : option SsecKey) (checksum : option string * option string) : WriteAnswer := {|
  wa_etag := quoted (o_etag record); wa_version_id := version_id; wa_replication_status := as_header <$> status;
  wa_customer_key_md5 := sk_key_md5 <$> ssec_key;
  wa_encrypted := negb (is_some ssec_key) && is_some (o_encryption_algorithm record);
  wa_checksum := match checksum with (Some algo, Some val) => Some (algo, val) | _ => None end |}.

(** The early check of the conditions of PutObject. *)
Definition put_conditions (headers : Headers) (bucket key resource : string) : hact ArcaError unit :=
  if has_header headers "if-match" || has_header headers "if-none-match" then
    let! existing := ask (fun a => get_object bucket key (app_meta a)) in
    match existing with
    | Some obj =>
        match check_conditionals headers (o_etag obj) (o_last_modified obj) false with
        | Some _ => precondition_failed_at resource
        | None => act_ret tt
        end
    | None => if has_header headers "if-match" then act_fail (S3 (S3Error_new NoSuchKey resource)) else act_ret tt
    end
  else act_ret tt.

(** PutObject. *)
Definition put_object_body (bucket key : string) (rq : WriteRequest) : hact ArcaError WriteAnswer :=
  let resource := object_resource bucket key in
  let headers := wq_headers rq in
  let! _ := require_bucket bucket resource in
  let! _ := put_conditions headers bucket key resource in
  let content_type := hget_str headers "content-type" in
  let metadata := extract_metadata headers in
  let! tags := lift S3 (inline_tags headers) in
  let! _ := (if length_refused headers then act_fail (S3 (S3Error_new EntityTooLarge resource)) else act_ret tt) in
  let! body := lift S3 (verified_body_stream_requiring (wq_body rq) headers max_body resource (wq_chunk_verifier rq) None) in
  let! ssec_key := lift S3 (extract_ssec_key headers resource) in
  let! _ := (if is_some ssec_key && is_some (hget_str headers "x-amz-server-side-encryption") then
               act_fail (S3 (with_message InvalidArgument
                 "Requests specifying Server Side Encryption with Customer provided keys must not specify a server side encryption algorithm"
                 resource))
             else act_ret tt) in
  let! written := write_blob ssec_key body.1 (fun e => put_failure e resource) resource in
  let p := written.1 in
  let! checksum := match verify body.2 (bp_etag p) resource with
                   | Ok c => act_ret c
                   | Err e => let! _ := blob_delete (io_blob_id io) in act_fail (S3 e)
                   | Panic => fun a => (a, Panic)
                   end in
  let now := dr_now d in
  let! _ := write_sidecar_or_discard io (io_blob_id io) (object_sidecar now bucket key p content_type metadata written.2) in
  let! lock := (fun a => (a, resolve_object_lock_headers headers bucket now (app_meta a))) in
  let record := written_record bucket key (io_blob_id io) p (bp_etag p) content_type now metadata
                  (be_algorithm <$> written.2) (key_column <$> written.2) (wq_user rq) lock
                  (default "STANDARD" (hget_str headers "x-amz-storage-class")) checksum None in
  let! done := refused [PreconditionFailed; NoSuchKey] (blob_delete (io_blob_id io))
                 (on_meta (put_object_tagged_if (dr_uuid d) record (write_precondition headers) tags)) in
  let! _ := delete_old done.1 in
  let! status := announce "s3:ObjectCreated:Put" record done.2 headers tags in
  act_ret (write_answer record done.2 status ssec_key checksum).

(** *** CopyObject *)

Definition copied_checksum (source : ObjectRecord) : option string * option string :=
  match o_checksum_algorithm source, o_checksum_value source with
  | Some algorithm, Some value => if bool_decide (of_value value = FullObject) then (Some algorithm, Some value) else (None, None)
  | _, _ => (None, None)
  end.

Definition invalid_copy_source {A : Type} (resource : string) : hact ArcaError A :=
  act_fail (S3 (with_message InvalidArgument "Invalid x-amz-copy-source header" resource)).

(** The stream of the source, under its customer key when it has one. *)
Definition read_source (src : ObjectRecord) (src_ssec : option SsecKey) (resource : string) : hact ArcaError Stream :=
  if bool_decide (o_encryption_algorithm src = Some "SSE-C") then
    match src_ssec with
    | None =>
        act_fail (S3 (with_message InvalidRequest
          "The source object was stored using SSE-C. You must provide the source encryption key." resource))
    | Some ssec =>
        if negb (se_ssec env) then act_fail (S3 (with_message InvalidArgument "SSE-C is not available" resource))
        else
          match decode_ssec_nonce_prefix (o_encryption_key_id src) with
          | None => act_fail (Internal "invalid SSE-C nonce prefix on source")
          | Some nonce => stored (fun e => e) (io_get_with_key io (o_blob_id src) (sk_key ssec) nonce (o_size src))
          end
    end
  else stored (fun e => e) (io_get io (o_blob_id src) None).

Definition copy_object (dest_bucket dest_key : string) (rq : WriteRequest) : hact ArcaError WriteAnswer :=
  let resource := object_resource dest_bucket dest_key in
  let headers := wq_headers rq in
  let directive n := default "COPY" (hget_str headers n) in
  match parse_copy_source (default EmptyString (hget_str headers "x-amz-copy-source")) with
  | None => invalid_copy_source resource
  | Some (src_bucket, src_key, src_version_id) =>
      let! _ := require_bucket dest_bucket resource in
      let! _ := require_bucket src_bucket (object_resource src_bucket src_key) in
      let! src := copy_source headers src_bucket src_key src_version_id resource in
      let replace := eq_ignore_ascii_case (directive "x-amz-metadata-directive") "REPLACE" in
      let! _ := (if bool_decide (src_bucket = dest_bucket) && bool_decide (src_key = dest_key) && negb replace then
                   act_fail (S3 (with_message InvalidRequest
                     "This copy request is illegal because it is trying to copy an object to itself without changing the object's metadata, storage class, website redirect location or encryption attributes."
                     resource))
                 else act_ret tt) in
      let! tags := (if eq_ignore_ascii_case (directive "x-amz-tagging-directive") "REPLACE"
                    then lift S3 (inline_tags headers)
                    else ask (fun a => get_object_tags src_bucket src_key (default EmptyString (o_version_id src)) (app_meta a))) in
      let content_type := if replace then hget_str headers "content-type" else o_content_type src in
      let metadata := if replace then extract_metadata headers else o_metadata src in
      let! src_ssec := lift S3 (extract_ssec_copy_source_key headers resource) in
      let! dest_ssec := lift S3 (extract_ssec_key headers resource) in
      let! stream := read_source src src_ssec resource in
      let! written := write_blob dest_ssec stream (fun e => e) resource in
      let p := written.1 in
      let now := dr_now d in
      let! _ := write_sidecar_or_discard io (io_blob_id io)
                  (object_sidecar now dest_bucket dest_key p content_type metadata written.2) in
      let record := written_record dest_bucket dest_key (io_blob_id io) p (bp_etag p) content_type now metadata
                      (be_algorithm <$> written.2) (key_column <$> written.2) (wq_user rq) (None, None, None)
                      (o_storage_class src) (copied_checksum src) None in
      let! done := on_meta (put_object_tagged_if (dr_uuid d) record no_write_precondition tags) in
      let! _ := delete_old done.1 in
      let! status := announce "s3:ObjectCreated:Copy" record done.2 headers tags in
      act_ret (write_answer record done.2 status dest_ssec (None, None))
  end.

(** *** Multipart uploads *)

Definition SSEC_ALGO_HEADER : string := "x-amz-server-side-encryption-customer-algorithm".
Definition MIN_PART_SIZE : Z := 5242880.
Definition MAX_PART_NUMBER : Z := 10000.

Definition ssec_multipart {A : Type} (resource : string) : hact ArcaError A :=
  act_fail (S3 (with_message InvalidArgument "SSE-C is not supported for multipart uploads" resource)).

(** CreateMultipartUpload; [dr_uuid] is the upload id. *)
Definition create_multipart_upload (bucket key : string) (rq : WriteRequest) : hact ArcaError string :=
  let resource := object_resource bucket key in
  let headers := wq_headers rq in
  if has_header headers SSEC_ALGO_HEADER then ssec_multipart resource
  else
    let! _ := require_bucket bucket resource in
    let tagging_header := hget_str headers "x-amz-tagging" in
    let! _ := lift S3 (inline_tags headers) in
    let metadata := match tagging_header with
                    | Some th => <["_arca_tagging" := th]> (extract_metadata headers)
                    | None => extract_metadata headers
                    end in
    let! checksum := lift S3 (select_for_upload headers resource) in
    let! _ := on_meta (MetadataStore.create_multipart_upload {|
      mu_upload_id := dr_uuid d; mu_bucket := bucket; mu_key := key; mu_content_type := hget_str headers "content-type";
      mu_initiated_at := dr_now d; mu_metadata := metadata;
      mu_checksum_algorithm := (fun c => name c.1) <$> checksum;
      mu_checksum_type := (fun c => type_as_str c.2) <$> checksum; mu_initiator := wq_user rq |}) in
    act_ret (dr_uuid d).

(** The upload, when it is one of the key. *)
Definition upload_of (bucket key upload_id resource : string) : hact ArcaError MultipartUploadRecord :=
  let! upload := ask (fun a => get_multipart_upload upload_id (app_meta a)) in
  match upload with
  | None => act_fail (S3 (S3Error_new NoSuchUpload resource))
  | Some u =>
      if bool_decide (mu_bucket u <> bucket) || bool_decide (mu_key u <> key)
      then act_fail (S3 (S3Error_new NoSuchUpload resource)) else act_ret u
  end.

(** The part's row; the blob of the part it replaces. *)
Definition store_part (upload_id : string) (part_number : Z) (p : BlobPutResult) (checksum : option string)
  : hact ArcaError unit :=
  let! old := on_meta (put_part {|
    pt_upload_id := upload_id; pt_part_number := part_number; pt_blob_id := io_blob_id io; pt_size := bp_size p;
    pt_etag := bp_etag p; pt_checksum_value := checksum; pt_last_modified := Some (dr_now d) |}) in
  match old with Some o => blob_delete (pt_blob_id o) | None => act_ret tt end.

(** The answer is the part's ETag and checksum. *)
Definition upload_part (bucket key : string) (part_number : Z) (upload_id : string) (rq : WriteRequest)
  : hact ArcaError (string * (option string * option string)) :=
  let resource := object_resource bucket key in
  let headers := wq_headers rq in
  if has_header headers SSEC_ALGO_HEADER then ssec_multipart resource
  else if (part_number <? 1)%Z || (MAX_PART_NUMBER <? part_number)%Z then
    act_fail (S3 (with_message InvalidArgument ("Part number must be between 1 and " +:+ u64_to_string MAX_PART_NUMBER) resource))
  else
    let! upload := upload_of bucket key upload_id resource in
    let! _ := (if length_refused headers then act_fail (S3 (S3Error_new EntityTooLarge resource)) else act_ret tt) in
    let required := mu_checksum_algorithm upload ≫= from_name in
    let! body := lift S3 (verified_body_stream_requiring (wq_body rq) headers max_body resource (wq_chunk_verifier rq) required) in
    let! p := stored (fun e => put_failure e resource) (io_put io body.1) in
    let! checksum := match verify body.2 (bp_etag p) resource with
                     | Ok c => act_ret c
                     | Err e => let! _ := blob_delete (io_blob_id io) in act_fail (S3 e)
                     | Panic => fun a => (a, Panic)
                     end in
    let! _ := write_sidecar_or_discard io (io_blob_id io) (part_sidecar (dr_now d) bucket key upload_id part_number p) in
    let same_algorithm := match checksum.1, mu_checksum_algorithm upload with
                          | Some algo, Some upload_algo => eq_ignore_ascii_case algo upload_algo
                          | _, _ => false
                          end in
    let! _ := store_part upload_id part_number p (if same_algorithm then checksum.2 else None) in
    act_ret (quoted (bp_etag p), checksum).

Definition upload_part_copy (bucket key : string) (part_number : Z) (upload_id : string) (rq : WriteRequest)
  : hact ArcaError string :=
  let resource := object_resource bucket key in
  let headers := wq_headers rq in
  if has_header headers SSEC_ALGO_HEADER
     || has_header headers "x-amz-copy-source-server-side-encryption-customer-algorithm" then ssec_multipart resource
  else
    match parse_copy_source (default EmptyString (hget_str headers "x-amz-copy-source")) with
    | None => invalid_copy_source resource
    | Some (src_bucket, src_key, src_version_id) =>
        let! _ := upload_of bucket key upload_id resource in
        let! src := copy_source headers src_bucket src_key src_version_id resource in
        let! range := lift S3 (copy_range headers (o_size src) resource) in
        let! stream := stored (fun e => e) (io_get io (o_blob_id src) range) in
        let! p := stored (fun e => e) (io_put io stream) in
        let! _ := write_sidecar_or_discard io (io_blob_id io) (part_sidecar (dr_now d) bucket key upload_id part_number p) in
        let! _ := store_part upload_id part_number p None in
        act_ret (quoted (bp_etag p))
    end.

(** The last entry of each part number, in the order of the numbers. *)
Fixpoint dedup_after (n : Z) (l : list CompletePart) : list CompletePart :=
  match l with
  | [] => []
  | p :: l' => if (cpt_part_number p =? n)%Z then dedup_after n l' else p :: dedup_after (cpt_part_number p) l'
  end.

Definition dedup_by_number (l : list CompletePart) : list CompletePart :=
  match l with [] => [] | p :: l' => p :: dedup_after (cpt_part_number p) l' end.

Definition normalized_parts (parts : list CompletePart) : list CompletePart :=
  rev (dedup_by_number (rev (sorted_by (cmp_on cpt_part_number Z.compare) parts))).

(** The stored parts the request names, with their ETags. *)
Fixpoint match_parts (stored_parts : list PartRecord) (requested : list CompletePart) (resource : string)
  : outcome S3Error (list PartRecord) :=
  match requested with
  | [] => Ok []
  | p :: requested' =>
      match List.find (fun s => (pt_part_number s =? cpt_part_number p)%Z) stored_parts with
      | None => Err (S3Error_new InvalidPart resource)
      | Some s =>
          if bool_decide (trim_matches 34 (cpt_etag p) <> pt_etag s) then Err (S3Error_new InvalidPart resource)
          else obind (match_parts stored_parts requested' resource) (fun l => Ok (s :: l))
      end
  end.

(** Every part but the last has the minimum size. *)
Definition part_too_small (parts : list PartRecord) : bool :=
  existsb (fun p => (pt_size p <? MIN_PART_SIZE)%Z) (removelast parts).

Definition check_complete_conditionals (bucket key : string) (pre : WritePrecondition) (resource : string)
  : hact ArcaError unit :=
  if w_is_empty pre then act_ret tt
  else
    let! existing := ask (fun a => get_object bucket key (app_meta a)) in
    lift (fun code => S3 (S3Error_new code resource)) (write_evaluate pre existing).

Definition composite_etag (parts : list PartRecord) (resource : string) : outcome S3Error string :=
  match mapM (hex_decode ∘ pt_etag) parts with
  | None => Err (with_message InternalError "Invalid part ETag format" resource)
  | Some digests => Ok (hex_of (md5_of (String.concat EmptyString digests)) +:+ "-" +:+ u64_to_string (Z.of_nat (length parts)))
  end.

Record CompleteAnswer : Type := {
  ca_etag : string;
  ca_checksum : option (string * string * ChecksumType);
  ca_version_id : option string;
  ca_replication_status : option string;
  ca_encrypted : bool;
}.

(** An upload that is gone: the object it may have become. *)
Definition already_completed (bucket key resource : string) : hact ArcaError CompleteAnswer :=
  let! obj := ask (fun a => get_object bucket key (app_meta a)) in
  match obj with
  | Some obj =>
      if contains (o_etag obj) "-" then
        act_ret {| ca_etag := o_etag obj;
                   ca_checksum := match o_checksum_algorithm obj, o_checksum_value obj with
                                  | Some algorithm, Some value => Some (algorithm, value, of_value value)
                                  | _, _ => None
                                  end;
                   ca_version_id := None; ca_replication_status := None; ca_encrypted := false |}
      else act_fail (S3 (S3Error_new NoSuchUpload resource))
  | None => act_fail (S3 (S3Error_new NoSuchUpload resource))
  end.

(** What the transaction of CompleteMultipartUpload is given. *)
Record Assembled : Type := {
  as_record : ObjectRecord;
  as_pre : WritePrecondition;
  as_tags : list (string * string);
  as_checksum : option ObjectChecksum;
  as_is_composite : bool;
}.

Definition completed_sidecar (now : Z) (upload : MultipartUploadRecord) (p : BlobPutResult) (etag : string) : SidecarMeta := {|
  sm_bucket := mu_bucket upload; sm_key := mu_key upload; sm_size := bp_size p; sm_etag := etag;
  sm_content_type := mu_content_type upload; sm_last_modified := to_rfc3339 now; sm_metadata := mu_metadata upload;
  sm_encryption := bp_encryption p; sm_compression := None; sm_version_id := None; sm_composite := bp_composite_parts p |}.

Definition object_part (p : PartRecord) : ObjectPart :=
  {| op_part_number := pt_part_number p; op_size := pt_size p; op_checksum := pt_checksum_value p |}.

(** CompleteMultipartUpload up to its transaction.  The body is its parts, the
    outer [None] when it is not UTF-8, the inner when it does not parse. *)
Definition assemble (bucket key upload_id : string) (rq : WriteRequest) (body : Body (option (list CompletePart)))
    (upload : MultipartUploadRecord) : hact ArcaError Assembled :=
  let resource := object_resource bucket key in
  let headers := wq_headers rq in
  let! _ := (if bool_decide (mu_bucket upload <> bucket) || bool_decide (mu_key upload <> key)
             then act_fail (S3 (S3Error_new NoSuchUpload resource)) else act_ret tt) in
  let pre := write_precondition headers in
  let! _ := check_complete_conditionals bucket key pre resource in
  let! doc := read_body (with_message InvalidArgument "Request body too large or invalid" resource) body in
  let! doc := match doc with
              | Some doc => act_ret doc
              | None => act_fail (S3 (with_message InvalidArgument "Request body is not valid UTF-8" resource))
              end in
  let requested := normalized_parts (default [] doc) in
  if is_nil requested then act_fail (S3 (S3Error_new MalformedXML resource))
  else
    let! stored_parts := ask (fun a => list_parts upload_id (app_meta a)) in
    let! matched := lift S3 (match_parts stored_parts requested resource) in
    if part_too_small matched then act_fail (S3 (S3Error_new EntityTooSmall resource))
    else
      let! checksum := lift S3 (plan_complete upload matched requested headers resource) in
      let! p := stored (fun e => e) (io_concat io (pt_blob_id <$> matched)) in
      let! etag := lift S3 (composite_etag matched resource) in
      let now := dr_now d in
      let! _ := write_sidecar_or_discard io (io_blob_id io) (completed_sidecar now upload p etag) in
      let tags := match mu_metadata upload !! "_arca_tagging" with
                  | Some th => match parse_tagging_header th with Ok tags => tags | _ => [] end
                  | None => []
                  end in
      act_ret {|
        as_record := written_record bucket key (io_blob_id io) p etag (mu_content_type upload) now
          (base.delete "_arca_tagging" (mu_metadata upload)) (be_algorithm <$> bp_encryption p) (be_key_id <$> bp_encryption p)
          (wq_user rq) (None, None, None) "STANDARD" (name ∘ oc_algorithm <$> checksum, oc_value <$> checksum)
          (Some (object_part <$> matched));
        as_pre := pre; as_tags := tags; as_checksum := checksum; as_is_composite := is_some (bp_composite_parts p) |}.

(** The transaction and what follows it. *)
Definition commit_assembled (upload_id : string) (rq : WriteRequest) (m : Assembled) : hact ArcaError CompleteAnswer :=
  let record := as_record m in
  let! done := refused [PreconditionFailed; NoSuchKey; NoSuchUpload] (blob_discard (o_blob_id record))
                 (on_meta (complete_multipart_object_tagged (dr_uuid d) upload_id record (as_pre m) (as_tags m))) in
  let! _ := delete_old (cu_old done) in
  let! _ := (if as_is_composite m then act_ret tt else act_for (fun p => blob_delete (pt_blob_id p)) (cu_parts done)) in
  let! status := announce "s3:ObjectCreated:CompleteMultipartUpload" record (cu_version_id done) (wq_headers rq) (as_tags m) in
  act_ret {| ca_etag := o_etag record;
             ca_checksum := (fun c => (name (oc_algorithm c), oc_value c, oc_kind c)) <$> as_checksum m;
             ca_version_id := cu_version_id done; ca_replication_status := as_header <$> status;
             ca_encrypted := is_some (o_encryption_algorithm record) |}.

Definition complete_multipart_upload (bucket key upload_id : string) (rq : WriteRequest) (body : Body (option (list CompletePart)))
  : hact ArcaError CompleteAnswer :=
  let! upload := ask (fun a => get_multipart_upload upload_id (app_meta a)) in
  match upload with
  | None => already_completed bucket key (object_resource bucket key)
  | Some upload =>
      let! m := assemble bucket key upload_id rq body upload in
      commit_assembled upload_id rq m
  end.

Definition abort_multipart_upload (bucket key upload_id : string) : hact ArcaError unit :=
  let! upload := ask (fun a => get_multipart_upload upload_id (app_meta a)) in
  match upload with
  | None => act_fail (S3 (S3Error_new NoSuchUpload (object_resource bucket key)))
  | Some _ =>
      let! parts := on_meta (delete_multipart_upload upload_id) in
      act_for (fun p => blob_delete (pt_blob_id p)) parts
  end.

(** *** Tagging *)

(** The version the tags are kept under, and the version id the answer names. *)
Definition resolve_version_for_tagging (bucket key query resource : string) : hact ArcaError (string * option string) :=
  let! _ := require_bucket bucket resource in
  let version_id := query_param query "versionId" in
  let! found := ask (version_or_current bucket key version_id) in
  match found with
  | None => act_fail (S3 (S3Error_new (if is_some version_id then NoSuchVersion else NoSuchKey) resource))
  | Some r =>
      if o_is_delete_marker r then act_fail (S3 (S3Error_new NoSuchKey resource))
      else act_ret (default EmptyString (o_version_id r), o_version_id r)
  end.

Definition get_object_tagging (bucket key query : string) : hact ArcaError (list (string * string) * option string) :=
  let! vid := resolve_version_for_tagging bucket key query (object_resource bucket key) in
  let! tags := ask (fun a => get_object_tags bucket key vid.1 (app_meta a)) in
  act_ret (tags, vid.2).

Definition put_object_tagging (bucket key query : string) (headers : Headers) (body : Body (list (string * string)))
  : hact ArcaError (option string) :=
  let resource := object_resource bucket key in
  let! vid := resolve_version_for_tagging bucket key query resource in
  let! doc := read_body (S3Error_new InvalidRequest resource) body in
  let! tags := lift S3 (parse_tagging_xml doc) in
  let! _ := on_meta (put_object_tags bucket key vid.1 tags) in
  let! _ := emit_and_stamp (dr_now d) (dr_instant d) (dr_uuids d) headers bucket key vid.2 EventTag tags in
  act_ret vid.2.

Definition delete_object_tagging (bucket key query : string) : hact ArcaError (option string) :=
  let! vid := resolve_version_for_tagging bucket key query (object_resource bucket key) in
  let! _ := on_meta (delete_object_tags bucket key vid.1) in
  act_ret vid.2.

(** *** Routes *)

(** The body of a PUT as the handler it is routed to reads it. *)
Record PutBodies : Type := {
  pb_tagging : Body (list (string * string));
  pb_retention : Body XmlRetention;
  pb_legal_hold : Body XmlLegalHold;
}.

Inductive PutAnswer : Type :=
  | PutTagged (version_id : option string)
  | PutRetention
  | PutLegalHold
  | PutPart (etag : string)
  | PutWritten (answer : WriteAnswer).

Definition act_map {A B : Type} (f : A -> B) (m : hact ArcaError A) : hact ArcaError B :=
  let! x := m in
  act_ret (f x).

(** [PUT /{bucket}/{key}]: the routes by a piece of the query come first. *)
Definition put_object (bucket key : string) (rq : WriteRequest) (bodies : PutBodies) : hact ArcaError PutAnswer :=
  let resource := object_resource bucket key in
  let headers := wq_headers rq in
  let query := default EmptyString (wq_query rq) in
  let vid := query_param query "versionId" in
  if contains query "tagging" then act_map PutTagged (put_object_tagging bucket key query headers (pb_tagging bodies))
  else if contains query "retention" then
    act_map (fun _ => PutRetention) (put_object_retention (dr_now d) bucket key vid headers (pb_retention bodies))
  else if contains query "legal-hold" then
    act_map (fun _ => PutLegalHold) (put_object_legal_hold (dr_now d) bucket key vid (pb_legal_hold bodies))
  else
    let! _ := lift S3 (check_cluster_space env (default 0%Z (hget_str headers "content-length" ≫= parse_u64)) resource) in
    let copy := has_header headers "x-amz-copy-source" in
    match query_param query "partNumber", query_param query "uploadId" with
    | Some pn, Some upload_id =>
        match parse_u32 pn with
        | None => act_fail (S3 (with_message InvalidArgument "Invalid partNumber" resource))
        | Some pn =>
            if copy then act_map PutPart (upload_part_copy bucket key pn upload_id rq)
            else act_map (fun a => PutPart a.1) (upload_part bucket key pn upload_id rq)
        end
    | _, _ => act_map PutWritten (if copy then copy_object bucket key rq else put_object_body bucket key rq)
    end.

Inductive PostAnswer : Type := PostCreated (upload_id : string) | PostCompleted (answer : CompleteAnswer).

Definition is_uploads_query (query : string) : bool :=
  bool_decide (query = "uploads") || bool_decide (query = "uploads=") || starts_with query "uploads&"
  || starts_with query "uploads=&" || contains query "&uploads" || contains query "&uploads=".

(** [POST /{bucket}/{key}]. *)
Definition post_object (bucket key : string) (rq : WriteRequest) (body : Body (option (list CompletePart)))
  : hact ArcaError PostAnswer :=
  let not_implemented := act_fail (S3 (S3Error_new NotImplemented (object_resource bucket key))) in
  match wq_query rq with
  | None => not_implemented
  | Some query =>
      if is_uploads_query query then act_map PostCreated (create_multipart_upload bucket key rq)
      else
        match query_param query "uploadId" with
        | Some upload_id => act_map PostCompleted (complete_multipart_upload bucket key upload_id rq body)
        | None => not_implemented
        end
  end.

Inductive DeleteObjectAnswer : Type :=
  | DeleteTagged (version_id : option string)
  | DeleteAborted
  | DeleteDone (answer : DeleteAnswer).

(** [DELETE /{bucket}/{key}]. *)
Definition delete_object_request (cluster_mode : bool) (bucket key : string) (rq : WriteRequest)
  : hact ArcaError DeleteObjectAnswer :=
  let query := default EmptyString (wq_query rq) in
  if contains query "tagging" then act_map DeleteTagged (delete_object_tagging bucket key query)
  else
    match query_param query "uploadId" with
    | Some upload_id => act_map (fun _ => DeleteAborted) (abort_multipart_upload bucket key upload_id)
    | None =>
        act_map DeleteDone (ObjectLock.delete_object cluster_mode (dr_now d) (dr_instant d) (dr_uuid d) (dr_uuids d) bucket key
          (query_param query "versionId") (wq_headers rq) (wq_user rq))
    end.
End writes.
