(* ===== verification/HandlerBlobs.v ===== *)
(** No handler deletes a blob that a row still needs.

    A blob is held by the object row or the part row that names it.  The rows of
    the database change in one call, the blobs are deleted in later ones, and the
    parts of a composite belong to the upload before its completion and to the
    object after it; [blobs_ok] says that throughout every file has one holder and
    none that is held has been removed.  [blobs_never_lost] shows it for every
    sequence of requests and lifecycle actions of one node; a small program logic
    ([triple]) carries it through the handlers. *)

From S2P Require Import Prelude S3Errors Types SqlTable Text BlobRead FsBlob Preconditions MetadataStore MetadataRows MetadataInvariant.
From S2P Require Import MetadataSteps MetadataOps MetadataListing Sigv4 Middleware ChunkedBody UploadIntegrity MultipartChecksum ReplicationRules.
From S2P Require Import ReplicationJournal AppState ObjectLock Lifecycle ObjectWrites.

(** ** Holders *)

Definition row_blob (x : ObjRow) : string := o_blob_id (row_rec x).

Inductive Holder : Type := HRow (i : N) | HPart (id : string * Z).

#[export] Instance Holder_eq_dec : EqDecision Holder.
Proof. solve_decision. Defined.

Definition holds (s : MetaStore) (h : Holder) (b : string) : Prop :=
  b <> EmptyString /\
  match h with
  | HRow i => row_blob <$> ms_objects s !! i = Some b
  | HPart id => pt_blob_id <$> ms_parts s !! id = Some b
  end.

Definition single (s : MetaStore) : Prop := forall h h' b, holds s h b -> holds s h' b -> h = h'.

(** The rows of [m'] are the new row and rows of [m] outside [P]. *)
Definition rows_from (P : ObjRow -> Prop) (new : option string) (m m' : gmap N ObjRow) : Prop :=
  exists i0, forall i x', m' !! i = Some x' -> row_blob x' <> EmptyString ->
    (i = i0 /\ new = Some (row_blob x')) \/ exists x, m !! i = Some x /\ row_blob x = row_blob x' /\ ~ P x.

Definition rows_within (P : ObjRow -> Prop) (m m' : gmap N ObjRow) : Prop :=
  forall i x', m' !! i = Some x' -> row_blob x' <> EmptyString ->
    exists x, m !! i = Some x /\ row_blob x = row_blob x' /\ ~ P x.

Abbreviation no_row := (fun _ : ObjRow => False).

Lemma rows_within_refl m : rows_within no_row m m.
Proof. intros i x Hi _. exists x. split_and!; [done|done|by intros []]. Qed.

Lemma within_then P m1 m2 m3 : rows_within P m1 m2 -> rows_within no_row m2 m3 -> rows_within P m1 m3.
Proof.
  intros H1 H2 i x Hi Hx. destruct (H2 i x Hi Hx) as (y & Hy & E & _). rewrite <- E in Hx.
  destruct (H1 i y Hy Hx) as (z & Hz & E' & Hp). exists z. split_and!; [done|congruence|done].
Qed.

Lemma from_then P new m1 m2 m3 : rows_from P new m1 m2 -> rows_within no_row m2 m3 -> rows_from P new m1 m3.
Proof.
  intros [i0 H1] H2. exists i0. intros i x Hi Hx. destruct (H2 i x Hi Hx) as (y & Hy & E & _). rewrite <- E in Hx |- *.
  by apply H1.
Qed.

Lemma from_within P new m m' : rows_within P m m' -> rows_from P new m m'.
Proof. intros H. exists 0%N. intros i x Hi Hx. right. by apply H. Qed.

Lemma within_update P `{!forall x, Decision (P x)} f m :
  (forall x, row_blob (f x) = row_blob x) -> rows_within no_row m (update_where P f m).
Proof.
  intros Hf i x' Hi _. rewrite lookup_update_where in Hi. apply fmap_Some in Hi as (x & Hi & ->). exists x.
  split_and!; [done| |by intros []]. case_decide; [by rewrite Hf|done].
Qed.

Lemma within_tombstones P `{!forall x, Decision (P x)} seq now m :
  rows_within P m (update_where P (map_row_at seq (as_tombstone now)) m).
Proof.
  intros i x' Hi Hx. rewrite lookup_update_where in Hi. apply fmap_Some in Hi as (x & Hi & ->).
  case_decide; [by destruct x as [[] ?]|]. by exists x.
Qed.

Lemma within_delete P `{!forall x, Decision (P x)} m : rows_within P m (delete_where P m).
Proof. intros i x Hi _. apply lookup_delete_where in Hi as [Hi Hp]. by exists x. Qed.

Lemma within_unlatest b k m : rows_within no_row m (unlatest b k m).
Proof. apply within_update. by intros [[] ?]. Qed.

Lemma within_recompute b k m : rows_within no_row m (recompute b k m).
Proof.
  unfold recompute. destruct (winner b k (unlatest b k m)) as [j|]; [|apply within_unlatest].
  eapply within_then; [apply within_unlatest|]. intros i x' Hi _. destruct (decide (j = i)) as [->|Hn].
  - rewrite lookup_alter_eq in Hi. apply fmap_Some in Hi as (x & Hi & ->). exists x. split_and!; [done|by destruct x as [[] ?]|by intros []].
  - rewrite lookup_alter_ne in Hi by done. exists x'. split_and!; [done|done|by intros []].
Qed.

Lemma from_insert P r seq m m1 :
  rows_within P m m1 -> rows_from P (Some (o_blob_id r)) m (insert_row (MkRow r seq) m1).
Proof.
  intros H. exists (fresh (dom m1)). intros i x Hi Hx. apply lookup_insert_row in Hi as [[-> ->]|[_ Hi]]; [by left|].
  right. by apply H.
Qed.

Lemma from_insert_marker P r seq m m1 :
  o_blob_id r = EmptyString -> rows_within P m m1 -> rows_from P None m (insert_row (MkRow r seq) m1).
Proof.
  intros Hr H. apply from_within. intros i x Hi Hx. apply lookup_insert_row in Hi as [[-> ->]|[_ Hi]]; [done|]. by apply H.
Qed.

(** The rows an install removes. *)
Definition replaced (v : VersioningState) (b k : string) (x : ObjRow) : Prop :=
  at_key b k x /\ match v with Unversioned => True | Enabled => False | Suspended => version_is None x end.

Lemma within_weaken (P Q : ObjRow -> Prop) m m' : (forall x, Q x -> P x) -> rows_within P m m' -> rows_within Q m m'.
Proof. intros HQ H i x Hi Hx. destruct (H i x Hi Hx) as (y & ? & ? & Hn). exists y. split_and!; [done..|]. naive_solver. Qed.

Lemma installed_from v uuid seq r m :
  rows_from (replaced v (o_bucket r) (o_key r)) (Some (o_blob_id r)) m (installed_rows v uuid seq r m).
Proof.
  assert (forall vid, o_blob_id (inserted_columns (as_current vid r)) = o_blob_id r) as Hb by by destruct r.
  unfold installed_rows. destruct v.
  - assert (rows_from (replaced Unversioned (o_bucket r) (o_key r)) (Some (o_blob_id r)) m
      (insert_row (MkRow (inserted_columns (as_current None r)) seq) (delete_where (fun x => at_key (o_bucket r) (o_key r) x) m))).
    { rewrite <- (Hb None). apply from_insert. eapply within_weaken; [|apply within_delete]. by intros x [? _]. }
    destruct (o_is_tombstone r); [|done]. eapply from_then; [done|apply within_recompute].
  - rewrite <- (Hb (Some uuid)). eapply from_then; [|apply within_recompute]. apply from_insert.
    eapply within_weaken; [|apply within_unlatest]. by intros x [_ []].
  - rewrite <- (Hb None). eapply from_then; [|apply within_recompute]. apply from_insert.
    eapply within_then; [|apply within_unlatest]. eapply within_weaken; [|apply within_delete]. by intros x [? ?].
Qed.

Lemma deleted_from v c now uuid seq b k owner m :
  (v = Unversioned -> is_some (query_row (fun x => at_key b k x /\ latest x) m) = true) ->
  rows_from (replaced v b k) None m (deleted_rows v c now uuid seq b k owner m).
Proof.
  intros Hv. unfold deleted_rows. destruct v.
  - rewrite (Hv eq_refl). apply from_within. destruct c.
    + eapply within_then; [|apply within_recompute]. eapply within_weaken; [|apply within_tombstones]. by intros x [? _].
    + eapply within_weaken; [|apply within_delete]. by intros x [? _].
  - apply from_insert_marker; [done|]. eapply within_weaken; [|apply within_unlatest]. by intros x [_ []].
  - apply from_insert_marker; [done|]. eapply within_then; [|apply within_unlatest].
    eapply within_weaken; [|apply within_delete]. by intros x [? ?].
Qed.

(** ** Calls of the database *)

(** What the rows of [s'] hold they held in [s], but for one that holds [new]; the
    blobs [freed], held in [s], they no longer hold. *)
Definition moves (new : option string) (freed : list string) (s s' : MetaStore) : Prop :=
  (exists h0, forall h b, holds s' h b -> (h = h0 /\ new = Some b) \/ (holds s h b /\ b ∉ freed)) /\
  forall d, d ∈ freed -> d = EmptyString \/ exists h, holds s h d.

Lemma moves_refl s : moves None [] s s.
Proof. split; [|by intros d ?%elem_of_nil]. exists (HRow 0). intros h b Hb. right. split; [done|]. apply not_elem_of_nil. Qed.

Lemma moves_same s s' : ms_objects s' = ms_objects s -> ms_parts s' = ms_parts s -> moves None [] s s'.
Proof.
  intros Eo Ep. split; [|by intros d ?%elem_of_nil]. exists (HRow 0). intros h b Hb. right.
  split; [|apply not_elem_of_nil]. unfold holds in *. by rewrite Eo, Ep in Hb.
Qed.

Lemma moves_none s s' new freed h b : moves new freed s s' -> new = None -> holds s' h b -> holds s h b /\ b ∉ freed.
Proof. intros [[h0 H] _] -> Hb. by destruct (H h b Hb) as [[_ ?]|?]. Qed.

Lemma moves_trans s1 s2 s3 new l1 l2 :
  moves new l1 s1 s2 -> moves None l2 s2 s3 ->
  (forall d, d ∈ l2 -> d = EmptyString \/ exists h, holds s1 h d) -> moves new (l1 ++ l2) s1 s3.
Proof.
  intros [[h0 H1] F1] H2 F2. split.
  - exists h0. intros h b Hb. destruct (moves_none _ _ _ _ h b H2 eq_refl Hb) as [Hb2 Hn2].
    destruct (H1 h b Hb2) as [?|[? ?]]; [by left|right]. split; [done|]. rewrite elem_of_app. tauto.
  - intros d [?|?]%elem_of_app; auto.
Qed.

Lemma rows_moves P new l s s' :
  rows_from P new (ms_objects s) (ms_objects s') -> ms_parts s' = ms_parts s -> single s ->
  (forall d, d ∈ l -> d = EmptyString \/ exists j y, ms_objects s !! j = Some y /\ P y /\ row_blob y = d) ->
  moves new l s s'.
Proof.
  intros [i0 Hr] Hp Hs Hl.
  assert (forall d, d ∈ l -> d = EmptyString \/ exists j y, holds s (HRow j) d /\ ms_objects s !! j = Some y /\ P y) as Hl'.
  { intros d Hd. destruct (Hl d Hd) as [?|(j & y & Hj & Hy & <-)]; [by left|].
    destruct (decide (row_blob y = EmptyString)); [by left|right]. exists j, y. split_and!; [|done..]. split; [done|]. cbn. by rewrite Hj. }
  split; [|intros d Hd; destruct (Hl' d Hd) as [?|(j & y & ? & _)]; eauto].
  exists (HRow i0). intros h b [Hb Hh]. destruct h as [i|id]; cbn in Hh.
  - apply fmap_Some in Hh as (x' & Hi & ->). destruct (Hr i x' Hi Hb) as [[-> ->]|(x & Hx & E & Hn)]; [by left|right].
    assert (holds s (HRow i) (row_blob x')) as Hh by (split; [done|]; cbn; rewrite Hx; cbn; by rewrite E).
    split; [done|]. intros Hin. destruct (Hl' _ Hin) as [?|(j & y & Hj & Hy & Py)]; [done|].
    assert (HRow j = HRow i) as [= ->] by by apply (Hs _ _ (row_blob x')). congruence.
  - right. rewrite Hp in Hh. assert (holds s (HPart id) b) as Hh' by done. split; [done|]. intros Hin.
    destruct (Hl' _ Hin) as [?|(j & y & Hj & _)]; [done|]. by assert (HRow j = HPart id) by by apply (Hs _ _ b).
Qed.

Lemma single_moves new l s s' :
  moves new l s s' -> single s -> (forall b h, new = Some b -> ~ holds s h b) -> single s'.
Proof.
  intros [[h0 H] _] Hs Hn h h' b Hb Hb'.
  destruct (H h b Hb) as [[-> E]|[Hb1 _]], (H h' b Hb') as [[-> E']|[Hb1' _]]; [done|naive_solver..|by apply (Hs _ _ b)].
Qed.

Abbreviation old_blobs old := (o_blob_id <$> option_list old).

Lemma query_blob (P : ObjRow -> Prop) `{!forall x, Decision (P x)} (Q : ObjRow -> Prop) m old d :
  (forall x, P x -> Q x) -> without_parts ∘ row_rec <$> query_row P m = old -> d ∈ old_blobs old ->
  d = EmptyString \/ exists j y, m !! j = Some y /\ Q y /\ row_blob y = d.
Proof.
  intros HQ <- Hd. destruct (query_row P m) as [x|] eqn:E; cbn in Hd; [|by apply elem_of_nil in Hd].
  apply list_elem_of_singleton in Hd as ->. apply query_row_Some in E as [Hp [i Hi]]. right. exists i, x.
  split_and!; [done|by apply HQ|by destruct x as [[] ?]].
Qed.

Lemma row_held (P : ObjRow -> Prop) s d :
  (d = EmptyString \/ exists j y, ms_objects s !! j = Some y /\ P y /\ row_blob y = d) ->
  d = EmptyString \/ exists i, holds s (HRow i) d.
Proof.
  intros [?|(j & y & Hj & _ & <-)]; [by left|]. destruct (decide (row_blob y = EmptyString)); [by left|right].
  exists j. split; [done|]. cbn. by rewrite Hj.
Qed.

Lemma tags_same b k v tags s :
  let s' := (write_object_tags b k v tags s).1 in ms_objects s' = ms_objects s /\ ms_parts s' = ms_parts s.
Proof.
  unfold write_object_tags, act_bind. cbn -[act_for insert_tag].
  apply (act_for_inv _ (fun s' => ms_objects s' = ms_objects s /\ ms_parts s' = ms_parts s)); [|by destruct s].
  intros t s2 _ [E1 E2]. unfold insert_tag. destruct (ms_object_tags s2 !! _); [done|]. by destruct s2.
Qed.

Lemma write_tags_moves {E} (f : DbError -> E) b k v tags s c :
  moves None [] s (when c (map_err f (write_object_tags b k v tags)) s).1.
Proof.
  destruct (tags_same b k v tags s) as [Eo Ep]. destruct c; cbn [when]; [|apply moves_refl].
  rewrite map_err_state. by apply moves_same.
Qed.

Lemma installed_evaluates uuid r pre s s' x :
  install_object uuid r pre s = (s', Ok x) -> write_evaluate pre (get_object (o_bucket r) (o_key r) s) = Ok tt.
Proof.
  intros H. destruct (write_evaluate pre (get_object (o_bucket r) (o_key r) s)) as [[]|c|] eqn:Hw; [done|..].
  - by rewrite (install_object_err _ _ _ _ _ Hw) in H.
  - unfold install_object in H. change fetch_current_object with get_object in H.
    unfold act_bind at 1 in H. cbn [gets] in H. unfold act_bind at 1 in H. rewrite Hw in H.
    destruct (w_is_empty pre) eqn:E; [|done]. by rewrite (write_evaluate_empty _ _ E) in Hw.
Qed.

Lemma install_moves uuid r pre s s' rec old :
  install_object uuid r pre s = (s', Ok (rec, old)) -> single s ->
  moves (Some (o_blob_id r)) (old_blobs old) s s' /\
  (forall d, d ∈ old_blobs old -> d = EmptyString \/ exists i, holds s (HRow i) d) /\ ms_parts s' = ms_parts s.
Proof.
  intros H Hs. pose proof (installed_evaluates _ _ _ _ _ _ H) as Hw.
  destruct (install_object_ok uuid r pre s _ eq_refl Hw) as (s1 & H1 & Hb). rewrite H in H1. injection H1 as <- -> ->.
  apply objects_become_fields in Hb as (Ho & _ & _ & _ & _ & _ & Hp).
  set (P := replaced (get_versioning_state (o_bucket r) s) (o_bucket r) (o_key r)).
  assert (forall d, d ∈ old_blobs (overwritten (get_versioning_state (o_bucket r) s) (o_bucket r) (o_key r) s) ->
    d = EmptyString \/ exists j y, ms_objects s !! j = Some y /\ P y /\ row_blob y = d) as Hd.
  { intros d. unfold P. destruct (get_versioning_state (o_bucket r) s); cbn.
    - eapply query_blob; [|reflexivity]. by intros x [? _].
    - by intros ?%elem_of_nil.
    - eapply query_blob; [|reflexivity]. by intros x (? & ? & _). }
  split_and!; [|by intros d Hd'; eapply row_held, Hd|done].
  apply (rows_moves P); [|done..]. rewrite Ho. apply installed_from.
Qed.

Lemma atomic_state {A} op resource (m : mact CasError A) s s' r :
  map_cas_result op resource (atomically m) s = (s', r) -> is_ok r = false -> s' = s.
Proof.
  unfold map_cas_result, map_err, atomically. destruct (m s) as [s1 [x|e|]]; intros H Hr; simplify_eq; done.
Qed.

Lemma put_moves uuid r pre tags s s' old vid :
  put_object_tagged_if uuid r pre tags s = (s', Ok (old, vid)) -> single s ->
  moves (Some (o_blob_id r)) (old_blobs old) s s'.
Proof.
  intros (s0 & rec & Hi & _ & Ht)%put_ok_steps Hs. destruct (install_moves _ _ _ _ _ _ _ Hi Hs) as (Hm & _).
  rewrite <- (app_nil_r (old_blobs old)). eapply moves_trans; [exact Hm| |by intros d ?%elem_of_nil].
  pose proof (write_tags_moves Db (o_bucket rec) (o_key rec) (coalesce_version rec) tags s0 (negb (bool_decide (tags = [])))) as H.
  by rewrite Ht in H.
Qed.

Lemma elem_of_upload_parts u s p : p ∈ upload_parts u s <-> exists n, ms_parts s !! (u, n) = Some p.
Proof.
  unfold upload_parts. rewrite list_elem_of_fmap. split.
  - intros ([[u' n] p'] & -> & [E Hp]%elem_of_map_to_list%map_lookup_filter_Some). cbn in Hp. subst u'. by exists n.
  - intros [n Hn]. exists (u, n, p). split; [done|]. by apply elem_of_map_to_list, map_lookup_filter_Some.
Qed.

Lemma upload_part_held u s d :
  d ∈ (pt_blob_id <$> upload_parts u s) -> d = EmptyString \/ exists n, holds s (HPart (u, n)) d.
Proof.
  intros (p & -> & [n Hn]%elem_of_upload_parts)%list_elem_of_fmap.
  destruct (decide (pt_blob_id p = EmptyString)); [by left|right]. exists n. split; [done|]. cbn. by rewrite Hn.
Qed.

Lemma take_upload_moves u s :
  single s -> moves None (pt_blob_id <$> upload_parts u s) s (take_upload (E:=ArcaError) u s).1.
Proof.
  intros Hs. split; [|intros d [?|[n ?]]%upload_part_held; eauto]. exists (HRow 0). intros h b [Hb Hh]. right.
  assert (holds s h b /\ (forall n, h <> HPart (u, n))) as [Hh' Hn].
  { destruct h as [i|id]; [by destruct s|]. unfold holds. destruct s; cbn in *. apply fmap_Some in Hh as (p & Hp & ->).
    apply map_lookup_filter_Some in Hp as [Hp Hu]. split; [|intros n [= ->]; done]. split; [done|]. by rewrite Hp. }
  split; [done|]. intros [?|[n Hd]]%upload_part_held; [done|]. by apply (Hn n), (Hs _ _ b).
Qed.

(** The steps of the transaction of a completion. *)
Lemma complete_ok_steps uuid u r pre tags s s' done :
  complete_multipart_object_tagged uuid u r pre tags s = (s', Ok done) ->
  exists s0 rec s2, install_object uuid r pre s = (s0, Ok (rec, cu_old done)) /\
    ms_objects s2 = ms_objects s0 /\ ms_parts s2 = ms_parts s0 /\ same_tables s0 s2 /\
    s' = (take_upload (E:=ArcaError) u s2).1 /\ cu_parts done = upload_parts u s2.
Proof.
  unfold complete_multipart_object_tagged, map_cas_result, map_err at 1, atomically. intros H.
  destruct (act_bind _ _ s) as [s1 [x|e|]] eqn:E; simplify_eq.
  apply act_bind_ok in E as (s1 & up & [= <- <-] & E). destruct (get_multipart_upload u s); [|done].
  apply act_bind_ok in E as (s1 & [] & [= <-] & E). apply act_bind_ok in E as (s0 & [rec old] & Hi & E).
  apply act_bind_ok in E as (s2 & [] & Ht & E). apply act_bind_ok in E as (s3 & parts & [= <- <-] & [= <- <-]).
  exists s0, rec, s2. cbn [cu_old cu_parts].
  pose proof (tags_same (o_bucket rec) (o_key rec) (coalesce_version rec) tags s0) as [E1 E2].
  destruct (write_object_tags_write (o_bucket rec) (o_key rec) (coalesce_version rec) tags s0) as [_ E3].
  cbn in Ht. destruct (negb (bool_decide (tags = []))); cbn [when] in Ht; [|by injection Ht as <-].
  rewrite <- (map_err_state Db), Ht in E1, E2, E3. by split_and!.
Qed.

Lemma complete_moves uuid u r pre tags s s' done :
  complete_multipart_object_tagged uuid u r pre tags s = (s', Ok done) -> single s ->
  (forall h, ~ holds s h (o_blob_id r)) ->
  moves (Some (o_blob_id r)) (old_blobs (cu_old done) ++ (pt_blob_id <$> cu_parts done)) s s' /\
  cu_parts done = upload_parts u s /\
  forall d, d ∈ old_blobs (cu_old done) -> d = EmptyString \/ exists i, holds s (HRow i) d.
Proof.
  intros (s0 & rec & s2 & Hi & Eo & Ep & _ & -> & ->)%complete_ok_steps Hs Hn.
  destruct (install_moves _ _ _ _ _ _ _ Hi Hs) as (Hm & Hd & Hp). set (old := cu_old done) in *.
  assert (moves (Some (o_blob_id r)) (old_blobs old) s s2) as Hm2.
  { rewrite <- (app_nil_r (old_blobs old)). eapply moves_trans; [exact Hm|by apply moves_same|by intros d ?%elem_of_nil]. }
  assert (upload_parts u s2 = upload_parts u s) as Eu by (unfold upload_parts; by rewrite Ep, Hp).
  assert (single s2) as Hs2 by (eapply single_moves; [exact Hm2|done|naive_solver]).
  split_and!; [|done|done].
  eapply moves_trans; [exact Hm2|by apply take_upload_moves|]. rewrite Eu. intros d [?|[n ?]]%upload_part_held; eauto.
Qed.

Lemma put_part_moves p s :
  single s -> (forall h, ~ holds s h (pt_blob_id p)) ->
  let id := (pt_upload_id p, pt_part_number p) in
  moves (Some (pt_blob_id p)) (pt_blob_id <$> option_list (ms_parts s !! id)) s (put_part p s).1.
Proof.
  intros Hs Hn id. split.
  - exists (HPart id). intros h b Hb. destruct (decide (h = HPart id)) as [->|Hh].
    + left. split; [done|]. destruct Hb as [_ Hb]. destruct s; cbn in Hb. unfold id in Hb. by rewrite lookup_insert_eq in Hb.
    + right. assert (holds s h b) as Hb'.
      { destruct Hb as [Hb Hb']. split; [done|]. destruct h as [i|id']; destruct s; cbn in *; [done|].
        by rewrite lookup_insert_ne in Hb' by (intros E; apply Hh; unfold id; by rewrite E). }
      split; [done|]. intros Hin. destruct (ms_parts s !! id) as [q|] eqn:Eq; cbn in Hin; [|by apply elem_of_nil in Hin].
      apply list_elem_of_singleton in Hin as ->. apply Hh, (Hs _ _ (pt_blob_id q)); [done|]. destruct Hb' as [? _].
      split; [done|]. cbn. by rewrite Eq.
  - intros d Hin. destruct (ms_parts s !! id) as [q|] eqn:Eq; cbn in Hin; [|by apply elem_of_nil in Hin].
    apply list_elem_of_singleton in Hin as ->. destruct (decide (pt_blob_id q = EmptyString)); [by left|right].
    exists (HPart id). split; [done|]. cbn. by rewrite Eq.
Qed.

(** *** Deletes *)

Lemma delete_latest_moves c now uuid b k pre owner s s' old :
  delete_latest_in_tx c now uuid b k pre owner s = (s', Ok old) -> single s -> moves None (old_blobs old) s s'.
Proof.
  intros H Hs. destruct (delete_evaluate pre (get_latest_object b k s)) as [[]|e|] eqn:Hd.
  - destruct (delete_latest_ok c now uuid b k pre owner s _ eq_refl Hd) as (s1 & H1 & Hb). rewrite H in H1.
    injection H1 as <- ->. apply objects_become_fields in Hb as (Ho & _ & _ & _ & _ & _ & Hp).
    destruct (get_versioning_state b s) eqn:Hv.
    + unfold get_latest_object in *. cbn [delete_result] in *. unfold get_latest_object.
      destruct (query_row (fun x => at_key b k x /\ latest x) (ms_objects s)) as [x|] eqn:Eq.
      * apply (rows_moves (replaced Unversioned b k)); [|done..|].
        -- rewrite Ho. apply deleted_from. by rewrite Eq.
        -- intros d. rewrite <- Eq. eapply query_blob; [|reflexivity]. by intros y [? _].
      * apply moves_same; [|done]. rewrite Ho. unfold deleted_rows. by rewrite Eq.
    + apply (rows_moves (replaced Enabled b k)); [|done..|].
      * rewrite Ho. by apply deleted_from.
      * cbn. intros d ->%list_elem_of_singleton. by left.
    + apply (rows_moves (replaced Suspended b k)); [|done..|].
      * rewrite Ho. by apply deleted_from.
      * intros d. eapply query_blob; [|reflexivity]. by intros y (? & ? & _).
  - unfold delete_latest_in_tx in H. apply act_bind_ok in H as (s1 & cur & [= <- <-] & H).
    apply act_bind_ok in H as (s1 & [] & H & _). change fetch_latest_object with get_latest_object in H.
    by rewrite evaluate_delete_eq, Hd in H.
  - unfold delete_latest_in_tx in H. apply act_bind_ok in H as (s1 & cur & [= <- <-] & H).
    apply act_bind_ok in H as (s1 & [] & H & _). change fetch_latest_object with get_latest_object in H.
    by rewrite evaluate_delete_eq, Hd in H.
Qed.

Lemma delete_version_moves c now b k v pre s s' old :
  delete_version_in_tx c now b k v pre s = (s', Ok old) -> single s -> moves None (old_blobs old) s s'.
Proof.
  intros H Hs. rewrite (delete_version_eq c now b k v pre s _ eq_refl) in H.
  destruct (version_delete_check pre (get_object_version b k v s)) as [u|e|]; [|done..]. injection H as <- <-.
  destruct (get_object_version b k v s) as [r|] eqn:E; cbn [is_some]; [|apply moves_refl].
  apply (rows_moves (fun x => at_key b k x /\ version_is (version_ref v) x)); [|by destruct s|done|].
  - apply from_within. unfold version_deleted. destruct s as [bu ob sq bc bt ot up pa]. cbn.
    unfold version_deleted_rows. eapply within_then; [|apply within_recompute].
    destruct c; [apply within_tombstones|apply within_delete].
  - intros d. rewrite <- E. eapply query_blob; [|reflexivity]. by intros y (? & ? & _).
Qed.

Lemma cas_ok {A} op resource (m : mact CasError A) s s' x :
  map_cas_result op resource (atomically m) s = (s', Ok x) -> m s = (s', Ok x).
Proof. unfold map_cas_result, map_err, atomically. by destruct (m s) as [? []]; intros; simplify_eq. Qed.

(** A call that either answers [old] and moves its blob out, or changes nothing. *)
Definition removes (s s' : MetaStore) (r : outcome ArcaError (option ObjectRecord)) : Prop :=
  match r with Ok old => moves None (old_blobs old) s s' | _ => s' = s end.

Lemma removes_cas op resource (m : mact CasError (option ObjectRecord)) s :
  (forall s' old, m s = (s', Ok old) -> moves None (old_blobs old) s s') ->
  removes s (map_cas_result op resource (atomically m) s).1 (map_cas_result op resource (atomically m) s).2.
Proof.
  intros H. destruct (map_cas_result op resource (atomically m) s) as [s' r] eqn:E. cbn. destruct r as [old|e|]; cbn.
  - by apply H, (cas_ok op resource).
  - by apply (atomic_state op resource m s s' (Err e)).
  - by apply (atomic_state op resource m s s' Panic).
Qed.

Lemma delete_entry_removes c b owner e s :
  single s -> removes s (delete_entry c b owner e s).1 (delete_entry c b owner e s).2.
Proof.
  intros Hs. destruct e as [entry [now uuid]]. unfold delete_entry. destruct (bd_version_id entry) as [v|];
    apply removes_cas; intros s' old H; [by eapply delete_version_moves|by eapply delete_latest_moves].
Qed.

Definition batch_blobs (rs : list (outcome ArcaError (option ObjectRecord))) : list string :=
  rs ≫= fun r => match r with Ok old => old_blobs old | _ => [] end.

Lemma delete_batch_moves c b owner es s :
  single s -> moves None (batch_blobs (delete_objects_if c b owner es s).2) s (delete_objects_if c b owner es s).1.
Proof.
  revert s. induction es as [|e es IH]; intros s Hs; [apply moves_refl|]. cbn.
  pose proof (delete_entry_removes c b owner e s Hs) as H1. destruct (delete_entry c b owner e s) as [s1 r]. cbn in H1.
  assert (moves None (match r with Ok old => old_blobs old | _ => [] end) s s1) as Hm
    by (destruct r; [done|cbn in H1; rewrite H1; apply moves_refl..]).
  assert (single s1) as Hs1 by (eapply single_moves; [exact Hm|done..]). specialize (IH s1 Hs1).
  destruct (delete_objects_if c b owner es s1) as [s2 rs]. cbn in IH |- *. unfold batch_blobs in *. cbn.
  eapply moves_trans; [done..|]. intros d Hd. destruct IH as [_ Hh]. destruct (Hh d Hd) as [?|[h Hh']]; [by left|right].
  exists h. by eapply moves_none.
Qed.

(** ** A logic for handlers *)

Section logic.
(** What a handler keeps, whatever it answers, and a preorder of steps that keep it. *)
Context (inv : AppState -> Prop) (calm : AppState -> AppState -> Prop).
Hypothesis calm_refl : forall a, calm a a.
Hypothesis calm_trans : forall a b c, calm a b -> calm b c -> calm a c.

Definition triple {E A : Type} (P : AppState -> Prop) (m : hact E A) (Q : A -> AppState -> Prop) : Prop :=
  forall a, P a -> match m a with (a', Ok x) => Q x a' | (a', _) => inv a' end.

Definition quiet {E A : Type} (m : hact E A) : Prop := forall a, calm a (m a).1.

Definition stable (P : AppState -> Prop) : Prop := forall a a', calm a a' -> P a -> P a'.

Lemma quiet_bind {E A B} (m : hact E A) (f : A -> hact E B) : quiet m -> (forall x, quiet (f x)) -> quiet (act_bind m f).
Proof.
  intros Hm Hf a. pose proof (Hm a) as Ha. unfold act_bind. destruct (m a) as [a1 [x|e|]]; [|done..].
  eapply calm_trans; [exact Ha|apply Hf].
Qed.

Lemma quiet_reads {E A} (m : hact E A) : (forall a, (m a).1 = a) -> quiet m.
Proof. intros H a. by rewrite H. Qed.

Lemma quiet_ret {E A} (x : A) : quiet (act_ret x : hact E A).
Proof. by apply quiet_reads. Qed.

Lemma quiet_fail {E A} (e : E) : quiet (act_fail e : hact E A).
Proof. by apply quiet_reads. Qed.

Lemma quiet_ask {E A} (f : AppState -> A) : quiet (ask f : hact E A).
Proof. by apply quiet_reads. Qed.

Lemma quiet_lift {E E' A} (f : E -> E') (r : outcome E A) : quiet (lift f r).
Proof. by apply quiet_reads. Qed.

Lemma quiet_panic {E A} : quiet ((fun a => (a, Panic)) : hact E A).
Proof. by apply quiet_reads. Qed.

Lemma quiet_logged {E} (m : hact E unit) : quiet m -> quiet (logged m).
Proof. intros H a. unfold logged. specialize (H a). by destruct (m a). Qed.

Lemma quiet_for {E A} (f : A -> hact E unit) l : (forall x, quiet (f x)) -> quiet (act_for f l).
Proof. intros H a. apply (act_for_inv _ (calm a)); [|done]. intros x b _ Hb. eapply calm_trans; [done|apply H]. Qed.

Lemma triple_quiet {E A} (P : AppState -> Prop) (m : hact E A) :
  quiet m -> stable P -> (forall a, P a -> inv a) -> triple P m (fun _ => P).
Proof.
  intros Hm Hp Hi a Ha. specialize (Hm a). destruct (m a) as [a' [x|e|]]; [|apply Hi..]; by apply (Hp a).
Qed.

Lemma triple_bind {E A B} (P : AppState -> Prop) (m : hact E A) (f : A -> hact E B) Q R :
  triple P m Q -> (forall x, triple (Q x) (f x) R) -> triple P (act_bind m f) R.
Proof.
  intros Hm Hf a Ha. specialize (Hm a Ha). unfold act_bind. destruct (m a) as [a1 [x|e|]]; [|done..].
  by apply Hf.
Qed.

Lemma bind_quiet {E A B} (P : AppState -> Prop) (m : hact E A) (f : A -> hact E B) R :
  quiet m -> stable P -> (forall a, P a -> inv a) -> (forall x, triple P (f x) R) -> triple P (act_bind m f) R.
Proof. intros Hm Hp Hi. by apply triple_bind, triple_quiet. Qed.

Lemma triple_end {E A} P (m : hact E A) Q a : triple P m Q -> P a -> (forall x a', Q x a' -> inv a') -> inv (m a).1.
Proof. intros H Ha Hq. specialize (H a Ha). destruct (m a) as [a' [x|e|]]; [by apply Hq in H|done..]. Qed.

Lemma triple_weaken {E A} (P P' : AppState -> Prop) (m : hact E A) (Q Q' : A -> AppState -> Prop) :
  triple P m Q -> (forall a, P' a -> P a) -> (forall x a, Q x a -> Q' x a) -> triple P' m Q'.
Proof. intros H HP HQ a Ha. specialize (H a (HP a Ha)). destruct (m a) as [a' [x|e|]]; [by apply HQ|done..]. Qed.

Lemma triple_for {E A} P (f : A -> hact E unit) l :
  (forall a, P a -> inv a) -> (forall x, x ∈ l -> triple P (f x) (fun _ => P)) -> triple P (act_for f l) (fun _ => P).
Proof.
  intros Hi. induction l as [|x l IH]; intros H; cbn; [by intros a Ha|].
  eapply triple_bind; [apply H; by left|]. intros u. apply IH. intros y Hy. apply H. by right.
Qed.
End logic.

Create HintDb quiet.

(** Calls made of quiet calls, for a given preorder. *)
Ltac quiet_tac refl trans :=
  repeat first
    [ progress intros
    | solve [auto 2 with quiet]
    | apply (quiet_bind _ trans)
    | apply (quiet_reads _ refl); done
    | apply quiet_logged
    | apply (quiet_for _ refl trans)
    | case_match ].

(** ** Files *)

Section files.
(** The parts the sidecar of a blob names; no blob has the empty id. *)
Context (parts_of : string -> list string).
Hypothesis parts_of_empty : parts_of EmptyString = [].

Definition files (b : string) : list string := b :: parts_of b.

(** What the blob store was asked to remove. *)
Definition removed (a : AppState) (f : string) : Prop :=
  (exists b, b ∈ app_deleted_blobs a /\ f ∈ files b) \/ f ∈ app_discarded a.

(** Every file has one holder, and none that is held was removed. *)
Record blobs_ok (a : AppState) : Prop := {
  bo_once : forall h h' b b' f, holds (app_meta a) h b -> holds (app_meta a) h' b' ->
    f ∈ files b -> f ∈ files b' -> h = h';
  bo_kept : forall h b f, holds (app_meta a) h b -> f ∈ files b -> f <> EmptyString /\ ~ removed a f;
}.

Lemma holds_fun s h b b' : holds s h b -> holds s h b' -> b = b'.
Proof. intros [_ H] [_ H']. destruct h; congruence. Qed.

Lemma blobs_ok_single a : blobs_ok a -> single (app_meta a).
Proof. intros [H _] h h' b Hb Hb'. eapply H; [exact Hb|exact Hb'|by left..]. Qed.

(** No row needs a file of [d]. *)
Definition free_blob (d : string) (a : AppState) : Prop :=
  forall h b f, holds (app_meta a) h b -> f ∈ files b -> f ∉ files d.

(** A fresh id. *)
Definition unused (id : string) (a : AppState) : Prop :=
  id <> EmptyString /\ ~ removed a id /\ forall h b, holds (app_meta a) h b -> id ∉ files b.

Definition calm (a a' : AppState) : Prop :=
  (forall h b, holds (app_meta a') h b -> holds (app_meta a) h b) /\
  app_deleted_blobs a' = app_deleted_blobs a /\ app_discarded a' = app_discarded a.

Lemma calm_refl a : calm a a.
Proof. by split_and!. Qed.

Lemma calm_trans a b c : calm a b -> calm b c -> calm a c.
Proof. intros (H1 & E1 & F1) (H2 & E2 & F2). split_and!; [auto|congruence..]. Qed.

Lemma calm_removed a a' f : calm a a' -> removed a' f <-> removed a f.
Proof. intros (_ & E1 & E2). unfold removed. by rewrite E1, E2. Qed.

Lemma stable_blobs_ok : stable calm blobs_ok.
Proof.
  intros a a' Hc [H1 H2]. pose proof Hc as (Hh & _). split.
  - intros h h' b b' f Hb Hb'. by apply H1; apply Hh.
  - intros h b f Hb Hf. rewrite calm_removed by done. eapply H2; [by apply Hh|done].
Qed.

Lemma stable_unused id : stable calm (unused id).
Proof.
  intros a a' Hc (H1 & H2 & H3). pose proof Hc as (Hh & _). split_and!; [done|by rewrite (calm_removed a a')|].
  intros h b Hb. by eapply H3, Hh.
Qed.

Lemma stable_free d : stable calm (free_blob d).
Proof. intros a a' (Hh & _) H h b f Hb. by eapply H, Hh. Qed.

Lemma stable_and P Q : stable calm P -> stable calm Q -> stable calm (fun a => P a /\ Q a).
Proof. intros HP HQ a a' Hc [? ?]. split; [by apply (HP a)|by apply (HQ a)]. Qed.

Lemma stable_all {A} (l : list A) (P : A -> AppState -> Prop) :
  (forall x, stable calm (P x)) -> stable calm (fun a => forall x, x ∈ l -> P x a).
Proof. intros HP a a' Hc H x Hx. by apply (HP x a), H. Qed.

Lemma unused_free id a : blobs_ok a -> unused id a -> parts_of id = [] -> free_blob id a.
Proof. intros _ (_ & _ & Hn) Hp h b f Hb Hf. unfold files. rewrite Hp. intros ->%list_elem_of_singleton. by eapply Hn. Qed.

Lemma free_empty a : blobs_ok a -> free_blob EmptyString a.
Proof.
  intros [_ H] h b f Hb Hf. unfold files at 1. rewrite parts_of_empty. intros ->%list_elem_of_singleton.
  by destruct (H h b EmptyString Hb Hf).
Qed.

(** The effect of a call of the database on the files. *)
Lemma moves_blobs_ok new l a a' :
  blobs_ok a -> moves new l (app_meta a) (app_meta a') ->
  app_deleted_blobs a' = app_deleted_blobs a -> app_discarded a' = app_discarded a ->
  (forall b, new = Some b -> (forall f, f ∈ files b -> f <> EmptyString /\ ~ removed a f) /\
    (forall h b' f, holds (app_meta a) h b' -> b' ∉ l -> holds (app_meta a') h b' -> f ∈ files b -> f ∉ files b')) ->
  blobs_ok a' /\ forall d, d ∈ l -> (forall b, new = Some b -> forall f, f ∈ files b -> f ∉ files d) -> free_blob d a'.
Proof.
  intros Hok [[h0 Hm] Hl] Ed Es Hnew. pose proof Hok as [Hone Hkept].
  assert (forall f, removed a' f <-> removed a f) as Hr by (intros f; unfold removed; by rewrite Ed, Es).
  split; [split|].
  - intros h h' b b' f Hb Hb' Hf Hf'.
    destruct (Hm h b Hb) as [[-> E]|[Hb1 Hn]], (Hm h' b' Hb') as [[-> E']|[Hb1' Hn']]; [done|..].
    + exfalso. destruct (Hnew b E) as [_ Hx]. by eapply Hx.
    + exfalso. destruct (Hnew b' E') as [_ Hx]. by eapply Hx.
    + by eapply Hone.
  - intros h b f Hb Hf. rewrite Hr. destruct (Hm h b Hb) as [[-> E]|[Hb1 _]]; [by apply (Hnew b E)|by eapply Hkept].
  - intros d Hd Hnd h b f Hb Hf Hfd. destruct (Hm h b Hb) as [[-> E]|[Hb1 Hn]]; [by apply (Hnd b E f)|].
    destruct (Hl d Hd) as [->|[hd Hhd]]; [by eapply (free_empty a Hok)|].
    assert (h = hd) as -> by by eapply Hone. apply Hn. by rewrite (holds_fun _ _ _ _ Hb1 Hhd).
Qed.

Lemma moves_out l a a' :
  blobs_ok a -> moves None l (app_meta a) (app_meta a') ->
  app_deleted_blobs a' = app_deleted_blobs a -> app_discarded a' = app_discarded a ->
  blobs_ok a' /\ forall d, d ∈ l -> free_blob d a'.
Proof. intros Hok Hm Ed Es. destruct (moves_blobs_ok None l a a') as [H1 H2]; [done..|]. split; [done|]. intros d Hd. by apply H2. Qed.

(** A plain blob comes in. *)
Lemma moves_in id l a a' :
  blobs_ok a -> unused id a -> parts_of id = [] -> moves (Some id) l (app_meta a) (app_meta a') ->
  app_deleted_blobs a' = app_deleted_blobs a -> app_discarded a' = app_discarded a ->
  blobs_ok a' /\ forall d, d ∈ l -> free_blob d a'.
Proof.
  intros Hok Hu Hp Hm Ed Es. pose proof Hu as (Hne & Hnr & Hnh).
  assert (forall f, f ∈ files id -> f = id) as Hf by (intros f; unfold files; rewrite Hp; by intros ?%list_elem_of_singleton).
  destruct (moves_blobs_ok (Some id) l a a') as [H1 H2]; [done..| |].
  - intros b [= <-]. split; [intros f ->%Hf; done|]. intros h b' f Hb' _ _ ->%Hf. by eapply Hnh.
  - split; [done|]. intros d Hd. apply H2; [done|]. intros b [= <-] f ->%Hf Hfd. destruct Hm as [_ Hl].
    destruct (Hl d Hd) as [->|[h Hh]].
    + unfold files in Hfd. rewrite parts_of_empty in Hfd. by apply list_elem_of_singleton in Hfd.
    + by eapply Hnh.
Qed.

(** ** Quiet calls *)

Lemma quiet_meta {E A} (m : act MetaStore E A) : (forall s, moves None [] s (m s).1) -> quiet calm (on_meta m).
Proof.
  intros H a. unfold on_meta. specialize (H (app_meta a)). destruct (m (app_meta a)) as [s r]. cbn in *.
  split_and!; [|done..]. cbn. intros h b Hb. by eapply moves_none.
Qed.

Lemma quiet_meta_same {E A} (m : act MetaStore E A) :
  (forall s, ms_objects (m s).1 = ms_objects s) -> (forall s, ms_parts (m s).1 = ms_parts s) -> quiet calm (on_meta m).
Proof. intros Ho Hp. apply quiet_meta. intros s. by apply moves_same. Qed.

Lemma quiet_same_meta {E A} (m : hact E A) :
  (forall a, app_meta (m a).1 = app_meta a /\ app_deleted_blobs (m a).1 = app_deleted_blobs a /\ app_discarded (m a).1 = app_discarded a) ->
  quiet calm m.
Proof. intros H a. destruct (H a) as (E1 & E2 & E3). split_and!; [|done..]. by rewrite E1. Qed.

Lemma moves_update_target b k v f s :
  (forall r, o_blob_id (f r) = o_blob_id r) -> moves None [] s (update_target b k v f s).1.
Proof.
  intros Hf. split; [|by intros d ?%elem_of_nil]. exists (HRow 0). intros h b' [Hb Hh]. right. split; [|apply not_elem_of_nil].
  split; [done|]. destruct h as [i|id]; destruct s as [bu ob sq bc bt ot up pa]; cbn -[update_where] in Hh |- *; [|done].
  rewrite lookup_update_where in Hh. destruct (ob !! i) as [x|]; [|done]. cbn in *. case_decide; [|done].
  by unfold row_blob in *; cbn in *; rewrite Hf in Hh.
Qed.

Lemma quiet_retention now b k v mode until : quiet calm (on_meta (set_object_retention now b k v mode until)).
Proof. apply quiet_meta. intros s. apply moves_update_target. by intros []. Qed.

Lemma quiet_legal_hold now b k v st : quiet calm (on_meta (set_object_legal_hold now b k v st)).
Proof. apply quiet_meta. intros s. apply moves_update_target. by intros []. Qed.

Lemma moves_update_objects {E} (P : ObjRow -> Prop) `{!forall x, Decision (P x)} f s :
  (forall x, row_blob (f x) = row_blob x) -> moves None [] s (update_objects (E:=E) P f s).1.
Proof.
  intros Hf. split; [|by intros d ?%elem_of_nil]. exists (HRow 0). intros h b' [Hb Hh]. right. split; [|apply not_elem_of_nil].
  split; [done|]. destruct h as [i|id]; destruct s as [bu ob sq bc bt ot up pa]; cbn -[update_where] in Hh |- *; [|done].
  rewrite lookup_update_where in Hh. destruct (ob !! i) as [x|]; [|done]. cbn in *. case_decide; [|done]. by rewrite Hf in Hh.
Qed.

Lemma quiet_replication_status b k v st : quiet calm (on_meta (set_object_replication_status b k v st)).
Proof.
  apply quiet_meta. intros s. unfold set_object_replication_status, act_bind.
  assert (forall x, row_blob (map_row (set_replication_status st) x) = row_blob x) as Hf by by intros [[] ?].
  destruct v as [v|].
  - pose proof (moves_update_objects (E:=ArcaError) (fun x => at_key b k x /\ version_is (Some v) x) _ s Hf) as H.
    by destruct (update_objects _ _ s) as [? []].
  - pose proof (moves_update_objects (E:=ArcaError) (fun x => at_key b k x /\ version_is None x /\ latest x) _ s Hf) as H.
    by destruct (update_objects _ _ s) as [? []].
Qed.

Lemma quiet_put_tags b k v tags : quiet calm (on_meta (put_object_tags b k v tags)).
Proof.
  apply quiet_meta. intros s. unfold put_object_tags, internal. rewrite map_err_state.
  apply (atomically_state (moves None [] s)); [apply moves_refl|]. destruct (tags_same b k v tags s). by apply moves_same.
Qed.

Lemma quiet_delete_tags b k v : quiet calm (on_meta (delete_object_tags b k v)).
Proof. apply quiet_meta_same; by intros []. Qed.

Lemma quiet_set_config now b ck cv : quiet calm (on_meta (set_bucket_config now b ck cv)).
Proof. apply quiet_meta_same; by intros []. Qed.

Lemma quiet_delete_config b ck : quiet calm (on_meta (delete_bucket_config b ck)).
Proof. apply quiet_meta_same; by intros []. Qed.

Lemma quiet_create_bucket now b owner : quiet calm (on_meta (create_bucket_owned now b owner)).
Proof. apply quiet_meta_same; intros []; unfold create_bucket_owned; by case_match. Qed.

Lemma quiet_delete_bucket b : quiet calm (on_meta (MetadataStore.delete_bucket b)).
Proof. apply quiet_meta_same; by intros []. Qed.

Lemma quiet_create_upload r : quiet calm (on_meta (MetadataStore.create_multipart_upload r)).
Proof. apply quiet_meta_same; intros []; unfold MetadataStore.create_multipart_upload; by case_match. Qed.

Lemma quiet_journal {E A} (m : act Journal E A) : quiet calm (on_journal m).
Proof. apply quiet_same_meta. intros a. unfold on_journal. by destruct (m (app_journal a)). Qed.

Lemma quiet_set_cache {E} c : quiet calm (set_cache (E:=E) c).
Proof. by apply quiet_same_meta. Qed.

Lemma quiet_event {E} e : quiet calm (emit_event (E:=E) e).
Proof. by apply quiet_same_meta. Qed.

Lemma quiet_audit {E} n : quiet calm (write_audit (E:=E) n).
Proof. by apply quiet_same_meta. Qed.

#[local] Hint Resolve quiet_retention quiet_legal_hold quiet_replication_status quiet_put_tags
  quiet_delete_tags quiet_set_config quiet_delete_config quiet_create_bucket quiet_delete_bucket quiet_create_upload
  quiet_journal quiet_set_cache quiet_event quiet_audit : quiet.

Ltac quiets := quiet_tac calm_refl calm_trans.

Context {http : HttpLib} {crypto : SigCrypto} {codecs : BodyCodecs} {lib : LockLib} {wlib : WriteLib}.
Context {rjson : ReplicationJson}.

Lemma quiet_require_bucket b resource : quiet calm (require_bucket b resource).
Proof. unfold require_bucket. quiets. Qed.

Lemma quiet_read_body {A} e (b : Body A) : quiet calm (read_body e b).
Proof. unfold read_body. quiets. Qed.
#[local] Hint Resolve quiet_require_bucket quiet_read_body : quiet.

Lemma quiet_emit now instant uuids headers b k v ev tags :
  quiet calm (emit_and_stamp now instant uuids headers b k v ev tags).
Proof.
  unfold emit_and_stamp, replication_enabled_for, maybe_emit, invalidate_bucket_replication_cache. quiets.
Qed.
#[local] Hint Resolve quiet_emit : quiet.

Lemma quiet_resolve_tagging b k q resource : quiet calm (resolve_version_for_tagging b k q resource).
Proof. unfold resolve_version_for_tagging. quiets. Qed.
#[local] Hint Resolve quiet_resolve_tagging : quiet.

Lemma quiet_put_object_tagging d b k q headers body : quiet calm (put_object_tagging d b k q headers body).
Proof. unfold put_object_tagging. quiets. Qed.

Lemma quiet_delete_object_tagging b k q : quiet calm (delete_object_tagging b k q).
Proof. unfold delete_object_tagging. quiets. Qed.

Lemma quiet_put_object_retention now b k v headers body : quiet calm (put_object_retention now b k v headers body).
Proof. unfold put_object_retention. quiets. Qed.

Lemma quiet_put_object_legal_hold now b k v body : quiet calm (put_object_legal_hold now b k v body).
Proof. unfold put_object_legal_hold. quiets. Qed.

Lemma quiet_create_multipart_upload d b k rq : quiet calm (ObjectWrites.create_multipart_upload d b k rq).
Proof. unfold ObjectWrites.create_multipart_upload, ssec_multipart. quiets. Qed.

Lemma quiet_put_conditions headers b k resource : quiet calm (put_conditions headers b k resource).
Proof. unfold put_conditions, precondition_failed_at. quiets. Qed.

Lemma quiet_copy_source headers b k v resource : quiet calm (copy_source headers b k v resource).
Proof. unfold copy_source, precondition_failed_at. quiets. Qed.

Lemma quiet_write_blob env io key stream f resource : quiet calm (write_blob env io key stream f resource).
Proof. unfold write_blob, stored. quiets. Qed.

Lemma quiet_read_source env io src key resource : quiet calm (read_source env io src key resource).
Proof. unfold read_source, stored. quiets. Qed.

Lemma quiet_upload_of b k u resource : quiet calm (upload_of b k u resource).
Proof. unfold upload_of. quiets. Qed.

Lemma quiet_announce d name record v headers tags : quiet calm (announce d name record v headers tags).
Proof. unfold announce. quiets. Qed.

Lemma quiet_complete_conditions b k pre resource : quiet calm (check_complete_conditionals b k pre resource).
Proof. unfold check_complete_conditionals. quiets. Qed.

Lemma quiet_evaluated pre r resource : quiet calm (evaluated pre r resource).
Proof. unfold evaluated. quiets. Qed.
#[local] Hint Resolve quiet_put_object_tagging quiet_delete_object_tagging quiet_put_object_retention quiet_put_object_legal_hold
  quiet_create_multipart_upload quiet_put_conditions quiet_copy_source quiet_write_blob quiet_read_source quiet_upload_of
  quiet_announce quiet_complete_conditions quiet_evaluated : quiet.

(** ** Deleting blobs *)

Abbreviation keeps P m Q := (triple blobs_ok P m Q).

Lemma blob_delete_ok d a : blobs_ok a -> free_blob d a -> blobs_ok (blob_delete (E:=ArcaError) d a).1.
Proof.
  intros [H1 H2] Hd. split; [done|]. intros h b f Hb Hf. destruct (H2 h b f Hb Hf) as [Hn Hr]. split; [done|].
  intros [(b' & [->|Hb']%elem_of_cons & Hf')|Hs].
  - by eapply Hd.
  - apply Hr. left. eauto.
  - apply Hr. by right.
Qed.

Lemma blob_discard_ok d a :
  blobs_ok a -> (forall h b, holds (app_meta a) h b -> d ∉ files b) -> blobs_ok (blob_discard (E:=ArcaError) d a).1.
Proof.
  intros [H1 H2] Hd. split; [done|]. intros h b f Hb Hf. destruct (H2 h b f Hb Hf) as [Hn Hr]. split; [done|].
  intros [Hx|[->|Hs]%elem_of_cons].
  - apply Hr. by left.
  - by eapply Hd.
  - apply Hr. by right.
Qed.

(** Blobs that are free stay free while they are deleted. *)
Definition owed (l : list string) (a : AppState) : Prop := blobs_ok a /\ forall d, d ∈ l -> free_blob d a.

Lemma stable_owed l : stable calm (owed l).
Proof. apply stable_and; [apply stable_blobs_ok|]. apply (stable_all l free_blob). apply stable_free. Qed.

Lemma delete_owed d l : d ∈ l -> keeps (owed l) (blob_delete (E:=ArcaError) d) (fun _ => owed l).
Proof. intros Hd a [Hok Hf]. split; [apply blob_delete_ok; [done|by apply Hf]|]. done. Qed.

Lemma delete_old_owed old l : old_blobs old ⊆ l -> keeps (owed l) (delete_old old) (fun _ => owed l).
Proof.
  intros Hl. destruct old as [r|]; cbn; [|by intros a Ha]. apply delete_owed, Hl. cbn. by left.
Qed.

Lemma delete_all_owed {A} (g : A -> string) xs l :
  (g <$> xs) ⊆ l -> keeps (owed l) (act_for (fun x => blob_delete (E:=ArcaError) (g x)) xs) (fun _ => owed l).
Proof.
  intros Hl. apply triple_for; [by intros a [? _]|]. intros x Hx. apply delete_owed, Hl, list_elem_of_fmap. eauto.
Qed.

Lemma owed_done {A} l (m : hact ArcaError A) : quiet calm m -> keeps (owed l) m (fun _ => blobs_ok).
Proof.
  intros Hm. eapply triple_weaken; [apply (triple_quiet blobs_ok calm); [exact Hm|apply stable_owed|by intros a [? _]]|done|by intros x a [? _]].
Qed.

(** ** Fresh blobs *)

Definition fresh_blob (id : string) (a : AppState) : Prop := blobs_ok a /\ unused id a.

Lemma stable_fresh id : stable calm (fresh_blob id).
Proof. apply stable_and; [apply stable_blobs_ok|apply stable_unused]. Qed.

Lemma fresh_ok id a : fresh_blob id a -> blobs_ok a.
Proof. by intros [? _]. Qed.

(** The next call of the handler is quiet. *)
Ltac pass := apply (bind_quiet blobs_ok calm); [solve [quiets]|first [apply stable_fresh|apply stable_owed]|by intros ? [? _]|intros].

Lemma keeps_fail {A} P e Q : (forall a, P a -> blobs_ok a) -> keeps P (act_fail e : hact ArcaError A) Q.
Proof. intros H a Ha. by apply H. Qed.

Lemma sidecar_frame io id meta (R : AppState -> Prop) :
  keeps (fun a => fresh_blob id a /\ R a) (write_sidecar_or_discard io id meta) (fun _ a => fresh_blob id a /\ R a).
Proof.
  intros a [Ha HR]. pose proof Ha as [Hok (_ & _ & Hn)]. unfold write_sidecar_or_discard.
  destruct (io_write_sidecar io meta); [done| |done]. by apply blob_discard_ok.
Qed.

Lemma sidecar_keeps io id meta : keeps (fresh_blob id) (write_sidecar_or_discard io id meta) (fun _ => fresh_blob id).
Proof. eapply triple_weaken; [apply (sidecar_frame io id meta (fun _ => True))|by intros a Ha|by intros x a [? _]]. Qed.

Lemma discard_fresh id a : fresh_blob id a -> parts_of id = [] -> blobs_ok (blob_delete (E:=ArcaError) id a).1.
Proof. intros [Hok Hu] Hp. apply blob_delete_ok; [done|]. by apply unused_free. Qed.

Lemma verified_keeps {A} id (r : outcome S3Error A) :
  parts_of id = [] ->
  keeps (fresh_blob id)
    (match r with
     | Ok c => act_ret c
     | Err e => act_bind (blob_delete id) (fun _ => act_fail (S3 e))
     | Panic => fun a => (a, Panic)
     end) (fun _ => fresh_blob id).
Proof. intros Hp a Ha. destruct r; [done| |by apply fresh_ok in Ha]. by apply discard_fresh. Qed.

Lemma stored_keeps id codes uuid record pre tags :
  parts_of id = [] -> o_blob_id record = id ->
  keeps (fresh_blob id) (refused codes (blob_delete id) (on_meta (put_object_tagged_if uuid record pre tags)))
    (fun done => owed (old_blobs done.1)).
Proof.
  intros Hp Hid a Ha. pose proof Ha as [Hok Hu]. unfold refused, on_meta.
  destruct (put_object_tagged_if uuid record pre tags (app_meta a)) as [s' r] eqn:E.
  assert (is_ok r = false -> s' = app_meta a) as Hs by by apply (atomic_state _ _ _ _ _ _ E).
  destruct r as [[old vid]|e|]; cbn.
  - apply (moves_in id _ a); [done..| |done|done]. cbn. rewrite <- Hid. eapply put_moves; [exact E|by apply blobs_ok_single].
  - rewrite (Hs eq_refl). destruct e as [e|msg|msg]; [|apply (stable_blobs_ok a); done..].
    case_bool_decide; [|by apply (stable_blobs_ok a)].
    apply (discard_fresh id); [|done]. by apply (stable_fresh id a).
  - rewrite (Hs eq_refl). by apply (stable_blobs_ok a).
Qed.

Lemma unrefused_keeps id uuid record pre tags :
  parts_of id = [] -> o_blob_id record = id ->
  keeps (fresh_blob id) (on_meta (put_object_tagged_if uuid record pre tags)) (fun done => owed (old_blobs done.1)).
Proof.
  intros Hp Hid a Ha. pose proof (stored_keeps id [] uuid record pre tags Hp Hid a Ha) as H. unfold refused in H.
  destruct (on_meta _ a) as [a' [x|[e|msg|msg]|]]; done.
Qed.

(** What PutObject and CopyObject do once the row is stored. *)
Lemma announce_keeps {A} (done : option ObjectRecord * option string) d name record headers tags (f : option ReplicationStatus -> A) :
  keeps (owed (old_blobs done.1))
    (act_bind (delete_old done.1) (fun _ =>
       act_bind (announce d name record done.2 headers tags) (fun st => act_ret (f st)))) (fun _ => blobs_ok).
Proof.
  eapply triple_bind; [by apply delete_old_owed|]. intros u. apply owed_done. quiets.
Qed.

Lemma put_object_body_keeps env io d b k rq :
  parts_of (io_blob_id io) = [] ->
  keeps (fresh_blob (io_blob_id io)) (put_object_body env io d b k rq) (fun _ => blobs_ok).
Proof.
  intros Hp. unfold put_object_body. repeat pass. eapply triple_bind; [by apply verified_keeps|intros checksum].
  eapply triple_bind; [apply sidecar_keeps|intros u]. pass.
  eapply triple_bind; [by apply stored_keeps|intros done]. apply announce_keeps.
Qed.

Lemma copy_object_keeps env io d b k rq :
  parts_of (io_blob_id io) = [] ->
  keeps (fresh_blob (io_blob_id io)) (copy_object env io d b k rq) (fun _ => blobs_ok).
Proof.
  intros Hp. unfold copy_object. destruct (parse_copy_source _) as [[[sb sk] sv]|]; [|apply keeps_fail, fresh_ok].
  repeat pass. eapply triple_bind; [apply sidecar_keeps|intros u].
  eapply triple_bind; [|intros done; apply announce_keeps]. by apply unrefused_keeps.
Qed.

(** ** Parts *)

Lemma store_part_keeps io d u n p checksum :
  parts_of (io_blob_id io) = [] -> keeps (fresh_blob (io_blob_id io)) (store_part io d u n p checksum) (fun _ => blobs_ok).
Proof.
  intros Hp a [Hok Hu]. unfold store_part, act_bind, on_meta. cbn [put_part]. set (part := Build_PartRecord _ _ _ _ _ _ _).
  pose proof (put_part_moves part (app_meta a) (blobs_ok_single a Hok)) as Hm.
  destruct (moves_in (io_blob_id io) (pt_blob_id <$> option_list (ms_parts (app_meta a) !! (u, n))) a
    (MkApp (put_part part (app_meta a)).1 (app_ids a) (app_journal a) (app_replication_cache a) (app_deleted_blobs a)
       (app_events a) (app_audit a) (app_discarded a))) as [Hok' Hf]; [done..| |done|done|].
  { apply Hm. intros h Hh. destruct Hu as (_ & _ & Hn). apply (Hn _ _ Hh). by left. }
  change (ms_parts (app_meta a) !! (pt_upload_id part, pt_part_number part)) with (ms_parts (app_meta a) !! (u, n)).
  destruct (ms_parts (app_meta a) !! (u, n)) as [q|]; [|done]. apply blob_delete_ok; [done|]. apply Hf. cbn. by left.
Qed.

Lemma upload_part_keeps env io d b k n u rq :
  parts_of (io_blob_id io) = [] ->
  keeps (fresh_blob (io_blob_id io)) (upload_part env io d b k n u rq) (fun _ => blobs_ok).
Proof.
  intros Hp. unfold upload_part, ssec_multipart. case_match; [apply keeps_fail, fresh_ok|]. case_match; [apply keeps_fail, fresh_ok|].
  repeat pass. eapply triple_bind; [by apply verified_keeps|intros checksum].
  eapply triple_bind; [apply sidecar_keeps|intros v].
  eapply triple_bind; [by apply store_part_keeps|]. by intros w a Ha.
Qed.

Lemma upload_part_copy_keeps io d b k n u rq :
  parts_of (io_blob_id io) = [] ->
  keeps (fresh_blob (io_blob_id io)) (upload_part_copy io d b k n u rq) (fun _ => blobs_ok).
Proof.
  intros Hp. unfold upload_part_copy, ssec_multipart, invalid_copy_source. case_match; [apply keeps_fail, fresh_ok|].
  destruct (parse_copy_source _) as [[[sb sk] sv]|]; [|apply keeps_fail, fresh_ok].
  repeat pass. eapply triple_bind; [apply sidecar_keeps|intros v].
  eapply triple_bind; [by apply store_part_keeps|]. by intros w a Ha.
Qed.

Lemma abort_upload_keeps u :
  keeps blobs_ok (act_bind (on_meta (delete_multipart_upload u)) (fun parts => act_for (fun p => blob_delete (pt_blob_id p)) parts))
    (fun _ => blobs_ok).
Proof.
  eapply triple_bind with (Q := fun parts => owed (pt_blob_id <$> parts)).
  - intros a Hok. apply (moves_out _ a); [done| |done..]. apply (take_upload_moves u). by apply blobs_ok_single.
  - intros parts. eapply triple_weaken; [by apply delete_all_owed|done|]. by intros x a [? _].
Qed.

Lemma abort_multipart_upload_keeps b k u : keeps blobs_ok (abort_multipart_upload b k u) (fun _ => blobs_ok).
Proof.
  unfold abort_multipart_upload. apply (bind_quiet blobs_ok calm); [quiets|apply stable_blobs_ok|done|].
  intros [up|]; [apply abort_upload_keeps|by apply keeps_fail].
Qed.

(** ** Completion of an upload *)

(** The sidecar of an assembled blob names parts only when it is a composite, and
    only blobs of the concatenation. *)
Definition concat_ok (io : BlobIO) : Prop :=
  forall ids p f, io_concat io ids = Ok p -> f ∈ parts_of (io_blob_id io) ->
    is_some (bp_composite_parts p) = true /\ f ∈ ids /\ f <> EmptyString.

(** Between the two halves of the handler: the parts are still the upload's. *)
Definition assembled (id u : string) (m : Assembled) (a : AppState) : Prop :=
  fresh_blob id a /\ o_blob_id (as_record m) = id /\
  forall f, f ∈ parts_of id -> as_is_composite m = true /\ exists n, holds (app_meta a) (HPart (u, n)) f.

Lemma match_parts_incl stored_parts requested resource l :
  match_parts stored_parts requested resource = Ok l -> l ⊆ stored_parts.
Proof.
  revert l. induction requested as [|p requested IH]; cbn; intros l H; [injection H as <-; apply list_subseteq_nil|].
  destruct (List.find _ stored_parts) as [q|] eqn:E; [|done]. case_bool_decide; [done|].
  destruct (match_parts stored_parts requested resource) as [l'|e|]; [|done..]. cbn in H. injection H as <-.
  intros x [->|Hx]%elem_of_cons; [|by apply (IH l')]. apply List.find_some in E as [E _]. by apply list_elem_of_In.
Qed.

Lemma list_parts_held u s f :
  f ∈ (pt_blob_id <$> list_parts u s) -> f <> EmptyString -> exists n, holds s (HPart (u, n)) f.
Proof.
  intros (p & -> & Hp)%list_elem_of_fmap Hf. unfold list_parts in Hp. rewrite elem_of_sorted_by in Hp.
  destruct (upload_part_held u s (pt_blob_id p)) as [?|?]; [|done..]. apply list_elem_of_fmap. eauto.
Qed.

(** A call that reads, while a fact about the state is kept. *)
Ltac read := apply (bind_quiet blobs_ok eq); [by intros ?|by intros ? ? <-|by intros ? [[? _] ?] || by intros ? [? _]|intros].

Lemma assemble_keeps io d b k u rq body upload :
  concat_ok io ->
  keeps (fresh_blob (io_blob_id io)) (assemble io d b k u rq body upload) (fun m => assembled (io_blob_id io) u m).
Proof.
  intros Hc. unfold assemble. repeat pass. case_match; [apply keeps_fail, fresh_ok|].
  eapply triple_bind with (Q := fun l a => fresh_blob (io_blob_id io) a /\ l = list_parts u (app_meta a)); [by intros a Ha|].
  intros l. apply (triple_bind blobs_ok) with
    (Q := fun matched a => fresh_blob (io_blob_id io) a /\ matched ⊆ list_parts u (app_meta a)).
  { intros a [Ha ->]. unfold lift. destruct (match_parts _ _ _) eqn:E; [|by apply fresh_ok in Ha..].
    split; [done|]. by eapply match_parts_incl. }
  intros matched. case_match; [apply keeps_fail; by intros a [[? _] _]|]. read.
  apply (triple_bind blobs_ok) with (Q := fun p a => fresh_blob (io_blob_id io) a /\
    forall f, f ∈ parts_of (io_blob_id io) -> is_some (bp_composite_parts p) = true /\ exists n, holds (app_meta a) (HPart (u, n)) f).
  { intros a [Ha Hm]. unfold stored, lift. destruct (io_concat io _) as [p|e|] eqn:E; [|by apply fresh_ok in Ha..].
    split; [done|]. intros f Hf. destruct (Hc _ p f E Hf) as (? & Hin & Hne). split; [done|].
    apply list_parts_held; [|done]. apply list_elem_of_fmap in Hin as (q & -> & Hq). apply list_elem_of_fmap. eauto. }
  intros p. read. eapply triple_bind; [apply sidecar_frame|]. intros v a [Ha Hf]. by split_and!.
Qed.

(** The transaction: a composite takes over the parts of the upload. *)
Lemma complete_takes_over u uuid m a s' done :
  assembled (o_blob_id (as_record m)) u m a ->
  complete_multipart_object_tagged uuid u (as_record m) (as_pre m) (as_tags m) (app_meta a) = (s', Ok done) ->
  owed (old_blobs (cu_old done) ++ (if as_is_composite m then [] else pt_blob_id <$> cu_parts done))
    (MkApp s' (app_ids a) (app_journal a) (app_replication_cache a) (app_deleted_blobs a) (app_events a) (app_audit a)
       (app_discarded a)).
Proof.
  intros ([Hok Hu] & _ & Hparts) E. set (id := o_blob_id (as_record m)) in *. pose proof Hu as (Hne & Hnr & Hnh).
  pose proof (blobs_ok_single a Hok) as Hs. pose proof Hok as [Hone Hkept].
  assert (forall h, ~ holds (app_meta a) h id) as Hnid by (intros h Hh; apply (Hnh _ _ Hh); by left).
  destruct (complete_moves _ _ _ _ _ _ _ _ E Hs Hnid) as (Hm & Eparts & Hold).
  set (l := old_blobs (cu_old done) ++ (pt_blob_id <$> cu_parts done)) in *.
  assert (forall n f, holds (app_meta a) (HPart (u, n)) f -> f ∈ l) as Hl.
  { intros n f [_ Hf]. apply elem_of_app. right. rewrite Eparts. cbn in Hf. apply fmap_Some in Hf as (q & Hq & ->).
    apply list_elem_of_fmap. exists q. split; [done|]. apply elem_of_upload_parts. eauto. }
  destruct (moves_blobs_ok (Some id) l a (MkApp s' (app_ids a) (app_journal a) (app_replication_cache a)
    (app_deleted_blobs a) (app_events a) (app_audit a) (app_discarded a))) as [Hok' Hfree]; [done..| |].
  { intros b [= <-]. split.
    - intros f [->|Hf]%elem_of_cons; [done|]. destruct (Hparts f Hf) as (_ & n & Hn). apply (Hkept _ _ f Hn). by left.
    - intros h b' f Hb' Hnl _ [->|Hf]%elem_of_cons; [by eapply Hnh|]. intros Hfb. destruct (Hparts f Hf) as (_ & n & Hn).
      assert (h = HPart (u, n)) as -> by (eapply Hone; [exact Hb'|exact Hn|done|by left]).
      apply Hnl, (Hl n). by rewrite (holds_fun _ _ _ _ Hb' Hn) in Hb' |- *. }
  split; [done|]. intros dd Hd. apply Hfree.
  { apply elem_of_app. apply elem_of_app in Hd as [Hd|Hd]; [by left|right]. by destruct (as_is_composite m); [apply elem_of_nil in Hd|]. }
  intros b [= <-] f [->|Hf]%elem_of_cons Hfd.
  - destruct Hm as [_ Hheld]. destruct (Hheld dd) as [->|[h Hh]].
    + apply elem_of_app. apply elem_of_app in Hd as [Hd|Hd]; [by left|right]. by destruct (as_is_composite m); [apply elem_of_nil in Hd|].
    + unfold files in Hfd. rewrite parts_of_empty in Hfd. by apply list_elem_of_singleton in Hfd.
    + by eapply Hnh.
  - destruct (Hparts f Hf) as (Hcomp & n & Hn). rewrite Hcomp, app_nil_r in Hd. destruct (Hold dd Hd) as [->|[i Hi]].
    + by eapply (free_empty a Hok (HPart (u, n)) f f Hn); [left|].
    + by assert (HPart (u, n) = HRow i) by (eapply Hone; [exact Hn|exact Hi|by left|done]).
Qed.

Lemma commit_keeps d u rq id m : keeps (assembled id u m) (commit_assembled d u rq m) (fun _ => blobs_ok).
Proof.
  unfold commit_assembled. eapply triple_bind with
    (Q := fun done => owed (old_blobs (cu_old done) ++ (if as_is_composite m then [] else pt_blob_id <$> cu_parts done))).
  - intros a Ha. pose proof Ha as (Hfr & <- & _). unfold refused, on_meta.
    destruct (complete_multipart_object_tagged _ _ _ _ _ (app_meta a)) as [s' r] eqn:E.
    assert (is_ok r = false -> s' = app_meta a) as Hs by by apply (atomic_state _ _ _ _ _ _ E).
    destruct r as [done|e|]; cbn; [by eapply complete_takes_over|..]; rewrite (Hs eq_refl).
    + destruct e as [e|msg|msg]; [|apply (stable_blobs_ok a); [done|apply Hfr]..].
      case_bool_decide; [|apply (stable_blobs_ok a); [done|apply Hfr]]. destruct Hfr as [Hok (_ & _ & Hn)].
      apply blob_discard_ok; [by apply (stable_blobs_ok a)|exact Hn].
    + apply (stable_blobs_ok a); [done|apply Hfr].
  - intros done. eapply triple_bind; [apply delete_old_owed; intros x Hx; apply elem_of_app; by left|intros v].
    eapply triple_bind with
      (Q := fun _ => owed (old_blobs (cu_old done) ++ (if as_is_composite m then [] else pt_blob_id <$> cu_parts done))).
    + destruct (as_is_composite m); [by intros a Ha|]. apply delete_all_owed. intros x Hx. apply elem_of_app. by right.
    + intros w. apply owed_done. quiets.
Qed.

Lemma complete_multipart_upload_keeps io d b k u rq body :
  concat_ok io ->
  keeps (fresh_blob (io_blob_id io)) (complete_multipart_upload io d b k u rq body) (fun _ => blobs_ok).
Proof.
  intros Hc. unfold complete_multipart_upload, already_completed. pass.
  match goal with x : option MultipartUploadRecord |- _ => destruct x as [upload|] end.
  - eapply triple_bind; [by apply assemble_keeps|intros m; apply commit_keeps].
  - eapply triple_weaken; [apply (triple_quiet blobs_ok calm (fresh_blob (io_blob_id io))); [quiets|apply stable_fresh|apply fresh_ok]
      |done|intros y a; apply fresh_ok].
Qed.

(** ** Deletes *)

Lemma removes_keeps (m : act MetaStore ArcaError (option ObjectRecord)) :
  (forall s, single s -> removes s (m s).1 (m s).2) -> keeps blobs_ok (on_meta m) (fun old => owed (old_blobs old)).
Proof.
  intros H a Hok. specialize (H (app_meta a) (blobs_ok_single a Hok)). unfold on_meta.
  destruct (m (app_meta a)) as [s' [old|e|]]; cbn in H.
  - by apply (moves_out _ a).
  - subst s'. by apply (stable_blobs_ok a).
  - subst s'. by apply (stable_blobs_ok a).
Qed.

Lemma delete_object_if_keeps c now uuid b k pre owner :
  keeps blobs_ok (on_meta (delete_object_if c now uuid b k pre owner)) (fun old => owed (old_blobs old)).
Proof. apply removes_keeps. intros s Hs. apply removes_cas. intros s' old E. by eapply delete_latest_moves. Qed.

Lemma delete_version_if_keeps c now b k v pre :
  keeps blobs_ok (on_meta (delete_object_version_if c now b k v pre)) (fun old => owed (old_blobs old)).
Proof. apply removes_keeps. intros s Hs. apply removes_cas. intros s' old E. by eapply delete_version_moves. Qed.

Lemma owed_ok l a : owed l a -> blobs_ok a.
Proof. by intros [? _]. Qed.

(** The old blob, unless the row was a marker. *)
Lemma delete_one_keeps {A} (old : option ObjectRecord) r (rest : hact ArcaError A) :
  old = Some r -> quiet calm rest ->
  keeps (owed (old_blobs old)) (act_bind (blob_delete (o_blob_id r)) (fun _ => rest)) (fun _ => blobs_ok).
Proof. intros -> Hq. eapply triple_bind; [apply delete_owed; by left|]. intros u. by apply owed_done. Qed.

Lemma delete_object_keeps c now instant uuid uuids b k v headers owner :
  keeps blobs_ok (ObjectLock.delete_object c now instant uuid uuids b k v headers owner) (fun _ => blobs_ok).
Proof.
  unfold ObjectLock.delete_object. apply (bind_quiet blobs_ok calm); [quiets|apply stable_blobs_ok|done|intros _].
  destruct v as [v|]; [unfold delete_version_handler|unfold delete_current_handler];
    repeat (apply (bind_quiet blobs_ok calm); [solve [quiets]|apply stable_blobs_ok|done|intros ?]);
    (eapply triple_bind; [first [apply delete_version_if_keeps|apply delete_object_if_keeps]|]);
    intros [r|]; try (by intros a Ha; apply owed_ok in Ha).
  - destruct (o_is_delete_marker r); [by intros a Ha; apply owed_ok in Ha|]. apply delete_one_keeps; [done|quiets].
  - destruct (o_is_delete_marker r); [apply owed_done; quiets|by apply (delete_one_keeps (Some r)); [|quiets]].
Qed.

Lemma orphaned_incl rs : orphaned_blobs rs ⊆ batch_blobs rs.
Proof.
  intros x (r & Hr & E)%list_elem_of_omap. apply list_elem_of_bind. exists r. split; [|done].
  destruct r as [[old|]|e|]; [|done..]. destruct (_ || _); [done|]. injection E as <-. by left.
Qed.

Lemma delete_objects_keeps c now stamps b owner body :
  keeps blobs_ok (ObjectLock.delete_objects c now stamps b owner body) (fun _ => blobs_ok).
Proof.
  unfold ObjectLock.delete_objects.
  do 2 (apply (bind_quiet blobs_ok calm); [solve [quiets]|apply stable_blobs_ok|done|intros ?]).
  match goal with x : option (list DeleteObjectReq) |- _ => destruct x as [objs|] end; [|by apply keeps_fail].
  case_match; [by apply keeps_fail|]. apply (bind_quiet blobs_ok calm); [solve [quiets]|apply stable_blobs_ok|done|intros checks].
  eapply triple_bind with (Q := fun rs => owed (batch_blobs rs)).
  { intros a Hok. unfold on_meta.
    pose proof (delete_batch_moves c b owner (zip (batched checks) (stamps <$> seq 0 (length (batched checks)))) (app_meta a)
      (blobs_ok_single a Hok)) as Hm.
    destruct (delete_objects_if c b owner _ (app_meta a)) as [s' rs]. by apply (moves_out _ a). }
  intros rs. eapply triple_bind; [apply (delete_all_owed (fun x => x))|intros u; apply owed_done; quiets].
  rewrite list_fmap_id. apply orphaned_incl.
Qed.

(** ** The lifecycle worker *)

Lemma or_return_keeps {A} (m : hact ArcaError A) k Q :
  keeps blobs_ok m Q -> (forall x, keeps (Q x) (k x) (fun _ => blobs_ok)) -> keeps blobs_ok (or_return m k) (fun _ => blobs_ok).
Proof.
  intros Hm Hk a Ha. specialize (Hm a Ha). unfold or_return. destruct (m a) as [a' [x|e|]]; [|done..]. by apply Hk.
Qed.

Lemma expire_object_keeps c draws b versioned obj :
  keeps blobs_ok (expire_object c draws b versioned obj) (fun _ => blobs_ok).
Proof.
  unfold expire_object. eapply or_return_keeps; [apply delete_object_if_keeps|]. intros [r|]; [|apply owed_done; quiets].
  destruct (_ && _); [|apply owed_done; quiets]. by apply (delete_one_keeps (Some r)); [|quiets].
Qed.

Lemma expire_noncurrent_keeps c draws b obj :
  keeps blobs_ok (expire_noncurrent_version c draws b obj) (fun _ => blobs_ok).
Proof.
  unfold expire_noncurrent_version. destruct (o_version_id obj) as [v|]; [|by intros a Ha].
  destruct (is_object_locked _ _); [by intros a Ha|]. eapply or_return_keeps; [apply delete_version_if_keeps|].
  intros [r|]; [|apply owed_done; quiets]. case_bool_decide; [apply owed_done; quiets|].
  by apply (delete_one_keeps (Some r)); [|quiets].
Qed.

Lemma abort_stale_keeps b upload : keeps blobs_ok (abort_stale_upload b upload) (fun _ => blobs_ok).
Proof.
  unfold abort_stale_upload. eapply or_return_keeps with (Q := fun parts => owed (pt_blob_id <$> parts)).
  - intros a Hok. apply (moves_out _ a); [done| |done..]. apply (take_upload_moves (mu_upload_id upload)). by apply blobs_ok_single.
  - intros parts. eapply triple_bind; [by apply delete_all_owed|]. intros u. apply owed_done. quiets.
Qed.

(** ** Calls *)

Context {ljson : LifecycleJson}.

(** A request or an action of the worker, with what the blob store, the clock and
    the random generator answer during it. *)
Inductive Call : Type :=
  | CPut (env : ServerEnv) (io : BlobIO) (d : Draw) (b k : string) (rq : WriteRequest) (bodies : PutBodies)
  | CPost (io : BlobIO) (d : Draw) (b k : string) (rq : WriteRequest) (body : Body (option (list CompletePart)))
  | CDelete (d : Draw) (b k : string) (rq : WriteRequest)
  | CDeleteObjects (now : Z) (stamps : nat -> Z * string) (b owner : string) (body : Body (list DeleteObjectReq))
  | CCreateBucket (now : Z) (b owner : string) (headers : Headers)
  | CDeleteBucket (b : string)
  | CVersioning (now : Z) (b : string) (body : Body string)
  | CObjectLock (now : Z) (b : string) (body : Body XmlLockConfig)
  | CPutLifecycle (now : Z) (b : string) (body : Body (list XmlLifecycleRule))
  | CDeleteLifecycle (b : string)
  | CPutReplication (now : Z) (b : string) (body : Body XmlReplication)
  | CDeleteReplication (b : string)
  | CExpire (now : Z) (uuid b : string) (versioned : bool) (obj : ObjectRecord)
  | CExpireNoncurrent (now : Z) (b : string) (obj : ObjectRecord)
  | CAbortStale (b : string) (upload : MultipartUploadRecord).

Context (cluster_mode : bool).

Definition call (c : Call) (a : AppState) : AppState :=
  match c with
  | CPut env io d b k rq bodies => (put_object env io d b k rq bodies a).1
  | CPost io d b k rq body => (post_object io d b k rq body a).1
  | CDelete d b k rq => (delete_object_request d cluster_mode b k rq a).1
  | CDeleteObjects now stamps b owner body => (ObjectLock.delete_objects cluster_mode now stamps b owner body a).1
  | CCreateBucket now b owner headers => (ObjectLock.create_bucket now b owner headers a).1
  | CDeleteBucket b => (ObjectLock.delete_bucket b a).1
  | CVersioning now b body => (put_bucket_versioning now b body a).1
  | CObjectLock now b body => (put_object_lock_configuration now b body a).1
  | CPutLifecycle now b body => (put_bucket_lifecycle now b body a).1
  | CDeleteLifecycle b => (delete_bucket_lifecycle b a).1
  | CPutReplication now b body => (put_bucket_replication now b body a).1
  | CDeleteReplication b => (delete_bucket_replication b a).1
  | CExpire now uuid b versioned obj => (expire_object cluster_mode (fun _ => (now, uuid)) b versioned obj a).1
  | CExpireNoncurrent now b obj => (expire_noncurrent_version cluster_mode (fun _ => (now, EmptyString)) b obj a).1
  | CAbortStale b upload => (abort_stale_upload b upload a).1
  end.

(** The blob ids a call draws are new; a blob written in one piece has no parts. *)
Definition draws_fresh (c : Call) (a : AppState) : Prop :=
  match c with
  | CPut env io d b k rq bodies => unused (io_blob_id io) a /\ parts_of (io_blob_id io) = []
  | CPost io d b k rq body => unused (io_blob_id io) a /\ concat_ok io
  | _ => True
  end.

Fixpoint calls (cs : list Call) (a : AppState) : AppState :=
  match cs with [] => a | c :: cs' => calls cs' (call c a) end.

Fixpoint all_fresh (cs : list Call) (a : AppState) : Prop :=
  match cs with [] => True | c :: cs' => draws_fresh c a /\ all_fresh cs' (call c a) end.

Lemma act_map_keeps {A B} (f : A -> B) P (m : hact ArcaError A) :
  keeps P m (fun _ => blobs_ok) -> keeps P (act_map f m) (fun _ => blobs_ok).
Proof. intros H. eapply triple_bind; [exact H|]. by intros x a Ha. Qed.

Lemma quiet_keeps {A} id (m : hact ArcaError A) : quiet calm m -> keeps (fresh_blob id) m (fun _ => blobs_ok).
Proof.
  intros H. eapply triple_weaken; [apply (triple_quiet blobs_ok calm (fresh_blob id)); [exact H|apply stable_fresh|apply fresh_ok]
    |done|intros x a; apply fresh_ok].
Qed.

Lemma put_object_keeps env io d b k rq bodies :
  parts_of (io_blob_id io) = [] ->
  keeps (fresh_blob (io_blob_id io)) (put_object env io d b k rq bodies) (fun _ => blobs_ok).
Proof.
  intros Hp. unfold put_object. do 3 (case_match; [apply act_map_keeps, quiet_keeps; quiets|]). pass.
  assert (forall copy, keeps (fresh_blob (io_blob_id io))
    (act_map PutWritten (if copy : bool then copy_object env io d b k rq else put_object_body env io d b k rq)) (fun _ => blobs_ok)) as Hw.
  { intros []; apply act_map_keeps; [by apply copy_object_keeps|by apply put_object_body_keeps]. }
  destruct (query_param _ "partNumber") as [pn|]; [|apply Hw].
  destruct (query_param _ "uploadId") as [u|]; [|apply Hw].
  destruct (parse_u32 pn) as [n|]; [|apply keeps_fail, fresh_ok].
  case_match; apply act_map_keeps; [by apply upload_part_copy_keeps|by apply upload_part_keeps].
Qed.

Lemma post_object_keeps io d b k rq body :
  concat_ok io -> keeps (fresh_blob (io_blob_id io)) (post_object io d b k rq body) (fun _ => blobs_ok).
Proof.
  intros Hc. unfold post_object. destruct (wq_query rq) as [query|]; [|apply keeps_fail, fresh_ok].
  case_match; [apply act_map_keeps, quiet_keeps; quiets|].
  destruct (query_param query "uploadId"); [|apply keeps_fail, fresh_ok].
  by apply act_map_keeps, complete_multipart_upload_keeps.
Qed.

Lemma delete_request_keeps d b k rq : keeps blobs_ok (delete_object_request d cluster_mode b k rq) (fun _ => blobs_ok).
Proof.
  unfold delete_object_request. case_match.
  - apply act_map_keeps. apply (triple_quiet blobs_ok calm); [quiets|apply stable_blobs_ok|done].
  - destruct (query_param _ "uploadId"); apply act_map_keeps; [apply abort_multipart_upload_keeps|apply delete_object_keeps].
Qed.

Lemma quiet_call {A} (m : hact ArcaError A) a : quiet calm m -> blobs_ok a -> blobs_ok (m a).1.
Proof. intros H. by apply stable_blobs_ok, H. Qed.

Lemma triple_call {A} P (m : hact ArcaError A) a : keeps P m (fun _ => blobs_ok) -> P a -> blobs_ok (m a).1.
Proof. intros H Ha. by eapply triple_end. Qed.

Lemma quiet_create_bucket_handler now b owner headers : quiet calm (ObjectLock.create_bucket now b owner headers).
Proof.
  unfold ObjectLock.create_bucket. apply (quiet_bind _ calm_trans); [quiets|intros _].
  apply (quiet_bind _ calm_trans); [|quiets]. intros a. pose proof (quiet_create_bucket now b owner a) as H.
  by destruct (on_meta (create_bucket_owned now b owner) a).
Qed.

Lemma call_blobs_ok c a : draws_fresh c a -> blobs_ok a -> blobs_ok (call c a).
Proof.
  intros Hf Ha. destruct c; cbn [call draws_fresh] in *.
  - destruct Hf as [Hu Hp]. by eapply triple_call; [apply put_object_keeps|].
  - destruct Hf as [Hu Hc]. by eapply triple_call; [apply post_object_keeps|].
  - by eapply triple_call; [apply delete_request_keeps|].
  - by eapply triple_call; [apply delete_objects_keeps|].
  - apply quiet_call; [apply quiet_create_bucket_handler|done].
  - apply quiet_call; [unfold ObjectLock.delete_bucket; quiets|done].
  - apply quiet_call; [unfold put_bucket_versioning; quiets|done].
  - apply quiet_call; [unfold put_object_lock_configuration; quiets|done].
  - apply quiet_call; [unfold put_bucket_lifecycle; quiets|done].
  - apply quiet_call; [unfold delete_bucket_lifecycle; quiets|done].
  - apply quiet_call; [unfold put_bucket_replication, invalidate_bucket_replication_cache; quiets|done].
  - apply quiet_call; [unfold delete_bucket_replication, invalidate_bucket_replication_cache; quiets|done].
  - by eapply triple_call; [apply expire_object_keeps|].
  - by eapply triple_call; [apply expire_noncurrent_keeps|].
  - by eapply triple_call; [apply abort_stale_keeps|].
Qed.

Lemma calls_blobs_ok cs a : all_fresh cs a -> blobs_ok a -> blobs_ok (calls cs a).
Proof. revert a. induction cs as [|c cs IH]; intros a; [done|]. intros [Hc Hcs] Ha. apply IH; [done|]. by apply call_blobs_ok. Qed.

Lemma query_held (P : ObjRow -> Prop) `{!forall x, Decision (P x)} s r :
  without_parts ∘ row_rec <$> query_row P (ms_objects s) = Some r -> o_blob_id r <> EmptyString ->
  exists i, holds s (HRow i) (o_blob_id r).
Proof.
  intros Hq Hr. destruct (row_held P s (o_blob_id r)) as [?|?]; [|done..].
  eapply query_blob; [|exact Hq|by left]. done.
Qed.

(** C6. No request and no lifecycle action deletes data that is still needed: from a
    server without objects, after any sequence of uploads, copies, multipart uploads,
    deletes, batch deletes, lock, tag and bucket requests and lifecycle actions, every
    object version that can be read, current or not, and every part of an unfinished
    upload still has all its files, those of the parts of a composite included; and no
    file belongs to two of them, so that no later deletion can take it away either. *)
Theorem blobs_never_lost (cs : list Call) (a0 : AppState) :
  ms_objects (app_meta a0) = ∅ -> ms_parts (app_meta a0) = ∅ -> all_fresh cs a0 ->
  let a := calls cs a0 in
  (forall b k v r, get_object b k (app_meta a) = Some r \/ get_object_version b k v (app_meta a) = Some r ->
     o_blob_id r <> EmptyString -> forall f, f ∈ files (o_blob_id r) -> ~ removed a f) /\
  (forall u p, p ∈ list_parts u (app_meta a) -> pt_blob_id p <> EmptyString ->
     forall f, f ∈ files (pt_blob_id p) -> ~ removed a f) /\
  (forall h h' b b' f, holds (app_meta a) h b -> holds (app_meta a) h' b' -> f ∈ files b -> f ∈ files b' -> h = h').
Proof.
  intros Eo Ep Hf a. assert (blobs_ok a) as [Hone Hkept].
  { apply calls_blobs_ok; [done|]. assert (forall h b, ~ holds (app_meta a0) h b) as Hn
      by (intros [i|id] b [_ H]; cbn in H; [rewrite Eo, lookup_empty in H|rewrite Ep, lookup_empty in H]; done).
    split; [intros h h' b b' f Hb|intros h b f Hb]; by destruct (Hn h b). }
  split_and!; [| |exact Hone].
  - intros b k v r Hr Hne f Hfr. assert (exists i, holds (app_meta a) (HRow i) (o_blob_id r)) as [i Hi]
      by (destruct Hr as [Hr|Hr]; by eapply query_held). by eapply Hkept.
  - intros u p Hp Hne f Hfp. destruct (list_parts_held u (app_meta a) (pt_blob_id p)) as [n Hn]; [|done|by eapply Hkept].
    apply list_elem_of_fmap. eauto.
Qed.
End files.
