(* ===== verification/Worm.v ===== *)
(** A version under COMPLIANCE retention cannot be changed or removed before its date.

    [upheld] is what protects the version: its row with a retention that reaches
    the date, versioning and Object Lock of the bucket.  No request and no lifecycle
    action of the node breaks it while the clock is before the date
    ([compliance_retention_holds]): the ones that could, a delete of the version, a
    batch with it, a shorter retention, suspended versioning, the deletion of the
    bucket, are refused. *)

From S2P Require Import Prelude S3Errors Types SqlTable Text BlobRead FsBlob Preconditions MetadataStore MetadataRows MetadataInvariant.
From S2P Require Import MetadataSteps MetadataOps MetadataListing Sigv4 Middleware ChunkedBody UploadIntegrity MultipartChecksum ReplicationRules.
From S2P Require Import ReplicationJournal AppState ObjectLock Lifecycle ObjectWrites HandlerBlobs.

(** What a reader of a version gets, but for its lock, its flags and its replication. *)
Definition content_of (r : ObjectRecord)
  : string * Z * string * option string * Z * gmap string string * option string * option string :=
  (o_blob_id r, o_size r, o_etag r, o_content_type r, o_last_modified r, o_metadata r, o_encryption_algorithm r,
   o_encryption_key_id r).

Section worm.
(** The version, its content, and the date it is retained until. *)
Context (B K V : string) (c : string * Z * string * option string * Z * gmap string string * option string * option string) (u0 : Z).
Hypothesis V_named : V <> "null".

Definition retained (r : ObjectRecord) : Prop :=
  o_retention_mode r = Some "COMPLIANCE" /\ exists until, o_retain_until_date r = Some until /\ (u0 <= until)%Z.

(** The row of the version. *)
Definition protected (x : ObjRow) : Prop :=
  at_key B K x /\ version_is (Some V) x /\ live x /\ not_marker x /\ content_of (row_rec x) = c /\ retained (row_rec x).

Record upheld (s : MetaStore) : Prop := {
  gu_rows : rows_ok (ms_objects s);
  gu_bucket : is_some (ms_buckets s !! B) = true;
  gu_versioning : get_versioning_state B s = Enabled;
  gu_lock : is_some (get_bucket_config B "object_lock" s) = true;
  gu_row : exists i x, ms_objects s !! i = Some x /\ protected x;
}.

(** ** Rows *)

Definition carries (m m' : gmap N ObjRow) : Prop :=
  forall i x, m !! i = Some x -> protected x -> exists x', m' !! i = Some x' /\ protected x'.

Lemma carries_refl m : carries m m.
Proof. intros i x Hi Hx. by exists x. Qed.

Lemma carries_trans m1 m2 m3 : carries m1 m2 -> carries m2 m3 -> carries m1 m3.
Proof. intros H1 H2 i x Hi Hx. destruct (H1 i x Hi Hx) as (y & Hy & Py). by apply (H2 i y). Qed.

Lemma carries_update P `{!forall x, Decision (P x)} f m :
  (forall x, protected x -> P x -> protected (f x)) -> carries m (update_where P f m).
Proof.
  intros Hf i x Hi Hx. rewrite lookup_update_where, Hi. cbn. eexists. split; [done|]. case_decide; [by apply Hf|done].
Qed.

Lemma carries_delete P `{!forall x, Decision (P x)} m : (forall x, protected x -> ~ P x) -> carries m (delete_where P m).
Proof. intros HP i x Hi Hx. exists x. split; [|done]. apply lookup_delete_where. split; [done|by apply HP]. Qed.

Lemma carries_insert x m : carries m (insert_row x m).
Proof.
  intros i y Hi Hy. exists y. split; [|done]. apply lookup_insert_row. right. split; [|done]. intros ->.
  by rewrite insert_row_fresh in Hi.
Qed.

Lemma protected_set_latest l x : protected x -> protected (map_row (set_latest l) x).
Proof. by destruct x as [[] ?]. Qed.

Lemma carries_unlatest b k m : carries m (unlatest b k m).
Proof. apply carries_update. intros x Hx _. by apply protected_set_latest. Qed.

Lemma carries_recompute b k m : carries m (recompute b k m).
Proof.
  unfold recompute. destruct (winner b k (unlatest b k m)) as [j|]; [|apply carries_unlatest].
  eapply carries_trans; [apply carries_unlatest|]. intros i x Hi Hx. destruct (decide (j = i)) as [->|Hn].
  - rewrite lookup_alter_eq, Hi. eexists. split; [done|]. by apply protected_set_latest.
  - rewrite lookup_alter_ne by done. by exists x.
Qed.

Lemma carries_frame b k m m' : frame b k m m' -> (b, k) <> (B, K) -> carries m m'.
Proof. intros Hf Hn i x Hi Hx. exists x. split; [|done]. apply Hf; [|done]. intros [E1 E2].
  destruct Hx as ([E3 E4] & _). apply Hn. congruence.
Qed.

Lemma carries_installed v uuid seq r m : (o_bucket r = B -> v = Enabled) -> carries m (installed_rows v uuid seq r m).
Proof.
  intros Hv. destruct (decide ((o_bucket r, o_key r) = (B, K))) as [[= Hb Hk]|Hn].
  - rewrite (Hv Hb). unfold installed_rows. eapply carries_trans; [apply carries_unlatest|].
    eapply carries_trans; [apply carries_insert|apply carries_recompute].
  - eapply carries_frame; [apply frame_installed|done].
Qed.

Lemma carries_deleted v cm now uuid seq b k owner m :
  (b = B -> v = Enabled) -> carries m (deleted_rows v cm now uuid seq b k owner m).
Proof.
  intros Hv. destruct (decide ((b, k) = (B, K))) as [[= -> ->]|Hn].
  - rewrite (Hv eq_refl). unfold deleted_rows. eapply carries_trans; [apply carries_unlatest|apply carries_insert].
  - eapply carries_frame; [apply frame_deleted|done].
Qed.

Lemma carries_version_deleted cm now seq b k v m :
  (b, k, v) <> (B, K, Some V) -> carries m (version_deleted_rows cm now seq b k v m).
Proof.
  intros Hn. unfold version_deleted_rows. eapply carries_trans; [|apply carries_recompute].
  assert (forall x, protected x -> ~ (at_key b k x /\ version_is v x)) as Hp.
  { intros x ([E1 E2] & E3 & _) [[E4 E5] E6]. apply Hn. congruence. }
  destruct cm; [apply carries_update; intros x Hx HP; by destruct (Hp x Hx)|by apply carries_delete].
Qed.

(** ** Calls of the database *)

Lemma upheld_change s s' :
  upheld s -> rows_ok (ms_objects s') -> carries (ms_objects s) (ms_objects s') -> ms_buckets s' = ms_buckets s ->
  ms_bucket_config s' = ms_bucket_config s -> upheld s'.
Proof.
  intros [H1 H2 H3 H4 (i & x & Hi & Hx)] Hr Hc Eb Ec. split; [done|by rewrite Eb| | |].
  - unfold get_versioning_state. by rewrite Ec.
  - unfold get_bucket_config. by rewrite Ec.
  - destruct (Hc i x Hi Hx) as (x' & ? & ?). by exists i, x'.
Qed.

Lemma upheld_same s s' :
  upheld s -> ms_objects s' = ms_objects s -> ms_buckets s' = ms_buckets s -> ms_bucket_config s' = ms_bucket_config s ->
  upheld s'.
Proof. intros Hg Eo Eb Ec. apply (upheld_change s); rewrite ?Eo; [done|apply Hg|apply carries_refl|done..]. Qed.

Lemma upheld_write s s' : upheld s -> object_write s s' -> carries (ms_objects s) (ms_objects s') -> upheld s'.
Proof.
  intros Hg [Ha (Eb & Ec & _)] Hc. apply (upheld_change s); [done|by apply (adv_rows _ _ Ha), Hg|done..].
Qed.

Lemma installed_carries uuid r pre s s' x :
  upheld s -> install_object uuid r pre s = (s', Ok x) -> carries (ms_objects s) (ms_objects s').
Proof.
  intros Hg H. pose proof (installed_evaluates _ _ _ _ _ _ H) as Hw.
  destruct (install_object_ok uuid r pre s _ eq_refl Hw) as (s1 & H1 & Hb). rewrite H in H1. injection H1 as <- _.
  apply objects_become_fields in Hb as (-> & _). apply carries_installed. intros ->. apply Hg.
Qed.

Lemma put_upheld uuid r pre tags s :
  fresh_version (o_bucket r) (o_key r) uuid (ms_objects s) -> upheld s ->
  upheld (put_object_tagged_if uuid r pre tags s).1.
Proof.
  intros Hf Hg. destruct (put_object_tagged_if uuid r pre tags s) as [s' res] eqn:E. cbn. destruct res as [[old vid]|e|].
  - pose proof (put_write uuid r pre tags s Hf) as Hw. rewrite E in Hw. apply (upheld_write s); [done..|].
    apply put_ok_steps in E as (s0 & rec & Hi & _ & Ht). eapply carries_trans; [by eapply installed_carries|].
    pose proof (tags_same (o_bucket rec) (o_key rec) (coalesce_version rec) tags s0) as [Eo _].
    destruct (negb (bool_decide (tags = []))); cbn [when] in Ht; [|by injection Ht as <-; apply carries_refl].
    rewrite <- (map_err_state Db), Ht in Eo. cbn in Eo. rewrite Eo. apply carries_refl.
  - by rewrite (atomic_state _ _ _ _ _ _ E eq_refl).
  - by rewrite (atomic_state _ _ _ _ _ _ E eq_refl).
Qed.

Lemma complete_upheld uuid u r pre tags s :
  fresh_version (o_bucket r) (o_key r) uuid (ms_objects s) -> upheld s ->
  upheld (complete_multipart_object_tagged uuid u r pre tags s).1.
Proof.
  intros Hf Hg. pose proof (step_advance false _ _ (step_complete false uuid u r pre tags s Hf)) as Ha.
  destruct (complete_multipart_object_tagged uuid u r pre tags s) as [s' res] eqn:E. cbn in *. destruct res as [done|e|].
  - apply complete_ok_steps in E as (s0 & rec & s2 & Hi & Eo & _ & (Eb & Ec & _) & -> & _).
    pose proof (install_write uuid r pre s Hf) as [_ (Eb0 & Ec0 & _)]. rewrite Hi in Eb0, Ec0. cbn in Eb0, Ec0.
    apply (upheld_change s); [done|by apply (adv_rows _ _ Ha), Hg|..].
    + eapply carries_trans; [by eapply installed_carries|]. destruct s2; cbn in *. rewrite Eo. apply carries_refl.
    + destruct s2; cbn in *. congruence.
    + destruct s2; cbn in *. congruence.
  - by rewrite (atomic_state _ _ _ _ _ _ E eq_refl).
  - by rewrite (atomic_state _ _ _ _ _ _ E eq_refl).
Qed.

Lemma upheld_cas {A} op resource (m : mact CasError A) s :
  (forall s' x, m s = (s', Ok x) -> upheld s') -> upheld s -> upheld (map_cas_result op resource (atomically m) s).1.
Proof.
  intros H Hg. unfold map_cas_result. rewrite map_err_state. unfold atomically.
  destruct (m s) as [s' [x|e|]] eqn:E; [by eapply H|done..].
Qed.

Lemma delete_latest_rows cm now uuid b k pre owner s s' x :
  delete_latest_in_tx cm now uuid b k pre owner s = (s', Ok x) ->
  exists seq, ms_objects s' = deleted_rows (get_versioning_state b s) cm now uuid seq b k owner (ms_objects s).
Proof.
  intros H. assert (delete_evaluate pre (get_latest_object b k s) = Ok tt) as Hd.
  { unfold delete_latest_in_tx in H. apply act_bind_ok in H as (s1 & cur & [= <- <-] & H).
    apply act_bind_ok in H as (s1 & [] & H & _). change fetch_latest_object with get_latest_object in H.
    rewrite evaluate_delete_eq in H. by destruct (delete_evaluate _ _) as [[]|e|]. }
  destruct (delete_latest_ok cm now uuid b k pre owner s _ eq_refl Hd) as (s1 & H1 & Hb). rewrite H in H1.
  injection H1 as <- _. apply objects_become_fields in Hb as (-> & _). by eexists.
Qed.

Lemma delete_version_rows cm now b k v pre s s' x :
  delete_version_in_tx cm now b k v pre s = (s', Ok x) ->
  ms_objects s' = ms_objects s \/
  exists seq, ms_objects s' = version_deleted_rows cm now seq b k (version_ref v) (ms_objects s).
Proof.
  intros H. rewrite (delete_version_eq cm now b k v pre s _ eq_refl) in H.
  destruct (version_delete_check _ _); [|done..]. injection H as <- _.
  destruct (is_some _); [right|by left]. destruct s. by eexists.
Qed.

Lemma delete_latest_upheld cm now uuid b k pre owner s s' x :
  fresh_version b k uuid (ms_objects s) -> upheld s ->
  delete_latest_in_tx cm now uuid b k pre owner s = (s', Ok x) -> upheld s'.
Proof.
  intros Hf Hg H. pose proof (delete_latest_write cm now uuid b k pre owner s Hf) as Hw. rewrite H in Hw.
  apply (upheld_write s); [done..|]. apply delete_latest_rows in H as [seq ->]. apply carries_deleted. intros ->. apply Hg.
Qed.

Lemma delete_version_upheld cm now b k v pre s s' x :
  (b, k, version_ref v) <> (B, K, Some V) -> upheld s ->
  delete_version_in_tx cm now b k v pre s = (s', Ok x) -> upheld s'.
Proof.
  intros Hn Hg H. pose proof (delete_version_write cm now b k v pre s) as Hw. rewrite H in Hw.
  apply (upheld_write s); [done..|]. apply delete_version_rows in H as [->|[seq ->]]; [apply carries_refl|].
  by apply carries_version_deleted.
Qed.

(** A retention that covers the old one keeps the row protected. *)
Lemma protected_set_lock mode until st t seq x :
  protected x -> mode = Some "COMPLIANCE" -> (exists u, until = Some u /\ (u0 <= u)%Z) ->
  protected (map_row_at seq (set_lock mode until st t) x).
Proof. destruct x as [[] ?]. unfold protected, retained. cbn. tauto. Qed.

Lemma update_target_upheld b k v f s :
  keeps_flags f -> (forall i x, ms_objects s !! i = Some x -> protected x -> target b k v x ->
    protected (map_row_at (ms_object_seq s + 1) f x)) ->
  upheld s -> upheld (update_target b k v f s).1.
Proof.
  intros Hk Hf Hg. apply (upheld_write s); [done|by apply update_target_write|]. intros i x Hi Hx.
  destruct s as [bu ob sq bc bt ot up pa]. cbn -[update_where] in *. rewrite lookup_update_where, Hi. cbn. eexists. split; [done|].
  case_decide; [by apply (Hf i)|done].
Qed.

Lemma legal_hold_upheld now b k v st s : upheld s -> upheld (set_object_legal_hold now b k v st s).1.
Proof.
  apply update_target_upheld; [intros r; apply keeps_flags_set_lock|]. intros i x _ Hx _.
  pose proof Hx as (_ & _ & _ & _ & _ & Hm & Hu). by apply (protected_set_lock _ _ st (Some now) _ x).
Qed.

Lemma retention_upheld now b k v mode until s :
  (forall i x, ms_objects s !! i = Some x -> protected x -> target b k v x ->
     mode = Some "COMPLIANCE" /\ exists u, until = Some u /\ (u0 <= u)%Z) ->
  upheld s -> upheld (set_object_retention now b k v mode until s).1.
Proof.
  intros H. apply update_target_upheld; [intros r; apply keeps_flags_set_lock|]. intros i x Hi Hx Ht.
  destruct (H i x Hi Hx Ht) as [Hm Hu]. by apply (protected_set_lock mode until (o_legal_hold_status (row_rec x)) (Some now) _ x).
Qed.

Lemma replication_status_upheld b k v st s : upheld s -> upheld (set_object_replication_status b k v st s).1.
Proof.
  intros Hg. pose proof (step_advance false _ _ (step_replication_status false b k v st s)) as Ha.
  assert (forall x, protected x -> protected (map_row (set_replication_status st) x)) as Hp by by intros [[] ?].
  apply (upheld_change s); [done|by apply (adv_rows _ _ Ha), Hg|..];
    destruct s as [bu ob sq bc bt ot up pa]; unfold set_object_replication_status; destruct v; cbn -[update_where]; try done;
    apply carries_update; intros x Hx _; by apply Hp.
Qed.

Lemma put_tags_upheld b k v tags s : upheld s -> upheld (put_object_tags b k v tags s).1.
Proof.
  intros Hg. unfold put_object_tags, internal. rewrite map_err_state. apply atomically_state; [done|].
  destruct (tags_same b k v tags s) as [Eo _]. destruct (write_object_tags_write b k v tags s) as [_ (Eb & Ec & _)].
  by apply (upheld_same s).
Qed.

Lemma set_config_upheld now b ck cv s :
  ((b, ck) = (B, "versioning") -> cv = "Enabled") -> upheld s -> upheld (set_bucket_config now b ck cv s).1.
Proof.
  intros Hc [H1 H2 H3 H4 H5]. destruct s as [bu ob sq bc bt ot up pa]. cbn in *. split; cbn; [done..| | |done].
  - unfold get_versioning_state in *. cbn in *. destruct (decide ((b, ck) = (B, "versioning"))) as [E|Hn].
    + rewrite E, lookup_insert_eq. by rewrite (Hc E).
    + by rewrite lookup_insert_ne.
  - unfold get_bucket_config in *. cbn in *. destruct (decide ((b, ck) = (B, "object_lock"))) as [E|Hn].
    + by rewrite E, lookup_insert_eq.
    + by rewrite lookup_insert_ne.
Qed.

Lemma delete_config_upheld b ck s : ck <> "versioning" -> ck <> "object_lock" -> upheld s -> upheld (delete_bucket_config b ck s).1.
Proof.
  intros Hv Hl [H1 H2 H3 H4 H5]. destruct s as [bu ob sq bc bt ot up pa]. cbn in *. split; cbn; [done..| | |done].
  - unfold get_versioning_state in *. cbn in *. rewrite lookup_delete_ne; [done|congruence].
  - unfold get_bucket_config in *. cbn in *. rewrite lookup_delete_ne; [done|congruence].
Qed.

Lemma create_bucket_upheld now b owner s : upheld s -> upheld (create_bucket_owned now b owner s).1.
Proof.
  intros Hg. unfold create_bucket_owned. destruct (ms_buckets s !! b) eqn:E; [done|].
  destruct Hg as [H1 H2 H3 H4 H5]. destruct s as [bu ob sq bc bt ot up pa]. split; cbn in *; [done| |done..].
  rewrite lookup_insert_ne; [done|]. intros ->. by rewrite E in H2.
Qed.

Lemma delete_bucket_upheld b s : b <> B -> upheld s -> upheld (MetadataStore.delete_bucket b s).1.
Proof.
  intros Hb [H1 H2 H3 H4 H5]. destruct s as [bu ob sq bc bt ot up pa]. split; cbn in *; [done| |done..].
  by rewrite lookup_delete_ne.
Qed.

(** ** Handlers *)

Definition safe (a : AppState) : Prop := upheld (app_meta a).

Definition keeps_safe (a a' : AppState) : Prop := safe a -> safe a'.

Lemma keeps_safe_refl a : keeps_safe a a.
Proof. by intros H. Qed.

Lemma keeps_safe_trans a b d : keeps_safe a b -> keeps_safe b d -> keeps_safe a d.
Proof. unfold keeps_safe. auto. Qed.

Definition same_db (a a' : AppState) : Prop := app_meta a' = app_meta a.

Lemma same_db_refl a : same_db a a.
Proof. done. Qed.

Lemma same_db_trans a b d : same_db a b -> same_db b d -> same_db a d.
Proof. unfold same_db. congruence. Qed.

Ltac safes := quiet_tac keeps_safe_refl keeps_safe_trans.
Ltac sames := quiet_tac same_db_refl same_db_trans.

Lemma safe_meta {E A} (m : act MetaStore E A) : (forall s, upheld s -> upheld (m s).1) -> quiet keeps_safe (on_meta m).
Proof. intros H a Ha. unfold safe, on_meta in *. specialize (H _ Ha). by destruct (m (app_meta a)). Qed.

Lemma safe_same {E A} (m : hact E A) : quiet same_db m -> quiet keeps_safe m.
Proof. intros H a Ha. unfold safe. by rewrite H. Qed.

Lemma same_delete {E} b : quiet same_db (blob_delete (E:=E) b).
Proof. done. Qed.

Lemma same_discard {E} b : quiet same_db (blob_discard (E:=E) b).
Proof. done. Qed.

Lemma same_event {E} e : quiet same_db (emit_event (E:=E) e).
Proof. done. Qed.

Lemma same_audit {E} n : quiet same_db (write_audit (E:=E) n).
Proof. done. Qed.

Lemma same_cache {E} f : quiet same_db (set_cache (E:=E) f).
Proof. done. Qed.

Lemma same_journal {E A} (m : act Journal E A) : quiet same_db (on_journal m).
Proof. intros a. unfold on_journal. by destruct (m (app_journal a)). Qed.

Lemma safe_legal_hold now b k v st : quiet keeps_safe (on_meta (set_object_legal_hold now b k v st)).
Proof. apply safe_meta. intros s. apply legal_hold_upheld. Qed.

Lemma safe_replication_status b k v st : quiet keeps_safe (on_meta (set_object_replication_status b k v st)).
Proof. apply safe_meta. intros s. apply replication_status_upheld. Qed.

Lemma safe_put_tags b k v tags : quiet keeps_safe (on_meta (put_object_tags b k v tags)).
Proof. apply safe_meta. intros s. apply put_tags_upheld. Qed.

Lemma safe_delete_tags b k v : quiet keeps_safe (on_meta (delete_object_tags b k v)).
Proof. apply safe_meta. intros s Hg. by apply (upheld_same s); [|destruct s..]. Qed.

Lemma safe_create_upload r : quiet keeps_safe (on_meta (MetadataStore.create_multipart_upload r)).
Proof.
  apply safe_meta. intros s Hg. unfold MetadataStore.create_multipart_upload. case_match; [done|].
  by apply (upheld_same s); [|destruct s..].
Qed.

Lemma safe_put_part p : quiet keeps_safe (on_meta (put_part p)).
Proof. apply safe_meta. intros s Hg. by apply (upheld_same s); [|destruct s..]. Qed.

Lemma safe_delete_upload u : quiet keeps_safe (on_meta (delete_multipart_upload u)).
Proof. apply safe_meta. intros s Hg. by apply (upheld_same s); [|destruct s..]. Qed.

Lemma safe_create_bucket now b owner : quiet keeps_safe (on_meta (create_bucket_owned now b owner)).
Proof. apply safe_meta. intros s. apply create_bucket_upheld. Qed.

Lemma safe_config now b ck cv :
  ((b, ck) = (B, "versioning") -> cv = "Enabled") -> quiet keeps_safe (on_meta (set_bucket_config now b ck cv)).
Proof. intros H. apply safe_meta. intros s. by apply set_config_upheld. Qed.

Lemma safe_delete_config b ck :
  ck <> "versioning" -> ck <> "object_lock" -> quiet keeps_safe (on_meta (delete_bucket_config b ck)).
Proof. intros H1 H2. apply safe_meta. intros s. by apply delete_config_upheld. Qed.

#[local] Hint Resolve same_delete same_discard same_event same_audit same_cache same_journal safe_legal_hold
  safe_replication_status safe_put_tags safe_delete_tags safe_create_upload safe_put_part safe_delete_upload
  safe_create_bucket : quiet.
#[local] Hint Extern 2 (quiet keeps_safe _) => apply safe_same : quiet.
#[local] Hint Extern 1 (quiet keeps_safe (on_meta (set_bucket_config _ _ _ _))) => apply safe_config; congruence : quiet.
#[local] Hint Extern 1 (quiet keeps_safe (on_meta (delete_bucket_config _ _))) => apply safe_delete_config; congruence : quiet.

Context {http : HttpLib} {crypto : SigCrypto} {codecs : BodyCodecs} {lib : LockLib} {wlib : WriteLib}.
Context {rjson : ReplicationJson} {ljson : LifecycleJson}.

Lemma safe_emit now instant uuids headers b k v ev tags :
  quiet keeps_safe (emit_and_stamp now instant uuids headers b k v ev tags).
Proof. unfold emit_and_stamp, replication_enabled_for, maybe_emit, invalidate_bucket_replication_cache. safes. Qed.
#[local] Hint Resolve safe_emit : quiet.

Lemma safe_announce d name record v headers tags : quiet keeps_safe (announce d name record v headers tags).
Proof. unfold announce. safes. Qed.
#[local] Hint Resolve safe_announce : quiet.

(** *** Writes *)

(** No version has the id [u]. *)
Definition id_fresh (u : string) (a : AppState) : Prop :=
  forall i x, ms_objects (app_meta a) !! i = Some x -> o_version_id (row_rec x) <> Some u.

Definition ready (u : string) (a : AppState) : Prop := safe a /\ id_fresh u a.

Lemma stable_ready u : stable same_db (ready u).
Proof. intros a a' E [H1 H2]. unfold ready, safe, id_fresh. by rewrite E. Qed.

Lemma ready_fresh u b k a : ready u a -> fresh_version b k u (ms_objects (app_meta a)).
Proof. intros [_ H] i x Hi _. by eapply H. Qed.

Ltac pass_safe :=
  apply (bind_quiet safe same_db); [solve [sames]|apply stable_ready|by intros ? [? _]|intros].

Lemma refused_triple {A} P (Q : A -> AppState -> Prop) codes discard (m : hact ArcaError A) :
  triple safe P m Q -> quiet keeps_safe discard -> triple safe P (refused codes discard m) Q.
Proof.
  intros Hm Hd a Ha. specialize (Hm a Ha). unfold refused. destruct (m a) as [a' [x|[e|msg|msg]|]]; try done.
  case_bool_decide; [|done]. by apply Hd.
Qed.

Lemma store_triple uuid record pre tags :
  triple safe (ready uuid) (on_meta (put_object_tagged_if uuid record pre tags)) (fun _ => safe).
Proof.
  intros a Ha. pose proof (put_upheld uuid record pre tags (app_meta a) (ready_fresh _ _ _ a Ha) (proj1 Ha)) as H.
  unfold on_meta. destruct (put_object_tagged_if uuid record pre tags (app_meta a)) as [s' [x|e|]]; done.
Qed.

Lemma complete_triple uuid u record pre tags :
  triple safe (ready uuid) (on_meta (complete_multipart_object_tagged uuid u record pre tags)) (fun _ => safe).
Proof.
  intros a Ha. pose proof (complete_upheld uuid u record pre tags (app_meta a) (ready_fresh _ _ _ a Ha) (proj1 Ha)) as H.
  unfold on_meta. destruct (complete_multipart_object_tagged uuid u record pre tags (app_meta a)) as [s' [x|e|]]; done.
Qed.

(** A quiet end. *)
Lemma safe_triple {A} (m : hact ArcaError A) : quiet keeps_safe m -> triple safe safe m (fun _ => safe).
Proof. intros H. apply (triple_quiet safe keeps_safe); [done| |done]. by intros a a' Hk Ha; apply Hk. Qed.

Lemma safe_delete_old old : quiet keeps_safe (delete_old old).
Proof. unfold delete_old. safes. Qed.
#[local] Hint Resolve safe_delete_old : quiet.

Lemma put_object_body_safe env io d b k rq :
  triple safe (ready (dr_uuid d)) (put_object_body env io d b k rq) (fun _ => safe).
Proof.
  unfold put_object_body, put_conditions, require_bucket, precondition_failed_at, write_blob, stored, write_sidecar_or_discard.
  repeat pass_safe. eapply triple_bind; [apply refused_triple; [apply store_triple|safes]|]. intros done. apply safe_triple. safes.
Qed.

Lemma copy_object_safe env io d b k rq :
  triple safe (ready (dr_uuid d)) (copy_object env io d b k rq) (fun _ => safe).
Proof.
  unfold copy_object, invalid_copy_source, copy_source, read_source, require_bucket, precondition_failed_at, write_blob, stored, write_sidecar_or_discard.
  destruct (parse_copy_source _) as [[[sb sk] sv]|]; [|by intros a [? _]].
  repeat pass_safe. eapply triple_bind; [apply store_triple|]. intros done. apply safe_triple. safes.
Qed.

Lemma complete_safe io d b k u rq body :
  triple safe (ready (dr_uuid d)) (complete_multipart_upload io d b k u rq body) (fun _ => safe).
Proof.
  unfold complete_multipart_upload. pass_safe. match goal with x : option MultipartUploadRecord |- _ => destruct x as [upload|] end.
  - apply (bind_quiet safe same_db); [|apply stable_ready|by intros ? [? _]|intros m].
    { unfold assemble, check_complete_conditionals, read_body, stored, write_sidecar_or_discard. sames. }
    unfold commit_assembled. eapply triple_bind; [apply refused_triple; [apply complete_triple|safes]|]. intros done.
    apply safe_triple. safes.
  - eapply triple_weaken; [apply safe_triple; unfold already_completed; safes|by intros a [? _]|done].
Qed.

Lemma safe_upload_part env io d b k n u rq : quiet keeps_safe (upload_part env io d b k n u rq).
Proof.
  unfold upload_part, ssec_multipart, upload_of, stored, write_sidecar_or_discard, store_part. safes.
Qed.

Lemma safe_upload_part_copy io d b k n u rq : quiet keeps_safe (upload_part_copy io d b k n u rq).
Proof.
  unfold upload_part_copy, ssec_multipart, invalid_copy_source, upload_of, copy_source, precondition_failed_at, stored,
    write_sidecar_or_discard, store_part. safes.
Qed.

Lemma safe_put_object_tagging d b k q headers body : quiet keeps_safe (put_object_tagging d b k q headers body).
Proof. unfold put_object_tagging, resolve_version_for_tagging, require_bucket, read_body. safes. Qed.

Lemma safe_delete_object_tagging b k q : quiet keeps_safe (delete_object_tagging b k q).
Proof. unfold delete_object_tagging, resolve_version_for_tagging, require_bucket. safes. Qed.

Lemma safe_put_object_legal_hold now b k v body : quiet keeps_safe (put_object_legal_hold now b k v body).
Proof. unfold put_object_legal_hold, require_bucket, read_body. safes. Qed.

Lemma safe_create_multipart_upload d b k rq : quiet keeps_safe (ObjectWrites.create_multipart_upload d b k rq).
Proof. unfold ObjectWrites.create_multipart_upload, ssec_multipart, require_bucket. safes. Qed.

Lemma safe_abort b k u : quiet keeps_safe (abort_multipart_upload b k u).
Proof. unfold abort_multipart_upload. safes. Qed.
#[local] Hint Resolve safe_upload_part safe_upload_part_copy safe_put_object_tagging safe_delete_object_tagging
  safe_put_object_legal_hold safe_create_multipart_upload safe_abort : quiet.

(** *** Requests that are refused *)

(** The protected row is the one the reads find. *)
Lemma version_read b k v i x s :
  upheld s -> ms_objects s !! i = Some x -> protected x -> (b, k, version_ref v) = (B, K, Some V) ->
  get_object_version b k v s = Some (without_parts (row_rec x)).
Proof.
  intros Hg Hi (Hk & Hv & Hl & _) [= -> -> E]. apply get_object_version_Some; [apply Hg|]. exists i, x. by rewrite E.
Qed.

Lemma upheld_version b k v s :
  upheld s -> (b, k, version_ref v) = (B, K, Some V) ->
  exists r, get_object_version b k v s = Some r /\ o_is_delete_marker r = false /\ retained r.
Proof.
  intros Hg E. pose proof (gu_row s Hg) as (i & x & Hi & Hx). eexists. split; [by eapply version_read|].
  destruct Hx as (_ & _ & _ & Hm & _ & Hr). by destruct x as [[] ?].
Qed.

Lemma retained_refuses_delete now r headers :
  (now < u0)%Z -> retained r -> is_ok (check_object_lock_allows_delete now r headers) = false /\
  check_object_lock_allows_delete now r headers <> Panic.
Proof.
  intros Hn (Hm & until & Hu & Hle). unfold check_object_lock_allows_delete. rewrite Hm, Hu. case_bool_decide; [done|].
  rewrite (proj2 (Z.ltb_lt now until)) by lia. done.
Qed.

Lemma delete_version_safe cm now b k vid headers :
  (now < u0)%Z -> quiet keeps_safe (delete_version_handler cm now b k vid headers).
Proof.
  intros Hn. destruct (decide ((b, k, version_ref vid) = (B, K, Some V))) as [E|Hne].
  - intros a Ha. destruct (upheld_version b k vid (app_meta a) Ha E) as (r & Hr & Hm & Hret).
    destruct (retained_refuses_delete now r headers Hn Hret) as [Hok Hp].
    unfold delete_version_handler, act_bind, ask. rewrite Hr, Hm. unfold lift.
    by destruct (check_object_lock_allows_delete now r headers).
  - assert (forall pre, quiet keeps_safe (on_meta (delete_object_version_if cm now b k vid pre))) as Hd.
    { intros pre. apply safe_meta. intros s Hg. apply upheld_cas; [|done]. intros s' x. by apply delete_version_upheld. }
    unfold delete_version_handler, evaluated. safes.
Qed.

Lemma delete_current_triple cm now uuid b k pre owner :
  triple safe (ready uuid) (on_meta (delete_object_if cm now uuid b k pre owner)) (fun _ => safe).
Proof.
  intros a Ha. assert (upheld (delete_object_if cm now uuid b k pre owner (app_meta a)).1) as H.
  { apply upheld_cas; [|apply Ha]. intros s' x. eapply delete_latest_upheld; [by apply ready_fresh|apply Ha]. }
  unfold on_meta. destruct (delete_object_if cm now uuid b k pre owner (app_meta a)) as [s' [x|e|]]; done.
Qed.

Lemma delete_object_safe cm now instant uuid uuids b k v headers owner :
  (now < u0)%Z ->
  triple safe (ready uuid) (ObjectLock.delete_object cm now instant uuid uuids b k v headers owner) (fun _ => safe).
Proof.
  intros Hn. unfold ObjectLock.delete_object, require_bucket. pass_safe. destruct v as [vid|].
  - eapply triple_weaken; [apply safe_triple, delete_version_safe; done|by intros a [? _]|done].
  - unfold delete_current_handler, evaluated. pass_safe. eapply triple_bind; [apply delete_current_triple|]. intros old.
    apply safe_triple. safes.
Qed.

Lemma stable_safe : stable same_db safe.
Proof. intros a a' E. unfold safe. by rewrite E. Qed.

Lemma triple_safe {A} (m : hact ArcaError A) : triple safe safe m (fun _ => safe) -> quiet keeps_safe m.
Proof. intros H a Ha. by eapply triple_end. Qed.

Tactic Notation "skip" ident(n) := apply (bind_quiet safe same_db); [solve [sames]|apply stable_safe|done|intros n].

(** A change of retention reaches the protected row only with a longer COMPLIANCE retention. *)
Lemma retention_covers now b k v record mode until bypass s i x :
  (now < u0)%Z -> upheld s -> ms_objects s !! i = Some x -> protected x -> target b k v x ->
  match v with Some vid => get_object_version b k vid s | None => get_object b k s end = Some record ->
  retention_change_refused now record mode until bypass = None ->
  mode = "COMPLIANCE" /\ (u0 <= until)%Z.
Proof.
  intros Hn Hg Hi Hx [Hk Ht] Hr Hnone.
  assert (record = without_parts (row_rec x)) as ->.
  { pose proof Hx as ([E1 E2] & Hv & Hl & Hm & _ & _). destruct v as [vid|].
    - assert (get_object_version b k vid s = Some (without_parts (row_rec x))) as E; [|congruence].
      assert (vid = V) as -> by congruence. eapply version_read; [done..|].
      destruct Hk as [<- <-]. rewrite E1, E2. unfold version_ref. by rewrite bool_decide_false.
    - assert (get_object b k s = Some (without_parts (row_rec x))) as E; [|congruence].
      apply get_object_Some; [apply Hg|]. by exists i, x. }
  destruct Hx as (_ & _ & _ & _ & _ & Hmode & u & Hu & Hle). unfold retention_change_refused in Hnone.
  assert (o_retention_mode (without_parts (row_rec x)) = Some "COMPLIANCE") as E1 by by destruct x as [[] ?].
  assert (o_retain_until_date (without_parts (row_rec x)) = Some u) as E2 by by destruct x as [[] ?].
  rewrite E1, E2, (proj2 (Z.ltb_lt now u)) in Hnone by lia. cbn in Hnone.
  destruct (bool_decide (mode <> "COMPLIANCE") || (until <? u)%Z) eqn:E; [done|].
  apply orb_false_iff in E as [E%bool_decide_eq_false E']. apply Z.ltb_ge in E'. split; [|lia].
  destruct (decide (mode = "COMPLIANCE")); [done|by destruct E].
Qed.

Lemma retention_safe now b k v headers body :
  (now < u0)%Z -> quiet keeps_safe (put_object_retention now b k v headers body).
Proof.
  intros Hn. apply triple_safe. unfold put_object_retention, require_bucket, read_body. skip tt0. skip locked.
  case_match; [by intros a Ha|]. skip doc. skip new.
  eapply triple_bind with (Q := fun existing a => safe a /\ version_or_current b k v a = existing); [by intros a Ha|].
  intros [record|]; [|by intros a [Ha _]]. case_match; [by intros a [Ha _]|].
  eapply triple_bind with (Q := fun _ => safe); [|intros found; apply safe_triple; safes]. intros a [Ha Hr].
  assert (upheld (set_object_retention now b k v (Some new.1) (Some new.2) (app_meta a)).1) as Hg.
  { apply retention_upheld; [|done]. intros i x Hi Hx Ht.
    eapply (retention_covers now b k v record new.1 new.2 _ (app_meta a) i x) in Hi as [-> ?]; eauto. }
  unfold on_meta. by destruct (set_object_retention _ _ _ _ _ _ (app_meta a)) as [s' [y|e|]].
Qed.

(** *** Buckets *)

Lemma versioning_safe now b body : quiet keeps_safe (put_bucket_versioning now b body).
Proof.
  apply triple_safe. unfold put_bucket_versioning, require_bucket, read_body. skip tt0. skip text.
  destruct text as [text|]; [|by intros a Ha].
  eapply triple_bind with (Q := fun locked a => safe a /\ locked_bucket b a = locked); [by intros a Ha|]. intros locked.
  destruct (parse_versioning_status text) as [status|]; [|by intros a [? _]].
  destruct (bool_decide (status = "Enabled") || bool_decide (status = "Suspended")) eqn:Es; [|by intros a [? _]].
  destruct (bool_decide (status = "Suspended") && locked) eqn:El; [by intros a [? _]|].
  intros a [Ha Hl]. assert (upheld (set_bucket_config now b "versioning" status (app_meta a)).1) as Hg; [|done].
  apply set_config_upheld; [|done]. intros [= ->]. assert (locked = true) as -> by (rewrite <- Hl; apply Ha).
  rewrite andb_true_r in El. rewrite El, orb_false_r in Es. by apply bool_decide_eq_true in Es.
Qed.

Lemma object_lock_safe now b body : quiet keeps_safe (put_object_lock_configuration now b body).
Proof. unfold put_object_lock_configuration, require_bucket, read_body. safes. Qed.

Lemma create_bucket_safe now b owner headers : quiet keeps_safe (ObjectLock.create_bucket now b owner headers).
Proof.
  unfold ObjectLock.create_bucket. apply (quiet_bind _ keeps_safe_trans); [safes|intros _].
  apply (quiet_bind _ keeps_safe_trans); [|safes]. intros a. pose proof (safe_create_bucket now b owner a) as H.
  by destruct (on_meta (create_bucket_owned now b owner) a).
Qed.

(** The bucket of the version is not empty. *)
Lemma upheld_not_empty s : upheld s -> bucket_is_empty B s = false.
Proof.
  intros Hg. pose proof (gu_row s Hg) as (i & x & Hi & [E _] & _). unfold bucket_is_empty.
  rewrite (proj2 (affected_pos _ _)); [done|]. by exists i, x.
Qed.

Lemma delete_bucket_safe b : quiet keeps_safe (ObjectLock.delete_bucket b).
Proof.
  apply triple_safe. unfold ObjectLock.delete_bucket, require_bucket. skip tt0.
  eapply triple_bind with (Q := fun empty a => safe a /\ bucket_is_empty b (app_meta a) = empty); [by intros a Ha|].
  intros empty. destruct empty; [|by intros a [? _]].
  eapply triple_bind with (Q := fun _ => safe); [|intros existed; apply safe_triple; safes].
  intros a [Ha He]. assert (upheld (MetadataStore.delete_bucket b (app_meta a)).1) as Hg; [|done].
  apply delete_bucket_upheld; [|done]. intros ->. by rewrite upheld_not_empty in He.
Qed.

Lemma put_lifecycle_safe now b body : quiet keeps_safe (put_bucket_lifecycle now b body).
Proof. unfold put_bucket_lifecycle, require_bucket, read_body. safes. Qed.

Lemma delete_lifecycle_safe b : quiet keeps_safe (delete_bucket_lifecycle b).
Proof. unfold delete_bucket_lifecycle, require_bucket. safes. Qed.

Lemma put_replication_safe now b body : quiet keeps_safe (put_bucket_replication now b body).
Proof. unfold put_bucket_replication, invalidate_bucket_replication_cache, require_bucket, read_body. safes. Qed.

Lemma delete_replication_safe b : quiet keeps_safe (delete_bucket_replication b).
Proof. unfold delete_bucket_replication, invalidate_bucket_replication_cache, require_bucket. safes. Qed.

(** *** Batches *)

(** The version ids of [m'] but [uuid] are version ids of [m]. *)
Definition mints (uuid : string) (m m' : gmap N ObjRow) : Prop :=
  forall u i x', m' !! i = Some x' -> o_version_id (row_rec x') = Some u -> u <> uuid ->
    exists j x, m !! j = Some x /\ o_version_id (row_rec x) = Some u.

Lemma mints_refl u m : mints u m m.
Proof. intros v i x Hi Hx _. by exists i, x. Qed.

Lemma mints_trans u m1 m2 m3 : mints u m1 m2 -> mints u m2 m3 -> mints u m1 m3.
Proof. intros H1 H2 v i x Hi Hx Hn. destruct (H2 v i x Hi Hx Hn) as (j & y & Hj & Hy). by apply (H1 v j y). Qed.

Lemma mints_update u P `{!forall x, Decision (P x)} f m :
  (forall x, o_version_id (row_rec (f x)) = o_version_id (row_rec x)) -> mints u m (update_where P f m).
Proof.
  intros Hf v i x' Hi Hx _. rewrite lookup_update_where in Hi. apply fmap_Some in Hi as (x & Hi & ->). exists i, x.
  split; [done|]. case_decide; [by rewrite Hf in Hx|done].
Qed.

Lemma mints_delete u P `{!forall x, Decision (P x)} m : mints u m (delete_where P m).
Proof. intros v i x Hi Hx _. apply lookup_delete_where in Hi as [Hi _]. by exists i, x. Qed.

Lemma mints_insert u r seq m : (forall v, o_version_id r = Some v -> v = u) -> mints u m (insert_row (MkRow r seq) m).
Proof. intros Hr v i x Hi Hx Hn. apply lookup_insert_row in Hi as [[-> ->]|[_ Hi]]; [by apply Hr in Hx|]. by exists i, x. Qed.

Lemma mints_unlatest u b k m : mints u m (unlatest b k m).
Proof. apply mints_update. by intros [[] ?]. Qed.

Lemma mints_recompute u b k m : mints u m (recompute b k m).
Proof.
  unfold recompute. destruct (winner b k (unlatest b k m)) as [j|]; [|apply mints_unlatest].
  eapply mints_trans; [apply mints_unlatest|]. intros v i x' Hi Hx _. destruct (decide (j = i)) as [->|Hn].
  - rewrite lookup_alter_eq in Hi. apply fmap_Some in Hi as (x & Hi & ->). exists i, x. by destruct x as [[] ?].
  - rewrite lookup_alter_ne in Hi by done. by exists i, x'.
Qed.

Lemma mints_deleted v cm now uuid seq b k owner m : mints uuid m (deleted_rows v cm now uuid seq b k owner m).
Proof.
  assert (forall t x, o_version_id (row_rec (map_row_at seq (as_tombstone t) x)) = o_version_id (row_rec x)) as Ht
    by by intros t [[] ?].
  destruct v; cbn -[update_where].
  - destruct (is_some _); [|apply mints_refl]. destruct cm; [|apply mints_delete].
    eapply mints_trans; [|apply mints_recompute]. by apply mints_update.
  - eapply mints_trans; [|apply mints_insert]; [apply mints_unlatest|]. by intros v [= ->].
  - eapply mints_trans; [|by apply mints_insert]. eapply mints_trans; [|apply mints_unlatest]. apply mints_delete.
Qed.

Lemma mints_version_deleted uuid cm now seq b k v m : mints uuid m (version_deleted_rows cm now seq b k v m).
Proof.
  unfold version_deleted_rows. eapply mints_trans; [|apply mints_recompute].
  destruct cm; [apply mints_update; by intros [[] ?]|apply mints_delete].
Qed.

Lemma entry_upheld cm b owner e now uuid s :
  (forall v, bd_version_id e = Some v -> (b, bd_key e, version_ref v) <> (B, K, Some V)) ->
  fresh_version b (bd_key e) uuid (ms_objects s) -> upheld s ->
  upheld (delete_entry cm b owner (e, (now, uuid)) s).1.
Proof.
  intros Hv Hf Hg. unfold delete_entry. destruct (bd_version_id e) as [v|]; (apply upheld_cas; [|done]); intros s' x H.
  - eapply delete_version_upheld; [by apply Hv|done..].
  - by eapply delete_latest_upheld.
Qed.

Lemma entry_mints cm b owner e now uuid s :
  mints uuid (ms_objects s) (ms_objects (delete_entry cm b owner (e, (now, uuid)) s).1).
Proof.
  unfold delete_entry. destruct (bd_version_id e) as [v|]; unfold map_cas_result; rewrite map_err_state; unfold atomically.
  - destruct (delete_version_in_tx _ _ _ _ _ _ s) as [s' [x|err|]] eqn:E; cbn [fst]; [|apply mints_refl..].
    apply delete_version_rows in E as [->|[seq ->]]; [apply mints_refl|apply mints_version_deleted].
  - destruct (delete_latest_in_tx _ _ _ _ _ _ _ s) as [s' [x|err|]] eqn:E; cbn [fst]; [|apply mints_refl..].
    apply delete_latest_rows in E as [seq ->]. apply mints_deleted.
Qed.

(** Distinct new ids, and no entry for the protected version. *)
Lemma batch_upheld cm b owner es s :
  Forall (fun e => forall v, bd_version_id e.1 = Some v -> (b, bd_key e.1, version_ref v) <> (B, K, Some V)) es ->
  NoDup (es.*2.*2) ->
  (forall u, u ∈ es.*2.*2 -> forall i x, ms_objects s !! i = Some x -> o_version_id (row_rec x) <> Some u) ->
  upheld s -> upheld (delete_objects_if cm b owner es s).1.
Proof.
  revert s. induction es as [|[e [now uuid]] es IH]; intros s Hes Hnd Hf Hg; [done|]. cbn -[delete_entry] in *.
  apply Forall_cons in Hes as [He Hes]. apply NoDup_cons in Hnd as [Hu Hnd].
  pose proof (entry_upheld cm b owner e now uuid s He) as Hg1. pose proof (entry_mints cm b owner e now uuid s) as Hm.
  destruct (delete_entry cm b owner (e, (now, uuid)) s) as [s1 r]. cbn [fst] in *.
  assert (upheld (delete_objects_if cm b owner es s1).1) as H.
  { apply IH; [done..| |].
    - intros u Hin i x Hi Hx. destruct (Hm u i x Hi Hx) as (j & y & Hj & Hy); [by intros ->|].
      eapply Hf; [by right|done..].
    - apply Hg1; [|done]. intros i x Hi _. eapply Hf; [by left|done]. }
  by destruct (delete_objects_if cm b owner es s1).
Qed.

(** An entry that passes the checks of the batch is not the protected version. *)
Lemma batch_check_covers now b s obj e v :
  (now < u0)%Z -> upheld s -> batch_check now b s obj = inr e -> bd_version_id e = Some v ->
  (b, bd_key e, version_ref v) <> (B, K, Some V).
Proof.
  intros Hn Hg H Hv E. unfold batch_check in H. destruct (build_batch_delete_precondition obj) as [pre|]; [|done].
  assert (bd_version_id e = do_version_id obj /\ bd_key e = do_key obj) as [Ev Ek].
  { destruct (_ ≫= _) as [r|]; [|by injection H as <-]. destruct (o_is_delete_marker r); [by injection H as <-|].
    by destruct (check_object_lock_allows_delete_batch now r); [injection H as <-| |injection H as <-]. }
  rewrite Ev in Hv. rewrite Ek in E. destruct (upheld_version b (do_key obj) v s Hg E) as (r & Hr & Hm & Hmode & u & Hu & Hle).
  rewrite Hv in H. cbn in H. rewrite Hr, Hm in H. unfold check_object_lock_allows_delete_batch in H.
  rewrite Hmode, Hu, (proj2 (Z.ltb_lt now u)) in H by lia. by case_bool_decide.
Qed.

(** Each id is new, and no two are the same. *)
Definition stamps_fresh (stamps : nat -> Z * string) (a : AppState) : Prop :=
  (forall n, id_fresh (stamps n).2 a) /\ forall n m, (stamps n).2 = (stamps m).2 -> n = m.

Lemma zip_stamps {A} (stamps : nat -> Z * string) (l : list A) :
  (zip l (stamps <$> seq 0 (length l))).*2 = stamps <$> seq 0 (length l).
Proof. apply snd_zip. by rewrite length_fmap, length_seq. Qed.

Lemma delete_objects_safe cm now stamps b owner body :
  (now < u0)%Z ->
  triple safe (fun a => safe a /\ stamps_fresh stamps a) (ObjectLock.delete_objects cm now stamps b owner body) (fun _ => safe).
Proof.
  intros Hn. unfold ObjectLock.delete_objects, require_bucket, read_body.
  assert (stable same_db (fun a => safe a /\ stamps_fresh stamps a)) as Hst.
  { intros a a' E [H1 [H2 H3]]. split; [by eapply stable_safe|]. split; [|done]. intros n. unfold id_fresh. rewrite E. apply H2. }
  do 2 (apply (bind_quiet safe same_db); [solve [sames]|done|by intros ? [? _]|intros ?]).
  case_match; [|by intros a [? _]]. case_match; [by intros a [? _]|].
  eapply triple_bind with (Q := fun checks a => (safe a /\ stamps_fresh stamps a) /\ batch_check now b (app_meta a) <$> l = checks);
    [by intros a Ha|]. intros checks.
  eapply triple_bind with (Q := fun _ => safe); [|intros rs; apply safe_triple; safes].
  intros a [[Ha [Hf Hi]] <-]. set (batch := batched _).
  assert (upheld (delete_objects_if cm b owner (zip batch (stamps <$> seq 0 (length batch))) (app_meta a)).1) as Hg.
  { apply batch_upheld; [| | |done]; rewrite ?zip_stamps.
    - apply Forall_forall. intros [e st] Hin%elem_of_zip_l v Hv. unfold batch, batched in Hin.
      apply list_elem_of_omap in Hin as ([err|e'] & Hin & [= ->]). apply list_elem_of_fmap in Hin as (obj & Hobj & _).
      by eapply batch_check_covers.
    - rewrite <- list_fmap_compose. apply NoDup_fmap_2; [|apply NoDup_seq]. intros n m. apply Hi.
    - intros u Hu i y Hy. apply list_elem_of_fmap in Hu as (st & -> & Hst'). apply list_elem_of_fmap in Hst' as (n & -> & _).
      by eapply Hf. }
  unfold on_meta. by destruct (delete_objects_if cm b owner _ (app_meta a)).
Qed.

(** *** The lifecycle worker *)

Lemma or_return_safe {A} P (m : hact ArcaError A) k :
  triple safe P m (fun _ => safe) -> (forall x, quiet keeps_safe (k x)) -> triple safe P (or_return m k) (fun _ => safe).
Proof.
  intros Hm Hk a Ha. specialize (Hm a Ha). unfold or_return. destruct (m a) as [a' [x|e|]]; [|done..].
  by apply safe_triple.
Qed.

Lemma expire_object_safe cm draws b versioned obj :
  triple safe (ready (draws obj).2) (expire_object cm draws b versioned obj) (fun _ => safe).
Proof. apply or_return_safe; [apply delete_current_triple|]. intros old. safes. Qed.

(** A row the worker listed while the version was protected. *)
Definition listed (b : string) (obj : ObjectRecord) : Prop :=
  exists s i x, upheld s /\ ms_objects s !! i = Some x /\ at_key b (o_key obj) x /\ live x /\ obj = without_parts (row_rec x).

Lemma listed_locked now b v obj :
  (now < u0)%Z -> listed b obj -> o_version_id obj = Some v -> (b, o_key obj, version_ref v) = (B, K, Some V) ->
  is_object_locked now obj = true.
Proof.
  intros Hn (s & i & x & Hg & Hi & Hk & Hl & ->) Hv E.
  destruct (upheld_version _ _ v s Hg E) as (r & Hr & _ & Hm & u & Hu & Hle).
  assert (get_object_version b (o_key (without_parts (row_rec x))) v s = Some (without_parts (row_rec x))) as Hr'.
  { apply get_object_version_Some; [apply Hg|]. exists i, x. do 2 (split; [done|]). split; [|done]. injection E as _ _ E.
    rewrite E. unfold version_ref in E. case_bool_decide; [done|]. injection E as ->. by destruct x as [[] ?]. }
  assert (r = without_parts (row_rec x)) as -> by congruence. unfold is_object_locked.
  rewrite Hm, Hu, (proj2 (Z.ltb_lt now u)) by lia. apply orb_true_r.
Qed.

Lemma expire_noncurrent_safe cm draws b obj :
  ((draws obj).1 < u0)%Z -> listed b obj -> quiet keeps_safe (expire_noncurrent_version cm draws b obj).
Proof.
  intros Hn Hl. apply triple_safe. unfold expire_noncurrent_version. destruct (o_version_id obj) as [v|] eqn:Ev; [|by intros a Ha].
  destruct (is_object_locked _ _) eqn:El; [by intros a Ha|]. apply or_return_safe; [|intros old; safes].
  apply safe_triple, safe_meta. intros s Hg. apply upheld_cas; [|done]. intros s' x. apply delete_version_upheld; [|done].
  intros E. eapply listed_locked in Hl; [|done..]. congruence.
Qed.

Lemma abort_stale_safe b upload : quiet keeps_safe (abort_stale_upload b upload).
Proof. apply triple_safe. unfold abort_stale_upload. apply or_return_safe; [apply safe_triple; safes|]. intros parts. safes. Qed.

(** *** Calls *)

Context (cluster_mode : bool).

Definition ids_fresh (call : Call) (a : AppState) : Prop :=
  match call with
  | CPut _ _ d _ _ _ _ | CPost _ d _ _ _ _ | CDelete d _ _ _ => id_fresh (dr_uuid d) a
  | CDeleteObjects _ stamps _ _ _ => stamps_fresh stamps a
  | CExpire _ uuid _ _ _ => id_fresh uuid a
  | _ => True
  end.

(** The clock of a call is before the date, and the worker acts on what it listed. *)
Definition in_time (call : Call) : Prop :=
  match call with
  | CPut _ _ d _ _ _ _ | CDelete d _ _ _ => (dr_now d < u0)%Z
  | CDeleteObjects now _ _ _ _ => (now < u0)%Z
  | CExpireNoncurrent now b obj => (now < u0)%Z /\ listed b obj
  | _ => True
  end.

Lemma act_map_safe {A A'} (f : A -> A') P (m : hact ArcaError A) :
  triple safe P m (fun _ => safe) -> triple safe P (act_map f m) (fun _ => safe).
Proof. intros H. eapply triple_bind; [exact H|]. by intros x a Ha. Qed.

Lemma ready_quiet {A} u (m : hact ArcaError A) : quiet keeps_safe m -> triple safe (ready u) m (fun _ => safe).
Proof. intros H. eapply triple_weaken; [by apply safe_triple|by intros a [? _]|done]. Qed.

Lemma put_object_safe env io d b k rq bodies :
  (dr_now d < u0)%Z -> triple safe (ready (dr_uuid d)) (put_object env io d b k rq bodies) (fun _ => safe).
Proof.
  intros Hn. unfold put_object. case_match; [apply act_map_safe, ready_quiet; safes|].
  case_match; [by apply act_map_safe, ready_quiet, retention_safe|]. case_match; [apply act_map_safe, ready_quiet; safes|]. pass_safe.
  assert (forall copy, triple safe (ready (dr_uuid d))
    (act_map PutWritten (if copy : bool then copy_object env io d b k rq else put_object_body env io d b k rq)) (fun _ => safe)) as Hw.
  { intros []; apply act_map_safe; [apply copy_object_safe|apply put_object_body_safe]. }
  destruct (query_param _ "partNumber") as [pn|]; [|apply Hw]. destruct (query_param _ "uploadId") as [u|]; [|apply Hw].
  destruct (parse_u32 pn) as [n|]; [|by intros a [? _]]. case_match; apply act_map_safe, ready_quiet; safes.
Qed.

Lemma post_object_safe io d b k rq body : triple safe (ready (dr_uuid d)) (post_object io d b k rq body) (fun _ => safe).
Proof.
  unfold post_object. destruct (wq_query rq) as [query|]; [|by intros a [? _]].
  case_match; [apply act_map_safe, ready_quiet; safes|].
  destruct (query_param query "uploadId"); [apply act_map_safe, complete_safe|by intros a [? _]].
Qed.

Lemma delete_request_safe d b k rq :
  (dr_now d < u0)%Z -> triple safe (ready (dr_uuid d)) (delete_object_request d cluster_mode b k rq) (fun _ => safe).
Proof.
  intros Hn. unfold delete_object_request. case_match; [apply act_map_safe, ready_quiet; safes|].
  destruct (query_param _ "uploadId"); apply act_map_safe; [apply ready_quiet; safes|by apply delete_object_safe].
Qed.

Lemma triple_safe_call {A} P (m : hact ArcaError A) a : triple safe P m (fun _ => safe) -> P a -> safe (m a).1.
Proof. intros H Ha. by eapply triple_end. Qed.

Lemma call_safe x a : ids_fresh x a -> in_time x -> safe a -> safe (call cluster_mode x a).
Proof.
  intros Hf Ht Ha. destruct x; cbn [call ids_fresh in_time] in *;
    try (by eapply triple_safe_call; [first [by apply put_object_safe|by apply post_object_safe|by apply delete_request_safe
      |by apply delete_objects_safe|by apply expire_object_safe]|]).
  - by apply create_bucket_safe.
  - by apply delete_bucket_safe.
  - by apply versioning_safe.
  - by apply object_lock_safe.
  - by apply put_lifecycle_safe.
  - by apply delete_lifecycle_safe.
  - by apply put_replication_safe.
  - by apply delete_replication_safe.
  - destruct Ht as [Ht Hl]. by apply expire_noncurrent_safe.
  - by apply abort_stale_safe.
Qed.

Fixpoint all_ids_fresh (cs : list Call) (a : AppState) : Prop :=
  match cs with [] => True | x :: cs' => ids_fresh x a /\ all_ids_fresh cs' (call cluster_mode x a) end.

Lemma calls_safe cs a : all_ids_fresh cs a -> Forall in_time cs -> safe a -> safe (calls cluster_mode cs a).
Proof.
  revert a. induction cs as [|x cs IH]; intros a; [done|]. intros [Hx Hcs] [Ht Hts]%Forall_cons Ha. apply IH; [done..|].
  by apply call_safe.
Qed.
End worm.

Section retention.
Context {http : HttpLib} {crypto : SigCrypto} {codecs : BodyCodecs} {lib : LockLib} {wlib : WriteLib}.
Context {rjson : ReplicationJson} {ljson : LifecycleJson}.
Context (parts_of : string -> list string) (cluster_mode : bool).

(** A bucket with Object Lock, in a database as the store keeps it. *)
Record lock_bucket (b : string) (s : MetaStore) : Prop := {
  lb_rows : rows_ok (ms_objects s);
  lb_exists : is_some (ms_buckets s !! b) = true;
  lb_versioning : get_versioning_state b s = Enabled;
  lb_lock : is_some (get_bucket_config b "object_lock" s) = true;
}.

End retention.
