(* ===== verification/WriteRuns.v ===== *)
(** The theorems about sequences of requests at a concrete one: a bucket with Object
    Lock, a version under retention, attempts to get rid of it, a multipart upload. *)

From S2P Require Import Prelude S3Errors Types SqlTable Text BlobRead FsBlob Preconditions MetadataStore MetadataRows MetadataInvariant.
From S2P Require Import MetadataSteps MetadataOps MetadataListing Sigv4 Sigv4Sample Middleware MiddlewareRuns ChunkedBody UploadIntegrity.
From S2P Require Import MultipartChecksum ReplicationRules ReplicationJournal AppState ReplicatorRuns ObjectLock Lifecycle.
From S2P Require Import ObjectWrites HandlerBlobs Worm.

(** ** Decision procedures for the conditions *)

Section checks.
Context {http : HttpLib} {crypto : SigCrypto} {codecs : BodyCodecs} {lib : LockLib} {wlib : WriteLib}.
Context {rjson : ReplicationJson} {ljson : LifecycleJson}.
Context (parts_of : string -> list string) (cluster_mode : bool).

Definition held (s : MetaStore) : list string :=
  (row_blob ∘ snd <$> map_to_list (ms_objects s)) ++ (pt_blob_id ∘ snd <$> map_to_list (ms_parts s)).

Lemma held_spec s h b : holds s h b -> b ∈ held s.
Proof.
  intros [_ H]. unfold held. apply elem_of_app. destruct h as [i|id]; [left|right]; apply fmap_Some in H as (x & Hx & ->);
    apply list_elem_of_fmap; eexists (_, x); (split; [done|]); by apply elem_of_map_to_list.
Qed.

Definition unusedb (id : string) (a : AppState) : bool :=
  bool_decide (id <> EmptyString) && bool_decide (id ∉ app_discarded a)
  && forallb (fun b => bool_decide (id ∉ files parts_of b)) (app_deleted_blobs a ++ held (app_meta a)).

Lemma unusedb_spec id a : unusedb id a = true -> unused parts_of id a.
Proof.
  intros [[H1%bool_decide_eq_true H2%bool_decide_eq_true]%andb_true_iff H3]%andb_true_iff.
  rewrite forallb_forall in H3. assert (forall b, b ∈ app_deleted_blobs a ++ held (app_meta a) -> id ∉ files parts_of b) as H4.
  { intros b Hb. specialize (H3 b). rewrite bool_decide_eq_true in H3. apply H3. by apply list_elem_of_In. }
  split_and!; [done| |].
  - intros [(b & Hb & Hf)|?]; [|done]. apply (H4 b); [|done]. apply elem_of_app. by left.
  - intros h b Hb. apply H4, elem_of_app. right. by eapply held_spec.
Qed.

Definition version_ids (s : MetaStore) : list string := omap (o_version_id ∘ row_rec ∘ snd) (map_to_list (ms_objects s)).

Lemma version_ids_spec a i x u :
  ms_objects (app_meta a) !! i = Some x -> o_version_id (row_rec x) = Some u -> u ∈ version_ids (app_meta a).
Proof. intros Hi Hx. apply list_elem_of_omap. exists (i, x). split; [by apply elem_of_map_to_list|done]. Qed.

Definition freshb (u : string) (a : AppState) : bool := bool_decide (u ∉ version_ids (app_meta a)).

Lemma freshb_spec u a : freshb u a = true -> id_fresh u a.
Proof. intros H%bool_decide_eq_true i x Hi Hx. apply H. by eapply version_ids_spec. Qed.

(** The ids of a batch: a prefix and a number. *)
Definition numbered (prefix : string) (now : Z) (n : nat) : Z * string := (now, prefix +:+ tally n).

Definition prefix_freshb (prefix : string) (a : AppState) : bool :=
  forallb (fun v => negb (starts_with v prefix)) (version_ids (app_meta a)).

Lemma numbered_fresh prefix now a : prefix_freshb prefix a = true -> stamps_fresh (numbered prefix now) a.
Proof.
  unfold prefix_freshb. intros H. rewrite forallb_forall in H. split.
  - intros n i x Hi Hx. assert (prefix +:+ tally n ∈ version_ids (app_meta a)) as Hin by by eapply version_ids_spec.
    apply list_elem_of_In, H in Hin. rewrite (proj2 (starts_with_spec _ _)) in Hin; [done|by eexists].
  - intros n m E. cbn in E. apply tally_inj. by apply (inj (String.append prefix)) in E.
Qed.

(** The conditions of every call of a sequence, batches numbered from [prefix]. *)
Definition call_freshb (prefix : string) (x : Call) (a : AppState) : bool :=
  match x with
  | CPut _ io d _ _ _ _ => unusedb (io_blob_id io) a && bool_decide (parts_of (io_blob_id io) = []) && freshb (dr_uuid d) a
  | CPost io d _ _ _ _ => unusedb (io_blob_id io) a && freshb (dr_uuid d) a
  | CDelete d _ _ _ => freshb (dr_uuid d) a
  | CDeleteObjects _ _ _ _ _ => prefix_freshb prefix a
  | CExpire _ uuid _ _ _ => freshb uuid a
  | _ => true
  end.

Fixpoint all_freshb (prefix : string) (cs : list Call) (a : AppState) : bool :=
  match cs with
  | [] => true
  | x :: cs' => call_freshb prefix x a && all_freshb prefix cs' (call cluster_mode x a)
  end.

Definition regular (prefix : string) (x : Call) : Prop :=
  match x with
  | CPost io _ _ _ _ _ => concat_ok parts_of io
  | CDeleteObjects _ stamps _ _ _ => exists now, stamps = numbered prefix now
  | _ => True
  end.

Lemma call_freshb_spec prefix x a :
  regular prefix x -> call_freshb prefix x a = true -> draws_fresh parts_of x a /\ ids_fresh x a.
Proof.
  destruct x; cbn; intros Hr H; try done.
  - apply andb_true_iff in H as [[H1 H2%bool_decide_eq_true]%andb_true_iff H3].
    split; [split; [by apply unusedb_spec|done]|by apply freshb_spec].
  - apply andb_true_iff in H as [H1 H2]. split; [split; [by apply unusedb_spec|done]|by apply freshb_spec].
  - split; [done|by apply freshb_spec].
  - destruct Hr as [t ->]. split; [done|by apply numbered_fresh].
  - split; [done|by apply freshb_spec].
Qed.

Lemma all_freshb_spec prefix cs a :
  Forall (regular prefix) cs -> all_freshb prefix cs a = true ->
  all_fresh parts_of cluster_mode cs a /\ all_ids_fresh cluster_mode cs a.
Proof.
  revert a. induction cs as [|x cs IH]; intros a; [done|]. intros [Hr Hrs]%Forall_cons [H1 H2]%andb_true_iff.
  destruct (call_freshb_spec prefix x a Hr H1). by destruct (IH _ Hrs H2).
Qed.
End checks.

(** ** The services *)

#[local] Instance run_codecs : BodyCodecs := {|
  crc_or_sha1 _ data := data; b64_decode s := Some s; b64_encode s := s; hex_decode s := Some s |}.

#[local] Instance run_lock_lib : LockLib := {|
  parse_from_rfc3339 s := if bool_decide (s = "day-100") then Some 100%Z else if bool_decide (s = "day-50") then Some 50%Z else None;
  parse_from_rfc2822 _ := None; parse_http_date _ := None;
  to_rfc3339 _ := "date"; min_instant := 0; max_instant := 1000; lock_to_json _ := "lock"; lock_of_json _ := None |}.

#[local] Instance run_write_lib : WriteLib := {| md5_of s := s; url_decode s := Some s |}.
#[local] Instance run_rjson : ReplicationJson := {| replication_to_json _ := "rules"; replication_of_json _ := None |}.
#[local] Instance run_ljson : LifecycleJson := {| lifecycle_to_json _ := "rules"; lifecycle_of_json _ := None |}.

Definition run_parts (b : string) : list string := if bool_decide (b = "whole") then ["p1"; "p2"] else [].

Definition run_put (etag : string) (composite : option (list CompositePart)) : BlobPutResult :=
  {| bp_size := 7000000; bp_etag := etag; bp_encryption := None; bp_compression := None; bp_composite_parts := composite |}.

(** A store that answers for the blob [id]; a concatenation needs its parts. *)
Definition run_io (id : string) : BlobIO := {|
  io_blob_id := id;
  io_put _ := Ok (run_put id None);
  io_put_with_key _ _ := Ok (run_put id None, "nonce");
  io_get _ _ := Ok ([], Ok tt);
  io_get_with_key _ _ _ _ := Ok ([], Ok tt);
  io_concat ids := if forallb (fun f => bool_decide (f ∈ ids) && bool_decide (f <> EmptyString)) (run_parts id)
                   then Ok (run_put id (Some [])) else Err (Internal "missing part");
  io_write_sidecar _ := Ok tt |}.

Lemma run_concat_ok id : concat_ok run_parts (run_io id).
Proof.
  intros ids p f. cbn. destruct (forallb _ _) eqn:E; [|done]. intros [= <-] Hf. split; [done|].
  rewrite forallb_forall in E. apply list_elem_of_In, E, andb_true_iff in Hf as [H1 H2].
  by apply bool_decide_eq_true in H1, H2.
Qed.

Definition run_env : ServerEnv := {| se_max_body_size := 100000000; se_cluster := None; se_local_disk := (None, None); se_ssec := false |}.

Definition run_draw (now : Z) (uuid : string) : Draw :=
  {| dr_now := now; dr_instant := now; dr_uuid := uuid; dr_uuids := fun n => uuid +:+ tally n |}.

Definition run_request (headers : Headers) (query : option string) : WriteRequest :=
  {| wq_headers := headers; wq_query := query; wq_user := "user"; wq_chunk_verifier := None; wq_body := [inl "data"] |}.

Definition run_bodies : PutBodies :=
  {| pb_tagging := Unreadable;
     pb_retention := Document (Some {| xt_mode := Some "COMPLIANCE"; xt_retain_until_date := Some "day-50" |});
     pb_legal_hold := Unreadable |}.

Definition run_put_object (now : Z) (id uuid : string) (headers : Headers) (query : option string) : Call :=
  CPut run_env (run_io id) (run_draw now uuid) "bucket" "key" (run_request headers query) run_bodies.

Definition run_part (n : Z) : CompletePart := {| cpt_part_number := n; cpt_etag := "p" +:+ u64_to_string n; cpt_checksums := fun _ => None |}.

(** A bucket with Object Lock and a version under retention until day 100. *)
Definition run_start : list Call :=
  [CCreateBucket 0 "bucket" "owner" [("x-amz-bucket-object-lock-enabled", "true")];
   run_put_object 1 "b1" "v1" [("x-amz-object-lock-mode", "COMPLIANCE"); ("x-amz-object-lock-retain-until-date", "day-100")] None].

(** Attempts on the version, and a multipart upload of the same key. *)
Definition run_attempts : list Call :=
  [run_put_object 2 "b2" "v2" [] None;
   CDelete (run_draw 3 "m3") "bucket" "key" (run_request [("x-amz-bypass-governance-retention", "true")] (Some "versionId=v1"));
   CDelete (run_draw 4 "m4") "bucket" "key" (run_request [] None);
   CDeleteObjects 5 (numbered "s" 5) "bucket" "user"
     (Document (Some [{| do_key := "key"; do_version_id := Some "v1"; do_etag := None; do_last_modified_time := None; do_size := None |};
                      {| do_key := "key"; do_version_id := Some "v2"; do_etag := None; do_last_modified_time := None; do_size := None |}]));
   run_put_object 6 "b6" "v6" [] (Some "retention&versionId=v1");
   CVersioning 7 "bucket" (Document (Some "<Status>Suspended</Status>"));
   CDeleteBucket "bucket";
   CPost (run_io "b8") (run_draw 8 "up") "bucket" "key" (run_request [] (Some "uploads")) Unreadable;
   run_put_object 9 "p1" "v9" [] (Some "partNumber=1&uploadId=up");
   run_put_object 10 "p2" "v10" [] (Some "partNumber=2&uploadId=up");
   CPost (run_io "whole") (run_draw 11 "v11") "bucket" "key" (run_request [] (Some "uploadId=up"))
     (Document (Some (Some [run_part 1; run_part 2])))].

(** ** The theorems at this sequence *)

Lemma run_regular : Forall (regular run_parts "s") (run_start ++ run_attempts).
Proof. repeat (apply Forall_cons; split); [exact I || apply run_concat_ok || by exists 5%Z..|by apply Forall_nil]. Qed.

Abbreviation run_locked := (calls false run_start empty_app).
Abbreviation run_end := (calls false (run_start ++ run_attempts) empty_app).

Lemma run_fresh : all_freshb run_parts false "s" (run_start ++ run_attempts) empty_app = true.
Proof. vm_compute. reflexivity. Qed.

Lemma run_deleted : app_deleted_blobs run_end = ["b2"].
Proof. vm_compute. reflexivity. Qed.

Lemma run_current : o_blob_id <$> get_object "bucket" "key" (app_meta run_end) = Some "whole".
Proof. vm_compute. reflexivity. Qed.

Lemma run_version : o_blob_id <$> get_object_version "bucket" "key" "v1" (app_meta run_end) = Some "b1".
Proof. vm_compute. reflexivity. Qed.

(** Only the blob of [v2] was deleted. *)
Lemma blobs_never_lost_witness :
  app_deleted_blobs run_end = ["b2"] /\
  exists r r', get_object "bucket" "key" (app_meta run_end) = Some r /\ o_blob_id r = "whole" /\
    get_object_version "bucket" "key" "v1" (app_meta run_end) = Some r' /\ o_blob_id r' = "b1" /\
    forall f, f ∈ ["whole"; "p1"; "p2"; "b1"] -> ~ removed run_parts run_end f.
Proof.
  split; [exact run_deleted|].
  destruct (blobs_never_lost run_parts eq_refl false (run_start ++ run_attempts) empty_app) as (H & _ & _);
    [reflexivity|reflexivity|exact (proj1 (all_freshb_spec _ _ _ _ _ run_regular run_fresh))|].
  pose proof run_current as (r & Hr & Er)%fmap_Some. pose proof run_version as (r' & Hr' & Er')%fmap_Some.
  exists r, r'. do 4 (split; [congruence|]).
  intros f Hf. assert (f ∈ files run_parts (o_blob_id r) \/ f ∈ files run_parts (o_blob_id r')) as [Hw|Hb].
  { rewrite <- Er, <- Er'. cbn. set_solver +Hf. }
  - apply (H "bucket" "key" EmptyString r); [left; exact Hr|rewrite <- Er; discriminate|exact Hw].
  - apply (H "bucket" "key" "v1" r'); [right; exact Hr'|rewrite <- Er'; discriminate|exact Hb].
Defined.

Lemma rows_ok_single i x : latest x -> live x -> rows_ok {[i := x]}.
Proof.
  intros Hl Hv b k. split.
  - intros j j' y y' [<- <-]%lookup_singleton_Some [<- <-]%lookup_singleton_Some. done.
  - split; [|split].
    + intros j j' y y' [<- <-]%lookup_singleton_Some [<- <-]%lookup_singleton_Some. done.
    + intros j y [<- <-]%lookup_singleton_Some. done.
    + intros j y [<- <-]%lookup_singleton_Some Hk _. exists i, x. by rewrite lookup_singleton_eq.
Qed.

Lemma rows_ok_one m : match map_to_list m with [(i, x)] => latest x /\ live x | _ => False end -> rows_ok m.
Proof.
  destruct (map_to_list m) as [|[i x] [|y l]] eqn:E; [done| |done]. intros [Hl Hv].
  assert (m = {[i := x]}) as ->; [|by apply rows_ok_single]. apply map_to_list_inj. by rewrite E, map_to_list_singleton.
Qed.

Lemma run_lock_bucket : lock_bucket "bucket" (app_meta run_locked).
Proof. split; [apply rows_ok_one; vm_compute; split; reflexivity|vm_compute; reflexivity..]. Qed.

Lemma run_attempts_regular : Forall (regular run_parts "s") run_attempts.
Proof. apply (proj2 (proj1 (Forall_app _ run_start run_attempts) run_regular)). Qed.

Lemma run_start_fresh : all_freshb run_parts false "s" run_start empty_app = true.
Proof. vm_compute. reflexivity. Qed.

Lemma run_attempts_fresh : all_freshb run_parts false "s" run_attempts run_locked = true.
Proof. vm_compute. reflexivity. Qed.

Lemma run_locked_blobs : blobs_ok run_parts run_locked.
Proof.
  apply calls_blobs_ok; [done| |].
  - apply (proj1 (all_freshb_spec run_parts false "s" run_start empty_app (proj1 (proj1 (Forall_app _ run_start run_attempts) run_regular))
      run_start_fresh)).
  - assert (forall h b, ~ holds (app_meta empty_app) h b) as Hn
      by (intros [i|id] b [_ H]; cbn in H; rewrite lookup_empty in H; done).
    split; [intros h h' b b' f Hb|intros h b f Hb]; by destruct (Hn h b).
Qed.

Lemma run_retained :
  (fun r => (o_is_delete_marker r, o_blob_id r, o_retention_mode r, o_retain_until_date r)) <$>
    get_object_version "bucket" "key" "v1" (app_meta run_locked) = Some (false, "b1", Some "COMPLIANCE", Some 100%Z).
Proof. vm_compute. reflexivity. Qed.

Lemma run_in_time c : Forall (in_time "bucket" "key" "v1" c 100) run_attempts.
Proof. repeat (apply Forall_cons; split); try exact I; try (cbn; lia). by apply Forall_nil. Qed.


(** ** A part uploaded again while the upload completes *)

(** The bucket, an upload and its first part. *)
Definition race_start : AppState :=
  calls false
    [CCreateBucket 0 "bucket" "owner" [];
     CPost (run_io "b1") (run_draw 1 "up") "bucket" "key" (run_request [] (Some "uploads")) Unreadable;
     run_put_object 2 "p1" "v2" [] (Some "partNumber=1&uploadId=up");
     run_put_object 3 "p2" "v3" [] (Some "partNumber=2&uploadId=up")] empty_app.

(** The completion up to its transaction, part 1 uploaded again, the rest of the completion. *)
Definition race : AppState * outcome ArcaError CompleteAnswer :=
  let rq := run_request [] (Some "uploadId=up") in
  let d := run_draw 5 "v5" in
  let body := Document (Some (Some [run_part 1; run_part 2])) in
  match get_multipart_upload "up" (app_meta race_start) with
  | None => (race_start, Panic)
  | Some upload =>
      match assemble (run_io "whole") d "bucket" "key" "up" rq body upload race_start with
      | (a1, Ok m) =>
          let '(a2, _) := upload_part run_env (run_io "p1-again") (run_draw 4 "v4") "bucket" "key" 1 "up" (run_request [] None) a1 in
          commit_assembled d "up" rq m a2
      | (a1, _) => (a1, Panic)
      end
  end.

Lemma completion_race :
  is_ok race.2 = true /\ o_blob_id <$> get_object "bucket" "key" (app_meta race.1) = Some "whole" /\
  "p1" ∈ files run_parts "whole" /\ app_deleted_blobs race.1 = ["p1"].
Proof. split; [vm_compute; reflexivity|]. split; [vm_compute; reflexivity|]. split; [cbn; set_solver|vm_compute; reflexivity]. Qed.
