(* ===== verification/ObjectReads.v ===== *)
(** The handlers that read objects: GetObject, HeadObject, ListParts and
    GetObjectAttributes of [crates/arca-proto/src/handlers/object.rs], and the part
    layouts of [.../object_parts.rs].

    A response is its status, its headers in order and the stream of its body; the
    builder of the http crate refuses a header that is not valid, and the handlers
    panic then.  Sizes and offsets are [u64], as in [BlobRead].

    [range_request_exact] says which bytes a range or part request gets and how many
    it announces, [uploaded_object_downloads] that a download is the upload. *)

From Stdlib Require Import Ascii.
From S2P Require Import Prelude S3Errors Types SqlTable Text BlobRead FsBlob Preconditions MetadataStore MetadataRows MetadataInvariant.
From S2P Require Import MetadataSteps MetadataOps MetadataListing Sigv4 Sigv4Sample Middleware MiddlewareRuns ChunkedBody ChunkedBodySafety.
From S2P Require Import UploadIntegrity MultipartChecksum ReplicationRules ReplicationJournal AppState ReplicatorRuns ObjectLock Lifecycle.
From S2P Require Import ObjectWrites HandlerBlobs WriteRuns.

(** What the http crate accepts in a header, and the date format of [Last-Modified]. *)
Class ReadLib : Type := {
  header_name_ok : string -> bool;
  header_value_ok : string -> bool;
  http_date : Z -> string;
}.

Record ReadRequest : Type := { rr_headers : Headers; rr_query : option string }.

(** What the blob store answers during a request. *)
Record ReadIO : Type := {
  ri_get : string -> option ByteRange -> outcome ArcaError Stream;
  ri_get_with_key : string -> option ByteRange -> string -> string -> Z -> outcome ArcaError Stream;
}.

Record Response : Type := {
  rs_status : Z;
  rs_headers : list (string * string);
  rs_body : Stream;
}.

(** [string_to_latin1]. *)
Definition string_to_latin1 (s : string) : string :=
  foldr (fun c acc => String (if (c <=? 255)%N then Ascii.ascii_of_N c else "?"%char) acc) EmptyString (chars s).

(** ** Parts of an object *)

Definition DEFAULT_MAX_PARTS : Z := 1000.

Record PartSelection : Type := {
  ps_range : option ByteRange;
  ps_parts_count : option Z;
  ps_checksum : option string;
}.

(** [u32::try_from(n).unwrap_or(u32::MAX)]. *)
Definition count_u32 (n : nat) : Z := Z.min (Z.of_nat n) (2 ^ 32 - 1).

Definition sizes_before (parts : list ObjectPart) : Z := foldl (fun acc p => u64 (acc + op_size p)) 0%Z parts.

Definition select_part (record : ObjectRecord) (part_number : Z) : outcome string PartSelection :=
  match o_parts record with
  | None =>
      if contains (o_etag record) "-" then
        Err "The part layout of this object was not recorded (it was completed by an older version)"
      else if (part_number =? 1)%Z then Ok {| ps_range := None; ps_parts_count := None; ps_checksum := None |}
      else Err "The requested partnumber is not satisfiable"
  | Some parts =>
      if (part_number <? 1)%Z then Err "The requested partnumber is not satisfiable"
      else
        let index := Z.to_nat (part_number - 1) in
        match parts !! index with
        | None => Err "The requested partnumber is not satisfiable"
        | Some part =>
            let start := sizes_before (take index parts) in
            Ok {| ps_range := if (0 <? op_size part)%Z
                              then Some {| br_start := start; br_end := Some (u64 (u64 (start + op_size part) - 1)) |}
                              else None;
                  ps_parts_count := Some (count_u32 (length parts));
                  ps_checksum := op_checksum part |}
        end
  end.

Record PartsPage : Type := {
  pp_total : Z;
  pp_parts : list ObjectPart;
  pp_next_marker : option Z;
}.

Definition parts_page (parts : list ObjectPart) (marker max_parts : Z) : PartsPage :=
  let remaining := List.filter (fun p => (marker <? op_part_number p)%Z) parts in
  let take_ := Z.to_nat max_parts in
  let page := take take_ remaining in
  {| pp_total := count_u32 (length parts);
     pp_parts := page;
     pp_next_marker := if (take_ <? length remaining)%nat then Some (from_option op_part_number marker (last page)) else None |}.

(** ** Ranges *)

Inductive RangeParseResult : Type := Range (r : ByteRange) | NoRange | InvalidRange_.

Section reads.
Context {http : HttpLib} {crypto : SigCrypto} {codecs : BodyCodecs} {lib : LockLib} {wlib : WriteLib} {rlib : ReadLib}.

Definition parse_range_header (headers : Headers) (file_size : Z) : RangeParseResult :=
  match hget_str headers "range" with
  | None => NoRange
  | Some range_str =>
      match (strip_prefix "bytes=" range_str ≫= split_once "-"%char) with
      | None => InvalidRange_
      | Some (first, last) =>
          if bool_decide (first = EmptyString) then
            match parse_u64 last with
            | Some suffix_len =>
                if (suffix_len =? 0)%Z || (file_size =? 0)%Z then InvalidRange_
                else Range {| br_start := Z.max 0 (file_size - suffix_len); br_end := None |}
            | None => InvalidRange_
            end
          else
            match parse_u64 first with
            | None => InvalidRange_
            | Some start =>
                match (if bool_decide (last = EmptyString) then Some None else Some <$> parse_u64 last) with
                | None => InvalidRange_
                | Some stop =>
                    let stop := (fun e => Z.min e (u64 (file_size - 1))) <$> stop in
                    if (file_size <=? start)%Z then InvalidRange_ else Range {| br_start := start; br_end := stop |}
                end
            end
      end
  end.

Definition wants_part_number (query : string) : bool := is_some (query_param query "partNumber").

Definition part_selection (query : string) (headers : Headers) (record : ObjectRecord) (resource : string)
  : outcome S3Error (option PartSelection) :=
  match query_param query "partNumber" with
  | None => Ok None
  | Some value =>
      match (n ← parse_u32 value; if (1 <=? n)%Z && (n <=? MAX_PART_NUMBER)%Z then Some n else None) with
      | None => Err (with_message InvalidArgument "Part number must be an integer between 1 and 10000, inclusive" resource)
      | Some number =>
          if has_header headers "range" then
            Err (with_message InvalidRequest "Cannot specify both a range header and a partNumber query parameter" resource)
          else
            match select_part record number with
            | Ok p => Ok (Some p)
            | Err message => Err (with_message InvalidPart message resource)
            | Panic => Panic
            end
      end
  end.

(** The bytes to read, [None] for all of them. *)
Definition byte_range (part : option PartSelection) (range : RangeParseResult) (resource : string)
  : outcome S3Error (option ByteRange) :=
  match part, range with
  | Some selected, _ => Ok (ps_range selected)
  | None, Range r => Ok (Some r)
  | None, NoRange => Ok None
  | None, InvalidRange_ => Err (S3Error_new InvalidRange resource)
  end.

Definition is_part (part : option PartSelection) : bool := is_some (part ≫= ps_parts_count).

(** The status, the length and the [Content-Range] of a response; [last] is the end
    of a range that names none. *)
Definition extent (last size : Z) (part : option PartSelection) (range : option ByteRange) : Z * Z * option string :=
  match range with
  | Some r =>
      let stop := default last (br_end r) in
      (206%Z, u64 (u64 (stop - br_start r) + 1),
       Some ("bytes " +:+ u64_to_string (br_start r) +:+ "-" +:+ u64_to_string stop +:+ "/" +:+ u64_to_string size))
  | None => if is_part part then (206%Z, 0%Z, None) else (200%Z, size, None)
  end.

(** ** Headers *)

Definition opt_header (n : string) (v : option string) : list (string * string) :=
  match v with Some v => [(n, v)] | None => [] end.

Definition checksum_headers (record : ObjectRecord) (part : option PartSelection) : list (string * string) :=
  match o_checksum_algorithm record, o_checksum_value record with
  | Some algorithm, Some object_value =>
      match (match part with Some selected => ps_checksum selected | None => Some object_value end) with
      | Some value => [("x-amz-checksum-" +:+ lowercase_unicode algorithm, value);
                       ("x-amz-checksum-type", type_as_str (of_value object_value))]
      | None => []
      end
  | _, _ => []
  end.

Definition sse_headers (record : ObjectRecord) (ssec : option SsecKey) : list (string * string) :=
  match ssec with
  | Some key => [("x-amz-server-side-encryption-customer-algorithm", "AES256");
                 ("x-amz-server-side-encryption-customer-key-md5", sk_key_md5 key)]
  | None => if is_some (o_encryption_algorithm record) then [("x-amz-server-side-encryption", "AES256")] else []
  end.

Definition tag_headers (tag_count : nat) : list (string * string) :=
  if (0 <? tag_count)%nat then [("x-amz-tagging-count", u64_to_string (Z.of_nat tag_count))] else [].

Definition lock_headers (record : ObjectRecord) : list (string * string) :=
  opt_header "x-amz-object-lock-mode" (o_retention_mode record)
  ++ opt_header "x-amz-object-lock-retain-until-date" (to_rfc3339 <$> o_retain_until_date record)
  ++ (if bool_decide (o_legal_hold_status record = Some "ON") then [("x-amz-object-lock-legal-hold-status", "ON")] else []).

Definition storage_headers (record : ObjectRecord) : list (string * string) :=
  if bool_decide (o_storage_class record = "STANDARD") then [] else [("x-amz-storage-class", o_storage_class record)].

Definition metadata_headers (record : ObjectRecord) : list (string * string) :=
  omap (fun e => let v := string_to_latin1 e.2 in if header_value_ok v then Some (e.1, v) else None)
    (map_to_list (o_metadata record)).

(** The last value of a query parameter. *)
Definition override (query : option string) (n : string) : option string :=
  q ← query; snd <$> last (filter (fun p : string * string => p.1 = n) (form_parse q)).

Definition checksum_requested (headers : Headers) : bool :=
  from_option (fun v => eq_ignore_ascii_case v "ENABLED") false (hget_str headers "x-amz-checksum-mode").

Definition base_headers (record : ObjectRecord) (content_length : Z) (content_type : string) : list (string * string) :=
  [("ETag", quoted (o_etag record)); ("Last-Modified", http_date (o_last_modified record));
   ("Content-Length", u64_to_string content_length); ("Content-Type", content_type); ("Accept-Ranges", "bytes")].

Definition content_type_of (record : ObjectRecord) : string := default "application/octet-stream" (o_content_type record).

(** Whether the selected part is reported as a part. *)
Definition selected_part (part : option PartSelection) : option PartSelection :=
  p ← part; if is_some (ps_parts_count p) then Some p else None.

Definition get_headers (rq : ReadRequest) (record : ObjectRecord) (tag_count : nat) (ssec : option SsecKey)
    (part : option PartSelection) (status content_length : Z) (content_range : option string) : list (string * string) :=
  base_headers record content_length (default (content_type_of record) (override (rr_query rq) "response-content-type"))
  ++ opt_header "x-amz-version-id" (o_version_id record)
  ++ opt_header "x-amz-replication-status" (o_replication_status record)
  ++ opt_header "Content-Range" content_range
  ++ opt_header "Cache-Control" (override (rr_query rq) "response-cache-control")
  ++ opt_header "Content-Disposition" (override (rr_query rq) "response-content-disposition")
  ++ opt_header "Content-Encoding" (override (rr_query rq) "response-content-encoding")
  ++ opt_header "Content-Language" (override (rr_query rq) "response-content-language")
  ++ opt_header "Expires" (override (rr_query rq) "response-expires")
  ++ sse_headers record ssec ++ tag_headers tag_count ++ lock_headers record
  ++ opt_header "x-amz-mp-parts-count" (u64_to_string <$> (part ≫= ps_parts_count))
  ++ (if checksum_requested (rr_headers rq) && (negb (status =? 206)%Z || is_part part)
      then checksum_headers record (selected_part part) else [])
  ++ storage_headers record ++ metadata_headers record.

Definition head_headers (rq : ReadRequest) (record : ObjectRecord) (tag_count : nat) (ssec : option SsecKey)
    (part : option PartSelection) (content_length : Z) (content_range : option string) : list (string * string) :=
  base_headers record content_length (content_type_of record)
  ++ opt_header "Content-Range" content_range
  ++ opt_header "x-amz-mp-parts-count" (u64_to_string <$> (part ≫= ps_parts_count))
  ++ opt_header "x-amz-version-id" (o_version_id record)
  ++ opt_header "x-amz-replication-status" (o_replication_status record)
  ++ sse_headers record ssec ++ tag_headers tag_count ++ lock_headers record
  ++ (if checksum_requested (rr_headers rq) then checksum_headers record (selected_part part) else [])
  ++ storage_headers record ++ metadata_headers record.

(** ** Handlers *)

Local Open Scope act_scope.

Definition headers_ok (headers : list (string * string)) : bool :=
  forallb (fun h => header_name_ok h.1 && header_value_ok h.2) headers.

(** The response builder, which the handlers expect to succeed. *)
Definition respond (status : Z) (headers : list (string * string)) (body : Stream) : hact ArcaError Response := fun a =>
  (a, if headers_ok headers then Ok {| rs_status := status; rs_headers := headers; rs_body := body |} else Panic).

(** An object, the delete marker a version names, or the one that hides the key. *)
Inductive Lookup : Type :=
  | LFound (record : ObjectRecord) (tag_count : nat)
  | LMarker (version_id : option string)
  | LHidden (version_id : option string).

Definition lookup_record (bucket key : string) (version_id : option string) (resource : string) : hact ArcaError Lookup :=
  match version_id with
  | Some vid =>
      let! found := ask (fun a => get_object_version_with_tag_count bucket key vid (app_meta a)) in
      match found with
      | Some (r, n) => act_ret (if o_is_delete_marker r then LMarker (o_version_id r) else LFound r n)
      | None => act_fail (S3 (S3Error_new NoSuchVersion resource))
      end
  | None =>
      let! found := ask (fun a => get_object_with_tag_count bucket key (app_meta a)) in
      match found with
      | Some (r, n) => act_ret (LFound r n)
      | None =>
          let! latest := ask (fun a => get_latest_object bucket key (app_meta a)) in
          match latest with
          | Some r => if o_is_delete_marker r then act_ret (LHidden (o_version_id r))
                      else act_fail (S3 (S3Error_new NoSuchKey resource))
          | None => act_fail (S3 (S3Error_new NoSuchKey resource))
          end
      end
  end.

Definition set_parts (parts : option (list ObjectPart)) (r : ObjectRecord) : ObjectRecord :=
  let '(MkObject bu ke bl si et ct lm md ea ek ow vi la dm ts rm rd lh sc ca cv _ rs lu cu) := r in
  MkObject bu ke bl si et ct lm md ea ek ow vi la dm ts rm rd lh sc ca cv parts rs lu cu.

(** The record with the layout of its parts. *)
Definition load_parts (bucket key : string) (record : ObjectRecord) : hact ArcaError ObjectRecord :=
  ask (fun a => set_parts (get_object_parts bucket key (o_version_id record) (app_meta a)) record).

(** A response the handler builds, 304 with the etag, or NoSuchKey with the headers
    of the delete marker that hides the key. *)
Inductive ReadAnswer : Type :=
  | ReadResponse (r : Response)
  | ReadNotModified (etag : string)
  | ReadHidden (version_id : option string).

(** The answer to a read of a version that is a delete marker. *)
Definition marker_response (status : Z) (allow : list (string * string)) (version_id : option string) : hact ArcaError ReadAnswer :=
  act_map ReadResponse
    (respond status (("x-amz-delete-marker", "true") :: allow ++ opt_header "x-amz-version-id" version_id) ([], Ok tt)).

(** What GET and HEAD check before they look at the bytes. *)
Inductive Checked : Type :=
  | CheckedNotModified
  | CheckedObject (record : ObjectRecord) (ssec : option SsecKey) (part : option PartSelection).

Definition read_checks (bucket key : string) (rq : ReadRequest) (record : ObjectRecord) (resource : string)
  : hact ArcaError Checked :=
  let headers := rr_headers rq in
  let query := default EmptyString (rr_query rq) in
  match check_conditionals headers (o_etag record) (o_last_modified record) true with
  | Some NotModified => act_ret CheckedNotModified
  | Some Failed => precondition_failed_at resource
  | None =>
      let! ssec_key := lift S3 (extract_ssec_key headers resource) in
      let is_ssec := bool_decide (o_encryption_algorithm record = Some "SSE-C") in
      if is_ssec && negb (is_some ssec_key) then
        act_fail (S3 (with_message InvalidRequest
          "The object was stored using SSE-C. You must provide the customer encryption key." resource))
      else
        let! record := (if wants_part_number query then load_parts bucket key record else act_ret record) in
        let! part := lift S3 (part_selection query headers record resource) in
        act_ret (CheckedObject record (if is_ssec then ssec_key else None) part)
  end.

Section handlers.
Variables (env : ServerEnv) (io : ReadIO).

(** The bytes of the blob, under the customer key when it has one. *)
Definition open_content (record : ObjectRecord) (ssec : option SsecKey) (range : option ByteRange) (resource : string)
  : hact ArcaError Stream :=
  match ssec with
  | Some key =>
      if negb (se_ssec env) then act_fail (S3 (with_message InvalidArgument "SSE-C is not available" resource))
      else
        match decode_ssec_nonce_prefix (o_encryption_key_id record) with
        | None => act_fail (Internal "invalid SSE-C nonce prefix")
        | Some nonce => stored (fun e => e) (ri_get_with_key io (o_blob_id record) range (sk_key key) nonce (o_size record))
        end
  | None => stored (fun e => e) (ri_get io (o_blob_id record) range)
  end.

(** [GET /{bucket}/{key}] of the content. *)
Definition get_content (bucket key : string) (rq : ReadRequest) : hact ArcaError ReadAnswer :=
  let resource := object_resource bucket key in
  let! _ := require_bucket bucket resource in
  let! found := lookup_record bucket key (query_param (default EmptyString (rr_query rq)) "versionId") resource in
  match found with
  | LMarker vid => marker_response 405 [("Allow", "DELETE")] vid
  | LHidden vid => act_ret (ReadHidden vid)
  | LFound record tag_count =>
      let! checked := read_checks bucket key rq record resource in
      match checked with
      | CheckedNotModified => act_ret (ReadNotModified (quoted (o_etag record)))
      | CheckedObject record ssec part =>
          let! range := lift S3 (byte_range part (parse_range_header (rr_headers rq) (o_size record)) resource) in
          let '(status, content_length, content_range) := extent (u64 (o_size record - 1)) (o_size record) part range in
          let! body := open_content record ssec range resource in
          act_map ReadResponse
            (respond status (get_headers rq record tag_count ssec part status content_length content_range) body)
      end
  end.

(** [HEAD /{bucket}/{key}]. *)
Definition head_object (bucket key : string) (rq : ReadRequest) : hact ArcaError ReadAnswer :=
  let resource := object_resource bucket key in
  let! _ := require_bucket bucket resource in
  let! found := lookup_record bucket key (query_param (default EmptyString (rr_query rq)) "versionId") resource in
  match found with
  | LMarker vid => marker_response 404 [] vid
  | LHidden vid => act_ret (ReadHidden vid)
  | LFound record tag_count =>
      let! checked := read_checks bucket key rq record resource in
      match checked with
      | CheckedNotModified => act_ret (ReadNotModified (quoted (o_etag record)))
      | CheckedObject record ssec part =>
          let '(status, content_length, content_range) :=
            extent (Z.max 0 (o_size record - 1)) (o_size record) part (part ≫= ps_range) in
          act_map ReadResponse (respond status (head_headers rq record tag_count ssec part content_length content_range) ([], Ok tt))
      end
  end.

(** *** ListParts *)

Record ListPartsAnswer : Type := {
  lp_upload_id : string;
  lp_part_number_marker : Z;
  lp_max_parts : Z;
  lp_initiator : string;
  lp_next_marker : option Z;
  lp_is_truncated : bool;
  lp_parts : list PartRecord;
  lp_checksum_algorithm : option string;
}.

Definition list_parts_handler (bucket key query : string) : hact ArcaError ListPartsAnswer :=
  let resource := object_resource bucket key in
  let! _ := require_bucket bucket resource in
  match query_param query "uploadId" with
  | None => act_fail (S3 (S3Error_new InvalidArgument resource))
  | Some upload_id =>
      let number n default_ := default default_ (query_param query n ≫= parse_u32) in
      let max_parts := number "max-parts" 1000%Z in
      let marker := number "part-number-marker" 0%Z in
      let! upload := ask (fun a => get_multipart_upload upload_id (app_meta a)) in
      match upload with
      | None => act_fail (S3 (S3Error_new NoSuchUpload resource))
      | Some upload =>
          let! all_parts := ask (fun a => list_parts upload_id (app_meta a)) in
          let filtered := List.filter (fun p => (marker <? pt_part_number p)%Z) all_parts in
          let is_truncated := (Z.to_nat max_parts <? length filtered)%nat in
          let page := take (Z.to_nat max_parts) filtered in
          act_ret {| lp_upload_id := upload_id; lp_part_number_marker := marker; lp_max_parts := max_parts;
                     lp_initiator := mu_initiator upload;
                     lp_next_marker := if is_truncated then pt_part_number <$> last page else None;
                     lp_is_truncated := is_truncated; lp_parts := page;
                     lp_checksum_algorithm := mu_checksum_algorithm upload |}
      end
  end.

(** *** GetObjectAttributes *)

Record AttributesAnswer : Type := {
  at_etag : option string;
  at_checksum : option (string * string * ChecksumType);
  at_parts : option (PartsPage * Z * Z * option string);
  at_storage_class : option string;
  at_object_size : option Z;
  at_version_id : option string;
}.

Definition header_u32 (headers : Headers) (n : string) (default_ : Z) (resource : string) : outcome S3Error Z :=
  match hget headers n with
  | None => Ok default_
  | Some v =>
      match (to_str v ≫= (fun s => parse_u32 (trim s))) with
      | Some x => Ok x
      | None => Err (with_message InvalidArgument ("Invalid value for " +:+ n) resource)
      end
  end.

(** The number after the last dash. *)
Definition etag_parts (etag : string) : option Z :=
  match rev (split "-"%char etag) with
  | n :: _ :: _ => parse_u32 n
  | _ => None
  end.

(** The page, its marker, its limit and the checksum algorithm of its parts. *)
Definition attribute_parts (record : ObjectRecord) (marker max_parts : Z) : option (PartsPage * Z * Z * option string) :=
  match o_parts record with
  | Some parts => Some (parts_page parts marker max_parts, marker, max_parts, o_checksum_algorithm record)
  | None => (fun total => ({| pp_total := total; pp_parts := []; pp_next_marker := None |}, 0%Z, max_parts, None))
              <$> etag_parts (o_etag record)
  end.

Definition get_object_attributes (bucket key query : string) (headers : Headers) (attrs_header : string)
  : hact ArcaError AttributesAnswer :=
  let resource := object_resource bucket key in
  let! _ := require_bucket bucket resource in
  let requested := trim <$> split ","%char attrs_header in
  let asked n := bool_decide (n ∈ requested) in
  let version_id := query_param query "versionId" in
  let! found := ask (version_or_current bucket key version_id) in
  match found with
  | None => act_fail (S3 (S3Error_new NoSuchKey resource))
  | Some record =>
      let! record := (if asked "ObjectParts" then load_parts bucket key record else act_ret record) in
      let! max_parts := lift S3 (header_u32 headers "x-amz-max-parts" DEFAULT_MAX_PARTS resource) in
      let max_parts := Z.min (Z.max 1 max_parts) DEFAULT_MAX_PARTS in
      let! marker := lift S3 (header_u32 headers "x-amz-part-number-marker" 0 resource) in
      let! _ := respond 200 (("Content-Type", "application/xml") :: opt_header "x-amz-version-id" version_id) ([], Ok tt) in
      act_ret {|
        at_etag := if asked "ETag" then Some (o_etag record) else None;
        at_checksum := if asked "Checksum" then
                         match o_checksum_algorithm record, o_checksum_value record with
                         | Some algorithm, Some value => Some (algorithm, value, of_value value)
                         | _, _ => None
                         end
                       else None;
        at_parts := if asked "ObjectParts" then attribute_parts record marker max_parts else None;
        at_storage_class := if asked "StorageClass" then Some (o_storage_class record) else None;
        at_object_size := if asked "ObjectSize" then Some (o_size record) else None;
        at_version_id := version_id |}
  end.

(** *** Routing *)

Inductive GetAnswer : Type :=
  | GotTags (tags : list (string * string)) (version_id : option string)
  | GotRetention (mode : string) (until : Z)
  | GotLegalHold (status : string)
  | GotParts (parts : ListPartsAnswer)
  | GotAttributes (attributes : AttributesAnswer)
  | GotContent (answer : ReadAnswer).

Definition get_object_request (bucket key : string) (rq : ReadRequest) : hact ArcaError GetAnswer :=
  let query := default EmptyString (rr_query rq) in
  let version_id := query_param query "versionId" in
  if contains query "tagging" then act_map (fun r => GotTags r.1 r.2) (get_object_tagging bucket key query)
  else if contains query "retention" then act_map (fun r => GotRetention r.1 r.2) (get_object_retention bucket key version_id)
  else if contains query "legal-hold" then act_map GotLegalHold (get_object_legal_hold bucket key version_id)
  else if contains query "uploadId" then act_map GotParts (list_parts_handler bucket key query)
  else if contains query "attributes" then
    act_map GotAttributes (get_object_attributes bucket key query (rr_headers rq)
      (default EmptyString (hget_str (rr_headers rq) "x-amz-object-attributes")))
  else act_map GotContent (get_content bucket key rq).
End handlers.

(** ** What is read *)

(** The promise of [BlobStore::get]: the whole blob, or the bytes of a range in it. *)
Definition reads_back (io : ReadIO) (id data : string) : Prop :=
  let size := Z.of_nat (String.length data) in
  (exists ps, ri_get io id None = Ok (ps, Ok tt) /\ cat ps = data) /\
  forall r, (0 <= br_start r <= default (size - 1)%Z (br_end r))%Z -> (default (size - 1)%Z (br_end r) < size)%Z ->
    exists ps, ri_get io id (Some r) = Ok (ps, Ok tt) /\
      cat ps = String.substring (Z.to_nat (br_start r)) (Z.to_nat (default (size - 1)%Z (br_end r) - br_start r + 1)) data.

Definition total (parts : list ObjectPart) : Z := foldr (fun p acc => op_size p + acc)%Z 0%Z parts.

(** The texts around the dash. *)
Definition range_texts (headers : Headers) : option (string * string) :=
  v ← hget_str headers "range"; rest ← strip_prefix "bytes=" v; split_once "-"%char rest.

(** The request names the bytes from [s] to [e] of an object of [size] bytes: with
    [Range: bytes=A-B], [bytes=A-] or [bytes=-N], or with [?partNumber=N]. *)
Inductive asks (rq : ReadRequest) (layout : option (list ObjectPart)) (size : Z) : Z -> Z -> Prop :=
  | asks_span first last a b :
      query_param (default EmptyString (rr_query rq)) "partNumber" = None ->
      range_texts (rr_headers rq) = Some (first, last) ->
      first <> EmptyString -> last <> EmptyString -> parse_u64 first = Some a -> parse_u64 last = Some b ->
      (a <= b)%Z -> (a < size)%Z -> asks rq layout size a (Z.min b (size - 1))
  | asks_from first a :
      query_param (default EmptyString (rr_query rq)) "partNumber" = None ->
      range_texts (rr_headers rq) = Some (first, EmptyString) ->
      first <> EmptyString -> parse_u64 first = Some a -> (a < size)%Z -> asks rq layout size a (size - 1)
  | asks_suffix last n :
      query_param (default EmptyString (rr_query rq)) "partNumber" = None ->
      range_texts (rr_headers rq) = Some (EmptyString, last) ->
      parse_u64 last = Some n -> (0 < n)%Z -> (0 < size)%Z -> asks rq layout size (Z.max 0 (size - n)) (size - 1)
  | asks_part value before part after :
      query_param (default EmptyString (rr_query rq)) "partNumber" = Some value ->
      parse_u32 value = Some (Z.of_nat (length before) + 1)%Z -> (Z.of_nat (length before) < MAX_PART_NUMBER)%Z ->
      has_header (rr_headers rq) "range" = false -> layout = Some (before ++ part :: after) -> (0 < op_size part)%Z ->
      asks rq layout size (total before) (total before + op_size part - 1).

Lemma digit_of_nonneg a d : digit_of a = Some d -> (0 <= d)%Z.
Proof. unfold digit_of. destruct (_ && _) eqn:E; [|done]. intros [= <-]. apply andb_true_iff in E as [E%Z.leb_le _]. lia. Qed.

Lemma parse_digits_nonneg s : forall acc n, (0 <= acc)%Z -> parse_digits acc s = Some n -> (0 <= n)%Z.
Proof.
  induction s as [|a s IH]; intros acc n Hacc; cbn; [by intros [= <-]|]. intros H. apply bind_Some in H as (d & Hd & H).
  apply digit_of_nonneg in Hd. destruct (_ <? _)%Z; [|done]. eapply IH; [|exact H]. lia.
Qed.

Lemma parse_u64_nonneg s n : parse_u64 s = Some n -> (0 <= n)%Z.
Proof. unfold parse_u64. case_bool_decide; [done|]. by apply parse_digits_nonneg. Qed.

Lemma total_app l l' : total (l ++ l') = (total l + total l')%Z.
Proof. induction l as [|p l IH]; cbn; [done|]. unfold total in *. cbn. rewrite IH. lia. Qed.

Lemma total_nonneg l : Forall (fun p => 0 <= op_size p)%Z l -> (0 <= total l)%Z.
Proof. induction 1 as [|p l Hp Hl IH]; [done|]. unfold total in *. cbn. lia. Qed.

Lemma sizes_fold parts acc :
  (0 <= acc)%Z -> Forall (fun p => 0 <= op_size p)%Z parts -> (acc + total parts < 2 ^ 64)%Z ->
  foldl (fun acc p => u64 (acc + op_size p)) acc parts = (acc + total parts)%Z.
Proof.
  intros Ha Hp. revert acc Ha. induction Hp as [|p l Hp Hl IH]; intros acc Ha; unfold total in *; cbn; [lia|].
  intros Hlt. pose proof (total_nonneg l Hl) as Hn. unfold total in Hn. rewrite u64_small by lia. rewrite IH; lia.
Qed.

(** *** Ranges *)

Lemma parse_range_asks rq layout size s e :
  (0 <= size < 2 ^ 63)%Z -> asks rq layout size s e -> query_param (default EmptyString (rr_query rq)) "partNumber" = None ->
  exists r, parse_range_header (rr_headers rq) size = Range r /\ br_start r = s /\ default (size - 1)%Z (br_end r) = e /\
    (0 <= s <= e)%Z /\ (e < size)%Z.
Proof.
  intros Hs H Hp. destruct H as [first last a b _ Hr Hf Hl Ha Hb Hab Hlt|first a _ Hr Hf Ha Hlt|last n _ Hr Hn Hpos Hsize|]; [| | |congruence].
  all: unfold range_texts in Hr; apply bind_Some in Hr as (v & Hv & Hr); unfold parse_range_header; rewrite Hv;
    change (strip_prefix "bytes=" v ≫= split_once "-"%char) with (rest ← strip_prefix "bytes=" v; split_once "-"%char rest); rewrite Hr.
  - rewrite bool_decide_false, Ha by done. rewrite bool_decide_false, Hb by done. cbn. apply parse_u64_nonneg in Ha.
    rewrite (proj2 (Z.leb_gt _ _)) by lia. rewrite u64_small by lia.
    eexists. split; [done|]. cbn. repeat split; lia.
  - rewrite bool_decide_false, Ha by done. cbn. rewrite (proj2 (Z.leb_gt _ _)) by lia. apply parse_u64_nonneg in Ha.
    eexists. split; [done|]. cbn. repeat split; lia.
  - cbn. rewrite Hn, (proj2 (Z.eqb_neq n 0)), (proj2 (Z.eqb_neq size 0)) by lia. cbn.
    eexists. split; [done|]. cbn. repeat split; lia.
Qed.

Lemma select_part_asks record before part after size :
  o_parts record = Some (before ++ part :: after) -> Forall (fun p => 0 <= op_size p)%Z (before ++ part :: after) ->
  total (before ++ part :: after) = size -> (size < 2 ^ 63)%Z -> (0 < op_size part)%Z ->
  select_part record (Z.of_nat (length before) + 1) =
    Ok {| ps_range := Some {| br_start := total before; br_end := Some (total before + op_size part - 1)%Z |};
          ps_parts_count := Some (count_u32 (length (before ++ part :: after))); ps_checksum := op_checksum part |} /\
  (0 <= total before)%Z /\ (total before + op_size part <= size)%Z.
Proof.
  intros Hparts Hp Ht Hs Hpos. rewrite total_app in Ht. apply Forall_app in Hp as [Hb [_ Ha]%Forall_cons].
  pose proof (total_nonneg _ Hb). pose proof (total_nonneg _ Ha). unfold total in Ht at 2. cbn in Ht. fold (total after) in Ht.
  split; [|lia]. unfold select_part. rewrite Hparts, (proj2 (Z.ltb_ge _ 1)) by lia.
  replace (Z.to_nat (Z.of_nat (length before) + 1 - 1)) with (length before) by lia.
  rewrite list_lookup_middle by done. rewrite take_app_length. unfold sizes_before.
  rewrite sizes_fold by (done || lia). rewrite (proj2 (Z.ltb_lt 0 _)) by lia. rewrite Z.add_0_l. do 4 f_equal. by u64_simpl.
Qed.

(** The answer with these headers, or the panic of the builder. *)
Definition answered (status : Z) (headers : list (string * string)) (body : Stream) : outcome ArcaError ReadAnswer :=
  if headers_ok headers then Ok (ReadResponse {| rs_status := status; rs_headers := headers; rs_body := body |}) else Panic.

Lemma respond_answered st hs body a : act_map ReadResponse (respond st hs body) a = (a, answered st hs body).
Proof. unfold act_map, act_bind, respond, answered. by destruct (headers_ok hs). Qed.

(** The steps of GetObject. *)
Lemma get_content_steps env io b k rq record n record' ssec part range st len cr body a :
  let resource := object_resource b k in
  is_some (head_bucket b (app_meta a)) = true ->
  lookup_record b k (query_param (default EmptyString (rr_query rq)) "versionId") resource a = (a, Ok (LFound record n)) ->
  read_checks b k rq record resource a = (a, Ok (CheckedObject record' ssec part)) ->
  byte_range part (parse_range_header (rr_headers rq) (o_size record')) resource = Ok range ->
  extent (u64 (o_size record' - 1)) (o_size record') part range = (st, len, cr) ->
  open_content env io record' ssec range resource a = (a, Ok body) ->
  get_content env io b k rq a = (a, answered st (get_headers rq record' n ssec part st len cr) body).
Proof.
  intros resource Hb Hl Hc Hr He Ho. unfold get_content. fold resource.
  assert (require_bucket b resource a = (a, Ok tt)) as Hbucket
    by (unfold require_bucket, act_bind, ask; by destruct (head_bucket b (app_meta a))).
  rewrite (act_bind_run _ _ _ _ _ Hbucket), (act_bind_run _ _ _ _ _ Hl), (act_bind_run _ _ _ _ _ Hc).
  erewrite act_bind_run by (unfold lift; by rewrite Hr). rewrite He.
  rewrite (act_bind_run _ _ _ _ _ Ho). apply respond_answered.
Qed.

Lemma lookup_found b k vid resource a record :
  version_or_current b k vid a = Some record -> o_is_delete_marker record = false ->
  lookup_record b k vid resource a = (a, Ok (LFound record (tag_count record (app_meta a)))).
Proof.
  intros Hr Hm. unfold lookup_record, version_or_current, act_bind, ask, get_object_version_with_tag_count, get_object_with_tag_count in *.
  destruct vid; rewrite Hr; cbn; [by rewrite Hm|done].
Qed.

Lemma length_substring n m s : (n + m <= String.length s)%nat -> String.length (String.substring n m s) = m.
Proof.
  revert n m. induction s as [|c s IH]; intros [|n] [|m] H; cbn in *; try lia.
  - f_equal. apply IH. lia.
  - apply IH. lia.
  - apply IH. lia.
Qed.

Lemma set_parts_fields parts r :
  o_blob_id (set_parts parts r) = o_blob_id r /\ o_size (set_parts parts r) = o_size r /\ o_parts (set_parts parts r) = parts.
Proof. by destruct r. Qed.

Definition content_range_text (s e size : Z) : string :=
  "bytes " +:+ u64_to_string s +:+ "-" +:+ u64_to_string e +:+ "/" +:+ u64_to_string size.

(** The checks of a request for a range or a part, and the bytes they lead to. *)
Lemma asked_range b k rq record a size s e :
  let resource := object_resource b k in
  let layout := get_object_parts b k (o_version_id record) (app_meta a) in
  o_encryption_algorithm record <> Some "SSE-C" ->
  check_conditionals (rr_headers rq) (o_etag record) (o_last_modified record) true = None ->
  is_ok (extract_ssec_key (rr_headers rq) resource) = true -> o_size record = size -> (0 <= size < 2 ^ 63)%Z ->
  (forall parts, layout = Some parts -> Forall (fun p => 0 <= op_size p)%Z parts /\ total parts = size) ->
  asks rq layout size s e ->
  ((0 <= s <= e)%Z /\ (e < size)%Z) /\
  exists record' part r, read_checks b k rq record resource a = (a, Ok (CheckedObject record' None part)) /\
    o_blob_id record' = o_blob_id record /\ o_size record' = size /\
    byte_range part (parse_range_header (rr_headers rq) size) resource = Ok (Some r) /\
    br_start r = s /\ default (size - 1)%Z (br_end r) = e.
Proof.
  intros resource layout He Hc Hk Hsize Hlt Hlay Hask.
  assert (forall (P : Prop), (forall x, extract_ssec_key (rr_headers rq) resource = Ok x -> P) -> P) as Hkey
    by (intros P HP; destruct (extract_ssec_key (rr_headers rq) resource); [by eapply HP|done..]).
  apply Hkey. intros key Ek. unfold read_checks, act_bind, lift. rewrite Hc, Ek, bool_decide_false by done. cbn [andb].
  unfold wants_part_number. destruct (query_param (default EmptyString (rr_query rq)) "partNumber") as [value|] eqn:Ep; cbn [is_some].
  - destruct Hask as [| | |value' before part after Ev Hn Hmax Hrange El Hpos]; [congruence..|]. rewrite Ep in Ev. injection Ev as <-.
    destruct (Hlay _ El) as [Hp Ht].
    destruct (set_parts_fields (Some (before ++ part :: after)) record) as (Eb & Es & Eparts).
    destruct (select_part_asks _ before part after size Eparts Hp Ht) as (Esel & H1 & H2); [lia..|].
    split; [lia|]. unfold load_parts, ask. fold layout. rewrite El. unfold part_selection. rewrite Ep, Hn. cbn [mbind option_bind].
    rewrite (proj2 (Z.leb_le 1 _)), (proj2 (Z.leb_le _ MAX_PART_NUMBER)) by lia. cbn [andb]. rewrite Hrange, Esel.
    eexists _, _, _. split; [done|]. rewrite Eb, Es. done.
  - destruct (parse_range_asks rq layout size s e Hlt Hask Ep) as (r & Hr & Hs' & He' & H1 & H2). split; [lia|].
    unfold part_selection. rewrite Ep. eexists record, None, r. split; [done|]. by rewrite Hr.
Qed.

(** C13. A range or part request gets exactly the bytes it names.  For an object that is
    not under a customer key and whose blob the store reads back, a GET with
    [Range: bytes=A-B], [bytes=A-] or [bytes=-N], or with [?partNumber=N] of an object
    assembled from parts, is answered with status 206, the bytes from the first to the
    last one named (clipped to the object), their number as [Content-Length] and their
    position as [Content-Range]; the arithmetic of the code does not overflow.  Only
    if a header of the response is not valid does the builder panic instead.  The
    object is smaller than 2^63 bytes, its recorded parts add up to it, and the
    request meets its conditions and carries no malformed customer key. *)
Theorem range_request_exact (env : ServerEnv) (io : ReadIO) (b k : string) (rq : ReadRequest) (a : AppState)
    (record : ObjectRecord) (data : string) (s e : Z) :
  let size := Z.of_nat (String.length data) in
  let layout := get_object_parts b k (o_version_id record) (app_meta a) in
  is_some (head_bucket b (app_meta a)) = true ->
  version_or_current b k (query_param (default EmptyString (rr_query rq)) "versionId") a = Some record ->
  o_is_delete_marker record = false -> o_encryption_algorithm record <> Some "SSE-C" ->
  check_conditionals (rr_headers rq) (o_etag record) (o_last_modified record) true = None ->
  is_ok (extract_ssec_key (rr_headers rq) (object_resource b k)) = true ->
  reads_back io (o_blob_id record) data -> o_size record = size -> (size < 2 ^ 63)%Z ->
  (forall parts, layout = Some parts -> Forall (fun p => 0 <= op_size p)%Z parts /\ total parts = size) ->
  asks rq layout size s e ->
  exists hs ps,
    get_content env io b k rq a = (a, answered 206 hs (ps, Ok tt)) /\
    cat ps = String.substring (Z.to_nat s) (Z.to_nat (e - s + 1)) data /\ Z.of_nat (String.length (cat ps)) = (e - s + 1)%Z /\
    ("Content-Length", u64_to_string (e - s + 1)) ∈ hs /\ ("Content-Range", content_range_text s e size) ∈ hs.
Proof.
  intros size layout Hb Hv Hm He Hc Hk [_ Hst] Hsize Hlt Hlay Hask.
  destruct (asked_range b k rq record a size s e) as (Hse & record' & part & r & Hck & Ebl & Es & Hr & <- & <-); [done..|lia|done|done|].
  cbv zeta in Hst. change (Z.of_nat (String.length data)) with size in Hst. destruct Hse as [Hse He'].
  destruct (Hst r) as (ps & Hget & Hcat); [exact Hse|exact He'|].
  assert (extent (u64 (size - 1)) size part (Some r) = (206%Z, (default (size - 1) (br_end r) - br_start r + 1)%Z,
    Some (content_range_text (br_start r) (default (size - 1)%Z (br_end r)) size))) as Hext.
  { unfold extent. rewrite (u64_small (size - 1)) by lia. by u64_simpl. }
  eexists _, ps. split; [|split; [done|]].
  - eapply get_content_steps; [done|by apply lookup_found|exact Hck|by rewrite Es|by rewrite Es|]. unfold open_content, stored. rewrite Ebl.
    by rewrite Hget.
  - split; [rewrite Hcat, length_substring; lia|]. unfold get_headers, base_headers. split; [apply elem_of_app; left; do 2 right; left|].
    rewrite !elem_of_app. right. right. right. left. by left.
Qed.

(** ** A download is the upload *)

Context {json : ReplicationJson}.

(** [m] leaves the metadata alone. *)
Definition meta_kept {E A : Type} (m : hact E A) : Prop := forall a, app_meta (m a).1 = app_meta a.

Lemma meta_kept_bind {E A B : Type} (m : hact E A) (k : A -> hact E B) :
  meta_kept m -> (forall x, meta_kept (k x)) -> meta_kept (act_bind m k).
Proof. intros Hm Hk a. specialize (Hm a). unfold act_bind. destruct (m a) as [a1 [x| |]]; [|done..]. by rewrite Hk. Qed.

Lemma replication_enabled_kept {E} instant b : meta_kept (E:=E) (replication_enabled_for instant b).
Proof. intros a. unfold replication_enabled_for, act_bind, ask. cbn. by destruct (cached_bucket_flag _ _ _). Qed.

Lemma maybe_emit_kept {E} now uuids input : meta_kept (E:=E) (maybe_emit now uuids input).
Proof.
  intros a. unfold maybe_emit. destruct (is_replica_write _); [done|]. unfold act_bind, ask.
  destruct (fetch_replication_config _ _); [|done]. unfold on_journal. by destruct (emit_rules _ _ _ _ _).
Qed.

(** The metadata after the replication status of the row was set, or not. *)
Definition restamped (b k : string) (s s' : MetaStore) : Prop :=
  s' = s \/ exists v st, s' = (set_object_replication_status b k v st s).1.

Lemma emit_and_stamp_restamps now instant uuids headers b k v event tags a :
  restamped b k (app_meta a) (app_meta (emit_and_stamp now instant uuids headers b k v event tags a).1).
Proof.
  unfold emit_and_stamp. set (hp := extract_replication_headers headers).
  assert (meta_kept (E:=ArcaError) (if is_replica_write hp then act_ret true else replication_enabled_for instant b)) as He
    by (destruct (is_replica_write hp); [done|apply replication_enabled_kept]).
  specialize (He a). unfold act_bind at 1. destruct (_ a) as [a1 [enabled| |]]; [|by left..]. cbn [fst] in He. rewrite <- He.
  destruct enabled; [|by left]. cbn [negb]. set (input := {| em_bucket := b |}).
  pose proof (maybe_emit_kept (E:=ArcaError) now uuids input a1) as Hm.
  unfold act_bind at 1. destruct (maybe_emit now uuids input a1) as [a2 [[st|]| |]]; cbn [fst] in Hm; rewrite <- Hm; [|by left..].
  right. exists v, (Some (as_header st)). unfold act_bind, logged, on_meta.
  by destruct (set_object_replication_status b k v _ (app_meta a2)) as [s2 [[]|e|]].
Qed.

Lemma get_status_update (P : ObjRow -> Prop) `{!forall x, Decision (P x)} b k st s r :
  rows_ok (ms_objects s) -> get_object b k s = Some r ->
  exists st', get_object b k (with_objects (update_where P (map_row (set_replication_status st)) (ms_objects s)) s) =
    Some (set_replication_status st' r).
Proof.
  intros Hs (i & x & Hi & Hk & Hl & Hm & ->)%get_object_Some; [|done].
  set (s' := with_objects _ s).
  assert (ms_objects s' = update_where P (map_row (set_replication_status st)) (ms_objects s)) as Ho by (by destruct s).
  assert (rows_ok (ms_objects s')) as Hs'
    by (rewrite Ho; apply (rows_ok_update _ _ (set_replication_status st)); [done|by intros []|done]).
  exists (if decide (P x) then st else o_replication_status (row_rec x)). apply get_object_Some; [done|].
  exists i, (if decide (P x) then map_row (set_replication_status st) x else x).
  rewrite Ho, lookup_update_where, Hi. cbn [fmap option_fmap option_map].
  destruct (decide (P x)); destruct x as [[] q]; done.
Qed.

Lemma get_restamped b k s s' r :
  rows_ok (ms_objects s) -> restamped b k s s' -> get_object b k s = Some r ->
  exists st, get_object b k s' = Some (set_replication_status st r).
Proof.
  intros Hs [->|(v & st & ->)] Hg.
  - exists (o_replication_status r). rewrite Hg. by destruct r.
  - unfold set_object_replication_status, act_bind. destruct v; by apply get_status_update.
Qed.

Lemma restamped_buckets b k s s' : restamped b k s s' -> ms_buckets s' = ms_buckets s.
Proof. intros [->|(v & st & ->)]; [done|]. unfold set_object_replication_status, act_bind. by destruct s, v. Qed.

(** *** What a PUT that is answered did *)

Lemma validate_each_fresh tags : forall seen, validate_each seen tags = Ok tt -> NoDup tags.*1 /\ forall k, k ∈ tags.*1 -> k ∉ seen.
Proof.
  induction tags as [|[k v] tags IH]; intros seen; [intros _; split; [constructor|by intros k ?%not_elem_of_nil]|].
  cbn [validate_each]. repeat (destruct (_ <? _)%nat; [done|]). case_bool_decide; [done|]. case_bool_decide as Hs; [done|].
  intros [Hn Hk]%IH. cbn. split.
  - constructor; [|done]. intros Hin. apply (Hk k Hin). by left.
  - intros k' [->|Hin]%elem_of_cons; [done|]. intros Hin'. apply (Hk k' Hin). by right.
Qed.

Lemma inline_tags_distinct headers tags : inline_tags headers = Ok tags -> NoDup tags.*1.
Proof.
  unfold inline_tags, parse_tagging_header, validate_tags. destruct (hget_str headers "x-amz-tagging"); [|intros [= <-]; constructor].
  destruct (_ <? _)%nat; [done|]. destruct (validate_each [] _) as [[]|e|] eqn:E; [|done..]. cbn. intros [= <-].
  by apply validate_each_fresh in E as [? _].
Qed.

Lemma lift_ok_inv {E E' A : Type} (f : E -> E') (r : outcome E A) a a' x : lift f r a = (a', Ok x) -> a' = a /\ r = Ok x.
Proof. unfold lift. destruct r; by intros [= <- <-]. Qed.

Lemma refused_ok {A : Type} codes discard (m : hact ArcaError A) a a' x :
  refused codes discard m a = (a', Ok x) -> m a = (a', Ok x).
Proof. unfold refused. destruct (m a) as [a1 [y|[e|e|e]|]]; try done. by destruct (bool_decide _). Qed.

Lemma delete_old_kept old : meta_kept (delete_old old).
Proof. intros a. by destruct old. Qed.

Lemma require_bucket_ok b resource a a' : require_bucket b resource a = (a', Ok tt) -> a' = a /\ head_bucket b (app_meta a) <> None.
Proof. unfold require_bucket, act_bind, ask. destruct (head_bucket b (app_meta a)); by intros [= <-]. Qed.

Lemma put_conditions_ok headers b k resource a a' : put_conditions headers b k resource a = (a', Ok tt) -> a' = a.
Proof.
  unfold put_conditions, act_bind, ask, precondition_failed_at, act_fail, act_ret. intros H.
  repeat (case_match; try done); by injection H as <-.
Qed.

Lemma checked_ok (c : bool) (e : ArcaError) a a' :
  (if c then act_fail e else act_ret tt : hact ArcaError unit) a = (a', Ok tt) -> a' = a.
Proof. by destruct c; intros [= <-]. Qed.

Lemma sidecar_written_ok io id meta a a' : write_sidecar_or_discard io id meta a = (a', Ok tt) -> a' = a.
Proof. unfold write_sidecar_or_discard. destruct (io_write_sidecar io meta); by intros [= <-]. Qed.

Section upload.
Variables (env : ServerEnv) (io : BlobIO) (d : Draw).

(** The row PutObject stores. *)
Definition put_record (b k : string) (rq : WriteRequest) (p : BlobPutResult)
    (lock : option string * option Z * option string) (checksum : option string * option string) : ObjectRecord :=
  written_record b k (io_blob_id io) p (bp_etag p) (hget_str (wq_headers rq) "content-type") (dr_now d)
    (extract_metadata (wq_headers rq)) (be_algorithm <$> bp_encryption p) (key_column <$> bp_encryption p) (wq_user rq) lock
    (default "STANDARD" (hget_str (wq_headers rq) "x-amz-storage-class")) checksum None.

Lemma put_object_body_ok b k rq a a' ans :
  put_object_body env io d b k rq a = (a', Ok ans) -> extract_ssec_key (wq_headers rq) (object_resource b k) = Ok None ->
  exists tags body p lock checksum old vid s1,
    head_bucket b (app_meta a) <> None /\ inline_tags (wq_headers rq) = Ok tags /\
    verified_body_stream_requiring (wq_body rq) (wq_headers rq) (max_body env) (object_resource b k) (wq_chunk_verifier rq) None = Ok body /\
    io_put io body.1 = Ok p /\
    let record := put_record b k rq p lock checksum in
    put_object_tagged_if (dr_uuid d) record (write_precondition (wq_headers rq)) tags (app_meta a) = (s1, Ok (old, vid)) /\
    restamped b k s1 (app_meta a') /\ wa_etag ans = quoted (bp_etag p) /\ wa_version_id ans = vid.
Proof.
  intros H Hk. unfold put_object_body in H.
  apply act_bind_ok in H as (a1 & [] & [-> Hb]%require_bucket_ok & H).
  apply act_bind_ok in H as (a1 & [] & ->%put_conditions_ok & H).
  apply act_bind_ok in H as (a1 & tags & [-> Ht]%lift_ok_inv & H).
  apply act_bind_ok in H as (a1 & [] & ->%checked_ok & H).
  apply act_bind_ok in H as (a1 & body & [-> Hbody]%lift_ok_inv & H).
  rewrite Hk in H. apply act_bind_ok in H as (a1 & key & [-> [= <-]]%lift_ok_inv & H).
  apply act_bind_ok in H as (a1 & [] & ->%checked_ok & H).
  apply act_bind_ok in H as (a1 & written & Hw & H).
  apply act_bind_ok in Hw as (a2 & p & [-> Hp]%lift_ok_inv & [= <- <-]).
  cbn [fst snd] in H. apply act_bind_ok in H as (a1 & checksum & Hc & H).
  assert (a1 = a) as ->.
  { destruct (verify body.2 (bp_etag p) (object_resource b k)); by injection Hc as <-. }
  apply act_bind_ok in H as (a1 & [] & ->%sidecar_written_ok & H).
  apply act_bind_ok in H as (a1 & lock & [= <- Hlock] & H).
  fold (put_record b k rq p lock checksum) in H.
  apply act_bind_ok in H as (a1 & [old vid] & Hput%refused_ok & H).
  unfold on_meta in Hput. destruct (put_object_tagged_if _ _ _ _ _) as [s1 r1] eqn:Eput. injection Hput as Ha1 ->.
  apply act_bind_ok in H as (a2 & [] & Hold & H). pose proof (delete_old_kept old a1) as Hm. cbn [fst] in Hold.
  rewrite Hold, <- Ha1 in Hm. cbn [fst app_meta] in Hm.
  apply act_bind_ok in H as (a3 & status & Hann & [= <- <-]). unfold announce in Hann.
  apply act_bind_ok in Hann as (a4 & [] & [= <-] & Hst).
  match type of Hst with emit_and_stamp ?n ?i ?u ?h ?bb ?kk ?v ?e ?t ?aa = _ =>
    pose proof (emit_and_stamp_restamps n i u h bb kk v e t aa) as Hr end.
  rewrite Hst in Hr. cbn [fst app_meta] in Hr. rewrite Hm in Hr.
  exists tags, body, p, lock, checksum, old, vid, s1. done.
Qed.
End upload.

(** The promise of the blob store: a put that succeeds took the whole stream, reports
    its size, is not under a customer key, and is read back. *)
Definition keeps_uploads (io : BlobIO) (rio : ReadIO) : Prop :=
  forall ps e p, io_put io (ps, e) = Ok p ->
    e = Ok tt /\ bp_size p = Z.of_nat (String.length (cat ps)) /\ reads_back rio (io_blob_id io) (cat ps) /\
    (be_algorithm <$> bp_encryption p) <> Some "SSE-C".

(** A GET of the whole current object: without query parameters, a range, conditions
    or a customer key. *)
Definition plain_get (rq : ReadRequest) : Prop :=
  form_parse (default EmptyString (rr_query rq)) = [] /\
  forall n, n ∈ ["range"; "if-match"; "if-none-match"; "if-modified-since"; "if-unmodified-since";
    "x-amz-server-side-encryption-customer-algorithm"; "x-amz-server-side-encryption-customer-key";
    "x-amz-server-side-encryption-customer-key-md5"] -> hget_str (rr_headers rq) n = None.

Lemma plain_checks b k rq record a :
  plain_get rq -> o_encryption_algorithm record <> Some "SSE-C" ->
  read_checks b k rq record (object_resource b k) a = (a, Ok (CheckedObject record None None)) /\
  parse_range_header (rr_headers rq) (o_size record) = NoRange.
Proof.
  intros [Hq Hh] He. unfold read_checks, check_conditionals, extract_ssec_key, extract_customer_key, parse_range_header.
  cbn [String.append]. rewrite !Hh by (repeat (try apply list_elem_of_here; apply list_elem_of_further)).
  unfold act_bind, lift, wants_part_number, part_selection, query_param. rewrite Hq, bool_decide_false by done. done.
Qed.

Lemma plain_override rq n : plain_get rq -> override (rr_query rq) n = None.
Proof. intros [Hq _]. unfold override. destruct (rr_query rq) as [q|]; [|done]. cbn in *. by rewrite Hq. Qed.

(** The headers of the answer to a plain GET. *)
Lemma plain_headers rq record n size :
  plain_get rq ->
  let hs := get_headers rq record n None None 200 size None in
  ("Content-Length", u64_to_string size) ∈ hs /\ ("ETag", quoted (o_etag record)) ∈ hs /\
  ("Content-Type", content_type_of record) ∈ hs /\
  (forall v, o_version_id record = Some v -> ("x-amz-version-id", v) ∈ hs) /\
  (forall m v, o_metadata record !! m = Some v -> header_value_ok (string_to_latin1 v) = true -> (m, string_to_latin1 v) ∈ hs).
Proof.
  intros Hq hs. unfold hs, get_headers. rewrite !(plain_override rq) by done. unfold base_headers. split_and!.
  - apply elem_of_app. left. do 2 right. left.
  - apply elem_of_app. left. left.
  - apply elem_of_app. left. do 3 right. left.
  - intros v ->. apply elem_of_app. right. apply elem_of_app. left. left.
  - intros m v Hm Hv. do 15 (apply elem_of_app; right). apply list_elem_of_omap. exists (m, v).
    split; [by apply elem_of_map_to_list|]. cbn [fst snd]. cbv zeta. by rewrite Hv.
Qed.

End reads.

(** ** At a concrete object *)

#[local] Instance read_codecs : BodyCodecs := {|
  crc_or_sha1 _ data := data; b64_decode s := Some s; b64_encode s := s; hex_decode s := Some s |}.

#[local] Instance read_lock_lib : LockLib := {|
  parse_from_rfc3339 _ := None; parse_from_rfc2822 _ := None; parse_http_date _ := None;
  to_rfc3339 _ := "date"; min_instant := 0; max_instant := 1000; lock_to_json _ := "lock"; lock_of_json _ := None |}.

#[local] Instance read_write_lib : WriteLib := {| md5_of s := s; url_decode s := Some s |}.
#[local] Instance read_rjson : ReplicationJson := {| replication_to_json _ := "rules"; replication_of_json _ := None |}.
#[local] Instance read_lib : ReadLib := {|
  header_name_ok _ := true; header_value_ok _ := true; http_date _ := "date" |}.

(** A store with room for one blob, and its reads. *)
Definition one_blob : BlobIO := {|
  io_blob_id := "blob";
  io_put st := match st.2 with
               | Ok _ => if bool_decide (cat st.1 = "data")
                         then Ok {| bp_size := 4; bp_etag := "etag"; bp_encryption := None; bp_compression := None;
                                    bp_composite_parts := None |}
                         else Err (Internal "full")
               | _ => Err (Internal "read stream")
               end;
  io_put_with_key _ _ := Err (Internal "no keys");
  io_get _ _ := Ok ([], Ok tt);
  io_get_with_key _ _ _ _ := Ok ([], Ok tt);
  io_concat _ := Err (Internal "no parts");
  io_write_sidecar _ := Ok tt |}.

Definition one_blob_reads : ReadIO := {|
  ri_get _ range :=
    Ok ([match range with
         | None => "data"
         | Some r => String.substring (Z.to_nat (br_start r)) (Z.to_nat (default 3%Z (br_end r) - br_start r + 1)) "data"
         end], Ok tt);
  ri_get_with_key _ _ _ _ _ := Err (Internal "no keys") |}.

Lemma one_blob_reads_back : reads_back one_blob_reads "blob" "data".
Proof.
  split; [by eexists|]. intros r _ _. eexists. split; [done|]. unfold cat. cbn [foldr]. by rewrite string_app_empty.
Qed.

Lemma one_blob_keeps : keeps_uploads one_blob one_blob_reads.
Proof.
  intros ps e p. cbn [io_put one_blob fst snd]. destruct e as [[]|e|]; [|done..]. case_bool_decide as E; [|done]. intros [= <-]. rewrite E.
  split_and!; [done..|apply one_blob_reads_back|done].
Qed.

Definition down_start : AppState := (on_meta (create_bucket_owned 0 "bucket" "owner") empty_app).1.

Definition down_request : WriteRequest := run_request [("content-type", "text/plain"); ("x-amz-meta-color", "red")] None.

Definition down_stored : AppState :=
  (put_object_body run_env one_blob (run_draw 5 "v1") "bucket" "key" down_request down_start).1.

Definition down_answer : WriteAnswer := {|
  wa_etag := quoted "etag"; wa_version_id := None; wa_replication_status := None; wa_customer_key_md5 := None;
  wa_encrypted := false; wa_checksum := None |}.

Lemma down_stored_run :
  put_object_body run_env one_blob (run_draw 5 "v1") "bucket" "key" down_request down_start = (down_stored, Ok down_answer).
Proof.
  unfold down_stored. rewrite (surjective_pairing (put_object_body _ _ _ _ _ _ _)) at 1. f_equal.
Qed.

Lemma down_body :
  match verified_body_stream_requiring (wq_body down_request) (wq_headers down_request) (max_body run_env)
      (object_resource "bucket" "key") None None with
  | Ok body => cat body.1.1 = "data"
  | _ => False
  end.
Proof. vm_compute. reflexivity. Qed.

Definition down_get (headers : Headers) : ReadRequest := {| rr_headers := headers; rr_query := None |}.

Lemma down_plain : plain_get (down_get []).
Proof. split; [by vm_compute|done]. Qed.


Definition down_record : ObjectRecord :=
  match get_object "bucket" "key" (app_meta down_stored) with Some r => r | None => sample_row "blob" 5 None None None end.

(** The second and the third byte of it. *)
Lemma range_request_exact_witness :
  exists hs ps,
    get_content run_env one_blob_reads "bucket" "key" (down_get [("range", "bytes=1-2")]) down_stored =
      (down_stored, answered 206 hs (ps, Ok tt)) /\
    cat ps = "at" /\ ("Content-Length", "2") ∈ hs /\ ("Content-Range", "bytes 1-2/4") ∈ hs.
Proof.
  destruct (range_request_exact run_env one_blob_reads "bucket" "key" (down_get [("range", "bytes=1-2")]) down_stored
    down_record "data" 1 2) as (hs & ps & Hget & Hcat & _ & Hl & Hr).
  - by vm_compute.
  - by vm_compute.
  - by vm_compute.
  - by vm_compute.
  - by vm_compute.
  - by vm_compute.
  - exact one_blob_reads_back.
  - by vm_compute.
  - done.
  - intros parts H. vm_compute in H. done.
  - pose proof (asks_span (down_get [("range", "bytes=1-2")])
      (get_object_parts "bucket" "key" (o_version_id down_record) (app_meta down_stored)) 4 "1" "2" 1 2) as H.
    apply H; by vm_compute.
  - exists hs, ps. split; [exact Hget|]. split; [exact Hcat|]. split; [exact Hl|exact Hr].
Defined.

(** ** Where the handlers fall short *)

(** A range that ends before it starts is served: the length it announces wraps around. *)
Lemma inverted_range_wraps :
  parse_range_header [("range", "bytes=3-1")] 4 = Range {| br_start := 3; br_end := Some 1%Z |} /\
  extent 3 4 None (Some {| br_start := 3; br_end := Some 1%Z |}) = (206%Z, (2 ^ 64 - 1)%Z, Some "bytes 3-1/4").
Proof. by vm_compute. Qed.

(** A part without bytes has no range, so the whole object is read under a length of zero. *)
Lemma empty_part_reads_all :
  let part := select_part (set_parts (Some [ {| op_part_number := 1; op_size := 4; op_checksum := None |};
                                             {| op_part_number := 2; op_size := 0; op_checksum := None |} ]) down_record) 2 in
  match part with
  | Ok p => byte_range (Some p) NoRange "/bucket/key" = Ok None /\ extent 3 4 (Some p) None = (206%Z, 0%Z, None)
  | _ => False
  end.
Proof. vm_compute. done. Qed.
